(* ===== verification/_CoqProject ===== *)
-Q . S2P
Prelude.v
CBytes.v
RingBuffer.v
HevList.v
RBTree.v
RBTreeRep.v
RBTreeExec.v
RBTreeInsert.v
RBTreeErase.v
RBTreeUnlink.v
RBTreeIter.v
RBTreeSearch.v
Authenticator.v
MappedDNS.v
MappedDNSHist.v
MappedDNSQuery.v
SocketIO.v
SocksMisc.v
TaskIO.v
Socks5.v
SocksServer.v
SocksClient.v
SocksNet.v
SocksHandshake.v
SocksUDP.v
Splice.v
SocksService.v
LwipAddr.v
Pbuf.v
PbufRep.v
Interact.v
RingPos.v
SessionTCP.v
SessionTCPInv.v
SessionUDP.v
SessionUDPInv.v
RBTreeCached.v
TaskSystem.v
TaskSystemInv.v
TaskSystemRun.v
TaskSystemFair.v
TaskMutex.v
Tunnel.v
InetChksum.v
SliceAllocator.v
CNumeral.v
Config.v
StopProtocol.v
Lifecycle.v
IP4Frag.v
IP4ReassRep.v
IP4Reass.v
IP4RoundTrip.v
RustStd.v
PeerRuntime.v
LanRoutes.v
AccessPolicy.v
RouteMatcher.v
DatagramScheduler.v
TuicFrag.v
Protocol.v
Provisioning.v
