(* ===== verification/Prelude.v ===== *)
(** * LanTunnel: a verification library

    Two parts of the repository are verified: the packet tunnel of the Android application,
    written in C, and the components of the Rust workspace that decide what reaches whom.

    The tunnel (src/apps/android-proxy/app/src/main/jni/hev-socks5-tunnel, below "the
    repository directory") turns the packets of a network device into SOCKS5 connections.
    A user-space TCP/IP stack (third-part/lwip) terminates the connections of the device;
    for each of them a session (src/hev-socks5-session-*.c) talks to a SOCKS5 server with
    the client of src/core/src, in a task of a cooperative scheduler
    (third-part/hev-task-system).  src/core/src also contains the SOCKS5 server and the UDP
    relay.  Mapped DNS (src/hev-mapped-dns.c) gives private addresses to names, so that
    connections to such an address go out by name.

    The Rust workspace (src/crates) connects the Peers of a Tunnel.  tp-core defines the
    messages between them and the gateway.  tp-client learns from the other Peers which
    private networks they export (peer_runtime.rs), installs routes to them (engine.rs,
    route_matcher.rs) and decides which inbound flows it serves (access_policy.rs).
    tp-transport queues the datagrams of all associations of a link, and tp-proxy-tuic
    carries UDP in fragments.

    ** Conventions

    A definition has the name of the C function it translates.  C integers are [Z] with the
    wrap-around of their width written out ([u8] .. [u64], [i32] below).  Memory that is
    shared by pointer is a finite map from addresses; an access to an address that is not
    allocated, an access outside a buffer, a failed assertion and [abort] are all the value
    [Fault] of [outcome], so a theorem that an operation returns [Val] is a memory-safety
    theorem.  Allocators, clocks, the kernel and other code outside the repository are
    arguments or requests whose answers are arbitrary up to stated rules.  Code that waits
    is a tree of requests ([SocketIO.proc], [Interact.prog]) or is cut at its yields; every
    such program is run against all allowed answers.

    ** Files

    - Prelude, CBytes: machine integers, [outcome], byte buffers and C strings.
    - HevList, RBTree (pointer code, statement by statement), RBTreeRep, RBTreeExec,
      RBTreeInsert, RBTreeErase, RBTreeUnlink, RBTreeIter, RBTreeSearch, RBTreeCached:
      src/misc/hev-list.c, hev-rbtree.c, hev-rbtree-cached.c.  Insertion and removal keep a
      valid red-black tree and add or remove exactly one node of the order; list operations
      refine operations on sequences.  [RBTreeSearch.KeyOrder] is the interface between the
      tree and its owners.
    - RingBuffer, RingPos: src/misc/hev-ring-buffer.c.  The buffer refines a queue with a
      part in flight; the space offered for reading never overlaps unacknowledged bytes.
    - Authenticator: hev-socks5-user.c, hev-socks5-authenticator.c refine a finite map.
    - MappedDNS, MappedDNSHist, MappedDNSQuery: src/hev-mapped-dns.c.  The cache refines a
      list in order of last use; a mapping lasts while fewer names than the cache holds are
      used; handling a query stays inside both messages and answers every A question.
    - SocketIO (programs over sockets, their Hoare logic), TaskIO (the retry loops of
      lib/io/socket), Socks5, SocksMisc, SocksServer, SocksClient, SocksNet,
      SocksHandshake, SocksUDP, Splice, SocksService: src/core/src.  A server with an
      authenticator serves only authenticated clients; client and server complete the
      handshake under every schedule; both UDP framings are round trips; the relay and the
      splicer copy faithfully.
    - LwipAddr, Pbuf, PbufRep: src/misc/hev-utils.c and lwip/src/core/pbuf.c.  Packet
      buffer chains refine sequences of bytes.
    - InetChksum: lwip/src/core/inet_chksum.c.  The three checksum routines, and the
      checksums over buffer chains with either pseudo header, compute RFC 1071.
    - IP4Frag (the code), IP4ReassRep (fragments and their helper structures in the heap),
      IP4Reass (the queue of datagrams), IP4RoundTrip: the receiving side of
      lwip/src/core/ipv4/ip4_frag.c.  The queue never holds more than four buffers and loses
      none; the pieces of a datagram give the datagram again in whatever order they arrive;
      what stays incomplete is discarded after four ticks.
    - Interact (programs against an environment with a memory), SessionTCP, SessionTCPInv,
      SessionUDP, SessionUDPInv: the sessions, with the callbacks of the stack interleaved
      at every point where the task can be switched.  Both TCP directions deliver exactly
      the bytes they received, in order; the UDP session is a bounded FIFO.
    - TaskSystem, TaskSystemInv, TaskSystemRun, TaskSystemFair, TaskMutex: scheduler, timer
      and mutex of the task library.  The scheduler always runs a task with the least key
      and starves no task; the mutex is exclusive and loses no wake-up, and locking it
      twice is a deadlock.
    - Tunnel: the sessions of src/hev-socks5-tunnel.c on the verified list and scheduler:
      order of activity, limit, eviction, stop.
    - SliceAllocator: the allocator behind [hev_malloc] (mem/slice of the task library).
      Blocks in use never overlap, freed blocks are cached up to the limit and reused last
      in first out, and nothing is lost when the allocator is destroyed.
    - CNumeral, Config: string and number functions of the C library, and src/hev-config.c
      over the documents of libyaml.  Every document is loaded or refused without an access
      outside a buffer; each section yields the values that its pairs say.
    - RustStd: what the crates use of the Rust standard library (UTF-8, text, numbers, network
      addresses and their parsers), with the round trips that the files below share.
    - Protocol: tp-core/src/protocol.rs and the codec it uses.  Every message is read back as
      it was packed, a frame that was cut is refused, whatever is accepted has the types of
      its fields and can be sent again, and the gateway's narrow parser of openings agrees
      with the endpoints.
    - PeerRuntime: tp-client/src/peer_runtime.rs.  Records of exported networks, their
      encoding, what a Peer publishes, and the directory, which refines one queue of
      exporters per network.
    - LanRoutes: the routes that engine.rs compiles from the directory and the inventory of
      the machine.  They capture exactly the exported addresses that are neither protected
      nor local, and only for the current generation of the underlay.
    - AccessPolicy: tp-client/src/access_policy.rs and the inbound path of engine.rs.  A flow
      is dialled exactly when its resolved target is allowed, and to that address only.
    - RouteMatcher: route_matcher.rs, p2p/replica.rs, overlay.rs.  A destination with two
      owners is sent to neither; the table stays within its limits.
    - DatagramScheduler: tp-transport/src/datagram_scheduler.rs.  Budgets, order, and that
      the receiver finds a frame whenever there is one.
    - TuicFrag: addr.rs, frag.rs and the packet handler of tp-proxy-tuic.  Fragments give the
      payload again in any order, with repetitions, within the time limit.
    - StopProtocol: starting and stopping from Java (src/hev-jni.c) against the worker, every
      access to shared variables a step.  Every stop returns; a late one ends the next run.
    - Lifecycle: initialisation, run and finalisation of the tunnel (src/hev-main.c,
      src/hev-socks5-tunnel.c) with a ledger of everything allocated.  A start gives back
      what it took, except what its error exits are shown to leave; a second start can free
      a control block twice.

    ** Bounds and fuel

    Loops that follow pointers take fuel.  Each has a lemma that a stated amount suffices
    (the number of nodes or buffers of the structure, the length of an input), and the
    callers pass an amount computed from the heap ([size] of the map plus one), so no
    theorem has a case for exhausted fuel.  The loops that run for the life of a session
    ([splice_loop] and the like) have no bound: their theorems hold after any number of
    rounds.  Sizes of C objects appear as hypotheses only where the source needs them
    (counters below 2^31, buffers below 2^31 bytes).  In the Rust files the recursion over
    prefixes takes 33 steps ([LanRoutes.FUEL], one per possible length), the eviction loops
    one step per queued packet and one more ([loop_fuel]), and the loop over fragments one
    per byte; the theorems say that the result is there.  Hash maps are visited in an
    arbitrary order, which is an argument; SHA-256 and the resolver of names are arguments.

    ** Not modelled

    - The TCP and UDP machines of lwIP and the rest of its IP layer: the sessions see them
      through callbacks and calls with arbitrary answers.
    - The YAML parser: the configuration is modelled from the document that it yields.
    - The tunnel devices (hev-tunnel-*.c), logger, script execution, driver loading, the
      reactor and the registration of the Java methods: system calls without data of their
      own.
    - Condition variables, channels and DNS helper threads of the task library; the context
      switch itself.
    - The rest of the Rust workspace: asynchronous tasks, sockets, TLS, QUIC, and what is
      built from them (sessions, transports, the gateway's connections, hole punching), and
      the parsing of configuration files by serde.
    - The applications in Kotlin, Swift and TypeScript: user interface and packaging. *)

From Stdlib Require Import ZArith Lia.
From stdpp Require Import base list gmap numbers.

Declare Scope hev_scope.
Delimit Scope hev_scope with hev.
#[global] Open Scope Z_scope.

(** ** Machine integers

    A w-bit C integer is a [Z]; every arithmetic result that the source keeps
    in a w-bit object is wrapped explicitly. *)

Definition u8 (x : Z) : Z := x mod 2 ^ 8.

Definition u16 (x : Z) : Z := x mod 2 ^ 16.

Definition u32 (x : Z) : Z := x mod 2 ^ 32.

(** [size_t] and [unsigned long] on the LP64 targets of the program. *)
Definition u64 (x : Z) : Z := x mod 2 ^ 64.

(** Conversion to [int] (two's complement, as every supported compiler does). *)
Definition i32 (x : Z) : Z := (x + 2 ^ 31) mod 2 ^ 32 - 2 ^ 31.

Definition INT_MIN : Z := - 2 ^ 31.
Definition INT_MAX : Z := 2 ^ 31 - 1.

Definition is_u8 (x : Z) : Prop := 0 <= x < 2 ^ 8.
Definition is_u16 (x : Z) : Prop := 0 <= x < 2 ^ 16.
Definition is_u32 (x : Z) : Prop := 0 <= x < 2 ^ 32.
Definition is_i32 (x : Z) : Prop := INT_MIN <= x <= INT_MAX.

(** ** Outcomes

    [Val] is a normal result; [Fault] stands for what C leaves undefined: an
    access outside an object, the dereference of a null or dangling pointer, or
    the use of an uninitialised one. *)

Inductive outcome (A : Type) : Type :=
| Val (a : A)
| Fault.

Arguments Val {A} _.
Arguments Fault {A}.

Definition obind {A B} (m : outcome A) (k : A -> outcome B) : outcome B :=
  match m with
  | Val a => k a
  | Fault => Fault
  end.

Definition of_option {A} (o : option A) : outcome A :=
  match o with
  | Some a => Val a
  | None => Fault
  end.

Notation "'let!' x := m 'in' k" := (obind m (fun x => k))
  (at level 10, x pattern, m at level 200, k at level 200,
   format "'[v' 'let!'  x  :=  m  'in'  '/' k ']'") : hev_scope.
#[global] Open Scope hev_scope.

(** ** State with faults

    A statement of C code that updates a store of type [S]. *)

Definition ST (S A : Type) : Type := S -> outcome (A * S).

Definition sret {S A} (a : A) : ST S A := fun s => Val (a, s).

Definition sbind {S A B} (m : ST S A) (k : A -> ST S B) : ST S B :=
  fun s => match m s with
           | Val (a, s') => k a s'
           | Fault => Fault
           end.

Definition sfault {S A} : ST S A := fun _ => Fault.

(** [if (b) m;] without an else branch. *)
Definition swhen {S} (b : bool) (m : ST S unit) : ST S unit := if b then m else sret tt.

Notation "'do!' x := m 'in' k" := (sbind m (fun x => k))
  (at level 10, x pattern, m at level 200, k at level 200,
   format "'[v' 'do!'  x  :=  m  'in'  '/' k ']'") : hev_scope.
Notation "m ;;; k" := (sbind m (fun _ => k))
  (at level 199, right associativity, format "'[v' m  ';;;'  '/' k ']'") : hev_scope.

(** ** Byte buffers

    A C buffer is the list of its bytes.  Reading or writing outside of it is a
    [Fault]; nothing is ever silently clipped. *)

Abbreviation bytes := (list Z).

Definition rd (b : bytes) (i : Z) : outcome Z :=
  if bool_decide (0 <= i) then of_option (b !! Z.to_nat i) else Fault.

Definition wr (b : bytes) (i v : Z) : outcome bytes :=
  if bool_decide (0 <= i < Z.of_nat (length b))
  then Val (<[Z.to_nat i := u8 v]> b) else Fault.

(** Store into an array of wider elements. *)
Definition aset {A} (l : list A) (i : Z) (v : A) : outcome (list A) :=
  if bool_decide (0 <= i < Z.of_nat (length l)) then Val (<[Z.to_nat i := v]> l) else Fault.

(** The bytes [off .. off+n) of a buffer. *)
Definition slice {A} (off n : nat) (l : list A) : list A := take n (drop off l).

(** Overwrite [length src] elements from index [off] on (memcpy into [l]). *)
Definition splice {A} (off : nat) (src l : list A) : list A :=
  take off l ++ src ++ drop (off + length src) l.

Definition zlen {A} (l : list A) : Z := Z.of_nat (length l).

(** ** Tactics and hints *)

Create HintDb hev.
Create Rewrite HintDb hev_len.
#[export] Hint Unfold u8 u16 u32 u64 i32 is_u8 is_u16 is_u32 is_i32 INT_MIN INT_MAX : hev.

(** Invert every monadic step in the context that returned a value. *)
Ltac outcome_inv :=
  repeat match goal with
  | H : Val _ = Val _ |- _ => injection H; clear H; intros; subst
  | H : Fault = Val _ |- _ => discriminate H
  | H : Val _ = Fault |- _ => discriminate H
  | H : obind ?m _ = Val _ |- _ =>
      let E := fresh "E" in destruct m eqn:E; cbn [obind] in H; [|discriminate H]
  end.

(** Split a boolean test of the model into its two cases, as propositions. *)
Ltac case_bool :=
  match goal with
  | |- context [bool_decide ?P] => destruct (bool_decide_reflect P)
  | H : context [bool_decide ?P] |- _ => destruct (bool_decide_reflect P)
  | |- context [Z.eqb ?a ?b] => destruct (Z.eqb_spec a b)
  | H : context [Z.eqb ?a ?b] |- _ => destruct (Z.eqb_spec a b)
  | |- context [Z.ltb ?a ?b] => destruct (Z.ltb_spec a b)
  | H : context [Z.ltb ?a ?b] |- _ => destruct (Z.ltb_spec a b)
  | |- context [Z.leb ?a ?b] => destruct (Z.leb_spec a b)
  | H : context [Z.leb ?a ?b] |- _ => destruct (Z.leb_spec a b)
  end.

(** ** Generic lemmas *)

Lemma u8_range x : is_u8 (u8 x).
Proof. unfold u8, is_u8. apply Z.mod_pos_bound. lia. Qed.

Lemma u16_range x : is_u16 (u16 x).
Proof. unfold u16, is_u16. apply Z.mod_pos_bound. lia. Qed.

Lemma u32_range x : is_u32 (u32 x).
Proof. unfold u32, is_u32. apply Z.mod_pos_bound. lia. Qed.

Lemma u8_id x : is_u8 x -> u8 x = x.
Proof. unfold is_u8, u8. intros. by apply Z.mod_small. Qed.

Lemma u16_id x : is_u16 x -> u16 x = x.
Proof. unfold is_u16, u16. intros. by apply Z.mod_small. Qed.

Lemma u32_id x : is_u32 x -> u32 x = x.
Proof. unfold is_u32, u32. intros. by apply Z.mod_small. Qed.

Lemma u64_id x : 0 <= x < 2 ^ 64 -> u64 x = x.
Proof. unfold u64. intros. by apply Z.mod_small. Qed.

Lemma i32_range x : is_i32 (i32 x).
Proof.
  unfold i32, is_i32, INT_MIN, INT_MAX.
  pose proof (Z.mod_pos_bound (x + 2 ^ 31) (2 ^ 32) ltac:(lia)). lia.
Qed.

Lemma i32_id x : is_i32 x -> i32 x = x.
Proof.
  unfold is_i32, i32, INT_MIN, INT_MAX. intros.
  rewrite Z.mod_small; lia.
Qed.

#[export] Hint Resolve u8_range u16_range u32_range i32_range : hev.
#[export] Hint Rewrite @length_app @length_take @length_drop @length_insert @length_replicate : hev_len.

Lemma zlen_nonneg {A} (l : list A) : 0 <= zlen l.
Proof. unfold zlen. lia. Qed.

Lemma zlen_app {A} (l k : list A) : zlen (l ++ k) = zlen l + zlen k.
Proof. unfold zlen. rewrite length_app. lia. Qed.

Lemma rd_Val b i v : rd b i = Val v -> 0 <= i < zlen b /\ b !! Z.to_nat i = Some v.
Proof.
  unfold rd, zlen. case_bool; [|discriminate].
  destruct (b !! Z.to_nat i) eqn:E; [|discriminate]. cbn. intros [= ->].
  apply lookup_lt_Some in E as ?. split; [lia|done].
Qed.

Lemma rd_ok b i : 0 <= i < zlen b -> exists v, rd b i = Val v /\ b !! Z.to_nat i = Some v.
Proof.
  unfold rd, zlen. intros Hi. rewrite bool_decide_true by lia.
  destruct (lookup_lt_is_Some_2 b (Z.to_nat i)) as [v Hv]; [lia|].
  exists v. by rewrite Hv.
Qed.

Lemma wr_ok b i v : 0 <= i < zlen b -> wr b i v = Val (<[Z.to_nat i := u8 v]> b).
Proof. unfold wr, zlen. intros. by rewrite bool_decide_true by lia. Qed.

Lemma aset_ok {A} (l : list A) i v :
  0 <= i < zlen l -> aset l i v = Val (<[Z.to_nat i := v]> l).
Proof. unfold aset, zlen. intros. by rewrite bool_decide_true by lia. Qed.

Lemma rd_lookup b i v : 0 <= i -> b !! Z.to_nat i = Some v -> rd b i = Val v.
Proof. intros Hi E. unfold rd. rewrite bool_decide_true by done. by rewrite E. Qed.

Lemma wr_length b i v b' : wr b i v = Val b' -> zlen b' = zlen b.
Proof. unfold wr, zlen. case_bool; [|done]. intros [= <-]. by rewrite length_insert. Qed.

Lemma length_slice {A} off n (l : list A) :
  (off + n <= length l)%nat -> length (slice off n l) = n.
Proof. unfold slice. intros. autorewrite with hev_len. lia. Qed.

Lemma length_splice {A} off (src l : list A) :
  (off + length src <= length l)%nat -> length (splice off src l) = length l.
Proof. unfold splice. intros. autorewrite with hev_len. lia. Qed.

Lemma lookup_slice {A} off n (l : list A) i :
  (i < n)%nat -> slice off n l !! i = l !! (off + i)%nat.
Proof. intros. unfold slice. by rewrite lookup_take_lt, lookup_drop by done. Qed.

Lemma lookup_splice_in {A} off (src l : list A) i :
  (off <= i < off + length src)%nat -> (off <= length l)%nat ->
  splice off src l !! i = src !! (i - off)%nat.
Proof.
  intros. unfold splice. rewrite lookup_app_r; autorewrite with hev_len; [|lia].
  rewrite lookup_app_l by lia. f_equal. lia.
Qed.

Lemma lookup_splice_out {A} off (src l : list A) i :
  (i < off \/ off + length src <= i)%nat -> (off <= length l)%nat ->
  splice off src l !! i = l !! i.
Proof.
  intros [Hi|Hi] Hl; unfold splice.
  - rewrite lookup_app_l by (autorewrite with hev_len; lia). by rewrite lookup_take_lt by lia.
  - rewrite !lookup_app_r; autorewrite with hev_len; try lia.
    rewrite lookup_drop. f_equal. lia.
Qed.

Lemma splice_nil {A} off (l : list A) : splice off [] l = l.
Proof. unfold splice. cbn. rewrite Nat.add_0_r. apply take_drop. Qed.

(** Reduction of a ring index that overflows at most once. *)
Lemma mod_once a m : 0 <= a < 2 * m -> (a < m /\ a mod m = a) \/ (m <= a /\ a mod m = a - m).
Proof.
  intros Ha. destruct (decide (a < m)) as [?|?].
  - left. split; [done|]. apply Z.mod_small. lia.
  - right. split; [lia|]. symmetry. apply (Z.mod_unique a m 1); lia.
Qed.

(** Case split every [a mod m] that [lia] can bound by [2 * m]. *)
Ltac mod_cases :=
  repeat match goal with
  | |- context [?a mod ?m] =>
      let H := fresh in let E := fresh in
      assert (H : 0 <= a < 2 * m) by lia;
      destruct (mod_once a m H) as [[? E]|[? E]]; rewrite ?E in *; clear H E
  | X : context [?a mod ?m] |- _ =>
      let H := fresh in let E := fresh in
      assert (H : 0 <= a < 2 * m) by lia;
      destruct (mod_once a m H) as [[? E]|[? E]]; rewrite ?E in *; clear H E
  end.

(** Discharge a closed hypothesis of a witness by evaluation. *)
Ltac concrete :=
  first [reflexivity | vm_compute; solve [reflexivity | discriminate | repeat split; discriminate]].

(** Weakening a pointwise relation on the members of two lists. *)
Lemma Forall2_mono_in {A B} (R S : A -> B -> Prop) l k :
  Forall2 R l k -> (forall x y, In x l -> In y k -> R x y -> S x y) -> Forall2 S l k.
Proof.
  induction 1 as [|x y l k Hxy H IH]; intros HS; constructor.
  - apply HS; [by left|by left|done].
  - apply IH. intros. apply HS; [by right|by right|done].
Qed.

(** ** Buffers whose elements are bytes *)

#[export] Instance is_u8_dec x : Decision (is_u8 x).
Proof. unfold is_u8. apply _. Defined.

Abbreviation is_bytes := (Forall is_u8).

(** [is_bytes] of a concrete buffer. *)
Ltac bytes_concrete := apply (bool_decide_unpack _); vm_compute; exact I.

Lemma rd_u8 b i v : is_bytes b -> rd b i = Val v -> is_u8 v.
Proof. intros Hb [_ H]%rd_Val. by eapply Forall_lookup_1. Qed.

Lemma wr_bytes b i v b' : is_bytes b -> wr b i v = Val b' -> is_bytes b'.
Proof.
  intros Hb. unfold wr. case_bool; [|done]. intros [= <-]. apply Forall_insert; auto with hev.
Qed.

Lemma wr_total b i v : 0 <= i < zlen b -> exists b', wr b i v = Val b' /\ zlen b' = zlen b.
Proof. intros Hi. eexists. rewrite wr_ok by done. split; [done|]. unfold zlen. by rewrite length_insert. Qed.

(** Reading back what was written. *)
Lemma rd_wr_eq b i v b' : wr b i v = Val b' -> rd b' i = Val (u8 v).
Proof.
  unfold wr, rd. case_bool; [|done]. intros [= <-]. rewrite bool_decide_true by lia.
  by rewrite list_lookup_insert_eq by lia.
Qed.

Lemma rd_wr_ne b i v b' j : wr b i v = Val b' -> i <> j -> rd b' j = rd b j.
Proof.
  unfold wr, rd. case_bool; [|done]. intros [= <-] Hne. case_bool; [|done].
  by rewrite list_lookup_insert_ne by lia.
Qed.

(** Accesses behind a prefix of known length. *)
Lemma rd_app_r p s i k : i = zlen p + k -> 0 <= k -> rd (p ++ s) i = rd s k.
Proof.
  intros -> Hk. unfold rd, zlen. rewrite !bool_decide_true by lia.
  rewrite lookup_app_r by lia. do 2 f_equal. lia.
Qed.

Lemma wr_app_r p s i k v s' : i = zlen p + k -> wr s k v = Val s' -> wr (p ++ s) i v = Val (p ++ s').
Proof.
  unfold wr, zlen. intros ->. case_bool; [|done]. intros [= <-].
  rewrite bool_decide_true by (rewrite length_app; lia). f_equal.
  rewrite insert_app_r_alt by lia. do 2 f_equal. lia.
Qed.

Lemma rd_head x s : rd (x :: s) 0 = Val x.
Proof. reflexivity. Qed.

Lemma wr_head x s v : wr (x :: s) 0 v = Val (u8 v :: s).
Proof. unfold wr. rewrite bool_decide_true by (cbn; lia). reflexivity. Qed.

Lemma wr_cons x s i v s' : 0 < i -> wr s (i - 1) v = Val s' -> wr (x :: s) i v = Val (x :: s').
Proof. intros Hi. apply (wr_app_r [x] s i (i - 1)). unfold zlen. cbn. lia. Qed.

(** Right-associated normal form of list concatenations. *)
Ltac list_norm :=
  cbn [app]; repeat first [rewrite app_nil_r | rewrite <- app_assoc | rewrite <- app_comm_cons]; cbn [app].

Lemma wr_app_off p s k v : 0 <= k -> wr (p ++ s) (zlen p + k) v = (let! s' := wr s k v in Val (p ++ s')).
Proof.
  intros Hk. destruct (wr s k v) as [s'|] eqn:E; cbn [obind]; [by eapply wr_app_r|].
  unfold wr in E. destruct (bool_decide_reflect (0 <= k < Z.of_nat (length s))); [done|].
  unfold wr, zlen. rewrite bool_decide_false; [done|]. rewrite length_app. lia.
Qed.
