(* ===== verification/CBytes.v ===== *)
(** * C memory: fields, copies and strings

    Accesses that the network code makes to byte buffers: 16-bit fields on a
    little-endian host, [memcpy], [memset], [strncpy] and C strings.  Every access
    outside a buffer is a [Fault]. *)

From Stdlib Require Import ZArith Lia.
From stdpp Require Import base list gmap numbers.
From S2P Require Import Prelude.
Import list_basics.list list_relations.list list_monad.list list_misc.list.

(** 16-bit fields of [DNSHdr], on a little-endian host. *)
Definition ld16 (b : bytes) (off : Z) : outcome Z :=
  let! x := rd b off in
  let! y := rd b (off + 1) in
  Val (Z.lor x (Z.shiftl y 8)).

Definition st16 (b : bytes) (off v : Z) : outcome bytes :=
  let! b := wr b off v in
  wr b (off + 1) (Z.shiftr v 8).

(** [ntohs] and [htons]. *)
Definition swap16 (v : Z) : Z := Z.lor (Z.shiftl (Z.land v 255) 8) (Z.land (Z.shiftr v 8) 255).

(** [memcpy (dst, src, n)]. *)
Definition copy (dst src : bytes) (n : Z) : outcome bytes :=
  if bool_decide (0 <= n <= zlen src /\ n <= zlen dst)
  then Val (splice 0 (take (Z.to_nat n) src) dst) else Fault.

(** The C string at an address. *)
Fixpoint cstr_list (l : bytes) : outcome bytes :=
  match l with
  | [] => Fault
  | x :: l => if x =? 0 then Val [] else let! r := cstr_list l in Val (x :: r)
  end.

Definition cstr (b : bytes) (off : Z) : outcome bytes :=
  if bool_decide (0 <= off) then cstr_list (drop (Z.to_nat off) b) else Fault.

Lemma cstr_list_ok l j : l !! j = Some 0 -> exists s, cstr_list l = Val s.
Proof.
  revert j. induction l as [|x l IH]; intros j Hj; [done|]. cbn.
  destruct (Z.eqb_spec x 0) as [|Hx]; [by eexists|].
  destruct j as [|j]; [cbn in Hj; congruence|]. destruct (IH j Hj) as [s ->]. by eexists.
Qed.

Lemma cstr_ok b i j : 0 <= i <= j -> rd b j = Val 0 -> exists s, cstr b i = Val s.
Proof.
  intros Hij [_ Hj]%rd_Val. unfold cstr. rewrite bool_decide_true by lia.
  apply (cstr_list_ok _ (Z.to_nat j - Z.to_nat i)%nat). rewrite lookup_drop, <- Hj. f_equal. lia.
Qed.

Lemma cstr_list_text s post : Forall (fun x => x <> 0) s -> cstr_list (s ++ 0 :: post) = Val s.
Proof.
  induction 1 as [|x s Hx Hs IH]; [done|]. cbn. rewrite (proj2 (Z.eqb_neq _ _) Hx).
  by rewrite IH.
Qed.

Lemma ld16_ok b i : 0 <= i -> i + 1 < zlen b -> exists v, ld16 b i = Val v.
Proof.
  intros Hi Hl. destruct (rd_ok b i) as (x & Ex & _); [lia|]. destruct (rd_ok b (i + 1)) as (y & Ey & _); [lia|].
  unfold ld16. rewrite Ex. cbn. rewrite Ey. by eexists.
Qed.

(** A sequence of two stores into a buffer that is long enough. *)
Lemma wr2_ok b i x j y : 0 <= i < zlen b -> 0 <= j < zlen b ->
  exists b', (let! b := wr b i x in wr b j y) = Val b' /\ zlen b' = zlen b /\ (is_bytes b -> is_bytes b').
Proof.
  intros Hi Hj. destruct (wr_total b i x Hi) as (b1 & E1 & L1).
  destruct (wr_total b1 j y) as (b2 & E2 & L2); [lia|]. exists b2. rewrite E1. cbn [obind].
  split_and!; [done|lia|]. intros Hb. eapply wr_bytes; [|exact E2]. by eapply wr_bytes.
Qed.

Lemma st16_ok b i v : 0 <= i -> i + 1 < zlen b ->
  exists b', st16 b i v = Val b' /\ zlen b' = zlen b /\ (is_bytes b -> is_bytes b').
Proof. intros Hi Hl. apply wr2_ok; lia. Qed.

(** Run the next access to a 16-bit field. *)
Ltac run_ld16 :=
  match goal with |- context [ld16 ?b ?i] =>
    let v := fresh "v" in destruct (ld16_ok b i) as (v & ->); [lia|lia|]; cbn [obind]
  end.
Ltac run_st16 :=
  match goal with |- context [st16 ?b ?i ?v] =>
    let b1 := fresh "b" in let L := fresh "L" in let B := fresh "B" in
    destruct (st16_ok b i v) as (b1 & -> & L & B); [lia|lia|]; cbn [obind]
  end.

Lemma zlen_cons {A} (x : A) l : zlen (x :: l) = zlen l + 1.
Proof. unfold zlen. cbn. lia. Qed.

Lemma byte_pair x y : is_u8 x -> Z.lor x (Z.shiftl y 8) = x + 256 * y.
Proof.
  intros Hx. rewrite Z.shiftl_mul_pow2 by lia. change (2 ^ 8) with 256. rewrite (Z.mul_comm y).
  symmetry. rewrite Z.add_nocarry_lxor, Z.lxor_lor; [done|..]; apply Z.bits_inj'; intros n Hn;
    rewrite Z.land_spec, Z.bits_0; change 256 with (2 ^ 8); rewrite (Z.mul_comm (2 ^ 8));
    rewrite <- Z.shiftl_mul_pow2 by lia; (destruct (Z.lt_ge_cases n 8);
      [rewrite (Z.shiftl_spec_low y) by done; apply andb_false_r
      |rewrite (Z.bits_above_log2 x) by
         (unfold is_u8 in Hx; destruct (Z.eq_dec x 0) as [->|]; [cbn; lia|];
          first [lia | enough (Z.log2 x < 8) by lia; apply Z.log2_lt_pow2; lia]); done]).
Qed.

Lemma pair_lo x y : is_u8 x -> u8 (x + 256 * y) = x.
Proof. unfold is_u8, u8. intros. rewrite Z.mul_comm, Z.mod_add by lia. by apply Z.mod_small. Qed.

Lemma pair_hi x y : is_u8 x -> is_u8 y -> u8 (Z.shiftr (x + 256 * y) 8) = y.
Proof.
  unfold is_u8, u8. intros. rewrite Z.shiftr_div_pow2, (Z.mul_comm 256), Z.div_add by lia.
  rewrite (Z.div_small x) by lia. by apply Z.mod_small.
Qed.

Lemma u8_land v : u8 v = Z.land v 255.
Proof. change 255 with (Z.ones 8). by rewrite Z.land_ones by lia. Qed.

Lemma swap16_lo v : u8 (swap16 v) = u8 (Z.shiftr v 8).
Proof.
  rewrite !u8_land. unfold swap16. apply Z.bits_inj'. intros n Hn.
  rewrite !Z.land_spec, Z.lor_spec. destruct (Z.lt_ge_cases n 8).
  - rewrite Z.shiftl_spec_low by done. cbn [orb]. rewrite Z.land_spec.
    by destruct (Z.testbit (Z.shiftr v 8) n), (Z.testbit 255 n).
  - assert (Z.testbit 255 n = false) as -> by (apply Z.bits_above_log2; cbn; lia). by rewrite !andb_false_r.
Qed.

Lemma swap16_hi v : u8 (Z.shiftr (swap16 v) 8) = u8 v.
Proof.
  rewrite !u8_land. unfold swap16. apply Z.bits_inj'. intros n Hn.
  rewrite !Z.land_spec, Z.shiftr_spec, Z.lor_spec, Z.shiftl_spec, !Z.land_spec by lia.
  replace (n + 8 - 8) with n by lia.
  assert (Z.testbit 255 (n + 8) = false) as -> by (apply Z.bits_above_log2; cbn; lia).
  rewrite andb_false_r, orb_false_r. by destruct (Z.testbit v n), (Z.testbit 255 n).
Qed.

(** ** Copies *)

(** [memcpy (p, b + off, n)]: the bytes read. *)
Definition get_n (b : bytes) (off n : Z) : outcome bytes :=
  if bool_decide (0 <= off /\ 0 <= n /\ off + n <= zlen b)
  then Val (slice (Z.to_nat off) (Z.to_nat n) b) else Fault.

(** [memcpy (b + off, src, length of src)]. *)
Definition put_n (b : bytes) (off : Z) (src : bytes) : outcome bytes :=
  if bool_decide (0 <= off /\ off + zlen src <= zlen b)
  then Val (splice (Z.to_nat off) src b) else Fault.

(** The [n] bytes that [strncpy (p, s, n)] writes, [s] without its terminator. *)
Definition strncpy_image (s : bytes) (n : nat) : bytes := take n (s ++ replicate n 0).

(** The image of a [uint16_t]. *)
Definition le16 (v : Z) : bytes := [u8 v; u8 (Z.shiftr v 8)].

Lemma zlen_nil {A} : zlen (@nil A) = 0.
Proof. done. Qed.

Lemma zlen_replicate {A} n (x : A) : zlen (replicate n x) = Z.of_nat n.
Proof. unfold zlen. by rewrite length_replicate. Qed.

Create Rewrite HintDb hev_zlen.
#[export] Hint Rewrite @zlen_cons @zlen_nil @zlen_app @zlen_replicate : hev_zlen.

(** Arithmetic on the lengths of explicit lists. *)
Ltac zlen_lia := autorewrite with hev_zlen in *; lia.

Lemma get_n_app p m s off n :
  off = zlen p -> n = zlen m -> get_n (p ++ m ++ s) off n = Val m.
Proof.
  intros -> ->. unfold get_n. pose proof (zlen_nonneg p). pose proof (zlen_nonneg m).
  pose proof (zlen_nonneg s). rewrite bool_decide_true by zlen_lia. f_equal. unfold slice, zlen.
  by rewrite !Nat2Z.id, drop_app_length, take_app_length.
Qed.

Lemma put_n_app p m s off src :
  off = zlen p -> zlen m = zlen src -> put_n (p ++ m ++ s) off src = Val (p ++ src ++ s).
Proof.
  intros -> E. unfold put_n. pose proof (zlen_nonneg p). pose proof (zlen_nonneg s).
  rewrite bool_decide_true by zlen_lia. f_equal. unfold splice, zlen in *.
  rewrite Nat2Z.id, take_app_length. do 2 f_equal.
  replace (length p + length src)%nat with (length (p ++ m)) by (rewrite length_app; lia).
  by rewrite app_assoc, drop_app_length.
Qed.

Lemma get_n_length b off n m : get_n b off n = Val m -> zlen m = n.
Proof.
  unfold get_n. case_bool; [|done]. intros [= <-]. unfold zlen in *.
  rewrite length_slice; lia.
Qed.

Lemma put_n_length b off src b' : put_n b off src = Val b' -> zlen b' = zlen b.
Proof. unfold put_n. case_bool; [|done]. intros [= <-]. unfold zlen in *. rewrite length_splice; lia. Qed.

(** A buffer that is long enough splits at any place. *)
Lemma split_at (b : bytes) off n :
  0 <= off -> 0 <= n -> off + n <= zlen b ->
  exists p m s, b = p ++ m ++ s /\ zlen p = off /\ zlen m = n.
Proof.
  intros Ho Hn Hb. unfold zlen in *.
  exists (take (Z.to_nat off) b), (take (Z.to_nat n) (drop (Z.to_nat off) b)), (drop (Z.to_nat n) (drop (Z.to_nat off) b)).
  rewrite !take_drop, !length_take, length_drop. split_and!; [done|lia|lia].
Qed.

Lemma length_strncpy s n : length (strncpy_image s n) = n.
Proof. unfold strncpy_image. rewrite length_take, length_app, length_replicate. lia. Qed.

Lemma strncpy_short s n :
  (length s <= n)%nat -> strncpy_image s n = s ++ replicate (n - length s) 0.
Proof.
  intros H. unfold strncpy_image. rewrite take_app, (take_ge s) by done. f_equal.
  rewrite take_replicate. f_equal. lia.
Qed.

Lemma le16_ld v p s : is_u16 v -> ld16 (p ++ le16 v ++ s) (zlen p) = Val v.
Proof.
  intros Hv. unfold ld16. rewrite (rd_app_r _ _ _ 0), (rd_app_r _ _ (zlen p + 1) 1) by lia.
  cbn [le16 app]. rewrite rd_head. cbn [obind].
  change (rd (u8 v :: u8 (Z.shiftr v 8) :: s) 1) with (Val (u8 (Z.shiftr v 8))). cbn [obind].
  rewrite byte_pair by apply u8_range. f_equal. unfold is_u16, u8 in *.
  rewrite Z.shiftr_div_pow2 by lia. change (2 ^ 8) with 256. rewrite (Z.mod_small (v / 256)).
  - pose proof (Z.div_mod v 256 ltac:(lia)). lia.
  - split; [apply Z.div_pos; lia|]. apply Z.div_lt_upper_bound; lia.
Qed.

Lemma swap16_range v : is_u16 (swap16 v).
Proof.
  unfold swap16, is_u16. rewrite Z.lor_comm, byte_pair.
  - assert (is_u8 (Z.land v 255)) by (rewrite <- u8_land; apply u8_range).
    assert (is_u8 (Z.land (Z.shiftr v 8) 255)) by (rewrite <- u8_land; apply u8_range).
    unfold is_u8 in *. lia.
  - rewrite <- u8_land. apply u8_range.
Qed.

(** A 16-bit value is determined by its bytes. *)
Lemma u16_bytes v w : is_u16 v -> is_u16 w -> u8 v = u8 w -> u8 (Z.shiftr v 8) = u8 (Z.shiftr w 8) -> v = w.
Proof.
  intros Hv Hw E1 E2. pose proof (le16_ld v [] [] Hv) as A. pose proof (le16_ld w [] [] Hw) as B.
  unfold le16 in *. rewrite E1, E2 in A. congruence.
Qed.

Lemma swap16_invol v : is_u16 v -> swap16 (swap16 v) = v.
Proof.
  intros Hv. apply u16_bytes; [apply swap16_range|done|..].
  - by rewrite swap16_lo, swap16_hi.
  - by rewrite swap16_hi, swap16_lo.
Qed.
