(* ===== verification/RingBuffer.v ===== *)
(** * The ring buffer of a TCP session (src/misc/hev-ring-buffer.c)

    [HevRingBuffer] holds the bytes a TCP session has read from its SOCKS5
    socket.  They are handed to lwIP without copying ([tcp_write] with flags 0),
    so a byte stays in the buffer after it was read ([read_finish]) until lwIP
    reports it acknowledged ([read_release]).  The abstract contract is a queue
    in two parts: the bytes in flight and the bytes that are ready to read. *)

From Stdlib Require Import ZArith Lia.
From stdpp Require Import base list gmap numbers.
From S2P Require Import Prelude.

Module RingBuffer.

(** ** Data *)

Record HevRingBuffer := mkRing {
  rp : Z;
  wp : Z;
  rda_size : Z;
  use_size : Z;
  max_size : Z;
  data : bytes;
}.

(** A [struct iovec] whose base points into [data]: the base is an offset. *)
Record iovec := mkIov { iov_base : Z; iov_len : Z }.

(** ** Operations *)

(** The [hev_ring_buffer_alloca] macro; [mem] is what the stack memory held. *)
Definition hev_ring_buffer_alloca (s : Z) (mem : bytes) : HevRingBuffer :=
  {| rp := 0; wp := 0; rda_size := 0; use_size := 0; max_size := s; data := mem |}.

Definition hev_ring_buffer_get_max_size (self : HevRingBuffer) : Z := max_size self.

Definition hev_ring_buffer_get_use_size (self : HevRingBuffer) : Z := use_size self.

(** The returned count is the length of the list of filled iovecs. *)
Definition hev_ring_buffer_reading (self : HevRingBuffer) : list iovec :=
  if 0 =? rda_size self then []
  else
    let upper_size := u64 (max_size self - rp self) in
    if rda_size self <=? upper_size
    then [mkIov (rp self) (rda_size self)]
    else [mkIov (rp self) upper_size; mkIov 0 (u64 (rda_size self - upper_size))].

Definition hev_ring_buffer_read_finish (self : HevRingBuffer) (size : Z) : HevRingBuffer :=
  {| rp := u64 (rp self + size) mod max_size self;
     wp := wp self;
     rda_size := u64 (rda_size self - size);
     use_size := use_size self;
     max_size := max_size self;
     data := data self |}.

Definition hev_ring_buffer_read_release (self : HevRingBuffer) (size : Z) : HevRingBuffer :=
  let use := u64 (use_size self - size) in
  if use =? 0
  then {| rp := 0; wp := 0; rda_size := rda_size self; use_size := use;
          max_size := max_size self; data := data self |}
  else {| rp := rp self; wp := wp self; rda_size := rda_size self; use_size := use;
          max_size := max_size self; data := data self |}.

Definition hev_ring_buffer_writing (self : HevRingBuffer) : list iovec :=
  if use_size self =? max_size self then []
  else
    let upper_size := u64 (max_size self - wp self) in
    let spc_size := u64 (max_size self - use_size self) in
    if spc_size <=? upper_size
    then [mkIov (wp self) spc_size]
    else [mkIov (wp self) upper_size; mkIov 0 (u64 (spc_size - upper_size))].

Definition hev_ring_buffer_write_finish (self : HevRingBuffer) (size : Z) : HevRingBuffer :=
  {| rp := rp self;
     wp := u64 (wp self + size) mod max_size self;
     rda_size := u64 (rda_size self + size);
     use_size := u64 (use_size self + size);
     max_size := max_size self;
     data := data self |}.

(** ** What the callers do with the iovecs

    [writev]/[tcp_write] gather the bytes of the iovecs in order; [readv]
    scatters the bytes it received over the iovecs in order. *)

Definition iov_total (v : list iovec) : Z := foldr (fun i acc => iov_len i + acc) 0 v.

Definition gather (d : bytes) (v : list iovec) : bytes :=
  v ≫= fun i => slice (Z.to_nat (iov_base i)) (Z.to_nat (iov_len i)) d.

Fixpoint scatter (d : bytes) (v : list iovec) (bs : bytes) : bytes :=
  match v with
  | [] => d
  | i :: v' =>
      let n := Z.to_nat (iov_len i) in
      scatter (splice (Z.to_nat (iov_base i)) (take n bs) d) v' (drop n bs)
  end.

Definition with_data (self : HevRingBuffer) (d : bytes) : HevRingBuffer :=
  {| rp := rp self; wp := wp self; rda_size := rda_size self;
     use_size := use_size self; max_size := max_size self; data := d |}.

(** One [readv] that returned [bs], followed by [write_finish]. *)
Definition ring_write (self : HevRingBuffer) (bs : bytes) : HevRingBuffer :=
  let filled := with_data self (scatter (data self) (hev_ring_buffer_writing self) bs) in
  hev_ring_buffer_write_finish filled (zlen bs).

(** The life of a buffer: any sequence of the three uses a session makes of it. *)
Inductive ring_op :=
| OpWrite (bs : bytes)
| OpRead (n : Z)
| OpRelease (n : Z).

(** ** Abstract queue *)

Record queue := mkQueue {
  q_cap : Z;
  q_inflight : bytes;   (* handed to lwIP, not acknowledged yet *)
  q_ready : bytes;      (* received, not handed to lwIP yet *)
}.

Definition q_write (q : queue) (bs : bytes) : queue :=
  mkQueue (q_cap q) (q_inflight q) (q_ready q ++ bs).

Definition q_read (q : queue) (n : nat) : queue :=
  mkQueue (q_cap q) (q_inflight q ++ take n (q_ready q)) (drop n (q_ready q)).

Definition q_release (q : queue) (n : nat) : queue :=
  mkQueue (q_cap q) (drop n (q_inflight q)) (q_ready q).

Definition q_step (q : queue) (o : ring_op) : queue :=
  match o with
  | OpWrite bs => q_write q bs
  | OpRead n => q_read q (Z.to_nat n)
  | OpRelease n => q_release q (Z.to_nat n)
  end.

(** ** Invariant and abstraction *)

(** The [n] bytes from ring position [start] on. *)
Definition window (d : bytes) (start n : Z) : bytes :=
  slice (Z.to_nat start) (Z.to_nat n) (d ++ d).

(** Oldest byte still in the buffer. *)
Definition tail_pos (r : HevRingBuffer) : Z :=
  (wp r + max_size r - use_size r) mod max_size r.

Record wf (r : HevRingBuffer) : Prop := mkWf {
  wf_max : 0 < max_size r < 2 ^ 63;
  wf_data : zlen (data r) = max_size r;
  wf_rda : 0 <= rda_size r <= use_size r;
  wf_use : use_size r <= max_size r;
  wf_rp : 0 <= rp r < max_size r;
  wf_wp : wp r = (rp r + rda_size r) mod max_size r;
}.

(** Every byte the buffer holds, oldest first. *)
Definition used (r : HevRingBuffer) : bytes := window (data r) (tail_pos r) (use_size r).

Definition abs (r : HevRingBuffer) : queue :=
  let k := Z.to_nat (use_size r - rda_size r) in
  mkQueue (max_size r) (take k (used r)) (drop k (used r)).

Definition iov_in (m : Z) (i : iovec) : Prop :=
  0 <= iov_base i /\ 0 < iov_len i /\ iov_base i + iov_len i <= m.

Definition ring_step (r : HevRingBuffer) (o : ring_op) : HevRingBuffer :=
  match o with
  | OpWrite bs => ring_write r bs
  | OpRead n => hev_ring_buffer_read_finish r n
  | OpRelease n => hev_ring_buffer_read_release r n
  end.

(** What a client of the buffer guarantees: [readv] fills at most the space it
    was offered, at most what [reading] showed is consumed, and lwIP only
    acknowledges bytes that were handed to it. *)
Definition op_ok (r : HevRingBuffer) (o : ring_op) : Prop :=
  match o with
  | OpWrite bs => zlen bs <= max_size r - use_size r
  | OpRead n => 0 <= n <= rda_size r
  | OpRelease n => 0 <= n <= use_size r - rda_size r
  end.

(** [history r r' wrote freed]: a run from [r] to [r'] that received [wrote] and
    saw [freed] bytes acknowledged. *)
Inductive history (r : HevRingBuffer) : HevRingBuffer -> bytes -> nat -> Prop :=
| hist_init : history r r [] 0
| hist_write r1 bs w f :
    history r r1 w f -> op_ok r1 (OpWrite bs) ->
    history r (ring_step r1 (OpWrite bs)) (w ++ bs) f
| hist_read r1 n w f :
    history r r1 w f -> op_ok r1 (OpRead n) ->
    history r (ring_step r1 (OpRead n)) w f
| hist_release r1 n w f :
    history r r1 w f -> op_ok r1 (OpRelease n) ->
    history r (ring_step r1 (OpRelease n)) w (f + Z.to_nat n).

(** ** Index lemmas *)

Lemma length_window d start n :
  0 <= start <= zlen d -> 0 <= n <= zlen d -> length (window d start n) = Z.to_nat n.
Proof.
  unfold window, zlen. intros. apply length_slice. rewrite length_app. lia.
Qed.

Lemma lookup_window d start n i :
  0 <= start < zlen d -> 0 <= n <= zlen d -> (i < Z.to_nat n)%nat ->
  window d start n !! i = d !! Z.to_nat ((start + Z.of_nat i) mod zlen d).
Proof.
  unfold window, zlen. intros. rewrite lookup_slice by done.
  mod_cases.
  - rewrite lookup_app_l by lia. f_equal. lia.
  - rewrite lookup_app_r by lia. f_equal. lia.
Qed.

Lemma tail_pos_range r : wf r -> 0 <= tail_pos r < max_size r.
Proof. intros []. unfold tail_pos. apply Z.mod_pos_bound. lia. Qed.

Lemma wp_range r : wf r -> 0 <= wp r < max_size r.
Proof. intros []. rewrite wf_wp0. apply Z.mod_pos_bound. lia. Qed.

(** The read position is the oldest byte plus the bytes in flight. *)
Lemma rp_tail r : wf r ->
  rp r = (tail_pos r + (use_size r - rda_size r)) mod max_size r.
Proof.
  intros W. pose proof (wp_range r W). destruct W. unfold tail_pos.
  rewrite Z.add_mod_idemp_l by lia. rewrite wf_wp0.
  replace ((rp r + rda_size r) mod max_size r + max_size r - use_size r + (use_size r - rda_size r))
    with ((rp r + rda_size r) mod max_size r + (max_size r - rda_size r)) by lia.
  rewrite Z.add_mod_idemp_l by lia.
  replace (rp r + rda_size r + (max_size r - rda_size r)) with (rp r + 1 * max_size r) by lia.
  rewrite Z.mod_add by lia. symmetry. apply Z.mod_small. lia.
Qed.

Lemma length_used r : wf r -> length (used r) = Z.to_nat (use_size r).
Proof.
  intros W. pose proof (tail_pos_range r W). destruct W.
  apply length_window; lia.
Qed.

Lemma lookup_used r i : wf r -> (i < Z.to_nat (use_size r))%nat ->
  used r !! i = data r !! Z.to_nat ((tail_pos r + Z.of_nat i) mod max_size r).
Proof.
  intros W Hi. pose proof (tail_pos_range r W). destruct W. unfold used.
  rewrite lookup_window by lia. by rewrite wf_data0.
Qed.

(** ** Reading *)

Lemma window_rp r : wf r ->
  window (data r) (rp r) (rda_size r) = drop (Z.to_nat (use_size r - rda_size r)) (used r).
Proof.
  intros W. pose proof (rp_tail r W) as Hrp. pose proof (tail_pos_range r W).
  pose proof (length_used r W) as Hlen. apply list_eq_same_length with (n := Z.to_nat (rda_size r)).
  - rewrite length_drop, Hlen. destruct W. lia.
  - destruct W. apply length_window; lia.
  - intros i x y Hi Hx Hy. rewrite lookup_drop in Hy.
    rewrite lookup_used in Hy by (done || destruct W; lia).
    rewrite lookup_window in Hx by (destruct W; lia).
    assert ((rp r + Z.of_nat i) mod zlen (data r) =
            (tail_pos r + Z.of_nat (Z.to_nat (use_size r - rda_size r) + i)) mod max_size r) as E.
    { destruct W. rewrite wf_data0. rewrite Hrp. rewrite Z.add_mod_idemp_l by lia. f_equal. lia. }
    rewrite E in Hx. congruence.
Qed.

Lemma gather_reading r : wf r ->
  gather (data r) (hev_ring_buffer_reading r) = window (data r) (rp r) (rda_size r).
Proof.
  intros []. unfold hev_ring_buffer_reading, window, gather, slice, zlen in *.
  case_bool; [by rewrite <- e|].
  rewrite !u64_id by lia. case_bool; rewrite ?u64_id by lia; cbn; rewrite app_nil_r.
  - rewrite drop_app_le by lia. by rewrite take_app_le by (rewrite ?length_drop; lia).
  - rewrite drop_app_le by lia. rewrite take_app, length_drop. f_equal.
    + by rewrite !take_ge by (rewrite ?length_drop; lia).
    + rewrite drop_0. f_equal. lia.
Qed.

Lemma reading_in_bounds r : wf r ->
  Forall (iov_in (max_size r)) (hev_ring_buffer_reading r) /\
  iov_total (hev_ring_buffer_reading r) = rda_size r.
Proof.
  intros []. unfold hev_ring_buffer_reading, iov_in. case_bool; [split; [constructor|cbn; lia]|].
  rewrite !u64_id by lia. case_bool; rewrite ?u64_id by lia;
    (split; [repeat constructor|]); cbn; lia.
Qed.

(** ** Writing *)

Lemma writing_in_bounds r : wf r ->
  Forall (iov_in (max_size r)) (hev_ring_buffer_writing r) /\
  iov_total (hev_ring_buffer_writing r) = max_size r - use_size r.
Proof.
  intros W. pose proof (wp_range r W). destruct W.
  unfold hev_ring_buffer_writing, iov_in. case_bool; [split; [constructor|cbn; lia]|].
  rewrite !u64_id by lia. case_bool; rewrite ?u64_id by lia;
    (split; [repeat constructor|]); cbn; lia.
Qed.

(** A byte of the ring after [readv] stored [bs]: position [wp + i]. *)
Lemma lookup_scatter r bs i : wf r -> op_ok r (OpWrite bs) -> 0 <= i < max_size r ->
  scatter (data r) (hev_ring_buffer_writing r) bs !! Z.to_nat ((wp r + i) mod max_size r) =
  if decide (i < zlen bs) then bs !! Z.to_nat i
  else data r !! Z.to_nat ((wp r + i) mod max_size r).
Proof.
  intros W Hbs Hi. pose proof (wp_range r W). destruct W as [? ? ? ? ? _].
  unfold hev_ring_buffer_writing, op_ok, zlen in *. case_bool.
  { case_decide; [lia|done]. }
  rewrite !u64_id by lia. case_bool; rewrite ?u64_id by lia; cbn [scatter iov_base iov_len].
  - rewrite (take_ge bs) by lia. mod_cases; case_decide.
    + rewrite lookup_splice_in by lia. f_equal. lia.
    + by rewrite lookup_splice_out by lia.
    + lia.
    + by rewrite lookup_splice_out by lia.
  - set (u := Z.to_nat (max_size r - wp r)).
    assert (length (splice (Z.to_nat (wp r)) (take u bs) (data r)) = length (data r)) as Hl.
    { apply length_splice. rewrite length_take. lia. }
    rewrite (take_ge (drop u bs)) by (rewrite ?length_drop; lia).
    mod_cases; case_decide.
    + rewrite lookup_splice_out by (rewrite ?length_drop; lia).
      rewrite lookup_splice_in by (rewrite ?length_take; lia).
      rewrite lookup_take_lt by lia. f_equal. lia.
    + rewrite lookup_splice_out by (rewrite ?length_drop; lia).
      by rewrite lookup_splice_out by (rewrite ?length_take; lia).
    + rewrite lookup_splice_in by (rewrite ?length_drop; lia).
      rewrite lookup_drop. f_equal. lia.
    + rewrite lookup_splice_out by (rewrite ?length_drop; lia).
      by rewrite lookup_splice_out by (rewrite ?length_take; lia).
Qed.

Lemma length_scatter r bs : wf r -> op_ok r (OpWrite bs) ->
  length (scatter (data r) (hev_ring_buffer_writing r) bs) = length (data r).
Proof.
  intros W Hbs. pose proof (wp_range r W). destruct W as [? ? ? ? ? _].
  unfold hev_ring_buffer_writing, op_ok, zlen in *. case_bool; [done|].
  rewrite !u64_id by lia. case_bool; rewrite ?u64_id by lia; cbn [scatter iov_base iov_len];
    rewrite !length_splice; rewrite ?length_splice, ?length_take, ?length_drop; try lia;
    rewrite ?length_take; lia.
Qed.

Lemma ring_write_sizes r bs : wf r -> op_ok r (OpWrite bs) ->
  wp (ring_write r bs) = (wp r + zlen bs) mod max_size r /\
  rda_size (ring_write r bs) = rda_size r + zlen bs /\
  use_size (ring_write r bs) = use_size r + zlen bs.
Proof.
  intros W Hbs. pose proof (wp_range r W). destruct W as [? ? ? ? ? _].
  unfold op_ok in Hbs. pose proof (zlen_nonneg bs).
  unfold ring_write, hev_ring_buffer_write_finish, with_data. cbn.
  by rewrite !u64_id by lia.
Qed.

Lemma ring_write_wf r bs : wf r -> op_ok r (OpWrite bs) -> wf (ring_write r bs).
Proof.
  intros W Hbs. destruct (ring_write_sizes r bs W Hbs) as (Ew & Er & Eu).
  pose proof (length_scatter r bs W Hbs) as Hl. pose proof (zlen_nonneg bs).
  pose proof (wf_wp r W) as Hwp. destruct W as [? ? ? ? ? _]. unfold op_ok in Hbs.
  constructor; rewrite ?Ew, ?Er, ?Eu; cbn; try lia.
  - unfold zlen in *. lia.
  - rewrite Hwp, Z.add_mod_idemp_l by lia. f_equal. lia.
Qed.

Lemma ring_write_tail r bs : wf r -> op_ok r (OpWrite bs) ->
  tail_pos (ring_write r bs) = tail_pos r.
Proof.
  intros W Hbs. destruct (ring_write_sizes r bs W Hbs) as (Ew & Er & Eu).
  unfold tail_pos. rewrite Ew, Eu. cbn. destruct W.
  replace ((wp r + zlen bs) mod max_size r + max_size r - (use_size r + zlen bs))
    with ((wp r + zlen bs) mod max_size r + (max_size r - (use_size r + zlen bs))) by lia.
  rewrite Z.add_mod_idemp_l by lia. f_equal. lia.
Qed.

Lemma used_write r bs : wf r -> op_ok r (OpWrite bs) ->
  used (ring_write r bs) = used r ++ bs.
Proof.
  intros W Hbs. pose proof (ring_write_wf r bs W Hbs) as W'.
  destruct (ring_write_sizes r bs W Hbs) as (_ & _ & Eu).
  pose proof (length_used r W). pose proof (length_used _ W'). pose proof (zlen_nonneg bs).
  pose proof (tail_pos_range r W). pose proof (wp_range r W).
  assert (0 <= use_size r <= max_size r) by (destruct W; lia).
  pose proof (wf_max r W). unfold op_ok in Hbs.
  apply list_eq_same_length with (n := Z.to_nat (use_size r + zlen bs)).
  { rewrite length_app. unfold zlen in *. lia. }
  { congruence. }
  intros i x y Hi Hx Hy. rewrite lookup_used in Hx by (done || lia).
  rewrite ring_write_tail in Hx by done.
  (* express the position relative to [wp] *)
  set (j := (Z.of_nat i - use_size r) mod max_size r) in *.
  assert ((tail_pos r + Z.of_nat i) mod max_size r = (wp r + j) mod max_size r) as Epos.
  { unfold j, tail_pos. rewrite Z.add_mod_idemp_l, Z.add_mod_idemp_r by lia.
    replace (wp r + max_size r - use_size r + Z.of_nat i)
      with (wp r + (Z.of_nat i - use_size r) + 1 * max_size r) by lia.
    by rewrite Z.mod_add by lia. }
  assert (0 <= j < max_size r) by (apply Z.mod_pos_bound; lia).
  cbn [ring_write hev_ring_buffer_write_finish with_data data max_size] in Hx.
  rewrite Epos, lookup_scatter in Hx by done.
  destruct (decide (Z.of_nat i < use_size r)) as [Hlt|Hge].
  - rewrite lookup_app_l in Hy by lia. rewrite lookup_used in Hy by (done || lia).
    assert (j = Z.of_nat i - use_size r + max_size r) as Ej.
    { unfold j. symmetry. apply (Z.mod_unique _ _ (-1)); lia. }
    rewrite decide_False in Hx by lia. rewrite Epos in Hy. congruence.
  - rewrite lookup_app_r in Hy by lia.
    assert (j = Z.of_nat i - use_size r) as Ej.
    { unfold j. apply Z.mod_small. unfold zlen in *. lia. }
    rewrite decide_True in Hx by lia.
    replace (Z.to_nat j) with (i - length (used r))%nat in Hx by lia. congruence.
Qed.

(** ** Consuming and releasing *)

Lemma read_finish_wf r n : wf r -> op_ok r (OpRead n) -> wf (hev_ring_buffer_read_finish r n).
Proof.
  intros W Hn. pose proof (wf_wp r W) as Hwp. destruct W as [? ? ? ? ? _]. unfold op_ok in Hn.
  assert (u64 (rp r + n) = rp r + n) as E1 by (apply u64_id; lia).
  assert (u64 (rda_size r - n) = rda_size r - n) as E2 by (apply u64_id; lia).
  constructor; cbn; rewrite ?E1, ?E2; try lia.
  - apply Z.mod_pos_bound. lia.
  - rewrite Z.add_mod_idemp_l by lia. rewrite Hwp. f_equal. lia.
Qed.

Lemma used_read_finish r n : used (hev_ring_buffer_read_finish r n) = used r.
Proof. done. Qed.

Lemma read_release_wf r n : wf r -> op_ok r (OpRelease n) -> wf (hev_ring_buffer_read_release r n).
Proof.
  intros W Hn. unfold op_ok in Hn. unfold hev_ring_buffer_read_release.
  rewrite u64_id by (destruct W; lia). destruct W. case_bool; constructor; cbn; try lia.
  assert (rda_size r = 0) as -> by lia. by rewrite Z.mod_0_l by lia.
Qed.

Lemma used_read_release r n : wf r -> op_ok r (OpRelease n) ->
  used (hev_ring_buffer_read_release r n) = drop (Z.to_nat n) (used r).
Proof.
  intros W Hn. pose proof (read_release_wf r n W Hn) as W'. pose proof (length_used r W) as Hl.
  pose proof (length_used _ W') as Hl'. pose proof (wf_max r W). pose proof (wp_range r W).
  unfold op_ok in Hn.
  assert (use_size (hev_ring_buffer_read_release r n) = use_size r - n) as Eu.
  { unfold hev_ring_buffer_read_release. rewrite u64_id by (destruct W; lia). by case_bool. }
  apply list_eq_same_length with (n := Z.to_nat (use_size r - n)).
  { rewrite length_drop, Hl. destruct W. lia. }
  { by rewrite Hl', Eu. }
  intros i x y Hi Hx Hy. rewrite lookup_used in Hx by (done || lia).
  rewrite lookup_drop in Hy. rewrite lookup_used in Hy by (done || destruct W; lia).
  assert (tail_pos (hev_ring_buffer_read_release r n) = (tail_pos r + n) mod max_size r) as Et.
  { unfold tail_pos. rewrite Eu. revert Eu. unfold hev_ring_buffer_read_release.
    rewrite u64_id by (destruct W; lia). case_bool; cbn; intros Eu; [lia|].
    rewrite Z.add_mod_idemp_l by lia. f_equal. lia. }
  assert (max_size (hev_ring_buffer_read_release r n) = max_size r) as Em.
  { unfold hev_ring_buffer_read_release. by case_bool. }
  assert (data (hev_ring_buffer_read_release r n) = data r) as Ed.
  { unfold hev_ring_buffer_read_release. by case_bool. }
  rewrite Et, Em, Ed, Z.add_mod_idemp_l in Hx by lia.
  replace (tail_pos r + n + Z.of_nat i) with (tail_pos r + Z.of_nat (Z.to_nat n + i)) in Hx by lia.
  congruence.
Qed.

Lemma step_wf r o : wf r -> op_ok r o -> wf (ring_step r o).
Proof. destruct o; eauto using ring_write_wf, read_finish_wf, read_release_wf. Qed.

Lemma step_abs r o : wf r -> op_ok r o -> abs (ring_step r o) = q_step (abs r) o.
Proof.
  intros W Ho. pose proof (length_used r W) as Hl. unfold abs. destruct o as [bs|n|n]; cbn [ring_step q_step].
  - destruct (ring_write_sizes r bs W Ho) as (_ & Er & Eu). rewrite used_write, Er, Eu by done.
    unfold q_write. cbn [q_cap q_inflight q_ready].
    replace (use_size r + zlen bs - (rda_size r + zlen bs)) with (use_size r - rda_size r) by lia.
    rewrite take_app_le, drop_app_le by (destruct W; lia). done.
  - rewrite used_read_finish. unfold q_read. cbn in Ho |- *.
    rewrite u64_id by (destruct W; lia).
    replace (Z.to_nat (use_size r - (rda_size r - n)))
      with (Z.to_nat (use_size r - rda_size r) + Z.to_nat n)%nat by (destruct W; lia).
    f_equal; [|by rewrite drop_drop].
    rewrite <- (take_drop (Z.to_nat (use_size r - rda_size r)) (used r)) at 1.
    rewrite take_app, take_take, length_take.
    f_equal; f_equal; destruct W; lia.
  - rewrite used_read_release by done. unfold q_release.
    assert (use_size (hev_ring_buffer_read_release r n) = use_size r - n /\
            rda_size (hev_ring_buffer_read_release r n) = rda_size r /\
            max_size (hev_ring_buffer_read_release r n) = max_size r) as (-> & -> & ->).
    { unfold hev_ring_buffer_read_release. cbn in Ho.
      rewrite u64_id by (destruct W; lia). by case_bool. }
    cbn in Ho |- *. f_equal.
    + rewrite take_drop_commute. do 2 f_equal. destruct W; lia.
    + rewrite drop_drop. f_equal. destruct W; lia.
Qed.

Lemma alloca_wf s mem : 0 < s < 2 ^ 63 -> zlen mem = s -> wf (hev_ring_buffer_alloca s mem).
Proof. intros. constructor; cbn; try lia. by rewrite Z.mod_0_l by lia. Qed.

Lemma history_spec r0 r w f : wf r0 -> use_size r0 = 0 -> history r0 r w f ->
  wf r /\ (f <= length w)%nat /\ used r = drop f w.
Proof.
  intros W0 U0 H. induction H as [|r1 bs w f H IH Ho|r1 n w f H IH Ho|r1 n w f H IH Ho];
    [|(destruct IH as (W & Hf & E); pose proof (step_wf _ _ W Ho)) ..].
  - split; [done|]. split; [done|]. rewrite drop_nil. apply nil_length_inv.
    rewrite length_used by done. lia.
  - split; [done|]. rewrite length_app. split; [lia|].
    cbn [ring_step]. rewrite used_write, E by done. by rewrite drop_app_le by lia.
  - done.
  - cbn [ring_step]. rewrite used_read_release, E, drop_drop by done.
    pose proof (f_equal length E) as El. rewrite length_used, length_drop in El by done.
    split; [done|]. split; [cbn in Ho; destruct W; lia|done].
Qed.

(** ** Properties *)

(** The iovecs that the buffer hands out are inside it.  Those of
    [hev_ring_buffer_reading] hold, in order, exactly the unread part of the queue, and
    those of [hev_ring_buffer_writing] amount to exactly the free space, so that no
    [readv] into them can overrun it. *)
Lemma ring_iovecs_correct r :
  wf r ->
  (Forall (iov_in (max_size r)) (hev_ring_buffer_reading r) /\
   iov_total (hev_ring_buffer_reading r) = rda_size r /\
   gather (data r) (hev_ring_buffer_reading r) = q_ready (abs r)) /\
  Forall (iov_in (max_size r)) (hev_ring_buffer_writing r) /\
  iov_total (hev_ring_buffer_writing r) =
    q_cap (abs r) - zlen (q_inflight (abs r)) - zlen (q_ready (abs r)).
Proof.
  intros W. destruct (reading_in_bounds r W), (writing_in_bounds r W) as [? ->].
  rewrite gather_reading, window_rp by done. split_and!; try done.
  pose proof (length_used r W). unfold zlen. cbn. rewrite length_take, length_drop.
  destruct W. lia.
Qed.

(** C25: the buffer is a two-part queue.  The iovecs of [hev_ring_buffer_reading] lie in
    it and hold, in order, exactly the unread part; those of [hev_ring_buffer_writing] lie
    in it and amount to exactly the free space, so that no [readv] can overrun it.  Every
    use (store the bytes [readv] returned and [write_finish]; [read_finish];
    [read_release]) keeps the invariant and acts on the queue as append, hand-over and
    release: a later write never disturbs a byte that is in flight or still unread, also
    across the wrap-around of the ring. *)
Theorem ring_step_refines r o :
  wf r -> op_ok r o ->
  ((Forall (iov_in (max_size r)) (hev_ring_buffer_reading r) /\
    iov_total (hev_ring_buffer_reading r) = rda_size r /\
    gather (data r) (hev_ring_buffer_reading r) = q_ready (abs r)) /\
   Forall (iov_in (max_size r)) (hev_ring_buffer_writing r) /\
   iov_total (hev_ring_buffer_writing r) =
     q_cap (abs r) - zlen (q_inflight (abs r)) - zlen (q_ready (abs r))) /\
  wf (ring_step r o) /\ abs (ring_step r o) = q_step (abs r) o.
Proof. intros W O. split; [by apply ring_iovecs_correct|]. eauto using step_wf, step_abs. Qed.

(** stream integrity.  Over any sequence of uses of a freshly allocated
    buffer, the bytes it holds are the bytes received so far minus the
    acknowledged prefix: nothing is lost, duplicated or reordered. *)
Theorem ring_stream_integrity s mem r w f :
  0 < s < 2 ^ 63 -> zlen mem = s -> history (hev_ring_buffer_alloca s mem) r w f ->
  (f <= length w)%nat /\ q_inflight (abs r) ++ q_ready (abs r) = drop f w.
Proof.
  intros Hs Hm H. apply history_spec in H as (W & Hf & E); [|by apply alloca_wf|done].
  cbn. by rewrite take_drop.
Qed.

(** ** Witnesses *)

(** A buffer of 4 bytes that wraps: two bytes in flight, one unread. *)
Definition ring_ex : HevRingBuffer :=
  {| rp := 1; wp := 2; rda_size := 1; use_size := 3; max_size := 4; data := [10; 20; 30; 40] |}.

Lemma ring_ex_wf : wf ring_ex.
Proof. constructor; concrete. Qed.

Lemma ring_step_refines_witness :
  abs ring_ex = mkQueue 4 [40; 10] [20] /\
  wf (ring_step ring_ex (OpWrite [7])) /\
  abs (ring_step ring_ex (OpWrite [7])) = mkQueue 4 [40; 10] [20; 7].
Proof.
  split; [reflexivity|].
  apply (ring_step_refines ring_ex (OpWrite [7]) ring_ex_wf). concrete.
Defined.

Lemma ring_stream_integrity_witness :
  (1 <= length [1%Z; 2%Z; 3%Z])%nat /\
  q_inflight (abs (ring_step (ring_step (ring_step (hev_ring_buffer_alloca 3 [0; 0; 0])
     (OpWrite [1; 2; 3])) (OpRead 2)) (OpRelease 1))) ++
  q_ready (abs (ring_step (ring_step (ring_step (hev_ring_buffer_alloca 3 [0; 0; 0])
     (OpWrite [1; 2; 3])) (OpRead 2)) (OpRelease 1))) = [2; 3].
Proof.
  apply (ring_stream_integrity 3 [0; 0; 0] _ [1; 2; 3] 1); [lia|done|].
  apply (hist_release _ _ 1 [1; 2; 3] 0); [|concrete].
  apply hist_read; [|concrete].
  apply (hist_write _ _ [1; 2; 3] [] 0); [apply hist_init|concrete].
Defined.

End RingBuffer.
