(* ===== verification/HevList.v ===== *)
(** * Intrusive doubly linked lists (src/misc/hev-list.c)

    The code keeps its sessions, mapped names and queued UDP frames on one
    pointer-linked list type.  The pointer operations run on a heap of list
    nodes; [dlist] relates a heap and a list head to the sequence of node
    addresses it stands for, and the operations are shown to implement
    [seq_add_tail] and [seq_del] on that sequence.  The components that own
    lists are modelled on these sequences. *)

From Stdlib Require Import ZArith Lia.
From stdpp Require Import base list gmap numbers.
From S2P Require Import Prelude.
Import list_basics.list list_relations.list list_monad.list list_misc.list.

Module HevList.

(** ** Data: node addresses are non-zero, [NULL] is 0 *)

Definition NULL : Z := 0.

Record HevListNode := mkLNode { next : Z; prev : Z }.

Record HevList := mkList { head : Z; tail : Z }.

Abbreviation lheap := (gmap Z HevListNode).

(** Field accesses; a missing address is a wild pointer. *)

Definition load (h : lheap) (a : Z) : outcome HevListNode := of_option (h !! a).

Definition set_next (h : lheap) (a v : Z) : outcome lheap :=
  let! n := load h a in Val (<[a := mkLNode v (prev n)]> h).

Definition set_prev (h : lheap) (a v : Z) : outcome lheap :=
  let! n := load h a in Val (<[a := mkLNode (next n) v]> h).

(** ** Operations *)

Definition hev_list_node_prev (h : lheap) (node : Z) : outcome Z :=
  let! n := load h node in Val (prev n).

Definition hev_list_node_next (h : lheap) (node : Z) : outcome Z :=
  let! n := load h node in Val (next n).

Definition hev_list_first (self : HevList) : Z := head self.

Definition hev_list_last (self : HevList) : Z := tail self.

Definition hev_list_add_tail (self : HevList) (h : lheap) (new_ : Z)
    : outcome (HevList * lheap) :=
  let! h := set_prev h new_ (tail self) in
  let! h := set_next h new_ NULL in
  if bool_decide (tail self <> NULL) then
    let! h := set_next h (tail self) new_ in
    Val (mkList (head self) new_, h)
  else Val (mkList new_ new_, h).

Definition hev_list_del (self : HevList) (h : lheap) (node : Z)
    : outcome (HevList * lheap) :=
  let! n := load h node in
  let! (self, h) :=
    if bool_decide (prev n <> NULL) then
      let! h := set_next h (prev n) (next n) in Val (self, h)
    else Val (mkList (next n) (tail self), h) in
  let! n := load h node in
  if bool_decide (next n <> NULL) then
    let! h := set_prev h (next n) (prev n) in Val (self, h)
  else Val (mkList (head self) (prev n), h).

(** The loop [for (n = first; n; n = next)] that every owner of a list writes;
    [fuel] bounds the number of iterations. *)
Fixpoint hev_list_walk (fuel : nat) (h : lheap) (node : Z) : outcome (list Z) :=
  if bool_decide (node = NULL) then Val []
  else
    match fuel with
    | O => Fault
    | S fuel =>
        let! nx := hev_list_node_next h node in
        let! rest := hev_list_walk fuel h nx in
        Val (node :: rest)
    end.

(** ** Abstract sequences *)

Definition seq_add_tail (xs : list Z) (n : Z) : list Z := xs ++ [n].

Definition seq_del (xs : list Z) (n : Z) : list Z := filter (fun y => y <> n) xs.

Definition seq_first (xs : list Z) : option Z := xs !! 0%nat.

(** ** Representation

    [dseg h pp p xs q qn]: from [p] the heap links the nodes [xs]; [pp] is the
    node before the segment, [q] its last node and [qn] the node after it. *)

Fixpoint dseg (h : lheap) (pp p : Z) (xs : list Z) (q qn : Z) : Prop :=
  match xs with
  | [] => p = qn /\ pp = q
  | x :: xs' => p = x /\ x <> NULL /\
      exists r, h !! x = Some (mkLNode r pp) /\ dseg h x r xs' q qn
  end.

Definition dlist (h : lheap) (l : HevList) (xs : list Z) : Prop :=
  NoDup xs /\ dseg h NULL (head l) xs (tail l) NULL.

(** ** Segment lemmas *)

Lemma dseg_app h xs : forall pp p ys q qn,
  dseg h pp p (xs ++ ys) q qn <->
  exists j jn, dseg h pp p xs j jn /\ dseg h j jn ys q qn.
Proof.
  induction xs as [|x xs IH]; intros pp p ys q qn; cbn.
  - split.
    + intros H. exists pp, p. done.
    + intros (j & jn & [-> ->] & H). done.
  - split.
    + intros (-> & Hx & r & Hr & (j & jn & H1 & H2)%IH). exists j, jn. split; [|done]. eauto.
    + intros (j & jn & (-> & Hx & r & Hr & H1) & H2). split; [done|]. split; [done|].
      exists r. split; [done|]. apply IH. eauto.
Qed.

Lemma dseg_frame h h' xs : forall pp p q qn,
  (forall x, x ∈ xs -> h' !! x = h !! x) -> dseg h pp p xs q qn -> dseg h' pp p xs q qn.
Proof.
  induction xs as [|x xs IH]; intros pp p q qn Hf; cbn; [done|].
  intros (-> & Hx & r & Hr & H). split; [done|]. split; [done|]. exists r.
  rewrite Hf by left. split; [done|]. apply IH; [|done]. intros. apply Hf. by right.
Qed.

(** The last node of a non-empty segment, and redirecting its [next]. *)
Lemma dseg_snoc h xs x pp p q qn :
  dseg h pp p (xs ++ [x]) q qn <->
  x = q /\ x <> NULL /\ exists r, h !! x = Some (mkLNode qn r) /\ dseg h pp p xs r x.
Proof.
  rewrite dseg_app. cbn. split.
  - intros (j & jn & H & -> & Hx & r & Hr & -> & ->). eauto 10.
  - intros (-> & Hx & r & Hr & H). exists r, q. eauto 10.
Qed.

Lemma dseg_nonnull h xs : forall pp p q qn x, dseg h pp p xs q qn -> x ∈ xs -> x <> NULL.
Proof.
  induction xs as [|y xs IH]; intros pp p q qn x; cbn; [by intros _ ?%elem_of_nil|].
  intros (-> & Hy & r & Hr & H) [->|Hin]%elem_of_cons; [done|]. eauto.
Qed.

Lemma seq_del_absent xs x : x ∉ xs -> seq_del xs x = xs.
Proof.
  unfold seq_del. induction xs as [|y xs IH]; intros Hx; [done|].
  apply not_elem_of_cons in Hx as [? ?]. rewrite filter_cons_True by done. f_equal. auto.
Qed.

Lemma seq_del_middle l1 x l2 : NoDup (l1 ++ x :: l2) -> seq_del (l1 ++ x :: l2) x = l1 ++ l2.
Proof.
  intros (_ & Hd & Hn)%NoDup_app. unfold seq_del. rewrite filter_app, filter_cons_False by naive_solver.
  apply NoDup_cons in Hn as [Hx _]. f_equal.
  - apply seq_del_absent. intros Hl. apply (Hd x Hl). left.
  - by apply seq_del_absent.
Qed.

Lemma set_next_ok h a v n : h !! a = Some n -> set_next h a v = Val (<[a := mkLNode v (prev n)]> h).
Proof. unfold set_next, load. by intros ->. Qed.

Lemma set_prev_ok h a v n : h !! a = Some n -> set_prev h a v = Val (<[a := mkLNode (next n) v]> h).
Proof. unfold set_prev, load. by intros ->. Qed.

Ltac step_lookup :=
  repeat first [rewrite lookup_insert_eq | rewrite lookup_insert_ne by congruence].

Lemma add_tail_ok h l xs n o :
  dlist h l xs -> n ∉ xs -> n <> NULL -> h !! n = Some o ->
  exists l' h', hev_list_add_tail l h n = Val (l', h') /\
    dlist h' l' (seq_add_tail xs n) /\ (forall y, y ∉ n :: xs -> h' !! y = h !! y).
Proof.
  intros [Hnd Hs] Hn H0 Ho. unfold hev_list_add_tail.
  erewrite set_prev_ok by done. cbn [obind]. erewrite set_next_ok by apply lookup_insert_eq.
  cbn [obind prev]. rewrite insert_insert_eq.
  assert (NoDup (xs ++ [n])) as Hnd'.
  { apply NoDup_app. split; [done|]. split; [|by apply NoDup_singleton].
    intros x Hx ->%list_elem_of_singleton. done. }
  destruct xs as [|x xs _] using rev_ind.
  - destruct Hs as [Eh Et]. rewrite <- Et, bool_decide_false by (intros C; by apply C).
    do 2 eexists. split; [done|]. split.
    + split; [done|]. cbn. do 2 (split; [done|]). exists NULL. by rewrite lookup_insert_eq.
    + intros y [? _]%not_elem_of_cons. by rewrite lookup_insert_ne.
  - apply dseg_snoc in Hs as (<- & Hx & r & Hr & Hs).
    assert (n <> x) by (intros ->; apply Hn, elem_of_app; right; left).
    rewrite bool_decide_true by done. erewrite set_next_ok by (by rewrite lookup_insert_ne).
    cbn [obind prev]. do 2 eexists. split; [done|]. split.
    + split; [done|]. apply dseg_snoc. cbn [head tail].
      split; [done|]. split; [done|]. exists x. step_lookup. split; [done|].
      apply dseg_snoc. split; [done|]. split; [done|]. exists r. step_lookup. split; [done|].
      eapply dseg_frame; [|exact Hs]. intros y Hy.
      apply NoDup_app in Hnd as (_ & Hd & _).
      assert (y <> x) by (intros ->; apply (Hd x Hy); left).
      assert (y <> n) by (intros ->; apply Hn, elem_of_app; by left).
      by step_lookup.
    + intros y Hy. assert (y <> n /\ y <> x) as [? ?].
      { split; intros ->; apply Hy; [left|right; apply elem_of_app; right; left]. }
      by step_lookup.
Qed.

(** Unlinking on the left side of the removed node. *)
Lemma cut_prev h self l1 x j nxt :
  dseg h NULL (head self) l1 j x -> NoDup l1 ->
  exists self' h',
    (if bool_decide (j <> NULL) then let! h := set_next h j nxt in Val (self, h)
     else Val (mkList nxt (tail self), h)) = Val (self', h') /\
    tail self' = tail self /\ dseg h' NULL (head self') l1 j nxt /\
    (forall y, y ∉ l1 -> h' !! y = h !! y).
Proof.
  intros Hs Hnd. destruct l1 as [|a l1 _] using rev_ind.
  - destruct Hs as [Eh <-]. rewrite bool_decide_false by (intros C; by apply C). do 2 eexists. split; [done|].
    cbn. done.
  - apply dseg_snoc in Hs as (<- & Ha & r & Hr & Hs).
    rewrite bool_decide_true by done. erewrite set_next_ok by done. cbn [obind prev].
    do 2 eexists. split; [done|]. split; [done|].
    apply NoDup_app in Hnd as (_ & Hd & _). split.
    + apply dseg_snoc. split; [done|]. split; [done|]. exists r. step_lookup. split; [done|].
      (* the prefix keeps its outgoing pointer to [a] *)
      eapply dseg_frame; [|exact Hs]. intros y Hy.
      assert (y <> a) by (intros ->; apply (Hd a Hy); left). by step_lookup.
    + intros y Hy. assert (y <> a) by (intros ->; apply Hy, elem_of_app; right; left).
      by step_lookup.
Qed.

(** Unlinking on the right side of the removed node. *)
Lemma cut_next h self l2 x j nxt :
  dseg h x nxt l2 (tail self) NULL -> NoDup l2 ->
  exists self' h',
    (if bool_decide (nxt <> NULL) then let! h := set_prev h nxt j in Val (self, h)
     else Val (mkList (head self) j, h)) = Val (self', h') /\
    head self' = head self /\ dseg h' j nxt l2 (tail self') NULL /\
    (forall y, y ∉ l2 -> h' !! y = h !! y).
Proof.
  intros Hs Hnd. destruct l2 as [|b l2].
  - destruct Hs as [-> Et]. rewrite bool_decide_false by (intros C; by apply C).
    do 2 eexists. split; [done|]. done.
  - destruct Hs as (-> & Hb & r & Hr & Hs). rewrite bool_decide_true by done.
    erewrite set_prev_ok by done. cbn [obind next].
    do 2 eexists. split; [done|]. split; [done|]. apply NoDup_cons in Hnd as [Hbn _]. split.
    + do 2 (split; [done|]). exists r. step_lookup. split; [done|].
      eapply dseg_frame; [|exact Hs]. intros y Hy.
      assert (y <> b) by (intros ->; done). by step_lookup.
    + intros y [? _]%not_elem_of_cons. by step_lookup.
Qed.

Lemma del_ok h l xs x :
  dlist h l xs -> x ∈ xs ->
  exists l' h', hev_list_del l h x = Val (l', h') /\
    dlist h' l' (seq_del xs x) /\ h' !! x = h !! x /\
    (forall y, y ∉ xs -> h' !! y = h !! y).
Proof.
  intros [Hnd Hs] (l1 & l2 & ->)%list_elem_of_split.
  apply dseg_app in Hs as (j & jn & H1 & -> & Hx & r & Hr & H2).
  rewrite seq_del_middle by done.
  pose proof Hnd as (N1 & D & [X2 N2]%NoDup_cons)%NoDup_app.
  assert (x ∉ l1) as X1 by (intros C; apply (D x C); left).
  unfold hev_list_del, load. rewrite Hr. cbn [obind of_option prev next].
  destruct (cut_prev h l l1 x j r H1 N1) as (s1 & h1 & -> & Et & D1 & F1).
  cbn [obind]. rewrite F1 by done. rewrite Hr. cbn [obind of_option prev next].
  destruct (cut_next h1 s1 l2 x j r) as (s2 & h2 & -> & Eh & D2 & F2); [|done|].
  { rewrite Et. eapply dseg_frame; [|exact H2]. intros y Hy. apply F1.
    intros C. apply (D y C). by right. }
  exists s2, h2. split; [done|]. split; [|split].
  - split. { apply NoDup_app. split; [done|]. split; [|done]. intros y Hy C. apply (D y Hy). by right. }
    apply dseg_app. exists j, r. split; [|done]. rewrite Eh. eapply dseg_frame; [|exact D1].
    intros y Hy. apply F2. intros C. apply (D y Hy). by right.
  - by rewrite F2, F1 by done.
  - intros y Hy. rewrite F2, F1; [done| |]; intros C; apply Hy, elem_of_app;
      [by left|right; by right].
Qed.

Lemma walk_ok h xs : forall pp p q fuel,
  dseg h pp p xs q NULL -> (length xs <= fuel)%nat -> hev_list_walk fuel h p = Val xs.
Proof.
  induction xs as [|x xs IH]; intros pp p q fuel; cbn [dseg length].
  - intros [-> _] _. destruct fuel; reflexivity.
  - intros (-> & Hx & r & Hr & H) Hf. destruct fuel as [|fuel]; [lia|]. cbn [hev_list_walk].
    rewrite bool_decide_false by done. unfold hev_list_node_next, load. rewrite Hr. cbn.
    erewrite IH; [done|done|lia].
Qed.

(** ** Properties *)

(** Adding a node at the tail and deleting a member, wherever it stands in the list,
    never follow a bad pointer, yield the well-formed list with the node at its end or
    without it in unchanged order, and touch no other list's nodes; [hev_list_walk] then
    visits exactly the remaining nodes. *)
Lemma list_ops_refine h l xs :
  dlist h l xs ->
  (forall n o, n ∉ xs -> n <> NULL -> h !! n = Some o ->
    exists l' h', hev_list_add_tail l h n = Val (l', h') /\
      dlist h' l' (seq_add_tail xs n) /\ (forall y, y ∉ n :: xs -> h' !! y = h !! y)) /\
  (forall x, x ∈ xs ->
    exists l' h', hev_list_del l h x = Val (l', h') /\
      dlist h' l' (seq_del xs x) /\
      (forall y, y ∉ xs -> h' !! y = h !! y) /\
      hev_list_walk (length xs) h' (hev_list_first l') = Val (seq_del xs x)).
Proof.
  intros H. split; [intros n o; by apply add_tail_ok|]. intros x Hx.
  destruct (del_ok h l xs x H Hx) as (l' & h' & E & D & _ & F).
  exists l', h'. split; [done|]. split; [done|]. split; [done|].
  destruct D as [_ D]. eapply walk_ok; [exact D|]. apply length_filter.
Qed.

(** ** Witnesses: the list 8 <-> 16 <-> 24 *)

Definition list_ex_heap : lheap :=
  <[8 := mkLNode 16 0]> (<[16 := mkLNode 24 8]> (<[24 := mkLNode 0 16]> (<[32 := mkLNode 7 7]> ∅))).

Lemma list_ex_rep : dlist list_ex_heap (mkList 8 24) [8; 16; 24].
Proof.
  split; [apply (bool_decide_unpack (NoDup [8; 16; 24])); vm_compute; exact I|].
  cbn. do 2 (split; [done|]). exists 16. split; [reflexivity|].
  do 2 (split; [done|]). exists 24. split; [reflexivity|].
  do 2 (split; [done|]). exists 0. split; [reflexivity|]. done.
Qed.

Lemma list_ops_refine_witness :
  (exists l' h', hev_list_add_tail (mkList 8 24) list_ex_heap 32 = Val (l', h') /\
    dlist h' l' [8; 16; 24; 32] /\ (forall y, y ∉ [32; 8; 16; 24] -> h' !! y = list_ex_heap !! y)) /\
  (exists l' h', hev_list_del (mkList 8 24) list_ex_heap 16 = Val (l', h') /\
    dlist h' l' [8; 24] /\
    (forall y, y ∉ [8; 16; 24] -> h' !! y = list_ex_heap !! y) /\
    hev_list_walk 3 h' (hev_list_first l') = Val [8; 24]).
Proof.
  destruct (list_ops_refine list_ex_heap (mkList 8 24) [8; 16; 24] list_ex_rep) as [Hadd Hdel]. split.
  - apply (Hadd 32 (mkLNode 7 7)); [|concrete|reflexivity].
    apply (bool_decide_unpack (32 ∉ [8; 16; 24])). vm_compute. exact I.
  - apply (Hdel 16). apply (bool_decide_unpack (16 ∈ [8; 16; 24])). vm_compute. exact I.
Defined.

End HevList.
