(* ===== verification/RBTree.v ===== *)
(** * Intrusive red-black trees (src/core/src/hev-rbtree.c)

    The pointer code: nodes live in a heap, the parent pointer and the colour
    share the word [__parent_color], and every routine is translated statement
    by statement.  Loops run on fuel; the theorems of [RBTreeInsert] and
    [RBTreeErase] show the fuel that suffices. *)

From Stdlib Require Import ZArith Lia.
From stdpp Require Import base list gmap numbers.
From S2P Require Import Prelude.

Module RBTree.

(** ** Data *)

Definition NULL : Z := 0.
Definition HEV_RBTREE_RED : Z := 0.
Definition HEV_RBTREE_BLACK : Z := 1.

Record HevRBTreeNode := mkRBNode {
  parent_color : Z;
  right : Z;
  left : Z;
}.

(** The store of one tree: [root] of the [HevRBTree] and the nodes. *)
Record HevRBTree := mkRBTree {
  root : Z;
  cells : gmap Z HevRBTreeNode;
}.

Abbreviation RB := (ST HevRBTree).

(** The [HevRBTreeNode **] a caller passes to [hev_rbtree_node_link]. *)
Inductive link :=
| LRoot
| LLeft (p : Z)
| LRight (p : Z).

(** ** Field accesses *)

Definition get (a : Z) : RB HevRBTreeNode := fun s =>
  match cells s !! a with
  | Some n => Val (n, s)
  | None => Fault
  end.

Definition put (a : Z) (n : HevRBTreeNode) : RB unit := fun s =>
  match cells s !! a with
  | Some _ => Val (tt, mkRBTree (root s) (<[a := n]> (cells s)))
  | None => Fault
  end.

Definition get_root : RB Z := fun s => Val (root s, s).
Definition set_root (p : Z) : RB unit := fun s => Val (tt, mkRBTree p (cells s)).

Definition get_pc (a : Z) : RB Z := do! n := get a in sret (parent_color n).
Definition get_left (a : Z) : RB Z := do! n := get a in sret (left n).
Definition get_right (a : Z) : RB Z := do! n := get a in sret (right n).

Definition set_pc (a v : Z) : RB unit := do! n := get a in put a (mkRBNode v (right n) (left n)).
Definition set_left (a v : Z) : RB unit :=
  do! n := get a in put a (mkRBNode (parent_color n) (right n) v).
Definition set_right (a v : Z) : RB unit :=
  do! n := get a in put a (mkRBNode (parent_color n) v (left n)).

Definition nonnull (p : Z) : bool := negb (p =? NULL).

(** ** Inline helpers *)

Definition hev_rbtree_node_color (node : Z) : RB Z :=
  do! pc := get_pc node in sret (Z.land pc 1).

Definition hev_rbtree_node_is_red (node : Z) : RB bool :=
  do! c := hev_rbtree_node_color node in sret (Z.land c HEV_RBTREE_BLACK =? 0).

Definition hev_rbtree_node_is_black (node : Z) : RB bool :=
  do! c := hev_rbtree_node_color node in sret (negb (Z.land c HEV_RBTREE_BLACK =? 0)).

Definition _hev_rbtree_node_is_black (pc : Z) : bool := negb (Z.land pc HEV_RBTREE_BLACK =? 0).

Definition _hev_rbtree_node_parent (pc : Z) : Z := Z.land pc (Z.lnot 3).

Definition hev_rbtree_node_red_parent (node : Z) : RB Z := get_pc node.

Definition hev_rbtree_node_set_black (node : Z) : RB unit :=
  do! pc := get_pc node in set_pc node (Z.lor pc HEV_RBTREE_BLACK).

Definition hev_rbtree_node_set_parent (node parent : Z) : RB unit :=
  do! c := hev_rbtree_node_color node in set_pc node (Z.lor c parent).

Definition hev_rbtree_node_set_parent_color (node parent color : Z) : RB unit :=
  set_pc node (Z.lor parent color).

Definition hev_rbtree_node_empty (node : Z) : RB bool :=
  do! pc := get_pc node in sret (pc =? node).

Definition hev_rbtree_node_parent (node : Z) : RB Z :=
  do! pc := get_pc node in sret (Z.land pc (Z.lnot 3)).

Definition hev_rbtree_node_link (node parent : Z) (lk : link) : RB unit :=
  set_pc node parent ;;;
  set_right node NULL ;;;
  set_left node NULL ;;;
  match lk with
  | LRoot => set_root node
  | LLeft p => set_left p node
  | LRight p => set_right p node
  end.

Definition hev_rbtree_change_child (old new parent : Z) : RB unit :=
  if nonnull parent then
    do! l := get_left parent in
    if l =? old then set_left parent new else set_right parent new
  else set_root new.

Definition hev_rbtree_rotate_set_parents (old new color : Z) : RB unit :=
  do! parent := hev_rbtree_node_parent old in
  do! pc := get_pc old in
  set_pc new pc ;;;
  hev_rbtree_node_set_parent_color old new color ;;;
  hev_rbtree_change_child old new parent.

(** ** Traversal *)

(** [while (node->left) node = node->left;] and its mirror. *)
Fixpoint go_left (fuel : nat) (node : Z) : RB Z :=
  match fuel with
  | O => sfault
  | S fuel => do! l := get_left node in if nonnull l then go_left fuel l else sret node
  end.

Fixpoint go_right (fuel : nat) (node : Z) : RB Z :=
  match fuel with
  | O => sfault
  | S fuel => do! r := get_right node in if nonnull r then go_right fuel r else sret node
  end.

(** [while ((parent = node_parent (node)) && node == parent->right) node = parent;
    return parent;] and its mirror. *)
Fixpoint climb_right (fuel : nat) (node : Z) : RB Z :=
  match fuel with
  | O => sfault
  | S fuel =>
      do! parent := hev_rbtree_node_parent node in
      if nonnull parent then
        do! r := get_right parent in
        if node =? r then climb_right fuel parent else sret parent
      else sret parent
  end.

Fixpoint climb_left (fuel : nat) (node : Z) : RB Z :=
  match fuel with
  | O => sfault
  | S fuel =>
      do! parent := hev_rbtree_node_parent node in
      if nonnull parent then
        do! l := get_left parent in
        if node =? l then climb_left fuel parent else sret parent
      else sret parent
  end.

Definition hev_rbtree_node_prev (fuel : nat) (node : Z) : RB Z :=
  do! e := hev_rbtree_node_empty node in
  if e then sret NULL
  else
    do! l := get_left node in
    if nonnull l then go_right fuel l else climb_left fuel node.

Definition hev_rbtree_node_next (fuel : nat) (node : Z) : RB Z :=
  do! e := hev_rbtree_node_empty node in
  if e then sret NULL
  else
    do! r := get_right node in
    if nonnull r then go_left fuel r else climb_right fuel node.

Definition hev_rbtree_first (fuel : nat) : RB Z :=
  do! n := get_root in if nonnull n then go_left fuel n else sret NULL.

Definition hev_rbtree_last (fuel : nat) : RB Z :=
  do! n := get_root in if nonnull n then go_right fuel n else sret NULL.

(** ** Insertion *)

(** Cases 2 and 3 when [parent] is the left child of [gparent]. *)
Definition insert_rotate_left_side (node parent gparent : Z) : RB unit :=
  do! tmp := get_right parent in
  do! (parent, tmp) :=
    (if node =? tmp then
       do! tmp := get_left node in
       set_right parent tmp ;;;
       set_left node parent ;;;
       swhen (nonnull tmp) (hev_rbtree_node_set_parent_color tmp parent HEV_RBTREE_BLACK) ;;;
       hev_rbtree_node_set_parent_color parent node HEV_RBTREE_RED ;;;
       do! tmp := get_right node in
       sret (node, tmp)
     else sret (parent, tmp)) in
  set_left gparent tmp ;;;
  set_right parent gparent ;;;
  swhen (nonnull tmp) (hev_rbtree_node_set_parent_color tmp gparent HEV_RBTREE_BLACK) ;;;
  hev_rbtree_rotate_set_parents gparent parent HEV_RBTREE_RED.

(** Cases 2 and 3 when [parent] is the right child of [gparent]. *)
Definition insert_rotate_right_side (node parent gparent : Z) : RB unit :=
  do! tmp := get_left parent in
  do! (parent, tmp) :=
    (if node =? tmp then
       do! tmp := get_right node in
       set_left parent tmp ;;;
       set_right node parent ;;;
       swhen (nonnull tmp) (hev_rbtree_node_set_parent_color tmp parent HEV_RBTREE_BLACK) ;;;
       hev_rbtree_node_set_parent_color parent node HEV_RBTREE_RED ;;;
       do! tmp := get_left node in
       sret (node, tmp)
     else sret (parent, tmp)) in
  set_right gparent tmp ;;;
  set_left parent gparent ;;;
  swhen (nonnull tmp) (hev_rbtree_node_set_parent_color tmp gparent HEV_RBTREE_BLACK) ;;;
  hev_rbtree_rotate_set_parents gparent parent HEV_RBTREE_RED.

(** Case 1, the colour flip; returns the next [node] and [parent]. *)
Definition insert_flip (tmp parent gparent : Z) : RB (Z * Z) :=
  hev_rbtree_node_set_parent_color tmp gparent HEV_RBTREE_BLACK ;;;
  hev_rbtree_node_set_parent_color parent gparent HEV_RBTREE_BLACK ;;;
  do! up := hev_rbtree_node_parent gparent in
  hev_rbtree_node_set_parent_color gparent up HEV_RBTREE_RED ;;;
  sret (gparent, up).

Definition is_red_nonnull (p : Z) : RB bool :=
  if nonnull p then hev_rbtree_node_is_red p else sret false.

Fixpoint insert_color_loop (fuel : nat) (node parent : Z) : RB unit :=
  match fuel with
  | O => sfault
  | S fuel =>
      if negb (nonnull parent) then
        hev_rbtree_node_set_parent_color node NULL HEV_RBTREE_BLACK
      else
        do! black := hev_rbtree_node_is_black parent in
        if (black : bool) then sret tt
        else
          do! gparent := hev_rbtree_node_red_parent parent in
          do! tmp := get_right gparent in
          if negb (parent =? tmp) then
            do! red := is_red_nonnull tmp in
            if (red : bool) then
              do! (node, parent) := insert_flip tmp parent gparent in
              insert_color_loop fuel node parent
            else insert_rotate_left_side node parent gparent
          else
            do! tmp := get_left gparent in
            do! red := is_red_nonnull tmp in
            if (red : bool) then
              do! (node, parent) := insert_flip tmp parent gparent in
              insert_color_loop fuel node parent
            else insert_rotate_right_side node parent gparent
  end.

Definition hev_rbtree_insert_color (fuel : nat) (node : Z) : RB unit :=
  do! parent := hev_rbtree_node_red_parent node in
  insert_color_loop fuel node parent.

(** ** Replacement *)

Definition hev_rbtree_replace (victim new : Z) : RB unit :=
  do! parent := hev_rbtree_node_parent victim in
  do! v := get victim in
  put new v ;;;
  do! l := get_left victim in
  swhen (nonnull l) (hev_rbtree_node_set_parent l new) ;;;
  do! r := get_right victim in
  swhen (nonnull r) (hev_rbtree_node_set_parent r new) ;;;
  hev_rbtree_change_child victim new parent.

(** ** Removal *)

(** [do { parent = successor; successor = tmp; tmp = tmp->left; } while (tmp);] *)
Fixpoint find_successor (fuel : nat) (successor tmp : Z) : RB (Z * Z) :=
  match fuel with
  | O => sfault
  | S fuel =>
      let parent := successor in
      let successor := tmp in
      do! tmp := get_left tmp in
      if nonnull tmp then find_successor fuel successor tmp else sret (parent, successor)
  end.

(** Two children: cut the successor out of the right subtree; returns [parent],
    [successor] and [child2]. *)
Definition erase_cut_successor (fuel : nat) (child : Z) : RB (Z * Z * Z) :=
  let successor := child in
  do! tmp := get_left child in
  if negb (nonnull tmp) then
    do! child2 := get_right successor in
    sret (successor, successor, child2)
  else
    do! (parent, successor) := find_successor fuel successor tmp in
    do! child2 := get_right successor in
    set_left parent child2 ;;;
    set_right successor child ;;;
    hev_rbtree_node_set_parent child successor ;;;
    sret (parent, successor, child2).

(** Two children: the successor takes the place of [node]; returns [rebalance]. *)
Definition erase_put_successor (node parent successor child2 : Z) : RB Z :=
  do! tmp := get_left node in
  set_left successor tmp ;;;
  hev_rbtree_node_set_parent tmp successor ;;;
  do! pc := get_pc node in
  let tmp := _hev_rbtree_node_parent pc in
  hev_rbtree_change_child node successor tmp ;;;
  do! rebalance :=
    (if nonnull child2 then
       hev_rbtree_node_set_parent_color child2 parent HEV_RBTREE_BLACK ;;; sret NULL
     else
       do! b := hev_rbtree_node_is_black successor in
       sret (if (b : bool) then parent else NULL)) in
  set_pc successor pc ;;;
  sret rebalance.

Definition erase_two_children (fuel : nat) (node child : Z) : RB Z :=
  do! (parent, successor, child2) := erase_cut_successor fuel child in
  erase_put_successor node parent successor child2.

Definition _hev_rbtree_erase (fuel : nat) (node : Z) : RB Z :=
  do! child := get_right node in
  do! tmp := get_left node in
  if negb (nonnull tmp) then
    do! pc := get_pc node in
    let parent := _hev_rbtree_node_parent pc in
    hev_rbtree_change_child node child parent ;;;
    if nonnull child then set_pc child pc ;;; sret NULL
    else sret (if _hev_rbtree_node_is_black pc then parent else NULL)
  else if negb (nonnull child) then
    do! pc := get_pc node in
    set_pc tmp pc ;;;
    let parent := _hev_rbtree_node_parent pc in
    hev_rbtree_change_child node tmp parent ;;;
    sret NULL
  else erase_two_children fuel node child.

Definition is_black_or_null (p : Z) : RB bool :=
  if nonnull p then hev_rbtree_node_is_black p else sret true.

(** Case 1 of the left-hand half: left rotate at [parent]; returns the new sibling. *)
Definition erase_case1_left (parent sibling : Z) : RB Z :=
  do! red := hev_rbtree_node_is_red sibling in
  if (red : bool) then
    do! tmp1 := get_left sibling in
    set_right parent tmp1 ;;;
    set_left sibling parent ;;;
    hev_rbtree_node_set_parent_color tmp1 parent HEV_RBTREE_BLACK ;;;
    hev_rbtree_rotate_set_parents parent sibling HEV_RBTREE_RED ;;;
    sret tmp1
  else sret sibling.

Definition erase_case1_right (parent sibling : Z) : RB Z :=
  do! red := hev_rbtree_node_is_red sibling in
  if (red : bool) then
    do! tmp1 := get_right sibling in
    set_left parent tmp1 ;;;
    set_right sibling parent ;;;
    hev_rbtree_node_set_parent_color tmp1 parent HEV_RBTREE_BLACK ;;;
    hev_rbtree_rotate_set_parents parent sibling HEV_RBTREE_RED ;;;
    sret tmp1
  else sret sibling.

(** Case 2: the sibling turns red; [Some] is the next [node] and [parent] of the
    loop, [None] is [break]. *)
Definition erase_case2 (parent sibling : Z) : RB (option (Z * Z)) :=
  hev_rbtree_node_set_parent_color sibling parent HEV_RBTREE_RED ;;;
  do! red := hev_rbtree_node_is_red parent in
  if (red : bool) then hev_rbtree_node_set_black parent ;;; sret None
  else
    do! up := hev_rbtree_node_parent parent in
    sret (if nonnull up then Some (parent, up) else None).

(** Case 4: rotate at [parent]. *)
Definition erase_case4_left (parent sibling tmp1 : Z) : RB unit :=
  do! tmp2 := get_left sibling in
  set_right parent tmp2 ;;;
  set_left sibling parent ;;;
  hev_rbtree_node_set_parent_color tmp1 sibling HEV_RBTREE_BLACK ;;;
  swhen (nonnull tmp2) (hev_rbtree_node_set_parent tmp2 parent) ;;;
  hev_rbtree_rotate_set_parents parent sibling HEV_RBTREE_BLACK.

Definition erase_case4_right (parent sibling tmp1 : Z) : RB unit :=
  do! tmp2 := get_right sibling in
  set_left parent tmp2 ;;;
  set_right sibling parent ;;;
  hev_rbtree_node_set_parent_color tmp1 sibling HEV_RBTREE_BLACK ;;;
  swhen (nonnull tmp2) (hev_rbtree_node_set_parent tmp2 parent) ;;;
  hev_rbtree_rotate_set_parents parent sibling HEV_RBTREE_BLACK.

(** Case 3: rotate at [sibling]; returns the new [sibling] and [tmp1]. *)
Definition erase_case3_left (parent sibling tmp2 : Z) : RB (Z * Z) :=
  do! tmp1 := get_right tmp2 in
  set_left sibling tmp1 ;;;
  set_right tmp2 sibling ;;;
  set_right parent tmp2 ;;;
  swhen (nonnull tmp1) (hev_rbtree_node_set_parent_color tmp1 sibling HEV_RBTREE_BLACK) ;;;
  sret (tmp2, sibling).

Definition erase_case3_right (parent sibling tmp2 : Z) : RB (Z * Z) :=
  do! tmp1 := get_left tmp2 in
  set_right sibling tmp1 ;;;
  set_left tmp2 sibling ;;;
  set_left parent tmp2 ;;;
  swhen (nonnull tmp1) (hev_rbtree_node_set_parent_color tmp1 sibling HEV_RBTREE_BLACK) ;;;
  sret (tmp2, sibling).

(** Cases 2 to 4, below a black sibling. *)
Definition erase_balance_left (parent sibling : Z) : RB (option (Z * Z)) :=
  do! tmp1 := get_right sibling in
  do! b1 := is_black_or_null tmp1 in
  if (b1 : bool) then
    do! tmp2 := get_left sibling in
    do! b2 := is_black_or_null tmp2 in
    if (b2 : bool) then erase_case2 parent sibling
    else
      do! (sibling, tmp1) := erase_case3_left parent sibling tmp2 in
      erase_case4_left parent sibling tmp1 ;;; sret None
  else erase_case4_left parent sibling tmp1 ;;; sret None.

Definition erase_balance_right (parent sibling : Z) : RB (option (Z * Z)) :=
  do! tmp1 := get_left sibling in
  do! b1 := is_black_or_null tmp1 in
  if (b1 : bool) then
    do! tmp2 := get_right sibling in
    do! b2 := is_black_or_null tmp2 in
    if (b2 : bool) then erase_case2 parent sibling
    else
      do! (sibling, tmp1) := erase_case3_right parent sibling tmp2 in
      erase_case4_right parent sibling tmp1 ;;; sret None
  else erase_case4_right parent sibling tmp1 ;;; sret None.

(** One iteration with [node == parent->left], resp. [node == parent->right]. *)
Definition erase_step_left (parent sibling : Z) : RB (option (Z * Z)) :=
  do! sibling := erase_case1_left parent sibling in erase_balance_left parent sibling.

Definition erase_step_right (parent sibling : Z) : RB (option (Z * Z)) :=
  do! sibling := erase_case1_right parent sibling in erase_balance_right parent sibling.

Fixpoint erase_color_loop (fuel : nat) (node parent : Z) : RB unit :=
  match fuel with
  | O => sfault
  | S fuel =>
      do! sibling := get_right parent in
      do! next :=
        (if negb (node =? sibling) then erase_step_left parent sibling
         else do! sibling := get_left parent in erase_step_right parent sibling) in
      match next with
      | Some (node, parent) => erase_color_loop fuel node parent
      | None => sret tt
      end
  end.

Definition _hev_rbtree_erase_color (fuel : nat) (parent : Z) : RB unit :=
  erase_color_loop fuel NULL parent.

Definition hev_rbtree_erase (fuel : nat) (node : Z) : RB unit :=
  do! rebalance := _hev_rbtree_erase fuel node in
  swhen (nonnull rebalance) (_hev_rbtree_erase_color fuel rebalance).

End RBTree.
