(* ===== verification/RBTreeRep.v ===== *)
(** * Red-black trees: abstract trees, contexts and their heap representation

    [tree] is the abstract tree of node addresses, [frame] and [list frame] a
    path from a subtree up to the root.  [zrep] states that a store represents
    the tree obtained by plugging a subtree into a context; it is the loop
    invariant of every routine.  The lemmas here execute the field accesses and
    the shared helpers ([change_child], [rotate_set_parents]) on such a store. *)

From Stdlib Require Import ZArith Lia.
From stdpp Require Import base list gmap numbers.
From S2P Require Import Prelude RBTree.
Import list_basics.list list_relations.list list_monad.list list_misc.list.
Import RBTree.

Module RBTreeRep.

(** ** Abstract trees *)

Inductive color := Red | Black.

Inductive tree :=
| Leaf
| Node (c : color) (l : tree) (a : Z) (r : tree).

(** [FL c a r]: the hole is the left child of [a]; [FR c l a]: the right child. *)
Inductive frame :=
| FL (c : color) (a : Z) (r : tree)
| FR (c : color) (l : tree) (a : Z).

#[global] Instance color_eq_dec : EqDecision color.
Proof. solve_decision. Defined.

Definition plug1 (f : frame) (t : tree) : tree :=
  match f with
  | FL c a r => Node c t a r
  | FR c l a => Node c l a t
  end.

(** Innermost frame first. *)
Fixpoint plug (K : list frame) (t : tree) : tree :=
  match K with
  | [] => t
  | f :: K => plug K (plug1 f t)
  end.

Fixpoint inorder (t : tree) : list Z :=
  match t with
  | Leaf => []
  | Node _ l a r => inorder l ++ a :: inorder r
  end.

Definition ad (t : tree) : Z := match t with Leaf => NULL | Node _ _ a _ => a end.

Definition recolor (c : color) (t : tree) : tree :=
  match t with Leaf => Leaf | Node _ l a r => Node c l a r end.

Abbreviation blacken := (recolor Black).

Definition is_red (t : tree) : bool := match t with Node Red _ _ _ => true | _ => false end.

Definition frame_addr (f : frame) : Z := match f with FL _ a _ => a | FR _ _ a => a end.

Definition ctx_parent (K : list frame) : Z := match K with [] => NULL | f :: _ => frame_addr f end.

(** Addresses of a context left and right of the hole. *)
Fixpoint lefts (K : list frame) : list Z :=
  match K with
  | [] => []
  | FL _ _ _ :: K => lefts K
  | FR _ l a :: K => lefts K ++ inorder l ++ [a]
  end.

Fixpoint rights (K : list frame) : list Z :=
  match K with
  | [] => []
  | FL _ a r :: K => a :: inorder r ++ rights K
  | FR _ _ _ :: K => rights K
  end.

Fixpoint ctx_addrs (K : list frame) : list Z :=
  match K with
  | [] => []
  | FL _ a r :: K => a :: inorder r ++ ctx_addrs K
  | FR _ l a :: K => a :: inorder l ++ ctx_addrs K
  end.

(** ** Encoding of [__parent_color] *)

Definition cz (c : color) : Z := match c with Red => HEV_RBTREE_RED | Black => HEV_RBTREE_BLACK end.

Definition pack (p : Z) (c : color) : Z := Z.lor p (cz c).

(** Nodes are aligned to [sizeof (long)]; two bits are enough for the code. *)
Definition aligned (p : Z) : Prop := 0 <= p /\ p mod 4 = 0.

(** ** Representation *)

Fixpoint rep (h : gmap Z HevRBTreeNode) (par : Z) (t : tree) : Prop :=
  match t with
  | Leaf => True
  | Node c l a r =>
      aligned a /\ a <> NULL /\
      h !! a = Some (mkRBNode (pack par c) (ad r) (ad l)) /\
      rep h a l /\ rep h a r
  end.

(** [hole] is the address stored where the context has its hole. *)
Fixpoint rep_ctx (h : gmap Z HevRBTreeNode) (rt : Z) (K : list frame) (hole : Z) : Prop :=
  match K with
  | [] => rt = hole
  | FL c a r :: K =>
      aligned a /\ a <> NULL /\
      h !! a = Some (mkRBNode (pack (ctx_parent K) c) (ad r) hole) /\
      rep h a r /\ rep_ctx h rt K a
  | FR c l a :: K =>
      aligned a /\ a <> NULL /\
      h !! a = Some (mkRBNode (pack (ctx_parent K) c) hole (ad l)) /\
      rep h a l /\ rep_ctx h rt K a
  end.

Definition zrep (s : HevRBTree) (K : list frame) (t : tree) : Prop :=
  rep_ctx (cells s) (root s) K (ad t) /\
  rep (cells s) (ctx_parent K) t /\
  NoDup (ctx_addrs K ++ inorder t).

(** The store holds exactly the tree [t]: what a client of the component sees. *)
Definition trep (s : HevRBTree) (t : tree) : Prop := zrep s [] t.

(** Two stores agree outside the addresses [xs]. *)
Definition same_outside (xs : list Z) (s s' : HevRBTree) : Prop :=
  forall y, y ∉ xs -> cells s' !! y = cells s !! y.

(** ** Word encoding lemmas *)

Lemma aligned_null : aligned NULL.
Proof. split; [done|reflexivity]. Qed.

Lemma pack_add p c : aligned p -> pack p c = p + cz c.
Proof.
  intros [H0 H4]. unfold pack. destruct c; cbn; [by rewrite Z.lor_0_r, Z.add_0_r|].
  assert (p = 2 * (2 * (p / 4))) as -> by (pose proof (Z.div_mod p 4); lia).
  assert (0 <= 2 * (p / 4)) by (pose proof (Z.div_pos p 4); lia).
  destruct (2 * (p / 4)); [done|done|lia].
Qed.

Lemma land_not3 x : 0 <= x -> Z.land x (Z.lnot 3) = x - x mod 4.
Proof.
  intros Hx. change (Z.lnot 3) with (Z.lnot (Z.ones 2)). rewrite <- Z.ldiff_land.
  rewrite Z.ldiff_ones_r by lia. rewrite Z.shiftl_mul_pow2, Z.shiftr_div_pow2 by lia.
  change (2 ^ 2) with 4. pose proof (Z.div_mod x 4). lia.
Qed.

Lemma pack_parent p c : aligned p -> Z.land (pack p c) (Z.lnot 3) = p.
Proof.
  intros Ha. rewrite pack_add by done. destruct Ha as [H0 H4].
  assert (0 <= cz c <= 1) by (destruct c; unfold cz, HEV_RBTREE_RED, HEV_RBTREE_BLACK; lia).
  rewrite land_not3 by lia.
  replace ((p + cz c) mod 4) with (cz c); [lia|].
  apply (Z.mod_unique (p + cz c) 4 (p / 4)); [lia|].
  pose proof (Z.div_mod p 4 ltac:(lia)). lia.
Qed.

Lemma pack_color p c : aligned p -> Z.land (pack p c) 1 = cz c.
Proof.
  intros Ha. rewrite pack_add by done. destruct Ha as [H0 H4].
  change 1 with (Z.ones 1). rewrite Z.land_ones by lia. change (2 ^ 1) with 2.
  assert (p mod 2 = 0) as E.
  { pose proof (Z.div_mod p 4 ltac:(lia)).
    replace p with (0 + (2 * (p / 4)) * 2) by lia. by rewrite Z.mod_add by lia. }
  rewrite <- Z.add_mod_idemp_l, E by lia. by destruct c.
Qed.

Lemma pack_red p : pack p Red = p.
Proof. unfold pack. cbn. apply Z.lor_0_r. Qed.

Lemma pack_set_black p c : Z.lor (pack p c) HEV_RBTREE_BLACK = pack p Black.
Proof. unfold pack. rewrite <- Z.lor_assoc. f_equal. by destruct c. Qed.

(** ** Frame lemmas *)

Lemma inorder_recolor c t : inorder (recolor c t) = inorder t.
Proof. by destruct t. Qed.

Lemma ad_recolor c t : ad (recolor c t) = ad t.
Proof. by destruct t. Qed.

Lemma rep_frame h h' (X : list Z) par t :
  (forall y, y ∉ X -> h' !! y = h !! y) -> (forall y, y ∈ inorder t -> y ∉ X) ->
  rep h par t -> rep h' par t.
Proof.
  intros F. revert par. induction t as [|c l IHl a r IHr]; intros par D; cbn; [done|].
  intros (? & ? & Ha & Hl & Hr). cbn in D.
  split; [done|]. split; [done|]. rewrite F; [|apply D, elem_of_app; right; left].
  split; [done|]. split; [apply IHl|apply IHr]; try done;
    intros y Hy; apply D, elem_of_app; [by left|right; by right].
Qed.

Lemma rep_ctx_frame h h' (X : list Z) rt K hole :
  (forall y, y ∉ X -> h' !! y = h !! y) -> (forall y, y ∈ ctx_addrs K -> y ∉ X) ->
  rep_ctx h rt K hole -> rep_ctx h' rt K hole.
Proof.
  intros F. revert hole. induction K as [|[c a r|c l a] K IH]; intros hole D; cbn; [done|..];
    intros (? & ? & Ha & Hr & HK); cbn in D;
    (split; [done|]; split; [done|]; rewrite F by (apply D; left); split; [done|]; split;
      [eapply rep_frame; [exact F| |exact Hr]; intros y Hy; apply D; right; apply elem_of_app; by left
      |apply IH; [|done]; intros y Hy; apply D; right; apply elem_of_app; by right]).
Qed.

Lemma cell_frame (h h' : gmap Z HevRBTreeNode) (X : list Z) (a : Z) :
  (forall y, y ∉ X -> h' !! y = h !! y) -> (forall y, y ∈ [a] -> y ∉ X) ->
  h' !! a = h !! a.
Proof. intros F D. apply F, D. left. Qed.

(** Disjointness of the pieces of a store. *)
Lemma apart (Ls : list (list Z)) i j A B :
  NoDup (concat Ls) -> Ls !! i = Some A -> Ls !! j = Some B -> i <> j ->
  forall y, y ∈ A -> y ∉ B.
Proof.
  revert i j. induction Ls as [|C Ls IH]; intros i j ND Hi Hj Hij y Ha Hb; [done|].
  cbn in ND. apply NoDup_app in ND as (_ & D & ND).
  assert (forall k E, Ls !! k = Some E -> y ∈ E -> y ∈ concat Ls) as Hin.
  { intros k E Hk HE. apply list_elem_of_In, in_concat. exists E.
    rewrite <- !list_elem_of_In. split; [by eapply list_elem_of_lookup_2|done]. }
  destruct i as [|i], j as [|j]; cbn in *; simplify_eq.
  - eapply D; [exact Ha|]. by eapply Hin.
  - eapply D; [exact Hb|]. by eapply Hin.
  - eapply (IH i j); eauto; congruence.
Qed.

Lemma apart_ne (Ls : list (list Z)) i j a b :
  NoDup (concat Ls) -> Ls !! i = Some [a] -> Ls !! j = Some [b] -> i <> j -> a <> b.
Proof. intros ND Hi Hj Hij ->. eapply (apart Ls i j); eauto; left. Qed.

Lemma apart3 (A : list Z) a b B :
  (forall y, y ∈ A -> y ∉ [a]) -> (forall y, y ∈ A -> y ∉ [b]) -> (forall y, y ∈ A -> y ∉ B) ->
  forall y, y ∈ A -> y ∉ a :: b :: B.
Proof.
  intros Ha Hb HB y Hy. apply not_elem_of_cons. split.
  { intros ->. apply (Ha a Hy). left. }
  apply not_elem_of_cons. split; [|auto]. intros ->. apply (Hb b Hy). left.
Qed.

Lemma piece_NoDup (Ls : list (list Z)) i A : NoDup (concat Ls) -> Ls !! i = Some A -> NoDup A.
Proof.
  revert i. induction Ls as [|C Ls IH]; intros i ND Hi; [done|].
  cbn in ND. apply NoDup_app in ND as (NC & _ & ND).
  destruct i; cbn in Hi; [congruence|eauto].
Qed.

Lemma piece_sub (Ls : list (list Z)) i X y : Ls !! i = Some X -> y ∉ concat Ls -> y ∉ X.
Proof.
  intros Hi Hy Hin. apply Hy, list_elem_of_In, in_concat. exists X.
  rewrite <- !list_elem_of_In. split; [by eapply list_elem_of_lookup_2|done].
Qed.

Lemma outside_step (h0 h h1 : gmap Z HevRBTreeNode) Ls i X :
  (forall y, y ∉ concat Ls -> h !! y = h0 !! y) -> (forall y, y ∉ X -> h1 !! y = h !! y) ->
  Ls !! i = Some X -> forall y, y ∉ concat Ls -> h1 !! y = h0 !! y.
Proof. intros O F Hi y Hy. rewrite F; [auto|]. by eapply piece_sub. Qed.

Lemma outside_step3 (h0 h h1 : gmap Z HevRBTreeNode) Ls i j k a b X :
  (forall y, y ∉ concat Ls -> h !! y = h0 !! y) ->
  (forall y, y ∉ a :: b :: X -> h1 !! y = h !! y) ->
  Ls !! i = Some [a] -> Ls !! j = Some [b] -> Ls !! k = Some X ->
  forall y, y ∉ concat Ls -> h1 !! y = h0 !! y.
Proof.
  intros O F Hi Hj Hk y Hy. rewrite F; [auto|].
  eapply piece_sub in Hi, Hj, Hk; [|exact Hy..].
  apply not_elem_of_cons. split; [intros ->; apply Hi; left|].
  apply not_elem_of_cons. split; [intros ->; apply Hj; left|done].
Qed.

(** ** Zippers *)

(** The insertion climbs two levels at a time. *)
Lemma frames_ind2 (P : list frame -> Prop) :
  P [] -> (forall f, P [f]) -> (forall f g K, P K -> P (f :: g :: K)) -> forall K, P K.
Proof.
  intros H0 H1 H2 K. enough (P K /\ forall f, P (f :: K)) by tauto.
  induction K as [|g K [IH1 IH2]]; split; auto.
Qed.

Lemma inorder_plug K t : inorder (plug K t) = lefts K ++ inorder t ++ rights K.
Proof.
  revert t. induction K as [|[c a r|c l a] K IH]; intros t; cbn;
    [by rewrite app_nil_r|..]; rewrite IH; cbn; by rewrite <- ?app_assoc.
Qed.

Lemma ctx_addrs_perm K t : ctx_addrs K ++ inorder t ≡ₚ inorder (plug K t).
Proof.
  rewrite inorder_plug. induction K as [|[c a r|c l a] K IH]; cbn; [by rewrite app_nil_r|..].
  - rewrite <- app_assoc, IH. solve_Permutation.
  - rewrite <- !app_assoc, IH. solve_Permutation.
Qed.

Lemma nodup_zip K t : NoDup (ctx_addrs K ++ inorder t) <-> NoDup (inorder (plug K t)).
Proof. by rewrite ctx_addrs_perm. Qed.

Lemma zrep_frame_iff s f K t : zrep s (f :: K) t <-> zrep s K (plug1 f t).
Proof.
  unfold zrep. rewrite !nodup_zip. cbn [plug]. destruct f; cbn; intuition congruence || naive_solver.
Qed.

Lemma zrep_plug s K t : zrep s K t <-> trep s (plug K t).
Proof.
  revert t. induction K as [|f K IH]; intros t; [done|]. by rewrite zrep_frame_iff, IH.
Qed.

(** The node above the hole, whatever side the hole is on. *)
Definition frame_color (f : frame) : color := match f with FL c _ _ => c | FR c _ _ => c end.
Definition frame_sib (f : frame) : tree := match f with FL _ _ r => r | FR _ l _ => l end.

Definition frame_cell (f : frame) (pp hole : Z) : HevRBTreeNode :=
  match f with
  | FL c _ r => mkRBNode (pack pp c) (ad r) hole
  | FR c l _ => mkRBNode (pack pp c) hole (ad l)
  end.

Lemma rep_ctx_cons h rt f K hole :
  rep_ctx h rt (f :: K) hole <->
  aligned (frame_addr f) /\ frame_addr f <> NULL /\
  h !! frame_addr f = Some (frame_cell f (ctx_parent K) hole) /\
  rep h (frame_addr f) (frame_sib f) /\ rep_ctx h rt K (frame_addr f).
Proof. by destruct f. Qed.

(** ** Segments of a path *)

Definition seg_parent (Kr : list frame) (par : Z) : Z :=
  match Kr with [] => par | f :: _ => frame_addr f end.

Fixpoint seg_top (Kr : list frame) (hole : Z) : Z :=
  match Kr with [] => hole | f :: Kr => seg_top Kr (frame_addr f) end.

(** The frames [Kr] above [hole], hanging below the node [par]. *)
Fixpoint rep_seg (h : gmap Z HevRBTreeNode) (par : Z) (Kr : list frame) (hole : Z) : Prop :=
  match Kr with
  | [] => True
  | f :: Kr =>
      aligned (frame_addr f) /\ frame_addr f <> NULL /\
      h !! frame_addr f = Some (frame_cell f (seg_parent Kr par) hole) /\
      rep h (frame_addr f) (frame_sib f) /\ rep_seg h par Kr (frame_addr f)
  end.

Lemma rep_plug_seg h par Kr t :
  rep h par (plug Kr t) <-> rep_seg h par Kr (ad t) /\ rep h (seg_parent Kr par) t.
Proof.
  revert t. induction Kr as [|f Kr IH]; intros t; [cbn; tauto|]. cbn [plug]. rewrite IH.
  destruct f; cbn; tauto.
Qed.

Lemma rep_ctx_seg h rt Kr f K hole :
  rep_ctx h rt (Kr ++ f :: K) hole <->
  rep_seg h (frame_addr f) Kr hole /\ rep_ctx h rt (f :: K) (seg_top Kr hole).
Proof.
  revert hole. induction Kr as [|g Kr IH]; intros hole; [cbn; tauto|].
  rewrite <- app_comm_cons, rep_ctx_cons, IH. cbn [rep_seg seg_top].
  assert (ctx_parent (Kr ++ f :: K) = seg_parent Kr (frame_addr f)) as -> by (by destruct Kr).
  tauto.
Qed.

Lemma rep_seg_frame h h' (X : list Z) par Kr hole :
  (forall y, y ∉ X -> h' !! y = h !! y) -> (forall y, y ∈ ctx_addrs Kr -> y ∉ X) ->
  rep_seg h par Kr hole -> rep_seg h' par Kr hole.
Proof.
  intros F. revert hole. induction Kr as [|f Kr IH]; intros hole D; [done|].
  intros (A1 & A2 & C & R & S).
  assert (forall y, y ∈ frame_addr f :: inorder (frame_sib f) ++ ctx_addrs Kr -> y ∉ X) as D'
    by (by destruct f).
  cbn. rewrite F by (apply D'; left). do 3 (split; [done|]). split.
  - eapply rep_frame; [exact F| |exact R]. intros y Hy. apply D'. right. apply elem_of_app. by left.
  - apply IH; [|done]. intros y Hy. apply D'. right. apply elem_of_app. by right.
Qed.

(** ** Executing field accesses *)

Lemma sbind_Val {S A B} (m : ST S A) (k : A -> ST S B) s a s' :
  m s = Val (a, s') -> sbind m k s = k a s'.
Proof. unfold sbind. by intros ->. Qed.

Section exec.
Context (rt : Z) (h : gmap Z HevRBTreeNode).

Lemma get_left_ok a pc r l : h !! a = Some (mkRBNode pc r l) ->
  get_left a (mkRBTree rt h) = Val (l, mkRBTree rt h).
Proof. intros H. unfold get_left, get, sbind. cbn. by rewrite H. Qed.

Lemma get_right_ok a pc r l : h !! a = Some (mkRBNode pc r l) ->
  get_right a (mkRBTree rt h) = Val (r, mkRBTree rt h).
Proof. intros H. unfold get_right, get, sbind. cbn. by rewrite H. Qed.

Lemma get_pc_ok a pc r l : h !! a = Some (mkRBNode pc r l) ->
  get_pc a (mkRBTree rt h) = Val (pc, mkRBTree rt h).
Proof. intros H. unfold get_pc, get, sbind. cbn. by rewrite H. Qed.

Lemma node_parent_ok a p c r l : h !! a = Some (mkRBNode (pack p c) r l) -> aligned p ->
  hev_rbtree_node_parent a (mkRBTree rt h) = Val (p, mkRBTree rt h).
Proof.
  intros H ?. unfold hev_rbtree_node_parent, sbind. rewrite (get_pc_ok _ _ _ _ H). cbn.
  unfold sret. by rewrite pack_parent.
Qed.

Lemma node_color_ok a p c r l : h !! a = Some (mkRBNode (pack p c) r l) -> aligned p ->
  hev_rbtree_node_color a (mkRBTree rt h) = Val (cz c, mkRBTree rt h).
Proof.
  intros H ?. unfold hev_rbtree_node_color, sbind. rewrite (get_pc_ok _ _ _ _ H).
  unfold sret. by rewrite pack_color.
Qed.

Lemma node_is_red_ok a p c r l : h !! a = Some (mkRBNode (pack p c) r l) -> aligned p ->
  hev_rbtree_node_is_red a (mkRBTree rt h) = Val (bool_decide (c = Red), mkRBTree rt h).
Proof.
  intros H ?. unfold hev_rbtree_node_is_red, sbind. rewrite (node_color_ok _ _ _ _ _ H) by done.
  by destruct c.
Qed.

Lemma node_is_black_ok a p c r l : h !! a = Some (mkRBNode (pack p c) r l) -> aligned p ->
  hev_rbtree_node_is_black a (mkRBTree rt h) = Val (bool_decide (c = Black), mkRBTree rt h).
Proof.
  intros H ?. unfold hev_rbtree_node_is_black, sbind. rewrite (node_color_ok _ _ _ _ _ H) by done.
  by destruct c.
Qed.

(** The colour of the root of a represented subtree. *)
Lemma is_red_nonnull_ok par t : rep h par t -> aligned par ->
  is_red_nonnull (ad t) (mkRBTree rt h) = Val (is_red t, mkRBTree rt h).
Proof.
  intros Ht Hp. unfold is_red_nonnull, nonnull. destruct t as [|c l a r]; cbn; [done|].
  destruct Ht as (_ & Ha & H & _). rewrite (proj2 (Z.eqb_neq a NULL) Ha). cbn.
  rewrite (node_is_red_ok _ _ _ _ _ H) by done. by destruct c.
Qed.

Lemma is_black_or_null_ok par t : rep h par t -> aligned par ->
  is_black_or_null (ad t) (mkRBTree rt h) = Val (negb (is_red t), mkRBTree rt h).
Proof.
  intros Ht Hp. unfold is_black_or_null, nonnull. destruct t as [|c l a r]; cbn; [done|].
  destruct Ht as (_ & Ha & H & _). rewrite (proj2 (Z.eqb_neq a NULL) Ha). cbn.
  rewrite (node_is_black_ok _ _ _ _ _ H) by done. by destruct c.
Qed.

(** A store update touches one cell. *)
Definition upd (m : RB unit) (a : Z) (n : HevRBTreeNode) : Prop :=
  exists h', m (mkRBTree rt h) = Val (tt, mkRBTree rt h') /\ h' !! a = Some n /\
    forall y, y ∉ [a] -> h' !! y = h !! y.

Lemma put_upd a n m : h !! a = Some n -> upd (put a m) a m.
Proof.
  intros H. exists (<[a := m]> h). unfold put. cbn. rewrite H, lookup_insert_eq.
  do 2 (split; [done|]). intros y Hy. rewrite lookup_insert_ne; [done|].
  intros ->. apply Hy. left.
Qed.

Lemma set_pc_ok a v pc r l : h !! a = Some (mkRBNode pc r l) ->
  upd (set_pc a v) a (mkRBNode v r l).
Proof.
  intros H. unfold upd, set_pc, sbind, get. cbn. rewrite H. by eapply put_upd.
Qed.

Lemma set_left_ok a v pc r l : h !! a = Some (mkRBNode pc r l) ->
  upd (set_left a v) a (mkRBNode pc r v).
Proof.
  intros H. unfold upd, set_left, sbind, get. cbn. rewrite H. by eapply put_upd.
Qed.

Lemma set_right_ok a v pc r l : h !! a = Some (mkRBNode pc r l) ->
  upd (set_right a v) a (mkRBNode pc v l).
Proof.
  intros H. unfold upd, set_right, sbind, get. cbn. rewrite H. by eapply put_upd.
Qed.

Lemma set_parent_color_ok a q c pc r l : h !! a = Some (mkRBNode pc r l) ->
  upd (hev_rbtree_node_set_parent_color a q (cz c)) a (mkRBNode (pack q c) r l).
Proof. apply set_pc_ok. Qed.

Lemma set_parent_black_ok a q pc r l : h !! a = Some (mkRBNode pc r l) ->
  upd (hev_rbtree_node_set_parent_color a q HEV_RBTREE_BLACK) a (mkRBNode (pack q Black) r l).
Proof. apply set_pc_ok. Qed.

Lemma set_parent_red_ok a q pc r l : h !! a = Some (mkRBNode pc r l) ->
  upd (hev_rbtree_node_set_parent_color a q HEV_RBTREE_RED) a (mkRBNode (pack q Red) r l).
Proof. apply set_pc_ok. Qed.

Lemma set_parent_ok a q p c r l : h !! a = Some (mkRBNode (pack p c) r l) -> aligned p ->
  upd (hev_rbtree_node_set_parent a q) a (mkRBNode (pack q c) r l).
Proof.
  intros H Hp. unfold upd, hev_rbtree_node_set_parent, sbind.
  rewrite (node_color_ok _ _ _ _ _ H) by done. unfold pack. rewrite Z.lor_comm.
  by eapply set_pc_ok.
Qed.

Lemma set_black_ok a p c r l : h !! a = Some (mkRBNode (pack p c) r l) ->
  upd (hev_rbtree_node_set_black a) a (mkRBNode (pack p Black) r l).
Proof.
  intros H. unfold upd, hev_rbtree_node_set_black, sbind.
  rewrite (get_pc_ok _ _ _ _ H), pack_set_black. by eapply set_pc_ok.
Qed.

End exec.

(** ** Tactics: a store as a set of disjoint pieces

    The context holds [ND : NoDup (concat Ls)] with the pieces [Ls], cell facts
    [h !! a = Some _], and [rep]/[rep_ctx] facts about single pieces. *)

Ltac piece_index A Ls :=
  lazymatch Ls with
  | A :: _ => constr:(0%nat)
  | _ :: ?Ls' => let n := piece_index A Ls' in constr:(S n)
  end.

(** [forall y, y ∈ A -> y ∉ B], or [a <> b]. *)
Ltac apart_solve :=
  lazymatch goal with
  | ND : NoDup (concat ?Ls) |- forall y, y ∈ ?A -> y ∉ ?a :: ?b :: ?B =>
      let i := piece_index A Ls in let j := piece_index [a] Ls in
      let k := piece_index [b] Ls in let m := piece_index B Ls in
      exact (apart3 _ _ _ _
        (apart Ls i j A [a] ND eq_refl eq_refl ltac:(discriminate))
        (apart Ls i k A [b] ND eq_refl eq_refl ltac:(discriminate))
        (apart Ls i m A B ND eq_refl eq_refl ltac:(discriminate)))
  | ND : NoDup (concat ?Ls) |- forall y, y ∈ ?A -> y ∉ ?B =>
      let i := piece_index A Ls in let j := piece_index B Ls in
      exact (apart Ls i j A B ND eq_refl eq_refl ltac:(discriminate))
  | ND : NoDup (concat ?Ls) |- ?a ∉ ?B =>
      let i := piece_index [a] Ls in let j := piece_index B Ls in
      refine (apart Ls i j [a] B ND eq_refl eq_refl ltac:(discriminate) a _); left
  | ND : NoDup (concat ?Ls) |- ?a <> ?b =>
      let i := piece_index [a] Ls in let j := piece_index [b] Ls in
      exact (apart_ne Ls i j a b ND eq_refl eq_refl ltac:(discriminate))
  end.

(** [NoDup A] for a piece [A]. *)
Ltac piece_nodup :=
  lazymatch goal with
  | ND : NoDup (concat ?Ls) |- NoDup ?A =>
      let i := piece_index A Ls in exact (piece_NoDup Ls i A ND eq_refl)
  end.

(** Carry every fact about the store [h] over to [h'], which differs from [h] at
    the piece of [F] only; facts about that piece are dropped. *)
Ltac transport h h' F :=
  repeat match goal with
  | H : h !! ?a = Some _ |- _ =>
      first [rewrite <- (cell_frame h h' _ a F ltac:(apart_solve)) in H | clear H]
  | H : rep h ?par ?t |- _ =>
      first [apply (rep_frame h h' _ par t F ltac:(rewrite ?inorder_recolor; apart_solve)) in H | clear H]
  | H : rep_seg h ?par ?Kr ?a |- _ =>
      first [apply (rep_seg_frame h h' _ par Kr a F ltac:(apart_solve)) in H | clear H]
  | H : rep_ctx h ?rt ?K ?a |- _ =>
      first [apply (rep_ctx_frame h h' _ rt K a F ltac:(apart_solve)) in H | clear H]
  | O : forall y, y ∉ concat ?Ls -> h !! y = ?h0 !! y |- _ =>
      lazymatch type of F with
      | forall y, y ∉ ?a :: ?b :: ?X -> _ =>
          let i := piece_index [a] Ls in let j := piece_index [b] Ls in
          let k := piece_index X Ls in
          let O' := fresh in
          pose proof (outside_step3 h0 h h' Ls i j k a b X O F eq_refl eq_refl eq_refl) as O';
          clear O; rename O' into O
      | forall y, y ∉ ?X -> _ =>
          let i := piece_index X Ls in
          let O' := fresh in
          pose proof (outside_step h0 h h' Ls i X O F eq_refl) as O'; clear O; rename O' into O
      end
  end.

(** Execute the next store update; its effect is given by the lemma [L]. *)
Ltac run_upd L :=
  let h1 := fresh "h" in let E := fresh "E" in let N := fresh "N" in let F := fresh "F" in
  lazymatch goal with
  | |- context [sbind ?m _ (mkRBTree ?rt ?h)] =>
      eassert (upd rt h m _ _) as (h1 & E & N & F) by (eapply L; eassumption);
      rewrite (sbind_Val _ _ _ _ _ E); clear E; cbn beta iota;
      transport h h1 F; clear F; try clear h
  end.

(** Execute a read whose result is given by the lemma [L]. *)
Ltac run_get L :=
  erewrite (sbind_Val _ _ (mkRBTree _ _)) by (eapply L; eauto); cbn beta iota.

Lemma nonnull_true p : p <> NULL -> nonnull p = true.
Proof. intros. unfold nonnull. by rewrite (proj2 (Z.eqb_neq p NULL)). Qed.

(** [if (tmp) set_parent_color (tmp, q, BLACK);] on the root of a subtree. *)
Lemma reparent_black_ok rt h par t q :
  rep h par t -> NoDup (inorder t) ->
  exists h', swhen (nonnull (ad t)) (hev_rbtree_node_set_parent_color (ad t) q HEV_RBTREE_BLACK)
      (mkRBTree rt h) = Val (tt, mkRBTree rt h') /\
    rep h' q (blacken t) /\ forall y, y ∉ inorder t -> h' !! y = h !! y.
Proof.
  intros Ht ND. destruct t as [|c l a r]; [by exists h|].
  destruct Ht as (Al & Ha & H & Hl & Hr). cbn [ad]. rewrite (nonnull_true _ Ha). cbn [swhen].
  destruct (set_parent_color_ok rt h a q Black _ _ _ H) as (h' & E & N & F).
  exists h'. split; [done|]. cbn in ND. apply NoDup_app in ND as (_ & D & [Dr _]%NoDup_cons). split.
  - cbn. do 3 (split; [done|]). split.
    + eapply rep_frame; [exact F| |exact Hl]. intros y Hy ->%list_elem_of_singleton.
      apply (D a Hy). left.
    + eapply rep_frame; [exact F| |exact Hr]. by intros y Hy ->%list_elem_of_singleton.
  - intros y Hy. apply F. intros ->%list_elem_of_singleton. apply Hy. cbn. apply elem_of_app.
    right. left.
Qed.

(** [if (tmp) set_parent (tmp, q);]: the colour stays. *)
Lemma reparent_ok rt h par t q :
  rep h par t -> aligned par -> NoDup (inorder t) ->
  exists h', swhen (nonnull (ad t)) (hev_rbtree_node_set_parent (ad t) q)
      (mkRBTree rt h) = Val (tt, mkRBTree rt h') /\
    rep h' q t /\ forall y, y ∉ inorder t -> h' !! y = h !! y.
Proof.
  intros Ht Hp ND. destruct t as [|c l a r]; [by exists h|].
  destruct Ht as (Al & Ha & H & Hl & Hr). cbn [ad]. rewrite (nonnull_true _ Ha). cbn [swhen].
  destruct (set_parent_ok rt h a q _ _ _ _ H Hp) as (h' & E & N & F).
  exists h'. split; [done|]. cbn in ND. apply NoDup_app in ND as (_ & D & [Dr _]%NoDup_cons). split.
  - cbn. do 3 (split; [done|]). split.
    + eapply rep_frame; [exact F| |exact Hl]. intros y Hy ->%list_elem_of_singleton.
      apply (D a Hy). left.
    + eapply rep_frame; [exact F| |exact Hr]. by intros y Hy ->%list_elem_of_singleton.
  - intros y Hy. apply F. intros ->%list_elem_of_singleton. apply Hy. cbn. apply elem_of_app.
    right. left.
Qed.

(** Execute a conditional re-parenting of the subtree [t]; its nodes are a piece. *)
Ltac run_reparent_black t :=
  let h1 := fresh "h" in let E := fresh "E" in let N := fresh "N" in let F := fresh "F" in
  lazymatch goal with
  | H : rep ?h ?par t
    |- context [sbind (swhen _ (hev_rbtree_node_set_parent_color _ ?q _)) _ (mkRBTree ?rt ?h)] =>
      destruct (reparent_black_ok rt h par t q H ltac:(piece_nodup)) as (h1 & E & N & F);
      rewrite (sbind_Val _ _ _ _ _ E); clear E; cbn beta iota;
      transport h h1 F; clear F; try clear h
  end.

Ltac run_reparent t :=
  let h1 := fresh "h" in let E := fresh "E" in let N := fresh "N" in let F := fresh "F" in
  lazymatch goal with
  | H : rep ?h ?par t
    |- context [sbind (swhen _ (hev_rbtree_node_set_parent _ ?q)) _ (mkRBTree ?rt ?h)] =>
      destruct (reparent_ok rt h par t q H ltac:(assumption) ltac:(piece_nodup))
        as (h1 & E & N & F);
      rewrite (sbind_Val _ _ _ _ _ E); clear E; cbn beta iota;
      transport h h1 F; clear F; try clear h
  end.

Lemma ctx_parent_aligned h rt K hole : rep_ctx h rt K hole -> aligned (ctx_parent K).
Proof. destruct K as [|[] K]; [intros _; apply aligned_null|by intros (? & _)..]. Qed.

Lemma ad_in_inorder t : ad t = NULL \/ ad t ∈ inorder t.
Proof. destruct t; [by left|right]. cbn. apply elem_of_app. right. left. Qed.

(** Replacing the child of the context's innermost node. *)
Lemma change_child_ok rt h K old new :
  rep_ctx h rt K old -> old <> NULL -> old ∉ ctx_addrs K -> NoDup (ctx_addrs K) ->
  exists rt' h', hev_rbtree_change_child old new (ctx_parent K) (mkRBTree rt h) =
      Val (tt, mkRBTree rt' h') /\
    rep_ctx h' rt' K new /\ forall y, y ∉ ctx_addrs K -> h' !! y = h !! y.
Proof.
  intros HK H0 Hin ND. unfold hev_rbtree_change_child.
  destruct K as [|[c a r|c l a] K]; cbn [ctx_parent frame_addr]; [by exists new, h|..];
    destruct HK as (Al & Ha & H & Hs & HK); rewrite (nonnull_true _ Ha);
    run_get get_left_ok; cbn in Hin, ND; apply not_elem_of_cons in Hin as [Hoa Hin];
    apply NoDup_cons in ND as [Hna ND].
  - rewrite Z.eqb_refl. destruct (set_left_ok rt h a new _ _ _ H) as (h' & -> & N & F).
    exists rt, h'. split; [done|]. split.
    + cbn. do 3 (split; [done|]). split.
      * eapply rep_frame; [exact F| |exact Hs]. intros y Hy ->%list_elem_of_singleton.
        apply Hna, elem_of_app. by left.
      * eapply rep_ctx_frame; [exact F| |exact HK]. intros y Hy ->%list_elem_of_singleton.
        apply Hna, elem_of_app. by right.
    + intros y Hy. apply F. intros ->%list_elem_of_singleton. apply Hy. left.
  - assert (ad l <> old) as Hne.
    { intros E. destruct (ad_in_inorder l) as [C|C]; [congruence|]. apply Hin, elem_of_app. left.
      by rewrite <- E. }
    rewrite (proj2 (Z.eqb_neq _ _) Hne).
    destruct (set_right_ok rt h a new _ _ _ H) as (h' & -> & N & F).
    exists rt, h'. split; [done|]. split.
    + cbn. do 3 (split; [done|]). split.
      * eapply rep_frame; [exact F| |exact Hs]. intros y Hy ->%list_elem_of_singleton.
        apply Hna, elem_of_app. by left.
      * eapply rep_ctx_frame; [exact F| |exact HK]. intros y Hy ->%list_elem_of_singleton.
        apply Hna, elem_of_app. by right.
    + intros y Hy. apply F. intros ->%list_elem_of_singleton. apply Hy. left.
Qed.

(** [rotate_set_parents]: [new] takes [old]'s place under the context. *)
Lemma rotate_set_parents_ok rt h K old new c col ro lo pcn rn ln :
  rep_ctx h rt K old -> NoDup (ctx_addrs K) ->
  h !! old = Some (mkRBNode (pack (ctx_parent K) c) ro lo) ->
  h !! new = Some (mkRBNode pcn rn ln) ->
  old <> NULL -> old <> new -> old ∉ ctx_addrs K -> new ∉ ctx_addrs K ->
  exists rt' h', hev_rbtree_rotate_set_parents old new (cz col) (mkRBTree rt h) =
      Val (tt, mkRBTree rt' h') /\
    rep_ctx h' rt' K new /\
    h' !! old = Some (mkRBNode (pack new col) ro lo) /\
    h' !! new = Some (mkRBNode (pack (ctx_parent K) c) rn ln) /\
    forall y, y ∉ old :: new :: ctx_addrs K -> h' !! y = h !! y.
Proof.
  intros HK ND Ho Hn H0 Hne Io In. unfold hev_rbtree_rotate_set_parents.
  pose proof (ctx_parent_aligned _ _ _ _ HK) as Al.
  run_get node_parent_ok. run_get get_pc_ok.
  destruct (set_pc_ok rt h new (pack (ctx_parent K) c) _ _ _ Hn) as (h1 & E1 & N1 & F1).
  rewrite (sbind_Val _ _ _ _ _ E1).
  assert (h1 !! old = Some (mkRBNode (pack (ctx_parent K) c) ro lo)) as Ho1.
  { rewrite F1; [done|]. by intros ?%list_elem_of_singleton. }
  destruct (set_parent_color_ok rt h1 old new col _ _ _ Ho1) as (h2 & E2 & N2 & F2).
  rewrite (sbind_Val _ _ _ _ _ E2).
  assert (rep_ctx h2 rt K old) as HK2.
  { eapply rep_ctx_frame; [exact F2|by intros y Hy ->%list_elem_of_singleton|].
    eapply rep_ctx_frame; [exact F1|by intros y Hy ->%list_elem_of_singleton|done]. }
  destruct (change_child_ok rt h2 K old new HK2 H0 Io ND) as (rt' & h3 & E3 & HK3 & F3).
  exists rt', h3. split; [done|]. split; [done|]. rewrite !F3 by done. split; [done|]. split.
  - rewrite F2; [done|]. by intros ?%list_elem_of_singleton.
  - intros y Hy. apply not_elem_of_cons in Hy as [? Hy]. apply not_elem_of_cons in Hy as [? Hy].
    rewrite F3, F2, F1; try done; by intros ?%list_elem_of_singleton.
Qed.

(** ** The red-black invariant *)

(** [rb t n]: no red node has a red child and every path crosses [n] black nodes. *)
Fixpoint rb (t : tree) (n : nat) : Prop :=
  match t with
  | Leaf => n = 0%nat
  | Node Red l _ r => is_red l = false /\ is_red r = false /\ rb l n /\ rb r n
  | Node Black l _ r => match n with O => False | S m => rb l m /\ rb r m end
  end.

(** What [hev_rbtree_*] maintain: the invariant and a black root. *)
Definition rbtree (t : tree) : Prop := is_red t = false /\ exists n, rb t n.

(** A red subtree may stand here. *)
Definition red_ok (K : list frame) : Prop :=
  match K with
  | [] => False
  | FL c _ _ :: _ | FR c _ _ :: _ => c = Black
  end.

(** The context respects the invariant around a hole of black height [n]. *)
Fixpoint ctx_rb (K : list frame) (n : nat) : Prop :=
  match K with
  | [] => True
  | FL Red _ t :: K | FR Red t _ :: K => is_red t = false /\ rb t n /\ red_ok K /\ ctx_rb K n
  | FL Black _ t :: K | FR Black t _ :: K => rb t n /\ ctx_rb K (S n)
  end.

Lemma rb_blacken t n : rb t n -> is_red t = true -> rb (blacken t) (S n).
Proof. destruct t as [|[] l a r]; cbn; [done| |done]. tauto. Qed.

Lemma blacken_black t : is_red t = false -> blacken t = t.
Proof. by destruct t as [|[] l a r]. Qed.

Lemma is_red_blacken t : is_red (blacken t) = false.
Proof. by destruct t. Qed.

Lemma plug_rb K t n :
  ctx_rb K n -> rb t n -> is_red t = false \/ red_ok K -> rbtree (plug K t).
Proof.
  revert t n. induction K as [|f K IH]; intros t n HK Ht Hc; cbn.
  { split; [by destruct Hc|by exists n]. }
  destruct f as [[] a r|[] l a]; cbn in HK.
  - destruct HK as (Hr & Hr' & Hk & HK). apply (IH _ n); [done| |by right].
    destruct Hc; [|done]. by cbn.
  - destruct HK as (Hr & HK). apply (IH _ (S n)); [done|by cbn|by left].
  - destruct HK as (Hr & Hr' & Hk & HK). apply (IH _ n); [done| |by right].
    destruct Hc; [|done]. by cbn.
  - destruct HK as (Hr & HK). apply (IH _ (S n)); [done|by cbn|by left].
Qed.

Lemma unplug_rb K t : rbtree (plug K t) -> exists n, ctx_rb K n /\ rb t n /\ (is_red t = false \/ red_ok K).
Proof.
  revert t. induction K as [|f K IH]; intros t H; cbn in H.
  { destruct H as [Hb [n Hn]]. exists n. cbn. auto. }
  destruct (IH _ H) as (n & HK & Ht & Hc). destruct f as [[] a r|[] l a]; cbn in Ht, Hc.
  - exists n. cbn. destruct Hc as [|Hc]; [done|]. tauto.
  - destruct n as [|n]; [done|]. exists n. cbn. tauto.
  - exists n. cbn. destruct Hc as [|Hc]; [done|]. tauto.
  - destruct n as [|n]; [done|]. exists n. cbn. tauto.
Qed.

End RBTreeRep.
