(* ===== verification/RBTreeExec.v ===== *)
(** * Red-black trees: running the pointer code

    The specifications of one run ([done_with], [done_tree]) and the tactics that
    execute the C statements on the pieces of a represented store; shared by
    insertion and removal. *)

From Stdlib Require Import ZArith Lia.
From stdpp Require Import base list gmap numbers.
From S2P Require Import Prelude RBTree RBTreeRep.
Import list_basics.list list_relations.list list_monad.list list_misc.list.
Import RBTree RBTreeRep.

Module RBTreeExec.

(** ** Laws of the monad *)

Lemma sbind_assoc {S A B C} (m : ST S A) (f : A -> ST S B) (k : B -> ST S C) s :
  sbind (sbind m f) k s = sbind m (fun x => sbind (f x) k) s.
Proof. unfold sbind. by destruct (m s) as [[]|]. Qed.

Lemma sbind_ret {S A B} (a : A) (k : A -> ST S B) s : sbind (sret a) k s = k a s.
Proof. done. Qed.

Lemma sbind_ret_r {S A} (m : ST S A) s : sbind m sret s = m s.
Proof. unfold sbind. by destruct (m s) as [[]|]. Qed.

(** ** Runs *)

(** [m] returns [v], leaves the tree [t] below the context [K] and touches the
    cells of [X] only. *)
Definition done_with {A} (m : RB A) (s : HevRBTree) (X : list Z) (v : A) (K : list frame) (t : tree)
  : Prop :=
  exists s', m s = Val (v, s') /\ zrep s' K t /\ same_outside X s s'.

Ltac open_zrep H :=
  let HK := fresh "HK" in let HT := fresh "HT" in let ND0 := fresh "ND0" in
  destruct H as (HK & HT & ND0); cbn [cells root] in HK, HT; cbn in HK, HT;
  repeat match goal with
  | X : _ /\ _ |- _ => destruct X
  end.

(** Right-associated normal form of list concatenations. *)
Ltac app_norm :=
  cbn; repeat first [rewrite app_nil_r | rewrite <- app_assoc | rewrite <- app_comm_cons].
Ltac app_norm_in H :=
  cbn in H; repeat first [rewrite app_nil_r in H | rewrite <- app_assoc in H | rewrite <- app_comm_cons in H].

Lemma done_with_intro {A} (m : RB A) rt h X v K t :
  (forall h0 : gmap Z HevRBTreeNode, (forall y, y ∉ X -> h !! y = h0 !! y) ->
    exists rt' h', m (mkRBTree rt h) = Val (v, mkRBTree rt' h') /\
      zrep (mkRBTree rt' h') K t /\ forall y, y ∉ X -> h' !! y = h0 !! y) ->
  done_with m (mkRBTree rt h) X v K t.
Proof. intros H. destruct (H h ltac:(done)) as (rt' & h' & E & Z & O). by exists (mkRBTree rt' h'). Qed.

(** Name the pieces of the store and start recording what stays untouched. *)
Ltac pieces Ls :=
  lazymatch goal with
  | ND0 : NoDup ?X |- done_with _ _ ?X _ _ _ =>
      let EX := fresh in
      assert (X = concat Ls) as EX by (app_norm; reflexivity);
      rewrite EX; pose proof ND0 as ND; rewrite EX in ND; clear EX;
      apply done_with_intro; let h0 := fresh "h0" in intros h0 O
  end.

(** The final rotation: [new] takes the place of [old] below [K]. *)
Ltac run_rotate K c :=
  let E := fresh "E" in let N1 := fresh "N" in let N2 := fresh "N" in let HK := fresh "HK" in
  let F := fresh "F" in let rt' := fresh "rt" in let h' := fresh "h" in
  match goal with
  | H : rep_ctx ?h ?rt K ?old, Ho : ?h !! ?old = Some _, Hn : ?h !! ?new = Some _
    |- context [hev_rbtree_rotate_set_parents ?old ?new _ (mkRBTree ?rt ?h)] =>
      destruct (rotate_set_parents_ok rt h K old new _ c _ _ _ _ _ H ltac:(piece_nodup) Ho Hn
        ltac:(assumption) ltac:(apart_solve) ltac:(apart_solve) ltac:(apart_solve))
        as (rt' & h' & E & HK & N1 & N2 & F);
      clear H; exists rt', h'; split; [exact E|]; clear E; transport h h' F
  end.

(** The same in the middle of a computation. *)
Ltac run_rotate_bind K c :=
  let E := fresh "E" in let N1 := fresh "N" in let N2 := fresh "N" in let HK := fresh "HK" in
  let F := fresh "F" in let rt' := fresh "rt" in let h' := fresh "h" in
  match goal with
  | H : rep_ctx ?h ?rt K ?old, Ho : ?h !! ?old = Some _, Hn : ?h !! ?new = Some _
    |- context [sbind (hev_rbtree_rotate_set_parents ?old ?new _) _ (mkRBTree ?rt ?h)] =>
      destruct (rotate_set_parents_ok rt h K old new _ c _ _ _ _ _ H ltac:(piece_nodup) Ho Hn
        ltac:(assumption) ltac:(apart_solve) ltac:(apart_solve) ltac:(apart_solve))
        as (rt' & h' & E & HK & N1 & N2 & F);
      clear H; rewrite (sbind_Val _ _ _ _ _ E); clear E; cbn beta iota; transport h h' F
  end.

(** Execute [hev_rbtree_change_child] below the context [K]. *)
Ltac run_change_child K :=
  let E := fresh "E" in let HK := fresh "HK" in let F := fresh "F" in
  let rt' := fresh "rt" in let h' := fresh "h" in
  match goal with
  | H : rep_ctx ?h ?rt K ?old
    |- context [sbind (hev_rbtree_change_child ?old ?new _) _ (mkRBTree ?rt ?h)] =>
      destruct (change_child_ok rt h K old new H ltac:(assumption) ltac:(apart_solve) ltac:(piece_nodup))
        as (rt' & h' & E & HK & F);
      clear H; rewrite (sbind_Val _ _ _ _ _ E); clear E; cbn beta iota; transport h h' F
  end.

(** An unguarded statement on a node that exists. *)
Lemma swhen_nonnull (p : Z) (m : RB unit) : p <> NULL -> swhen (nonnull p) m = m.
Proof. intros H. by rewrite nonnull_true. Qed.

(** Rebuild the representation: the pieces are in place and the order of the
    nodes is the old one. *)
Ltac close_zrep :=
  lazymatch goal with
  | ND0 : NoDup (ctx_addrs ?K0 ++ inorder ?t0) |- zrep _ ?K _ /\ _ =>
      split; [|assumption]; split;
      [cbn -[recolor]; rewrite ?ad_recolor; repeat first [assumption | split]|]; split;
      [cbn -[recolor]; rewrite ?ad_recolor; repeat first [assumption | split]
      |apply nodup_zip; apply nodup_zip in ND0; rewrite inorder_plug in ND0 |- *;
       cbn -[recolor] in ND0 |- *; rewrite ?inorder_recolor; cbn;
       repeat first [rewrite <- !app_assoc in ND0 | rewrite <- !app_comm_cons in ND0];
       repeat first [rewrite <- !app_assoc | rewrite <- !app_comm_cons]; exact ND0]
  end.

(** The root of [t] is not the root of a disjoint [u]. *)
Lemma ad_ne t u : (forall y, y ∈ inorder t -> y ∉ inorder u) -> ad t <> NULL -> (ad t =? ad u) = false.
Proof.
  intros D H. apply Z.eqb_neq. intros E. destruct (ad_in_inorder t) as [|Ht]; [done|].
  destruct (ad_in_inorder u) as [Hu|Hu]; [congruence|]. apply (D _ Ht). by rewrite E.
Qed.

(** ** Footprints and sequencing *)

Lemma same_outside_perm X Y s s' : X ≡ₚ Y -> same_outside X s s' -> same_outside Y s s'.
Proof. intros P H y Hy. apply H. by rewrite P. Qed.

#[export] Instance same_outside_proper : Proper (Permutation ==> eq ==> eq ==> iff) same_outside.
Proof. intros X Y P s _ <- s' _ <-. split; by apply same_outside_perm. Qed.

Lemma same_outside_trans X s1 s2 s3 :
  same_outside X s1 s2 -> same_outside X s2 s3 -> same_outside X s1 s3.
Proof. intros H1 H2 y Hy. by rewrite H2, H1. Qed.

(** The whole tree below the root, with its footprint. *)
Definition done_tree {A} (m : RB A) (s : HevRBTree) (X : list Z) (v : A) (T : tree) : Prop :=
  exists s', m s = Val (v, s') /\ trep s' T /\ same_outside X s s'.

Lemma done_with_tree {A} (m : RB A) s K t v K' t' :
  done_with m s (ctx_addrs K ++ inorder t) v K' t' ->
  done_tree m s (inorder (plug K t)) v (plug K' t').
Proof.
  intros (s' & E & Z & O). exists s'. split; [done|]. split; [by rewrite <- zrep_plug|].
  eapply same_outside_perm; [|done]. apply ctx_addrs_perm.
Qed.

Lemma done_with_seq {A B} (m : RB A) (k : A -> RB B) s K t v K' t' w T :
  done_with m s (ctx_addrs K ++ inorder t) v K' t' ->
  inorder (plug K' t') = inorder (plug K t) ->
  (forall s', zrep s' K' t' -> done_tree (k v) s' (inorder (plug K' t')) w T) ->
  done_tree (sbind m k) s (inorder (plug K t)) w T.
Proof.
  intros (s1 & E & Z & O) EI H. destruct (H s1 Z) as (s2 & E2 & T2 & O2).
  exists s2. rewrite (sbind_Val _ _ _ _ _ E). split; [done|]. split; [done|].
  rewrite EI in O2. eapply same_outside_trans; [|done].
  eapply same_outside_perm; [|done]. apply ctx_addrs_perm.
Qed.

(** Reads in front of a computation. *)
Lemma done_tree_get {A B} (m : RB A) (k : A -> RB B) s X a v T :
  m s = Val (a, s) -> done_tree (k a) s X v T -> done_tree (sbind m k) s X v T.
Proof. intros E (s' & E' & R). exists s'. by rewrite (sbind_Val _ _ _ _ _ E). Qed.

Ltac step_get L := eapply done_tree_get; [eapply L; eauto|]; cbn beta iota.

End RBTreeExec.
