(* ===== verification/RBTreeInsert.v ===== *)
(** * Red-black trees: insertion

    [insert_fix] is the rebalancing of [hev_rbtree_insert_color] on abstract
    trees.  The pointer code refines it; it keeps the order of the nodes and
    restores the red-black invariant. *)

From Stdlib Require Import ZArith Lia.
From stdpp Require Import base list gmap numbers.
From S2P Require Import Prelude RBTree RBTreeRep RBTreeExec.
Import list_basics.list list_relations.list list_monad.list list_misc.list.
Import RBTree RBTreeRep RBTreeExec.

Module RBTreeInsert.

(** ** Abstract rebalancing

    [t] is the red node being looked at, [K] the path to the root.  [None] is the
    dereference of a missing grandparent (a red root). *)
Fixpoint insert_fix (K : list frame) (t : tree) : option tree :=
  match K with
  | [] => Some (blacken t)
  | FL Black _ _ :: _ | FR Black _ _ :: _ => Some (plug K t)
  | FL Red p pr :: K1 =>
      match K1 with
      | [] => None
      | FL gc g u :: K2 =>
          if is_red u then insert_fix K2 (Node Red (Node Black t p pr) g (blacken u))
          else Some (plug K2 (Node gc t p (Node Red (blacken pr) g u)))
      | FR gc u g :: K2 =>
          if is_red u then insert_fix K2 (Node Red (blacken u) g (Node Black t p pr))
          else match t with
               | Leaf => None
               | Node _ tl n tr =>
                   Some (plug K2 (Node gc (Node Red u g (blacken tl)) n
                                          (Node Red (blacken tr) p pr)))
               end
      end
  | FR Red pl p :: K1 =>
      match K1 with
      | [] => None
      | FL gc g u :: K2 =>
          if is_red u then insert_fix K2 (Node Red (Node Black pl p t) g (blacken u))
          else match t with
               | Leaf => None
               | Node _ tl n tr =>
                   Some (plug K2 (Node gc (Node Red pl p (blacken tl)) n
                                          (Node Red (blacken tr) g u)))
               end
      | FR gc u g :: K2 =>
          if is_red u then insert_fix K2 (Node Red (blacken u) g (Node Black pl p t))
          else Some (plug K2 (Node gc (Node Red u g (blacken pl)) p t))
      end
  end.

(** ** The rotations refine the abstract ones *)

Lemma insert_case3_left s K gc g u p pr t :
  zrep s (FL Red p pr :: FL gc g u :: K) t -> ad t <> NULL ->
  done_with (insert_rotate_left_side (ad t) p g) s
    (ctx_addrs (FL Red p pr :: FL gc g u :: K) ++ inorder t)
    tt K (Node gc t p (Node Red (blacken pr) g u)).
Proof.
  intros Hz Ht. destruct s as [rt h]. open_zrep Hz.
  pieces [[p]; inorder pr; [g]; inorder u; ctx_addrs K; inorder t].
  unfold insert_rotate_left_side. run_get get_right_ok.
  rewrite ad_ne by first [apart_solve|done].
  rewrite (sbind_Val _ _ _ (p, ad pr) (mkRBTree rt h)) by done.
  run_upd set_left_ok. run_upd set_right_ok. run_reparent_black pr.
  run_rotate K Red. close_zrep.
Qed.

Lemma insert_case3_right s K gc g u p pl t :
  zrep s (FR Red pl p :: FR gc u g :: K) t -> ad t <> NULL ->
  done_with (insert_rotate_right_side (ad t) p g) s
    (ctx_addrs (FR Red pl p :: FR gc u g :: K) ++ inorder t)
    tt K (Node gc (Node Red u g (blacken pl)) p t).
Proof.
  intros Hz Ht. destruct s as [rt h]. open_zrep Hz.
  pieces [[p]; inorder pl; [g]; inorder u; ctx_addrs K; inorder t].
  unfold insert_rotate_right_side. run_get get_left_ok.
  rewrite ad_ne by first [apart_solve|done].
  rewrite (sbind_Val _ _ _ (p, ad pl) (mkRBTree rt h)) by done.
  run_upd set_right_ok. run_upd set_left_ok. run_reparent_black pl.
  run_rotate K Red. close_zrep.
Qed.

Lemma insert_case2_left s K gc g u p pl nc tl n tr :
  zrep s (FR Red pl p :: FL gc g u :: K) (Node nc tl n tr) ->
  done_with (insert_rotate_left_side n p g) s
    (ctx_addrs (FR Red pl p :: FL gc g u :: K) ++ inorder (Node nc tl n tr))
    tt K (Node gc (Node Red pl p (blacken tl)) n (Node Red (blacken tr) g u)).
Proof.
  intros Hz. destruct s as [rt h]. open_zrep Hz.
  pieces [[p]; inorder pl; [g]; inorder u; ctx_addrs K; inorder tl; [n]; inorder tr].
  unfold insert_rotate_left_side. run_get get_right_ok.
  rewrite Z.eqb_refl, sbind_assoc. run_get get_left_ok. rewrite sbind_assoc.
  run_upd set_right_ok. rewrite sbind_assoc. run_upd set_left_ok. rewrite sbind_assoc.
  run_reparent_black tl. rewrite sbind_assoc. run_upd set_parent_red_ok.
  rewrite sbind_assoc. run_get get_right_ok. rewrite sbind_ret.
  run_upd set_left_ok. run_upd set_right_ok. run_reparent_black tr.
  run_rotate K Red. close_zrep.
Qed.

Lemma insert_case2_right s K gc g u p pr nc tl n tr :
  zrep s (FL Red p pr :: FR gc u g :: K) (Node nc tl n tr) ->
  done_with (insert_rotate_right_side n p g) s
    (ctx_addrs (FL Red p pr :: FR gc u g :: K) ++ inorder (Node nc tl n tr))
    tt K (Node gc (Node Red u g (blacken tl)) n (Node Red (blacken tr) p pr)).
Proof.
  intros Hz. destruct s as [rt h]. open_zrep Hz.
  pieces [[p]; inorder pr; [g]; inorder u; ctx_addrs K; inorder tl; [n]; inorder tr].
  unfold insert_rotate_right_side. run_get get_left_ok.
  rewrite Z.eqb_refl, sbind_assoc. run_get get_right_ok. rewrite sbind_assoc.
  run_upd set_left_ok. rewrite sbind_assoc. run_upd set_right_ok. rewrite sbind_assoc.
  run_reparent_black tr. rewrite sbind_assoc. run_upd set_parent_red_ok.
  rewrite sbind_assoc. run_get get_left_ok. rewrite sbind_ret.
  run_upd set_right_ok. run_upd set_left_ok. run_reparent_black tl.
  run_rotate K Red. close_zrep.
Qed.

(** All four flips run the same stores. *)
Ltac flip_pieces p pw g ul ua ur K t :=
  pieces [[p]; inorder pw; [g]; inorder ul; [ua]; inorder ur; ctx_addrs K; inorder t];
  match goal with H : rep_ctx _ _ K g |- _ => pose proof (ctx_parent_aligned _ _ _ _ H) end;
  unfold insert_flip; do 2 run_upd set_parent_black_ok; run_get node_parent_ok;
  run_upd set_parent_red_ok; do 2 eexists; split; [reflexivity|]; close_zrep.

Lemma insert_flip_ll s K gc g ul ua ur p pr t (u := Node Red ul ua ur) :
  zrep s (FL Red p pr :: FL gc g u :: K) t ->
  done_with (insert_flip ua p g) s (ctx_addrs (FL Red p pr :: FL gc g u :: K) ++ inorder t)
    (g, ctx_parent K) K (Node Red (Node Black t p pr) g (blacken u)).
Proof.
  intros Hz. destruct s as [rt h]. open_zrep Hz.
  subst u. flip_pieces p pr g ul ua ur K t.
Qed.

Lemma insert_flip_rl s K gc g ul ua ur p pl t (u := Node Red ul ua ur) :
  zrep s (FR Red pl p :: FL gc g u :: K) t ->
  done_with (insert_flip ua p g) s (ctx_addrs (FR Red pl p :: FL gc g u :: K) ++ inorder t)
    (g, ctx_parent K) K (Node Red (Node Black pl p t) g (blacken u)).
Proof.
  intros Hz. destruct s as [rt h]. open_zrep Hz.
  subst u. flip_pieces p pl g ul ua ur K t.
Qed.

Lemma insert_flip_lr s K gc g ul ua ur p pr t (u := Node Red ul ua ur) :
  zrep s (FL Red p pr :: FR gc u g :: K) t ->
  done_with (insert_flip ua p g) s (ctx_addrs (FL Red p pr :: FR gc u g :: K) ++ inorder t)
    (g, ctx_parent K) K (Node Red (blacken u) g (Node Black t p pr)).
Proof.
  intros Hz. destruct s as [rt h]. open_zrep Hz.
  subst u. flip_pieces p pr g ul ua ur K t.
Qed.

Lemma insert_flip_rr s K gc g ul ua ur p pl t (u := Node Red ul ua ur) :
  zrep s (FR Red pl p :: FR gc u g :: K) t ->
  done_with (insert_flip ua p g) s (ctx_addrs (FR Red pl p :: FR gc u g :: K) ++ inorder t)
    (g, ctx_parent K) K (Node Red (blacken u) g (Node Black pl p t)).
Proof.
  intros Hz. destruct s as [rt h]. open_zrep Hz.
  subst u. flip_pieces p pl g ul ua ur K t.
Qed.

(** ** The loop *)

Lemma insert_loop_root fuel s t :
  zrep s [] t -> ad t <> NULL ->
  done_tree (insert_color_loop (S fuel) (ad t) NULL) s (inorder t) tt (blacken t).
Proof.
  intros (HK & HT & ND) Ht. destruct s as [rt h]. cbn in HK, HT, ND.
  destruct (reparent_black_ok rt h NULL t NULL HT ND) as (h' & E & N & F).
  rewrite nonnull_true in E by done. cbn [swhen] in E. exists (mkRBTree rt h'). split; [exact E|].
  split; [|exact F]. split; [cbn [rep_ctx root]; by rewrite ad_recolor|]. split; [exact N|].
  cbn [ctx_addrs app]. by rewrite inorder_recolor.
Qed.

(** Reading the colour of the parent. *)
Lemma insert_loop_parent fuel f K rt h t X v T :
  rep_ctx h rt (f :: K) (ad t) ->
  done_tree (if bool_decide (frame_color f = Black) then sret tt else
    do! gparent := sret (ctx_parent K) in
    do! tmp := get_right gparent in
    if negb (frame_addr f =? tmp) then
      do! red := is_red_nonnull tmp in
      if (red : bool) then
        do! (node, parent) := insert_flip tmp (frame_addr f) gparent in
        insert_color_loop fuel node parent
      else insert_rotate_left_side (ad t) (frame_addr f) gparent
    else
      do! tmp := get_left gparent in
      do! red := is_red_nonnull tmp in
      if (red : bool) then
        do! (node, parent) := insert_flip tmp (frame_addr f) gparent in
        insert_color_loop fuel node parent
      else insert_rotate_right_side (ad t) (frame_addr f) gparent) (mkRBTree rt h) X v T ->
  done_tree (insert_color_loop (S fuel) (ad t) (frame_addr f)) (mkRBTree rt h) X v T.
Proof.
  intros (Al & Ha & Hc & Hs & HK)%rep_ctx_cons (s' & E & R). exists s'. split; [|done]. rewrite <- E.
  cbn [insert_color_loop]. rewrite nonnull_true by done. cbn [negb].
  pose proof (ctx_parent_aligned _ _ _ _ HK).
  assert (exists r l, h !! frame_addr f = Some (mkRBNode (pack (ctx_parent K) (frame_color f)) r l))
    as (r & l & Hc') by (destruct f; eauto).
  erewrite (sbind_Val (hev_rbtree_node_is_black _)) by (eapply node_is_black_ok; eauto).
  case_bool_decide; [done|].
  rewrite (sbind_Val (hev_rbtree_node_red_parent _) _ _ (ctx_parent K) (mkRBTree rt h)); [done|].
  unfold hev_rbtree_node_red_parent. erewrite get_pc_ok by done.
  destruct (frame_color f); [by rewrite pack_red|done].
Qed.

(** The parent is not the uncle. *)
Lemma uncle_ne f1 gc g u K t :
  NoDup (ctx_addrs (f1 :: FL gc g u :: K) ++ inorder t) -> frame_addr f1 <> NULL ->
  (frame_addr f1 =? ad u) = false.
Proof.
  intros ND H. apply Z.eqb_neq. intros E. destruct (ad_in_inorder u) as [C|C]; [congruence|].
  rewrite <- E in C. destruct f1; cbn in ND, C; apply NoDup_cons in ND as [ND _];
    apply ND; clear -C; set_solver.
Qed.

(** After a flip the loop goes on two levels up. *)
Ltac flip_continue L IH K Hf Hl :=
  eapply done_with_seq; [by apply L|rewrite !inorder_plug; app_norm; done|];
  let s' := fresh "s" in let Hz := fresh "Hz" in
  intros s' Hz; apply (IH K s' _ _ Hz); [done|exact Hf|cbn in Hl; lia].

Theorem insert_color_loop_refines fuel K s t T :
  zrep s K t -> ad t <> NULL -> insert_fix K t = Some T -> (length K < fuel)%nat ->
  done_tree (insert_color_loop fuel (ad t) (ctx_parent K)) s (inorder (plug K t)) tt T.
Proof.
  revert K s t T. induction fuel as [|fuel IH]; intros K s t T Hz Ht Hf Hl; [lia|].
  destruct K as [|f1 K1].
  { injection Hf as <-. by apply insert_loop_root. }
  destruct s as [rt h]. pose proof Hz as (HK & HT & ND0). eapply insert_loop_parent; [exact HK|].
  case_bool_decide as Hc.
  { exists (mkRBTree rt h). split; [done|]. split; [|done].
    assert (plug (f1 :: K1) t = T) as <-
      by (destruct f1 as [[] ? ?|[] ? ?]; cbn in Hc, Hf |- *; congruence).
    exact (proj1 (zrep_plug _ _ _) Hz). }
  destruct K1 as [|f2 K2]; [by destruct f1 as [[] ? ?|[] ? ?]|].
  apply done_tree_get with (ctx_parent (f2 :: K2)); [done|]. cbn [ctx_parent].
  destruct (proj1 (rep_ctx_cons _ _ _ _ _) HK) as (_ & N1 & _ & _ & HK1).
  destruct (proj1 (rep_ctx_cons _ _ _ _ _) HK1) as (A2 & N2 & C2 & S2 & HK2).
  destruct f2 as [gc g u|gc u g]; cbn [frame_addr frame_sib frame_cell] in *.
  - step_get get_right_ok.
    rewrite (uncle_ne f1 gc g u K2 t ND0 N1).
    cbn [negb]. step_get is_red_nonnull_ok. destruct (is_red u) eqn:Hu.
    + destruct u as [|[] ul ua ur]; try done. destruct f1 as [[] p pr|[] pl p]; try done; cbn in Hf;
        [flip_continue insert_flip_ll IH K2 Hf Hl|flip_continue insert_flip_rl IH K2 Hf Hl].
    + destruct f1 as [[] p pr|[] pl p]; try done; cbn in Hf; rewrite Hu in Hf.
      * injection Hf as <-. by apply done_with_tree, insert_case3_left.
      * destruct t as [|nc tl n tr]; [done|]. injection Hf as <-.
        by apply done_with_tree, insert_case2_left with (nc := nc).
  - step_get get_right_ok. rewrite Z.eqb_refl. cbn [negb]. step_get get_left_ok.
    step_get is_red_nonnull_ok. destruct (is_red u) eqn:Hu.
    + destruct u as [|[] ul ua ur]; try done. destruct f1 as [[] p pr|[] pl p]; try done; cbn in Hf;
        [flip_continue insert_flip_lr IH K2 Hf Hl|flip_continue insert_flip_rr IH K2 Hf Hl].
    + destruct f1 as [[] p pr|[] pl p]; try done; cbn in Hf; rewrite Hu in Hf.
      * destruct t as [|nc tl n tr]; [done|]. injection Hf as <-.
        by apply done_with_tree, insert_case2_right with (nc := nc).
      * injection Hf as <-. by apply done_with_tree, insert_case3_right.
Qed.

(** ** What the rebalancing achieves *)

Lemma insert_fix_inorder K t T : insert_fix K t = Some T -> inorder T = inorder (plug K t).
Proof.
  revert t T. induction K as [|f1|f1 f2 K2 IH] using frames_ind2; intros t T H.
  - injection H as <-. apply inorder_recolor.
  - by destruct f1 as [[] p w|[] w p]; simplify_eq/=.
  - destruct f1 as [[] p w|[] w p]; cbn in H; try (by injection H as <-);
      destruct f2 as [gc g u|gc u g]; destruct (is_red u);
      first [apply IH in H; rewrite H | try (destruct t as [|nc tl nn tr]; [done|]); injection H as <-];
      rewrite !inorder_plug; cbn -[recolor]; rewrite ?inorder_recolor; app_norm; done.
Qed.

Lemma insert_fix_rb K t n :
  ctx_rb K n -> rb t n -> is_red t = true -> exists T, insert_fix K t = Some T /\ rbtree T.
Proof.
  revert t n. induction K as [|f1|f1 f2 K2 IH] using frames_ind2; intros t n HK Ht Hr.
  - exists (blacken t). split; [done|]. split; [apply is_red_blacken|].
    exists (S n). by apply rb_blacken.
  - destruct f1 as [[] p w|[] w p]; cbn in HK; try tauto;
      (eexists; split; [reflexivity|]; eapply (plug_rb [_]); [exact HK|done|by right]).
  - destruct t as [|[] tl x tr]; try done. destruct Ht as (Hl & Hr' & Htl & Htr).
    destruct f1 as [[] p w|[] w p].
    2,4: by eexists; split; [reflexivity|]; apply (plug_rb (_ :: _ :: K2) _ n); [done|cbn|right].
    all: destruct HK as (Hw & Hwn & Hk & HK); destruct f2 as [gc g u|gc u g]; cbn in Hk; subst gc;
      destruct HK as (Hu & HK); cbn [insert_fix]; (destruct (is_red u) eqn:Hru;
      [apply (IH _ (S n)); [done| |done]; cbn -[recolor];
       rewrite is_red_blacken; split_and!; try done; by apply rb_blacken
      |eexists; split; [reflexivity|]; apply (plug_rb K2 _ (S n)); [done| |by left]; cbn -[recolor];
       rewrite ?(blacken_black w), ?(blacken_black tl), ?(blacken_black tr) by done;
       cbn; split_and!; done]).
Qed.

(** ** Linking a fresh node *)

(** The link cell a descent that ended in the hole of [K] holds. *)
Definition ctx_link (K : list frame) : link :=
  match K with
  | [] => LRoot
  | FL _ a _ :: _ => LLeft a
  | FR _ _ a :: _ => LRight a
  end.

Lemma node_link_ok rt h K a n0 :
  zrep (mkRBTree rt h) K Leaf -> aligned a -> a <> NULL -> h !! a = Some n0 -> a ∉ ctx_addrs K ->
  done_with (hev_rbtree_node_link a (ctx_parent K) (ctx_link K)) (mkRBTree rt h)
    (ctx_addrs K ++ inorder (Node Red Leaf a Leaf)) tt K (Node Red Leaf a Leaf).
Proof.
  intros (HK & _ & NDK) Al Ha Hn Hin. cbn in HK, NDK. rewrite app_nil_r in NDK.
  assert (NoDup (ctx_addrs K ++ inorder (Node Red Leaf a Leaf))) as ND0.
  { cbn. apply NoDup_app. split; [done|]. split; [|apply NoDup_singleton].
    by intros y Hy ->%list_elem_of_singleton. }
  destruct n0 as [pc r l]. unfold hev_rbtree_node_link.
  destruct K as [|[c b w|c w b] K]; cbn in HK; repeat match goal with X : _ /\ _ |- _ => destruct X end;
    [pieces [[a]]|pieces [[b]; inorder w; ctx_addrs K; [a]]|pieces [[b]; inorder w; ctx_addrs K; [a]]];
    run_upd set_pc_ok; run_upd set_right_ok; run_upd set_left_ok; cbn [ctx_link].
  - do 2 eexists. split; [reflexivity|]. split; [|done]. split; [done|]. split; [|done].
    cbn. by rewrite pack_red.
  - rewrite <- (sbind_ret_r (set_left b a)). run_upd set_left_ok.
    do 2 eexists. split; [reflexivity|]. split; [|done].
    split; [cbn; repeat first [assumption | split]|]. split; [|done]. cbn. by rewrite pack_red.
  - rewrite <- (sbind_ret_r (set_right b a)). run_upd set_right_ok.
    do 2 eexists. split; [reflexivity|]. split; [|done].
    split; [cbn; repeat first [assumption | split]|]. split; [|done]. cbn. by rewrite pack_red.
Qed.

Lemma insert_ok fuel s K a n0 :
  rbtree (plug K Leaf) -> trep s (plug K Leaf) ->
  aligned a -> a <> NULL -> a ∉ inorder (plug K Leaf) -> cells s !! a = Some n0 ->
  (length K < fuel)%nat ->
  exists s' T,
    (hev_rbtree_node_link a (ctx_parent K) (ctx_link K) ;;; hev_rbtree_insert_color fuel a) s
      = Val (tt, s') /\
    trep s' T /\ rbtree T /\ inorder T = lefts K ++ [a] ++ rights K /\
    forall y, y ∉ inorder T -> cells s' !! y = cells s !! y.
Proof.
  intros Hrb Ht Al Ha Hin Hc Hf. destruct s as [rt h].
  apply zrep_plug in Ht. rewrite <- ctx_addrs_perm, app_nil_r in Hin.
  destruct (node_link_ok rt h K a n0 Ht Al Ha Hc Hin) as (s1 & E1 & Z1 & O1).
  destruct (unplug_rb K Leaf Hrb) as (n & HK & -> & _).
  destruct (insert_fix_rb K (Node Red Leaf a Leaf) 0 HK) as (T & HT & RT); [by cbn..|].
  destruct (insert_color_loop_refines fuel K s1 _ T Z1 Ha HT Hf) as (s2 & E2 & T2 & O2).
  exists s2, T. apply insert_fix_inorder in HT as EI. split.
  { rewrite (sbind_Val _ _ _ _ _ E1). destruct s1 as [rt1 h1]. destruct Z1 as (_ & (_ & _ & C1 & _) & _).
    unfold hev_rbtree_insert_color, hev_rbtree_node_red_parent.
    rewrite (sbind_Val _ _ _ (ctx_parent K) (mkRBTree rt1 h1)); [done|].
    erewrite get_pc_ok by done. by rewrite pack_red. }
  do 2 (split; [done|]). split; [by rewrite EI, inorder_plug|].
  intros y Hy. rewrite EI in Hy. rewrite O2 by done. apply O1.
  intros C. apply Hy. rewrite <- ctx_addrs_perm. exact C.
Qed.

(** linking a fresh node where a search ended and rebalancing with
    [hev_rbtree_insert_color] never faults, keeps the red-black invariant, puts the
    node exactly at the searched position of the order, and writes to no cell
    outside the tree. *)
Theorem rbtree_insert_correct fuel s K a n0 :
  rbtree (plug K Leaf) -> trep s (plug K Leaf) ->
  aligned a -> a <> NULL -> a ∉ inorder (plug K Leaf) -> cells s !! a = Some n0 ->
  (length K < fuel)%nat ->
  exists s' T,
    (hev_rbtree_node_link a (ctx_parent K) (ctx_link K) ;;; hev_rbtree_insert_color fuel a) s
      = Val (tt, s') /\
    trep s' T /\ rbtree T /\ inorder T = lefts K ++ [a] ++ rights K /\
    forall y, y ∉ inorder T -> cells s' !! y = cells s !! y.
Proof. apply insert_ok. Qed.

(** Inserting 24 below 16 in the tree 8 (black) - 16 (red) rotates. *)
Definition example_store : HevRBTree :=
  mkRBTree 8 (<[8 := mkRBNode (pack NULL Black) 16 NULL]>
             (<[16 := mkRBNode (pack 8 Red) NULL NULL]>
             (<[24 := mkRBNode 24 0 0]> ∅))).

Lemma rbtree_insert_correct_witness :
  exists s' T,
    (hev_rbtree_node_link 24 16 (LRight 16) ;;; hev_rbtree_insert_color 3 24) example_store
      = Val (tt, s') /\
    trep s' T /\ rbtree T /\ inorder T = [8; 16; 24] /\
    forall y, y ∉ inorder T -> cells s' !! y = cells example_store !! y.
Proof.
  apply (rbtree_insert_correct 3 example_store [FR Red Leaf 16; FR Black Leaf 8] 24 (mkRBNode 24 0 0)).
  - split; [done|]. exists 1%nat. by cbn.
  - unfold trep, zrep. cbn. split_and!; try done.
    apply (bool_decide_unpack _). by vm_compute.
  - done.
  - done.
  - apply (bool_decide_unpack _). by vm_compute.
  - reflexivity.
  - cbn. lia.
Defined.

End RBTreeInsert.
