(* ===== verification/RBTreeErase.v ===== *)
(** * Red-black trees: removal

    [erase_fix] is the loop of [_hev_rbtree_erase_color] on abstract trees and
    [unlink] the splice of [_hev_rbtree_erase].  The pointer code refines them; they
    remove exactly one node from the order and restore the red-black invariant. *)

From Stdlib Require Import ZArith Lia.
From stdpp Require Import base list gmap numbers.
From S2P Require Import Prelude RBTree RBTreeRep RBTreeExec.
Import list_basics.list list_relations.list list_monad.list list_misc.list.
Import RBTree RBTreeRep RBTreeExec.

Module RBTreeErase.

(** ** Abstract rebalancing

    The focus lacks one black node.  Cases 2 to 4 rebuild the tree at the parent
    [p] (colour [c]); the boolean says that the whole tree still lacks one. *)
Definition bal_left (c : color) (t : tree) (p : Z) (w : tree) : option (tree * bool) :=
  match w with
  | Leaf => None
  | Node _ sl s sr =>
      if is_red sr then Some (Node c (Node Black t p sl) s (blacken sr), false)
      else match sl with
           | Node Red a n b =>
               Some (Node c (Node Black t p a) n (Node Black (blacken b) s sr), false)
           | _ => Some (Node Black t p (Node Red sl s sr), bool_decide (c = Black))
           end
  end.

Definition bal_right (c : color) (w : tree) (p : Z) (t : tree) : option (tree * bool) :=
  match w with
  | Leaf => None
  | Node _ sl s sr =>
      if is_red sl then Some (Node c (blacken sl) s (Node Black sr p t), false)
      else match sr with
           | Node Red a n b =>
               Some (Node c (Node Black sl s (blacken a)) n (Node Black b p t), false)
           | _ => Some (Node Black (Node Red sl s sr) p t, bool_decide (c = Black))
           end
  end.

(** [None] is the dereference of a missing sibling. *)
Fixpoint erase_fix (K : list frame) (t : tree) : option tree :=
  match K with
  | [] => Some t
  | FL c p w :: K =>
      match w with
      | Node Red sl s sr =>
          match bal_left Red t p (blacken sl) with
          | Some (T, _) => Some (plug (FL c s sr :: K) T)
          | None => None
          end
      | _ =>
          match bal_left c t p w with
          | Some (T, true) => erase_fix K T
          | Some (T, false) => Some (plug K T)
          | None => None
          end
      end
  | FR c w p :: K =>
      match w with
      | Node Red sl s sr =>
          match bal_right Red (blacken sr) p t with
          | Some (T, _) => Some (plug (FR c sl s :: K) T)
          | None => None
          end
      | _ =>
          match bal_right c w p t with
          | Some (T, true) => erase_fix K T
          | Some (T, false) => Some (plug K T)
          | None => None
          end
      end
  end.

(** ** The cases refine the abstract ones *)

Lemma case1_left_ok s c p sl a sr K t :
  zrep s (FL c p (Node Red sl a sr) :: K) t -> ad sl <> NULL ->
  done_with (erase_case1_left p a) s (ctx_addrs (FL c p (Node Red sl a sr) :: K) ++ inorder t)
    (ad sl) (FL Red p (blacken sl) :: FL c a sr :: K) t.
Proof.
  intros Hz Hsl. destruct s as [rt h]. open_zrep Hz.
  pieces [[p]; inorder sl; [a]; inorder sr; ctx_addrs K; inorder t].
  unfold erase_case1_left. run_get node_is_red_ok. rewrite bool_decide_eq_true_2 by done.
  run_get get_left_ok. run_upd set_right_ok. run_upd set_left_ok.
  rewrite <- (swhen_nonnull (ad sl) (hev_rbtree_node_set_parent_color _ _ _)) by done.
  run_reparent_black sl. run_rotate_bind K Red.
  do 2 eexists; split; [reflexivity|]. close_zrep.
Qed.

Lemma case1_right_ok s c p sl a sr K t :
  zrep s (FR c (Node Red sl a sr) p :: K) t -> ad sr <> NULL ->
  done_with (erase_case1_right p a) s (ctx_addrs (FR c (Node Red sl a sr) p :: K) ++ inorder t)
    (ad sr) (FR Red (blacken sr) p :: FR c sl a :: K) t.
Proof.
  intros Hz Hsr. destruct s as [rt h]. open_zrep Hz.
  pieces [[p]; inorder sl; [a]; inorder sr; ctx_addrs K; inorder t].
  unfold erase_case1_right. run_get node_is_red_ok. rewrite bool_decide_eq_true_2 by done.
  run_get get_right_ok. run_upd set_left_ok. run_upd set_right_ok.
  rewrite <- (swhen_nonnull (ad sr) (hev_rbtree_node_set_parent_color _ _ _)) by done.
  run_reparent_black sr. run_rotate_bind K Red.
  do 2 eexists; split; [reflexivity|]. close_zrep.
Qed.

(** Value of an iteration that rebuilt the tree at [p]: where the loop goes on. *)
Definition loop_next (b : bool) (p : Z) (K : list frame) : option (Z * Z) :=
  if b && nonnull (ctx_parent K) then Some (p, ctx_parent K) else None.

Lemma case2_left_ok s c p sc sl a sr K t :
  zrep s (FL c p (Node sc sl a sr) :: K) t ->
  done_with (erase_case2 p a) s (ctx_addrs (FL c p (Node sc sl a sr) :: K) ++ inorder t)
    (loop_next (bool_decide (c = Black)) p K) K (Node Black t p (Node Red sl a sr)).
Proof.
  intros Hz. destruct s as [rt h]. open_zrep Hz.
  pieces [[p]; inorder sl; [a]; inorder sr; ctx_addrs K; inorder t].
  match goal with H : rep_ctx _ _ K p |- _ => pose proof (ctx_parent_aligned _ _ _ _ H) end.
  unfold erase_case2, loop_next. run_upd set_parent_red_ok. run_get node_is_red_ok. destruct c.
  - rewrite bool_decide_eq_true_2, bool_decide_eq_false_2 by done. run_upd set_black_ok.
    do 2 eexists; split; [reflexivity|]. close_zrep.
  - rewrite bool_decide_eq_false_2, bool_decide_eq_true_2 by done. run_get node_parent_ok.
    do 2 eexists; split; [reflexivity|]. close_zrep.
Qed.

Lemma case4_left_ok s c p sc sl a sr K t :
  zrep s (FL c p (Node sc sl a sr) :: K) t -> ad sr <> NULL ->
  done_with (erase_case4_left p a (ad sr) ;;; sret None) s (ctx_addrs (FL c p (Node sc sl a sr) :: K) ++ inorder t)
    (@None (Z * Z)) K (Node c (Node Black t p sl) a (blacken sr)).
Proof.
  intros Hz Hn. destruct s as [rt h]. open_zrep Hz.
  pieces [[p]; inorder sl; [a]; inorder sr; ctx_addrs K; inorder t].
  unfold erase_case4_left. rewrite sbind_assoc. run_get get_left_ok. rewrite sbind_assoc.
  run_upd set_right_ok. rewrite sbind_assoc. run_upd set_left_ok. rewrite sbind_assoc.
  rewrite <- (swhen_nonnull (ad sr) (hev_rbtree_node_set_parent_color _ _ _)) by done.
  run_reparent_black sr. rewrite sbind_assoc. run_reparent sl. run_rotate_bind K Black.
  do 2 eexists; split; [reflexivity|]. close_zrep.
Qed.

Lemma case3_left_ok s c p sc b1 n b2 a sr K t :
  zrep s (FL c p (Node sc (Node Red b1 n b2) a sr) :: K) t ->
  done_with (do! (sibling, tmp1) := erase_case3_left p a n in erase_case4_left p sibling tmp1 ;;; sret None) s
    (ctx_addrs (FL c p (Node sc (Node Red b1 n b2) a sr) :: K) ++ inorder t)
    (@None (Z * Z)) K (Node c (Node Black t p b1) n (Node Black (blacken b2) a sr)).
Proof.
  intros Hz. destruct s as [rt h]. open_zrep Hz.
  pieces [[p]; inorder b1; [n]; inorder b2; [a]; inorder sr; ctx_addrs K; inorder t].
  unfold erase_case3_left. rewrite sbind_assoc. run_get get_right_ok. rewrite sbind_assoc.
  run_upd set_left_ok. rewrite sbind_assoc. run_upd set_right_ok. rewrite sbind_assoc.
  run_upd set_right_ok. rewrite sbind_assoc. run_reparent_black b2. rewrite sbind_ret.
  unfold erase_case4_left. rewrite sbind_assoc. run_get get_left_ok. rewrite sbind_assoc.
  run_upd set_right_ok. rewrite sbind_assoc. run_upd set_left_ok. rewrite sbind_assoc.
  run_upd set_parent_black_ok. rewrite sbind_assoc. run_reparent b1. run_rotate_bind K Black.
  do 2 eexists; split; [reflexivity|]. close_zrep.
Qed.

Lemma case2_right_ok s c p sc sl a sr K t :
  zrep s (FR c (Node sc sl a sr) p :: K) t ->
  done_with (erase_case2 p a) s (ctx_addrs (FR c (Node sc sl a sr) p :: K) ++ inorder t)
    (loop_next (bool_decide (c = Black)) p K) K (Node Black (Node Red sl a sr) p t).
Proof.
  intros Hz. destruct s as [rt h]. open_zrep Hz.
  pieces [[p]; inorder sl; [a]; inorder sr; ctx_addrs K; inorder t].
  match goal with H : rep_ctx _ _ K p |- _ => pose proof (ctx_parent_aligned _ _ _ _ H) end.
  unfold erase_case2, loop_next. run_upd set_parent_red_ok. run_get node_is_red_ok. destruct c.
  - rewrite bool_decide_eq_true_2, bool_decide_eq_false_2 by done. run_upd set_black_ok.
    do 2 eexists; split; [reflexivity|]. close_zrep.
  - rewrite bool_decide_eq_false_2, bool_decide_eq_true_2 by done. run_get node_parent_ok.
    do 2 eexists; split; [reflexivity|]. close_zrep.
Qed.

Lemma case4_right_ok s c p sc sl a sr K t :
  zrep s (FR c (Node sc sl a sr) p :: K) t -> ad sl <> NULL ->
  done_with (erase_case4_right p a (ad sl) ;;; sret None) s (ctx_addrs (FR c (Node sc sl a sr) p :: K) ++ inorder t)
    (@None (Z * Z)) K (Node c (blacken sl) a (Node Black sr p t)).
Proof.
  intros Hz Hn. destruct s as [rt h]. open_zrep Hz.
  pieces [[p]; inorder sl; [a]; inorder sr; ctx_addrs K; inorder t].
  unfold erase_case4_right. rewrite sbind_assoc. run_get get_right_ok. rewrite sbind_assoc.
  run_upd set_left_ok. rewrite sbind_assoc. run_upd set_right_ok. rewrite sbind_assoc.
  rewrite <- (swhen_nonnull (ad sl) (hev_rbtree_node_set_parent_color _ _ _)) by done.
  run_reparent_black sl. rewrite sbind_assoc. run_reparent sr. run_rotate_bind K Black.
  do 2 eexists; split; [reflexivity|]. close_zrep.
Qed.

Lemma case3_right_ok s c p sc sl a b1 n b2 K t :
  zrep s (FR c (Node sc sl a (Node Red b1 n b2)) p :: K) t ->
  done_with (do! (sibling, tmp1) := erase_case3_right p a n in erase_case4_right p sibling tmp1 ;;; sret None) s
    (ctx_addrs (FR c (Node sc sl a (Node Red b1 n b2)) p :: K) ++ inorder t)
    (@None (Z * Z)) K (Node c (Node Black sl a (blacken b1)) n (Node Black b2 p t)).
Proof.
  intros Hz. destruct s as [rt h]. open_zrep Hz.
  pieces [[p]; inorder sl; [a]; inorder b1; [n]; inorder b2; ctx_addrs K; inorder t].
  unfold erase_case3_right. rewrite sbind_assoc. run_get get_left_ok. rewrite sbind_assoc.
  run_upd set_right_ok. rewrite sbind_assoc. run_upd set_left_ok. rewrite sbind_assoc.
  run_upd set_left_ok. rewrite sbind_assoc. run_reparent_black b1. rewrite sbind_ret.
  unfold erase_case4_right. rewrite sbind_assoc. run_get get_right_ok. rewrite sbind_assoc.
  run_upd set_left_ok. rewrite sbind_assoc. run_upd set_right_ok. rewrite sbind_assoc.
  run_upd set_parent_black_ok. rewrite sbind_assoc. run_reparent b2. run_rotate_bind K Black.
  do 2 eexists; split; [reflexivity|]. close_zrep.
Qed.

(** A read in front of a run. *)
Lemma done_with_get {A B} (m : RB A) (k : A -> RB B) s X a v K t :
  m s = Val (a, s) -> done_with (k a) s X v K t -> done_with (sbind m k) s X v K t.
Proof. intros E (s' & E' & R). exists s'. by rewrite (sbind_Val _ _ _ _ _ E). Qed.

Ltac with_get L := eapply done_with_get; [eapply L; eauto|]; cbn beta iota.

Lemma balance_left_ok s c p w K t T b :
  zrep s (FL c p w :: K) t -> bal_left c t p w = Some (T, b) ->
  done_with (erase_balance_left p (ad w)) s (ctx_addrs (FL c p w :: K) ++ inorder t)
    (loop_next b p K) K T.
Proof.
  intros Hz Hb. pose proof Hz as Hz'. destruct s as [rt h]. open_zrep Hz'.
  destruct w as [|sc sl a sr]; [done|]. cbn in *. repeat match goal with X : _ /\ _ |- _ => destruct X end.
  unfold erase_balance_left. with_get get_right_ok. with_get is_black_or_null_ok.
  destruct (is_red sr) eqn:Hr; cbn [negb].
  { injection Hb as <- <-. apply case4_left_ok with (sc := sc); [done|]. by destruct sr as [|[]]; cbn in *; try tauto. }
  with_get get_left_ok. with_get is_black_or_null_ok.
  destruct sl as [|[] b1 n b2]; cbn [is_red negb]; injection Hb as <- <-.
  - by apply case2_left_ok with (sc := sc).
  - by apply case3_left_ok with (sc := sc).
  - by apply case2_left_ok with (sc := sc).
Qed.

Lemma balance_right_ok s c p w K t T b :
  zrep s (FR c w p :: K) t -> bal_right c w p t = Some (T, b) ->
  done_with (erase_balance_right p (ad w)) s (ctx_addrs (FR c w p :: K) ++ inorder t)
    (loop_next b p K) K T.
Proof.
  intros Hz Hb. pose proof Hz as Hz'. destruct s as [rt h]. open_zrep Hz'.
  destruct w as [|sc sl a sr]; [done|]. cbn in *. repeat match goal with X : _ /\ _ |- _ => destruct X end.
  unfold erase_balance_right. with_get get_left_ok. with_get is_black_or_null_ok.
  destruct (is_red sl) eqn:Hr; cbn [negb].
  { injection Hb as <- <-. apply case4_right_ok with (sc := sc); [done|]. by destruct sl as [|[]]; cbn in *; try tauto. }
  with_get get_right_ok. with_get is_black_or_null_ok.
  destruct sr as [|[] b1 n b2]; cbn [is_red negb]; injection Hb as <- <-.
  - by apply case2_right_ok with (sc := sc).
  - by apply case3_right_ok with (sc := sc).
  - by apply case2_right_ok with (sc := sc).
Qed.

(** ** One iteration *)

Lemma done_with_bind {A B} (m : RB A) (k : A -> RB B) s X v K1 t1 Y w K2 t2 :
  done_with m s X v K1 t1 -> (forall s1, zrep s1 K1 t1 -> done_with (k v) s1 Y w K2 t2) -> Y ≡ₚ X ->
  done_with (sbind m k) s X w K2 t2.
Proof.
  intros (s1 & E1 & Z1 & O1) H P. destruct (H s1 Z1) as (s2 & E2 & Z2 & O2).
  exists s2. rewrite (sbind_Val _ _ _ _ _ E1). split; [done|]. split; [done|].
  eapply same_outside_trans; [done|]. by eapply same_outside_perm.
Qed.

Lemma zip_perm K t K' t' :
  inorder (plug K t) = inorder (plug K' t') -> ctx_addrs K ++ inorder t ≡ₚ ctx_addrs K' ++ inorder t'.
Proof. intros E. by rewrite !ctx_addrs_perm, E. Qed.

Lemma bal_red_left t p w T b : bal_left Red t p w = Some (T, b) -> b = false.
Proof.
  destruct w as [|sc sl a sr]; [done|]. cbn. destruct (is_red sr); [naive_solver|].
  destruct sl as [|[]]; naive_solver.
Qed.

Lemma bal_red_right t p w T b : bal_right Red w p t = Some (T, b) -> b = false.
Proof.
  destruct w as [|sc sl a sr]; [done|]. cbn. destruct (is_red sl); [naive_solver|].
  destruct sr as [|[]]; naive_solver.
Qed.

Lemma step_left_black s c p sl a sr K t T b (w := Node Black sl a sr) :
  zrep s (FL c p w :: K) t -> bal_left c t p w = Some (T, b) ->
  done_with (erase_step_left p a) s (ctx_addrs (FL c p w :: K) ++ inorder t) (loop_next b p K) K T.
Proof.
  intros Hz Hb. pose proof Hz as Hz'. destruct s as [rt h]. subst w. open_zrep Hz'.
  unfold erase_step_left. apply done_with_get with a.
  { unfold erase_case1_left. run_get node_is_red_ok. by rewrite bool_decide_eq_false_2. }
  by apply (balance_left_ok _ c p (Node Black sl a sr)).
Qed.

Lemma step_right_black s c p sl a sr K t T b (w := Node Black sl a sr) :
  zrep s (FR c w p :: K) t -> bal_right c w p t = Some (T, b) ->
  done_with (erase_step_right p a) s (ctx_addrs (FR c w p :: K) ++ inorder t) (loop_next b p K) K T.
Proof.
  intros Hz Hb. pose proof Hz as Hz'. destruct s as [rt h]. subst w. open_zrep Hz'.
  unfold erase_step_right. apply done_with_get with a.
  { unfold erase_case1_right. run_get node_is_red_ok. by rewrite bool_decide_eq_false_2. }
  by apply (balance_right_ok _ c p (Node Black sl a sr)).
Qed.

Lemma step_left_red s c p sl a sr K t T b (w := Node Red sl a sr) :
  zrep s (FL c p w :: K) t -> bal_left Red t p (blacken sl) = Some (T, b) ->
  done_with (erase_step_left p a) s (ctx_addrs (FL c p w :: K) ++ inorder t) None (FL c a sr :: K) T.
Proof.
  intros Hz Hb. pose proof (bal_red_left _ _ _ _ _ Hb) as ->. eapply done_with_bind.
  - apply case1_left_ok; [done|]. destruct sl as [|sc x y z]; [done|].
    destruct s as [rt h]. by destruct Hz as ((_ & _ & _ & (_ & _ & _ & (_ & ? & _) & _) & _) & _).
  - intros s1 Z1. rewrite <- (ad_recolor Black sl). apply (balance_left_ok _ _ _ _ _ _ _ _ Z1 Hb).
  - apply zip_perm. cbn -[recolor]. rewrite !inorder_plug. cbn -[recolor]. rewrite inorder_recolor.
    app_norm. done.
Qed.

Lemma step_right_red s c p sl a sr K t T b (w := Node Red sl a sr) :
  zrep s (FR c w p :: K) t -> bal_right Red (blacken sr) p t = Some (T, b) ->
  done_with (erase_step_right p a) s (ctx_addrs (FR c w p :: K) ++ inorder t) None (FR c sl a :: K) T.
Proof.
  intros Hz Hb. pose proof (bal_red_right _ _ _ _ _ Hb) as ->. eapply done_with_bind.
  - apply case1_right_ok; [done|]. destruct sr as [|sc x y z]; [done|].
    destruct s as [rt h]. by destruct Hz as ((_ & _ & _ & (_ & _ & _ & _ & (_ & ? & _)) & _) & _).
  - intros s1 Z1. rewrite <- (ad_recolor Black sr). apply (balance_right_ok _ _ _ _ _ _ _ _ Z1 Hb).
  - apply zip_perm. cbn -[recolor]. rewrite !inorder_plug. cbn -[recolor]. rewrite inorder_recolor.
    app_norm. done.
Qed.

(** ** The loop *)

Lemma bal_left_inorder c t p w T b :
  bal_left c t p w = Some (T, b) -> inorder T = inorder t ++ p :: inorder w.
Proof.
  destruct w as [|sc sl a sr]; [done|]. cbn -[recolor]. destruct (is_red sr).
  { intros [= <- <-]. cbn -[recolor]. rewrite inorder_recolor. app_norm. done. }
  destruct sl as [|[] x n y]; intros [= <- <-]; cbn -[recolor]; rewrite ?inorder_recolor; app_norm; done.
Qed.

Lemma bal_right_inorder c t p w T b :
  bal_right c w p t = Some (T, b) -> inorder T = inorder w ++ p :: inorder t.
Proof.
  destruct w as [|sc sl a sr]; [done|]. cbn -[recolor]. destruct (is_red sl).
  { intros [= <- <-]. cbn -[recolor]. rewrite inorder_recolor. app_norm. done. }
  destruct sr as [|[] x n y]; intros [= <- <-]; cbn -[recolor]; rewrite ?inorder_recolor; app_norm; done.
Qed.

(** The root the loop stops at keeps its place. *)
Lemma bal_left_ad c t p w T : bal_left c t p w = Some (T, true) -> ad T = p.
Proof.
  destruct w as [|sc sl a sr]; [done|]. cbn. destruct (is_red sr); [done|].
  destruct sl as [|[]]; intros [= <- _]; done.
Qed.

Lemma bal_right_ad c t p w T : bal_right c w p t = Some (T, true) -> ad T = p.
Proof.
  destruct w as [|sc sl a sr]; [done|]. cbn. destruct (is_red sl); [done|].
  destruct sr as [|[]]; intros [= <- _]; done.
Qed.

(** The tail of an iteration: stop, or go on one level up. *)
Lemma loop_tail fuel p K T T' (b : bool) s :
  zrep s K T -> (b = true -> ad T = p) -> (if b then erase_fix K T else Some (plug K T)) = Some T' ->
  (K <> [] -> b = true ->
     done_tree (erase_color_loop fuel (ad T) (ctx_parent K)) s (inorder (plug K T)) tt T') ->
  done_tree (match loop_next b p K with
             | Some (node, parent) => erase_color_loop fuel node parent
             | None => sret tt
             end) s (inorder (plug K T)) tt T'.
Proof.
  intros Hz Hp HT IH. unfold loop_next. destruct b; cbn [andb].
  - destruct (decide (K = [])) as [->|HK].
    { injection HT as <-. by exists s. }
    rewrite nonnull_true; [rewrite <- Hp by done; by apply IH|]. destruct K as [|f K]; [done|].
    destruct Hz as (Hz & _). apply rep_ctx_cons in Hz. apply Hz.
  - injection HT as <-. exists s. split; [done|]. split; [|done]. exact (proj1 (zrep_plug _ _ _) Hz).
Qed.

(** [node] is the left child: the loop takes the branch of its side. *)
Lemma loop_left fuel s c p w K t X v T :
  zrep s (FL c p w :: K) t -> ad w <> NULL ->
  done_tree (do! next := erase_step_left p (ad w) in
    match next with
    | Some (node, parent) => erase_color_loop fuel node parent
    | None => sret tt
    end) s X v T ->
  done_tree (erase_color_loop (S fuel) (ad t) p) s X v T.
Proof.
  intros Hz Hw H. destruct s as [rt h]. cbn [erase_color_loop]. pose proof Hz as Hz'. open_zrep Hz'.
  step_get get_right_ok. assert ((ad t =? ad w) = false) as ->; [|done].
  rewrite Z.eqb_sym. apply ad_ne; [|done]. destruct Hz as (_ & _ & ND).
  intros y I1 I2. cbn in ND. apply NoDup_cons in ND as [_ ND]. rewrite <- app_assoc in ND.
  apply NoDup_app in ND as (_ & D & _). apply (D y I1), elem_of_app. by right.
Qed.

Lemma loop_right fuel s c p w K t X v T :
  zrep s (FR c w p :: K) t ->
  done_tree (do! next := erase_step_right p (ad w) in
    match next with
    | Some (node, parent) => erase_color_loop fuel node parent
    | None => sret tt
    end) s X v T ->
  done_tree (erase_color_loop (S fuel) (ad t) p) s X v T.
Proof.
  intros Hz (s' & E & H). exists s'. split; [|done]. rewrite <- E.
  destruct s as [rt h]. cbn [erase_color_loop]. open_zrep Hz.
  run_get get_right_ok. rewrite Z.eqb_refl. cbn [negb]. rewrite sbind_assoc. by run_get get_left_ok.
Qed.

Theorem erase_color_loop_refines fuel K s t T :
  zrep s K t -> K <> [] -> erase_fix K t = Some T -> (length K < fuel)%nat ->
  done_tree (erase_color_loop fuel (ad t) (ctx_parent K)) s (inorder (plug K t)) tt T.
Proof.
  revert K s t T. induction fuel as [|fuel IH]; intros K s t T Hz Hk Hf Hl; [lia|].
  destruct K as [|f K]; [done|]. cbn [ctx_parent].
  destruct f as [c p [|[] sl a sr]|c [|[] sl a sr] p]; cbn [erase_fix] in Hf; try done;
    pose proof Hz as ((_ & _ & _ & (_ & ? & _) & _) & _).
  - destruct (bal_left Red t p (blacken sl)) as [[T1 b]|] eqn:Hb; [|done]. injection Hf as <-.
    eapply loop_left; [done|done|]. eapply done_with_seq; [by eapply step_left_red|..].
    + apply bal_left_inorder in Hb. rewrite !inorder_plug. cbn -[recolor].
      rewrite Hb, inorder_recolor. app_norm. done.
    + intros s' Hz'. exists s'. split; [done|]. split; [|done]. exact (proj1 (zrep_plug _ _ _) Hz').
  - destruct (bal_left c t p _) as [[T1 b]|] eqn:Hb; [|done].
    eapply loop_left; [done|done|]. assert (inorder (plug K T1) = inorder (plug (FL c p (Node Black sl a sr) :: K) t)) as EI.
    { rewrite !inorder_plug, (bal_left_inorder _ _ _ _ _ _ Hb). app_norm. done. }
    eapply done_with_seq; [by eapply step_left_black|done|]. intros s' Hz'.
    apply loop_tail; [done|intros ->; by eapply bal_left_ad|by destruct b|].
    intros HK ->. apply IH; [done..|cbn in Hl; lia].
  - destruct (bal_right Red (blacken sr) p t) as [[T1 b]|] eqn:Hb; [|done]. injection Hf as <-.
    eapply loop_right; [done|]. eapply done_with_seq; [by eapply step_right_red|..].
    + apply bal_right_inorder in Hb. rewrite !inorder_plug. cbn -[recolor].
      rewrite Hb, inorder_recolor. app_norm. done.
    + intros s' Hz'. exists s'. split; [done|]. split; [|done]. exact (proj1 (zrep_plug _ _ _) Hz').
  - destruct (bal_right c _ p t) as [[T1 b]|] eqn:Hb; [|done].
    eapply loop_right; [done|]. assert (inorder (plug K T1) = inorder (plug (FR c (Node Black sl a sr) p :: K) t)) as EI.
    { rewrite !inorder_plug, (bal_right_inorder _ _ _ _ _ _ Hb). app_norm. done. }
    eapply done_with_seq; [by eapply step_right_black|done|]. intros s' Hz'.
    apply loop_tail; [done|intros ->; by eapply bal_right_ad|by destruct b|].
    intros HK ->. apply IH; [done..|cbn in Hl; lia].
Qed.

(** ** What the rebalancing achieves *)

Lemma erase_fix_inorder K t T : erase_fix K t = Some T -> inorder T = inorder (plug K t).
Proof.
  revert t T. induction K as [|f K IH]; intros t T H; [by injection H as <-|].
  destruct f as [c p [|[] sl a sr]|c [|[] sl a sr] p]; cbn [erase_fix] in H; try done.
  - destruct (bal_left Red t p (blacken sl)) as [[T1 b]|] eqn:Hb; [|done]. injection H as <-.
    rewrite !inorder_plug. cbn -[recolor]. rewrite (bal_left_inorder _ _ _ _ _ _ Hb), inorder_recolor.
    app_norm. done.
  - destruct (bal_left c t p _) as [[T1 b]|] eqn:Hb; [|done].
    assert (inorder T = inorder (plug K T1)) as -> by (destruct b; [by apply IH|by injection H as <-]).
    rewrite !inorder_plug, (bal_left_inorder _ _ _ _ _ _ Hb). app_norm. done.
  - destruct (bal_right Red (blacken sr) p t) as [[T1 b]|] eqn:Hb; [|done]. injection H as <-.
    rewrite !inorder_plug. cbn -[recolor]. rewrite (bal_right_inorder _ _ _ _ _ _ Hb), inorder_recolor.
    app_norm. done.
  - destruct (bal_right c _ p t) as [[T1 b]|] eqn:Hb; [|done].
    assert (inorder T = inorder (plug K T1)) as -> by (destruct b; [by apply IH|by injection H as <-]).
    rewrite !inorder_plug, (bal_right_inorder _ _ _ _ _ _ Hb). app_norm. done.
Qed.

(** Black height of a balanced node with a tall black child [w] and a child [t]
    that lacks one. *)
Definition node_height (c : color) (n : nat) : nat := match c with Red => n | Black => S n end.

Lemma bal_left_rb c t p w n :
  rb t n -> is_red t = false -> rb w (S n) -> is_red w = false ->
  exists T b, bal_left c t p w = Some (T, b) /\
    if b then c = Black /\ rb T (S n) /\ is_red T = false
    else rb T (node_height c (S n)) /\ (is_red T = true -> c = Red).
Proof.
  intros Ht Htr Hw Hwr. destruct w as [|[] sl a sr]; [done|done|]. cbn in Hw. destruct Hw as [Hl Hr].
  cbn -[recolor]. destruct (is_red sr) eqn:Hsr.
  { apply rb_blacken in Hr; [|done]. do 2 eexists; split; [reflexivity|]. split; [|by destruct c].
    destruct c; cbn -[recolor]; rewrite ?is_red_blacken; done. }
  destruct sl as [|[] x m y]; do 2 eexists; (split; [reflexivity|]).
  - destruct c; cbn; [rewrite bool_decide_eq_false_2 by done|rewrite bool_decide_eq_true_2 by done];
      cbn; naive_solver.
  - cbn in Hl. destruct Hl as (Hx & Hy & Hxn & Hyn). rewrite (blacken_black y) by done.
    split; [|by destruct c]. destruct c; cbn; naive_solver.
  - destruct c; cbn; [rewrite bool_decide_eq_false_2 by done|rewrite bool_decide_eq_true_2 by done];
      cbn; naive_solver.
Qed.

Lemma bal_right_rb c t p w n :
  rb t n -> is_red t = false -> rb w (S n) -> is_red w = false ->
  exists T b, bal_right c w p t = Some (T, b) /\
    if b then c = Black /\ rb T (S n) /\ is_red T = false
    else rb T (node_height c (S n)) /\ (is_red T = true -> c = Red).
Proof.
  intros Ht Htr Hw Hwr. destruct w as [|[] sl a sr]; [done|done|]. cbn in Hw. destruct Hw as [Hl Hr].
  cbn -[recolor]. destruct (is_red sl) eqn:Hsl.
  { apply rb_blacken in Hl; [|done]. do 2 eexists; split; [reflexivity|]. split; [|by destruct c].
    destruct c; cbn -[recolor]; rewrite ?is_red_blacken; done. }
  destruct sr as [|[] x m y]; do 2 eexists; (split; [reflexivity|]).
  - destruct c; cbn; [rewrite bool_decide_eq_false_2 by done|rewrite bool_decide_eq_true_2 by done];
      cbn; naive_solver.
  - cbn in Hr. destruct Hr as (Hx & Hy & Hxn & Hyn). rewrite (blacken_black x) by done.
    split; [|by destruct c]. destruct c; cbn; naive_solver.
  - destruct c; cbn; [rewrite bool_decide_eq_false_2 by done|rewrite bool_decide_eq_true_2 by done];
      cbn; naive_solver.
Qed.

(** The invariant of a context, read at its innermost frame. *)
Lemma ctx_rb_cons f K n :
  ctx_rb (f :: K) n <->
  rb (frame_sib f) n /\ ctx_rb K (node_height (frame_color f) n) /\
  (frame_color f = Red -> is_red (frame_sib f) = false /\ red_ok K).
Proof. destruct f as [[] a w|[] w a]; cbn; intuition discriminate. Qed.

(** A finished iteration leaves a valid tree. *)
Lemma plug_done_rb K T c n :
  rb T (node_height c n) -> ctx_rb K (node_height c n) -> (is_red T = true -> c = Red) ->
  (c = Red -> red_ok K) -> rbtree (plug K T).
Proof.
  intros HT HK Hc Hr. eapply plug_rb; [exact HK|exact HT|].
  destruct (is_red T); [right; auto|by left].
Qed.

Lemma erase_fix_rb K t n :
  ctx_rb K (S n) -> rb t n -> is_red t = false -> exists T, erase_fix K t = Some T /\ rbtree T.
Proof.
  revert t n. induction K as [|f K IH]; intros t n HK Ht Hr.
  { exists t. split; [done|]. split; [done|by exists n]. }
  apply ctx_rb_cons in HK as (Hw & HK & Hc).
  destruct f as [c p [|[] sl a sr]|c [|[] sl a sr] p]; cbn [frame_sib frame_color] in *; try done;
    cbn [erase_fix].
  - destruct c; [by destruct Hc|]. cbn in Hw. destruct Hw as (Hl & Hr' & Hln & Hrn).
    rewrite (blacken_black sl) by done.
    destruct (bal_left_rb Red t p sl n) as (T & b & -> & Hb); [done..|]. destruct b; [by destruct Hb|].
    exists (plug (FL Black a sr :: K) T). split; [done|].
    destruct Hb as [Hb _]. eapply plug_rb; [|exact Hb|by right]. by cbn.
  - destruct (bal_left_rb c t p (Node Black sl a sr) n) as (T & b & -> & Hb); [done..|].
    destruct b; [destruct Hb as (-> & HT & Hb); by apply (IH T (S n))|].
    exists (plug K T). split; [done|]. destruct Hb. eapply plug_done_rb; [done..|]. intros E; by apply Hc.
  - destruct c; [by destruct Hc|]. cbn in Hw. destruct Hw as (Hl & Hr' & Hln & Hrn).
    rewrite (blacken_black sr) by done.
    destruct (bal_right_rb Red t p sr n) as (T & b & -> & Hb); [done..|]. destruct b; [by destruct Hb|].
    exists (plug (FR Black sl a :: K) T). split; [done|].
    destruct Hb as [Hb _]. eapply plug_rb; [|exact Hb|by right]. by cbn.
  - destruct (bal_right_rb c t p (Node Black sl a sr) n) as (T & b & -> & Hb); [done..|].
    destruct b; [destruct Hb as (-> & HT & Hb); by apply (IH T (S n))|].
    exists (plug K T). split; [done|]. destruct Hb. eapply plug_done_rb; [done..|]. intros E; by apply Hc.
Qed.

End RBTreeErase.
