(* ===== verification/RBTreeUnlink.v ===== *)
(** * Red-black trees: unlinking a node

    [unlink] is the splice of [_hev_rbtree_erase] on abstract trees: a node with at
    most one child is replaced by it, a node with two children by its successor.
    With the rebalancing of [RBTreeErase] this gives the correctness of
    [hev_rbtree_erase]. *)

From Stdlib Require Import ZArith Lia.
From stdpp Require Import base list gmap numbers.
From S2P Require Import Prelude RBTree RBTreeRep RBTreeExec RBTreeErase.
Import list_basics.list list_relations.list list_monad.list list_misc.list.
Import RBTree RBTreeRep RBTreeExec RBTreeErase.

Module RBTreeUnlink.

(** ** Abstract splice *)

Definition is_leaf (t : tree) : bool := match t with Leaf => true | _ => false end.

(** The leftmost node of [Node c l a r]: the path to it (innermost first), its
    colour, address and right subtree. *)
Fixpoint leftmost (c : color) (l : tree) (a : Z) (r : tree) (K : list frame)
  : list frame * color * Z * tree :=
  match l with
  | Leaf => (K, c, a, r)
  | Node lc ll la lr => leftmost lc ll la lr (FL c a r :: K)
  end.

(** Removing the focus [Node c l a r] below [K]: the new context, focus, and
    whether the focus lacks a black node. *)
Definition unlink (K : list frame) (c : color) (l : tree) (a : Z) (r : tree)
  : list frame * tree * bool :=
  match l, r with
  | Leaf, Leaf => (K, Leaf, bool_decide (c = Black))
  | Leaf, Node _ _ _ _ => (K, recolor c r, false)
  | Node _ _ _ _, Leaf => (K, recolor c l, false)
  | Node _ _ _ _, Node rc rl ra rr =>
      let '(Kr, sc, s, sr) := leftmost rc rl ra rr [] in
      (Kr ++ FR c l s :: K, blacken sr, is_leaf sr && bool_decide (sc = Black))
  end.

Definition erase (K : list frame) (c : color) (l : tree) (a : Z) (r : tree) : option tree :=
  let '(K', t, b) := unlink K c l a r in
  if b then erase_fix K' t else Some (plug K' t).

(** ** The successor takes the place of the node *)

Lemma put_successor_ok rt (h h0 : gmap Z HevRBTreeNode) K c l a rr Kr sc s sr q q' xl X :
  X = [ctx_addrs K; inorder l; [a]; ctx_addrs Kr; [s]; inorder sr] -> NoDup (concat X) ->
  (forall y, y ∉ concat X -> h !! y = h0 !! y) ->
  rep_ctx h rt K a -> a <> NULL -> aligned a ->
  h !! a = Some (mkRBNode (pack (ctx_parent K) c) rr (ad l)) ->
  rep h a l -> ad l <> NULL -> rep_seg h s Kr (ad sr) ->
  h !! s = Some (mkRBNode (pack q sc) (seg_top Kr (ad sr)) xl) -> aligned q -> aligned s -> s <> NULL ->
  rep h q' sr ->
  exists rt' h',
    erase_put_successor a (seg_parent Kr s) s (ad sr) (mkRBTree rt h) =
      Val (if is_leaf sr && bool_decide (sc = Black) then seg_parent Kr s else NULL, mkRBTree rt' h') /\
    rep_ctx h' rt' (Kr ++ FR c l s :: K) (ad sr) /\
    rep h' (seg_parent Kr s) (blacken sr) /\
    forall y, y ∉ concat X -> h' !! y = h0 !! y.
Proof.
  intros -> ND O HK Ha Al Ca Hl Hln Hseg Cs Alq Als Hs Hsr.
  pose proof (ctx_parent_aligned _ _ _ _ HK). unfold erase_put_successor.
  run_get get_left_ok. run_upd set_left_ok.
  rewrite <- (swhen_nonnull (ad l) (hev_rbtree_node_set_parent _ _)) by done. run_reparent l.
  run_get get_pc_ok. unfold _hev_rbtree_node_parent. rewrite pack_parent by done.
  run_change_child K.
  destruct sr as [|src x b y]; cbn [is_leaf andb].
  - change (nonnull (ad Leaf)) with false. cbn iota. rewrite sbind_assoc. run_get node_is_black_ok. rewrite sbind_ret.
    run_upd set_pc_ok. do 2 eexists. split; [by destruct sc|]. split; [|done].
    apply rep_ctx_seg. split; [done|]. cbn; repeat first [assumption | split].
  - rewrite nonnull_true by (by destruct Hsr as (_ & ? & _)). rewrite sbind_assoc.
    rewrite <- (swhen_nonnull (ad (Node src x b y)) (hev_rbtree_node_set_parent_color _ _ _))
      by (by destruct Hsr as (_ & ? & _)).
    run_reparent_black (Node src x b y). rewrite sbind_ret.
    run_upd set_pc_ok. do 2 eexists. split; [done|]. split; [|done].
    apply rep_ctx_seg. split; [done|]. cbn [rep_ctx]; repeat first [assumption | split].
Qed.

(** ** Cutting the successor out *)

Lemma lefts_app Kr K : lefts (Kr ++ K) = lefts K ++ lefts Kr.
Proof.
  induction Kr as [|[c a r|c l a] Kr IH]; cbn; [by rewrite app_nil_r|done|].
  by rewrite IH, <- app_assoc.
Qed.

Lemma rights_app Kr K : rights (Kr ++ K) = rights Kr ++ rights K.
Proof.
  induction Kr as [|[c a r|c l a] Kr IH]; cbn; [done| |done]. by rewrite IH, app_assoc.
Qed.

Lemma leftmost_spec c l a r K0 Kr sc s sr :
  leftmost c l a r K0 = (Kr, sc, s, sr) ->
  exists Kr', Kr = Kr' ++ K0 /\ plug Kr' (Node sc Leaf s sr) = Node c l a r /\ lefts Kr' = [].
Proof.
  revert c a r K0. induction l as [|lc ll IH la lr _]; intros c a r K0 H; cbn in H.
  { simplify_eq. by exists []. }
  apply IH in H as (Kr' & -> & E & EL). exists (Kr' ++ [FL c a r]). rewrite <- app_assoc. split; [done|].
  assert (forall K f t, plug (K ++ [f]) t = plug1 f (plug K t)) as P.
  { intros K f. induction K as [|g K IHK]; intros t; [done|]. cbn. by rewrite IHK. }
  by rewrite P, E, lefts_app.
Qed.

Lemma find_successor_ok rt h fuel c a r lc ll la lr K0 Kr sc s sr :
  rep h a (Node lc ll la lr) -> (length (inorder (Node lc ll la lr)) <= fuel)%nat ->
  leftmost lc ll la lr (FL c a r :: K0) = (Kr, sc, s, sr) ->
  find_successor fuel a la (mkRBTree rt h) = Val ((ctx_parent Kr, s), mkRBTree rt h).
Proof.
  revert fuel c a r lc la lr K0.
  induction ll as [|c2 l2 IH a2 r2 _]; intros fuel c a r lc la lr K0 Hr Hf H;
    (destruct fuel as [|fuel]; [cbn in Hf; rewrite ?length_app in Hf; cbn in Hf; lia|]);
    cbn [find_successor]; destruct Hr as (_ & _ & Hc & Hl & _); run_get get_left_ok.
  - cbn in H. by simplify_eq.
  - rewrite nonnull_true by (by destruct Hl as (_ & ? & _)). eapply (IH _ _ _ _ _ _ _ _ Hl); [|exact H].
    cbn in Hf |- *. rewrite !length_app in *. cbn in Hf |- *. rewrite ?length_app in *. cbn in *. lia.
Qed.

(** Re-parenting the outermost node of a segment. *)
Lemma seg_reparent rt h par f Kr hole q :
  rep_seg h par (f :: Kr) hole -> aligned par -> NoDup (ctx_addrs (f :: Kr)) ->
  exists h', hev_rbtree_node_set_parent (seg_top (f :: Kr) hole) q (mkRBTree rt h) =
      Val (tt, mkRBTree rt h') /\
    rep_seg h' q (f :: Kr) hole /\ forall y, y ∉ ctx_addrs (f :: Kr) -> h' !! y = h !! y.
Proof.
  intros Hs Al. revert f hole Hs. induction Kr as [|g Kr IH]; intros f hole (A & N & C & R & S) ND.
  - destruct (set_parent_ok rt h (frame_addr f) q par (frame_color f)
      (right (frame_cell f par hole)) (left (frame_cell f par hole))) as (h' & E & N' & F);
      [by destruct f|done|].
    exists h'. split; [exact E|]. split.
    + cbn. do 2 (split; [done|]). split; [by destruct f|]. split; [|done].
      eapply rep_frame; [exact F| |exact R]. intros y Hy ->%list_elem_of_singleton.
      destruct f; cbn in ND, Hy; apply NoDup_cons in ND as [ND _]; apply ND; by rewrite app_nil_r.
    + intros y Hy. apply F. intros ->%list_elem_of_singleton. apply Hy. destruct f; left.
  - assert ((frame_addr f ∉ ctx_addrs (g :: Kr)) /\
      (forall y, y ∈ inorder (frame_sib f) -> y ∉ ctx_addrs (g :: Kr)) /\ NoDup (ctx_addrs (g :: Kr)))
      as (D1 & D2 & D3).
    { assert (NoDup (frame_addr f :: inorder (frame_sib f) ++ ctx_addrs (g :: Kr))) as D
        by (by destruct f). apply NoDup_cons in D as [D (_ & D2 & D3)%NoDup_app].
      split; [|done]. intros C'. apply D, elem_of_app. by right. }
    destruct (IH g (frame_addr f) S D3) as (h' & E & R' & F).
    exists h'. split; [exact E|]. split.
    + cbn [rep_seg] in R' |- *. rewrite F by done. do 3 (split; [done|]). split; [|exact R'].
      eapply rep_frame; [exact F|exact D2|exact R].
    + intros y Hy. apply F. intros C'. apply Hy. destruct f; right; apply elem_of_app; by right.
Qed.

Lemma seg_top_plug Kr t : ad (plug Kr t) = seg_top Kr (ad t).
Proof. revert t. induction Kr as [|f Kr IH]; intros t; [done|]. cbn. rewrite IH. by destruct f. Qed.

(** Changing what hangs at the end of a segment of left turns. *)
Lemma seg_set_left rt h par c b w Kr hole new :
  rep_seg h par (FL c b w :: Kr) hole -> NoDup (ctx_addrs (FL c b w :: Kr)) ->
  exists h', set_left b new (mkRBTree rt h) = Val (tt, mkRBTree rt h') /\
    rep_seg h' par (FL c b w :: Kr) new /\
    forall y, y ∉ ctx_addrs (FL c b w :: Kr) -> h' !! y = h !! y.
Proof.
  intros (A & N & C & R & S) (D & (_ & D2 & D3)%NoDup_app)%NoDup_cons.
  destruct (set_left_ok rt h b new _ _ _ C) as (h' & E & N' & F). exists h'. split; [done|]. split.
  - cbn. do 3 (split; [done|]). split.
    + eapply rep_frame; [exact F| |exact R]. intros y Hy ->%list_elem_of_singleton.
      apply D, elem_of_app. by left.
    + eapply rep_seg_frame; [exact F| |exact S]. intros y Hy ->%list_elem_of_singleton.
      apply D, elem_of_app. by right.
  - intros y Hy. apply F. intros ->%list_elem_of_singleton. apply Hy. left.
Qed.

Lemma leftmost_head c l a r K0 Kr sc s sr :
  leftmost c l a r K0 = (Kr, sc, s, sr) ->
  (l = Leaf /\ Kr = K0 /\ s = a) \/ (l <> Leaf /\ exists c' b w Kr', Kr = FL c' b w :: Kr').
Proof.
  revert c a r K0. induction l as [|lc ll IH la lr _]; intros c a r K0 H; cbn in H.
  { left. by simplify_eq. }
  right. split; [done|]. apply IH in H as [(_ & -> & _)|(_ & H)]; [|done]. eauto.
Qed.

(** The context of a successor that is about to be cut out. *)
Lemma two_children_open rt h K c l a rc rl ra rr Kr sc s sr :
  zrep (mkRBTree rt h) K (Node c l a (Node rc rl ra rr)) ->
  leftmost rc rl ra rr [] = (Kr, sc, s, sr) ->
  NoDup (concat [ctx_addrs K; inorder l; [a]; ctx_addrs Kr; [s]; inorder sr]) /\
  ctx_addrs K ++ inorder (Node c l a (Node rc rl ra rr)) ≡ₚ
    concat [ctx_addrs K; inorder l; [a]; ctx_addrs Kr; [s]; inorder sr] /\
  rep_seg h a Kr s /\ rep h (seg_parent Kr a) (Node sc Leaf s sr) /\ ra = seg_top Kr s.
Proof.
  intros (HK & (_ & _ & _ & _ & Hr) & ND) (Kr' & E1 & E2 & _)%leftmost_spec.
  rewrite app_nil_r in E1. subst Kr'.
  assert (ctx_addrs K ++ inorder (Node c l a (Node rc rl ra rr)) ≡ₚ
    concat [ctx_addrs K; inorder l; [a]; ctx_addrs Kr; [s]; inorder sr]) as P.
  { rewrite <- E2. cbn. rewrite <- ctx_addrs_perm. app_norm. done. }
  split; [by rewrite <- P|]. split; [done|].
  change ra with (ad (Node rc rl ra rr)). rewrite <- E2 in Hr |- *. rewrite seg_top_plug.
  apply rep_plug_seg in Hr. tauto.
Qed.

(** The successor is deeper than the right child. *)
Lemma two_children_deep rt (h h0 : gmap Z HevRBTreeNode) K c l a rr ra tl pcr rcr f c' b w Kr' sc s sr Kr X :
  Kr = FL c' b w :: Kr' ->
  X = [ctx_addrs K; inorder l; [a]; ctx_addrs Kr; [s]; inorder sr] -> NoDup (concat X) ->
  (forall y, y ∉ concat X -> h !! y = h0 !! y) ->
  rep_ctx h rt K a -> a <> NULL -> aligned a ->
  h !! a = Some (mkRBNode (pack (ctx_parent K) c) rr (ad l)) ->
  rep h a l -> ad l <> NULL -> rep_seg h a Kr s ->
  h !! s = Some (mkRBNode (pack b sc) (ad sr) NULL) -> aligned s -> s <> NULL ->
  rep h s sr -> ra = seg_top Kr s ->
  h !! ra = Some (mkRBNode pcr rcr tl) -> tl <> NULL ->
  find_successor f ra tl (mkRBTree rt h) = Val ((b, s), mkRBTree rt h) ->
  exists rt' h',
    erase_two_children f a ra (mkRBTree rt h) =
      Val (if is_leaf sr && bool_decide (sc = Black) then seg_parent Kr s else NULL, mkRBTree rt' h') /\
    rep_ctx h' rt' (Kr ++ FR c l s :: K) (ad sr) /\
    rep h' (seg_parent Kr s) (blacken sr) /\
    forall y, y ∉ concat X -> h' !! y = h0 !! y.
Proof.
  intros EK -> ND O HK Ha Al Ca Hl Hln Hseg Cs Als Hs Hsr Era Cr Htl Hfind.
  assert (aligned b) as Alb by (rewrite EK in Hseg; by destruct Hseg).
  unfold erase_two_children, erase_cut_successor. rewrite sbind_assoc. run_get get_left_ok.
  rewrite nonnull_true by done. cbn [negb]. rewrite sbind_assoc, (sbind_Val _ _ _ _ _ Hfind).
  clear Hfind Cr. cbn beta iota. rewrite sbind_assoc. run_get get_right_ok. rewrite sbind_assoc.
  destruct (seg_set_left rt h a c' b w Kr' s (ad sr)) as (h1 & E & Hseg1 & F);
    [by rewrite <- EK|rewrite <- EK; piece_nodup|]. rewrite <- EK in Hseg1, F.
  rewrite (sbind_Val _ _ _ _ _ E). clear E Hseg. cbn beta iota. transport h h1 F. clear F.
  rewrite sbind_assoc. run_upd set_right_ok. rewrite sbind_assoc.
  destruct (seg_reparent rt h2 a (FL c' b w) Kr' (ad sr) s) as (h3 & E & Hseg3 & F);
    [by rewrite <- EK|done|rewrite <- EK; piece_nodup|]. rewrite <- EK in Hseg3, F.
  assert (ra = seg_top Kr (ad sr)) as Era' by (by rewrite Era, EK).
  replace (seg_top (FL c' b w :: Kr') (ad sr)) with ra in E by (by rewrite Era', EK).
  rewrite (sbind_Val _ _ _ _ _ E). clear E Hseg1. cbn beta iota. transport h2 h3 F. clear F.
  rewrite sbind_ret. rewrite Era' in N.
  assert (b = seg_parent Kr s) as Eb by (by rewrite EK). rewrite Eb.
  by eapply put_successor_ok.
Qed.

Lemma two_children_ok rt h K c l a rc rl ra rr Kr sc s sr fuel :
  zrep (mkRBTree rt h) K (Node c l a (Node rc rl ra rr)) -> ad l <> NULL ->
  leftmost rc rl ra rr [] = (Kr, sc, s, sr) -> (length (inorder rl) <= fuel)%nat ->
  exists rt' h',
    erase_two_children fuel a ra (mkRBTree rt h) =
      Val (if is_leaf sr && bool_decide (sc = Black) then seg_parent Kr s else NULL, mkRBTree rt' h') /\
    rep_ctx h' rt' (Kr ++ FR c l s :: K) (ad sr) /\
    rep h' (seg_parent Kr s) (blacken sr) /\
    forall y, y ∉ ctx_addrs K ++ inorder (Node c l a (Node rc rl ra rr)) -> h' !! y = h !! y.
Proof.
  intros Hz Hl Hm Hf.
  destruct (two_children_open _ _ _ _ _ _ _ _ _ _ _ _ _ _ Hz Hm)
    as (ND & P & Hseg & (Als & Hs & Cs & _ & Hsr) & Era).
  destruct Hz as (HK & (Al & Ha & Ca & Hl' & (_ & _ & Cr & Hrl & _)) & _). cbn [cells root ad] in *.
  setoid_rewrite P. clear P.
  apply leftmost_head in Hm as HH. destruct HH as [(-> & -> & ->)|(Hne & c' & b & w & Kr' & ->)].
  - unfold erase_two_children, erase_cut_successor. rewrite sbind_assoc. run_get get_left_ok.
    change (nonnull NULL) with false. cbn [negb]. rewrite sbind_assoc. run_get get_right_ok.
    rewrite sbind_ret. by eapply (put_successor_ok rt h h K c l a _ [] sc ra sr a).
  - eapply two_children_deep; try done.
    + destruct rl; [done|]. by destruct Hrl as (_ & ? & _).
    + destruct rl as [|lc ll la lr]; [done|]. exact (find_successor_ok rt h fuel rc ra rr lc ll la lr [] _ sc s sr Hrl Hf Hm).
Qed.

(** ** [_hev_rbtree_erase] *)

Lemma unlink_inorder K c l a r K' t b :
  unlink K c l a r = (K', t, b) -> inorder (plug K' t) = lefts K ++ inorder l ++ inorder r ++ rights K.
Proof.
  unfold unlink. destruct l as [|lc ll la lr], r as [|rc rl ra rr]; try (intros [= <- <- <-];
    rewrite inorder_plug, ?inorder_recolor; app_norm; done).
  destruct (leftmost rc rl ra rr []) as [[[Kr sc] s] sr] eqn:Hm. intros [= <- <- <-].
  apply leftmost_spec in Hm as (Kr' & E & E2 & EL). rewrite app_nil_r in E. subst Kr'.
  rewrite <- E2, !inorder_plug, lefts_app, rights_app, inorder_recolor, EL. app_norm. done.
Qed.

Ltac null_false :=
  change (nonnull (ad Leaf)) with false; change (nonnull NULL) with false; cbn [negb].

(** The node has no child, a right child, a left child. *)
Lemma unlink_leaf rt h K c a fuel :
  zrep (mkRBTree rt h) K (Node c Leaf a Leaf) -> NoDup (ctx_addrs K ++ inorder Leaf) ->
  done_with (_hev_rbtree_erase fuel a) (mkRBTree rt h) (ctx_addrs K ++ inorder (Node c Leaf a Leaf))
    (if bool_decide (c = Black) then ctx_parent K else NULL) K Leaf.
Proof.
  intros Hz ND'. open_zrep Hz. pose proof (ctx_parent_aligned _ _ _ _ HK).
  pieces [ctx_addrs K; [a]]. unfold _hev_rbtree_erase. run_get get_right_ok. run_get get_left_ok.
  null_false. run_get get_pc_ok.
  unfold _hev_rbtree_node_parent, _hev_rbtree_node_is_black, HEV_RBTREE_BLACK.
  rewrite pack_parent, pack_color by done. run_change_child K.
  do 2 eexists. split; [by destruct c|]. by split; [split|].
Qed.

Lemma unlink_right rt h K c a rc rl ra rr fuel (r := Node rc rl ra rr) :
  zrep (mkRBTree rt h) K (Node c Leaf a r) -> NoDup (ctx_addrs K ++ inorder (recolor c r)) ->
  done_with (_hev_rbtree_erase fuel a) (mkRBTree rt h) (ctx_addrs K ++ inorder (Node c Leaf a r))
    NULL K (recolor c r).
Proof.
  intros Hz ND'. subst r. open_zrep Hz. pose proof (ctx_parent_aligned _ _ _ _ HK).
  pieces [ctx_addrs K; [a]; inorder rl; [ra]; inorder rr]. unfold _hev_rbtree_erase.
  run_get get_right_ok. run_get get_left_ok.
  null_false. run_get get_pc_ok.
  unfold _hev_rbtree_node_parent. rewrite pack_parent by done. run_change_child K.
  rewrite nonnull_true by done. run_upd set_pc_ok.
  do 2 eexists. split; [done|]. split; [|done]. split; [done|]. split; [|done].
  cbn. repeat first [assumption | split].
Qed.

Lemma unlink_left rt h K c lc ll la lr a fuel (l := Node lc ll la lr) :
  zrep (mkRBTree rt h) K (Node c l a Leaf) -> NoDup (ctx_addrs K ++ inorder (recolor c l)) ->
  done_with (_hev_rbtree_erase fuel a) (mkRBTree rt h) (ctx_addrs K ++ inorder (Node c l a Leaf))
    NULL K (recolor c l).
Proof.
  intros Hz ND'. subst l. open_zrep Hz. pose proof (ctx_parent_aligned _ _ _ _ HK).
  pieces [ctx_addrs K; inorder ll; [la]; inorder lr; [a]]. unfold _hev_rbtree_erase.
  run_get get_right_ok. run_get get_left_ok. rewrite nonnull_true by done.
  null_false. run_get get_pc_ok. run_upd set_pc_ok.
  unfold _hev_rbtree_node_parent. rewrite pack_parent by done. run_change_child K.
  do 2 eexists. split; [done|]. split; [|done]. split; [done|]. split; [|done].
  cbn. repeat first [assumption | split].
Qed.

Lemma unlink_ok s K c l a r K' t b fuel :
  zrep s K (Node c l a r) -> unlink K c l a r = (K', t, b) -> (length (inorder r) <= fuel)%nat ->
  done_with (_hev_rbtree_erase fuel a) s (ctx_addrs K ++ inorder (Node c l a r))
    (if b then ctx_parent K' else NULL) K' t.
Proof.
  intros Hz Hu Hf. destruct s as [rt h].
  assert (NoDup (ctx_addrs K' ++ inorder t)) as ND'.
  { apply nodup_zip. rewrite (unlink_inorder _ _ _ _ _ _ _ _ Hu).
    destruct Hz as (_ & _ & ND). apply nodup_zip in ND. rewrite inorder_plug in ND.
    eapply sublist_NoDup; [exact ND|]. cbn. rewrite <- !app_assoc.
    apply sublist_app; [done|]. apply sublist_app; [done|]. by apply sublist_cons. }
  unfold unlink in Hu.
  destruct l as [|lc ll la lr]; [destruct r as [|rc rl ra rr]|destruct r as [|rc rl ra rr]].
  - injection Hu as <- <- <-. by apply unlink_leaf.
  - injection Hu as <- <- <-. by apply unlink_right.
  - injection Hu as <- <- <-. by apply unlink_left.
  - destruct (leftmost rc rl ra rr []) as [[[Kr sc] x] sr] eqn:Hm. injection Hu as <- <- <-.
    pose proof Hz as (_ & (Al & Ha & Ca & (_ & Hla & _) & (_ & Hra & _)) & _).
    destruct (two_children_ok rt h K c _ a rc rl ra rr Kr sc x sr fuel Hz Hla Hm)
      as (rt' & h' & E & R1 & R2 & O); [cbn in Hf; rewrite length_app in Hf; lia|].
    assert (seg_parent Kr x = ctx_parent (Kr ++ FR c (Node lc ll la lr) x :: K)) as EP
      by (by destruct Kr).
    exists (mkRBTree rt' h'). split; [|split; [|exact O]].
    + unfold _hev_rbtree_erase. run_get get_right_ok. run_get get_left_ok.
      rewrite !nonnull_true by done. cbn [negb ad]. by rewrite E, EP.
    + split; [by rewrite ad_recolor|]. split; [by rewrite <- EP|done].
Qed.

(** ** The invariant after the splice *)

Lemma plug_app Kr K t : plug (Kr ++ K) t = plug K (plug Kr t).
Proof. revert t. induction Kr as [|f Kr IH]; intros t; [done|]. cbn. by rewrite IH. Qed.

(** The invariant of a context does not depend on its addresses. *)
Lemma ctx_rb_addr Kr c l a b K n :
  ctx_rb (Kr ++ FR c l a :: K) n -> ctx_rb (Kr ++ FR c l b :: K) n.
Proof.
  revert n. induction Kr as [|f Kr IH]; intros n; [done|].
  rewrite <- !app_comm_cons, !ctx_rb_cons. intros (H1 & H2 & H3). split; [done|]. split; [auto|].
  intros E. destruct (H3 E) as [H4 H5]. split; [done|]. by destruct Kr.
Qed.

(** A subtree without black nodes is a leaf or a red node with two leaves. *)
Lemma rb_0 t : rb t 0 -> t = Leaf \/ exists a, t = Node Red Leaf a Leaf.
Proof.
  destruct t as [|[] l a r]; cbn; [by left| |done]. intros (Hl & Hr & Hl0 & Hr0). right.
  destruct l as [|[] ? ? ?], r as [|[] ? ? ?]; try done. by exists a.
Qed.

Lemma unlink_rb K c l a r K' t b :
  rbtree (plug K (Node c l a r)) -> unlink K c l a r = (K', t, b) ->
  exists T, (if b then erase_fix K' t else Some (plug K' t)) = Some T /\ rbtree T.
Proof.
  intros Hrb Hu. destruct (unplug_rb _ _ Hrb) as (n & HK & Hn & Hc). unfold unlink in Hu.
  destruct l as [|lc ll la lr]; [destruct r as [|rc rl ra rr]|destruct r as [|rc rl ra rr]].
  - injection Hu as <- <- <-. destruct c; cbn in Hn.
    + rewrite bool_decide_eq_false_2 by done. destruct Hn as (_ & _ & -> & _).
      exists (plug K Leaf). split; [done|]. eapply plug_rb; [done..|by left].
    + rewrite bool_decide_eq_true_2 by done. destruct n as [|n]; [done|]. destruct Hn as [-> _].
      by eapply erase_fix_rb.
  - injection Hu as <- <- <-. exists (plug K (recolor c (Node rc rl ra rr))). split; [done|].
    destruct c; cbn [rb] in Hn.
    + destruct Hn as (_ & Hr & -> & Hn). apply (rb_0 (Node rc rl ra rr)) in Hn as [|[? E]]; [done|by simplify_eq].
    + destruct n as [|n]; [done|]. destruct Hn as [-> Hn].
      apply (rb_0 (Node rc rl ra rr)) in Hn as [|[? E]]; [done|]. rewrite E.
      eapply plug_rb; [done|by cbn|by left].
  - injection Hu as <- <- <-. exists (plug K (recolor c (Node lc ll la lr))). split; [done|].
    destruct c; cbn [rb] in Hn.
    + destruct Hn as (Hl & _ & Hn & ->). apply (rb_0 (Node lc ll la lr)) in Hn as [|[? E]]; [done|by simplify_eq].
    + destruct n as [|n]; [done|]. destruct Hn as [Hn ->].
      apply (rb_0 (Node lc ll la lr)) in Hn as [|[? E]]; [done|]. rewrite E.
      eapply plug_rb; [done|by cbn|by left].
  - destruct (leftmost rc rl ra rr []) as [[[Kr sc] x] sr] eqn:Hm. injection Hu as <- <- <-.
    apply leftmost_spec in Hm as (Kr' & E & E2 & _). rewrite app_nil_r in E. subst Kr'.
    assert (rbtree (plug (Kr ++ FR c (Node lc ll la lr) a :: K) (Node sc Leaf x sr))) as Hrb2
      by (rewrite plug_app, E2; exact Hrb).
    clear HK Hn Hc n. destruct (unplug_rb _ _ Hrb2) as (n & HK & Hn & Hc).
    apply (ctx_rb_addr _ _ _ _ x) in HK. destruct sc; cbn in Hn.
    + destruct Hn as (_ & Hs & -> & Hsr). apply rb_0 in Hsr as [->|[? ->]]; [|done].
      eexists. split; [reflexivity|]. eapply plug_rb; [done..|by left].
    + destruct n as [|n]; [done|]. destruct Hn as [-> Hsr]. apply rb_0 in Hsr as [->|[? ->]].
      * by eapply erase_fix_rb.
      * eexists. split; [reflexivity|]. eapply plug_rb; [done|by cbn|by left].
Qed.

(** The loop starts at a missing child. *)
Lemma unlink_leaf_focus K c l a r K' t : unlink K c l a r = (K', t, true) -> t = Leaf.
Proof.
  unfold unlink. destruct l as [|lc ll la lr], r as [|rc rl ra rr]; try (intros; by simplify_eq).
  destruct (leftmost rc rl ra rr []) as [[[Kr sc] x] sr]. intros [= _ <- E].
  destruct sr; [done|]. done.
Qed.

Lemma length_ctx_addrs K : (length K <= length (ctx_addrs K))%nat.
Proof. induction K as [|[] K IH]; cbn; rewrite ?length_app; lia. Qed.

Lemma erase_ok fuel s K c l a r :
  rbtree (plug K (Node c l a r)) -> trep s (plug K (Node c l a r)) ->
  (length (inorder (plug K (Node c l a r))) <= fuel)%nat ->
  exists s' T,
    hev_rbtree_erase fuel a s = Val (tt, s') /\ trep s' T /\ rbtree T /\
    inorder T = lefts K ++ inorder l ++ inorder r ++ rights K /\
    forall y, y ∉ inorder (plug K (Node c l a r)) -> cells s' !! y = cells s !! y.
Proof.
  intros Hrb Ht Hf. apply zrep_plug in Ht as Hz.
  destruct (unlink K c l a r) as [[K' t] b] eqn:Hu.
  pose proof (unlink_inorder _ _ _ _ _ _ _ _ Hu) as EI.
  destruct (unlink_rb _ _ _ _ _ _ _ _ Hrb Hu) as (T & HT & RT).
  destruct (unlink_ok s K c l a r K' t b fuel Hz Hu) as (s1 & E1 & Z1 & O1).
  { rewrite inorder_plug, !length_app in Hf. cbn in Hf. rewrite length_app in Hf. cbn in Hf. lia. }
  assert (inorder T = inorder (plug K' t)) as ET
    by (destruct b; [by apply erase_fix_inorder|by injection HT as <-]).
  rewrite ctx_addrs_perm in O1.
  enough (exists s', swhen (nonnull (if b then ctx_parent K' else NULL))
      (_hev_rbtree_erase_color fuel (if b then ctx_parent K' else NULL)) s1 = Val (tt, s') /\
    trep s' T /\ same_outside (inorder (plug K' t)) s1 s') as (s' & E & HT' & O).
  { exists s', T. split; [unfold hev_rbtree_erase; by rewrite (sbind_Val _ _ _ _ _ E1)|].
    do 2 (split; [done|]). split; [by rewrite ET|]. intros y Hy. rewrite O; [by apply O1|].
    intros C. apply Hy. rewrite EI in C. rewrite inorder_plug. cbn.
    rewrite !elem_of_app, elem_of_cons in *. tauto. }
  destruct b.
  - rewrite (unlink_leaf_focus _ _ _ _ _ _ _ Hu) in *. destruct K' as [|f K'].
    { injection HT as <-. by exists s1. }
    pose proof Z1 as (HK & _). apply rep_ctx_cons in HK as (_ & Hn & _).
    cbn [ctx_parent]. rewrite nonnull_true by done.
    apply (erase_color_loop_refines fuel (f :: K') s1 Leaf T Z1); [done|done|].
    pose proof (length_ctx_addrs (f :: K')) as HL.
    assert (length (inorder (plug (f :: K') Leaf)) < length (inorder (plug K (Node c l a r))))%nat.
    { rewrite EI, inorder_plug, !length_app. cbn. rewrite !length_app. cbn. lia. }
    assert (length (inorder (plug (f :: K') Leaf)) = length (ctx_addrs (f :: K')))
      by (rewrite <- ctx_addrs_perm; by rewrite app_nil_r). lia.
  - injection HT as <-. exists s1. split; [done|]. split; [|done]. exact (proj1 (zrep_plug _ _ _) Z1).
Qed.

(** C3: [hev_rbtree_erase] of any node of a valid tree never faults, keeps the
    red-black invariant, removes exactly that node from the order, and writes to no
    cell outside the tree. *)
Theorem rbtree_erase_correct fuel s K c l a r :
  rbtree (plug K (Node c l a r)) -> trep s (plug K (Node c l a r)) ->
  (length (inorder (plug K (Node c l a r))) <= fuel)%nat ->
  exists s' T,
    hev_rbtree_erase fuel a s = Val (tt, s') /\ trep s' T /\ rbtree T /\
    inorder T = lefts K ++ inorder l ++ inorder r ++ rights K /\
    forall y, y ∉ inorder (plug K (Node c l a r)) -> cells s' !! y = cells s !! y.
Proof. apply erase_ok. Qed.

(** Removing 8, a node with two children, from 4 - 8 - 16 - (12): the successor 12
    lies deeper than the right child. *)
Definition example_erase_store : HevRBTree :=
  mkRBTree 8 (<[8 := mkRBNode (pack NULL Black) 16 4]>
             (<[4 := mkRBNode (pack 8 Black) NULL NULL]>
             (<[16 := mkRBNode (pack 8 Black) NULL 12]>
             (<[12 := mkRBNode (pack 16 Red) NULL NULL]> ∅)))).

Lemma rbtree_erase_correct_witness :
  exists s' T,
    hev_rbtree_erase 4 8 example_erase_store = Val (tt, s') /\ trep s' T /\ rbtree T /\
    inorder T = [4; 12; 16] /\
    forall y, y ∉ [4; 8; 12; 16] -> cells s' !! y = cells example_erase_store !! y.
Proof.
  apply (rbtree_erase_correct 4 example_erase_store [] Black (Node Black Leaf 4 Leaf) 8
    (Node Black (Node Red Leaf 12 Leaf) 16 Leaf)).
  - split; [done|]. exists 2%nat. by cbn.
  - unfold trep, zrep. cbn. split_and!; try done.
    apply (bool_decide_unpack _). by vm_compute.
  - cbn. lia.
Defined.

End RBTreeUnlink.
