(* ===== verification/RBTreeIter.v ===== *)
(** * Red-black trees: traversal and replacement

    [hev_rbtree_first], [_last], [_node_next] and [_node_prev] walk the order of the
    tree; [hev_rbtree_replace] substitutes one node for another in place. *)

From Stdlib Require Import ZArith Lia.
From stdpp Require Import base list gmap numbers.
From S2P Require Import Prelude RBTree RBTreeRep RBTreeExec.
Import list_basics.list list_relations.list list_monad.list list_misc.list.
Import RBTree RBTreeRep RBTreeExec.

Module RBTreeIter.

(** First and last node of an order, [NULL] when there is none. *)
Definition first_of (l : list Z) : Z := hd NULL l.
Definition last_of (l : list Z) : Z := List.last l NULL.

Lemma first_of_app l l' : l <> [] -> first_of (l ++ l') = first_of l.
Proof. by destruct l. Qed.

Lemma last_of_app l a : last_of (l ++ [a]) = a.
Proof. apply List.last_last. Qed.

Lemma last_of_app_r l l' : l' <> [] -> last_of (l ++ l') = last_of l'.
Proof.
  intros H. destruct (exists_last H) as (l1 & a & ->). by rewrite app_assoc, !last_of_app.
Qed.

Section walk.
Context (rt : Z) (h : gmap Z HevRBTreeNode).

Lemma go_left_ok fuel par c l a r :
  rep h par (Node c l a r) -> (length (inorder (Node c l a r)) <= fuel)%nat ->
  go_left fuel a (mkRBTree rt h) = Val (first_of (inorder (Node c l a r)), mkRBTree rt h).
Proof.
  revert fuel par c a r. induction l as [|lc ll IH la lr _]; intros fuel par c a r (_ & _ & C & Hl & _) Hf;
    (destruct fuel as [|fuel]; [cbn in Hf; rewrite ?length_app in Hf; cbn in Hf; lia|]);
    cbn [go_left]; run_get get_left_ok.
  - done.
  - pose proof Hl as (_ & Hn & _). rewrite nonnull_true by done. cbn [ad].
    rewrite (IH fuel a lc la lr Hl).
    + cbn [inorder]. by rewrite (first_of_app (_ ++ _)) by (by destruct (inorder ll)).
    + cbn in Hf |- *. rewrite !length_app in *. cbn in *. rewrite ?length_app in *. cbn in *. lia.
Qed.

Lemma go_right_ok fuel par c l a r :
  rep h par (Node c l a r) -> (length (inorder (Node c l a r)) <= fuel)%nat ->
  go_right fuel a (mkRBTree rt h) = Val (last_of (inorder (Node c l a r)), mkRBTree rt h).
Proof.
  revert fuel par c l a. induction r as [|rc rl _ ra rr IH]; intros fuel par c l a (_ & _ & C & _ & Hr) Hf;
    (destruct fuel as [|fuel]; [cbn in Hf; rewrite ?length_app in Hf; cbn in Hf; lia|]);
    cbn [go_right]; run_get get_right_ok.
  - cbn [inorder]. by rewrite last_of_app.
  - pose proof Hr as (_ & Hn & _). rewrite nonnull_true by done. cbn [ad].
    rewrite (IH fuel a rc rl ra Hr).
    + cbn [inorder]. rewrite (last_of_app_r (inorder l)) by done.
      change (a :: inorder rl ++ ra :: inorder rr) with ([a] ++ (inorder rl ++ ra :: inorder rr)).
      rewrite (last_of_app_r [a]); [done|]. by destruct (inorder rl).
    + cbn in Hf |- *. rewrite !length_app in *. cbn in *. rewrite ?length_app in *. cbn in *. lia.
Qed.

End walk.

(** ** Climbing to the next node of the order *)

(** The focus is not the root of its sibling. *)
Lemma focus_ne_sib s f K t :
  zrep s (f :: K) t -> ad t <> NULL -> (ad t =? ad (frame_sib f)) = false.
Proof.
  intros (_ & _ & ND) Ht. apply ad_ne; [|done]. intros y H1 H2.
  assert (NoDup (frame_addr f :: (inorder (frame_sib f) ++ ctx_addrs K) ++ inorder t)) as D
    by (by destruct f).
  apply NoDup_cons in D as [_ (_ & D & _)%NoDup_app]. apply (D y); [apply elem_of_app; by left|done].
Qed.

Lemma focus_parent rt h K c l a r :
  zrep (mkRBTree rt h) K (Node c l a r) ->
  hev_rbtree_node_parent a (mkRBTree rt h) = Val (ctx_parent K, mkRBTree rt h).
Proof.
  intros (HK & (_ & _ & C & _) & _). eapply node_parent_ok; [exact C|].
  by eapply ctx_parent_aligned.
Qed.

Lemma climb_right_ok rt h fuel K t :
  zrep (mkRBTree rt h) K t -> ad t <> NULL -> (length K < fuel)%nat ->
  climb_right fuel (ad t) (mkRBTree rt h) = Val (first_of (rights K), mkRBTree rt h).
Proof.
  revert fuel t. induction K as [|f K IH]; intros fuel t Hz Ht Hf; (destruct fuel as [|fuel]; [lia|]);
    cbn [climb_right]; destruct t as [|c l a r]; try done; cbn [ad];
    rewrite (sbind_Val _ _ _ _ _ (focus_parent _ _ _ _ _ _ _ Hz)); [done|].
  pose proof Hz as (HK & _). apply rep_ctx_cons in HK as (_ & Hn & C & _). cbn [cells root] in C.
  cbn [ctx_parent]. rewrite nonnull_true by done.
  destruct f as [fc p w|fc w p]; cbn [frame_addr frame_cell] in *; run_get get_right_ok.
  - rewrite (focus_ne_sib _ _ _ _ Hz Ht : (a =? ad w) = false). done.
  - cbn [ad]. rewrite Z.eqb_refl. apply zrep_frame_iff in Hz.
    apply (IH fuel _ Hz); [done|cbn in Hf; lia].
Qed.

Lemma climb_left_ok rt h fuel K t :
  zrep (mkRBTree rt h) K t -> ad t <> NULL -> (length K < fuel)%nat ->
  climb_left fuel (ad t) (mkRBTree rt h) = Val (last_of (lefts K), mkRBTree rt h).
Proof.
  revert fuel t. induction K as [|f K IH]; intros fuel t Hz Ht Hf; (destruct fuel as [|fuel]; [lia|]);
    cbn [climb_left]; destruct t as [|c l a r]; try done; cbn [ad];
    rewrite (sbind_Val _ _ _ _ _ (focus_parent _ _ _ _ _ _ _ Hz)); [done|].
  pose proof Hz as (HK & _). apply rep_ctx_cons in HK as (_ & Hn & C & _). cbn [cells root] in C.
  cbn [ctx_parent]. rewrite nonnull_true by done.
  destruct f as [fc p w|fc w p]; cbn [frame_addr frame_cell] in *; run_get get_left_ok.
  - cbn [ad]. rewrite Z.eqb_refl. apply zrep_frame_iff in Hz.
    apply (IH fuel _ Hz); [done|cbn in Hf; lia].
  - rewrite (focus_ne_sib _ _ _ _ Hz Ht : (a =? ad w) = false). cbn [lefts].
    by rewrite app_assoc, last_of_app.
Qed.

(** A node of the tree is never mistaken for an unlinked one. *)
Lemma node_not_empty rt h K c l a r :
  zrep (mkRBTree rt h) K (Node c l a r) ->
  hev_rbtree_node_empty a (mkRBTree rt h) = Val (false, mkRBTree rt h).
Proof.
  intros (HK & (Al & Ha & C & _) & ND). unfold hev_rbtree_node_empty. run_get get_pc_ok.
  pose proof (ctx_parent_aligned _ _ _ _ HK) as AlK. unfold sret. do 2 f_equal.
  apply Z.eqb_neq. intros E.
  assert (ctx_parent K = a) as EK.
  { rewrite <- (pack_parent (ctx_parent K) c AlK), E.
    transitivity (Z.land (pack a Red) (Z.lnot 3)); [by rewrite pack_red|by apply pack_parent]. }
  destruct K as [|f K]; cbn in EK; [by rewrite <- EK in Ha|].
  apply NoDup_app in ND as (_ & D & _). apply (D a).
  - rewrite <- EK. destruct f; left.
  - cbn. apply elem_of_app. right. left.
Qed.

(** Room for a walk: the fuel covers every node of the tree. *)
Lemma length_plug K c l a r :
  (length K + length (inorder (Node c l a r)) <= length (inorder (plug K (Node c l a r))))%nat.
Proof.
  rewrite <- ctx_addrs_perm, length_app.
  assert (length K <= length (ctx_addrs K))%nat; [|lia].
  induction K as [|[] K IH]; cbn; rewrite ?length_app; lia.
Qed.

(** [hev_rbtree_node_next] returns the successor of a node in the order of the tree,
    [NULL] at the end, and changes nothing. *)
Lemma next_ok fuel s K c l a r :
  trep s (plug K (Node c l a r)) -> (length (inorder (plug K (Node c l a r))) <= fuel)%nat ->
  hev_rbtree_node_next fuel a s = Val (first_of (inorder r ++ rights K), s).
Proof.
  intros Hz Hf. apply zrep_plug in Hz. destruct s as [rt h]. unfold hev_rbtree_node_next.
  pose proof (length_plug K c l a r) as HL. cbn [inorder] in HL. rewrite length_app in HL. cbn in HL.
  rewrite (sbind_Val _ _ _ _ _ (node_not_empty _ _ _ _ _ _ _ Hz)).
  pose proof Hz as (HK & (_ & Ha & C & _ & Hr) & _). run_get get_right_ok.
  destruct r as [|rc rl ra rr].
  - change (nonnull (ad Leaf)) with false. cbn [app inorder].
    apply (climb_right_ok rt h fuel K _ Hz Ha). lia.
  - pose proof Hr as (_ & Hn & _). rewrite nonnull_true by done. cbn [ad].
    rewrite (go_left_ok rt h fuel a rc rl ra rr Hr) by lia.
    rewrite first_of_app; [done|]. cbn. by destruct (inorder rl).
Qed.

Theorem rbtree_prev_ok fuel s K c l a r :
  trep s (plug K (Node c l a r)) -> (length (inorder (plug K (Node c l a r))) <= fuel)%nat ->
  hev_rbtree_node_prev fuel a s = Val (last_of (lefts K ++ inorder l), s).
Proof.
  intros Hz Hf. apply zrep_plug in Hz. destruct s as [rt h]. unfold hev_rbtree_node_prev.
  pose proof (length_plug K c l a r) as HL. cbn [inorder] in HL. rewrite length_app in HL. cbn in HL.
  rewrite (sbind_Val _ _ _ _ _ (node_not_empty _ _ _ _ _ _ _ Hz)).
  pose proof Hz as (HK & (_ & Ha & C & Hl & _) & _). run_get get_left_ok.
  destruct l as [|lc ll la lr].
  - change (nonnull (ad Leaf)) with false. cbn [app inorder]. rewrite app_nil_r.
    apply (climb_left_ok rt h fuel K _ Hz Ha). lia.
  - pose proof Hl as (_ & Hn & _). rewrite nonnull_true by done. cbn [ad].
    rewrite (go_right_ok rt h fuel a lc ll la lr Hl) by lia.
    rewrite last_of_app_r; [done|]. cbn. by destruct (inorder ll).
Qed.

Theorem rbtree_first_ok fuel s t :
  trep s t -> (length (inorder t) <= fuel)%nat ->
  hev_rbtree_first fuel s = Val (first_of (inorder t), s).
Proof.
  intros (HK & HT & _) Hf. destruct s as [rt h]. cbn in HK. subst rt.
  unfold hev_rbtree_first. rewrite (sbind_Val _ _ _ (ad t) (mkRBTree (ad t) h)) by done.
  destruct t as [|c l a r]; [done|]. pose proof HT as (_ & Hn & _). rewrite nonnull_true by done.
  by apply (go_left_ok _ h fuel NULL c l a r HT).
Qed.

Theorem rbtree_last_ok fuel s t :
  trep s t -> (length (inorder t) <= fuel)%nat ->
  hev_rbtree_last fuel s = Val (last_of (inorder t), s).
Proof.
  intros (HK & HT & _) Hf. destruct s as [rt h]. cbn in HK. subst rt.
  unfold hev_rbtree_last. rewrite (sbind_Val _ _ _ (ad t) (mkRBTree (ad t) h)) by done.
  destruct t as [|c l a r]; [done|]. pose proof HT as (_ & Hn & _). rewrite nonnull_true by done.
  by apply (go_right_ok _ h fuel NULL c l a r HT).
Qed.

(** ** Replacement *)

Lemma get_ok rt h a n : h !! a = Some n -> get a (mkRBTree rt h) = Val (n, mkRBTree rt h).
Proof. intros H. unfold get. cbn. by rewrite H. Qed.

(** [hev_rbtree_replace]: [new] stands where [victim] stood. *)
Theorem rbtree_replace_ok s K c l victim r new n0 :
  trep s (plug K (Node c l victim r)) -> cells s !! new = Some n0 -> aligned new -> new <> NULL ->
  new ∉ inorder (plug K (Node c l victim r)) ->
  exists s', hev_rbtree_replace victim new s = Val (tt, s') /\
    trep s' (plug K (Node c l new r)) /\
    forall y, y ∉ new :: inorder (plug K (Node c l victim r)) -> cells s' !! y = cells s !! y.
Proof.
  intros Hz Hn Al Hnn Hin. apply zrep_plug in Hz. destruct s as [rt h]. cbn [cells] in Hn |- *.
  rewrite <- ctx_addrs_perm in Hin. open_zrep Hz. pose proof (ctx_parent_aligned _ _ _ _ HK).
  assert (NoDup (concat [[new]; ctx_addrs K; inorder l; [victim]; inorder r])) as ND.
  { cbn. rewrite app_nil_r. apply NoDup_cons. split; [exact Hin|exact ND0]. }
  assert (forall h0 : gmap Z HevRBTreeNode,
    (forall y, y ∉ concat [[new]; ctx_addrs K; inorder l; [victim]; inorder r] -> h !! y = h0 !! y) ->
    exists rt' h', hev_rbtree_replace victim new (mkRBTree rt h) = Val (tt, mkRBTree rt' h') /\
      rep_ctx h' rt' K new /\ rep h' (ctx_parent K) (Node c l new r) /\
      forall y, y ∉ concat [[new]; ctx_addrs K; inorder l; [victim]; inorder r] -> h' !! y = h0 !! y)
    as Run.
  { intros h0 O. unfold hev_rbtree_replace. run_get node_parent_ok. run_get get_ok. run_upd put_upd.
    run_get get_left_ok. run_reparent l. run_get get_right_ok. run_reparent r.
    rewrite <- sbind_ret_r. run_change_child K. do 2 eexists. split; [done|]. split; [done|].
    split; [|done]. cbn. repeat first [assumption | split]. }
  destruct (Run h) as (rt' & h' & E & R1 & R2 & O); [done|]. exists (mkRBTree rt' h').
  split; [done|]. split.
  - apply (zrep_plug _ K (Node c l new r)). split; [done|]. split; [done|].
    assert (ctx_addrs K ++ inorder (Node c l new r) ≡ₚ [new] ++ ctx_addrs K ++ inorder l ++ inorder r)
      as -> by (cbn; solve_Permutation).
    eapply sublist_NoDup; [exact ND|]. cbn. rewrite app_nil_r. apply sublist_skip.
    do 2 (apply sublist_app; [done|]). by apply sublist_cons.
  - intros y Hy. apply O. rewrite <- ctx_addrs_perm in Hy. cbn in Hy |- *. by rewrite app_nil_r.
Qed.

End RBTreeIter.
