(* ===== verification/RBTreeSearch.v ===== *)
(** * Search trees over the red-black tree

    The owners of an [HevRBTree] (the mapped names, the authenticator's users)
    descend it with the same loop: a negative comparison of the node's key with the
    searched key goes left, a positive one goes right.  [KeyOrder] is what such a
    comparison has to promise; the search, the insertion where it ended and the
    removal of a node are specified against it once for all owners. *)

From Stdlib Require Import ZArith Lia Sorted.
From stdpp Require Import base list gmap numbers.
From S2P Require Import Prelude RBTree RBTreeRep RBTreeExec RBTreeInsert RBTreeUnlink RBTreeIter.
Import list_basics.list list_relations.list list_monad.list list_misc.list.
Import RBTree RBTreeRep RBTreeExec RBTreeInsert RBTreeUnlink RBTreeIter.

Module RBTreeSearch.

(** ** Comparisons *)

(** A three-way comparison in the style of [strcmp]: only the sign counts. *)
Class KeyOrder (A : Type) := {
  kcmp : A -> A -> Z;
  kcmp_eq a b : kcmp a b = 0 <-> a = b;
  kcmp_lt_gt a b : kcmp a b < 0 <-> kcmp b a > 0;
  kcmp_trans a b c : kcmp a b < 0 -> kcmp b c < 0 -> kcmp a c < 0;
}.

(** [memcmp] on equally long byte strings; [strcmp] on strings without NUL. *)
Fixpoint bytes_cmp (a b : bytes) : Z :=
  match a, b with
  | [], [] => 0
  | [], _ :: _ => -1
  | _ :: _, [] => 1
  | x :: a, y :: b => if x =? y then bytes_cmp a b else x - y
  end.

Lemma bytes_cmp_eq a b : bytes_cmp a b = 0 <-> a = b.
Proof.
  revert b. induction a as [|x a IH]; intros [|y b]; cbn; try (split; (done || lia)).
  destruct (Z.eqb_spec x y) as [->|]; [rewrite IH|]; split; intros E; try congruence; try lia.
Qed.

Lemma bytes_cmp_lt_gt a b : bytes_cmp a b < 0 <-> bytes_cmp b a > 0.
Proof.
  revert b. induction a as [|x a IH]; intros [|y b]; cbn; try lia.
  destruct (Z.eqb_spec x y), (Z.eqb_spec y x); try lia. apply IH.
Qed.

Lemma bytes_cmp_trans a b c : bytes_cmp a b < 0 -> bytes_cmp b c < 0 -> bytes_cmp a c < 0.
Proof.
  revert b c. induction a as [|x a IH]; intros [|y b] [|z c]; cbn; try lia.
  destruct (Z.eqb_spec x y), (Z.eqb_spec y z), (Z.eqb_spec x z); try lia. apply IH.
Qed.

#[export] Instance bytes_order : KeyOrder bytes := {
  kcmp := bytes_cmp;
  kcmp_eq := bytes_cmp_eq;
  kcmp_lt_gt := bytes_cmp_lt_gt;
  kcmp_trans := bytes_cmp_trans;
}.

(** ** The search loop

    [cmp a] is the value of [res] for the node at [a]; [cur] is [*new], [lk] is
    [new].  The result is the node found ([NULL] if none), [parent] and [new]. *)
Fixpoint search_loop (fuel : nat) (cmp : Z -> outcome Z) (cur parent : Z) (lk : link)
  : RB (Z * Z * link) :=
  if negb (nonnull cur) then sret (NULL, parent, lk)
  else
    match fuel with
    | O => sfault
    | S fuel =>
        do! res := (fun s => let! r := cmp cur in Val (r, s)) in
        let parent := cur in
        if res <? 0 then
          do! l := get_left cur in search_loop fuel cmp l parent (LLeft cur)
        else if res >? 0 then
          do! r := get_right cur in search_loop fuel cmp r parent (LRight cur)
        else sret (cur, parent, lk)
    end.

(** The same descent on an abstract tree. *)
Fixpoint locate (cmp : Z -> Z) (K : list frame) (t : tree) : list frame * tree :=
  match t with
  | Leaf => (K, Leaf)
  | Node c l a r =>
      if cmp a <? 0 then locate cmp (FL c a r :: K) l
      else if cmp a >? 0 then locate cmp (FR c l a :: K) r
      else (K, t)
  end.

Lemma locate_plug cmp K t : plug (fst (locate cmp K t)) (snd (locate cmp K t)) = plug K t.
Proof.
  revert K. induction t as [|c l IHl a r IHr]; intros K; cbn; [done|].
  destruct (cmp a <? 0); [by rewrite IHl|]. destruct (cmp a >? 0); [by rewrite IHr|done].
Qed.

Lemma locate_found cmp K t c l a r :
  snd (locate cmp K t) = Node c l a r -> cmp a = 0.
Proof.
  revert K. induction t as [|c' l' IHl a' r' IHr]; intros K; cbn; [done|].
  destruct (Z.ltb_spec (cmp a') 0); [apply IHl|]. rewrite Z.gtb_ltb.
  destruct (Z.ltb_spec 0 (cmp a')); [apply IHr|]. intros [= _ _ -> _]. lia.
Qed.

(** What the search returns besides the node. *)
Definition search_parent (z : list frame * tree) : Z :=
  match snd z with Leaf => ctx_parent (fst z) | Node _ _ a _ => a end.

Lemma search_loop_ok rt h fuel cmp f K t :
  zrep (mkRBTree rt h) K t -> (forall a, a ∈ inorder t -> cmp a = Val (f a)) ->
  (length (inorder t) <= fuel)%nat ->
  search_loop fuel cmp (ad t) (ctx_parent K) (ctx_link K) (mkRBTree rt h) =
    Val ((ad (snd (locate f K t)), search_parent (locate f K t), ctx_link (fst (locate f K t))),
         mkRBTree rt h).
Proof.
  revert fuel K. induction t as [|c l IHl a r IHr]; intros fuel K Hz Hc Hf.
  { by destruct fuel. }
  pose proof Hz as (_ & (_ & Ha & C & _) & _). cbn [ad].
  destruct fuel as [|fuel]; [cbn in Hf; rewrite length_app in Hf; cbn in Hf; lia|].
  cbn in Hf. rewrite length_app in Hf. cbn in Hf.
  cbn [search_loop]. rewrite nonnull_true by done. cbn [negb].
  rewrite (sbind_Val _ _ _ (f a) (mkRBTree rt h))
    by (rewrite Hc; [done|cbn; apply elem_of_app; right; left]).
  cbn [locate]. destruct (f a <? 0).
  - run_get get_left_ok. apply (IHl fuel (FL c a r :: K)); [by apply zrep_frame_iff| |lia].
    intros b Hb. apply Hc. cbn. apply elem_of_app. by left.
  - destruct (f a >? 0); [|done]. run_get get_right_ok.
    apply (IHr fuel (FR c l a :: K)); [by apply zrep_frame_iff| |lia].
    intros b Hb. apply Hc. cbn. apply elem_of_app. right. by right.
Qed.

(** ** Ordered trees *)

Section ordered.
Context {A : Type} `{KeyOrder A} (key : Z -> A).

(** [a] stands before [b] in the order of the tree: larger keys come first. *)
Definition above (a b : Z) : Prop := kcmp (key a) (key b) > 0.

Definition ordered (l : list Z) : Prop := StronglySorted above l.

Lemma ordered_app l1 l2 :
  ordered (l1 ++ l2) <-> ordered l1 /\ ordered l2 /\ forall x y, x ∈ l1 -> y ∈ l2 -> above x y.
Proof.
  unfold ordered. induction l1 as [|x l1 IH]; cbn.
  - split; [|tauto]. intros Hs. split; [constructor|]. split; [done|]. by intros x y Hx%elem_of_nil.
  - split.
    + intros [Hs Hf]%StronglySorted_inv. apply IH in Hs as (S1 & S2 & D).
      rewrite Forall_forall in Hf. split_and!; [|done|].
      * constructor; [done|]. apply Forall_forall. intros y Hy. apply Hf, elem_of_app. by left.
      * intros y z [->|Hy]%elem_of_cons Hz; [apply Hf, elem_of_app; by right|auto].
    + intros ([Hs Hf]%StronglySorted_inv & S2 & D). constructor.
      * apply IH. split_and!; [done|done|]. intros y z Hy Hz. apply D; [by right|done].
      * rewrite Forall_forall in Hf |- *. intros y [Hy|Hy]%elem_of_app; [auto|apply D; [left|done]].
Qed.

Lemma ordered_sub l1 l2 l3 : ordered (l1 ++ l2 ++ l3) -> ordered (l1 ++ l3).
Proof.
  rewrite !ordered_app. intros (S1 & (S2 & S3 & D2) & D). split_and!; [done|done|].
  intros x y Hx Hy. apply D; [done|]. apply elem_of_app. by right.
Qed.

(** The nodes left and right of the hole are on the right side of [k]. *)
Definition bounded (K : list frame) (k : A) : Prop :=
  (forall x, x ∈ lefts K -> kcmp (key x) k > 0) /\ (forall x, x ∈ rights K -> kcmp (key x) k < 0).

Lemma locate_bounded k K t :
  ordered (inorder (plug K t)) -> bounded K k -> bounded (fst (locate (fun a => kcmp (key a) k) K t)) k.
Proof.
  revert K. induction t as [|c l IHl a r IHr]; intros K Ho [Bl Br]; cbn [locate]; [done|].
  rewrite inorder_plug in Ho. cbn in Ho. pose proof Ho as Ho'.
  rewrite <- !app_assoc in Ho. apply ordered_app in Ho as (_ & (_ & Ho & Dl)%ordered_app & _).
  rewrite <- app_comm_cons in Ho. apply (ordered_app [a]) in Ho as (_ & _ & Da).
  destruct (Z.ltb_spec (kcmp (key a) k) 0) as [Hlt|Hge].
  - apply IHl; [rewrite inorder_plug; app_norm; app_norm_in Ho'; exact Ho'|].
    split; [done|]. cbn. intros x [->|[Hx|Hx]%elem_of_app]%elem_of_cons; [done| |auto].
    apply (kcmp_trans _ (key a)); [|done]. apply kcmp_lt_gt, Da; [left|apply elem_of_app; by left].
  - rewrite Z.gtb_ltb. destruct (Z.ltb_spec 0 (kcmp (key a) k)) as [Hgt|]; [|done].
    apply IHr; [rewrite inorder_plug; app_norm; app_norm_in Ho'; exact Ho'|].
    split; [|done]. cbn. intros x [Hx|[Hx| ->%list_elem_of_singleton]%elem_of_app]%elem_of_app;
      [auto| |lia].
    apply kcmp_lt_gt. apply (kcmp_trans _ (key a)); apply kcmp_lt_gt; [lia|].
    apply Dl; [done|apply elem_of_app; left; left].
Qed.

(** A search in an ordered tree finds the node with the key, or none has it. *)
Lemma locate_spec k t K' t' :
  ordered (inorder t) -> locate (fun a => kcmp (key a) k) [] t = (K', t') ->
  plug K' t' = t /\ bounded K' k /\
  match t' with
  | Leaf => forall x, x ∈ inorder t -> key x <> k
  | Node _ _ a _ => key a = k
  end.
Proof.
  intros Ho E.
  pose proof (locate_plug (fun a => kcmp (key a) k) [] t) as EP. rewrite E in EP. cbn in EP.
  assert (bounded K' k) as B.
  { pose proof (locate_bounded k [] t Ho) as B. rewrite E in B. apply B.
    by split; intros x Hx%elem_of_nil. }
  split; [done|]. split; [done|]. destruct t' as [|c l a r].
  - intros x Hx <-. rewrite <- EP, inorder_plug in Hx. destruct B as [Bl Br].
    assert (kcmp (key x) (key x) = 0) by (by apply kcmp_eq).
    apply elem_of_app in Hx as [Hx|Hx]; [apply Bl in Hx|apply Br in Hx]; lia.
  - apply kcmp_eq. pose proof (locate_found (fun a => kcmp (key a) k) [] t c l a r) as Hf.
    rewrite E in Hf. by apply Hf.
Qed.

(** Inserting where the search ended keeps the order. *)
Lemma ordered_insert K a :
  ordered (lefts K ++ rights K) -> bounded K (key a) -> ordered (lefts K ++ [a] ++ rights K).
Proof.
  rewrite !ordered_app. intros (S1 & S2 & D) [Bl Br]. split_and!; try done.
  - constructor; constructor.
  - intros x y ->%list_elem_of_singleton Hy. apply kcmp_lt_gt. by apply Br.
  - intros x y Hx [->%list_elem_of_singleton|Hy]%elem_of_app; [by apply Bl|auto].
Qed.

End ordered.

Lemma ordered_ext {A} `{KeyOrder A} (key key' : Z -> A) l :
  (forall x, x ∈ l -> key' x = key x) -> ordered key l -> ordered key' l.
Proof.
  intros E. unfold ordered. induction 1 as [|x l Hs IH Hf]; [constructor|]. constructor.
  - apply IH. intros y Hy. apply E. by right.
  - rewrite Forall_forall in Hf |- *. intros y Hy. unfold above.
    rewrite !E; [by apply Hf|by right|by left].
Qed.

(** A member of a tree has a path to it. *)
Lemma member_path a t : a ∈ inorder t -> exists K c l r, t = plug K (Node c l a r).
Proof.
  enough (forall K, a ∈ inorder t -> exists K' c l r, plug K t = plug K' (Node c l a r)) as G
    by (intros Ha; by apply (G [])).
  induction t as [|c l IHl b r IHr]; intros K Ha; cbn in Ha; [by apply elem_of_nil in Ha|].
  apply elem_of_app in Ha as [Ha|[->|Ha]%elem_of_cons].
  - exact (IHl (FL c b r :: K) Ha).
  - eauto.
  - exact (IHr (FR c l b :: K) Ha).
Qed.

(** ** What an owner knows of its tree *)

Section index.
Context {A : Type} `{KeyOrder A}.
Implicit Types key : Z -> A.

(** The tree of [s] is valid, ordered by [key], and holds exactly the nodes [L]. *)
Definition index (s : HevRBTree) key (L : list Z) : Prop :=
  exists t, trep s t /\ rbtree t /\ ordered key (inorder t) /\ inorder t ≡ₚ L.

(** [parent] and [lk] are where a node with the key [k], which is absent, belongs. *)
Definition insert_point (s : HevRBTree) key (L : list Z) (k : A) (parent : Z) (lk : link) : Prop :=
  exists K, trep s (plug K Leaf) /\ rbtree (plug K Leaf) /\ ordered key (inorder (plug K Leaf)) /\
    inorder (plug K Leaf) ≡ₚ L /\ bounded key K k /\ parent = ctx_parent K /\ lk = ctx_link K.

Lemma trep_frame s s' t :
  root s' = root s -> (forall y, y ∈ inorder t -> cells s' !! y = cells s !! y) ->
  trep s t -> trep s' t.
Proof.
  intros Er F (HK & HT & ND). split; [cbn in *; congruence|]. split; [|done].
  revert F HT. cbn [ctx_parent]. generalize NULL. clear.
  induction t as [|c l IHl a r IHr]; intros par F; cbn; [done|].
  intros (Al & Ha & C & Hl & Hr). rewrite F by (cbn; apply elem_of_app; right; left).
  do 3 (split; [done|]). split; [apply IHl|apply IHr]; try done; intros y Hy; apply F; cbn;
    apply elem_of_app; [by left|right; by right].
Qed.

Lemma index_NoDup s key L : index s key L -> NoDup L.
Proof. intros (t & (_ & _ & ND) & _ & _ & <-). exact ND. Qed.

#[export] Instance index_proper s key : Proper (Permutation ==> iff) (index s key).
Proof. intros L L' P. unfold index. by setoid_rewrite P. Qed.

(** Keys are unique. *)
Lemma ordered_inj key l x y : ordered key l -> x ∈ l -> y ∈ l -> key x = key y -> x = y.
Proof.
  assert (forall z w, above key z w -> key z <> key w) as NE.
  { unfold above. intros z w Hzw E. assert (kcmp (key z) (key w) = 0) by (by apply kcmp_eq). lia. }
  induction 1 as [|z l Hs IH Hf]; [by intros Hx%elem_of_nil|]. rewrite Forall_forall in Hf.
  intros [->|Hx]%elem_of_cons [->|Hy]%elem_of_cons E; [done|..|auto].
  - destruct (NE _ _ (Hf y Hy) E).
  - by destruct (NE _ _ (Hf x Hx)).
Qed.

Lemma index_key_inj s key L x y : index s key L -> x ∈ L -> y ∈ L -> key x = key y -> x = y.
Proof.
  intros (t & _ & _ & Ot & P) Hx Hy. rewrite <- P in Hx, Hy. by eapply ordered_inj.
Qed.

Lemma index_frame s s' key key' L :
  root s' = root s -> (forall y, y ∈ L -> cells s' !! y = cells s !! y) ->
  (forall y, y ∈ L -> key' y = key y) -> index s key L -> index s' key' L.
Proof.
  intros Er F Ek (t & Ht & Rt & Ot & P). exists t. split_and!; try done.
  - eapply trep_frame; [done| |done]. intros y Hy. apply F. by rewrite <- P.
  - eapply ordered_ext; [|done]. intros y Hy. apply Ek. by rewrite <- P.
Qed.

(** Every owner's lookup: the node with the key, or the place for it. *)
Lemma index_search fuel s key L k cmp :
  index s key L -> (forall a, a ∈ L -> cmp a = Val (kcmp (key a) k)) -> (length L <= fuel)%nat ->
  exists a parent lk,
    search_loop fuel cmp (root s) NULL LRoot s = Val ((a, parent, lk), s) /\
    ((a ∈ L /\ a <> NULL /\ key a = k) \/
     (a = NULL /\ (forall x, x ∈ L -> key x <> k) /\ insert_point s key L k parent lk)).
Proof.
  intros (t & Ht & Rt & Ot & P) Hc Hf. destruct s as [rt h].
  destruct (locate (fun a => kcmp (key a) k) [] t) as [K' t'] eqn:E.
  destruct (locate_spec key k t K' t' Ot E) as (EP & B & Hk).
  pose proof Ht as (ER & _ & _). cbn in ER. subst rt.
  eexists _, _, _. split.
  - apply (search_loop_ok (ad t) h fuel cmp (fun a => kcmp (key a) k) [] t Ht); [|by rewrite P].
    intros a Ha. apply Hc. by rewrite <- P.
  - rewrite E. cbn [fst snd]. destruct t' as [|c l a r].
    + right. split; [done|]. split.
      { intros x Hx. apply Hk. by rewrite P. }
      exists K'. rewrite EP. split_and!; done.
    + left. rewrite <- EP in Ht, P. apply zrep_plug in Ht as (_ & (_ & Ha & _) & _).
      split_and!; [|done|done]. rewrite <- P, inorder_plug. cbn. set_solver.
Qed.

(** Linking a fresh node at the place the search found. *)
Lemma index_insert fuel s key L k parent lk s1 key1 a n0 :
  insert_point s key L k parent lk ->
  root s1 = root s -> (forall y, y ∈ L -> cells s1 !! y = cells s !! y) ->
  (forall y, y ∈ L -> key1 y = key y) -> key1 a = k ->
  a ∉ L -> aligned a -> a <> NULL -> cells s1 !! a = Some n0 -> (length L < fuel)%nat ->
  exists s2, (hev_rbtree_node_link a parent lk ;;; hev_rbtree_insert_color fuel a) s1 = Val (tt, s2) /\
    index s2 key1 (a :: L) /\ forall y, y ∉ a :: L -> cells s2 !! y = cells s1 !! y.
Proof.
  intros (K & Ht & Rt & Ot & P & B & -> & ->) Er F Ek Eka Ha Al Hn Hc Hf.
  assert (trep s1 (plug K Leaf)) as Ht1.
  { eapply trep_frame; [done| |done]. intros y Hy. apply F. by rewrite <- P. }
  assert (ordered key1 (inorder (plug K Leaf))) as Ot1.
  { eapply ordered_ext; [|done]. intros y Hy. apply Ek. by rewrite <- P. }
  destruct (insert_ok fuel s1 K a n0 Rt Ht1 Al Hn) as (s2 & T & E & T2 & R2 & EI & O);
    [by rewrite P|done| |].
  { pose proof (length_ctx_addrs K). rewrite <- P, <- ctx_addrs_perm, app_nil_r in Hf. lia. }
  assert (inorder T ≡ₚ a :: L) as PT.
  { rewrite EI, <- P, inorder_plug. cbn. solve_Permutation. }
  exists s2. split; [done|]. split; [|intros y Hy; apply O; by rewrite PT].
  exists T. split_and!; try done. rewrite EI. rewrite inorder_plug in Ot1, P. cbn in Ot1, P.
  apply ordered_insert; [done|]. rewrite Eka. destruct B as [Bl Br].
  split; intros x Hx; rewrite Ek; auto; rewrite <- P; apply elem_of_app; [by left|by right].
Qed.

Lemma index_erase fuel s key L a L' :
  index s key L -> L ≡ₚ a :: L' -> (length L <= fuel)%nat ->
  exists s', hev_rbtree_erase fuel a s = Val (tt, s') /\ index s' key L' /\
    forall y, y ∉ L -> cells s' !! y = cells s !! y.
Proof.
  intros (t & Ht & Rt & Ot & P) PL Hf.
  destruct (member_path a t) as (K & c & l & r & ->); [rewrite P, PL; left|].
  destruct (erase_ok fuel s K c l a r Rt Ht) as (s' & T & E & T' & R' & EI & O); [by rewrite P|].
  exists s'. split; [done|]. split; [|intros y Hy; apply O; by rewrite P].
  rewrite inorder_plug in Ot, P. cbn in Ot, P. exists T. split_and!; try done.
  - rewrite EI. rewrite <- app_assoc in Ot. rewrite (app_assoc (lefts K)) in Ot |- *.
    by apply (ordered_sub _ _ [a]).
  - apply (Permutation_cons_inv (a := a)). rewrite <- PL, <- P, EI. solve_Permutation.
Qed.

(** [hev_rbtree_first] finds a member while there is one. *)
Lemma index_first fuel s key L :
  index s key L -> (length L <= fuel)%nat ->
  exists a, hev_rbtree_first fuel s = Val (a, s) /\
    ((a = NULL /\ L = []) \/ (a <> NULL /\ a ∈ L)).
Proof.
  intros (t & Ht & _ & _ & P) Hf. exists (first_of (inorder t)). split.
  { apply rbtree_first_ok; [done|]. by rewrite P. }
  destruct (inorder t) as [|a l] eqn:Ei.
  - left. split; [done|]. by apply Permutation_nil.
  - right. cbn. assert (a ∈ inorder t) as Ha by (rewrite Ei; left). split.
    + destruct (member_path a t Ha) as (K & c & l' & r & ->). apply zrep_plug in Ht.
      by destruct Ht as (_ & (_ & ? & _) & _).
    + rewrite <- P. left.
Qed.

End index.

End RBTreeSearch.
