(* ===== verification/Authenticator.v ===== *)
(** * Users and the authenticator (src/core/src/hev-socks5-user.c,
      hev-socks5-authenticator.c)

    The authenticator keeps user objects in a red-black tree ordered by length and
    bytes of the name.  [auth_rep] relates it to a finite map from names to users. *)

From Stdlib Require Import ZArith Lia.
From stdpp Require Import base list gmap numbers.
From S2P Require Import Prelude RBTree RBTreeRep RBTreeSearch.
Import list_basics.list list_relations.list list_monad.list list_misc.list.
Import RBTreeSearch.

Module Authenticator.

Abbreviation HevRBTree := RBTree.HevRBTree.
Abbreviation NULL := RBTree.NULL.

(** ** Users

    A user is addressed by its embedded tree node; [name_len] and [pass_len] are
    the lengths of the copied strings. *)
Record HevSocks5User := mkUser {
  ref_count : Z;
  name : bytes;
  pass : bytes;
}.

Definition name_len (u : HevSocks5User) : Z := zlen (name u).
Definition pass_len (u : HevSocks5User) : Z := zlen (pass u).

Record HevSocks5Authenticator := mkAuth {
  tree : HevRBTree;
  users : gmap Z HevSocks5User;
}.

(** What [calloc] and the two [malloc] calls of a new user return. *)
Record ualloc := mkUAlloc { mem : Z; name_mem : bool; pass_mem : bool }.

(** [malloc (n)] and [memcpy] of [n] bytes into the result. *)
Definition dup_bytes (ok : bool) (b : bytes) : outcome bytes :=
  if ok || bool_decide (b = []) then Val b else Fault.

Definition hev_socks5_user_new (e : ualloc) (s : HevSocks5Authenticator) (name_ pass_ : bytes)
  : outcome (Z * HevSocks5Authenticator) :=
  if mem e =? NULL then Val (NULL, s)
  else
    let! n := dup_bytes (name_mem e) name_ in
    let! p := dup_bytes (pass_mem e) pass_ in
    Val (mem e, mkAuth (RBTree.mkRBTree (RBTree.root (tree s))
                          (<[mem e := RBTree.mkRBNode 0 0 0]> (RBTree.cells (tree s))))
                       (<[mem e := mkUser 1 n p]> (users s))).

Definition hev_socks5_user_checker (u : HevSocks5User) (pass_ : bytes) : Z :=
  if negb (pass_len u =? zlen pass_) then -1
  else if negb (bytes_cmp (pass u) pass_ =? 0) then -1
  else 0.

(** [hev_object_unref] on an atomic object: the last reference frees it. *)
Definition hev_object_unref (s : HevSocks5Authenticator) (u : Z) : outcome HevSocks5Authenticator :=
  let! x := of_option (users s !! u) in
  if ref_count x >? 1
  then Val (mkAuth (tree s) (<[u := mkUser (ref_count x - 1) (name x) (pass x)]> (users s)))
  else Val (mkAuth (RBTree.mkRBTree (RBTree.root (tree s)) (delete u (RBTree.cells (tree s))))
                   (delete u (users s))).

Definition hev_object_ref (s : HevSocks5Authenticator) (u : Z) : outcome HevSocks5Authenticator :=
  let! x := of_option (users s !! u) in
  Val (mkAuth (tree s) (<[u := mkUser (ref_count x + 1) (name x) (pass x)]> (users s))).

(** ** Comparison of names *)

Definition name_cmp (a b : bytes) : Z :=
  if zlen a <? zlen b then -1
  else if zlen a >? zlen b then 1
  else bytes_cmp a b.

Record user_key := UKey { ukey : bytes }.

Lemma name_cmp_eq a b : name_cmp a b = 0 <-> a = b.
Proof.
  unfold name_cmp. rewrite Z.gtb_ltb.
  destruct (Z.ltb_spec (zlen a) (zlen b)), (Z.ltb_spec (zlen b) (zlen a)); try lia;
    (split; [lia|intros ->; lia]) || apply bytes_cmp_eq.
Qed.

Lemma name_cmp_lt_gt a b : name_cmp a b < 0 <-> name_cmp b a > 0.
Proof.
  unfold name_cmp. rewrite !Z.gtb_ltb.
  destruct (Z.ltb_spec (zlen a) (zlen b)), (Z.ltb_spec (zlen b) (zlen a)); try lia.
  apply bytes_cmp_lt_gt.
Qed.

Lemma name_cmp_trans a b c : name_cmp a b < 0 -> name_cmp b c < 0 -> name_cmp a c < 0.
Proof.
  unfold name_cmp. rewrite !Z.gtb_ltb.
  destruct (Z.ltb_spec (zlen a) (zlen b)), (Z.ltb_spec (zlen b) (zlen a)),
    (Z.ltb_spec (zlen b) (zlen c)), (Z.ltb_spec (zlen c) (zlen b)),
    (Z.ltb_spec (zlen a) (zlen c)), (Z.ltb_spec (zlen c) (zlen a)); try lia.
  apply bytes_cmp_trans.
Qed.

#[export] Program Instance user_order : KeyOrder user_key := {
  kcmp a b := name_cmp (ukey a) (ukey b);
}.
Next Obligation. intros [a] [b]. cbn. rewrite name_cmp_eq. split; congruence. Qed.
Next Obligation. intros [a] [b]. apply name_cmp_lt_gt. Qed.
Next Obligation. intros [a] [b] [c]. apply name_cmp_trans. Qed.

(** ** Operations *)

Definition user_cmp (s : HevSocks5Authenticator) (n : bytes) (a : Z) : outcome Z :=
  let! x := of_option (users s !! a) in Val (name_cmp (name x) n).

Definition with_tree (s : HevSocks5Authenticator) (t : HevRBTree) : HevSocks5Authenticator :=
  mkAuth t (users s).

Definition hev_socks5_authenticator_add (fuel : nat) (s : HevSocks5Authenticator) (user : Z)
  : outcome (Z * HevSocks5Authenticator) :=
  let! u := of_option (users s !! user) in
  let! (r, _) := search_loop fuel (user_cmp s (name u)) (RBTree.root (tree s)) NULL RBTree.LRoot (tree s) in
  let '(found, parent, new_) := r in
  if negb (found =? NULL) then Val (-1, s)
  else
    let! (_, t) := (RBTree.hev_rbtree_node_link user parent new_ ;;;
                    RBTree.hev_rbtree_insert_color fuel user) (tree s) in
    Val (0, with_tree s t).

Definition hev_socks5_authenticator_get (fuel : nat) (s : HevSocks5Authenticator) (n : bytes)
  : outcome Z :=
  let! (r, _) := search_loop fuel (user_cmp s n) (RBTree.root (tree s)) NULL RBTree.LRoot (tree s) in
  let '(found, _, _) := r in
  Val found.

Definition hev_socks5_authenticator_del (fuel : nat) (s : HevSocks5Authenticator) (n : bytes)
  : outcome (Z * HevSocks5Authenticator) :=
  let! (r, _) := search_loop fuel (user_cmp s n) (RBTree.root (tree s)) NULL RBTree.LRoot (tree s) in
  let '(found, _, _) := r in
  if found =? NULL then Val (-1, s)
  else
    let! (_, t) := RBTree.hev_rbtree_erase fuel found (tree s) in
    let! s := hev_object_unref (with_tree s t) found in
    Val (0, s).

Fixpoint hev_socks5_authenticator_clear (fuel : nat) (s : HevSocks5Authenticator)
  : outcome HevSocks5Authenticator :=
  let! (n, _) := RBTree.hev_rbtree_first fuel (tree s) in
  if n =? NULL then Val s
  else
    match fuel with
    | O => Fault
    | S fuel' =>
        let! (_, t) := RBTree.hev_rbtree_erase fuel n (tree s) in
        let! s := hev_object_unref (with_tree s t) n in
        hev_socks5_authenticator_clear fuel' s
    end.

(** ** Specification: a map from names to users *)

Definition key_of (s : HevSocks5Authenticator) (a : Z) : user_key :=
  UKey (default [] (name <$> users s !! a)).

Definition named (s : HevSocks5Authenticator) (a : Z) (n : bytes) : Prop :=
  exists x, users s !! a = Some x /\ name x = n.

Record auth_ok (s : HevSocks5Authenticator) (L : list Z) (m : gmap bytes Z) : Prop := {
  au_tree : index (tree s) (key_of s) L;
  au_users : forall a, a ∈ L -> exists x, users s !! a = Some x;
  au_map : forall n a, m !! n = Some a <-> a ∈ L /\ named s a n;
}.

Definition auth_rep (s : HevSocks5Authenticator) (m : gmap bytes Z) : Prop := exists L, auth_ok s L m.

Lemma named_key s a n : named s a n -> key_of s a = UKey n.
Proof. intros (x & Hx & <-). unfold key_of. by rewrite Hx. Qed.

Lemma user_cmp_ok s L m n a :
  auth_ok s L m -> a ∈ L -> user_cmp s n a = Val (kcmp (key_of s a) (UKey n)).
Proof.
  intros Hok Ha. destruct (au_users _ _ _ Hok a Ha) as [x Hx].
  unfold user_cmp, key_of. by rewrite Hx.
Qed.

(** Every operation starts with the same search. *)
Lemma auth_search fuel s L m n :
  auth_ok s L m -> (length L <= fuel)%nat ->
  exists a parent lk,
    search_loop fuel (user_cmp s n) (RBTree.root (tree s)) NULL RBTree.LRoot (tree s) =
      Val ((a, parent, lk), tree s) /\
    ((a ∈ L /\ a <> NULL /\ m !! n = Some a) \/
     (a = NULL /\ m !! n = None /\ insert_point (tree s) (key_of s) L (UKey n) parent lk)).
Proof.
  intros Hok Hf.
  destruct (index_search fuel (tree s) (key_of s) L (UKey n) (user_cmp s n) (au_tree _ _ _ Hok))
    as (a & parent & lk & E & H); [intros a Ha; by eapply user_cmp_ok|done|].
  exists a, parent, lk. split; [done|]. destruct H as [(Ha & Hn & Hk)|(-> & Hno & Hip)]; [left|right].
  - split; [done|]. split; [done|]. apply (au_map _ _ _ Hok). split; [done|].
    destruct (au_users _ _ _ Hok a Ha) as [x Hx]. exists x. split; [done|].
    unfold key_of in Hk. rewrite Hx in Hk. by injection Hk.
  - split; [done|]. split; [|done]. destruct (m !! n) as [b|] eqn:Em; [|done].
    apply (au_map _ _ _ Hok) in Em as [Hb Hnb]. destruct (Hno b Hb). by apply named_key.
Qed.

(** Names are unique, so the map is as large as the tree. *)
Lemma auth_size s L m : auth_ok s L m -> (length L <= size m)%nat.
Proof.
  intros Hok. rewrite <- length_map_to_list, <- (length_fmap snd). apply submseteq_length, NoDup_submseteq.
  - eapply index_NoDup, au_tree, Hok.
  - intros a Ha. destruct (au_users _ _ _ Hok a Ha) as [x Hx]. apply list_elem_of_fmap.
    exists (name x, a). split; [done|]. apply elem_of_map_to_list, (au_map _ _ _ Hok).
    split; [done|by exists x].
Qed.

Lemma auth_insert_ok fuel s m user u n0 :
  auth_rep s m -> users s !! user = Some u -> (forall n, m !! n <> Some user) ->
  RBTreeRep.aligned user -> user <> NULL -> RBTree.cells (tree s) !! user = Some n0 ->
  (size m < fuel)%nat ->
  exists s', hev_socks5_authenticator_add fuel s user =
      Val (match m !! name u with None => 0 | Some _ => -1 end, s') /\
    auth_rep s' (match m !! name u with None => <[name u := user]> m | Some _ => m end) /\
    users s' = users s.
Proof.
  intros [L Hok] Hu Hnew Al Hn Hc Hf. unfold hev_socks5_authenticator_add. rewrite Hu. cbn [of_option obind].
  pose proof (auth_size s L m Hok) as HL.
  destruct (auth_search fuel s L m (name u) Hok) as (a & parent & lk & E & H); [lia|].
  rewrite E. cbn [obind]. destruct H as [(Ha & Hna & Em)|(-> & Em & Hip)].
  - rewrite (proj2 (Z.eqb_neq _ _) Hna). cbn [negb]. exists s. rewrite Em.
    split; [done|]. split; [by exists L|done].
  - rewrite Z.eqb_refl. cbn [negb].
    assert (user ∉ L) as HuL.
    { intros Hin. apply (Hnew (name u)). apply (au_map _ _ _ Hok). split; [done|]. by exists u. }
    destruct (index_insert fuel (tree s) (key_of s) L (UKey (name u)) parent lk (tree s) (key_of s) user n0 Hip)
      as (t & E2 & I2 & _); try done.
    { unfold key_of. by rewrite Hu. }
    { lia. }
    rewrite E2. cbn [obind]. exists (with_tree s t). rewrite Em.
    split; [done|]. split; [|done]. exists (user :: L). split; cbn.
    + exact I2.
    + intros b [->|Hb]%elem_of_cons; [eauto|]. by apply (au_users _ _ _ Hok).
    + intros n b. rewrite lookup_insert_Some, (au_map _ _ _ Hok), elem_of_cons. unfold named. cbn.
      split.
      * intros [[<- <-]|[Hne [Hb Hnb]]]; [split; [by left|by exists u]|split; [by right|done]].
      * intros [[->|Hb] (x & Hx & Enx)].
        { left. split; congruence. }
        right. split; [|split; [done|by exists x]]. intros En. rewrite En in Em.
        assert (m !! n = Some b) by (apply (au_map _ _ _ Hok); split; [done|by exists x]). congruence.
Qed.

Lemma auth_get_ok fuel s m n :
  auth_rep s m -> (size m <= fuel)%nat ->
  hev_socks5_authenticator_get fuel s n = Val (default NULL (m !! n)) /\
  match m !! n with
  | Some a => a <> NULL /\ exists x, users s !! a = Some x /\ name x = n
  | None => True
  end.
Proof.
  intros [L Hok] Hf. unfold hev_socks5_authenticator_get. pose proof (auth_size s L m Hok) as HL.
  destruct (auth_search fuel s L m n Hok) as (a & parent & lk & E & H); [lia|].
  rewrite E. cbn [obind]. destruct H as [(Ha & Hn & Em)|(-> & -> & _)]; [|done].
  rewrite Em. split; [done|]. split; [done|]. by apply (au_map _ _ _ Hok) in Em as [_ ?].
Qed.

(** ** Removal *)

(** A user after one reference to it was dropped; [None] is a freed one. *)
Definition drop_ref (x : HevSocks5User) : option HevSocks5User :=
  if ref_count x >? 1 then Some (mkUser (ref_count x - 1) (name x) (pass x)) else None.

(** Dropping a user that is no longer linked. *)
Lemma unref_ok s a L m x :
  auth_ok s L m -> users s !! a = Some x -> a ∉ L ->
  exists s', hev_object_unref s a = Val s' /\ auth_ok s' L m /\
    (forall b, b <> a -> users s' !! b = users s !! b) /\
    users s' !! a = drop_ref x.
Proof.
  intros Hok Hx Ha. unfold hev_object_unref. rewrite Hx. cbn [of_option obind].
  assert (forall us t, RBTree.root t = RBTree.root (tree s) ->
    (forall b, b ∈ L -> RBTree.cells t !! b = RBTree.cells (tree s) !! b) ->
    (forall b, b <> a -> us !! b = users s !! b) -> auth_ok (mkAuth t us) L m) as Hkeep.
  { intros us t Hr Hc Hu. destruct Hok as [Ht Hl Hm].
    assert (forall b, b ∈ L -> us !! b = users s !! b) as Hu' by (intros b Hb; apply Hu; by intros ->).
    split; cbn.
    - eapply (index_frame (tree s)); [done|done| |exact Ht]. intros b Hb. unfold key_of. cbn. by rewrite Hu'.
    - intros b Hb. rewrite Hu' by done. auto.
    - intros n b. rewrite Hm. unfold named. cbn. split; intros [Hb (y & Hy & En)]; (split; [done|exists y]);
        [rewrite Hu' by done|rewrite Hu' in Hy by done]; done. }
  unfold drop_ref. destruct (ref_count x >? 1); eexists; (split; [reflexivity|]); cbn; split_and!.
  - apply Hkeep; [done|done|]. intros b Hb. by rewrite lookup_insert_ne.
  - intros b Hb. by rewrite lookup_insert_ne.
  - by rewrite lookup_insert_eq.
  - apply Hkeep; [done| |]; intros b Hb; cbn; rewrite lookup_delete_ne; [done|by intros ->|done|done].
  - intros b Hb. by rewrite lookup_delete_ne.
  - by rewrite lookup_delete_eq.
Qed.

(** Unlinking a user and dropping the reference of the tree. *)
Lemma erase_user_ok fuel s L m a :
  auth_ok s L m -> a ∈ L -> (length L <= fuel)%nat ->
  exists n x L' s', (let! (_, t) := RBTree.hev_rbtree_erase fuel a (tree s) in
      hev_object_unref (with_tree s t) a) = Val s' /\
    L ≡ₚ a :: L' /\ m !! n = Some a /\ auth_ok s' L' (delete n m) /\
    users s !! a = Some x /\
    (forall b, b <> a -> users s' !! b = users s !! b) /\
    users s' !! a = drop_ref x.
Proof.
  intros Hok Ha Hf. destruct (au_users _ _ _ Hok a Ha) as [x Hx].
  apply elem_of_Permutation in Ha as HL. destruct HL as [L' P].
  destruct (index_erase fuel (tree s) (key_of s) L a L' (au_tree _ _ _ Hok) P Hf) as (t & E & I & _).
  rewrite E. cbn [obind].
  pose proof (index_NoDup _ _ _ (au_tree _ _ _ Hok)) as ND. rewrite P in ND. apply NoDup_cons in ND as [Na _].
  assert (m !! name x = Some a) as Em by (apply (au_map _ _ _ Hok); split; [done|by exists x]).
  assert (auth_ok (with_tree s t) L' (delete (name x) m)) as Hok'.
  { split; cbn.
    - exact I.
    - intros b Hb. apply (au_users _ _ _ Hok). rewrite P. by right.
    - intros n b. rewrite lookup_delete_Some, (au_map _ _ _ Hok), P, elem_of_cons.
      change (named (with_tree s t) b n) with (named s b n). split.
      + intros [Hne [[->|Hb] Hn]]; [|done]. destruct Hn as (y & Hy & <-). congruence.
      + intros [Hb Hn]. split; [|split; [by right|done]]. intros <-. destruct Hn as (y & Hy & En).
        assert (m !! name x = Some b); [apply (au_map _ _ _ Hok); split; [rewrite P; by right|by exists y]|].
        congruence. }
  destruct (unref_ok (with_tree s t) a L' _ x Hok' Hx Na) as (s' & E' & Hs' & Hu & Hua).
  exists (name x), x, L', s'. split_and!; done.
Qed.

(** [hev_socks5_authenticator_del] removes the user entered under the name,
    dropping exactly the reference the authenticator held, and returns -1 without a
    change when there is none. *)
Lemma auth_del_ok fuel s m n :
  auth_rep s m -> (size m <= fuel)%nat ->
  exists s', hev_socks5_authenticator_del fuel s n =
      Val (match m !! n with Some _ => 0 | None => -1 end, s') /\
    auth_rep s' (delete n m) /\
    match m !! n with
    | None => s' = s
    | Some a => exists x, users s !! a = Some x /\
        (forall b, b <> a -> users s' !! b = users s !! b) /\
        users s' !! a = drop_ref x
    end.
Proof.
  intros [L Hok] Hf. unfold hev_socks5_authenticator_del. pose proof (auth_size s L m Hok) as HL.
  destruct (auth_search fuel s L m n Hok) as (a & parent & lk & E & H); [lia|]. rewrite E. cbn [obind].
  destruct H as [(Ha & Hna & Em)|(-> & Em & Hip)].
  - rewrite (proj2 (Z.eqb_neq _ _) Hna), Em.
    destruct (erase_user_ok fuel s L m a Hok Ha) as (k & x & L' & s' & E' & P & Ek & Hs' & Hx & Hu & Hua); [lia|].
    assert (k = n) as ->.
    { apply (au_map _ _ _ Hok) in Em as [_ (y & Hy & <-)], Ek as [_ (z & Hz & <-)]. congruence. }
    exists s'. destruct (RBTree.hev_rbtree_erase fuel a (tree s)) as [[[] t]|]; [cbn [obind] in E' |- *|done].
    rewrite E'. cbn [obind]. split; [done|]. split; [by exists L'|]. by exists x.
  - rewrite Z.eqb_refl, Em. exists s. split; [done|]. split; [|done]. exists L.
    by rewrite delete_id by done.
Qed.

(** [hev_socks5_authenticator_clear] empties the authenticator; the reference to
    every user is dropped. *)
Lemma auth_clear_ok fuel s m :
  auth_rep s m -> (size m <= fuel)%nat ->
  exists s', hev_socks5_authenticator_clear fuel s = Val s' /\ auth_rep s' ∅ /\
    (forall n a x, m !! n = Some a -> users s !! a = Some x -> users s' !! a = drop_ref x) /\
    (forall a, (forall n, m !! n <> Some a) -> users s' !! a = users s !! a).
Proof.
  revert s m. induction fuel as [|fuel IH]; intros s m [L Hok] Hf; pose proof (auth_size s L m Hok) as HL;
    cbn [hev_socks5_authenticator_clear].
  - destruct L; [|cbn in HL; lia]. assert (m = ∅) as -> by (apply map_size_empty_inv; lia).
    destruct (index_first 0 (tree s) (key_of s) [] (au_tree _ _ _ Hok)) as (a & E & [[-> _]|[_ C%elem_of_nil]]);
      [done|..|done].
    rewrite E. cbn. exists s. split_and!; try done. by exists [].
  - destruct (index_first (S fuel) (tree s) (key_of s) L (au_tree _ _ _ Hok))
      as (a & E & [[-> ->]|[Hna Ha]]); [lia|..]; rewrite E; cbn [obind].
    { rewrite Z.eqb_refl. assert (m = ∅) as ->.
      { apply map_empty. intros n. destruct (m !! n) as [b|] eqn:En; [|done].
        by apply (au_map _ _ _ Hok) in En as [?%elem_of_nil _]. }
      exists s. split_and!; try done. by exists []. }
    rewrite (proj2 (Z.eqb_neq _ _) Hna).
    destruct (erase_user_ok (S fuel) s L m a Hok Ha) as (k & x & L' & s1 & E1 & P & Ek & Hs1 & Hx & Hu & Hua); [lia|].
    destruct (RBTree.hev_rbtree_erase (S fuel) a (tree s)) as [[[] t]|]; [cbn [obind] in E1 |- *|done].
    rewrite E1. cbn [obind].
    destruct (IH s1 (delete k m)) as (s2 & E2 & R2 & Hd & Hk); [by exists L'| |].
    { rewrite map_size_delete_Some by eauto. lia. }
    exists s2. split; [done|]. split; [done|].
    assert (forall n, delete k m !! n <> Some a) as Hdel.
    { intros n (Hne & En)%lookup_delete_Some. apply (au_map _ _ _ Hok) in En as [_ (y & Hy & <-)],
        Ek as [_ (z & Hz & <-)]. congruence. }
    split.
    + intros n b y En Hy. destruct (decide (b = a)) as [->|Hba].
      * rewrite Hk by done. rewrite Hua. congruence.
      * apply (Hd n); [|by rewrite Hu]. apply lookup_delete_Some. split; [congruence|done].
    + intros b Hb. assert (b <> a) by (intros ->; by apply (Hb k)). rewrite Hk, Hu; [done|done|].
      intros n (_ & En)%lookup_delete_Some. by apply (Hb n).
Qed.

(** C37: the authenticator is a finite map from names to users: [get] returns the user
    entered under a name, [NULL] when there is none; [add] enters a user unless its name is
    taken, in which case it returns -1 and changes nothing; [del] removes the user entered
    under a name, dropping exactly the reference that the authenticator held, and returns
    -1 without a change when there is none; [clear] empties the map and drops one reference
    to every user. *)
Theorem auth_refines_map fuel s m :
  auth_rep s m -> (size m < fuel)%nat ->
  (forall n, hev_socks5_authenticator_get fuel s n = Val (default NULL (m !! n))) /\
  (forall user u n0, users s !! user = Some u -> (forall n, m !! n <> Some user) ->
     RBTreeRep.aligned user -> user <> NULL -> RBTree.cells (tree s) !! user = Some n0 ->
     exists s', hev_socks5_authenticator_add fuel s user =
         Val (match m !! name u with None => 0 | Some _ => -1 end, s') /\
       auth_rep s' (match m !! name u with None => <[name u := user]> m | Some _ => m end) /\
       users s' = users s) /\
  (forall n, exists s', hev_socks5_authenticator_del fuel s n =
         Val (match m !! n with Some _ => 0 | None => -1 end, s') /\
       auth_rep s' (delete n m) /\
       match m !! n with
       | None => s' = s
       | Some a => exists x, users s !! a = Some x /\
           (forall b, b <> a -> users s' !! b = users s !! b) /\
           users s' !! a = drop_ref x
       end) /\
  (exists s', hev_socks5_authenticator_clear fuel s = Val s' /\ auth_rep s' ∅ /\
     (forall n a x, m !! n = Some a -> users s !! a = Some x -> users s' !! a = drop_ref x) /\
     (forall a, (forall n, m !! n <> Some a) -> users s' !! a = users s !! a)).
Proof.
  intros R Hf. split; [intros n; apply auth_get_ok; [done|lia]|]. split; [intros; by eapply auth_insert_ok|].
  split; [intros n; apply auth_del_ok; [done|lia]|]. apply auth_clear_ok; [done|lia].
Qed.

(** References do not concern the map. *)
Lemma object_ref_ok s m u x :
  auth_rep s m -> users s !! u = Some x ->
  exists s', hev_object_ref s u = Val s' /\ auth_rep s' m /\
    users s' = <[u := mkUser (ref_count x + 1) (name x) (pass x)]> (users s).
Proof.
  intros [L Hok] Hx. unfold hev_object_ref. rewrite Hx. cbn [of_option obind]. eexists. split; [done|].
  split; [|done]. exists L.
  assert (forall a, name <$> <[u := mkUser (ref_count x + 1) (name x) (pass x)]> (users s) !! a =
    name <$> users s !! a) as En.
  { intros a. destruct (decide (a = u)) as [->|Hne]; [by rewrite lookup_insert_eq, Hx|by rewrite lookup_insert_ne]. }
  destruct Hok as [Ht Hu Hm]. split; cbn.
  - eapply (index_frame (tree s)); [done|done| |exact Ht]. intros a _. unfold key_of. cbn. by rewrite En.
  - intros a [y Hy]%Hu. destruct (decide (a = u)) as [->|Hne]; [rewrite lookup_insert_eq; eauto|].
    rewrite lookup_insert_ne by done. eauto.
  - intros n a. rewrite Hm. unfold named. cbn. specialize (En a).
    split; intros [Ha (y & Hy & <-)]; (split; [done|]); rewrite Hy in En; cbn in En;
      destruct (_ !! a) as [z|] in En |- *; cbn in En; try done; exists z; by injection En.
Qed.

(** [hev_socks5_user_check] accepts exactly the password of the user. *)
Lemma user_checker_spec u p : hev_socks5_user_checker u p = 0 <-> p = pass u.
Proof.
  unfold hev_socks5_user_checker, pass_len.
  destruct (Z.eqb_spec (zlen (pass u)) (zlen p)) as [El|El]; cbn [negb].
  - destruct (Z.eqb_spec (bytes_cmp (pass u) p) 0) as [E|E]; cbn [negb].
    + apply bytes_cmp_eq in E. split; [by intros _|done].
    + split; [done|]. intros ->. destruct E. by apply bytes_cmp_eq.
  - split; [done|]. intros ->. done.
Qed.

(** ** Witnesses: a user "a" with password "b" *)

Definition example_new : HevSocks5Authenticator :=
  match hev_socks5_user_new (mkUAlloc 64 true true) (mkAuth (RBTree.mkRBTree NULL ∅) ∅) [97] [98] with
  | Val (_, s) => s
  | Fault => mkAuth (RBTree.mkRBTree NULL ∅) ∅
  end.

Definition example_auth : HevSocks5Authenticator :=
  match hev_socks5_authenticator_add 1 example_new 64 with
  | Val (_, s) => s
  | Fault => example_new
  end.

Lemma example_new_rep : auth_rep example_new ∅.
Proof.
  exists []. split.
  - exists RBTreeRep.Leaf. split; [by split; [|split; [|constructor]]|]. split; [|by split; [constructor|]].
    split; [done|]. by exists 0%nat.
  - by intros a Ha%elem_of_nil.
  - intros n a. rewrite lookup_empty. split; [done|]. by intros [Ha%elem_of_nil _].
Qed.

Lemma example_auth_rep : auth_rep example_auth {[ [97] := 64 ]}.
Proof.
  destruct (auth_insert_ok 1 example_new ∅ 64 (mkUser 1 [97] [98]) (RBTree.mkRBNode 0 0 0)) as (s' & E & R & _);
    [exact example_new_rep|reflexivity|intros n; by rewrite lookup_empty|done|done|reflexivity
    |rewrite map_size_empty; lia|].
  unfold example_auth. rewrite E. rewrite lookup_empty in R. exact R.
Qed.

Lemma auth_refines_map_witness :
  hev_socks5_authenticator_get 2 example_auth [97] = Val 64 /\
  (exists s', hev_socks5_authenticator_add 2 example_new 64 = Val (0, s') /\
     auth_rep s' {[ [97] := 64 ]} /\ users s' = users example_new) /\
  (exists s', hev_socks5_authenticator_del 2 example_auth [97] = Val (0, s') /\
     auth_rep s' (delete [97] {[ [97] := 64 ]}) /\
     exists x, users example_auth !! 64 = Some x /\
       (forall b, b <> 64 -> users s' !! b = users example_auth !! b) /\
       users s' !! 64 = drop_ref x).
Proof.
  destruct (auth_refines_map 2 example_auth {[ [97] := 64 ]} example_auth_rep ltac:(vm_compute; lia)) as (G & _ & D & _).
  destruct (auth_refines_map 2 example_new ∅ example_new_rep ltac:(rewrite map_size_empty; lia)) as (_ & A & _).
  split; [exact (G [97])|]. split; [|exact (D [97])].
  destruct (A 64 (mkUser 1 [97] [98]) (RBTree.mkRBNode 0 0 0)) as (s' & E & R & U);
    [reflexivity|intros n; by rewrite lookup_empty|done|done|reflexivity|].
  rewrite lookup_empty in E, R. by exists s'.
Defined.

End Authenticator.
