(* ===== verification/MappedDNS.v ===== *)
(** * Mapped names (src/hev-mapped-dns.c)

    A fixed-size cache maps DNS names to addresses of a private network: the
    entries are nodes that sit in a red-black tree ordered by name, in a list
    ordered by last use, and in an array indexed by the host part of the address.
    [hev_mapped_dns_find] and [hev_mapped_dns_lookup] run on the pointer structures
    of [RBTree] and [HevList]; [dns_rep] relates them to a plain list of entries in
    order of last use, on which the cache is specified. *)

From Stdlib Require Import ZArith Lia.
From stdpp Require Import base list gmap numbers.
From S2P Require Import Prelude HevList RBTree RBTreeRep RBTreeSearch.
Import list_basics.list list_relations.list list_monad.list list_misc.list.
Import RBTreeSearch.

Module MappedDNS.

Abbreviation HevList := HevList.HevList.
Abbreviation HevRBTree := RBTree.HevRBTree.

(** ** Data *)

Abbreviation NULL := RBTree.NULL.

(** [struct _HevMappedDNSNode]: the links [tree] and [list] live in the stores of
    their components, [tree] at the address of the node and [list] behind the three
    words of [tree]; [name] is [NULL] when [strdup] failed. *)
Record HevMappedDNSNode := mkDNSNode { name : option bytes; idx : Z }.

Definition list_of (node : Z) : Z := node + 24.
Definition node_of_list (n : Z) : Z := n - 24.

Record HevMappedDNS := mkDNS {
  use : Z;
  max : Z;
  net : Z;
  mask : Z;
  hlist : HevList;
  lnodes : HevList.lheap;
  tree : HevRBTree;
  records : list Z;
  nodes : gmap Z HevMappedDNSNode;
}.

Definition set_use (d : HevMappedDNS) (v : Z) : HevMappedDNS :=
  mkDNS v (max d) (net d) (mask d) (hlist d) (lnodes d) (tree d) (records d) (nodes d).
Definition set_list (d : HevMappedDNS) (p : HevList * HevList.lheap) : HevMappedDNS :=
  mkDNS (use d) (max d) (net d) (mask d) (fst p) (snd p) (tree d) (records d) (nodes d).
Definition set_tree (d : HevMappedDNS) (t : HevRBTree) : HevMappedDNS :=
  mkDNS (use d) (max d) (net d) (mask d) (hlist d) (lnodes d) t (records d) (nodes d).
Definition set_records (d : HevMappedDNS) (r : list Z) : HevMappedDNS :=
  mkDNS (use d) (max d) (net d) (mask d) (hlist d) (lnodes d) (tree d) r (nodes d).
Definition set_nodes (d : HevMappedDNS) (n : gmap Z HevMappedDNSNode) : HevMappedDNS :=
  mkDNS (use d) (max d) (net d) (mask d) (hlist d) (lnodes d) (tree d) (records d) n.

(** What the allocator answers: the block for the node and whether [strdup]
    succeeded. *)
Record alloc := mkAlloc { mem : Z; dup : bool }.

(** ** Construction *)

(** [hev_object_construct] always succeeds; the block is zeroed. *)
Definition hev_mapped_dns_construct (d : HevMappedDNS) (net_ mask_ max_ : Z) : Z * HevMappedDNS :=
  if max_ >? Z.lnot mask_ then (-1, d)
  else (0, mkDNS (use d) max_ net_ mask_ (hlist d) (lnodes d) (tree d) (records d) (nodes d)).

Definition zeroed (max_ : Z) : HevMappedDNS :=
  mkDNS 0 0 0 0 (HevList.mkList NULL NULL) ∅ (RBTree.mkRBTree NULL ∅)
    (replicate (Z.to_nat max_) NULL) ∅.

Definition hev_mapped_dns_new (ok : bool) (net_ mask_ max_ : Z) : option HevMappedDNS :=
  if negb ok then None
  else
    let '(res, d) := hev_mapped_dns_construct (zeroed max_) net_ mask_ max_ in
    if res <? 0 then None else Some d.

(** ** Nodes *)

Definition load (d : HevMappedDNS) (a : Z) : outcome HevMappedDNSNode := of_option (nodes d !! a).

(** [hev_malloc0] zeroes the links. *)
Definition hev_mapped_dns_node_alloc (e : alloc) (d : HevMappedDNS) (key : bytes)
  : Z * HevMappedDNS :=
  if mem e =? NULL then (NULL, d)
  else
    let d := set_tree d (RBTree.mkRBTree (RBTree.root (tree d))
               (<[mem e := RBTree.mkRBNode 0 0 0]> (RBTree.cells (tree d)))) in
    let d := set_list d (hlist d, <[list_of (mem e) := HevList.mkLNode 0 0]> (lnodes d)) in
    (mem e, set_nodes d (<[mem e := mkDNSNode (if dup e then Some key else None) 0]> (nodes d))).

Definition hev_mapped_dns_node_free (d : HevMappedDNS) (node : Z) : HevMappedDNS :=
  let d := set_tree d (RBTree.mkRBTree (RBTree.root (tree d)) (delete node (RBTree.cells (tree d)))) in
  let d := set_list d (hlist d, delete (list_of node) (lnodes d)) in
  set_nodes d (delete node (nodes d)).

(** [hev_list_del] and [hev_list_add_tail] of the same node. *)
Definition move_to_tail (d : HevMappedDNS) (node : Z) : outcome HevMappedDNS :=
  let! (l, h) := HevList.hev_list_del (hlist d) (lnodes d) (list_of node) in
  let! p := HevList.hev_list_add_tail l h (list_of node) in
  Val (set_list d p).

(** [strcmp (node->name, name)]; a [NULL] name is dereferenced. *)
Definition node_cmp (d : HevMappedDNS) (key : bytes) (a : Z) : outcome Z :=
  let! n := load d a in
  let! nm := of_option (name n) in
  Val (bytes_cmp nm key).

(** ** [hev_mapped_dns_find] *)

(** The index for a new node: the next unused one, or that of the node used
    longest ago, which is dropped. *)
Definition take_index (fuel : nat) (idx_ : Z) (d : HevMappedDNS) : outcome (Z * HevMappedDNS) :=
  if use d <? max d then Val (idx_, set_use d (use d + 1))
  else
    let nl := HevList.hev_list_first (hlist d) in
    let nf := node_of_list nl in
    let! n := load d nf in
    let! (_, t) := RBTree.hev_rbtree_erase fuel nf (tree d) in
    let d := set_tree d t in
    let! p := HevList.hev_list_del (hlist d) (lnodes d) (list_of nf) in
    let d := set_list d p in
    Val (idx n, hev_mapped_dns_node_free d nf).

Definition hev_mapped_dns_find (fuel : nat) (e : alloc) (d : HevMappedDNS) (key : bytes)
  : outcome (Z * HevMappedDNS) :=
  let idx_ := use d in
  let! (r, _) :=
    search_loop fuel (node_cmp d key) (RBTree.root (tree d)) NULL RBTree.LRoot (tree d) in
  let '(found, parent, new_) := r in
  if negb (found =? NULL) then
    let! d := move_to_tail d found in
    let! n := load d found in
    Val (idx n, d)
  else
    let '(node, d) := hev_mapped_dns_node_alloc e d key in
    if node =? NULL then Val (-1, d)
    else
      let! (_, t) := (RBTree.hev_rbtree_node_link node parent new_ ;;;
                      RBTree.hev_rbtree_insert_color fuel node) (tree d) in
      let d := set_tree d t in
      let! p := HevList.hev_list_add_tail (hlist d) (lnodes d) (list_of node) in
      let d := set_list d p in
      let! (i, d) := take_index fuel idx_ d in
      let! r := aset (records d) i node in
      let d := set_records d r in
      let! n := load d node in
      let d := set_nodes d (<[node := mkDNSNode (name n) i]> (nodes d)) in
      Val (i, d).

(** ** [hev_mapped_dns_lookup] *)

(** [None] is the [NULL] result; a node without a name returns it as well. *)
Definition hev_mapped_dns_lookup (d : HevMappedDNS) (ip : Z)
  : outcome (option bytes * HevMappedDNS) :=
  let i := Z.land ip (Z.lnot (mask d)) in
  if i >=? max d then Val (None, d)
  else
    let! node := rd (records d) i in
    if node =? NULL then Val (None, d)
    else
      let! d := move_to_tail d node in
      let! n := load d node in
      Val (name n, d).

(** [hev_mapped_dns_destruct] frees every node of the list. *)
Fixpoint destruct_loop (fuel : nat) (d : HevMappedDNS) (n : Z) : outcome HevMappedDNS :=
  if n =? NULL then Val d
  else
    match fuel with
    | O => Fault
    | S fuel =>
        let t := node_of_list n in
        let! nx := HevList.hev_list_node_next (lnodes d) n in
        let! _ := load d t in
        destruct_loop fuel (hev_mapped_dns_node_free d t) nx
    end.

Definition hev_mapped_dns_destruct (fuel : nat) (d : HevMappedDNS) : outcome HevMappedDNS :=
  destruct_loop fuel d (HevList.hev_list_first (hlist d)).

(** ** Specification: entries in order of last use *)

Abbreviation cache := (list (bytes * Z)).

(** [find]: an entry that exists is used again; otherwise a free index is taken
    while there is one, then that of the entry used longest ago. *)
Definition cache_find (mx : Z) (ok : bool) (c : cache) (key : bytes) : Z * cache :=
  match list_find (fun e => fst e = key) c with
  | Some (i, e) => (snd e, delete i c ++ [e])
  | None =>
      if negb ok then (-1, c)
      else if zlen c <? mx then (zlen c, c ++ [(key, zlen c)])
      else match c with
           | [] => (-1, c)
           | (_, i) :: c' => (i, c' ++ [(key, i)])
           end
  end.

(** [lookup]: the entry with the index, which is used again. *)
Definition cache_lookup (c : cache) (i : Z) : option bytes * cache :=
  match list_find (fun e => snd e = i) c with
  | Some (j, e) => (Some (fst e), delete j c ++ [e])
  | None => (None, c)
  end.

(** ** Representation *)

Definition key_of (d : HevMappedDNS) (a : Z) : bytes := default [] (nodes d !! a ≫= name).

(** The node at [a] holds the entry [e], and the array finds it. *)
Definition holds (d : HevMappedDNS) (a : Z) (e : bytes * Z) : Prop :=
  nodes d !! a = Some (mkDNSNode (Some (fst e)) (snd e)) /\
  0 <= snd e < use d /\ records d !! Z.to_nat (snd e) = Some a.

Record dns_ok (d : HevMappedDNS) (L : list Z) (c : cache) : Prop := {
  ok_tree : index (tree d) (key_of d) L;
  ok_list : HevList.dlist (lnodes d) (hlist d) (list_of <$> L);
  ok_nodes : Forall2 (holds d) L c;
  ok_use : use d = zlen c;
  ok_max : 0 < max d <= Z.lnot (mask d);
  ok_room : zlen c <= max d;
  ok_records : length (records d) = Z.to_nat (max d);
  ok_free : forall i, use d <= i < max d -> records d !! Z.to_nat i = Some NULL;
  ok_cover : forall i, 0 <= i < use d -> exists e, e ∈ c /\ snd e = i;
  ok_dom : forall a n, nodes d !! a = Some n -> a ∈ L;
}.

Definition dns_rep (d : HevMappedDNS) (c : cache) : Prop := exists L, dns_ok d L c.

(** ** Using an entry *)

Lemma list_of_inj : Inj (=) (=) list_of.
Proof. intros a b. unfold list_of. lia. Qed.
#[local] Existing Instance list_of_inj.

Lemma holds_key d a e : holds d a e -> key_of d a = fst e.
Proof. intros (H & _). unfold key_of. by rewrite H. Qed.

Section used.
Context (d : HevMappedDNS) (L : list Z) (c : cache) (Hok : dns_ok d L c).

Lemma ok_member a : a ∈ L -> exists e, e ∈ c /\ holds d a e.
Proof.
  intros Ha. destruct (list_elem_of_lookup_1 _ _ Ha) as [i Hi].
  destruct (Forall2_lookup_l _ _ _ _ _ (ok_nodes _ _ _ Hok) Hi) as (e & He & Hh).
  exists e. split; [by eapply list_elem_of_lookup_2|done].
Qed.

Lemma node_cmp_ok key a : a ∈ L -> node_cmp d key a = Val (kcmp (key_of d a) key).
Proof.
  intros (e & _ & Hh)%ok_member. rewrite (holds_key _ _ _ Hh). destruct Hh as (Hn & _).
  unfold node_cmp, load. by rewrite Hn.
Qed.

Lemma ok_length : length L = length c.
Proof. eapply Forall2_length, ok_nodes, Hok. Qed.

Lemma list_of_nonnull a : a ∈ L -> list_of a <> NULL.
Proof.
  intros Ha. destruct (ok_list _ _ _ Hok) as [_ Hs]. eapply HevList.dseg_nonnull; [exact Hs|].
  by apply list_elem_of_fmap_2.
Qed.

(** The entry of a member and its position. *)
Lemma ok_split a : a ∈ L ->
  exists L1 L2 c1 e c2, L = L1 ++ a :: L2 /\ c = c1 ++ e :: c2 /\ holds d a e /\
    Forall2 (holds d) L1 c1 /\ Forall2 (holds d) L2 c2 /\ (a ∉ L1) /\ (a ∉ L2).
Proof.
  intros Ha. pose proof (index_NoDup _ _ _ (ok_tree _ _ _ Hok)) as ND.
  apply list_elem_of_split in Ha as (L1 & L2 & EL). pose proof (ok_nodes _ _ _ Hok) as HF.
  rewrite EL in HF, ND. apply Forall2_app_inv_l in HF as (c1 & c' & H1 & H2 & Ec).
  apply Forall2_cons_inv_l in H2 as (e & c2 & He & H2 & ->).
  apply NoDup_app in ND as (_ & D & [N2 _]%NoDup_cons).
  exists L1, L2, c1, e, c2. split_and!; try done. intros C. apply (D a C). left.
Qed.

(** [move_to_tail] makes the entry the last one used. *)
Lemma move_to_tail_ok L1 a L2 c1 e c2 :
  L = L1 ++ a :: L2 -> c = c1 ++ e :: c2 -> holds d a e ->
  Forall2 (holds d) L1 c1 -> Forall2 (holds d) L2 c2 ->
  exists d', move_to_tail d a = Val d' /\ dns_ok d' (L1 ++ L2 ++ [a]) (c1 ++ c2 ++ [e]) /\
    nodes d' = nodes d.
Proof.
  intros EL Ec He H1 H2. pose proof (ok_list _ _ _ Hok) as Hl.
  assert (a ∈ L) as Ha by (rewrite EL; apply elem_of_app; right; left).
  destruct (HevList.del_ok _ _ _ (list_of a) Hl) as (l1 & h1 & E1 & D1 & C1 & _);
    [by apply list_elem_of_fmap_2|].
  assert (HevList.seq_del (list_of <$> L) (list_of a) = list_of <$> (L1 ++ L2)) as ED.
  { rewrite EL, fmap_app, fmap_cons, fmap_app. apply HevList.seq_del_middle.
    destruct Hl as [ND _]. by rewrite EL, fmap_app, fmap_cons in ND. }
  rewrite ED in D1.
  assert (exists o, lnodes d !! list_of a = Some o) as [o Ho].
  { destruct Hl as [_ Hs]. rewrite EL, fmap_app, fmap_cons in Hs.
    apply HevList.dseg_app in Hs as (j & jn & _ & _ & _ & r & Hr & _). eauto. }
  assert (list_of a ∉ (list_of <$> (L1 ++ L2))) as Hna.
  { intros (b & Eb & Hb)%list_elem_of_fmap_1. apply list_of_inj in Eb as ->.
    pose proof (index_NoDup _ _ _ (ok_tree _ _ _ Hok)) as ND. rewrite EL in ND.
    apply NoDup_app in ND as (_ & D & [N2 _]%NoDup_cons).
    apply elem_of_app in Hb as [Hb|Hb]; [apply (D b Hb); left|done]. }
  destruct (HevList.add_tail_ok h1 l1 _ (list_of a) o D1 Hna (list_of_nonnull a Ha)) as (l2 & h2 & E2 & D2 & _);
    [congruence|].
  eexists. split; [unfold move_to_tail; rewrite E1; cbn [obind]; rewrite E2; reflexivity|].
  split; [|done]. destruct Hok. split; cbn; try done.
  - assert (L1 ++ L2 ++ [a] ≡ₚ L) as -> by (rewrite EL; solve_Permutation). done.
  - rewrite app_assoc, fmap_app. exact D2.
  - by apply Forall2_app; [|apply Forall2_app; [|constructor]].
  - rewrite ok_use0, Ec, !zlen_app. cbn. unfold zlen. cbn. lia.
  - rewrite Ec, !zlen_app in *. unfold zlen in *. cbn in *. lia.
  - intros i Hi. destruct (ok_cover0 i Hi) as (e' & He' & Ei). exists e'. split; [|done].
    assert (c1 ++ c2 ++ [e] ≡ₚ c) as -> by (rewrite Ec; solve_Permutation). done.
  - intros b n Hb. assert (L1 ++ L2 ++ [a] ≡ₚ L) as -> by (rewrite EL; solve_Permutation). eauto.
Qed.
End used.

(** Searching a list at a known position. *)
Lemma list_find_at {A} (P : A -> Prop) `{!forall x, Decision (P x)} c1 e c2 :
  P e -> (forall x, x ∈ c1 -> ~ P x) -> list_find P (c1 ++ e :: c2) = Some (length c1, e).
Proof.
  intros He Hn. apply list_find_Some. split; [|split; [done|]].
  - by rewrite lookup_app_r, Nat.sub_diag by lia.
  - intros j y Hj Hlt. apply Hn. rewrite lookup_app_l in Hj by done. by eapply list_elem_of_lookup_2.
Qed.

Lemma list_find_none {A} (P : A -> Prop) `{!forall x, Decision (P x)} c :
  (forall x, x ∈ c -> ~ P x) -> list_find P c = None.
Proof. intros Hn. apply list_find_None. by apply Forall_forall. Qed.

(** ** A node between linking and registration *)

(** [a] is linked with the name [key] but has no index yet; [i] is free for it. *)
Record pending (d : HevMappedDNS) (L : list Z) (c : cache) (a : Z) (key : bytes) : Prop := {
  pd_tree : index (tree d) (key_of d) (a :: L);
  pd_list : HevList.dlist (lnodes d) (hlist d) (list_of <$> (L ++ [a]));
  pd_nodes : Forall2 (holds d) L c;
  pd_node : exists i, nodes d !! a = Some (mkDNSNode (Some key) i);
  pd_max : 0 < max d <= Z.lnot (mask d);
  pd_records : length (records d) = Z.to_nat (max d);
  pd_free : forall i, use d <= i < max d -> records d !! Z.to_nat i = Some NULL;
  pd_dom : forall b n, nodes d !! b = Some n -> b ∈ a :: L;
}.

Lemma register_ok d L c a key i :
  pending d L c a key -> use d = zlen c + 1 -> use d <= max d -> 0 <= i < use d ->
  (forall e, e ∈ c -> snd e <> i) ->
  (forall j, 0 <= j < use d -> j = i \/ exists e, e ∈ c /\ snd e = j) ->
  exists d', (let! r := aset (records d) i a in
     let d := set_records d r in
     let! n := load d a in
     let d := set_nodes d (<[a := mkDNSNode (name n) i]> (nodes d)) in
     Val (i, d)) = Val (i, d') /\ dns_ok d' (L ++ [a]) (c ++ [(key, i)]) /\
    max d' = max d /\ net d' = net d /\ mask d' = mask d.
Proof.
  intros [Ht Hl Hn [i0 Ha] Hm Hr Hf Hd] Hu Hum Hi Hne Hcov.
  pose proof (index_NoDup _ _ _ Ht) as [HaL _]%NoDup_cons.
  rewrite aset_ok by (unfold zlen; lia). cbn [obind]. unfold load. cbn [nodes set_records].
  rewrite Ha. cbn [of_option obind name]. eexists. split; [reflexivity|].
  assert (forall b e, b ∈ L -> e ∈ c -> holds d b e ->
    holds (set_nodes (set_records d (<[Z.to_nat i:=a]> (records d)))
      (<[a := mkDNSNode (Some key) i]> (nodes d))) b e) as Hh.
  { intros b e Hb He (N & R & S). unfold holds. cbn. rewrite lookup_insert_ne by (intros ->; done).
    split_and!; [done|lia|lia|]. rewrite list_lookup_insert_ne; [done|].
    specialize (Hne e He). lia. }
  split; [|done]. split; cbn; try done.
  - assert (L ++ [a] ≡ₚ a :: L) as -> by (rewrite Permutation_app_comm; done).
    eapply index_frame; [done|done| |exact Ht]. intros y Hy. unfold key_of. cbn.
    destruct (decide (y = a)) as [->|]; [by rewrite lookup_insert_eq, Ha|by rewrite lookup_insert_ne].
  - apply Forall2_app.
    + eapply Forall2_mono_in; [exact Hn|]. intros b e. rewrite <- !list_elem_of_In. auto.
    + constructor; [|done]. split; cbn; [by rewrite lookup_insert_eq|]. split; [lia|].
      by rewrite list_lookup_insert_eq by lia.
  - rewrite Hu, zlen_app. unfold zlen. cbn. lia.
  - rewrite zlen_app. unfold zlen in *. cbn. lia.
  - by rewrite length_insert.
  - intros j Hj. rewrite list_lookup_insert_ne by lia. by apply Hf.
  - intros j Hj. destruct (Hcov j Hj) as [->|(e & He & Ej)].
    + exists (key, i). split; [apply elem_of_app; right; left|done].
    + exists e. split; [apply elem_of_app; by left|done].
  - intros b n Hb. destruct (decide (b = a)) as [->|Hne']; [apply elem_of_app; right; left|].
    rewrite lookup_insert_ne in Hb by done. apply Hd, elem_of_cons in Hb as [|]; [done|].
    apply elem_of_app. by left.
Qed.

(** ** Linking a new node *)

(** The allocator returned a block that is not in use, and [strdup] a copy. *)
Definition fresh_alloc (d : HevMappedDNS) (e : alloc) : Prop :=
  RBTreeRep.aligned (mem e) /\ mem e <> NULL /\ nodes d !! mem e = None /\ dup e = true.

Lemma link_new_ok fuel e d L c key parent lk :
  dns_ok d L c -> fresh_alloc d e -> insert_point (tree d) (key_of d) L key parent lk ->
  (length L < fuel)%nat ->
  exists d1,
    (let! (_, t) := (RBTree.hev_rbtree_node_link (mem e) parent lk ;;;
        RBTree.hev_rbtree_insert_color fuel (mem e))
        (tree (snd (hev_mapped_dns_node_alloc e d key))) in
     let d := set_tree (snd (hev_mapped_dns_node_alloc e d key)) t in
     let! p := HevList.hev_list_add_tail (hlist d) (lnodes d) (list_of (mem e)) in
     Val (set_list d p)) = Val d1 /\
    pending d1 L c (mem e) key /\ use d1 = use d /\ max d1 = max d /\ net d1 = net d /\ mask d1 = mask d.
Proof.
  intros Hok (Al & Hn & Hfr & Hdup) Hip Hf. set (a := mem e) in *.
  assert (a ∉ L) as HaL.
  { intros (x & _ & N & _)%(ok_member d L c Hok). congruence. }
  unfold hev_mapped_dns_node_alloc. fold a. rewrite (proj2 (Z.eqb_neq _ _) Hn), Hdup. cbn [snd].
  match goal with |- context [set_nodes ?x ?n] => set (d0 := set_nodes x n) end.
  assert (forall y, y ∈ L -> key_of d0 y = key_of d y) as Ek.
  { intros y Hy. unfold key_of, d0. cbn. rewrite lookup_insert_ne; [done|]. by intros <-. }
  destruct (index_insert fuel (tree d) (key_of d) L key parent lk (tree d0) (key_of d0) a
    (RBTree.mkRBNode 0 0 0) Hip) as (s2 & E2 & I2 & _); try done.
  { intros y Hy. unfold d0. cbn. rewrite lookup_insert_ne; [done|]. by intros <-. }
  { unfold key_of, d0. cbn. by rewrite lookup_insert_eq. }
  { unfold d0. cbn. by rewrite lookup_insert_eq. }
  rewrite E2. cbn [obind]. cbn [set_tree hlist lnodes].
  assert (HevList.dlist (lnodes d0) (hlist d0) (list_of <$> L)) as Hl0.
  { destruct (ok_list _ _ _ Hok) as [ND Hs]. split; [done|]. eapply HevList.dseg_frame; [|exact Hs].
    intros x (y & -> & Hy)%list_elem_of_fmap_1. unfold d0. cbn. rewrite lookup_insert_ne; [done|].
    intros E%list_of_inj. by subst. }
  destruct (HevList.add_tail_ok _ _ _ (list_of a) (HevList.mkLNode 0 0) Hl0) as (l' & h' & E & D & _).
  { intros (y & E%list_of_inj & Hy)%list_elem_of_fmap_1. by subst. }
  { destruct Al. unfold list_of, HevList.NULL. lia. }
  { unfold d0. cbn. by rewrite lookup_insert_eq. }
  rewrite E. eexists. split; [reflexivity|]. split; [|done]. destruct Hok.
  split; cbn; try done.
  - rewrite fmap_app. exact D.
  - eapply Forall2_mono_in; [exact ok_nodes0|]. intros b x Hb _ (N & R & S). split_and!; cbn; try done; try lia.
    rewrite lookup_insert_ne; [done|]. intros <-. apply HaL. by apply list_elem_of_In.
  - exists 0. by rewrite lookup_insert_eq.
  - intros b n Hb. destruct (decide (b = a)) as [->|Hne']; [left|].
    rewrite lookup_insert_ne in Hb by done. right. eauto.
Qed.

(** ** The index of the new node *)

Lemma take_index_free fuel d L c a key :
  pending d L c a key -> use d = zlen c -> zlen c < max d ->
  (forall j, 0 <= j < use d -> exists e, e ∈ c /\ snd e = j) ->
  (forall e, e ∈ c -> 0 <= snd e < use d) ->
  exists d1, take_index fuel (use d) d = Val (zlen c, d1) /\ pending d1 L c a key /\
    use d1 = zlen c + 1 /\ max d1 = max d /\ net d1 = net d /\ mask d1 = mask d.
Proof.
  intros [Ht Hl Hn Ha Hm Hr Hf Hd] Hu Hlt Hc Hb. unfold take_index.
  rewrite (proj2 (Z.ltb_lt _ _)) by lia. rewrite Hu. eexists. split; [reflexivity|].
  split; [|done]. split; cbn; try done.
  - eapply Forall2_mono_in; [exact Hn|]. intros b x _ _ (N & R & S). split_and!; cbn; try done; lia.
  - intros i Hi. apply Hf. lia.
Qed.

Lemma take_index_evict fuel d f L e0 c a key :
  pending d (f :: L) (e0 :: c) a key -> max d <= use d -> (S (length L) < fuel)%nat ->
  exists d1, take_index fuel (use d) d = Val (snd e0, d1) /\ pending d1 L c a key /\
    use d1 = use d /\ max d1 = max d /\ net d1 = net d /\ mask d1 = mask d.
Proof.
  intros [Ht Hl Hn Ha Hm Hr Hf Hd] Hu Hfuel. unfold take_index.
  rewrite (proj2 (Z.ltb_ge _ _)) by lia.
  assert (node_of_list (HevList.hev_list_first (hlist d)) = f) as ->.
  { destruct Hl as [_ (E & _)]. unfold HevList.hev_list_first. rewrite E. unfold node_of_list, list_of. lia. }
  apply Forall2_cons in Hn as [(N & R & S) Hn].
  pose proof (index_NoDup _ _ _ Ht) as NDL. unfold load. rewrite N. cbn [of_option obind idx].
  destruct (index_erase fuel _ _ _ f (a :: L) Ht) as (t1 & E1 & I1 & _).
  { solve_Permutation. } { cbn. lia. }
  rewrite E1. cbn [obind set_tree hlist lnodes].
  destruct (HevList.del_ok _ _ _ (list_of f) Hl) as (l1 & h1 & E2 & D2 & _); [left|].
  assert (HevList.seq_del (list_of <$> (f :: L) ++ [a]) (list_of f) = list_of <$> (L ++ [a])) as ED.
  { rewrite <- app_comm_cons, fmap_cons. apply (HevList.seq_del_middle [] _ _). by destruct Hl. }
  rewrite ED in D2. rewrite E2. eexists. split; [reflexivity|]. split; [|done].
  apply NoDup_cons in NDL as [Na Nf]. apply NoDup_cons in Nf as [Nf _].
  assert (a <> f) as Naf by (intros ->; apply Na; left).
  split; cbn; try done.
  - eapply (index_frame t1); [done| | |exact I1]; intros y Hy.
    + cbn. rewrite lookup_delete_ne; [done|]. intros <-. by apply elem_of_cons in Hy as [?|?].
    + unfold key_of. cbn. rewrite lookup_delete_ne; [done|]. intros <-. by apply elem_of_cons in Hy as [?|?].
  - destruct D2 as [ND Hs]. split; [done|]. eapply HevList.dseg_frame; [|exact Hs].
    intros x (y & -> & Hy)%list_elem_of_fmap_1. rewrite lookup_delete_ne; [done|].
    intros E%list_of_inj. subst y. by apply elem_of_app in Hy as [?|?%list_elem_of_singleton].
  - eapply Forall2_mono_in; [exact Hn|]. intros b x Hb _ (N' & R' & S'). split_and!; cbn; try done; try lia.
    rewrite lookup_delete_ne; [done|]. intros <-. apply Nf. by apply list_elem_of_In.
  - destruct Ha as [i Ha]. exists i. by rewrite lookup_delete_ne.
  - intros b n [Hbf Hb]%lookup_delete_Some. apply Hd in Hb.
    apply elem_of_cons in Hb as [->|[->|Hb]%elem_of_cons]; [left|done|by right].
Qed.

(** Two entries never share an index, nor a name. *)
Lemma holds_idx_ne d a e L c :
  holds d a e -> Forall2 (holds d) L c -> a ∉ L -> forall x, x ∈ c -> snd x <> snd e.
Proof.
  intros (_ & R & S) HF HaL x [j Hj]%list_elem_of_lookup_1 E.
  destruct (Forall2_lookup_r _ _ _ _ _ HF Hj) as (b & Hb & (_ & _ & S')).
  rewrite E, S in S'. injection S' as <-. apply HaL. by eapply list_elem_of_lookup_2.
Qed.

Lemma holds_name_ne d a e L c :
  dns_ok d L c -> a ∈ L -> holds d a e -> forall L1 c1, Forall2 (holds d) L1 c1 ->
  (forall b, b ∈ L1 -> b ∈ L) -> a ∉ L1 -> forall x, x ∈ c1 -> fst x <> fst e.
Proof.
  intros Hok Ha He L1 c1 HF Hsub Hn x [j Hj]%list_elem_of_lookup_1 E.
  destruct (Forall2_lookup_r _ _ _ _ _ HF Hj) as (b & Hb & Hx).
  apply list_elem_of_lookup_2 in Hb. apply Hn.
  assert (a = b) as -> by (eapply (index_key_inj _ _ _ _ _ (ok_tree _ _ _ Hok)); auto;
    rewrite (holds_key _ _ _ He), (holds_key _ _ _ Hx); done).
  done.
Qed.

Lemma find_hit fuel e d L c key a parent lk :
  dns_ok d L c -> a ∈ L -> a <> NULL -> key_of d a = key ->
  search_loop fuel (node_cmp d key) (RBTree.root (tree d)) NULL RBTree.LRoot (tree d)
    = Val ((a, parent, lk), tree d) ->
  exists d', hev_mapped_dns_find fuel e d key = Val (fst (cache_find (max d) true c key), d') /\
    dns_rep d' (snd (cache_find (max d) true c key)) /\
    list_find (fun e => fst e = key) c <> None /\
    max d' = max d /\ net d' = net d /\ mask d' = mask d.
Proof.
  intros Hok Ha Hn Hk Hs. unfold hev_mapped_dns_find. rewrite Hs. cbn [obind].
  rewrite (proj2 (Z.eqb_neq _ _) Hn). cbn [negb].
  destruct (ok_split d L c Hok a Ha) as (L1 & L2 & c1 & x & c2 & EL & Ec & Hx & H1 & H2 & N1 & N2).
  destruct (move_to_tail_ok d L c Hok L1 a L2 c1 x c2 EL Ec Hx H1 H2) as (d' & E & Hok' & En).
  rewrite E. cbn [obind]. unfold load. rewrite En. destruct Hx as (Hnx & Hx').
  rewrite Hnx. cbn [of_option obind idx].
  assert (list_find (fun e => fst e = key) c = Some (length c1, x)) as EF.
  { rewrite Ec. assert (holds d a x) as Hx by done.
    rewrite (holds_key _ _ _ Hx) in Hk. apply list_find_at; [done|]. intros y Hy.
    rewrite <- Hk. eapply (holds_name_ne d a x L c Hok Ha Hx L1 c1); [done| |done|done].
    intros b Hb. rewrite EL. apply elem_of_app. by left. }
  exists d'. unfold cache_find. rewrite EF. cbn [fst snd]. split; [done|]. split.
  - exists (L1 ++ L2 ++ [a]). rewrite Ec, delete_middle, <- app_assoc. exact Hok'.
  - split; [done|]. unfold move_to_tail in E. outcome_inv. by destruct a0; outcome_inv.
Qed.

Lemma no_entry d L c key :
  dns_ok d L c -> (forall x, x ∈ L -> key_of d x <> key) -> list_find (fun e => fst e = key) c = None.
Proof.
  intros Hok Hno. apply list_find_none. intros x [j Hj]%list_elem_of_lookup_1 E.
  destruct (Forall2_lookup_r _ _ _ _ _ (ok_nodes _ _ _ Hok) Hj) as (b & Hb & Hx).
  apply list_elem_of_lookup_2 in Hb. apply (Hno b Hb). by rewrite (holds_key _ _ _ Hx).
Qed.

(** Registering the linked node under the index [cache_find] gives it. *)
Lemma register_new fuel d d1 L c a key :
  dns_ok d L c -> pending d1 L c a key ->
  use d1 = use d -> max d1 = max d -> net d1 = net d -> mask d1 = mask d ->
  (length c + 1 < fuel)%nat -> list_find (fun e => fst e = key) c = None ->
  exists d', (let! (i, d) := take_index fuel (use d) d1 in
     let! r := aset (records d) i a in
     let d := set_records d r in
     let! n := load d a in
     let d := set_nodes d (<[a := mkDNSNode (name n) i]> (nodes d)) in
     Val (i, d)) = Val (fst (cache_find (max d) true c key), d') /\
    dns_rep d' (snd (cache_find (max d) true c key)) /\
    max d' = max d /\ net d' = net d /\ mask d' = mask d.
Proof.
  intros Hok P1 U1 M1 N1 K1 Hf Hno. pose proof (ok_length _ _ _ Hok) as HLc.
  unfold cache_find. rewrite Hno.
  cbn [negb]. pose proof Hok as [_ _ HF HU HM HR _ _ HC _]. destruct (Z.ltb_spec (zlen c) (max d)) as [Hlt|Hge].
  - destruct (take_index_free fuel d1 L c a key P1) as (d2 & E2 & P2 & U2 & M2 & N2 & K2);
      [congruence|lia|rewrite U1; done| |].
    { intros x [j Hj]%list_elem_of_lookup_1. destruct (Forall2_lookup_r _ _ _ _ _ (pd_nodes _ _ _ _ _ P1) Hj)
        as (b & _ & _ & R & _). done. }
    rewrite <- U1, E2. cbn [obind].
    destruct (register_ok d2 L c a key (zlen c) P2) as (d3 & E3 & Hok3 & M3 & N3 & K3);
      [done|lia|unfold zlen in *; lia| | |].
    { intros x [j Hj]%list_elem_of_lookup_1. destruct (Forall2_lookup_r _ _ _ _ _ HF Hj)
        as (b & _ & _ & R & _). lia. }
    { intros j Hj. destruct (decide (j = zlen c)); [by left|]. right. apply HC. lia. }
    exists d3. split; [exact E3|]. split; [by exists (L ++ [a])|]. split_and!; congruence.
  - destruct L as [|f L], c as [|e0 c]; try (cbn in HLc; discriminate); [unfold zlen in Hge; cbn in Hge; lia|].
    destruct (take_index_evict fuel d1 f L e0 c a key P1) as (d2 & E2 & P2 & U2 & M2 & N2 & K2);
      [rewrite U1, M1, HU; lia|cbn in Hf, HLc; lia|].
    rewrite <- U1, E2. cbn [obind]. destruct e0 as [k0 i0]. cbn [snd] in *.
    assert (zlen ((k0, i0) :: c) = zlen c + 1) as EZ by (unfold zlen; cbn; lia).
    pose proof (Forall2_cons_1 _ _ _ _ _ HF) as [Hf0 HF'].
    pose proof (index_NoDup _ _ _ (ok_tree _ _ _ Hok)) as [Nf _]%NoDup_cons.
    destruct (register_ok d2 L c a key i0 P2) as (d3 & E3 & Hok3 & M3 & N3 & K3);
      [rewrite U2, U1, HU; lia|rewrite U2, M2, U1, M1, HU; lia|rewrite U2, U1; apply Hf0| | |].
    { exact (holds_idx_ne d f (k0, i0) L c Hf0 HF' Nf). }
    { intros j Hj. rewrite U2, U1 in Hj. destruct (HC j Hj) as (x & [->|Hx]%elem_of_cons & <-); eauto. }
    exists d3. split; [exact E3|]. split; [by exists (L ++ [a])|]. split_and!; congruence.
Qed.

Lemma find_miss fuel e d L c key parent lk :
  dns_ok d L c -> fresh_alloc d e -> (forall x, x ∈ L -> key_of d x <> key) ->
  insert_point (tree d) (key_of d) L key parent lk -> (length c + 1 < fuel)%nat ->
  search_loop fuel (node_cmp d key) (RBTree.root (tree d)) NULL RBTree.LRoot (tree d)
    = Val ((NULL, parent, lk), tree d) ->
  exists d', hev_mapped_dns_find fuel e d key = Val (fst (cache_find (max d) true c key), d') /\
    dns_rep d' (snd (cache_find (max d) true c key)) /\
    max d' = max d /\ net d' = net d /\ mask d' = mask d.
Proof.
  intros Hok Hfr Hno Hip Hf Hs. pose proof (ok_length _ _ _ Hok) as HLc.
  destruct (link_new_ok fuel e d L c key parent lk Hok Hfr Hip) as (d1 & E1 & P1 & U1 & M1 & N1 & K1); [lia|].
  unfold hev_mapped_dns_find. rewrite Hs. cbn [obind]. rewrite Z.eqb_refl. cbn [negb].
  assert (hev_mapped_dns_node_alloc e d key = (mem e, snd (hev_mapped_dns_node_alloc e d key))) as EA.
  { unfold hev_mapped_dns_node_alloc. destruct Hfr as (_ & Hn & _). by rewrite (proj2 (Z.eqb_neq _ _) Hn). }
  rewrite EA. destruct Hfr as (_ & Hn & _). rewrite (proj2 (Z.eqb_neq _ _) Hn).
  destruct ((_ ;;; _) _) as [[[] t]|]; [cbn [obind] in E1 |- *|done].
  destruct (HevList.hev_list_add_tail _ _ _) as [q|]; [cbn [obind] in E1 |- *|done].
  injection E1 as ->. eapply register_new; try done. by eapply no_entry.
Qed.

Lemma find_ok fuel e d c key :
  dns_rep d c -> mem e = NULL \/ fresh_alloc d e -> (length c + 1 < fuel)%nat ->
  exists d', hev_mapped_dns_find fuel e d key =
      Val (fst (cache_find (max d) (negb (mem e =? NULL)) c key), d') /\
    dns_rep d' (snd (cache_find (max d) (negb (mem e =? NULL)) c key)) /\
    max d' = max d /\ net d' = net d /\ mask d' = mask d.
Proof.
  intros [L Hok] He Hf. pose proof (ok_length _ _ _ Hok) as HLc.
  destruct (index_search fuel (tree d) (key_of d) L key (node_cmp d key) (ok_tree _ _ _ Hok))
    as (a & parent & lk & Es & [(Ha & Hn & Hk)|(-> & Hno & Hip)]);
    [intros a Ha; by apply (node_cmp_ok d L c Hok)|lia|..].
  - destruct (find_hit fuel e d L c key a parent lk Hok Ha Hn Hk Es) as (d' & E & R & Hs & Hp).
    exists d'. unfold cache_find in E, R |- *. destruct (list_find _ c); [|done]. done.
  - destruct He as [He|He].
    + exists d. rewrite He. cbn [negb]. change (NULL =? NULL) with true. cbn [negb].
      unfold cache_find. rewrite (no_entry d L c key Hok Hno).
      unfold hev_mapped_dns_find, hev_mapped_dns_node_alloc. rewrite Es, He. cbn. split; [done|].
      split; [by exists L|done].
    + destruct He as (? & Hn & ?). rewrite (proj2 (Z.eqb_neq _ _) Hn). cbn [negb].
      by eapply find_miss.
Qed.

(** ** Lookup *)

Lemma land_index m ip : 0 <= Z.lnot m -> 0 <= Z.land ip (Z.lnot m) <= Z.lnot m.
Proof.
  intros Hm. apply Z.ldiff_le; [done|]. apply Z.bits_inj'. intros n Hn.
  rewrite Z.ldiff_spec, Z.land_spec, Z.bits_0. by destruct (Z.testbit ip n), (Z.testbit (Z.lnot m) n).
Qed.

Lemma lookup_hit d L c i :
  dns_ok d L c -> 0 <= i < use d ->
  exists a d', rd (records d) i = Val a /\ a <> NULL /\
    (let! d := move_to_tail d a in let! n := load d a in Val (name n, d)) =
      Val (fst (cache_lookup c i), d') /\
    dns_rep d' (snd (cache_lookup c i)) /\ max d' = max d /\ net d' = net d /\ mask d' = mask d.
Proof.
  intros Hok Hi. pose proof Hok as [_ _ HF _ _ _ _ _ HC _].
  destruct (HC i Hi) as (x & [j Hj]%list_elem_of_lookup_1 & Ex).
  destruct (Forall2_lookup_r _ _ _ _ _ HF Hj) as (a & Ha & Hx).
  apply list_elem_of_lookup_2 in Ha. pose proof Hx as (_ & _ & S). rewrite Ex in S.
  rewrite (rd_lookup _ _ a) by (done || lia).
  assert (a <> NULL) as Hn.
  { destruct (ok_tree _ _ _ Hok) as (t & (_ & Ht & _) & _ & _ & P). rewrite <- P in Ha.
    destruct (member_path a t Ha) as (K & cc & l & r & ->).
    by apply RBTreeRep.rep_plug_seg in Ht as (_ & _ & ? & _). }
  destruct (ok_split d L c Hok a Ha) as (L1 & L2 & c1 & y & c2 & EL & Ec & Hy & H1 & H2 & N1 & N2).
  assert (x = y) as ->.
  { destruct Hx as (X & _), Hy as (Y & _). rewrite X in Y. destruct x, y. cbn in Y. congruence. }
  destruct (move_to_tail_ok d L c Hok L1 a L2 c1 y c2 EL Ec Hy H1 H2) as (d' & E & Hok' & En).
  assert (list_find (fun e => snd e = i) c = Some (length c1, y)) as EF.
  { rewrite Ec. apply list_find_at; [done|]. rewrite <- Ex. by eapply holds_idx_ne. }
  exists a, d'. split; [done|]. split; [done|]. rewrite E. cbn [obind]. unfold load. rewrite En.
  pose proof Hy as (Hny & _). rewrite Hny. unfold cache_lookup. rewrite EF. cbn [fst snd].
  split; [done|]. split.
  - exists (L1 ++ L2 ++ [a]). rewrite Ec, delete_middle, <- app_assoc. exact Hok'.
  - unfold move_to_tail in E. outcome_inv. by destruct a0; outcome_inv.
Qed.

Lemma lookup_ok d c ip :
  dns_rep d c ->
  exists d', hev_mapped_dns_lookup d ip =
      Val (fst (cache_lookup c (Z.land ip (Z.lnot (mask d)))), d') /\
    dns_rep d' (snd (cache_lookup c (Z.land ip (Z.lnot (mask d))))) /\
    max d' = max d /\ net d' = net d /\ mask d' = mask d.
Proof.
  intros [L Hok]. pose proof Hok as [_ _ HF HU HM HR Hlen Hfree HC _].
  unfold hev_mapped_dns_lookup. set (i := Z.land ip (Z.lnot (mask d))).
  pose proof (land_index (mask d) ip ltac:(lia)) as Hi. fold i in Hi.
  assert (use d <= i -> cache_lookup c i = (None, c)) as Hnone.
  { intros Hge. unfold cache_lookup. rewrite (list_find_none _ c); [done|].
    intros x [j Hj]%list_elem_of_lookup_1 E. destruct (Forall2_lookup_r _ _ _ _ _ HF Hj)
      as (b & _ & _ & R & _). lia. }
  rewrite Z.geb_leb. destruct (Z.leb_spec (max d) i) as [Hge|Hlt].
  { rewrite Hnone by lia. exists d. split; [done|]. split; [by exists L|done]. }
  destruct (Z.lt_ge_cases i (use d)) as [Hlu|Hgu].
  - destruct (lookup_hit d L c i Hok ltac:(lia)) as (a & d' & -> & Hn & E & R). cbn [obind].
    rewrite (proj2 (Z.eqb_neq _ _) Hn). by exists d'.
  - rewrite (rd_lookup _ _ NULL) by (lia || (apply Hfree; lia)). cbn [obind].
    rewrite Z.eqb_refl, Hnone by lia. exists d. split; [done|]. split; [by exists L|done].
Qed.

(** ** Construction and destruction *)

(** The cache that [hev_mapped_dns_new] returns. *)
Definition empty_dns (net_ mask_ max_ : Z) : HevMappedDNS :=
  mkDNS 0 max_ net_ mask_ (HevList.mkList NULL NULL) ∅ (RBTree.mkRBTree NULL ∅)
    (replicate (Z.to_nat max_) NULL) ∅.

Lemma empty_rep net_ mask_ max_ : 0 < max_ <= Z.lnot mask_ -> dns_rep (empty_dns net_ mask_ max_) [].
Proof.
  intros Hm. exists []. split; cbn; try done; try lia.
  - exists RBTreeRep.Leaf. split; [by split; [|split; [|constructor]]|]. split; [|by split; [constructor|]].
    split; [done|]. by exists 0%nat.
  - by split; [constructor|].
  - unfold zlen. cbn. lia.
  - by rewrite length_replicate.
  - intros i Hi. apply lookup_replicate. split; [done|lia].
Qed.

(** [hev_mapped_dns_new] fails exactly without memory or when the cache does
    not fit the host part of the network; otherwise it returns an empty cache. *)
Lemma dns_new_correct ok net_ mask_ max_ :
  match hev_mapped_dns_new ok net_ mask_ max_ with
  | None => ok = false \/ Z.lnot mask_ < max_
  | Some d => max_ <= Z.lnot mask_ /\ max d = max_ /\ net d = net_ /\ mask d = mask_ /\
      (0 < max_ -> dns_rep d [])
  end.
Proof.
  unfold hev_mapped_dns_new, hev_mapped_dns_construct. destruct ok; [|by left]. cbn [negb].
  rewrite Z.gtb_ltb. destruct (Z.ltb_spec (Z.lnot mask_) max_) as [Hlt|Hge]; cbn; [by right|].
  split_and!; try done. intros Hm. by apply (empty_rep net_ mask_ max_).
Qed.

Lemma destruct_loop_ok fuel d L pp q n :
  HevList.dseg (lnodes d) pp n (list_of <$> L) q HevList.NULL -> NoDup L ->
  (forall a, a ∈ L -> exists x, nodes d !! a = Some x) -> (length L <= fuel)%nat ->
  exists d', destruct_loop fuel d n = Val d' /\
    forall a, nodes d' !! a = if decide (a ∈ L) then None else nodes d !! a.
Proof.
  revert fuel d pp n. induction L as [|a L IH]; intros fuel d pp n Hs ND Hd Hf.
  { destruct Hs as [-> _]. exists d. split; [by destruct fuel|done]. }
  destruct Hs as (-> & Hn & r & Hr & Hs). destruct fuel as [|fuel]; [cbn in Hf; lia|].
  cbn [destruct_loop]. change RBTree.NULL with HevList.NULL. rewrite (proj2 (Z.eqb_neq _ _) Hn).
  unfold HevList.hev_list_node_next, HevList.load. rewrite Hr. cbn [of_option obind HevList.next].
  assert (node_of_list (list_of a) = a) as -> by (unfold node_of_list, list_of; lia).
  destruct (Hd a) as [x Hx]; [left|]. unfold load. rewrite Hx. cbn [of_option obind].
  apply NoDup_cons in ND as [Ha ND].
  destruct (IH fuel (hev_mapped_dns_node_free d a) (list_of a) r) as (d' & E & Hd').
  - eapply HevList.dseg_frame; [|exact Hs]. intros y (b & -> & Hb)%list_elem_of_fmap_1. cbn.
    rewrite lookup_delete_ne; [done|]. intros Eb%list_of_inj. by subst.
  - done.
  - intros b Hb. cbn. rewrite lookup_delete_ne by (intros <-; done). apply Hd. by right.
  - cbn in Hf. lia.
  - exists d'. split; [done|]. intros b. rewrite Hd'. cbn. destruct (decide (b ∈ L)) as [Hb|Hb].
    { by rewrite decide_True by (by right). }
    destruct (decide (b = a)) as [->|]; [by rewrite lookup_delete_eq, decide_True by left|].
    rewrite lookup_delete_ne, decide_False; [done| |done]. by intros [|]%elem_of_cons.
Qed.

(** [hev_mapped_dns_destruct] frees every node exactly once: it follows no
    freed pointer and leaves none allocated. *)
Lemma dns_destruct_ok fuel d c :
  dns_rep d c -> (length c <= fuel)%nat ->
  exists d', hev_mapped_dns_destruct fuel d = Val d' /\ nodes d' = ∅.
Proof.
  intros [L Hok] Hf. pose proof (ok_length _ _ _ Hok) as HL.
  destruct (ok_list _ _ _ Hok) as [_ Hs].
  destruct (destruct_loop_ok fuel d L _ _ _ Hs) as (d' & E & Hd').
  - eapply index_NoDup, ok_tree, Hok.
  - intros a Ha. destruct (ok_member d L c Hok a Ha) as (e & _ & Hn & _). eauto.
  - lia.
  - exists d'. split; [done|]. apply map_empty. intros a. rewrite Hd'.
    destruct (decide (a ∈ L)) as [|Ha]; [done|]. destruct (nodes d !! a) eqn:En; [|done].
    destruct Ha. by eapply ok_dom.
Qed.


(** ** Witnesses: 100.64.0.0/10, one name in a cache of two *)

Definition example_mask : Z := - 2 ^ 22.

Definition example_dns : HevMappedDNS :=
  match hev_mapped_dns_find 4 (mkAlloc 64 true) (empty_dns 1681915904 example_mask 2) [97] with
  | Val (_, d) => d
  | Fault => empty_dns 0 0 0
  end.

Lemma example_fresh a : 0 < a -> a mod 4 = 0 ->
  fresh_alloc (empty_dns 1681915904 example_mask 2) (mkAlloc a true).
Proof. intros H0 H4. split; [split; [cbn; lia|done]|]. split; [|done]. unfold NULL. cbn. lia. Qed.

Lemma example_rep : dns_rep example_dns [([97], 0)].
Proof.
  destruct (find_ok 4 (mkAlloc 64 true) (empty_dns 1681915904 example_mask 2) [] [97]) as (d & E & R & _).
  - apply empty_rep. split; concrete.
  - right. by apply example_fresh.
  - cbn. lia.
  - unfold example_dns. rewrite E. exact R.
Qed.


End MappedDNS.
