(* ===== verification/MappedDNSHist.v ===== *)
(** * How long a mapping of a name lasts

    A history of [hev_mapped_dns_find] and [hev_mapped_dns_lookup] calls: the
    address given out for a name keeps resolving to it while fewer distinct names
    than the cache can hold are used. *)

From Stdlib Require Import ZArith Lia.
From stdpp Require Import base list gmap numbers.
From S2P Require Import Prelude HevList RBTree RBTreeRep RBTreeSearch MappedDNS.
Import list_basics.list list_relations.list list_monad.list list_misc.list.
Import RBTreeSearch MappedDNS.

Module MappedDNSHist.

(** ** Entries that stay *)

(** The entry is in the cache, and every entry used after it has its name in [U]. *)
Definition kept (e : bytes * Z) (c : cache) (U : gset bytes) : Prop :=
  exists c1 c2, c = c1 ++ e :: c2 /\ forall x, x ∈ c2 -> fst x ∈ U.

Lemma split_unique {A} (l1 l2 k1 k2 : list A) x :
  NoDup (l1 ++ x :: l2) -> l1 ++ x :: l2 = k1 ++ x :: k2 -> l1 = k1 /\ l2 = k2.
Proof.
  revert k1. induction l1 as [|y l1 IH]; intros [|z k1] ND E; cbn in *; simplify_eq; [done|..].
  - apply NoDup_cons in ND as [ND _]. destruct ND. apply elem_of_app. right. left.
  - apply NoDup_cons in ND as [ND _]. destruct ND. apply elem_of_app. right. left.
  - apply NoDup_cons in ND as [_ ND]. by destruct (IH k1 ND H0) as [-> ->].
Qed.

Lemma kept_touch e x a b U :
  NoDup (a ++ x :: b) -> kept e (a ++ x :: b) U -> kept e (a ++ b ++ [x]) ({[fst x]} ∪ U).
Proof.
  intros ND (c1 & c2 & E & HU).
  assert (e ∈ a ++ x :: b) as [[a1 [a2 ->]]%list_elem_of_split|[->|[b1 [b2 ->]]%list_elem_of_split]%elem_of_cons]%elem_of_app
    by (rewrite E; apply elem_of_app; right; left).
  - rewrite <- app_assoc, <- app_comm_cons in E, ND. apply split_unique in E as [<- <-]; [|done].
    exists a1, (a2 ++ b ++ [x]). split; [by rewrite <- app_assoc|]. intros y Hy.
    assert (y ∈ a2 ++ x :: b) as Hy'%HU; [|by apply elem_of_union_r].
    rewrite elem_of_app, elem_of_cons. rewrite !elem_of_app, list_elem_of_singleton in Hy. tauto.
  - exists (a ++ b), []. split; [by rewrite <- app_assoc|]. by intros y Hy%elem_of_nil.
  - replace (a ++ x :: b1 ++ e :: b2) with ((a ++ x :: b1) ++ e :: b2) in E, ND by (list_norm; done).
    apply split_unique in E as [<- <-]; [|done].
    exists (a ++ b1), (b2 ++ [x]). split; [list_norm; done|]. intros y [Hy| ->%list_elem_of_singleton]%elem_of_app;
      [by apply elem_of_union_r, HU|by apply elem_of_union_l, elem_of_singleton].
Qed.

Lemma rep_names d c : dns_rep d c -> NoDup (fst <$> c) /\ zlen c <= max d.
Proof.
  intros [L Hok]. split; [|by eapply ok_room]. apply NoDup_fmap_2_strong.
  - intros x y Hx Hy E. destruct (list_elem_of_lookup_1 _ _ Hx) as [j Hj].
    destruct (list_elem_of_lookup_1 _ _ Hy) as [k Hk]. pose proof (ok_nodes _ _ _ Hok) as HF.
    destruct (Forall2_lookup_r _ _ _ _ _ HF Hj) as (a & Ha & Hxa).
    destruct (Forall2_lookup_r _ _ _ _ _ HF Hk) as (b & Hb & Hyb).
    assert (a = b) as <-.
    { apply (index_key_inj _ _ _ _ _ (ok_tree _ _ _ Hok)); [by eapply list_elem_of_lookup_2..|].
      by rewrite (holds_key _ _ _ Hxa), (holds_key _ _ _ Hyb). }
    destruct Hxa as (N1 & _), Hyb as (N2 & _). rewrite N1 in N2. destruct x, y. cbn in *. congruence.
  - apply NoDup_alt. intros j k x Hj Hk. pose proof (ok_nodes _ _ _ Hok) as HF.
    destruct (Forall2_lookup_r _ _ _ _ _ HF Hj) as (a & Ha & (_ & _ & Sa)).
    destruct (Forall2_lookup_r _ _ _ _ _ HF Hk) as (b & Hb & (_ & _ & Sb)).
    rewrite Sa in Sb. injection Sb as <-.
    exact (NoDup_lookup _ _ _ _ (index_NoDup _ _ _ (ok_tree _ _ _ Hok)) Ha Hb).
Qed.

Lemma rep_NoDup d c : dns_rep d c -> NoDup c.
Proof. intros [H _]%rep_names. by eapply NoDup_fmap_1. Qed.

(** Entries with names in a small set cannot fill the cache. *)
Lemma names_bound (c : cache) (U : gset bytes) :
  NoDup (fst <$> c) -> (forall x, x ∈ c -> fst x ∈ U) -> (length c <= size U)%nat.
Proof.
  intros ND HU. rewrite <- (length_fmap fst c), <- (size_list_to_set (C := gset bytes)) by done.
  apply subseteq_size. intros n. rewrite elem_of_list_to_set. intros (x & -> & Hx)%list_elem_of_fmap_1.
  by apply HU.
Qed.

Lemma kept_find (mx : Z) (ok : bool) (e : bytes * Z) (c : cache) (U : gset bytes) (k : bytes) :
  NoDup (fst <$> c) -> zlen c <= mx -> Z.of_nat (size ({[k]} ∪ U)) < mx ->
  kept e c U -> kept e (snd (cache_find mx ok c k)) ({[k]} ∪ U).
Proof.
  intros ND Hlen HU HK. pose proof (NoDup_fmap_1 _ _ ND) as ND'. unfold cache_find.
  assert (forall c', kept e c' U -> kept e c' ({[k]} ∪ U)) as Hmono.
  { intros c' (c1 & c2 & -> & H). exists c1, c2. split; [done|]. intros x Hx. by apply elem_of_union_r, H. }
  destruct (list_find _ c) as [[j x]|] eqn:E; cbn [snd].
  - apply list_find_Some in E as (Hj & <- & _). rewrite delete_take_drop, <- app_assoc.
    rewrite <- (take_drop_middle c j x Hj) in HK, ND'. by apply kept_touch.
  - apply list_find_None in E. rewrite Forall_forall in E.
    destruct ok; cbn [negb]; [|by apply Hmono]. destruct HK as (c1 & c2 & -> & Hc2).
    destruct (zlen _ <? mx) eqn:Ez; cbn [snd].
    { exists c1, (c2 ++ [(k, zlen (c1 ++ e :: c2))]). split; [list_norm; done|].
      intros x [Hx| ->%list_elem_of_singleton]%elem_of_app;
        [by apply elem_of_union_r, Hc2|by apply elem_of_union_l, elem_of_singleton]. }
    apply Z.ltb_ge in Ez. destruct c1 as [|[k1 i1] c1]; cbn [app].
    + exfalso. cbn in ND. apply NoDup_cons in ND as [_ ND]. rewrite app_nil_l in Ez.
      assert (length c2 + 1 <= size ({[k]} ∪ U))%nat as Hs; [|unfold zlen in Ez; cbn in Ez; lia].
      rewrite Nat.add_1_r. apply (names_bound ((k, 0) :: c2)).
      * cbn. apply NoDup_cons. split; [|done]. intros (x & Ex & Hx)%list_elem_of_fmap_1.
        apply (E x); [by right|done].
      * intros x [->|Hx]%elem_of_cons; [by apply elem_of_union_l, elem_of_singleton|by apply elem_of_union_r, Hc2].
    + exists c1, (c2 ++ [(k, i1)]). split; [list_norm; done|].
      intros x [Hx| ->%list_elem_of_singleton]%elem_of_app;
        [by apply elem_of_union_r, Hc2|by apply elem_of_union_l, elem_of_singleton].
Qed.

(** ** Histories *)

Inductive op :=
| OFind (key : bytes)
| OLookup (ip : Z).

Section history.
Context (alloc_at : HevMappedDNS -> alloc).

(** One call, with the names it used. *)
Definition exec (fuel : nat) (d : HevMappedDNS) (o : op) : outcome (gset bytes * HevMappedDNS) :=
  match o with
  | OFind key =>
      let! (_, d) := hev_mapped_dns_find fuel (alloc_at d) d key in Val ({[key]}, d)
  | OLookup ip =>
      let! (r, d) := hev_mapped_dns_lookup d ip in
      Val (match r with Some n => {[n]} | None => ∅ end, d)
  end.

Fixpoint run (fuel : nat) (d : HevMappedDNS) (ops : list op) : outcome (gset bytes * HevMappedDNS) :=
  match ops with
  | [] => Val (∅, d)
  | o :: ops =>
      let! (u, d) := exec fuel d o in
      let! (v, d) := run fuel d ops in
      Val (u ∪ v, d)
  end.

Context (alloc_fresh : forall d, mem (alloc_at d) = NULL \/ fresh_alloc d (alloc_at d)).

Lemma exec_ok fuel d c o :
  dns_rep d c -> (Z.to_nat (max d) + 1 < fuel)%nat ->
  exists u d' c', exec fuel d o = Val (u, d') /\ dns_rep d' c' /\
    max d' = max d /\ net d' = net d /\ mask d' = mask d /\
    forall e U, Z.of_nat (size (u ∪ U)) < max d -> kept e c U -> kept e c' (u ∪ U).
Proof.
  intros Hd Hf. destruct (rep_names d c Hd) as [ND Hlen]. destruct o as [key|ip]; cbn [exec].
  - destruct (find_ok fuel (alloc_at d) d c key Hd (alloc_fresh d)) as (d' & -> & Hd' & M & N & K);
      [unfold zlen in Hlen; lia|].
    cbn [obind]. do 3 eexists. split; [reflexivity|]. split_and!; try done.
    intros e U HU. by apply kept_find.
  - destruct (lookup_ok d c ip Hd) as (d' & -> & Hd' & M & N & K). cbn [obind].
    do 3 eexists. split; [reflexivity|]. split_and!; try done.
    intros e U _ HK. unfold cache_lookup. destruct (list_find _ c) as [[j x]|] eqn:E; cbn [fst snd].
    + apply list_find_Some in E as (Hj & _ & _). rewrite delete_take_drop, <- app_assoc.
      pose proof (rep_NoDup d c Hd) as ND'.
      rewrite <- (take_drop_middle c j x Hj) in HK, ND'. by apply kept_touch.
    + destruct HK as (c1 & c2 & -> & Hc). exists c1, c2. split; [done|]. intros x Hx.
      by apply elem_of_union_r, Hc.
Qed.

Lemma run_ok fuel d c ops :
  dns_rep d c -> (Z.to_nat (max d) + 1 < fuel)%nat ->
  exists u d' c', run fuel d ops = Val (u, d') /\ dns_rep d' c' /\
    max d' = max d /\ net d' = net d /\ mask d' = mask d /\
    forall e U, Z.of_nat (size (u ∪ U)) < max d -> kept e c U -> kept e c' (u ∪ U).
Proof.
  revert d c. induction ops as [|o ops IH]; intros d c Hd Hf; cbn [run].
  { exists ∅, d, c. split_and!; try done. intros e U _ (c1 & c2 & -> & Hc). exists c1, c2.
    split; [done|]. intros x Hx. by apply elem_of_union_r, Hc. }
  destruct (exec_ok fuel d c o Hd Hf) as (u & d1 & c1 & -> & Hd1 & M1 & N1 & K1 & Hk1). cbn [obind].
  destruct (IH d1 c1 Hd1) as (v & d2 & c2 & -> & Hd2 & M2 & N2 & K2 & Hk2); [by rewrite M1|]. cbn [obind].
  exists (u ∪ v), d2, c2. split_and!; try congruence; try done. intros e U HU HK.
  assert (v ∪ (u ∪ U) = u ∪ v ∪ U) as EU by (clear; set_solver). rewrite <- EU. apply Hk2.
  - rewrite EU. by rewrite M1.
  - apply Hk1; [|done]. eapply Z.le_lt_trans; [|exact HU]. apply inj_le, subseteq_size.
    clear. set_solver.
Qed.

End history.

(** ** The address of a name *)

Lemma rep_idx_inj d c x y : dns_rep d c -> x ∈ c -> y ∈ c -> snd x = snd y -> x = y.
Proof.
  intros [L Hok] [j Hj]%list_elem_of_lookup_1 [k Hk]%list_elem_of_lookup_1 E.
  pose proof (ok_nodes _ _ _ Hok) as HF.
  destruct (Forall2_lookup_r _ _ _ _ _ HF Hj) as (a & _ & (N1 & _ & S1)).
  destruct (Forall2_lookup_r _ _ _ _ _ HF Hk) as (b & _ & (N2 & _ & S2)).
  rewrite E, S2 in S1. injection S1 as ->. rewrite N1 in N2. destruct x, y. cbn in *. congruence.
Qed.

Lemma rep_idx_range d c x : dns_rep d c -> x ∈ c -> 0 <= snd x < max d.
Proof.
  intros [L Hok] [j Hj]%list_elem_of_lookup_1.
  destruct (Forall2_lookup_r _ _ _ _ _ (ok_nodes _ _ _ Hok) Hj) as (a & _ & (_ & R & _)).
  pose proof (ok_use _ _ _ Hok). pose proof (ok_room _ _ _ Hok). lia.
Qed.

(** The index returned by [find] is that of an entry with the name, used last. *)
Lemma find_kept mx ok (c : cache) key i :
  0 <= i -> fst (cache_find mx ok c key) = i -> kept (key, i) (snd (cache_find mx ok c key)) ∅.
Proof.
  intros Hi. unfold cache_find. destruct (list_find _ c) as [[j [k x]]|] eqn:E; cbn [fst snd].
  - apply list_find_Some in E as (_ & Ek & _). cbn in Ek. intros <-. subst k.
    exists (delete j c), []. split; [done|]. by intros y Hy%elem_of_nil.
  - destruct ok; cbn [negb fst snd]; [|lia]. destruct (zlen c <? mx); cbn [fst snd].
    { intros <-. exists c, []. split; [done|]. by intros y Hy%elem_of_nil. }
    destruct c as [|[k x] c]; cbn [fst snd]; [lia|]. intros <-.
    exists c, []. split; [done|]. by intros y Hy%elem_of_nil.
Qed.

(** Combining network and index keeps the index readable. *)
Lemma host_part net_ mask_ w i :
  0 <= w -> Z.lnot mask_ = Z.ones w -> Z.land net_ (Z.lnot mask_) = 0 -> 0 <= i <= Z.lnot mask_ ->
  Z.land (Z.lor net_ i) (Z.lnot mask_) = i.
Proof.
  intros Hw Em En Hi. rewrite Z.land_lor_distr_l, En, Z.lor_0_l, Em, Z.land_ones by done.
  rewrite Em, Z.ones_equiv in Hi. apply Z.mod_small. lia.
Qed.

Section stable.
Context (alloc_at : HevMappedDNS -> alloc).
Context (alloc_fresh : forall d, mem (alloc_at d) = NULL \/ fresh_alloc d (alloc_at d)).

(** A name keeps its address while it is among the last used ones.  Only the host
    part of the address matters. *)
Lemma mapping_kept fuel d c key i d1 ops a :
  dns_rep d c -> (Z.to_nat (max d) + 1 < fuel)%nat ->
  Z.land a (Z.lnot (mask d)) = i ->
  hev_mapped_dns_find fuel (alloc_at d) d key = Val (i, d1) -> 0 <= i ->
  exists u d2, run alloc_at fuel d1 ops = Val (u, d2) /\
    (Z.of_nat (size u) < max d ->
     exists d3, hev_mapped_dns_lookup d2 a = Val (Some key, d3)).
Proof.
  intros Hd Hf Ea Efind Hi. destruct (rep_names d c Hd) as [_ Hlen].
  destruct (find_ok fuel (alloc_at d) d c key Hd (alloc_fresh d)) as (d1' & E & Hd1 & M1 & N1 & K1);
    [unfold zlen in Hlen; lia|].
  rewrite Efind in E. injection E as Ei <-. symmetry in Ei. pose proof (find_kept _ _ _ _ _ Hi Ei) as HK.
  destruct (run_ok alloc_at alloc_fresh fuel d1 _ ops Hd1) as (u & d2 & c2 & Er & Hd2 & M2 & N2 & K2 & Hk2);
    [by rewrite M1|].
  exists u, d2. split; [done|]. intros Hu.
  destruct (Hk2 (key, i) ∅) as (c3 & c4 & Ec & _); [by rewrite (right_id_L ∅ (∪)), M1|done|].
  assert ((key, i) ∈ c2) as Hin by (rewrite Ec; apply elem_of_app; right; left).
  destruct (lookup_ok d2 c2 a Hd2) as (d3 & E3 & _). exists d3. rewrite E3.
  rewrite K2, K1, Ea. f_equal. f_equal.
  unfold cache_lookup. destruct (list_find _ c2) as [[j x]|] eqn:El; cbn [fst].
  - apply list_find_Some in El as (Hj & Ex & _). apply list_elem_of_lookup_2 in Hj.
    by rewrite (rep_idx_inj d2 c2 x (key, i) Hd2 Hj Hin Ex).
  - apply list_find_None in El. rewrite Forall_forall in El. by destruct (El _ Hin).
Qed.

(** The index of a found name is a host of the network. *)
Lemma find_host fuel d c key i d1 :
  dns_rep d c -> (Z.to_nat (max d) + 1 < fuel)%nat ->
  hev_mapped_dns_find fuel (alloc_at d) d key = Val (i, d1) -> 0 <= i -> i < Z.lnot (mask d).
Proof.
  intros Hd Hf Efind Hi. destruct (rep_names d c Hd) as [_ Hlen].
  destruct (find_ok fuel (alloc_at d) d c key Hd (alloc_fresh d)) as (d1' & E & Hd1 & M1 & N1 & K1);
    [unfold zlen in Hlen; lia|].
  rewrite Efind in E. injection E as Ei <-. symmetry in Ei.
  destruct (find_kept _ _ _ _ _ Hi Ei) as (c3 & c4 & Ec & _).
  assert (0 <= snd (key, i) < max d1) as Hr.
  { eapply rep_idx_range; [exact Hd1|]. rewrite Ec. apply elem_of_app. right. left. }
  assert (max d <= Z.lnot (mask d)) by (destruct Hd as [L Hok]; by destruct (ok_max _ _ _ Hok)).
  cbn in Hr. lia.
Qed.

(** after [hev_mapped_dns_find] gave a name an index, every history of finds
    and lookups that uses fewer distinct names than the cache holds leaves the
    address (network combined with index) resolving to that name.  The network is
    the zero host of a contiguous mask. *)
Theorem dns_mapping_stable fuel d c key i d1 ops w :
  dns_rep d c -> (Z.to_nat (max d) + 1 < fuel)%nat ->
  0 <= w -> Z.lnot (mask d) = Z.ones w -> Z.land (net d) (Z.lnot (mask d)) = 0 ->
  hev_mapped_dns_find fuel (alloc_at d) d key = Val (i, d1) -> 0 <= i ->
  exists u d2, run alloc_at fuel d1 ops = Val (u, d2) /\
    (Z.of_nat (size u) < max d ->
     exists d3, hev_mapped_dns_lookup d2 (Z.lor (net d) i) = Val (Some key, d3)).
Proof.
  intros Hd Hf Hw Em En Efind Hi. apply (mapping_kept fuel d c key i); try done.
  pose proof (find_host _ _ _ _ _ _ Hd Hf Efind Hi). apply (host_part _ _ w); done || lia.
Qed.

End stable.

(** ** Witness *)

(** A bump allocator: the next multiple of 64 above every node. *)
Definition bump (d : HevMappedDNS) : alloc :=
  mkAlloc (64 * (1 + foldr Z.max 0 (fst <$> map_to_list (nodes d)))) true.

Lemma foldr_max_ge l x : x ∈ l -> x <= foldr Z.max 0 l.
Proof. induction l as [|y l IH]; intros Hx; [by apply elem_of_nil in Hx|]. cbn.
  apply elem_of_cons in Hx as [->|Hx]; [lia|]. specialize (IH Hx). lia. Qed.

Lemma foldr_max_nonneg l : 0 <= foldr Z.max 0 l.
Proof. induction l as [|y l IH]; cbn; lia. Qed.

Lemma bump_fresh d : mem (bump d) = NULL \/ fresh_alloc d (bump d).
Proof.
  right. pose proof (foldr_max_nonneg (fst <$> map_to_list (nodes d))) as H0.
  set (m := foldr Z.max 0 (fst <$> map_to_list (nodes d))) in *.
  assert (mem (bump d) = 64 * (1 + m)) as Em by done.
  split; [split; [lia|rewrite Em]|].
  { replace (64 * (1 + m)) with (0 + (16 * (1 + m)) * 4) by lia. by rewrite Z.mod_add. }
  split; [rewrite Em; unfold NULL; lia|]. split; [|done].
  destruct (nodes d !! mem (bump d)) as [n|] eqn:E; [|done].
  assert (mem (bump d) <= m); [|lia]. apply foldr_max_ge, list_elem_of_fmap.
  exists (mem (bump d), n). split; [done|]. by apply elem_of_map_to_list.
Qed.

Lemma dns_mapping_stable_witness :
  exists u d2, run bump 5 example_dns [OFind [98]; OLookup 1681915904] = Val (u, d2) /\
    (Z.of_nat (size u) < 2 ->
     exists d3, hev_mapped_dns_lookup d2 1681915904 = Val (Some [97], d3)).
Proof.
  apply (dns_mapping_stable bump bump_fresh 5 (empty_dns 1681915904 example_mask 2) [] [97] 0
    example_dns [OFind [98]; OLookup 1681915904] 22).
  - apply empty_rep. split; concrete.
  - cbn. lia.
  - done.
  - reflexivity.
  - reflexivity.
  - vm_compute. reflexivity.
  - done.
Defined.

End MappedDNSHist.
