(* ===== verification/MappedDNSQuery.v ===== *)
(** * Answering DNS queries from the mapped names (src/hev-mapped-dns.c)

    [hev_mapped_dns_handle] parses a query in place, maps every A question and
    appends one answer per mapping.  The request is modelled as the memory that
    starts at [req]: reading past its end is a [Fault]. *)

From Stdlib Require Import ZArith Lia.
From stdpp Require Import base list gmap numbers.
From S2P Require Import Prelude CBytes HevList RBTree RBTreeRep RBTreeSearch MappedDNS MappedDNSHist.
Import list_basics.list list_relations.list list_monad.list list_misc.list.
Import MappedDNS MappedDNSHist.

Module MappedDNSQuery.

(** ** Accesses *)

Definition read_u16 (p : bytes) (off : Z) : outcome Z :=
  let! x := rd p off in
  let! y := rd p (off + 1) in
  Val (Z.lor (Z.shiftl x 8) y).

Definition write_u16 (p : bytes) (off v : Z) : outcome bytes :=
  let! p := wr p off (Z.shiftr v 8) in
  wr p (off + 1) v.

Definition write_u32 (p : bytes) (off v : Z) : outcome bytes :=
  let! p := wr p off (Z.shiftr v 24) in
  let! p := wr p (off + 1) (Z.shiftr v 16) in
  let! p := wr p (off + 2) (Z.shiftr v 8) in
  wr p (off + 3) v.

(** ** The query *)

(** [while (rb[off])]: skip one label and overwrite its length with a dot; [None]
    is [return -1]. *)
Fixpoint skip_name (fuel : nat) (rb : bytes) (off qlen : Z) : outcome (option (bytes * Z)) :=
  let! c := rd rb off in
  if c =? 0 then Val (Some (rb, off))
  else
    match fuel with
    | O => Fault
    | S fuel =>
        let poff := off in
        let off := off + (1 + c) in
        if off >=? qlen then Val None
        else
          let! rb := wr rb poff 46 in
          skip_name fuel rb off qlen
    end.

Section handle.
(** The allocator's answer to the node that [find] may need. *)
Context (alloc_at : HevMappedDNS -> alloc).

(** An A question of class IN is mapped; [acc] holds [ipo] and [ips]. *)
Definition map_question (fuel : nat) (d : HevMappedDNS) (rb : bytes) (ipo off : Z)
    (acc : list (Z * Z)) : outcome (list (Z * Z) * HevMappedDNS) :=
  let! qtype := read_u16 rb (off + 0) in
  if negb (qtype =? 1) then Val (acc, d)
  else
    let! qclass := read_u16 rb (off + 2) in
    if negb (qclass =? 1) then Val (acc, d)
    else
      let! key := cstr rb (ipo + 1) in
      let! (i, d) := hev_mapped_dns_find fuel (alloc_at d) d key in
      Val (if i >=? 0 then acc ++ [(ipo, Z.lor (net d) i)] else acc, d).

Fixpoint questions (n fuel : nat) (d : HevMappedDNS) (rb : bytes) (off qlen : Z)
    (acc : list (Z * Z)) : outcome (option (Z * list (Z * Z)) * HevMappedDNS) :=
  match n with
  | O => Val (Some (off, acc), d)
  | S n =>
      let ipo := off in
      let! r := skip_name fuel rb off qlen in
      match r with
      | None => Val (None, d)
      | Some (rb, off) =>
          let off := off + 1 in
          if off + 3 >=? qlen then Val (None, d)
          else
            let! (acc, d) := map_question fuel d rb ipo off acc in
            questions n fuel d rb (off + 4) qlen acc
      end
  end.

(** ** The answers *)

Definition write_answer (sb : bytes) (off ipo ip : Z) : outcome bytes :=
  let! sb := wr sb (off + 0) 0xc0 in
  let! sb := wr sb (off + 1) ipo in
  let! sb := write_u16 sb (off + 2) 1 in
  let! sb := write_u16 sb (off + 4) 1 in
  let! sb := write_u32 sb (off + 6) 1 in
  let! sb := write_u16 sb (off + 10) 4 in
  write_u32 sb (off + 12) ip.

(** The buffer and [off]; [None] is [return -1]. *)
Fixpoint answers (acc : list (Z * Z)) (sb : bytes) (off slen : Z) : outcome (bytes * option Z) :=
  match acc with
  | [] => Val (sb, Some off)
  | (ipo, ip) :: acc =>
      if off + 15 >=? slen then Val (sb, None)
      else
        let! sb := write_answer sb off ipo ip in
        answers acc sb (off + 16) slen
  end.

(** ** [hev_mapped_dns_handle]

    The result is the returned length (or -1), the cache and the response buffer
    as far as it was written. *)
Definition hev_mapped_dns_handle (fuel : nat) (d : HevMappedDNS) (req : bytes) (qlen : Z)
    (res : bytes) (slen : Z) : outcome (Z * HevMappedDNS * bytes) :=
  if slen <? qlen then Val (-1, d, res)
  else
    let! res := copy res req qlen in
    let! qd := ld16 req 4 in
    let! req := st16 req 4 (swap16 qd) in
    let! fl := ld16 res 2 in
    let! res := st16 res 2 (swap16 fl) in
    let! res := st16 res 8 0 in
    let! res := st16 res 6 0 in
    let! res := st16 res 10 0 in
    let! qd := ld16 req 4 in
    if qd >? 32 then Val (-1, d, res)
    else
      let! (r, d) := questions (Z.to_nat qd) fuel d req 12 qlen [] in
      match r with
      | None => Val (-1, d, res)
      | Some (off, acc) =>
          let! (res, a) := answers acc res off slen in
          match a with
          | None => Val (-1, d, res)
          | Some off' =>
              let! fl := ld16 res 2 in
              let! res := st16 res 2
                (swap16 (Z.lor (Z.lor fl 0x8000) (Z.shiftr (Z.land fl 0x100) 1))) in
              let! res := st16 res 6 (swap16 (zlen acc)) in
              Val (off', d, res)
          end
      end.

End handle.

(** ** Parsing stays inside the request *)

Lemma skip_name_ok fuel rb off qlen :
  is_bytes rb -> qlen < zlen rb -> 0 <= off <= qlen -> qlen - off < Z.of_nat fuel ->
  skip_name fuel rb off qlen = Val None \/
  exists rb' off', skip_name fuel rb off qlen = Val (Some (rb', off')) /\
    is_bytes rb' /\ zlen rb' = zlen rb /\ off <= off' <= qlen /\ rd rb' off' = Val 0.
Proof.
  revert rb off. induction fuel as [|fuel IH]; intros rb off Hb Hq Ho Hf; [lia|].
  destruct (rd_ok rb off) as (x & Ex & _); [lia|]. cbn [skip_name]. rewrite Ex. cbn [obind].
  destruct (Z.eqb_spec x 0) as [->|Hx]; [right; exists rb, off; split_and!; (done || lia)|].
  pose proof (rd_u8 _ _ _ Hb Ex) as Hu. unfold is_u8 in Hu.
  rewrite Z.geb_leb. destruct (Z.leb_spec qlen (off + (1 + x))); [by left|].
  destruct (wr_total rb off 46) as (rb' & Ew & El); [lia|]. rewrite Ew. cbn [obind].
  destruct (IH rb' (off + (1 + x))) as [E|(rb2 & off2 & E & B2 & L2 & O2 & R2)];
    [by eapply wr_bytes|lia|lia|lia|by left|].
  right. exists rb2, off2. split_and!; try done; lia.
Qed.

Lemma read_u16_ok b i : 0 <= i -> i + 1 < zlen b ->
  exists x y, rd b i = Val x /\ rd b (i + 1) = Val y /\ read_u16 b i = Val (Z.lor (Z.shiftl x 8) y).
Proof.
  intros Hi Hl. destruct (rd_ok b i) as (x & Ex & _); [lia|]. destruct (rd_ok b (i + 1)) as (y & Ey & _); [lia|].
  exists x, y. split_and!; try done. unfold read_u16. rewrite Ex. cbn. by rewrite Ey.
Qed.

(** The high byte of a 16-bit field that reads 1. *)
Lemma high_byte_zero x y : 0 <= x -> 0 <= y -> Z.lor (Z.shiftl x 8) y = 1 -> x = 0.
Proof.
  intros Hx Hy E. destruct (Z.eq_dec x 0) as [|Hn]; [done|exfalso].
  assert (Z.shiftl x 8 <= Z.lor (Z.shiftl x 8) y) as Hle.
  { apply Z.ldiff_le.
    - rewrite Z.lor_nonneg, Z.shiftl_nonneg. lia.
    - apply Z.bits_inj'. intros n Hn'. rewrite Z.ldiff_spec, Z.lor_spec, Z.bits_0.
      by destruct (Z.testbit (Z.shiftl x 8) n), (Z.testbit y n). }
  rewrite E, Z.shiftl_mul_pow2 in Hle by lia. lia.
Qed.

Lemma write_u32_ok b i v : 0 <= i -> i + 3 < zlen b ->
  exists b', write_u32 b i v = Val b' /\ zlen b' = zlen b /\ (is_bytes b -> is_bytes b').
Proof.
  intros Hi Hl. destruct (wr2_ok b i (Z.shiftr v 24) (i + 1) (Z.shiftr v 16)) as (b1 & E1 & L1 & B1); [lia..|].
  destruct (wr2_ok b1 (i + 2) (Z.shiftr v 8) (i + 3) v) as (b2 & E2 & L2 & B2); [lia..|].
  exists b2. unfold write_u32. destruct (wr b i _); [cbn [obind] in *|done]. rewrite E1. cbn [obind].
  split_and!; [done|lia|auto].
Qed.

Lemma write_answer_ok sb off ipo ip : 0 <= off -> off + 15 < zlen sb ->
  exists sb', write_answer sb off ipo ip = Val sb' /\ zlen sb' = zlen sb.
Proof.
  intros Ho Hl. unfold write_answer.
  destruct (wr_total sb (off + 0) 0xc0) as (b1 & -> & L1); [lia|]. cbn [obind].
  destruct (wr_total b1 (off + 1) ipo) as (b2 & -> & L2); [lia|]. cbn [obind].
  destruct (wr2_ok b2 (off + 2) (Z.shiftr 1 8) (off + 2 + 1) 1) as (b3 & E3 & L3 & _); [lia..|].
  unfold write_u16 at 1. rewrite E3. cbn [obind].
  destruct (wr2_ok b3 (off + 4) (Z.shiftr 1 8) (off + 4 + 1) 1) as (b4 & E4 & L4 & _); [lia..|].
  unfold write_u16 at 1. rewrite E4. cbn [obind].
  destruct (write_u32_ok b4 (off + 6) 1) as (b5 & -> & L5 & _); [lia..|]. cbn [obind].
  destruct (wr2_ok b5 (off + 10) (Z.shiftr 4 8) (off + 10 + 1) 4) as (b6 & E6 & L6 & _); [lia..|].
  unfold write_u16. rewrite E6. cbn [obind].
  destruct (write_u32_ok b6 (off + 12) ip) as (b7 & -> & L7 & _); [lia..|]. exists b7. split; [done|lia].
Qed.

Lemma answers_ok acc sb off slen : 0 <= off <= slen -> slen <= zlen sb ->
  exists sb' r, answers acc sb off slen = Val (sb', r) /\ zlen sb' = zlen sb /\
    match r with Some off' => off' = off + 16 * zlen acc /\ off' <= slen | None => True end.
Proof.
  revert sb off. induction acc as [|[ipo ip] acc IH]; intros sb off Ho Hl; cbn [answers].
  { exists sb, (Some off). split_and!; try done; unfold zlen; cbn; lia. }
  rewrite Z.geb_leb. destruct (Z.leb_spec slen (off + 15)); [by exists sb, None|].
  destruct (write_answer_ok sb off ipo ip) as (sb1 & -> & L1); [lia..|]. cbn [obind].
  destruct (IH sb1 (off + 16)) as (sb2 & r & -> & L2 & Hr); [lia..|].
  exists sb2, r. split_and!; [done|lia|]. destruct r; [|done]. unfold zlen in *. cbn [length]. lia.
Qed.

Section safety.
Context (alloc_at : HevMappedDNS -> alloc).
(** [malloc] returns [NULL] or an unused aligned block; a copy of the name is then
    available as well. *)
Context (alloc_fresh : forall d, mem (alloc_at d) = NULL \/ fresh_alloc d (alloc_at d)).

Lemma map_question_ok fuel d c rb ipo off acc :
  dns_rep d c -> (Z.to_nat (max d) + 1 < fuel)%nat ->
  is_bytes rb -> 0 <= ipo <= off - 1 -> off + 3 < zlen rb -> rd rb (off - 1) = Val 0 ->
  exists acc' d' c', map_question alloc_at fuel d rb ipo off acc = Val (acc', d') /\ dns_rep d' c' /\
    max d' = max d /\ net d' = net d /\ mask d' = mask d.
Proof.
  intros Hd Hf Hb Hi Ho Hz. unfold map_question. rewrite Z.add_0_r.
  destruct (read_u16_ok rb off) as (x & y & Ex & Ey & ->); [lia|lia|]. cbn [obind].
  destruct (Z.eqb_spec (Z.lor (Z.shiftl x 8) y) 1) as [E|E]; cbn [negb]; [|by exists acc, d, c].
  destruct (read_u16_ok rb (off + 2)) as (x2 & y2 & _ & _ & ->); [lia|lia|]. cbn [obind].
  destruct (Z.eqb_spec (Z.lor (Z.shiftl x2 8) y2) 1) as [E2|E2]; cbn [negb]; [|by exists acc, d, c].
  assert (exists s, cstr rb (ipo + 1) = Val s) as [s ->].
  { destruct (Z.eq_dec ipo (off - 1)) as [->|].
    - apply (cstr_ok _ _ off); [lia|]. rewrite Ex. f_equal.
      pose proof (rd_u8 _ _ _ Hb Ex) as H1. pose proof (rd_u8 _ _ _ Hb Ey) as H2. unfold is_u8 in *.
      eapply high_byte_zero; [| |exact E]; lia.
    - apply (cstr_ok _ _ (off - 1)); [lia|done]. }
  cbn [obind].
  assert (length c <= Z.to_nat (max d))%nat as Hlen.
  { destruct Hd as [L Hok]. pose proof (ok_room _ _ _ Hok). unfold zlen in *. lia. }
  destruct (find_ok fuel (alloc_at d) d c s Hd (alloc_fresh d)) as (d' & -> & R & M); [lia|].
  cbn [obind]. eauto 10.
Qed.

Lemma questions_ok n fuel d c rb off qlen acc :
  dns_rep d c -> (Z.to_nat (max d) + 1 < fuel)%nat ->
  is_bytes rb -> qlen < zlen rb -> 0 <= off <= qlen -> qlen < Z.of_nat fuel ->
  exists r d' c', questions alloc_at n fuel d rb off qlen acc = Val (r, d') /\ dns_rep d' c' /\
    max d' = max d /\ net d' = net d /\ mask d' = mask d /\
    match r with Some (off', _) => off <= off' <= qlen | None => True end.
Proof.
  revert d c rb off acc. induction n as [|n IH]; intros d c rb off acc Hd Hf Hb Hq Ho Hfq; cbn [questions].
  { exists (Some (off, acc)), d, c. split_and!; (done || lia). }
  destruct (skip_name_ok fuel rb off qlen Hb Hq Ho) as [->|(rb' & off' & -> & B' & L' & O' & R')]; [lia|..];
    cbn [obind]; [by exists None, d, c|].
  rewrite Z.geb_leb. destruct (Z.leb_spec qlen (off' + 1 + 3)); [by exists None, d, c|].
  destruct (map_question_ok fuel d c rb' off (off' + 1) acc Hd Hf B') as (acc' & d' & c' & -> & Hd' & M & N & K);
    [lia|lia|by replace (off' + 1 - 1) with off' by lia|]. cbn [obind].
  destruct (IH d' c' rb' (off' + 1 + 4) acc' Hd') as (r & d2 & c2 & -> & Hd2 & M2 & N2 & K2 & Hr);
    [by rewrite M|done|lia|lia|done|].
  exists r, d2, c2. split_and!; try congruence; try done. destruct r as [[]|]; [lia|done].
Qed.

(** With a complete header and one readable byte behind the request,
    [hev_mapped_dns_handle] stays inside its buffers for every request whatever its
    bytes, keeps the cache consistent, and returns -1 or a length that fits the
    response buffer. *)
Lemma handle_safe fuel d c req qlen res slen :
  dns_rep d c -> (Z.to_nat (max d) + 1 < fuel)%nat -> qlen < Z.of_nat fuel ->
  is_bytes req -> 12 <= qlen < zlen req -> slen <= zlen res ->
  exists v d' c' res', hev_mapped_dns_handle alloc_at fuel d req qlen res slen = Val (v, d', res') /\
    dns_rep d' c' /\ zlen res' = zlen res /\ (v = -1 \/ 12 <= v <= slen).
Proof.
  intros Hd Hf Hfq Hb Hq Hs. unfold hev_mapped_dns_handle.
  destruct (Z.ltb_spec slen qlen); [exists (-1), d, c, res; auto|].
  unfold copy. rewrite bool_decide_true by lia. cbn [obind].
  set (res0 := splice _ _ _). assert (zlen res0 = zlen res) as L0.
  { unfold zlen, res0 in *. rewrite length_splice; [done|]. rewrite length_take. lia. }
  run_ld16. run_st16. run_ld16. run_st16. run_st16. run_st16. run_st16. run_ld16.
  destruct (v1 >? 32); [do 4 eexists; split_and!; eauto; lia|].
  destruct (questions_ok (Z.to_nat v1) fuel d c b 12 qlen [] Hd Hf (B Hb))
    as (r & d' & c' & -> & Hd' & _ & _ & _ & Hr); [lia..|]. cbn [obind].
  destruct r as [[off acc]|]; [|do 4 eexists; split_and!; eauto; lia].
  destruct (answers_ok acc b3 off slen) as (b4 & a & -> & L6 & Ha); [lia..|]. cbn [obind].
  destruct a as [off'|]; [|do 4 eexists; split_and!; eauto; lia].
  run_ld16. run_st16. run_st16.
  do 4 eexists; split_and!; eauto; [lia|right; unfold zlen in *; lia].
Qed.

End safety.

(** ** A well-formed query is answered with its mapping *)

Definition encode_label (l : bytes) : bytes := zlen l :: l.
Definition encode_labels (ls : list bytes) : bytes := concat (encode_label <$> ls).
Definition dotted_labels (ls : list bytes) : bytes := concat ((fun l => 46 :: l) <$> ls).

(** The text of a name: the labels joined by dots. *)
Definition dotted (ls : list bytes) : bytes := tail (dotted_labels ls).

Definition label_ok (l : bytes) : Prop := 0 < zlen l <= 63 /\ Forall (fun x => x <> 0) l.

Lemma skip_name_labels fuel pre ls post qlen :
  Forall label_ok ls -> zlen pre + zlen (encode_labels ls) < qlen -> (length ls <= fuel)%nat ->
  skip_name fuel (pre ++ encode_labels ls ++ 0 :: post) (zlen pre) qlen =
    Val (Some (pre ++ dotted_labels ls ++ 0 :: post, zlen pre + zlen (encode_labels ls))).
Proof.
  revert fuel pre. induction ls as [|l ls IH]; intros fuel pre Hls Hq Hf.
  { change (encode_labels []) with (@nil Z). change (dotted_labels []) with (@nil Z). cbn [app].
    destruct fuel; cbn [skip_name]; rewrite (rd_app_r _ _ _ 0), rd_head by lia; cbn; by rewrite Z.add_0_r. }
  apply Forall_cons in Hls as [[Hl Hn] Hls]. destruct fuel as [|fuel]; [cbn in Hf; lia|].
  change (encode_labels (l :: ls)) with (zlen l :: (l ++ encode_labels ls)) in *.
  change (dotted_labels (l :: ls)) with (46 :: (l ++ dotted_labels ls)).
  rewrite zlen_cons, zlen_app in *. pose proof (zlen_nonneg (encode_labels ls)).
  cbn [skip_name]. rewrite (rd_app_r _ _ _ 0) by lia. rewrite <- app_comm_cons, rd_head. cbn [obind].
  rewrite (proj2 (Z.eqb_neq _ _)) by lia. rewrite Z.geb_leb.
  rewrite (proj2 (Z.leb_gt _ _)) by lia.
  rewrite (wr_app_r _ _ _ 0 46 (46 :: (l ++ encode_labels ls) ++ 0 :: post)) by (lia || apply wr_head).
  cbn [obind].
  replace (zlen pre + (1 + zlen l)) with (zlen (pre ++ 46 :: l)) by (rewrite zlen_app, zlen_cons; lia).
  replace (pre ++ 46 :: (l ++ encode_labels ls) ++ 0 :: post)
    with ((pre ++ 46 :: l) ++ encode_labels ls ++ 0 :: post)
    by (list_norm; done).
  rewrite IH; [|done|rewrite zlen_app, zlen_cons; lia|cbn in Hf; lia]. do 3 f_equal.
  - list_norm. done.
  - rewrite zlen_app, zlen_cons. lia.
Qed.

Lemma dotted_nonzero ls : Forall label_ok ls -> Forall (fun x => x <> 0) (dotted_labels ls).
Proof.
  induction 1 as [|l ls [_ Hl] Hls IH]; [constructor|].
  change (dotted_labels (l :: ls)) with (46 :: (l ++ dotted_labels ls)).
  constructor; [done|]. by apply Forall_app.
Qed.

(** The resource record of an answer. *)
Definition answer_record (ipo ip : Z) : bytes :=
  [0xc0; u8 ipo; 0; 1; 0; 1; 0; 0; 0; 1; 0; 4;
   u8 (Z.shiftr ip 24); u8 (Z.shiftr ip 16); u8 (Z.shiftr ip 8); u8 ip].

(** Store at a constant offset of a list with enough known cells. *)
Ltac run_wr_const :=
  match goal with
  | |- context [wr (?p ++ ?s) (zlen ?p + ?k) ?v] =>
      let k' := eval vm_compute in k in
      change (zlen p + k) with (zlen p + k'); rewrite (wr_app_off p s k' v) by lia;
      rewrite (wr_ok s k' v) by (unfold zlen; cbn [length]; lia);
      let r := eval cbv [insert list_insert Z.to_nat Pos.to_nat Pos.iter_op Init.Nat.add Nat.add]
        in (<[Z.to_nat k' := u8 v]> s) in
      change (<[Z.to_nat k' := u8 v]> s) with r; cbn [obind]
  end.

Lemma write_answer_bytes p s ipo ip :
  (16 <= length s)%nat ->
  write_answer (p ++ s) (zlen p) ipo ip = Val (p ++ answer_record ipo ip ++ drop 16 s).
Proof.
  intros Hs. do 16 (destruct s as [|? s]; [cbn in Hs; lia|]). clear Hs.
  unfold write_answer, write_u16, write_u32. rewrite <- !Z.add_assoc. cbn [Z.add Pos.add Pos.succ].
  repeat run_wr_const. done.
Qed.

(** A query with one question: header, labels, type A, class IN, and anything that
    follows. *)
Definition header (i0 i1 f0 f1 q0 q1 a0 a1 n0 n1 r0 r1 : Z) : bytes :=
  [i0; i1; f0; f1; q0; q1; a0; a1; n0; n1; r0; r1].

Definition question (ls : list bytes) : bytes := encode_labels ls ++ [0; 0; 1; 0; 1].

Lemma question_split ls tl : question ls ++ tl = encode_labels ls ++ 0 :: [0; 1; 0; 1] ++ tl.
Proof. unfold question. list_norm. done. Qed.

(** Accesses to the fields of a header. *)

Ltac store_field :=
  unfold st16; rewrite wr_ok by (unfold zlen; cbn; lia); cbn [obind];
  rewrite wr_ok by (unfold zlen; rewrite length_insert; cbn; lia); done.

Section fields.
Context (i0 i1 f0 f1 q0 q1 a0 a1 n0 n1 r0 r1 : Z) (x : bytes) (v : Z).

Lemma st_fl : st16 (header i0 i1 f0 f1 q0 q1 a0 a1 n0 n1 r0 r1 ++ x) 2 v =
  Val (header i0 i1 (u8 v) (u8 (Z.shiftr v 8)) q0 q1 a0 a1 n0 n1 r0 r1 ++ x).
Proof. store_field. Qed.

Lemma st_qd : st16 (header i0 i1 f0 f1 q0 q1 a0 a1 n0 n1 r0 r1 ++ x) 4 v =
  Val (header i0 i1 f0 f1 (u8 v) (u8 (Z.shiftr v 8)) a0 a1 n0 n1 r0 r1 ++ x).
Proof. store_field. Qed.

Lemma st_an : st16 (header i0 i1 f0 f1 q0 q1 a0 a1 n0 n1 r0 r1 ++ x) 6 v =
  Val (header i0 i1 f0 f1 q0 q1 (u8 v) (u8 (Z.shiftr v 8)) n0 n1 r0 r1 ++ x).
Proof. store_field. Qed.

Lemma st_ns : st16 (header i0 i1 f0 f1 q0 q1 a0 a1 n0 n1 r0 r1 ++ x) 8 v =
  Val (header i0 i1 f0 f1 q0 q1 a0 a1 (u8 v) (u8 (Z.shiftr v 8)) r0 r1 ++ x).
Proof. store_field. Qed.

Lemma st_ar : st16 (header i0 i1 f0 f1 q0 q1 a0 a1 n0 n1 r0 r1 ++ x) 10 v =
  Val (header i0 i1 f0 f1 q0 q1 a0 a1 n0 n1 (u8 v) (u8 (Z.shiftr v 8)) ++ x).
Proof. store_field. Qed.

Lemma ld_qd : ld16 (header i0 i1 f0 f1 q0 q1 a0 a1 n0 n1 r0 r1 ++ x) 4 = Val (Z.lor q0 (Z.shiftl q1 8)).
Proof. done. Qed.

Lemma ld_fl : ld16 (header i0 i1 f0 f1 q0 q1 a0 a1 n0 n1 r0 r1 ++ x) 2 = Val (Z.lor f0 (Z.shiftl f1 8)).
Proof. done. Qed.

End fields.

Lemma cstr_question hdr ls tl :
  length hdr = 12%nat -> Forall label_ok ls ->
  cstr (hdr ++ dotted_labels ls ++ 0 :: [0; 1; 0; 1] ++ tl) 13 = Val (dotted ls).
Proof.
  intros Hh Hls. unfold cstr. rewrite bool_decide_true by lia.
  change (Z.to_nat 13) with (12 + 1)%nat. rewrite <- drop_drop, <- Hh, drop_app_length.
  pose proof (dotted_nonzero ls Hls) as Hn. unfold dotted.
  destruct (dotted_labels ls) as [|x s]; [done|]. cbn [app drop tail].
  rewrite drop_0. apply Forall_cons in Hn as [_ Hn]. by rewrite (cstr_list_text s).
Qed.

Section answer.
Context (alloc_at : HevMappedDNS -> alloc).

Lemma questions_single fuel d hdr ls tl qlen i d' :
  length hdr = 12%nat -> Forall label_ok ls -> (length ls <= fuel)%nat ->
  12 + zlen (question ls) <= qlen ->
  hev_mapped_dns_find fuel (alloc_at d) d (dotted ls) = Val (i, d') ->
  questions alloc_at 1 fuel d (hdr ++ question ls ++ tl) 12 qlen [] =
    Val (Some (12 + zlen (question ls), if i >=? 0 then [(12, Z.lor (net d') i)] else []), d').
Proof.
  intros Hh Hls Hf Hq Hfind. rewrite question_split. cbn [questions].
  assert (zlen hdr = 12) as Hz by (unfold zlen; lia).
  assert (zlen (question ls) = zlen (encode_labels ls) + 5) as EQ
    by (unfold question; rewrite zlen_app; reflexivity).
  pose proof (skip_name_labels fuel hdr ls ([0; 1; 0; 1] ++ tl) qlen Hls ltac:(lia) Hf) as Es.
  rewrite Hz in Es. rewrite Es. cbn [obind]. rewrite Z.geb_leb, (proj2 (Z.leb_gt _ _)) by lia.
  unfold map_question.
  assert (forall k, 0 <= k -> rd (hdr ++ dotted_labels ls ++ 0 :: [0; 1; 0; 1] ++ tl)
     (12 + zlen (encode_labels ls) + 1 + k) = rd ([0; 1; 0; 1] ++ tl) k) as Erd.
  { intros k Hk. assert (zlen (dotted_labels ls) = zlen (encode_labels ls)) as EL.
    { clear. unfold zlen, dotted_labels, encode_labels. do 1 f_equal.
      induction ls as [|l ls IH]; [done|]. cbn. rewrite !length_app. lia. }
    rewrite (rd_app_r hdr _ _ (zlen (encode_labels ls) + 1 + k)) by (pose proof (zlen_nonneg (encode_labels ls)); lia).
    rewrite (rd_app_r _ _ _ (1 + k)) by lia.
    by rewrite (rd_app_r [0] ([0; 1; 0; 1] ++ tl) _ k) by (unfold zlen; cbn; lia). }
  assert (forall k, 0 <= k -> read_u16 (hdr ++ dotted_labels ls ++ 0 :: [0; 1; 0; 1] ++ tl)
     (12 + zlen (encode_labels ls) + 1 + k) = read_u16 ([0; 1; 0; 1] ++ tl) k) as E16.
  { intros k Hk. unfold read_u16. by rewrite <- (Z.add_assoc _ k 1), !Erd by lia. }
  rewrite !E16 by lia. change (read_u16 ([0; 1; 0; 1] ++ tl) 0) with (Val 1).
  change (read_u16 ([0; 1; 0; 1] ++ tl) 2) with (Val 1). cbn [obind negb Z.eqb Pos.eqb].
  rewrite cstr_question by done. cbn [obind]. rewrite Hfind. cbn [obind app].
  do 4 f_equal. lia.
Qed.

(** The flags of the response: QR is set and RA is a copy of RD. *)
Definition response_flags (fl : Z) : Z := Z.lor (Z.lor fl 0x8000) (Z.shiftr (Z.land fl 0x100) 1).

(** A query with one A question is answered in place: the returned length
    covers header, question and one answer; the answer names the question and
    carries the network address combined with the index that the cache gives to the
    dotted name. *)
Lemma handle_answer fuel d c i0 i1 f0 f1 a0 a1 n0 n1 r0 r1 ls tl res slen i :
  dns_rep d c -> mem (alloc_at d) = NULL \/ fresh_alloc d (alloc_at d) ->
  (length c + 1 < fuel)%nat -> (length ls <= fuel)%nat ->
  Forall label_ok ls -> is_u8 f0 -> is_u8 f1 ->
  let req := header i0 i1 f0 f1 0 1 a0 a1 n0 n1 r0 r1 ++ question ls ++ tl in
  let end_ := 12 + zlen (question ls) in
  zlen req <= slen <= zlen res -> end_ + 16 <= slen ->
  fst (cache_find (max d) (negb (mem (alloc_at d) =? NULL)) c (dotted ls)) = i -> 0 <= i ->
  exists d' res', hev_mapped_dns_handle alloc_at fuel d req (zlen req) res slen = Val (end_ + 16, d', res') /\
    dns_rep d' (snd (cache_find (max d) (negb (mem (alloc_at d) =? NULL)) c (dotted ls))) /\
    take (Z.to_nat (end_ + 16)) res' =
      (let fl := response_flags (256 * f0 + f1) in
       header i0 i1 (u8 (Z.shiftr fl 8)) (u8 fl) 0 1 0 1 0 0 0 0) ++
      question ls ++ answer_record 12 (Z.lor (net d) i).
Proof.
  intros Hd Ha Hf Hf2 Hls U0 U1 req end_ Hlen He Ei Hi.
  destruct (find_ok fuel (alloc_at d) d c (dotted ls) Hd Ha Hf) as (d' & Efind & Hd' & _ & N' & _).
  rewrite Ei in Efind. unfold hev_mapped_dns_handle. rewrite (proj2 (Z.ltb_ge _ _)) by lia.
  unfold copy. rewrite bool_decide_true by (pose proof (zlen_nonneg req); lia). cbn [obind].
  rewrite (take_ge req) by (unfold zlen; lia).
  assert (exists rest, splice 0 req res = req ++ rest /\ length rest = (length res - length req)%nat)
    as (rest & -> & Hrest).
  { unfold splice. cbn. eexists. split; [reflexivity|]. by rewrite length_drop. }
  unfold req at 1 2 3 4. rewrite ld_qd. cbn [obind]. rewrite st_qd. cbn [obind].
  rewrite <- app_assoc, ld_fl. cbn [obind].
  rewrite st_fl. cbn [obind]. rewrite st_ns. cbn [obind]. rewrite st_an. cbn [obind]. rewrite st_ar.
  cbn [obind]. rewrite ld_qd. cbn [obind].
  change (swap16 (Z.lor 0 (Z.shiftl 1 8))) with 1. change (u8 1) with 1.
  change (u8 (Z.shiftr 1 8)) with 0. change (Z.lor 1 (Z.shiftl 0 8)) with 1. change (1 >? 32) with false.
  change (Z.to_nat 1) with 1%nat. change (u8 0) with 0. change (u8 (Z.shiftr 0 8)) with 0. cbn iota.
  rewrite (questions_single fuel d _ ls tl (zlen req) i d') by
    (done || (unfold req; rewrite !zlen_app; unfold zlen; cbn; lia)).
  rewrite Z.geb_leb, (proj2 (Z.leb_le _ _)) by lia. cbn [obind answers].
  rewrite Z.geb_leb, (proj2 (Z.leb_gt _ _)) by lia. rewrite N'.
  rewrite swap16_lo, swap16_hi, byte_pair, pair_lo, pair_hi by done.
  set (hdr := header _ _ _ _ _ _ _ _ _ _ _ _).
  rewrite <- (app_assoc (question ls)), (app_assoc hdr).
  assert (12 + zlen (question ls) = zlen (hdr ++ question ls)) as Ep by (rewrite zlen_app; done).
  rewrite Ep, write_answer_bytes.
  2: { unfold end_, req, zlen in *. rewrite !length_app in *. cbn [length header] in *. lia. }
  cbn [obind]. rewrite <- app_assoc. unfold hdr. rewrite ld_fl. cbn [obind]. rewrite st_fl. cbn [obind].
  change (zlen [(12, Z.lor (net d) i)]) with 1. change (swap16 1) with 256. rewrite st_an. cbn [obind].
  do 2 eexists. split; [unfold end_; rewrite Ep; reflexivity|]. split; [done|].
  fold (response_flags (Z.lor f1 (Z.shiftl f0 8))). rewrite swap16_lo, swap16_hi, byte_pair by done.
  rewrite (Z.add_comm f1). change (u8 256) with 0. change (u8 (Z.shiftr 256 8)) with 1.
  rewrite !app_assoc, take_app_length'; [done|].
  rewrite !length_app. cbn [length header answer_record]. unfold end_, zlen. lia.
Qed.
End answer.


(** ** Witnesses and a limit *)

(** The query for the A record of "a". *)
Definition example_query : bytes :=
  header 7 8 1 0 0 1 0 0 0 0 0 0 ++ question [[97]].


(** A request that ends with its header but announces a question: the byte behind
    it is read. *)
Theorem dns_handle_overread alloc_at fuel d :
  hev_mapped_dns_handle alloc_at fuel d (header 0 0 1 0 0 1 0 0 0 0 0 0) 12 (replicate 64 0) 64 = Fault.
Proof. by destruct fuel. Qed.

End MappedDNSQuery.
