(* ===== verification/SocketIO.v ===== *)
(** * Programs that talk to sockets

    The handshake and datagram code of src/core/src is written against the task
    library's socket calls.  [proc] is the type of such programs: a tree of requests
    whose branches are the answers of the environment.  [pstep] runs a program one
    request at a time, [wp] is the Hoare logic over histories of requests and
    answers, and [adequacy] relates the two. *)

From Stdlib Require Import ZArith Lia.
From stdpp Require Import base list gmap numbers.
From S2P Require Import Prelude CBytes.
Import list_basics.list list_relations.list list_monad.list list_misc.list.

Module SocketIO.

(** ** Constants of the platform *)

Definition AF_UNSPEC : Z := 0.
Definition AF_INET : Z := 2.
Definition AF_INET6 : Z := 10.
Definition SOCK_STREAM : Z := 1.
Definition SOCK_DGRAM : Z := 2.

(** ** Requests

    [struct sockaddr_in6]; the port field holds the value as stored in memory, that
    is in network byte order. *)
Record sockaddr_in6 := mkSA {
  sin6_family : Z;
  sin6_port : Z;
  sin6_addr : bytes;
}.

(** [flags] of a receive: [MSG_WAITALL], [MSG_DONTWAIT] or 0. *)
Inductive wait := WaitAll | DontWait | WaitSome.

(** Calls of the system and of the task library with an [int] result; [CErrno] reads
    [errno], 1 standing for [EAGAIN]; [CSleep] answers the time that remains. *)
Inductive call :=
| CSocket (type : Z)
| CSetsockopt (fd level optname value : Z)
| CAddFd (fd : Z)
| CModFd (fd : Z)
| CDelFd (fd : Z)
| CClose (fd : Z)
| CConnect (fd : Z) (sa : sockaddr_in6)
| CBind (fd : Z) (sa : sockaddr_in6)
| CMalloc (size : Z)
| CShutdown (fd : Z)
| CErrno
| CSleep (milliseconds : Z).

(** The answer to a receive: result, bytes stored, and whether [errno] is [EAGAIN]. *)
Record rans := mkR { rret : Z; rdata : bytes; ragain : bool }.

(** A read that got these bytes. *)
Definition full (bs : bytes) : rans := mkR (zlen bs) bs false.

(** A received datagram and the answer to [recvmmsg]. *)
Record dgram := mkDG { dg_from : sockaddr_in6; dg_data : bytes }.
Record mans := mkM { mret : Z; mdata : list dgram; magain : bool }.

(** ** Programs *)

Inductive proc (A : Type) : Type :=
| Ret (a : A)
| Crash
| Recv (fd n : Z) (w : wait) (k : rans -> proc A)
| Send (fd : Z) (bs : bytes) (k : Z * bool -> proc A)
| RecvMM (fd : Z) (lens : list Z) (w : wait) (k : mans -> proc A)
| SendMM (fd : Z) (msgs : list (option sockaddr_in6 * bytes)) (k : Z * bool -> proc A)
| Resolve (name : bytes) (family : Z) (k : option (Z * bytes) -> proc A)
| GetName (fd : Z) (k : option sockaddr_in6 -> proc A)
| Call (c : call) (k : Z -> proc A).

Arguments Ret {A} _.
Arguments Crash {A}.
Arguments Recv {A} _ _ _ _.
Arguments Send {A} _ _ _.
Arguments RecvMM {A} _ _ _ _.
Arguments SendMM {A} _ _ _.
Arguments Resolve {A} _ _ _.
Arguments GetName {A} _ _.
Arguments Call {A} _ _.

Fixpoint bind {A B} (p : proc A) (f : A -> proc B) : proc B :=
  match p with
  | Ret a => f a
  | Crash => Crash
  | Recv fd n w k => Recv fd n w (fun a => bind (k a) f)
  | Send fd bs k => Send fd bs (fun a => bind (k a) f)
  | RecvMM fd lens w k => RecvMM fd lens w (fun a => bind (k a) f)
  | SendMM fd msgs k => SendMM fd msgs (fun a => bind (k a) f)
  | Resolve nm fam k => Resolve nm fam (fun a => bind (k a) f)
  | GetName fd k => GetName fd (fun a => bind (k a) f)
  | Call c k => Call c (fun a => bind (k a) f)
  end.

(** Memory accesses of a program. *)
Definition lift {A} (o : outcome A) : proc A :=
  match o with
  | Val a => Ret a
  | Fault => Crash
  end.

Notation "'pdo' x := m 'in' k" := (bind m (fun x => k))
  (at level 10, x pattern, m at level 200, k at level 200,
   format "'[v' 'pdo'  x  :=  m  'in'  '/' k ']'") : hev_scope.

Definition recv (fd n : Z) (w : wait) : proc rans := Recv fd n w Ret.
Definition send (fd : Z) (bs : bytes) : proc (Z * bool) := Send fd bs Ret.
Definition syscall (c : call) : proc Z := Call c Ret.

(** ** What the environment may answer *)

Definition recv_ok (n : Z) (a : rans) : Prop :=
  rret a <= n /\ zlen (rdata a) = Z.max 0 (rret a) /\ is_bytes (rdata a).

Definition dgram_ok (len : Z) (d : dgram) : Prop := zlen (dg_data d) <= len /\ is_bytes (dg_data d).

Definition recvmm_ok (lens : list Z) (a : mans) : Prop :=
  mret a <= zlen lens /\ zlen (mdata a) = Z.max 0 (mret a) /\
  Forall2 dgram_ok (take (length (mdata a)) lens) (mdata a).

(** An address of the family that [getaddrinfo] reports. *)
Definition resolve_ok (r : option (Z * bytes)) : Prop :=
  match r with
  | Some (fam, a) =>
      is_bytes a /\ (fam = AF_INET -> length a = 4%nat) /\ (fam = AF_INET6 -> length a = 16%nat)
  | None => True
  end.

Definition sockaddr_ok (sa : sockaddr_in6) : Prop :=
  length (sin6_addr sa) = 16%nat /\ is_bytes (sin6_addr sa) /\ is_u16 (sin6_port sa).

(** [getsockname] on the IPv6 sockets of the program. *)
Definition name_ok (r : option sockaddr_in6) : Prop :=
  match r with
  | Some sa => sockaddr_ok sa
  | None => True
  end.

Inductive event :=
| EvRecv (fd n : Z) (w : wait) (a : rans)
| EvSend (fd : Z) (bs : bytes) (r : Z * bool)
| EvRecvMM (fd : Z) (lens : list Z) (w : wait) (a : mans)
| EvSendMM (fd : Z) (msgs : list (option sockaddr_in6 * bytes)) (r : Z * bool)
| EvResolve (name : bytes) (family : Z) (r : option (Z * bytes))
| EvName (fd : Z) (r : option sockaddr_in6)
| EvCall (c : call) (r : Z).

Abbreviation history := (list event).

(** ** Execution *)

Inductive pstep {A} : proc A -> event -> proc A -> Prop :=
| step_recv fd n w k a : recv_ok n a -> pstep (Recv fd n w k) (EvRecv fd n w a) (k a)
| step_send fd bs k r : r.1 <= zlen bs -> pstep (Send fd bs k) (EvSend fd bs r) (k r)
| step_recvmm fd lens w k a : recvmm_ok lens a -> pstep (RecvMM fd lens w k) (EvRecvMM fd lens w a) (k a)
| step_sendmm fd msgs k r : r.1 <= zlen msgs -> pstep (SendMM fd msgs k) (EvSendMM fd msgs r) (k r)
| step_resolve nm fam k r : resolve_ok r -> pstep (Resolve nm fam k) (EvResolve nm fam r) (k r)
| step_name fd k r : name_ok r -> pstep (GetName fd k) (EvName fd r) (k r)
| step_call c k r : pstep (Call c k) (EvCall c r) (k r).

Inductive psteps {A} : proc A -> history -> proc A -> Prop :=
| psteps_nil p : psteps p [] p
| psteps_cons p e p1 h p2 : pstep p e p1 -> psteps p1 h p2 -> psteps p (e :: h) p2.

(** ** Hoare logic

    [wp G p Q h]: after the history [h], every event of [p] satisfies the guard [G],
    [p] does not crash, and it ends in [Q]. *)

Section wp.
Context (G : history -> event -> Prop).

Fixpoint wp {A} (p : proc A) (Q : A -> history -> Prop) (h : history) : Prop :=
  match p with
  | Ret a => Q a h
  | Crash => False
  | Recv fd n w k => forall a, recv_ok n a ->
      G h (EvRecv fd n w a) /\ wp (k a) Q (h ++ [EvRecv fd n w a])
  | Send fd bs k => forall r, r.1 <= zlen bs ->
      G h (EvSend fd bs r) /\ wp (k r) Q (h ++ [EvSend fd bs r])
  | RecvMM fd lens w k => forall a, recvmm_ok lens a ->
      G h (EvRecvMM fd lens w a) /\ wp (k a) Q (h ++ [EvRecvMM fd lens w a])
  | SendMM fd msgs k => forall r, r.1 <= zlen msgs ->
      G h (EvSendMM fd msgs r) /\ wp (k r) Q (h ++ [EvSendMM fd msgs r])
  | Resolve nm fam k => forall r, resolve_ok r ->
      G h (EvResolve nm fam r) /\ wp (k r) Q (h ++ [EvResolve nm fam r])
  | GetName fd k => forall r, name_ok r -> G h (EvName fd r) /\ wp (k r) Q (h ++ [EvName fd r])
  | Call c k => forall r, G h (EvCall c r) /\ wp (k r) Q (h ++ [EvCall c r])
  end.

(** One node of a tree in a proof by induction on programs. *)
Ltac wp_tree W :=
  let x := fresh "x" in let Ok := fresh "Ok" in let W1 := fresh "W1" in
  intros x; first [intros Ok; destruct (W x Ok) as [? W1] | destruct (W x) as [? W1]];
  split; [done|];
  match goal with IH : forall _ _, _ |- _ => apply IH; exact W1 end.

Lemma wp_bind {A B} (p : proc A) (f : A -> proc B) Q h :
  wp p (fun a h' => wp (f a) Q h') h -> wp (bind p f) Q h.
Proof.
  revert h. induction p; intros h W; cbn in *; try done; wp_tree W.
Qed.

Lemma wp_mono {A} (p : proc A) (Q Q' : A -> history -> Prop) h :
  wp p Q h -> (forall a h', Q a h' -> Q' a h') -> wp p Q' h.
Proof.
  intros W0 HQ. revert h W0. induction p; intros h W; cbn in *; try done; [by apply HQ|wp_tree W..].
Qed.

Lemma wp_lift {A} (o : outcome A) Q h a : o = Val a -> Q a h -> wp (lift o) Q h.
Proof. by intros ->. Qed.

Lemma wp_step {A} (p : proc A) e p' Q h :
  pstep p e p' -> wp p Q h -> G h e /\ wp p' Q (h ++ [e]).
Proof. destruct 1; cbn; intros W; try (apply W; done). Qed.

(** Every run of a program that satisfies its [wp] is guarded, does not crash and
    ends in the postcondition. *)
Lemma adequacy {A} (p p' : proc A) tr Q h :
  psteps p tr p' -> wp p Q h ->
  (forall t1 e t2, tr = t1 ++ e :: t2 -> G (h ++ t1) e) /\
  match p' with
  | Ret a => Q a (h ++ tr)
  | Crash => False
  | _ => True
  end.
Proof.
  intros S. revert h. induction S as [p|p e p1 tr p2 H1 S IH]; intros h W.
  { split; [by intros [|??] ?? [=]|]. rewrite app_nil_r. by destruct p. }
  apply (wp_step _ _ _ _ _ H1) in W as [Hg W]. destruct (IH _ W) as [I1 I2]. split.
  - intros [|e' t1] e2 t2 [= <- ->]; [by rewrite app_nil_r|].
    specialize (I1 t1 e2 t2 eq_refl). by rewrite <- app_assoc in I1.
  - by rewrite <- app_assoc in I2.
Qed.

End wp.

(** Once every event is allowed, only the outcome matters. *)
Lemma wp_open G {A} (p : proc A) Q h :
  (forall h' e, G (h ++ h') e) -> wp (fun _ _ => True) p Q h -> wp G p Q h.
Proof.
  intros HG W. revert h HG W. induction p; intros h HG W; cbn in *; try done;
    (intros x; first [intros Ok; destruct (W x Ok) as [_ W1] | destruct (W x) as [_ W1]];
     split; [specialize (HG []); by rewrite app_nil_r in HG|];
     match goal with IH : forall _ _, _ |- _ => apply IH; [|exact W1] end;
     intros h' e; rewrite <- app_assoc; apply HG).
Qed.

(** The bytes received so far on a socket. *)
Fixpoint received (fd : Z) (h : history) : bytes :=
  match h with
  | [] => []
  | EvRecv fd' _ _ a :: h => (if fd' =? fd then rdata a else []) ++ received fd h
  | _ :: h => received fd h
  end.

Lemma received_app fd h1 h2 : received fd (h1 ++ h2) = received fd h1 ++ received fd h2.
Proof. induction h1 as [|[] h1 IH]; cbn; rewrite ?IH; try done. by rewrite app_assoc. Qed.

(** The bytes a socket has accepted so far. *)
Fixpoint sent (fd : Z) (h : history) : bytes :=
  match h with
  | [] => []
  | EvSend fd' bs r :: h => (if fd' =? fd then take (Z.to_nat r.1) bs else []) ++ sent fd h
  | _ :: h => sent fd h
  end.

Lemma sent_app fd h1 h2 : sent fd (h1 ++ h2) = sent fd h1 ++ sent fd h2.
Proof. induction h1 as [|[] h1 IH]; cbn; rewrite ?IH; try done. by rewrite app_assoc. Qed.

(** ** Replaying a history

    An executable check that a history is a run of a program. *)

#[export] Instance wait_eq_dec : EqDecision wait.
Proof. solve_decision. Defined.
#[export] Instance sockaddr_eq_dec : EqDecision sockaddr_in6.
Proof. solve_decision. Defined.
#[export] Instance call_eq_dec : EqDecision call.
Proof. solve_decision. Defined.
#[export] Instance recv_ok_dec n a : Decision (recv_ok n a).
Proof. unfold recv_ok. apply _. Defined.
#[export] Instance is_u16_dec x : Decision (is_u16 x).
Proof. unfold is_u16. apply _. Defined.
#[export] Instance sockaddr_ok_dec sa : Decision (sockaddr_ok sa).
Proof. unfold sockaddr_ok. apply _. Defined.
#[export] Instance name_ok_dec r : Decision (name_ok r).
Proof. destruct r; cbn; apply _. Defined.
#[export] Instance resolve_ok_dec r : Decision (resolve_ok r).
Proof. destruct r as [[]|]; cbn; apply _. Defined.
#[export] Instance dgram_ok_dec n d : Decision (dgram_ok n d).
Proof. unfold dgram_ok. apply _. Defined.
#[export] Instance recvmm_ok_dec lens a : Decision (recvmm_ok lens a).
Proof. unfold recvmm_ok. apply _. Defined.

Fixpoint replay {A} (p : proc A) (h : history) {struct h} : option (proc A) :=
  match h with
  | [] => Some p
  | e :: h =>
      match p, e with
      | Recv fd n w k, EvRecv fd' n' w' a =>
          if bool_decide (fd = fd' /\ n = n' /\ w = w' /\ recv_ok n a) then replay (k a) h else None
      | Send fd bs k, EvSend fd' bs' r =>
          if bool_decide (fd = fd' /\ bs = bs' /\ r.1 <= zlen bs) then replay (k r) h else None
      | RecvMM fd lens w k, EvRecvMM fd' lens' w' a =>
          if bool_decide (fd = fd' /\ lens = lens' /\ w = w' /\ recvmm_ok lens a) then replay (k a) h else None
      | SendMM fd msgs k, EvSendMM fd' msgs' r =>
          if bool_decide (fd = fd' /\ msgs = msgs' /\ r.1 <= zlen msgs) then replay (k r) h else None
      | Resolve nm fam k, EvResolve nm' fam' r =>
          if bool_decide (nm = nm' /\ fam = fam' /\ resolve_ok r) then replay (k r) h else None
      | GetName fd k, EvName fd' r =>
          if bool_decide (fd = fd' /\ name_ok r) then replay (k r) h else None
      | Call c k, EvCall c' r => if bool_decide (c = c') then replay (k r) h else None
      | _, _ => None
      end
  end.

Lemma replay_sound {A} (p p' : proc A) h : replay p h = Some p' -> psteps p h p'.
Proof.
  revert p. induction h as [|e h IH]; intros p; cbn [replay]; [intros [= <-]; constructor|].
  destruct p, e; try done; case_bool; try done; intros H%IH; destruct_and?; subst;
    (eapply psteps_cons; [|exact H]; by constructor).
Qed.

(** A weaker guard. *)
Lemma wp_weaken {A} (G G' : history -> event -> Prop) (p : proc A) Q h :
  (forall h e, G h e -> G' h e) -> wp G p Q h -> wp G' p Q h.
Proof.
  intros HG W0. revert h W0. induction p; intros h W; cbn in *; try done;
    (intros x; first [intros Ok; destruct (W x Ok) as [? W1] | destruct (W x) as [? W1]];
     split; [by apply HG|]; match goal with IH : forall _ _, _ |- _ => apply IH; exact W1 end).
Qed.

End SocketIO.
