(* ===== verification/SocksMisc.v ===== *)
(** * SOCKS5 addresses and helpers (src/core/src/hev-socks5-misc.c,
      hev-socks5-proto.h)

    A [HevSocks5Addr] is the memory of the packed structure: the type byte followed
    by address and port, or by a length-prefixed name and port.  Conversions to and
    from [sockaddr_in6] and names follow the source access by access. *)

From Stdlib Require Import ZArith Lia.
From stdpp Require Import base list gmap numbers.
From S2P Require Import Prelude CBytes SocketIO.
Import list_basics.list list_relations.list list_monad.list list_misc.list.
Import SocketIO.

Module SocksMisc.

(** ** Protocol constants *)

Definition HEV_SOCKS5_VERSION_5 : Z := 5.
Definition HEV_SOCKS5_AUTH_METHOD_NONE : Z := 0.
Definition HEV_SOCKS5_AUTH_METHOD_USER : Z := 2.
Definition HEV_SOCKS5_AUTH_VERSION_1 : Z := 1.
Definition HEV_SOCKS5_REQ_CMD_CONNECT : Z := 1.
Definition HEV_SOCKS5_REQ_CMD_UDP_ASC : Z := 3.
Definition HEV_SOCKS5_REQ_CMD_FWD_UDP : Z := 5.
Definition HEV_SOCKS5_RES_REP_SUCC : Z := 0.
Definition HEV_SOCKS5_RES_REP_FAIL : Z := 1.
Definition HEV_SOCKS5_RES_REP_HOST : Z := 4.
Definition HEV_SOCKS5_RES_REP_IMPL : Z := 7.
Definition HEV_SOCKS5_RES_REP_ADDR : Z := 8.
Definition HEV_SOCKS5_ADDR_TYPE_IPV4 : Z := 1.
Definition HEV_SOCKS5_ADDR_TYPE_NAME : Z := 3.
Definition HEV_SOCKS5_ADDR_TYPE_IPV6 : Z := 4.

(** Memory image of [struct _HevSocks5Addr]: [atype] at 0; the address at 1 and the
    port behind it; or [domain.len] at 1 and [domain.addr] at 2. *)
Abbreviation HevSocks5Addr := bytes.
Definition sizeof_addr : Z := 260.

(** ** Static settings *)

Record HevSocks5Misc := mkMisc {
  connect_timeout : Z;
  tcp_timeout : Z;
  udp_timeout : Z;
  task_stack_size : Z;
  udp_recv_buffer_size : Z;
  udp_copy_buffer_nums : Z;
}.

Definition hev_socks5_misc_default : HevSocks5Misc := mkMisc 10000 300000 60000 8192 (512 * 1024) 10.

Definition hev_socks5_set_connect_timeout (m : HevSocks5Misc) (v : Z) : HevSocks5Misc :=
  mkMisc v (tcp_timeout m) (udp_timeout m) (task_stack_size m) (udp_recv_buffer_size m) (udp_copy_buffer_nums m).
Definition hev_socks5_set_tcp_timeout (m : HevSocks5Misc) (v : Z) : HevSocks5Misc :=
  mkMisc (connect_timeout m) v (udp_timeout m) (task_stack_size m) (udp_recv_buffer_size m) (udp_copy_buffer_nums m).
Definition hev_socks5_set_udp_timeout (m : HevSocks5Misc) (v : Z) : HevSocks5Misc :=
  mkMisc (connect_timeout m) (tcp_timeout m) v (task_stack_size m) (udp_recv_buffer_size m) (udp_copy_buffer_nums m).
Definition hev_socks5_set_task_stack_size (m : HevSocks5Misc) (v : Z) : HevSocks5Misc :=
  mkMisc (connect_timeout m) (tcp_timeout m) (udp_timeout m) v (udp_recv_buffer_size m) (udp_copy_buffer_nums m).
Definition hev_socks5_set_udp_recv_buffer_size (m : HevSocks5Misc) (v : Z) : HevSocks5Misc :=
  mkMisc (connect_timeout m) (tcp_timeout m) (udp_timeout m) (task_stack_size m) v (udp_copy_buffer_nums m).
Definition hev_socks5_set_udp_copy_buffer_nums (m : HevSocks5Misc) (v : Z) : HevSocks5Misc :=
  mkMisc (connect_timeout m) (tcp_timeout m) (udp_timeout m) (task_stack_size m) (udp_recv_buffer_size m) v.

(** ** Waiting *)

Inductive HevTaskYieldType := HEV_TASK_YIELD | HEV_TASK_WAITIO.

(** [remaining] is what [hev_task_sleep] returns. *)
Definition hev_socks5_task_io_yielder (type : HevTaskYieldType) (timeout remaining : Z) : Z :=
  match type with
  | HEV_TASK_YIELD => 0
  | HEV_TASK_WAITIO =>
      if timeout <? 0 then 0
      else if remaining <=? 0 then -1
      else 0
  end.

(** ** Sockets *)

Definition IPPROTO_IPV6 : Z := 41.
Definition IPV6_V6ONLY : Z := 26.
Definition SOL_SOCKET : Z := 1.
Definition SO_RCVBUF : Z := 8.

Definition hev_socks5_socket (m : HevSocks5Misc) (type : Z) : proc Z :=
  pdo fd := syscall (CSocket type) in
  if fd <? 0 then Ret (-1)
  else
    pdo res := syscall (CSetsockopt fd IPPROTO_IPV6 IPV6_V6ONLY 0) in
    if res <? 0 then pdo _ := syscall (CClose fd) in Ret (-1)
    else
      pdo res := syscall (CAddFd fd) in
      pdo _ := (if res <? 0 then syscall (CModFd fd) else Ret 0) in
      pdo _ := (if type =? SOCK_DGRAM
                then syscall (CSetsockopt fd SOL_SOCKET SO_RCVBUF (udp_recv_buffer_size m))
                else Ret 0) in
      Ret fd.

(** ** Addresses *)

Definition hev_socks5_addr_len (addr : HevSocks5Addr) : outcome Z :=
  let! atype := rd addr 0 in
  if atype =? HEV_SOCKS5_ADDR_TYPE_IPV4 then Val 7
  else if atype =? HEV_SOCKS5_ADDR_TYPE_IPV6 then Val 19
  else if atype =? HEV_SOCKS5_ADDR_TYPE_NAME then let! l := rd addr 1 in Val (4 + l)
  else Val (-1).

(** [name] is the C string without its terminator. *)
Definition hev_socks5_addr_from_name (addr : HevSocks5Addr) (name : bytes) (_port : Z)
  : outcome (Z * HevSocks5Addr) :=
  let port := u16 _port in
  let! addr := wr addr 0 HEV_SOCKS5_ADDR_TYPE_NAME in
  let! addr := put_n addr 2 (strncpy_image name 256) in
  let! s := cstr addr 2 in
  let! addr := wr addr 1 (zlen s) in
  let! len := rd addr 1 in
  let! addr := put_n addr (2 + len) (le16 port) in
  Val (4 + len, addr).

Definition hev_socks5_addr_from_ipv4 (addr : HevSocks5Addr) (ipv4 : bytes) (port : Z)
  : outcome (Z * HevSocks5Addr) :=
  let! addr := wr addr 0 HEV_SOCKS5_ADDR_TYPE_IPV4 in
  let! a := get_n ipv4 0 4 in
  let! addr := put_n addr 1 a in
  let! addr := st16 addr 5 (u16 port) in
  Val (7, addr).

Definition hev_socks5_addr_from_ipv6 (addr : HevSocks5Addr) (ipv6 : bytes) (port : Z)
  : outcome (Z * HevSocks5Addr) :=
  let! addr := wr addr 0 HEV_SOCKS5_ADDR_TYPE_IPV6 in
  let! a := get_n ipv6 0 16 in
  let! addr := put_n addr 1 a in
  let! addr := st16 addr 17 (u16 port) in
  Val (19, addr).

(** [IN6_IS_ADDR_V4MAPPED]. *)
Definition v4mapped_prefix : bytes := [0; 0; 0; 0; 0; 0; 0; 0; 0; 0; 255; 255].
Definition in6_is_addr_v4mapped (a : bytes) : bool := bool_decide (take 12 a = v4mapped_prefix).

Definition hev_socks5_addr_from_sockaddr6 (addr : HevSocks5Addr) (saddr : sockaddr_in6)
  : outcome (Z * HevSocks5Addr) :=
  if in6_is_addr_v4mapped (sin6_addr saddr) then
    let! addr := wr addr 0 HEV_SOCKS5_ADDR_TYPE_IPV4 in
    let! addr := st16 addr 5 (sin6_port saddr) in
    let! a := get_n (sin6_addr saddr) 12 4 in
    let! addr := put_n addr 1 a in
    Val (7, addr)
  else
    let! addr := wr addr 0 HEV_SOCKS5_ADDR_TYPE_IPV6 in
    let! addr := st16 addr 17 (sin6_port saddr) in
    let! a := get_n (sin6_addr saddr) 0 16 in
    let! addr := put_n addr 1 a in
    Val (19, addr).

(** [memset (a, 0, 10); a[10] = a[11] = 0xff; memcpy (a + 12, v4, 4)]. *)
Definition map_v4 (a v4 : bytes) : outcome bytes :=
  let! a := put_n a 0 (replicate 10 0) in
  let! a := wr a 10 0xff in
  let! a := wr a 11 0xff in
  put_n a 12 v4.

Definition hev_socks5_ipv4_into_sockaddr6 (addr : HevSocks5Addr) (saddr : sockaddr_in6)
  : outcome sockaddr_in6 :=
  let! port := ld16 addr 5 in
  let! v4 := get_n addr 1 4 in
  let! a := map_v4 (sin6_addr saddr) v4 in
  Val (mkSA AF_INET6 port a).

Definition hev_socks5_ipv6_into_sockaddr6 (addr : HevSocks5Addr) (saddr : sockaddr_in6)
  : outcome sockaddr_in6 :=
  let! port := ld16 addr 17 in
  let! v6 := get_n addr 1 16 in
  let! a := put_n (sin6_addr saddr) 0 v6 in
  Val (mkSA AF_INET6 port a).

(** ** Names

    [inet_pton] is a parameter: the bytes of the address a text denotes, if any. *)

Section resolve.
Context (inet_pton : Z -> bytes -> option bytes).

Definition with_addr (sa : sockaddr_in6) (a : bytes) : sockaddr_in6 :=
  mkSA (sin6_family sa) (sin6_port sa) a.

Definition hev_socks5_name_resolve_ipv4 (name : bytes) (saddr : sockaddr_in6)
  : outcome (Z * sockaddr_in6) :=
  let! a := put_n (sin6_addr saddr) 0 (replicate 10 0) in
  match inet_pton AF_INET name with
  | None => Val (-1, with_addr saddr a)
  | Some v4 =>
      let! a := put_n a 12 v4 in
      let! a := wr a 10 0xff in
      let! a := wr a 11 0xff in
      Val (0, with_addr saddr a)
  end.

Definition hev_socks5_name_resolve_ipv6 (name : bytes) (saddr : sockaddr_in6)
  : outcome (Z * sockaddr_in6) :=
  match inet_pton AF_INET6 name with
  | None => Val (-1, saddr)
  | Some v6 => let! a := put_n (sin6_addr saddr) 0 v6 in Val (0, with_addr saddr a)
  end.

(** The result, the address and [*family]. *)
Definition hev_socks5_name_resolve_name (name : bytes) (saddr : sockaddr_in6) (family : Z)
  : proc (Z * sockaddr_in6 * Z) :=
  pdo result := Resolve name family Ret in
  match result with
  | None => Ret (-1, saddr, family)
  | Some (ai_family, sa) =>
      if ai_family =? AF_INET then
        pdo a := lift (map_v4 (sin6_addr saddr) sa) in
        Ret (0, with_addr saddr a, AF_INET)
      else if ai_family =? AF_INET6 then
        pdo a := lift (put_n (sin6_addr saddr) 0 sa) in
        Ret (0, with_addr saddr a, AF_INET6)
      else Ret (-1, saddr, family)
  end.

Definition hev_socks5_name_into_sockaddr6 (name : bytes) (port : Z) (saddr : sockaddr_in6)
    (family : Z) : proc (Z * sockaddr_in6 * Z) :=
  let saddr := mkSA AF_INET6 (swap16 (u16 port)) (sin6_addr saddr) in
  pdo (res, saddr) := lift (hev_socks5_name_resolve_ipv4 name saddr) in
  if res =? 0 then Ret (0, saddr, AF_INET)
  else
    pdo (res, saddr) := lift (hev_socks5_name_resolve_ipv6 name saddr) in
    if res =? 0 then Ret (0, saddr, AF_INET6)
    else hev_socks5_name_resolve_name name saddr family.

Definition hev_socks5_addr_into_sockaddr6 (addr : HevSocks5Addr) (saddr : sockaddr_in6)
    (family : Z) : proc (Z * sockaddr_in6 * Z) :=
  pdo atype := lift (rd addr 0) in
  if atype =? HEV_SOCKS5_ADDR_TYPE_IPV4 then
    pdo saddr := lift (hev_socks5_ipv4_into_sockaddr6 addr saddr) in
    Ret (0, saddr, AF_INET)
  else if atype =? HEV_SOCKS5_ADDR_TYPE_IPV6 then
    pdo saddr := lift (hev_socks5_ipv6_into_sockaddr6 addr saddr) in
    Ret (0, saddr, AF_INET6)
  else if atype =? HEV_SOCKS5_ADDR_TYPE_NAME then
    pdo len := lift (rd addr 1) in
    pdo s := lift (get_n addr 2 len) in
    pdo name := lift (cstr_list (s ++ [0])) in
    pdo port := lift (ld16 addr (2 + len)) in
    hev_socks5_name_into_sockaddr6 name (swap16 port) saddr family
  else Ret (-1, saddr, family).

End resolve.
(** ** Specification: encodings of endpoints

    Ports are the 16-bit values stored in memory. *)

Inductive endpoint :=
| EIPv4 (a : bytes) (port : Z)
| EIPv6 (a : bytes) (port : Z)
| EName (n : bytes) (port : Z).

Definition encode (e : endpoint) : bytes :=
  match e with
  | EIPv4 a p => HEV_SOCKS5_ADDR_TYPE_IPV4 :: a ++ le16 p
  | EIPv6 a p => HEV_SOCKS5_ADDR_TYPE_IPV6 :: a ++ le16 p
  | EName n p => HEV_SOCKS5_ADDR_TYPE_NAME :: zlen n :: n ++ le16 p
  end.

Definition endpoint_ok (e : endpoint) : Prop :=
  match e with
  | EIPv4 a p => length a = 4%nat /\ is_bytes a /\ is_u16 p
  | EIPv6 a p => length a = 16%nat /\ is_bytes a /\ is_u16 p
  | EName n p => zlen n <= 255 /\ is_bytes n /\ is_u16 p
  end.

(** The endpoint that a socket address denotes. *)
Definition endpoint_of (sa : sockaddr_in6) : endpoint :=
  if in6_is_addr_v4mapped (sin6_addr sa) then EIPv4 (drop 12 (sin6_addr sa)) (sin6_port sa)
  else EIPv6 (sin6_addr sa) (sin6_port sa).

(** Expose the elements of the lists of known length in the context. *)
Ltac explode :=
  repeat match goal with
  | H : length ?l = S _ |- _ => is_var l; destruct l as [|? l]; [discriminate H|injection H as H]
  | H : length ?l = 0%nat |- _ => is_var l; destruct l; [clear H|discriminate H]
  end.

Lemma encode_length e : endpoint_ok e -> hev_socks5_addr_len (encode e) = Val (zlen (encode e)).
Proof.
  destruct e as [a p|a p|n p]; cbn [endpoint_ok]; intros (Hl & Hb & Hp).
  - explode. done.
  - explode. done.
  - cbn [encode]. change (hev_socks5_addr_len _) with (@Val Z (4 + zlen n)). f_equal.
    rewrite !zlen_cons, zlen_app. cbn. change (zlen (le16 p)) with 2. lia.
Qed.

Lemma rd_prefix p s i : 0 <= i < zlen p -> rd (p ++ s) i = rd p i.
Proof. unfold zlen, rd. intros. rewrite !bool_decide_true by lia. by rewrite lookup_app_l by lia. Qed.

Lemma addr_len_prefix e tl : endpoint_ok e ->
  hev_socks5_addr_len (encode e ++ tl) = Val (zlen (encode e)).
Proof.
  intros He. rewrite <- encode_length by done. unfold hev_socks5_addr_len.
  assert (2 <= zlen (encode e)).
  { destruct e; cbn [encode]; rewrite ?zlen_cons, ?zlen_app; cbn; unfold zlen; cbn; lia. }
  by rewrite !rd_prefix by lia.
Qed.

(** A buffer of at least [n] bytes, split into the first [n] and the rest. *)
Lemma take_front (b : bytes) n : (n <= length b)%nat -> exists p s, b = p ++ s /\ length p = n.
Proof. intros H. exists (take n b), (drop n b). rewrite take_drop, length_take. split; [done|lia]. Qed.

(** Stores and copies at constant offsets into an exploded buffer. *)
Lemma put_n_const b off src : 0 <= off -> off + zlen src <= zlen b ->
  put_n b off src = Val (splice (Z.to_nat off) src b).
Proof. intros. unfold put_n. by rewrite bool_decide_true. Qed.

Lemma get_n_const b off n : 0 <= off -> 0 <= n -> off + n <= zlen b ->
  get_n b off n = Val (slice (Z.to_nat off) (Z.to_nat n) b).
Proof. intros. unfold get_n. by rewrite bool_decide_true. Qed.

Ltac len_side := unfold zlen; rewrite ?length_app, ?length_insert; cbn [length app]; lia.

Ltac compute_list i e :=
  let j := eval vm_compute in (Z.to_nat i) in
  change (Z.to_nat i) with j;
  let e := (eval pattern (Z.to_nat i) in e) in
  let e := match e with ?f _ => eval cbv beta in (f j) end in
  let r := eval cbv [insert list_insert splice slice take drop app length Z.to_nat Pos.to_nat
                     Pos.iter_op Init.Nat.add Nat.add] in e in
  change e with r.

Ltac mem_step :=
  match goal with
  | |- context [wr ?b ?i ?v] =>
      rewrite (wr_ok b i v) by len_side; compute_list i (<[Z.to_nat i := u8 v]> b)
  | |- context [put_n ?b ?i ?v] =>
      rewrite (put_n_const b i v) by len_side; compute_list i (splice (Z.to_nat i) v b)
  | |- context [get_n ?b ?i ?v] =>
      rewrite (get_n_const b i v) by len_side; compute_list i (slice (Z.to_nat i) (Z.to_nat v) b)
  end; cbn [obind].

Lemma from_ipv4_ok addr a p :
  19 <= zlen addr -> length a = 4%nat -> is_u16 p ->
  exists tl, hev_socks5_addr_from_ipv4 addr a p = Val (7, encode (EIPv4 a p) ++ tl) /\
    zlen (encode (EIPv4 a p) ++ tl) = zlen addr.
Proof.
  intros Hl Ha Hp. unfold hev_socks5_addr_from_ipv4. rewrite (u16_id p) by done.
  destruct (take_front addr 7) as (f & s & -> & Hf); [unfold zlen in *; lia|]. explode.
  unfold st16. repeat mem_step. eexists. split; reflexivity.
Qed.
Lemma from_ipv6_ok addr a p :
  19 <= zlen addr -> length a = 16%nat -> is_u16 p ->
  exists tl, hev_socks5_addr_from_ipv6 addr a p = Val (19, encode (EIPv6 a p) ++ tl) /\
    zlen (encode (EIPv6 a p) ++ tl) = zlen addr.
Proof.
  intros Hl Ha Hp. unfold hev_socks5_addr_from_ipv6. rewrite (u16_id p) by done.
  destruct (take_front addr 19) as (f & s & -> & Hf); [unfold zlen in *; lia|]. explode.
  unfold st16. repeat mem_step. eexists. split; reflexivity.
Qed.

Lemma v4mapped_split a : length a = 16%nat -> in6_is_addr_v4mapped a = true ->
  exists v, a = v4mapped_prefix ++ v /\ length v = 4%nat.
Proof.
  intros Ha Hm. apply bool_decide_eq_true in Hm. exists (drop 12 a).
  rewrite <- Hm, take_drop, length_drop. split; [done|lia].
Qed.

Lemma endpoint_of_ok sa : sockaddr_ok sa -> endpoint_ok (endpoint_of sa).
Proof.
  intros (Ha & Hb & Hp). unfold endpoint_of. destruct (in6_is_addr_v4mapped _) eqn:E; [|done].
  split_and!; [by rewrite length_drop, Ha|by apply Forall_drop|done].
Qed.

Lemma from_sockaddr6_ok addr sa :
  19 <= zlen addr -> sockaddr_ok sa ->
  exists tl, hev_socks5_addr_from_sockaddr6 addr sa =
      Val (zlen (encode (endpoint_of sa)), encode (endpoint_of sa) ++ tl) /\
    zlen (encode (endpoint_of sa) ++ tl) = zlen addr.
Proof.
  intros Hl (Ha & Hb & Hp). unfold hev_socks5_addr_from_sockaddr6, endpoint_of.
  destruct sa as [fam p a]. cbn [sin6_addr sin6_port] in *.
  destruct (take_front addr 19) as (f & s & -> & Hf); [unfold zlen in *; lia|].
  destruct (in6_is_addr_v4mapped a) eqn:Em.
  - destruct (v4mapped_split a Ha Em) as (v & -> & Hv). clear Ha Hb Em. unfold v4mapped_prefix in *.
    explode. unfold st16. cbn [app]. repeat mem_step. eexists. split; reflexivity.
  - clear Em. explode. unfold st16. repeat mem_step. eexists. split; reflexivity.
Qed.

(** The text of a C string in a buffer that ends in a terminator. *)
Fixpoint until_nul (n : bytes) : bytes :=
  match n with
  | [] => []
  | x :: n => if x =? 0 then [] else x :: until_nul n
  end.

Lemma cstr_until_nul n : cstr_list (n ++ [0]) = Val (until_nul n).
Proof. induction n as [|x n IH]; cbn; [done|]. destruct (x =? 0); [done|]. by rewrite IH. Qed.

Lemma until_nul_id n : Forall (fun x => x <> 0) n -> until_nul n = n.
Proof. induction 1 as [|x n Hx Hn IH]; cbn; [done|]. by rewrite (proj2 (Z.eqb_neq _ _) Hx), IH. Qed.

Lemma until_nul_bytes n : is_bytes n -> is_bytes (until_nul n).
Proof. induction 1 as [|x n Hx Hn IH]; cbn; [constructor|]. destruct (x =? 0); by constructor. Qed.

(** What [into_sockaddr6] yields for an address. *)
Definition v4mapped (a : bytes) : bytes := v4mapped_prefix ++ a.
Arguments v4mapped : simpl never.

Lemma map_v4_ok a v : length a = 16%nat -> length v = 4%nat -> map_v4 a v = Val (v4mapped v).
Proof. intros Ha Hv. explode. unfold map_v4. cbn [replicate]. repeat mem_step. reflexivity. Qed.

Lemma put16 a v : length a = 16%nat -> length v = 16%nat -> put_n a 0 v = Val v.
Proof. intros Ha Hv. explode. mem_step. reflexivity. Qed.

Lemma ld16_le16 p m v s off : is_u16 v -> off = zlen p + zlen m -> ld16 (p ++ m ++ le16 v ++ s) off = Val v.
Proof. intros Hv ->. rewrite app_assoc, <- zlen_app. by apply le16_ld. Qed.

Section into.
Context (inet_pton : Z -> bytes -> option bytes).

Lemma into_ipv4_ok a p tl sa fam :
  endpoint_ok (EIPv4 a p) -> length (sin6_addr sa) = 16%nat ->
  hev_socks5_addr_into_sockaddr6 inet_pton (encode (EIPv4 a p) ++ tl) sa fam =
    Ret (0, mkSA AF_INET6 p (v4mapped a), AF_INET).
Proof.
  intros (Ha & _ & Hp) Hsa. unfold hev_socks5_addr_into_sockaddr6, hev_socks5_ipv4_into_sockaddr6.
  replace (encode (EIPv4 a p) ++ tl) with ([1] ++ a ++ le16 p ++ tl) by (cbn; by list_norm).
  change (rd ([1] ++ a ++ le16 p ++ tl) 0) with (Val 1). cbn [lift bind Z.eqb Pos.eqb HEV_SOCKS5_ADDR_TYPE_IPV4 HEV_SOCKS5_ADDR_TYPE_IPV6].
  rewrite (ld16_le16 [1] a p tl 5) by (done || unfold zlen; cbn; lia). cbn [obind].
  rewrite (get_n_app [1] a (le16 p ++ tl) 1 4) by (done || unfold zlen; cbn; lia). cbn [obind].
  by rewrite map_v4_ok.
Qed.

Lemma into_ipv6_ok a p tl sa fam :
  endpoint_ok (EIPv6 a p) -> length (sin6_addr sa) = 16%nat ->
  hev_socks5_addr_into_sockaddr6 inet_pton (encode (EIPv6 a p) ++ tl) sa fam =
    Ret (0, mkSA AF_INET6 p a, AF_INET6).
Proof.
  intros (Ha & _ & Hp) Hsa. unfold hev_socks5_addr_into_sockaddr6, hev_socks5_ipv6_into_sockaddr6.
  replace (encode (EIPv6 a p) ++ tl) with ([4] ++ a ++ le16 p ++ tl) by (cbn; by list_norm).
  change (rd ([4] ++ a ++ le16 p ++ tl) 0) with (Val 4). cbn [lift bind Z.eqb Pos.eqb HEV_SOCKS5_ADDR_TYPE_IPV4 HEV_SOCKS5_ADDR_TYPE_IPV6].
  rewrite (ld16_le16 [4] a p tl 17) by (done || unfold zlen; cbn; lia). cbn [obind].
  rewrite (get_n_app [4] a (le16 p ++ tl) 1 16) by (done || unfold zlen; cbn; lia). cbn [obind].
  by rewrite put16.
Qed.

Lemma into_name_ok n p tl sa fam :
  endpoint_ok (EName n p) ->
  hev_socks5_addr_into_sockaddr6 inet_pton (encode (EName n p) ++ tl) sa fam =
    hev_socks5_name_into_sockaddr6 inet_pton (until_nul n) (swap16 p) sa fam.
Proof.
  intros (Ha & Hb & Hp). unfold hev_socks5_addr_into_sockaddr6.
  replace (encode (EName n p) ++ tl) with ([3; zlen n] ++ n ++ le16 p ++ tl) by (cbn; by list_norm).
  change (rd ([3; zlen n] ++ n ++ le16 p ++ tl) 0) with (Val 3).
  cbn [lift bind Z.eqb Pos.eqb HEV_SOCKS5_ADDR_TYPE_IPV4 HEV_SOCKS5_ADDR_TYPE_IPV6 HEV_SOCKS5_ADDR_TYPE_NAME].
  change (rd ([3; zlen n] ++ n ++ le16 p ++ tl) 1) with (Val (zlen n)). cbn [lift bind].
  rewrite (get_n_app [3; zlen n] n (le16 p ++ tl) 2 (zlen n)) by done. cbn [lift bind].
  rewrite cstr_until_nul. cbn [lift bind].
  rewrite (ld16_le16 [3; zlen n] n p tl (2 + zlen n)) by (done || unfold zlen; cbn; lia). done.
Qed.

End into.

Lemma from_name_ok addr n p :
  zlen addr = sizeof_addr -> Forall (fun x => x <> 0) n -> zlen n <= 255 -> is_u16 p ->
  exists tl, hev_socks5_addr_from_name addr n p = Val (zlen (encode (EName n p)), encode (EName n p) ++ tl) /\
    zlen (encode (EName n p) ++ tl) = zlen addr.
Proof.
  unfold sizeof_addr. intros Hl Hn Hz Hp. unfold hev_socks5_addr_from_name. rewrite (u16_id p) by done.
  pose proof (zlen_nonneg n) as Hn0.
  destruct (take_front addr 2) as (f & s & -> & Hf); [unfold zlen in *; lia|]. explode. list_norm.
  rewrite wr_head. change (u8 HEV_SOCKS5_ADDR_TYPE_NAME) with 3. cbn [obind]. cbn [app] in Hl. rewrite !zlen_cons in Hl.
  destruct (split_at s 0 256) as (? & m & r & -> & H0 & Hm); [lia..|]. destruct x; [|unfold zlen in H0; cbn in H0; lia].
  cbn [app] in *. rewrite zlen_app in Hl.
  change (3 :: z0 :: m ++ r) with ([3; z0] ++ m ++ r).
  rewrite (put_n_app [3; z0] m r 2 (strncpy_image n 256)) by (unfold zlen in *; rewrite ?length_strncpy; cbn; lia).
  rewrite strncpy_short by (unfold zlen in *; lia). cbn [obind].
  unfold cstr. rewrite bool_decide_true by lia. change (Z.to_nat 2) with (length [3; z0]).
  rewrite drop_app_length.
  destruct (256 - length n)%nat as [|k] eqn:Ek; [unfold zlen in *; lia|].
  cbn [replicate]. list_norm. rewrite cstr_list_text by done. cbn [obind].
  change (3 :: z0 :: n ++ 0 :: replicate k 0 ++ r) with ([3] ++ z0 :: n ++ 0 :: replicate k 0 ++ r).
  rewrite (wr_app_r [3] _ 1 0 _ (u8 (zlen n) :: n ++ 0 :: replicate k 0 ++ r)) by (done || apply wr_head).
  cbn [obind app].
  change (rd (3 :: u8 (zlen n) :: n ++ 0 :: replicate k 0 ++ r) 1) with (Val (u8 (zlen n))). cbn [obind].
  rewrite u8_id by (unfold is_u8; lia).
  assert (zlen (0 :: replicate k 0 ++ r) = 258 - zlen n) as HX
    by (rewrite zlen_cons, zlen_app, zlen_replicate; unfold zlen in *; lia).
  destruct (take_front (0 :: replicate k 0 ++ r) 2) as (m2 & rest & EX & Hm2); [unfold zlen in *; lia|].
  rewrite EX in *. clear EX.
  change (3 :: zlen n :: n ++ m2 ++ rest) with ([3; zlen n] ++ n ++ m2 ++ rest). rewrite app_assoc.
  rewrite (put_n_app ([3; zlen n] ++ n) m2 rest) by (unfold zlen in *; rewrite ?length_app; cbn; lia).
  cbn [obind]. exists rest. cbn [encode]. rewrite !zlen_app, !zlen_cons, !zlen_app in *.
  change (zlen (le16 p)) with 2. assert (zlen m2 = 2) by (unfold zlen; lia). split; [|cbn [app]; rewrite ?zlen_cons, ?zlen_app in *; lia].
  rewrite <- !app_assoc. cbn [app]. list_norm. do 2 f_equal. lia.
Qed.
(** A socket address survives its encoding: what
    [hev_socks5_addr_from_sockaddr6] writes has the length it returns and that
    [hev_socks5_addr_len] reports, and [hev_socks5_addr_into_sockaddr6] reads the
    same address and port back without asking the resolver, an IPv4-mapped address
    by way of the IPv4 form. *)
Lemma sockaddr_roundtrip inet_pton addr sa sa0 fam :
  zlen addr = sizeof_addr -> sockaddr_ok sa -> sin6_family sa = AF_INET6 ->
  length (sin6_addr sa0) = 16%nat ->
  exists n addr', hev_socks5_addr_from_sockaddr6 addr sa = Val (n, addr') /\
    hev_socks5_addr_len addr' = Val n /\ zlen addr' = sizeof_addr /\
    hev_socks5_addr_into_sockaddr6 inet_pton addr' sa0 fam =
      Ret (0, sa, if in6_is_addr_v4mapped (sin6_addr sa) then AF_INET else AF_INET6).
Proof.
  intros Hl Hsa Hf H0. destruct (from_sockaddr6_ok addr sa) as (tl & E & El); [unfold sizeof_addr in Hl; lia|done|].
  pose proof (endpoint_of_ok sa Hsa) as Hok. exists (zlen (encode (endpoint_of sa))), (encode (endpoint_of sa) ++ tl).
  split_and!; [done|by apply addr_len_prefix|by rewrite El|]. clear E El.
  destruct sa as [f p a]. cbn in Hf. subst f. unfold endpoint_of in *. cbn [sin6_addr sin6_port] in *.
  destruct (in6_is_addr_v4mapped a) eqn:Em.
  - rewrite into_ipv4_ok by done. destruct Hsa as (Ha & _). destruct (v4mapped_split a Ha Em) as (v & -> & _). done.
  - by rewrite into_ipv6_ok.
Qed.

(** The address a name denotes: a literal of [inet_pton], else the answer of the
    resolver, which is asked exactly then. *)
Definition resolved (inet_pton : Z -> bytes -> option bytes) (n : bytes) (fam : Z) (h : history)
    (a : bytes) (fam' : Z) : Prop :=
  match inet_pton AF_INET n, inet_pton AF_INET6 n with
  | Some v, _ => h = [] /\ a = v4mapped v /\ fam' = AF_INET
  | None, Some v => h = [] /\ a = v /\ fam' = AF_INET6
  | None, None => exists v, h = [EvResolve n fam (Some (fam', v))] /\
      (fam' = AF_INET /\ a = v4mapped v \/ fam' = AF_INET6 /\ a = v)
  end.

(** [inet_pton] stores 4 or 16 bytes, by family. *)
Definition pton_ok (inet_pton : Z -> bytes -> option bytes) : Prop :=
  forall n v, is_bytes n ->
    (inet_pton AF_INET n = Some v -> length v = 4%nat /\ is_bytes v) /\
    (inet_pton AF_INET6 n = Some v -> length v = 16%nat /\ is_bytes v).

Lemma is_bytes_v4mapped v : is_bytes v -> is_bytes (v4mapped v).
Proof. intros H. apply Forall_app. split; [bytes_concrete|done]. Qed.

Lemma length_v4mapped v : length v = 4%nat -> length (v4mapped v) = 16%nat.
Proof. intros H. unfold v4mapped. by rewrite length_app, H. Qed.

Lemma map_v4_prefix a v : length a = 16%nat -> length v = 4%nat ->
  (let! a := put_n a 0 (replicate 10 0) in
   let! a := put_n a 12 v in let! a := wr a 10 0xff in wr a 11 0xff) = Val (v4mapped v).
Proof. intros Ha Hv. explode. cbn [replicate]. repeat mem_step. reflexivity. Qed.

Lemma name_into_ok (G : SocketIO.history -> event -> Prop) inet_pton n port sa fam h0 :
  pton_ok inet_pton -> is_bytes n -> length (sin6_addr sa) = 16%nat -> is_bytes (sin6_addr sa) ->
  (forall r, G h0 (EvResolve n fam r)) ->
  wp G (hev_socks5_name_into_sockaddr6 inet_pton n port sa fam)
    (fun r h => exists h', h = h0 ++ h' /\ sockaddr_ok r.1.2 /\
       (r.1.1 = 0 /\ sin6_family r.1.2 = AF_INET6 /\ sin6_port r.1.2 = swap16 (u16 port) /\
        resolved inet_pton n fam h' (sin6_addr r.1.2) r.2 \/
        r.1.1 = -1 /\ r.2 = fam /\ exists q, h' = [EvResolve n fam q])) h0.
Proof.
  intros Hp Hn Hsa Hb Hg. unfold hev_socks5_name_into_sockaddr6, resolved.
  unfold hev_socks5_name_resolve_ipv4, hev_socks5_name_resolve_ipv6, hev_socks5_name_resolve_name.
  cbn [sin6_addr with_addr sin6_family sin6_port]. destruct sa as [f p a]. cbn [sin6_addr] in *.
  assert (forall a, length a = 16%nat -> is_bytes a -> sockaddr_ok (mkSA AF_INET6 (swap16 (u16 port)) a)) as Hsok
    by (intros b L B; split_and!; (done || apply swap16_range)).
  destruct (inet_pton AF_INET n) as [v|] eqn:E4.
  { destruct (proj1 (Hp n v Hn) E4) as [Lv Bv]. pose proof (map_v4_prefix a v Hsa Lv) as Em.
    destruct (put_n a 0 (replicate 10 0)) as [a1|]; [cbn [obind] in *|done].
    destruct (put_n a1 12 v) as [a2|]; [cbn [obind] in *|done].
    destruct (wr a2 10 0xff) as [a3|]; [cbn [obind] in *|done]. rewrite Em. cbn.
    exists []. rewrite app_nil_r. split; [done|].
    split; [apply Hsok; auto using length_v4mapped, is_bytes_v4mapped|by left]. }
  assert (exists a1, put_n a 0 (replicate 10 0) = Val a1 /\ length a1 = 16%nat /\ is_bytes a1) as (a1 & -> & L1 & B1).
  { rewrite put_n_const by (unfold zlen; rewrite ?length_replicate; lia). eexists. split; [done|].
    rewrite length_splice by (rewrite ?length_replicate; lia). split; [done|].
    apply Forall_app. split; [by apply Forall_take|]. apply Forall_app.
    split; [bytes_concrete|by apply Forall_drop]. }
  cbn [obind lift bind Z.eqb].
  destruct (inet_pton AF_INET6 n) as [v|] eqn:E6.
  { destruct (proj2 (Hp n v Hn) E6) as [Lv Bv]. rewrite put16 by done. cbn.
    exists []. rewrite app_nil_r. split; [done|]. split; [by apply Hsok|by left]. }
  cbn. intros r Hr. split; [by apply Hg|]. destruct r as [[fm v]|]; cbn.
  2: { eexists. split; [done|]. split; [by apply Hsok|]. right. eauto. }
  destruct Hr as (Bv & L4 & L6).
  destruct (Z.eqb_spec fm AF_INET) as [->|N4]; [|destruct (Z.eqb_spec fm AF_INET6) as [->|N6]]; cbn.
  - rewrite map_v4_ok by auto. cbn. eexists. split; [done|].
    split; [apply Hsok; auto using length_v4mapped, is_bytes_v4mapped|]. left. eauto 10.
  - rewrite put16 by auto. cbn. eexists. split; [done|]. split; [apply Hsok; auto|]. left. eauto 10.
  - eexists. split; [done|]. split; [by apply Hsok|]. right. eauto.
Qed.

(** A name of up to 255 bytes survives its encoding: the address that
    [hev_socks5_addr_from_name] builds has the reported length, and
    [hev_socks5_addr_into_sockaddr6] converts a literal itself and otherwise asks the
    resolver once, for exactly that name, and keeps the port. *)
Lemma name_roundtrip inet_pton addr n p sa fam :
  pton_ok inet_pton -> zlen addr = sizeof_addr ->
  is_bytes n -> Forall (fun x => x <> 0) n -> zlen n <= 255 -> is_u16 p ->
  length (sin6_addr sa) = 16%nat -> is_bytes (sin6_addr sa) ->
  exists len addr', hev_socks5_addr_from_name addr n p = Val (len, addr') /\
    hev_socks5_addr_len addr' = Val len /\ zlen addr' = sizeof_addr /\
    wp (fun _ e => exists r, e = EvResolve n fam r)
      (hev_socks5_addr_into_sockaddr6 inet_pton addr' sa fam)
      (fun '(res, sa', fam') h =>
         res = 0 /\ sin6_family sa' = AF_INET6 /\ sin6_port sa' = p /\
           resolved inet_pton n fam h (sin6_addr sa') fam' \/
         res = -1 /\ fam' = fam /\ exists q, h = [EvResolve n fam q]) [].
Proof.
  intros Hpt Hl Hb Hn Hz Hp Hsa Hsb. destruct (from_name_ok addr n p) as (tl & E & El); [done..|].
  exists (zlen (encode (EName n p))), (encode (EName n p) ++ tl).
  split_and!; [done|by apply addr_len_prefix|by rewrite El|]. rewrite into_name_ok by done.
  rewrite until_nul_id by done.
  eapply wp_mono; [apply name_into_ok; try done; eauto|].
  intros [[res sa'] fam'] h (h' & -> & _ & [(? & ? & Hpo & ?)|?]); [left|by right].
  cbn in *. rewrite u16_id, swap16_invol in Hpo by (done || apply swap16_range). done.
Qed.

(** addresses survive their encoding.  What [hev_socks5_addr_from_sockaddr6] writes
    for a socket address has the length it returns and that [hev_socks5_addr_len] reports,
    and [hev_socks5_addr_into_sockaddr6] reads the same address and port back without
    asking the resolver, an IPv4-mapped address by way of the IPv4 form.  The same holds
    for what [hev_socks5_addr_from_name] writes for a name of up to 255 bytes: a literal is
    converted, and otherwise the resolver is asked once, for exactly that name; the port is
    kept. *)
Theorem addr_roundtrip inet_pton addr :
  pton_ok inet_pton -> zlen addr = sizeof_addr ->
  (forall sa sa0 fam, sockaddr_ok sa -> sin6_family sa = AF_INET6 -> length (sin6_addr sa0) = 16%nat ->
    exists n addr', hev_socks5_addr_from_sockaddr6 addr sa = Val (n, addr') /\
      hev_socks5_addr_len addr' = Val n /\ zlen addr' = sizeof_addr /\
      hev_socks5_addr_into_sockaddr6 inet_pton addr' sa0 fam =
        Ret (0, sa, if in6_is_addr_v4mapped (sin6_addr sa) then AF_INET else AF_INET6)) /\
  (forall n p sa fam, is_bytes n -> Forall (fun x => x <> 0) n -> zlen n <= 255 -> is_u16 p ->
    length (sin6_addr sa) = 16%nat -> is_bytes (sin6_addr sa) ->
    exists len addr', hev_socks5_addr_from_name addr n p = Val (len, addr') /\
      hev_socks5_addr_len addr' = Val len /\ zlen addr' = sizeof_addr /\
      wp (fun _ e => exists r, e = EvResolve n fam r)
        (hev_socks5_addr_into_sockaddr6 inet_pton addr' sa fam)
        (fun '(res, sa', fam') h =>
           res = 0 /\ sin6_family sa' = AF_INET6 /\ sin6_port sa' = p /\
             resolved inet_pton n fam h (sin6_addr sa') fam' \/
           res = -1 /\ fam' = fam /\ exists q, h = [EvResolve n fam q]) []).
Proof. intros Hp Hl. split; intros; [by apply sockaddr_roundtrip|by apply name_roundtrip]. Qed.

(** Longer names are not: [strncpy] leaves 256 bytes without a terminator, and
    [strlen] runs on into the bytes behind them. *)
Example addr_from_name_overrun :
  hev_socks5_addr_from_name (replicate 260 1) (replicate 256 97) 80 = Fault.
Proof. vm_compute. reflexivity. Qed.

Definition example_pton (fam : Z) (n : bytes) : option bytes :=
  if bool_decide (fam = AF_INET /\ n = [49; 46; 49]) then Some [1; 0; 0; 1] else None.

Lemma example_pton_ok : pton_ok example_pton.
Proof.
  intros n v _. unfold example_pton. split; case_bool; try done.
  - intros [= <-]. split; [done|bytes_concrete].
  - destruct a. done.
Qed.

Lemma addr_roundtrip_witness :
  (exists n addr', hev_socks5_addr_from_sockaddr6 (replicate 260 7) (mkSA AF_INET6 20480 (v4mapped [10; 0; 0; 1])) =
      Val (n, addr') /\ n = 7) /\
  exists len addr', hev_socks5_addr_from_name (replicate 260 7) [97; 46; 98] 20480 = Val (len, addr') /\ len = 7.
Proof.
  destruct (addr_roundtrip example_pton (replicate 260 7) example_pton_ok eq_refl) as [Hs Hn]. split.
  - destruct (Hs (mkSA AF_INET6 20480 (v4mapped [10; 0; 0; 1])) (mkSA 0 0 (replicate 16 0)) 0) as (n & a & E & _).
    + split_and!; [reflexivity|bytes_concrete|split; vm_compute; congruence].
    + reflexivity.
    + reflexivity.
    + exists n, a. split; [exact E|]. revert E. vm_compute. congruence.
  - destruct (Hn [97; 46; 98] 20480 (mkSA 0 0 (replicate 16 0)) 0) as (n & a & E & _).
    + bytes_concrete.
    + repeat constructor; discriminate.
    + vm_compute. congruence.
    + split; vm_compute; congruence.
    + reflexivity.
    + bytes_concrete.
    + exists n, a. split; [exact E|]. revert E. vm_compute. congruence.
Defined.

(** ** Decoding

    Bytes of the length that the type announces are the encoding of an endpoint. *)
Definition rest_len (atype first : Z) : Z :=
  if atype =? HEV_SOCKS5_ADDR_TYPE_IPV4 then 5
  else if atype =? HEV_SOCKS5_ADDR_TYPE_IPV6 then 17
  else if atype =? HEV_SOCKS5_ADDR_TYPE_NAME then 2 + first
  else -1.

Lemma le16_pair x y : is_u8 x -> is_u8 y -> le16 (x + 256 * y) = [x; y] /\ is_u16 (x + 256 * y).
Proof.
  intros Hx Hy. unfold le16. rewrite pair_lo, pair_hi by done. split; [done|].
  unfold is_u8, is_u16 in *. lia.
Qed.

Lemma split_port (bs : bytes) n : is_bytes bs -> length bs = (n + 2)%nat ->
  exists a p, bs = a ++ le16 p /\ length a = n /\ is_bytes a /\ is_u16 p.
Proof.
  intros Hb Hl. exists (take n bs). destruct (drop n bs) as [|x [|y [|]]] eqn:E;
    try (apply (f_equal length) in E; rewrite length_drop in E; cbn in E; lia).
  assert (is_bytes [x; y]) as Hxy by (rewrite <- E; by apply Forall_drop).
  apply Forall_cons in Hxy as [Hx [Hy _]%Forall_cons]. destruct (le16_pair x y Hx Hy) as [El Hu].
  exists (x + 256 * y). rewrite El, <- E, take_drop, length_take. split_and!; [done|lia|by apply Forall_take|done].
Qed.

Lemma decode_ok atype first rest :
  is_bytes (first :: rest) -> rest_len atype first <> -1 -> zlen rest = rest_len atype first ->
  exists e, endpoint_ok e /\ atype :: first :: rest = encode e.
Proof.
  unfold rest_len. intros Hb. apply Forall_cons in Hb as Hfr. destruct Hfr as [Hf Hr].
  destruct (Z.eqb_spec atype HEV_SOCKS5_ADDR_TYPE_IPV4) as [->|_];
    [|destruct (Z.eqb_spec atype HEV_SOCKS5_ADDR_TYPE_IPV6) as [->|_];
    [|destruct (Z.eqb_spec atype HEV_SOCKS5_ADDR_TYPE_NAME) as [->|_]; [|done]]]; intros _ Hl.
  - destruct (split_port (first :: rest) 4 Hb) as (a & p & E & La & Ba & Hp); [unfold zlen in Hl; cbn; lia|].
    exists (EIPv4 a p). rewrite E. done.
  - destruct (split_port (first :: rest) 16 Hb) as (a & p & E & La & Ba & Hp); [unfold zlen in Hl; cbn; lia|].
    exists (EIPv6 a p). rewrite E. done.
  - unfold is_u8 in Hf. destruct (split_port rest (Z.to_nat first) Hr) as (a & p & E & La & Ba & Hp); [unfold zlen in Hl; lia|].
    exists (EName a p). rewrite E. cbn [encode endpoint_ok]. unfold zlen. rewrite La.
    split_and!; [lia|done|done|]. do 2 f_equal. lia.
Qed.

(** Conversion of any decoded address: no crash, and nothing but at most one question
    to the resolver. *)
Lemma into_sockaddr6_wp G inet_pton e sa fam h0 :
  pton_ok inet_pton -> endpoint_ok e -> sockaddr_ok sa ->
  (forall n r, G h0 (EvResolve n fam r)) ->
  wp G (hev_socks5_addr_into_sockaddr6 inet_pton (encode e) sa fam)
    (fun r h => sockaddr_ok r.1.2 /\ (r.1.1 = 0 \/ r.1.1 = -1) /\
       (h = h0 \/ exists n q, h = h0 ++ [EvResolve n fam q])) h0.
Proof.
  intros Hpt He (Ls & Bs & Ps) Hg. rewrite <- (app_nil_r (encode e)).
  destruct e as [a p|a p|n p].
  - rewrite into_ipv4_ok by done. cbn. destruct He as (La & Ba & Hp).
    split; [split_and!; cbn; auto using length_v4mapped, is_bytes_v4mapped|by auto].
  - rewrite into_ipv6_ok by done. cbn. destruct He as (La & Ba & Hp). split; [by split_and!|by auto].
  - rewrite into_name_ok by done. destruct He as (Ln & Bn & Hp).
    eapply wp_mono; [apply name_into_ok; auto using until_nul_bytes|].
    intros [[res sa'] fam'] h (h' & -> & Hok & [(-> & _ & _ & Hr)|(-> & _ & q & ->)]); cbn in *.
    + split; [done|]. split; [by left|]. unfold resolved in Hr.
      destruct (inet_pton AF_INET _) as [v4|]; [destruct Hr as [-> _]; left; by rewrite app_nil_r|].
      destruct (inet_pton AF_INET6 _) as [v6|]; [destruct Hr as [-> _]; left; by rewrite app_nil_r|].
      destruct Hr as (v & -> & _). right. by eexists _, _.
    + split; [done|]. split; [by right|]. right. by eexists _, _.
Qed.

End SocksMisc.
