(* ===== verification/TaskIO.v ===== *)
(** * Socket input and output of the task library
      (third-part/hev-task-system/src/lib/io/socket/hev-task-io-socket.c)

    The retry loops around [recv], [recvmsg] and [sendmsg].  The kernel is the
    list of what it will do next; a call whose future runs out is still waiting
    ([None]).  The loops are shown equal to structural reference functions, and the
    receive loop to meet the contract [recv_ok] that [SocketIO] assumes of it. *)

From Stdlib Require Import ZArith Lia.
From stdpp Require Import base list gmap numbers.
From S2P Require Import Prelude CBytes RingBuffer SocketIO SocksMisc.
Import list_basics.list list_relations.list list_monad.list list_misc.list.
Import SocketIO SocksMisc.

Module TaskIO.

(** ** The receiving side

    What a non-blocking socket does on successive calls: bytes are there; nothing is
    there, and the yielder's sleep then leaves [remaining] time; the peer closed; an
    error. *)
Inductive arrival :=
| Arrive (bs : bytes)
| Again (remaining : Z)
| Eof
| Err.

Abbreviation net := (list arrival).
Abbreviation iovec := RingBuffer.iovec.
Abbreviation mkIov := RingBuffer.mkIov.

(** Result, bytes, and whether [errno] is [EAGAIN] with the sleep that follows. *)
Definition sys_recv (n : Z) (w : net) : option (Z * bytes * option Z * net) :=
  match w with
  | [] => None
  | Arrive bs :: w =>
      let got := take (Z.to_nat n) bs in
      let rest := drop (Z.to_nat n) bs in
      Some (zlen got, got, None, if bool_decide (rest = []) then w else Arrive rest :: w)
  | Again rem :: w => Some (-1, [], Some rem, w)
  | Eof :: w => Some (0, [], None, Eof :: w)
  | Err :: w => Some (-1, [], None, w)
  end.

(** [return size ? size : e]. *)
Definition size_or (size e : Z) : Z := if size =? 0 then e else size.

Section timeout.
Context (timeout : Z).

Fixpoint recv_retry (fuel : nat) (len : Z) (waitall dontwait : bool) (size : Z) (buf : bytes) (w : net)
  : option (rans * net) :=
  match fuel with
  | O => None
  | S fuel =>
      match sys_recv (len - size) w with
      | None => None
      | Some (s, got, Some rem, w) =>
          if dontwait then
            if waitall then Some (mkR (size_or size s) buf true, w) else Some (mkR s got true, w)
          else if hev_socks5_task_io_yielder HEV_TASK_WAITIO timeout rem =? 0
          then recv_retry fuel len waitall dontwait size buf w
          else Some (mkR (size_or size (-2)) buf true, w)
      | Some (s, got, None, w) =>
          if negb waitall then Some (mkR s got false, w)
          else if s <=? 0 then Some (mkR (size_or size s) buf false, w)
          else
            let size := size + s in
            let buf := buf ++ got in
            if size <? len then recv_retry fuel len waitall dontwait size buf w
            else Some (mkR size buf false, w)
      end
  end.

Definition hev_task_io_socket_recv (fuel : nat) (len : Z) (wt : wait) (w : net) : option (rans * net) :=
  recv_retry fuel len (match wt with WaitAll => true | _ => false end)
    (match wt with DontWait => true | _ => false end) 0 [] w.

(** ** Scattered input *)

(** The loop that skips the [s] bytes a call has transferred. *)
Fixpoint iov_advance (v : list iovec) (s : Z) : list iovec :=
  match v with
  | [] => []
  | i :: v' =>
      if s <? RingBuffer.iov_len i
      then mkIov (RingBuffer.iov_base i + s) (RingBuffer.iov_len i - s) :: v'
      else iov_advance v' (s - RingBuffer.iov_len i)
  end.

Definition sys_recvmsg (mem : bytes) (v : list iovec) (w : net) : option (Z * bytes * option Z * net) :=
  match sys_recv (RingBuffer.iov_total v) w with
  | None => None
  | Some (s, got, e, w) => Some (s, RingBuffer.scatter mem v got, e, w)
  end.

Fixpoint recvmsg_retry (fuel : nat) (len size : Z) (mem : bytes) (v : list iovec) (w : net)
  : option (Z * bytes * net) :=
  match fuel with
  | O => None
  | S fuel =>
      match sys_recvmsg mem v w with
      | None => None
      | Some (s, mem, Some rem, w) =>
          if hev_socks5_task_io_yielder HEV_TASK_WAITIO timeout rem =? 0
          then recvmsg_retry fuel len size mem v w
          else Some (size_or size (-2), mem, w)
      | Some (s, mem, None, w) =>
          if s <=? 0 then Some (size_or size s, mem, w)
          else
            let size := size + s in
            if size <? len then recvmsg_retry fuel len size mem (iov_advance v s) w
            else Some (size, mem, w)
      end
  end.

(** [hev_task_io_socket_recvmsg] with [MSG_WAITALL]. *)
Definition hev_task_io_socket_recvmsg (fuel : nat) (mem : bytes) (v : list iovec) (w : net)
  : option (Z * bytes * net) :=
  recvmsg_retry fuel (RingBuffer.iov_total v) 0 mem v w.

End timeout.

(** ** The sending side *)

Inductive accept :=
| Accept (n : Z)
| SAgain (remaining : Z)
| SErr.

(** An iovec of the sender is the part of its buffer still to be sent. *)
Fixpoint seg_advance (v : list bytes) (s : Z) : list bytes :=
  match v with
  | [] => []
  | b :: v' =>
      if s <? zlen b then drop (Z.to_nat s) b :: v' else seg_advance v' (s - zlen b)
  end.

Section timeout.
Context (timeout : Z).

(** [sent] collects what the kernel took; [len] is the total length. *)
Fixpoint sendmsg_retry (fuel : nat) (len size : Z) (sent : bytes) (v : list bytes) (w : list accept)
  : option (Z * bytes * list accept) :=
  match fuel, w with
  | O, _ => None
  | _, [] => None
  | S fuel, SAgain rem :: w =>
      if hev_socks5_task_io_yielder HEV_TASK_WAITIO timeout rem =? 0
      then sendmsg_retry fuel len size sent v w
      else Some (size_or size (-2), sent, w)
  | S fuel, SErr :: w => Some (size_or size (-1), sent, w)
  | S fuel, Accept n :: w =>
      let took := take (Z.to_nat n) (concat v) in
      let s := zlen took in
      let sent := sent ++ took in
      if s <=? 0 then Some (size_or size s, sent, w)
      else
        let size := size + s in
        if size <? len then sendmsg_retry fuel len size sent (seg_advance v s) w
        else Some (size, sent, w)
  end.

(** [hev_task_io_socket_sendmsg] with [MSG_WAITALL]. *)
Definition hev_task_io_socket_sendmsg (fuel : nat) (v : list bytes) (w : list accept)
  : option (Z * bytes * list accept) :=
  sendmsg_retry fuel (zlen (concat v)) 0 [] v w.

Fixpoint send_retry (fuel : nat) (buf : bytes) (size : Z) (w : list accept)
  : option (Z * bytes * list accept) :=
  match fuel, w with
  | O, _ => None
  | _, [] => None
  | S fuel, SAgain rem :: w =>
      if hev_socks5_task_io_yielder HEV_TASK_WAITIO timeout rem =? 0
      then send_retry fuel buf size w
      else Some (size_or size (-2), take (Z.to_nat size) buf, w)
  | S fuel, SErr :: w => Some (size_or size (-1), take (Z.to_nat size) buf, w)
  | S fuel, Accept n :: w =>
      let s := zlen (take (Z.to_nat n) (drop (Z.to_nat size) buf)) in
      if s <=? 0 then Some (size_or size s, take (Z.to_nat size) buf, w)
      else
        let size := size + s in
        if size <? zlen buf then send_retry fuel buf size w
        else Some (size, take (Z.to_nat size) buf, w)
  end.

(** [hev_task_io_socket_send] with [MSG_WAITALL]. *)
Definition hev_task_io_socket_send (fuel : nat) (buf : bytes) (w : list accept)
  : option (Z * bytes * list accept) :=
  send_retry fuel buf 0 w.

End timeout.
(** ** Reference: what arrives before the stream stops *)

Section reference.
Context (timeout : Z).

(** The yielder gives up. *)
Definition gives_up (rem : Z) : bool :=
  negb (hev_socks5_task_io_yielder HEV_TASK_WAITIO timeout rem =? 0).

(** The result of a call that received nothing because of this arrival. *)
Definition stop_code (a : arrival) : option Z :=
  match a with
  | Arrive _ => None
  | Again rem => if gives_up rem then Some (-2) else None
  | Eof => Some 0
  | Err => Some (-1)
  end.

Definition content (a : arrival) : bytes := match a with Arrive bs => bs | _ => [] end.

(** The bytes that arrive before the first stop, and that stop. *)
Fixpoint avail (w : net) : bytes * option Z :=
  match w with
  | [] => ([], None)
  | a :: w =>
      match stop_code a with
      | Some c => ([], Some c)
      | None => let '(bs, c) := avail w in (content a ++ bs, c)
      end
  end.

Definition net_ok (w : net) : Prop := Forall (fun a => a <> Arrive []) w.

(** The result of a receive that waits for [len] bytes after [acc]. *)
Definition recv_result (len : Z) (acc : bytes) (w : net) : option (Z * bytes) :=
  let '(bs, c) := avail w in
  if len <=? zlen (acc ++ bs) then Some (len, take (Z.to_nat len) (acc ++ bs))
  else match c with
       | Some c => Some (size_or (zlen (acc ++ bs)) c, acc ++ bs)
       | None => None
       end.

Lemma sys_recv_all n bs w : bs <> [] -> zlen bs <= n ->
  sys_recv n (Arrive bs :: w) = Some (zlen bs, bs, None, w).
Proof.
  intros Hne Hn. cbn. unfold zlen in *. rewrite take_ge, drop_ge by lia.
  by rewrite bool_decide_true.
Qed.

Lemma zlen_pos {A} (l : list A) : l <> [] -> 0 < zlen l.
Proof. destruct l; [done|]. rewrite zlen_cons. pose proof (zlen_nonneg l). lia. Qed.

Lemma size_or_zlen {A} (l : list A) c : l = [] \/ size_or (zlen l) c = zlen l.
Proof.
  destruct l as [|x l]; [by left|right]. unfold size_or. rewrite zlen_cons.
  pose proof (zlen_nonneg l). by rewrite (proj2 (Z.eqb_neq _ _)) by lia.
Qed.

(** The loop returns the reference result, and takes exactly the bytes it returns. *)
Lemma recv_retry_ok fuel len acc w :
  net_ok w -> zlen acc < len -> (length w < fuel)%nat ->
  match recv_result len acc w with
  | None => recv_retry timeout fuel len true false (zlen acc) acc w = None
  | Some (r, data) => exists again w', recv_retry timeout fuel len true false (zlen acc) acc w =
      Some (mkR r data again, w') /\ data ++ concat (content <$> w') = acc ++ concat (content <$> w) /\ net_ok w'
  end.
Proof.
  revert fuel acc. induction w as [|a w IH]; intros fuel acc Hw Ha Hf; destruct fuel as [|fuel]; try (cbn in Hf; lia).
  { unfold recv_result. cbn [avail recv_retry sys_recv]. rewrite app_nil_r.
    by rewrite (proj2 (Z.leb_gt _ _)) by lia. }
  apply Forall_cons in Hw as [Hne Hw]. cbn [length] in Hf. unfold recv_result. cbn [avail].
  destruct a as [bs|rem| |]; cbn [stop_code].
  - assert (bs <> []) as Hbs by congruence. pose proof (zlen_pos bs Hbs) as Hpos.
    specialize (IH fuel (acc ++ bs) Hw). unfold recv_result in IH. destruct (avail w) as [bs' c] eqn:Ew.
    rewrite <- app_assoc in IH. destruct (Z.lt_ge_cases (zlen acc + zlen bs) len) as [Hlt|Hge].
    + rewrite <- zlen_app in Hlt. specialize (IH Hlt ltac:(lia)). cbn [recv_retry].
      rewrite sys_recv_all by (done || rewrite zlen_app in Hlt; lia). cbn [negb].
      rewrite (proj2 (Z.leb_gt (zlen bs) 0)) by lia. rewrite <- zlen_app.
      rewrite (proj2 (Z.ltb_lt (zlen (acc ++ bs)) len)) by done. cbn [content fmap list_fmap concat].
      by rewrite (app_assoc acc bs (concat _)).
    + cbn [content]. pose proof (zlen_nonneg bs'). rewrite (proj2 (Z.leb_le _ _)) by (rewrite !zlen_app; lia).
      set (n := Z.to_nat (len - zlen acc)).
      assert (take (Z.to_nat len) (acc ++ bs ++ bs') = acc ++ take n bs) as ->.
      { unfold n, zlen in *. rewrite take_app, take_ge by lia. f_equal. rewrite take_app_le by lia. f_equal. lia. }
      assert (length (take n bs) = n) as Hn by (rewrite length_take; unfold n, zlen in *; lia).
      cbn [recv_retry sys_recv negb]. fold n. unfold zlen at 1 2. rewrite Hn.
      rewrite (proj2 (Z.leb_gt _ _)) by (unfold n; lia).
      rewrite (proj2 (Z.ltb_ge _ _)) by (unfold n, zlen in *; lia).
      eexists _, _. split; [do 3 f_equal; unfold n, zlen in *; lia|].
      cbn [fmap list_fmap content concat]. 
      replace (acc ++ bs ++ concat (content <$> w)) with (acc ++ (take n bs ++ drop n bs) ++ concat (content <$> w))
        by (by rewrite take_drop).
      destruct (bool_decide_reflect (drop n bs = [])) as [->|Hr]; cbn [fmap list_fmap content concat].
      * rewrite app_nil_r, <- app_assoc. done.
      * rewrite <- !app_assoc. split; [done|]. constructor; [congruence|done].
  - unfold gives_up. cbn [recv_retry sys_recv content].
    destruct (hev_socks5_task_io_yielder _ _ _ =? 0); cbn [negb].
    + specialize (IH fuel acc Hw Ha ltac:(lia)). unfold recv_result in IH. by destruct (avail w).
    + rewrite app_nil_r. rewrite (proj2 (Z.leb_gt _ _)) by lia. eexists _, _. done.
  - cbn [recv_retry sys_recv content negb]. rewrite app_nil_r, (proj2 (Z.leb_gt _ _)) by lia.
    cbn. eexists _, _. split; [done|]. split; [done|]. by constructor.
  - cbn [recv_retry sys_recv content negb]. rewrite app_nil_r, (proj2 (Z.leb_gt _ _)) by lia.
    cbn. eexists _, _. done.
Qed.

Lemma avail_code w bs c : avail w = (bs, Some c) -> c <= 0.
Proof.
  revert bs. induction w as [|a w IH]; intros bs; cbn [avail]; [done|].
  destruct a as [b|rem| |]; cbn [stop_code]; try (destruct (gives_up rem)); try (intros [= <- <-]; lia);
    destruct (avail w); intros [= <- ->]; by eapply IH.
Qed.

End reference.

(** [hev_task_io_socket_recv] with [MSG_WAITALL] returns exactly the next [len]
    bytes of the stream as soon as they have arrived, however they were split; fewer
    only when the stream ends, fails or times out first; and it leaves the rest of the
    stream for the next call.  Its result meets the contract that the protocol code
    relies on. *)
Lemma recv_waitall_ok timeout fuel len w :
  0 < len -> net_ok w -> (length w < fuel)%nat -> is_bytes (concat (content <$> w)) ->
  match recv_result timeout len [] w with
  | None => hev_task_io_socket_recv timeout fuel len WaitAll w = None
  | Some (r, data) => exists again w',
      hev_task_io_socket_recv timeout fuel len WaitAll w = Some (mkR r data again, w') /\
      data ++ concat (content <$> w') = concat (content <$> w) /\
      recv_ok len (mkR r data again)
  end.
Proof.
  intros Hl Hw Hf Hb. pose proof (recv_retry_ok timeout fuel len [] w Hw Hl Hf) as H.
  unfold hev_task_io_socket_recv. unfold recv_result in *. cbn [app] in *.
  destruct (avail timeout w) as [bs c] eqn:Ew. pose proof (zlen_nonneg bs) as Hbs.
  destruct (Z.leb_spec len (zlen bs)); [|destruct c as [c|]; [|done]];
    destruct H as (again & w' & H & Hr & _); exists again, w'; (split; [done|]); (split; [done|]);
    rewrite <- Hr in Hb; apply Forall_app in Hb as [Hb _]; unfold recv_ok; cbn [rret rdata].
  - split_and!; [lia| |done]. unfold zlen in *. rewrite length_take. lia.
  - apply avail_code in Ew. destruct (size_or_zlen bs c) as [->|E].
    + change (size_or (zlen []) c) with c. rewrite zlen_nil. split_and!; (done || lia).
    + rewrite E. split_and!; (done || lia).
Qed.
(** ** Scattered input is input, scattered *)

(** The iovecs lie inside a buffer, one behind the other or apart. *)
Definition iov_ok (mem : bytes) (v : list iovec) : Prop :=
  Forall (fun i => 0 <= RingBuffer.iov_base i /\ 0 <= RingBuffer.iov_len i /\
                   RingBuffer.iov_base i + RingBuffer.iov_len i <= zlen mem) v.

Lemma scatter_nil mem v : RingBuffer.scatter mem v [] = mem.
Proof.
  revert mem. induction v as [|i v IH]; intros mem; [done|]. cbn.
  by rewrite take_nil, drop_nil, splice_nil, IH.
Qed.

Lemma splice_splice {A} off (x y l : list A) : (off + length x + length y <= length l)%nat ->
  splice (off + length x) y (splice off x l) = splice off (x ++ y) l.
Proof.
  intros H. unfold splice. rewrite !length_app.
  rewrite (app_assoc (take off l) x), take_app_length' by (rewrite length_app, length_take; lia).
  rewrite drop_app_ge by (rewrite length_app, length_take; lia).
  rewrite drop_drop, !length_app, length_take, <- !app_assoc. do 3 f_equal.
  rewrite Nat.min_l by lia. by replace (off + length x + (off + length x + length y - (off + length x)))%nat
    with (off + (length x + length y))%nat by lia.
Qed.

Lemma length_scatter_le mem v bs : iov_ok mem v -> length (RingBuffer.scatter mem v bs) = length mem.
Proof.
  revert mem bs. induction v as [|i v IH]; intros mem bs Hv; [done|].
  apply Forall_cons in Hv as [Hi Hv]. cbn.
  assert (length (splice (Z.to_nat (RingBuffer.iov_base i)) (take (Z.to_nat (RingBuffer.iov_len i)) bs) mem) = length mem) as E.
  { apply length_splice. rewrite length_take. unfold zlen in *. lia. }
  rewrite IH; [done|]. eapply Forall_impl; [exact Hv|]. intros j Hj. unfold zlen in *. by rewrite E.
Qed.

Lemma iov_total_cons i v : RingBuffer.iov_total (i :: v) = RingBuffer.iov_len i + RingBuffer.iov_total v.
Proof. done. Qed.

(** Continuing a scatter where the first part stopped. *)
Lemma scatter_advance mem v got more :
  iov_ok mem v -> zlen got < RingBuffer.iov_total v ->
  RingBuffer.scatter (RingBuffer.scatter mem v got) (iov_advance v (zlen got)) more =
    RingBuffer.scatter mem v (got ++ more).
Proof.
  revert mem got. induction v as [|i v IH]; intros mem got Hv Hs.
  { change (RingBuffer.iov_total []) with 0 in Hs. pose proof (zlen_nonneg got). lia. }
  apply Forall_cons in Hv as [Hi Hv]. cbn [iov_advance]. rewrite iov_total_cons in Hs.
  set (n := Z.to_nat (RingBuffer.iov_len i)). set (o := Z.to_nat (RingBuffer.iov_base i)).
  destruct (Z.ltb_spec (zlen got) (RingBuffer.iov_len i)) as [Hlt|Hge]; cbn [RingBuffer.scatter]; fold n o.
  - rewrite (take_ge got), (drop_ge got), scatter_nil by (unfold n, zlen in *; lia).
    cbn [RingBuffer.iov_base RingBuffer.iov_len].
    assert (Z.to_nat (RingBuffer.iov_base i + zlen got) = (o + length got)%nat) as -> by (unfold o, zlen in *; lia).
    assert (Z.to_nat (RingBuffer.iov_len i - zlen got) = (n - length got)%nat) as -> by (unfold n, zlen in *; lia).
    rewrite splice_splice by (rewrite length_take; unfold n, o, zlen in *; lia).
    rewrite take_app, drop_app, (take_ge got), (drop_ge got) by (unfold n, zlen in *; lia). done.
  - rewrite (take_app_le got), (drop_app_le got) by (unfold n, zlen in *; lia).
    assert (zlen got - RingBuffer.iov_len i = zlen (drop n got)) as ->
      by (unfold n, zlen in *; rewrite length_drop; lia).
    apply IH; [|unfold n, zlen in *; rewrite length_drop; lia].
    eapply Forall_impl; [exact Hv|]. intros j Hj. unfold zlen in *.
    rewrite length_splice; [done|]. rewrite length_take. unfold n, o. lia.
Qed.

Lemma advance_total v s : Forall (fun i => 0 <= RingBuffer.iov_len i) v -> 0 <= s < RingBuffer.iov_total v ->
  RingBuffer.iov_total (iov_advance v s) = RingBuffer.iov_total v - s.
Proof.
  revert s. induction v as [|i v IH]; intros s Hv Hs; [change (RingBuffer.iov_total []) with 0 in Hs; lia|].
  apply Forall_cons in Hv as [Hi Hv]. rewrite iov_total_cons in *. cbn [iov_advance].
  destruct (Z.ltb_spec s (RingBuffer.iov_len i)); [rewrite iov_total_cons; cbn [RingBuffer.iov_len]; lia|].
  rewrite IH by (done || lia). lia.
Qed.

Lemma advance_ok mem v s : iov_ok mem v -> 0 <= s -> iov_ok mem (iov_advance v s).
Proof.
  revert s. induction v as [|i v IH]; intros s Hv Hs; [done|]. apply Forall_cons in Hv as [Hi Hv].
  cbn [iov_advance]. destruct (Z.ltb_spec s (RingBuffer.iov_len i)); [|apply IH; (done || lia)].
  constructor; [cbn; lia|done].
Qed.

Lemma iov_ok_len mem v : iov_ok mem v -> Forall (fun i => 0 <= RingBuffer.iov_len i) v.
Proof. intros H. eapply Forall_impl; [exact H|]. cbn. lia. Qed.

(** A receive that continues keeps what it already has. *)
Lemma recv_retry_extends timeout fuel len size acc w a w' :
  recv_retry timeout fuel len true false size acc w = Some (a, w') -> exists x, rdata a = acc ++ x.
Proof.
  revert size acc w. induction fuel as [|fuel IH]; intros size acc w; [done|]. cbn [recv_retry].
  destruct (sys_recv _ w) as [[[[s got] [rem|]] w2]|]; [..|done]; cbn [negb].
  - destruct (_ =? 0); [by apply IH|]. intros [= <- _]. exists []. by rewrite app_nil_r.
  - destruct (s <=? 0); [intros [= <- _]; exists []; by rewrite app_nil_r|].
    destruct (_ <? _); [|intros [= <- _]; by exists got].
    intros [x Hx]%IH. exists (got ++ x). by rewrite app_assoc.
Qed.

(** The loop of [recvmsg] runs in step with the one of [recv]. *)
Lemma recvmsg_retry_ok timeout fuel len acc mem v w :
  iov_ok mem v -> RingBuffer.iov_total v = len - zlen acc ->
  recvmsg_retry timeout fuel len (zlen acc) mem v w =
    match recv_retry timeout fuel len true false (zlen acc) acc w with
    | None => None
    | Some (a, w') => Some (rret a, RingBuffer.scatter mem v (drop (length acc) (rdata a)), w')
    end.
Proof.
  revert acc mem v w. induction fuel as [|fuel IH]; intros acc mem v w Hv Ht; [done|].
  cbn [recvmsg_retry recv_retry]. unfold sys_recvmsg. rewrite Ht.
  destruct (sys_recv (len - zlen acc) w) as [[[[s got] [rem|]] w']|] eqn:E; [..|done].
  - assert (got = []) as -> by (destruct w as [|[]]; cbn in E; congruence). rewrite scatter_nil.
    destruct (_ =? 0); [by apply IH|]. cbn [rret rdata]. by rewrite drop_all, scatter_nil.
  - assert (zlen got = Z.max 0 s /\ zlen got <= Z.max 0 (len - zlen acc)) as [Eg Hg].
    { destruct w as [|[bs|rem| |]]; cbn in E; try congruence; injection E as <- <- <-; unfold zlen;
        rewrite ?length_take; cbn; lia. }
    cbn [negb]. destruct (Z.leb_spec s 0).
    + assert (got = []) as -> by (destruct got; [done|rewrite zlen_cons in Eg; pose proof (zlen_nonneg got); lia]).
      cbn [rret rdata]. by rewrite scatter_nil, drop_all, scatter_nil.
    + assert (zlen acc + s = zlen (acc ++ got)) as -> by (rewrite zlen_app; lia).
      destruct (Z.ltb_spec (zlen (acc ++ got)) len).
      * assert (s = zlen got) as -> by lia. rewrite zlen_app in *.
        rewrite <- zlen_app, IH.
        -- destruct (recv_retry _ _ _ _ _ _ _ _) as [[a w2]|] eqn:Er; [|done]. do 3 f_equal.
           destruct (recv_retry_extends _ _ _ _ _ _ _ _ Er) as [x ->]. rewrite drop_app_length, <- app_assoc, drop_app_length.
           apply scatter_advance; [done|]. rewrite Ht. lia.
        -- apply advance_ok; [|lia]. eapply Forall_impl; [exact Hv|]. intros j Hj. unfold zlen in *.
           by rewrite length_scatter_le.
        -- rewrite advance_total by (by eapply iov_ok_len || lia). rewrite zlen_app. lia.
      * cbn [rret rdata]. by rewrite drop_app_length.
Qed.

(** [hev_task_io_socket_recvmsg] with [MSG_WAITALL] is the plain receive of the
    total length followed by one scatter over the iovecs, whatever pieces the stream
    arrives in: the adjustment of the iovecs between two calls loses and moves no
    byte. *)
Lemma recvmsg_is_recv_scattered timeout fuel mem v w :
  iov_ok mem v ->
  hev_task_io_socket_recvmsg timeout fuel mem v w =
    match hev_task_io_socket_recv timeout fuel (RingBuffer.iov_total v) WaitAll w with
    | None => None
    | Some (a, w') => Some (rret a, RingBuffer.scatter mem v (rdata a), w')
    end.
Proof.
  intros Hv. apply (recvmsg_retry_ok timeout fuel (RingBuffer.iov_total v) [] mem v w Hv).
  rewrite zlen_nil. lia.
Qed.

(** C31: [hev_task_io_socket_recv] with [MSG_WAITALL] returns exactly the next [len]
    bytes of the stream as soon as they have arrived, however they were split; fewer
    only when the stream ends, fails or times out first; and it leaves the rest of the
    stream for the next call.  Its result meets the contract that the protocol code
    relies on.  [hev_task_io_socket_recvmsg] over iovecs of that length is the same receive
    followed by one scatter: the adjustment of the iovecs between two calls loses and moves
    no byte. *)
Theorem recv_waitall_correct timeout fuel len w :
  0 < len -> net_ok w -> (length w < fuel)%nat -> is_bytes (concat (content <$> w)) ->
  match recv_result timeout len [] w with
  | None => hev_task_io_socket_recv timeout fuel len WaitAll w = None
  | Some (r, data) => exists again w',
      hev_task_io_socket_recv timeout fuel len WaitAll w = Some (mkR r data again, w') /\
      data ++ concat (content <$> w') = concat (content <$> w) /\
      recv_ok len (mkR r data again)
  end /\
  (forall mem v, iov_ok mem v -> RingBuffer.iov_total v = len ->
    hev_task_io_socket_recvmsg timeout fuel mem v w =
      match hev_task_io_socket_recv timeout fuel len WaitAll w with
      | None => None
      | Some (a, w') => Some (rret a, RingBuffer.scatter mem v (rdata a), w')
      end).
Proof. intros. split; [by apply recv_waitall_ok|]. intros mem v Hv <-. by apply recvmsg_is_recv_scattered. Qed.

(** ** What the kernel takes of a message *)

Section sending.
Context (timeout : Z).

(** The bytes taken before the first stop, and the result of a call stopped there. *)
Fixpoint taken (w : list accept) : Z * option Z :=
  match w with
  | [] => (0, None)
  | SErr :: _ => (0, Some (-1))
  | SAgain rem :: w => if gives_up timeout rem then (0, Some (-2)) else taken w
  | Accept n :: w => if n <=? 0 then (0, Some 0) else let '(m, c) := taken w in (n + m, c)
  end.

Lemma concat_seg_advance v s : 0 <= s -> concat (seg_advance v s) = drop (Z.to_nat s) (concat v).
Proof.
  revert s. induction v as [|b v IH]; intros s Hs; cbn [seg_advance concat]; [by rewrite drop_nil|].
  destruct (Z.ltb_spec s (zlen b)) as [Hlt|Hge]; cbn [concat].
  - unfold zlen in *. by rewrite drop_app_le by lia.
  - unfold zlen in *. rewrite IH, drop_app_ge by lia. f_equal. lia.
Qed.

Lemma taken_nonneg w : 0 <= (taken w).1.
Proof.
  induction w as [|[n|rem|] w IH]; cbn; try lia.
  - destruct (Z.leb_spec n 0); cbn; [lia|]. destruct (taken w). cbn in *. lia.
  - destruct (gives_up _ _); cbn; [lia|done].
Qed.

(** The result of sending [bs] after [size] bytes of [all] have gone. *)
Definition send_result (all : bytes) (size : Z) (w : list accept) : option (Z * bytes) :=
  let '(m, c) := taken w in
  if zlen all <=? size + m then Some (zlen all, all)
  else match c with
       | Some c => Some (size_or (size + m) c, take (Z.to_nat (size + m)) all)
       | None => None
       end.

Lemma sendmsg_retry_ok fuel all size v w :
  concat v = drop (Z.to_nat size) all -> 0 <= size < zlen all -> (length w < fuel)%nat ->
  match send_result all size w with
  | None => sendmsg_retry timeout fuel (zlen all) size (take (Z.to_nat size) all) v w = None
  | Some (r, sent) => exists w',
      sendmsg_retry timeout fuel (zlen all) size (take (Z.to_nat size) all) v w = Some (r, sent, w')
  end.
Proof.
  revert fuel size v. induction w as [|a w IH]; intros fuel size v Hv Hs Hf; destruct fuel as [|fuel]; try (cbn in Hf; lia).
  { unfold send_result. cbn. by rewrite (proj2 (Z.leb_gt _ _)) by lia. }
  cbn [length] in Hf. unfold send_result. cbn [taken sendmsg_retry]. destruct a as [n|rem|].
  - rewrite Hv. destruct (Z.leb_spec n 0) as [Hn|Hn].
    { rewrite (proj2 (Z.leb_gt (zlen all) _)) by lia. replace (Z.to_nat n) with 0%nat by lia.
      rewrite take_0, zlen_nil, app_nil_r, Z.add_0_r. cbn [Z.leb Z.compare]. by eexists. }
    assert (zlen (take (Z.to_nat n) (drop (Z.to_nat size) all)) = Z.min n (zlen all - size)) as Et
      by (unfold zlen in *; rewrite length_take, length_drop; lia).
    rewrite Et, (proj2 (Z.leb_gt (Z.min _ _) 0)) by lia.
    assert (take (Z.to_nat size) all ++ take (Z.to_nat n) (drop (Z.to_nat size) all) =
            take (Z.to_nat (size + Z.min n (zlen all - size))) all) as ->.
    { rewrite take_take_drop. unfold zlen in *. destruct (Z.le_gt_cases n (Z.of_nat (length all) - size)).
      - f_equal. lia.
      - rewrite !take_ge by lia. done. }
    destruct (Z.ltb_spec (size + Z.min n (zlen all - size)) (zlen all)) as [Hlt|Hge].
    + rewrite (Z.min_l n) in * by lia. specialize (IH fuel (size + n) (seg_advance v n)).
      unfold send_result in IH. destruct (taken w) as [m c] eqn:Ew. rewrite <- Z.add_assoc in IH.
      apply IH; [|lia..]. rewrite concat_seg_advance, Hv, drop_drop by lia. f_equal. lia.
    + assert (zlen all - size <= n) by lia. rewrite (Z.min_r n) in * by lia. pose proof (taken_nonneg w). destruct (taken w) as [m c]. cbn [fst] in *.
      rewrite (proj2 (Z.leb_le _ _)) by lia. eexists. rewrite take_ge by (unfold zlen; lia). do 3 f_equal. lia.
  - unfold gives_up. destruct (_ =? 0); cbn [negb].
    + apply (IH fuel size v); (done || lia).
    + rewrite Z.add_0_r, (proj2 (Z.leb_gt _ _)) by lia. by eexists.
  - rewrite Z.add_0_r, (proj2 (Z.leb_gt _ _)) by lia. by eexists.
Qed.

Lemma send_is_sendmsg fuel buf size v w :
  concat v = drop (Z.to_nat size) buf -> 0 <= size ->
  send_retry timeout fuel buf size w = sendmsg_retry timeout fuel (zlen buf) size (take (Z.to_nat size) buf) v w.
Proof.
  revert size v w. induction fuel as [|fuel IH]; intros size v w Hv Hs; [done|].
  destruct w as [|[n|rem|] w]; [done|..]; cbn [send_retry sendmsg_retry].
  - rewrite Hv. set (t := take (Z.to_nat n) (drop (Z.to_nat size) buf)).
    assert (take (Z.to_nat size) buf ++ t = take (Z.to_nat (size + zlen t)) buf) as E.
    { unfold t, zlen. rewrite take_take_drop, length_take, length_drop.
      destruct (Nat.le_gt_cases (Z.to_nat n) (length buf - Z.to_nat size)).
      - f_equal. lia.
      - rewrite !take_ge by lia. done. }
    pose proof (zlen_nonneg t). rewrite E. destruct (Z.leb_spec (zlen t) 0).
    + do 3 f_equal. assert (zlen t = 0) as -> by lia. by rewrite Z.add_0_r.
    + destruct (_ <? _); [|done]. apply IH; [|lia].
      rewrite concat_seg_advance, Hv, drop_drop by lia. f_equal. lia.
  - destruct (_ =? 0); [|done]. by apply IH.
  - done.
Qed.

End sending.

(** [hev_task_io_socket_sendmsg] and [hev_task_io_socket_send] with
    [MSG_WAITALL] hand the kernel exactly the bytes of the message in order, across any
    partial writes; they return the full length once all were taken, and otherwise
    the number of bytes that went out before the failure or time-out. *)
Theorem sendmsg_waitall_correct timeout fuel v w :
  0 < zlen (concat v) -> (length w < fuel)%nat ->
  hev_task_io_socket_send timeout fuel (concat v) w = hev_task_io_socket_sendmsg timeout fuel v w /\
  match send_result timeout (concat v) 0 w with
  | None => hev_task_io_socket_sendmsg timeout fuel v w = None
  | Some (r, sent) => exists w', hev_task_io_socket_sendmsg timeout fuel v w = Some (r, sent, w')
  end.
Proof.
  intros Hl Hf. split.
  - apply send_is_sendmsg; [done|lia].
  - apply (sendmsg_retry_ok timeout fuel (concat v) 0 v w); (done || lia).
Qed.

Lemma recv_waitall_correct_witness :
  recv_result 1000 4 [] [Arrive [1; 2]; Again 500; Arrive [3; 4; 5]; Eof] = Some (4, [1; 2; 3; 4]) /\
  exists again w', hev_task_io_socket_recv 1000 9 4 WaitAll [Arrive [1; 2]; Again 500; Arrive [3; 4; 5]; Eof] =
    Some (mkR 4 [1; 2; 3; 4] again, w').
Proof.
  split; [reflexivity|].
  pose proof (recv_waitall_correct 1000 9 4 [Arrive [1; 2]; Again 500; Arrive [3; 4; 5]; Eof] ltac:(lia)
    ltac:(repeat constructor; congruence) ltac:(cbn; lia) ltac:(bytes_concrete)) as [H _].
  change (recv_result 1000 4 [] [Arrive [1; 2]; Again 500; Arrive [3; 4; 5]; Eof]) with (Some (4, [1; 2; 3; 4])) in H.
  destruct H as (again & w' & H & _). exists again, w'. exact H.
Defined.

(** Five bytes of memory, scattered over from the back. *)
Example recvmsg_scatters :
  hev_task_io_socket_recvmsg 1000 9 [0; 0; 0; 0; 0] [mkIov 3 2; mkIov 0 1] [Arrive [1]; Arrive [2; 3]] =
    Some (3, [3; 0; 0; 1; 2], []).
Proof. reflexivity. Qed.

Lemma sendmsg_waitall_correct_witness :
  send_result 1000 [1; 2; 3] 0 [Accept 1; SAgain 7; Accept 5] = Some (3, [1; 2; 3]) /\
  exists w', hev_task_io_socket_sendmsg 1000 9 [[1; 2]; [3]] [Accept 1; SAgain 7; Accept 5] = Some (3, [1; 2; 3], w').
Proof.
  split; [reflexivity|].
  pose proof (sendmsg_waitall_correct 1000 9 [[1; 2]; [3]] [Accept 1; SAgain 7; Accept 5] ltac:(reflexivity) ltac:(cbn; lia)) as [_ H].
  exact H.
Defined.

End TaskIO.
