(* ===== verification/Socks5.v ===== *)
(** * The base object (src/core/src/hev-socks5.c)

    Fields and life cycle that client and server objects share. *)

From Stdlib Require Import ZArith Lia.
From stdpp Require Import base list gmap numbers.
From S2P Require Import Prelude CBytes SocketIO SocksMisc.
Import list_basics.list list_relations.list list_monad.list list_misc.list.
Import SocketIO SocksMisc.

Module Socks5.

Inductive HevSocks5Type :=
| HEV_SOCKS5_TYPE_NONE
| HEV_SOCKS5_TYPE_TCP
| HEV_SOCKS5_TYPE_UDP_IN_TCP
| HEV_SOCKS5_TYPE_UDP_IN_UDP.

#[export] Instance HevSocks5Type_eq_dec : EqDecision HevSocks5Type.
Proof. solve_decision. Defined.

Record HevSocks5 := mkSocks5 {
  fd : Z;
  timeout : Z;
  udp_associated : Z;
  type : HevSocks5Type;
  addr_family : Z;
}.

Definition hev_socks5_set_timeout (s : HevSocks5) (v : Z) : HevSocks5 :=
  mkSocks5 (fd s) v (udp_associated s) (type s) (addr_family s).

Definition hev_socks5_set_addr_family (s : HevSocks5) (v : Z) : HevSocks5 :=
  mkSocks5 (fd s) (timeout s) (udp_associated s) (type s) v.

Definition set_fd (s : HevSocks5) (v : Z) : HevSocks5 :=
  mkSocks5 v (timeout s) (udp_associated s) (type s) (addr_family s).

Definition set_udp_associated (s : HevSocks5) (v : Z) : HevSocks5 :=
  mkSocks5 (fd s) (timeout s) v (type s) (addr_family s).

Definition set_type (s : HevSocks5) (v : HevSocks5Type) : HevSocks5 :=
  mkSocks5 (fd s) (timeout s) (udp_associated s) v (addr_family s).

(** The default [binder] of the class. *)
Definition hev_socks5_bind (sock : Z) (dest : sockaddr_in6) : proc Z := Ret 0.

(** On memory that [hev_malloc0] cleared. *)
Definition hev_socks5_construct (ty : HevSocks5Type) : HevSocks5 :=
  mkSocks5 (-1) (-1) 0 ty AF_UNSPEC.

Definition hev_socks5_destruct (s : HevSocks5) : proc unit :=
  if 0 <=? fd s then
    pdo _ := syscall (CDelFd (fd s)) in
    pdo _ := syscall (CClose (fd s)) in
    Ret tt
  else Ret tt.

End Socks5.
