(* ===== verification/SocksServer.v ===== *)
(** * The SOCKS5 server (src/core/src/hev-socks5-server.c)

    Negotiation, authentication, request and response of one connection, as a
    program over socket calls.  The authenticator it consults is the verified one of
    [Authenticator]; references to it and to the authenticated user are counted. *)

From Stdlib Require Import ZArith Lia.
From stdpp Require Import base list gmap numbers.
From S2P Require Import Prelude CBytes RBTree RBTreeRep RBTreeSearch Authenticator SocketIO SocksMisc Socks5.
Import list_basics.list list_relations.list list_monad.list list_misc.list.
Import SocketIO SocksMisc Socks5.

Module SocksServer.

(** ** State *)

(** The union of [obj], [user] and [auth]. *)
Inductive server_obj :=
| NoObj
| AuthObj
| UserObj (u : Z).

Record HevSocks5Server := mkServer {
  base : HevSocks5;
  fds0 : Z;
  fds1 : Z;
  obj : server_obj;
}.

Definition with_base (s : HevSocks5Server) (b : HevSocks5) : HevSocks5Server :=
  mkServer b (fds0 s) (fds1 s) (obj s).
Definition set_fds0 (s : HevSocks5Server) (v : Z) : HevSocks5Server :=
  mkServer (base s) v (fds1 s) (obj s).
Definition set_fds1 (s : HevSocks5Server) (v : Z) : HevSocks5Server :=
  mkServer (base s) (fds0 s) v (obj s).
Definition set_obj (s : HevSocks5Server) (v : server_obj) : HevSocks5Server :=
  mkServer (base s) (fds0 s) (fds1 s) v.

(** The authenticator object with its reference count. *)
Record auth_store := mkStore {
  auth_refs : Z;
  auth : Authenticator.HevSocks5Authenticator;
}.

(** The last reference destroys the authenticator, which clears it. *)
Definition auth_unref (fuel : nat) (st : auth_store) : outcome auth_store :=
  if auth_refs st >? 1 then Val (mkStore (auth_refs st - 1) (auth st))
  else let! a := Authenticator.hev_socks5_authenticator_clear fuel (auth st) in Val (mkStore 0 a).

Definition auth_ref (st : auth_store) : auth_store := mkStore (auth_refs st + 1) (auth st).

(** ** Life cycle *)

Definition hev_socks5_server_construct (fd : Z) : HevSocks5Server :=
  mkServer (set_fd (hev_socks5_construct HEV_SOCKS5_TYPE_NONE) fd) (-1) (-1) NoObj.

Definition hev_socks5_server_set_auth (fuel : nat) (self : HevSocks5Server) (st : auth_store)
  : outcome (HevSocks5Server * auth_store) :=
  let! st := (match obj self with
              | NoObj => Val st
              | AuthObj => auth_unref fuel st
              | UserObj u => let! a := Authenticator.hev_object_unref (auth st) u in Val (mkStore (auth_refs st) a)
              end) in
  Val (set_obj self AuthObj, auth_ref st).

Definition close_fd (v : Z) : proc unit :=
  if 0 <=? v then
    pdo _ := syscall (CDelFd v) in
    pdo _ := syscall (CClose v) in
    Ret tt
  else Ret tt.

Definition hev_socks5_server_destruct (fuel : nat) (self : HevSocks5Server) (st : auth_store) : proc auth_store :=
  pdo _ := close_fd (fds0 self) in
  pdo _ := close_fd (fds1 self) in
  pdo st := (match obj self with
             | NoObj => Ret st
             | AuthObj => lift (auth_unref fuel st)
             | UserObj u =>
                 pdo a := lift (Authenticator.hev_object_unref (auth st) u) in
                 Ret (mkStore (auth_refs st) a)
             end) in
  pdo _ := hev_socks5_destruct (base self) in
  Ret st.

(** ** Authentication *)

(** [for (i = 0; i < auth.method_len; i++)]. *)
Fixpoint find_method (methods : bytes) (method : Z) : Z :=
  match methods with
  | [] => -1
  | m :: methods => if m =? method then method else find_method methods method
  end.

Definition hev_socks5_server_read_auth_method (self : HevSocks5Server) : proc Z :=
  pdo a := recv (fd (base self)) 2 WaitAll in
  if negb (rret a =? 2) then Ret (-1)
  else
    pdo ver := lift (rd (rdata a) 0) in
    pdo method_len := lift (rd (rdata a) 1) in
    if negb (ver =? HEV_SOCKS5_VERSION_5) then Ret (-1)
    else
      pdo b := recv (fd (base self)) method_len WaitAll in
      if negb (rret b =? method_len) then Ret (-1)
      else
        let method := match obj self with
                      | NoObj => HEV_SOCKS5_AUTH_METHOD_NONE
                      | _ => HEV_SOCKS5_AUTH_METHOD_USER
                      end in
        Ret (find_method (rdata b) method).

Definition hev_socks5_server_write_auth_method (self : HevSocks5Server) (auth_method : Z) : proc Z :=
  pdo (res, _) := send (fd (base self)) [HEV_SOCKS5_VERSION_5; u8 auth_method] in
  if res <=? 0 then Ret (-1) else Ret 0.

Section server.
(** Bound of the searches in the tree of users. *)
Context (fuel : nat).

Definition hev_socks5_server_read_auth_user (self : HevSocks5Server) (st : auth_store)
  : proc (Z * HevSocks5Server * auth_store) :=
  pdo head := recv (fd (base self)) 2 WaitAll in
  if negb (rret head =? 2) then Ret (-1, self, st)
  else
    pdo ver := lift (rd (rdata head) 0) in
    pdo nlen := lift (rd (rdata head) 1) in
    if negb (ver =? 1) then Ret (-1, self, st)
    else if nlen =? 0 then Ret (-1, self, st)
    else
      pdo name := recv (fd (base self)) (nlen + 1) WaitAll in
      if negb (rret name =? nlen + 1) then Ret (-1, self, st)
      else
        pdo plen := lift (rd (rdata name) nlen) in
        if plen =? 0 then Ret (-1, self, st)
        else
          pdo pass := recv (fd (base self)) plen WaitAll in
          if negb (rret pass =? plen) then Ret (-1, self, st)
          else
            match obj self with
            | AuthObj =>
                pdo user := lift (Authenticator.hev_socks5_authenticator_get fuel (auth st)
                                    (take (Z.to_nat nlen) (rdata name))) in
                if user =? Authenticator.NULL then Ret (-1, self, st)
                else
                  pdo u := lift (of_option (Authenticator.users (auth st) !! user)) in
                  let res := Authenticator.hev_socks5_user_checker u (rdata pass) in
                  if res <? 0 then Ret (-1, self, st)
                  else
                    pdo a := lift (Authenticator.hev_object_ref (auth st) user) in
                    pdo st := lift (auth_unref fuel (mkStore (auth_refs st) a)) in
                    Ret (0, set_obj self (UserObj user), st)
            | _ => Crash
            end.

Definition hev_socks5_server_write_auth_user (self : HevSocks5Server) (auth_res : Z) : proc Z :=
  pdo (res, _) := send (fd (base self)) [1; u8 auth_res] in
  if res <=? 0 then Ret (-1) else Ret 0.

Definition hev_socks5_server_auth (self : HevSocks5Server) (st : auth_store)
  : proc (Z * HevSocks5Server * auth_store) :=
  pdo method := hev_socks5_server_read_auth_method self in
  pdo res := hev_socks5_server_write_auth_method self method in
  if res <? 0 then Ret (-1, self, st)
  else if method =? HEV_SOCKS5_AUTH_METHOD_NONE then Ret (0, self, st)
  else if method =? HEV_SOCKS5_AUTH_METHOD_USER then
    pdo (res, self, st) := hev_socks5_server_read_auth_user self st in
    pdo res2 := hev_socks5_server_write_auth_user self res in
    if Z.lor res res2 <? 0 then Ret (-1, self, st) else Ret (0, self, st)
  else Ret (-1, self, st).

(** ** Request and response *)

(** What the stack holds where the source leaves a variable uninitialised: [cmd] and
    [addr] of the handshake and the address buffer of the response. *)
Context (inet_pton : Z -> bytes -> option bytes).
Context (cmd0 : Z) (addr0 : sockaddr_in6) (junk : HevSocks5Addr).
Context (misc : HevSocks5Misc).

(** Result, [*cmd], [*rep], [*addr] and the server. *)
Definition hev_socks5_server_read_request (self : HevSocks5Server)
  : proc (Z * Z * Z * sockaddr_in6 * HevSocks5Server) :=
  let rep := HEV_SOCKS5_RES_REP_SUCC in
  pdo a := recv (fd (base self)) 5 WaitAll in
  if negb (rret a =? 5) then Ret (-1, cmd0, rep, addr0, self)
  else
    pdo ver := lift (rd (rdata a) 0) in
    pdo cmd := lift (rd (rdata a) 1) in
    pdo atype := lift (rd (rdata a) 3) in
    pdo first := lift (rd (rdata a) 4) in
    if negb (ver =? HEV_SOCKS5_VERSION_5) then Ret (0, cmd0, HEV_SOCKS5_RES_REP_FAIL, addr0, self)
    else
      let addrlen :=
        if atype =? HEV_SOCKS5_ADDR_TYPE_IPV4 then 5
        else if atype =? HEV_SOCKS5_ADDR_TYPE_IPV6 then 17
        else if atype =? HEV_SOCKS5_ADDR_TYPE_NAME then 2 + first
        else -1 in
      if addrlen =? -1 then Ret (0, cmd0, HEV_SOCKS5_RES_REP_ADDR, addr0, self)
      else
        pdo b := recv (fd (base self)) addrlen WaitAll in
        if negb (rret b =? addrlen) then Ret (0, cmd0, HEV_SOCKS5_RES_REP_ADDR, addr0, self)
        else
          pdo (res, addr, family) := hev_socks5_addr_into_sockaddr6 inet_pton
            (atype :: first :: rdata b) addr0 (addr_family (base self)) in
          if res <? 0 then Ret (0, cmd0, HEV_SOCKS5_RES_REP_ADDR, addr, self)
          else
            let self := with_base self (hev_socks5_set_addr_family (base self) family) in
            Ret (0, cmd, rep, addr, self).

Definition hev_socks5_server_write_response (self : HevSocks5Server) (rep : Z) (addr : sockaddr_in6) : proc Z :=
  pdo (ret, a) := lift (hev_socks5_addr_from_sockaddr6 junk addr) in
  pdo bs := lift (get_n a 0 ret) in
  pdo (ret, _) := send (fd (base self)) ([HEV_SOCKS5_VERSION_5; u8 rep; 0] ++ bs) in
  if ret <=? 0 then Ret (-1) else Ret 0.

Definition hev_socks5_server_connect (self : HevSocks5Server) (addr : sockaddr_in6)
  : proc (Z * HevSocks5Server) :=
  pdo fd := hev_socks5_socket misc SOCK_STREAM in
  if fd <? 0 then Ret (-1, self)
  else
    pdo res := hev_socks5_bind fd addr in
    if res <? 0 then
      pdo _ := syscall (CDelFd fd) in pdo _ := syscall (CClose fd) in Ret (-1, self)
    else
      let self := with_base self (hev_socks5_set_timeout (base self) (connect_timeout misc)) in
      pdo res := syscall (CConnect fd addr) in
      if res <? 0 then
        pdo _ := syscall (CDelFd fd) in pdo _ := syscall (CClose fd) in Ret (-1, self)
      else
        let self := with_base self (hev_socks5_set_timeout (base self) (tcp_timeout misc)) in
        Ret (0, set_fds0 self fd).

Definition SO_REUSEADDR : Z := 2.

Definition hev_socks5_server_udp_bind (self : HevSocks5Server) (sock : Z) (src : sockaddr_in6)
  : proc (Z * sockaddr_in6) :=
  GetName (fd (base self)) (fun r =>
    match r with
    | None => Ret (-1, src)
    | Some src =>
        let src := mkSA (sin6_family src) 0 (sin6_addr src) in
        pdo res := syscall (CBind sock src) in
        if res <? 0 then Ret (-1, src)
        else GetName sock (fun r =>
          match r with
          | None => Ret (-1, src)
          | Some src => Ret (0, src)
          end)
    end).

Definition hev_socks5_server_bind (self : HevSocks5Server) (addr : option sockaddr_in6)
  : proc (Z * HevSocks5Server * option sockaddr_in6) :=
  pdo fd := hev_socks5_socket misc SOCK_DGRAM in
  if fd <? 0 then Ret (-1, self, addr)
  else
    let self := set_fds0 self fd in
    match addr with
    | None => Ret (0, self, None)
    | Some sa =>
        pdo fd := hev_socks5_socket misc SOCK_DGRAM in
        if fd <? 0 then Ret (-1, self, addr)
        else
          pdo res := syscall (CSetsockopt fd SOL_SOCKET SO_REUSEADDR 1) in
          if res <? 0 then
            pdo _ := syscall (CDelFd fd) in pdo _ := syscall (CClose fd) in Ret (-1, self, addr)
          else
            pdo (res, sa) := hev_socks5_server_udp_bind self fd sa in
            if res <? 0 then
              pdo _ := syscall (CDelFd fd) in pdo _ := syscall (CClose fd) in Ret (-1, self, Some sa)
            else Ret (0, set_fds1 self fd, Some sa)
    end.

(** The [switch] over the command: the reply, the address and the server. *)
Definition server_command (self : HevSocks5Server) (cmd : Z) (addr : sockaddr_in6)
  : proc (Z * sockaddr_in6 * HevSocks5Server) :=
  let rep := HEV_SOCKS5_RES_REP_SUCC in
  if cmd =? HEV_SOCKS5_REQ_CMD_CONNECT then
    pdo (res, self) := hev_socks5_server_connect self addr in
    Ret (if res <? 0 then HEV_SOCKS5_RES_REP_HOST else rep, addr,
         with_base self (set_type (base self) HEV_SOCKS5_TYPE_TCP))
  else if cmd =? HEV_SOCKS5_REQ_CMD_UDP_ASC then
    pdo (res, self, a) := hev_socks5_server_bind self (Some addr) in
    Ret (if res <? 0 then HEV_SOCKS5_RES_REP_FAIL else rep, default addr a,
         with_base self (set_type (base self) HEV_SOCKS5_TYPE_UDP_IN_UDP))
  else if cmd =? HEV_SOCKS5_REQ_CMD_FWD_UDP then
    pdo (res, self, _) := hev_socks5_server_bind self None in
    Ret (if res <? 0 then HEV_SOCKS5_RES_REP_FAIL else rep, addr,
         with_base self (set_type (base self) HEV_SOCKS5_TYPE_UDP_IN_TCP))
  else Ret (HEV_SOCKS5_RES_REP_IMPL, addr, self).

Definition hev_socks5_server_handshake (self : HevSocks5Server) (st : auth_store)
  : proc (Z * HevSocks5Server * auth_store) :=
  let self := with_base self (hev_socks5_set_timeout (base self) (tcp_timeout misc)) in
  pdo (res, self, st) := hev_socks5_server_auth self st in
  if res <? 0 then Ret (-1, self, st)
  else
    pdo (res, cmd, rep, addr, self) := hev_socks5_server_read_request self in
    if res <? 0 then Ret (-1, self, st)
    else
      pdo (rep, addr, self) :=
        (if rep =? HEV_SOCKS5_RES_REP_SUCC then server_command self cmd addr else Ret (rep, addr, self)) in
      pdo res := hev_socks5_server_write_response self rep addr in
      if (res <? 0) || negb (rep =? HEV_SOCKS5_RES_REP_SUCC) then Ret (-1, self, st)
      else Ret (0, self, st).

End server.
(** ** Correctness of the handshake

    [peer] is the socket of the client.  Until the client has proved its identity,
    the server exchanges bytes with it and does nothing else. *)

(** A connection's part of the store: the authenticator is alive and every user
    counts at least the reference of the tree. *)
Record store_ok (fuel : nat) (st : auth_store) (m : gmap bytes Z) : Prop := {
  so_refs : 1 <= auth_refs st;
  so_rep : Authenticator.auth_rep (auth st) m;
  so_size : (size m <= fuel)%nat;
  so_users : forall u x, Authenticator.users (auth st) !! u = Some x -> 1 <= Authenticator.ref_count x;
}.

(** The client presented the password of the user entered under the name. *)
Definition credentials (st : auth_store) (m : gmap bytes Z) (name pass : bytes) : Prop :=
  exists u x, m !! name = Some u /\ Authenticator.users (auth st) !! u = Some x /\ Authenticator.pass x = pass.

(** A greeting that offers a method. *)
Definition greeting (method : Z) (bs : bytes) : Prop :=
  exists methods, bs = [5; zlen methods] ++ methods /\ In method methods.

(** The username/password message of RFC 1929. *)
Definition login (name pass : bytes) : bytes :=
  [1; zlen name] ++ name ++ [zlen pass] ++ pass.

(** What a client must have sent before the server serves it. *)
Definition authorised (st : auth_store) (m : gmap bytes Z) (bs : bytes) : Prop :=
  exists g name pass rest, bs = g ++ login name pass ++ rest /\
    greeting HEV_SOCKS5_AUTH_METHOD_USER g /\ credentials st m name pass.

Definition talk (peer : Z) (e : event) : Prop :=
  match e with
  | EvRecv fd _ _ _ | EvSend fd _ _ => fd = peer
  | _ => False
  end.

Lemma received_recv fd h n w a : received fd (h ++ [EvRecv fd n w a]) = received fd h ++ rdata a.
Proof. rewrite received_app. cbn. by rewrite Z.eqb_refl, app_nil_r. Qed.

Lemma received_send fd h fd' bs r : received fd (h ++ [EvSend fd' bs r]) = received fd h.
Proof. rewrite received_app. cbn. by rewrite app_nil_r. Qed.

(** A read of the expected length. *)
Lemma recv_full n a : recv_ok n a -> rret a = n -> 0 <= n -> zlen (rdata a) = n /\ is_bytes (rdata a).
Proof. intros (_ & H & Hb) <- Hn. split; [lia|done]. Qed.

Lemma two_bytes (bs : bytes) : zlen bs = 2 -> exists x y, bs = [x; y].
Proof. intros H. destruct bs as [|x [|y [|z bs]]]; unfold zlen in H; cbn in H; try lia. by exists x, y. Qed.

Lemma find_method_in methods m : m <> -1 -> find_method methods m = m -> In m methods.
Proof.
  intros Hm. induction methods as [|x l IH]; cbn; [congruence|].
  destruct (Z.eqb_spec x m); [by left|]. intros H. right. auto.
Qed.

Lemma find_method_cases methods m : find_method methods m = -1 \/ find_method methods m = m.
Proof. induction methods as [|x l IH]; cbn; [by left|]. destruct (x =? m); auto. Qed.

Section handshake.
Context (G : history -> event -> Prop).
Context (self : HevSocks5Server) (peer : Z) (peer_fd : fd (base self) = peer).
Context (G_talk : forall h e, talk peer e -> G h e).

Definition auth_method : Z :=
  match obj self with NoObj => HEV_SOCKS5_AUTH_METHOD_NONE | _ => HEV_SOCKS5_AUTH_METHOD_USER end.

(** Run a receive on the client's socket. *)
Ltac wp_recv a Ok :=
  cbn [recv bind wp]; intros a Ok; split; [by apply G_talk|]; rewrite ?peer_fd in *.

Lemma wp_read_auth_method h0 :
  wp G (hev_socks5_server_read_auth_method self)
    (fun r h => r = -1 \/ r = auth_method /\ exists g, received peer h = received peer h0 ++ g /\ greeting auth_method g) h0.
Proof.
  unfold hev_socks5_server_read_auth_method. wp_recv a Ha.
  destruct (Z.eqb_spec (rret a) 2) as [E|E]; cbn [negb]; [|by left].
  destruct (recv_full _ _ Ha E ltac:(lia)) as [La Ba]. destruct (two_bytes _ La) as (ver & len & Ea). rewrite Ea in *.
  change (rd [ver; len] 0) with (Val ver). change (rd [ver; len] 1) with (Val len). cbn [lift bind].
  destruct (Z.eqb_spec ver HEV_SOCKS5_VERSION_5) as [->|]; cbn [negb]; [|by left].
  wp_recv b Hb. destruct (Z.eqb_spec (rret b) len) as [E2|]; cbn [negb]; [|by left].
  apply Forall_cons in Ba as [_ [Hlen _]%Forall_cons].
  destruct (recv_full _ _ Hb E2 ltac:(unfold is_u8 in Hlen; lia)) as [Lb Bb].
  fold auth_method. destruct (find_method_cases (rdata b) auth_method) as [->|Hf]; [by left|].
  right. split; [done|]. exists ([5; len] ++ rdata b). split.
  - rewrite !received_recv, Ea, <- app_assoc. done.
  - exists (rdata b). rewrite Lb. split; [done|]. apply find_method_in; [|done].
    unfold auth_method. by destruct (obj self).
Qed.

(** Dropping a reference of the authenticator keeps a user that has another one. *)
Lemma auth_unref_ok fuel st m u x :
  store_ok fuel st m -> m !! Authenticator.name x = Some u ->
  Authenticator.users (auth st) !! u = Some x -> 2 <= Authenticator.ref_count x ->
  exists st' x', auth_unref fuel st = Val st' /\ Authenticator.users (auth st') !! u = Some x' /\
    Authenticator.name x' = Authenticator.name x /\ Authenticator.pass x' = Authenticator.pass x /\
    1 <= Authenticator.ref_count x'.
Proof.
  intros [Hr Hrep Hs Hu] Hm Hx H2. unfold auth_unref. rewrite Z.gtb_ltb.
  destruct (Z.ltb_spec 1 (auth_refs st)); [exists (mkStore (auth_refs st - 1) (auth st)), x; split_and!; (done || lia)|].
  destruct (Authenticator.auth_clear_ok fuel (auth st) m Hrep Hs) as (a & -> & _ & Hd & _). cbn [obind].
  specialize (Hd _ u x Hm Hx). unfold Authenticator.drop_ref in Hd.
  rewrite Z.gtb_ltb, (proj2 (Z.ltb_lt _ _)) in Hd by lia.
  eexists (mkStore 0 a), _. split; [done|]. split; [exact Hd|]. cbn. split_and!; (done || lia).
Qed.

(** The user becomes the server's object and stays alive. *)
Lemma take_user_ok fuel st m u x :
  store_ok fuel st m -> m !! Authenticator.name x = Some u -> Authenticator.users (auth st) !! u = Some x ->
  exists a st' x', Authenticator.hev_object_ref (auth st) u = Val a /\
    auth_unref fuel (mkStore (auth_refs st) a) = Val st' /\
    Authenticator.users (auth st') !! u = Some x' /\
    Authenticator.name x' = Authenticator.name x /\ Authenticator.pass x' = Authenticator.pass x /\
    1 <= Authenticator.ref_count x'.
Proof.
  intros Hst Hm Hx. destruct Hst as [Hr Hrep Hs Hu].
  destruct (Authenticator.object_ref_ok (auth st) m u x Hrep Hx) as (a & Ea & Ra & Ua).
  pose proof (Hu _ _ Hx) as H1.
  destruct (auth_unref_ok fuel (mkStore (auth_refs st) a) m u
    (Authenticator.mkUser (Authenticator.ref_count x + 1) (Authenticator.name x) (Authenticator.pass x)))
    as (st' & x' & E & Hx' & Hn & Hp & Hc).
  - split; cbn; [done|done|done|]. intros v y. rewrite Ua. destruct (decide (v = u)) as [->|Hne].
    + rewrite lookup_insert_eq. intros [= <-]. cbn. lia.
    + rewrite lookup_insert_ne by done. apply Hu.
  - done.
  - cbn. rewrite Ua. apply lookup_insert_eq.
  - cbn. lia.
  - exists a, st', x'. done.
Qed.

(** After authentication: the server holds a live user whose credentials were sent. *)
Definition logged_in (st : auth_store) (m : gmap bytes Z) (name pass : bytes) (self' : HevSocks5Server)
    (st' : auth_store) : Prop :=
  exists u x x', m !! name = Some u /\ Authenticator.users (auth st) !! u = Some x /\
    Authenticator.pass x = pass /\ self' = set_obj self (UserObj u) /\
    Authenticator.users (auth st') !! u = Some x' /\ Authenticator.name x' = name /\
    Authenticator.pass x' = pass /\ 1 <= Authenticator.ref_count x'.

Lemma wp_read_auth_user fuel st m h0 :
  store_ok fuel st m -> obj self = AuthObj ->
  wp G (hev_socks5_server_read_auth_user fuel self st)
    (fun '(r, self', st') h =>
       r = -1 /\ self' = self /\ st' = st \/
       r = 0 /\ exists name pass, received peer h = received peer h0 ++ login name pass /\
         logged_in st m name pass self' st') h0.
Proof.
  intros Hst Hobj. unfold hev_socks5_server_read_auth_user. wp_recv a Ha.
  destruct (Z.eqb_spec (rret a) 2) as [E|E]; cbn [negb]; [|by left].
  destruct (recv_full _ _ Ha E ltac:(lia)) as [La Ba]. destruct (two_bytes _ La) as (ver & nlen & Ea). rewrite Ea in *.
  change (rd [ver; nlen] 0) with (Val ver). change (rd [ver; nlen] 1) with (Val nlen). cbn [lift bind].
  destruct (Z.eqb_spec ver 1) as [->|]; cbn [negb]; [|by left].
  destruct (Z.eqb_spec nlen 0) as [|Hn0]; [by left|].
  apply Forall_cons in Ba as [_ [Hlen _]%Forall_cons]. unfold is_u8 in Hlen.
  wp_recv b Hb. destruct (Z.eqb_spec (rret b) (nlen + 1)) as [E2|]; cbn [negb]; [|by left].
  destruct (recv_full _ _ Hb E2 ltac:(lia)) as [Lb Bb].
  destruct (split_at (rdata b) nlen 1) as (name & pl & rest & Eb & Ln & Lp); [lia..|].
  assert (rest = []) as ->. { destruct rest as [|? rest]; [done|]. pose proof (zlen_nonneg rest). rewrite Eb in Lb. rewrite !zlen_app, zlen_cons in Lb. lia. }
  destruct pl as [|plen [|? ?]]; [unfold zlen in Lp; cbn in Lp; lia| |unfold zlen in Lp; cbn in Lp; lia].
  cbn [app] in Eb. rewrite Eb in *. rewrite (rd_app_r _ _ _ 0), rd_head by lia. cbn [lift bind].
  apply Forall_app in Bb as [_ [Hpl _]%Forall_cons]. unfold is_u8 in Hpl.
  destruct (Z.eqb_spec plen 0) as [|Hp0]; [by left|].
  wp_recv c Hc. destruct (Z.eqb_spec (rret c) plen) as [E3|]; cbn [negb]; [|by left].
  destruct (recv_full _ _ Hc E3 ltac:(lia)) as [Lc Bc]. rewrite Hobj.
  assert (take (Z.to_nat nlen) (name ++ [plen]) = name) as ->.
  { rewrite <- Ln. unfold zlen. rewrite Nat2Z.id. apply take_app_length. }
  destruct (Authenticator.auth_get_ok fuel (auth st) m name (so_rep _ _ _ Hst) (so_size _ _ _ Hst)) as [-> Hg].
  cbn [lift bind]. destruct (m !! name) as [u|] eqn:Em; [change (default Authenticator.NULL (Some u)) with u|by left].
  destruct Hg as (Hu & x & Hx & <-). rewrite (proj2 (Z.eqb_neq _ _) Hu), Hx. cbn [of_option lift bind].
  destruct (Z.ltb_spec (Authenticator.hev_socks5_user_checker x (rdata c)) 0) as [|Hck]; [by left|].
  assert (rdata c = Authenticator.pass x) as Ec.
  { apply Authenticator.user_checker_spec. unfold Authenticator.hev_socks5_user_checker in *.
    destruct (negb _); [lia|]. destruct (negb _); [lia|done]. }
  destruct (take_user_ok fuel st m u x Hst Em Hx) as (a2 & st' & x' & -> & E5 & Hx' & En & Ep & Hr).
  cbn [lift bind]. rewrite E5. cbn [lift bind wp]. right. split; [done|].
  exists (Authenticator.name x), (Authenticator.pass x). split.
  - rewrite !received_recv, Ea, Eb, Ec, <- !app_assoc. unfold login. rewrite <- Ec, Lc, Ln. cbn [app]. by list_norm.
  - exists u, x, x'. done.
Qed.

Lemma wp_auth fuel st m h0 :
  store_ok fuel st m -> obj self = AuthObj ->
  wp G (hev_socks5_server_auth fuel self st)
    (fun '(r, self', st') h =>
       r = -1 \/
       r = 0 /\ exists g name pass, received peer h = received peer h0 ++ g ++ login name pass /\
         greeting HEV_SOCKS5_AUTH_METHOD_USER g /\ logged_in st m name pass self' st') h0.
Proof.
  intros Hst Hobj. unfold hev_socks5_server_auth. apply wp_bind.
  eapply wp_mono; [apply wp_read_auth_method|]. intros r h1 H1. cbn beta in H1.
  unfold hev_socks5_server_write_auth_method. cbn [send bind wp]. intros [res ag] _.
  split; [by apply G_talk|]. destruct (res <=? 0); cbn [bind]; [by left|].
  change (0 <? 0) with false. cbn match.
  assert (auth_method = HEV_SOCKS5_AUTH_METHOD_USER) as Em by (unfold auth_method; by rewrite Hobj).
  rewrite Em in H1. destruct H1 as [->|(-> & g & Hg & Gg)]; [by left|].
  change (HEV_SOCKS5_AUTH_METHOD_USER =? HEV_SOCKS5_AUTH_METHOD_NONE) with false.
  change (HEV_SOCKS5_AUTH_METHOD_USER =? HEV_SOCKS5_AUTH_METHOD_USER) with true. cbn match.
  apply wp_bind. eapply wp_mono; [by apply wp_read_auth_user|].
  intros [[r self'] st'] h2 H2. cbn beta iota in H2.
  unfold hev_socks5_server_write_auth_user. cbn [send bind wp]. intros [res2 ag2] _.
  assert (fd (base self') = peer) as Hp.
  { destruct H2 as [(_ & -> & _)|(_ & name & pass & _ & u & x & x' & _ & _ & _ & -> & _)]; done. }
  split; [by apply G_talk|].
  destruct (res2 <=? 0); cbn [bind].
  { rewrite (proj2 (Z.ltb_lt _ _)); [by left|]. rewrite Z.lor_neg. by right. }
  rewrite Z.lor_0_r. destruct H2 as [(-> & _)|(-> & name & pass & Hr & Hl)]; [by left|].
  right. split; [done|]. exists g, name, pass. rewrite received_send, Hr, received_send, Hg, <- app_assoc. done.
Qed.

End handshake.

(** ** Requests

    Nothing below reads from the client but [read_request]. *)

Definition quiet (h0 h : history) : Prop := forall p, received p h = received p h0.

Lemma quiet_refl h : quiet h h.
Proof. done. Qed.

Lemma quiet_call h0 h c r : quiet h0 h -> quiet h0 (h ++ [EvCall c r]).
Proof. intros H p. rewrite received_app. cbn. by rewrite app_nil_r. Qed.

Lemma quiet_name h0 h fd r : quiet h0 h -> quiet h0 (h ++ [EvName fd r]).
Proof. intros H p. rewrite received_app. cbn. by rewrite app_nil_r. Qed.

Lemma quiet_resolve h0 h n f r : quiet h0 h -> quiet h0 (h ++ [EvResolve n f r]).
Proof. intros H p. rewrite received_app. cbn. by rewrite app_nil_r. Qed.

Create HintDb quiet.
#[local] Hint Resolve quiet_refl quiet_call quiet_name quiet_resolve : quiet.

Definition any : history -> event -> Prop := fun _ _ => True.

(** Every path of a program that only makes calls. *)
Ltac wp_calls :=
  repeat first
    [ progress cbn [bind syscall wp]
    | match goal with |- forall _, _ => intros ? end
    | match goal with |- any _ _ /\ _ => split; [exact I|] end
    | match goal with |- context [if ?b then _ else _] => destruct b end ].

Section request.
Context (inet_pton : Z -> bytes -> option bytes) (pton : pton_ok inet_pton).
Context (cmd0 : Z) (addr0 : sockaddr_in6) (addr0_ok : sockaddr_ok addr0).
Context (junk : HevSocks5Addr) (junk_len : zlen junk = sizeof_addr).
Context (misc : HevSocks5Misc).

Lemma wp_socket ty h0 : wp any (hev_socks5_socket misc ty) (fun _ h => quiet h0 h) h0.
Proof. unfold hev_socks5_socket. wp_calls; auto 10 with quiet. Qed.

(** The part of a server that requests leave alone. *)
Definition same_peer (s s' : HevSocks5Server) : Prop := fd (base s') = fd (base s) /\ obj s' = obj s.

Lemma wp_connect self addr h0 :
  wp any (hev_socks5_server_connect misc self addr)
    (fun '(r, self') h => quiet h0 h /\ same_peer self self') h0.
Proof.
  unfold hev_socks5_server_connect, hev_socks5_bind. apply wp_bind.
  eapply wp_mono; [apply wp_socket|]. intros fd h Hq. cbn beta in Hq.
  destruct (fd <? 0); [done|]. cbn [bind]. change (0 <? 0) with false. cbn match.
  wp_calls; split; auto 10 with quiet; done.
Qed.

Lemma wp_udp_bind self sock src h0 :
  sockaddr_ok src ->
  wp any (hev_socks5_server_udp_bind self sock src) (fun '(r, src') h => quiet h0 h /\ sockaddr_ok src') h0.
Proof.
  intros Hs. unfold hev_socks5_server_udp_bind. cbn [wp]. intros r Hr. split; [exact I|].
  destruct r as [sa|]; [|split; auto with quiet]. cbn [bind syscall wp]. intros res. split; [exact I|].
  assert (sockaddr_ok (mkSA (sin6_family sa) 0 (sin6_addr sa))) as H0.
  { destruct Hr as (L & B & _). split_and!; [done|done|]. unfold is_u16. cbn. lia. }
  destruct (res <? 0); [split; auto 10 with quiet|]. cbn [wp]. intros r2 Hr2. split; [exact I|].
  destruct r2 as [sa2|]; (split; [auto 10 with quiet|done]).
Qed.

Lemma wp_server_bind self addr h0 :
  match addr with Some sa => sockaddr_ok sa | None => True end ->
  wp any (hev_socks5_server_bind misc self addr)
    (fun '(r, self', addr') h => quiet h0 h /\ same_peer self self' /\
       match addr' with Some sa => sockaddr_ok sa | None => True end) h0.
Proof.
  intros Ha. unfold hev_socks5_server_bind. apply wp_bind. eapply wp_mono; [apply wp_socket|].
  intros fd h Hq. cbn beta in Hq. destruct (fd <? 0); [done|]. destruct addr as [sa|]; [|done].
  apply wp_bind. eapply wp_mono; [apply wp_socket|]. intros fd1 h1 Hq1. cbn beta in Hq1.
  assert (quiet h0 h1) as Hq2 by (intros p; by rewrite Hq1). clear Hq Hq1.
  destruct (fd1 <? 0); [done|]. cbn [bind syscall wp]. intros res. split; [exact I|].
  destruct (res <? 0); [wp_calls; split; auto 10 with quiet; done|].
  apply wp_bind. eapply wp_mono; [by apply wp_udp_bind|]. intros [r sa'] h2 [Hq3 Hs]. 
  assert (quiet h0 h2) as Hq4. { intros p. rewrite Hq3, received_app. cbn. by rewrite app_nil_r. }
  destruct (r <? 0); [wp_calls; split; auto 10 with quiet; done|done].
Qed.

(** The kind of session a command opens. *)
Definition command_type (cmd : Z) : option HevSocks5Type :=
  if cmd =? HEV_SOCKS5_REQ_CMD_CONNECT then Some HEV_SOCKS5_TYPE_TCP
  else if cmd =? HEV_SOCKS5_REQ_CMD_UDP_ASC then Some HEV_SOCKS5_TYPE_UDP_IN_UDP
  else if cmd =? HEV_SOCKS5_REQ_CMD_FWD_UDP then Some HEV_SOCKS5_TYPE_UDP_IN_TCP
  else None.

Lemma wp_server_command self cmd addr h0 :
  sockaddr_ok addr ->
  wp any (server_command misc self cmd addr)
    (fun '(rep, addr', self') h => quiet h0 h /\ same_peer self self' /\ sockaddr_ok addr' /\
       (rep = 0 -> Some (type (base self')) = command_type cmd)) h0.
Proof.
  intros Ha. unfold server_command, command_type.
  destruct (cmd =? HEV_SOCKS5_REQ_CMD_CONNECT); [|destruct (cmd =? HEV_SOCKS5_REQ_CMD_UDP_ASC);
    [|destruct (cmd =? HEV_SOCKS5_REQ_CMD_FWD_UDP); [|done]]]; apply wp_bind.
  - eapply wp_mono; [apply wp_connect|]. intros [r self'] h [Hq Hs]. done.
  - eapply wp_mono; [by apply (wp_server_bind self (Some addr))|].
    intros [[r self'] a] h (Hq & Hs & Hok). cbn. split_and!; try done. by destruct a.
  - eapply wp_mono; [by apply (wp_server_bind self None)|]. intros [[r self'] a] h (Hq & Hs & Hok). done.
Qed.

(** A path that gives up: nothing to show but that the client stays the same. *)
Ltac fail_path :=
  cbn; split; [done|]; split; [done|]; first [by left | right; split; [done|by left]].

Lemma five_bytes (bs : bytes) : zlen bs = 5 -> exists v w x y z, bs = [v; w; x; y; z].
Proof.
  intros H. do 6 (destruct bs as [|? bs]; [unfold zlen in H; cbn in H; try lia; by repeat eexists|]).
  unfold zlen in H; cbn in H; lia.
Qed.

Lemma wp_read_request self h0 :
  wp any (hev_socks5_server_read_request inet_pton cmd0 addr0 self)
    (fun '(r, cmd, rep, addr, self') h => sockaddr_ok addr /\ same_peer self self' /\
       (r = -1 \/ r = 0 /\ (rep <> 0 \/ rep = 0 /\ exists rsv e, endpoint_ok e /\
          received (fd (base self)) h = received (fd (base self)) h0 ++ [5; cmd; rsv] ++ encode e))) h0.
Proof.
  unfold hev_socks5_server_read_request. cbn [recv bind wp]. intros a Ha. split; [exact I|].
  destruct (Z.eqb_spec (rret a) 5) as [E|]; cbn [negb]; [|fail_path].
  destruct (recv_full _ _ Ha E ltac:(lia)) as [La Ba].
  destruct (five_bytes _ La) as (ver & cmd & rsv & atype & first & Ea). rewrite Ea in *.
  change (rd [ver; cmd; rsv; atype; first] 0) with (Val ver). change (rd [ver; cmd; rsv; atype; first] 1) with (Val cmd).
  change (rd [ver; cmd; rsv; atype; first] 3) with (Val atype). change (rd [ver; cmd; rsv; atype; first] 4) with (Val first).
  cbn [lift bind]. destruct (Z.eqb_spec ver HEV_SOCKS5_VERSION_5) as [->|]; cbn [negb];
    [|fail_path].
  fold (rest_len atype first). destruct (Z.eqb_spec (rest_len atype first) (-1)) as [|Hr];
    [fail_path|].
  cbn [recv bind wp]. intros b Hb. split; [exact I|].
  destruct (Z.eqb_spec (rret b) (rest_len atype first)) as [E2|]; cbn [negb];
    [|fail_path].
  assert (is_u8 first) as Hf by (repeat (apply Forall_cons in Ba as [? Ba]); done).
  assert (0 <= rest_len atype first) as Hpos.
  { unfold rest_len, is_u8 in *. repeat case_match; lia. }
  destruct (recv_full _ _ Hb E2 Hpos) as [Lb Bb].
  destruct (decode_ok atype first (rdata b)) as (e & He & Ee); [by constructor|done|done|]. rewrite Ee.
  apply wp_bind. eapply wp_mono; [by apply into_sockaddr6_wp|].
  intros [[res sa] fam] h (Hsa & Hres & Hh). cbn [fst snd] in *.
  destruct Hres as [-> | ->]; cbn; [|fail_path].
  split; [done|]. split; [done|]. right. split; [done|]. right. split; [done|]. exists rsv, e. split; [done|].
  assert (received (fd (base self)) h = received (fd (base self))
    ((h0 ++ [EvRecv (fd (base self)) 5 WaitAll a]) ++ [EvRecv (fd (base self)) (rest_len atype first) WaitAll b])) as ->.
  { destruct Hh as [->|(n & q & ->)]; [done|]. rewrite (received_app _ _ [EvResolve _ _ _]). cbn. by rewrite app_nil_r. }
  rewrite !received_recv, Ea, <- Ee, <- app_assoc. done.
Qed.

Lemma wp_write_response self rep addr h0 :
  sockaddr_ok addr ->
  wp any (hev_socks5_server_write_response junk self rep addr)
    (fun r h => (r = 0 \/ r = -1) /\ received (fd (base self)) h = received (fd (base self)) h0) h0.
Proof.
  intros Ha. unfold hev_socks5_server_write_response.
  destruct (from_sockaddr6_ok junk addr) as (tl & -> & _); [rewrite junk_len; unfold sizeof_addr; lia|done|].
  cbn [lift bind]. pose proof (get_n_app [] (encode (endpoint_of addr)) tl 0 _ eq_refl eq_refl) as Eg.
  cbn [app] in Eg. rewrite Eg. cbn [lift bind send wp]. intros [r ag] _. split; [exact I|].
  destruct (r <=? 0); (split; [by auto|apply received_send]).
Qed.

(** The part of the handshake after authentication. *)
Definition serve (self : HevSocks5Server) (st : auth_store) : proc (Z * HevSocks5Server * auth_store) :=
  pdo (res, cmd, rep, addr, self) := hev_socks5_server_read_request inet_pton cmd0 addr0 self in
  if res <? 0 then Ret (-1, self, st)
  else
    pdo (rep, addr, self) :=
      (if rep =? HEV_SOCKS5_RES_REP_SUCC then server_command misc self cmd addr else Ret (rep, addr, self)) in
    pdo res := hev_socks5_server_write_response junk self rep addr in
    if (res <? 0) || negb (rep =? HEV_SOCKS5_RES_REP_SUCC) then Ret (-1, self, st)
    else Ret (0, self, st).

Lemma wp_serve self st h0 :
  wp any (serve self st)
    (fun '(r, self', st') h => st' = st /\ same_peer self self' /\
       (r = -1 \/ r = 0 /\ exists cmd rsv e, endpoint_ok e /\ Some (type (base self')) = command_type cmd /\
          received (fd (base self)) h = received (fd (base self)) h0 ++ [5; cmd; rsv] ++ encode e)) h0.
Proof.
  unfold serve. apply wp_bind. eapply wp_mono; [apply wp_read_request|].
  intros [[[[res cmd] rep] addr] self1] h1 (Ha & Hp1 & Hr). destruct Hr as [->|[-> Hr]]; [fail_path|].
  change (0 <? 0) with false. cbn match. destruct (Z.eqb_spec rep HEV_SOCKS5_RES_REP_SUCC) as [Hrep|Hrep].
  - destruct Hr as [Hn|(_ & rsv & e & He & Hrec)]; [done|]. apply wp_bind.
    eapply wp_mono; [by apply wp_server_command|]. intros [[rep2 addr2] self2] h2 (Hq & Hp2 & Ha2 & Ht).
    apply wp_bind. eapply wp_mono; [by apply wp_write_response|]. intros r h3 [Hr3 Hrec3].
    assert (same_peer self self2) as Hp by (destruct Hp1, Hp2; split; congruence).
    assert (fd (base self2) = fd (base self)) as Hfd by apply Hp. rewrite Hfd in Hrec3.
    destruct Hr3 as [-> | ->]; cbn [Z.ltb Z.compare orb]; [|fail_path].
    destruct (Z.eqb_spec rep2 HEV_SOCKS5_RES_REP_SUCC) as [Hr2|]; cbn [negb]; [|fail_path].
    split; [done|]. split; [done|]. right. split; [done|]. exists cmd, rsv, e.
    split_and!; [done|by apply Ht|]. rewrite Hrec3, Hq. done.
  - cbn [bind]. apply wp_bind. eapply wp_mono; [by apply wp_write_response|]. intros r h3 [Hr3 _].
    rewrite (proj2 (Z.eqb_neq _ _) Hrep), orb_true_r. fail_path.
Qed.

End request.

Lemma handshake_split fuel inet_pton cmd0 addr0 junk misc self st :
  hev_socks5_server_handshake fuel inet_pton cmd0 addr0 junk misc self st =
    pdo (res, self, st) := hev_socks5_server_auth fuel
      (with_base self (hev_socks5_set_timeout (base self) (tcp_timeout misc))) st in
    if res <? 0 then Ret (-1, self, st) else serve inet_pton cmd0 addr0 junk misc self st.
Proof. done. Qed.

Lemma authorised_app st m bs bs' : authorised st m bs -> authorised st m (bs ++ bs').
Proof.
  intros (g & name & pass & rest & -> & Hg & Hc). exists g, name, pass, (rest ++ bs').
  rewrite <- !app_assoc. done.
Qed.

(** What the handshake does before and after the login. *)
Lemma handshake_sound fuel inet_pton cmd0 addr0 junk misc self st m tr p' :
  store_ok fuel st m -> obj self = AuthObj ->
  pton_ok inet_pton -> sockaddr_ok addr0 -> zlen junk = sizeof_addr ->
  psteps (hev_socks5_server_handshake fuel inet_pton cmd0 addr0 junk misc self st) tr p' ->
  let peer := fd (base self) in
  (forall t1 e t2, tr = t1 ++ e :: t2 -> talk peer e \/ authorised st m (received peer t1)) /\
  match p' with
  | Ret (r, self', st') =>
      r = -1 \/
      r = 0 /\ exists g name pass cmd rsv e u x,
        received peer tr = g ++ login name pass ++ [5; cmd; rsv] ++ encode e /\
        greeting HEV_SOCKS5_AUTH_METHOD_USER g /\ credentials st m name pass /\
        Some (type (base self')) = command_type cmd /\
        obj self' = UserObj u /\ Authenticator.users (auth st') !! u = Some x /\
        Authenticator.name x = name /\ 1 <= Authenticator.ref_count x
  | Crash => False
  | _ => True
  end.
Proof.
  intros Hst Hobj Hpt Ha Hj Hrun peer.
  eapply (adequacy (fun h e => talk peer e \/ authorised st m (received peer h)) _ _ _
    (fun '(r, self', st') h => r = -1 \/ r = 0 /\ exists g name pass cmd rsv e u x,
        received peer h = g ++ login name pass ++ [5; cmd; rsv] ++ encode e /\
        greeting HEV_SOCKS5_AUTH_METHOD_USER g /\ credentials st m name pass /\
        Some (type (base self')) = command_type cmd /\
        obj self' = UserObj u /\ Authenticator.users (auth st') !! u = Some x /\
        Authenticator.name x = name /\ 1 <= Authenticator.ref_count x) []) in Hrun.
  { destruct Hrun as [H1 H2]. split; [exact H1|]. by destruct p' as [[[r self'] st']| | | | | | | |]. }
  rewrite handshake_split. apply wp_bind.
  set (self0 := with_base self (hev_socks5_set_timeout (base self) (tcp_timeout misc))).
  refine (wp_mono _ _ _ _ _ (wp_auth _ self0 peer eq_refl _ fuel st m [] Hst Hobj) _); [by left|].
  intros [[r self1] st1] h1 [->|(-> & g & name & pass & Hr & Hg & u & x & x' & Hm & Hx & <- & -> & Hx' & Hn & Hp & Hc)];
    [by left|].
  change (0 <? 0) with false. cbn match. cbn [received app] in Hr.
  assert (credentials st m name (Authenticator.pass x)) as Hcr by (by exists u, x).
  apply wp_open.
  { intros h' e. right. rewrite received_app, Hr. apply authorised_app.
    exists g, name, (Authenticator.pass x), []. by rewrite app_nil_r. }
  eapply wp_mono; [by apply wp_serve|].
  intros [[r self2] st2] h2 (-> & [Hfd Hob] & [->|(-> & cmd & rsv & e & He & Ht & Hrec)]); [by left|right].
  split; [done|]. exists g, name, (Authenticator.pass x), cmd, rsv, e, u, x'.
  split_and!; try done. change (fd (base _)) with peer in Hrec. rewrite Hrec, Hr, <- app_assoc. done.
Qed.

(** C9: a server with an authenticator serves nobody else.  Whatever the client
    sends and however calls fail, the server does nothing but exchange bytes with the
    client until it has received a greeting and a login with the password of an
    entered user; it never crashes; and when the handshake succeeds, the bytes
    received are exactly greeting, login and one request, and the server holds a live
    reference to that user. *)
Theorem server_auth_sound fuel inet_pton cmd0 addr0 junk misc self st m tr p' :
  store_ok fuel st m -> obj self = AuthObj ->
  pton_ok inet_pton -> sockaddr_ok addr0 -> zlen junk = sizeof_addr ->
  psteps (hev_socks5_server_handshake fuel inet_pton cmd0 addr0 junk misc self st) tr p' ->
  let peer := fd (base self) in
  (forall t1 e t2, tr = t1 ++ e :: t2 -> talk peer e \/ authorised st m (received peer t1)) /\
  match p' with
  | Ret (r, self', st') =>
      r = -1 \/
      r = 0 /\ exists g name pass cmd rsv e u x,
        received peer tr = g ++ login name pass ++ [5; cmd; rsv] ++ encode e /\
        greeting HEV_SOCKS5_AUTH_METHOD_USER g /\ credentials st m name pass /\
        Some (type (base self')) = command_type cmd /\
        obj self' = UserObj u /\ Authenticator.users (auth st') !! u = Some x /\
        Authenticator.name x = name /\ 1 <= Authenticator.ref_count x
  | Crash => False
  | _ => True
  end.
Proof. apply handshake_sound. Qed.

(** A login as user "a" and a request to connect to 10.0.0.1:80. *)
Definition example_server : HevSocks5Server := set_obj (hev_socks5_server_construct 3) AuthObj.
Definition example_store : auth_store := mkStore 2 Authenticator.example_auth.

Definition example_history : history :=
  [EvRecv 3 2 WaitAll (full [5; 1]); EvRecv 3 1 WaitAll (full [2]);
   EvSend 3 [5; 2] (2, false);
   EvRecv 3 2 WaitAll (full [1; 1]); EvRecv 3 2 WaitAll (full [97; 1]); EvRecv 3 1 WaitAll (full [98]);
   EvSend 3 [1; 0] (2, false);
   EvRecv 3 5 WaitAll (full [5; 1; 0; 1; 10]); EvRecv 3 5 WaitAll (full [0; 0; 1; 0; 80]);
   EvCall (CSocket SOCK_STREAM) 9; EvCall (CSetsockopt 9 IPPROTO_IPV6 IPV6_V6ONLY 0) 0; EvCall (CAddFd 9) 0;
   EvCall (CConnect 9 (mkSA AF_INET6 20480 (v4mapped [10; 0; 0; 1]))) 0;
   EvSend 3 [5; 0; 0; 1; 10; 0; 0; 1; 0; 80] (10, false)].

Lemma example_store_ok : store_ok 1 example_store {[ [97] := 64 ]}.
Proof.
  split; cbn; [lia|exact Authenticator.example_auth_rep|vm_compute; lia|].
  intros u x. change (Authenticator.users Authenticator.example_auth) with
    ({[ 64 := Authenticator.mkUser 1 [97] [98] ]} : gmap Z Authenticator.HevSocks5User).
  intros [_ <-]%lookup_singleton_Some. cbn. lia.
Qed.

Lemma server_auth_sound_witness :
  exists self' st', replay (hev_socks5_server_handshake 1 example_pton 0 (mkSA 0 0 (replicate 16 0))
      (replicate 260 0) hev_socks5_misc_default example_server example_store) example_history =
    Some (Ret (0, self', st')) /\
  exists g name pass cmd rsv e, received 3 example_history = g ++ login name pass ++ [5; cmd; rsv] ++ encode e.
Proof.
  destruct (replay _ example_history) as [p'|] eqn:E; [|vm_compute in E; discriminate].
  destruct (server_auth_sound 1 example_pton 0 (mkSA 0 0 (replicate 16 0)) (replicate 260 0)
    hev_socks5_misc_default example_server example_store {[ [97] := 64 ]} example_history p') as [_ H].
  - exact example_store_ok.
  - reflexivity.
  - exact example_pton_ok.
  - apply (bool_decide_unpack _). vm_compute. exact I.
  - reflexivity.
  - by apply replay_sound.
  - vm_compute in E. injection E as <-. destruct H as [H|(_ & g & name & pass & cmd & rsv & e & u & x & H & _)]; [discriminate H|].
    eexists _, _. split; [reflexivity|]. by exists g, name, pass, cmd, rsv, e.
Defined.

End SocksServer.
