(* ===== verification/SocksClient.v ===== *)
(** * The SOCKS5 client (src/core/src/hev-socks5-client.c, hev-socks5-client-tcp.c,
      hev-socks5-client-udp.c)

    The handshake is written once for every kind of client; what the kinds do
    differently is the class [ClientClass], as it is the virtual table in the
    source. *)

From Stdlib Require Import ZArith Lia.
From stdpp Require Import base list gmap numbers.
From S2P Require Import Prelude CBytes SocketIO SocksMisc Socks5.
Import list_basics.list list_relations.list list_monad.list list_misc.list.
Import SocketIO SocksMisc Socks5.

Module SocksClient.

(** ** State and class *)

(** [auth.user] and [auth.pass] are C strings or [NULL]. *)
Record HevSocks5Client := mkClient {
  base : HevSocks5;
  user : option bytes;
  pass : option bytes;
}.

Definition with_base (c : HevSocks5Client) (b : HevSocks5) : HevSocks5Client :=
  mkClient b (user c) (pass c).

Definition hev_socks5_client_construct (ty : HevSocks5Type) : HevSocks5Client :=
  mkClient (hev_socks5_construct ty) None None.

(** Virtual functions; [None] is a null pointer. *)
Class ClientClass (S : Type) := {
  client : S -> HevSocks5Client;
  set_client : S -> HevSocks5Client -> S;
  binder : S -> Z -> sockaddr_in6 -> proc Z;
  get_upstream_addr : S -> proc (option HevSocks5Addr * S);
  set_upstream_addr : S -> HevSocks5Addr -> proc (Z * S);
}.

Section client.
Context {S : Type} `{ClientClass S}.
Context (inet_pton : Z -> bytes -> option bytes).
(** What the stack holds in the address buffer of a response. *)
Context (junk : HevSocks5Addr).
Context (misc : HevSocks5Misc).

Definition sock (self : S) : Z := fd (base (client self)).
Definition on_base (f : HevSocks5 -> HevSocks5) (self : S) : S :=
  set_client self (with_base (client self) (f (base (client self)))).

Definition has_auth (self : S) : option (bytes * bytes) :=
  match user (client self), pass (client self) with
  | Some u, Some p => Some (u, p)
  | _, _ => None
  end.

Definition hev_socks5_client_set_auth (self : S) (u p : option bytes) : S :=
  set_client self (mkClient (base (client self)) u p).

(** ** Messages *)

Definition hev_socks5_client_write_auth_methods (self : S) : proc Z :=
  let method := match has_auth self with
                | None => HEV_SOCKS5_AUTH_METHOD_NONE
                | Some _ => HEV_SOCKS5_AUTH_METHOD_USER
                end in
  pdo (res, _) := send (sock self) [HEV_SOCKS5_VERSION_5; 1; method] in
  if res <=? 0 then Ret (-1) else Ret 0.

Definition hev_socks5_client_write_auth_creds (self : S) : proc Z :=
  match has_auth self with
  | None => Ret 0
  | Some (u, p) =>
      let ub1 := u8 (zlen u) in
      let ub2 := u8 (zlen p) in
      pdo (res, _) := send (sock self)
        ([HEV_SOCKS5_AUTH_VERSION_1; ub1] ++ take (Z.to_nat ub1) u ++ [ub2] ++ take (Z.to_nat ub2) p) in
      if res <=? 0 then Ret (-1) else Ret 0
  end.

Definition request_cmd (ty : HevSocks5Type) : option Z :=
  match ty with
  | HEV_SOCKS5_TYPE_TCP => Some HEV_SOCKS5_REQ_CMD_CONNECT
  | HEV_SOCKS5_TYPE_UDP_IN_TCP => Some HEV_SOCKS5_REQ_CMD_FWD_UDP
  | HEV_SOCKS5_TYPE_UDP_IN_UDP => Some HEV_SOCKS5_REQ_CMD_UDP_ASC
  | HEV_SOCKS5_TYPE_NONE => None
  end.

Definition hev_socks5_client_write_request (self : S) : proc (Z * S) :=
  match request_cmd (type (base (client self))) with
  | None => Ret (-1, self)
  | Some cmd =>
      pdo (addr, self) := get_upstream_addr self in
      pdo addr := lift (of_option addr) in
      pdo atype := lift (rd addr 0) in
      pdo addrlen :=
        (if atype =? HEV_SOCKS5_ADDR_TYPE_IPV4 then Ret 7
         else if atype =? HEV_SOCKS5_ADDR_TYPE_IPV6 then Ret 19
         else if atype =? HEV_SOCKS5_ADDR_TYPE_NAME then pdo l := lift (rd addr 1) in Ret (4 + l)
         else Ret (-1)) in
      if addrlen =? -1 then Ret (-1, self)
      else
        pdo bs := lift (get_n addr 0 addrlen) in
        pdo (ret, _) := send (sock self) ([HEV_SOCKS5_VERSION_5; cmd; 0] ++ bs) in
        if ret <=? 0 then Ret (-1, self) else Ret (0, self)
  end.

Definition hev_socks5_client_read_auth_method (self : S) : proc Z :=
  pdo a := recv (sock self) 2 WaitAll in
  if negb (rret a =? 2) then Ret (-1)
  else
    pdo ver := lift (rd (rdata a) 0) in
    if negb (ver =? HEV_SOCKS5_VERSION_5) then Ret (-1)
    else lift (rd (rdata a) 1).

Definition hev_socks5_client_read_auth_creds (self : S) : proc Z :=
  pdo a := recv (sock self) 2 WaitAll in
  if negb (rret a =? 2) then Ret (-1)
  else
    pdo ver := lift (rd (rdata a) 0) in
    if negb (ver =? HEV_SOCKS5_AUTH_VERSION_1) then Ret (-1)
    else
      pdo rep := lift (rd (rdata a) 1) in
      if negb (rep =? HEV_SOCKS5_RES_REP_SUCC) then Ret (-1) else Ret 0.

Definition hev_socks5_client_read_response (self : S) : proc (Z * S) :=
  pdo a := recv (sock self) 4 WaitAll in
  if negb (rret a =? 4) then Ret (-1, self)
  else
    pdo ver := lift (rd (rdata a) 0) in
    pdo rep := lift (rd (rdata a) 1) in
    pdo atype := lift (rd (rdata a) 3) in
    if negb (ver =? HEV_SOCKS5_VERSION_5) then Ret (-1, self)
    else if negb (rep =? HEV_SOCKS5_RES_REP_SUCC) then Ret (-1, self)
    else
      let addrlen := if atype =? HEV_SOCKS5_ADDR_TYPE_IPV4 then 6
                     else if atype =? HEV_SOCKS5_ADDR_TYPE_IPV6 then 18 else -1 in
      if addrlen =? -1 then Ret (-1, self)
      else
        pdo b := recv (sock self) addrlen WaitAll in
        if negb (rret b =? addrlen) then Ret (-1, self)
        else
          pdo addr := lift (put_n junk 0 (atype :: rdata b)) in
          pdo (ret, self) := set_upstream_addr self addr in
          if ret <? 0 then Ret (-1, self) else Ret (0, self).

(** ** Connecting *)

Definition hev_socks5_client_connect (self : S) (addr : bytes) (port : Z) : proc (Z * S) :=
  let self := on_base (fun b => hev_socks5_set_timeout b (connect_timeout misc)) self in
  pdo (res, saddr, family) := hev_socks5_name_into_sockaddr6 inet_pton addr port
    (mkSA 0 0 (replicate 16 0)) (addr_family (base (client self))) in
  if res <? 0 then Ret (-1, self)
  else
    pdo fd := hev_socks5_socket misc SOCK_STREAM in
    if fd <? 0 then Ret (-1, self)
    else
      pdo res := binder self fd saddr in
      if res <? 0 then
        pdo _ := syscall (CDelFd fd) in pdo _ := syscall (CClose fd) in Ret (-1, self)
      else
        pdo res := syscall (CConnect fd saddr) in
        if res <? 0 then
          pdo _ := syscall (CDelFd fd) in pdo _ := syscall (CClose fd) in Ret (-1, self)
        else
          let self := on_base (fun b => hev_socks5_set_addr_family (set_fd b fd) family) self in
          Ret (0, self).

(** ** Handshakes *)

Definition hev_socks5_client_handshake_standard (self : S) : proc (Z * S) :=
  pdo res := hev_socks5_client_write_auth_methods self in
  if res <? 0 then Ret (-1, self)
  else
    pdo res := hev_socks5_client_read_auth_method self in
    if res <? 0 then Ret (-1, self)
    else
      pdo res :=
        (if res =? HEV_SOCKS5_AUTH_METHOD_USER then
           pdo res := hev_socks5_client_write_auth_creds self in
           if res <? 0 then Ret (-1)
           else
             pdo res := hev_socks5_client_read_auth_creds self in
             if res <? 0 then Ret (-1) else Ret 0
         else if negb (res =? HEV_SOCKS5_AUTH_METHOD_NONE) then Ret (-1)
         else Ret 0) in
      if res <? 0 then Ret (-1, self)
      else
        pdo (res, self) := hev_socks5_client_write_request self in
        if res <? 0 then Ret (-1, self)
        else
          pdo (res, self) := hev_socks5_client_read_response self in
          if res <? 0 then Ret (-1, self) else Ret (0, self).

Definition hev_socks5_client_handshake_pipeline (self : S) : proc (Z * S) :=
  pdo res := hev_socks5_client_write_auth_methods self in
  if res <? 0 then Ret (-1, self)
  else
    pdo res := hev_socks5_client_write_auth_creds self in
    if res <? 0 then Ret (-1, self)
    else
      pdo (res, self) := hev_socks5_client_write_request self in
      if res <? 0 then Ret (-1, self)
      else
        pdo res := hev_socks5_client_read_auth_method self in
        if res <? 0 then Ret (-1, self)
        else
          pdo res :=
            (if res =? HEV_SOCKS5_AUTH_METHOD_USER then
               pdo res := hev_socks5_client_read_auth_creds self in
               if res <? 0 then Ret (-1) else Ret 0
             else if negb (res =? HEV_SOCKS5_AUTH_METHOD_NONE) then Ret (-1)
             else Ret 0) in
          if res <? 0 then Ret (-1, self)
          else
            pdo (res, self) := hev_socks5_client_read_response self in
            if res <? 0 then Ret (-1, self) else Ret (0, self).

Definition hev_socks5_client_handshake (self : S) (pipeline : bool) : proc (Z * S) :=
  let self := on_base (fun b => hev_socks5_set_timeout b (tcp_timeout misc)) self in
  pdo (res, self) := (if pipeline then hev_socks5_client_handshake_pipeline self
                      else hev_socks5_client_handshake_standard self) in
  match type (base (client self)) with
  | HEV_SOCKS5_TYPE_UDP_IN_TCP | HEV_SOCKS5_TYPE_UDP_IN_UDP =>
      Ret (res, on_base (fun b => hev_socks5_set_timeout b (udp_timeout misc)) self)
  | _ => Ret (res, self)
  end.

End client.

(** ** TCP clients *)

Record HevSocks5ClientTCP := mkClientTCP {
  tcp_base : HevSocks5Client;
  tcp_addr : option HevSocks5Addr;
}.

Definition hev_socks5_client_tcp_get_upstream_addr (self : HevSocks5ClientTCP)
  : proc (option HevSocks5Addr * HevSocks5ClientTCP) :=
  Ret (tcp_addr self, mkClientTCP (tcp_base self) None).

Definition hev_socks5_client_tcp_set_upstream_addr (self : HevSocks5ClientTCP) (addr : HevSocks5Addr)
  : proc (Z * HevSocks5ClientTCP) :=
  Ret (0, self).

#[global] Instance client_tcp_class : ClientClass HevSocks5ClientTCP := {
  client := tcp_base;
  set_client s c := mkClientTCP c (tcp_addr s);
  binder _ := hev_socks5_bind;
  get_upstream_addr := hev_socks5_client_tcp_get_upstream_addr;
  set_upstream_addr := hev_socks5_client_tcp_set_upstream_addr;
}.

Definition hev_socks5_client_tcp_construct (addr : HevSocks5Addr) : proc (Z * HevSocks5ClientTCP) :=
  let base := hev_socks5_client_construct HEV_SOCKS5_TYPE_TCP in
  pdo res := lift (hev_socks5_addr_len addr) in
  pdo p := syscall (CMalloc res) in
  if p =? 0 then Ret (-1, mkClientTCP base None)
  else
    pdo a := lift (get_n addr 0 res) in
    Ret (0, mkClientTCP base (Some a)).

(** Size of the object on the LP64 targets. *)
Definition sizeof_client_tcp : Z := 64.

(** [None] is the null pointer. *)
Definition client_tcp_new (make : HevSocks5Addr -> outcome (Z * HevSocks5Addr)) (junk : HevSocks5Addr)
  : proc (option HevSocks5ClientTCP) :=
  pdo p := syscall (CMalloc sizeof_client_tcp) in
  if p =? 0 then Ret None
  else
    pdo (_, addr) := lift (make junk) in
    pdo (res, self) := hev_socks5_client_tcp_construct addr in
    if res <? 0 then Ret None else Ret (Some self).

Definition hev_socks5_client_tcp_new_name (junk : HevSocks5Addr) (name : bytes) (port : Z) :=
  client_tcp_new (fun a => hev_socks5_addr_from_name a name port) junk.

Definition hev_socks5_client_tcp_new_ipv4 (junk : HevSocks5Addr) (ipv4 : bytes) (port : Z) :=
  client_tcp_new (fun a => hev_socks5_addr_from_ipv4 a ipv4 port) junk.

Definition hev_socks5_client_tcp_new_ipv6 (junk : HevSocks5Addr) (ipv6 : bytes) (port : Z) :=
  client_tcp_new (fun a => hev_socks5_addr_from_ipv6 a ipv6 port) junk.

(** ** UDP clients *)

Record HevSocks5ClientUDP := mkClientUDP {
  udp_base : HevSocks5Client;
  udp_fd : Z;
}.

(** [hev_malloc0] of the size for the family, with the type byte set. *)
Definition hev_socks5_client_udp_get_upstream_addr (self : HevSocks5ClientUDP)
  : proc (option HevSocks5Addr * HevSocks5ClientUDP) :=
  let family := addr_family (base (udp_base self)) in
  if family =? AF_INET then
    pdo p := syscall (CMalloc 7) in
    Ret (if p =? 0 then None else Some (HEV_SOCKS5_ADDR_TYPE_IPV4 :: replicate 6 0), self)
  else if family =? AF_INET6 then
    pdo p := syscall (CMalloc 19) in
    Ret (if p =? 0 then None else Some (HEV_SOCKS5_ADDR_TYPE_IPV6 :: replicate 18 0), self)
  else Ret (None, self).

Definition udp_on_base (f : HevSocks5 -> HevSocks5) (self : HevSocks5ClientUDP) : HevSocks5ClientUDP :=
  mkClientUDP (with_base (udp_base self) (f (base (udp_base self)))) (udp_fd self).

Section udp.
Context (inet_pton : Z -> bytes -> option bytes).
Context (misc : HevSocks5Misc).
(** [binder] of the object's class. *)
Context (bind_to : Z -> sockaddr_in6 -> proc Z).

Definition hev_socks5_client_udp_set_upstream_addr (self : HevSocks5ClientUDP) (addr : HevSocks5Addr)
  : proc (Z * HevSocks5ClientUDP) :=
  if negb (bool_decide (type (base (udp_base self)) = HEV_SOCKS5_TYPE_UDP_IN_UDP)) then Ret (0, self)
  else
    pdo (res, saddr, _) := hev_socks5_addr_into_sockaddr6 inet_pton addr
      (mkSA 0 0 (replicate 16 0)) (addr_family (base (udp_base self))) in
    if res <? 0 then Ret (-1, self)
    else
      pdo fd := hev_socks5_socket misc SOCK_DGRAM in
      if fd <? 0 then Ret (-1, self)
      else
        pdo res := bind_to fd saddr in
        if res <? 0 then
          pdo _ := syscall (CDelFd fd) in pdo _ := syscall (CClose fd) in Ret (-1, self)
        else
          pdo res := syscall (CConnect fd saddr) in
          if res <? 0 then
            pdo _ := syscall (CDelFd fd) in pdo _ := syscall (CClose fd) in Ret (-1, self)
          else
            Ret (0, mkClientUDP (with_base (udp_base self) (set_udp_associated (base (udp_base self)) 1)) fd).

Definition client_udp_class : ClientClass HevSocks5ClientUDP := {|
  client := udp_base;
  set_client s c := mkClientUDP c (udp_fd s);
  binder _ := bind_to;
  get_upstream_addr := hev_socks5_client_udp_get_upstream_addr;
  set_upstream_addr := hev_socks5_client_udp_set_upstream_addr;
|}.

End udp.

Definition hev_socks5_client_udp_get_fd (self : HevSocks5ClientUDP) : Z :=
  match type (base (udp_base self)) with
  | HEV_SOCKS5_TYPE_UDP_IN_TCP => fd (base (udp_base self))
  | HEV_SOCKS5_TYPE_UDP_IN_UDP => udp_fd self
  | _ => -1
  end.

Definition hev_socks5_client_udp_construct (ty : HevSocks5Type) : HevSocks5ClientUDP :=
  mkClientUDP (hev_socks5_client_construct ty) (-1).

Definition hev_socks5_client_udp_destruct (self : HevSocks5ClientUDP) : proc unit :=
  pdo _ := (if 0 <=? udp_fd self then
              pdo _ := syscall (CDelFd (udp_fd self)) in
              syscall (CClose (udp_fd self))
            else Ret 0) in
  hev_socks5_destruct (base (udp_base self)).

End SocksClient.
