(* ===== verification/SocksNet.v ===== *)
(** * Two programs on one connection

    A client and a server joined by a reliable byte stream in each direction, run
    under an arbitrary schedule.  [nstep_diamond] shows that steps of the two sides
    commute; hence one complete run determines every run ([schedule_independent]). *)

From Stdlib Require Import ZArith Lia.
From stdpp Require Import base list gmap numbers.
From S2P Require Import Prelude CBytes SocketIO.
Import list_basics.list list_relations.list list_monad.list list_misc.list.
Import SocketIO.

Module SocksNet.

(** What a side's own calls answer. *)
Record local_env := mkEnv {
  on_call : call -> Z;
  on_resolve : bytes -> Z -> option (Z * bytes);
  on_name : Z -> option sockaddr_in6;
}.

(** One move of a side with socket [fd]: [q] is the stream it can read, [closed]
    whether its peer has finished.  The result is the program, the rest of the stream
    and the bytes sent; [None] means it waits or has finished. *)
Definition move {A} (fd : Z) (env : local_env) (closed : bool) (p : proc A) (q : bytes)
  : option (proc A * bytes * bytes) :=
  match p with
  | Send fd' bs k => if fd' =? fd then Some (k (zlen bs, false), q, bs) else None
  | Recv fd' n WaitAll k =>
      if negb (fd' =? fd) then None
      else if n <=? zlen q then Some (k (full (take (Z.to_nat n) q)), drop (Z.to_nat n) q, [])
      else if closed then Some (k (full q), [], [])
      else None
  | Call c k => Some (k (on_call env c), q, [])
  | Resolve nm fam k => Some (k (on_resolve env nm fam), q, [])
  | GetName fd' k => Some (k (on_name env fd'), q, [])
  | _ => None
  end.

Definition finished {A} (p : proc A) : bool := match p with Ret _ => true | _ => false end.

Record net (A B : Type) := mkNet {
  cl : proc A;
  sv : proc B;
  up : bytes;
  down : bytes;
}.
Arguments mkNet {A B} _ _ _ _.
Arguments cl {A B} _.
Arguments sv {A B} _.
Arguments up {A B} _.
Arguments down {A B} _.

Section net.
Context {A B : Type} (cfd sfd : Z) (cenv senv : local_env).

Definition cl_move (x : net A B) : option (net A B) :=
  match move cfd cenv (finished (sv x)) (cl x) (down x) with
  | Some (p, q, out) => Some (mkNet p (sv x) (up x ++ out) q)
  | None => None
  end.

Definition sv_move (x : net A B) : option (net A B) :=
  match move sfd senv (finished (cl x)) (sv x) (up x) with
  | Some (p, q, out) => Some (mkNet (cl x) p q (down x ++ out))
  | None => None
  end.

Inductive nstep (x y : net A B) : Prop :=
| nstep_cl : cl_move x = Some y -> nstep x y
| nstep_sv : sv_move x = Some y -> nstep x y.

Inductive nsteps : nat -> net A B -> net A B -> Prop :=
| nsteps_O x : nsteps 0 x x
| nsteps_S n x y z : nstep x y -> nsteps n y z -> nsteps (S n) x z.

(** More input and a peer that finishes do not take a move away. *)
Lemma move_mono {C} fd env (p : proc C) q p' q' out closed x :
  move fd env false p q = Some (p', q', out) ->
  move fd env closed p (q ++ x) = Some (p', q' ++ x, out).
Proof.
  destruct p as [a| |fd' n w k|fd' bs k|fd' lens w k|fd' msgs k|nm fam k|fd' k|c k]; cbn; try done;
    try (intros [= <- <- <-]; done).
  - destruct w; try done. destruct (negb _); [done|].
    destruct (Z.leb_spec n (zlen q)) as [Hn|]; [|done]. intros [= <- <- <-].
    rewrite (proj2 (Z.leb_le n (zlen (q ++ x)))) by (rewrite zlen_app; pose proof (zlen_nonneg x); lia).
    unfold zlen in Hn. by rewrite take_app_le, drop_app_le by lia.
  - destruct (_ =? _); [|done]. by intros [= <- <- <-].
Qed.

Lemma move_unfinished {C} fd env closed (p : proc C) q r : move fd env closed p q = Some r -> finished p = false.
Proof. by destruct p. Qed.

Lemma nstep_diamond x y z :
  nstep x y -> nstep x z -> y = z \/ exists w, nstep y w /\ nstep z w.
Proof.
  assert (forall y z, cl_move x = Some y -> sv_move x = Some z -> exists w, nstep y w /\ nstep z w) as Hd.
  { clear y z. intros y z. unfold cl_move, sv_move.
    destruct (move cfd _ _ _ _) as [[[p q] out]|] eqn:E1; [|done].
    destruct (move sfd _ _ _ _) as [[[p2 q2] out2]|] eqn:E2; [|done]. intros [= <-] [= <-].
    rewrite (move_unfinished _ _ _ _ _ _ E1) in E2. rewrite (move_unfinished _ _ _ _ _ _ E2) in E1.
    exists (mkNet p p2 (q2 ++ out) (q ++ out2)). split.
    - apply nstep_sv. unfold sv_move. cbn [cl sv up down]. by rewrite (move_mono _ _ _ _ _ _ _ _ _ E2).
    - apply nstep_cl. unfold cl_move. cbn [cl sv up down]. by rewrite (move_mono _ _ _ _ _ _ _ _ _ E1). }
  intros [H1|H1] [H2|H2].
  - left. congruence.
  - right. by apply Hd.
  - right. destruct (Hd _ _ H2 H1) as (w & ? & ?). by exists w.
  - left. congruence.
Qed.

Definition stuck (x : net A B) : Prop := forall y, ~ nstep x y.

Lemma nsteps_first n x t y : nsteps (S n) x t -> stuck t -> nstep x y -> nsteps n y t.
Proof.
  intros H Ht. revert x y H. induction n as [|n IH]; intros x y H Hy; inversion H as [|? ? x1 ? H1 H2]; subst.
  - inversion H2; subst. destruct (nstep_diamond _ _ _ H1 Hy) as [->|(w & Hw & _)]; [constructor|].
    destruct (Ht _ Hw).
  - destruct (nstep_diamond _ _ _ H1 Hy) as [->|(w & Hw1 & Hw2)]; [done|].
    econstructor; [exact Hw2|]. by eapply IH.
Qed.

(** Every run from [x] can be completed to the one end, in the steps that remain. *)
Lemma schedule_independent n x t j y :
  nsteps n x t -> stuck t -> nsteps j x y -> (j <= n)%nat /\ nsteps (n - j) y t.
Proof.
  intros H Ht Hj. revert n H. induction Hj as [x|j x x1 y H1 Hj IH]; intros n H.
  - rewrite Nat.sub_0_r. split; [lia|done].
  - destruct n as [|n]; [inversion H; subst; by destruct (Ht _ H1)|].
    destruct (IH n) as [? ?]; [by eapply nsteps_first|]. split; [lia|done].
Qed.

Lemma nsteps_app n m x y z : nsteps n x y -> nsteps m y z -> nsteps (n + m) x z.
Proof. induction 1; [done|]. intros. cbn. econstructor; eauto. Qed.

End net.

(** ** Runs of one side *)

Section side.
Context (fd : Z) (env : local_env).

(** [runs p q p' q' out]: moves of one side, its peer still running. *)
Inductive runs {A} : proc A -> bytes -> proc A -> bytes -> bytes -> Prop :=
| runs_nil p q : runs p q p q []
| runs_cons p q p1 q1 o1 p2 q2 o2 :
    move fd env false p q = Some (p1, q1, o1) -> runs p1 q1 p2 q2 o2 -> runs p q p2 q2 (o1 ++ o2).

Lemma runs_app {A} (p : proc A) q p1 q1 o1 p2 q2 o2 :
  runs p q p1 q1 o1 -> runs p1 q1 p2 q2 o2 -> runs p q p2 q2 (o1 ++ o2).
Proof. induction 1; [done|]. intros. rewrite <- app_assoc. econstructor; eauto. Qed.

Lemma move_bind {A B} (p : proc A) (f : A -> proc B) q p' q' out :
  move fd env false p q = Some (p', q', out) -> move fd env false (bind p f) q = Some (bind p' f, q', out).
Proof.
  destruct p as [a| |fd' n w k|fd' bs k|fd' lens w k|fd' msgs k|nm fam k|fd' k|c k]; cbn; try done.
  - destruct w; try done. destruct (negb _); [done|]. destruct (_ <=? _); [|done]. by intros [= <- <- <-].
  - destruct (_ =? _); [|done]. by intros [= <- <- <-].
  - by intros [= <- <- <-].
  - by intros [= <- <- <-].
  - by intros [= <- <- <-].
Qed.

Lemma runs_bind {A B} (p : proc A) (f : A -> proc B) q p' q' out :
  runs p q p' q' out -> runs (bind p f) q (bind p' f) q' out.
Proof. induction 1; [constructor|]. econstructor; [by apply move_bind|done]. Qed.

(** A part that completes, followed by the rest. *)
Lemma runs_seq {A B} (p : proc A) (f : A -> proc B) q a q1 o1 p2 q2 o2 :
  runs p q (Ret a) q1 o1 -> runs (f a) q1 p2 q2 o2 -> runs (bind p f) q p2 q2 (o1 ++ o2).
Proof. intros H1 H2. eapply runs_app; [by apply runs_bind|done]. Qed.

Lemma runs_send {A} bs (k : Z * bool -> proc A) q p' q' out :
  runs (k (zlen bs, false)) q p' q' out -> runs (Send fd bs k) q p' q' (bs ++ out).
Proof. intros H. econstructor; [|exact H]. cbn. by rewrite Z.eqb_refl. Qed.

Lemma runs_recv {A} n (k : rans -> proc A) m q p' q' out :
  n = zlen m -> runs (k (full m)) q p' q' out -> runs (Recv fd n WaitAll k) (m ++ q) p' q' out.
Proof.
  intros -> H. change out with ([] ++ out). econstructor; [|exact H]. cbn. rewrite Z.eqb_refl. cbn [negb].
  rewrite (proj2 (Z.leb_le _ _)) by (rewrite zlen_app; pose proof (zlen_nonneg q); lia).
  unfold zlen. by rewrite Nat2Z.id, take_app_length, drop_app_length.
Qed.

Lemma runs_call {A} c (k : Z -> proc A) q p' q' out :
  runs (k (on_call env c)) q p' q' out -> runs (Call c k) q p' q' out.
Proof. intros H. change out with ([] ++ out). by econstructor. Qed.

Lemma runs_resolve {A} nm fam (k : option (Z * bytes) -> proc A) q p' q' out :
  runs (k (on_resolve env nm fam)) q p' q' out -> runs (Resolve nm fam k) q p' q' out.
Proof. intros H. change out with ([] ++ out). by econstructor. Qed.

End side.

(** The side's run inside the network. *)
Lemma move_any {A} fd env closed (p : proc A) q r :
  move fd env false p q = Some r -> move fd env closed p q = Some r.
Proof.
  destruct r as [[p' q'] out]. intros H%(move_mono _ _ _ _ _ _ _ closed []). by rewrite !app_nil_r in H.
Qed.

Lemma cl_runs {A B} cfd sfd cenv senv (p p' : proc A) (s : proc B) u q q' out :
  runs cfd cenv p q p' q' out ->
  exists n, nsteps cfd sfd cenv senv n (mkNet p s u q) (mkNet p' s (u ++ out) q').
Proof.
  intros H. revert u. induction H as [p q|p q p1 q1 o1 p2 q2 o2 H1 H IH]; intros u.
  - exists 0%nat. rewrite app_nil_r. constructor.
  - destruct (IH (u ++ o1)) as [n Hn]. exists (S n). econstructor; [|rewrite app_assoc; exact Hn].
    apply nstep_cl. unfold cl_move. cbn. by rewrite (move_any _ _ _ _ _ _ H1).
Qed.

Lemma sv_runs {A B} cfd sfd cenv senv (p p' : proc B) (c : proc A) d q q' out :
  runs sfd senv p q p' q' out ->
  exists n, nsteps cfd sfd cenv senv n (mkNet c p q d) (mkNet c p' q' (d ++ out)).
Proof.
  intros H. revert d. induction H as [p q|p q p1 q1 o1 p2 q2 o2 H1 H IH]; intros d.
  - exists 0%nat. rewrite app_nil_r. constructor.
  - destruct (IH (d ++ o1)) as [n Hn]. exists (S n). econstructor; [|rewrite app_assoc; exact Hn].
    apply nstep_sv. unfold sv_move. cbn. by rewrite (move_any _ _ _ _ _ _ H1).
Qed.
(** ** Scripts

    What a side sends and receives, in order. *)

Inductive act :=
| Out (bs : bytes)
| In (bs : bytes).

Section script.
Context (fd : Z) (env : local_env).

Inductive follows {A} : proc A -> list act -> proc A -> Prop :=
| follows_nil p : follows p [] p
| follows_out p p1 p2 bs s : runs fd env p [] p1 [] bs -> follows p1 s p2 -> follows p (Out bs :: s) p2
| follows_in p p1 p2 bs s : runs fd env p bs p1 [] [] -> follows p1 s p2 -> follows p (In bs :: s) p2.

Lemma follows_app {A} (p p1 p2 : proc A) s t : follows p s p1 -> follows p1 t p2 -> follows p (s ++ t) p2.
Proof. induction 1; [done|..]; intros; cbn; econstructor; eauto. Qed.

Lemma follows_bind {A B} (p p' : proc A) (f : A -> proc B) s :
  follows p s p' -> follows (bind p f) s (bind p' f).
Proof. induction 1; econstructor; eauto using runs_bind. Qed.

(** A part that completes, followed by the rest. *)
Lemma follows_seq {A B} (p : proc A) (f : A -> proc B) a s t p' :
  follows p s (Ret a) -> follows (f a) t p' -> follows (bind p f) (s ++ t) p'.
Proof. intros H1 H2. eapply follows_app; [by apply follows_bind|done]. Qed.

Lemma follows_sends {A} (p p' : proc A) bs : runs fd env p [] p' [] bs -> follows p [Out bs] p'.
Proof. intros H. econstructor; [exact H|constructor]. Qed.

Lemma follows_reads {A} (p p' : proc A) bs : runs fd env p (bs ++ []) p' [] [] -> follows p [In bs] p'.
Proof. rewrite app_nil_r. intros H. econstructor; [exact H|constructor]. Qed.

Lemma runs_frame {A} (p p' : proc A) q q' out x :
  runs fd env p q p' q' out -> runs fd env p (q ++ x) p' (q' ++ x) out.
Proof. induction 1; econstructor; eauto using move_mono. Qed.

End script.

(** Scripts of a client and a server that fit together, with the bytes on the way. *)
Inductive joins : list act -> list act -> bytes -> bytes -> Prop :=
| joins_nil : joins [] [] [] []
| joins_cl_out bs s t u d : joins s t (u ++ bs) d -> joins (Out bs :: s) t u d
| joins_sv_out bs s t u d : joins s t u (d ++ bs) -> joins s (Out bs :: t) u d
| joins_cl_in bs s t u d d' : d = bs ++ d' -> joins s t u d' -> joins (In bs :: s) t u d
| joins_sv_in bs s t u u' d : u = bs ++ u' -> joins s t u' d -> joins s (In bs :: t) u d.

Lemma joins_run {A B} cfd sfd cenv senv s t u d :
  joins s t u d -> forall (c c' : proc A) (p p' : proc B),
  follows cfd cenv c s c' -> follows sfd senv p t p' ->
  exists n, nsteps cfd sfd cenv senv n (mkNet c p u d) (mkNet c' p' [] []).
Proof.
  induction 1 as [|bs s t u d _ IH|bs s t u d _ IH|bs s t u d d' -> _ IH|bs s t u u' d -> _ IH];
    intros c c' p p' Hc Hs.
  - inversion Hc; inversion Hs; subst. exists 0%nat. constructor.
  - inversion Hc as [|? p1 ? ? ? H1 H2|]; subst. destruct (IH _ _ _ _ H2 Hs) as [n Hn].
    apply (runs_frame _ _ _ _ _ _ _ d) in H1. cbn in H1.
    destruct (cl_runs cfd sfd cenv senv _ _ p u _ _ _ H1) as [k Hk].
    exists (k + n)%nat. by eapply nsteps_app.
  - inversion Hs as [|? p1 ? ? ? H1 H2|]; subst. destruct (IH _ _ _ _ Hc H2) as [n Hn].
    apply (runs_frame _ _ _ _ _ _ _ u) in H1. cbn in H1.
    destruct (sv_runs cfd sfd cenv senv _ _ c d _ _ _ H1) as [k Hk].
    exists (k + n)%nat. by eapply nsteps_app.
  - inversion Hc as [| |? p1 ? ? ? H1 H2]; subst. destruct (IH _ _ _ _ H2 Hs) as [n Hn].
    apply (runs_frame _ _ _ _ _ _ _ d') in H1. cbn in H1.
    destruct (cl_runs cfd sfd cenv senv _ _ p u _ _ _ H1) as [k Hk]. rewrite app_nil_r in Hk.
    exists (k + n)%nat. by eapply nsteps_app.
  - inversion Hs as [| |? p1 ? ? ? H1 H2]; subst. destruct (IH _ _ _ _ Hc H2) as [n Hn].
    apply (runs_frame _ _ _ _ _ _ _ u') in H1. cbn in H1.
    destruct (sv_runs cfd sfd cenv senv _ _ c d _ _ _ H1) as [k Hk]. rewrite app_nil_r in Hk.
    exists (k + n)%nat. by eapply nsteps_app.
Qed.

End SocksNet.
