(* ===== verification/SocksHandshake.v ===== *)
(** * Client and server complete the handshake

    The client of [SocksClient] and the server of [SocksServer] on one connection,
    in the standard and in the pipelined order, with and without a password, under
    every schedule. *)

From Stdlib Require Import ZArith Lia.
From stdpp Require Import base list gmap numbers.
From S2P Require Import Prelude CBytes RBTree RBTreeRep RBTreeSearch Authenticator SocketIO SocksMisc Socks5 SocksServer SocksClient SocksNet.
Import list_basics.list list_relations.list list_monad.list list_misc.list.
Import SocketIO SocksMisc Socks5 SocksNet.

Module SocksHandshake.

(** Execute a part of a program whose messages are known. *)
Lemma runs_out {A} fd env (p : proc A) q p' q' out out' :
  runs fd env p q p' q' out -> out = out' -> runs fd env p q p' q' out'.
Proof. by intros H <-. Qed.

Lemma runs_in {A} fd env (p : proc A) q0 q p' q' out :
  q0 = q -> runs fd env p q p' q' out -> runs fd env p q0 p' q' out.
Proof. by intros ->. Qed.

(** ** The client's messages *)

Section client.
Context (cfd : Z) (env : local_env).
Context (self : SocksClient.HevSocks5ClientTCP) (self_fd : SocksClient.sock self = cfd).

Definition offered : Z :=
  match SocksClient.has_auth self with
  | None => HEV_SOCKS5_AUTH_METHOD_NONE
  | Some _ => HEV_SOCKS5_AUTH_METHOD_USER
  end.

Lemma client_methods q :
  runs cfd env (SocksClient.hev_socks5_client_write_auth_methods self) q (Ret 0) q [5; 1; offered].
Proof.
  unfold SocksClient.hev_socks5_client_write_auth_methods. rewrite self_fd. fold offered. cbn [send bind].
  eapply runs_out; [apply runs_send; apply runs_nil|done].
Qed.

Lemma client_creds u p q :
  SocksClient.has_auth self = Some (u, p) -> zlen u <= 255 -> zlen p <= 255 ->
  runs cfd env (SocksClient.hev_socks5_client_write_auth_creds self) q (Ret 0) q (SocksServer.login u p).
Proof.
  intros Ha Hu Hp. unfold SocksClient.hev_socks5_client_write_auth_creds. rewrite Ha, self_fd.
  pose proof (zlen_nonneg u). pose proof (zlen_nonneg p).
  rewrite !u8_id by (unfold is_u8; lia). unfold zlen at 2 4. rewrite !Nat2Z.id, !take_ge by done.
  fold (zlen u). fold (zlen p). change ([HEV_SOCKS5_AUTH_VERSION_1; zlen u] ++ u ++ [zlen p] ++ p) with (SocksServer.login u p).
  cbn [send bind]. eapply runs_out; [apply runs_send|apply app_nil_r].
  rewrite (proj2 (Z.leb_gt _ _)); [apply runs_nil|]. unfold SocksServer.login. cbn [app]. rewrite !zlen_cons.
  pose proof (zlen_nonneg (u ++ zlen p :: p)). lia.
Qed.

Lemma client_request e q :
  SocksClient.tcp_addr self = Some (encode e) -> endpoint_ok e ->
  type (SocksClient.base (SocksClient.client self)) = HEV_SOCKS5_TYPE_TCP ->
  runs cfd env (SocksClient.hev_socks5_client_write_request self) q
    (Ret (0, SocksClient.mkClientTCP (SocksClient.tcp_base self) None)) q ([5; 1; 0] ++ encode e).
Proof.
  intros Ha He Ht. unfold SocksClient.hev_socks5_client_write_request. rewrite Ht.
  cbn [SocksClient.request_cmd SocksClient.get_upstream_addr SocksClient.client_tcp_class
       SocksClient.hev_socks5_client_tcp_get_upstream_addr bind]. rewrite Ha. cbn [of_option lift bind].
  assert (exists atype, rd (encode e) 0 = Val atype /\
    (if atype =? HEV_SOCKS5_ADDR_TYPE_IPV4 then Ret 7
     else if atype =? HEV_SOCKS5_ADDR_TYPE_IPV6 then Ret 19
     else if atype =? HEV_SOCKS5_ADDR_TYPE_NAME then pdo l := lift (rd (encode e) 1) in Ret (4 + l)
     else Ret (-1)) = Ret (zlen (encode e))) as (atype & -> & El).
  { pose proof (encode_length e He) as El. unfold hev_socks5_addr_len in El.
    destruct e as [a p|a p|n p]; (eexists; split; [reflexivity|]).
    - change (Val 7 = Val (zlen (encode (EIPv4 a p)))) in El. assert (zlen (encode (EIPv4 a p)) = 7) as -> by congruence. done.
    - change (Val 19 = Val (zlen (encode (EIPv6 a p)))) in El. assert (zlen (encode (EIPv6 a p)) = 19) as -> by congruence. done.
    - change (Val (4 + zlen n) = Val (zlen (encode (EName n p)))) in El.
      assert (zlen (encode (EName n p)) = 4 + zlen n) as -> by congruence. done. }
  cbn [lift bind]. rewrite El. cbn [bind]. pose proof (zlen_nonneg (encode e)).
  rewrite (proj2 (Z.eqb_neq _ _)) by lia.
  pose proof (get_n_app [] (encode e) [] 0 _ eq_refl eq_refl) as Eg. rewrite app_nil_r in Eg. cbn [app] in Eg.
  rewrite Eg. cbn [lift bind send]. 
  change (SocksClient.sock (SocksClient.mkClientTCP (SocksClient.tcp_base self) None)) with (SocksClient.sock self).
  rewrite self_fd.
  eapply runs_out; [apply runs_send|apply app_nil_r].
  rewrite (proj2 (Z.leb_gt _ _)); [apply runs_nil|]. cbn [app]. rewrite !zlen_cons. lia.
Qed.

Lemma client_read_method m q :
  runs cfd env (SocksClient.hev_socks5_client_read_auth_method self) ([5; m] ++ q) (Ret m) q [].
Proof.
  unfold SocksClient.hev_socks5_client_read_auth_method. rewrite self_fd. cbn [recv bind].
  apply runs_recv; [done|]. apply runs_nil.
Qed.

Lemma client_read_creds q :
  runs cfd env (SocksClient.hev_socks5_client_read_auth_creds self) ([1; 0] ++ q) (Ret 0) q [].
Proof.
  unfold SocksClient.hev_socks5_client_read_auth_creds. rewrite self_fd. cbn [recv bind].
  apply runs_recv; [done|]. apply runs_nil.
Qed.

Lemma client_response_body junk atype body q :
  atype = 1 /\ zlen body = 6 \/ atype = 4 /\ zlen body = 18 -> zlen junk = sizeof_addr ->
  runs cfd env (SocksClient.hev_socks5_client_read_response junk self)
    ([5; 0; 0; atype] ++ body ++ q) (Ret (0, self)) q [].
Proof.
  intros Hb Hj. unfold SocksClient.hev_socks5_client_read_response. rewrite self_fd. cbn [recv bind].
  apply runs_recv; [done|]. change (rret (full [5; 0; 0; atype]) =? 4) with true. cbn [negb full rdata].
  change (rd [5; 0; 0; atype] 0) with (Val 5). change (rd [5; 0; 0; atype] 1) with (Val 0).
  change (rd [5; 0; 0; atype] 3) with (Val atype). cbn [lift bind].
  change (5 =? HEV_SOCKS5_VERSION_5) with true. change (0 =? HEV_SOCKS5_RES_REP_SUCC) with true. cbn [negb].
  set (n := if atype =? HEV_SOCKS5_ADDR_TYPE_IPV4 then 6 else if atype =? HEV_SOCKS5_ADDR_TYPE_IPV6 then 18 else -1).
  assert (n = zlen body /\ n <> -1 /\ zlen body <= 18) as (En & Hn & Hl) by (destruct Hb as [[-> E]|[-> E]]; cbn in n; lia).
  rewrite (proj2 (Z.eqb_neq _ _) Hn). cbn [recv bind]. apply runs_recv; [done|].
  change (rret (full body)) with (zlen body). rewrite En, Z.eqb_refl. cbn [negb full rdata].
  rewrite put_n_const by (rewrite ?zlen_cons, ?Hj; unfold sizeof_addr; lia). apply runs_nil.
Qed.

Lemma client_response junk sa q :
  sockaddr_ok sa -> zlen junk = sizeof_addr ->
  runs cfd env (SocksClient.hev_socks5_client_read_response junk self)
    (([5; 0; 0] ++ encode (endpoint_of sa)) ++ q) (Ret (0, self)) q [].
Proof.
  intros Hsa Hj. pose proof (endpoint_of_ok sa Hsa) as Hok. rewrite <- app_assoc.
  assert (exists atype body, encode (endpoint_of sa) = atype :: body /\
    (atype = 1 /\ zlen body = 6 \/ atype = 4 /\ zlen body = 18)) as (atype & body & -> & Hb).
  { unfold endpoint_of in *. destruct (in6_is_addr_v4mapped _); destruct Hok as (La & _);
      (eexists _, _; split; [reflexivity|]); [left|right]; (split; [done|]);
      unfold zlen; rewrite length_app, La; done. }
  by apply (client_response_body junk atype body q).
Qed.

End client.
(** ** The server's messages *)

(** The socket address that the server connects to for an endpoint: an address as it
    is, a literal name as [inet_pton] reads it, another name as the resolver answers. *)
Definition denote (inet_pton : Z -> bytes -> option bytes) (env : local_env) (fam : Z) (e : endpoint)
  : option (sockaddr_in6 * Z) :=
  match e with
  | EIPv4 a p => Some (mkSA AF_INET6 p (v4mapped a), AF_INET)
  | EIPv6 a p => Some (mkSA AF_INET6 p a, AF_INET6)
  | EName n p =>
      match inet_pton AF_INET (until_nul n), inet_pton AF_INET6 (until_nul n) with
      | Some v, _ => Some (mkSA AF_INET6 p (v4mapped v), AF_INET)
      | None, Some v => Some (mkSA AF_INET6 p v, AF_INET6)
      | None, None =>
          match on_resolve env (until_nul n) fam with
          | Some (f, v) =>
              if f =? AF_INET then Some (mkSA AF_INET6 p (v4mapped v), AF_INET)
              else if f =? AF_INET6 then Some (mkSA AF_INET6 p v, AF_INET6)
              else None
          | None => None
          end
      end
  end.

Definition resolver_ok (env : local_env) : Prop := forall n fam, resolve_ok (on_resolve env n fam).

Section server.
Context (sfd : Z) (env : local_env) (env_ok : resolver_ok env).
Context (inet_pton : Z -> bytes -> option bytes) (pton : pton_ok inet_pton).

Lemma name_into_runs n p a fam q r :
  is_bytes n -> is_u16 p -> length (sin6_addr a) = 16%nat -> is_bytes (sin6_addr a) ->
  denote inet_pton env fam (EName n p) = Some r ->
  runs sfd env (hev_socks5_name_into_sockaddr6 inet_pton (until_nul n) (swap16 p) a fam) q (Ret (0, r.1, r.2)) q [].
Proof.
  intros Hn Hp La Ba Hd. apply until_nul_bytes in Hn. cbn [denote] in Hd. revert Hn Hd. generalize (until_nul n). clear n.
  intros n Hn Hd. unfold hev_socks5_name_into_sockaddr6, hev_socks5_name_resolve_ipv4, hev_socks5_name_resolve_ipv6,
    hev_socks5_name_resolve_name.
  rewrite (u16_id (swap16 p)), swap16_invol by (done || apply swap16_range). cbn [sin6_addr].
  destruct a as [f0 p0 a]. cbn [sin6_addr] in *.
  destruct (inet_pton AF_INET n) as [v|] eqn:E4.
  { destruct (proj1 (pton n v Hn) E4) as [Lv Bv]. pose proof (map_v4_prefix a v La Lv) as Em.
    destruct (put_n a 0 (replicate 10 0)) as [a1|]; [cbn [obind] in *|done].
    destruct (put_n a1 12 v) as [a2|]; [cbn [obind] in *|done].
    destruct (wr a2 10 0xff) as [a3|]; [cbn [obind] in *|done]. rewrite Em. injection Hd as <-. apply runs_nil. }
  assert (exists a1, put_n a 0 (replicate 10 0) = Val a1 /\ length a1 = 16%nat) as (a1 & -> & L1).
  { rewrite put_n_const by (unfold zlen; rewrite ?length_replicate; lia). eexists. split; [done|].
    by rewrite length_splice by (rewrite ?length_replicate; lia). }
  cbn [obind lift bind]. change (-1 =? 0) with false. cbn match. cbn [with_addr sin6_addr sin6_family sin6_port].
  destruct (inet_pton AF_INET6 n) as [v|] eqn:E6.
  { destruct (proj2 (pton n v Hn) E6) as [Lv _]. rewrite put16 by done. injection Hd as <-. apply runs_nil. }
  cbn [lift bind]. change (-1 =? 0) with false. cbn match. apply runs_resolve.
  pose proof (env_ok n fam) as Hr. destruct (on_resolve env n fam) as [[f v]|]; [|done].
  destruct Hr as (_ & H4 & H6). cbn [bind]. destruct (Z.eqb_spec f AF_INET) as [->|_].
  { rewrite map_v4_ok by auto. injection Hd as <-. apply runs_nil. }
  destruct (Z.eqb_spec f AF_INET6) as [->|_]; [|done]. rewrite put16 by auto. injection Hd as <-. apply runs_nil.
Qed.

Lemma into_runs e a fam q r :
  endpoint_ok e -> sockaddr_ok a -> denote inet_pton env fam e = Some r ->
  runs sfd env (hev_socks5_addr_into_sockaddr6 inet_pton (encode e) a fam) q (Ret (0, r.1, r.2)) q [].
Proof.
  intros He (La & Ba & _) Hd. rewrite <- (app_nil_r (encode e)). destruct e as [v p|v p|n p].
  - rewrite into_ipv4_ok by done. injection Hd as <-. apply runs_nil.
  - rewrite into_ipv6_ok by done. injection Hd as <-. apply runs_nil.
  - rewrite into_name_ok by done. destruct He as (_ & Hn & Hp). by apply name_into_runs.
Qed.

Context (self : SocksServer.HevSocks5Server) (self_fd : fd (SocksServer.base self) = sfd).

Lemma server_read_method q :
  runs sfd env (SocksServer.hev_socks5_server_read_auth_method self)
    ([5; 1; SocksServer.auth_method self] ++ q) (Ret (SocksServer.auth_method self)) q [].
Proof.
  unfold SocksServer.hev_socks5_server_read_auth_method. rewrite self_fd. cbn [recv bind].
  change ([5; 1; SocksServer.auth_method self] ++ q) with ([5; 1] ++ [SocksServer.auth_method self] ++ q).
  apply runs_recv; [done|]. cbn. apply (runs_recv sfd env 1 _ [SocksServer.auth_method self]); [done|].
  fold (SocksServer.auth_method self). cbn. rewrite !Z.eqb_refl. apply runs_nil.
Qed.

Lemma server_write_method m q : is_u8 m ->
  runs sfd env (SocksServer.hev_socks5_server_write_auth_method self m) q (Ret 0) q [5; m].
Proof.
  intros Hm. unfold SocksServer.hev_socks5_server_write_auth_method. rewrite self_fd, u8_id by done. cbn [send bind].
  eapply runs_out; [apply runs_send; apply runs_nil|done].
Qed.

Lemma server_write_user q :
  runs sfd env (SocksServer.hev_socks5_server_write_auth_user self 0) q (Ret 0) q [1; 0].
Proof.
  unfold SocksServer.hev_socks5_server_write_auth_user. rewrite self_fd. cbn [send bind].
  eapply runs_out; [apply runs_send; apply runs_nil|done].
Qed.

Lemma server_read_user fuel st m u p q :
  SocksServer.store_ok fuel st m -> SocksServer.obj self = SocksServer.AuthObj ->
  SocksServer.credentials st m u p -> 1 <= zlen u -> 1 <= zlen p ->
  exists x st', m !! u = Some x /\
  runs sfd env (SocksServer.hev_socks5_server_read_auth_user fuel self st) (SocksServer.login u p ++ q)
    (Ret (0, SocksServer.set_obj self (SocksServer.UserObj x), st')) q [].
Proof.
  intros Hst Ho (v & x & Hm & Hx & Ep) Hu Hp. unfold SocksServer.hev_socks5_server_read_auth_user.
  destruct (Authenticator.auth_get_ok fuel (SocksServer.auth st) m u (SocksServer.so_rep _ _ _ Hst) (SocksServer.so_size _ _ _ Hst))
    as [Eg Hg]. rewrite Hm in Eg, Hg. cbn in Eg. destruct Hg as (Hv & x1 & Hx1 & En).
  assert (x1 = x) as -> by congruence.
  assert (m !! Authenticator.name x = Some v) as Hmx by (by rewrite En).
  destruct (SocksServer.take_user_ok fuel st m v x Hst Hmx Hx) as (a & st' & x' & Ea & Eu & _).
  exists v, st'. split; [done|]. rewrite self_fd. cbn [recv bind].
  replace (SocksServer.login u p ++ q) with ([1; zlen u] ++ (u ++ [zlen p]) ++ p ++ q)
    by (unfold SocksServer.login; cbn; by list_norm).
  apply runs_recv; [done|]. change (rret (full [1; zlen u]) =? 2) with true. cbn [negb full rdata].
  change (rd [1; zlen u] 0) with (Val 1). change (rd [1; zlen u] 1) with (Val (zlen u)). cbn [lift bind].
  change (1 =? 1) with true. cbn [negb]. rewrite (proj2 (Z.eqb_neq (zlen u) 0)) by lia. cbn [recv bind].
  apply runs_recv; [by rewrite zlen_app|]. change (rret (full (u ++ [zlen p]))) with (zlen (u ++ [zlen p])).
  rewrite zlen_app. change (zlen [zlen p]) with 1. rewrite Z.eqb_refl. cbn [negb full rdata].
  rewrite (rd_app_r _ _ _ 0), rd_head by lia. cbn [lift bind]. rewrite (proj2 (Z.eqb_neq (zlen p) 0)) by lia.
  cbn [recv bind]. apply runs_recv; [done|]. change (rret (full p)) with (zlen p). rewrite Z.eqb_refl, Ho. cbn [negb full rdata].
  assert (take (Z.to_nat (zlen u)) (u ++ [zlen p]) = u) as Et by (unfold zlen; rewrite Nat2Z.id; apply take_app_length).
  rewrite Et, Eg. cbn [lift bind]. rewrite (proj2 (Z.eqb_neq _ _) Hv), Hx. cbn [of_option lift bind].
  assert (Authenticator.hev_socks5_user_checker x p = 0) as ->.
  { apply Authenticator.user_checker_spec. done. }
  change (0 <? 0) with false. cbn match. rewrite Ea. cbn [lift bind]. rewrite Eu. apply runs_nil.
Qed.

End server.

(** The first byte and the rest of an encoded endpoint, as the server reads them. *)
Lemma encode_split e : endpoint_ok e ->
  exists atype first rest, encode e = atype :: first :: rest /\ zlen rest = rest_len atype first /\
    rest_len atype first <> -1.
Proof.
  destruct e as [a p|a p|n p]; cbn [endpoint_ok encode]; intros (Hl & _).
  - explode. by eexists _, _, _.
  - explode. by eexists _, _, _.
  - exists 3, (zlen n), (n ++ le16 p). split; [done|]. pose proof (zlen_nonneg n).
    change (rest_len 3 (zlen n)) with (2 + zlen n). rewrite zlen_app. change (zlen (le16 p)) with 2. lia.
Qed.

(** The server's own calls succeed; the upstream socket gets descriptor [ufd]. *)
Definition upstream_ok (env : local_env) (ufd : Z) (dest : sockaddr_in6) : Prop :=
  0 <= ufd /\ on_call env (CSocket SOCK_STREAM) = ufd /\
  0 <= on_call env (CSetsockopt ufd IPPROTO_IPV6 IPV6_V6ONLY 0) /\
  0 <= on_call env (CConnect ufd dest).

Section serve.
Context (sfd : Z) (env : local_env) (env_ok : resolver_ok env).
Context (inet_pton : Z -> bytes -> option bytes) (pton : pton_ok inet_pton).
Context (cmd0 : Z) (addr0 : sockaddr_in6) (addr0_ok : sockaddr_ok addr0).
Context (junk : HevSocks5Addr) (junk_len : zlen junk = sizeof_addr).
Context (misc : HevSocks5Misc).
Context (self : SocksServer.HevSocks5Server) (self_fd : fd (SocksServer.base self) = sfd).

Lemma server_read_request cmd e q r :
  endpoint_ok e -> denote inet_pton env (addr_family (SocksServer.base self)) e = Some r ->
  runs sfd env (SocksServer.hev_socks5_server_read_request inet_pton cmd0 addr0 self) (([5; cmd; 0] ++ encode e) ++ q)
    (Ret (0, cmd, 0, r.1, SocksServer.with_base self (hev_socks5_set_addr_family (SocksServer.base self) r.2))) q [].
Proof.
  intros He Hd. unfold SocksServer.hev_socks5_server_read_request.
  destruct (encode_split e He) as (atype & first & rest & Ee & Hl & Hn).
  rewrite self_fd. cbn [recv bind]. rewrite Ee.
  change (([5; cmd; 0] ++ atype :: first :: rest) ++ q) with ([5; cmd; 0; atype; first] ++ rest ++ q).
  apply runs_recv; [done|]. change (rret (full [5; cmd; 0; atype; first]) =? 5) with true. cbn [negb full rdata].
  change (rd [5; cmd; 0; atype; first] 0) with (Val 5). change (rd [5; cmd; 0; atype; first] 1) with (Val cmd).
  change (rd [5; cmd; 0; atype; first] 3) with (Val atype). change (rd [5; cmd; 0; atype; first] 4) with (Val first).
  cbn [lift bind]. change (5 =? HEV_SOCKS5_VERSION_5) with true. cbn [negb]. fold (rest_len atype first).
  rewrite (proj2 (Z.eqb_neq _ _) Hn). cbn [recv bind]. apply runs_recv; [done|].
  change (rret (full rest)) with (zlen rest). rewrite Hl, Z.eqb_refl. cbn [negb full rdata]. rewrite <- Ee.
  eapply runs_out; [eapply runs_seq; [by apply into_runs|apply runs_nil]|done].
Qed.

Lemma server_connect_runs ufd dest q :
  upstream_ok env ufd dest ->
  runs sfd env (SocksServer.server_command misc self HEV_SOCKS5_REQ_CMD_CONNECT dest) q
    (Ret (0, dest, SocksServer.mkServer
       (set_type (hev_socks5_set_timeout (SocksServer.base self) (tcp_timeout misc)) HEV_SOCKS5_TYPE_TCP)
       ufd (SocksServer.fds1 self) (SocksServer.obj self))) q [].
Proof.
  intros (Hu & Es & Ho & Hc). unfold SocksServer.server_command, SocksServer.hev_socks5_server_connect,
    hev_socks5_socket, hev_socks5_bind. change (HEV_SOCKS5_REQ_CMD_CONNECT =? HEV_SOCKS5_REQ_CMD_CONNECT) with true.
  cbn match. cbn [syscall bind]. apply runs_call. rewrite Es, (proj2 (Z.ltb_ge _ _)) by done. cbn [syscall bind].
  apply runs_call. rewrite (proj2 (Z.ltb_ge _ _)) by done. cbn [syscall bind]. apply runs_call.
  change (SOCK_STREAM =? SOCK_DGRAM) with false. cbn match.
  destruct (on_call env (CAddFd ufd) <? 0); cbn [bind syscall]; [apply runs_call|];
    rewrite (proj2 (Z.ltb_ge _ _)) by done; cbn [bind]; change (0 <? 0) with false; cbn match; cbn [bind syscall];
    apply runs_call; rewrite (proj2 (Z.ltb_ge _ _)) by done; apply runs_nil.
Qed.

Lemma server_response dest q : sockaddr_ok dest ->
  runs sfd env (SocksServer.hev_socks5_server_write_response junk self 0 dest) q (Ret 0) q
    ([5; 0; 0] ++ encode (endpoint_of dest)).
Proof.
  intros Hd. unfold SocksServer.hev_socks5_server_write_response.
  destruct (from_sockaddr6_ok junk dest) as (tl & -> & _); [rewrite junk_len; unfold sizeof_addr; lia|done|].
  cbn [lift bind]. pose proof (get_n_app [] (encode (endpoint_of dest)) tl 0 _ eq_refl eq_refl) as Eg.
  cbn [app] in Eg. rewrite Eg, self_fd. cbn [lift bind send].
  eapply runs_out; [apply runs_send|apply app_nil_r]. rewrite (proj2 (Z.leb_gt _ _)); [apply runs_nil|].
  cbn [app]. rewrite !zlen_cons. pose proof (zlen_nonneg (encode (endpoint_of dest))). lia.
Qed.

End serve.

(** ** Both sides *)

Lemma denote_ok inet_pton env fam e r :
  pton_ok inet_pton -> resolver_ok env -> endpoint_ok e -> denote inet_pton env fam e = Some r -> sockaddr_ok r.1.
Proof.
  intros Hpt Hr He. destruct e as [a p|a p|n p]; cbn [denote endpoint_ok] in *; destruct He as (La & Ba & Hp).
  - intros [= <-]. split_and!; cbn; auto using length_v4mapped, is_bytes_v4mapped.
  - intros [= <-]. by split_and!.
  - apply until_nul_bytes in Ba. destruct (inet_pton AF_INET _) as [v|] eqn:E4.
    { apply (Hpt _ v Ba) in E4 as [Lv Bv]. intros [= <-]. split_and!; cbn; auto using length_v4mapped, is_bytes_v4mapped. }
    destruct (inet_pton AF_INET6 _) as [v|] eqn:E6.
    { apply (Hpt _ v Ba) in E6 as [Lv Bv]. intros [= <-]. by split_and!. }
    pose proof (Hr (until_nul n) fam) as Hv. destruct (on_resolve env _ fam) as [[f v]|]; [|done].
    destruct Hv as (Bv & L4 & L6). destruct (Z.eqb_spec f AF_INET) as [->|_].
    { intros [= <-]. split_and!; cbn; auto using length_v4mapped, is_bytes_v4mapped. }
    destruct (Z.eqb_spec f AF_INET6) as [->|_]; [|done]. intros [= <-]. split_and!; cbn; auto.
Qed.

(** The messages of the two orders. *)
Definition login_acts (auth : option (bytes * bytes)) (f g : bytes -> act) : list act :=
  match auth with
  | None => []
  | Some (u, p) => [f (SocksServer.login u p); g [1; 0]]
  end.

Definition method_of (auth : option (bytes * bytes)) : Z :=
  match auth with None => HEV_SOCKS5_AUTH_METHOD_NONE | Some _ => HEV_SOCKS5_AUTH_METHOD_USER end.

Definition server_acts (auth : option (bytes * bytes)) (req resp : bytes) : list act :=
  [In [5; 1; method_of auth]; Out [5; method_of auth]] ++ login_acts auth In Out ++ [In req; Out resp].

Definition client_acts (pipeline : bool) (auth : option (bytes * bytes)) (req resp : bytes) : list act :=
  if pipeline then
    [Out [5; 1; method_of auth]] ++ match auth with None => [] | Some (u, p) => [Out (SocksServer.login u p)] end ++
    [Out req; In [5; method_of auth]] ++ match auth with None => [] | Some _ => [In [1; 0]] end ++ [In resp]
  else
    [Out [5; 1; method_of auth]; In [5; method_of auth]] ++ login_acts auth Out In ++ [Out req; In resp].

Lemma acts_join pipeline auth req resp :
  joins (client_acts pipeline auth req resp) (server_acts auth req resp) [] [].
Proof.
  unfold client_acts, server_acts, login_acts.
  destruct pipeline, auth as [[u p]|]; cbn [app];
    repeat (cbn [app]; rewrite <- ?app_assoc; first
      [ apply joins_nil
      | eapply joins_sv_in; [first [reflexivity | symmetry; apply app_nil_r]|]
      | eapply joins_cl_in; [first [reflexivity | symmetry; apply app_nil_r]|]
      | apply joins_sv_out
      | apply joins_cl_out ]).
Qed.

Section both.
Context (cfd sfd ufd : Z) (cenv senv : local_env) (senv_ok : resolver_ok senv).
Context (inet_pton : Z -> bytes -> option bytes) (pton : pton_ok inet_pton).
Context (cmd0 : Z) (addr0 : sockaddr_in6) (addr0_ok : sockaddr_ok addr0).
Context (cjunk sjunk : HevSocks5Addr) (cjunk_len : zlen cjunk = sizeof_addr) (sjunk_len : zlen sjunk = sizeof_addr).
Context (cmisc smisc : HevSocks5Misc) (fuel : nat).

(** Client and server agree on the authentication. *)
Definition agree (auth : option (bytes * bytes)) (server : SocksServer.HevSocks5Server)
    (st : SocksServer.auth_store) (m : gmap bytes Z) : Prop :=
  match auth with
  | None => SocksServer.obj server = SocksServer.NoObj
  | Some (u, p) => SocksServer.obj server = SocksServer.AuthObj /\ SocksServer.store_ok fuel st m /\
      SocksServer.credentials st m u p /\ 1 <= zlen u <= 255 /\ 1 <= zlen p <= 255
  end.

(** The server's object afterwards. *)
Definition served_as (auth : option (bytes * bytes)) (m : gmap bytes Z) (o : SocksServer.server_obj) : Prop :=
  match auth with
  | None => o = SocksServer.NoObj
  | Some (u, _) => exists x, m !! u = Some x /\ o = SocksServer.UserObj x
  end.

Lemma server_auth_follows auth (self : SocksServer.HevSocks5Server) st m :
  fd (SocksServer.base self) = sfd -> agree auth self st m ->
  exists o st', served_as auth m o /\
    follows sfd senv (SocksServer.hev_socks5_server_auth fuel self st)
      ([In [5; 1; method_of auth]; Out [5; method_of auth]] ++ login_acts auth In Out)
      (Ret (0, SocksServer.set_obj self o, st')).
Proof.
  intros Hfd Ha.
  assert (method_of auth = SocksServer.auth_method self) as ->.
  { unfold SocksServer.auth_method. destruct auth as [[u p]|]; [destruct Ha as [-> _]|rewrite Ha]; done. }
  assert (forall p', follows sfd senv
    (let method := SocksServer.auth_method self in
     if method =? HEV_SOCKS5_AUTH_METHOD_NONE then Ret (0, self, st)
     else if method =? HEV_SOCKS5_AUTH_METHOD_USER then
       pdo (res, self, st) := SocksServer.hev_socks5_server_read_auth_user fuel self st in
       pdo res2 := SocksServer.hev_socks5_server_write_auth_user self res in
       if Z.lor res res2 <? 0 then Ret (-1, self, st) else Ret (0, self, st)
     else Ret (-1, self, st)) (login_acts auth In Out) p' ->
    follows sfd senv (SocksServer.hev_socks5_server_auth fuel self st)
      ([In [5; 1; SocksServer.auth_method self]; Out [5; SocksServer.auth_method self]] ++ login_acts auth In Out) p')
    as Hhead.
  { intros p' Hp. unfold SocksServer.hev_socks5_server_auth. eapply (follows_seq _ _ _ _ _ [In _]).
    { apply follows_reads. by apply server_read_method. }
    eapply (follows_seq _ _ _ _ _ [Out _]).
    { apply follows_sends. apply server_write_method; [done|]. unfold SocksServer.auth_method, is_u8.
      destruct (SocksServer.obj self); vm_compute; split; congruence. }
    exact Hp. }
  destruct auth as [[u p]|].
  - destruct Ha as (Ho & Hst & Hc & Hu & Hp).
    destruct (server_read_user sfd senv self Hfd fuel st m u p [] Hst Ho Hc) as (x & st' & Hx & Hr); [lia..|].
    exists (SocksServer.UserObj x), st'. split; [by exists x|]. apply Hhead. cbv zeta.
    unfold SocksServer.auth_method. rewrite Ho.
    change (HEV_SOCKS5_AUTH_METHOD_USER =? HEV_SOCKS5_AUTH_METHOD_NONE) with false.
    change (HEV_SOCKS5_AUTH_METHOD_USER =? HEV_SOCKS5_AUTH_METHOD_USER) with true. cbn match.
    eapply (follows_seq _ _ _ _ _ [In _]); [by apply follows_reads|]. cbn match.
    eapply (follows_seq _ _ _ _ _ [Out _] []); [apply follows_sends; by apply server_write_user|]. apply follows_nil.
  - exists SocksServer.NoObj, st. split; [done|]. apply Hhead. cbn in Ha. unfold SocksServer.auth_method. rewrite Ha.
    destruct self; cbn in *; subst. apply follows_nil.
Qed.

Lemma server_follows auth self st m e r :
  fd (SocksServer.base self) = sfd -> agree auth self st m -> endpoint_ok e ->
  denote inet_pton senv (addr_family (SocksServer.base self)) e = Some r -> upstream_ok senv ufd r.1 ->
  exists self' st',
    follows sfd senv (SocksServer.hev_socks5_server_handshake fuel inet_pton cmd0 addr0 sjunk smisc self st)
      (server_acts auth ([5; 1; 0] ++ encode e) ([5; 0; 0] ++ encode (endpoint_of r.1))) (Ret (0, self', st')) /\
    served_as auth m (SocksServer.obj self') /\ SocksServer.fds0 self' = ufd /\
    type (SocksServer.base self') = HEV_SOCKS5_TYPE_TCP.
Proof.
  intros Hfd Ha He Hd Hu. rewrite SocksServer.handshake_split.
  set (self0 := SocksServer.with_base self (hev_socks5_set_timeout (SocksServer.base self) (tcp_timeout smisc))).
  destruct (server_auth_follows auth self0 st m) as (o & st' & Ho & Hf); [done|by destruct auth as [[? ?]|]|].
  eexists _, st'. split.
  - unfold server_acts. rewrite app_assoc. eapply follows_seq; [exact Hf|]. change (0 <? 0) with false. cbn match.
    unfold SocksServer.serve. eapply (follows_seq _ _ _ _ _ [In _]).
    { apply follows_reads. by apply server_read_request. }
    change (0 <? 0) with false. change (0 =? HEV_SOCKS5_RES_REP_SUCC) with true. cbn match.
    eapply (follows_out _ _ _ _ _ _ []); [|apply follows_nil].
    eapply (runs_seq _ _ _ _ _ _ _ []); [by apply server_connect_runs|].
    eapply runs_out; [eapply runs_seq; [apply server_response; [done|done|by eapply denote_ok]|apply runs_nil]|apply app_nil_r].
  - done.
Qed.

(** Follow a program along known parts; [nested] opens a part that is itself composed. *)
Ltac play nested :=
  repeat first
    [ apply follows_nil
    | progress cbn [Z.ltb Z.compare Z.eqb Pos.eqb method_of HEV_SOCKS5_AUTH_METHOD_USER HEV_SOCKS5_AUTH_METHOD_NONE negb bind]
    | eapply (follows_seq _ _ _ _ _ [_]); [eassumption|]
    | eapply (follows_seq _ _ _ _ _ []); [eassumption|]
    | nested ].

Lemma client_follows pipeline (self : SocksClient.HevSocks5ClientTCP) e sa :
  SocksClient.sock self = cfd -> SocksClient.tcp_addr self = Some (encode e) ->
  type (SocksClient.base (SocksClient.client self)) = HEV_SOCKS5_TYPE_TCP ->
  endpoint_ok e -> sockaddr_ok sa ->
  match SocksClient.has_auth self with None => True | Some (u, p) => zlen u <= 255 /\ zlen p <= 255 end ->
  exists self', follows cfd cenv (SocksClient.hev_socks5_client_handshake cjunk cmisc self pipeline)
    (client_acts pipeline (SocksClient.has_auth self) ([5; 1; 0] ++ encode e) ([5; 0; 0] ++ encode (endpoint_of sa)))
    (Ret (0, self')).
Proof.
  intros Hfd Had Ht He Hsa Hl. unfold SocksClient.hev_socks5_client_handshake.
  set (self1 := SocksClient.on_base (fun b => hev_socks5_set_timeout b (tcp_timeout cmisc)) self).
  assert (SocksClient.sock self1 = cfd) as F1 by done.
  change (SocksClient.has_auth self) with (SocksClient.has_auth self1) in *.
  set (self2 := SocksClient.mkClientTCP (SocksClient.tcp_base self1) None). exists self2.
  rewrite <- (app_nil_r (client_acts _ _ _ _)). eapply (follows_seq _ _ _ _ (0, self2));
    [|cbn match; change (SocksClient.client self2) with (SocksClient.client self1); cbn in Ht |- *; rewrite Ht; apply follows_nil].
  assert (follows cfd cenv (SocksClient.hev_socks5_client_write_auth_methods self1)
    [Out [5; 1; method_of (SocksClient.has_auth self1)]] (Ret 0)) as Hm.
  { apply follows_sends. apply (client_methods cfd cenv self1 F1). }
  assert (follows cfd cenv (SocksClient.hev_socks5_client_read_auth_method self1)
    [In [5; method_of (SocksClient.has_auth self1)]] (Ret (method_of (SocksClient.has_auth self1)))) as Hrm.
  { apply follows_reads. by apply client_read_method. }
  assert (follows cfd cenv (SocksClient.hev_socks5_client_read_auth_creds self1) [In [1; 0]] (Ret 0)) as Hrc.
  { apply follows_reads. by apply client_read_creds. }
  assert (follows cfd cenv (SocksClient.hev_socks5_client_write_request self1)
    [Out ([5; 1; 0] ++ encode e)] (Ret (0, self2))) as Hreq.
  { apply follows_sends. by apply client_request. }
  assert (follows cfd cenv (SocksClient.hev_socks5_client_read_response cjunk self2)
    [In ([5; 0; 0] ++ encode (endpoint_of sa))] (Ret (0, self2))) as Hresp.
  { apply follows_reads. by apply client_response. }
  assert (forall u p, SocksClient.has_auth self1 = Some (u, p) ->
    follows cfd cenv (SocksClient.hev_socks5_client_write_auth_creds self1) [Out (SocksServer.login u p)] (Ret 0)) as Hwc.
  { intros u p E. rewrite E in Hl. destruct Hl. apply follows_sends. by apply client_creds. }
  clear - Hm Hrm Hrc Hreq Hresp Hwc. unfold SocksClient.hev_socks5_client_handshake_pipeline,
    SocksClient.hev_socks5_client_handshake_standard.
  destruct pipeline; unfold client_acts, login_acts;
    (destruct (SocksClient.has_auth self1) as [[u p]|] eqn:E;
     [specialize (Hwc u p eq_refl)
     |assert (follows cfd cenv (SocksClient.hev_socks5_client_write_auth_creds self1) [] (Ret 0)) as Hn
        by (unfold SocksClient.hev_socks5_client_write_auth_creds; rewrite E; apply follows_nil)]);
    cbn [app].
  1,2: play ltac:(eapply (follows_seq _ _ _ _ 0 [_])).
  all: play ltac:(eapply (follows_seq _ _ _ _ 0 [_; _])).
Qed.

End both.


(** User "a" connects to 10.0.0.1:80 through the example server. *)
Definition example_env : local_env := mkEnv (fun c => match c with CSocket _ => 9 | _ => 0 end) (fun _ _ => None) (fun _ => None).

Definition example_client : SocksClient.HevSocks5ClientTCP :=
  SocksClient.hev_socks5_client_set_auth
    (SocksClient.mkClientTCP
       (SocksClient.with_base (SocksClient.hev_socks5_client_construct HEV_SOCKS5_TYPE_TCP)
          (set_fd (hev_socks5_construct HEV_SOCKS5_TYPE_TCP) 4))
       (Some (encode (EIPv4 [10; 0; 0; 1] 20480)))) (Some [97]) (Some [98]).


End SocksHandshake.
