(* ===== verification/SocksUDP.v ===== *)
(** * UDP over SOCKS5 (src/core/src/hev-socks5-udp.c)

    Datagrams with their addresses, framed in the control connection (UDP in TCP) or
    prefixed by a header in datagrams of their own (UDP in UDP), and the relay that
    forwards them in both directions. *)

From Stdlib Require Import ZArith Lia.
From stdpp Require Import base list gmap numbers.
From S2P Require Import Prelude CBytes SocketIO SocksMisc Socks5 SocksServer SocksClient.
Import list_basics.list list_relations.list list_monad.list list_misc.list.
Import SocketIO SocksMisc Socks5.

Module SocksUDP.

(** ** Messages and interface *)

(** A pointer to an address: never assigned, null, or to the memory given. *)
Inductive addr_ptr :=
| Unset
| Null
| At (a : HevSocks5Addr).

Definition deref (p : addr_ptr) : outcome HevSocks5Addr :=
  match p with
  | At a => Val a
  | _ => Fault
  end.

(** [msg_buf] is the memory from the pointer to the end of its block. *)
Record HevSocks5UDPMsg := mkMsg {
  msg_addr : addr_ptr;
  msg_buf : bytes;
  msg_len : Z;
}.

(** [HevSocks5UDPIface] with the parts of the object that the code here uses. *)
Class HevSocks5UDPIface (Obj : Type) := {
  udp_self : Obj -> HevSocks5;
  set_udp_self : Obj -> HevSocks5 -> Obj;
  get_fd : Obj -> Z;
  udp_binder : Obj -> Z -> sockaddr_in6 -> proc Z;
}.

Definition hev_socks5_server_get_fd (self : SocksServer.HevSocks5Server) : Z :=
  match type (SocksServer.base self) with
  | HEV_SOCKS5_TYPE_UDP_IN_TCP => fd (SocksServer.base self)
  | HEV_SOCKS5_TYPE_UDP_IN_UDP => SocksServer.fds1 self
  | _ => -1
  end.

#[global] Instance server_udp_iface : HevSocks5UDPIface SocksServer.HevSocks5Server := {
  udp_self := SocksServer.base;
  set_udp_self := SocksServer.with_base;
  get_fd := hev_socks5_server_get_fd;
  udp_binder _ := hev_socks5_bind;
}.

#[global] Instance client_udp_iface : HevSocks5UDPIface SocksClient.HevSocks5ClientUDP := {
  udp_self s := SocksClient.base (SocksClient.udp_base s);
  set_udp_self s b := SocksClient.udp_on_base (fun _ => b) s;
  get_fd := SocksClient.hev_socks5_client_udp_get_fd;
  udp_binder _ := hev_socks5_bind;
}.

(** [hev_socks5_task_io_yielder] with its sleep. *)
Definition yielder_sleep (ty : HevTaskYieldType) (self : HevSocks5) : proc Z :=
  match ty with
  | HEV_TASK_YIELD => Ret (hev_socks5_task_io_yielder ty (timeout self) 0)
  | HEV_TASK_WAITIO =>
      if timeout self <? 0 then Ret (hev_socks5_task_io_yielder ty (timeout self) 0)
      else
        pdo remaining := syscall (CSleep (timeout self)) in
        Ret (hev_socks5_task_io_yielder ty (timeout self) remaining)
  end.

Section udp.
Context {Obj : Type} `{HevSocks5UDPIface Obj}.

(** In UDP mode the control connection is probed: its end is the end of the relay. *)
Definition task_io_yielder (ty : HevTaskYieldType) (self : Obj) : proc (Z * Obj) :=
  let s5 := udp_self self in
  if bool_decide (type s5 = HEV_SOCKS5_TYPE_UDP_IN_UDP) then
    pdo a := recv (fd s5) 1 DontWait in
    if (rret a =? 0) || ((rret a <? 0) && negb (ragain a)) then
      Ret (-1, set_udp_self self (hev_socks5_set_timeout s5 0))
    else
      pdo res := yielder_sleep ty s5 in
      Ret (res, self)
  else
    pdo res := yielder_sleep ty s5 in
    Ret (res, self).

(** ** Sending *)

(** The three segments of one message with header bytes [hdr]; [None] is the early
    return of a bad address. *)
Definition message_iov (hdr : Z -> bytes) (m : HevSocks5UDPMsg) : outcome (option bytes) :=
  let! a := deref (msg_addr m) in
  let! addrlen := hev_socks5_addr_len a in
  if addrlen <=? 0 then Val None
  else
    let! bs := get_n a 0 addrlen in
    let! data := get_n (msg_buf m) 0 (msg_len m) in
    Val (Some (hdr addrlen ++ bs ++ data)).

Fixpoint messages_iov (hdr : HevSocks5UDPMsg -> Z -> bytes) (msgv : list HevSocks5UDPMsg)
  : outcome (option (list bytes)) :=
  match msgv with
  | [] => Val (Some [])
  | m :: msgv =>
      let! o := message_iov (hdr m) m in
      match o with
      | None => Val None
      | Some x =>
          let! o := messages_iov hdr msgv in
          Val (option_map (cons x) o)
      end
  end.

(** [datlen] in network order and [hdrlen], both cut to their fields. *)
Definition tcp_hdr (m : HevSocks5UDPMsg) (addrlen : Z) : bytes :=
  le16 (swap16 (u16 (msg_len m))) ++ [u8 (3 + addrlen)].

Definition hev_socks5_udp_sendmmsg_tcp (self : Obj) (msgv : list HevSocks5UDPMsg) : proc Z :=
  pdo iov := lift (messages_iov tcp_hdr msgv) in
  match iov with
  | None => Ret (-1)
  | Some iov =>
      pdo (res, _) := send (get_fd self) (concat iov) in
      if res <=? 0 then Ret (-1) else Ret (zlen msgv)
  end.

Definition hev_socks5_udp_sendmmsg_udp (self : Obj) (msgv : list HevSocks5UDPMsg) : proc Z :=
  pdo iov := lift (messages_iov (fun _ _ => [0; 0; 0]) msgv) in
  match iov with
  | None => Ret (-1)
  | Some iov => SendMM (get_fd self) (map (fun x => (None, x)) iov) (fun '(res, _) => Ret res)
  end.

Definition hev_socks5_udp_sendmmsg (self : Obj) (msgv : list HevSocks5UDPMsg) : proc Z :=
  match type (udp_self self) with
  | HEV_SOCKS5_TYPE_UDP_IN_TCP => hev_socks5_udp_sendmmsg_tcp self msgv
  | HEV_SOCKS5_TYPE_UDP_IN_UDP => hev_socks5_udp_sendmmsg_udp self msgv
  | _ => Ret (-1)
  end.

(** ** Receiving from the control connection *)

Definition recv_flag (nonblock : bool) : wait := if nonblock then DontWait else WaitSome.

(** One round of the loop: a message, an incomplete header, or an error; the last two
    with the result of the calls. *)
Inductive round :=
| Got (m : HevSocks5UDPMsg)
| Short (res : Z)
| Failed (res : Z) (m : HevSocks5UDPMsg).

(** What a scattered read of [n] and then the rest leaves in the buffer. *)
Definition scatter (b : bytes) (off n : Z) (data : bytes) : outcome bytes :=
  let! b := put_n b off (take (Z.to_nat n) data) in
  put_n b (off + n) (drop (Z.to_nat n) data).

Definition recv_tcp_round (fd : Z) (nonblock : bool) (m : HevSocks5UDPMsg) : proc round :=
  pdo a := recv fd 5 (recv_flag nonblock) in
  pdo (res, udp) :=
    (if (0 <? rret a) && (rret a <? 5) then
       pdo b := recv fd (5 - rret a) WaitAll in
       Ret (rret a + rret b, rdata a ++ rdata b)
     else Ret (rret a, rdata a)) in
  if negb (res =? 5) then Ret (Short res)
  else
    pdo datlen := lift (ld16 udp 0) in
    pdo hdrlen := lift (rd udp 2) in
    pdo atype := lift (rd udp 3) in
    pdo dlen := lift (rd udp 4) in
    if hdrlen <? 5 then Ret (Failed (-1) m)
    else
      let addrlen := hdrlen - 3 in
      let datlen := swap16 datlen in
      if u64 (msg_len m - addrlen) <? datlen then Ret (Failed (-1) m)
      else
        pdo c := recv fd (addrlen - 2 + datlen) WaitAll in
        pdo buf := lift (scatter (msg_buf m) 2 (addrlen - 2) (rdata c)) in
        if negb (rret c =? addrlen - 2 + datlen) then Ret (Failed (rret c) (mkMsg (msg_addr m) buf (msg_len m)))
        else
          pdo buf := lift (wr buf 0 atype) in
          pdo buf := lift (wr buf 1 dlen) in
          Ret (Got (mkMsg (At buf) (drop (Z.to_nat addrlen) buf) datlen)).

Fixpoint recv_tcp_loop (fd : Z) (nonblock : bool) (rlen : Z) (msgv : list HevSocks5UDPMsg)
  : proc (Z * list HevSocks5UDPMsg) :=
  match msgv with
  | [] => Ret (rlen, [])
  | m :: msgv =>
      pdo r := recv_tcp_round fd nonblock m in
      match r with
      | Short res => Ret (if 0 <? rlen then rlen else res, m :: msgv)
      | Failed res m => Ret (res, m :: msgv)
      | Got m =>
          pdo (res, msgv) := recv_tcp_loop fd nonblock (rlen + 1) msgv in
          Ret (res, m :: msgv)
      end
  end.

Definition hev_socks5_udp_recvmmsg_tcp (self : Obj) (msgv : list HevSocks5UDPMsg) (nonblock : bool)
  : proc (Z * list HevSocks5UDPMsg) :=
  recv_tcp_loop (get_fd self) nonblock 0 msgv.

(** ** Receiving datagrams *)

(** The messages from the datagrams; [false] is the early return of a bad one. *)
Fixpoint recv_udp_loop (msgv : list HevSocks5UDPMsg) (data : list dgram)
  : outcome (bool * list HevSocks5UDPMsg) :=
  match data, msgv with
  | [], _ => Val (true, msgv)
  | d :: data, m :: msgv =>
      let! buf := put_n (msg_buf m) 0 (dg_data d) in
      let! addrlen := hev_socks5_addr_len (drop 3 buf) in
      let len := zlen (dg_data d) in
      if len <? 4 then
        let! (ok, msgv) := recv_udp_loop msgv data in
        Val (ok, mkMsg Null buf 0 :: msgv)
      else if addrlen <=? 0 then Val (false, mkMsg (msg_addr m) buf len :: msgv)
      else
        let doff := 3 + addrlen in
        if len <? doff then Val (false, mkMsg (msg_addr m) buf len :: msgv)
        else
          let! (ok, msgv) := recv_udp_loop msgv data in
          Val (ok, mkMsg (At (drop 3 buf)) (drop (Z.to_nat doff) buf) (len - doff) :: msgv)
  | _, [] => Fault
  end.

Definition hev_socks5_udp_recvmmsg_udp (self : Obj) (msgv : list HevSocks5UDPMsg) (nonblock : bool)
  : proc (Z * list HevSocks5UDPMsg * Obj) :=
  RecvMM (get_fd self) (map msg_len msgv) (recv_flag nonblock) (fun a =>
    if mret a <=? 0 then Ret (mret a, msgv, self)
    else
      pdo (ok, self) :=
        (if udp_associated (udp_self self) =? 0 then
           pdo d := lift (of_option (mdata a !! 0%nat)) in
           pdo res := syscall (CConnect (get_fd self) (dg_from d)) in
           if res <? 0 then Ret (false, self)
           else Ret (true, set_udp_self self (set_udp_associated (udp_self self) 1))
         else Ret (true, self)) in
      if negb ok then Ret (-1, msgv, self)
      else
        pdo (ok, msgv) := lift (recv_udp_loop msgv (mdata a)) in
        Ret (if ok : bool then mret a else -1, msgv, self)).

Definition hev_socks5_udp_recvmmsg (self : Obj) (msgv : list HevSocks5UDPMsg) (nonblock : bool)
  : proc (Z * list HevSocks5UDPMsg * Obj) :=
  match type (udp_self self) with
  | HEV_SOCKS5_TYPE_UDP_IN_TCP =>
      pdo (res, msgv) := hev_socks5_udp_recvmmsg_tcp self msgv nonblock in
      Ret (res, msgv, self)
  | HEV_SOCKS5_TYPE_UDP_IN_UDP => hev_socks5_udp_recvmmsg_udp self msgv nonblock
  | _ => Ret (-1, msgv, self)
  end.

(** ** Forwarding *)

Context (inet_pton : Z -> bytes -> option bytes).

Definition UDP_BUF_SIZE : Z := 1500.

(** The destinations of the first [n] messages; [None] is the early return.  [addrs]
    is what the stack holds where the addresses go. *)
Fixpoint fwd_f_dests (self : Obj) (n : nat) (svec : list HevSocks5UDPMsg) (addrs : nat -> sockaddr_in6)
  : proc (option (list (sockaddr_in6 * bytes))) :=
  match n with
  | O => Ret (Some [])
  | S n =>
      match svec with
      | [] => Crash
      | m :: svec =>
          if msg_len m =? 0 then Ret None
          else
            match msg_addr m with
            | Null => Ret None
            | Unset => Crash
            | At a =>
                pdo (ret, sa, _) := hev_socks5_addr_into_sockaddr6 inet_pton a (addrs O) (addr_family (udp_self self)) in
                if ret <? 0 then Ret None
                else
                  pdo data := lift (get_n (msg_buf m) 0 (msg_len m)) in
                  pdo rest := fwd_f_dests self n svec (fun i => addrs (S i)) in
                  Ret (option_map (cons (sa, data)) rest)
            end
      end
  end.

(** [if (res <= 0)] at the end of both directions. *)
Definition fwd_result (res : Z) : proc Z :=
  if res <=? 0 then
    pdo again := (if res =? -1 then syscall CErrno else Ret 0) in
    Ret (if (res =? -1) && (again =? 1) then 0 else -1)
  else Ret 1.

(** [blocks] are the buffers; the result, [*bind] and the object. *)
Definition hev_socks5_udp_fwd_f (self : Obj) (fd : Z) (blocks : list bytes) (addrs : nat -> sockaddr_in6)
    (bound : bool) : proc (Z * bool * Obj) :=
  let svec := map (fun b => mkMsg Unset b UDP_BUF_SIZE) blocks in
  pdo (res, svec, self) := hev_socks5_udp_recvmmsg self svec true in
  if 0 <? res then
    pdo dvec := fwd_f_dests self (Z.to_nat res) svec addrs in
    match dvec with
    | None => Ret (-1, bound, self)
    | Some dvec =>
        pdo ok :=
          (if bound then Ret true
           else
             pdo d := lift (of_option (head dvec)) in
             pdo ret := udp_binder self fd d.1 in
             Ret (negb (ret <? 0))) in
        if negb ok then Ret (-1, bound, self)
        else
          SendMM fd (map (fun d => (Some d.1, d.2)) dvec) (fun '(res, _) =>
            pdo r := fwd_result res in
            Ret (r, true, self))
    end
  else
    pdo r := fwd_result res in
    Ret (r, bound, self).

(** The datagrams with their source addresses, encoded into 19 bytes each. *)
Fixpoint fwd_b_msgs (blocks : list bytes) (saddr : nat -> bytes) (data : list dgram)
  : outcome (list HevSocks5UDPMsg) :=
  match data, blocks with
  | [], _ => Val []
  | d :: data, b :: blocks =>
      let! b := put_n b 0 (dg_data d) in
      let! (_, a) := hev_socks5_addr_from_sockaddr6 (saddr O) (dg_from d) in
      let! ms := fwd_b_msgs blocks (fun i => saddr (S i)) data in
      Val (mkMsg (At a) b (zlen (dg_data d)) :: ms)
  | _, [] => Fault
  end.

Definition hev_socks5_udp_fwd_b (self : Obj) (fd : Z) (blocks : list bytes) (saddr : nat -> bytes) : proc Z :=
  RecvMM fd (map (fun _ => UDP_BUF_SIZE) blocks) DontWait (fun a =>
    pdo res :=
      (if 0 <? mret a then
         pdo dvec := lift (fwd_b_msgs blocks saddr (mdata a)) in
         hev_socks5_udp_sendmmsg self dvec
       else Ret (mret a)) in
    fwd_result res).

(** The loop; [mem i] is what buffers and stack hold at round [i]. *)
Record memory := mkMemory {
  blocks_f : list bytes;
  blocks_b : list bytes;
  stack_addrs : nat -> sockaddr_in6;
  stack_saddr : nat -> bytes;
}.

(** One round of the loop: the state of the next round, or the end. *)
Record splicer_state := mkSplicer {
  sp_self : Obj;
  sp_res_f : Z;
  sp_res_b : Z;
  sp_bind : bool;
}.

Definition splicer_round (fd_b : Z) (m : memory) (s : splicer_state) : proc (splicer_state + Obj) :=
  pdo (res_f, bound, self) :=
    (if 0 <=? sp_res_f s then hev_socks5_udp_fwd_f (sp_self s) fd_b (blocks_f m) (stack_addrs m) (sp_bind s)
     else Ret (sp_res_f s, sp_bind s, sp_self s)) in
  pdo res_b :=
    (if 0 <=? sp_res_b s then hev_socks5_udp_fwd_b self fd_b (blocks_b m) (stack_saddr m) else Ret (sp_res_b s)) in
  let next ty :=
    pdo (res, self) := task_io_yielder ty self in
    if negb (res =? 0) then Ret (inr self) else Ret (inl (mkSplicer self res_f res_b bound)) in
  if (0 <? res_f) || (0 <? res_b) then next HEV_TASK_YIELD
  else if Z.land res_f res_b =? 0 then next HEV_TASK_WAITIO
  else Ret (inr self).

(** The first rounds of the loop; [inl] when it goes on. *)
Fixpoint splicer_rounds (n : nat) (fd_b : Z) (mem : nat -> memory) (s : splicer_state)
  : proc (splicer_state + Obj) :=
  match n with
  | O => Ret (inl s)
  | S n =>
      pdo r := splicer_round fd_b (mem O) s in
      match r with
      | inl s => splicer_rounds n fd_b (fun i => mem (S i)) s
      | inr self => Ret (inr self)
      end
  end.

(** [None] while the loop goes on after [n] rounds. *)
Definition hev_socks5_udp_splicer (n : nat) (misc : HevSocks5Misc) (self : Obj) (fd_b : Z) (mem : nat -> memory)
  : proc (option (Z * Obj)) :=
  pdo buf := syscall (CMalloc (UDP_BUF_SIZE * udp_copy_buffer_nums misc * 2)) in
  if buf =? 0 then Ret (Some (-1, self))
  else
    let fd_a := get_fd self in
    pdo res := syscall (CModFd fd_a) in
    pdo _ := (if res <? 0 then syscall (CAddFd fd_a) else Ret 0) in
    pdo res := syscall (CAddFd fd_b) in
    pdo _ := (if res <? 0 then syscall (CModFd fd_b) else Ret 0) in
    pdo r := splicer_rounds n fd_b mem (mkSplicer self 1 1 false) in
    match r with
    | inl _ => Ret None
    | inr self => Ret (Some (0, self))
    end.

End udp.

(** ** Runs on a stream

    [fed fd s p Q h]: with the bytes [s] waiting on socket [fd] and no more to come for
    now, [p] never waits, never crashes and ends in [Q], however the stream is cut
    into chunks and whatever the other calls answer. *)

Section fed.
Context (fd : Z).

Fixpoint fed {A} (s : bytes) (p : proc A) (Q : A -> bytes -> history -> Prop) (h : history) : Prop :=
  match p with
  | Ret a => Q a s h
  | Crash => False
  | Recv fd' n w k =>
      fd' = fd /\
      match w with
      | WaitAll => 0 <= n <= zlen s /\ fed (drop (Z.to_nat n) s) (k (full (take (Z.to_nat n) s))) Q h
      | DontWait =>
          (s = [] -> fed [] (k (mkR (-1) [] true)) Q h) /\
          forall j, 0 < j <= Z.min n (zlen s) -> fed (drop (Z.to_nat j) s) (k (full (take (Z.to_nat j) s))) Q h
      | WaitSome =>
          s <> [] /\
          forall j, 0 < j <= Z.min n (zlen s) -> fed (drop (Z.to_nat j) s) (k (full (take (Z.to_nat j) s))) Q h
      end
  | Send fd' bs k => forall r, r.1 <= zlen bs -> fed s (k r) Q (h ++ [EvSend fd' bs r])
  | RecvMM fd' lens w k => forall a, recvmm_ok lens a -> fed s (k a) Q (h ++ [EvRecvMM fd' lens w a])
  | SendMM fd' msgs k => forall r, r.1 <= zlen msgs -> fed s (k r) Q (h ++ [EvSendMM fd' msgs r])
  | Resolve nm fam k => forall r, resolve_ok r -> fed s (k r) Q (h ++ [EvResolve nm fam r])
  | GetName fd' k => forall r, name_ok r -> fed s (k r) Q (h ++ [EvName fd' r])
  | Call c k => forall r, fed s (k r) Q (h ++ [EvCall c r])
  end.

(** One request of a tree in a proof by induction on programs. *)
Ltac fed_tree W :=
  match type of W with
  | _ /\ _ => idtac
  | _ => intros; match goal with IH : forall _ _ _, _ |- _ => apply IH; by apply W end
  end.

Ltac fed_recv W w :=
  destruct W as [-> W]; split; [done|]; destruct w;
  [destruct W as [? W]; split; [done|auto]|destruct W as [W1 W2]; split; auto|destruct W as [W1 W2]; split; auto].

Lemma fed_bind {A B} (p : proc A) (f : A -> proc B) Q s h :
  fed s p (fun a s' h' => fed s' (f a) Q h') h -> fed s (bind p f) Q h.
Proof.
  revert s h. induction p as [a| |fd' n w k IH|fd' bs k IH|fd' lens w k IH|fd' msgs k IH|nm fam k IH|fd' k IH|c k IH];
    intros s h W; cbn in *; try done; [fed_recv W w|fed_tree W..].
Qed.

Lemma fed_mono {A} (p : proc A) (Q Q' : A -> bytes -> history -> Prop) s h :
  fed s p Q h -> (forall a s' h', Q a s' h' -> Q' a s' h') -> fed s p Q' h.
Proof.
  intros W HQ. revert s h W.
  induction p as [a| |fd' n w k IH|fd' bs k IH|fd' lens w k IH|fd' msgs k IH|nm fam k IH|fd' k IH|c k IH];
    intros s h W; cbn in *; try done; [by apply HQ|fed_recv W w|fed_tree W..].
Qed.

Lemma fed_lift {A} (o : outcome A) Q s h a : o = Val a -> Q a s h -> fed s (lift o) Q h.
Proof. by intros ->. Qed.

(** A program that makes no receive runs on any stream. *)
Lemma fed_of_wp {A} (p : proc A) Q s h :
  wp (fun _ e => match e with EvRecv _ _ _ _ => False | _ => True end) p Q h ->
  fed s p (fun a s' h' => s' = s /\ Q a h') h.
Proof.
  revert h. induction p as [a| |fd' n w k IH|fd' bs k IH|fd' lens w k IH|fd' msgs k IH|nm fam k IH|fd' k IH|c k IH];
    intros h W; cbn in *; try done; try (intros; apply IH; by apply W).
  exfalso. destruct (W (mkR (Z.min n 0) [] false)) as [[] _].
  split_and!; [cbn; lia|unfold zlen; cbn; lia|constructor].
Qed.

(** The events that a stream allows: reads take its front, and the other events stay
    in the history. *)
Inductive streamed : bytes -> history -> bytes -> history -> Prop :=
| streamed_nil s : streamed s [] s []
| streamed_all s bs tr s' h : streamed s tr s' h ->
    streamed (bs ++ s) (EvRecv fd (zlen bs) WaitAll (full bs) :: tr) s' h
| streamed_some s n w bs tr s' h : bs <> [] -> zlen bs <= n -> w <> WaitAll -> streamed s tr s' h ->
    streamed (bs ++ s) (EvRecv fd n w (full bs) :: tr) s' h
| streamed_again n tr s' h : streamed [] tr s' h ->
    streamed [] (EvRecv fd n DontWait (mkR (-1) [] true) :: tr) s' h
| streamed_other s e tr s' h : (match e with EvRecv _ _ _ _ => False | _ => True end) ->
    streamed s tr s' h -> streamed s (e :: tr) s' (e :: h).

(** Every run of [p] on the stream behaves as [fed] says. *)
Lemma fed_adequate {A} (p p' : proc A) Q s tr s' h h' :
  psteps p tr p' -> streamed s tr s' h' -> fed s p Q h ->
  match p' with
  | Ret a => Q a s' (h ++ h')
  | Crash => False
  | _ => True
  end.
Proof.
  intros S. revert s h h'. induction S as [p|p e p1 tr p2 H1 S IH]; intros s h h' T W.
  { inversion T; subst. rewrite app_nil_r. by destruct p. }
  inversion T as [|s0 bs ? ? ? T'|s0 n w bs ? ? ? Hne Hn Hw T'|n ? ? ? T'|s0 ? ? ? ? He T']; subst;
    inversion H1; subst; cbn in W; try done.
  4-9: rewrite cons_middle, app_assoc; eapply IH; [exact T'|by apply W].
  - destruct W as [_ [_ W]]. eapply IH; [exact T'|]. unfold zlen in W.
    by rewrite Nat2Z.id, drop_app_length, take_app_length in W.
  - destruct W as [_ W]. eapply IH; [exact T'|].
    assert (0 < zlen bs <= Z.min n (zlen (bs ++ s0))) as Hb.
    { rewrite zlen_app. pose proof (zlen_nonneg s0). destruct bs; [done|]. rewrite zlen_cons in *. pose proof (zlen_nonneg bs). lia. }
    assert (fed (drop (Z.to_nat (zlen bs)) (bs ++ s0)) (k (full (take (Z.to_nat (zlen bs)) (bs ++ s0)))) Q h) as W'
      by (destruct w; [done|by apply W|by apply W]).
    unfold zlen in W'. by rewrite Nat2Z.id, drop_app_length, take_app_length in W'.
  - destruct W as [_ [W _]]. eapply IH; [exact T'|]. by apply W.
Qed.

End fed.

(** ** Specification: datagrams and frames *)

Record datagram := mkDatagram { dst : endpoint; payload : bytes }.

(** The frame of a datagram in the control connection. *)
Definition frame (d : datagram) : bytes :=
  le16 (swap16 (zlen (payload d))) ++ [3 + zlen (encode (dst d))] ++ encode (dst d) ++ payload d.

(** A datagram whose lengths fit their fields and that fits a buffer. *)
Definition fits (size : Z) (d : datagram) : Prop :=
  endpoint_ok (dst d) /\ zlen (encode (dst d)) <= 252 /\ zlen (payload d) <= 65535 /\
  zlen (encode (dst d)) + zlen (payload d) <= size.

(** A message in memory that carries a datagram. *)
Definition carries (m : HevSocks5UDPMsg) (d : datagram) : Prop :=
  (exists tl, msg_addr m = At (encode (dst d) ++ tl)) /\
  (exists tl, msg_buf m = payload d ++ tl) /\ msg_len m = zlen (payload d).

Lemma get_front (p s : bytes) : get_n (p ++ s) 0 (zlen p) = Val p.
Proof. by apply (get_n_app [] p s). Qed.

Lemma encode_pos e : endpoint_ok e -> 4 <= zlen (encode e).
Proof.
  destruct e as [a p|a p|n p]; cbn [encode endpoint_ok]; intros (Hl & _); rewrite !zlen_cons, zlen_app;
    change (zlen (le16 p)) with 2; unfold zlen in *; lia.
Qed.

Lemma message_iov_ok hdr m d : endpoint_ok (dst d) -> carries m d ->
  message_iov hdr m = Val (Some (hdr (zlen (encode (dst d))) ++ encode (dst d) ++ payload d)).
Proof.
  intros He ([tl Ea] & [tl' Eb] & El). unfold message_iov. rewrite Ea, Eb, El. cbn [deref obind].
  rewrite addr_len_prefix by done. cbn [obind]. pose proof (encode_pos _ He).
  rewrite (proj2 (Z.leb_gt _ _)) by lia. by rewrite !get_front.
Qed.

Lemma messages_iov_ok hdr (wire : datagram -> bytes) P msgv ds :
  (forall m d, carries m d -> P d -> hdr m (zlen (encode (dst d))) ++ encode (dst d) ++ payload d = wire d) ->
  (forall d, P d -> endpoint_ok (dst d)) ->
  Forall2 carries msgv ds -> Forall P ds ->
  messages_iov hdr msgv = Val (Some (map wire ds)).
Proof.
  intros Hw Hp Hc. induction Hc as [|m d msgv ds Hm Hc IH]; intros HP; [done|].
  apply Forall_cons in HP as [Hd HP]. cbn [messages_iov map].
  rewrite (message_iov_ok _ m d) by auto. cbn [obind]. rewrite IH by done. cbn [obind option_map].
  by rewrite (Hw m d) by done.
Qed.

Lemma tcp_hdr_ok size m d : carries m d -> fits size d ->
  tcp_hdr m (zlen (encode (dst d))) ++ encode (dst d) ++ payload d = frame d.
Proof.
  intros (_ & _ & El) (He & Ha & Hp & _). unfold tcp_hdr, frame. rewrite El.
  pose proof (encode_pos _ He). pose proof (zlen_nonneg (payload d)).
  rewrite u16_id, u8_id by (unfold is_u16, is_u8; lia). by rewrite <- app_assoc.
Qed.

(** What is sent is the concatenation of the frames. *)
Lemma sendmmsg_tcp_ok `{HevSocks5UDPIface Obj} (self : Obj) size msgv ds :
  Forall2 carries msgv ds -> Forall (fits size) ds ->
  hev_socks5_udp_sendmmsg_tcp self msgv =
    Send (get_fd self) (concat (map frame ds)) (fun '(res, _) => if res <=? 0 then Ret (-1) else Ret (zlen msgv)).
Proof.
  intros Hc Hf. unfold hev_socks5_udp_sendmmsg_tcp.
  rewrite (messages_iov_ok _ frame (fits size) msgv ds); [done| | |done|done].
  - intros m d. apply tcp_hdr_ok.
  - by intros d [He _].
Qed.

(** ** Receiving frames *)

(** An empty slot of the given size. *)
Definition slot (size : Z) (m : HevSocks5UDPMsg) : Prop := zlen (msg_buf m) = size /\ msg_len m = size.

Lemma fed_chunk {A} fd s n (k : rans -> proc A) Q h bs :
  n = zlen bs -> fed fd s (k (full bs)) Q h -> fed fd (bs ++ s) (Recv fd n WaitAll k) Q h.
Proof.
  intros -> W. cbn. split; [done|]. pose proof (zlen_nonneg bs). pose proof (zlen_nonneg s). rewrite zlen_app.
  split; [lia|]. unfold zlen. by rewrite Nat2Z.id, drop_app_length, take_app_length.
Qed.

(** The header, in one read or two. *)
Lemma fed_header {A} fd s (f : Z * bytes -> proc A) Q h hdr :
  zlen hdr = 5 -> fed fd s (f (5, hdr)) Q h ->
  fed fd (hdr ++ s)
    (pdo a := recv fd 5 DontWait in
     pdo x := (if (0 <? rret a) && (rret a <? 5) then
                 pdo b := recv fd (5 - rret a) WaitAll in
                 Ret (rret a + rret b, rdata a ++ rdata b)
               else Ret (rret a, rdata a)) in
     f x) Q h.
Proof.
  intros Hl W. cbn [recv bind fed]. split; [done|]. split.
  { intros E. destruct hdr; [unfold zlen in Hl; cbn in Hl; lia|done]. }
  intros j Hj. rewrite zlen_app in Hj. destruct (decide (j = 5)) as [->|Hne].
  - assert (Z.to_nat 5 = length hdr) as E by (unfold zlen in Hl; lia).
    rewrite E, drop_app_length, take_app_length. cbn [full rret rdata]. rewrite Hl.
    change ((0 <? 5) && (5 <? 5)) with false. cbn [bind]. done.
  - assert (Z.to_nat j <= length hdr)%nat by (unfold zlen in *; lia).
    rewrite drop_app_le, take_app_le by lia. cbn [full rret rdata].
    assert (zlen (take (Z.to_nat j) hdr) = j) as Ej by (unfold zlen in *; rewrite length_take; lia). rewrite Ej.
    rewrite (proj2 (Z.ltb_lt 0 j)), (proj2 (Z.ltb_lt j 5)) by lia. cbn [andb bind recv].
    apply fed_chunk; [unfold zlen in *; rewrite length_drop; lia|].
    cbn [full rret rdata bind]. rewrite take_drop.
    replace (j + zlen (drop (Z.to_nat j) hdr)) with 5 by (unfold zlen in *; rewrite length_drop; lia). done.
Qed.

(** The first two bytes and the rest of an encoded endpoint. *)
Lemma encode_front e : endpoint_ok e -> exists atype first rest,
  encode e = atype :: first :: rest /\ is_u8 atype /\ is_u8 first.
Proof.
  destruct e as [a p|a p|n p]; cbn [encode endpoint_ok]; intros (Hl & Hb & _).
  - explode. apply Forall_cons in Hb as [Hz _]. eexists _, _, _. split; [done|]. split; [split; vm_compute; congruence|done].
  - explode. apply Forall_cons in Hb as [Hz _]. eexists _, _, _. split; [done|]. split; [split; vm_compute; congruence|done].
  - eexists _, _, _. split; [done|]. pose proof (zlen_nonneg n). unfold is_u8. split; [split; vm_compute; congruence|lia].
Qed.

(** The body of a frame lands behind the two bytes that the header read holds. *)
Lemma scatter_ok size b rest data :
  zlen b = size -> 2 + zlen rest + zlen data <= size ->
  exists x y tl, scatter b 2 (zlen rest) (rest ++ data) = Val (x :: y :: rest ++ data ++ tl) /\
    2 + zlen rest + zlen data + zlen tl = size.
Proof.
  intros Hb Hs. pose proof (zlen_nonneg rest). pose proof (zlen_nonneg data).
  destruct (take_front b 2) as (f & b1 & -> & Hf); [unfold zlen in *; lia|]. explode. cbn [app] in *.
  rewrite !zlen_cons in Hb. destruct (split_at b1 (zlen rest) (zlen data)) as (m1 & m2 & tl & -> & H1 & H2); [lia..|].
  rewrite !zlen_app in Hb. exists z, z0, tl. split; [|lia]. unfold scatter.
  assert (Z.to_nat (zlen rest) = length rest) as -> by (unfold zlen; lia).
  rewrite take_app_length, drop_app_length.
  change (z :: z0 :: m1 ++ m2 ++ tl) with ([z; z0] ++ m1 ++ m2 ++ tl).
  rewrite (put_n_app [z; z0] m1 (m2 ++ tl)) by (done || lia). cbn [obind]. rewrite app_assoc.
  rewrite (put_n_app ([z; z0] ++ rest) m2 tl) by (rewrite ?zlen_app; unfold zlen in *; cbn; lia).
  by rewrite <- app_assoc.
Qed.

Lemma fed_round fd m d size s Q h :
  fits size d -> slot size m -> size < 2 ^ 64 ->
  (forall m', carries m' d -> Q (Got m') s h) ->
  fed fd (frame d ++ s) (recv_tcp_round fd true m) Q h.
Proof.
  intros (He & Ha & Hp & Hs) (Hb & Hl) H64 HQ. pose proof (encode_pos _ He). pose proof (zlen_nonneg (payload d)).
  destruct (encode_front _ He) as (atype & first & rest & Ee & Hat & Hfi).
  assert (zlen (encode (dst d)) = zlen rest + 2) as El by (rewrite Ee, !zlen_cons; lia).
  unfold recv_tcp_round, frame. rewrite Ee at 2.
  set (hdr := le16 (swap16 (zlen (payload d))) ++ [3 + zlen (encode (dst d)); atype; first]).
  replace ((le16 (swap16 (zlen (payload d))) ++ [3 + zlen (encode (dst d))] ++ (atype :: first :: rest) ++ payload d) ++ s)
    with (hdr ++ (rest ++ payload d) ++ s) by (unfold hdr; cbn; by list_norm).
  apply fed_header; [done|]. change (5 =? 5) with true. cbn [negb].
  pose proof (le16_ld (swap16 (zlen (payload d))) [] [3 + zlen (encode (dst d)); atype; first] (swap16_range _)) as E16.
  change (zlen []) with 0 in E16. cbn [app] in E16. fold hdr in E16. rewrite E16. cbn [lift bind].
  change (rd hdr 2) with (Val (3 + zlen (encode (dst d)))). change (rd hdr 3) with (Val atype).
  change (rd hdr 4) with (Val first). cbn [lift bind]. rewrite (proj2 (Z.ltb_ge _ _)) by lia.
  replace (3 + zlen (encode (dst d)) - 3) with (zlen (encode (dst d))) by lia.
  rewrite swap16_invol by (unfold is_u16; lia). rewrite Hl.
  unfold u64. rewrite Z.mod_small, (proj2 (Z.ltb_ge _ _)) by lia. cbn [recv bind].
  replace (zlen (encode (dst d)) - 2) with (zlen rest) by lia.
  apply fed_chunk; [by rewrite zlen_app|]. cbn [full rret rdata].
  destruct (scatter_ok size (msg_buf m) rest (payload d)) as (x & y & tl & -> & Ht); [done|lia|].
  cbn [lift bind]. rewrite zlen_app, Z.eqb_refl. cbn [negb]. rewrite wr_head. cbn [lift bind].
  change (u8 atype :: y :: rest ++ payload d ++ tl) with ([u8 atype] ++ y :: rest ++ payload d ++ tl).
  rewrite (wr_app_r [u8 atype] _ 1 0 _ (u8 first :: rest ++ payload d ++ tl)) by (done || apply wr_head).
  cbn [lift bind app fed]. rewrite !u8_id by done. apply HQ. split_and!.
  - exists (payload d ++ tl). cbn. rewrite Ee. by list_norm.
  - exists tl. cbn [msg_buf]. rewrite El. replace (Z.to_nat (zlen rest + 2)) with (length (atype :: first :: rest))
      by (unfold zlen; cbn [length]; lia).
    change (atype :: first :: rest ++ payload d ++ tl) with ((atype :: first :: rest) ++ payload d ++ tl).
    by rewrite drop_app_length.
  - done.
Qed.

(** All frames that are there, as many as there are slots. *)
Lemma fed_loop fd size ds slots rlen h :
  Forall (fits size) ds -> Forall (slot size) slots -> size < 2 ^ 64 -> 0 <= rlen -> 0 < rlen \/ ds <> [] ->
  fed fd (concat (map frame ds)) (recv_tcp_loop fd true rlen slots)
    (fun '(res, msgv) s h' =>
       h' = h /\ length msgv = length slots /\
       exists n, res = rlen + Z.of_nat n /\ n = Nat.min (length slots) (length ds) /\
         Forall2 carries (take n msgv) (take n ds) /\ s = concat (map frame (drop n ds))) h.
Proof.
  intros Hf Hsl H64. revert ds rlen Hf. induction Hsl as [|m slots Hm Hsl IH]; intros ds rlen Hf Hr Hd; cbn [recv_tcp_loop].
  { cbn. split; [done|]. split; [done|]. exists 0%nat. split_and!; [lia|done|constructor|done]. }
  apply fed_bind. destruct Hf as [|d ds Hfd Hf]; cbn [map concat].
  - destruct Hd as [Hd|]; [|done]. unfold recv_tcp_round. cbn [recv bind fed recv_flag]. split; [done|]. split.
    + intros _. cbn. rewrite (proj2 (Z.ltb_lt _ _) Hd). split; [done|]. split; [done|].
      exists 0%nat. split_and!; [lia|done|constructor|done].
    + intros j Hj. change (zlen []) with 0 in Hj. lia.
  - eapply fed_round; [done..|]. intros m' Hm'. cbn beta iota. apply fed_bind.
    eapply fed_mono; [apply IH; [done|lia|by left; lia]|].
    intros [res msgv] s h' (-> & Hlen & n & -> & -> & Hc & ->). cbn [fed length]. split; [done|].
    split; [by rewrite Hlen|]. exists (S (Nat.min (length slots) (length ds))). cbn [take drop].
    split_and!; [lia|done|by constructor|done].
Qed.


(** ** Forwarding to the destinations *)

(** The socket address and payload that a datagram is forwarded as; a name that is no
    literal goes to the address that the resolver gave. *)
Definition forwarded (inet_pton : Z -> bytes -> option bytes) (fam : Z) (h : history)
    (x : sockaddr_in6 * bytes) (d : datagram) : Prop :=
  x.2 = payload d /\
  match dst d with
  | EIPv4 a p => x.1 = mkSA AF_INET6 p (v4mapped a)
  | EIPv6 a p => x.1 = mkSA AF_INET6 p a
  | EName n p => sin6_family x.1 = AF_INET6 /\ sin6_port x.1 = p /\
      exists h' fam', resolved inet_pton (until_nul n) fam h' (sin6_addr x.1) fam' /\ h' ⊆ h
  end.

Lemma forwarded_mono inet_pton fam h h' x d : h ⊆ h' -> forwarded inet_pton fam h x d -> forwarded inet_pton fam h' x d.
Proof.
  intros Hh [Hp H]. split; [done|]. destruct (dst d); [done|done|]. destruct H as (? & ? & h0 & f & ? & ?).
  split_and!; [done..|]. exists h0, f. split; [done|]. set_solver.
Qed.

Definition asks (e : event) : Prop := match e with EvResolve _ _ _ => True | _ => False end.

Section relay.
Context (inet_pton : Z -> bytes -> option bytes) (pton : pton_ok inet_pton).

Lemma into_forwarded d tl sa fam h0 :
  endpoint_ok (dst d) -> sockaddr_ok sa ->
  wp (fun _ => asks) (hev_socks5_addr_into_sockaddr6 inet_pton (encode (dst d) ++ tl) sa fam)
    (fun '(ret, sa', _) h => h0 ⊆ h /\ (Forall asks h0 -> Forall asks h) /\
       (ret = -1 \/ ret = 0 /\ forwarded inet_pton fam h (sa', payload d) d)) h0.
Proof.
  intros He (Ls & Bs & _). unfold forwarded. destruct (dst d) as [a p|a p|n p] eqn:Ed.
  - rewrite into_ipv4_ok by done. cbn. split; [done|]. split; [done|]. right. done.
  - rewrite into_ipv6_ok by done. cbn. split; [done|]. split; [done|]. right. done.
  - rewrite into_name_ok by done. destruct He as (Ln & Bn & Hp).
    eapply wp_mono; [apply name_into_ok; auto using until_nul_bytes; done|].
    intros [[res sa'] fam'] h (h' & -> & Hok & Hc). cbn [fst snd] in *.
    destruct Hc as [(-> & Hfm & Hpo & Hr)|(-> & _ & q & ->)].
    + split; [set_solver|].
      assert (Forall asks h') as Hh'.
      { unfold resolved in Hr. destruct (inet_pton AF_INET _); [destruct Hr as [-> _]; constructor|].
        destruct (inet_pton AF_INET6 _); [destruct Hr as [-> _]; constructor|].
        destruct Hr as (v & -> & _). by repeat constructor. }
      split; [intros; by apply Forall_app|]. right. split; [done|]. split; [done|].
      rewrite u16_id, swap16_invol in Hpo by (done || apply swap16_range).
      split_and!; [done..|]. exists h', fam'. split; [done|set_solver].
    + split; [set_solver|]. split; [intros; apply Forall_app; split; [done|by repeat constructor]|]. by left.
Qed.

Lemma dests_ok `{HevSocks5UDPIface Obj} (self : Obj) ds : forall msgv addrs rest h0,
  Forall2 carries msgv ds -> Forall (fun d => endpoint_ok (dst d) /\ payload d <> []) ds ->
  (forall i, sockaddr_ok (addrs i)) ->
  wp (fun _ => asks) (fwd_f_dests inet_pton self (length ds) (msgv ++ rest) addrs)
    (fun o h => h0 ⊆ h /\ (Forall asks h0 -> Forall asks h) /\
       match o with
       | None => True
       | Some dvec => Forall2 (forwarded inet_pton (addr_family (udp_self self)) h) dvec ds
       end) h0.
Proof.
  induction ds as [|d ds IH]; intros msgv addrs rest h0 Hc Hd Ha; inversion Hc as [|m ? msgv' ? Hm Hc']; subst;
    cbn [fwd_f_dests length app]; [cbn; split; [done|]; split; [done|]; constructor|].
  apply Forall_cons in Hd as [[He Hne] Hd]. destruct Hm as ([tl Ea] & [tl' Eb] & El).
  rewrite El, Ea, Eb. rewrite (proj2 (Z.eqb_neq _ _)); cycle 1.
  { destruct (payload d); [done|]. rewrite zlen_cons. pose proof (zlen_nonneg l). lia. }
  apply wp_bind. eapply wp_mono; [by apply into_forwarded|].
  intros [[ret sa] f] h1 (Hh & Hfa & [->|[-> Hw]]); [done|]. change (0 <? 0) with false. cbn match.
  rewrite get_front. cbn [lift bind]. apply wp_bind. eapply wp_mono; [by apply IH|].
  intros o h2 (Hh2 & Hfa2 & Ho). cbn. split; [set_solver|]. split; [auto|].
  destruct o as [dvec|]; [|done]. cbn. constructor; [|done]. by eapply forwarded_mono.
Qed.

End relay.

(** the relay forwards what the client sent.  With the frames of nonempty
    datagrams waiting in the control connection, one round of
    [hev_socks5_udp_fwd_f] takes as many as it has buffers and passes exactly these
    payloads, in order, in one call to the addresses of their endpoints; the only
    other outcome is an end of the relay because a name could not be resolved, before
    anything is sent. *)
Theorem udp_relay_forwards inet_pton (self : SocksServer.HevSocks5Server) fd blocks addrs bound ds :
  pton_ok inet_pton -> type (SocksServer.base self) = HEV_SOCKS5_TYPE_UDP_IN_TCP ->
  Forall (fun b => zlen b = UDP_BUF_SIZE) blocks -> blocks <> [] -> (forall i, sockaddr_ok (addrs i)) ->
  Forall (fits UDP_BUF_SIZE) ds -> Forall (fun d => payload d <> []) ds -> ds <> [] ->
  fed (get_fd self) (concat (map frame ds)) (hev_socks5_udp_fwd_f inet_pton self fd blocks addrs bound)
    (fun '(r, bound', self') s h =>
       let n := Nat.min (length blocks) (length ds) in
       self' = self /\ s = concat (map frame (drop n ds)) /\
       (r = -1 /\ bound' = bound /\ Forall asks h \/
        exists dvec asked res ag after,
          h = asked ++ EvSendMM fd (map (fun d => (Some d.1, d.2)) dvec) (res, ag) :: after /\ Forall asks asked /\
          Forall2 (forwarded inet_pton (addr_family (SocksServer.base self)) asked) dvec (take n ds) /\
          bound' = true /\ (0 < res -> r = 1))) [].
Proof.
  intros Hpt Ht Hb Hbn Ha Hf Hp Hne. unfold hev_socks5_udp_fwd_f, hev_socks5_udp_recvmmsg. 
  change (udp_self self) with (SocksServer.base self). rewrite Ht. apply fed_bind. apply fed_bind.
  eapply fed_mono; [apply (fed_loop _ UDP_BUF_SIZE ds); [done| |reflexivity|done|by right]|].
  { apply Forall_map. eapply Forall_impl; [exact Hb|]. intros b E. done. }
  intros [res got] s h (-> & Hlen & n & -> & En & Hc & ->). rewrite length_map in En, Hlen. cbn [fed].
  assert (0 < n)%nat as Hn by (destruct blocks, ds; cbn in En; (done || lia)).
  rewrite (proj2 (Z.ltb_lt _ _)) by lia. replace (Z.to_nat (0 + Z.of_nat n)) with (length (take n ds))
    by (rewrite length_take; lia).
  rewrite <- (take_drop n got). apply fed_bind.
  eapply fed_mono.
  { apply fed_of_wp. eapply wp_weaken; [|apply (dests_ok inet_pton Hpt self (take n ds)); [exact Hc| |done]].
    - intros ? []; done.
    - apply Forall_take. rewrite Forall_forall in Hf, Hp |- *. intros d Hd. split; [apply (Hf d Hd)|by apply Hp]. }
  intros o s' h (-> & _ & Has & Ho). specialize (Has (Forall_nil_2 _)). rewrite <- En.
  destruct o as [dvec|]; [|cbn; split; [done|]; split; [done|]; by left].
  assert (length dvec = n) as Hdl by (rewrite (Forall2_length _ _ _ Ho), length_take; lia).
  destruct dvec as [|x dvec]; [cbn in Hdl; lia|].
  assert (forall r ag, fed (get_fd self) (concat (map frame (drop n ds)))
    (pdo r := fwd_result r in Ret (r, true, self))
    (fun '(r', bound', self') s h1 => self' = self /\ s = concat (map frame (drop n ds)) /\
       (r' = -1 /\ bound' = bound /\ Forall asks h1 \/
        exists dvec asked res ag after,
          h1 = asked ++ EvSendMM fd (map (fun d => (Some d.1, d.2)) dvec) (res, ag) :: after /\ Forall asks asked /\
          Forall2 (forwarded inet_pton (addr_family (SocksServer.base self)) asked) dvec (take n ds) /\
          bound' = true /\ (0 < res -> r' = 1)))
    (h ++ [EvSendMM fd (map (fun d => (Some d.1, d.2)) (x :: dvec)) (r, ag)])) as Hend.
  { intros r ag. unfold fwd_result. destruct (Z.leb_spec r 0); [destruct (r =? -1)|]; cbn [bind syscall fed];
      try (intros e; rewrite <- app_assoc); (split; [done|]); (split; [done|]); right;
      (eexists (x :: dvec), h, r, ag, _; split; [reflexivity|]; split_and!; (done || lia)). }
  destruct bound; cbn -[fwd_result map]; intros [r ag] _; apply Hend.
Qed.

(** ** Datagrams of their own *)

Definition packet (d : datagram) : bytes := [0; 0; 0] ++ encode (dst d) ++ payload d.

Definition packet_fits (size : Z) (d : datagram) : Prop := endpoint_ok (dst d) /\ zlen (packet d) <= size.

Lemma recv_udp_loop_ok size ds : forall slots data,
  Forall (packet_fits size) ds -> Forall (slot size) slots -> (length ds <= length slots)%nat ->
  map dg_data data = map packet ds ->
  exists got, recv_udp_loop slots data = Val (true, got ++ drop (length ds) slots) /\ Forall2 carries got ds.
Proof.
  induction ds as [|d ds IH]; intros slots data Hf Hsl Hl Hd; destruct data as [|x data]; try done.
  { exists []. destruct slots; (split; [done|constructor]). }
  destruct slots as [|m slots]; [cbn in Hl; lia|]. injection Hd as Ex Hd.
  apply Forall_cons in Hf as [[He Hs] Hf]. apply Forall_cons in Hsl as [[Hm Hml] Hsl]. cbn [recv_udp_loop]. rewrite Ex.
  destruct (split_at (msg_buf m) 0 (zlen (packet d))) as (p0 & m0 & tl & Eb & H0 & Hm0); [pose proof (zlen_nonneg (packet d)); lia..|].
  destruct p0; [|unfold zlen in H0; cbn in H0; lia]. rewrite Eb.
  rewrite (put_n_app [] m0 tl) by (done || lia). cbn [obind app].
  assert (drop 3 (packet d ++ tl) = encode (dst d) ++ payload d ++ tl) as E3 by (unfold packet; cbn; by list_norm).
  rewrite E3, addr_len_prefix by done. cbn [obind].
  assert (zlen (packet d) = 3 + zlen (encode (dst d)) + zlen (payload d)) as El.
  { unfold packet. rewrite !zlen_app. change (zlen [0; 0; 0]) with 3. lia. }
  pose proof (encode_pos _ He). pose proof (zlen_nonneg (payload d)).
  rewrite !(proj2 (Z.ltb_ge _ _)), (proj2 (Z.leb_gt _ _)) by lia.
  destruct (IH slots data) as (got & -> & Hc); [done|done|cbn in Hl; lia|done|]. cbn [obind].
  eexists (_ :: got). split; [reflexivity|]. constructor; [|done]. split_and!.
  - exists (payload d ++ tl). done.
  - exists tl. cbn [msg_buf]. unfold packet. rewrite <- !app_assoc.
    replace (Z.to_nat (3 + zlen (encode (dst d)))) with (length ([0; 0; 0] ++ encode (dst d)))
      by (rewrite length_app; unfold zlen; cbn [length]; lia).
    rewrite app_assoc. apply drop_app_length.
  - cbn [msg_len]. lia.
Qed.

(** UDP in UDP, end to end: each datagram that [hev_socks5_udp_sendmmsg_udp]
    sends, [hev_socks5_udp_recvmmsg_udp] turns back into a message with the same
    address and payload; the receive fails only when the first peer cannot be
    connected to. *)
Theorem udp_datagram_roundtrip A B `{HevSocks5UDPIface A} `{HevSocks5UDPIface B} (sender : A) (receiver : B)
    size msgv ds slots nonblock :
  Forall2 carries msgv ds -> Forall (packet_fits size) ds -> ds <> [] ->
  Forall (slot size) slots -> (length ds <= length slots)%nat ->
  exists k k',
    hev_socks5_udp_sendmmsg_udp sender msgv = SendMM (get_fd sender) (map (fun d => (None, packet d)) ds) k /\
    hev_socks5_udp_recvmmsg_udp receiver slots nonblock =
      RecvMM (get_fd receiver) (map msg_len slots) (recv_flag nonblock) k' /\
    forall a, mret a = zlen ds -> map dg_data (mdata a) = map packet ds ->
      wp (fun _ _ => True) (k' a)
        (fun '(res, got, _) h =>
           res = zlen ds /\ Forall2 carries (take (length ds) got) ds \/
           res = -1 /\ udp_associated (udp_self receiver) = 0) [].
Proof.
  intros Hc Hf Hne Hsl Hl. unfold hev_socks5_udp_sendmmsg_udp.
  rewrite (messages_iov_ok _ packet (packet_fits size) msgv ds); [|done|by intros d [He _]|done|done].
  cbn [lift bind]. eexists _, _. split; [by rewrite map_map|]. split; [reflexivity|]. intros a Hr Hd.
  assert (0 < zlen ds) by (destruct ds as [|? l]; [done|]; rewrite zlen_cons; pose proof (zlen_nonneg l); lia).
  cbn beta. rewrite Hr, (proj2 (Z.leb_gt _ _)) by lia.
  destruct (recv_udp_loop_ok size ds slots (mdata a) Hf Hsl Hl Hd) as (got & E & Hg).
  assert (Forall2 carries (take (length ds) (got ++ drop (length ds) slots)) ds) as Hg'.
  { rewrite <- (Forall2_length _ _ _ Hg). by rewrite take_app_length. }
  destruct (Z.eqb_spec (udp_associated (udp_self receiver)) 0) as [Hu|Hu].
  - destruct (mdata a) as [|d0 dl] eqn:Em; [destruct ds; done|]. cbn [lookup list_lookup of_option lift bind syscall wp].
    intros c. split; [done|]. destruct (c <? 0); cbn [bind negb]; [by right|]. rewrite E. by left.
  - cbn [bind negb]. rewrite E. by left.
Qed.

(** ** Hostile peers *)

(** A message that may be used: nothing, or an address and a payload in memory. *)
Definition usable (size : Z) (m : HevSocks5UDPMsg) : Prop :=
  msg_addr m = Null /\ msg_len m = 0 \/
  (exists a, msg_addr m = At a /\ size - 3 <= zlen a) /\ 0 <= msg_len m <= zlen (msg_buf m).

(** A read that must be complete was not: the connection ended or timed out. *)
Definition broken (h : history) : Prop := exists fd n a, EvRecv fd n WaitAll a ∈ h /\ rret a <> n.

Lemma broken_mono h h' : h ⊆ h' -> broken h -> broken h'.
Proof. intros Hh (fd & n & a & H & Hn). exists fd, n, a. split; [by apply Hh|done]. Qed.

Lemma broken_last h fd n a : rret a <> n -> broken (h ++ [EvRecv fd n WaitAll a]).
Proof. intros Hn. exists fd, n, a. split; [set_solver|done]. Qed.

Lemma put_n_fits b off src : 0 <= off -> off + zlen src <= zlen b ->
  exists b', put_n b off src = Val b' /\ zlen b' = zlen b.
Proof. intros H1 H2. rewrite put_n_const by done. eexists. split; [done|]. unfold zlen in *. rewrite length_splice; lia. Qed.

Lemma scatter_safe b off n data : 0 <= off -> 0 <= n -> off + zlen data <= zlen b -> off + n <= zlen b ->
  exists b', scatter b off n data = Val b' /\ zlen b' = zlen b.
Proof.
  intros Ho Hn Hd Hb. unfold scatter.
  assert (zlen (take (Z.to_nat n) data) <= zlen data) by (unfold zlen; rewrite length_take; lia).
  destruct (put_n_fits b off (take (Z.to_nat n) data)) as (b1 & -> & H1); [lia..|]. cbn [obind].
  destruct (Z.le_gt_cases n (zlen data)) as [Hle|Hgt].
  - destruct (put_n_fits b1 (off + n) (drop (Z.to_nat n) data)) as (b2 & -> & H2);
      [lia|unfold zlen in *; rewrite length_drop; lia|]. exists b2. split; [done|lia].
  - rewrite drop_ge by (unfold zlen in *; lia). destruct (put_n_fits b1 (off + n) []) as (b2 & -> & H2);
      [lia|change (zlen []) with 0; lia|]. exists b2. split; [done|lia].
Qed.

Lemma wr_fits b i v : 0 <= i < zlen b -> exists b', wr b i v = Val b' /\ zlen b' = zlen b.
Proof.
  intros Hi. unfold wr. rewrite bool_decide_true by (unfold zlen in Hi; lia). eexists. split; [done|].
  unfold zlen. by rewrite length_insert.
Qed.

(** The result of a round: a usable message, nothing, or a broken connection. *)
Definition round_ok (size : Z) (r : round) (h : history) : Prop :=
  match r with
  | Got m => usable size m
  | Short res => res <= 0 \/ broken h
  | Failed res _ => res <= 0 \/ broken h
  end.

Lemma wp_round_body fd m size udp h0 :
  252 <= size < 2 ^ 64 -> slot size m -> zlen udp = 5 -> is_bytes udp ->
  wp (fun _ _ => True)
    (pdo datlen := lift (ld16 udp 0) in
     pdo hdrlen := lift (rd udp 2) in
     pdo atype := lift (rd udp 3) in
     pdo dlen := lift (rd udp 4) in
     if hdrlen <? 5 then Ret (Failed (-1) m)
     else
       let addrlen := hdrlen - 3 in
       let datlen := swap16 datlen in
       if u64 (msg_len m - addrlen) <? datlen then Ret (Failed (-1) m)
       else
         pdo c := recv fd (addrlen - 2 + datlen) WaitAll in
         pdo buf := lift (scatter (msg_buf m) 2 (addrlen - 2) (rdata c)) in
         if negb (rret c =? addrlen - 2 + datlen) then Ret (Failed (rret c) (mkMsg (msg_addr m) buf (msg_len m)))
         else
           pdo buf := lift (wr buf 0 atype) in
           pdo buf := lift (wr buf 1 dlen) in
           Ret (Got (mkMsg (At buf) (drop (Z.to_nat addrlen) buf) datlen)))
    (fun r h => round_ok size r h /\ h0 ⊆ h) h0.
Proof.
  intros Hs (Hb & Hl) Hu Bu. destruct (SocksServer.five_bytes _ Hu) as (v & w & hl & at_ & dl & ->).
  destruct (ld16_ok [v; w; hl; at_; dl] 0) as (dat & ->); [lia|change (zlen [v; w; hl; at_; dl]) with 5; lia|].
  change (rd [v; w; hl; at_; dl] 2) with (Val hl). change (rd [v; w; hl; at_; dl] 3) with (Val at_).
  change (rd [v; w; hl; at_; dl] 4) with (Val dl). cbn [lift bind].
  assert (is_u8 hl) as Hh by (apply Forall_cons in Bu as [_ [_ [Hh _]%Forall_cons]%Forall_cons]; done). unfold is_u8 in Hh.
  destruct (Z.ltb_spec hl 5); [by split; [left|]|]. cbv zeta. pose proof (swap16_range dat) as Hd. unfold is_u16 in Hd.
  rewrite Hl. unfold u64. rewrite Z.mod_small by lia.
  destruct (Z.ltb_spec (size - (hl - 3)) (swap16 dat)); [by split; [left|]|]. cbn [recv bind wp]. intros c (Hc1 & Hc2 & _).
  split; [done|].
  destruct (scatter_safe (msg_buf m) 2 (hl - 3 - 2) (rdata c)) as (b1 & -> & L1); [lia..|]. cbn [lift bind].
  destruct (Z.eqb_spec (rret c) (hl - 3 - 2 + swap16 dat)) as [E|E]; cbn [negb].
  2: { split; [right; by apply broken_last|set_solver]. }
  destruct (wr_fits b1 0 at_) as (b2 & -> & L2); [lia|]. cbn [lift bind].
  destruct (wr_fits b2 1 dl) as (b3 & -> & L3); [lia|]. cbn [lift bind wp]. split; [|set_solver]. right.
  split; [exists b3; split; [done|lia]|]. cbn [msg_len msg_buf]. unfold zlen in *. rewrite length_drop. lia.
Qed.

Lemma wp_round fd nonblock m size h0 :
  252 <= size < 2 ^ 64 -> slot size m ->
  wp (fun _ _ => True) (recv_tcp_round fd nonblock m) (fun r h => round_ok size r h /\ h0 ⊆ h) h0.
Proof.
  intros Hs Hm. unfold recv_tcp_round. cbn [recv bind wp]. intros a (Ha1 & Ha2 & Ha3). split; [done|].
  destruct (Z.ltb_spec 0 (rret a)); [destruct (Z.ltb_spec (rret a) 5)|]; cbn [andb bind recv wp].
  - intros b (Hb1 & Hb2 & Hb3). split; [done|].
    destruct (Z.eqb_spec (rret a + rret b) 5) as [E|E]; cbn [negb].
    + eapply wp_mono; [apply wp_round_body; [done|done|rewrite zlen_app; lia|by apply Forall_app]|].
      intros r h [Hr Hh]. split; [done|set_solver].
    + split; [right; apply broken_last; lia|set_solver].
  - rewrite (proj2 (Z.eqb_eq _ _)) by lia. cbn [negb].
    eapply wp_mono; [apply wp_round_body; [done|done|lia|done]|].
    intros r h [Hr Hh]. split; [done|set_solver].
  - rewrite (proj2 (Z.eqb_neq _ _)) by lia. cbn [negb wp]. split; [left; lia|set_solver].
Qed.

Lemma wp_loop fd nonblock size slots : forall rlen h0,
  252 <= size < 2 ^ 64 -> Forall (slot size) slots -> 0 <= rlen ->
  wp (fun _ _ => True) (recv_tcp_loop fd nonblock rlen slots)
    (fun '(res, got) h => length got = length slots /\ h0 ⊆ h /\
       (res <= 0 \/ broken h \/
        rlen <= res <= rlen + zlen slots /\ Forall (usable size) (take (Z.to_nat (res - rlen)) got))) h0.
Proof.
  induction slots as [|m slots IH]; intros rlen h0 Hs Hsl Hr; cbn [recv_tcp_loop].
  { cbn. split; [done|]. split; [done|]. right. right. split; [change (zlen []) with 0; lia|]. rewrite take_nil. constructor. }
  apply Forall_cons in Hsl as [Hm Hsl]. apply wp_bind. eapply wp_mono; [by apply wp_round|].
  intros r h1 [Hr1 Hh1]. rewrite zlen_cons. pose proof (zlen_nonneg slots). destruct r as [m'|res|res m']; cbn [round_ok] in Hr1.
  - apply wp_bind. eapply wp_mono; [apply IH; [done|done|lia]|].
    intros [res got] h2 (Hlen & Hh2 & Hres). cbn [wp]. split; [cbn; by rewrite Hlen|]. split; [set_solver|].
    destruct Hres as [Hres|[Hres|[Hres Hu]]]; [by left|by right; left|]. right. right. split; [lia|].
    replace (Z.to_nat (res - rlen)) with (S (Z.to_nat (res - (rlen + 1)))) by lia. cbn [take]. by constructor.
  - cbn [wp]. split; [done|]. split; [done|]. destruct (Z.ltb_spec 0 rlen).
    + right. right. split; [lia|]. rewrite Z.sub_diag. constructor.
    + destruct Hr1; [by left|by right; left].
  - cbn [wp]. split; [done|]. split; [done|]. destruct Hr1; [by left|by right; left].
Qed.

Lemma recv_udp_loop_safe size slots : forall data,
  5 <= size -> Forall (slot size) slots ->
  Forall2 dgram_ok (take (length data) (map msg_len slots)) data ->
  exists ok got, recv_udp_loop slots data = Val (ok, got) /\ length got = length slots /\
    (ok = true -> Forall (usable size) (take (length data) got)).
Proof.
  induction slots as [|m slots IH]; intros data Hs Hsl Hd.
  { destruct data; [|cbn in Hd; inversion Hd]. exists true, []. split; [done|]. split; [done|constructor]. }
  apply Forall_cons in Hsl as [[Hm Hml] Hsl]. destruct data as [|d data].
  { exists true, (m :: slots). split; [done|]. split; [done|constructor]. }
  inversion Hd as [|? ? ? ? [Hdl Hdb] Hd']; subst. cbn [recv_udp_loop].
  destruct (put_n_fits (msg_buf m) 0 (dg_data d)) as (b & -> & Lb); [lia|lia|]. cbn [obind].
  assert (exists al, hev_socks5_addr_len (drop 3 b) = Val al) as (al & ->).
  { assert (2 <= zlen (drop 3 b)) as L2 by (unfold zlen in *; rewrite length_drop; lia).
    destruct (drop 3 b) as [|x [|y l]]; [unfold zlen in L2; cbn in L2; lia..|].
    unfold hev_socks5_addr_len. change (rd (x :: y :: l) 0) with (Val x). change (rd (x :: y :: l) 1) with (Val y). cbn [obind].
    repeat case_match; eauto. }
  cbn [obind]. destruct (IH data Hs Hsl Hd') as (ok & got & -> & Lg & Hu).
  destruct (Z.ltb_spec (zlen (dg_data d)) 4).
  { cbn [obind]. eexists ok, _. split; [done|]. split; [cbn; by rewrite Lg|]. intros Hok. cbn. constructor; [by left|auto]. }
  destruct (Z.leb_spec al 0); [by eexists false, _|]. destruct (Z.ltb_spec (zlen (dg_data d)) (3 + al)); [by eexists false, _|].
  cbn [obind]. eexists ok, _. split; [done|]. split; [cbn; by rewrite Lg|]. intros Hok. cbn [length take].
  constructor; [|auto]. right. cbn [msg_addr msg_len msg_buf]. unfold zlen in *. rewrite !length_drop. split; [|lia].
  eexists. split; [done|]. rewrite length_drop. lia.
Qed.


Lemma full_ok n bs : is_bytes bs -> zlen bs <= n -> recv_ok n (full bs).
Proof. intros Hb Hn. pose proof (zlen_nonneg bs). split_and!; [done|cbn [full rret rdata]; lia|done]. Qed.

(** C40: a control connection that ends inside a header takes the relay down.  When
    between one and four bytes of a header arrive and then the end of the stream,
    [hev_socks5_udp_recvmmsg_tcp] returns the number of bytes, which
    [hev_socks5_udp_fwd_f] takes for a number of messages, and it uses an address
    pointer that was never set. *)
Theorem udp_truncated_header_crash inet_pton (self : SocksServer.HevSocks5Server) fd blocks addrs bound bs :
  type (SocksServer.base self) = HEV_SOCKS5_TYPE_UDP_IN_TCP -> blocks <> [] ->
  is_bytes bs -> 0 < zlen bs < 5 ->
  psteps (hev_socks5_udp_fwd_f inet_pton self fd blocks addrs bound)
    [EvRecv (get_fd self) 5 DontWait (full bs); EvRecv (get_fd self) (5 - zlen bs) WaitAll (full [])] Crash.
Proof.
  intros Ht Hb Bb Hl. destruct blocks as [|b blocks]; [done|].
  unfold hev_socks5_udp_fwd_f, hev_socks5_udp_recvmmsg. change (udp_self self) with (SocksServer.base self). rewrite Ht.
  cbn [hev_socks5_udp_recvmmsg_tcp map recv_tcp_loop recv_tcp_round recv bind recv_flag].
  unfold hev_socks5_udp_recvmmsg_tcp, recv_tcp_loop, recv_tcp_round. cbn [recv bind recv_flag].
  eapply psteps_cons; [apply step_recv, full_ok; (done || lia)|]. cbn [full rret rdata].
  rewrite (proj2 (Z.ltb_lt 0 (zlen bs))), (proj2 (Z.ltb_lt (zlen bs) 5)) by lia. cbn [andb bind recv].
  eapply psteps_cons; [apply step_recv, full_ok; [constructor|change (zlen []) with 0; lia]|]. cbn [full rret rdata bind].
  change (zlen []) with 0. rewrite Z.add_0_r, (proj2 (Z.eqb_neq _ _)) by lia. cbn [negb bind].
  change (0 <? 0) with false. cbn [bind]. rewrite (proj2 (Z.ltb_lt 0 (zlen bs))) by lia.
  destruct (Z.to_nat (zlen bs)) as [|n] eqn:En; [lia|]. cbn [fwd_f_dests]. apply psteps_nil.
Qed.

(** ** Examples: a datagram to 10.0.0.1:53 *)

Definition example_datagram : datagram := mkDatagram (EIPv4 [10; 0; 0; 1] 13568) [1; 2; 3].
Definition example_msg : HevSocks5UDPMsg := mkMsg (At (encode (dst example_datagram))) [1; 2; 3] 3.
Definition example_slot : HevSocks5UDPMsg := mkMsg Unset (replicate 1500 0) 1500.
Definition example_relay : SocksServer.HevSocks5Server :=
  SocksServer.with_base (SocksServer.hev_socks5_server_construct 3)
    (set_type (SocksServer.base (SocksServer.hev_socks5_server_construct 3)) HEV_SOCKS5_TYPE_UDP_IN_TCP).

Lemma example_endpoint : endpoint_ok (dst example_datagram).
Proof. split_and!; [reflexivity|bytes_concrete|split; vm_compute; congruence]. Qed.

Lemma example_fits : fits 1500 example_datagram.
Proof. split; [exact example_endpoint|]. vm_compute. split_and!; congruence. Qed.

Lemma example_carries : carries example_msg example_datagram.
Proof. split_and!; [exists []; reflexivity|exists []; reflexivity|reflexivity]. Qed.


Lemma udp_relay_forwards_witness :
  fed 3 (frame example_datagram)
    (hev_socks5_udp_fwd_f example_pton example_relay 7 [replicate 1500 0] (fun _ => mkSA 0 0 (replicate 16 0)) true)
    (fun '(_, _, self') s _ => self' = example_relay /\ s = []) [].
Proof.
  pose proof (udp_relay_forwards example_pton example_relay 7 [replicate 1500 0] (fun _ => mkSA 0 0 (replicate 16 0)) true
    [example_datagram]) as F.
  eapply fed_mono; [apply F|].
  - exact example_pton_ok.
  - reflexivity.
  - repeat constructor.
  - discriminate.
  - intros _. apply (bool_decide_unpack _). vm_compute. exact I.
  - constructor; [apply example_fits|constructor].
  - repeat constructor; discriminate.
  - discriminate.
  - intros [[r b] s'] s h (-> & -> & _). split; reflexivity.
Defined.

Lemma udp_datagram_roundtrip_witness :
  exists k k',
    hev_socks5_udp_sendmmsg_udp example_relay [example_msg] = SendMM 3 [(None, packet example_datagram)] k /\
    hev_socks5_udp_recvmmsg_udp example_relay [example_slot] true = RecvMM 3 [1500] DontWait k'.
Proof.
  destruct (udp_datagram_roundtrip _ _ example_relay example_relay 1500 [example_msg] [example_datagram] [example_slot] true)
    as (k & k' & E & E' & _).
  - constructor; [apply example_carries|constructor].
  - constructor; [split; [apply example_endpoint|vm_compute; congruence]|constructor].
  - discriminate.
  - repeat constructor.
  - reflexivity.
  - exists k, k'. split; [exact E|exact E'].
Defined.


Lemma udp_truncated_header_crash_witness :
  psteps (hev_socks5_udp_fwd_f example_pton example_relay 7 [replicate 1500 0] (fun _ => mkSA 0 0 (replicate 16 0)) true)
    [EvRecv 3 5 DontWait (full [0; 3]); EvRecv 3 3 WaitAll (full [])] Crash.
Proof.
  apply (udp_truncated_header_crash example_pton example_relay 7 [replicate 1500 0] (fun _ => mkSA 0 0 (replicate 16 0)) true [0; 3]).
  - reflexivity.
  - discriminate.
  - bytes_concrete.
  - split; reflexivity.
Defined.

End SocksUDP.
