(* ===== verification/Splice.v ===== *)
(** * Copying between two sockets (hev-task-system: lib/io/buffer/hev-circular-buffer.c,
      lib/io/basic/hev-task-io.c; src/core/src/hev-socks5-tcp.c)

    The circular buffer of one direction, [hev_task_io_splice] without the splice
    system call, and the TCP splicer of the server.  A circular buffer is the ring
    buffer of [RingBuffer] without the part in flight ([to_ring]). *)

From Stdlib Require Import ZArith Lia.
From stdpp Require Import base list gmap numbers.
From S2P Require Import Prelude CBytes RingBuffer SocketIO SocksMisc Socks5 SocksUDP.
Import list_basics.list list_relations.list list_monad.list list_misc.list.
Import SocketIO SocksMisc Socks5.

Module Splice.

(** ** Circular buffer *)

Record HevCircularBuffer := mkCirc {
  rp : Z;
  use_size : Z;
  max_size : Z;
  ref_count : Z;
  data : bytes;
}.

(** [mem] is what the allocated memory holds. *)
Definition hev_circular_buffer_new (size : Z) (mem : bytes) : HevCircularBuffer := mkCirc 0 0 size 1 mem.

Definition hev_circular_buffer_ref (self : HevCircularBuffer) : HevCircularBuffer :=
  mkCirc (rp self) (use_size self) (max_size self) (u32 (ref_count self + 1)) (data self).

(** [None] when the buffer is freed. *)
Definition hev_circular_buffer_unref (self : HevCircularBuffer) : option HevCircularBuffer :=
  let n := u32 (ref_count self - 1) in
  if n =? 0 then None
  else Some (mkCirc (rp self) (use_size self) (max_size self) n (data self)).

Definition hev_circular_buffer_get_max_size (self : HevCircularBuffer) : Z := max_size self.

Definition hev_circular_buffer_get_use_size (self : HevCircularBuffer) : Z := use_size self.

Abbreviation iovec := RingBuffer.iovec.
Abbreviation mkIov := RingBuffer.mkIov.

Definition hev_circular_buffer_reading (self : HevCircularBuffer) : list iovec :=
  let upper_size := u64 (max_size self - rp self) in
  if 0 =? use_size self then []
  else if use_size self <=? upper_size then [mkIov (rp self) (use_size self)]
  else [mkIov (rp self) upper_size; mkIov 0 (u64 (use_size self - upper_size))].

Definition hev_circular_buffer_read_finish (self : HevCircularBuffer) (size : Z) : HevCircularBuffer :=
  mkCirc (u64 (rp self + size) mod max_size self) (u64 (use_size self - size)) (max_size self)
    (ref_count self) (data self).

Definition hev_circular_buffer_writing (self : HevCircularBuffer) : list iovec :=
  let wp := u64 (rp self + use_size self) mod max_size self in
  let upper_size := u64 (max_size self - wp) in
  let spc_size := u64 (max_size self - use_size self) in
  if use_size self =? max_size self then []
  else if spc_size <=? upper_size then [mkIov wp spc_size]
  else [mkIov wp upper_size; mkIov 0 (u64 (spc_size - upper_size))].

Definition hev_circular_buffer_write_finish (self : HevCircularBuffer) (size : Z) : HevCircularBuffer :=
  mkCirc (rp self) (u64 (use_size self + size)) (max_size self) (ref_count self) (data self).

(** ** One direction *)

(** [readv] stores the bytes over the segments, [writev] collects them. *)
Fixpoint readv_store (d : bytes) (iov : list iovec) (bs : bytes) : outcome bytes :=
  match iov with
  | [] => Val d
  | i :: iov =>
      let n := Z.to_nat (RingBuffer.iov_len i) in
      let! d := put_n d (RingBuffer.iov_base i) (take n bs) in
      readv_store d iov (drop n bs)
  end.

Fixpoint writev_load (d : bytes) (iov : list iovec) : outcome bytes :=
  match iov with
  | [] => Val []
  | i :: iov =>
      let! x := get_n d (RingBuffer.iov_base i) (RingBuffer.iov_len i) in
      let! y := writev_load d iov in
      Val (x ++ y)
  end.

Definition with_bytes (self : HevCircularBuffer) (d : bytes) : HevCircularBuffer :=
  mkCirc (rp self) (use_size self) (max_size self) (ref_count self) d.

Definition task_io_splice (buf : HevCircularBuffer) (fd_in fd_out : Z) : proc (Z * HevCircularBuffer) :=
  let iov := hev_circular_buffer_writing buf in
  pdo (res, buf) :=
    (match iov with
     | [] => Ret (1, buf)
     | _ =>
         pdo a := recv fd_in (RingBuffer.iov_total iov) DontWait in
         if rret a <=? 0 then Ret (if (rret a <? 0) && ragain a then 0 else -1, buf)
         else
           pdo d := lift (readv_store (data buf) iov (rdata a)) in
           Ret (1, hev_circular_buffer_write_finish (with_bytes buf d) (rret a))
     end) in
  let iov := hev_circular_buffer_reading buf in
  match iov with
  | [] =>
      if res <? 0 then pdo _ := syscall (CShutdown fd_out) in Ret (res, buf)
      else Ret (res, buf)
  | _ =>
      pdo bs := lift (writev_load (data buf) iov) in
      pdo (s, again) := send fd_out bs in
      if s <=? 0 then Ret (if (s <? 0) && again then 0 else -1, buf)
      else Ret (1, hev_circular_buffer_read_finish buf s)
  end.

(** ** Both directions *)

Record splice_state := mkSplice {
  splicer_f : HevCircularBuffer;
  splicer_b : HevCircularBuffer;
  res_f : Z;
  res_b : Z;
}.

(** One round; [inr] when the loop ends. *)
Definition splice_round (yielder : HevTaskYieldType -> proc Z) (fd_a_i fd_a_o fd_b_i fd_b_o : Z) (s : splice_state)
  : proc (splice_state + splice_state) :=
  pdo (rf, f) := (if 0 <=? res_f s then task_io_splice (splicer_f s) fd_a_i fd_b_o else Ret (res_f s, splicer_f s)) in
  pdo (rb, b) := (if 0 <=? res_b s then task_io_splice (splicer_b s) fd_b_i fd_a_o else Ret (res_b s, splicer_b s)) in
  let s := mkSplice f b rf rb in
  let next ty := pdo stop := yielder ty in Ret (if negb (stop =? 0) then inr s else inl s) in
  if (0 <? rf) || (0 <? rb) then next HEV_TASK_YIELD
  else if Z.land rf rb =? 0 then next HEV_TASK_WAITIO
  else Ret (inr s).

Fixpoint splice_rounds (n : nat) (yielder : HevTaskYieldType -> proc Z) (fd_a_i fd_a_o fd_b_i fd_b_o : Z)
    (s : splice_state) : proc (splice_state + splice_state) :=
  match n with
  | O => Ret (inl s)
  | S n =>
      pdo r := splice_round yielder fd_a_i fd_a_o fd_b_i fd_b_o s in
      match r with
      | inl s => splice_rounds n yielder fd_a_i fd_a_o fd_b_i fd_b_o s
      | inr s => Ret (inr s)
      end
  end.

(** Size of [HevCircularBuffer] on the LP64 targets. *)
Definition sizeof_circular_buffer : Z := 32.

(** [false] while the loop goes on after [n] rounds; [mem] is what the allocated
    memory holds. *)
Definition hev_task_io_splice (n : nat) (fd_a_i fd_a_o fd_b_i fd_b_o buf_size : Z)
    (yielder : HevTaskYieldType -> proc Z) (mem_f mem_b : bytes) : proc bool :=
  pdo p := syscall (CMalloc (sizeof_circular_buffer + buf_size)) in
  if p =? 0 then Ret true
  else
    pdo q := syscall (CMalloc (sizeof_circular_buffer + buf_size)) in
    if q =? 0 then Ret true
    else
      pdo r := splice_rounds n yielder fd_a_i fd_a_o fd_b_i fd_b_o
        (mkSplice (hev_circular_buffer_new buf_size mem_f) (hev_circular_buffer_new buf_size mem_b) 1 1) in
      match r with
      | inl _ => Ret false
      | inr _ => Ret true
      end.

(** ** The TCP splicer *)

(** [None] while it goes on. *)
Definition hev_socks5_tcp_splicer (n : nat) (self : HevSocks5) (sock : Z) (mem_f mem_b : bytes) : proc (option Z) :=
  let cfd := fd self in
  if cfd <? 0 then Ret (Some (-1))
  else
    pdo res := syscall (CAddFd sock) in
    pdo _ := (if res <? 0 then syscall (CModFd sock) else Ret 0) in
    pdo done := hev_task_io_splice n cfd cfd sock sock 8192 (fun ty => SocksUDP.yielder_sleep ty self) mem_f mem_b in
    Ret (if done : bool then Some 0 else None).

(** ** The circular buffer is a queue *)

Record wf (c : HevCircularBuffer) : Prop := {
  wf_max : 0 < max_size c < 2 ^ 63;
  wf_data : zlen (data c) = max_size c;
  wf_use : 0 <= use_size c <= max_size c;
  wf_rp : 0 <= rp c < max_size c;
}.

Definition contents (c : HevCircularBuffer) : bytes := RingBuffer.window (data c) (rp c) (use_size c).

(** The same bytes in a ring buffer with nothing in flight. *)
Definition to_ring (c : HevCircularBuffer) : RingBuffer.HevRingBuffer :=
  RingBuffer.mkRing (rp c) ((rp c + use_size c) mod max_size c) (use_size c) (use_size c) (max_size c) (data c).

Lemma to_ring_wf c : wf c -> RingBuffer.wf (to_ring c).
Proof. intros [Hm Hd Hu Hr]. constructor; cbn; (done || lia). Qed.

Lemma contents_used c : wf c -> contents c = RingBuffer.used (to_ring c).
Proof.
  intros W. pose proof (RingBuffer.window_rp _ (to_ring_wf c W)) as E. cbn in E. by rewrite Z.sub_diag in E.
Qed.

Lemma length_contents c : wf c -> zlen (contents c) = use_size c.
Proof.
  intros W. rewrite contents_used by done. unfold zlen. rewrite RingBuffer.length_used by by apply to_ring_wf.
  cbn. destruct W. lia.
Qed.

Lemma reading_ring c : hev_circular_buffer_reading c = RingBuffer.hev_ring_buffer_reading (to_ring c).
Proof. done. Qed.

Lemma writing_ring c : wf c -> hev_circular_buffer_writing c = RingBuffer.hev_ring_buffer_writing (to_ring c).
Proof.
  intros [Hm Hd Hu Hr]. unfold hev_circular_buffer_writing, RingBuffer.hev_ring_buffer_writing. cbn.
  by rewrite (u64_id (rp c + use_size c)) by lia.
Qed.

Lemma readv_store_ok m iov : forall d bs,
  Forall (RingBuffer.iov_in m) iov -> zlen d = m -> readv_store d iov bs = Val (RingBuffer.scatter d iov bs).
Proof.
  induction iov as [|i iov IH]; intros d bs Hi Hd; [done|]. apply Forall_cons in Hi as [(H1 & H2 & H3) Hi]. cbn.
  assert (zlen (take (Z.to_nat (RingBuffer.iov_len i)) bs) <= RingBuffer.iov_len i)
    by (unfold zlen; rewrite length_take; lia).
  rewrite put_n_const by lia. cbn [obind]. apply IH; [done|].
  unfold zlen in *. rewrite length_splice; lia.
Qed.

Lemma writev_load_ok m iov d :
  Forall (RingBuffer.iov_in m) iov -> zlen d = m -> writev_load d iov = Val (RingBuffer.gather d iov).
Proof.
  intros Hi Hd. induction Hi as [|i iov (H1 & H2 & H3) Hi IH]; [done|]. cbn. rewrite IH.
  destruct (split_at d (RingBuffer.iov_base i) (RingBuffer.iov_len i)) as (p & x & s & -> & Hp & Hx); [lia..|].
  rewrite (get_n_app p x s) by done. cbn. do 2 f_equal. unfold slice.
  replace (Z.to_nat (RingBuffer.iov_base i)) with (length p) by (unfold zlen in Hp; lia). rewrite drop_app_length.
  replace (Z.to_nat (RingBuffer.iov_len i)) with (length x) by (unfold zlen in Hx; lia). by rewrite take_app_length.
Qed.

(** Storing what [readv] returned appends it. *)
Lemma write_ok c bs : wf c -> 0 < zlen bs <= max_size c - use_size c ->
  exists d, readv_store (data c) (hev_circular_buffer_writing c) bs = Val d /\
    wf (hev_circular_buffer_write_finish (with_bytes c d) (zlen bs)) /\
    contents (hev_circular_buffer_write_finish (with_bytes c d) (zlen bs)) = contents c ++ bs.
Proof.
  intros W Hb. pose proof (to_ring_wf c W) as Wr.
  destruct (RingBuffer.writing_in_bounds _ Wr) as [Hi _].
  rewrite writing_ring by done. rewrite (readv_store_ok (max_size c)) by (done || apply W). eexists. split; [done|].
  assert (RingBuffer.op_ok (to_ring c) (RingBuffer.OpWrite bs)) as Ho by (cbn; lia).
  set (c' := hev_circular_buffer_write_finish _ _).
  assert (to_ring c' = RingBuffer.ring_write (to_ring c) bs) as E.
  { destruct W. unfold c', to_ring, RingBuffer.ring_write, RingBuffer.hev_ring_buffer_write_finish. cbn.
    assert ((rp c + use_size c) mod max_size c < max_size c) by (apply Z.mod_pos_bound; lia).
    assert (0 <= (rp c + use_size c) mod max_size c) by (apply Z.mod_pos_bound; lia).
    rewrite !u64_id by lia. f_equal. rewrite Z.add_mod_idemp_l by lia. f_equal. lia. }
  assert (wf c') as W'.
  { pose proof (RingBuffer.ring_write_wf _ _ Wr Ho) as W'. rewrite <- E in W'.
    destruct W' as [w1 w2 w3 w4 w5 w6]. cbn in *. constructor; (done || cbn; lia). }
  split; [done|]. rewrite !contents_used by done. rewrite E. by apply RingBuffer.used_write.
Qed.

(** The segments of [reading] hold the contents, and finishing drops what was read. *)
Lemma read_ok c : wf c ->
  writev_load (data c) (hev_circular_buffer_reading c) = Val (contents c) /\
  (hev_circular_buffer_reading c = [] <-> contents c = []) /\
  forall n, 0 <= n <= use_size c ->
    wf (hev_circular_buffer_read_finish c n) /\
    contents (hev_circular_buffer_read_finish c n) = drop (Z.to_nat n) (contents c).
Proof.
  intros W. pose proof (to_ring_wf c W) as Wr. destruct (RingBuffer.reading_in_bounds _ Wr) as [Hi Ht].
  split; [|split].
  - rewrite reading_ring, (writev_load_ok (max_size c)) by (done || apply W). f_equal. exact (RingBuffer.gather_reading _ Wr).
  - pose proof (length_contents c W) as Hl. unfold hev_circular_buffer_reading. destruct (Z.eqb_spec 0 (use_size c)) as [E|E].
    + split; [|done]. intros _. destruct (contents c); [done|]. rewrite zlen_cons in Hl. pose proof (zlen_nonneg l). lia.
    + split; [by case_match|]. intros E'. rewrite E' in Hl. change (zlen []) with 0 in Hl. lia.
  - intros n Hn. assert (RingBuffer.op_ok (to_ring c) (RingBuffer.OpRead n)) as Ho by (cbn; lia).
    pose proof (RingBuffer.read_finish_wf _ _ Wr Ho) as W'. pose proof (RingBuffer.window_rp _ W') as E. split.
    + destruct W' as [w1 w2 w3 w4 w5 w6]. cbn in *. constructor; cbn; (done || lia).
    + rewrite RingBuffer.used_read_finish, <- contents_used in E by done. cbn in E. unfold contents at 1. cbn.
      rewrite E. f_equal. destruct W. rewrite u64_id by lia. lia.
Qed.

Lemma new_wf size mem : 0 < size < 2 ^ 63 -> zlen mem = size ->
  wf (hev_circular_buffer_new size mem) /\ contents (hev_circular_buffer_new size mem) = [].
Proof.
  intros Hs Hm. assert (wf (hev_circular_buffer_new size mem)) as W by (constructor; cbn; (done || lia)).
  split; [done|]. pose proof (length_contents _ W) as Hl. cbn in Hl.
  destruct (contents _); [done|]. rewrite zlen_cons in Hl. pose proof (zlen_nonneg l). lia.
Qed.

(** ** Integrity of the copied streams *)

Lemma received_recv_ne fd h fd' n w a : fd' <> fd -> received fd (h ++ [EvRecv fd' n w a]) = received fd h.
Proof. intros H. rewrite received_app. cbn. rewrite (proj2 (Z.eqb_neq _ _) H). by rewrite app_nil_r. Qed.

Lemma received_recv_eq fd h n w a : received fd (h ++ [EvRecv fd n w a]) = received fd h ++ rdata a.
Proof. rewrite received_app. cbn. by rewrite Z.eqb_refl, app_nil_r. Qed.

Lemma received_other fd h e : match e with EvRecv _ _ _ _ => False | _ => True end -> received fd (h ++ [e]) = received fd h.
Proof. intros H. rewrite received_app. destruct e; try done; cbn; by rewrite app_nil_r. Qed.

Lemma sent_send_eq fd h bs r : sent fd (h ++ [EvSend fd bs r]) = sent fd h ++ take (Z.to_nat r.1) bs.
Proof. rewrite sent_app. cbn. by rewrite Z.eqb_refl, app_nil_r. Qed.

Lemma sent_send_ne fd h fd' bs r : fd' <> fd -> sent fd (h ++ [EvSend fd' bs r]) = sent fd h.
Proof. intros H. rewrite sent_app. cbn. rewrite (proj2 (Z.eqb_neq _ _) H). by rewrite app_nil_r. Qed.

Lemma sent_other fd h e : match e with EvSend _ _ _ => False | _ => True end -> sent fd (h ++ [e]) = sent fd h.
Proof. intros H. rewrite sent_app. destruct e; try done; cbn; by rewrite app_nil_r. Qed.

(** A direction is over: its output was shut down, or a write failed. *)
Definition ended (o : Z) (h : history) : Prop :=
  (exists r, EvCall (CShutdown o) r ∈ h) \/
  (exists bs r ag, EvSend o bs (r, ag) ∈ h /\ r <= 0 /\ (r <? 0) && ag = false).

(** From [i] to [o]: the bytes offered to [o] are those received and not yet accepted;
    [o] is shut down only when there are none. *)
Definition faithful (i o : Z) (h : history) (e : event) : Prop :=
  match e with
  | EvSend fd bs _ => fd = o -> received i h = sent o h ++ bs
  | EvCall (CShutdown fd) _ => fd = o -> received i h = sent o h
  | _ => True
  end.

Definition copied (i o : Z) (c : HevCircularBuffer) (h : history) : Prop :=
  wf c /\ received i h = sent o h ++ contents c.

Section direction.
Context (i o : Z) (io : i <> o).

(** What one call does to the other direction: nothing. *)
Definition apart (h0 h : history) : Prop := received o h = received o h0 /\ sent i h = sent i h0 /\ h0 ⊆ h.

Lemma apart_refl h : apart h h.
Proof. split_and!; done. Qed.

Lemma apart_recv h0 h n w a : apart h0 h -> apart h0 (h ++ [EvRecv i n w a]).
Proof.
  intros (H1 & H2 & H3). split_and!; [by rewrite received_recv_ne|by rewrite sent_other|set_solver].
Qed.

Lemma apart_send h0 h bs r : apart h0 h -> apart h0 (h ++ [EvSend o bs r]).
Proof.
  intros (H1 & H2 & H3). split_and!; [by rewrite received_other|by rewrite sent_send_ne|set_solver].
Qed.

Lemma apart_call h0 h c r : apart h0 h -> apart h0 (h ++ [EvCall c r]).
Proof.
  intros (H1 & H2 & H3). split_and!; [by rewrite received_other|by rewrite sent_other|set_solver].
Qed.

Context (G : history -> event -> Prop).
Context (G_ok : forall h e, match e with
  | EvRecv fd _ _ _ => fd = i | EvSend fd _ _ => fd = o | EvCall (CShutdown fd) _ => fd = o | _ => False
  end -> faithful i o h e -> G h e).

Lemma wp_drain res c h0 h :
  apart h0 h -> copied i o c h ->
  wp G (match hev_circular_buffer_reading c with
        | [] =>
            if res <? 0 then pdo _ := syscall (CShutdown o) in Ret (res, c)
            else Ret (res, c)
        | _ =>
            pdo bs := lift (writev_load (data c) (hev_circular_buffer_reading c)) in
            pdo (s, again) := send o bs in
            if s <=? 0 then Ret (if (s <? 0) && again then 0 else -1, c)
            else Ret (1, hev_circular_buffer_read_finish c s)
        end)
    (fun '(res, c') h => apart h0 h /\ copied i o c' h /\ (res < 0 -> ended o h)) h.
Proof.
  intros Ha [W E]. destruct (read_ok c W) as (Hload & Hnil & Hfin).
  destruct (hev_circular_buffer_reading c) as [|v iov] eqn:Er.
  - assert (contents c = []) as Ec by by apply Hnil. rewrite Ec, app_nil_r in E.
    destruct (Z.ltb_spec res 0); cbn [bind syscall wp].
    + intros r. split; [apply G_ok; [reflexivity|intros _; exact E]|]. split; [by apply apart_call|]. split; [|intros _; left; exists r; set_solver].
      split; [done|]. by rewrite received_other, sent_other, Ec, app_nil_r.
    + split; [done|]. split; [|lia]. split; [done|]. by rewrite Ec, app_nil_r.
  - rewrite Hload. cbn [lift bind send wp]. intros [s ag] Hs. cbn in Hs. split; [apply G_ok; [reflexivity|intros _; exact E]|].
    pose proof (length_contents c W) as Hl.
    destruct (Z.leb_spec s 0).
    + cbn [wp]. split; [by apply apart_send|]. split.
      * split; [done|]. rewrite received_other, sent_send_eq by done. cbn.
        replace (Z.to_nat s) with 0%nat by lia. cbn. by rewrite app_nil_r.
      * intros Hr. right. exists (contents c), s, ag. split; [set_solver|]. split; [done|].
        destruct ((s <? 0) && ag); [lia|done].
    + cbn [wp]. split; [by apply apart_send|]. destruct (Hfin s) as [W' E']; [lia|]. split; [|lia].
      split; [done|]. rewrite received_other, sent_send_eq, E' by done. cbn [fst].
      rewrite <- app_assoc, take_drop. done.
Qed.

Lemma wp_direction c h0 :
  copied i o c h0 ->
  wp G (task_io_splice c i o) (fun '(res, c') h => apart h0 h /\ copied i o c' h /\ (res < 0 -> ended o h)) h0.
Proof.
  intros [W E]. unfold task_io_splice. destruct (hev_circular_buffer_writing c) as [|v iov] eqn:Ew.
  { cbn [bind]. apply wp_drain; [apply apart_refl|done]. }
  cbn [recv bind wp]. rewrite <- Ew. intros a (Ha1 & Ha2 & Ha3). split; [apply G_ok; [reflexivity|exact I]|].
  destruct (RingBuffer.writing_in_bounds _ (to_ring_wf c W)) as [_ Ht]. rewrite <- writing_ring in Ht by done.
  rewrite Ht in Ha1. cbn in Ha1. destruct (Z.leb_spec (rret a) 0).
  - cbn [bind]. apply wp_drain; [apply apart_recv, apart_refl|]. split; [done|].
    rewrite received_recv_eq, sent_other by done.
    assert (rdata a = []) as -> by (destruct (rdata a); [done|]; rewrite zlen_cons in Ha2; pose proof (zlen_nonneg l); lia).
    by rewrite app_nil_r.
  - destruct (write_ok c (rdata a) W) as (d & -> & W' & E'); [lia|]. cbn [lift bind].
    replace (rret a) with (zlen (rdata a)) by lia.
    apply wp_drain; [apply apart_recv, apart_refl|]. split; [done|].
    rewrite received_recv_eq, sent_other, E', E by done. by rewrite app_assoc.
Qed.

End direction.

(** At every moment the bytes accepted by [o] are a prefix of those received on [i]. *)
Lemma faithful_prefix i o tr :
  (forall t1 e t2, tr = t1 ++ e :: t2 -> faithful i o t1 e) -> sent o tr `prefix_of` received i tr.
Proof.
  induction tr as [|e tr IH] using rev_ind; intros H; [done|].
  assert (sent o tr `prefix_of` received i tr) as [x Hx].
  { apply IH. intros t1 e' t2 ->. apply (H t1 e' (t2 ++ [e])). by rewrite <- app_assoc. }
  specialize (H tr e [] eq_refl). rewrite sent_app, received_app, Hx. destruct e as [| s| | | | |]; cbn; rewrite ?app_nil_r.
  2: { destruct (Z.eqb_spec s o) as [->|]; [|rewrite app_nil_r; by exists x]. cbn in H. specialize (H eq_refl).
       rewrite <- Hx, H. apply prefix_app, prefix_take. }
  all: try (by exists x). rewrite <- app_assoc. by eexists.
Qed.

(** The yielder asked for the end: the time was up. *)
Definition stopped (h : history) : Prop := exists ms r, EvCall (CSleep ms) r ∈ h /\ r <= 0.

Lemma stopped_mono h h' : h ⊆ h' -> stopped h -> stopped h'.
Proof. intros Hh (ms & r & H & Hr). exists ms, r. auto. Qed.

Lemma ended_mono o h h' : h ⊆ h' -> ended o h -> ended o h'.
Proof.
  intros Hh [[r H]|(bs & r & ag & H & Hr)]; [left; exists r; auto|right; exists bs, r, ag; auto].
Qed.

Section both.
Context (a b : Z) (ab : a <> b) (self : HevSocks5).

Definition guard (h : history) (e : event) : Prop := faithful a b h e /\ faithful b a h e.

Definition invariant (s : splice_state) (h : history) : Prop :=
  copied a b (splicer_f s) h /\ copied b a (splicer_b s) h /\
  (res_f s < 0 -> ended b h) /\ (res_b s < 0 -> ended a h).

Lemma wp_yielder ty h0 :
  wp guard (SocksUDP.yielder_sleep ty self)
    (fun r h => (r <> 0 -> stopped h) /\ (h = h0 \/ exists ms r, h = h0 ++ [EvCall (CSleep ms) r])) h0.
Proof.
  unfold SocksUDP.yielder_sleep. destruct ty; cbn [wp]; [split; [done|by left]|].
  destruct (timeout self <? 0) eqn:Et; cbn [bind syscall wp].
  { split; [|by left]. unfold hev_socks5_task_io_yielder. by rewrite Et. }
  intros r. split; [done|]. split; [|right; by eexists _, _]. unfold hev_socks5_task_io_yielder. rewrite Et.
  destruct (Z.leb_spec r 0); [|done]. intros _. exists (timeout self), r. split; [set_solver|done].
Qed.

Lemma copied_call i o c h cl r : copied i o c h -> copied i o c (h ++ [EvCall cl r]).
Proof. intros [W E]. split; [done|]. by rewrite received_other, sent_other. Qed.

Lemma invariant_call s h cl r : invariant s h -> invariant s (h ++ [EvCall cl r]).
Proof.
  intros (Hf & Hb & Ef & Eb). split_and!; [by apply copied_call|by apply copied_call|..];
    intros ?; (eapply ended_mono; [|auto]); set_solver.
Qed.

(** One direction runs and keeps the other one. *)
Lemma wp_one i o c c' h0 : i <> o -> (forall h e, guard h e <-> faithful i o h e /\ faithful o i h e) ->
  copied i o c h0 -> copied o i c' h0 ->
  wp guard (task_io_splice c i o)
    (fun '(res, c) h => copied i o c h /\ copied o i c' h /\ (res < 0 -> ended o h) /\ h0 ⊆ h) h0.
Proof.
  intros Hio Hg Hc Hc'. eapply wp_mono; [apply (wp_direction i o Hio guard); [|done]|].
  - intros h e Hk Hfe. apply Hg. split; [done|]. destruct e as [| | | | | |cl]; cbn in *; try done; [intros ->; done|].
    destruct cl; try done. intros ->. done.
  - intros [res c2] h ((H1 & H2 & H3) & Hc2 & He). destruct Hc' as [W E]. split_and!; [done| |done|done].
    split; [done|]. by rewrite H1, H2.
Qed.

Lemma wp_splice_round s h0 :
  invariant s h0 ->
  wp guard (splice_round (fun ty => SocksUDP.yielder_sleep ty self) a a b b s)
    (fun r h => match r with
       | inl s' => invariant s' h
       | inr s' => invariant s' h /\ (stopped h \/ res_f s' < 0 /\ res_b s' < 0)
       end) h0.
Proof.
  intros (Hf & Hb & Ef & Eb). unfold splice_round. apply wp_bind.
  apply (wp_mono _ _ (fun '(rf, f) h => copied a b f h /\ copied b a (splicer_b s) h /\ (rf < 0 -> ended b h) /\ h0 ⊆ h)).
  { destruct (0 <=? res_f s); [apply wp_one; [done|done|done|done]|by split_and!]. }
  intros [rf f] h1 (Hf1 & Hb1 & Ef1 & Hh1). cbn beta iota. apply wp_bind.
  apply (wp_mono _ _ (fun '(rb, b') h => copied b a b' h /\ copied a b f h /\ (rb < 0 -> ended a h) /\ h1 ⊆ h)).
  { destruct (0 <=? res_b s); [apply wp_one; [congruence|unfold guard; tauto|done|done]|].
    split_and!; [done..|intros Hr; eapply ended_mono; eauto|done]. }
  intros [rb b'] h2 (Hb2 & Hf2 & Eb2 & Hh2). cbn beta iota.
  assert (invariant (mkSplice f b' rf rb) h2) as Hinv.
  { split_and!; cbn; [done|done| |done]. intros Hr. eapply ended_mono; [exact Hh2|auto]. }
  assert (forall ty, wp guard (pdo stop := SocksUDP.yielder_sleep ty self in
      Ret (if negb (stop =? 0) then inr (mkSplice f b' rf rb) else inl (mkSplice f b' rf rb)))
    (fun r h => match r with
       | inl s' => invariant s' h
       | inr s' => invariant s' h /\ (stopped h \/ res_f s' < 0 /\ res_b s' < 0)
       end) h2) as Hnext.
  { intros ty. apply wp_bind. eapply wp_mono; [apply wp_yielder|]. intros r h [Hs Hh].
    assert (invariant (mkSplice f b' rf rb) h) as Hi by (destruct Hh as [->|(ms & x & ->)]; [done|by apply invariant_call]).
    cbn. destruct (Z.eqb_spec r 0); cbn; [done|]. split; [done|]. left. auto. }
  destruct (Z.ltb_spec 0 rf); [apply Hnext|]. destruct (Z.ltb_spec 0 rb); [apply Hnext|]. cbn [orb].
  destruct (Z.eqb_spec (Z.land rf rb) 0) as [|Hl]; [apply Hnext|]. split; [done|]. right. cbn.
  destruct (decide (rf = 0)) as [->|]; [done|]. destruct (decide (rb = 0)) as [->|]; [by rewrite Z.land_0_r in Hl|]. lia.
Qed.

Lemma wp_splice_rounds n : forall s h0, invariant s h0 ->
  wp guard (splice_rounds n (fun ty => SocksUDP.yielder_sleep ty self) a a b b s)
    (fun r h => match r with
       | inl s' => invariant s' h
       | inr s' => invariant s' h /\ (stopped h \/ res_f s' < 0 /\ res_b s' < 0)
       end) h0.
Proof.
  induction n as [|n IH]; intros s h0 Hi; cbn [splice_rounds]; [done|]. apply wp_bind.
  eapply wp_mono; [by apply wp_splice_round|]. intros [s'|s'] h Hr; [by apply IH|done].
Qed.

End both.


(** Two bytes arrive, one is accepted at first; then the stream ends. *)
Definition example_splice : history :=
  [EvCall (CAddFd 9) 0; EvCall (CMalloc 8224) 64; EvCall (CMalloc 8224) 128;
   EvRecv 3 8192 DontWait (full [7; 8]); EvSend 9 [7; 8] (1, false); EvRecv 9 8192 DontWait (mkR (-1) [] true);
   EvRecv 3 8191 DontWait (full []); EvSend 9 [8] (1, false)].

Definition example_zeros : bytes := replicate (Z.to_nat 8192) 0.
Definition example_splicer : proc (option Z) :=
  hev_socks5_tcp_splicer 3 (set_fd (hev_socks5_construct HEV_SOCKS5_TYPE_TCP) 3) 9 example_zeros example_zeros.


End Splice.
