(* ===== verification/SocksService.v ===== *)
(** * A whole server session (src/core/src/hev-socks5-server.c: service and run)

    Handshake, then the relay that the request asked for. *)

From Stdlib Require Import ZArith Lia.
From stdpp Require Import base list gmap numbers.
From S2P Require Import Prelude CBytes Authenticator SocketIO SocksMisc Socks5 SocksServer SocksUDP Splice.
Import list_basics.list list_relations.list list_monad.list list_misc.list.
Import SocketIO SocksMisc Socks5.

Module SocksService.

(** What uninitialised memory holds. *)
Record leftovers := mkLeftovers {
  left_cmd : Z;
  left_addr : sockaddr_in6;
  left_response : HevSocks5Addr;
  left_splice_f : bytes;
  left_splice_b : bytes;
  left_udp : nat -> SocksUDP.memory;
}.

Section service.
Context (fuel : nat) (inet_pton : Z -> bytes -> option bytes) (misc : HevSocks5Misc) (mem : leftovers).

(** [None] while the relay goes on after [n] rounds. *)
Definition hev_socks5_server_service (n : nat) (self : SocksServer.HevSocks5Server)
  : proc (option (Z * SocksServer.HevSocks5Server)) :=
  match type (SocksServer.base self) with
  | HEV_SOCKS5_TYPE_TCP =>
      pdo r := Splice.hev_socks5_tcp_splicer n (SocksServer.base self) (SocksServer.fds0 self)
        (left_splice_f mem) (left_splice_b mem) in
      Ret (option_map (fun _ => (0, self)) r)
  | HEV_SOCKS5_TYPE_UDP_IN_UDP | HEV_SOCKS5_TYPE_UDP_IN_TCP =>
      let self := SocksServer.with_base self (hev_socks5_set_timeout (SocksServer.base self) (udp_timeout misc)) in
      pdo r := SocksUDP.hev_socks5_udp_splicer inet_pton n misc self (SocksServer.fds0 self) (left_udp mem) in
      Ret (option_map (fun x => (0, x.2)) r)
  | HEV_SOCKS5_TYPE_NONE => Ret (Some (-1, self))
  end.

Definition hev_socks5_server_run (n : nat) (self : SocksServer.HevSocks5Server) (st : SocksServer.auth_store)
  : proc (option (Z * SocksServer.HevSocks5Server * SocksServer.auth_store)) :=
  let fd := fd (SocksServer.base self) in
  pdo res := syscall (CAddFd fd) in
  pdo _ := (if res <? 0 then syscall (CModFd fd) else Ret 0) in
  pdo (res, self, st) := SocksServer.hev_socks5_server_handshake fuel inet_pton (left_cmd mem) (left_addr mem)
    (left_response mem) misc self st in
  if res <? 0 then Ret (Some (-1, self, st))
  else
    pdo r := hev_socks5_server_service n self in
    Ret (option_map (fun '(res, self) => (if res <? 0 then -1 else 0, self, st)) r).

End service.

(** ** Authentication of the whole session *)

(** A run of a composition is a run of the first part, or goes beyond it. *)
Lemma psteps_bind_inv {A B} (p : proc A) (f : A -> proc B) tr p' :
  psteps (bind p f) tr p' ->
  (exists q, psteps p tr q) \/ (exists t1 t2 a, tr = t1 ++ t2 /\ psteps p t1 (Ret a) /\ psteps (f a) t2 p').
Proof.
  intros H. remember (bind p f) as x eqn:Ex. revert p Ex.
  induction H as [x|x e x1 tr x2 H1 H IH]; intros p ->; [left; exists p; constructor|].
  destruct p as [a| |fd n w k|fd bs k|fd lens w k|fd msgs k|nm fam k|fd k|c k]; cbn in H1;
    [right; exists [], (e :: tr), a; split_and!; [done|constructor|by econstructor]|..]; inversion H1; subst;
    (edestruct IH as [[q Hq]|(t1 & t2 & a0 & -> & Hp & Hf)]; [reflexivity
      |left; exists q; eapply psteps_cons; [by constructor|exact Hq]
      |right; eexists (_ :: t1), t2, a0; split_and!; [reflexivity|eapply psteps_cons; [by constructor|exact Hp]|done]]).
Qed.

Lemma psteps_call_inv {A} c (k : Z -> proc A) tr p' :
  psteps (Call c k) tr p' -> tr = [] \/ exists r tr', tr = EvCall c r :: tr' /\ psteps (k r) tr' p'.
Proof. inversion 1 as [|? ? ? ? ? H1 H2]; subst; [by left|]. inversion H1; subst. right. by eexists _, _. Qed.

(** What the server does before the client has authenticated itself. *)
Definition before_login (peer : Z) (e : event) : Prop :=
  SocksServer.talk peer e \/ exists r, e = EvCall (CAddFd peer) r \/ e = EvCall (CModFd peer) r.

Section session.
Context (fuel : nat) (inet_pton : Z -> bytes -> option bytes) (pton : pton_ok inet_pton).
Context (misc : HevSocks5Misc) (mem : leftovers).
Context (mem_addr : sockaddr_ok (left_addr mem)) (mem_resp : zlen (left_response mem) = sizeof_addr).
Context (self : SocksServer.HevSocks5Server) (st : SocksServer.auth_store) (m : gmap bytes Z).
Context (store : SocksServer.store_ok fuel st m) (auth : SocksServer.obj self = SocksServer.AuthObj).

Let peer : Z := fd (SocksServer.base self).
Let handshake := SocksServer.hev_socks5_server_handshake fuel inet_pton (left_cmd mem) (left_addr mem)
  (left_response mem) misc self st.

(** The handshake as [SocksServer] shows it, for what follows. *)
Lemma handshake_guard tr p' : psteps handshake tr p' ->
  (forall t1 e t2, tr = t1 ++ e :: t2 -> SocksServer.talk peer e \/ SocksServer.authorised st m (received peer t1)) /\
  match p' with
  | Ret (res, _, _) => 0 <= res -> SocksServer.authorised st m (received peer tr)
  | _ => True
  end.
Proof.
  intros Hrun. destruct (SocksServer.handshake_sound fuel inet_pton (left_cmd mem) (left_addr mem) (left_response mem) misc self st m tr p')
    as [H1 H2]; [done..|]. split; [done|]. destruct p' as [[[res s] st']| | | | | | | |]; try done.
  intros Hr. destruct H2 as [->|(-> & g & name & pass & cmd & rsv & e & u & x & Hrec & Hg & Hc & _)]; [done|].
  exists g, name, pass, ([5; cmd; rsv] ++ encode e). split_and!; [exact Hrec|done|done].
Qed.

(** Every event of a composition with the handshake is talk or comes after the login. *)
Lemma handshake_then {B} (f : Z * SocksServer.HevSocks5Server * SocksServer.auth_store -> proc B) tr p' :
  (forall res s st', res < 0 -> exists b, f (res, s, st') = Ret b) ->
  psteps (bind handshake f) tr p' ->
  forall t1 e t2, tr = t1 ++ e :: t2 -> SocksServer.talk peer e \/ SocksServer.authorised st m (received peer t1).
Proof.
  intros Hf Hrun. apply psteps_bind_inv in Hrun as [[q Hq]|(u1 & u2 & [[res s] st'] & -> & H1 & H2)];
    [by apply (handshake_guard _ _ Hq)|].
  destruct (handshake_guard _ _ H1) as [G1 G2]. intros t1 e t2 E.
  destruct (Z.lt_ge_cases res 0) as [Hneg|Hpos].
  { destruct (Hf res s st' Hneg) as [b Eb]. rewrite Eb in H2. inversion H2 as [|? ? ? ? ? Hs]; subst; [|inversion Hs].
    rewrite app_nil_r in E. by eapply G1. }
  apply app_eq_inv in E as [(k & -> & E)|(k & -> & ->)].
  - destruct k as [|e' k]; [|injection E as -> ->; by eapply (G1 _ _ k)]. right. rewrite app_nil_r in G2. auto.
  - right. rewrite received_app. apply SocksServer.authorised_app. auto.
Qed.

Lemma run_guard n tr p' :
  psteps (hev_socks5_server_run fuel inet_pton misc mem n self st) tr p' ->
  forall t1 e t2, tr = t1 ++ e :: t2 -> before_login peer e \/ SocksServer.authorised st m (received peer t1).
Proof.
  unfold hev_socks5_server_run. fold peer. fold handshake. cbn [bind syscall].
  set (rest := fun x : Z * SocksServer.HevSocks5Server * SocksServer.auth_store => _).
  assert (forall tr p', psteps (bind handshake rest) tr p' -> forall t1 e t2, tr = t1 ++ e :: t2 ->
    before_login peer e \/ SocksServer.authorised st m (received peer t1)) as Hrest.
  { intros tr0 p0 H t1 e t2 E. destruct (handshake_then rest tr0 p0) with (2 := H) (3 := E) as [Ht|Ha].
    - intros res s st' Hr. unfold rest. rewrite (proj2 (Z.ltb_lt _ _) Hr). by eexists.
    - left. by left.
    - by right. }
  clearbody rest.
  intros [->|(r & tr1 & -> & H)]%psteps_call_inv; [by intros [|? ?] ? ? [=]|].
  intros [|e0 t1] e t2 [= <- E]; [left; right; exists r; by left|].
  destruct (r <? 0); cbn [bind syscall] in H.
  - apply psteps_call_inv in H as [->|(r2 & tr2 & -> & H)]; [by destruct t1|].
    destruct t1 as [|e1 t1]; injection E as <- E; [left; right; exists r2; by right|]. subst. cbn. by eapply Hrest.
  - cbn. by eapply Hrest.
Qed.

End session.

(** the whole session is guarded.  In every run of [hev_socks5_server_run] with
    an authenticator, whatever the client, the network and the resolver do, the
    server registers the client's socket and exchanges bytes with the client, and does
    nothing else (no connection, no relayed byte, no datagram) before it has received
    the password of an entered user. *)
Theorem server_run_guarded fuel inet_pton misc mem n self st m tr p' :
  pton_ok inet_pton -> sockaddr_ok (left_addr mem) -> zlen (left_response mem) = sizeof_addr ->
  SocksServer.store_ok fuel st m -> SocksServer.obj self = SocksServer.AuthObj ->
  psteps (hev_socks5_server_run fuel inet_pton misc mem n self st) tr p' ->
  forall t1 e t2, tr = t1 ++ e :: t2 ->
    before_login (fd (SocksServer.base self)) e \/
    SocksServer.authorised st m (received (fd (SocksServer.base self)) t1).
Proof. intros. by eapply run_guard. Qed.

Definition example_leftovers : leftovers :=
  mkLeftovers 0 (mkSA 0 0 (replicate 16 0)) (replicate 260 0) [] []
    (fun _ => SocksUDP.mkMemory [] [] (fun _ => mkSA 0 0 (replicate 16 0)) (fun _ => replicate 19 0)).

Definition example_run : history := EvCall (CAddFd 3) 0 :: SocksServer.example_history ++ [EvCall (CAddFd 9) 0].

Lemma server_run_guarded_witness :
  (exists p', replay (hev_socks5_server_run 1 example_pton hev_socks5_misc_default example_leftovers 1
      SocksServer.example_server SocksServer.example_store) example_run = Some p') /\
  (before_login 3 (EvCall (CAddFd 9) 0) \/
   SocksServer.authorised SocksServer.example_store {[ [97] := 64 ]} (received 3 SocksServer.example_history)).
Proof.
  assert (match replay (hev_socks5_server_run 1 example_pton hev_socks5_misc_default example_leftovers 1
      SocksServer.example_server SocksServer.example_store) example_run with Some _ => true | None => false end = true) as K
    by (vm_compute; reflexivity).
  destruct (replay _ example_run) as [p'|] eqn:E; [|discriminate K]. split; [by exists p'|].
  apply (server_run_guarded 1 example_pton hev_socks5_misc_default example_leftovers 1
    SocksServer.example_server SocksServer.example_store {[ [97] := 64 ]} example_run p'
    example_pton_ok) with (t1 := EvCall (CAddFd 3) 0 :: SocksServer.example_history) (t2 := []).
  - apply (bool_decide_unpack _). vm_compute. exact I.
  - reflexivity.
  - exact SocksServer.example_store_ok.
  - reflexivity.
  - apply replay_sound. exact E.
  - reflexivity.
Defined.

End SocksService.
