(* ===== verification/LwipAddr.v ===== *)
(** * Addresses of the network stack (src/misc/hev-utils.c)

    Conversion between the addresses of lwIP and those of SOCKS5.  An IPv4 address
    that mapped DNS has given to a name goes out as that name. *)

From Stdlib Require Import ZArith Lia.
From stdpp Require Import base list gmap numbers.
From S2P Require Import Prelude CBytes MappedDNS MappedDNSHist MappedDNSQuery SocketIO SocksMisc.
Import list_basics.list list_relations.list list_monad.list list_misc.list.
Import SocketIO SocksMisc.

Module LwipAddr.

Definition IPADDR_TYPE_V4 : Z := 0.
Definition IPADDR_TYPE_V6 : Z := 6.

(** The memory of the union, 16 bytes of address and the zone, and the type. *)
Record ip_addr_t := mkIP { ip_mem : bytes; ip_type : Z }.

(** [ntohl] of the IPv4 address in the union, as the [int] that is passed on. *)
Definition be32 (b : bytes) : outcome Z :=
  let! b0 := rd b 0 in
  let! b1 := rd b 1 in
  let! b2 := rd b 2 in
  let! b3 := rd b 3 in
  Val (b0 * 2 ^ 24 + b1 * 2 ^ 16 + b2 * 2 ^ 8 + b3).

(** [dns] is the singleton, if there is one. *)
Definition hev_socks5_addr_from_lwip (dns : option MappedDNS.HevMappedDNS) (addr : HevSocks5Addr) (ip : ip_addr_t)
    (port : Z) : outcome (Z * HevSocks5Addr * option MappedDNS.HevMappedDNS) :=
  if ip_type ip =? IPADDR_TYPE_V4 then
    let! (name, dns) :=
      (match dns with
       | None => Val (None, None)
       | Some d =>
           let! a := be32 (ip_mem ip) in
           let! (name, d) := MappedDNS.hev_mapped_dns_lookup d (i32 a) in
           Val (name, Some d)
       end) in
    match name with
    | Some name =>
        let! (_, addr) := hev_socks5_addr_from_name addr name (swap16 port) in
        Val (0, addr, dns)
    | None =>
        let! (_, addr) := hev_socks5_addr_from_ipv4 addr (ip_mem ip) (swap16 port) in
        Val (0, addr, dns)
    end
  else if ip_type ip =? IPADDR_TYPE_V6 then
    let! (_, addr) := hev_socks5_addr_from_ipv6 addr (ip_mem ip) (swap16 port) in
    Val (0, addr, dns)
  else Val (-1, addr, dns).

(** The result, [*ip] and [*port]. *)
Definition hev_socks5_addr_into_lwip (addr : HevSocks5Addr) (ip : ip_addr_t) (port : Z)
  : outcome (Z * ip_addr_t * Z) :=
  let! atype := rd addr 0 in
  if atype =? HEV_SOCKS5_ADDR_TYPE_IPV4 then
    let! a := get_n addr 1 4 in
    let! mem := put_n (ip_mem ip) 0 a in
    let! p := ld16 addr 5 in
    Val (0, mkIP mem IPADDR_TYPE_V4, swap16 p)
  else if atype =? HEV_SOCKS5_ADDR_TYPE_IPV6 then
    let! a := get_n addr 1 16 in
    let! mem := put_n (ip_mem ip) 0 a in
    let! p := ld16 addr 17 in
    Val (0, mkIP mem IPADDR_TYPE_V6, swap16 p)
  else Val (-1, ip, port).

(** ** Lemmas *)

(** The first four bytes of the union decide. *)
Lemma from_ipv4_union addr v pad p :
  length v = 4%nat -> hev_socks5_addr_from_ipv4 addr (v ++ pad) p = hev_socks5_addr_from_ipv4 addr v p.
Proof. intros Hv. explode. unfold hev_socks5_addr_from_ipv4. destruct (wr addr 0 _); [|done]. cbn [obind]. by repeat mem_step. Qed.

Lemma from_ipv6_union addr v pad p :
  length v = 16%nat -> hev_socks5_addr_from_ipv6 addr (v ++ pad) p = hev_socks5_addr_from_ipv6 addr v p.
Proof. intros Hv. explode. unfold hev_socks5_addr_from_ipv6. destruct (wr addr 0 _); [|done]. cbn [obind]. by repeat mem_step. Qed.

(** The address that an answer of mapped DNS carries. *)
Definition answer_address (v : Z) : bytes := drop 12 (MappedDNSQuery.answer_record 12 v).

Lemma be32_answer v pad : be32 (answer_address v ++ pad) = Val (u32 v).
Proof.
  assert (be32 (answer_address v ++ pad) =
    Val (u8 (Z.shiftr v 24) * 2 ^ 24 + u8 (Z.shiftr v 16) * 2 ^ 16 + u8 (Z.shiftr v 8) * 2 ^ 8 + u8 v)) as ->
    by reflexivity.
  f_equal. unfold u8, u32. rewrite !Z.shiftr_div_pow2 by lia.
  change (2 ^ 24) with (2 ^ 8 * 2 ^ 8 * 2 ^ 8). change (2 ^ 16) with (2 ^ 8 * 2 ^ 8).
  rewrite <- !Z.div_div by lia. Z.to_euclidean_division_equations. lia.
Qed.

(** Passing an address through [unsigned] and [int] keeps its host part. *)
Lemma i32_host w x : 0 <= w <= 32 -> Z.land (i32 (u32 x)) (Z.ones w) = Z.land x (Z.ones w).
Proof.
  intros Hw. rewrite !Z.land_ones by lia. unfold i32, u32.
  assert (exists k, (x mod 2 ^ 32 + 2 ^ 31) mod 2 ^ 32 - 2 ^ 31 = x + k * 2 ^ 32) as [k ->].
  { exists (- (x / 2 ^ 32) - (x mod 2 ^ 32 + 2 ^ 31) / 2 ^ 32). Z.to_euclidean_division_equations. lia. }
  replace 32 with (w + (32 - w)) by lia. rewrite Z.pow_add_r by lia.
  replace (x + k * (2 ^ w * 2 ^ (32 - w))) with (x + (k * 2 ^ (32 - w)) * 2 ^ w) by lia.
  apply Z.mod_add. lia.
Qed.

(** A mapped address goes out as its name, in the encoding of the protocol. *)
Lemma from_lwip_name d d' addr a pad port key :
  MappedDNS.hev_mapped_dns_lookup d (i32 (u32 a)) = Val (Some key, d') ->
  zlen addr = sizeof_addr -> Forall (fun x => x <> 0) key -> zlen key <= 255 ->
  exists tl, hev_socks5_addr_from_lwip (Some d) addr (mkIP (answer_address a ++ pad) IPADDR_TYPE_V4) port =
    Val (0, encode (EName key (swap16 port)) ++ tl, Some d').
Proof.
  intros El Ha Hk Hl. unfold hev_socks5_addr_from_lwip. cbn [ip_type ip_mem]. rewrite Z.eqb_refl.
  rewrite be32_answer. cbn [obind]. rewrite El. cbn [obind].
  destruct (from_name_ok addr key (swap16 port)) as (tl & -> & _); [done..|apply swap16_range|].
  by exists tl.
Qed.

Lemma into_lwip_v4 v p tl ip q :
  length v = 4%nat -> length (ip_mem ip) = 20%nat -> is_u16 p ->
  hev_socks5_addr_into_lwip (encode (EIPv4 v p) ++ tl) ip q =
    Val (0, mkIP (v ++ drop 4 (ip_mem ip)) IPADDR_TYPE_V4, swap16 p).
Proof.
  intros Hv Hip Hp. unfold hev_socks5_addr_into_lwip.
  replace (encode (EIPv4 v p) ++ tl) with ([1] ++ v ++ le16 p ++ tl) by (cbn; by list_norm).
  change (rd ([1] ++ v ++ le16 p ++ tl) 0) with (Val 1). cbn [obind Z.eqb Pos.eqb HEV_SOCKS5_ADDR_TYPE_IPV4].
  rewrite (get_n_app [1] v (le16 p ++ tl) 1 4) by (done || unfold zlen; cbn; lia). cbn [obind].
  rewrite put_n_const by (unfold zlen; lia). cbn [obind].
  rewrite (ld16_le16 [1] v p tl 5) by (done || unfold zlen; cbn; lia). cbn [obind].
  unfold splice. cbn [Z.to_nat take app]. by rewrite Hv.
Qed.

Lemma into_lwip_v6 v p tl ip q :
  length v = 16%nat -> length (ip_mem ip) = 20%nat -> is_u16 p ->
  hev_socks5_addr_into_lwip (encode (EIPv6 v p) ++ tl) ip q =
    Val (0, mkIP (v ++ drop 16 (ip_mem ip)) IPADDR_TYPE_V6, swap16 p).
Proof.
  intros Hv Hip Hp. unfold hev_socks5_addr_into_lwip.
  replace (encode (EIPv6 v p) ++ tl) with ([4] ++ v ++ le16 p ++ tl) by (cbn; by list_norm).
  change (rd ([4] ++ v ++ le16 p ++ tl) 0) with (Val 4).
  cbn [obind Z.eqb Pos.eqb HEV_SOCKS5_ADDR_TYPE_IPV4 HEV_SOCKS5_ADDR_TYPE_IPV6].
  rewrite (get_n_app [4] v (le16 p ++ tl) 1 16) by (done || unfold zlen; cbn; lia). cbn [obind].
  rewrite put_n_const by (unfold zlen; lia). cbn [obind].
  rewrite (ld16_le16 [4] v p tl 17) by (done || unfold zlen; cbn; lia). cbn [obind].
  unfold splice. cbn [Z.to_nat take app]. by rewrite Hv.
Qed.

(** [lookup] answers [NULL] for an address, or there is no mapped DNS. *)
Definition unmapped (dns dns' : option MappedDNS.HevMappedDNS) (mem : bytes) : Prop :=
  match dns with
  | None => dns' = None
  | Some d => exists a d', be32 mem = Val a /\ dns' = Some d' /\
      MappedDNS.hev_mapped_dns_lookup d (i32 a) = Val (None, d')
  end.

(** Any other address survives the way out and back. *)
Theorem lwip_v4_roundtrip dns dns' addr v pad ip port :
  unmapped dns dns' (v ++ pad) -> length v = 4%nat -> length (ip_mem ip) = 20%nat ->
  19 <= zlen addr -> is_u16 port ->
  exists addr', hev_socks5_addr_from_lwip dns addr (mkIP (v ++ pad) IPADDR_TYPE_V4) port = Val (0, addr', dns') /\
    exists pad', hev_socks5_addr_into_lwip addr' ip 0 = Val (0, mkIP (v ++ pad') IPADDR_TYPE_V4, port).
Proof.
  intros Hu Hv Hip Ha Hp. unfold hev_socks5_addr_from_lwip. cbn [ip_type ip_mem]. rewrite Z.eqb_refl.
  destruct (from_ipv4_ok addr v (swap16 port)) as (tl & E & _); [done..|apply swap16_range|].
  exists (encode (EIPv4 v (swap16 port)) ++ tl). split.
  - destruct dns as [d|]; cbn [unmapped] in Hu.
    + destruct Hu as (a & d' & Eb & -> & El). rewrite Eb. cbn [obind]. rewrite El. cbn [obind].
      by rewrite from_ipv4_union, E by done.
    + subst dns'. cbn [obind]. by rewrite from_ipv4_union, E by done.
  - exists (drop 4 (ip_mem ip)). rewrite into_lwip_v4, swap16_invol by (done || apply swap16_range). done.
Qed.

(** An IPv6 address does as well; the zone of the target is left as it was. *)
Theorem lwip_v6_roundtrip dns addr v pad ip port :
  length v = 16%nat -> length (ip_mem ip) = 20%nat -> 19 <= zlen addr -> is_u16 port ->
  exists addr', hev_socks5_addr_from_lwip dns addr (mkIP (v ++ pad) IPADDR_TYPE_V6) port = Val (0, addr', dns) /\
    hev_socks5_addr_into_lwip addr' ip 0 = Val (0, mkIP (v ++ drop 16 (ip_mem ip)) IPADDR_TYPE_V6, port).
Proof.
  intros Hv Hip Ha Hp.
  destruct (from_ipv6_ok addr v (swap16 port)) as (tl & E & _); [done..|apply swap16_range|].
  exists (encode (EIPv6 v (swap16 port)) ++ tl). split.
  - unfold hev_socks5_addr_from_lwip. cbn [ip_type ip_mem]. change (IPADDR_TYPE_V6 =? IPADDR_TYPE_V4) with false.
    cbn [obind]. rewrite Z.eqb_refl, from_ipv6_union, E by done. done.
  - by rewrite into_lwip_v6, swap16_invol by (done || apply swap16_range).
Qed.

(** ** Mapped names *)

Section mapped.
Context (alloc_at : MappedDNS.HevMappedDNS -> MappedDNS.alloc).
Context (alloc_fresh : forall d, MappedDNS.mem (alloc_at d) = MappedDNS.NULL \/ MappedDNS.fresh_alloc d (alloc_at d)).


End mapped.


End LwipAddr.
