(* ===== verification/Pbuf.v ===== *)
(** * Packet buffers (third-part/lwip/src/core/pbuf.c)

    The network stack keeps packets in chains of reference-counted buffers.  The
    operations run on a heap of buffers; [packet] relates a chain to the bytes it
    holds.  An assertion that does not hold is a [Fault], as the default platform
    aborts the process. *)

From Stdlib Require Import ZArith Lia.
From stdpp Require Import base list gmap numbers.
From S2P Require Import Prelude CBytes.
Import list_basics.list list_relations.list list_monad.list list_misc.list.

Module Pbuf.

Definition NULL : Z := 0.

(** ** Constants (include/lwip/pbuf.h, opt.h, lwipopts.h) *)

Definition MEM_ALIGNMENT : Z := 4.
Definition LWIP_MEM_ALIGN_SIZE (size : Z) : Z := Z.land (size + MEM_ALIGNMENT - 1) (Z.lnot (MEM_ALIGNMENT - 1)).
(** Two pointers, two [u16_t] and four [u8_t]. *)
Definition SIZEOF_STRUCT_PBUF : Z := 24.
Definition PBUF_POOL_BUFSIZE_ALIGNED : Z := LWIP_MEM_ALIGN_SIZE (8191 + 40 + 16).

Definition PBUF_TRANSPORT : Z := 0 + 16 + 40 + 20.
Definition PBUF_IP : Z := 0 + 16 + 40.
Definition PBUF_LINK : Z := 0 + 16.
Definition PBUF_RAW_TX : Z := 0.
Definition PBUF_RAW : Z := 0.

Definition PBUF_TYPE_FLAG_STRUCT_DATA_CONTIGUOUS : Z := 0x80.
Definition PBUF_TYPE_FLAG_DATA_VOLATILE : Z := 0x40.
Definition PBUF_TYPE_ALLOC_SRC_MASK : Z := 0x0F.
Definition PBUF_ALLOC_FLAG_RX : Z := 0x0100.
Definition PBUF_ALLOC_FLAG_DATA_CONTIGUOUS : Z := 0x0200.

Definition PBUF_RAM : Z := Z.lor (Z.lor PBUF_ALLOC_FLAG_DATA_CONTIGUOUS PBUF_TYPE_FLAG_STRUCT_DATA_CONTIGUOUS) 0.
Definition PBUF_ROM : Z := 1.
Definition PBUF_REF : Z := Z.lor PBUF_TYPE_FLAG_DATA_VOLATILE 1.
Definition PBUF_POOL : Z := Z.lor (Z.lor PBUF_ALLOC_FLAG_RX PBUF_TYPE_FLAG_STRUCT_DATA_CONTIGUOUS) 2.

Definition PBUF_FLAG_IS_CUSTOM : Z := 0x02.

Definition ERR_OK : Z := 0.
Definition ERR_MEM : Z := -1.
Definition ERR_VAL : Z := -6.
Definition ERR_ARG : Z := -16.

(** ** Data

    [mem] is the memory that [payload] points into and [payload] the offset there;
    the memory of a contiguous buffer starts behind its structure. *)

Record pbuf := mkPbuf {
  next : Z; payload : Z; tot_len : Z; len : Z; type_internal : Z; flags : Z; ref : Z; if_idx : Z;
  mem : bytes }.

(** The buffers and [pbuf_free_ooseq_pending]. *)
Record pheap := mkPHeap { bufs : gmap Z pbuf; free_ooseq_pending : bool }.

Definition set_next (v : Z) (n : pbuf) : pbuf :=
  mkPbuf v (payload n) (tot_len n) (len n) (type_internal n) (flags n) (ref n) (if_idx n) (mem n).
Definition set_tot_len (v : Z) (n : pbuf) : pbuf :=
  mkPbuf (next n) (payload n) v (len n) (type_internal n) (flags n) (ref n) (if_idx n) (mem n).
Definition set_len (v : Z) (n : pbuf) : pbuf :=
  mkPbuf (next n) (payload n) (tot_len n) v (type_internal n) (flags n) (ref n) (if_idx n) (mem n).
Definition set_payload (v : Z) (n : pbuf) : pbuf :=
  mkPbuf (next n) v (tot_len n) (len n) (type_internal n) (flags n) (ref n) (if_idx n) (mem n).
Definition set_ref (v : Z) (n : pbuf) : pbuf :=
  mkPbuf (next n) (payload n) (tot_len n) (len n) (type_internal n) (flags n) v (if_idx n) (mem n).
Definition set_mem (v : bytes) (n : pbuf) : pbuf :=
  mkPbuf (next n) (payload n) (tot_len n) (len n) (type_internal n) (flags n) (ref n) (if_idx n) v.

Abbreviation PM := (ST pheap).

Definition set_bufs (m : gmap Z pbuf) (h : pheap) : pheap := mkPHeap m (free_ooseq_pending h).

Definition load (a : Z) : PM pbuf :=
  fun h => let! n := of_option (bufs h !! a) in Val (n, h).

Definition store (a : Z) (n : pbuf) : PM unit := fun h => Val (tt, set_bufs (<[a := n]> (bufs h)) h).

(** Change fields of an existing buffer. *)
Definition update (a : Z) (f : pbuf -> pbuf) : PM unit := do! n := load a in store a (f n).

Definition release (a : Z) : PM unit := fun h => Val (tt, set_bufs (delete a (bufs h)) h).

Definition LWIP_ASSERT (b : bool) : PM unit := if b then sret tt else sfault.

Definition slift {A} (o : outcome A) : PM A := fun h => let! a := o in Val (a, h).

(** Copy [n] bytes out of and into the payload. *)
Definition read_payload (n : pbuf) (off k : Z) : outcome bytes := get_n (mem n) (payload n + off) k.

Definition write_payload (a : Z) (off : Z) (d : bytes) : PM unit :=
  do! n := load a in
  do! m := slift (put_n (mem n) (payload n + off) d) in
  store a (set_mem m n).

(** ** Allocation *)

(** The allocator's answer: an address, or [NULL], and what the memory behind the
    structure holds. *)
Record chunk := mkChunk { at_ : Z; raw : bytes }.

Definition pbuf_init_alloced_pbuf (p payload_ tot_len_ len_ type_ flags_ : Z) (m : bytes) : PM unit :=
  store p (mkPbuf NULL payload_ tot_len_ len_ (u8 type_) flags_ 1 0 m).

Section pbuf.
(** [mem_malloc] and [memp_malloc] of the three kinds, and the function of a custom
    buffer. *)
Context (malloc : Z -> pheap -> chunk).
Context (custom_free : Z -> PM unit).

(** [pt] is the referenced memory and the pointer into it. *)
Definition pbuf_alloc_reference (m : bytes) (pt : Z) (length : Z) (type : Z) : PM Z :=
  LWIP_ASSERT ((type =? PBUF_REF) || (type =? PBUF_ROM)) ;;;
  do! c := (fun h => Val (malloc 0 h, h)) in
  if at_ c =? NULL then sret NULL
  else
    pbuf_init_alloced_pbuf (at_ c) pt length length type 0 m ;;;
    sret (at_ c).

Definition pbuf_get_allocsrc (n : pbuf) : Z := Z.land (type_internal n) PBUF_TYPE_ALLOC_SRC_MASK.

(** The loop of [pbuf_free]; a dropped buffer goes back to where it came from. *)
Fixpoint free_loop (fuel : nat) (p count : Z) : PM Z :=
  if p =? NULL then sret count
  else
    match fuel with
    | O => sfault
    | S fuel =>
        do! n := load p in
        LWIP_ASSERT (ref n >? 0) ;;;
        let ref_ := u8 (ref n - 1) in
        store p (set_ref ref_ n) ;;;
        if ref_ =? 0 then
          let q := next n in
          (if negb (Z.land (flags n) PBUF_FLAG_IS_CUSTOM =? 0) then custom_free p
           else
             LWIP_ASSERT ((pbuf_get_allocsrc n =? 2) || (pbuf_get_allocsrc n =? 1) || (pbuf_get_allocsrc n =? 0)) ;;;
             release p) ;;;
          free_loop fuel q (u8 (count + 1))
        else sret count
    end.

Definition pbuf_free (fuel : nat) (p : Z) : PM Z :=
  LWIP_ASSERT (negb (p =? NULL)) ;;;
  free_loop fuel p 0.

(** The address of the payload of a chunk at [a] that leaves room for [offset]
    bytes of headers, relative to the end of the structure. *)
Definition aligned_payload (a offset : Z) : Z :=
  Z.land (a + SIZEOF_STRUCT_PBUF + offset + MEM_ALIGNMENT - 1) (Z.lnot (MEM_ALIGNMENT - 1)) - (a + SIZEOF_STRUCT_PBUF).

(** [do ... while (rem_len > 0)] over buffers of the pool; [p] and [last] are [NULL]
    in the first round.  The assertions on the alignment of the payload hold by the
    definition of [aligned_payload]. *)
Fixpoint pool_loop (ffuel fuel : nat) (p last rem_len offset : Z) : PM Z :=
  match fuel with
  | O => sfault
  | S fuel =>
      do! c := (fun h => Val (malloc PBUF_POOL_BUFSIZE_ALIGNED h, h)) in
      let q := at_ c in
      if q =? NULL then
        (fun h => Val (tt, mkPHeap (bufs h) true)) ;;;
        (if negb (p =? NULL) then do! _ := pbuf_free ffuel p in sret tt else sret tt) ;;;
        sret NULL
      else
        let qlen := Z.min rem_len (u16 (PBUF_POOL_BUFSIZE_ALIGNED - LWIP_MEM_ALIGN_SIZE offset)) in
        pbuf_init_alloced_pbuf q (aligned_payload q offset) rem_len qlen PBUF_POOL 0 (raw c) ;;;
        LWIP_ASSERT (PBUF_POOL_BUFSIZE_ALIGNED - LWIP_MEM_ALIGN_SIZE offset >? 0) ;;;
        (if p =? NULL then sret tt else update last (set_next q)) ;;;
        let p := if p =? NULL then q else p in
        let rem_len := u16 (rem_len - qlen) in
        if rem_len >? 0 then pool_loop ffuel fuel p q rem_len 0 else sret p
  end.

Definition pbuf_alloc (fuel : nat) (layer length type : Z) : PM Z :=
  let offset := u16 layer in
  if (type =? PBUF_REF) || (type =? PBUF_ROM) then pbuf_alloc_reference [] 0 length type
  else if type =? PBUF_POOL then pool_loop fuel fuel NULL NULL length offset
  else if type =? PBUF_RAM then
    let payload_len := u64 (LWIP_MEM_ALIGN_SIZE offset + LWIP_MEM_ALIGN_SIZE length) in
    let alloc_len := u64 (LWIP_MEM_ALIGN_SIZE SIZEOF_STRUCT_PBUF + payload_len) in
    if (payload_len <? LWIP_MEM_ALIGN_SIZE length) || (alloc_len <? LWIP_MEM_ALIGN_SIZE length) then sret NULL
    else
      do! c := (fun h => Val (malloc payload_len h, h)) in
      let p := at_ c in
      if p =? NULL then sret NULL
      else
        pbuf_init_alloced_pbuf p (aligned_payload p offset) length length PBUF_RAM 0 (raw c) ;;;
        sret p
  else sfault.

(** ** Headers *)

Definition pbuf_add_header_impl (p header_size_increment : Z) (force : bool) : PM Z :=
  LWIP_ASSERT (negb (p =? NULL)) ;;;
  if header_size_increment >? 0xFFFF then sret 1
  else if header_size_increment =? 0 then sret 0
  else
    let increment_magnitude := u16 header_size_increment in
    do! n := load p in
    if u16 (increment_magnitude + tot_len n) <? increment_magnitude then sret 1
    else
      let payload_ := payload n - header_size_increment in
      let refused :=
        if negb (Z.land (type_internal n) PBUF_TYPE_FLAG_STRUCT_DATA_CONTIGUOUS =? 0)
        then payload_ <? 0 else negb force in
      if refused then sret 1
      else
        store p (set_tot_len (u16 (tot_len n + increment_magnitude))
          (set_len (u16 (len n + increment_magnitude)) (set_payload payload_ n))) ;;;
        sret 0.

Definition pbuf_add_header (p header_size_increment : Z) : PM Z :=
  pbuf_add_header_impl p header_size_increment false.

Definition pbuf_add_header_force (p header_size_increment : Z) : PM Z :=
  pbuf_add_header_impl p header_size_increment true.

Definition pbuf_remove_header (p header_size_decrement : Z) : PM Z :=
  LWIP_ASSERT (negb (p =? NULL)) ;;;
  if header_size_decrement >? 0xFFFF then sret 1
  else if header_size_decrement =? 0 then sret 0
  else
    let increment_magnitude := u16 header_size_decrement in
    do! n := load p in
    if negb (increment_magnitude <=? len n) then sret 1
    else
      store p (set_tot_len (u16 (tot_len n - increment_magnitude))
        (set_len (u16 (len n - increment_magnitude)) (set_payload (payload n + header_size_decrement) n))) ;;;
      sret 0.

Definition pbuf_header_impl (p header_size_increment : Z) (force : bool) : PM Z :=
  if header_size_increment <? 0 then pbuf_remove_header p (- header_size_increment)
  else pbuf_add_header_impl p header_size_increment force.

Definition pbuf_header (p header_size_increment : Z) : PM Z := pbuf_header_impl p header_size_increment false.

Definition pbuf_header_force (p header_size_increment : Z) : PM Z := pbuf_header_impl p header_size_increment true.

(** [while (free_left && p)] *)
Fixpoint free_header_loop (fuel : nat) (p free_left : Z) : PM Z :=
  if (free_left =? 0) || (p =? NULL) then sret p
  else
    match fuel with
    | O => sfault
    | S fuel =>
        do! n := load p in
        if free_left >=? len n then
          store p (set_next NULL n) ;;;
          pbuf_free (S fuel) p ;;;
          free_header_loop fuel (next n) (u16 (free_left - len n))
        else
          pbuf_remove_header p free_left ;;;
          free_header_loop fuel p 0
    end.

Definition pbuf_free_header (fuel : nat) (q size : Z) : PM Z := free_header_loop fuel q size.

(** ** Chains *)

(** [++len] is a [u16_t]. *)
Fixpoint clen_loop (fuel : nat) (p len_ : Z) : PM Z :=
  if p =? NULL then sret len_
  else
    match fuel with
    | O => sfault
    | S fuel => do! n := load p in clen_loop fuel (next n) (u16 (len_ + 1))
    end.

Definition pbuf_clen (fuel : nat) (p : Z) : PM Z := clen_loop fuel p 0.

Definition pbuf_ref (p : Z) : PM unit :=
  if p =? NULL then sret tt
  else
    do! n := load p in
    store p (set_ref (u8 (ref n + 1)) n) ;;;
    LWIP_ASSERT (u8 (ref n + 1) >? 0).

(** [for (p = h; p->next != NULL; p = p->next)] and what follows at the last buffer. *)
Fixpoint cat_loop (fuel : nat) (p t : Z) : PM unit :=
  match fuel with
  | O => sfault
  | S fuel =>
      do! n := load p in
      if next n =? NULL then
        LWIP_ASSERT (tot_len n =? len n) ;;;
        do! m := load t in
        update p (set_tot_len (u16 (tot_len n + tot_len m))) ;;;
        update p (set_next t)
      else
        do! m := load t in
        store p (set_tot_len (u16 (tot_len n + tot_len m)) n) ;;;
        cat_loop fuel (next n) t
  end.

Definition pbuf_cat (fuel : nat) (h t : Z) : PM unit :=
  if (h =? NULL) || (t =? NULL) then sret tt
  else
    LWIP_ASSERT (negb (h =? t)) ;;;
    cat_loop fuel h t.

Definition pbuf_chain (fuel : nat) (h t : Z) : PM unit :=
  pbuf_cat fuel h t ;;;
  pbuf_ref t.

Definition pbuf_dechain (fuel : nat) (p : Z) : PM Z :=
  do! n := load p in
  let q := next n in
  do! tail_gone :=
    (if q =? NULL then sret 1
     else
       do! m := load q in
       LWIP_ASSERT (tot_len m =? tot_len n - len n) ;;;
       store q (set_tot_len (u16 (tot_len n - len n)) m) ;;;
       update p (set_next NULL) ;;;
       update p (set_tot_len (len n)) ;;;
       pbuf_free fuel q) in
  do! n := load p in
  LWIP_ASSERT (tot_len n =? len n) ;;;
  sret (if tail_gone >? 0 then NULL else q).

(** [while (rem_len > q->len)] of [pbuf_realloc]: the last buffer that stays and its
    new length. *)
Fixpoint realloc_loop (fuel : nat) (q rem_len shrink : Z) : PM (Z * Z) :=
  match fuel with
  | O => sfault
  | S fuel =>
      do! n := load q in
      if rem_len >? len n then
        store q (set_tot_len (u16 (tot_len n - shrink)) n) ;;;
        LWIP_ASSERT (negb (next n =? NULL)) ;;;
        realloc_loop fuel (next n) (u16 (rem_len - len n)) shrink
      else sret (q, rem_len)
  end.

(** [mem_trim] of this configuration keeps the memory. *)
Definition pbuf_realloc (fuel : nat) (p new_len : Z) : PM unit :=
  LWIP_ASSERT (negb (p =? NULL)) ;;;
  do! n := load p in
  if new_len >=? tot_len n then sret tt
  else
    do! (q, rem_len) := realloc_loop fuel p new_len (u16 (tot_len n - new_len)) in
    update q (set_len rem_len) ;;;
    update q (set_tot_len rem_len) ;;;
    do! n := load q in
    (if negb (next n =? NULL) then do! _ := pbuf_free fuel (next n) in sret tt else sret tt) ;;;
    update q (set_next NULL).

(** ** Contents *)

(** One round of the copy between chains; the differences of lengths and offsets are
    [size_t]. *)
Definition copy_step (n_to n_from : pbuf) (copy_len offset_to offset_from : Z) : Z :=
  let room := u64 (len n_to - offset_to) in
  let left := u64 (len n_from - offset_from) in
  Z.min copy_len (if room >=? left then left else room).

(** The two tests against packet queues at the end of a round. *)
Definition is_queue (p : Z) : PM bool :=
  if p =? NULL then sret false
  else
    do! n := load p in
    sret ((len n =? tot_len n) && negb (next n =? NULL)).

Fixpoint copy_loop (fuel : nat) (p_to p_from copy_len offset_to offset_from : Z) : PM Z :=
  match fuel with
  | O => sfault
  | S fuel =>
      do! n_to := load p_to in
      do! n_from := load p_from in
      let len_ := copy_step n_to n_from copy_len offset_to offset_from in
      do! d := slift (read_payload n_from offset_from len_) in
      write_payload p_to offset_to d ;;;
      let offset_to := offset_to + len_ in
      let offset_from := offset_from + len_ in
      let copy_len := u16 (copy_len - len_) in
      LWIP_ASSERT (offset_to <=? len n_to) ;;;
      LWIP_ASSERT (offset_from <=? len n_from) ;;;
      let '(p_from, offset_from) :=
        if offset_from >=? len n_from then (next n_from, 0) else (p_from, offset_from) in
      if (p_from =? NULL) && negb (copy_len =? 0) then sret ERR_ARG
      else
        let '(p_to, offset_to) :=
          if offset_to =? len n_to then (next n_to, 0) else (p_to, offset_to) in
        if (p_to =? NULL) && negb (copy_len =? 0) then sret ERR_ARG
        else
          do! b := is_queue p_from in
          if b then sret ERR_VAL
          else
            do! b := is_queue p_to in
            if b then sret ERR_VAL
            else if copy_len =? 0 then sret ERR_OK
            else copy_loop fuel p_to p_from copy_len offset_to offset_from
  end.

Definition pbuf_copy_partial_pbuf (fuel : nat) (p_to p_from copy_len offset : Z) : PM Z :=
  if p_from =? NULL then sret ERR_ARG
  else
    do! n_from := load p_from in
    if negb (tot_len n_from >=? copy_len) then sret ERR_ARG
    else if p_to =? NULL then sret ERR_ARG
    else
      do! n_to := load p_to in
      if negb (tot_len n_to >=? offset + copy_len) then sret ERR_ARG
      else copy_loop fuel p_to p_from copy_len offset 0.

Definition pbuf_copy (fuel : nat) (p_to p_from : Z) : PM Z :=
  if p_from =? NULL then sret ERR_ARG
  else
    do! n := load p_from in
    pbuf_copy_partial_pbuf fuel p_to p_from (tot_len n) 0.

(** The copied length and the buffer of the application, filled from its start on. *)
Fixpoint copy_partial_loop (fuel : nat) (p : Z) (data : bytes) (left len_ offset copied_total : Z)
    : PM (Z * bytes) :=
  if (len_ =? 0) || (p =? NULL) then sret (copied_total, data)
  else
    match fuel with
    | O => sfault
    | S fuel =>
        do! n := load p in
        if negb (offset =? 0) && (offset >=? len n) then
          copy_partial_loop fuel (next n) data left len_ (u16 (offset - len n)) copied_total
        else
          let buf_copy_len := Z.min (u16 (len n - offset)) len_ in
          do! d := slift (read_payload n offset buf_copy_len) in
          do! data := slift (put_n data left d) in
          copy_partial_loop fuel (next n) data (u16 (left + buf_copy_len)) (u16 (len_ - buf_copy_len)) 0
            (u16 (copied_total + buf_copy_len))
    end.

Definition pbuf_copy_partial (fuel : nat) (buf : Z) (data : bytes) (len_ offset : Z) : PM (Z * bytes) :=
  if buf =? NULL then sret (0, data)
  else copy_partial_loop fuel buf data 0 len_ offset 0.

(** The buffer that holds an offset, and the offset in it. *)
Fixpoint pbuf_skip_const (fuel : nat) (q offset_left : Z) : PM (Z * Z) :=
  if q =? NULL then sret (NULL, offset_left)
  else
    match fuel with
    | O => sfault
    | S fuel =>
        do! n := load q in
        if len n <=? offset_left then pbuf_skip_const fuel (next n) (u16 (offset_left - len n))
        else sret (q, offset_left)
    end.

Definition pbuf_skip (fuel : nat) (p in_offset : Z) : PM (Z * Z) := pbuf_skip_const fuel p in_offset.

(** [for (p = buf; total_copy_len != 0; p = p->next)] with the data still to copy. *)
Fixpoint take_loop (fuel : nat) (p : Z) (data : bytes) : PM unit :=
  match data with
  | [] => sret tt
  | _ =>
      match fuel with
      | O => sfault
      | S fuel =>
          LWIP_ASSERT (negb (p =? NULL)) ;;;
          do! n := load p in
          let buf_copy_len := Z.min (zlen data) (len n) in
          write_payload p 0 (take (Z.to_nat buf_copy_len) data) ;;;
          take_loop fuel (next n) (drop (Z.to_nat buf_copy_len) data)
      end
  end.

(** [data] is the memory behind [dataptr], [len_] bytes of it are taken. *)
Definition pbuf_take (fuel : nat) (buf : Z) (data : bytes) (len_ : Z) : PM Z :=
  if buf =? NULL then sret ERR_ARG
  else
    do! n := load buf in
    if negb (tot_len n >=? len_) then sret ERR_MEM
    else
      do! d := slift (get_n data 0 len_) in
      take_loop fuel buf d ;;;
      sret ERR_OK.

Definition pbuf_take_at (fuel : nat) (buf : Z) (data : bytes) (len_ offset : Z) : PM Z :=
  do! (q, target_offset) := pbuf_skip fuel buf offset in
  if q =? NULL then sret ERR_MEM
  else
    do! n := load q in
    if tot_len n >=? target_offset + len_ then
      LWIP_ASSERT (target_offset <? len n) ;;;
      let first_copy_len := u16 (Z.min (len n - target_offset) len_) in
      do! d := slift (get_n data 0 first_copy_len) in
      write_payload q target_offset d ;;;
      let remaining_len := u16 (len_ - first_copy_len) in
      if remaining_len >? 0 then
        pbuf_take fuel (next n) (drop (Z.to_nat first_copy_len) data) remaining_len
      else sret ERR_OK
    else sret ERR_MEM.

Definition pbuf_clone (fuel : nat) (layer type p : Z) : PM Z :=
  do! n := load p in
  do! q := pbuf_alloc fuel layer (tot_len n) type in
  if q =? NULL then sret NULL
  else
    do! err := pbuf_copy fuel q p in
    LWIP_ASSERT (err =? ERR_OK) ;;;
    sret q.

Definition pbuf_coalesce (fuel : nat) (p layer : Z) : PM Z :=
  do! n := load p in
  if next n =? NULL then sret p
  else
    do! q := pbuf_clone fuel layer PBUF_RAM p in
    if q =? NULL then sret p
    else
      pbuf_free fuel p ;;;
      sret q.

Definition pbuf_try_get_at (fuel : nat) (p offset : Z) : PM Z :=
  do! (q, q_idx) := pbuf_skip_const fuel p offset in
  if q =? NULL then sret (-1)
  else
    do! n := load q in
    if len n >? q_idx then slift (rd (mem n) (payload n + q_idx)) else sret (-1).

Definition pbuf_get_at (fuel : nat) (p offset : Z) : PM Z :=
  do! ret := pbuf_try_get_at fuel p offset in
  sret (if ret >=? 0 then u8 ret else 0).

Definition pbuf_put_at (fuel : nat) (p offset data : Z) : PM unit :=
  do! (q, q_idx) := pbuf_skip fuel p offset in
  if q =? NULL then sret tt
  else
    do! n := load q in
    if len n >? q_idx then write_payload q q_idx [u8 data] else sret tt.

(** [for (i = 0; i < n; i++)]; [k] rounds are left. *)
Fixpoint memcmp_loop (fuel k : nat) (q start : Z) (s2 : bytes) (i : Z) : PM Z :=
  match k with
  | O => sret 0
  | S k =>
      do! a := pbuf_get_at fuel q (u16 (start + i)) in
      do! b := slift (rd s2 i) in
      if negb (a =? b) then sret (u16 (Z.min (i + 1) 0xFFFF)) else memcmp_loop fuel k q start s2 (u16 (i + 1))
  end.

Definition pbuf_memcmp (fuel : nat) (p offset : Z) (s2 : bytes) (n : Z) : PM Z :=
  do! m := load p in
  if tot_len m <? offset + n then sret 0xffff
  else
    do! (q, start) := pbuf_skip_const fuel p offset in
    memcmp_loop fuel (Z.to_nat n) q start s2 0.

(** [for (i = start_offset; i <= max_cmp_start; i++)]: the [u16_t] counter passes
    every bound below 0xFFFF. *)
Fixpoint memfind_loop (fuel k : nat) (p : Z) (m : bytes) (mem_len i max_cmp_start : Z) : PM Z :=
  if i <=? max_cmp_start then
    match k with
    | O => sfault
    | S k =>
        do! plus := pbuf_memcmp fuel p i m mem_len in
        if plus =? 0 then sret i else memfind_loop fuel k p m mem_len (u16 (i + 1)) max_cmp_start
    end
  else sret 0xFFFF.

Definition pbuf_memfind (fuel : nat) (p : Z) (m : bytes) (mem_len start_offset : Z) : PM Z :=
  do! n := load p in
  let max_cmp_start := u16 (tot_len n - mem_len) in
  if tot_len n >=? mem_len + start_offset then
    memfind_loop fuel (Z.to_nat (max_cmp_start - start_offset + 1)) p m mem_len start_offset max_cmp_start
  else sret 0xFFFF.

End pbuf.

End Pbuf.
