(* ===== verification/PbufRep.v ===== *)
(** * Chains of packet buffers and what they hold

    [packet] relates the heap of [Pbuf] to the sequence of buffers of a chain whose
    [tot_len] fields are right, [data] is what the chain holds.  The operations that
    queue, consume, free and copy packets are shown to work on that sequence of bytes. *)

From Stdlib Require Import ZArith Lia.
From stdpp Require Import base list gmap numbers.
From S2P Require Import Prelude CBytes Pbuf.
Import list_basics.list list_relations.list list_monad.list list_misc.list.
Import Pbuf.

Module PbufRep.

(** ** Representation *)

Abbreviation chain := (list (Z * pbuf)).

Fixpoint pseg (h : pheap) (p : Z) (xs : chain) (q : Z) : Prop :=
  match xs with
  | [] => p = q
  | (a, n) :: xs => p = a /\ a <> NULL /\ bufs h !! a = Some n /\ pseg h (next n) xs q
  end.

Definition content (n : pbuf) : bytes := slice (Z.to_nat (payload n)) (Z.to_nat (len n)) (mem n).

Definition data (xs : chain) : bytes := xs ≫= (fun x => content (snd x)).

Definition buf_ok (n : pbuf) : Prop :=
  0 <= payload n /\ 0 <= len n <= 0xFFFF /\ payload n + len n <= zlen (mem n).

(** [p->tot_len == p->len + (p->next? p->next->tot_len: 0)] *)
Fixpoint totals (xs : chain) : Prop :=
  match xs with
  | [] => True
  | x :: xs => tot_len (snd x) = zlen (data (x :: xs)) /\ totals xs
  end.

Record packet (h : pheap) (p : Z) (xs : chain) : Prop := {
  pk_seg : pseg h p xs NULL;
  pk_nodup : NoDup xs.*1;
  pk_ok : Forall (fun x => buf_ok (snd x)) xs;
  pk_totals : totals xs;
  pk_fits : zlen (data xs) <= 0xFFFF }.

(** A buffer of the library with one reference. *)
Definition owned (n : pbuf) : Prop :=
  ref n = 1 /\ Z.land (flags n) PBUF_FLAG_IS_CUSTOM = 0 /\
  ((pbuf_get_allocsrc n =? 2) || (pbuf_get_allocsrc n =? 1) || (pbuf_get_allocsrc n =? 0)) = true.

Abbreviation all_owned := (Forall (fun x : Z * pbuf => owned (snd x))).

(** ** Lemmas on chains *)

Lemma zlen_content n : buf_ok n -> zlen (content n) = len n.
Proof.
  intros (Hp & Hl & Hm). unfold zlen in *. unfold content, slice. rewrite length_take, length_drop. lia.
Qed.

Lemma data_cons x xs : data (x :: xs) = content (snd x) ++ data xs.
Proof. done. Qed.

Lemma data_app xs ys : data (xs ++ ys) = data xs ++ data ys.
Proof. unfold data. by rewrite bind_app. Qed.

Lemma pseg_app h xs : forall p ys q, pseg h p (xs ++ ys) q <-> exists r, pseg h p xs r /\ pseg h r ys q.
Proof.
  induction xs as [|[a n] xs IH]; intros p ys q; cbn.
  - split; [intros H; by exists p|intros (r & -> & H); done].
  - split.
    + intros (-> & Ha & E & (r & H1 & H2)%IH). exists r. done.
    + intros (r & (-> & Ha & E & H1) & H2). split_and!; try done. apply IH. by exists r.
Qed.

Lemma pseg_frame h h' xs : forall p q,
  (forall a, a ∈ xs.*1 -> bufs h' !! a = bufs h !! a) -> pseg h p xs q -> pseg h' p xs q.
Proof.
  induction xs as [|[a n] xs IH]; intros p q Hf; [done|]. intros (-> & Ha & E & H). cbn [pseg].
  split_and!; try done.
  - rewrite Hf; [done|]. by left.
  - apply IH; [|done]. intros b Hb. apply Hf. by right.
Qed.

Lemma pseg_nil h xs q : pseg h NULL xs q -> xs = [].
Proof. destruct xs as [|[a n] xs]; [done|]. by intros (<- & Ha & _). Qed.

Lemma pseg_lookup h xs : forall p q a n, pseg h p xs q -> (a, n) ∈ xs -> bufs h !! a = Some n.
Proof.
  induction xs as [|[b m] xs IH]; intros p q a n; cbn; [by intros _ ?%elem_of_nil|].
  intros (-> & Hb & E & H) [Heq|Hin]%elem_of_cons; [by injection Heq as -> ->|]. by eapply IH.
Qed.

Lemma packet_cons h p a n xs :
  packet h p ((a, n) :: xs) -> p = a /\ a <> NULL /\ bufs h !! a = Some n /\ buf_ok n /\
    ~ a ∈ xs.*1 /\ packet h (next n) xs /\ tot_len n = len n + zlen (data xs) /\ len n + zlen (data xs) <= 0xFFFF.
Proof.
  intros [(-> & Ha & E & Hs) [Hni Hnd]%NoDup_cons [Hok Hoks]%Forall_cons [Ht Hts] Hf].
  rewrite data_cons, zlen_app in *. cbn [snd] in *. pose proof (zlen_content n Hok) as El.
  rewrite El in *. destruct Hok as (Hp & Hl & Hm). split_and!; try done. constructor; try done. lia.
Qed.

Lemma packet_frame h h' p xs :
  (forall a, a ∈ xs.*1 -> bufs h' !! a = bufs h !! a) -> packet h p xs -> packet h' p xs.
Proof. intros Hf [Hs]. constructor; try done. by eapply pseg_frame. Qed.

Lemma packet_null h xs : packet h NULL xs -> xs = [].
Proof. intros [Hs]. by eapply pseg_nil. Qed.

Lemma load_ok h a n : bufs h !! a = Some n -> load a h = Val (n, h).
Proof. intros E. unfold load. by rewrite E. Qed.

Lemma neqb a : a <> NULL -> (a =? NULL) = false.
Proof. intros H. by apply Z.eqb_neq. Qed.

(** ** Deliveries

    The stack hands a chain of its own over by the address of its first buffer. *)

Definition first_of (xs : chain) : Z :=
  match xs with
  | [] => NULL
  | x :: _ => fst x
  end.

Definition add_bufs (xs : chain) (h : pheap) : pheap := set_bufs (list_to_map xs ∪ bufs h) h.

(** Enough for every walk over a chain of the heap. *)
Definition fuel_of (h : pheap) : nat := S (S (size (bufs h))).

Lemma chain_fuel h p xs : packet h p xs -> (length xs < fuel_of h)%nat.
Proof.
  intros [Hs Hn _ _ _]. unfold fuel_of. enough (length xs <= size (bufs h))%nat by lia.
  replace (length xs) with (length xs.*1) by apply length_fmap.
  rewrite <- (size_dom (bufs h)), <- (size_list_to_set (C := gset Z)) by done. apply subseteq_size. intros a Ha%elem_of_list_to_set. apply list_elem_of_fmap in Ha as ([b n] & -> & Hin).
  apply elem_of_dom. exists n. by eapply pseg_lookup.
Qed.

Lemma add_bufs_old xs h a : a ∉ xs.*1 -> bufs (add_bufs xs h) !! a = bufs h !! a.
Proof. intros Ha. cbn. rewrite lookup_union_r; [done|]. by apply not_elem_of_list_to_map_1. Qed.

Lemma apart_fresh h p xs (ys : chain) :
  packet h p xs -> Forall (fun x => bufs h !! fst x = None) ys -> xs.*1 ## ys.*1.
Proof.
  intros Hp Hf a Ha Hb. apply list_elem_of_fmap in Ha as ([b n] & -> & Hin), Hb as (y & Ey & Hy).
  rewrite Forall_forall in Hf. specialize (Hf y Hy). cbn in Ey. rewrite <- Ey in Hf.
  by rewrite (pseg_lookup _ _ _ _ _ _ (pk_seg _ _ _ Hp) Hin) in Hf.
Qed.

Lemma add_bufs_nil h : add_bufs [] h = h.
Proof. destruct h. unfold add_bufs, set_bufs. cbn. by rewrite (left_id_L ∅ (∪)). Qed.

(** ** Concatenation *)

(** A buffer whose total grew by [k] and that may have got another successor. *)
Definition grown (k : Z) (x y : Z * pbuf) : Prop :=
  fst y = fst x /\ exists nx, snd y = set_next nx (set_tot_len (tot_len (snd x) + k) (snd x)).

Lemma grown_data k xs ys : Forall2 (grown k) xs ys -> data ys = data xs.
Proof.
  induction 1 as [|x y xs ys (_ & nx & E) _ IH]; [done|]. by rewrite !data_cons, IH, E.
Qed.

Lemma grown_fst k xs ys : Forall2 (grown k) xs ys -> ys.*1 = xs.*1.
Proof. induction 1 as [|x y xs ys (E & _) _ IH]; [done|]. cbn. by rewrite IH, E. Qed.

Lemma grown_prop (P : pbuf -> Prop) k xs ys :
  (forall n a b, P n -> P (set_next a (set_tot_len b n))) ->
  Forall2 (grown k) xs ys -> Forall (fun x => P (snd x)) xs -> Forall (fun x => P (snd x)) ys.
Proof.
  intros HP. induction 1 as [|x y xs ys (_ & nx & E) _ IH]; [done|].
  intros [Hx Hxs]%Forall_cons. constructor; [|by apply IH]. rewrite E. by apply HP.
Qed.

Lemma grown_totals xs ys zs :
  Forall2 (grown (zlen (data zs))) xs ys -> totals xs -> totals zs -> totals (ys ++ zs).
Proof.
  intros H. induction H as [|x y xs ys Hxy HF IH]; [done|]. intros [Ht Hts] Hz. cbn [app totals].
  split; [|by apply IH]. pose proof (grown_data _ _ _ HF) as Ed. destruct Hxy as (_ & nx & E).
  rewrite data_cons, zlen_app in Ht. rewrite data_cons, data_app, Ed, !zlen_app, E. cbn [snd tot_len set_next set_tot_len].
  change (content (set_next nx (set_tot_len (tot_len (snd x) + zlen (data zs)) (snd x)))) with (content (snd x)). lia.
Qed.

Lemma cat_loop_ok t m xs : forall fuel h p,
  packet h p xs -> xs <> [] -> (length xs <= fuel)%nat ->
  bufs h !! t = Some m -> t ∉ xs.*1 -> 0 <= tot_len m -> zlen (data xs) + tot_len m <= 0xFFFF ->
  exists h' ys, cat_loop fuel p t h = Val (tt, h') /\ pseg h' p ys t /\ Forall2 (grown (tot_len m)) xs ys /\
    forall a, a ∉ xs.*1 -> bufs h' !! a = bufs h !! a.
Proof.
  induction xs as [|[a n] xs IH]; intros fuel h p Hp Hne Hf Et Hni Hm Hfit; [done|].
  destruct fuel as [|fuel]; [cbn in Hf; lia|]. cbn [cat_loop].
  apply packet_cons in Hp as (-> & Ha & En & Hok & Han & Hp & Htot & Hlim).
  rewrite data_cons, zlen_app in Hfit. cbn [snd] in Hfit. rewrite (zlen_content n Hok) in Hfit.
  pose proof (zlen_nonneg (data xs)) as Hd. destruct Hok as (_ & Hl & _).
  unfold sbind. rewrite (load_ok _ _ _ En). cbn [fst].
  assert (t <> a) as Hta by (intros ->; apply Hni; by left).
  assert (u16 (tot_len n + tot_len m) = tot_len n + tot_len m) as Eu by (apply u16_id; unfold is_u16; lia).
  destruct xs as [|[b nb] xs].
  - assert (next n = NULL) as En0 by (by destruct Hp as [Hs]). rewrite En0. cbn [Z.eqb NULL].
    change (zlen (data [])) with 0 in *. rewrite (proj2 (Z.eqb_eq _ _)) by lia. cbn [LWIP_ASSERT sret].
    rewrite (load_ok _ _ _ Et). unfold update, sbind. rewrite (load_ok _ _ _ En). cbn [store].
    rewrite (load_ok _ a (set_tot_len (tot_len n + tot_len m) n)) by (cbn; by rewrite Eu, lookup_insert_eq).
    eexists _, [(a, set_next t (set_tot_len (tot_len n + tot_len m) n))]. split; [reflexivity|].
    split; [|split].
    + cbn. rewrite lookup_insert_eq. done.
    + constructor; [|done]. split; [done|]. by eexists.
    + intros c Hc. cbn in *. apply not_elem_of_cons in Hc as [Hc _]. by rewrite !lookup_insert_ne by done.
  - assert (next n = b /\ b <> NULL) as [Enb Hb] by (apply packet_cons in Hp as (? & ? & _); done).
    rewrite Enb, neqb by done. rewrite (load_ok _ _ _ Et). cbn [store].
    set (h1 := set_bufs _ h).
    assert (forall c, c <> a -> bufs h1 !! c = bufs h !! c) as Hfr by (intros c Hc; cbn; by rewrite lookup_insert_ne).
    destruct (IH fuel h1 b) as (h' & ys & -> & Hs & HF & Hfr').
    + rewrite Enb in Hp. eapply packet_frame; [|exact Hp]. intros c Hc. apply Hfr. intros ->. done.
    + done.
    + cbn in *. lia.
    + by rewrite Hfr.
    + intros Hin. apply Hni. by right.
    + done.
    + lia.
    + exists h', ((a, set_tot_len (tot_len n + tot_len m) n) :: ys). split; [done|]. split; [|split].
      * cbn [pseg]. split_and!; try done; [|cbn [next set_tot_len]; by rewrite Enb].
        rewrite Hfr' by done. cbn. by rewrite lookup_insert_eq, Eu.
      * constructor; [|done]. split; [done|]. exists (next n). by destruct n.
      * intros c Hc. apply not_elem_of_cons in Hc as [Hca Hc]. by rewrite Hfr', Hfr.
Qed.

Lemma pbuf_cat_ok fuel h a b xs ys :
  packet h a xs -> packet h b ys -> xs <> [] -> ys <> [] -> xs.*1 ## ys.*1 ->
  (length xs <= fuel)%nat -> zlen (data xs) + zlen (data ys) <= 0xFFFF ->
  exists h' zs, pbuf_cat fuel a b h = Val (tt, h') /\ packet h' a (zs ++ ys) /\
    Forall2 (grown (zlen (data ys))) xs zs /\
    forall c, c ∉ xs.*1 -> bufs h' !! c = bufs h !! c.
Proof.
  intros Hx Hy Hxn Hyn Hd Hf Hfit. destruct xs as [|[ax nx] xs]; [done|]. destruct ys as [|[ay ny] ys]; [done|].
  pose proof (packet_cons _ _ _ _ _ Hx) as (-> & Hax & _ & _). pose proof (packet_cons _ _ _ _ _ Hy) as (-> & Hay & Ey & Hyok & _).
  assert (ay ∉ ((ax, nx) :: xs).*1) as Hni by (intros Hin; apply (Hd ay); [done|by left]).
  pose proof (pk_totals _ _ _ Hy) as [Hty _]. cbn [snd] in Hty.
  unfold pbuf_cat. rewrite !neqb by done. cbn [orb].
  rewrite (proj2 (Z.eqb_neq ax ay)) by (intros ->; apply Hni; by left). cbn [negb LWIP_ASSERT]. unfold sbind, sret.
  destruct (cat_loop_ok ay ny ((ax, nx) :: xs) fuel h ax Hx Hxn Hf Ey Hni) as (h' & zs & -> & Hs & HF & Hfr);
    [pose proof (zlen_nonneg (data ((ay, ny) :: ys))); lia|lia|].
  rewrite Hty in HF. exists h', zs. split; [done|]. split; [|done]. destruct Hx as [_ X2 X3 X4 X5], Hy as [Y1 Y2 Y3 Y4 Y5].
  pose proof (grown_fst _ _ _ HF) as Ef. constructor.
  - apply pseg_app. exists ay. split; [done|]. eapply pseg_frame; [|exact Y1]. intros c Hc. apply Hfr. intros Hcx. exact (Hd c Hcx Hc).
  - rewrite fmap_app, Ef. apply NoDup_app. split_and!; try done.
  - apply Forall_app. split; [|done]. eapply grown_prop; [|exact HF|exact X3]. intros n ? ? Hn. exact Hn.
  - by eapply grown_totals.
  - rewrite data_app, zlen_app, (grown_data _ _ _ HF). lia.
Qed.

(** ** Freeing *)

Section free.
Context (custom_free : Z -> PM unit).

Lemma free_loop_ok xs : forall fuel h p c,
  pseg h p xs NULL -> NoDup xs.*1 -> all_owned xs -> (length xs <= fuel)%nat -> is_u8 c ->
  exists h', free_loop custom_free fuel p c h = Val (u8 (c + zlen xs), h') /\
    free_ooseq_pending h' = free_ooseq_pending h /\
    (forall a, a ∈ xs.*1 -> bufs h' !! a = None) /\
    (forall a, a ∉ xs.*1 -> bufs h' !! a = bufs h !! a).
Proof.
  induction xs as [|[a n] xs IH]; intros fuel h p c Hs Hnd Ho Hf Hc.
  - cbn in Hs. subst p. exists h. destruct fuel; cbn; rewrite Z.add_0_r, u8_id by done;
      (split_and!; [done..|by intros a ?%elem_of_nil|done]).
  - destruct fuel as [|fuel]; [cbn in Hf; lia|]. destruct Hs as (-> & Ha & En & Hs).
    apply Forall_cons in Ho as [(Hr & Hfl & Hsrc) Ho]. apply NoDup_cons in Hnd as [Hni Hnd]. cbn [snd] in *.
    cbn [free_loop]. rewrite neqb by done. unfold sbind. rewrite (load_ok _ _ _ En), Hr.
    change (1 >? 0) with true. cbn [LWIP_ASSERT sret store]. change (u8 (1 - 1)) with 0. rewrite Z.eqb_refl.
    rewrite Hfl, Z.eqb_refl. cbn [negb]. rewrite Hsrc. cbn [LWIP_ASSERT sret release].
    match goal with |- context [free_loop _ _ _ _ ?h1] => set (h2 := h1) end.
    assert (bufs h2 = delete a (bufs h)) as Eb by (cbn; by rewrite delete_insert_eq).
    destruct (IH fuel h2 (next n) (u8 (c + 1))) as (h' & -> & Hp & Hin & Hout); try done.
    + eapply pseg_frame; [|exact Hs]. intros b Hb. rewrite Eb, lookup_delete_ne; [done|]. by intros ->.
    + cbn in Hf. lia.
    + apply u8_range.
    + exists h'. split; [|split; [done|split]].
      * f_equal. f_equal. rewrite zlen_cons. unfold u8. rewrite Zplus_mod_idemp_l. f_equal. lia.
      * intros b [->|Hb]%elem_of_cons; [|by apply Hin]. cbn. rewrite Hout, Eb by done. apply lookup_delete_eq.
      * intros b [Hba Hb]%not_elem_of_cons. rewrite Hout, Eb by done. by apply lookup_delete_ne.
Qed.

(** [pbuf_free] of an owned packet gives back every buffer of it and nothing else. *)
Lemma pbuf_free_ok fuel h p xs :
  packet h p xs -> all_owned xs -> xs <> [] -> (length xs <= fuel)%nat ->
  exists c h', pbuf_free custom_free fuel p h = Val (c, h') /\
    (forall a, a ∈ xs.*1 -> bufs h' !! a = None) /\
    (forall a, a ∉ xs.*1 -> bufs h' !! a = bufs h !! a).
Proof.
  intros Hp Ho Hne Hf. destruct xs as [|[a n] xs]; [done|]. pose proof (packet_cons _ _ _ _ _ Hp) as (-> & Ha & _).
  unfold pbuf_free, sbind. rewrite neqb by done. cbn [negb LWIP_ASSERT sret].
  destruct (free_loop_ok ((a, n) :: xs) fuel h a 0) as (h' & E & _ & H); [apply Hp|apply Hp|done..|].
  eauto.
Qed.

Lemma remove_header_ok h a n k :
  bufs h !! a = Some n -> a <> NULL -> buf_ok n -> 0 < k <= len n -> len n <= tot_len n <= 0xFFFF ->
  pbuf_remove_header a k h =
    Val (0, set_bufs (<[a := set_tot_len (tot_len n - k) (set_len (len n - k) (set_payload (payload n + k) n))]> (bufs h)) h).
Proof.
  intros En Ha (Hp & Hl & Hm) Hk Ht. unfold pbuf_remove_header, sbind. rewrite neqb by done.
  cbn [negb LWIP_ASSERT sret]. rewrite Z.gtb_ltb, (proj2 (Z.ltb_ge _ _)) by lia.
  rewrite (proj2 (Z.eqb_neq _ _)) by lia. rewrite (load_ok _ _ _ En).
  rewrite !u16_id by (unfold is_u16; rewrite ?u16_id by (unfold is_u16; lia); lia).
  rewrite (proj2 (Z.leb_le _ _)) by lia. done.
Qed.

Lemma content_drop n k t :
  buf_ok n -> 0 <= k <= len n ->
  content (set_tot_len t (set_len (len n - k) (set_payload (payload n + k) n))) = drop (Z.to_nat k) (content n).
Proof.
  intros (Hp & Hl & Hm) Hk. unfold content, slice. cbn [payload len mem set_tot_len set_len set_payload].
  rewrite skipn_firstn_comm, drop_drop. f_equal; [lia|]. f_equal. lia.
Qed.

Lemma remove_front_ok h a n xs k :
  packet h a ((a, n) :: xs) -> 0 < k <= len n ->
  exists h1 n', pbuf_remove_header a k h = Val (0, h1) /\ packet h1 a ((a, n') :: xs) /\
    (owned n -> owned n') /\ data ((a, n') :: xs) = drop (Z.to_nat k) (data ((a, n) :: xs)) /\
    forall b, b <> a -> bufs h1 !! b = bufs h !! b.
Proof.
  intros Hp Hk. pose proof (packet_cons _ _ _ _ _ Hp) as (_ & Ha & En & Hok & Hni & Hp' & Ht & Hlim).
  pose proof (zlen_content n Hok) as El. pose proof Hok as (_ & Hl & _). pose proof (zlen_nonneg (data xs)) as Hd0.
  rewrite (remove_header_ok _ _ n) by (done || lia).
  set (n' := set_tot_len _ _). set (h1 := set_bufs _ h). exists h1, n'.
  assert (content n' = drop (Z.to_nat k) (content n)) as Ec by (apply content_drop; [done|lia]).
  assert (data ((a, n') :: xs) = drop (Z.to_nat k) (data ((a, n) :: xs))) as Ed.
  { rewrite !data_cons. cbn [snd]. rewrite Ec, drop_app_le; [done|]. unfold zlen in El. lia. }
  split_and!; try done.
  - constructor.
    + cbn [pseg]. split_and!; try done; [cbn; by rewrite lookup_insert_eq|].
      eapply pseg_frame; [|apply Hp']. intros b Hb. cbn. rewrite lookup_insert_ne; [done|]. by intros ->.
    + apply NoDup_cons. split; [done|apply Hp'].
    + constructor; [|apply Hp']. unfold buf_ok, n' in *. cbn. lia.
    + split; [|apply Hp']. cbn [snd]. rewrite Ed. unfold zlen. rewrite length_drop, data_cons, length_app. cbn [snd].
      unfold zlen in *. cbn. lia.
    + rewrite Ed. unfold zlen. rewrite length_drop. pose proof (pk_fits _ _ _ Hp) as Hfit. unfold zlen in Hfit. lia.
  - intros b Hb. cbn. by apply lookup_insert_ne.
Qed.

(** [pbuf_free_header] consumes bytes from the front: what is left is a packet again
    and the emptied buffers are gone. *)
Lemma free_header_ok xs : forall fuel h p k,
  packet h p xs -> all_owned xs -> (length xs < fuel)%nat -> is_u16 k ->
  exists q h' ys, pbuf_free_header custom_free fuel p k h = Val (q, h') /\ packet h' q ys /\ all_owned ys /\
    data ys = drop (Z.to_nat k) (data xs) /\ ys.*1 ⊆ xs.*1 /\
    (forall a, a ∈ xs.*1 -> a ∉ ys.*1 -> bufs h' !! a = None) /\
    (forall a, a ∉ xs.*1 -> bufs h' !! a = bufs h !! a).
Proof.
  unfold pbuf_free_header.
  induction xs as [|[a n] xs IH]; intros fuel h p k Hp Ho Hf Hk.
  { destruct Hp as [Hs]; cbn in Hs; subst p. exists NULL, h, [].
    destruct fuel; cbn [free_header_loop]; rewrite Z.eqb_refl, orb_true_r;
      (split_and!; try done; change (data []) with (@nil Z); by rewrite drop_nil). }
  pose proof (packet_cons _ _ _ _ _ Hp) as (-> & Ha & En & Hok & Hni & Hp' & Ht & Hlim).
  pose proof (zlen_content n Hok) as El. pose proof Hok as (_ & Hl & _).
  destruct (Z.eq_dec k 0) as [->|Hk0].
  { exists a, h, ((a, n) :: xs). destruct fuel; cbn [free_header_loop]; rewrite Z.eqb_refl; cbn [orb sret];
      (split_and!; done). }
  apply Forall_cons in Ho as [Hon Ho]. destruct fuel as [|fuel]; [cbn in Hf; lia|].
  cbn [free_header_loop]. rewrite (proj2 (Z.eqb_neq k 0)), neqb by done. cbn [orb]. unfold sbind.
  rewrite (load_ok _ _ _ En), Z.geb_leb. unfold is_u16 in Hk. destruct (Z.leb_spec (len n) k) as [Hle|Hlt].
  - cbn [store]. set (h1 := set_bufs _ h).
    destruct (free_loop_ok [(a, set_next NULL n)] (S fuel) h1 a 0) as (h2 & Efree & _ & Hin & Hout).
    { cbn. rewrite lookup_insert_eq. done. } { apply NoDup_singleton. } { by constructor. } { cbn. lia. } { done. }
    unfold pbuf_free, sbind. rewrite neqb by done. cbn [negb LWIP_ASSERT sret]. rewrite Efree.
    assert (forall b, b <> a -> bufs h2 !! b = bufs h !! b) as Hfr.
    { intros b Hb. rewrite Hout by (cbn; by intros ->%list_elem_of_singleton). cbn. by apply lookup_insert_ne. }
    destruct (IH fuel h2 (next n) (u16 (k - len n))) as (q & h' & ys & -> & Hq & Hoy & Ed & Hsub & Hgone & Hframe); try done.
    { eapply packet_frame; [|exact Hp']. intros b Hb. apply Hfr. by intros ->. }
    { cbn in Hf. lia. } { apply u16_range. }
    exists q, h', ys. split_and!; try done.
    + rewrite Ed, data_cons, u16_id by (unfold is_u16; lia). cbn [snd]. rewrite drop_app_ge by (unfold zlen in El; lia).
      replace (Z.to_nat k - length (content n))%nat with (Z.to_nat (k - len n)); [done|]. unfold zlen in El. lia.
    + intros b Hb. right. by apply Hsub.
    + intros b [->|Hb]%elem_of_cons Hby; [|by apply Hgone]. cbn [fst] in *. rewrite Hframe by done. apply Hin. by left.
    + intros b [Hba Hb]%not_elem_of_cons. cbn [fst] in *. rewrite Hframe by done. by apply Hfr.
  - destruct (remove_front_ok h a n xs k Hp) as (h1 & n' & -> & Hp1 & Ho1 & Ed & Hfr); [lia|].
    assert (free_header_loop custom_free fuel a 0 h1 = Val (a, h1)) as -> by (by destruct fuel).
    exists a, h1, ((a, n') :: xs). split_and!; try done.
    + constructor; [by apply Ho1|done].
    + intros b [Hba Hb]%not_elem_of_cons. by apply Hfr.
Qed.

End free.

(** ** Reading *)

Lemma skip_ok xs : forall fuel h p off,
  packet h p xs -> (length xs < fuel)%nat -> 0 <= off < zlen (data xs) ->
  exists pre a n post idx, xs = pre ++ (a, n) :: post /\ pbuf_skip_const fuel p off h = Val ((a, idx), h) /\
    off = zlen (data pre) + idx /\ 0 <= idx < len n.
Proof.
  induction xs as [|[a n] xs IH]; intros fuel h p off Hp Hf Ho; [change (zlen (data [])) with 0 in Ho; lia|].
  pose proof (packet_cons _ _ _ _ _ Hp) as (-> & Ha & En & Hok & Hni & Hp' & Ht & Hlim).
  pose proof (zlen_content n Hok) as El. pose proof Hok as (_ & Hl & _).
  rewrite data_cons, zlen_app in Ho. cbn [snd] in Ho. rewrite El in Ho.
  destruct fuel as [|fuel]; [cbn in Hf; lia|]. cbn [pbuf_skip_const]. rewrite neqb by done. unfold sbind.
  rewrite (load_ok _ _ _ En). destruct (Z.leb_spec (len n) off) as [Hle|Hlt].
  - rewrite u16_id by (unfold is_u16; lia).
    destruct (IH fuel h (next n) (off - len n) Hp') as (pre & b & m & post & idx & -> & -> & Eo & Hidx); [cbn in Hf; lia|lia|].
    exists ((a, n) :: pre), b, m, post, idx. split_and!; try done; [|lia..]. rewrite data_cons, zlen_app. cbn [snd]. lia.
  - exists [], a, n, xs, off. change (zlen (data [])) with 0. split_and!; done || lia.
Qed.

(** An offset at or behind the end. *)
Lemma skip_end xs : forall fuel h p off,
  packet h p xs -> (length xs < fuel)%nat -> zlen (data xs) <= off <= 0xFFFF ->
  pbuf_skip_const fuel p off h = Val ((NULL, off - zlen (data xs)), h).
Proof.
  induction xs as [|[a n] xs IH]; intros fuel h p off Hp Hf Ho.
  { destruct Hp as [Hs]; cbn in Hs; subst p. change (zlen (data [])) with 0. rewrite Z.sub_0_r. by destruct fuel. }
  pose proof (packet_cons _ _ _ _ _ Hp) as (-> & Ha & En & Hok & Hni & Hp' & Ht & Hlim).
  pose proof (zlen_content n Hok) as El. pose proof Hok as (_ & Hl & _). pose proof (zlen_nonneg (data xs)) as Hd.
  rewrite data_cons, zlen_app in *. cbn [snd] in *. rewrite El in *.
  destruct fuel as [|fuel]; [cbn in Hf; lia|]. cbn [pbuf_skip_const]. rewrite neqb by done. unfold sbind.
  rewrite (load_ok _ _ _ En), (proj2 (Z.leb_le _ _)) by lia. rewrite u16_id by (unfold is_u16; lia).
  rewrite IH by (done || (cbn in Hf; lia) || lia). do 3 f_equal. lia.
Qed.

Lemma read_payload_ok n off k : buf_ok n -> 0 <= off -> 0 <= k -> off + k <= len n ->
  read_payload n off k = Val (slice (Z.to_nat off) (Z.to_nat k) (content n)).
Proof.
  intros (Hp & Hl & Hm) Ho Hk Hlen. unfold read_payload, get_n. rewrite bool_decide_true by lia. f_equal.
  unfold content, slice. rewrite skipn_firstn_comm, take_take, drop_drop. f_equal; [lia|]. f_equal. lia.
Qed.

Lemma slice_app_front (l k : bytes) off n : (off + n <= length l)%nat -> slice off n (l ++ k) = slice off n l.
Proof. intros H. unfold slice. rewrite drop_app_le, take_app_le by (rewrite ?length_drop; lia). done. Qed.

Lemma slice_app_back (l k : bytes) off n : (length l <= off)%nat -> slice off n (l ++ k) = slice (off - length l) n k.
Proof. intros H. unfold slice. by rewrite drop_app_ge. Qed.

Lemma slice_app_across (l k : bytes) off n :
  (off <= length l)%nat -> (length l <= off + n)%nat ->
  slice off n (l ++ k) = slice off (length l - off) l ++ slice 0 (n - (length l - off)) k.
Proof.
  intros H1 H2. unfold slice. rewrite drop_app_le, take_app_ge by (rewrite ?length_drop; lia).
  rewrite length_drop. f_equal. by rewrite take_ge by (rewrite length_drop; lia).
Qed.

(** What a read of [n] bytes at [off] of a packet of [total] bytes yields. *)
Definition available (total n off : Z) : Z := Z.min n (Z.max 0 (total - off)).

Lemma copy_partial_loop_ok xs : forall fuel h p pre mid post n off c,
  packet h p xs -> (length xs < fuel)%nat -> 0 <= n -> 0 <= off <= 0xFFFF -> 0 <= c ->
  zlen mid = available (zlen (data xs)) n off -> zlen pre + zlen mid <= 0xFFFF -> c + zlen mid <= 0xFFFF -> n <= 0xFFFF ->
  copy_partial_loop fuel p (pre ++ mid ++ post) (zlen pre) n off c h =
    Val ((c + zlen mid, pre ++ slice (Z.to_nat off) (Z.to_nat (zlen mid)) (data xs) ++ post), h).
Proof.
  induction xs as [|[a b] xs IH]; intros fuel h p pre mid post n off c Hp Hf Hn Ho Hc Em Hpre Hcm Hn16.
  { destruct Hp as [Hs]; cbn in Hs; subst p. change (zlen (data [])) with 0 in Em. unfold available in Em.
    assert (mid = []) as -> by (destruct mid; [done|rewrite zlen_cons in Em; pose proof (zlen_nonneg mid); lia]).
    change (zlen []) with 0. rewrite Z.add_0_r. by destruct fuel; cbn [copy_partial_loop]; rewrite Z.eqb_refl, orb_true_r. }
  pose proof (packet_cons _ _ _ _ _ Hp) as (-> & Ha & En & Hok & Hni & Hp' & Ht & Hlim).
  pose proof (zlen_content b Hok) as El. pose proof Hok as (_ & Hl & _). pose proof (zlen_nonneg (data xs)) as Hd.
  rewrite data_cons, zlen_app in *. cbn [snd] in *. rewrite El in *. unfold available in Em.
  pose proof (zlen_nonneg mid) as Hm0. pose proof (zlen_nonneg pre) as Hp0.
  destruct fuel as [|fuel]; [cbn in Hf; lia|]. cbn [copy_partial_loop]. rewrite (neqb a) by done.
  destruct (Z.eqb_spec n 0) as [->|Hn0]; cbn [orb].
  { assert (mid = []) as -> by (destruct mid; [done|rewrite zlen_cons in Em; pose proof (zlen_nonneg mid); lia]).
    change (zlen []) with 0. by rewrite Z.add_0_r. }
  unfold sbind. rewrite (load_ok _ _ _ En), Z.geb_leb.
  destruct (negb (off =? 0) && (len b <=? off)) eqn:Eskip.
  - apply andb_prop in Eskip as [E0 Eo]. apply Z.leb_le in Eo. rewrite u16_id by (unfold is_u16; lia).
    rewrite (IH fuel) by (done || (cbn in Hf; lia) || lia || (unfold available; lia)).
    rewrite slice_app_back by (unfold zlen in El; lia). do 6 f_equal. unfold zlen in El. lia.
  - assert (off <= len b) as Hob.
    { destruct (Z.eqb_spec off 0); [lia|]. cbn in Eskip. apply Z.leb_gt in Eskip. lia. }
    rewrite (u16_id (len b - off)) by (unfold is_u16; lia).
    remember (Z.min (len b - off) n) as k eqn:Ek. assert (0 <= k <= zlen mid) as Hk by lia.
    rewrite read_payload_ok by (done || lia). unfold slift. cbn [obind].
    set (d := slice _ _ (content b)). assert (zlen d = k) as Ed.
    { unfold zlen in *. unfold d. rewrite length_slice; lia. }
    destruct (split_at mid 0 k) as (e & m1 & m2 & -> & E0 & Em1); [lia..|].
    destruct e; [|rewrite zlen_cons in E0; pose proof (zlen_nonneg e); lia]. cbn [app] in *. rewrite zlen_app in *. rewrite Em1 in *.
    rewrite <- (app_assoc m1 m2 post), (put_n_app pre m1 (m2 ++ post)) by (done || lia). cbn [obind].
    pose proof (zlen_nonneg m2) as Hm2.
    rewrite !(u16_id (_ + k)) by (unfold is_u16; lia). rewrite (u16_id (n - k)) by (unfold is_u16; lia).
    replace (pre ++ d ++ m2 ++ post) with ((pre ++ d) ++ m2 ++ post) by (by rewrite <- app_assoc).
    replace (zlen pre + k) with (zlen (pre ++ d)) by (rewrite zlen_app; lia).
    rewrite (IH fuel) by (done || (cbn in Hf; lia) || lia || (unfold available; lia) || (rewrite zlen_app; lia)).
    f_equal. f_equal. f_equal; [lia|]. rewrite <- app_assoc. f_equal. rewrite app_assoc. f_equal.
    assert (zlen m2 = 0 \/ k = len b - off) as [Hz|Hk'] by lia.
    + rewrite Hz, Z.add_0_r. change (Z.to_nat 0) with 0%nat. unfold slice at 1. cbn [take]. rewrite app_nil_r.
      rewrite slice_app_front by (unfold zlen in El; lia). done.
    + rewrite slice_app_across by (unfold zlen in El; lia). unfold d. unfold zlen in *. f_equal; f_equal; lia.
Qed.

(** [pbuf_copy_partial] copies out what there is of the wanted range. *)
Lemma copy_partial_ok fuel h p xs mid post n off :
  packet h p xs -> xs <> [] -> (length xs < fuel)%nat -> is_u16 n -> is_u16 off ->
  zlen mid = available (zlen (data xs)) n off ->
  pbuf_copy_partial fuel p (mid ++ post) n off h =
    Val ((zlen mid, slice (Z.to_nat off) (Z.to_nat (zlen mid)) (data xs) ++ post), h).
Proof.
  intros Hp Hne Hf Hn Ho Em. unfold is_u16 in *. destruct xs as [|[a b] xs]; [done|].
  pose proof (packet_cons _ _ _ _ _ Hp) as (-> & Ha & _). pose proof (pk_fits _ _ _ Hp).
  unfold pbuf_copy_partial. rewrite neqb by done. unfold available in *.
  apply (copy_partial_loop_ok _ fuel h a [] mid post n off 0); unfold available; done || lia || (change (zlen []) with 0; lia).
Qed.

(** ** Writing *)

(** The same buffer with other bytes in its memory. *)
Definition filled (x y : Z * pbuf) : Prop :=
  fst y = fst x /\ exists m, snd y = set_mem m (snd x) /\ zlen m = zlen (mem (snd x)).

Lemma filled_refl x : filled x x.
Proof. split; [done|]. exists (mem (snd x)). split; [by destruct x as [? []]|done]. Qed.

Lemma filled_all xs : Forall2 filled xs xs.
Proof. induction xs; constructor; [apply filled_refl|done]. Qed.

Lemma filled_ok x y : filled x y -> buf_ok (snd x) -> buf_ok (snd y) /\ len (snd y) = len (snd x).
Proof. intros (_ & m & -> & Em) (Hp & Hl & Hm). unfold buf_ok. cbn. rewrite Em. done. Qed.

Lemma filled_fst xs ys : Forall2 filled xs ys -> ys.*1 = xs.*1.
Proof. induction 1 as [|x y xs ys (E & _) _ IH]; [done|]. cbn. by rewrite IH, E. Qed.

Lemma filled_len xs ys :
  Forall2 filled xs ys -> Forall (fun x => buf_ok (snd x)) xs ->
  zlen (data ys) = zlen (data xs) /\ Forall (fun x => buf_ok (snd x)) ys.
Proof.
  induction 1 as [|x y xs ys Hxy _ IH]; [done|]. intros [Hx Hxs]%Forall_cons.
  destruct (filled_ok _ _ Hxy Hx) as [Hy El]. destruct (IH Hxs) as [Ed Hys].
  split; [|by constructor]. rewrite !data_cons, !zlen_app, !zlen_content by done. lia.
Qed.

Lemma filled_totals xs ys :
  Forall2 filled xs ys -> Forall (fun x => buf_ok (snd x)) xs -> totals xs -> totals ys.
Proof.
  induction 1 as [|x y xs ys Hxy HF IH]; [done|]. intros Hok [Ht Hts].
  destruct (filled_len (x :: xs) (y :: ys)) as [El _]; [by constructor|done|].
  apply Forall_cons in Hok as [_ Hok]. split; [|by apply IH].
  destruct Hxy as (_ & m & E & _). rewrite El, <- Ht, E. done.
Qed.

Lemma filled_owned xs ys : Forall2 filled xs ys -> all_owned xs -> all_owned ys.
Proof.
  induction 1 as [|x y xs ys (_ & m & E & _) _ IH]; [done|]. intros [Hx Hxs]%Forall_cons.
  constructor; [|by apply IH]. by rewrite E.
Qed.

Lemma filled_packet h h' p xs ys :
  packet h p xs -> Forall2 filled xs ys -> pseg h' p ys NULL -> packet h' p ys.
Proof.
  intros [_ X2 X3 X4 X5] HF Hs. destruct (filled_len _ _ HF X3) as [El Hok]. constructor; try done.
  - by rewrite (filled_fst _ _ HF).
  - by eapply filled_totals.
  - lia.
Qed.

Lemma write_payload_ok h a n off d :
  bufs h !! a = Some n -> buf_ok n -> 0 <= off -> off + zlen d <= len n ->
  exists m, write_payload a off d h = Val (tt, set_bufs (<[a := set_mem m n]> (bufs h)) h) /\
    zlen m = zlen (mem n) /\ content (set_mem m n) = splice (Z.to_nat off) d (content n).
Proof.
  intros En (Hp & Hl & Hm) Ho Hd. exists (splice (Z.to_nat (payload n + off)) d (mem n)).
  unfold zlen in *. unfold write_payload, sbind. rewrite (load_ok _ _ _ En). unfold slift, put_n, zlen. rewrite bool_decide_true by lia.
  cbn [obind]. split_and!; [done|rewrite length_splice; lia|].
  unfold content. cbn [payload len mem set_mem]. apply list_eq. intros i.
  destruct (decide (i < Z.to_nat (len n))%nat) as [Hi|Hi].
  - rewrite lookup_slice by done.
    destruct (decide (Z.to_nat off <= i < Z.to_nat off + length d)%nat).
    + rewrite lookup_splice_in by lia. rewrite lookup_splice_in by (rewrite ?length_slice; lia). f_equal. lia.
    + rewrite lookup_splice_out by lia. rewrite lookup_splice_out by (rewrite ?length_slice; lia).
      by rewrite lookup_slice.
  - rewrite !lookup_ge_None_2; [done|rewrite length_splice; rewrite length_slice; lia|rewrite length_slice; [lia|rewrite length_splice; lia]].
Qed.

Lemma splice_0 {A} (d l : list A) : splice 0 d l = d ++ drop (length d) l.
Proof. done. Qed.

Lemma take_loop_ok xs : forall fuel h p d,
  packet h p xs -> (length xs <= fuel)%nat -> zlen d <= zlen (data xs) ->
  exists h' ys, take_loop fuel p d h = Val (tt, h') /\ pseg h' p ys NULL /\ Forall2 filled xs ys /\
    data ys = splice 0 d (data xs) /\ forall a, a ∉ xs.*1 -> bufs h' !! a = bufs h !! a.
Proof.
  induction xs as [|[a n] xs IH]; intros fuel h p d Hp Hf Hd.
  { change (zlen (data [])) with 0 in Hd. assert (d = []) as -> by (destruct d; [done|rewrite zlen_cons in Hd; pose proof (zlen_nonneg d); lia]).
    exists h, []. destruct fuel; cbn [take_loop]; (split_and!; [done|apply Hp|done..]). }
  pose proof (packet_cons _ _ _ _ _ Hp) as (-> & Ha & En & Hok & Hni & Hp' & Ht & Hlim).
  pose proof (zlen_content n Hok) as El. pose proof Hok as (_ & Hl & _).
  destruct d as [|b d].
  { exists h, ((a, n) :: xs). destruct fuel; cbn [take_loop]; (split_and!; [done|apply Hp|apply filled_all|done..]). }
  destruct fuel as [|fuel]; [cbn in Hf; lia|]. cbn [take_loop]. set (dd := b :: d) in *. rewrite neqb by done.
  cbn [negb LWIP_ASSERT]. unfold sbind. cbn [sret]. rewrite (load_ok _ _ _ En).
  remember (Z.min (zlen dd) (len n)) as k eqn:Ek. pose proof (zlen_nonneg dd) as Hdd.
  destruct (write_payload_ok h a n 0 (take (Z.to_nat k) dd)) as (m & -> & Em & Ec); [done..|unfold zlen in *; rewrite length_take; lia|].
  set (h1 := set_bufs _ h).
  assert (forall c, c <> a -> bufs h1 !! c = bufs h !! c) as Hfr by (intros c Hc; cbn; by rewrite lookup_insert_ne).
  rewrite data_cons, zlen_app in Hd. cbn [snd] in Hd. rewrite El in Hd.
  destruct (IH fuel h1 (next n) (drop (Z.to_nat k) dd)) as (h' & ys & -> & Hs & HF & Ed & Hfr').
  { eapply packet_frame; [|exact Hp']. intros c Hc. apply Hfr. by intros ->. }
  { cbn in Hf. lia. } { pose proof (zlen_nonneg (data xs)). unfold zlen in *. rewrite length_drop. lia. }
  exists h', ((a, set_mem m n) :: ys). split_and!; try done.
  - cbn [pseg]. split_and!; try done. rewrite Hfr' by done. cbn. by rewrite lookup_insert_eq.
  - constructor; [|done]. split; [done|]. by exists m.
  - rewrite !data_cons. cbn [snd]. rewrite Ec, Ed. change (Z.to_nat 0) with 0%nat. rewrite !splice_0, length_take, length_drop.
    unfold zlen in *. destruct (Z.le_gt_cases (Z.of_nat (length dd)) (len n)) as [Hle|Hgt].
    + replace (Z.to_nat k) with (length dd) by lia. rewrite Nat.min_id, Nat.sub_diag, take_ge, (drop_ge dd) by lia.
      rewrite drop_app_le by lia. cbn [app drop]. by rewrite <- app_assoc.
    + rewrite (drop_ge (content n)) by lia. rewrite app_nil_r, drop_app_ge by lia. rewrite app_assoc, take_drop. do 2 f_equal. lia.
  - intros c [Hca Hc]%not_elem_of_cons. by rewrite Hfr', Hfr.
Qed.

Lemma packet_suffix h p pre xs : packet h p (pre ++ xs) -> exists r, pseg h p pre r /\ packet h r xs.
Proof.
  intros [Hs Hn Hok Ht Hf]. apply pseg_app in Hs as (r & H1 & H2). exists r. split; [done|].
  rewrite fmap_app in Hn. apply NoDup_app in Hn as (_ & _ & Hn). apply Forall_app in Hok as [_ Hok].
  rewrite data_app, zlen_app in Hf. pose proof (zlen_nonneg (data pre)).
  constructor; try done; [|lia]. clear -Ht. induction pre as [|x pre IH]; [done|]. apply IH. apply Ht.
Qed.

Lemma take_ok fuel h p xs d :
  packet h p xs -> xs <> [] -> (length xs <= fuel)%nat -> zlen d <= zlen (data xs) ->
  exists h' ys, pbuf_take fuel p d (zlen d) h = Val (ERR_OK, h') /\ pseg h' p ys NULL /\ Forall2 filled xs ys /\
    data ys = splice 0 d (data xs) /\ forall a, a ∉ xs.*1 -> bufs h' !! a = bufs h !! a.
Proof.
  intros Hp Hne Hf Hd. destruct (take_loop_ok xs fuel h p d Hp Hf Hd) as (h' & ys & E & H).
  exists h', ys. split; [|done]. destruct xs as [|[a n] xs]; [done|].
  pose proof (packet_cons _ _ _ _ _ Hp) as (-> & Ha & En & _). pose proof (pk_totals _ _ _ Hp) as [Ht _]. cbn [snd] in Ht.
  unfold pbuf_take. rewrite neqb by done. unfold sbind. rewrite (load_ok _ _ _ En), Ht, Z.geb_leb, (proj2 (Z.leb_le _ _)) by done.
  cbn [negb]. pose proof (get_n_app [] d [] 0 (zlen d) eq_refl eq_refl) as Eg. rewrite app_nil_r in Eg. cbn [app] in Eg.
  unfold slift. rewrite Eg. cbn [obind]. by rewrite E.
Qed.

Lemma splice_app_front {A} off (d l k : list A) :
  (off + length d <= length l)%nat -> splice off d (l ++ k) = splice off d l ++ k.
Proof.
  intros H. unfold splice. rewrite take_app_le, drop_app_le by lia. by rewrite <- !app_assoc.
Qed.

Lemma splice_app_back {A} off (d l k : list A) :
  splice (length l + off) d (l ++ k) = l ++ splice off d k.
Proof.
  unfold splice. rewrite take_app_add, <- app_assoc. do 3 f_equal.
  rewrite <- Nat.add_assoc. by rewrite drop_app_add.
Qed.

Lemma splice_app_across {A} off (d1 d2 l k : list A) :
  (off + length d1 = length l)%nat -> splice off (d1 ++ d2) (l ++ k) = splice off d1 l ++ splice 0 d2 k.
Proof.
  intros H. unfold splice. rewrite take_app_le by lia. rewrite (drop_ge l) by lia. cbn [take app Nat.add].
  rewrite length_app, Nat.add_assoc, H, drop_app_add, app_nil_r. by rewrite <- !app_assoc.
Qed.

(** What the write at the first touched buffer leaves. *)
Lemma write_at_ok h p pre a n post off d :
  packet h p (pre ++ (a, n) :: post) -> 0 <= off -> off + zlen d <= len n ->
  exists h1 m, write_payload a off d h = Val (tt, h1) /\ filled (a, n) (a, set_mem m n) /\
    content (set_mem m n) = splice (Z.to_nat off) d (content n) /\ bufs h1 !! a = Some (set_mem m n) /\
    packet h1 (next n) post /\ pseg h1 p pre a /\ (forall b, b <> a -> bufs h1 !! b = bufs h !! b).
Proof.
  intros Hp Ho Hd. destruct (packet_suffix _ _ _ _ Hp) as (r & Hpre & Hx).
  pose proof (packet_cons _ _ _ _ _ Hx) as (-> & Ha & En & Hok & Hni & Hp' & _).
  destruct (write_payload_ok h a n off d En Hok Ho Hd) as (m & E & Em & Ec). eexists _, m. split; [exact E|].
  assert (forall b, b <> a -> <[a := set_mem m n]> (bufs h) !! b = bufs h !! b) as Hfr
    by (intros b Hb; by apply lookup_insert_ne).
  split_and!; try done.
  - split; [done|]. by exists m.
  - cbn. apply lookup_insert_eq.
  - eapply packet_frame; [|exact Hp']. intros b Hb. apply Hfr. by intros ->.
  - eapply pseg_frame; [|exact Hpre]. intros b Hb. apply Hfr. intros ->.
    pose proof (pk_nodup _ _ _ Hp) as Hn. rewrite fmap_app in Hn. apply NoDup_app in Hn as (_ & Hn & _).
    apply (Hn a Hb). by left.
Qed.

(** The rest of the data goes to the buffers that follow. *)
Lemma take_rest_ok fuel h q xs d1 d2 k :
  packet h q xs -> (length xs <= fuel)%nat -> zlen d2 <= zlen (data xs) -> zlen d1 = k ->
  exists h' ys, (if zlen d2 >? 0 then pbuf_take fuel q (drop (Z.to_nat k) (d1 ++ d2)) (zlen d2) else sret ERR_OK) h =
      Val (ERR_OK, h') /\ pseg h' q ys NULL /\ Forall2 filled xs ys /\
    data ys = splice 0 d2 (data xs) /\ forall a, a ∉ xs.*1 -> bufs h' !! a = bufs h !! a.
Proof.
  intros Hp Hf Hd <-. rewrite Z.gtb_ltb. destruct (Z.ltb_spec 0 (zlen d2)) as [Hlt|Hge].
  - unfold zlen at 1. rewrite Nat2Z.id, drop_app_length. apply take_ok; try done.
    intros ->. change (zlen (data [])) with 0 in Hd. lia.
  - destruct d2; [|rewrite zlen_cons in Hge; pose proof (zlen_nonneg d2); lia].
    exists h, xs. split_and!; [done|apply Hp|apply filled_all|done..].
Qed.

(** [pbuf_take_at] overwrites the wanted range of the packet. *)
Lemma take_at_ok fuel h p xs d off :
  packet h p xs -> (length xs < fuel)%nat -> 0 <= off < zlen (data xs) -> off + zlen d <= zlen (data xs) ->
  exists h' ys, pbuf_take_at fuel p d (zlen d) off h = Val (ERR_OK, h') /\ packet h' p ys /\ Forall2 filled xs ys /\
    data ys = splice (Z.to_nat off) d (data xs).
Proof.
  intros Hp Hf Ho Hd. pose proof (pk_fits _ _ _ Hp) as Hfit.
  destruct (skip_ok xs fuel h p off Hp Hf Ho) as (pre & a & n & post & idx & -> & Esk & Eo & Hidx).
  destruct (packet_suffix _ _ _ _ Hp) as (r & _ & Hx).
  pose proof (packet_cons _ _ _ _ _ Hx) as (-> & Ha & En & Hok & _ & _ & Htot & _). pose proof (zlen_content n Hok) as El.
  rewrite data_app, data_cons, !zlen_app in Hd, Hfit. cbn [snd] in Hd, Hfit. rewrite El in Hd, Hfit. pose proof (zlen_nonneg (data pre)) as Hpre0. pose proof (zlen_nonneg (data post)) as Hpost0. pose proof (zlen_nonneg d) as Hd0.
  destruct Hok as (_ & Hl & _).
  unfold pbuf_take_at, pbuf_skip, sbind. rewrite Esk, neqb by done. rewrite (load_ok _ _ _ En), Htot, Z.geb_leb, (proj2 (Z.leb_le _ _)) by lia.
  rewrite (proj2 (Z.ltb_lt _ _)) by lia. cbn [LWIP_ASSERT sret]. remember (Z.min (len n - idx) (zlen d)) as k eqn:Ek.
  rewrite (u16_id k) by (unfold is_u16; lia). 
  destruct (split_at d 0 k) as (e & d1 & d2 & -> & E0 & Ed1); [lia..|].
  destruct e; [cbn [app] in *|rewrite zlen_cons in E0; pose proof (zlen_nonneg e); lia]. rewrite zlen_app in *.
  pose proof (get_n_app [] d1 d2 0 k eq_refl (eq_sym Ed1)) as Eg. cbn [app] in Eg. unfold slift. rewrite Eg. cbn [obind].
  destruct (write_at_ok h p pre a n post idx d1 Hp) as (h1 & m & -> & Hfill & Ec & Ea & Hpost & Hpre & Hfr); [lia..|].
  rewrite (u16_id (zlen d1 + zlen d2 - k)) by (unfold is_u16; pose proof (zlen_nonneg d2); lia).
  pose proof (zlen_nonneg d2) as Hd2. replace (zlen d1 + zlen d2 - k) with (zlen d2) by lia.
  destruct (take_rest_ok fuel h1 (next n) post d1 d2 k Hpost) as (h' & post' & -> & Hs & HF & Ed & Hfr'); [rewrite length_app in Hf; cbn in Hf; lia|lia|done|].
  exists h', (pre ++ (a, set_mem m n) :: post'). split; [done|].
  assert (Forall2 filled (pre ++ (a, n) :: post) (pre ++ (a, set_mem m n) :: post')) as HFall.
  { apply Forall2_app; [apply filled_all|by constructor]. }
  pose proof (pk_nodup _ _ _ Hp) as Hn. rewrite fmap_app in Hn. apply NoDup_app in Hn as (_ & Hn1 & [Hn2 _]%NoDup_cons).
  split_and!; [|done|].
  - eapply filled_packet; [exact Hp|done|]. apply pseg_app. exists a. split.
    + eapply pseg_frame; [|exact Hpre]. intros b Hb. apply Hfr'. intros Hin. apply (Hn1 b Hb). by right.
    + cbn [pseg]. split_and!; try done. by rewrite Hfr'.
  - rewrite !data_app, !data_cons, Ed. cbn [snd]. rewrite Ec, Eo. unfold zlen in *.
    replace (Z.to_nat (Z.of_nat (length (data pre)) + idx)) with (length (data pre) + Z.to_nat idx)%nat by lia.
    rewrite splice_app_back. f_equal. destruct (decide (d2 = [])) as [->|Hne].
    + rewrite app_nil_r, splice_nil, splice_app_front by lia. done.
    + assert (0 < Z.of_nat (length d2)) by (destruct d2; [done|cbn; lia]). rewrite splice_app_across by lia. done.
Qed.

(** ** Properties *)


(** [pbuf_copy_partial] reads back what [pbuf_take_at] wrote at the same offset,
    whichever way the range is spread over the buffers of the packet. *)
Theorem pbuf_take_copy_roundtrip fuel h p xs d off buf post :
  packet h p xs -> (length xs < fuel)%nat -> 0 <= off < zlen (data xs) -> off + zlen d <= zlen (data xs) ->
  zlen buf = zlen d ->
  exists h', pbuf_take_at fuel p d (zlen d) off h = Val (ERR_OK, h') /\
    pbuf_copy_partial fuel p (buf ++ post) (zlen d) off h' = Val ((zlen d, d ++ post), h').
Proof.
  intros Hp Hf Ho Hd Hb. destruct (take_at_ok fuel h p xs d off) as (h' & ys & E & Hy & HF & Ed); [done..|].
  exists h'. split; [done|]. pose proof (pk_fits _ _ _ Hp) as Hfit. destruct (filled_len _ _ HF (pk_ok _ _ _ Hp)) as [El _].
  assert (zlen buf = available (zlen (data ys)) (zlen d) off) as Ea by (unfold available; lia).
  pose proof (zlen_nonneg d) as Hd0.
  rewrite (copy_partial_ok fuel h' p ys buf post (zlen d) off); [| |intros ->|..]; try done.
  - rewrite Hb, Ed. do 3 f_equal. unfold zlen. rewrite Nat2Z.id. unfold slice, splice.
    rewrite drop_app_ge by (rewrite length_take; lia).
    rewrite length_take. unfold zlen in *. replace (Z.to_nat off - _)%nat with 0%nat by lia. by rewrite drop_0, take_app_length.
  - change (zlen (data [])) with 0 in El. lia.
  - by rewrite <- (Forall2_length _ _ _ HF).
  - unfold is_u16. lia.
  - unfold is_u16. lia.
Qed.

(** ** Deciding the representation *)

#[export] Instance pbuf_eq_dec : EqDecision pbuf.
Proof. solve_decision. Defined.

#[export] Instance pseg_dec h p xs q : Decision (pseg h p xs q).
Proof. revert p. induction xs as [|[a n] xs IH]; intros p; cbn [pseg]; apply _. Defined.

#[export] Instance totals_dec xs : Decision (totals xs).
Proof. induction xs as [|x xs IH]; cbn [totals]; apply _. Defined.

#[export] Instance buf_ok_dec n : Decision (buf_ok n).
Proof. unfold buf_ok. apply _. Defined.

#[export] Instance owned_dec n : Decision (owned n).
Proof. unfold owned. apply _. Defined.

Lemma packet_iff h p xs :
  pseg h p xs NULL /\ NoDup xs.*1 /\ Forall (fun x => buf_ok (snd x)) xs /\ totals xs /\ zlen (data xs) <= 0xFFFF <->
  packet h p xs.
Proof. split; [intros; destruct_and!; by constructor|by intros []]. Qed.

#[export] Instance packet_dec h p xs : Decision (packet h p xs) :=
  match decide (pseg h p xs NULL /\ NoDup xs.*1 /\ Forall (fun x => buf_ok (snd x)) xs /\ totals xs /\ zlen (data xs) <= 0xFFFF) with
  | left H => left (proj1 (packet_iff _ _ _) H)
  | right H => right (fun K => H (proj2 (packet_iff _ _ _) K))
  end.

(** ** Witnesses *)

Definition example_buf (nx tot l : Z) (m : bytes) : pbuf := mkPbuf nx 0 tot l (u8 PBUF_RAM) 0 1 0 m.

Definition example_first : chain := [(64, example_buf 128 3 2 [1; 2; 0]); (128, example_buf 0 1 1 [3; 0])].
Definition example_second : chain := [(192, example_buf 0 2 2 [4; 5])].

Definition example_heap : pheap := mkPHeap (list_to_map (example_first ++ example_second)) false.

Lemma example_first_packet : packet example_heap 64 example_first.
Proof. split; [vm_compute; done|by apply (bool_decide_unpack _)|repeat constructor; vm_compute; discriminate| |vm_compute; discriminate].
  split; [done|]. by split. Qed.

Lemma example_second_packet : packet example_heap 192 example_second.
Proof. split; [vm_compute; done|by apply (bool_decide_unpack _)|repeat constructor; vm_compute; discriminate|by split|vm_compute; discriminate]. Qed.

Lemma example_owned : all_owned example_first /\ all_owned example_second.
Proof. split; repeat constructor. Qed.


Lemma pbuf_take_copy_roundtrip_witness :
  exists h', pbuf_take_at 3 64 [8; 9] 2 1 example_heap = Val (ERR_OK, h') /\
    pbuf_copy_partial 3 64 ([0; 0] ++ []) 2 1 h' = Val ((2, [8; 9] ++ []), h').
Proof.
  apply (pbuf_take_copy_roundtrip 3 example_heap 64 example_first [8; 9] 1 [0; 0] []).
  - apply example_first_packet.
  - cbn. lia.
  - split; [done|reflexivity].
  - vm_compute. discriminate.
  - reflexivity.
Defined.

(** [pbuf_copy_partial_pbuf] takes the offset into the target for one into its first
    buffer: behind it the [size_t] difference wraps and the copy leaves the memory. *)
Example copy_offset_overrun :
  pbuf_copy_partial_pbuf 9 64 192 1 3 (mkPHeap (list_to_map
    [(64, example_buf 128 4 2 [1; 2]); (128, example_buf 0 2 2 [3; 4]); (192, example_buf 0 1 1 [5])]) false) = Fault.
Proof. reflexivity. Qed.

End PbufRep.
