(* ===== verification/Interact.v ===== *)
(** * Programs against an environment with a memory

    The sessions and the tunnel run against the task scheduler, the network stack and
    the system.  [prog] is the type of such programs: a tree of requests whose
    branches are the answers.  What may be answered depends on the history so far,
    [allowed]; a component instantiates requests, answers and that relation.  [wp] is
    the Hoare logic over histories, [sound] relates it to the runs of [steps] and
    [replay] checks a run by evaluation. *)

From Stdlib Require Import ZArith Lia.
From stdpp Require Import base list gmap numbers.
From S2P Require Import Prelude.
Import list_basics.list list_relations.list list_monad.list list_misc.list.

Module Interact.

Inductive prog (Req Ans A : Type) : Type :=
| Done (a : A)
| Broken
| Ask (q : Req) (k : Ans -> prog Req Ans A).

Arguments Done {Req Ans A} _.
Arguments Broken {Req Ans A}.
Arguments Ask {Req Ans A} _ _.

Fixpoint pbind {Req Ans A B} (p : prog Req Ans A) (f : A -> prog Req Ans B) : prog Req Ans B :=
  match p with
  | Done a => f a
  | Broken => Broken
  | Ask q k => Ask q (fun a => pbind (k a) f)
  end.

(** A computation on memory. *)
Definition of_outcome {Req Ans A} (o : outcome A) : prog Req Ans A :=
  match o with
  | Val a => Done a
  | Fault => Broken
  end.

Notation "'ido' x := m 'in' k" := (pbind m (fun x => k))
  (at level 10, x pattern, m at level 200, k at level 200,
   format "'[v' 'ido'  x  :=  m  'in'  '/' k ']'") : hev_scope.

Section semantics.
Context {Req Ans : Type}.
Abbreviation trace := (list (Req * Ans)).
(** The answers that the environment may give after a history. *)
Context (allowed : trace -> Req -> Ans -> Prop).

Inductive steps {A} : trace -> prog Req Ans A -> trace -> prog Req Ans A -> Prop :=
| steps_nil h p : steps h p [] p
| steps_cons h q k a t p :
    allowed h q a -> steps (h ++ [(q, a)]) (k a) t p -> steps h (Ask q k) ((q, a) :: t) p.

(** After the history [h], every request of [p] satisfies [G], [p] does not break
    and it ends in [Q]. *)
Fixpoint wp {A} (G : trace -> Req -> Prop) (p : prog Req Ans A) (Q : A -> trace -> Prop) (h : trace) : Prop :=
  match p with
  | Done a => Q a h
  | Broken => False
  | Ask q k => G h q /\ forall a, allowed h q a -> wp G (k a) Q (h ++ [(q, a)])
  end.

Lemma wp_pbind {A B} G (p : prog Req Ans A) (f : A -> prog Req Ans B) Q h :
  wp G p (fun a h' => wp G (f a) Q h') h -> wp G (pbind p f) Q h.
Proof.
  revert h. induction p as [a| |q k IH]; intros h; cbn; try done. intros [Hg Hk].
  split; [done|]. intros a Ha. by apply IH, Hk.
Qed.

Lemma wp_impl {A} G (p : prog Req Ans A) (Q Q' : A -> trace -> Prop) h :
  wp G p Q h -> (forall a h', Q a h' -> Q' a h') -> wp G p Q' h.
Proof.
  intros W HQ. revert h W. induction p as [a| |q k IH]; intros h; cbn; try done; [apply HQ|].
  intros [Hg Hk]. split; [done|]. intros a Ha. by apply IH, Hk.
Qed.

Lemma wp_val {A} G (o : outcome A) Q h a : o = Val a -> Q a h -> wp G (of_outcome o) Q h.
Proof. by intros ->. Qed.

(** Every run of a program with a [wp] meets the guard, does not break and ends in
    the postcondition. *)
Theorem sound {A} G (p p' : prog Req Ans A) Q h t :
  steps h p t p' -> wp G p Q h ->
  (forall t1 q a t2, t = t1 ++ (q, a) :: t2 -> G (h ++ t1) q) /\
  match p' with
  | Done a => Q a (h ++ t)
  | Broken => False
  | Ask q _ => G (h ++ t) q
  end.
Proof.
  intros S. induction S as [h p|h q k a t p Ha S IH]; intros W.
  { split; [by intros [|??] ??? [=]|]. rewrite app_nil_r. destruct p; [done..|apply W]. }
  destruct W as [Hg Hk]. destruct (IH (Hk a Ha)) as [I1 I2]. split.
  - intros [|e t1] q' a' t2; cbn [app]; [intros [= <- _ _]; by rewrite app_nil_r|].
    intros [= <- Et]. specialize (I1 t1 q' a' t2 Et). by rewrite <- app_assoc in I1.
  - rewrite <- app_assoc in I2. by destruct p.
Qed.

Lemma steps_snoc {A} h (p : prog Req Ans A) t q k a :
  steps h p t (Ask q k) -> allowed (h ++ t) q a -> steps h p (t ++ [(q, a)]) (k a).
Proof.
  remember (Ask q k) as p' eqn:Ep. intros S. revert Ep.
  induction S as [h p|h q' k' a' t p Ha S IH]; intros -> Hok.
  - rewrite app_nil_r in Hok. cbn. constructor; [done|constructor].
  - cbn. constructor; [done|]. apply IH; [done|]. by rewrite <- app_assoc.
Qed.

(** ** Replaying answers *)

Context {allowed_dec : forall h q a, Decision (allowed h q a)}.

Fixpoint replay {A} (h : trace) (p : prog Req Ans A) (l : list Ans) {struct l} : option (trace * prog Req Ans A) :=
  match l with
  | [] => Some (h, p)
  | a :: l =>
      match p with
      | Ask q k => if bool_decide (allowed h q a) then replay (h ++ [(q, a)]) (k a) l else None
      | _ => None
      end
  end.

Lemma replay_steps {A} l : forall h (p p' : prog Req Ans A) h',
  replay h p l = Some (h', p') -> exists t, h' = h ++ t /\ steps h p t p'.
Proof.
  induction l as [|a l IH]; intros h p p' h'; cbn [replay].
  { intros [= <- <-]. exists []. split; [by rewrite app_nil_r|constructor]. }
  destruct p as [| |q k]; try done. case_bool; [|done]. intros (t & -> & S)%IH.
  exists ((q, a) :: t). split; [by rewrite <- app_assoc|by constructor].
Qed.

End semantics.

End Interact.
