(* ===== verification/RingPos.v ===== *)
(** * Positions of the ring buffer

    lwIP refers to the bytes of a session's ring buffer by address until they are
    acknowledged.  [inflight_pos] is where those bytes are; the operations of the
    buffer move that range forward and the space offered to [readv] never meets it. *)

From Stdlib Require Import ZArith Lia.
From stdpp Require Import base list gmap numbers.
From S2P Require Import Prelude RingBuffer.
Import list_basics.list list_relations.list list_monad.list list_misc.list.
Import RingBuffer.

Module RingPos.

(** The offsets that a list of iovecs covers, in order. *)
Definition iov_pos (v : list iovec) : list Z := v ≫= (fun i => seqZ (iov_base i) (iov_len i)).

(** [n] positions of a ring of size [m] from [start] on. *)
Definition ring_pos (m start n : Z) : list Z := (fun i => (start + i) mod m) <$> seqZ 0 n.

(** Where the bytes in flight are. *)
Definition inflight_pos (r : HevRingBuffer) : list Z :=
  ring_pos (max_size r) (tail_pos r) (use_size r - rda_size r).

Lemma length_ring_pos m s n : length (ring_pos m s n) = Z.to_nat n.
Proof. unfold ring_pos. by rewrite length_fmap, length_seqZ. Qed.

Lemma lookup_ring_pos m s n i : (i < Z.to_nat n)%nat -> ring_pos m s n !! i = Some ((s + Z.of_nat i) mod m).
Proof.
  intros H. unfold ring_pos. rewrite list_lookup_fmap, lookup_seqZ_lt by lia. cbn. do 3 f_equal.
Qed.

Lemma ring_pos_app m s n k : 0 < m -> 0 <= n -> 0 <= k ->
  ring_pos m s (n + k) = ring_pos m s n ++ ring_pos m ((s + n) mod m) k.
Proof.
  intros Hm Hn Hk. apply list_eq. intros i.
  destruct (decide (i < Z.to_nat (n + k))%nat) as [Hi|Hi].
  - rewrite lookup_ring_pos by done. destruct (decide (i < Z.to_nat n)%nat).
    + rewrite lookup_app_l by (rewrite length_ring_pos; lia). by rewrite lookup_ring_pos.
    + rewrite lookup_app_r by (rewrite length_ring_pos; lia). rewrite length_ring_pos, lookup_ring_pos by lia.
      f_equal. rewrite Z.add_mod_idemp_l by lia. f_equal. lia.
  - rewrite !lookup_ge_None_2; [done|rewrite length_app, !length_ring_pos; lia|rewrite length_ring_pos; lia].
Qed.

(** Without wrapping around the positions are a range. *)
Lemma ring_pos_seqZ m s n : 0 <= s -> s + n <= m -> ring_pos m s n = seqZ s n.
Proof.
  intros Hs Hn. apply list_eq. intros i. destruct (decide (i < Z.to_nat n)%nat).
  - rewrite lookup_ring_pos, lookup_seqZ_lt by lia. f_equal. apply Z.mod_small. lia.
  - rewrite !lookup_ge_None_2; [done|rewrite length_seqZ; lia|rewrite length_ring_pos; lia].
Qed.

Lemma ring_pos_wrap m s n : 0 <= s < m -> m - s <= n <= m -> 
  ring_pos m s n = seqZ s (m - s) ++ seqZ 0 (n - (m - s)).
Proof.
  intros Hs Hn. replace n with ((m - s) + (n - (m - s))) at 1 by lia.
  rewrite ring_pos_app by lia. replace (s + (m - s)) with m by lia. rewrite Z.mod_same by lia.
  by rewrite !ring_pos_seqZ by lia.
Qed.

(** What [hev_ring_buffer_reading] shows starts where the bytes in flight end. *)
Lemma reading_pos r : wf r ->
  iov_pos (hev_ring_buffer_reading r) = ring_pos (max_size r) (rp r) (rda_size r).
Proof.
  intros []. unfold hev_ring_buffer_reading, iov_pos. case_bool; [by rewrite <- e|].
  rewrite !u64_id by lia. case_bool; rewrite ?u64_id by lia; cbn; rewrite app_nil_r.
  - by rewrite ring_pos_seqZ by lia.
  - by rewrite ring_pos_wrap by lia.
Qed.

Lemma writing_pos r : wf r ->
  iov_pos (hev_ring_buffer_writing r) = ring_pos (max_size r) (wp r) (max_size r - use_size r).
Proof.
  intros W. pose proof (wp_range r W). destruct W as [? ? ? ? ? _].
  unfold hev_ring_buffer_writing, iov_pos. case_bool; [by rewrite e, Z.sub_diag|].
  rewrite !u64_id by lia. case_bool; rewrite ?u64_id by lia; cbn; rewrite app_nil_r.
  - by rewrite ring_pos_seqZ by lia.
  - by rewrite ring_pos_wrap by lia.
Qed.

Lemma read_pos r : wf r ->
  inflight_pos (hev_ring_buffer_read_finish r (rda_size r)) =
    inflight_pos r ++ iov_pos (hev_ring_buffer_reading r).
Proof.
  intros W. rewrite reading_pos by done. unfold inflight_pos. pose proof (rp_tail r W) as Er. destruct W.
  cbn [hev_ring_buffer_read_finish max_size use_size rda_size]. rewrite Z.sub_diag.
  change (u64 0) with 0. rewrite Z.sub_0_r. change (tail_pos _) with (tail_pos r) at 1.
  replace (use_size r) with ((use_size r - rda_size r) + rda_size r) at 1 by lia.
  rewrite ring_pos_app by lia. by rewrite Er.
Qed.

Lemma write_pos r bs : wf r -> op_ok r (OpWrite bs) -> inflight_pos (ring_write r bs) = inflight_pos r.
Proof.
  intros W Ho. destruct (ring_write_sizes r bs W Ho) as (_ & Er & Eu). unfold inflight_pos.
  rewrite ring_write_tail, Er, Eu by done. cbn [ring_write hev_ring_buffer_write_finish with_data max_size]. f_equal. lia.
Qed.

Lemma release_pos r n : wf r -> op_ok r (OpRelease n) ->
  inflight_pos (hev_ring_buffer_read_release r n) = drop (Z.to_nat n) (inflight_pos r).
Proof.
  intros W Ho. cbn in Ho. unfold inflight_pos, hev_ring_buffer_read_release.
  rewrite u64_id by (destruct W; lia). pose proof (tail_pos_range r W) as Ht. destruct W.
  assert (drop (Z.to_nat n) (ring_pos (max_size r) (tail_pos r) (use_size r - rda_size r)) =
    ring_pos (max_size r) ((tail_pos r + n) mod max_size r) (use_size r - n - rda_size r)) as ->.
  { replace (use_size r - rda_size r) with (n + (use_size r - n - rda_size r)) at 1 by lia.
    rewrite ring_pos_app, drop_app_ge by (rewrite ?length_ring_pos; lia). rewrite length_ring_pos.
    by replace (Z.to_nat n - Z.to_nat n)%nat with 0%nat by lia. }
  case_bool; cbn [max_size use_size rda_size].
  - replace (use_size r - n - rda_size r) with 0 by lia. by rewrite e.
  - f_equal. unfold tail_pos. cbn [wp max_size use_size]. rewrite Z.add_mod_idemp_l by lia. f_equal. lia.
Qed.

(** The space offered to [readv] is apart from the bytes in flight. *)
Lemma writing_apart r p : wf r ->
  p ∈ iov_pos (hev_ring_buffer_writing r) -> p ∉ inflight_pos r.
Proof.
  intros W. rewrite writing_pos by done. unfold inflight_pos.
  intros (i & Ei & Hi)%list_elem_of_fmap (j & Ej & Hj)%list_elem_of_fmap.
  apply elem_of_seqZ in Hi, Hj. pose proof (wp_range r W). destruct W as [? ? ? ? ? _].
  rewrite Ei in Ej. unfold tail_pos in Ej. rewrite Z.add_mod_idemp_l in Ej by lia.
  replace (wp r + max_size r - use_size r + j) with (wp r + (max_size r - use_size r + j)) in Ej by lia.
  set (k := max_size r - use_size r + j) in *. assert (0 <= i < k /\ k < max_size r) by lia.
  assert ((k - i) mod max_size r = 0) as E.
  { replace (k - i) with ((wp r + k) - (wp r + i)) by lia. rewrite Zminus_mod, Ej, Z.sub_diag. apply Z.mod_0_l. lia. }
  rewrite Z.mod_small in E by lia. lia.
Qed.

End RingPos.
