(* ===== verification/SessionTCP.v ===== *)
(** * TCP sessions (src/hev-socks5-session-tcp.c)

    A session moves bytes between a SOCKS5 socket and a connection of the network
    stack: packets that the stack delivers wait on a chain of buffers until [writev]
    takes them, bytes from the socket wait in a ring buffer that the stack refers to
    until they are acknowledged.  The stack calls the handlers of the session while the
    session's task waits; those calls are part of the answer to a request that can
    switch tasks, which carries the session as the stack finds it. *)

From Stdlib Require Import ZArith Lia.
From stdpp Require Import base list gmap numbers.
From S2P Require Import Prelude CBytes RingBuffer RingPos Pbuf PbufRep Interact.
Import list_basics.list list_relations.list list_monad.list list_misc.list.
Import RingBuffer RingPos Pbuf PbufRep Interact.

Module SessionTCP.

(** ** Constants (lwipopts.h) *)

Definition TCP_MSS : Z := 8191.
Definition TCP_WND : Z := 8 * TCP_MSS.
Definition TCP_SND_BUF : Z := 8 * TCP_MSS.
Definition ERR_WOULDBLOCK : Z := -7.

(** ** Data

    [pcb] tells whether the pointer is set; [buffer] is [None] before the splice
    allocates it; [woken] that the task was made runnable.  [heap] is the memory of
    the packet buffers, shared with the stack. *)
Record HevSocks5SessionTCP := mkSess {
  fd : Z; timeout : Z;
  queue : Z; pcb : bool; buffer : option HevRingBuffer; pcb_eof : bool;
  woken : bool; heap : pheap }.

Definition set_queue (q : Z) (h : pheap) (s : HevSocks5SessionTCP) : HevSocks5SessionTCP :=
  mkSess (fd s) (timeout s) q (pcb s) (buffer s) (pcb_eof s) (woken s) h.
Definition set_buffer (b : option HevRingBuffer) (s : HevSocks5SessionTCP) : HevSocks5SessionTCP :=
  mkSess (fd s) (timeout s) (queue s) (pcb s) b (pcb_eof s) (woken s) (heap s).
Definition set_eof (s : HevSocks5SessionTCP) : HevSocks5SessionTCP :=
  mkSess (fd s) (timeout s) (queue s) (pcb s) (buffer s) true (woken s) (heap s).
Definition clear_pcb (s : HevSocks5SessionTCP) : HevSocks5SessionTCP :=
  mkSess (fd s) (timeout s) (queue s) false (buffer s) (pcb_eof s) (woken s) (heap s).
Definition set_timeout (t : Z) (s : HevSocks5SessionTCP) : HevSocks5SessionTCP :=
  mkSess (fd s) t (queue s) (pcb s) (buffer s) (pcb_eof s) (woken s) (heap s).
Definition set_woken (b : bool) (s : HevSocks5SessionTCP) : HevSocks5SessionTCP :=
  mkSess (fd s) (timeout s) (queue s) (pcb s) (buffer s) (pcb_eof s) b (heap s).

(** ** Handlers *)

Definition hev_task_wakeup (s : HevSocks5SessionTCP) : HevSocks5SessionTCP := set_woken true s.

(** [p] is [NULL] at the end of the stream. *)
Definition tcp_recv_handler (s : HevSocks5SessionTCP) (p : Z) : outcome (Z * HevSocks5SessionTCP) :=
  if negb (p =? NULL) then
    if queue s =? NULL then
      Val (ERR_OK, hev_task_wakeup (set_queue p (heap s) s))
    else
      let! (n, _) := load (queue s) (heap s) in
      if tot_len n >? TCP_WND then Val (ERR_WOULDBLOCK, s)
      else
        let! (_, h) := pbuf_cat (fuel_of (heap s)) (queue s) p (heap s) in
        Val (ERR_OK, hev_task_wakeup (set_queue (queue s) h s))
  else Val (ERR_OK, hev_task_wakeup (set_eof s)).

Definition tcp_sent_handler (s : HevSocks5SessionTCP) (len : Z) : outcome (Z * HevSocks5SessionTCP) :=
  let! b := of_option (buffer s) in
  Val (ERR_OK, hev_task_wakeup (set_buffer (Some (hev_ring_buffer_read_release b len)) s)).

(** [hev_socks5_session_terminate] (src/hev-socks5-session.c). *)
Definition hev_socks5_session_terminate (s : HevSocks5SessionTCP) : HevSocks5SessionTCP :=
  hev_task_wakeup (set_timeout 0 s).

Definition tcp_err_handler (s : HevSocks5SessionTCP) : HevSocks5SessionTCP :=
  hev_socks5_session_terminate (clear_pcb s).

(** ** Calls of the stack

    A delivery brings its buffers with it; no buffers is the end of the stream. *)
Inductive callback :=
| CbRecv (xs : chain)
| CbSent (len : Z)
| CbErr.

(** What the stack learns: bytes that the session took over and bytes that were
    acknowledged. *)
Record effect := mkEffect { e_data : bytes; e_acked : Z }.

Definition with_heap (h : pheap) (s : HevSocks5SessionTCP) : HevSocks5SessionTCP := set_queue (queue s) h s.

Definition run_callback (s : HevSocks5SessionTCP) (c : callback) : outcome (effect * HevSocks5SessionTCP) :=
  match c with
  | CbRecv xs =>
      let! (err, s) := tcp_recv_handler (with_heap (add_bufs xs (heap s)) s) (first_of xs) in
      Val (mkEffect (if err =? ERR_OK then PbufRep.data xs else []) 0, s)
  | CbSent len => let! (_, s) := tcp_sent_handler s len in Val (mkEffect [] len, s)
  | CbErr => Val (mkEffect [] 0, tcp_err_handler s)
  end.

Fixpoint run_callbacks (s : HevSocks5SessionTCP) (l : list callback) : outcome (effect * HevSocks5SessionTCP) :=
  match l with
  | [] => Val (mkEffect [] 0, s)
  | c :: l =>
      let! (e, s) := run_callback s c in
      let! (f, s) := run_callbacks s l in
      Val (mkEffect (e_data e ++ e_data f) (e_acked e + e_acked f), s)
  end.

(** ** Requests *)

Inductive req :=
| RWritev (fd : Z) (iov : list bytes)
| RReadv (fd : Z) (iov : list iovec)
| RLock (s : HevSocks5SessionTCP)
| RUnlock
| RYield (s : HevSocks5SessionTCP)
| RWait (s : HevSocks5SessionTCP)
| RSleep (milliseconds : Z) (s : HevSocks5SessionTCP)
| RUpdateSession
| RTcpWrite (off len : Z) (d : bytes)
| RTcpOutput
| RTcpRecved (len : Z)
| RTcpShutdown
| RShutdown (fd : Z).

(** The result, the bytes a read stored, whether [errno] is [EAGAIN], and the calls
    of the stack that happened before the task went on. *)
Record ans := mkAns { ares : Z; adata : bytes; again : bool; calls : list callback }.

Abbreviation sprog := (prog req ans).

Definition ask (q : req) : sprog ans := Ask q Done.

(** Let the stack run; a task that waits is not runnable until it is woken. *)
Definition switch (q : HevSocks5SessionTCP -> req) (s : HevSocks5SessionTCP) : sprog (Z * HevSocks5SessionTCP) :=
  let s := set_woken false s in
  ido a := ask (q s) in
  ido (_, s) := of_outcome (run_callbacks s (calls a)) in
  Done (ares a, s).

(** [hev_socks5_task_io_yielder] (src/core/src/hev-socks5-misc.c) followed by the
    update of the tunnel's list of sessions; [wait] is [HEV_TASK_WAITIO]. *)
Definition task_io_yielder (wait : bool) (s : HevSocks5SessionTCP) : sprog (Z * HevSocks5SessionTCP) :=
  ido (res, s) :=
    (if negb wait then ido (_, s) := switch RYield s in Done (0, s)
     else if timeout s <? 0 then ido (_, s) := switch RWait s in Done (0, s)
     else
       ido (remains, s) := switch (RSleep (timeout s)) s in
       Done (if remains <=? 0 then -1 else 0, s)) in
  ido _ := ask RUpdateSession in
  Done (res, s).

(** ** Forward: stack to socket *)

(** The payloads of the first [n] buffers of a chain. *)
Fixpoint queue_iov (n : nat) (p : Z) (h : pheap) : outcome (list bytes) :=
  if p =? NULL then Val []
  else
    match n with
    | O => Val []
    | S n =>
        let! (b, _) := load p h in
        let! d := read_payload b 0 (len b) in
        let! l := queue_iov n (next b) h in
        Val (d :: l)
    end.

Section session.
(** The function of a custom packet buffer. *)
Context (custom_free : Z -> PM unit).

(** [self->queue = pbuf_free_header (self->queue, s); tcp_recved (self->pcb, s);] *)
Definition consume (s : HevSocks5SessionTCP) (n : Z) : sprog HevSocks5SessionTCP :=
  ido (q, h) := of_outcome (pbuf_free_header custom_free (fuel_of (heap s)) (queue s) (u16 n) (heap s)) in
  let s := set_queue q h s in
  if pcb s then ido _ := ask (RTcpRecved (u16 n)) in Done s else Done s.

Definition tcp_splice_f (s : HevSocks5SessionTCP) : sprog (Z * HevSocks5SessionTCP) :=
  ido iov := of_outcome (queue_iov 64 (queue s) (heap s)) in
  let res := if negb (queue s =? NULL) then 1 else if pcb_eof s then -1 else 0 in
  if negb (zlen iov =? 0) then
    ido a := ask (RWritev (fd s) iov) in
    let n := ares a in
    if 0 >=? n then Done (if (0 >? n) && again a then 0 else -1, s)
    else
      ido (_, s) := switch RLock s in
      ido s := consume s n in
      ido _ := ask RUnlock in
      Done (1, s)
  else if res <? 0 then
    ido _ := ask (RShutdown (fd s)) in
    Done (res, s)
  else Done (res, s).

(** ** Backward: socket to stack *)

(** [for (i = 0; i < iovc; i++)]: hand every part over without copying; the length
    is a [u16_t] there. *)
Fixpoint write_iov (b : HevRingBuffer) (iov : list iovec) (s_ err : Z) : sprog (Z * Z) :=
  match iov with
  | [] => Done (s_, err)
  | v :: iov =>
      let n := u16 (iov_len v) in
      ido a := ask (RTcpWrite (iov_base v) n (slice (Z.to_nat (iov_base v)) (Z.to_nat n) (RingBuffer.data b))) in
      write_iov b iov (s_ + iov_len v) (Z.lor err (ares a))
  end.

(** Read from the socket into the free space. *)
Definition splice_b_read (s : HevSocks5SessionTCP) : sprog (Z * HevSocks5SessionTCP) :=
  ido b := of_outcome (of_option (buffer s)) in
  let iov := hev_ring_buffer_writing b in
  if negb (zlen iov =? 0) then
    ido a := ask (RReadv (fd s) iov) in
    let n := ares a in
    let b := with_data b (scatter (RingBuffer.data b) iov (adata a)) in
    if 0 >=? n then
      Done (if (0 >? n) && again a then 0 else -1, set_buffer (Some b) s)
    else Done (1, set_buffer (Some (hev_ring_buffer_write_finish b n)) s)
  else Done (0, s).

(** Between lock and unlock: hand over what is ready, or close the direction. *)
Definition splice_b_write (s : HevSocks5SessionTCP) (res : Z) : sprog (Z * Z * HevSocks5SessionTCP) :=
  if pcb s then
    ido b := of_outcome (of_option (buffer s)) in
    let iov := hev_ring_buffer_reading b in
    if negb (zlen iov =? 0) then
      ido (n, err) := write_iov b iov 0 ERR_OK in
      let s := set_buffer (Some (hev_ring_buffer_read_finish b n)) s in
      ido a := ask RTcpOutput in
      Done (1, Z.lor err (ares a), s)
    else if res <? 0 then
      ido _ := ask RTcpShutdown in
      Done (res, ERR_OK, s)
    else Done (res, ERR_OK, s)
  else Done (res, ERR_OK, s).

Definition tcp_splice_b (s : HevSocks5SessionTCP) : sprog (Z * HevSocks5SessionTCP) :=
  ido (res, s) := splice_b_read s in
  ido (_, s) := switch RLock s in
  ido (res, err, s) := splice_b_write s res in
  ido _ := ask RUnlock in
  Done (if negb (pcb s) || negb (err =? ERR_OK) then -1 else res, s).

(** ** The splice *)

(** [for (;;)]; [None] is a run that is not over after [fuel] rounds. *)
Fixpoint splice_loop (fuel : nat) (s : HevSocks5SessionTCP) (res_f res_b : Z) : sprog (option HevSocks5SessionTCP) :=
  match fuel with
  | O => Done None
  | S fuel =>
      ido (res_f, s) := (if res_f >=? 0 then tcp_splice_f s else Done (res_f, s)) in
      ido (res_b, s) := (if res_b >=? 0 then tcp_splice_b s else Done (res_b, s)) in
      let again_ (wait : bool) :=
        ido (r, s) := task_io_yielder wait s in
        if r <? 0 then Done (Some s) else splice_loop fuel s res_f res_b in
      if (res_f >? 0) || (res_b >? 0) then again_ false
      else if Z.land res_f res_b =? 0 then again_ true
      else Done (Some s)
  end.

(** [while (self->pcb)]: wait until everything is acknowledged. *)
Fixpoint drain_loop (fuel : nat) (s : HevSocks5SessionTCP) : sprog (option HevSocks5SessionTCP) :=
  if pcb s then
    ido b := of_outcome (of_option (buffer s)) in
    if hev_ring_buffer_get_use_size b =? 0 then Done (Some s)
    else
      match fuel with
      | O => Done None
      | S fuel =>
          ido (r, s) := task_io_yielder true s in
          if r <? 0 then Done (Some s) else drain_loop fuel s
      end
  else Done (Some s).

(** [size] is the configured buffer size, [stack] what the memory of the buffer held. *)
Definition hev_socks5_session_tcp_splice (fuel : nat) (size : Z) (stack : bytes) (s : HevSocks5SessionTCP)
    : sprog (option HevSocks5SessionTCP) :=
  if negb (pcb s) then Done (Some s)
  else
    let s := set_buffer (Some (hev_ring_buffer_alloca size stack)) s in
    ido r := splice_loop fuel s 1 1 in
    match r with
    | None => Done None
    | Some s => drain_loop fuel s
    end.

End session.

End SessionTCP.
