(* ===== verification/SessionTCPInv.v ===== *)
(** * What a TCP session does to the streams it connects

    The rules that the network stack follows when it calls a session, the streams as
    functions of a history, and the invariant that relates them to the session. *)

From Stdlib Require Import ZArith Lia.
From stdpp Require Import base list gmap numbers.
From S2P Require Import Prelude CBytes RingBuffer RingPos Pbuf PbufRep Interact SessionTCP.
Import list_basics.list list_relations.list list_monad.list list_misc.list.
Import RingPos Pbuf PbufRep Interact SessionTCP.

Module SessionTCPInv.

Abbreviation wf := RingBuffer.wf.
Abbreviation trace := (list (req * ans)).

(** ** Streams of a history *)

Definition no_effect : effect := mkEffect [] 0.

(** What the stack learnt from the calls that an answer brings. *)
Definition effect_of (e : req * ans) : effect :=
  match fst e with
  | RLock s | RYield s | RWait s | RSleep _ s =>
      match run_callbacks s (calls (snd e)) with
      | Val (f, _) => f
      | Fault => no_effect
      end
  | _ => no_effect
  end.

(** Bytes that the session took over from the stack and bytes that the other side of
    the connection acknowledged. *)
Definition delivered (h : trace) : bytes := h ≫= (fun e => e_data (effect_of e)).
Definition acked (h : trace) : Z := foldr (fun e n => e_acked (effect_of e) + n) 0 h.

(** Bytes that the socket took. *)
Definition out (h : trace) : bytes :=
  h ≫= (fun e => match fst e with
                 | RWritev _ iov => take (Z.to_nat (ares (snd e))) (concat iov)
                 | _ => []
                 end).

(** Bytes read from the socket. *)
Definition readin (h : trace) : bytes :=
  h ≫= (fun e => match fst e with RReadv _ _ => adata (snd e) | _ => [] end).

(** Bytes handed to the stack and where they are in the ring buffer. *)
Definition handed (h : trace) : bytes :=
  h ≫= (fun e => match fst e with RTcpWrite _ _ d => d | _ => [] end).
Definition handed_pos (h : trace) : list Z :=
  h ≫= (fun e => match fst e with RTcpWrite off n _ => seqZ off n | _ => [] end).

(** How many of those the stack accepted. *)
Definition accepted (h : trace) : Z :=
  foldr (fun e n => match fst e with RTcpWrite _ _ d => if ares (snd e) =? ERR_OK then zlen d else 0 | _ => 0 end + n) 0 h.

(** Bytes by which the session reopened the window. *)
Definition recved (h : trace) : Z :=
  foldr (fun e n => match fst e with RTcpRecved k => k | _ => 0 end + n) 0 h.

(** ** The rules of the stack

    It calls the handlers only while the connection is there; a delivery consists of
    buffers of its own with one reference and stays within the receive window, counting
    what was not reported by [tcp_recved]; it acknowledges only what it accepted. *)
Definition cb_ok (unrecved unacked : Z) (s : HevSocks5SessionTCP) (c : callback) : Prop :=
  pcb s = true /\
  match c with
  | CbRecv [] => True
  | CbRecv xs =>
      packet (add_bufs xs (heap s)) (first_of xs) xs /\ all_owned xs /\
      Forall (fun x => bufs (heap s) !! fst x = None) xs /\
      unrecved + zlen (data xs) <= TCP_WND
  | CbSent n => 0 < n <= unacked
  | CbErr => True
  end.

Fixpoint cbs_ok (unrecved unacked : Z) (s : HevSocks5SessionTCP) (l : list callback) : Prop :=
  match l with
  | [] => True
  | c :: l =>
      cb_ok unrecved unacked s c /\
      match run_callback s c with
      | Val (e, s) => cbs_ok (unrecved + zlen (e_data e)) (unacked - e_acked e) s l
      | Fault => True
      end
  end.

Definition allowed (h : trace) (q : req) (a : ans) : Prop :=
  match q with
  | RLock s | RYield s | RWait s | RSleep _ s =>
      cbs_ok (zlen (delivered h) - recved h) (accepted h - acked h) s (calls a)
  | RWritev _ iov => ares a <= zlen (concat iov)
  | RReadv _ iov => zlen (adata a) = Z.max 0 (ares a) /\ ares a <= RingBuffer.iov_total iov
  | _ => True
  end.

(** ** What the session guarantees with every request *)

(** Towards the socket: [writev] offers the bytes that follow those the socket took, the
    window is reopened by what the socket took, and the direction is closed when the
    socket has everything. *)
Definition upload_guard (h : trace) (q : req) : Prop :=
  match q with
  | RWritev _ iov => exists rest, delivered h = out h ++ concat iov ++ rest
  | RTcpRecved n => recved h + n = zlen (out h)
  | RShutdown _ => out h = delivered h
  | _ => True
  end.

(** Towards the stack: [readv] stores where no byte is that the stack still refers to,
    [tcp_write] hands over the bytes that follow, with their full length and within the
    send buffer, and the direction is closed when the stack has everything. *)
Definition download_guard (h : trace) (q : req) : Prop :=
  match q with
  | RReadv _ iov => forall p, p ∈ iov_pos iov -> p ∉ drop (Z.to_nat (acked h)) (handed_pos h)
  | RTcpWrite off n d =>
      (exists rest, readin h = handed h ++ d ++ rest) /\ zlen d = n /\
      zlen (handed h) - acked h + n <= TCP_SND_BUF
  | RTcpShutdown => handed h = readin h
  | _ => True
  end.

Definition guard (h : trace) (q : req) : Prop := upload_guard h q /\ download_guard h q.

(** ** Histories that grow *)

Lemma delivered_app h1 h2 : delivered (h1 ++ h2) = delivered h1 ++ delivered h2.
Proof. apply bind_app. Qed.
Lemma out_app h1 h2 : out (h1 ++ h2) = out h1 ++ out h2.
Proof. apply bind_app. Qed.
Lemma readin_app h1 h2 : readin (h1 ++ h2) = readin h1 ++ readin h2.
Proof. apply bind_app. Qed.
Lemma handed_app h1 h2 : handed (h1 ++ h2) = handed h1 ++ handed h2.
Proof. apply bind_app. Qed.
Lemma handed_pos_app h1 h2 : handed_pos (h1 ++ h2) = handed_pos h1 ++ handed_pos h2.
Proof. apply bind_app. Qed.

Lemma foldr_sum_app {A} (f : A -> Z) l1 l2 :
  foldr (fun e n => f e + n) 0 (l1 ++ l2) = foldr (fun e n => f e + n) 0 l1 + foldr (fun e n => f e + n) 0 l2.
Proof. induction l1 as [|x l1 IH]; cbn; [lia|]. rewrite IH. lia. Qed.

Lemma acked_app h1 h2 : acked (h1 ++ h2) = acked h1 + acked h2.
Proof. apply (foldr_sum_app (fun e => e_acked (effect_of e))). Qed.
Lemma recved_app h1 h2 : recved (h1 ++ h2) = recved h1 + recved h2.
Proof. apply (foldr_sum_app (fun e : req * ans => match fst e with RTcpRecved k => k | _ => 0 end)). Qed.
Lemma accepted_app h1 h2 : accepted (h1 ++ h2) = accepted h1 + accepted h2.
Proof.
  apply (foldr_sum_app (fun e : req * ans =>
    match fst e with RTcpWrite _ _ d => if ares (snd e) =? ERR_OK then zlen d else 0 | _ => 0 end)).
Qed.

Lemma accepted_handed h : accepted h <= zlen (handed h).
Proof.
  induction h as [|[q a] h IH]; [done|]. change ((q, a) :: h) with ([(q, a)] ++ h).
  rewrite accepted_app, handed_app, zlen_app. enough (accepted [(q, a)] <= zlen (handed [(q, a)])) by lia.
  destruct q; cbn; rewrite ?app_nil_r, ?Z.add_0_r; try done. pose proof (zlen_nonneg d). by destruct (ares a =? ERR_OK).
Qed.

(** Split every stream of a history that ends in one known event. *)
Ltac grow :=
  rewrite ?delivered_app, ?out_app, ?readin_app, ?handed_app, ?handed_pos_app, ?acked_app, ?recved_app.

(** ** The invariant

    [D] is what was delivered, [A] how much acknowledged, [R] how much reported by
    [tcp_recved], [I] what was read from the socket, [H] what was handed to the stack
    and [P] where; [freed] is what has left the chain. *)
Record core (D : bytes) (A R : Z) (I H : bytes) (P : list Z)
    (s : HevSocks5SessionTCP) (freed : bytes) (xs : chain) (r : RingBuffer.HevRingBuffer) : Prop := {
  c_packet : packet (heap s) (queue s) xs;
  c_owned : all_owned xs;
  c_data : D = freed ++ data xs;
  c_recved : pcb s = true -> R = zlen freed;
  c_buffer : buffer s = Some r;
  c_ring : wf r;
  c_max : RingBuffer.max_size r <= TCP_SND_BUF;
  c_ready : I = H ++ RingBuffer.q_ready (RingBuffer.abs r);
  c_acked : 0 <= A <= zlen H;
  c_flight : RingBuffer.q_inflight (RingBuffer.abs r) = drop (Z.to_nat A) H;
  c_pos : inflight_pos r = drop (Z.to_nat A) P;
  c_plen : length P = length H;
}.

Lemma flight_size r : wf r ->
  zlen (RingBuffer.q_inflight (RingBuffer.abs r)) = RingBuffer.use_size r - RingBuffer.rda_size r /\
  zlen (RingBuffer.q_ready (RingBuffer.abs r)) = RingBuffer.rda_size r.
Proof.
  intros W. pose proof (RingBuffer.length_used r W) as Hl. unfold RingBuffer.abs, zlen. cbn.
  rewrite length_take, length_drop, Hl. destruct W. lia.
Qed.

(** A delivery is appended to the chain; the window keeps its length in 16 bits. *)
Lemma recv_ok s ys xs :
  packet (heap s) (queue s) ys -> all_owned ys -> xs <> [] ->
  packet (add_bufs xs (heap s)) (first_of xs) xs -> all_owned xs ->
  Forall (fun x => bufs (heap s) !! fst x = None) xs -> zlen (data ys) + zlen (data xs) <= TCP_WND ->
  exists s' zs, tcp_recv_handler (with_heap (add_bufs xs (heap s)) s) (first_of xs) = Val (ERR_OK, s') /\
    packet (heap s') (queue s') zs /\ all_owned zs /\ data zs = data ys ++ data xs /\
    fd s' = fd s /\ pcb s' = pcb s /\ buffer s' = buffer s /\ pcb_eof s' = pcb_eof s /\ timeout s' = timeout s /\ woken s' = true.
Proof.
  intros Hy Hoy Hne Hx Hox Hf Hw. unfold tcp_recv_handler, TCP_WND, TCP_MSS in *.
  pose proof (apart_fresh _ _ _ _ Hy Hf) as Hd. destruct xs as [|[ax nx] xs]; [done|].
  pose proof (packet_cons _ _ _ _ _ Hx) as (_ & Hax & _). cbn [first_of fst] in *. rewrite neqb by done. cbn [negb].
  cbn [queue with_heap set_queue heap]. pose proof (zlen_nonneg (data ((ax, nx) :: xs))) as Hx0.
  assert (packet (add_bufs ((ax, nx) :: xs) (heap s)) (queue s) ys) as Hy'.
  { eapply packet_frame; [|exact Hy]. intros a Ha. apply add_bufs_old. intros Hb. exact (Hd a Ha Hb). }
  destruct (Z.eqb_spec (queue s) NULL) as [Eq|Hq].
  - rewrite Eq in Hy. apply packet_null in Hy as ->. eexists _, ((ax, nx) :: xs). split; [reflexivity|]. split_and!; done.
  - destruct ys as [|[ay ny] ys]; [by destruct Hy as [Hs]|].
    pose proof (packet_cons _ _ _ _ _ Hy') as (_ & _ & Ey & _). pose proof (pk_totals _ _ _ Hy') as [Ht _]. cbn [snd] in Ht.
    pose proof (packet_cons _ _ _ _ _ Hy) as (Eq & _). rewrite <- Eq in Ey. rewrite (load_ok _ _ _ Ey). cbn [obind].
    rewrite Z.gtb_ltb, (proj2 (Z.ltb_ge _ _)) by lia.
    destruct (pbuf_cat_ok (fuel_of (add_bufs ((ax, nx) :: xs) (heap s))) _ (queue s) ax _ _ Hy' Hx) as (h' & zs & -> & Hz & HF & _);
      [done..|by apply Nat.lt_le_incl, (chain_fuel _ _ _ Hy')|lia|].
    cbn [obind]. eexists _, (zs ++ (ax, nx) :: xs). split; [reflexivity|]. split; [done|]. split.
    { apply Forall_app. split; [|done]. eapply (grown_prop owned); [|exact HF|done]. by intros. }
    split; [by rewrite data_app, (grown_data _ _ _ HF)|done].
Qed.

Lemma callback_ok D A R I H P s freed xs r acc c :
  core D A R I H P s freed xs r -> acc <= zlen H -> cb_ok (zlen D - R) (acc - A) s c ->
  exists e s' xs' r', run_callback s c = Val (e, s') /\
    core (D ++ e_data e) (A + e_acked e) R I H P s' freed xs' r' /\
    data xs' = data xs ++ e_data e /\ fd s' = fd s.
Proof.
  intros C Hacc [Hpcb Hc]. pose proof C as [Cp Co Cd Cr Cb Cw Cm Cry Ca Cf Cps Cpl]. destruct c as [ys|n|].
  - destruct ys as [|y ys].
    { cbn [run_callback]. rewrite add_bufs_nil. do 4 eexists. split; [reflexivity|]. cbn [e_data e_acked]. change (data []) with (@nil Z). rewrite !app_nil_r, Z.add_0_r.
      split; [by destruct C|done]. }
    destruct Hc as (Hp & Ho & Hf & Hw). cbn [run_callback].
    destruct (recv_ok s xs (y :: ys) Cp Co) as (s' & zs & -> & Hz & Hoz & Ez & E1 & E2 & E3 & _); [done..| |].
    { rewrite Cd, zlen_app in Hw. rewrite (Cr Hpcb) in Hw. lia. }
    cbn [obind]. rewrite Z.eqb_refl. do 4 eexists. split; [reflexivity|]. cbn [e_data e_acked]. rewrite Z.add_0_r.
    split; [|done]. constructor; try done.
    + by rewrite Cd, Ez, app_assoc.
    + by rewrite E2.
    + by rewrite E3.
  - cbn [run_callback tcp_sent_handler]. unfold tcp_sent_handler. rewrite Cb. cbn [obind of_option].
    do 4 eexists. split; [reflexivity|]. cbn [e_data e_acked]. rewrite !app_nil_r.
    destruct (flight_size r Cw) as [Hfs _]. rewrite Cf in Hfs. unfold zlen in Hfs. rewrite length_drop in Hfs. unfold zlen in Ca, Hacc.
    assert (RingBuffer.op_ok r (RingBuffer.OpRelease n)) as Hop by (cbn; lia).
    pose proof (RingBuffer.step_abs r _ Cw Hop) as Ea. cbn [RingBuffer.ring_step RingBuffer.q_step] in Ea.
    split; [|done]. constructor; try done.
    + by apply RingBuffer.read_release_wf.
    + unfold RingBuffer.hev_ring_buffer_read_release. by destruct (_ =? 0).
    + by rewrite Ea.
    + unfold zlen. lia.
    + rewrite Ea. cbn [RingBuffer.q_inflight RingBuffer.q_release]. rewrite Cf, drop_drop. f_equal. lia.
    + rewrite release_pos, Cps, drop_drop by done. f_equal. lia.
  - do 4 eexists. split; [reflexivity|]. cbn [e_data e_acked]. rewrite !app_nil_r, Z.add_0_r.
    split; [by destruct C|done].
Qed.

Lemma callbacks_ok I H P acc freed l : forall D A R s xs r,
  core D A R I H P s freed xs r -> acc <= zlen H -> cbs_ok (zlen D - R) (acc - A) s l ->
  exists e s' xs' r', run_callbacks s l = Val (e, s') /\
    core (D ++ e_data e) (A + e_acked e) R I H P s' freed xs' r' /\
    data xs' = data xs ++ e_data e /\ fd s' = fd s.
Proof.
  induction l as [|c l IH]; intros D A R s xs r C Hacc Hl.
  { exists (mkEffect [] 0), s, xs, r. cbn [e_data e_acked]. by rewrite !app_nil_r, Z.add_0_r. }
  destruct Hl as [Hc Hl]. destruct (callback_ok _ _ _ _ _ _ _ _ _ _ _ _ C Hacc Hc) as (e & s1 & xs1 & r1 & E & C1 & Ed & Ef).
  cbn [run_callbacks]. rewrite E in Hl |- *. cbn [obind].
  destruct (IH _ _ _ _ _ _ C1 Hacc) as (f & s2 & xs2 & r2 & -> & C2 & Ed2 & Ef2).
  { rewrite zlen_app. replace (zlen D + zlen (e_data e) - R) with (zlen D - R + zlen (e_data e)) by lia.
    by replace (acc - (A + e_acked e)) with (acc - A - e_acked e) by lia. }
  cbn [obind]. do 4 eexists. split; [reflexivity|]. cbn [e_data e_acked].
  rewrite app_assoc, Z.add_assoc. split; [done|]. split; [|by rewrite Ef2]. by rewrite Ed2, Ed, app_assoc.
Qed.

(** The invariant at a point of a history. *)
Definition cinv (h : trace) : HevSocks5SessionTCP -> bytes -> chain -> RingBuffer.HevRingBuffer -> Prop :=
  core (delivered h) (acked h) (recved h) (readin h) (handed h) (handed_pos h).

(** Between two calls the socket has taken exactly what left the chain. *)
Definition inv (h : trace) (s : HevSocks5SessionTCP) : Prop :=
  exists freed xs r, cinv h s freed xs r /\ out h = freed.

Lemma core_woken D A R I H P s freed xs r b :
  core D A R I H P s freed xs r -> core D A R I H P (set_woken b s) freed xs r.
Proof. by intros []. Qed.

(** The requests that let the stack run. *)
Definition switching (q : HevSocks5SessionTCP -> req) : Prop :=
  q = RLock \/ q = RYield \/ q = RWait \/ exists t, q = RSleep t.

Lemma switch_wp h s freed xs r q Q :
  switching q -> cinv h s freed xs r ->
  (forall a s' xs' r' h' d, cinv h' s' freed xs' r' -> data xs' = data xs ++ d -> out h' = out h -> fd s' = fd s ->
     (exists b, h' = h ++ [(q (set_woken false s), b)] /\ a = ares b) -> Q (a, s') h') ->
  Interact.wp allowed guard (switch q s) Q h.
Proof.
  intros Hq C HQ. unfold switch. apply wp_pbind. apply (core_woken _ _ _ _ _ _ _ _ _ _ false) in C.
  change (fd s) with (fd (set_woken false s)) in HQ. set (s0 := set_woken false s) in *. cbn [Interact.wp ask].
  assert (guard h (q s0)) as Hg by (by destruct Hq as [->|[->|[->|[t ->]]]]; split). split; [done|]. intros a Ha.
  assert (cbs_ok (zlen (delivered h) - recved h) (accepted h - acked h) s0 (calls a)) as Hc
    by (by destruct Hq as [->|[->|[->|[t ->]]]]).
  destruct (callbacks_ok _ _ _ _ _ _ _ _ _ _ _ _ C (accepted_handed h) Hc) as (e & s' & xs' & r' & E & C' & Ed & Ef).
  cbn [pbind Interact.wp]. rewrite E. cbn [of_outcome pbind Interact.wp].
  assert (effect_of (q s0, a) = e) as Ee by (destruct Hq as [->|[->|[->|[t ->]]]]; unfold effect_of; cbn; by rewrite E).
  apply (HQ _ _ xs' r' _ (e_data e)); try done.
  - unfold cinv. grow. cbn [delivered acked mbind list_bind foldr]. rewrite Ee, app_nil_r, Z.add_0_r.
    by destruct Hq as [->|[->|[->|[t ->]]]]; cbn; rewrite !app_nil_r, ?Z.add_0_r.
  - grow. by destruct Hq as [->|[->|[->|[t ->]]]]; cbn; rewrite ?app_nil_r.
  - by exists a.
Qed.

(** ** Forward *)

Lemma queue_iov_ok h xs : forall n p,
  packet h p xs -> exists l rest, queue_iov n p h = Val l /\ data xs = concat l ++ rest /\
    (n <> O -> l = [] -> xs = []) /\ (xs = [] -> l = []).
Proof.
  induction xs as [|[a b] xs IH]; intros n p Hp.
  { destruct Hp as [Hs]. cbn in Hs. subst p. exists [], []. by destruct n. }
  pose proof (packet_cons _ _ _ _ _ Hp) as (-> & Ha & En & Hok & _ & Hp' & _).
  destruct n as [|n]; [exists [], (data ((a, b) :: xs)); cbn; rewrite neqb by done; split_and!; done|].
  cbn [queue_iov]. rewrite neqb by done. rewrite (load_ok _ _ _ En). cbn [obind].
  destruct (IH n (next b) Hp') as (l & rest & E & Ed & _). pose proof Hok as (_ & Hl & _).
  rewrite read_payload_ok by (done || lia). cbn [obind]. rewrite E. cbn [obind].
  do 2 eexists. split; [reflexivity|]. split_and!; try done.
  rewrite data_cons, Ed. cbn [snd concat]. rewrite <- app_assoc. f_equal. unfold slice. change (Z.to_nat 0) with 0%nat. rewrite drop_0.
  rewrite take_ge; [done|]. pose proof (zlen_content b Hok) as El. unfold zlen in El. lia.
Qed.

(** An event that touches no stream. *)
Definition quiet (q : req) : Prop :=
  match q with
  | RUnlock | RUpdateSession | RTcpOutput | RTcpShutdown | RShutdown _ => True
  | _ => False
  end.

Lemma quiet_cinv h q a s freed xs r : quiet q -> cinv h s freed xs r -> cinv (h ++ [(q, a)]) s freed xs r.
Proof. intros Hq C. unfold cinv. grow. destruct q; try done; cbn; by rewrite !app_nil_r, !Z.add_0_r. Qed.

Lemma quiet_out h q a : quiet q -> out (h ++ [(q, a)]) = out h.
Proof. intros Hq. grow. destruct q; try done; cbn; by rewrite !app_nil_r. Qed.

Lemma quiet_inv h q a s : quiet q -> inv h s -> inv (h ++ [(q, a)]) s.
Proof.
  intros Hq (freed & xs & r & C & Eo). exists freed, xs, r. split; [by apply quiet_cinv|]. by rewrite quiet_out.
Qed.

Section wp.
Context (custom_free : Z -> PM unit).

Abbreviation wps := (Interact.wp allowed guard).

(** What the socket took leaves the chain and reopens the window. *)
Lemma consume_wp h s freed xs r n Q :
  cinv h s freed xs r -> 0 <= n <= zlen (data xs) ->
  out h = freed ++ take (Z.to_nat n) (data xs) ->
  (forall s' h', inv h' s' -> fd s' = fd s -> Q s' h') ->
  wps (consume custom_free s n) Q h.
Proof.
  intros C Hn Ho HQ. pose proof C as [Cp Co Cd Cr Cb Cw Cm Cry Ca Cf Cps Cpl]. unfold consume. apply wp_pbind.
  pose proof (pk_fits _ _ _ Cp) as Hfit. rewrite u16_id by (unfold is_u16; lia).
  destruct (free_header_ok custom_free xs (fuel_of (heap s)) (heap s) (queue s) n Cp Co) as (q & h2 & ys & -> & Hy & Hoy & Ed & _);
    [by eapply chain_fuel|unfold is_u16; lia|].
  cbn [of_outcome Interact.wp].
  assert (delivered h = (freed ++ take (Z.to_nat n) (data xs)) ++ data ys) as Edel.
  { by rewrite Cd, Ed, <- app_assoc, take_drop. }
  change (pcb (set_queue q h2 s)) with (pcb s). destruct (pcb s) eqn:Epcb.
  - apply wp_pbind. cbn [ask Interact.wp]. unfold guard. cbn [upload_guard download_guard].
    assert (recved h + n = zlen (out h)) as Er.
    { rewrite Ho, zlen_app, (Cr eq_refl). unfold zlen. rewrite length_take. unfold zlen in Hn. lia. }
    split; [done|]. intros a _. apply HQ; [|done]. exists (out h), ys, r. split; [|by rewrite out_app; cbn; rewrite app_nil_r].
    rewrite <- Ho in Edel. unfold cinv. grow. cbn. rewrite !app_nil_r, !Z.add_0_r. by constructor.
  - apply HQ; [|done]. exists (out h), ys, r. split; [|done]. rewrite <- Ho in Edel. constructor; try done. cbn. by rewrite Epcb.
Qed.

Lemma splice_f_wp h s Q :
  inv h s ->
  (forall res s' h', inv h' s' -> fd s' = fd s -> Q (res, s') h') ->
  wps (tcp_splice_f custom_free s) Q h.
Proof.
  intros (freed & xs & r & C & Eo) HQ. pose proof C as [Cp Co Cd Cr Cb Cw Cm Cry Ca Cf Cps Cpl].
  unfold tcp_splice_f. apply wp_pbind.
  destruct (queue_iov_ok (heap s) xs 64 (queue s) Cp) as (l & rest & E & Ed & Hl & Hl'). rewrite E. cbn [of_outcome Interact.wp].
  destruct (Z.eqb_spec (zlen l) 0) as [Hz|Hz]; cbn [negb].
  - assert (l = []) as El by (apply nil_length_inv; unfold zlen in Hz; lia).
    apply Hl in El as ->; [|done]. assert (queue s = NULL) as -> by (by destruct Cp as [Hs]). rewrite Z.eqb_refl. cbn [negb].
    destruct (pcb_eof s); cbn [Z.ltb Z.compare].
    + apply wp_pbind. cbn [ask Interact.wp]. unfold guard. cbn [upload_guard download_guard]. split; [split; [by rewrite Eo, Cd; cbn; rewrite app_nil_r|done]|].
      intros a _. apply HQ; [|done]. apply quiet_inv; [done|]. by exists freed, [], r.
    + apply HQ; [|done]. by exists freed, [], r.
  - apply wp_pbind. cbn [ask Interact.wp]. unfold guard. cbn [upload_guard download_guard]. split; [split; [exists rest; by rewrite Eo, Cd, Ed|done]|]. intros a Ha. cbn [allowed] in Ha.
    set (h1 := h ++ _). assert (out h1 = out h ++ take (Z.to_nat (ares a)) (concat l)) as Eo1.
    { unfold h1. rewrite out_app. cbn. by rewrite app_nil_r. }
    assert (cinv h1 s freed xs r) as C1.
    { unfold cinv, h1. grow. cbn. by rewrite !app_nil_r, !Z.add_0_r. }
    rewrite Z.geb_leb. destruct (Z.leb_spec (ares a) 0) as [Hle|Hgt].
    + cbn [Interact.wp]. apply HQ; [|done]. exists freed, xs, r. split; [done|]. rewrite Eo1, Eo.
      replace (Z.to_nat (ares a)) with 0%nat by lia. by rewrite take_0, app_nil_r.
    + apply wp_pbind. eapply switch_wp; [by left|exact C1|]. intros a' s' xs' r' h' d C' Ed' Eo' Ef' _.
      assert (zlen (concat l) <= zlen (data xs)) as Hcl by (rewrite Ed, zlen_app; pose proof (zlen_nonneg rest); lia).
      apply wp_pbind. eapply consume_wp; [exact C'| | |].
      * rewrite Ed', zlen_app. pose proof (zlen_nonneg d). lia.
      * rewrite Eo', Eo1, Eo, Ed', Ed, <- app_assoc. f_equal. rewrite take_app_le; [done|]. unfold zlen in Ha. lia.
      * intros s'' h'' Hinv Ef''. apply wp_pbind. cbn [ask Interact.wp]. unfold guard. cbn [upload_guard download_guard]. split; [done|]. intros a'' _.
        apply HQ; [by apply quiet_inv|]. by rewrite Ef'', Ef'.
Qed.

(** ** Backward *)

Lemma ring_scatter_nil d v : RingBuffer.scatter d v [] = d.
Proof.
  induction v as [|i v IH]; [done|]. cbn [RingBuffer.scatter]. rewrite take_nil, drop_nil, splice_nil. exact IH.
Qed.

Lemma splice_b_read_wp h s Q :
  inv h s ->
  (forall res s' h', inv h' s' -> fd s' = fd s -> Q (res, s') h') ->
  wps (splice_b_read s) Q h.
Proof.
  intros (freed & xs & r & C & Eo) HQ. pose proof C as [Cp Co Cd Cr Cb Cw Cm Cry Ca Cf Cps Cpl].
  unfold splice_b_read. rewrite Cb. apply wp_pbind. cbn [of_option of_outcome Interact.wp].
  destruct (zlen (RingBuffer.hev_ring_buffer_writing r) =? 0); cbn [negb].
  { cbn [Interact.wp]. apply HQ; [|done]. by exists freed, xs, r. }
  apply wp_pbind. cbn [ask Interact.wp]. unfold guard. cbn [upload_guard download_guard]. split.
  { split; [done|]. intros p Hp. rewrite <- Cps. by apply writing_apart. }
  intros a [Hd Hn]. set (h1 := h ++ _).
  assert (out h1 = out h /\ readin h1 = readin h ++ adata a) as [Eo1 Er1].
  { unfold h1. rewrite out_app, readin_app. cbn. by rewrite !app_nil_r. }
  assert (forall s' r', core (delivered h) (acked h) (recved h) (readin h ++ adata a) (handed h) (handed_pos h) s' freed xs r' ->
    cinv h1 s' freed xs r') as Hc.
  { intros s' r' C'. unfold cinv. rewrite Er1. unfold h1. grow. cbn. by rewrite !app_nil_r, !Z.add_0_r. }
  rewrite Z.geb_leb. destruct (Z.leb_spec (ares a) 0) as [Hle|Hgt].
  - assert (adata a = []) as Ea by (apply nil_length_inv; unfold zlen in Hd; lia).
    cbn [Interact.wp]. apply HQ; [|done]. exists freed, xs, r. split; [|by rewrite Eo1]. apply Hc.
    rewrite Ea, app_nil_r, ring_scatter_nil. by destruct C, r.
  - destruct (RingBuffer.writing_in_bounds r Cw) as [_ Et].
    assert (RingBuffer.op_ok r (RingBuffer.OpWrite (adata a))) as Hop by (cbn; lia).
    replace (ares a) with (zlen (adata a)) by lia. cbn [Interact.wp]. apply HQ; [|done].
    exists freed, xs, (RingBuffer.ring_write r (adata a)). split; [|by rewrite Eo1]. apply Hc.
    pose proof (RingBuffer.step_abs r _ Cw Hop) as Eb. cbn [RingBuffer.ring_step RingBuffer.q_step] in Eb.
    constructor; try done.
    + by apply RingBuffer.ring_write_wf.
    + by rewrite Eb, Cry, <- app_assoc.
    + by rewrite Eb.
    + by rewrite write_pos.
Qed.

(** Hand over every part of a list of iovecs. *)
Lemma write_iov_wp b iov : forall h n err Q,
  zlen (RingBuffer.data b) = RingBuffer.max_size b -> RingBuffer.max_size b <= TCP_SND_BUF ->
  Forall (RingBuffer.iov_in (RingBuffer.max_size b)) iov ->
  (exists rest, readin h = handed h ++ RingBuffer.gather (RingBuffer.data b) iov ++ rest) ->
  zlen (handed h) - acked h + RingBuffer.iov_total iov <= TCP_SND_BUF ->
  (forall err' h', handed h' = handed h ++ RingBuffer.gather (RingBuffer.data b) iov ->
     handed_pos h' = handed_pos h ++ iov_pos iov -> delivered h' = delivered h -> acked h' = acked h ->
     recved h' = recved h -> readin h' = readin h -> out h' = out h -> Q (n + RingBuffer.iov_total iov, err') h') ->
  wps (write_iov b iov n err) Q h.
Proof.
  induction iov as [|v iov IH]; intros h n err Q Hb Hmax Hin (rest & Er) Hfit HQ.
  { cbn [write_iov Interact.wp]. specialize (HQ err h). cbn in HQ. rewrite Z.add_0_r, !app_nil_r in HQ. by apply HQ. }
  apply Forall_cons in Hin as [(Hv0 & Hv1 & Hv2) Hin]. unfold TCP_SND_BUF, TCP_MSS in *. cbn [write_iov].
  assert (0 <= RingBuffer.iov_total iov) as Htot.
  { clear -Hin. unfold RingBuffer.iov_total. induction Hin as [|v iov (_ & H & _) _ IH]; cbn in *; lia. }
  cbn [RingBuffer.iov_total foldr] in *. change (foldr _ 0 iov) with (RingBuffer.iov_total iov) in *.
  rewrite u16_id by (unfold is_u16; lia). apply wp_pbind. cbn [ask Interact.wp]. unfold guard. cbn [upload_guard download_guard].
  set (d := slice _ _ (RingBuffer.data b)).
  assert (zlen d = RingBuffer.iov_len v) as El.
  { unfold zlen in *. unfold d. rewrite length_slice; lia. }
  assert (RingBuffer.gather (RingBuffer.data b) (v :: iov) = d ++ RingBuffer.gather (RingBuffer.data b) iov) as Eg by done.
  rewrite Eg in *. rewrite <- app_assoc in Er. split.
  { split; [done|]. split; [by eexists|]. split; [done|]. unfold TCP_SND_BUF, TCP_MSS. lia. }
  intros a _. eapply IH; try done.
  - exists rest. grow. cbn. by rewrite !app_nil_r, <- app_assoc.
  - grow. cbn. rewrite app_nil_r, zlen_app, El. change (acked h + (0 + 0)) with (acked h + 0). lia.
  - intros err' h' E1 E2 E3 E4 E5 E6 E7. rewrite <- Z.add_assoc. apply HQ.
    + rewrite E1. grow. cbn. by rewrite app_nil_r, <- app_assoc.
    + rewrite E2. grow. cbn. by rewrite app_nil_r, <- app_assoc.
    + rewrite E3. grow. cbn. by rewrite app_nil_r.
    + rewrite E4. grow. cbn. by rewrite Z.add_0_r.
    + rewrite E5. grow. cbn. by rewrite Z.add_0_r.
    + rewrite E6. grow. cbn. by rewrite app_nil_r.
    + rewrite E7. grow. cbn. by rewrite app_nil_r.
Qed.

(** Everything that was ready is in flight after the hand-over. *)
Lemma handover_core D A R I H P s freed xs r :
  core D A R I H P s freed xs r ->
  let b := RingBuffer.hev_ring_buffer_read_finish r (RingBuffer.rda_size r) in
  core D A R I (H ++ RingBuffer.q_ready (RingBuffer.abs r))
    (P ++ iov_pos (RingBuffer.hev_ring_buffer_reading r)) (set_buffer (Some b) s) freed xs b.
Proof.
  intros [Cp Co Cd Cr Cb Cw Cm Cry Ca Cf Cps Cpl] b. destruct (flight_size r Cw) as [_ Hrs].
  assert (RingBuffer.op_ok r (RingBuffer.OpRead (RingBuffer.rda_size r))) as Hop by (destruct Cw; cbn; lia).
  pose proof (RingBuffer.step_abs r _ Cw Hop) as Eb. cbn [RingBuffer.ring_step RingBuffer.q_step] in Eb. fold b in Eb.
  unfold RingBuffer.q_read in Eb. rewrite take_ge, drop_ge in Eb by (unfold zlen in Hrs; lia).
  constructor; try done.
  - by apply RingBuffer.read_finish_wf.
  - by rewrite Eb, app_nil_r.
  - rewrite zlen_app. pose proof (zlen_nonneg (RingBuffer.q_ready (RingBuffer.abs r))). lia.
  - rewrite Eb. cbn [RingBuffer.q_inflight]. rewrite Cf, drop_app_le by (unfold zlen in Ca; lia). done.
  - unfold b. rewrite read_pos, Cps, drop_app_le by (done || (unfold zlen in Ca; lia)). done.
  - rewrite !length_app, Cpl, reading_pos, length_ring_pos by done. unfold zlen in Hrs. lia.
Qed.

Lemma splice_b_write_wp h s res Q :
  inv h s ->
  (forall res' err s' h', inv h' s' -> fd s' = fd s -> Q (res', err, s') h') ->
  wps (splice_b_write s res) Q h.
Proof.
  intros Hi HQ. pose proof Hi as (freed & xs & r & C & Eo). pose proof C as [Cp Co Cd Cr Cb Cw Cm Cry Ca Cf Cps Cpl].
  unfold splice_b_write. destruct (pcb s); [|cbn [Interact.wp]; by apply HQ].
  apply wp_pbind. rewrite Cb. cbn [of_option of_outcome Interact.wp].
  destruct (RingBuffer.reading_in_bounds r Cw) as [Hin Htot].
  assert (RingBuffer.gather (RingBuffer.data r) (RingBuffer.hev_ring_buffer_reading r) = RingBuffer.q_ready (RingBuffer.abs r)) as Eg.
  { by rewrite RingBuffer.gather_reading, RingBuffer.window_rp. }
  destruct (Z.eqb_spec (zlen (RingBuffer.hev_ring_buffer_reading r)) 0) as [Hz|Hz]; cbn [negb].
  - assert (handed h = readin h) as Eh.
    { destruct (RingBuffer.hev_ring_buffer_reading r); [|rewrite zlen_cons in Hz; pose proof (zlen_nonneg l); lia].
      by rewrite Cry, <- Eg, app_nil_r. }
    destruct (res <? 0); [|cbn [Interact.wp]; by apply HQ]. apply wp_pbind. cbn [ask Interact.wp]. unfold guard. cbn [upload_guard download_guard]. split; [done|].
    intros a _. apply HQ; [by apply quiet_inv|done].
  - apply wp_pbind. destruct (flight_size r Cw) as [Hfs Hrs]. rewrite Cf in Hfs. unfold zlen in Hfs. rewrite length_drop in Hfs.
    eapply write_iov_wp; try done.
    + by destruct Cw.
    + exists []. by rewrite app_nil_r, Eg, Cry.
    + rewrite Htot. unfold zlen in Ca |- *. destruct Cw. lia.
    + intros err h' E1 E2 E3 E4 E5 E6 E7. rewrite Z.add_0_l, Htot, Eg in *. apply wp_pbind. cbn [ask Interact.wp]. unfold guard. cbn [upload_guard download_guard].
      split; [done|]. intros a _. apply HQ; [|done]. apply quiet_inv; [done|].
      exists freed, xs, (RingBuffer.hev_ring_buffer_read_finish r (RingBuffer.rda_size r)). split; [|by rewrite E7].
      unfold cinv. rewrite E1, E2, E3, E4, E5, E6. by apply handover_core.
Qed.

Lemma splice_b_wp h s Q :
  inv h s ->
  (forall res s' h', inv h' s' -> fd s' = fd s -> Q (res, s') h') ->
  wps (tcp_splice_b s) Q h.
Proof.
  intros Hi HQ. unfold tcp_splice_b. apply wp_pbind. apply splice_b_read_wp; [done|].
  intros res s1 h1 (freed & xs & r & C & Eo) Ef1. apply wp_pbind. eapply switch_wp; [by left|exact C|].
  intros a s2 xs2 r2 h2 d C2 _ Eo2 Ef2 _. apply wp_pbind. apply splice_b_write_wp.
  { exists freed, xs2, r2. by rewrite Eo2. }
  intros res' err s3 h3 Hi3 Ef3. apply wp_pbind. cbn [ask Interact.wp]. unfold guard. cbn [upload_guard download_guard]. split; [done|]. intros a' _.
  apply HQ; [by apply quiet_inv|congruence].
Qed.

(** ** The loops *)

(** A wait ran out. *)
Definition timed_out (h : trace) : Prop :=
  exists ms s a, (RSleep ms s, a) ∈ h /\ ares a <= 0.

Lemma switch_inv h s q Q :
  switching q -> inv h s ->
  (forall a s' h', inv h' s' -> (exists b, h' = h ++ [(q (set_woken false s), b)] /\ a = ares b) -> Q (a, s') h') ->
  wps (switch q s) Q h.
Proof.
  intros Hq (freed & xs & r & C & Eo) HQ. eapply switch_wp; [done|exact C|].
  intros a s' xs' r' h' d C' _ Eo' _ Hb. apply HQ; [|done]. exists freed, xs', r'. by rewrite Eo'.
Qed.

Lemma yielder_wp h s w Q :
  inv h s -> (forall a s' h', inv h' s' -> (a < 0 -> timed_out h') -> Q (a, s') h') -> wps (task_io_yielder w s) Q h.
Proof.
  intros Hi HQ. unfold task_io_yielder. apply wp_pbind.
  assert (forall a s' h', inv h' s' -> (a < 0 -> timed_out h') ->
    wps (ido _ := ask RUpdateSession in Done (a, s')) Q h') as Hnext.
  { intros a s' h' Hi' Ht. apply wp_pbind. cbn [ask Interact.wp]. unfold guard. cbn [upload_guard download_guard].
    split; [done|]. intros a' _. apply HQ; [by apply quiet_inv|]. intros (ms & s1 & b & Hb & Hle)%Ht.
    exists ms, s1, b. split; [|done]. apply elem_of_app. by left. }
  destruct w; cbn [negb]; [destruct (timeout s <? 0)|]; apply wp_pbind;
    (eapply switch_inv; [unfold switching; eauto|done|]; intros a s' h' Hi' (b & -> & ->); cbn [Interact.wp];
     apply Hnext; [done|]); [done| |done].
  destruct (Z.leb_spec (ares b) 0); [|done]. intros _. do 3 eexists. split; [|done]. apply elem_of_app. right. left.
Qed.

Lemma splice_loop_wp fuel : forall h s res_f res_b Q,
  inv h s ->
  (forall r h', match r with Some s' => inv h' s' | None => True end -> Q r h') ->
  wps (splice_loop custom_free fuel s res_f res_b) Q h.
Proof.
  induction fuel as [|fuel IH]; intros h s res_f res_b Q Hi HQ; cbn [splice_loop]; [by apply HQ|].
  apply wp_pbind.
  apply (wp_impl _ _ _ (fun '(_, s') h' => inv h' s')).
  { destruct (res_f >=? 0); [apply splice_f_wp; [done|]; by intros|done]. }
  intros [rf s1] h1 Hi1. apply wp_pbind.
  apply (wp_impl _ _ _ (fun '(_, s') h' => inv h' s')).
  { destruct (res_b >=? 0); [apply splice_b_wp; [done|]; by intros|done]. }
  intros [rb s2] h2 Hi2.
  assert (forall w, wps (ido (r, s) := task_io_yielder w s2 in
    if r <? 0 then Done (Some s) else splice_loop custom_free fuel s rf rb) Q h2) as Hnext.
  { intros w. apply wp_pbind. apply yielder_wp; [done|]. intros a s3 h3 Hi3 _.
    destruct (a <? 0); [by apply HQ|by apply IH]. }
  destruct ((rf >? 0) || (rb >? 0)); [apply Hnext|]. destruct (Z.land rf rb =? 0); [apply Hnext|by apply HQ].
Qed.

(** How a splice ends: the connection is gone, a wait ran out, or every byte read from
    the socket was acknowledged. *)
Definition ended (h : trace) (s : HevSocks5SessionTCP) : Prop :=
  pcb s = false \/ timed_out h \/ acked h = zlen (readin h).

Lemma drained h s freed xs r :
  cinv h s freed xs r -> RingBuffer.use_size r = 0 -> acked h = zlen (readin h).
Proof.
  intros [Cp Co Cd Cr Cb Cw Cm Cry Ca Cf Cps Cpl] Hu. destruct (flight_size r Cw) as [Hf Hr].
  assert (RingBuffer.rda_size r = 0) as Hz by (destruct Cw; lia). rewrite Cf in Hf. rewrite Cry, zlen_app.
  unfold zlen in *. rewrite length_drop in Hf. lia.
Qed.

Lemma drain_loop_wp fuel : forall h s Q,
  inv h s ->
  (forall r h', match r with Some s' => inv h' s' /\ ended h' s' | None => True end -> Q r h') ->
  wps (drain_loop fuel s) Q h.
Proof.
  unfold ended.
  induction fuel as [|fuel IH]; intros h s Q Hi HQ; cbn [drain_loop];
    (destruct (pcb s) eqn:Ep; [|cbn [Interact.wp]; apply HQ; auto]);
    apply wp_pbind; pose proof Hi as (freed & xs & r & C & Eo); rewrite (c_buffer _ _ _ _ _ _ _ _ _ _ C);
    cbn [of_option of_outcome Interact.wp];
    (destruct (Z.eqb_spec (RingBuffer.hev_ring_buffer_get_use_size r) 0) as [Hu|_];
      [apply HQ; pose proof (drained _ _ _ _ _ C Hu); auto|]); [by apply HQ|].
  apply wp_pbind. apply yielder_wp; [done|]. intros a s3 h3 Hi3 Ht.
  destruct (Z.ltb_spec a 0); [apply HQ; auto|by apply IH].
Qed.

End wp.

(** ** Before the splice *)

(** A session that was constructed and waits for its SOCKS5 server: what the stack
    delivered so far is on the chain. *)
Record started (h : trace) (s : HevSocks5SessionTCP) (xs : chain) : Prop := {
  st_packet : packet (heap s) (queue s) xs;
  st_owned : all_owned xs;
  st_data : delivered h = data xs;
  st_acked : acked h = 0;
  st_recved : recved h = 0;
  st_out : out h = [];
  st_read : readin h = [];
  st_handed : handed h = [];
  st_pos : handed_pos h = [];
}.

Lemma started_callbacks l : forall D s xs,
  packet (heap s) (queue s) xs -> all_owned xs -> D = data xs -> cbs_ok (zlen D) 0 s l ->
  exists e s' xs', run_callbacks s l = Val (e, s') /\ packet (heap s') (queue s') xs' /\ all_owned xs' /\
    D ++ e_data e = data xs' /\ e_acked e = 0.
Proof.
  induction l as [|c l IH]; intros D s xs Hp Ho Ed Hl.
  { exists (mkEffect [] 0), s, xs. cbn. by rewrite app_nil_r. }
  destruct Hl as [[Hpcb Hc] Hl].
  assert (exists e s1 xs1, run_callback s c = Val (e, s1) /\ packet (heap s1) (queue s1) xs1 /\ all_owned xs1 /\
    D ++ e_data e = data xs1 /\ e_acked e = 0) as (e & s1 & xs1 & E & Hp1 & Ho1 & Ed1 & Ea).
  { destruct c as [[|y ys]|n|]; [| |lia|].
    - cbn [run_callback]. rewrite add_bufs_nil. do 3 eexists. split; [reflexivity|]. cbn [e_data e_acked]. change (data []) with (@nil Z).
      by rewrite app_nil_r.
    - destruct Hc as (Hy & Hoy & Hf & Hw). cbn [run_callback].
      destruct (recv_ok s xs (y :: ys) Hp Ho) as (s' & zs & -> & Hz & Hoz & Ez & _); [done..|by rewrite <- Ed|].
      cbn [obind]. rewrite Z.eqb_refl. do 3 eexists. split; [reflexivity|]. cbn [e_data e_acked]. by rewrite Ed, <- Ez.
    - do 3 eexists. split; [reflexivity|]. cbn [e_data e_acked]. by rewrite app_nil_r. }
  rewrite E in Hl. cbn [run_callbacks]. rewrite E. cbn [obind]. rewrite Ea, <- zlen_app in Hl.
  destruct (IH _ s1 xs1 Hp1 Ho1 Ed1 Hl) as (f & s2 & xs2 & -> & Hp2 & Ho2 & Ed2 & Ea2). cbn [obind].
  do 3 eexists. split; [reflexivity|]. cbn [e_data e_acked]. rewrite Ea, Ea2, app_assoc. done.
Qed.

(** The waits of the handshake keep a session in that state. *)
Lemma started_switch h s xs a :
  started h s xs -> allowed h (RYield s) a ->
  exists e s' xs', run_callbacks s (calls a) = Val (e, s') /\ started (h ++ [(RYield s, a)]) s' xs'.
Proof.
  intros [S1 S2 S3 S4 S5 S6 S7 S8 S9] Ha. cbn [allowed] in Ha.
  assert (accepted h <= 0) as Hacc by (pose proof (accepted_handed h) as Hh; rewrite S8 in Hh; exact Hh).
  assert (0 <= accepted h) as Hacc0.
  { clear. unfold accepted. induction h as [|[q b] h IH]; [done|]. cbn [foldr fst snd].
    destruct q; cbn; try lia. pose proof (zlen_nonneg d). destruct (ares b =? ERR_OK); lia. }
  replace (accepted h - acked h) with 0 in Ha by lia. rewrite S5, Z.sub_0_r in Ha.
  destruct (started_callbacks _ _ s xs S1 S2 S3 Ha) as (e & s' & xs' & E & Hp & Ho & Ed & Ee).
  exists e, s', xs'. split; [done|]. constructor; try done; grow; cbn; unfold effect_of; cbn [fst snd]; rewrite ?E;
    rewrite ?S3, ?S4, ?S5, ?S6, ?S7, ?S8, ?S9, ?app_nil_r; cbn; lia || (rewrite <- ?S3; done).
Qed.

Section splice.
Context (custom_free : Z -> PM unit).

Lemma splice_wp fuel size stack h s xs Q :
  started h s xs -> pcb s = true -> 0 < size <= TCP_SND_BUF -> zlen stack = size ->
  (forall r h', match r with Some s' => ended h' s' | None => True end -> Q r h') ->
  Interact.wp allowed guard (hev_socks5_session_tcp_splice custom_free fuel size stack s) Q h.
Proof.
  intros [S1 S2 S3 S4 S5 S6 S7 S8 S9] Hpcb Hs Hst HQ. unfold hev_socks5_session_tcp_splice. rewrite Hpcb. cbn [negb].
  unfold TCP_SND_BUF, TCP_MSS in *. set (r := RingBuffer.hev_ring_buffer_alloca size stack).
  assert (wf r) as W by (apply RingBuffer.alloca_wf; lia).
  assert (inv h (set_buffer (Some r) s)) as Hi.
  { exists [], xs, r. split; [|done]. unfold cinv. rewrite S4, S5, S7, S8, S9. constructor; try done.
    cbn. unfold TCP_SND_BUF, TCP_MSS. lia. }
  apply wp_pbind. apply splice_loop_wp; [done|]. intros [s'|] h' Hi'; [|by apply HQ].
  apply drain_loop_wp; [done|]. intros [s''|] h'' Hq; apply HQ; [apply Hq|done].
Qed.

(** C2: a TCP session forwards what the application sent without loss, duplication or
    reordering: in every run of the splice, whatever the socket and the stack answer
    within their rules, each [writev] offers the bytes that follow those the socket
    has taken, [tcp_recved] reopens the window by exactly what was forwarded, and the
    socket is shut down only after every delivered byte went out. *)
Theorem tcp_session_upload fuel size stack h s xs t p :
  started h s xs -> pcb s = true -> 0 < size <= TCP_SND_BUF -> zlen stack = size ->
  steps allowed h (hev_socks5_session_tcp_splice custom_free fuel size stack s) t p ->
  p <> Broken /\
  forall t1 q a t2, t = t1 ++ (q, a) :: t2 -> upload_guard (h ++ t1) q.
Proof.
  intros Hst Hpcb Hs Hk S.
  destruct (sound _ _ _ _ _ _ _ S (splice_wp _ _ _ _ _ _ (fun _ _ => True) Hst Hpcb Hs Hk (fun _ _ _ => I))) as [Hg Hp].
  split; [by destruct p|]. intros t1 q a t2 Et. by destruct (Hg t1 q a t2 Et).
Qed.


End splice.

(** ** Witnesses *)

#[export] Instance cb_ok_dec u v s c : Decision (cb_ok u v s c).
Proof. unfold cb_ok. destruct c as [[|]|n|]; apply _. Defined.

#[export] Instance cbs_ok_dec u v s l : Decision (cbs_ok u v s l).
Proof.
  revert u v s. induction l as [|c l IH]; intros u v s; cbn [cbs_ok]; [apply _|].
  destruct (run_callback s c) as [[e s']|]; apply _.
Defined.

#[export] Instance tcp_allowed_dec h q a : Decision (allowed h q a).
Proof. destruct q; cbn [allowed]; apply _. Defined.

Definition example_session : HevSocks5SessionTCP := mkSess 5 100 NULL true None false false (mkPHeap ∅ false).

(** Two bytes come from the socket while the stack delivers three, acknowledges the two
    and reports the end of the stream; the socket takes the three in two steps. *)
Definition example_answers : list ans :=
  let ok := mkAns 0 [] false [] in
  [mkAns 2 [7; 8] false []; mkAns 0 [] false [CbRecv example_first]; ok; ok; ok;
   mkAns 0 [] false [CbSent 2]; ok;
   mkAns 2 [] false []; mkAns 0 [] false [CbRecv []]; ok; ok;
   mkAns (-1) [] true []; ok; ok; ok; ok;
   mkAns 1 [] false []; ok; ok; ok].

Definition example_run : option (trace * sprog (option HevSocks5SessionTCP)) :=
  replay allowed [] (hev_socks5_session_tcp_splice (fun _ => sret tt) 9 8 (replicate 8 0) example_session) example_answers.

Lemma example_started : started [] example_session [].
Proof. constructor; try done. apply packet_iff. by repeat split; try constructor. Qed.

Lemma tcp_session_upload_witness :
  match example_run with
  | Some (t, p) => p <> Broken /\ forall t1 q a t2, t = t1 ++ (q, a) :: t2 -> upload_guard ([] ++ t1) q
  | None => False
  end.
Proof.
  assert (match example_run with Some _ => true | None => false end = true) as K by (vm_compute; reflexivity).
  destruct example_run as [[t p]|] eqn:E; [clear K|discriminate K].
  destruct (replay_steps allowed _ _ _ _ _ E) as (t' & Et & S). cbn [app] in Et. subst t.
  apply (tcp_session_upload (fun _ => sret tt) 9 8 (replicate 8 0) [] example_session [] t' p example_started eq_refl); [done..|exact S].
Defined.


End SessionTCPInv.
