(* ===== verification/SessionUDP.v ===== *)
(** * UDP sessions (src/hev-socks5-session-udp.c)

    Datagrams that the network stack delivers wait as frames on a list until
    [hev_socks5_udp_sendmmsg] takes them; datagrams from the SOCKS5 server go to the
    stack at once.  As for TCP sessions, calls of the stack are part of the answer to a
    request that can switch tasks.  A call brings what it finds outside of the session:
    the mapped DNS and the allocator's answer. *)

From Stdlib Require Import ZArith Lia.
From stdpp Require Import base list gmap numbers.
From S2P Require Import Prelude CBytes HevList MappedDNS Pbuf PbufRep Interact SocketIO SocksMisc Socks5 LwipAddr.
Import list_basics.list list_relations.list list_monad.list list_misc.list.
Import Socks5 Pbuf PbufRep Interact LwipAddr.

Module SessionUDP.

Definition UDP_BUF_SIZE : Z := 1500.
Definition UDP_POOL_SIZE : Z := 512.

Abbreviation HevSocks5Addr := SocksMisc.HevSocks5Addr.

(** ** Data *)

(** The list node of a frame is its first field. *)
Record HevSocks5UDPFrame := mkFrame { f_addr : HevSocks5Addr; f_data : Z }.

(** [frames_at] are the frames in memory, [lnodes] their list nodes, [heap] the packet
    buffers they refer to. *)
Record HevSocks5SessionUDP := mkUdp {
  fd : Z; type : Socks5.HevSocks5Type; timeout : Z;
  frame_list : HevList.HevList; lnodes : gmap Z HevList.HevListNode; frames_at : gmap Z HevSocks5UDPFrame;
  heap : pheap; pcb : bool; frames : Z; addr : Z; port : Z; woken : bool }.

Definition set_frames (l : HevList.HevList) (n : gmap Z HevList.HevListNode) (f : gmap Z HevSocks5UDPFrame)
    (h : pheap) (k : Z) (s : HevSocks5SessionUDP) : HevSocks5SessionUDP :=
  mkUdp (fd s) (type s) (timeout s) l n f h (pcb s) k (addr s) (port s) (woken s).
Definition set_heap (h : pheap) (s : HevSocks5SessionUDP) : HevSocks5SessionUDP :=
  set_frames (frame_list s) (lnodes s) (frames_at s) h (frames s) s.
Definition set_source (a p : Z) (s : HevSocks5SessionUDP) : HevSocks5SessionUDP :=
  mkUdp (fd s) (type s) (timeout s) (frame_list s) (lnodes s) (frames_at s) (heap s) (pcb s) (frames s) a p (woken s).
Definition set_timeout (t : Z) (s : HevSocks5SessionUDP) : HevSocks5SessionUDP :=
  mkUdp (fd s) (type s) t (frame_list s) (lnodes s) (frames_at s) (heap s) (pcb s) (frames s) (addr s) (port s) (woken s).
Definition set_woken (b : bool) (s : HevSocks5SessionUDP) : HevSocks5SessionUDP :=
  mkUdp (fd s) (type s) (timeout s) (frame_list s) (lnodes s) (frames_at s) (heap s) (pcb s) (frames s) (addr s) (port s) b.
Definition clear_pcb (s : HevSocks5SessionUDP) : HevSocks5SessionUDP :=
  mkUdp (fd s) (type s) (timeout s) (frame_list s) (lnodes s) (frames_at s) (heap s) false (frames s) (addr s) (port s) (woken s).

Definition hev_task_wakeup (s : HevSocks5SessionUDP) : HevSocks5SessionUDP := set_woken true s.

Definition hev_socks5_session_terminate (s : HevSocks5SessionUDP) : HevSocks5SessionUDP :=
  hev_task_wakeup (set_timeout 0 s).

(** A 32-bit word of memory, as an [int], and its bytes. *)
Definition ld32 (b : bytes) (off : Z) : outcome Z :=
  let! lo := ld16 b off in
  let! hi := ld16 b (off + 2) in
  Val (i32 (lo + 65536 * hi)).

Definition le32 (v : Z) : bytes := le16 v ++ le16 (Z.shiftr v 16).

(** A datagram of [HevSocks5UDPMsg]; the address is [None] when its pointer is [NULL]. *)
Abbreviation msg := (option HevSocks5Addr * bytes)%type.

Section session.
Context (custom_free : Z -> PM unit).

Definition free_packet (p : Z) (h : pheap) : outcome pheap :=
  let! (_, h) := pbuf_free custom_free (fuel_of h) p h in Val h.

(** ** [udp_recv_handler]

    [mem] and [raw] are the allocator's answer for the frame, its address and what the
    field [addr] holds; [local] and [lport] are those of the stack's control block. *)
Definition udp_recv_handler (s : HevSocks5SessionUDP) (p : Z) (local : ip_addr_t) (lport : Z)
    (mem : Z) (raw : bytes) (dns : option MappedDNS.HevMappedDNS)
    : outcome (HevSocks5SessionUDP * option MappedDNS.HevMappedDNS) :=
  if p =? NULL then Val (hev_socks5_session_terminate s, dns)
  else if frames s >? UDP_POOL_SIZE then
    let! h := free_packet p (heap s) in Val (set_heap h s, dns)
  else if mem =? NULL then
    let! h := free_packet p (heap s) in Val (set_heap h s, dns)
  else
    let! (_, a, dns) := hev_socks5_addr_from_lwip dns raw local lport in
    let! atype := rd a 0 in
    let! s :=
      (if atype =? SocksMisc.HEV_SOCKS5_ADDR_TYPE_NAME then
         let! v := ld32 (ip_mem local) 0 in Val (set_source v lport s)
       else Val s) in
    let! (l, n) := HevList.hev_list_add_tail (frame_list s) (<[mem := HevList.mkLNode 0 0]> (lnodes s)) mem in
    Val (hev_task_wakeup (set_frames l n (<[mem := mkFrame a p]> (frames_at s)) (heap s) (frames s + 1) s), dns).

(** ** Calls of the stack *)

(** A datagram with what it finds; [xs] are its buffers, none when the control block
    goes away. *)
Inductive callback :=
| CbRecv (xs : chain) (local : ip_addr_t) (lport mem : Z) (raw : bytes) (dns : option MappedDNS.HevMappedDNS).

(** The datagrams that the session took over: address and payload of the first
    buffer. *)
Definition taken (s s' : HevSocks5SessionUDP) (mem : Z) (xs : chain) : list (HevSocks5Addr * bytes) :=
  if frames s <? frames s' then
    match frames_at s' !! mem, xs with
    | Some f, (_, n) :: _ => [(f_addr f, content n)]
    | _, _ => []
    end
  else [].

Definition run_callback (s : HevSocks5SessionUDP) (c : callback)
    : outcome (list (HevSocks5Addr * bytes) * HevSocks5SessionUDP) :=
  match c with
  | CbRecv xs local lport mem raw dns =>
      let! (s', _) := udp_recv_handler (set_heap (add_bufs xs (heap s)) s) (first_of xs) local lport mem raw dns in
      Val (taken s s' mem xs, s')
  end.

Fixpoint run_callbacks (s : HevSocks5SessionUDP) (l : list callback)
    : outcome (list (HevSocks5Addr * bytes) * HevSocks5SessionUDP) :=
  match l with
  | [] => Val ([], s)
  | c :: l =>
      let! (e, s) := run_callback s c in
      let! (f, s) := run_callbacks s l in
      Val (e ++ f, s)
  end.

(** ** Requests *)

Inductive req :=
| RSendmmsg (fd : Z) (msgs : list (HevSocks5Addr * bytes)) (s : HevSocks5SessionUDP)
| RRecvmmsg (fd num : Z) (s : HevSocks5SessionUDP)
| RPeek (fd : Z)
| RModFd (fd : Z)
| RAddFd (fd : Z)
| RAllocPbuf (s : HevSocks5SessionUDP)
| RLock (s : HevSocks5SessionUDP)
| RUnlock
| RUdpSendfrom (d : bytes) (ip : ip_addr_t) (port : Z)
| RUdpRemove
| RYield (s : HevSocks5SessionUDP)
| RWait (s : HevSocks5SessionUDP)
| RSleep (milliseconds : Z) (s : HevSocks5SessionUDP)
| RUpdateSession.

(** The result, received datagrams, whether [errno] is [EAGAIN], and the calls of the
    stack that happened before the task went on. *)
Record ans := mkAns { ares : Z; amsgs : list msg; again : bool; calls : list callback }.

Abbreviation uprog := (prog req ans).

Definition ask (q : req) : uprog ans := Ask q Done.

Definition switch (q : HevSocks5SessionUDP -> req) (s : HevSocks5SessionUDP) : uprog (ans * HevSocks5SessionUDP) :=
  let s := set_woken false s in
  ido a := ask (q s) in
  ido (_, s) := of_outcome (run_callbacks s (calls a)) in
  Done (a, s).

(** ** Forward: stack to server *)

(** The first [n] frames as messages: the payload of the first buffer and the address. *)
Fixpoint frame_msgs (n : nat) (s : HevSocks5SessionUDP) (node : Z) : outcome (list (HevSocks5Addr * bytes)) :=
  match n with
  | O => Val []
  | S n =>
      let! f := of_option (frames_at s !! node) in
      let! nx := HevList.hev_list_node_next (lnodes s) node in
      let! (b, _) := load (f_data f) (heap s) in
      let! d := read_payload b 0 (len b) in
      let! l := frame_msgs n s nx in
      Val ((f_addr f, d) :: l)
  end.

(** One round of the second loop: drop the first frame. *)
Definition pop_frame (s : HevSocks5SessionUDP) : outcome HevSocks5SessionUDP :=
  let node := HevList.hev_list_first (frame_list s) in
  let! f := of_option (frames_at s !! node) in
  let! (l, n) := HevList.hev_list_del (frame_list s) (lnodes s) node in
  let! h := free_packet (f_data f) (heap s) in
  Val (set_frames l (delete node n) (delete node (frames_at s)) h (frames s - 1) s).

Fixpoint pop_frames (n : nat) (s : HevSocks5SessionUDP) : outcome HevSocks5SessionUDP :=
  match n with
  | O => Val s
  | S n => let! s := pop_frame s in pop_frames n s
  end.

Definition hev_socks5_session_udp_fwd_f (s : HevSocks5SessionUDP) (num : Z) : uprog (Z * HevSocks5SessionUDP) :=
  if frames s <=? 0 then Done (0, s)
  else
    let res := if frames s >? num then num else frames s in
    ido msgs := of_outcome (frame_msgs (Z.to_nat res) s (HevList.hev_list_first (frame_list s))) in
    ido (a, s) := switch (RSendmmsg (fd s) msgs) s in
    if ares a <=? 0 then Done (-1, s)
    else
      ido s := of_outcome (pop_frames (Z.to_nat (ares a)) s) in
      Done (1, s).

(** ** Backward: server to stack *)

(** Source address of a datagram: the address of the mapped name, or the one it came
    with; [saddr] is what the stack variable held. *)
Definition source (s : HevSocks5SessionUDP) (saddr : ip_addr_t) (a : option HevSocks5Addr)
    : outcome (option (ip_addr_t * Z)) :=
  if negb (addr s =? 0) && negb (port s =? 0) then
    let! m := put_n (ip_mem saddr) 0 (le32 (addr s)) in
    Val (Some (mkIP m (ip_type saddr), u16 (port s)))
  else
    let! a := of_option a in
    let! (ret, ip, p) := hev_socks5_addr_into_lwip a saddr 0 in
    if ret <? 0 then Val None else Val (Some (ip, p)).

(** [for (i = 0; i < res; i++)]; the result of the function and the session. *)
Fixpoint fwd_b_loop (saddr : ip_addr_t) (msgs : list msg) (s : HevSocks5SessionUDP) : uprog (Z * HevSocks5SessionUDP) :=
  match msgs with
  | [] => Done (1, s)
  | (a, d) :: msgs =>
      ido src := of_outcome (source s saddr a) in
      match src with
      | None => Done (-1, s)
      | Some (ip, p) =>
          ido m := ask (RAllocPbuf s) in
          ido (b, h) := of_outcome (pbuf_alloc_reference (fun _ _ => mkChunk (ares m) []) d 0 (zlen d) PBUF_REF (heap s)) in
          let s := set_heap h s in
          if b =? NULL then Done (-1, s)
          else
            ido (_, s) := switch RLock s in
            ido e := ask (RUdpSendfrom d ip p) in
            ido _ := ask RUnlock in
            ido h := of_outcome (free_packet b (heap s)) in
            let s := set_heap h s in
            if negb (ares e =? ERR_OK) then Done (-1, s) else fwd_b_loop saddr msgs s
      end
  end.

Definition hev_socks5_session_udp_fwd_b (saddr : ip_addr_t) (s : HevSocks5SessionUDP) (num : Z)
    : uprog (Z * HevSocks5SessionUDP) :=
  ido (a, s) := switch (RRecvmmsg (fd s) num) s in
  if ares a <=? 0 then Done (if (ares a =? -1) && again a then 0 else -1, s)
  else fwd_b_loop saddr (take (Z.to_nat (ares a)) (amsgs a)) s.

(** ** The splice *)

(** [hev_socks5_task_io_yielder] (src/core/src/hev-socks5-misc.c) and the update of the
    tunnel's list of sessions, after a look at the connection of the association. *)
Definition task_io_yielder (wait : bool) (s : HevSocks5SessionUDP) : uprog (Z * HevSocks5SessionUDP) :=
  ido closed :=
    (if bool_decide (type s = Socks5.HEV_SOCKS5_TYPE_UDP_IN_UDP) then
       ido a := ask (RPeek (fd s)) in
       Done ((ares a =? 0) || (ares a <? 0) && negb (again a))
     else Done false) in
  if closed then Done (-1, set_timeout 0 s)
  else
    ido (res, s) :=
      (if negb wait then ido (_, s) := switch RYield s in Done (0, s)
       else if timeout s <? 0 then ido (_, s) := switch RWait s in Done (0, s)
       else
         ido (a, s) := switch (RSleep (timeout s)) s in
         Done (if ares a <=? 0 then -1 else 0, s)) in
    ido _ := ask RUpdateSession in
    Done (res, s).

Fixpoint splice_loop (fuel : nat) (saddr : ip_addr_t) (num : Z) (s : HevSocks5SessionUDP) (res_f res_b : Z)
    : uprog (option HevSocks5SessionUDP) :=
  match fuel with
  | O => Done None
  | S fuel =>
      ido (res_f, s) := (if res_f >=? 0 then hev_socks5_session_udp_fwd_f s num else Done (res_f, s)) in
      ido (res_b, s) := (if res_b >=? 0 then hev_socks5_session_udp_fwd_b saddr s num else Done (res_b, s)) in
      let again_ (wait : bool) :=
        ido (r, s) := task_io_yielder wait s in
        if negb (r =? 0) then Done (Some s) else splice_loop fuel saddr num s res_f res_b in
      if (res_f >? 0) || (res_b >? 0) then again_ false
      else if Z.land res_f res_b =? 0 then again_ true
      else Done (Some s)
  end.

(** [num] is the configured number of buffers; [ufd] the socket of the datagrams. *)
Definition hev_socks5_session_udp_splice (fuel : nat) (saddr : ip_addr_t) (num ufd : Z) (s : HevSocks5SessionUDP)
    : uprog (option HevSocks5SessionUDP) :=
  ido a := ask (RModFd ufd) in
  ido _ := (if ares a <? 0 then ask (RAddFd ufd) else Done a) in
  splice_loop fuel saddr num s 1 1.

(** ** Destruction *)

Fixpoint destruct_loop (fuel : nat) (s : HevSocks5SessionUDP) (node : Z) : outcome HevSocks5SessionUDP :=
  if node =? NULL then Val s
  else
    match fuel with
    | O => Fault
    | S fuel =>
        let! f := of_option (frames_at s !! node) in
        let! nx := HevList.hev_list_node_next (lnodes s) node in
        let! h := free_packet (f_data f) (heap s) in
        destruct_loop fuel
          (set_frames (frame_list s) (delete node (lnodes s)) (delete node (frames_at s)) h (frames s) s) nx
    end.

(** What follows is the destructor of the UDP client. *)
Definition hev_socks5_session_udp_destruct (s : HevSocks5SessionUDP) : uprog HevSocks5SessionUDP :=
  ido s := of_outcome (destruct_loop (S (size (frames_at s))) s (HevList.hev_list_first (frame_list s))) in
  ido (_, s) := switch RLock s in
  ido _ := (if pcb s then ask RUdpRemove else Done (mkAns 0 [] false [])) in
  ido _ := ask RUnlock in
  Done s.

(** ** Upstream address *)

Definition hev_socks5_addr_get_port (a : HevSocks5Addr) : outcome Z :=
  let! atype := rd a 0 in
  if atype =? SocksMisc.HEV_SOCKS5_ADDR_TYPE_IPV4 then ld16 a 5
  else if atype =? SocksMisc.HEV_SOCKS5_ADDR_TYPE_IPV6 then ld16 a 17
  else if atype =? SocksMisc.HEV_SOCKS5_ADDR_TYPE_NAME then
    let! n := rd a 1 in ld16 a (2 + n)
  else Val 0.

End session.

End SessionUDP.
