(* ===== verification/SessionUDPInv.v ===== *)
(** * What a UDP session does with datagrams

    The rules of the network stack and of the datagram layer, the sequences of datagrams
    as functions of a history, and the invariant that relates them to the session's list
    of frames and to the memory it owns. *)

From Stdlib Require Import ZArith Lia.
From stdpp Require Import base list gmap numbers.
From S2P Require Import Prelude CBytes HevList MappedDNS Pbuf PbufRep Interact SocketIO SocksMisc Socks5 LwipAddr SessionUDP.
Import list_basics.list list_relations.list list_monad.list list_misc.list.
Import Pbuf PbufRep Interact LwipAddr SessionUDP.

Module SessionUDPInv.

Abbreviation trace := (list (req * ans)).

(** A frame with its address and the buffers of its packet. *)
Abbreviation entry := (Z * HevSocks5UDPFrame * chain)%type.

Definition at_of (q : entry) : Z := fst (fst q).
Definition frame_of (q : entry) : HevSocks5UDPFrame := snd (fst q).
Definition chain_of (q : entry) : chain := snd q.

Definition addrs (qs : list entry) : list Z := at_of <$> qs.
Definition bufs_of (qs : list entry) : list Z := qs ≫= (fun q => (chain_of q).*1).

(** What a frame is forwarded as. *)
Definition msg_of (q : entry) : HevSocks5Addr * bytes :=
  (f_addr (frame_of q), match chain_of q with (_, n) :: _ => content n | [] => [] end).

(** The session owns the frames [qs], in this order, and their packets; [E] are the
    other buffers of its heap. *)
Record owns (E : gmap Z pbuf) (s : HevSocks5SessionUDP) (qs : list entry) : Prop := {
  o_list : HevList.dlist (lnodes s) (frame_list s) (addrs qs);
  o_frames : frames_at s = list_to_map (fst <$> qs);
  o_packets : Forall (fun q => packet (heap s) (f_data (frame_of q)) (chain_of q) /\
    all_owned (chain_of q) /\ chain_of q <> []) qs;
  o_apart : NoDup (bufs_of qs);
  o_extra : forall a, a ∉ bufs_of qs -> bufs (heap s) !! a = E !! a;
  o_fresh : forall a, a ∈ bufs_of qs -> E !! a = None;
  o_count : frames s = zlen qs;
  o_max : zlen qs <= UDP_POOL_SIZE + 1;
}.

(** ** Rules of the environment *)

Definition cb_ok (s : HevSocks5SessionUDP) (c : callback) : Prop :=
  match c with
  | CbRecv xs local lport mem raw dns =>
      match xs with
      | [] => True
      | _ =>
          packet (add_bufs xs (heap s)) (first_of xs) xs /\ all_owned xs /\
          Forall (fun x => bufs (heap s) !! fst x = None) xs /\
          frames_at s !! mem = None /\
          match hev_socks5_addr_from_lwip dns raw local lport with
          | Val (_, a, _) => 0 < zlen a
          | Fault => False
          end /\ 4 <= zlen (ip_mem local)
      end
  end.

Fixpoint cbs_ok (custom_free : Z -> PM unit) (s : HevSocks5SessionUDP) (l : list callback) : Prop :=
  match l with
  | [] => True
  | c :: l =>
      cb_ok s c /\
      match run_callback custom_free s c with
      | Val (_, s) => cbs_ok custom_free s l
      | Fault => True
      end
  end.

Section rules.
Context (custom_free : Z -> PM unit).

(** Delivered datagrams have an address and fit their buffer. *)
Definition msg_ok (m : msg) : Prop :=
  match fst m with
  | Some a => 19 <= zlen a
  | None => False
  end /\ zlen (snd m) <= UDP_BUF_SIZE.

Definition allowed (h : trace) (q : req) (a : ans) : Prop :=
  match q with
  | RSendmmsg _ msgs s => ares a <= zlen msgs /\ cbs_ok custom_free s (calls a)
  | RRecvmmsg _ num s => Forall msg_ok (amsgs a) /\ cbs_ok custom_free s (calls a)
  | RLock s | RYield s | RWait s | RSleep _ s => cbs_ok custom_free s (calls a)
  | RAllocPbuf s => bufs (heap s) !! ares a = None
  | _ => True
  end.

(** ** Datagrams of a history *)

Definition calls_of (e : req * ans) : list (HevSocks5Addr * bytes) :=
  match fst e with
  | RSendmmsg _ _ s | RRecvmmsg _ _ s | RLock s | RYield s | RWait s | RSleep _ s =>
      match run_callbacks custom_free s (calls (snd e)) with
      | Val (l, _) => l
      | Fault => []
      end
  | _ => []
  end.

(** Taken over from the stack, and taken by the server's socket. *)
Definition arrived (h : trace) : list (HevSocks5Addr * bytes) := h ≫= calls_of.
Definition sent (h : trace) : list (HevSocks5Addr * bytes) :=
  h ≫= (fun e => match fst e with RSendmmsg _ msgs _ => take (Z.to_nat (ares (snd e))) msgs | _ => [] end).

(** Every batch offers the datagrams that follow those already sent. *)
Definition guard (h : trace) (q : req) : Prop :=
  match q with
  | RSendmmsg _ msgs _ => exists rest, arrived h = sent h ++ msgs ++ rest
  | _ => True
  end.

Lemma arrived_app h1 h2 : arrived (h1 ++ h2) = arrived h1 ++ arrived h2.
Proof. apply bind_app. Qed.
Lemma udp_sent_app h1 h2 : sent (h1 ++ h2) = sent h1 ++ sent h2.
Proof. apply bind_app. Qed.

End rules.

(** ** Lemmas on frames *)

Lemma bufs_of_cons q qs : bufs_of (q :: qs) = (chain_of q).*1 ++ bufs_of qs.
Proof. done. Qed.

Lemma bufs_of_app qs rs : bufs_of (qs ++ rs) = bufs_of qs ++ bufs_of rs.
Proof. apply bind_app. Qed.

Lemma addrs_fst (qs : list entry) : (fst <$> qs).*1 = addrs qs.
Proof. unfold addrs, at_of. by rewrite <- list_fmap_compose. Qed.

Lemma addrs_nodup E s qs : owns E s qs -> NoDup (addrs qs).
Proof. by intros [[H _]]. Qed.

(** Frames and their packets do not depend on the rest of the heap. *)
Lemma packets_frame h h' (qs : list entry) :
  (forall a, a ∈ bufs_of qs -> bufs h' !! a = bufs h !! a) ->
  Forall (fun q => packet h (f_data (frame_of q)) (chain_of q) /\ all_owned (chain_of q) /\ chain_of q <> []) qs ->
  Forall (fun q => packet h' (f_data (frame_of q)) (chain_of q) /\ all_owned (chain_of q) /\ chain_of q <> []) qs.
Proof.
  intros Hf H. induction H as [|q qs (Hp & Ho & Hn) _ IH]; [done|]. rewrite bufs_of_cons in Hf. constructor.
  - split; [|done]. eapply packet_frame; [|exact Hp]. intros a Ha. apply Hf, elem_of_app. by left.
  - apply IH. intros a Ha. apply Hf, elem_of_app. by right.
Qed.

Lemma bufs_in_heap E s qs a : owns E s qs -> a ∈ bufs_of qs -> is_Some (bufs (heap s) !! a).
Proof.
  intros O Ha. apply list_elem_of_bind in Ha as (q & Ha & Hq). pose proof (o_packets _ _ _ O) as Hp.
  rewrite Forall_forall in Hp. destruct (Hp q Hq) as (Hpk & _). apply list_elem_of_fmap in Ha as ([b n] & -> & Hin).
  exists n. by eapply pseg_lookup; [apply Hpk|].
Qed.

Section lemmas.
Context (custom_free : Z -> PM unit).

Lemma free_packet_ok h p xs :
  packet h p xs -> all_owned xs -> xs <> [] ->
  exists h', free_packet custom_free p h = Val h' /\
    (forall a, a ∈ xs.*1 -> bufs h' !! a = None) /\ (forall a, a ∉ xs.*1 -> bufs h' !! a = bufs h !! a).
Proof.
  intros Hp Ho Hn. unfold free_packet.
  destruct (pbuf_free_ok custom_free (fuel_of h) h p xs) as (c & h' & -> & H); [done..|by apply Nat.lt_le_incl, (chain_fuel _ _ _ Hp)|].
  by exists h'.
Qed.

(** Only the contents of the heap matter. *)
Lemma owns_heap E s qs h : owns E s qs -> (forall a, bufs h !! a = bufs (heap s) !! a) -> owns E (set_heap h s) qs.
Proof.
  intros [O1 O2 O3 O4 O5 O6 O7 O8] Hh. constructor; try done.
  - eapply packets_frame; [|exact O3]. intros a _. apply Hh.
  - intros a Ha. cbn. rewrite Hh. by apply O5.
Qed.

(** A delivery that is freed at once leaves the heap as it was. *)
Lemma drop_ok E s qs xs :
  owns E s qs -> xs <> [] -> packet (add_bufs xs (heap s)) (first_of xs) xs -> all_owned xs ->
  Forall (fun x => bufs (heap s) !! fst x = None) xs ->
  exists h', free_packet custom_free (first_of xs) (add_bufs xs (heap s)) = Val h' /\ owns E (set_heap h' s) qs.
Proof.
  intros O Hn Hp Ho Hf. destruct (free_packet_ok _ _ _ Hp Ho Hn) as (h' & E' & Hin & Hout). exists h'. split; [done|].
  apply owns_heap; [done|]. intros a. destruct (decide (a ∈ xs.*1)) as [Ha|Ha].
  - rewrite Hin by done. apply list_elem_of_fmap in Ha as (x & -> & Hx). rewrite Forall_forall in Hf. by rewrite Hf.
  - rewrite Hout by done. by apply add_bufs_old.
Qed.

Lemma add_frame_ok E s qs xs mem f :
  owns E s qs -> zlen qs <= UDP_POOL_SIZE -> mem <> NULL -> frames_at s !! mem = None ->
  xs <> [] -> packet (add_bufs xs (heap s)) (f_data f) xs -> all_owned xs ->
  Forall (fun x => bufs (heap s) !! fst x = None) xs ->
  exists l n, HevList.hev_list_add_tail (frame_list s) (<[mem := HevList.mkLNode 0 0]> (lnodes s)) mem = Val (l, n) /\
    owns E (set_frames l n (<[mem := f]> (frames_at s)) (add_bufs xs (heap s)) (frames s + 1) s) (qs ++ [(mem, f, xs)]).
Proof.
  intros O Hz Hm Hfr Hn Hp Ho Hf. pose proof O as [O1 O2 O3 O4 O5 O6 O7 O8].
  assert (mem ∉ addrs qs) as Hni.
  { rewrite <- addrs_fst. apply not_elem_of_list_to_map_2. by rewrite <- O2. }
  assert (forall a, a ∈ xs.*1 -> a ∉ bufs_of qs) as Hap.
  { intros a Ha Hb. destruct (bufs_in_heap _ _ _ _ O Hb) as [n En]. apply list_elem_of_fmap in Ha as (x & -> & Hx).
    rewrite Forall_forall in Hf. by rewrite Hf in En. }
  destruct (HevList.add_tail_ok (<[mem := HevList.mkLNode 0 0]> (lnodes s)) (frame_list s) (addrs qs) mem (HevList.mkLNode 0 0))
    as (l & n & -> & Hl & _); [|done..|by rewrite lookup_insert_eq|].
  { destruct O1 as [Hnd Hs]. split; [done|]. eapply HevList.dseg_frame; [|exact Hs]. intros x Hx.
    rewrite lookup_insert_ne; [done|]. by intros ->. }
  exists l, n. split; [done|]. constructor.
  - unfold addrs. rewrite fmap_app. exact Hl.
  - cbn [frames_at set_frames]. rewrite O2, fmap_app. cbn. rewrite list_to_map_snoc; [done|]. by rewrite addrs_fst.
  - apply Forall_app. split; [|constructor; [by split_and!|constructor]]. eapply packets_frame; [|exact O3].
    intros a Ha. apply add_bufs_old. intros Hx. by apply (Hap a).
  - rewrite bufs_of_app. apply NoDup_app. split; [done|]. cbn. rewrite app_nil_r. split; [|apply Hp].
    intros a Ha Hx. by apply (Hap a).
  - intros a Ha. rewrite bufs_of_app in Ha. apply not_elem_of_app in Ha as [Ha Hb]. cbn in Hb. rewrite app_nil_r in Hb.
    cbn [heap set_frames]. rewrite add_bufs_old by done. by apply O5.
  - intros a Ha. rewrite bufs_of_app in Ha. apply elem_of_app in Ha as [Ha|Ha]; [by apply O6|]. cbn in Ha.
    rewrite app_nil_r in Ha. rewrite <- O5 by (by apply Hap). apply list_elem_of_fmap in Ha as (x & -> & Hx).
    rewrite Forall_forall in Hf. by apply Hf.
  - cbn [frames set_frames]. rewrite O7, zlen_app. done.
  - rewrite zlen_app. change (zlen [_]) with 1. lia.
Qed.

Lemma owns_source E s qs a p : owns E s qs -> owns E (set_source a p s) qs.
Proof. by intros []. Qed.

Lemma ld32_ok b : 4 <= zlen b -> exists v, ld32 b 0 = Val v.
Proof.
  intros H. unfold ld32. destruct (ld16_ok b 0) as [v ->]; [lia..|]. cbn [obind].
  destruct (ld16_ok b (0 + 2)) as [w ->]; [lia..|]. by eexists.
Qed.

Lemma udp_callback_ok E s qs c :
  owns E s qs -> cb_ok s c ->
  exists l s' qs', run_callback custom_free s c = Val (l, s') /\ owns E s' qs' /\
    msg_of <$> qs' = (msg_of <$> qs) ++ l /\ fd s' = fd s.
Proof.
  intros O Hc. destruct c as [xs local lport mem raw dns]. cbn [run_callback]. unfold udp_recv_handler.
  destruct xs as [|[x n] xs].
  { cbn [first_of obind]. rewrite Z.eqb_refl, add_bufs_nil. cbn [obind]. exists [], (hev_socks5_session_terminate (set_heap (heap s) s)), qs.
    unfold taken. cbn [frames hev_socks5_session_terminate hev_task_wakeup set_woken set_timeout set_heap set_frames].
    rewrite Z.ltb_irrefl, app_nil_r. split; [done|]. split; [by destruct O|done]. }
  set (xs' := (x, n) :: xs) in *. destruct Hc as (Hp & Ho & Hf & Hfr & Ha & Hip).
  pose proof (packet_cons _ _ _ _ _ Hp) as (_ & Hx & _). change (first_of xs') with x in *. rewrite neqb by done.
  destruct (drop_ok E s qs xs' O ltac:(done) Hp Ho Hf) as (h' & Eh & Oh). change (first_of xs') with x in Eh.
  assert (exists l s' qs', (let! (s', _) := (let! h := free_packet custom_free x (add_bufs xs' (heap s)) in
      Val (set_heap h (set_heap (add_bufs xs' (heap s)) s), dns)) in Val (taken s s' mem xs', s')) = Val (l, s') /\
    owns E s' qs' /\ msg_of <$> qs' = (msg_of <$> qs) ++ l /\ fd s' = fd s) as Hdrop.
  { rewrite Eh. cbn [obind]. exists [], (set_heap h' s), qs. unfold taken. cbn [frames set_heap set_frames].
    rewrite Z.ltb_irrefl, app_nil_r. done. }
  cbn [frames heap set_heap set_frames]. rewrite Z.gtb_ltb. destruct (Z.ltb_spec UDP_POOL_SIZE (frames s)) as [Hg|Hg]; [exact Hdrop|].
  destruct (Z.eqb_spec mem NULL) as [Hm|Hm]; [exact Hdrop|]. clear Hdrop Oh Eh h'.
  destruct (hev_socks5_addr_from_lwip dns raw local lport) as [[[r a] dns']|]; [|done]. cbn [obind].
  assert (exists at_, rd a 0 = Val at_) as [at_ ->] by (destruct a; [change (zlen []) with 0 in Ha; lia|by eexists]). cbn [obind].
  destruct (ld32_ok (ip_mem local) Hip) as [v Ev]. rewrite Ev. cbn [obind].
  set (s1 := if at_ =? SocksMisc.HEV_SOCKS5_ADDR_TYPE_NAME then set_source v lport s else s).
  assert (owns E s1 qs) as O1 by (unfold s1; destruct (_ =? _); [by apply owns_source|done]).
  assert (frames_at s1 = frames_at s /\ heap s1 = heap s /\ frames s1 = frames s /\ fd s1 = fd s) as (Ef & Eh & Ec & Efd)
    by (unfold s1; by destruct (_ =? _)).
  destruct (add_frame_ok E s1 qs xs' mem (mkFrame a x) O1) as (l & nn & El & O2); [by rewrite <- (o_count _ _ _ O)|done|by rewrite Ef| |by rewrite Eh|done|by rewrite Eh|].
  { done. }
  replace (if at_ =? SocksMisc.HEV_SOCKS5_ADDR_TYPE_NAME
    then Val (set_source v lport (set_heap (add_bufs xs' (heap s)) s)) else Val (set_heap (add_bufs xs' (heap s)) s))
    with (Val (set_heap (add_bufs xs' (heap s1)) s1)) by (rewrite Eh; unfold s1; by destruct (_ =? _)).
  cbn [obind frame_list lnodes frames_at heap frames set_heap set_frames]. rewrite El. cbn [obind].
  do 2 eexists. exists (qs ++ [(mem, mkFrame a x, xs')]). split; [reflexivity|]. split; [by destruct O2|].
  unfold taken. cbn [frames frames_at hev_task_wakeup set_woken set_frames]. rewrite Ec, (proj2 (Z.ltb_lt _ _)) by lia.
  rewrite lookup_insert_eq. by rewrite fmap_app.
Qed.

Lemma udp_callbacks_ok E l : forall s qs,
  owns E s qs -> cbs_ok custom_free s l ->
  exists m s' qs', run_callbacks custom_free s l = Val (m, s') /\ owns E s' qs' /\
    msg_of <$> qs' = (msg_of <$> qs) ++ m /\ fd s' = fd s.
Proof.
  induction l as [|c l IH]; intros s qs O Hl; [exists [], s, qs; by rewrite app_nil_r|]. destruct Hl as [Hc Hl].
  destruct (udp_callback_ok E s qs c O Hc) as (m & s1 & qs1 & E1 & O1 & M1 & F1). cbn [run_callbacks]. rewrite E1 in Hl |- *.
  cbn [obind]. destruct (IH s1 qs1 O1 Hl) as (m2 & s2 & qs2 & -> & O2 & M2 & F2). cbn [obind].
  exists (m ++ m2), s2, qs2. split_and!; try done; [by rewrite M2, M1, app_assoc|congruence].
Qed.

Lemma head_ok E s q qs : owns E s (q :: qs) ->
  HevList.hev_list_first (frame_list s) = at_of q /\ at_of q <> 0 /\ frames_at s !! at_of q = Some (frame_of q).
Proof.
  intros [[Hnd Hs] O2 _ _ _ _ _ _]. cbn in Hs. destruct Hs as (Eh & Hn & _). split_and!; [done..|].
  rewrite O2. destruct q as [[a f] xs]. cbn. apply lookup_insert_eq.
Qed.

Lemma pop_ok E s q qs : owns E s (q :: qs) -> exists s', pop_frame custom_free s = Val s' /\ owns E s' qs /\ fd s' = fd s.
Proof.
  intros O. destruct (head_ok _ _ _ _ O) as (Eh & Hn & Ef). pose proof O as [O1 O2 O3 O4 O5 O6 O7 O8].
  unfold pop_frame. rewrite Eh, Ef. cbn [of_option obind].
  destruct (HevList.del_ok (lnodes s) (frame_list s) (addrs (q :: qs)) (at_of q)) as (l & n & -> & Hl & _); [done|by left|].
  cbn [obind]. apply Forall_cons in O3 as [(Hp & Ho & Hne) O3].
  destruct (free_packet_ok (heap s) _ _ Hp Ho Hne) as (h' & -> & Hin & Hout). cbn [obind].
  eexists. split; [reflexivity|]. split; [|done]. rewrite bufs_of_cons in *.
  apply NoDup_app in O4 as (_ & Hap & O4). destruct O1 as [Hnd _].
  pose proof (HevList.seq_del_middle [] (at_of q) (addrs qs) Hnd) as Ed. cbn [app] in Ed.
  change (addrs (q :: qs)) with (at_of q :: addrs qs) in *. apply NoDup_cons in Hnd as [Hni Hnd].
  rewrite Ed in Hl. constructor; cbn [frame_list lnodes frames_at heap frames set_frames].
  - destruct Hl as [_ Hs]. split; [done|]. eapply HevList.dseg_frame; [|exact Hs]. intros x Hx.
    rewrite lookup_delete_ne; [done|]. by intros <-.
  - rewrite O2. destruct q as [[a f] xs]. cbn. rewrite delete_insert_id; [done|].
    apply not_elem_of_list_to_map_1. by rewrite addrs_fst.
  - eapply packets_frame; [|exact O3]. intros a Ha. apply Hout. intros Hb. by apply (Hap a).
  - done.
  - intros a Ha. destruct (decide (a ∈ (chain_of q).*1)) as [Hb|Hb].
    + rewrite Hin by done. symmetry. apply O6, elem_of_app. by left.
    + rewrite Hout by done. apply O5. by apply not_elem_of_app.
  - intros a Ha. apply O6, elem_of_app. by right.
  - rewrite O7, zlen_cons. lia.
  - rewrite zlen_cons in O8. lia.
Qed.

Lemma pop_frames_ok E n : forall s qs, owns E s qs -> (n <= length qs)%nat ->
  exists s', pop_frames custom_free n s = Val s' /\ owns E s' (drop n qs) /\ fd s' = fd s.
Proof.
  induction n as [|n IH]; intros s qs O Hn; [by exists s|]. destruct qs as [|q qs]; [cbn in Hn; lia|].
  destruct (pop_ok E s q qs O) as (s1 & E1 & O1 & F1). cbn [pop_frames]. rewrite E1. cbn [obind].
  destruct (IH s1 qs O1) as (s2 & -> & O2 & F2); [cbn in Hn; lia|]. exists s2. split_and!; [done..|congruence].
Qed.

(** The messages of the first frames; [pre] are the frames already visited. *)
Lemma frame_msgs_ok E s qs : forall n pre node pn,
  owns E s (pre ++ qs) -> HevList.dseg (lnodes s) pn node (addrs qs) (HevList.tail (frame_list s)) 0 -> (n <= length qs)%nat ->
  frame_msgs n s node = Val (take n (msg_of <$> qs)).
Proof.
  induction qs as [|q qs IH]; intros n pre node pn O Hs Hn; [by destruct n; [|cbn in Hn; lia]|].
  destruct n as [|n]; [done|]. destruct Hs as (-> & Hq & r & Er & Hs). cbn [frame_msgs].
  assert (frames_at s !! at_of q = Some (frame_of q)) as ->.
  { rewrite (o_frames _ _ _ O). apply elem_of_list_to_map_1; [rewrite addrs_fst; by eapply addrs_nodup|].
    rewrite fmap_app. apply elem_of_app. right. destruct q as [[a f] xs]. left. }
  cbn [of_option obind]. unfold HevList.hev_list_node_next, HevList.load.
  assert (lnodes s !! at_of q = Some (HevList.mkLNode r pn)) as -> by exact Er. cbn [of_option obind HevList.next].
  pose proof (o_packets _ _ _ O) as Hp. apply Forall_app in Hp as [_ [(Hp & _ & Hne) _]%Forall_cons].
  destruct (chain_of q) as [|[a b] xs] eqn:Ex; [done|]. pose proof (packet_cons _ _ _ _ _ Hp) as (Ea & _ & Eb & Hok & _).
  rewrite Ea, (load_ok _ _ _ Eb). cbn [obind]. pose proof Hok as (_ & Hl & _). rewrite read_payload_ok by (done || lia). cbn [obind].
  rewrite (IH n (pre ++ [q]) r (at_of q)); [|by rewrite <- app_assoc|exact Hs|cbn in Hn; lia]. cbn [obind].
  cbn [fmap list_fmap take]. unfold msg_of at 2. rewrite Ex. do 3 f_equal.
  unfold slice. change (Z.to_nat 0) with 0%nat. rewrite drop_0, take_ge; [done|].
  pose proof (zlen_content b Hok) as El. unfold zlen in El. lia.
Qed.

(** ** Programs *)

Abbreviation wps := (Interact.wp (allowed custom_free) (guard custom_free)).

Definition inv (E : gmap Z pbuf) (h : trace) (s : HevSocks5SessionUDP) : Prop :=
  exists qs, owns E s qs /\ arrived custom_free h = sent h ++ (msg_of <$> qs).

Lemma owns_woken E s qs b : owns E s qs -> owns E (set_woken b s) qs.
Proof. by intros []. Qed.

(** The requests that let the stack run and send nothing. *)
Definition switching (q : HevSocks5SessionUDP -> req) : Prop :=
  q = RLock \/ q = RYield \/ q = RWait \/ (exists t, q = RSleep t) \/ exists f n, q = RRecvmmsg f n.

Lemma udp_switch_wp E h s q Q :
  switching q -> inv E h s ->
  (forall a s' h', inv E h' s' -> fd s' = fd s -> (forall f n, q = RRecvmmsg f n -> Forall msg_ok (amsgs a)) -> Q (a, s') h') ->
  wps (switch custom_free q s) Q h.
Proof.
  intros Hq (qs & O & Ea) HQ. unfold switch. apply wp_pbind. apply (owns_woken _ _ _ false) in O.
  change (fd s) with (fd (set_woken false s)) in HQ. set (s0 := set_woken false s) in *. cbn [Interact.wp ask].
  split; [by destruct Hq as [->|[->|[->|[[t ->]|(f & n & ->)]]]]|]. intros a Ha.
  assert (cbs_ok custom_free s0 (calls a)) as Hc by (destruct Hq as [->|[->|[->|[[t ->]|(f & n & ->)]]]]; [done..|apply Ha]).
  destruct (udp_callbacks_ok E _ _ _ O Hc) as (m & s' & qs' & E' & O' & M & F).
  cbn [pbind Interact.wp]. rewrite E'. cbn [of_outcome pbind Interact.wp]. apply HQ; [|done|].
  - exists qs'. split; [done|]. rewrite arrived_app, udp_sent_app, M, Ea.
    assert (arrived custom_free [(q s0, a)] = m /\ sent [(q s0, a)] = []) as [-> ->].
    { unfold arrived, sent, calls_of. by destruct Hq as [->|[->|[->|[[t ->]|(f & n & ->)]]]]; cbn; rewrite E', ?app_nil_r. }
    by rewrite app_nil_r, app_assoc.
  - intros f n Hr. rewrite Hr in Ha. apply Ha.
Qed.

Lemma fwd_f_wp h s num Q :
  0 < num -> inv ∅ h s ->
  (forall res s' h', inv ∅ h' s' -> Q (res, s') h') -> wps (hev_socks5_session_udp_fwd_f custom_free s num) Q h.
Proof.
  intros Hn Hi HQ. unfold hev_socks5_session_udp_fwd_f. destruct (Z.leb_spec (frames s) 0); [by apply HQ|].
  destruct Hi as (qs & O & Ea). pose proof (o_count _ _ _ O) as Ec.
  set (res := if frames s >? num then num else frames s).
  assert (0 < res <= zlen qs) as Hres by (unfold res; destruct (Z.gtb_spec (frames s) num); lia).
  apply wp_pbind. destruct (o_list _ _ _ O) as [_ Hs].
  rewrite (frame_msgs_ok ∅ s qs (Z.to_nat res) [] (HevList.hev_list_first (frame_list s)) 0 O Hs) by (unfold zlen in Hres; lia).
  cbn [of_outcome Interact.wp]. set (msgs := take (Z.to_nat res) (msg_of <$> qs)).
  apply wp_pbind. unfold switch. apply wp_pbind. apply (owns_woken _ _ _ false) in O. set (s0 := set_woken false s) in *.
  cbn [Interact.wp ask guard]. split; [exists (drop (Z.to_nat res) (msg_of <$> qs)); rewrite Ea; unfold msgs; by rewrite take_drop|].
  intros a [Ha Hc]. destruct (udp_callbacks_ok ∅ _ _ _ O Hc) as (m & s' & qs' & E' & O' & M & F).
  cbn [pbind Interact.wp]. rewrite E'. cbn [of_outcome pbind Interact.wp].
  set (h1 := h ++ _). assert (arrived custom_free h1 = sent h ++ (msg_of <$> qs') /\ sent h1 = sent h ++ take (Z.to_nat (ares a)) msgs) as [Ea1 Es1].
  { unfold h1. rewrite arrived_app, udp_sent_app, M, Ea. unfold arrived, sent, calls_of. cbn. by rewrite E', !app_nil_r, app_assoc. }
  destruct (Z.leb_spec (ares a) 0) as [Hle|Hgt].
  - apply HQ. exists qs'. split; [done|]. rewrite Ea1, Es1. replace (Z.to_nat (ares a)) with 0%nat by lia. by rewrite take_0, app_nil_r.
  - assert (length msgs = Z.to_nat res) as Hlm.
    { unfold msgs. rewrite length_take, length_fmap. unfold zlen in Hres. lia. }
    assert (length qs <= length qs')%nat as Hqs.
    { apply (f_equal length) in M. rewrite length_app, !length_fmap in M. lia. }
    unfold zlen in Ha, Hres. destruct (pop_frames_ok ∅ (Z.to_nat (ares a)) s' qs' O') as (s2 & -> & O2 & _); [lia|].
    cbn [of_outcome pbind Interact.wp]. apply HQ. exists (drop (Z.to_nat (ares a)) qs'). split; [done|].
    rewrite Ea1, Es1, <- app_assoc. f_equal. rewrite <- (take_drop (Z.to_nat (ares a)) (msg_of <$> qs')) at 1.
    rewrite fmap_drop. f_equal. unfold msgs. rewrite M, take_take, take_app_le by (rewrite length_fmap; lia). f_equal. lia.
Qed.

(** ** Backward *)

Lemma into_lwip_total a ip q : 19 <= zlen a -> 16 <= zlen (ip_mem ip) ->
  exists r ip' p, hev_socks5_addr_into_lwip a ip q = Val (r, ip', p).
Proof.
  intros Ha Hi. unfold hev_socks5_addr_into_lwip.
  assert (exists t, rd a 0 = Val t) as [t ->] by (destruct a; [change (zlen []) with 0 in Ha; lia|by eexists]). cbn [obind].
  assert (forall k, 0 <= k <= 16 -> exists m, get_n a 1 k = Val m /\ zlen m = k) as Hg.
  { intros k Hk. unfold get_n. rewrite bool_decide_true by lia. eexists. split; [done|]. unfold zlen in *. rewrite length_slice; lia. }
  assert (forall m, zlen m <= 16 -> exists m', put_n (ip_mem ip) 0 m = Val m') as Hput.
  { intros m Hm. unfold put_n. rewrite bool_decide_true by lia. by eexists. }
  destruct (t =? _); [|destruct (t =? _); [|by do 3 eexists]].
  - destruct (Hg 4) as (m & -> & Hm); [lia|]. cbn [obind]. destruct (Hput m) as [m' ->]; [lia|]. cbn [obind].
    destruct (ld16_ok a 5) as [v ->]; [lia..|]. by do 3 eexists.
  - destruct (Hg 16) as (m & -> & Hm); [lia|]. cbn [obind]. destruct (Hput m) as [m' ->]; [lia|]. cbn [obind].
    destruct (ld16_ok a 17) as [v ->]; [lia..|]. by do 3 eexists.
Qed.

Lemma source_ok s saddr a : 20 <= zlen (ip_mem saddr) -> 19 <= zlen a -> exists r, source s saddr (Some a) = Val r.
Proof.
  intros Hi Ha. unfold source. destruct (_ && _).
  - unfold put_n. rewrite bool_decide_true by (change (zlen (le32 (addr s))) with 4; lia). by eexists.
  - cbn [of_option obind]. destruct (into_lwip_total a saddr 0) as (r & ip & p & ->); [lia..|]. cbn [obind].
    destruct (r <? 0); by eexists.
Qed.

Lemma owns_add s qs b n :
  owns ∅ s qs -> bufs (heap s) !! b = None ->
  owns {[b := n]} (set_heap (set_bufs (<[b := n]> (bufs (heap s))) (heap s)) s) qs.
Proof.
  intros O Hb. pose proof O as [O1 O2 O3 O4 O5 O6 O7 O8].
  assert (forall a, a ∈ bufs_of qs -> a <> b) as Hne.
  { intros a Ha ->. destruct (bufs_in_heap _ _ _ _ O Ha) as [x Hx]. congruence. }
  constructor; try done.
  - eapply packets_frame; [|exact O3]. intros a Ha. cbn. apply lookup_insert_ne. intros <-. by apply (Hne b).
  - intros a Ha. cbn. destruct (decide (a = b)) as [->|Hab]; [by rewrite lookup_insert_eq, lookup_singleton_eq|].
    rewrite lookup_insert_ne, lookup_singleton_ne by done. rewrite O5 by done. done.
  - intros a Ha. apply lookup_singleton_ne. intros <-. by apply (Hne b).
Qed.

Lemma owns_del s qs b n h' :
  owns {[b := n]} s qs -> bufs h' !! b = None -> (forall a, a <> b -> bufs h' !! a = bufs (heap s) !! a) ->
  owns ∅ (set_heap h' s) qs.
Proof.
  intros O Hb Hfr. pose proof O as [O1 O2 O3 O4 O5 O6 O7 O8].
  assert (b ∉ bufs_of qs) as Hni.
  { intros Hin. specialize (O6 b Hin). by rewrite lookup_singleton_eq in O6. }
  constructor; try done.
  - eapply packets_frame; [|exact O3]. intros a Ha. apply Hfr. by intros ->.
  - intros a Ha. cbn. destruct (decide (a = b)) as [->|Hab]; [done|].
    rewrite Hfr, O5 by done. by apply lookup_singleton_ne.
Qed.

Lemma owns_extra s qs b n : owns {[b := n]} s qs -> bufs (heap s) !! b = Some n.
Proof.
  intros [O1 O2 O3 O4 O5 O6 O7 O8]. rewrite O5; [apply lookup_singleton_eq|].
  intros Hin. specialize (O6 b Hin). by rewrite lookup_singleton_eq in O6.
Qed.

(** A request that touches no datagram of this direction. *)
Definition quiet (q : req) : Prop :=
  match q with
  | RPeek _ | RModFd _ | RAddFd _ | RAllocPbuf _ | RUnlock | RUdpSendfrom _ _ _ | RUdpRemove | RUpdateSession => True
  | _ => False
  end.

Lemma udp_quiet_inv E h q a s : quiet q -> inv E h s -> inv E (h ++ [(q, a)]) s.
Proof.
  intros Hq (qs & O & Ea). exists qs. split; [done|]. rewrite arrived_app, udp_sent_app, Ea. by destruct q; cbn; rewrite ?app_nil_r.
Qed.

Lemma ask_wp {B} E h s q (k : ans -> prog req ans B) Q :
  quiet q -> inv E h s -> (forall a h', allowed custom_free h q a -> inv E h' s -> wps (k a) Q h') ->
  wps (ido a := ask q in k a) Q h.
Proof.
  intros Hq Hi HQ. apply wp_pbind. cbn [ask Interact.wp]. split; [by destruct q|]. intros a Ha. cbn [Interact.wp].
  apply HQ; [done|]. by apply udp_quiet_inv.
Qed.

(** The buffer that refers to a datagram of the server. *)
Definition ref_buf (d : bytes) : pbuf := mkPbuf NULL 0 (zlen d) (zlen d) (u8 PBUF_REF) 0 1 0 d.

Lemma alloc_reference_ok a d h :
  pbuf_alloc_reference (fun _ _ => mkChunk a []) d 0 (zlen d) PBUF_REF h =
    if a =? NULL then Val (NULL, h) else Val (a, set_bufs (<[a := ref_buf d]> (bufs h)) h).
Proof.
  unfold pbuf_alloc_reference, sbind. change ((PBUF_REF =? PBUF_REF) || (PBUF_REF =? PBUF_ROM)) with true.
  cbn [LWIP_ASSERT sret at_]. by destruct (a =? NULL).
Qed.

Lemma ref_packet h b d : b <> NULL -> zlen d <= 0xFFFF -> bufs h !! b = Some (ref_buf d) ->
  packet h b [(b, ref_buf d)] /\ all_owned [(b, ref_buf d)].
Proof.
  intros Hb Hd Eb. pose proof (zlen_nonneg d). split; [|by repeat constructor].
  assert (buf_ok (ref_buf d)) as Hok by (unfold buf_ok; cbn; lia).
  assert (zlen (data [(b, ref_buf d)]) = zlen d) as El by (rewrite data_cons, app_nil_r; by rewrite zlen_content).
  constructor; [done|apply NoDup_singleton|by constructor|by split|lia].
Qed.

Lemma fwd_b_loop_wp saddr msgs : forall h s Q,
  20 <= zlen (ip_mem saddr) -> Forall msg_ok msgs -> inv ∅ h s ->
  (forall res s' h', inv ∅ h' s' -> Q (res, s') h') -> wps (fwd_b_loop custom_free saddr msgs s) Q h.
Proof.
  induction msgs as [|[a d] msgs IH]; intros h s Q Hs Hm Hi HQ; cbn [fwd_b_loop]; [by apply HQ|].
  apply Forall_cons in Hm as [[Ha Hd] Hm]. cbn [fst snd] in *. destruct a as [a|]; [|done]. unfold UDP_BUF_SIZE in *.
  apply wp_pbind. destruct (source_ok s saddr a Hs Ha) as [r ->]. cbn [of_outcome Interact.wp].
  destruct r as [[ip p]|]; [|by apply HQ]. eapply ask_wp; [done|exact Hi|]. intros m h1 Hal Hi1. cbn [allowed] in Hal. clear h Hi.
  apply wp_pbind. rewrite alloc_reference_ok. destruct (Z.eqb_spec (ares m) NULL) as [Hb|Hb]; cbn [of_outcome Interact.wp].
  { rewrite Z.eqb_refl. apply HQ. destruct Hi1 as (qs & O & Ea). exists qs. split; [|done]. by apply owns_heap. }
  rewrite neqb by done.
  destruct Hi1 as (qs & O & Ea). pose proof (owns_add s qs (ares m) (ref_buf d) O Hal) as O1.
  apply wp_pbind. eapply udp_switch_wp; [by left|by exists qs|]. clear h1 Ea qs O O1.
  intros a1 s1 h1 Hi1 _ _. eapply ask_wp; [done|exact Hi1|]. intros e h2 _ Hi2.
  eapply ask_wp; [done|exact Hi2|]. intros _u h _ (qs & O & Ea).
  destruct (ref_packet (heap s1) (ares m) d) as [Hp Ho]; [done|lia|by eapply owns_extra|].
  destruct (free_packet_ok (heap s1) _ _ Hp Ho) as (h' & -> & Hin & Hout); [done|]. cbn [of_outcome pbind].
  assert (inv ∅ h (set_heap h' s1)) as Hi.
  { exists qs. split; [|done]. eapply owns_del; [exact O|apply Hin; by left|]. intros c Hc. apply Hout. by intros ->%list_elem_of_singleton. }
  destruct (negb (ares e =? ERR_OK)); [by apply HQ|by apply IH].
Qed.

Lemma fwd_b_wp saddr h s num Q :
  20 <= zlen (ip_mem saddr) -> inv ∅ h s ->
  (forall res s' h', inv ∅ h' s' -> Q (res, s') h') -> wps (hev_socks5_session_udp_fwd_b custom_free saddr s num) Q h.
Proof.
  intros Hs Hi HQ. unfold hev_socks5_session_udp_fwd_b. apply wp_pbind.
  eapply udp_switch_wp; [unfold switching; eauto 9|exact Hi|]. intros a s1 h1 Hi1 _ Hm. specialize (Hm _ _ eq_refl).
  destruct (ares a <=? 0); [by apply HQ|]. apply fwd_b_loop_wp; [done| |done|done]. by apply Forall_take.
Qed.

Lemma inv_timeout E h s t : inv E h s -> inv E h (set_timeout t s).
Proof. intros (qs & O & Ea). exists qs. split; [by destruct O|done]. Qed.

Lemma udp_yielder_wp h s w Q :
  inv ∅ h s -> (forall a s' h', inv ∅ h' s' -> Q (a, s') h') -> wps (task_io_yielder custom_free w s) Q h.
Proof.
  intros Hi HQ. unfold task_io_yielder. apply wp_pbind.
  apply (wp_impl _ _ _ (fun _ h' => inv ∅ h' s)).
  { destruct (bool_decide _); [|done]. eapply ask_wp; [done|exact Hi|]. by intros. }
  clear h Hi. intros closed h Hi. destruct closed; [apply HQ; by apply inv_timeout|]. apply wp_pbind.
  assert (forall a s' h', inv ∅ h' s' -> wps (ido _ := ask RUpdateSession in Done (a, s')) Q h') as Hnext.
  { intros a s' h' Hi'. eapply ask_wp; [done|exact Hi'|]. intros _a h2 _ Hi2. by apply HQ. }
  destruct w; cbn [negb]; [destruct (timeout s <? 0)|]; apply wp_pbind;
    (eapply udp_switch_wp; [unfold switching; eauto 9|exact Hi|]; intros a s' h' Hi' _ _; cbn [Interact.wp]; by apply Hnext).
Qed.

Lemma udp_splice_loop_wp fuel saddr num : forall h s res_f res_b Q,
  0 < num -> 20 <= zlen (ip_mem saddr) -> inv ∅ h s ->
  (forall r h', match r with Some s' => inv ∅ h' s' | None => True end -> Q r h') ->
  wps (splice_loop custom_free fuel saddr num s res_f res_b) Q h.
Proof.
  induction fuel as [|fuel IH]; intros h s res_f res_b Q Hn Hs Hi HQ; cbn [splice_loop]; [by apply HQ|].
  apply wp_pbind. apply (wp_impl _ _ _ (fun '(_, s') h' => inv ∅ h' s')).
  { destruct (res_f >=? 0); [apply fwd_f_wp; [done..|]; by intros|done]. }
  intros [rf s1] h1 Hi1. apply wp_pbind. apply (wp_impl _ _ _ (fun '(_, s') h' => inv ∅ h' s')).
  { destruct (res_b >=? 0); [apply fwd_b_wp; [done..|]; by intros|done]. }
  intros [rb s2] h2 Hi2.
  assert (forall w, wps (ido (r, s) := task_io_yielder custom_free w s2 in
    if negb (r =? 0) then Done (Some s) else splice_loop custom_free fuel saddr num s rf rb) Q h2) as Hnext.
  { intros w. apply wp_pbind. apply udp_yielder_wp; [done|]. intros a s3 h3 Hi3.
    destruct (negb (a =? 0)); [by apply HQ|by apply IH]. }
  destruct ((rf >? 0) || (rb >? 0)); [apply Hnext|]. destruct (Z.land rf rb =? 0); [apply Hnext|by apply HQ].
Qed.


(** ** Destruction *)

Lemma udp_destruct_loop_ok qs : forall fuel s pn node tl,
  HevList.dseg (lnodes s) pn node (addrs qs) tl NULL -> frames_at s = list_to_map (fst <$> qs) -> NoDup (addrs qs) ->
  Forall (fun q => packet (heap s) (f_data (frame_of q)) (chain_of q) /\ all_owned (chain_of q) /\ chain_of q <> []) qs ->
  NoDup (bufs_of qs) -> (forall a, a ∉ bufs_of qs -> bufs (heap s) !! a = None) -> (length qs <= fuel)%nat ->
  exists s', destruct_loop custom_free fuel s node = Val s' /\ frames_at s' = ∅ /\ bufs (heap s') = ∅.
Proof.
  induction qs as [|q qs IH]; intros fuel s pn node tl Hs Hf Hnd Hp Hb Hout Hfu.
  { destruct Hs as [-> _]. exists s. split; [by destruct fuel|]. split; [done|]. apply map_empty. intros a. apply Hout.
    by apply not_elem_of_nil. }
  destruct fuel as [|fuel]; [cbn in Hfu; lia|]. destruct Hs as (-> & Hq & r & Er & Hs). cbn [destruct_loop].
  rewrite neqb by done. destruct q as [[a f] xs]. cbn [at_of fst snd] in *. rewrite Hf. cbn [fmap list_fmap list_to_map foldr fst].
  rewrite lookup_insert_eq. cbn [of_option obind snd]. unfold HevList.hev_list_node_next, HevList.load. cbn [fst].
  rewrite Er. cbn [of_option obind HevList.next]. apply Forall_cons in Hp as [(Hpk & Ho & Hne) Hp].
  cbn [frame_of chain_of fst snd] in *. destruct (free_packet_ok (heap s) _ _ Hpk Ho Hne) as (h' & -> & Hin & Hfr). cbn [obind].
  change (addrs ((a, f, xs) :: qs)) with (a :: addrs qs) in Hnd. apply NoDup_cons in Hnd as [Hni Hnd].
  rewrite bufs_of_cons in Hb, Hout. apply NoDup_app in Hb as (_ & Hap & Hb). cbn [chain_of snd] in *.
  eapply (IH fuel _ a r tl); cbn [lnodes frames_at heap set_frames]; try done.
  - eapply HevList.dseg_frame; [|exact Hs]. intros x Hx. rewrite lookup_delete_ne; [done|]. by intros ->.
  - rewrite delete_insert_id; [done|]. apply not_elem_of_list_to_map_1. by rewrite addrs_fst.
  - eapply packets_frame; [|exact Hp]. intros b Hbi. apply Hfr. intros Hx. by apply (Hap b).
  - intros b Hbn. destruct (decide (b ∈ xs.*1)) as [Hx|Hx]; [by apply Hin|]. rewrite Hfr by done. apply Hout. by apply not_elem_of_app.
  - cbn in Hfu. lia.
Qed.

Lemma destruct_ok s qs : owns ∅ s qs ->
  exists s', destruct_loop custom_free (S (size (frames_at s))) s (HevList.hev_list_first (frame_list s)) = Val s' /\
    frames_at s' = ∅ /\ bufs (heap s') = ∅.
Proof.
  intros [[Hnd Hs] O2 O3 O4 O5 O6 O7 O8]. eapply udp_destruct_loop_ok; try done.
  rewrite O2, <- (length_fmap fst qs).
  rewrite <- (length_map_to_list (list_to_map _ : gmap Z HevSocks5UDPFrame)).
  rewrite map_to_list_to_map by (by rewrite addrs_fst). lia.
Qed.

(** ** Runs *)

Lemma splice_udp_wp fuel saddr num ufd s Q :
  0 < num -> 20 <= zlen (ip_mem saddr) -> owns ∅ s [] ->
  (forall r h', match r with Some s' => inv ∅ h' s' | None => True end -> Q r h') ->
  wps (hev_socks5_session_udp_splice custom_free fuel saddr num ufd s) Q [].
Proof.
  intros Hn Hs O HQ. assert (inv ∅ [] s) as Hi by (by exists []). unfold hev_socks5_session_udp_splice.
  eapply ask_wp; [done|exact Hi|]. intros a h1 _ Hi1. apply wp_pbind.
  apply (wp_impl _ _ _ (fun _ h' => inv ∅ h' s)).
  { destruct (ares a <? 0); [|done]. split; [done|]. intros b _. cbn [Interact.wp]. by apply udp_quiet_inv. }
  intros _u h2 Hi2. by apply udp_splice_loop_wp.
Qed.


End lemmas.

(** ** Witnesses *)

#[export] Instance udp_cb_ok_dec s c : Decision (cb_ok s c).
Proof.
  unfold cb_ok. destruct c as [[|x xs] local lport mem raw dns]; [apply _|].
  destruct (hev_socks5_addr_from_lwip dns raw local lport) as [[[r a] d]|]; apply _.
Defined.

#[export] Instance udp_cbs_ok_dec cf s l : Decision (cbs_ok cf s l).
Proof.
  revert s. induction l as [|c l IH]; intros s; cbn [cbs_ok]; [apply _|].
  destruct (run_callback cf s c) as [[e s']|]; apply _.
Defined.

#[export] Instance msg_ok_dec m : Decision (msg_ok m).
Proof. unfold msg_ok. destruct (fst m); apply _. Defined.

#[export] Instance udp_allowed_dec cf h q a : Decision (allowed cf h q a).
Proof. destruct q; cbn [allowed]; apply _. Defined.

Definition example_saddr : ip_addr_t := mkIP (replicate 20 0) 0.

Definition example_udp : HevSocks5SessionUDP :=
  mkUdp 5 Socks5.HEV_SOCKS5_TYPE_UDP_IN_TCP 100 (HevList.mkList NULL NULL) ∅ ∅ (mkPHeap ∅ false) true 0 0 0 false.

Definition example_recv (xs : chain) (mem : Z) : callback :=
  CbRecv xs (mkIP ([10; 0; 0; 1] ++ replicate 16 0) 0) 53 mem (replicate 30 0) None.

(** Two datagrams arrive while the first round waits, the server takes one of them and
    sends one back; a third one and the end of the association follow. *)
Definition example_answers : list ans :=
  let ok := mkAns 0 [] false [] in
  let again := mkAns (-1) [] true [] in
  [ok; again; mkAns 1 [] false [example_recv example_first 1000; example_recv example_second 1001]; ok;
   mkAns 1 [] false []; mkAns 1 [(Some ([1; 10; 0; 0; 1; 0; 53] ++ replicate 12 0), [9])] false []; mkAns 256 [] false [];
   mkAns 0 [] false [example_recv [(320, example_buf 0 1 1 [6])] 1002]; ok; ok;
   mkAns 0 [] false [example_recv [] 0]; ok; mkAns 0 [] false []; again; ok; ok].

Definition example_run : option (trace * prog req ans (option HevSocks5SessionUDP)) :=
  replay (allowed (fun _ => sret tt)) [] (hev_socks5_session_udp_splice (fun _ => sret tt) 9 example_saddr 8 5 example_udp) example_answers.

Lemma example_udp_owns : owns ∅ example_udp [].
Proof. constructor; try done; [split; [apply NoDup_nil_2|done]|apply NoDup_nil_2]. Qed.


(** The destructor frees the frames before it waits for the lock and removes the
    callback: a datagram that arrives while it waits is appended to a freed frame. *)
Example udp_destruct_race :
  match example_run with
  | Some (_, Done (Some s)) =>
      match hev_socks5_session_udp_destruct (fun _ => sret tt) s with
      | Ask (RLock s) k =>
          let a := mkAns 0 [] false [example_recv [(384, example_buf 0 1 1 [7])] 1003] in
          bool_decide (allowed (fun _ => sret tt) [] (RLock s) a) && match k a with Broken => true | _ => false end
      | _ => false
      end
  | _ => false
  end = true.
Proof. vm_compute. reflexivity. Qed.

End SessionUDPInv.
