(* ===== verification/RBTreeCached.v ===== *)
(** * Leftmost-cached red-black trees

    Model of src/lib/rbtree/hev-rbtree-cached.{c,h} of the task library, and of the
    descent with which the scheduler and the timer, its owners, look for the place of a
    new node: nodes with an equal key stay in the order of their arrival. *)

From Stdlib Require Import ZArith Lia.
From stdpp Require Import base list gmap numbers.
From S2P Require Import Prelude RBTree RBTreeRep RBTreeExec RBTreeInsert RBTreeUnlink RBTreeIter RBTreeSearch.
Import list_basics.list list_relations.list list_monad.list list_misc.list.
Import RBTree RBTreeRep RBTreeExec RBTreeInsert RBTreeUnlink RBTreeIter RBTreeSearch.

Module RBTreeCached.

Record HevRBTreeCached := mkCached { base : HevRBTree; leftmost : Z }.

Definition hev_rbtree_cached_first (self : HevRBTreeCached) : Z := leftmost self.

Definition hev_rbtree_cached_insert_color (fuel : nat) (self : HevRBTreeCached) (node : Z) (is_leftmost : bool)
    : outcome HevRBTreeCached :=
  let lm := if is_leftmost then node else leftmost self in
  let! (_, b) := hev_rbtree_insert_color fuel node (base self) in
  Val (mkCached b lm).

Definition hev_rbtree_cached_replace (self : HevRBTreeCached) (victim new : Z) : outcome HevRBTreeCached :=
  let! (_, b) := hev_rbtree_replace victim new (base self) in
  Val (mkCached b (if leftmost self =? victim then new else leftmost self)).

Definition hev_rbtree_cached_erase (fuel : nat) (self : HevRBTreeCached) (node : Z) : outcome HevRBTreeCached :=
  let! lm :=
    (if node =? leftmost self then
       let! (n, _) := hev_rbtree_node_next fuel node (base self) in Val n
     else Val (leftmost self)) in
  let! (_, b) := hev_rbtree_erase fuel node (base self) in
  Val (mkCached b lm).

(** The loop [while ( *new )] of the owners: [before a] tells that the new node goes to
    the left of [a].  The result is [parent], [new] and [leftmost]. *)
Fixpoint descend (fuel : nat) (before : Z -> outcome bool) (cur parent : Z) (lk : link) (lm : bool)
    : RB (Z * link * bool) :=
  if negb (nonnull cur) then sret (parent, lk, lm)
  else
    match fuel with
    | O => sfault
    | S fuel =>
        do! b := (fun s => let! r := before cur in Val (r, s)) in
        if b : bool then do! l := get_left cur in descend fuel before l cur (LLeft cur) lm
        else do! r := get_right cur in descend fuel before r cur (LRight cur) false
    end.

(** The loop, [hev_rbtree_node_link] and [hev_rbtree_cached_insert_color]; the result
    has the owner's variable [leftmost]. *)
Definition insert_node (fuel : nat) (before : Z -> outcome bool) (self : HevRBTreeCached) (node : Z)
    : outcome (bool * HevRBTreeCached) :=
  let! ((parent, lk, lm), b) := descend fuel before (root (base self)) NULL LRoot true (base self) in
  let! (_, b) := hev_rbtree_node_link node parent lk b in
  let! c := hev_rbtree_cached_insert_color fuel (mkCached b (leftmost self)) node lm in
  Val (lm, c).

(** ** The tree as a sequence *)

(** The nodes [xs] in the order of the tree. *)
Record queue (c : HevRBTreeCached) (xs : list Z) : Prop := {
  q_tree : exists t, trep (base c) t /\ rbtree t /\ inorder t = xs;
  q_first : leftmost c = first_of xs;
}.

Lemma queue_nodup c xs : queue c xs -> NoDup xs.
Proof. intros [(t & (_ & _ & ND) & _ & <-) _]. exact ND. Qed.

Lemma queue_empty cs : queue (mkCached (mkRBTree NULL cs) NULL) [].
Proof. constructor; [|done]. exists Leaf. split_and!; try done; [|by split; [|exists 0%nat]]. split_and!; try done. constructor. Qed.

Lemma queue_frame c c' xs :
  root (base c') = root (base c) -> leftmost c' = leftmost c ->
  (forall y, y ∈ xs -> cells (base c') !! y = cells (base c) !! y) -> queue c xs -> queue c' xs.
Proof.
  intros Er El Hc [(t & Ht & Hrb & <-) Hl]. constructor; [|congruence]. exists t. split_and!; [|done..].
  by eapply trep_frame.
Qed.

Lemma queue_nonnull c xs a : queue c xs -> a ∈ xs -> a <> NULL.
Proof.
  intros [(t & Ht & _ & <-) _] Ha. destruct (member_path a t Ha) as (K & ? & l & r & ->).
  apply zrep_plug in Ht. by destruct Ht as (_ & (_ & ? & _) & _).
Qed.

(** The nodes are among the cells. *)
Lemma queue_cell c xs a : queue c xs -> a ∈ xs -> is_Some (cells (base c) !! a).
Proof.
  intros [(t & Ht & _ & <-) _] Ha. destruct (member_path a t Ha) as (K & ? & l & r & ->).
  apply zrep_plug in Ht. destruct Ht as (_ & (_ & _ & C & _) & _). by eexists.
Qed.

Lemma queue_size c xs : queue c xs -> (length xs <= size (cells (base c)))%nat.
Proof.
  intros Hq. rewrite <- (length_map_to_list (cells (base c))), <- (length_fmap fst).
  apply submseteq_length, NoDup_submseteq; [by eapply queue_nodup|]. intros a Ha.
  destruct (queue_cell _ _ _ Hq Ha) as [n En]. apply list_elem_of_fmap. exists (a, n).
  split; [done|]. by apply elem_of_map_to_list.
Qed.

(** The descent on an abstract tree. *)
Fixpoint place (f : Z -> bool) (K : list frame) (t : tree) : list frame :=
  match t with
  | Leaf => K
  | Node c l a r => if f a then place f (FL c a r :: K) l else place f (FR c l a :: K) r
  end.

Lemma place_plug f K t : plug (place f K t) Leaf = plug K t.
Proof. revert K. induction t as [|c l IHl a r IHr]; intros K; cbn; [done|]. destruct (f a); [by rewrite IHl|by rewrite IHr]. Qed.

Definition all_left (K : list frame) : bool := forallb (fun f => match f with FL _ _ _ => true | FR _ _ _ => false end) K.

Lemma descend_ok rt h fuel before f K t :
  zrep (mkRBTree rt h) K t -> (forall a, a ∈ inorder t -> before a = Val (f a)) ->
  (length (inorder t) <= fuel)%nat ->
  descend fuel before (ad t) (ctx_parent K) (ctx_link K) (all_left K) (mkRBTree rt h) =
    Val ((ctx_parent (place f K t), ctx_link (place f K t), all_left (place f K t)), mkRBTree rt h).
Proof.
  revert fuel K. induction t as [|c l IHl a r IHr]; intros fuel K Hz Hc Hf; [by destruct fuel|].
  pose proof Hz as (_ & (_ & Ha & C & _) & _). cbn [ad].
  destruct fuel as [|fuel]; [cbn in Hf; rewrite length_app in Hf; cbn in Hf; lia|].
  cbn in Hf. rewrite length_app in Hf. cbn in Hf.
  cbn [descend]. rewrite nonnull_true by done. cbn [negb].
  rewrite (sbind_Val _ _ _ (f a) (mkRBTree rt h))
    by (rewrite Hc; [done|cbn; apply elem_of_app; right; left]).
  cbn [place]. destruct (f a).
  - run_get get_left_ok. apply (IHl fuel (FL c a r :: K)); [by apply zrep_frame_iff| |lia].
    intros b Hb. apply Hc. cbn. apply elem_of_app. by left.
  - run_get get_right_ok. apply (IHr fuel (FR c l a :: K)); [by apply zrep_frame_iff| |lia].
    intros b Hb. apply Hc. cbn. apply elem_of_app. right. by right.
Qed.

(** A test that holds from some node on splits the order there. *)
Section split.
Context (f : Z -> bool) (xs ys : list Z).
Context (Hx : Forall (fun a => f a = false) xs) (Hy : Forall (fun a => f a = true) ys).

Lemma split_after u a v : u ++ a :: v = xs ++ ys -> f a = true -> Forall (fun b => f b = true) v.
Proof.
  intros [(k & -> & E)|(k & E1 & E)]%app_eq_inv Ha; [pose proof Hy as F; rewrite E in F|].
  - apply Forall_app in F as [_ F]. by apply Forall_cons in F as [].
  - destruct k as [|b k]; cbn in E; [pose proof Hy as F; rewrite <- E in F; by apply Forall_cons in F as []|].
    injection E as <- _. pose proof Hx as F. rewrite E1 in F. apply Forall_app in F as [_ F].
    apply Forall_cons in F as []. congruence.
Qed.

Lemma split_before u a v : u ++ a :: v = xs ++ ys -> f a = false -> Forall (fun b => f b = false) u.
Proof.
  intros [(k & -> & E)|(k & E1 & E)]%app_eq_inv Ha; [pose proof Hy as F|pose proof Hx as F].
  - rewrite E in F. apply Forall_app in F as [_ F]. apply Forall_cons in F as []. congruence.
  - rewrite E1 in F. by apply Forall_app in F as [].
Qed.

Lemma before_unique xs' ys' :
  Forall (fun a => f a = false) xs' -> Forall (fun a => f a = true) ys' -> xs' ++ ys' = xs ++ ys -> xs' = xs /\ ys' = ys.
Proof.
  intros F3 F4 [(k & -> & E)|(k & E & ->)]%app_eq_inv; (destruct k as [|b k]; [by rewrite ?app_nil_r in *|]).
  - apply Forall_app in F3 as [_ F3]. pose proof Hy as F. rewrite E in F. apply Forall_app in F as [F _].
    apply Forall_cons in F3 as [], F as []. congruence.
  - pose proof Hx as F. rewrite E in F. apply Forall_app in F as [_ F]. apply Forall_app in F4 as [F4 _].
    apply Forall_cons in F as [], F4 as []. congruence.
Qed.

Lemma place_split t : forall K, inorder (plug K t) = xs ++ ys ->
  Forall (fun a => f a = false) (lefts K) -> Forall (fun a => f a = true) (rights K) ->
  lefts (place f K t) = xs /\ rights (place f K t) = ys.
Proof.
  induction t as [|c l IHl a r IHr]; intros K E Hl Hr; cbn [place].
  { rewrite inorder_plug in E. by apply before_unique. }
  rewrite inorder_plug in E. cbn [inorder] in E.
  assert ((lefts K ++ inorder l) ++ a :: (inorder r ++ rights K) = xs ++ ys) as E'
    by (rewrite <- E; by rewrite <- !app_assoc).
  destruct (f a) eqn:Ea.
  - apply IHl; [rewrite inorder_plug, <- E'; cbn; by rewrite <- !app_assoc|done|].
    cbn. constructor; [done|]. by eapply split_after.
  - apply IHr; [rewrite inorder_plug, <- E'; cbn; by rewrite <- !app_assoc| |done].
    cbn. rewrite app_assoc. apply Forall_app. split; [by eapply split_before|by constructor].
Qed.

End split.

Lemma all_left_lefts K : all_left K = true <-> lefts K = [].
Proof.
  induction K as [|[c a r|c l a] K IH]; cbn; [done|exact IH|]. split; [done|].
  intros E. apply app_eq_nil in E as [_ E]. by apply app_eq_nil in E as [].
Qed.

(** A new node goes behind the nodes it is not before. *)
Lemma insert_node_ok fuel before f c xs ys a n0 :
  queue c (xs ++ ys) -> (forall b, b ∈ xs ++ ys -> before b = Val (f b)) ->
  Forall (fun b => f b = false) xs -> Forall (fun b => f b = true) ys ->
  a ∉ xs ++ ys -> aligned a -> a <> NULL -> cells (base c) !! a = Some n0 -> (length (xs ++ ys) < fuel)%nat ->
  exists c', insert_node fuel before c a = Val (bool_decide (xs = []), c') /\ queue c' (xs ++ a :: ys) /\
    forall y, y ∉ a :: xs ++ ys -> cells (base c') !! y = cells (base c) !! y.
Proof.
  intros [(t & Ht & Hrb & Ei) Hl] Hb Hx Hy Ha Al Hn Hc Hf. destruct c as [[rt h] lm]. cbn [base leftmost] in *.
  pose proof Ht as (Er & _). cbn [rep_ctx root cells] in Er. unfold insert_node. cbn [base root].
  destruct (place_split f xs ys Hx Hy t []) as [EL ER]; [done|constructor|constructor|].
  pose proof (descend_ok rt h fuel before f [] t Ht) as Ed. cbn [ctx_parent ctx_link all_left forallb] in Ed.
  rewrite Er in *. rewrite Ed; [|by rewrite Ei|rewrite Ei; lia]. cbn [obind].
  set (K := place f [] t) in *. assert (plug K Leaf = t) as EP by (apply (place_plug f [] t)).
  assert (length K < fuel)%nat as HK.
  { pose proof (length_ctx_addrs K) as HL. rewrite <- Ei, <- EP, <- ctx_addrs_perm, app_nil_r in Hf. lia. }
  destruct (insert_ok fuel (mkRBTree (ad t) h) K a n0) as (s' & T & E & T2 & R2 & EI & O);
    rewrite ?EP, ?Ei; try done. unfold sbind in E.
  destruct (hev_rbtree_node_link a (ctx_parent K) (ctx_link K) _) as [[u b]|] eqn:El; [|done]. cbn [obind] in E |- *.
  unfold hev_rbtree_cached_insert_color. cbn [base leftmost]. rewrite E. cbn [obind].
  eexists. split; [do 3 f_equal; apply eq_true_iff_eq; by rewrite all_left_lefts, bool_decide_eq_true, EL|]. rewrite EL, ER in EI. split; [constructor; cbn [base leftmost]; [by exists T|]|].
  - destruct (all_left K) eqn:EA.
    + apply all_left_lefts in EA. rewrite <- EL, EA. done.
    + rewrite Hl. destruct xs as [|x xs]; [|done]. by rewrite (proj2 (all_left_lefts K)) in EA.
  - intros y Hy'. cbn [base]. apply O. rewrite EI. cbn [app]. by rewrite <- Permutation_middle.
Qed.

Lemma cached_erase_ok fuel c xs a ys :
  queue c (xs ++ a :: ys) -> (length (xs ++ a :: ys) <= fuel)%nat ->
  exists c', hev_rbtree_cached_erase fuel c a = Val c' /\ queue c' (xs ++ ys) /\
    forall y, y ∉ xs ++ a :: ys -> cells (base c') !! y = cells (base c) !! y.
Proof.
  intros Hq Hf. pose proof (queue_nodup _ _ Hq) as ND. destruct Hq as [(t & Ht & Hrb & Ei) Hl].
  destruct (member_path a t) as (K & k & l & r & ->); [rewrite Ei; apply elem_of_app; right; left|].
  destruct (erase_ok fuel (base c) K k l a r Hrb Ht) as (s' & T & E & T' & R' & EI & O); [by rewrite Ei|].
  rewrite inorder_plug in Ei. cbn [inorder] in Ei. rewrite <- app_assoc, app_assoc in Ei. cbn [app] in Ei.
  assert (lefts K ++ inorder l = xs /\ inorder r ++ rights K = ys) as [E1 E2].
  { apply NoDup_app in ND as (_ & D & ND). apply NoDup_cons in ND as [ND _].
    apply app_eq_inv in Ei as [(z & -> & Ez)|(z & -> & Ez)]; (destruct z as [|b z]; [cbn in Ez; injection Ez as ->; by rewrite ?app_nil_r|]).
    - injection Ez as <- ->. exfalso. apply ND, elem_of_app. right. left.
    - injection Ez as <- ->. exfalso. apply (D a); [apply elem_of_app; right; left|left]. }
  unfold hev_rbtree_cached_erase.
  assert (exists lm, (if a =? leftmost c then let! (n, _) := hev_rbtree_node_next fuel a (base c) in Val n
    else Val (leftmost c)) = Val lm /\ lm = first_of (xs ++ ys)) as (lm & -> & ->).
  { rewrite Hl. destruct xs as [|x xs]; cbn [app first_of hd].
    - rewrite Z.eqb_refl, (next_ok fuel (base c) K k l a r) by (done || (rewrite inorder_plug; cbn [inorder]; rewrite <- app_assoc, app_assoc; cbn [app]; by rewrite Ei)).
      cbn [obind]. eexists. split; [done|]. by rewrite E2.
    - destruct (Z.eqb_spec a x) as [->|]; [|by eexists]. exfalso. apply NoDup_cons in ND as [ND _]. apply ND, elem_of_app. right. left. }
  cbn [obind]. rewrite E. cbn [obind]. eexists. split; [done|]. split; [constructor; cbn [base leftmost]|].
  - exists T. split_and!; [done..|]. by rewrite EI, <- E1, <- E2, <- app_assoc.
  - done.
  - intros y Hy. cbn [base]. apply O. rewrite inorder_plug. cbn [inorder]. rewrite <- app_assoc, app_assoc. cbn [app]. by rewrite Ei.
Qed.

(** ** Cells

    The operations change cells and allocate none. *)
Definition keeps {A} (m : RB A) : Prop := forall s r s', m s = Val (r, s') -> dom (cells s') = dom (cells s).

Lemma keeps_ret {A} (a : A) : keeps (sret a).
Proof. by intros s r s' [= _ <-]. Qed.
Lemma keeps_fault {A} : keeps (sfault : RB A).
Proof. done. Qed.
Lemma keeps_bind {A B} (m : RB A) (k : A -> RB B) : keeps m -> (forall a, keeps (k a)) -> keeps (sbind m k).
Proof.
  intros Hm Hk s r s' E. unfold sbind in E. destruct (m s) as [[a s1]|] eqn:Em; [|done].
  rewrite (Hk _ _ _ _ E). by eapply Hm.
Qed.
Lemma keeps_get a : keeps (get a).
Proof. intros s r s'. unfold get. by destruct (cells s !! a); [intros [= _ <-]|]. Qed.
Lemma keeps_put a n : keeps (put a n).
Proof.
  intros s r s'. unfold put. destruct (cells s !! a) eqn:E; [|done]. intros [= _ <-]. cbn [cells].
  rewrite dom_insert_L. apply subseteq_union_1_L, singleton_subseteq_l. by apply elem_of_dom.
Qed.
Lemma keeps_get_root : keeps get_root.
Proof. by intros s r s' [= _ <-]. Qed.
Lemma keeps_set_root p : keeps (set_root p).
Proof. by intros s r s' [= _ <-]. Qed.

Ltac head_of t := match t with ?f _ => head_of f | _ => t end.

(** Follows the statements of an operation. *)
Ltac keeps :=
  repeat first
    [ match goal with H : _ |- keeps _ => apply H end | apply keeps_ret | apply keeps_fault | apply keeps_get | apply keeps_put | apply keeps_get_root
    | apply keeps_set_root | apply keeps_bind; [|intros ?]
    | match goal with
      | |- keeps (match ?b with _ => _ end) => destruct b
      | |- keeps ?m => let f := head_of m in progress unfold f
      end ].

Lemma keeps_find_successor fuel : forall s t, keeps (find_successor fuel s t).
Proof. induction fuel as [|fuel IH]; intros s t; cbn [find_successor]; keeps. Qed.

Lemma keeps_cut_successor fuel c : keeps (erase_cut_successor fuel c).
Proof. pose proof (keeps_find_successor fuel) as H. keeps. Qed.

Lemma keeps_unlink fuel a : keeps (_hev_rbtree_erase fuel a).
Proof. pose proof (keeps_cut_successor fuel) as H. keeps. Qed.

Lemma keeps_erase_color fuel : forall a b, keeps (erase_color_loop fuel a b).
Proof. induction fuel as [|fuel IH]; intros a b; cbn [erase_color_loop]; keeps. Qed.

Lemma keeps_erase fuel a : keeps (hev_rbtree_erase fuel a).
Proof.
  unfold hev_rbtree_erase. apply keeps_bind; [apply keeps_unlink|]. intros r.
  destruct (nonnull r); cbn [swhen]; [apply keeps_erase_color|apply keeps_ret].
Qed.

Lemma cached_erase_dom fuel c a c' : hev_rbtree_cached_erase fuel c a = Val c' -> dom (cells (base c')) = dom (cells (base c)).
Proof.
  unfold hev_rbtree_cached_erase. destruct (if a =? leftmost c then _ else _) as [lm|]; [|done]. cbn [obind].
  destruct (hev_rbtree_erase fuel a (base c)) as [[u b]|] eqn:E; [|done]. intros [= <-]. by eapply keeps_erase.
Qed.

End RBTreeCached.
