(* ===== verification/TaskSystem.v ===== *)
(** * The task system

    Model of the cooperative scheduler and the timer of the task library:
    src/kern/core/hev-task-system-schedule.c, src/kern/task/hev-task.c and
    src/kern/time/hev-task-timer.c under third-part/hev-task-system.  Tasks live at their
    address; the tree node of a task has the address of the task, the tree node of a
    sleeper the address of its [HevTaskTimerNode].  Contexts of [setjmp] are not modelled:
    an operation is what happens in the kernel context between two tasks.  The library is
    built without a scheduling clock (CONFIG_SCHED_CLOCK is CLOCK_NONE), readings of the
    monotonic clock and the events of the reactor are arguments. *)

From Stdlib Require Import ZArith Lia.
From stdpp Require Import base list gmap numbers.
From S2P Require Import Prelude HevList RBTree RBTreeCached.
Import list_basics.list list_relations.list list_monad.list list_misc.list.
Import RBTreeCached.

Module TaskSystem.

Abbreviation NULL := HevList.NULL.

(** ** Data *)

Inductive HevTaskState := HEV_TASK_STOPPED | HEV_TASK_RUNNING | HEV_TASK_WAITING.

#[export] Instance HevTaskState_eq_dec : EqDecision HevTaskState.
Proof. solve_decision. Defined.

Definition HEV_TASK_PRIORITY_MIN : Z := 0.
Definition HEV_TASK_PRIORITY_MAX : Z := 15.
Definition HEV_TASK_PRIORITY_DEFAULT : Z := 8.

Record HevTask := mkTask {
  sched_key : Z; joiner : Z; ref_count : Z; priority : Z; next_priority : Z; state : HevTaskState }.

Record timespec := mkTime { tv_sec : Z; tv_nsec : Z }.

(** [HevTaskTimerNode] without its tree node. *)
Record HevTaskTimerNode := mkTimerNode { expire : timespec; sleeper : Z }.

(** [HevTaskTimer]: the tree, and the nodes that sleepers keep on their stacks. *)
Record HevTaskTimer := mkTimer { sort_tree : HevRBTreeCached; timer_nodes : gmap Z HevTaskTimerNode }.

(** [HevTaskSystemContext], with the tasks in memory and their list nodes. *)
Record HevTaskSystemContext := mkCtx {
  total_task_count : Z; running_task_count : Z; timer : HevTaskTimer; current_task : Z;
  running_tasks : HevRBTreeCached; all_tasks : HevList.HevList;
  lnodes : gmap Z HevList.HevListNode; tasks : gmap Z HevTask }.

Definition set_counts (total running : Z) (x : HevTaskSystemContext) : HevTaskSystemContext :=
  mkCtx total running (timer x) (current_task x) (running_tasks x) (all_tasks x) (lnodes x) (tasks x).
Definition set_timer (t : HevTaskTimer) (x : HevTaskSystemContext) : HevTaskSystemContext :=
  mkCtx (total_task_count x) (running_task_count x) t (current_task x) (running_tasks x) (all_tasks x) (lnodes x) (tasks x).
Definition set_current (c : Z) (x : HevTaskSystemContext) : HevTaskSystemContext :=
  mkCtx (total_task_count x) (running_task_count x) (timer x) c (running_tasks x) (all_tasks x) (lnodes x) (tasks x).
Definition set_running (r : HevRBTreeCached) (x : HevTaskSystemContext) : HevTaskSystemContext :=
  mkCtx (total_task_count x) (running_task_count x) (timer x) (current_task x) r (all_tasks x) (lnodes x) (tasks x).
Definition set_tasks (t : gmap Z HevTask) (x : HevTaskSystemContext) : HevTaskSystemContext :=
  mkCtx (total_task_count x) (running_task_count x) (timer x) (current_task x) (running_tasks x) (all_tasks x) (lnodes x) t.
Definition set_all (l : HevList.HevList) (n : gmap Z HevList.HevListNode) (x : HevTaskSystemContext) : HevTaskSystemContext :=
  mkCtx (total_task_count x) (running_task_count x) (timer x) (current_task x) (running_tasks x) l n (tasks x).

Definition set_key (k : Z) (t : HevTask) : HevTask :=
  mkTask k (joiner t) (ref_count t) (priority t) (next_priority t) (state t).
Definition set_refs (r : Z) (t : HevTask) : HevTask :=
  mkTask (sched_key t) (joiner t) r (priority t) (next_priority t) (state t).
Definition set_joiner (j : Z) (t : HevTask) : HevTask :=
  mkTask (sched_key t) j (ref_count t) (priority t) (next_priority t) (state t).
Definition set_next_priority (p : Z) (t : HevTask) : HevTask :=
  mkTask (sched_key t) (joiner t) (ref_count t) (priority t) p (state t).
(** [task->priority = task->next_priority], and the state. *)
Definition activate (s : HevTaskState) (t : HevTask) : HevTask :=
  mkTask (sched_key t) (joiner t) (ref_count t) (next_priority t) (next_priority t) s.
Definition set_state (s : HevTaskState) (t : HevTask) : HevTask :=
  mkTask (sched_key t) (joiner t) (ref_count t) (priority t) (next_priority t) s.

Definition get_task (x : HevTaskSystemContext) (a : Z) : outcome HevTask := of_option (tasks x !! a).

Definition put_task (a : Z) (t : HevTask) (x : HevTaskSystemContext) : HevTaskSystemContext :=
  set_tasks (<[a := t]> (tasks x)) x.

(** Enough for every walk in a tree: its nodes are among the cells. *)
Definition tree_fuel (c : HevRBTreeCached) : nat := S (size (RBTree.cells (base c))).

Definition with_cells (f : gmap Z RBTree.HevRBTreeNode -> gmap Z RBTree.HevRBTreeNode) (c : HevRBTreeCached) : HevRBTreeCached :=
  mkCached (RBTree.mkRBTree (RBTree.root (base c)) (f (RBTree.cells (base c)))) (leftmost c).

(** ** The scheduler *)

Definition hev_task_system_update_sched_key (x : HevTaskSystemContext) : outcome HevTaskSystemContext :=
  let runtime := 1 in
  let! t := get_task x (current_task x) in
  Val (put_task (current_task x) (set_key (u64 (sched_key t + runtime * priority t)) t) x).

Definition hev_task_system_get_min_sched_key (x : HevTaskSystemContext) : outcome Z :=
  let node := hev_rbtree_cached_first (running_tasks x) in
  if node =? NULL then Val 0 else let! t := get_task x node in Val (sched_key t).

(** [task->sched_key < this->sched_key] *)
Definition key_before (x : HevTaskSystemContext) (k a : Z) : outcome bool :=
  let! t := get_task x a in Val (k <? sched_key t).

Definition _hev_task_system_insert_task (x : HevTaskSystemContext) (task : Z) : outcome HevTaskSystemContext :=
  let! t := get_task x task in
  let! (_, c) := insert_node (tree_fuel (running_tasks x)) (key_before x (sched_key t)) (running_tasks x) task in
  Val (set_running c x).

Definition hev_task_system_insert_task (x : HevTaskSystemContext) (task : Z) : outcome HevTaskSystemContext :=
  let! t := get_task x task in
  let x := put_task task (activate HEV_TASK_RUNNING t) x in
  let! x := _hev_task_system_insert_task x task in
  Val (set_counts (total_task_count x) (u32 (running_task_count x + 1)) x).

Definition hev_task_system_reinsert_current_task (x : HevTaskSystemContext) : outcome HevTaskSystemContext :=
  let task := current_task x in
  let! t := get_task x task in
  let x := put_task task (activate (state t) t) x in
  let! c := hev_rbtree_cached_erase (tree_fuel (running_tasks x)) (running_tasks x) task in
  _hev_task_system_insert_task (set_running c x) task.

(** Freeing the task takes its tree and list nodes away. *)
Definition hev_task_unref (x : HevTaskSystemContext) (self : Z) : outcome HevTaskSystemContext :=
  let! t := get_task x self in
  let t := set_refs (i32 (ref_count t - 1)) t in
  if negb (ref_count t =? 0) then Val (put_task self t x)
  else
    let! (l, n) := HevList.hev_list_del (all_tasks x) (lnodes x) self in
    Val (set_tasks (delete self (tasks x))
          (set_running (with_cells (delete self) (running_tasks x)) (set_all l (delete self n) x))).

Definition hev_task_system_remove_current_task (x : HevTaskSystemContext) (s : HevTaskState) : outcome HevTaskSystemContext :=
  let task := current_task x in
  let! t := get_task x task in
  let x := put_task task (set_state s t) x in
  let! c := hev_rbtree_cached_erase (tree_fuel (running_tasks x)) (running_tasks x) task in
  let x := set_counts (total_task_count x) (u32 (running_task_count x - 1)) (set_running c x) in
  if bool_decide (s = HEV_TASK_STOPPED) then
    hev_task_unref (set_counts (u32 (total_task_count x - 1)) (running_task_count x) x) task
  else
    let! t := get_task x task in
    Val (put_task task (set_key (u64 (next_priority t)) t) x).

(** [abort] is a fault. *)
Definition hev_task_system_wakeup_task_with_context (x : HevTaskSystemContext) (task : Z) : outcome HevTaskSystemContext :=
  let! t := get_task x task in
  match state t with
  | HEV_TASK_RUNNING => Val x
  | HEV_TASK_STOPPED => Fault
  | HEV_TASK_WAITING =>
      let! m := hev_task_system_get_min_sched_key x in
      hev_task_system_insert_task (put_task task (set_key (u64 (sched_key t + m)) t) x) task
  end.

(** ** The timer *)

Definition hev_task_timer_cmp (a b : timespec) : Z :=
  if tv_sec a <? tv_sec b then -1
  else if tv_sec a >? tv_sec b then 1
  else if tv_nsec a <? tv_nsec b then -1
  else if tv_nsec a >? tv_nsec b then 1
  else 0.

(** [a] and [b] are the addresses of the nodes. *)
Definition hev_task_timer_node_cmp (ea : timespec) (a : Z) (eb : timespec) (b : Z) : Z :=
  let res := hev_task_timer_cmp ea eb in
  if negb (res =? 0) then res
  else if a <? b then -1
  else if a >? b then 1
  else 0.

Definition hev_task_timer_get_expire (e : timespec) (milliseconds : Z) : timespec :=
  let e := mkTime (tv_sec e + milliseconds / 1000) (tv_nsec e + milliseconds mod 1000 * 1000000) in
  if tv_nsec e >? 1000000000 then mkTime (tv_sec e + 1) (tv_nsec e - 1000000000) else e.

Definition hev_task_timer_get_time (curr e : timespec) : Z :=
  let sec := tv_sec e - tv_sec curr in
  let nsec := tv_nsec e - tv_nsec curr in
  let '(sec, nsec) := if nsec <? 0 then (sec - 1, nsec + 1000000000) else (sec, nsec) in
  if sec <? 0 then 0 else u32 (sec * 1000 + Z.quot (nsec + 999999) 1000000).

Definition get_timer_node (x : HevTaskSystemContext) (a : Z) : outcome HevTaskTimerNode :=
  of_option (timer_nodes (timer x) !! a).

(** The timeout of the reactor while no task runs, [curr] being the time. *)
Definition hev_task_timer_get_timeout (x : HevTaskSystemContext) (curr : timespec) : outcome Z :=
  let node := hev_rbtree_cached_first (sort_tree (timer x)) in
  if node =? NULL then Val (-1)
  else let! n := get_timer_node x node in Val (i32 (hev_task_timer_get_time curr (expire n))).

Definition hev_task_timer_wakeup (x : HevTaskSystemContext) (curr : timespec) : outcome HevTaskSystemContext :=
  let node := hev_rbtree_cached_first (sort_tree (timer x)) in
  if node =? NULL then Val x
  else
    let! n := get_timer_node x node in
    if hev_task_timer_cmp curr (expire n) <? 0 then Val x
    else hev_task_system_wakeup_task_with_context x (sleeper n).

Definition hev_task_timer_wake (x : HevTaskSystemContext) (curr : timespec) : outcome HevTaskSystemContext :=
  if hev_rbtree_cached_first (sort_tree (timer x)) =? NULL then Val x else hev_task_timer_wakeup x curr.

(** [hev_task_timer_node_cmp (node, this) < 0] *)
Definition expires_before (x : HevTaskSystemContext) (e : timespec) (node a : Z) : outcome bool :=
  let! n := get_timer_node x a in Val (hev_task_timer_node_cmp e node (expire n) a <? 0).

(** [hev_task_timer_wait] up to its yield: the node at [node] enters the tree.  The
    variable [leftmost] is the result. *)
Definition timer_wait_enter (x : HevTaskSystemContext) (node milliseconds task : Z) (curr : timespec)
    : outcome (bool * HevTaskSystemContext) :=
  let e := hev_task_timer_get_expire curr milliseconds in
  let tree := with_cells (<[node := RBTree.mkRBNode 0 0 0]>) (sort_tree (timer x)) in
  let x := set_timer (mkTimer tree (<[node := mkTimerNode e task]> (timer_nodes (timer x)))) x in
  let! (lm, c) := insert_node (tree_fuel tree) (expires_before x e node) tree node in
  Val (lm, set_timer (mkTimer c (timer_nodes (timer x))) x).

(** [hev_task_timer_wait] from its yield on; the remaining milliseconds. *)
Definition timer_wait_leave (x : HevTaskSystemContext) (node : Z) (lm : bool) (curr : timespec)
    : outcome (Z * HevTaskSystemContext) :=
  let tree := sort_tree (timer x) in
  let lm := (node =? hev_rbtree_cached_first tree) || lm in
  let! n := get_timer_node x node in
  let! c := hev_rbtree_cached_erase (tree_fuel tree) tree node in
  let x := set_timer (mkTimer (with_cells (delete node) c) (delete node (timer_nodes (timer x)))) x in
  let! x := (if lm then hev_task_timer_wakeup x curr else Val x) in
  Val (hev_task_timer_get_time curr (expire n), x).

(** ** Scheduling *)

Fixpoint wake_all (x : HevTaskSystemContext) (l : list Z) : outcome HevTaskSystemContext :=
  match l with
  | [] => Val x
  | a :: l => let! x := hev_task_system_wakeup_task_with_context x a in wake_all x l
  end.

(** One answer of the reactor: the tasks of its events, and the time after it. *)
Record poll := mkPoll { events : list Z; polled_at : timespec }.

Definition hev_task_system_io_poll (x : HevTaskSystemContext) (p : poll) : outcome HevTaskSystemContext :=
  let! x := wake_all x (take 1024 (events p)) in
  hev_task_timer_wake x (polled_at p).

(** [do ... while ( !ctx->running_task_count )]; [None] while the reactor has not
    answered often enough. *)
Fixpoint poll_until_running (x : HevTaskSystemContext) (ps : list poll) : outcome (option HevTaskSystemContext) :=
  match ps with
  | [] => Val None
  | p :: ps =>
      let! x := hev_task_system_io_poll x p in
      if running_task_count x =? 0 then poll_until_running x ps else Val (Some x)
  end.

Definition hev_task_system_pick_current_task (x : HevTaskSystemContext) (ps : list poll)
    : outcome (option HevTaskSystemContext) :=
  let! r :=
    (if running_task_count x <? total_task_count x then
       if negb (running_task_count x =? 0) then
         match ps with
         | [] => Val None
         | p :: _ => let! x := hev_task_system_io_poll x p in Val (Some x)
         end
       else poll_until_running x ps
     else Val (Some x)) in
  match r with
  | None => Val None
  | Some x => Val (Some (set_current (hev_rbtree_cached_first (running_tasks x)) x))
  end.

(** Why a task gives the processor away. *)
Inductive sched_type := HEV_TASK_SCHED_SWITCH | HEV_TASK_SCHED_WAITIO | HEV_TASK_SCHED_REMOVE.

#[export] Instance sched_type_eq_dec : EqDecision sched_type.
Proof. solve_decision. Defined.

Definition leave_task (type : sched_type) (x : HevTaskSystemContext) : outcome HevTaskSystemContext :=
  match type with
  | HEV_TASK_SCHED_SWITCH =>
      let! x := hev_task_system_update_sched_key x in hev_task_system_reinsert_current_task x
  | HEV_TASK_SCHED_WAITIO =>
      let! x := hev_task_system_update_sched_key x in hev_task_system_remove_current_task x HEV_TASK_WAITING
  | HEV_TASK_SCHED_REMOVE => hev_task_system_remove_current_task x HEV_TASK_STOPPED
  end.

(** The kernel context: [None] for the entry by [hev_task_system_run], otherwise what the
    current task jumped with. *)
Definition hev_task_system_schedule (type : option sched_type) (x : HevTaskSystemContext) (ps : list poll)
    : outcome (option HevTaskSystemContext) :=
  let! x := (match type with None => Val x | Some type => leave_task type x end) in
  if total_task_count x =? 0 then Val (Some (set_current NULL x))
  else hev_task_system_pick_current_task x ps.

Definition hev_task_system_run_new_task (x : HevTaskSystemContext) (task : Z) : outcome HevTaskSystemContext :=
  let! t := get_task x task in
  let! x :=
    (if negb (current_task x =? NULL) then
       let! m := hev_task_system_get_min_sched_key x in
       Val (put_task task (set_key (u64 (sched_key t + m)) t) x)
     else Val x) in
  let! x := hev_task_system_insert_task x task in
  Val (set_counts (u32 (total_task_count x + 1)) (running_task_count x) x).

(** ** Tasks *)

(** [mem] and [stack] are the allocators' answers. *)
Definition hev_task_new (x : HevTaskSystemContext) (mem : Z) (stack : bool) : outcome (Z * HevTaskSystemContext) :=
  if mem =? NULL then Val (NULL, x)
  else if negb stack then Val (NULL, x)
  else
    let t := mkTask 0 NULL 1 0 HEV_TASK_PRIORITY_DEFAULT HEV_TASK_STOPPED in
    let! (l, n) := HevList.hev_list_add_tail (all_tasks x) (<[mem := HevList.mkLNode 0 0]> (lnodes x)) mem in
    Val (mem, put_task mem t (set_running (with_cells (<[mem := RBTree.mkRBNode 0 0 0]>) (running_tasks x)) (set_all l n x))).

Definition hev_task_ref (x : HevTaskSystemContext) (self : Z) : outcome HevTaskSystemContext :=
  let! t := get_task x self in Val (put_task self (set_refs (i32 (ref_count t + 1)) t) x).

Definition hev_task_set_priority (x : HevTaskSystemContext) (self p : Z) : outcome HevTaskSystemContext :=
  let! t := get_task x self in
  let p :=
    if p <? HEV_TASK_PRIORITY_MIN then HEV_TASK_PRIORITY_MIN
    else if p >? HEV_TASK_PRIORITY_MAX then HEV_TASK_PRIORITY_MAX
    else p in
  Val (put_task self (set_next_priority p t) x).

Definition hev_task_run (x : HevTaskSystemContext) (self : Z) : outcome HevTaskSystemContext :=
  let! t := get_task x self in
  if bool_decide (state t <> HEV_TASK_STOPPED) then Val x
  else
    let t := mkTask (u64 (next_priority t)) (joiner t) (ref_count t) (next_priority t) (next_priority t) (state t) in
    hev_task_system_run_new_task (put_task self t x) self.

(** What [hev_task_executer] does after the entry of the task returned. *)
Definition executer_exit (x : HevTaskSystemContext) (ps : list poll) : outcome (option HevTaskSystemContext) :=
  let! t := get_task x (current_task x) in
  let! x := (if negb (joiner t =? NULL) then hev_task_system_wakeup_task_with_context x (joiner t) else Val x) in
  hev_task_system_schedule (Some HEV_TASK_SCHED_REMOVE) x ps.

(** [hev_task_join]: the entry, and one round of its loop up to the yield; [true] once
    the task has stopped. *)
Definition join_enter (x : HevTaskSystemContext) (task : Z) : outcome (Z * HevTaskSystemContext) :=
  let! t := get_task x task in
  if negb (joiner t =? NULL) then Val (-1, x)
  else Val (0, put_task task (set_joiner (current_task x) t) x).

Definition join_round (x : HevTaskSystemContext) (task : Z) : outcome (bool * HevTaskSystemContext) :=
  let! t := get_task x task in
  if bool_decide (state t = HEV_TASK_STOPPED) then Val (true, x)
  else let! x := hev_task_system_wakeup_task_with_context x task in Val (false, x).

End TaskSystem.
