(* ===== verification/TaskSystemInv.v ===== *)
(** * The scheduler keeps its run queue

    [sched_ok] is the invariant of the scheduler between two calls: the tree of running
    tasks is the sequence of the tasks in state RUNNING ordered by their keys, and the
    counters, the list of all tasks and the timer's tree agree with the tasks. *)

From Stdlib Require Import ZArith Lia Sorted.
From stdpp Require Import base list gmap numbers.
From S2P Require Import Prelude HevList RBTree RBTreeRep RBTreeIter RBTreeCached TaskSystem.
Import list_basics.list list_relations.list list_monad.list list_misc.list.
Import RBTreeCached TaskSystem.

Module TaskSystemInv.

Abbreviation cells_of x := (RBTree.cells (base (running_tasks x))).

Definition key (x : HevTaskSystemContext) (a : Z) : Z := from_option sched_key 0 (tasks x !! a).

Definition has (x : HevTaskSystemContext) (P : HevTaskState -> Prop) (a : Z) : Prop :=
  exists t, tasks x !! a = Some t /\ P (state t).

Record task_ok (t : HevTask) : Prop := {
  t_priority : HEV_TASK_PRIORITY_MIN <= priority t <= HEV_TASK_PRIORITY_MAX;
  t_next : HEV_TASK_PRIORITY_MIN <= next_priority t <= HEV_TASK_PRIORITY_MAX;
  t_refs : 1 <= ref_count t <= INT_MAX;
}.

(** Sleepers in the order in which they expire. *)
Definition sleeps_before (x : HevTaskSystemContext) (a b : Z) : Prop :=
  match timer_nodes (timer x) !! a, timer_nodes (timer x) !! b with
  | Some m, Some n => hev_task_timer_node_cmp (expire m) a (expire n) b < 0
  | _, _ => False
  end.

(** [xs] are the running tasks, [ls] those that were started and have not stopped, [zs]
    the nodes of the sleepers. *)
Record sched_ok (x : HevTaskSystemContext) (xs ls zs : list Z) : Prop := {
  s_queue : queue (running_tasks x) xs;
  s_order : StronglySorted (fun a b => key x a <= key x b) xs;
  s_running : forall a, a ∈ xs <-> has x (eq HEV_TASK_RUNNING) a;
  s_live : NoDup ls /\ forall a, a ∈ ls <-> has x (fun s => s <> HEV_TASK_STOPPED) a;
  s_tasks : forall a t, tasks x !! a = Some t -> task_ok t /\ a <> NULL /\ RBTreeRep.aligned a /\ is_Some (cells_of x !! a);
  s_all : exists l, HevList.dlist (lnodes x) (all_tasks x) l /\ forall a, a ∈ l <-> is_Some (tasks x !! a);
  s_count : running_task_count x = zlen xs;
  s_total : total_task_count x = zlen ls;
  s_small : zlen ls < 2 ^ 31;
  s_timer : queue (sort_tree (timer x)) zs;
  s_expire : StronglySorted (sleeps_before x) zs;
  s_nodes : forall a, is_Some (timer_nodes (timer x) !! a) -> a ∈ zs;
  s_sleepers : forall a, a ∈ zs -> exists n, timer_nodes (timer x) !! a = Some n /\ has x (fun s => s <> HEV_TASK_STOPPED) (sleeper n);
}.

Lemma key_eq x a t : tasks x !! a = Some t -> key x a = sched_key t.
Proof. unfold key. by intros ->. Qed.

Lemma get_task_ok x a t : tasks x !! a = Some t -> get_task x a = Val t.
Proof. unfold get_task. by intros ->. Qed.

Lemma sorted_ext {A} (R R' : A -> A -> Prop) l :
  (forall a b, a ∈ l -> b ∈ l -> R a b -> R' a b) -> StronglySorted R l -> StronglySorted R' l.
Proof.
  intros HR. induction 1 as [|a l Hs IH Hf]; [constructor|]. constructor.
  - apply IH. intros b c Hb Hc. apply HR; by right.
  - rewrite Forall_forall in Hf |- *. intros b Hb. apply HR; [left|by right|by apply Hf].
Qed.

Lemma sorted_app {A} (R : A -> A -> Prop) l1 l2 :
  StronglySorted R (l1 ++ l2) <->
  StronglySorted R l1 /\ StronglySorted R l2 /\ forall a b, a ∈ l1 -> b ∈ l2 -> R a b.
Proof.
  induction l1 as [|a l1 IH]; cbn [app].
  { split; [|tauto]. intros Hs. split_and!; [constructor|done|]. by intros a b Ha%elem_of_nil. }
  split.
  - intros [Hs Hf]%StronglySorted_inv. apply IH in Hs as (S1 & S2 & D). apply Forall_app in Hf as [F1 F2].
    split_and!; [by constructor|done|]. intros b c [->|Hb]%elem_of_cons Hc; [by eapply Forall_forall in F2|by apply D].
  - intros ([S1 F1]%StronglySorted_inv & S2 & D). constructor.
    + apply IH. split_and!; [done..|]. intros b c Hb Hc. apply D; [by right|done].
    + apply Forall_app. split; [done|]. apply Forall_forall. intros c Hc. apply D; [left|done].
Qed.

Lemma running_live x xs ls zs a : sched_ok x xs ls zs -> a ∈ xs -> a ∈ ls.
Proof.
  intros S Ha. apply (s_live _ _ _ _ S). apply (s_running _ _ _ _ S) in Ha as (t & Et & Es). exists t. split; [done|]. by rewrite <- Es.
Qed.

Lemma running_small x xs ls zs : sched_ok x xs ls zs -> zlen xs <= zlen ls.
Proof.
  intros S. unfold zlen. apply inj_le, submseteq_length, NoDup_submseteq; [by eapply queue_nodup, s_queue|].
  intros a. by eapply running_live.
Qed.

(** ** Changing a task *)

(** A change of a task that keeps its state and, in the queue, its key. *)
Lemma put_ok x xs ls zs a t t' :
  sched_ok x xs ls zs -> tasks x !! a = Some t -> state t' = state t -> task_ok t' ->
  (a ∈ xs -> sched_key t' = sched_key t) -> sched_ok (put_task a t' x) xs ls zs.
Proof.
  intros S Et Es Hok Hk. pose proof S as [S1 S2 S3 [S4 S4'] S5 S6 S7 S8 S9 S10 S11 S11' S12].
  assert (forall P b, has (put_task a t' x) P b <-> has x P b) as Hh.
  { intros P b. unfold has. cbn [tasks put_task set_tasks]. destruct (decide (b = a)) as [->|Hb].
    - rewrite lookup_insert_eq, Et. split; intros (u & [= <-] & Hu); eexists; (split; [done|]); congruence.
    - by rewrite lookup_insert_ne. }
  constructor; try done.
  - eapply sorted_ext; [|exact S2]. intros b c Hb Hc. unfold key. cbn [tasks put_task set_tasks].
    destruct (decide (b = a)) as [->|Hba], (decide (c = a)) as [->|Hca];
      rewrite ?lookup_insert_eq, ?lookup_insert_ne by done; rewrite ?Et; cbn; rewrite ?Hk by done; done.
  - intros b. by rewrite Hh.
  - split; [done|]. intros b. by rewrite Hh.
  - intros b u. cbn [tasks put_task set_tasks]. rewrite lookup_insert_Some. intros [[<- <-]|[_ Hu]]; [|by apply S5].
    split; [done|]. by apply (S5 a t).
  - destruct S6 as (l & Hl & Hd). exists l. split; [done|]. intros b. rewrite Hd. cbn [tasks put_task set_tasks].
    rewrite lookup_insert_is_Some. split; [|by intros [<-|[]]; [rewrite Et|]]. intros Hb.
    destruct (decide (a = b)); [by left|by right].
  - intros b Hb. destruct (S12 b Hb) as (n & En & Hn). exists n. split; [done|]. by apply Hh.
Qed.

(** ** The run queue *)

(** Where a task with the key [k] belongs: behind the tasks with a key up to [k]. *)
Lemma key_split x xs k : StronglySorted (fun a b => key x a <= key x b) xs ->
  exists us vs, xs = us ++ vs /\ Forall (fun a => key x a <= k) us /\ Forall (fun a => k < key x a) vs.
Proof.
  induction 1 as [|a xs Hs (us & vs & -> & F1 & F2) Hf]; [by exists [], []|].
  destruct (decide (key x a <= k)) as [Ha|Ha].
  - exists (a :: us), vs. split_and!; [done|by constructor|done].
  - exists [], (a :: us ++ vs). split_and!; [done|constructor|]. constructor; [lia|]. eapply Forall_impl; [exact Hf|].
    cbn. lia.
Qed.

Lemma raw_insert_ok x xs ks a t :
  queue (running_tasks x) xs -> StronglySorted (fun b c => key x b <= key x c) xs ->
  (forall b, b ∈ xs -> is_Some (tasks x !! b)) -> a ∉ xs -> tasks x !! a = Some t -> ks = sched_key t ->
  a <> NULL -> RBTreeRep.aligned a -> is_Some (cells_of x !! a) ->
  exists c us vs, _hev_task_system_insert_task x a = Val (set_running c x) /\ queue c (us ++ a :: vs) /\
    xs = us ++ vs /\ Forall (fun b => key x b <= ks) us /\ Forall (fun b => ks < key x b) vs /\
    forall y, is_Some (cells_of x !! y) -> is_Some (RBTree.cells (base c) !! y).
Proof.
  intros Hq Hs Hin Ha Et -> Hn Al [n0 Hc]. destruct (key_split x xs (sched_key t) Hs) as (us & vs & -> & F1 & F2).
  destruct (insert_node_ok (tree_fuel (running_tasks x)) (key_before x (sched_key t))
    (fun b => sched_key t <? key x b) (running_tasks x) us vs a n0) as (c & E & Q & O); try done.
  - intros b Hb. destruct (Hin b Hb) as [u Eu]. unfold key_before. rewrite (get_task_ok _ _ _ Eu). cbn [obind].
    by rewrite (key_eq _ _ _ Eu).
  - eapply Forall_impl; [exact F1|]. cbn. intros b Hb. by apply Z.ltb_ge.
  - eapply Forall_impl; [exact F2|]. cbn. intros b Hb. by apply Z.ltb_lt.
  - unfold tree_fuel. pose proof (queue_size _ _ Hq). lia.
  - exists c, us, vs. split_and!; try done.
    + unfold _hev_task_system_insert_task. rewrite (get_task_ok _ _ _ Et). cbn [obind]. by rewrite E.
    + intros y Hy. destruct (decide (y ∈ a :: us ++ vs)) as [Hyi|Hyi]; [|by rewrite O].
      eapply queue_cell; [exact Q|]. by rewrite Permutation_middle in Hyi.
Qed.

Lemma has_put x P a t b : has (put_task a t x) P b <-> (b = a /\ P (state t)) \/ (b <> a /\ has x P b).
Proof.
  unfold has. cbn [tasks put_task set_tasks]. destruct (decide (b = a)) as [->|Hb].
  - rewrite lookup_insert_eq. split; [intros (u & [= <-] & Hu); by left|]. intros [[_ Hu]|[]]; [by eexists|done].
  - rewrite lookup_insert_ne by done. split; [by right|]. by intros [[]|[_ H]].
Qed.

Lemma key_put x a t b : key (put_task a t x) b = if decide (b = a) then sched_key t else key x b.
Proof.
  unfold key. cbn [tasks put_task set_tasks]. destruct (decide (b = a)) as [->|Hb]; [by rewrite lookup_insert_eq|].
  by rewrite lookup_insert_ne.
Qed.

(** Sorting a task in keeps the order. *)
Lemma sorted_in (f : Z -> Z) us a vs :
  StronglySorted (fun b c => f b <= f c) (us ++ vs) -> Forall (fun b => f b <= f a) us -> Forall (fun b => f a < f b) vs ->
  StronglySorted (fun b c => f b <= f c) (us ++ a :: vs).
Proof.
  rewrite !sorted_app. intros (S1 & S2 & D) F1 F2. split_and!; [done| |].
  - constructor; [done|]. eapply Forall_impl; [exact F2|]. cbn. lia.
  - intros b c Hb [->|Hc]%elem_of_cons; [by eapply Forall_forall in F1|by apply D].
Qed.

(** What is left to prove for a task that became running. *)
Lemma activated_ok x xs ls zs ls' total a t c us vs :
  sched_ok x xs ls zs -> tasks x !! a = Some t -> a ∉ xs ->
  queue c (us ++ a :: vs) -> xs = us ++ vs ->
  Forall (fun b => key x b <= sched_key t) us -> Forall (fun b => sched_key t < key x b) vs ->
  (forall y, is_Some (cells_of x !! y) -> is_Some (RBTree.cells (base c) !! y)) ->
  NoDup ls' -> (forall b, b ∈ ls' <-> b = a \/ b ∈ ls) -> total = zlen ls' -> zlen ls' < 2 ^ 31 ->
  sched_ok (set_counts total (running_task_count x + 1) (set_running c (put_task a (activate HEV_TASK_RUNNING t) x)))
    (us ++ a :: vs) ls' zs.
Proof.
  intros S Et Ha Q -> F1 F2 Hc Hnd Hls -> Hsm. pose proof S as [S1 S2 S3 [S4 S4'] S5 S6 S7 S8 S9 S10 S11 S11' S12].
  set (x1 := put_task a (activate HEV_TASK_RUNNING t) x).
  assert (forall b, key x1 b = key x b) as Hk.
  { intros b. unfold x1. rewrite key_put. destruct (decide (b = a)) as [->|]; [by rewrite (key_eq _ _ _ Et)|done]. }
  assert (forall P b, has (set_counts (zlen ls') (running_task_count x + 1) (set_running c x1)) P b <-> has x1 P b) as Hh by done.
  constructor; cbn [running_tasks tasks lnodes all_tasks running_task_count total_task_count timer set_counts set_running]; try done.
  - change (StronglySorted (fun b d => key x1 b <= key x1 d) (us ++ a :: vs)). eapply sorted_ext with (R := fun b d => key x b <= key x d).
    { intros b d _ _. by rewrite !Hk. }
    apply sorted_in; [done|..]; by rewrite (key_eq _ _ _ Et).
  - intros b. rewrite Hh. unfold x1. rewrite has_put, <- Permutation_middle, elem_of_cons, S3. cbn [state activate].
    split; [intros [->|H]; [by left|]|intros [[-> _]|[_ H]]; [by left|by right]].
    destruct (decide (b = a)) as [->|]; [by left|by right].
  - split; [done|]. intros b. rewrite Hh, Hls. unfold x1. rewrite has_put, S4'. cbn [state activate].
    split; [intros [->|H]; [by left|]|intros [[-> _]|[_ H]]; [by left|by right]].
    destruct (decide (b = a)) as [->|]; [by left|by right].
  - intros b u. cbn [tasks put_task set_tasks x1]. rewrite lookup_insert_Some. intros [[<- <-]|[_ Hu]].
    + destruct (S5 _ _ Et) as ([T1 T2 T3] & ? & ? & ?). split; [by constructor|]. split_and!; [done..|]. by apply Hc.
    + destruct (S5 _ _ Hu) as (? & ? & ? & ?). split_and!; [done..|]. by apply Hc.
  - destruct S6 as (l & Hl & Hd). exists l. split; [done|]. intros b. rewrite Hd. cbn [tasks put_task set_tasks x1].
    rewrite lookup_insert_is_Some. destruct (decide (a = b)) as [<-|]; [by rewrite Et; split; [left|]|]. split; [by right|by intros [|[]]].
  - rewrite S7. unfold zlen. rewrite !length_app. cbn [length]. lia.
  - intros b Hb. destruct (S12 b Hb) as (n & En & Hn). exists n. split; [done|]. rewrite Hh. unfold x1. rewrite has_put. cbn [state activate].
    destruct (decide (sleeper n = a)); [by left|by right].
Qed.

Lemma insert_task_ok x xs ls zs a t :
  sched_ok x xs ls zs -> tasks x !! a = Some t -> a ∉ xs -> zlen xs < 2 ^ 31 ->
  exists c us vs,
    hev_task_system_insert_task x a =
      Val (set_counts (total_task_count x) (running_task_count x + 1) (set_running c (put_task a (activate HEV_TASK_RUNNING t) x))) /\
    queue c (us ++ a :: vs) /\ xs = us ++ vs /\
    Forall (fun b => key x b <= sched_key t) us /\ Forall (fun b => sched_key t < key x b) vs /\
    (forall y, is_Some (cells_of x !! y) -> is_Some (RBTree.cells (base c) !! y)).
Proof.
  intros S Et Ha Hsm. pose proof S as [S1 S2 S3 [S4 S4'] S5 S6 S7 S8 S9 S10 S11 S11' S12].
  destruct (S5 _ _ Et) as (_ & Hn & Al & Hc). unfold hev_task_system_insert_task. rewrite (get_task_ok _ _ _ Et). cbn [obind].
  set (x1 := put_task a (activate HEV_TASK_RUNNING t) x).
  assert (forall b, key x1 b = key x b) as Hk.
  { intros b. unfold x1. rewrite key_put. destruct (decide (b = a)) as [->|]; [by rewrite (key_eq _ _ _ Et)|done]. }
  destruct (raw_insert_ok x1 xs (sched_key t) a (activate HEV_TASK_RUNNING t)) as (c & us & vs & -> & Q & -> & F1 & F2 & Hcs); try done.
  - eapply sorted_ext; [|exact S2]. intros b d _ _. by rewrite !Hk.
  - intros b Hb. cbn [tasks put_task set_tasks x1]. rewrite lookup_insert_is_Some. apply S3 in Hb as (u & Eu & _).
    destruct (decide (a = b)); [by left|right; by rewrite Eu].
  - apply lookup_insert_eq.
  - cbn [obind]. exists c, us, vs. split; [|split_and!; try done; eapply Forall_impl; eauto; cbn; intros; by rewrite <- Hk].
    cbn [total_task_count running_task_count set_running x1 put_task set_tasks]. rewrite S7, u32_id; [done|].
    pose proof (zlen_nonneg (us ++ vs)). unfold is_u32. lia.
Qed.

(** ** Waking up *)

Lemma min_key_ok x xs ls zs : sched_ok x xs ls zs ->
  hev_task_system_get_min_sched_key x = Val (match xs with [] => 0 | a :: _ => key x a end).
Proof.
  intros S. unfold hev_task_system_get_min_sched_key, hev_rbtree_cached_first. rewrite (q_first _ _ (s_queue _ _ _ _ S)).
  destruct xs as [|a xs]; [done|]. cbn [RBTreeIter.first_of hd].
  assert (a ∈ a :: xs) as Ha by left. pose proof (queue_nonnull _ _ _ (s_queue _ _ _ _ S) Ha) as Hn.
  apply (s_running _ _ _ _ S) in Ha as (t & Et & _). rewrite (proj2 (Z.eqb_neq a NULL) Hn), (get_task_ok _ _ _ Et). cbn [obind].
  by rewrite (key_eq _ _ _ Et).
Qed.

(** The key with which a waiting task enters the run queue. *)
Definition wake_key (x : HevTaskSystemContext) (xs : list Z) (t : HevTask) : Z :=
  u64 (sched_key t + match xs with [] => 0 | a :: _ => key x a end).

(** [x'] differs from [x] in the waiting task [a], which became running. *)
Definition woke (x x' : HevTaskSystemContext) (xs : list Z) (a : Z) (t : HevTask) (us vs : list Z) : Prop :=
  xs = us ++ vs /\ tasks x' = <[a := activate HEV_TASK_RUNNING (set_key (wake_key x xs t) t)]> (tasks x) /\
  current_task x' = current_task x /\ timer x' = timer x /\
  Forall (fun b => key x b <= wake_key x xs t) us /\ Forall (fun b => wake_key x xs t < key x b) vs.

Lemma wakeup_ok x xs ls zs a t :
  sched_ok x xs ls zs -> tasks x !! a = Some t -> state t <> HEV_TASK_STOPPED ->
  exists x' xs', hev_task_system_wakeup_task_with_context x a = Val x' /\ sched_ok x' xs' ls zs /\
    (state t = HEV_TASK_RUNNING /\ x' = x /\ xs' = xs \/
     state t = HEV_TASK_WAITING /\ exists us vs, xs' = us ++ a :: vs /\ woke x x' xs a t us vs).
Proof.
  intros S Et Hst. unfold hev_task_system_wakeup_task_with_context. rewrite (get_task_ok _ _ _ Et). cbn [obind].
  destruct (state t) eqn:Es; [done|by exists x, xs; split_and!; [..|left]|].
  rewrite (min_key_ok _ _ _ _ S). cbn [obind]. fold (wake_key x xs t).
  assert (a ∉ xs) as Ha. { intros Hin. apply (s_running _ _ _ _ S) in Hin as (u & Eu & Hu). congruence. }
  set (x1 := put_task a (set_key (wake_key x xs t) t) x).
  assert (sched_ok x1 xs ls zs) as S1.
  { eapply put_ok; [done..| |]; [|done]. destruct (s_tasks _ _ _ _ S _ _ Et) as ([] & _). by constructor. }
  pose proof (running_small _ _ _ _ S) as Hxs. pose proof (s_small _ _ _ _ S) as Hsm.
  destruct (insert_task_ok x1 xs ls zs a (set_key (wake_key x xs t) t)) as (c & us & vs & -> & Q & -> & F1 & F2 & Hc); try done.
  { apply lookup_insert_eq. }
  { lia. }
  assert (a ∈ ls) as Hal. { apply (s_live _ _ _ _ S). exists t. split; [done|]. by rewrite Es. }
  eexists _, (us ++ a :: vs). split; [done|]. split.
  - eapply activated_ok; try done; [apply lookup_insert_eq|apply (s_live _ _ _ _ S)| |apply (s_total _ _ _ _ S)].
    intros b. split; [by right|]. by intros [->|].
  - right. split; [done|]. exists us, vs. split; [done|]. split_and!; try done.
    + cbn [tasks set_counts set_running put_task set_tasks x1]. by rewrite insert_insert_eq.
    + rewrite Forall_forall in F1 |- *. intros b Hb. specialize (F1 b Hb). unfold x1 in F1. rewrite key_put, decide_False in F1; [done|].
      intros ->. apply Ha, elem_of_app. by left.
    + rewrite Forall_forall in F2 |- *. intros b Hb. specialize (F2 b Hb). unfold x1 in F2. rewrite key_put, decide_False in F2; [done|].
      intros ->. apply Ha, elem_of_app. by right.
Qed.

(** ** Leaving the processor *)

(** The tree without the task [a]. *)
Lemma raw_erase_ok x xs us a vs :
  queue (running_tasks x) xs -> xs = us ++ a :: vs ->
  exists c, hev_rbtree_cached_erase (tree_fuel (running_tasks x)) (running_tasks x) a = Val c /\ queue c (us ++ vs) /\
    forall y, is_Some (cells_of x !! y) <-> is_Some (RBTree.cells (base c) !! y).
Proof.
  intros Q ->. destruct (cached_erase_ok (tree_fuel (running_tasks x)) (running_tasks x) us a vs Q) as (c & E & Qc & _).
  { unfold tree_fuel. pose proof (queue_size _ _ Q). lia. }
  exists c. split; [done|]. split; [done|]. intros y. by rewrite <- !(elem_of_dom (D := gset Z)), (cached_erase_dom _ _ _ _ E).
Qed.

Lemma sorted_out {A} (R : A -> A -> Prop) us a vs : StronglySorted R (us ++ a :: vs) -> StronglySorted R (us ++ vs).
Proof.
  rewrite !sorted_app. intros (S1 & [S2 _]%StronglySorted_inv & D). split_and!; [done..|].
  intros b c Hb Hc. apply D; [done|by right].
Qed.

Lemma not_in_rest x xs ls zs us a vs : sched_ok x xs ls zs -> xs = us ++ a :: vs -> a ∉ us ++ vs.
Proof.
  intros S ->. pose proof (queue_nodup _ _ (s_queue _ _ _ _ S)) as ND. rewrite <- Permutation_middle in ND. by apply NoDup_cons in ND as [].
Qed.

(** The invariant without the running task [a], whose fields may change. *)
Lemma removed_ok x xs ls zs ls' total us a vs c t t' :
  sched_ok x xs ls zs -> xs = us ++ a :: vs -> tasks x !! a = Some t -> task_ok t' -> state t' <> HEV_TASK_RUNNING ->
  queue c (us ++ vs) -> (forall y, is_Some (cells_of x !! y) <-> is_Some (RBTree.cells (base c) !! y)) ->
  NoDup ls' -> (forall b, b ∈ ls' <-> if decide (b = a) then state t' <> HEV_TASK_STOPPED else b ∈ ls) ->
  total = zlen ls' -> zlen ls' < 2 ^ 31 ->
  (state t' = HEV_TASK_STOPPED -> forall z n, z ∈ zs -> timer_nodes (timer x) !! z = Some n -> sleeper n <> a) ->
  sched_ok (set_counts total (running_task_count x - 1) (set_running c (put_task a t' x))) (us ++ vs) ls' zs.
Proof.
  intros S E Et Hok Hst Q Hc Hnd Hls -> Hsm Hsl. pose proof (not_in_rest _ _ _ _ _ _ _ S E) as Hni.
  pose proof S as [S1 S2 S3 [S4 S4'] S5 S6 S7 S8 S9 S10 S11 S11' S12].
  assert (forall P b, has (set_counts (zlen ls') (running_task_count x - 1) (set_running c (put_task a t' x))) P b <->
    has (put_task a t' x) P b) as Hh by done.
  constructor; cbn [running_tasks tasks lnodes all_tasks running_task_count total_task_count timer set_counts set_running]; try done.
  - change (StronglySorted (fun b d => key (put_task a t' x) b <= key (put_task a t' x) d) (us ++ vs)).
    rewrite E in S2. eapply sorted_ext; [|by eapply sorted_out].
    intros b d Hb Hd. rewrite !key_put, !decide_False; [done|..]; by intros ->.
  - intros b. rewrite Hh, has_put. split.
    + intros Hb. right. split; [by intros ->|]. apply S3. rewrite E, <- Permutation_middle. by right.
    + intros [[-> Hr]|[Hb Hr]]; [by rewrite <- Hr in Hst|]. apply S3 in Hr. rewrite E, <- Permutation_middle in Hr.
      by apply elem_of_cons in Hr as [|].
  - split; [done|]. intros b. rewrite Hh, has_put, Hls. destruct (decide (b = a)); [|rewrite S4']; tauto.
  - intros b u. cbn [tasks put_task set_tasks]. rewrite lookup_insert_Some. intros [[<- <-]|[_ Hu]].
    + destruct (S5 _ _ Et) as (_ & ? & ? & ?). split_and!; [done..|]. by apply Hc.
    + destruct (S5 _ _ Hu) as (? & ? & ? & ?). split_and!; [done..|]. by apply Hc.
  - destruct S6 as (l & Hl & Hd). exists l. split; [done|]. intros b. rewrite Hd. cbn [tasks put_task set_tasks].
    rewrite lookup_insert_is_Some. destruct (decide (a = b)) as [<-|]; [by rewrite Et; split; [left|]|]. split; [by right|by intros [|[]]].
  - rewrite S7, E. unfold zlen. rewrite !length_app. cbn [length]. lia.
  - intros b Hb. destruct (S12 b Hb) as (n & En & Hn). exists n. split; [done|]. rewrite Hh, has_put.
    destruct (decide (sleeper n = a)) as [Ea|]; [|by right]. left. split; [done|]. intros Hs. by eapply Hsl.
Qed.

Lemma get_put x a t : get_task (put_task a t x) a = Val t.
Proof. unfold get_task. cbn. by rewrite lookup_insert_eq. Qed.

Lemma put_put x a t t' : put_task a t' (put_task a t x) = put_task a t' x.
Proof. unfold put_task, set_tasks. cbn. by rewrite insert_insert_eq. Qed.

Lemma key_other x a t b : b <> a -> key (put_task a t x) b = key x b.
Proof. intros Hb. by rewrite key_put, decide_False. Qed.

(** [HEV_TASK_SCHED_SWITCH]: the current task goes behind the tasks with a key up to its
    new one. *)
Lemma switch_ok x xs ls zs t :
  sched_ok x xs ls zs -> current_task x ∈ xs -> tasks x !! current_task x = Some t ->
  let c := current_task x in let k := u64 (sched_key t + priority t) in
  exists x' us0 vs0 us vs, leave_task HEV_TASK_SCHED_SWITCH x = Val x' /\ sched_ok x' (us ++ c :: vs) ls zs /\
    xs = us0 ++ c :: vs0 /\ us0 ++ vs0 = us ++ vs /\
    tasks x' = <[c := activate HEV_TASK_RUNNING (set_key k t)]> (tasks x) /\
    current_task x' = c /\ timer x' = timer x /\
    Forall (fun b => key x b <= k) us /\ Forall (fun b => k < key x b) vs.
Proof.
  intros S Hc Et c k. fold c in Et, Hc. apply list_elem_of_split in Hc as (us0 & vs0 & E).
  pose proof (not_in_rest _ _ _ _ _ _ _ S E) as Hni. destruct (s_tasks _ _ _ _ S _ _ Et) as ([T1 T2 T3] & Hn & Al & Hcell).
  assert (state t = HEV_TASK_RUNNING) as Est.
  { assert (c ∈ xs) as Hin by (rewrite E; apply elem_of_app; right; left). apply (s_running _ _ _ _ S) in Hin as (u & Eu & Hu). congruence. }
  cbn [leave_task]. unfold hev_task_system_update_sched_key. fold c. rewrite (get_task_ok _ _ _ Et). cbn [obind].
  rewrite Z.mul_1_l. fold k. unfold hev_task_system_reinsert_current_task. change (current_task (put_task c _ x)) with c.
  rewrite get_put. cbn [obind state set_key]. rewrite put_put, Est.
  set (x2 := put_task c (activate HEV_TASK_RUNNING (set_key k t)) x).
  destruct (raw_erase_ok x xs us0 c vs0 (s_queue _ _ _ _ S) E) as (c1 & E1 & Q1 & H1).
  change (running_tasks x2) with (running_tasks x). rewrite E1. cbn [obind].
  set (t' := set_state HEV_TASK_WAITING (set_key k t)).
  assert (c ∈ ls) as Hl by (eapply running_live; [done|]; rewrite E; apply elem_of_app; right; left).
  pose proof (removed_ok x xs ls zs ls (total_task_count x) us0 c vs0 c1 t t' S E Et) as Sy.
  set (y := set_counts (total_task_count x) (running_task_count x - 1) (set_running c1 (put_task c t' x))) in Sy.
  assert (sched_ok y (us0 ++ vs0) ls zs) as Sy'.
  { apply Sy; try done; [apply (s_live _ _ _ _ S)| |apply (s_total _ _ _ _ S)|apply (s_small _ _ _ _ S)].
    intros b. by destruct (decide (b = c)) as [->|]. }
  clear Sy. assert (forall b, b ∈ us0 ++ vs0 -> key (set_running c1 x2) b = key x b /\ key y b = key x b) as Hk.
  { intros b Hb. assert (b <> c) as Hbc by (by intros ->). split; apply (key_other x); done. }
  destruct (raw_insert_ok (set_running c1 x2) (us0 ++ vs0) k c (activate HEV_TASK_RUNNING (set_key k t)))
    as (c2 & us & vs & -> & Q2 & E2 & F1 & F2 & H2); try done.
  { eapply sorted_ext; [|exact (s_order _ _ _ _ Sy')]. intros b d Hb Hd. destruct (Hk b Hb) as [-> ->], (Hk d Hd) as [-> ->]. done. }
  { intros b Hb. cbn [tasks set_running put_task set_tasks x2]. rewrite lookup_insert_is_Some. destruct (decide (c = b)); [by left|right].
    split; [done|]. apply (s_running _ _ _ _ Sy') in Hb as (u & Eu & _). cbn in Eu. rewrite lookup_insert_ne in Eu by done. by rewrite Eu. }
  { apply lookup_insert_eq. }
  { by apply H1. }
  assert (Forall (fun b => key x b <= k) us /\ Forall (fun b => k < key x b) vs) as [G1 G2].
  { rewrite E2 in Hk. split; apply Forall_forall; intros b Hb; [eapply Forall_forall in F1|eapply Forall_forall in F2]; eauto; cbn in *;
      destruct (Hk b) as [<- _]; try done; apply elem_of_app; by (left + right). }
  exists (set_running c2 (set_running c1 x2)), us0, vs0, us, vs. split; [done|]. split; [|by split_and!].
  pose proof (activated_ok y (us0 ++ vs0) ls zs ls (total_task_count x) c t' c2 us vs Sy') as Sa.
  assert (set_running c2 (set_running c1 x2) =
    set_counts (total_task_count x) (running_task_count y + 1) (set_running c2 (put_task c (activate HEV_TASK_RUNNING t') y))) as ->.
  { unfold x2, y, set_counts, set_running, put_task, set_tasks. cbn. rewrite insert_insert_eq. f_equal. lia. }
  apply Sa; try done.
  - apply lookup_insert_eq.
  - rewrite E2 in Hk. apply Forall_forall. intros b Hb. eapply Forall_forall in G1; [|done]. cbn in *. destruct (Hk b) as [_ ->]; [apply elem_of_app; by left|done].
  - rewrite E2 in Hk. apply Forall_forall. intros b Hb. eapply Forall_forall in G2; [|done]. cbn in *. destruct (Hk b) as [_ ->]; [apply elem_of_app; by right|done].
  - apply (s_live _ _ _ _ S).
  - intros b. split; [by right|by intros [->|]].
  - apply (s_total _ _ _ _ S).
  - apply (s_small _ _ _ _ S).
Qed.

(** [HEV_TASK_SCHED_WAITIO]: the current task leaves the queue and keeps its priority as
    the key to come back with. *)
Lemma wait_ok x xs ls zs t :
  sched_ok x xs ls zs -> current_task x ∈ xs -> tasks x !! current_task x = Some t ->
  let c := current_task x in
  exists x' us vs, leave_task HEV_TASK_SCHED_WAITIO x = Val x' /\ sched_ok x' (us ++ vs) ls zs /\ xs = us ++ c :: vs /\
    tasks x' = <[c := set_key (next_priority t) (set_state HEV_TASK_WAITING t)]> (tasks x) /\
    current_task x' = c /\ timer x' = timer x.
Proof.
  intros S Hc Et c. fold c in Et, Hc. apply list_elem_of_split in Hc as (us & vs & E).
  assert (c ∈ ls) as Hl by (eapply running_live; [done|]; rewrite E; apply elem_of_app; right; left).
  destruct (s_tasks _ _ _ _ S _ _ Et) as ([T1 T2 T3] & _). cbn [leave_task]. unfold hev_task_system_update_sched_key. fold c.
  rewrite (get_task_ok _ _ _ Et). cbn [obind]. unfold hev_task_system_remove_current_task. change (current_task (put_task c _ x)) with c.
  rewrite get_put. cbn [obind]. rewrite put_put.
  destruct (raw_erase_ok x xs us c vs (s_queue _ _ _ _ S) E) as (c1 & E1 & Q1 & H1).
  match goal with |- context [running_tasks (put_task c ?t1 x)] => change (running_tasks (put_task c t1 x)) with (running_tasks x) end.
  rewrite E1. cbn [obind]. rewrite bool_decide_false by done. unfold get_task. cbn [tasks set_counts set_running put_task set_tasks].
  rewrite lookup_insert_eq. cbn [of_option obind set_state set_key next_priority sched_key joiner ref_count priority state].
  rewrite u64_id by (unfold HEV_TASK_PRIORITY_MIN, HEV_TASK_PRIORITY_MAX in *; lia).
  pose proof (removed_ok x xs ls zs ls (total_task_count x) us c vs c1 t (set_key (next_priority t) (set_state HEV_TASK_WAITING t)) S E Et) as Sy.
  eexists _, us, vs. split; [done|]. split; [|split_and!; try done; cbn; by rewrite insert_insert_eq].
  assert (forall a b : HevTaskSystemContext, a = b -> sched_ok b (us ++ vs) ls zs -> sched_ok a (us ++ vs) ls zs) as Heq by (by intros a b ->).
  eapply Heq; [|apply Sy; try done; [apply (s_live _ _ _ _ S)| |apply (s_total _ _ _ _ S)|apply (s_small _ _ _ _ S)]].
  - unfold put_task, set_tasks, set_counts, set_running. cbn. rewrite insert_insert_eq, (s_count _ _ _ _ S), u32_id; [done|].
    pose proof (running_small _ _ _ _ S). pose proof (s_small _ _ _ _ S). unfold is_u32. rewrite E. unfold zlen.
    rewrite length_app. cbn [length]. rewrite E in *. unfold zlen in *. rewrite length_app in *. cbn [length] in *. lia.
  - intros b. by destruct (decide (b = c)) as [->|].
Qed.

(** Dropping a reference; the last one is that of a task outside the scheduler. *)
Lemma task_unref_ok x xs ls zs a t :
  sched_ok x xs ls zs -> tasks x !! a = Some t -> (ref_count t = 1 -> state t = HEV_TASK_STOPPED) ->
  exists x', hev_task_unref x a = Val x' /\ sched_ok x' xs ls zs /\
    tasks x' = (if ref_count t =? 1 then delete a (tasks x) else <[a := set_refs (ref_count t - 1) t]> (tasks x)) /\
    current_task x' = current_task x /\ timer x' = timer x.
Proof.
  intros S Et Hst. destruct (s_tasks _ _ _ _ S _ _ Et) as ([T1 T2 T3] & Hn & _). unfold hev_task_unref.
  rewrite (get_task_ok _ _ _ Et). cbn [obind ref_count set_refs].
  rewrite i32_id by (unfold is_i32, INT_MIN, INT_MAX in *; lia). destruct (Z.eqb_spec (ref_count t) 1) as [E|E].
  - specialize (Hst E). rewrite E. cbn [Z.sub Z.opp Z.add Z.pos_sub Z.eqb negb].
    pose proof S as [S1 S2 S3 [S4 S4'] S5 (l & Hl & Hd) S7 S8 S9 S10 S11 S11' S12].
    assert (a ∈ l) as Hal by (apply Hd; by rewrite Et).
    destruct (HevList.del_ok (lnodes x) (all_tasks x) l a Hl Hal) as (l' & n & -> & Hl' & _ & _). cbn [obind].
    assert (forall P b, has (set_tasks (delete a (tasks x)) (set_running (with_cells (delete a) (running_tasks x))
      (set_all l' (delete a n) x))) P b <-> b <> a /\ has x P b) as Hh.
    { intros P b. unfold has. cbn [tasks set_tasks]. destruct (decide (b = a)) as [->|Hb]; [rewrite lookup_delete_eq; split; [by intros (? & [=] & _)|by intros []]|].
      rewrite lookup_delete_ne by done. tauto. }
    assert (a ∉ xs) as Hx. { intros (u & Eu & Hu)%S3. congruence. }
    eexists. split; [done|]. split; [constructor; cbn [running_tasks tasks lnodes all_tasks running_task_count total_task_count timer set_tasks set_running set_all]; try done|].
    + eapply queue_frame; [..|exact S1]; [done..|]. intros y Hy. cbn [base with_cells RBTree.cells]. rewrite lookup_delete_ne; [done|]. by intros ->.
    + eapply sorted_ext; [|exact S2]. intros b c Hb Hc. unfold key. cbn [tasks set_tasks]. rewrite !lookup_delete_ne; [done|..]; by intros ->.
    + intros b. rewrite Hh, S3. split; [|tauto]. intros Hb. split; [|done]. intros ->. apply Hx. by apply S3.
    + split; [done|]. intros b. rewrite Hh, S4'. split; [|tauto]. intros Hb. split; [|done]. intros ->. destruct Hb as (u & Eu & Hu). congruence.
    + intros b u. rewrite lookup_delete_Some. intros [Hb Hu]. destruct (S5 _ _ Hu) as (? & ? & ? & ?). split_and!; [done..|].
      cbn [base with_cells RBTree.cells]. by rewrite lookup_delete_ne.
    + exists (HevList.seq_del l a). split.
      * destruct Hl' as [Hnd' Hs']. split; [done|]. eapply HevList.dseg_frame; [|exact Hs']. intros y Hy. rewrite lookup_delete_ne; [done|].
        intros <-. by apply list_elem_of_filter in Hy as [].
      * intros b. unfold HevList.seq_del. rewrite list_elem_of_filter, Hd. destruct (decide (b = a)) as [->|]; [rewrite lookup_delete_eq; split; [by intros []|by intros [? [=]]]|].
        rewrite lookup_delete_ne by done. tauto.
    + intros b Hb. destruct (S12 b Hb) as (m & Em & Hm). exists m. split; [done|]. rewrite Hh. split; [|done].
      intros Ea. rewrite Ea in Hm. destruct Hm as (u & Eu & Hu). congruence.
    + done.
  - rewrite (proj2 (Z.eqb_neq _ _)) by lia. cbn [negb]. eexists. split; [done|]. split; [|done].
    eapply put_ok; [done..| |done]. constructor; cbn; [done..|lia].
Qed.

(** The counters go down without wrapping. *)
Lemma counts_down x xs ls zs us a vs :
  sched_ok x xs ls zs -> xs = us ++ a :: vs ->
  u32 (running_task_count x - 1) = running_task_count x - 1 /\ u32 (total_task_count x - 1) = total_task_count x - 1.
Proof.
  intros S E. pose proof (running_small _ _ _ _ S) as H1. pose proof (s_small _ _ _ _ S) as H2.
  rewrite (s_count _ _ _ _ S), (s_total _ _ _ _ S). rewrite E in *. unfold zlen in *. rewrite length_app in *. cbn [length] in *.
  rewrite !u32_id by (unfold is_u32; lia). done.
Qed.

(** [HEV_TASK_SCHED_REMOVE]: the current task leaves the scheduler. *)
Lemma stop_ok x xs ls zs t :
  sched_ok x xs ls zs -> current_task x ∈ xs -> tasks x !! current_task x = Some t ->
  let c := current_task x in
  (forall z n, z ∈ zs -> timer_nodes (timer x) !! z = Some n -> sleeper n <> c) ->
  exists x' us vs ls', leave_task HEV_TASK_SCHED_REMOVE x = Val x' /\ sched_ok x' (us ++ vs) ls' zs /\ xs = us ++ c :: vs /\
    ls ≡ₚ c :: ls' /\ timer x' = timer x /\
    tasks x' = (if ref_count t =? 1 then delete c (tasks x)
                else <[c := set_refs (ref_count t - 1) (set_state HEV_TASK_STOPPED t)]> (tasks x)).
Proof.
  intros S Hc Et c Hz. fold c in Et, Hc.
  assert (c ∈ ls) as Hl by (by eapply running_live). apply elem_of_Permutation in Hl as [ls' Pl].
  destruct (s_live _ _ _ _ S) as [Hnd _]. rewrite Pl in Hnd. apply NoDup_cons in Hnd as [Hnl Hnd].
  assert (zlen ls = zlen ls' + 1) as El by (unfold zlen; rewrite Pl; cbn [length]; lia).
  apply list_elem_of_split in Hc as (us & vs & E). destruct (counts_down _ _ _ _ _ _ _ S E) as [D1 D2].
  destruct (s_tasks _ _ _ _ S _ _ Et) as ([T1 T2 T3] & _). cbn [leave_task]. unfold hev_task_system_remove_current_task. fold c.
  rewrite (get_task_ok _ _ _ Et). cbn [obind]. destruct (raw_erase_ok x xs us c vs (s_queue _ _ _ _ S) E) as (c1 & E1 & Q1 & H1).
  change (running_tasks (put_task c (set_state HEV_TASK_STOPPED t) x)) with (running_tasks x). rewrite E1. cbn [obind].
  rewrite bool_decide_true by done.
  pose proof (removed_ok x xs ls zs ls' (total_task_count x - 1) us c vs c1 t (set_state HEV_TASK_STOPPED t) S E Et) as Sy.
  set (y := set_counts (total_task_count x - 1) (running_task_count x - 1) (set_running c1 (put_task c (set_state HEV_TASK_STOPPED t) x))) in Sy.
  assert (sched_ok y (us ++ vs) ls' zs) as Sy'.
  { apply Sy; try done; [|rewrite (s_total _ _ _ _ S); lia|pose proof (s_small _ _ _ _ S); lia].
    intros b. destruct (decide (b = c)) as [->|Hb]; cbn; [tauto|]. rewrite Pl, elem_of_cons. tauto. }
  clear Sy. destruct (task_unref_ok y (us ++ vs) ls' zs c (set_state HEV_TASK_STOPPED t) Sy') as (x' & Ex & Sx & Tx & _ & Mx); [apply lookup_insert_eq|done|].
  exists x', us, vs, ls'. split; [|split_and!; try done].
  - rewrite <- Ex. f_equal. unfold y, set_counts, set_running, put_task, set_tasks.
    cbn [total_task_count running_task_count timer current_task running_tasks all_tasks lnodes tasks]. by rewrite D1, D2.
  - rewrite Tx. unfold y. cbn [tasks set_counts set_running put_task set_tasks ref_count set_state].
    destruct (ref_count t =? 1); [by rewrite delete_insert_eq|by rewrite insert_insert_eq].
Qed.

(** ** Polling *)

Definition waking (x : HevTaskSystemContext) (a : Z) : Prop := has x (fun s => s <> HEV_TASK_STOPPED) a.

(** What waking up tasks may change. *)
Record woken (x x' : HevTaskSystemContext) : Prop := {
  w_current : current_task x' = current_task x;
  w_timer : timer x' = timer x;
  w_tasks : forall a t, tasks x !! a = Some t -> exists t', tasks x' !! a = Some t' /\
    (t' = t \/ state t = HEV_TASK_WAITING /\ state t' = HEV_TASK_RUNNING /\ next_priority t' = next_priority t /\
       priority t' = next_priority t /\ joiner t' = joiner t /\ ref_count t' = ref_count t);
  w_none : forall a, tasks x !! a = None -> tasks x' !! a = None;
}.

Lemma woken_refl x : woken x x.
Proof. constructor; try done. intros a t Et. exists t. split; [done|by left]. Qed.

Lemma woken_trans x y z : woken x y -> woken y z -> woken x z.
Proof.
  intros [A1 A2 A3 A4] [B1 B2 B3 B4]. constructor; [congruence..| |auto]. intros a t Et.
  destruct (A3 _ _ Et) as (u & Eu & Hu). destruct (B3 _ _ Eu) as (v & Ev & Hv). exists v. split; [done|].
  destruct Hu as [->|Hu]; [done|]. destruct Hv as [->|Hv]; [by right|]. destruct_and!. congruence.
Qed.

Lemma woke_woken x x' xs a t us vs : tasks x !! a = Some t -> state t = HEV_TASK_WAITING -> woke x x' xs a t us vs -> woken x x'.
Proof.
  intros Et Es (_ & Tx & Cx & Mx & _). constructor; [done..| |]; rewrite Tx; intros b.
  - intros u Eu. destruct (decide (b = a)) as [->|Hb].
    + rewrite lookup_insert_eq. eexists. split; [done|]. right. assert (u = t) as -> by congruence. by split_and!.
    + rewrite lookup_insert_ne by done. exists u. split; [done|by left].
  - intros Eb. rewrite lookup_insert_ne; [done|]. intros <-. congruence.
Qed.

Lemma woken_has x x' a : woken x x' -> waking x a -> waking x' a.
Proof.
  intros [_ _ W _] (t & Et & Ht). destruct (W _ _ Et) as (t' & Et' & Hw). exists t'. split; [done|].
  destruct Hw as [->|(_ & -> & _)]; done.
Qed.

Lemma wake_ok x xs ls zs a :
  sched_ok x xs ls zs -> waking x a ->
  exists x' xs', hev_task_system_wakeup_task_with_context x a = Val x' /\ sched_ok x' xs' ls zs /\ woken x x' /\ xs ⊆ xs' /\ a ∈ xs'.
Proof.
  intros S (t & Et & Ht). destruct (wakeup_ok _ _ _ _ _ _ S Et Ht) as (x' & xs' & E & S' & [(Hr & -> & ->)|(Hw & us & vs & -> & W)]).
  - exists x, xs. split_and!; try done; [apply woken_refl|]. apply (s_running _ _ _ _ S). by exists t.
  - exists x', (us ++ a :: vs). split_and!; try done; [by eapply woke_woken| |apply elem_of_app; right; left].
    destruct W as (-> & _). intros b [Hb|Hb]%elem_of_app; apply elem_of_app; [by left|right; by right].
Qed.

Lemma wake_all_ok l : forall x xs ls zs, sched_ok x xs ls zs -> Forall (waking x) l ->
  exists x' xs', wake_all x l = Val x' /\ sched_ok x' xs' ls zs /\ woken x x' /\ xs ⊆ xs'.
Proof.
  induction l as [|a l IH]; intros x xs ls zs S Hl; cbn [wake_all].
  { exists x, xs. split_and!; [done..|apply woken_refl|done]. }
  apply Forall_cons in Hl as [Ha Hl]. destruct (wake_ok _ _ _ _ _ S Ha) as (x1 & xs1 & -> & S1 & W1 & I1 & _). cbn [obind].
  destruct (IH x1 xs1 ls zs S1) as (x2 & xs2 & -> & S2 & W2 & I2).
  { eapply Forall_impl; [exact Hl|]. intros b. by apply woken_has. }
  exists x2, xs2. split_and!; [done..|by eapply woken_trans|set_solver].
Qed.

Lemma timer_wakeup_ok x xs ls zs curr : sched_ok x xs ls zs ->
  exists x' xs', hev_task_timer_wakeup x curr = Val x' /\ sched_ok x' xs' ls zs /\ woken x x' /\ xs ⊆ xs' /\
    match zs with
    | [] => x' = x
    | z :: _ => exists n, timer_nodes (timer x) !! z = Some n /\
        if hev_task_timer_cmp curr (expire n) <? 0 then x' = x else sleeper n ∈ xs'
    end.
Proof.
  intros S. unfold hev_task_timer_wakeup, hev_rbtree_cached_first. rewrite (q_first _ _ (s_timer _ _ _ _ S)).
  destruct zs as [|z zs]; cbn [RBTreeIter.first_of hd].
  { exists x, xs. split_and!; [done..|apply woken_refl|done|done]. }
  assert (z ∈ z :: zs) as Hz by left. pose proof (queue_nonnull _ _ _ (s_timer _ _ _ _ S) Hz) as Hn.
  rewrite (proj2 (Z.eqb_neq z NULL) Hn). destruct (s_sleepers _ _ _ _ S z Hz) as (n & En & Hs). unfold get_timer_node. rewrite En.
  cbn [of_option obind]. destruct (hev_task_timer_cmp curr (expire n) <? 0) eqn:Ec.
  - exists x, xs. split_and!; [done..|apply woken_refl|done|]. exists n. by rewrite Ec.
  - destruct (wake_ok _ _ _ _ _ S Hs) as (x' & xs' & E & S' & W & I & Hin). exists x', xs'. split_and!; [done..|]. exists n. by rewrite Ec.
Qed.

Lemma timer_wake_eq x curr : hev_task_timer_wake x curr = hev_task_timer_wakeup x curr.
Proof. unfold hev_task_timer_wake, hev_task_timer_wakeup. by destruct (_ =? _). Qed.

Definition poll_ok (x : HevTaskSystemContext) (p : poll) : Prop := Forall (waking x) (events p).

Lemma io_poll_ok x xs ls zs p : sched_ok x xs ls zs -> poll_ok x p ->
  exists x' xs', hev_task_system_io_poll x p = Val x' /\ sched_ok x' xs' ls zs /\ woken x x' /\ xs ⊆ xs'.
Proof.
  intros S Hp. unfold hev_task_system_io_poll.
  destruct (wake_all_ok (take 1024 (events p)) x xs ls zs S) as (x1 & xs1 & -> & S1 & W1 & I1); [by apply Forall_take|]. cbn [obind].
  rewrite timer_wake_eq. destruct (timer_wakeup_ok x1 xs1 ls zs (polled_at p) S1) as (x2 & xs2 & -> & S2 & W2 & I2 & _).
  exists x2, xs2. split_and!; [done..|by eapply woken_trans|set_solver].
Qed.

Lemma count_zero x xs ls zs : sched_ok x xs ls zs -> (running_task_count x =? 0) = bool_decide (xs = []).
Proof.
  intros S. rewrite (s_count _ _ _ _ S). destruct xs as [|a xs]; [done|]. rewrite bool_decide_false by done. apply Z.eqb_neq.
  unfold zlen. cbn [length]. lia.
Qed.

Lemma poll_until_running_ok ps : forall x xs ls zs, sched_ok x xs ls zs -> Forall (poll_ok x) ps ->
  exists r, poll_until_running x ps = Val r /\
    match r with
    | None => True
    | Some x' => exists xs', sched_ok x' xs' ls zs /\ woken x x' /\ xs ⊆ xs' /\ xs' <> []
    end.
Proof.
  induction ps as [|p ps IH]; intros x xs ls zs S Hp; cbn [poll_until_running]; [by exists None|].
  apply Forall_cons in Hp as [Hp Hps]. destruct (io_poll_ok _ _ _ _ _ S Hp) as (x1 & xs1 & -> & S1 & W1 & I1). cbn [obind].
  rewrite (count_zero _ _ _ _ S1). case_bool_decide as Hx.
  - destruct (IH x1 xs1 ls zs S1) as (r & -> & Hr).
    { eapply Forall_impl; [exact Hps|]. intros q Hq. eapply Forall_impl; [exact Hq|]. intros b. by apply woken_has. }
    exists r. split; [done|]. destruct r as [x'|]; [|done]. destruct Hr as (xs' & S' & W' & I' & Hn).
    exists xs'. split_and!; [done|by eapply woken_trans|set_solver|done].
  - exists (Some x1). split; [done|]. by exists xs1.
Qed.

Definition least (x : HevTaskSystemContext) (xs : list Z) : Prop :=
  match xs with
  | [] => False
  | c :: _ => current_task x = c /\ forall b, b ∈ xs -> key x c <= key x b
  end.

Lemma current_ok x xs ls zs c : sched_ok x xs ls zs -> sched_ok (set_current c x) xs ls zs.
Proof. by intros []. Qed.

Lemma picked x xs ls zs : sched_ok x xs ls zs -> xs <> [] ->
  least (set_current (hev_rbtree_cached_first (running_tasks x)) x) xs.
Proof.
  intros S Hn. unfold hev_rbtree_cached_first. rewrite (q_first _ _ (s_queue _ _ _ _ S)).
  destruct xs as [|c xs]; [done|]. split; [done|]. intros b [->|Hb]%elem_of_cons; [done|].
  pose proof (s_order _ _ _ _ S) as Ho. apply StronglySorted_inv in Ho as [_ Hf]. by eapply Forall_forall in Hf.
Qed.

(** Picking the next task: the one with the least key. *)
Lemma pick_ok x xs ls zs ps :
  sched_ok x xs ls zs -> ls <> [] -> Forall (poll_ok x) ps ->
  exists r, hev_task_system_pick_current_task x ps = Val r /\
    match r with
    | None => xs = [] \/ ps = []
    | Some x' => exists xs' y, sched_ok x' xs' ls zs /\ least x' xs' /\ woken x y /\ tasks x' = tasks y /\ timer x' = timer x /\ xs ⊆ xs'
    end.
Proof.
  intros S Hl Hp. unfold hev_task_system_pick_current_task.
  pose proof (running_small _ _ _ _ S) as Hsm. rewrite (count_zero _ _ _ _ S).
  assert (forall x' xs', sched_ok x' xs' ls zs -> woken x x' -> xs ⊆ xs' -> xs' <> [] -> exists xs'' y,
    sched_ok (set_current (hev_rbtree_cached_first (running_tasks x')) x') xs'' ls zs /\
    least (set_current (hev_rbtree_cached_first (running_tasks x')) x') xs'' /\ woken x y /\
    tasks (set_current (hev_rbtree_cached_first (running_tasks x')) x') = tasks y /\
    timer (set_current (hev_rbtree_cached_first (running_tasks x')) x') = timer x /\ xs ⊆ xs'') as Hend.
  { intros x' xs' S' W I Hn. exists xs', x'. split_and!; [by apply current_ok|by eapply picked|done|done|apply W|done]. }
  destruct (Z.ltb_spec (running_task_count x) (total_task_count x)) as [Hlt|Hge].
  - case_bool_decide as Hx; cbn [negb].
    + destruct (poll_until_running_ok ps x xs ls zs S Hp) as (r & -> & Hr). cbn [obind]. destruct r as [x'|].
      * destruct Hr as (xs' & S' & W & I & Hn). eexists. split; [done|]. by apply Hend with xs'.
      * exists None. split; [done|by left].
    + destruct ps as [|p ps]; [exists None; split; [done|by right]|]. apply Forall_cons in Hp as [Hp _].
      destruct (io_poll_ok _ _ _ _ _ S Hp) as (x' & xs' & -> & S' & W & I). cbn [obind]. eexists. split; [done|].
      apply Hend with xs'; [done..|]. intros ->. destruct xs as [|a xs]; [done|]. assert (a ∈ ([] : list Z)) as Ha by (apply I; left).
      by apply elem_of_nil in Ha.
  - cbn [obind]. eexists. split; [done|]. apply Hend with xs; [done|apply woken_refl|done|].
    rewrite (s_count _ _ _ _ S), (s_total _ _ _ _ S) in Hge. destruct ls as [|a ls]; [done|]. intros ->.
    unfold zlen in Hge. cbn [length] in Hge. lia.
Qed.

(** ** Tasks *)

Lemma task_run_ok x xs ls zs a t :
  sched_ok x xs ls zs -> tasks x !! a = Some t -> state t = HEV_TASK_STOPPED -> zlen ls + 1 < 2 ^ 31 ->
  exists x' us vs t', hev_task_run x a = Val x' /\ sched_ok x' (us ++ a :: vs) (a :: ls) zs /\ xs = us ++ vs /\
    tasks x' = <[a := t']> (tasks x) /\ current_task x' = current_task x /\ timer x' = timer x /\
    sched_key t' = u64 (next_priority t + if current_task x =? NULL then 0 else match xs with [] => 0 | b :: _ => key x b end) /\
    priority t' = next_priority t /\ next_priority t' = next_priority t /\ state t' = HEV_TASK_RUNNING.
Proof.
  intros S Et Es Hsm. unfold hev_task_run. rewrite (get_task_ok _ _ _ Et). cbn [obind]. rewrite bool_decide_false by tauto.
  destruct (s_tasks _ _ _ _ S _ _ Et) as ([T1 T2 T3] & _).
  assert (a ∉ xs) as Ha. { intros (u & Eu & Hu)%(s_running _ _ _ _ S). congruence. }
  assert (a ∉ ls) as Hal. { intros (u & Eu & Hu)%(s_live _ _ _ _ S). congruence. }
  set (m := if current_task x =? NULL then 0 else match xs with [] => 0 | b :: _ => key x b end).
  set (t1 := mkTask (u64 (next_priority t)) (joiner t) (ref_count t) (next_priority t) (next_priority t) (state t)).
  assert (u64 (next_priority t) = next_priority t) as Ep by (apply u64_id; unfold HEV_TASK_PRIORITY_MIN, HEV_TASK_PRIORITY_MAX in *; lia).
  assert (sched_ok (put_task a t1 x) xs ls zs) as S1 by (eapply put_ok; [done..|by constructor|done]).
  unfold hev_task_system_run_new_task. rewrite get_put. cbn [obind].
  set (t2 := set_key (u64 (next_priority t + m)) t1).
  assert (forall r, r = put_task a t2 x -> sched_ok r xs ls zs /\ tasks r !! a = Some t2) as H2.
  { intros r ->. split; [eapply put_ok; [done..|by constructor|done]|apply lookup_insert_eq]. }
  assert ((if negb (current_task (put_task a t1 x) =? NULL)
    then let! m := hev_task_system_get_min_sched_key (put_task a t1 x) in Val (put_task a (set_key (u64 (sched_key t1 + m)) t1) (put_task a t1 x))
    else Val (put_task a t1 x)) = Val (put_task a t2 x)) as ->.
  { change (current_task (put_task a t1 x)) with (current_task x). unfold t2, m. destruct (current_task x =? NULL); cbn [negb].
    - rewrite Z.add_0_r. done.
    - rewrite (min_key_ok _ _ _ _ S1). cbn [obind]. rewrite put_put. cbn [sched_key t1]. rewrite Ep.
      destruct xs as [|b xs]; [done|]. rewrite key_other; [done|]. intros ->. apply Ha. left. }
  cbn [obind]. destruct (H2 _ eq_refl) as [S2 E2]. pose proof (running_small _ _ _ _ S) as Hxs.
  destruct (insert_task_ok (put_task a t2 x) xs ls zs a t2) as (c & us & vs & -> & Q & -> & F1 & F2 & Hc); [done..|lia|].
  cbn [obind]. eexists _, us, vs, _. split; [done|]. split; [|split; [done|]; split; [cbn; by rewrite insert_insert_eq|split_and!; try reflexivity]].
  pose proof (s_total _ _ _ _ S) as Et'. destruct (s_live _ _ _ _ S) as [Hnd _].
  assert (zlen (a :: ls) = zlen ls + 1) as El by (unfold zlen; cbn [length]; lia).
  pose proof (activated_ok (put_task a t2 x) (us ++ vs) ls zs (a :: ls) (u32 (total_task_count x + 1)) a t2 c us vs S2) as Sa.
  apply Sa; try done.
  - by apply NoDup_cons.
  - intros b. by rewrite elem_of_cons.
  - rewrite Et', El, u32_id; [done|]. pose proof (zlen_nonneg ls). unfold is_u32. lia.
  - lia.
Qed.

Lemma new_ok x xs ls zs mem :
  sched_ok x xs ls zs -> tasks x !! mem = None -> mem <> NULL -> RBTreeRep.aligned mem ->
  exists x', hev_task_new x mem true = Val (mem, x') /\ sched_ok x' xs ls zs /\
    tasks x' = <[mem := mkTask 0 NULL 1 0 HEV_TASK_PRIORITY_DEFAULT HEV_TASK_STOPPED]> (tasks x) /\
    current_task x' = current_task x /\ timer x' = timer x.
Proof.
  intros S Em Hn Al. pose proof S as [S1 S2 S3 [S4 S4'] S5 (l & Hl & Hd) S7 S8 S9 S10 S11 S11' S12].
  unfold hev_task_new. rewrite (proj2 (Z.eqb_neq _ _) Hn). cbn [negb].
  assert (mem ∉ l) as Hml. { intros Hin. apply Hd in Hin. rewrite Em in Hin. by destruct Hin. }
  assert (mem ∉ xs) as Hmx. { intros (u & Eu & _)%S3. congruence. }
  destruct (HevList.add_tail_ok (<[mem := HevList.mkLNode 0 0]> (lnodes x)) (all_tasks x) l mem (HevList.mkLNode 0 0))
    as (l' & n & -> & Hl' & _); [|done..|apply lookup_insert_eq|].
  { destruct Hl as [Hnd Hs]. split; [done|]. eapply HevList.dseg_frame; [|exact Hs]. intros y Hy. rewrite lookup_insert_ne; [done|]. by intros ->. }
  cbn [obind]. eexists. split; [done|]. split; [|done].
  set (t0 := mkTask 0 NULL 1 0 HEV_TASK_PRIORITY_DEFAULT HEV_TASK_STOPPED).
  set (x1 := set_running (with_cells (<[mem:=RBTree.mkRBNode 0 0 0]>) (running_tasks x)) (set_all l' n x)).
  assert (forall P b, has (put_task mem t0 x1) P b <-> (b = mem /\ P HEV_TASK_STOPPED) \/ (b <> mem /\ has x P b)) as Hh
    by (intros P b; by rewrite has_put).
  assert (forall (P : HevTaskState -> Prop) b, ~ P HEV_TASK_STOPPED -> has (put_task mem t0 x1) P b <-> has x P b) as Hp.
  { intros P b HP. rewrite Hh. split; [by intros [[]|[]]|]. intros Hb. right. split; [|done]. intros ->. destruct Hb as (u & Eu & _). congruence. }
  constructor; cbn [running_tasks tasks lnodes all_tasks running_task_count total_task_count timer put_task set_tasks x1 set_running set_all]; try done.
  - eapply queue_frame; [..|exact S1]; [done..|]. intros y Hy. cbn [base with_cells RBTree.cells]. rewrite lookup_insert_ne; [done|]. by intros ->.
  - eapply sorted_ext; [|exact S2]. intros b c Hb Hc. rewrite !key_other; [done|..]; by intros ->.
  - intros b. rewrite S3. symmetry. by apply Hp.
  - split; [done|]. intros b. rewrite S4'. symmetry. apply Hp. tauto.
  - intros b u. rewrite lookup_insert_Some. intros [[<- <-]|[Hb Hu]].
    + split; [constructor; cbn; unfold HEV_TASK_PRIORITY_MIN, HEV_TASK_PRIORITY_MAX, HEV_TASK_PRIORITY_DEFAULT, INT_MAX; lia|].
      do 2 (split; [done|]). cbn [base with_cells RBTree.cells]. by rewrite lookup_insert_eq.
    + destruct (S5 _ _ Hu) as (? & ? & ? & ?). split_and!; [done..|]. cbn [base with_cells RBTree.cells]. by rewrite lookup_insert_ne.
  - exists (HevList.seq_add_tail l mem). split; [done|]. intros b. unfold HevList.seq_add_tail. rewrite elem_of_app, list_elem_of_singleton, Hd, lookup_insert_is_Some.
    destruct (decide (mem = b)) as [<-|]; [tauto|]. split; [intros [|]; [by right|congruence]|intros [|[]]; [congruence|by left]].
  - intros b Hb. destruct (S12 b Hb) as (k & Ek & Hk). exists k. split; [done|]. apply Hp; [tauto|done].
Qed.

(** ** Sleepers *)

Definition time_lt (ea : timespec) (a : Z) (eb : timespec) (b : Z) : Prop :=
  tv_sec ea < tv_sec eb \/
  tv_sec ea = tv_sec eb /\ (tv_nsec ea < tv_nsec eb \/ tv_nsec ea = tv_nsec eb /\ a < b).

Lemma node_cmp_lt ea a eb b : hev_task_timer_node_cmp ea a eb b < 0 <-> time_lt ea a eb b.
Proof.
  unfold hev_task_timer_node_cmp, hev_task_timer_cmp, time_lt. rewrite !Z.gtb_ltb.
  repeat (match goal with |- context [?p <? ?q] => destruct (Z.ltb_spec p q) end; cbn [negb Z.eqb]); lia.
Qed.

Lemma sleep_split x zs e node :
  StronglySorted (sleeps_before x) zs -> (forall a, a ∈ zs -> is_Some (timer_nodes (timer x) !! a)) -> node ∉ zs ->
  let f a := match timer_nodes (timer x) !! a with Some n => hev_task_timer_node_cmp e node (expire n) a <? 0 | None => false end in
  exists us vs, zs = us ++ vs /\ Forall (fun a => f a = false) us /\ Forall (fun a => f a = true) vs.
Proof.
  intros Hs Hin Hni f. induction Hs as [|a zs Hs IH Hf]; [by exists [], []|].
  destruct IH as (us & vs & E & F1 & F2); [intros b Hb; apply Hin; by right|set_solver|].
  destruct (f a) eqn:Ea.
  - exists [], (a :: zs). split_and!; [done|constructor|]. constructor; [done|]. apply Forall_forall. intros b Hb.
    eapply Forall_forall in Hf; [|done]. unfold sleeps_before in Hf. unfold f in Ea |- *.
    destruct (timer_nodes (timer x) !! a) as [m|]; [|done]. destruct (timer_nodes (timer x) !! b) as [n|]; [|done].
    apply node_cmp_lt in Hf. apply Z.ltb_lt, node_cmp_lt in Ea. apply Z.ltb_lt, node_cmp_lt. unfold time_lt in *. lia.
  - exists (a :: us), vs. split_and!; [by rewrite E|by constructor|done].
Qed.

(** Replacing the timer by one with the nodes [zs]. *)
Lemma set_timer_ok x xs ls zs m zs' :
  sched_ok x xs ls zs -> queue (sort_tree m) zs' -> StronglySorted (sleeps_before (set_timer m x)) zs' ->
  (forall a, is_Some (timer_nodes m !! a) -> a ∈ zs') ->
  (forall a, a ∈ zs' -> exists n, timer_nodes m !! a = Some n /\ waking x (sleeper n)) ->
  sched_ok (set_timer m x) xs ls zs'.
Proof. intros [S1 S2 S3 S4 S5 S6 S7 S8 S9 S10 S11 S11' S12] Q O N L. by constructor. Qed.

Lemma sleep_ok x xs ls zs node ms curr :
  sched_ok x xs ls zs -> waking x (current_task x) -> node <> NULL -> RBTreeRep.aligned node ->
  timer_nodes (timer x) !! node = None ->
  exists lm x' us vs, timer_wait_enter x node ms (current_task x) curr = Val (lm, x') /\ zs = us ++ vs /\
    sched_ok x' xs ls (us ++ node :: vs) /\ tasks x' = tasks x /\ current_task x' = current_task x /\
    timer_nodes (timer x') = <[node := mkTimerNode (hev_task_timer_get_expire curr ms) (current_task x)]> (timer_nodes (timer x)) /\
    lm = bool_decide (us = []).
Proof.
  intros S Hw Hn Al Hf. pose proof S as [S1 S2 S3 [S4 S4'] S5 S6 S7 S8 S9 S10 S11 S11' S12].
  assert (node ∉ zs) as Hni. { intros Hin. destruct (S12 _ Hin) as (n & En & _). congruence. }
  unfold timer_wait_enter. set (e := hev_task_timer_get_expire curr ms).
  set (tree := with_cells (<[node:=RBTree.mkRBNode 0 0 0]>) (sort_tree (timer x))).
  set (nodes := <[node := mkTimerNode e (current_task x)]> (timer_nodes (timer x))).
  assert (forall a, a ∈ zs -> nodes !! a = timer_nodes (timer x) !! a) as Hold.
  { intros a Ha. unfold nodes. rewrite lookup_insert_ne; [done|]. by intros ->. }
  assert (queue tree zs) as Qt.
  { eapply queue_frame; [..|exact S10]; [done..|]. intros y Hy. cbn [base with_cells tree RBTree.cells]. rewrite lookup_insert_ne; [done|]. by intros ->. }
  destruct (sleep_split x zs e node S11) as (us & vs & -> & F1 & F2); [intros a Ha; by destruct (S12 a Ha) as (n & -> & _)|done|].
  set (f a := match timer_nodes (timer x) !! a with Some n => hev_task_timer_node_cmp e node (expire n) a <? 0 | None => false end) in *.
  destruct (insert_node_ok (tree_fuel tree) (expires_before (set_timer (mkTimer tree nodes) x) e node) f tree us vs node (RBTree.mkRBNode 0 0 0))
    as (c & -> & Qc & _); try done.
  { intros b Hb. unfold expires_before, get_timer_node. cbn [timer set_timer timer_nodes]. rewrite Hold by done. unfold f.
    destruct (S12 b Hb) as (n & -> & _). done. }
  { cbn [base with_cells tree RBTree.cells]. by rewrite lookup_insert_eq. }
  { unfold tree_fuel. pose proof (queue_size _ _ Qt). lia. }
  cbn [obind]. eexists _, _, us, vs. split; [done|]. split; [done|]. split; [|by split_and!].
  change (set_timer (mkTimer c (timer_nodes (timer (set_timer (mkTimer tree nodes) x)))) (set_timer (mkTimer tree nodes) x)) with (set_timer (mkTimer c nodes) x).
  assert (forall a, a ∈ us ++ vs -> exists n, nodes !! a = Some n /\ timer_nodes (timer x) !! a = Some n) as Hget.
  { intros a Ha. destruct (S12 a Ha) as (n & En & _). exists n. by rewrite Hold. }
  eapply set_timer_ok; [done..| | |]; cbn [timer_nodes].
  - assert (StronglySorted (sleeps_before (set_timer (mkTimer c nodes) x)) (us ++ vs)) as Ho.
    { eapply sorted_ext; [|exact S11]. intros a b Ha Hb. unfold sleeps_before. cbn [timer set_timer timer_nodes]. by rewrite !Hold. }
    apply sorted_app in Ho as (O1 & O2 & D). apply sorted_app. split_and!; [done| |].
    + constructor; [done|]. apply Forall_forall. intros b Hb. eapply Forall_forall in F2; [|done]. unfold sleeps_before. cbn [timer set_timer timer_nodes].
      unfold nodes at 1. rewrite lookup_insert_eq. destruct (Hget b) as (n & -> & En); [apply elem_of_app; by right|].
      cbn [expire]. unfold f in F2. rewrite En in F2. by apply Z.ltb_lt.
    + intros a b Ha [->|Hb]%elem_of_cons; [|by apply D]. eapply Forall_forall in F1; [|done]. unfold sleeps_before. cbn [timer set_timer timer_nodes].
      destruct (Hget a) as (n & -> & En); [apply elem_of_app; by left|]. unfold nodes. rewrite lookup_insert_eq. cbn [expire].
      unfold f in F1. rewrite En in F1. apply Z.ltb_ge in F1. apply node_cmp_lt.
      assert (~ time_lt e node (expire n) a) as Hnl by (intros H%node_cmp_lt; lia).
      assert (a <> node) by (intros ->; apply Hni, elem_of_app; by left). unfold time_lt in *. lia.
  - intros a. unfold nodes. rewrite lookup_insert_is_Some, <- Permutation_middle, elem_of_cons.
    intros [<-|[_ Ha]]; [by left|]. right. by apply S11'.
  - intros a. rewrite <- Permutation_middle. intros [->|Ha]%elem_of_cons.
    + eexists. unfold nodes. rewrite lookup_insert_eq. split; [done|]. done.
    + destruct (S12 a Ha) as (n & En & Hn'). exists n. by rewrite Hold.
Qed.

(** Leaving the timer: the node goes, and the next sleeper may be woken. *)
Lemma awake_erase x xs ls zs node n :
  sched_ok x xs ls zs -> timer_nodes (timer x) !! node = Some n ->
  exists m us vs, zs = us ++ node :: vs /\ sched_ok (set_timer m x) xs ls (us ++ vs) /\
    timer_nodes m = delete node (timer_nodes (timer x)) /\ node ∉ us ++ vs /\
    forall lm curr, timer_wait_leave x node lm curr =
      let! y := (if bool_decide (us = []) || lm then hev_task_timer_wakeup (set_timer m x) curr else Val (set_timer m x)) in
      Val (hev_task_timer_get_time curr (expire n), y).
Proof.
  intros S En. pose proof S as [S1 S2 S3 [S4 S4'] S5 S6 S7 S8 S9 S10 S11 S11' S12].
  assert (node ∈ zs) as Hin by (apply S11'; by rewrite En). apply list_elem_of_split in Hin as (us & vs & ->).
  destruct (cached_erase_ok (tree_fuel (sort_tree (timer x))) (sort_tree (timer x)) us node vs S10) as (c & Ec & Qc & _).
  { unfold tree_fuel. pose proof (queue_size _ _ S10). lia. }
  pose proof (queue_nodup _ _ S10) as ND. rewrite <- Permutation_middle in ND. apply NoDup_cons in ND as [Hni ND].
  set (m := mkTimer (with_cells (delete node) c) (delete node (timer_nodes (timer x)))).
  assert (forall a, a ∈ us ++ vs -> timer_nodes m !! a = timer_nodes (timer x) !! a) as Hold.
  { intros a Ha. cbn [timer_nodes m]. rewrite lookup_delete_ne; [done|]. by intros ->. }
  exists m, us, vs. split; [done|]. split; [|split; [done|split; [done|]]].
  - eapply set_timer_ok; [done| | | |].
    + eapply queue_frame; [..|exact Qc]; [done..|]. intros y Hy. cbn [sort_tree m base with_cells RBTree.cells]. rewrite lookup_delete_ne; [done|]. by intros ->.
    + eapply sorted_ext; [|by eapply sorted_out]. intros a b Ha Hb. unfold sleeps_before. cbn [timer set_timer]. by rewrite !Hold.
    + intros a. cbn [timer_nodes m]. rewrite lookup_delete_is_Some. intros [Hne Ha]. apply S11' in Ha. rewrite <- Permutation_middle in Ha.
      by apply elem_of_cons in Ha as [|].
    + intros a Ha. destruct (S12 a) as (k & Ek & Hk); [rewrite <- Permutation_middle; by right|]. exists k. by rewrite Hold.
  - intros lm curr. unfold timer_wait_leave, get_timer_node. rewrite En. cbn [of_option obind]. rewrite Ec. cbn [obind].
    assert ((node =? hev_rbtree_cached_first (sort_tree (timer x))) = bool_decide (us = [])) as ->; [|done].
    unfold hev_rbtree_cached_first. rewrite (q_first _ _ S10). destruct us as [|u us]; [apply Z.eqb_refl|]. apply Z.eqb_neq. cbn. intros E.
    apply Hni. rewrite E. left.
Qed.

Lemma awake_ok x xs ls zs node n lm curr :
  sched_ok x xs ls zs -> timer_nodes (timer x) !! node = Some n ->
  exists ms x' xs' us vs, timer_wait_leave x node lm curr = Val (ms, x') /\ zs = us ++ node :: vs /\
    sched_ok x' xs' ls (us ++ vs) /\ current_task x' = current_task x /\ xs ⊆ xs' /\
    timer_nodes (timer x') = delete node (timer_nodes (timer x)) /\
    match us ++ vs with
    | z :: _ => (us = [] \/ lm = true) -> exists k, timer_nodes (timer x) !! z = Some k /\
        (hev_task_timer_cmp curr (expire k) < 0 \/ sleeper k ∈ xs')
    | [] => True
    end.
Proof.
  intros S En. destruct (awake_erase _ _ _ _ _ _ S En) as (m & us & vs & -> & Sm & Em & Hni & E). rewrite E.
  destruct (bool_decide (us = []) || lm) eqn:Eb.
  - destruct (timer_wakeup_ok _ _ _ _ curr Sm) as (x' & xs' & -> & S' & W & I & Hz). cbn [obind].
    eexists _, x', xs', us, vs. split; [done|]. split_and!; try done; [apply W|by rewrite (w_timer _ _ W)|].
    destruct (us ++ vs) as [|z rest] eqn:Ez; [done|]. intros _. destruct Hz as (k & Ek & Hk). cbn [timer set_timer] in Ek.
    rewrite Em, lookup_delete_ne in Ek by (intros ->; apply Hni; left). exists k. split; [done|].
    destruct (Z.ltb_spec (hev_task_timer_cmp curr (expire k)) 0); [by left|by right].
  - cbn [obind]. eexists _, (set_timer m x), xs, us, vs. split; [done|]. split_and!; try done.
    apply orb_false_iff in Eb as [Eb ->]. rewrite bool_decide_eq_false in Eb. destruct (us ++ vs); [done|]. by intros [|].
Qed.

End TaskSystemInv.
