(* ===== verification/TaskSystemFair.v ===== *)
(** * The scheduler starves no task

    A running task waits for a bounded number of rounds: every round raises the least
    key or lowers the number of tasks that have it, because a task that comes back does
    so with a larger key. *)

From Stdlib Require Import ZArith Lia Sorted.
From stdpp Require Import base list gmap numbers.
From S2P Require Import Prelude HevList RBTree RBTreeRep RBTreeIter RBTreeCached TaskSystem TaskSystemInv TaskSystemRun.
Import list_basics.list list_relations.list list_monad.list list_misc.list.
Import RBTreeCached TaskSystem TaskSystemInv TaskSystemRun.

Module TaskSystemFair.

Abbreviation RUNS x a := (has x (eq HEV_TASK_RUNNING) a).

(** No task has the real-time priority 0. *)
Record fair_task (t : HevTask) : Prop := {
  f_next : 1 <= next_priority t <= HEV_TASK_PRIORITY_MAX;
  f_key : 0 <= sched_key t;
  f_priority : state t = HEV_TASK_RUNNING -> 1 <= priority t <= HEV_TASK_PRIORITY_MAX;
  f_waiting : state t = HEV_TASK_WAITING -> 1 <= sched_key t <= HEV_TASK_PRIORITY_MAX;
}.

Definition fair (x : HevTaskSystemContext) : Prop := map_Forall (fun _ t => fair_task t) (tasks x).

(** From [x] to [y] running tasks stay as they are, and those that start to run have a
    key above [m]. *)
Record rising (m : Z) (x y : HevTaskSystemContext) : Prop := {
  r_old : forall a, RUNS x a -> RUNS y a /\ key y a = key x a;
  r_new : forall a, RUNS y a -> RUNS x a \/ m < key y a;
  r_fair : fair y;
  r_current : current_task y = current_task x;
}.

Lemma rising_refl m x : fair x -> rising m x x.
Proof. constructor; try done. by left. Qed.

Lemma rising_trans m x y z : rising m x y -> rising m y z -> rising m x z.
Proof.
  intros [A1 A2 A3 A4] [B1 B2 B3 B4]. constructor; [|..|done|congruence].
  - intros a Ha. destruct (A1 a Ha) as [Hy Ey]. destruct (B1 a Hy) as [Hz Ez]. split; [done|congruence].
  - intros a Ha. destruct (B2 a Ha) as [Hy|]; [|by right]. destruct (A2 a Hy) as [|Hm]; [by left|right].
    by destruct (B1 a Hy) as [_ ->].
Qed.

(** The least key is at least [m]. *)
Definition floor (m : Z) (x : HevTaskSystemContext) : Prop := 0 <= m /\ forall a, RUNS x a -> m <= key x a.

Lemma rising_floor m x y : rising m x y -> floor m x -> floor m y.
Proof.
  intros [A1 A2 A3 A4] [Hm F]. split; [done|]. intros a Ha. destruct (A2 a Ha) as [Hx|]; [|lia]. destruct (A1 a Hx) as [_ ->]. by apply F.
Qed.

(** A change of one task that keeps its state. *)
Lemma put_rising m x a t t' :
  fair x -> tasks x !! a = Some t -> state t' = state t -> sched_key t' = sched_key t -> fair_task t' -> rising m x (put_task a t' x).
Proof.
  intros Hf Et Es Ek Ht. assert (forall b, RUNS (put_task a t' x) b <-> RUNS x b) as Hh.
  { intros b. rewrite has_put. destruct (decide (b = a)) as [->|]; [|tauto]. split.
    - intros [[_ Hr]|[]]; [|done]. exists t. split; [done|]. by rewrite <- Es.
    - intros (u & Eu & Hu). left. split; [done|]. rewrite Es. congruence. }
  constructor; [| | |done].
  - intros b Hb. split; [by apply Hh|]. rewrite key_put. destruct (decide (b = a)) as [->|]; [|done]. by rewrite Ek, (key_eq _ _ _ Et).
  - intros b Hb. left. by apply Hh.
  - unfold fair. cbn [tasks put_task set_tasks]. apply map_Forall_insert_2; done.
Qed.

Section target.
(** The task [b] waits with the key [kb]. *)
Context (b kb : Z) (Hkb : kb + HEV_TASK_PRIORITY_MAX < 2 ^ 64).

Lemma wake_rising m x xs ls zs a t :
  sched_ok x xs ls zs -> fair x -> floor m x -> RUNS x b -> key x b = kb ->
  tasks x !! a = Some t -> state t <> HEV_TASK_STOPPED ->
  exists x' xs', hev_task_system_wakeup_task_with_context x a = Val x' /\ sched_ok x' xs' ls zs /\ rising m x x' /\ woken x x'.
Proof.
  intros S Hf [Hm F] Hb Ek Et Hst. destruct (wakeup_ok _ _ _ _ _ _ S Et Hst) as (x' & xs' & E & S' & [(Hr & -> & ->)|(Hw & us & vs & -> & W)]).
  { exists x, xs. split_and!; [done..|by apply rising_refl|apply woken_refl]. }
  exists x', (us ++ a :: vs). split_and!; [done..| |by eapply woke_woken]. destruct (Hf a t Et) as [F1 F2 F3 F4]. specialize (F4 Hw).
  destruct W as (Exs & Tx & Cx & Mx & _).
  assert (wake_key x xs t = sched_key t + key x (hd 0 xs) /\ m <= key x (hd 0 xs)) as [Ekey Hh].
  { apply (s_running _ _ _ _ S) in Hb as Hin. unfold wake_key. destruct xs as [|c xs]; [by apply elem_of_nil in Hin|]. cbn [hd].
    assert (m <= key x c) as Hc by (apply F, (s_running _ _ _ _ S); left). split; [|done]. apply u64_id.
    assert (key x c <= kb); [|lia]. rewrite <- Ek. pose proof (s_order _ _ _ _ S) as Ho. apply StronglySorted_inv in Ho as [_ Hfo].
    apply elem_of_cons in Hin as [->|Hin]; [done|]. by eapply Forall_forall in Hfo. }
  set (t' := activate HEV_TASK_RUNNING (set_key (wake_key x xs t) t)) in *.
  assert (forall c, c <> a -> tasks x' !! c = tasks x !! c) as Ho by (intros c Hc; by rewrite Tx, lookup_insert_ne).
  constructor; [| | |done].
  - intros c (u & Eu & Hu). assert (c <> a) as Hc by (intros ->; congruence). split; [exists u; by rewrite Ho|]. unfold key. by rewrite Ho.
  - intros c (u & Eu & Hu). destruct (decide (c = a)) as [->|Hc]; [|left; exists u; by rewrite <- Ho]. right.
    unfold key. rewrite Tx, lookup_insert_eq. cbn. rewrite Ekey. lia.
  - unfold fair. rewrite Tx. apply map_Forall_insert_2; [|done]. constructor; cbn; [done| |done|done]. rewrite Ekey. lia.
Qed.

Lemma rising_target m x y : rising m x y -> RUNS x b -> key x b = kb -> RUNS y b /\ key y b = kb.
Proof. intros R Hb Ek. destruct (r_old _ _ _ R b Hb) as [Hy E]. split; [done|congruence]. Qed.

Lemma wake_all_rising m l : forall x xs ls zs,
  sched_ok x xs ls zs -> fair x -> floor m x -> RUNS x b -> key x b = kb -> Forall (waking x) l ->
  exists x' xs', wake_all x l = Val x' /\ sched_ok x' xs' ls zs /\ rising m x x' /\ woken x x'.
Proof.
  induction l as [|a l IH]; intros x xs ls zs S Hf Hm Hb Ek Hl; cbn [wake_all].
  { exists x, xs. split_and!; [done..|by apply rising_refl|apply woken_refl]. }
  apply Forall_cons in Hl as [(t & Et & Ht) Hl].
  destruct (wake_rising m x xs ls zs a t S Hf Hm Hb Ek Et Ht) as (x1 & xs1 & -> & S1 & R1 & W1). cbn [obind].
  destruct (rising_target _ _ _ R1 Hb Ek) as [Hb1 Ek1].
  destruct (IH x1 xs1 ls zs S1 (r_fair _ _ _ R1) (rising_floor _ _ _ R1 Hm) Hb1 Ek1) as (x2 & xs2 & -> & S2 & R2 & W2).
  { eapply Forall_impl; [exact Hl|]. intros c. by apply woken_has. }
  exists x2, xs2. split_and!; [done..|by eapply rising_trans|by eapply woken_trans].
Qed.

Lemma timer_rising m x xs ls zs curr :
  sched_ok x xs ls zs -> fair x -> floor m x -> RUNS x b -> key x b = kb ->
  exists x' xs', hev_task_timer_wakeup x curr = Val x' /\ sched_ok x' xs' ls zs /\ rising m x x' /\ woken x x'.
Proof.
  intros S Hf Hm Hb Ek. unfold hev_task_timer_wakeup, hev_rbtree_cached_first. rewrite (q_first _ _ (s_timer _ _ _ _ S)).
  assert (exists x' xs', Val x = Val x' /\ sched_ok x' xs' ls zs /\ rising m x x' /\ woken x x') as Hno.
  { exists x, xs. split_and!; [done..|by apply rising_refl|apply woken_refl]. }
  destruct zs as [|z zs]; [exact Hno|]. cbn [RBTreeIter.first_of hd]. destruct (z =? NULL); [exact Hno|].
  destruct (s_sleepers _ _ _ _ S z) as (n & En & t & Et & Hs); [left|]. unfold get_timer_node. rewrite En. cbn [of_option obind].
  destruct (hev_task_timer_cmp curr (expire n) <? 0); [exact Hno|]. by eapply wake_rising.
Qed.

Lemma io_poll_rising m x xs ls zs p :
  sched_ok x xs ls zs -> fair x -> floor m x -> RUNS x b -> key x b = kb -> poll_ok x p ->
  exists x' xs', hev_task_system_io_poll x p = Val x' /\ sched_ok x' xs' ls zs /\ rising m x x' /\ woken x x'.
Proof.
  intros S Hf Hm Hb Ek Hp. unfold hev_task_system_io_poll.
  destruct (wake_all_rising m (take 1024 (events p)) x xs ls zs S Hf Hm Hb Ek) as (x1 & xs1 & -> & S1 & R1 & W1); [by apply Forall_take|].
  cbn [obind]. rewrite timer_wake_eq. destruct (rising_target _ _ _ R1 Hb Ek) as [Hb1 Ek1].
  destruct (timer_rising m x1 xs1 ls zs (polled_at p) S1 (r_fair _ _ _ R1) (rising_floor _ _ _ R1 Hm) Hb1 Ek1) as (x2 & xs2 & -> & S2 & R2 & W2).
  exists x2, xs2. split_and!; [done..|by eapply rising_trans|by eapply woken_trans].
Qed.


(** The current task has the least key. *)
Definition leads (x : HevTaskSystemContext) : Prop := RUNS x (current_task x) /\ floor (key x (current_task x)) x.

Lemma pick_rising m x xs ls zs ps x' :
  sched_ok x xs ls zs -> fair x -> floor m x -> RUNS x b -> key x b = kb -> Forall (poll_ok x) ps ->
  hev_task_system_pick_current_task x ps = Val (Some x') ->
  exists y xs', rising m x y /\ tasks x' = tasks y /\ sched_ok x' xs' ls zs /\ leads x'.
Proof.
  intros S Hf Hm Hb Ek Hp. unfold hev_task_system_pick_current_task.
  assert (forall y ys, sched_ok y ys ls zs -> rising m x y -> x' = set_current (hev_rbtree_cached_first (running_tasks y)) y ->
    exists y xs', rising m x y /\ tasks x' = tasks y /\ sched_ok x' xs' ls zs /\ leads x') as Hend.
  { intros y ys Sy R ->. exists y, ys. destruct (rising_target _ _ _ R Hb Ek) as [Hby _]. apply (s_running _ _ _ _ Sy) in Hby as Hin.
    split_and!; [done..|by apply current_ok|]. assert (least (set_current (hev_rbtree_cached_first (running_tasks y)) y) ys) as L.
    { eapply picked; [done|]. intros ->. by apply elem_of_nil in Hin. }
    destruct ys as [|c ys]; [done|]. destruct L as [Ec L]. unfold leads. rewrite Ec.
    assert (RUNS y c) as Hc by (apply (s_running _ _ _ _ Sy); left). split; [done|]. split.
    - destruct Hc as (t & Et & _). change (0 <= key y c). rewrite (key_eq _ _ _ Et). by apply (r_fair _ _ _ R c t).
    - intros a Ha. apply L. by apply (s_running _ _ _ _ Sy). }
  rewrite (count_zero _ _ _ _ S). apply (s_running _ _ _ _ S) in Hb as Hin.
  rewrite bool_decide_false by (intros ->; by apply elem_of_nil in Hin). cbn [negb].
  destruct (running_task_count x <? total_task_count x).
  - destruct ps as [|p ps]; [done|]. apply Forall_cons in Hp as [Hp _].
    destruct (io_poll_rising m x xs ls zs p S Hf Hm Hb Ek Hp) as (y & ys & -> & Sy & R & _). cbn [obind]. intros [= <-]. by eapply Hend.
  - cbn [obind]. intros [= <-]. eapply Hend; [done|by apply rising_refl|done].
Qed.

(** ** Counting the tasks with the least key *)

Definition at_key (x : HevTaskSystemContext) (m : Z) (xs : list Z) : nat := length (filter (fun a => key x a = m) xs).

Lemma at_key_le x m xs : (at_key x m xs <= length xs)%nat.
Proof. apply length_filter. Qed.

Lemma at_key_mono x y m xs ys : NoDup xs -> (forall a, a ∈ xs -> key x a = m -> a ∈ ys /\ key y a = m) ->
  (at_key x m xs <= at_key y m ys)%nat.
Proof.
  intros ND H. apply submseteq_length, NoDup_submseteq; [by apply NoDup_filter|]. intros a [Ea Ha]%list_elem_of_filter.
  apply list_elem_of_filter. destruct (H a Ha Ea). done.
Qed.

Lemma at_key_in x m xs a : a ∈ xs -> key x a = m -> (1 <= at_key x m xs)%nat.
Proof.
  intros Ha Ek. unfold at_key. assert (a ∈ filter (fun c => key x c = m) xs) as H by (by apply list_elem_of_filter).
  destruct (filter _ xs); [by apply elem_of_nil in H|cbn; lia].
Qed.

Lemma at_key_drop x y m xs ys c : NoDup ys -> c ∈ xs -> key x c = m -> c ∉ filter (fun a => key y a = m) ys ->
  (forall a, a ∈ ys -> key y a = m -> a ∈ xs /\ key x a = m) -> (S (at_key y m ys) <= at_key x m xs)%nat.
Proof.
  intros ND Hc Ec Hn H. unfold at_key. change (S (length (filter (fun a => key y a = m) ys))) with (length (c :: filter (fun a => key y a = m) ys)).
  apply submseteq_length, NoDup_submseteq; [apply NoDup_cons; split; [done|by apply NoDup_filter]|].
  intros a [->|[Ea Ha]%list_elem_of_filter]%elem_of_cons; apply list_elem_of_filter; [done|]. by destruct (H a Ha Ea).
Qed.

(** ** Rounds *)

(** [n] bounds the rounds that [b] waits when there are at most [N] tasks. *)
Record waits (N : Z) (x : HevTaskSystemContext) (n : Z) : Prop := {
  wt_inv : exists xs ls zs, sched_ok x xs ls zs /\
    (kb - key x (current_task x)) * N + Z.of_nat (at_key x (key x (current_task x)) xs) <= n;
  wt_fair : fair x;
  wt_leads : leads x;
  wt_runs : RUNS x b /\ key x b = kb;
  wt_not : current_task x <> b;
}.

(** A call that only adds running tasks with larger keys. *)
Lemma waits_rising N x y n xs ys ls ls' zs zs' :
  sched_ok x xs ls zs -> sched_ok y ys ls' zs' ->
  (kb - key x (current_task x)) * N + Z.of_nat (at_key x (key x (current_task x)) xs) <= n ->
  leads x -> RUNS x b -> key x b = kb -> current_task x <> b -> rising (key x (current_task x)) x y -> waits N y n.
Proof.
  intros S S' Hn [Hl Hfl] Hb Ek Hcb R. set (m := key x (current_task x)) in *. pose proof R as [R1 R2 R3 R4].
  assert (key y (current_task y) = m) as Em by (rewrite R4; by destruct (R1 _ Hl) as [_ ->]).
  constructor; [|done|..].
  - exists ys, ls', zs'. split; [done|]. rewrite Em.
    assert (at_key y m ys <= at_key x m xs)%nat; [|lia]. apply at_key_mono; [by eapply queue_nodup, s_queue|].
    intros a Ha Ea. apply (s_running _ _ _ _ S') in Ha. destruct (R2 a Ha) as [Hx|]; [|lia]. split; [by apply (s_running _ _ _ _ S)|].
    by destruct (R1 a Hx) as [_ <-].
  - split; [rewrite R4; by apply R1|]. rewrite Em. by eapply rising_floor.
  - by eapply rising_target.
  - by rewrite R4.
Qed.


(** What a task that leaves does to the others. *)
Lemma left_fair type x y xs ys ls ls' : left type x y xs ys ls ls' -> fair x -> alive x (current_task x) -> fair y.
Proof.
  intros L Hf [t Et] a u Eu. destruct (decide (a = current_task x)) as [->|Ha].
  - destruct (Hf _ _ Et) as [F1 F2 F3 F4]. destruct (l_task _ _ _ _ _ _ _ L t u Et Eu) as [En Hs].
    destruct type; destruct Hs as [Es Hs]; constructor; rewrite ?Es, ?Hs, ?En; try done; try lia.
    pose proof (l_key _ _ _ _ _ _ _ L t Et eq_refl) as Ek. rewrite (key_eq _ _ _ Eu) in Ek. rewrite Ek.
    unfold u64. apply Z.mod_pos_bound. lia.
  - rewrite (l_others _ _ _ _ _ _ _ L) in Eu by done. by apply (Hf a).
Qed.

Lemma round_waits N x n ps type x' :
  waits N x n -> Forall (poll_ok x) ps -> (type = HEV_TASK_SCHED_REMOVE -> quits x ps) ->
  hev_task_system_schedule (Some type) x ps = Val (Some x') -> current_task x' <> b -> total_task_count x' <= N ->
  waits N x' (n - 1).
Proof.
  intros [(xs & ls & zs & S & Hn) Hf [Hc [Hm0 Hfl]] [Hb Ek] Hcb] Hp Hq E Hnb HN.
  set (c := current_task x) in *. set (m := key x c) in *. apply (s_running _ _ _ _ S) in Hc as Hcx.
  pose proof Hc as (t & Et & Est). unfold hev_task_system_schedule in E.
  destruct (leave_ok type x xs ls zs S Hcx) as (y & ys & ls' & Ey & Sy & L).
  { intros Eq. destruct (Hq Eq) as [_ Hs]. split; [constructor|done]. }
  rewrite Ey in E. cbn [obind] in E. fold c in L. pose proof (l_queue _ _ _ _ _ _ _ L) as Lq. fold c in Lq.
  assert (forall a, a <> c -> key y a = key x a) as Hoth by (intros a Ha; unfold key; by rewrite (l_others _ _ _ _ _ _ _ L)).
  assert (m <= kb) as Hmk by (rewrite <- Ek; by apply Hfl). destruct (Hf _ _ Et) as [F1 F2 F3 _]. specialize (F3 (eq_sym Est)).
  assert (m = sched_key t) as Emt by (by apply key_eq).
  assert (c ∈ ys -> m < key y c) as Hraise.
  { intros (_ & [|Hty])%Lq; [done|]. unfold c. rewrite (l_key _ _ _ _ _ _ _ L t Et Hty), u64_id by lia. lia. }
  assert (RUNS y b /\ key y b = kb) as [Hby Eky].
  { split; [|by rewrite Hoth]. apply (s_running _ _ _ _ Sy), Lq. split; [by apply (s_running _ _ _ _ S)|left; congruence]. }
  assert (floor m y) as Fy.
  { split; [done|]. intros a Ha. apply (s_running _ _ _ _ Sy) in Ha as Hay. destruct (decide (a = c)) as [->|Hac]; [specialize (Hraise Hay); lia|].
    rewrite Hoth by done. apply Hfl, (s_running _ _ _ _ S). by apply Lq in Hay as []. }
  assert (fair y) as Hfy by (eapply left_fair; [done|done|by exists t]).
  assert (b ∈ ys) as Hbys by (by apply (s_running _ _ _ _ Sy)).
  assert ((total_task_count y =? 0) = false) as Htot.
  { apply Z.eqb_neq. rewrite (s_total _ _ _ _ Sy). pose proof (running_small _ _ _ _ Sy). destruct ys; [by apply elem_of_nil in Hbys|].
    unfold zlen in *. cbn [length] in *. lia. }
  rewrite Htot in E. destruct (pick_rising m y ys ls' zs ps x' Sy Hfy Fy Hby Eky) as (z & xs' & R & Tz & S' & Hl'); [by eapply left_polls; [|exists t|..]|done|].
  assert (forall a, key x' a = key z a) as Kz by (intros a; unfold key; by rewrite Tz).
  assert (forall P a, has x' P a <-> has z P a) as Hz by (intros P a; unfold has; by rewrite Tz).
  destruct (rising_target _ _ _ R Hby Eky) as [Hbz Ekz].
  assert (m <= key x' (current_task x')) as Hm'.
  { rewrite Kz. apply (rising_floor _ _ _ R Fy). apply Hz. by destruct Hl'. }
  assert (at_key x' m xs' < at_key x m xs)%nat as Hdrop.
  { assert (forall a, a ∈ xs' -> key x' a = m -> a ∈ ys /\ key y a = m) as Hback.
    { intros a Ha Ea. apply (s_running _ _ _ _ S'), Hz in Ha. rewrite Kz in Ea. destruct (r_new _ _ _ R a Ha) as [Hya|]; [|lia].
      destruct (r_old _ _ _ R a Hya) as [_ Eya]. split; [by apply (s_running _ _ _ _ Sy)|congruence]. }
    apply (at_key_drop x x' m xs xs' c); [by eapply queue_nodup, s_queue|done|done| |].
    - intros [Ea Ha]%list_elem_of_filter. destruct (Hback c Ha Ea) as [Hcy Ecy]. specialize (Hraise Hcy). lia.
    - intros a Ha Ea. destruct (Hback a Ha Ea) as [Hay Eay]. assert (a <> c) by (intros ->; specialize (Hraise Hay); lia).
      split; [by apply Lq in Hay as []|]. by rewrite <- Hoth. }
  constructor; [| |done| |done].
  - exists xs', ls', zs. split; [done|]. pose proof (at_key_le x' (key x' (current_task x')) xs') as Hle.
    pose proof (running_small _ _ _ _ S') as Hsm. rewrite <- (s_total _ _ _ _ S') in Hsm. unfold zlen in Hsm.
    destruct (decide (key x' (current_task x') = m)) as [->|Hne]; [lia|]. nia.
  - unfold fair. rewrite Tz. apply (r_fair _ _ _ R).
  - rewrite Hz, Kz. done.
Qed.

(** ** Calls *)

(** A task that does not run is changed, or starts to run with a larger key. *)
Lemma idle_rising m x y a t' :
  fair x -> tasks y = <[a := t']> (tasks x) -> ~ RUNS x a -> current_task y = current_task x -> fair_task t' ->
  (state t' = HEV_TASK_RUNNING -> m < sched_key t') -> rising m x y.
Proof.
  intros Hf Ty Ha Ec Ht Hk. assert (forall c, c <> a -> tasks y !! c = tasks x !! c) as Ho by (intros c Hc; by rewrite Ty, lookup_insert_ne).
  constructor; [| | |done].
  - intros c Hc. assert (c <> a) as Hca by (by intros ->). destruct Hc as (u & Eu & Hu). split; [exists u; by rewrite Ho|]. unfold key. by rewrite Ho.
  - intros c (u & Eu & Hu). destruct (decide (c = a)) as [->|Hc]; [|left; exists u; by rewrite <- Ho]. right.
    rewrite (key_eq _ _ _ Eu). rewrite Ty, lookup_insert_eq in Eu. injection Eu as <-. by apply Hk.
  - unfold fair. rewrite Ty. by apply map_Forall_insert_2.
Qed.

Lemma gone_rising m x y a : fair x -> tasks y = delete a (tasks x) -> ~ RUNS x a -> current_task y = current_task x -> rising m x y.
Proof.
  intros Hf Ty Ha Ec. assert (forall c, c <> a -> tasks y !! c = tasks x !! c) as Ho by (intros c Hc; by rewrite Ty, lookup_delete_ne).
  constructor; [| | |done].
  - intros c Hc. assert (c <> a) as Hca by (by intros ->). destruct Hc as (u & Eu & Hu). split; [exists u; by rewrite Ho|]. unfold key. by rewrite Ho.
  - intros c (u & Eu & Hu). destruct (decide (c = a)) as [->|Hc]; [by rewrite Ty, lookup_delete_eq in Eu|]. left. exists u. by rewrite <- Ho.
  - unfold fair. rewrite Ty. by apply map_Forall_delete.
Qed.

Lemma same_rising m x y : fair x -> tasks y = tasks x -> current_task y = current_task x -> rising m x y.
Proof.
  intros Hf Ty Ec. assert (forall P a, has y P a <-> has x P a) as Hh by (intros P a; unfold has; by rewrite Ty).
  constructor; [|by intros a Ha; left; apply Hh|by unfold fair; rewrite Ty|done].
  intros a Ha. split; [by apply Hh|]. unfold key. by rewrite Ty.
Qed.

Lemma run_rising x xs ls zs a t y :
  sched_ok x xs ls zs -> fair x -> leads x -> RUNS x b -> key x b = kb -> tasks x !! a = Some t -> state t = HEV_TASK_STOPPED ->
  zlen ls + 1 < 2 ^ 31 -> hev_task_run x a = Val y -> rising (key x (current_task x)) x y.
Proof.
  intros S Hf [Hc Hfl] Hb Ek Et Es Hsm E. set (m := key x (current_task x)) in *. pose proof Hfl as [Hm0 _].
  destruct (task_run_ok _ _ _ _ _ _ S Et Es Hsm) as (x' & us & vs & t' & E' & S' & E1 & Tx & Ecx & _ & Kt & Pt & Nt & St).
  rewrite E' in E. injection E as <-. destruct (Hf _ _ Et) as [F1 F2 F3 F4]. apply (s_running _ _ _ _ S) in Hc as Hcx.
  apply (s_running _ _ _ _ S) in Hb as Hbx. pose proof (queue_nonnull _ _ _ (s_queue _ _ _ _ S) Hcx) as Hcn.
  rewrite (proj2 (Z.eqb_neq (current_task x) NULL) Hcn) in Kt.
  assert (m < sched_key t') as Hk.
  { rewrite Kt. destruct xs as [|h xs]; [by apply elem_of_nil in Hbx|]. assert (m <= key x h) by (apply Hfl, (s_running _ _ _ _ S); left).
    assert (key x h <= kb). { rewrite <- Ek. pose proof (s_order _ _ _ _ S) as Ho. apply StronglySorted_inv in Ho as [_ Hfo].
      apply elem_of_cons in Hbx as [->|Hbx]; [done|]. by eapply Forall_forall in Hfo. }
    rewrite u64_id; lia. }
  apply (idle_rising m x x' a t' Hf Tx); [intros (u & Eu & Hu); congruence|done| |done].
  constructor; rewrite ?Nt, ?Pt, ?St; try done. lia.
Qed.

(** Tasks never get the real-time priority. *)
Definition gentle (ev : event) : Prop := match ev with EPriority _ p => 1 <= p | _ => True end.

Lemma call_rising x ev xs ls zs y :
  sched_ok x xs ls zs -> fair x -> leads x -> RUNS x b -> key x b = kb ->
  allowed x ev -> gentle ev -> is_schedule ev = false -> step x ev = Val (Some y) -> rising (key x (current_task x)) x y.
Proof.
  intros S Hf [Hc Hfl] Hb Ek Ha Hg Hs E. set (m := key x (current_task x)) in *. pose proof Hfl as [Hm0 _].
  assert (forall a t, tasks x !! a = Some t -> state t <> HEV_TASK_RUNNING -> ~ RUNS x a) as Hnr by (intros a t Et Hn (u & Eu & Hu); congruence).
  destruct ev; cbn [step allowed is_schedule gentle] in *; try done.
  - destruct Ha as [->|[Hm Al]]; [injection E as <-; by apply rising_refl|]. unfold hev_task_new in E.
    destruct (Z.eqb_spec mem NULL) as [|Hn]; [injection E as <-; by apply rising_refl|]. destruct stack; [|injection E as <-; by apply rising_refl].
    destruct (new_ok x xs ls zs mem S Hm Hn Al) as (x' & E' & _ & Tx & Ecx & _). unfold hev_task_new in E'.
    rewrite (proj2 (Z.eqb_neq mem NULL) Hn) in E'. rewrite E' in E. cbn [obind] in E. injection E as <-.
    apply (idle_rising m x x' mem _ Hf Tx); [intros (u & Eu & _); congruence|done| |done].
    constructor; cbn; unfold HEV_TASK_PRIORITY_DEFAULT, HEV_TASK_PRIORITY_MAX; (done || lia).
  - destruct Ha as (t & Et & Hr). unfold just, hev_task_ref in E. rewrite (get_task_ok _ _ _ Et) in E. injection E as <-.
    destruct (Hf _ _ Et) as [F1 F2 F3 F4]. eapply put_rising; try done.
  - destruct Ha as (t & Et & Hr). destruct (task_unref_ok _ _ _ _ _ _ S Et Hr) as (x' & E' & _ & Tx & Ecx & _). unfold just in E. rewrite E' in E.
    injection E as <-. destruct (Z.eqb_spec (ref_count t) 1) as [E1|E1].
    + eapply gone_rising; try done. eapply Hnr; [done|]. by rewrite (Hr E1).
    + destruct (Hf _ _ Et) as [F1 F2 F3 F4]. pose proof (put_rising m x a t (set_refs (ref_count t - 1) t) Hf Et eq_refl eq_refl) as R.
      eapply rising_trans; [by apply R|]. eapply same_rising; [apply map_Forall_insert_2; done|done|done].
  - destruct Ha as [t Et]. unfold just, hev_task_set_priority in E. rewrite (get_task_ok _ _ _ Et) in E. injection E as <-.
    destruct (Hf _ _ Et) as [F1 F2 F3 F4]. eapply put_rising; try done. constructor; cbn; try done.
    unfold HEV_TASK_PRIORITY_MIN, HEV_TASK_PRIORITY_MAX in *. rewrite Z.gtb_ltb. destruct (Z.ltb_spec p 0); [lia|]. destruct (Z.ltb_spec 15 p); lia.
  - destruct Ha as [[t Et] Hsm]. unfold just in E. destruct (decide (state t = HEV_TASK_STOPPED)) as [Es|Es].
    + rewrite (s_total _ _ _ _ S) in Hsm. destruct (hev_task_run x a) as [x'|] eqn:E'; [|done]. injection E as <-. by eapply run_rising.
    + unfold hev_task_run in E. rewrite (get_task_ok _ _ _ Et) in E. cbn [obind] in E. rewrite bool_decide_true in E by done.
      injection E as <-. by apply rising_refl.
  - destruct Ha as (t & Et & Ht). destruct (wake_rising m x xs ls zs a t S Hf Hfl Hb Ek Et Ht) as (x' & xs' & E' & _ & R & _).
    unfold just in E. rewrite E' in E. by injection E as <-.
  - destruct Ha as (_ & Hn & Al & Hfr). destruct (sleep_ok x xs ls zs node milliseconds curr S) as (lm & x' & us & vs & E' & _ & _ & Tx & Ecx & _); try done.
    { destruct Hc as (t & Et & Es). exists t. split; [done|]. by rewrite <- Es. }
    rewrite E' in E. injection E as <-. by apply same_rising.
  - destruct Ha as [n En]. destruct (awake_erase _ _ _ _ _ _ S En) as (mm & us & vs & _ & Sm & _ & _ & E'). rewrite E' in E.
    destruct (bool_decide (us = []) || lm); cbn [obind] in E; [|injection E as <-; by apply same_rising].
    destruct (timer_rising m (set_timer mm x) xs ls (us ++ vs) curr Sm Hf Hfl Hb Ek) as (x' & xs' & E1 & _ & R & _). rewrite E1 in E.
    injection E as <-. eapply rising_trans; [by apply (same_rising m x (set_timer mm x))|done].
  - destruct Ha as [t Et]. unfold join_enter in E. rewrite (get_task_ok _ _ _ Et) in E. cbn [obind] in E. destruct (Hf _ _ Et) as [F1 F2 F3 F4].
    destruct (negb (joiner t =? NULL)); injection E as <-; [by apply rising_refl|]. by eapply put_rising.
  - destruct Ha as [t Et]. unfold join_round in E. rewrite (get_task_ok _ _ _ Et) in E. cbn [obind] in E.
    case_bool_decide as Es; [injection E as <-; by apply rising_refl|].
    destruct (wake_rising m x xs ls zs a t S Hf Hfl Hb Ek Et Es) as (x' & xs' & E' & _ & R & _). rewrite E' in E. by injection E as <-.
Qed.

(** [n] rounds that pass over [b], with at most [N] tasks; other calls may happen in
    between. *)
Inductive passed_over (N : Z) : HevTaskSystemContext -> nat -> Prop :=
| po_none x : passed_over N x 0
| po_call x ev y n : allowed x ev -> gentle ev -> is_schedule ev = false -> step x ev = Val (Some y) ->
    passed_over N y n -> passed_over N x n
| po_round x ev y n : allowed x ev -> is_schedule ev = true -> step x ev = Val (Some y) ->
    current_task y <> b -> total_task_count y <= N -> passed_over N y n -> passed_over N x (S n).

Lemma waits_call N x n ev y : waits N x n -> allowed x ev -> gentle ev -> is_schedule ev = false -> step x ev = Val (Some y) -> waits N y n.
Proof.
  intros [(xs & ls & zs & S & Hn) Hf Hl [Hb Ek] Hcb] Ha Hg Hs E.
  destruct (call_ok x xs ls zs ev) as (y' & E' & xs' & ls' & zs' & S' & _); [done| |done..|].
  { right. apply (s_running _ _ _ _ S), Hl. }
  rewrite E in E'. injection E' as <-. apply (waits_rising N x y n xs xs' ls ls' zs zs' S S' Hn Hl Hb Ek Hcb). by eapply call_rising.
Qed.

Lemma waits_round N x n ev y : waits N x n -> allowed x ev -> is_schedule ev = true -> step x ev = Val (Some y) ->
  current_task y <> b -> total_task_count y <= N -> waits N y (n - 1).
Proof.
  intros W Ha Hs E Hb HN. pose proof W as [(xs & ls & zs & S & Hn) Hf [Hc Hfl] [Hbr Ek] Hcb].
  apply (s_running _ _ _ _ S) in Hc as Hcx. pose proof (queue_nonnull _ _ _ (s_queue _ _ _ _ S) Hcx) as Hcn.
  destruct ev; try done; cbn [step allowed] in *.
  - by destruct Ha.
  - destruct Ha as [_ Hp]. apply (round_waits N x n ps (if wait then HEV_TASK_SCHED_WAITIO else HEV_TASK_SCHED_SWITCH) y W Hp); [by destruct wait|done..].
  - destruct Ha as (_ & Hp & Hq & Hj). unfold executer_exit in E. pose proof Hc as (t & Et & _). rewrite (get_task_ok _ _ _ Et) in E. cbn [obind] in E.
    assert (exists x1, (if negb (joiner t =? NULL) then hev_task_system_wakeup_task_with_context x (joiner t) else Val x) = Val x1 /\
      waits N x1 n /\ woken x x1) as (x1 & E1 & W1 & V1).
    { destruct (Hj t Et) as [->|(u & Eu & Hu)]; [exists x; split_and!; try done; apply woken_refl|].
      destruct (joiner t =? NULL); cbn [negb]; [exists x; split_and!; try done; apply woken_refl|].
      destruct (wake_rising (key x (current_task x)) x xs ls zs (joiner t) u S Hf Hfl Hbr Ek Eu Hu) as (x1 & xs1 & E1 & S1 & R1 & V1).
      exists x1. split; [done|]. split; [|done]. by apply (waits_rising N x x1 n xs xs1 ls ls zs zs S S1 Hn). }
    rewrite E1 in E. cbn [obind] in E. eapply (round_waits N x1 n ps HEV_TASK_SCHED_REMOVE y); try done.
    + eapply Forall_impl; [exact Hp|]. intros p Hp'. eapply Forall_impl; [exact Hp'|]. intros c. by apply woken_has.
    + intros _. unfold quits. by rewrite (w_current _ _ V1), (w_timer _ _ V1).
Qed.

Lemma passed_over_bound N x k : passed_over N x k -> forall n, waits N x n -> 0 <= N -> Z.of_nat k <= n.
Proof.
  induction 1 as [x|x ev y k Ha Hg Hs E _ IH|x ev y k Ha Hs E Hb HN _ IH]; intros n W HN0.
  - destruct W as [(xs & ls & zs & S & Hn) _ [_ [_ Hfl]] [Hbr Ek] _]. specialize (Hfl b Hbr). nia.
  - apply IH; [|done]. by eapply waits_call.
  - assert (Z.of_nat k <= n - 1); [|lia]. apply IH; [|done]. by eapply waits_round.
Qed.

End target.

(** C4: the scheduler starves no task: when no task uses the real-time priority 0, a
    running task [b] is passed over for a bounded number of rounds, whatever tasks are
    started, woken, put to sleep, or exit meanwhile.  With at most [N] tasks the bound is
    [N] rounds for each value from the least key to the key of [b], which does not change
    while the task waits; no key wraps on the way. *)
Theorem scheduler_no_starvation b N x n :
  reachable x -> fair x -> leads x -> RUNS x b -> current_task x <> b ->
  key x b + HEV_TASK_PRIORITY_MAX < 2 ^ 64 -> total_task_count x <= N -> passed_over b N x n ->
  Z.of_nat n <= (key x b - key x (current_task x) + 1) * N.
Proof.
  intros Hr Hf Hl Hb Hcb Hk HN Hp.
  assert (inv x) as (xs & ls & zs & S & _) by (by apply reachable_inv).
  pose proof (running_small _ _ _ _ S) as Hsm. rewrite (s_total _ _ _ _ S) in HN. pose proof (zlen_nonneg ls) as H0.
  eapply (passed_over_bound b (key x b) Hk N x n Hp); [|lia]. constructor; try done.
  exists xs, ls, zs. split; [done|]. pose proof (at_key_le x (key x (current_task x)) xs). unfold zlen in *. lia.
Qed.

(** ** Witness *)

(** Rounds that pass over [b], by evaluation. *)
Fixpoint replay (b N : Z) (x : HevTaskSystemContext) (l : list event) : option nat :=
  match l with
  | [] => Some 0%nat
  | ev :: l =>
      if bool_decide (allowed x ev) && match ev with EPriority _ p => 1 <=? p | _ => true end then
        match step x ev with
        | Val (Some y) =>
            if is_schedule ev then
              if bool_decide (current_task y <> b /\ total_task_count y <= N) then S <$> replay b N y l else None
            else replay b N y l
        | _ => None
        end
      else None
  end.

Lemma replay_passed_over b N l : forall x n, replay b N x l = Some n -> passed_over b N x n.
Proof.
  induction l as [|ev l IH]; intros x n; cbn [replay]; [intros [= <-]; constructor|].
  destruct (bool_decide (allowed x ev)) eqn:Ha; [|done]. cbn [andb]. apply bool_decide_eq_true in Ha.
  destruct (match ev with EPriority _ p => 1 <=? p | _ => true end) eqn:Hg; [|done].
  assert (gentle ev) as Hgt by (destruct ev; try done; by apply Z.leb_le in Hg).
  destruct (step x ev) as [[y|]|] eqn:E; [|done..]. destruct (is_schedule ev) eqn:Hs.
  - case_bool_decide as Hy; [|done]. destruct Hy as [Hb HN]. intros (k & Ek & ->)%fmap_Some. eapply po_round; try done. by apply IH.
  - intros Hn. eapply po_call; try done. by apply IH.
Qed.

Definition example_rounds : list event :=
  [EYield false []; ENew 192 true; ERun 192; EYield false []; EYield false []].

Lemma scheduler_no_starvation_witness :
  Z.of_nat 3 <= (key example_state 128 - key example_state (current_task example_state) + 1) * 3.
Proof.
  apply (scheduler_no_starvation 128 3 example_state 3).
  - assert (match exec initial example_events with Some _ => true | None => false end = true) as K by (vm_compute; reflexivity).
    unfold example_state. destruct (exec initial example_events) as [y|] eqn:E; [|discriminate K].
    exact (exec_reachable _ _ _ reach_init E).
  - apply map_Forall_to_list. vm_compute. repeat constructor; cbn; try (intros; discriminate); auto.
  - split; [eexists; vm_compute; done|]. split; [vm_compute; discriminate|]. intros a (t & Et & _).
    assert (map_Forall (fun _ u => key example_state (current_task example_state) <= sched_key u) (tasks example_state)) as H.
    { apply (bool_decide_unpack _). vm_compute. exact I. }
    rewrite (key_eq _ _ _ Et). exact (H a t Et).
  - eexists. vm_compute. done.
  - vm_compute. discriminate.
  - vm_compute. reflexivity.
  - vm_compute. discriminate.
  - apply (replay_passed_over 128 3 example_rounds). vm_compute. reflexivity.
Defined.

End TaskSystemFair.
