(* ===== verification/TaskMutex.v ===== *)
(** * The mutex of the task library

    Model of src/kern/sync/hev-task-mutex.c: a flag and a stack of waiters whose nodes
    live on the stacks of the tasks.  A call of [hev_task_mutex_lock] is cut where it
    yields.  The sessions, the timer and the input task of the tunnel share one mutex; the
    theorem is about any number of tasks that use it between any other calls of the
    library. *)

From Stdlib Require Import ZArith Lia Sorted.
From stdpp Require Import base list gmap numbers.
From S2P Require Import Prelude HevList RBTree RBTreeCached TaskSystem TaskSystemInv TaskSystemRun.
Import list_basics.list list_relations.list list_monad.list list_misc.list.
Import RBTreeCached TaskSystem TaskSystemInv TaskSystemRun.

Module TaskMutex.

(** ** Data and operations *)

Record HevTaskMutexNode := mkMNode { mnext : Z; mtask : Z }.

Record HevTaskMutex := mkMutex { locker : Z; waiters : Z }.

Definition hev_task_mutex_init : HevTaskMutex := mkMutex 0 NULL.

(** [hev_task_mutex_lock] up to its loop: [true] when it holds the mutex, otherwise the
    node at [node] is on the stack. *)
Definition lock_enter (self : HevTaskMutex) (nodes : gmap Z HevTaskMutexNode) (node task : Z)
    : bool * HevTaskMutex * gmap Z HevTaskMutexNode :=
  if negb (locker self =? 0) then
    (false, mkMutex (locker self) node, <[node := mkMNode (waiters self) task]> nodes)
  else (true, mkMutex 1 (waiters self), nodes).

(** The condition of the loop after a yield, and what follows when it ends; the node goes
    away with the call. *)
Definition lock_retry (self : HevTaskMutex) (nodes : gmap Z HevTaskMutexNode) (node : Z)
    : outcome (bool * HevTaskMutex * gmap Z HevTaskMutexNode) :=
  if negb (locker self =? 0) || negb (waiters self =? node) then Val (false, self, nodes)
  else
    let! n := of_option (nodes !! node) in
    Val (true, mkMutex 1 (mnext n), delete node nodes).

Definition hev_task_mutex_trylock (self : HevTaskMutex) : Z * HevTaskMutex :=
  if negb (locker self =? 0) then (-1, self) else (0, mkMutex 1 (waiters self)).

Definition hev_task_mutex_unlock (self : HevTaskMutex) (nodes : gmap Z HevTaskMutexNode) (x : HevTaskSystemContext)
    : outcome (HevTaskMutex * HevTaskSystemContext) :=
  let self := mkMutex 0 (waiters self) in
  if negb (waiters self =? NULL) then
    let! n := of_option (nodes !! waiters self) in
    let! x := hev_task_system_wakeup_task_with_context x (mtask n) in
    Val (self, x)
  else Val (self, x).

(** ** Tasks that use it *)

(** Where a task is with respect to the mutex. *)
Inductive phase := Waiting (node : Z) | Holding.

Record msys := mkSys {
  sys : HevTaskSystemContext; mutex : HevTaskMutex; mnodes : gmap Z HevTaskMutexNode; phases : gmap Z phase }.

(** What the current task does next; [ps] are the reactor's answers if it yields. *)
Inductive mevent :=
| MLock (node : Z) (ps : list poll)
| MRetry (ps : list poll)
| MTry
| MUnlock
| MCall (ev : event).

(** The scheduler runs; [f] makes the new state. *)
Definition yield_wait (x : HevTaskSystemContext) (ps : list poll) (f : HevTaskSystemContext -> msys) : outcome (option msys) :=
  let! r := step x (EYield true ps) in
  match r with None => Val None | Some x => Val (Some (f x)) end.

Definition mstep (s : msys) (e : mevent) : outcome (option msys) :=
  let c := current_task (sys s) in
  match e with
  | MLock node ps =>
      let '(got, m, ns) := lock_enter (mutex s) (mnodes s) node c in
      if got : bool then Val (Some (mkSys (sys s) m ns (<[c := Holding]> (phases s))))
      else yield_wait (sys s) ps (fun x => mkSys x m ns (<[c := Waiting node]> (phases s)))
  | MRetry ps =>
      match phases s !! c with
      | Some (Waiting node) =>
          let! (got, m, ns) := lock_retry (mutex s) (mnodes s) node in
          if got : bool then Val (Some (mkSys (sys s) m ns (<[c := Holding]> (phases s))))
          else yield_wait (sys s) ps (fun x => mkSys x m ns (phases s))
      | _ => Fault
      end
  | MTry =>
      let '(r, m) := hev_task_mutex_trylock (mutex s) in
      Val (Some (mkSys (sys s) m (mnodes s) (if r =? 0 then <[c := Holding]> (phases s) else phases s)))
  | MUnlock =>
      let! (m, x) := hev_task_mutex_unlock (mutex s) (mnodes s) (sys s) in
      Val (Some (mkSys x m (mnodes s) (delete c (phases s))))
  | MCall ev =>
      let! r := step (sys s) ev in
      match r with None => Val None | Some x => Val (Some (mkSys x (mutex s) (mnodes s) (phases s))) end
  end.

(** A task unlocks what it holds, does not lock again, and exits without it. *)
Definition mallowed (s : msys) (e : mevent) : Prop :=
  let c := current_task (sys s) in
  match e with
  | MLock node ps => c <> NULL /\ phases s !! c = None /\ node <> NULL /\ mnodes s !! node = None /\ Forall (poll_ok (sys s)) ps
  | MRetry ps => c <> NULL /\ (exists node, phases s !! c = Some (Waiting node)) /\ Forall (poll_ok (sys s)) ps
  | MTry => c <> NULL /\ phases s !! c = None
  | MUnlock => phases s !! c = Some Holding
  | MCall ev =>
      allowed (sys s) ev /\
      match phases s !! c with
      | None => True
      | Some Holding => match ev with EExit _ => False | _ => True end
      | Some (Waiting _) => False
      end
  end.

Inductive mreachable : msys -> Prop :=
| mreach_init x : reachable x -> mreachable (mkSys x hev_task_mutex_init ∅ ∅)
| mreach_step s e s' : mreachable s -> mallowed s e -> mstep s e = Val (Some s') -> mreachable s'.

(** ** The invariant *)

(** The stack of waiters: nodes with their tasks. *)
Fixpoint stack (ns : gmap Z HevTaskMutexNode) (p : Z) (ws : list (Z * Z)) : Prop :=
  match ws with
  | [] => p = NULL
  | (n, t) :: ws => p = n /\ n <> NULL /\ exists q, ns !! n = Some (mkMNode q t) /\ stack ns q ws
  end.

Record minv (s : msys) (xs ls zs : list Z) (ws : list (Z * Z)) : Prop := {
  m_sched : sched_ok (sys s) xs ls zs;
  m_running : running (sys s) xs;
  m_stack : stack (mnodes s) (waiters (mutex s)) ws;
  m_nodes : NoDup ws.*1 /\ forall n, is_Some (mnodes s !! n) -> n ∈ ws.*1;
  m_waiting : forall t n, phases s !! t = Some (Waiting n) <-> (n, t) ∈ ws;
  m_holder : forall t u, phases s !! t = Some Holding -> phases s !! u = Some Holding -> t = u;
  m_locker : locker (mutex s) <> 0 <-> exists t, phases s !! t = Some Holding;
  m_live : forall t p, phases s !! t = Some p -> t ∈ ls;
  m_wakeup : locker (mutex s) = 0 -> match ws with [] => True | (_, t) :: _ => t ∈ xs end;
}.

Lemma stack_frame ns ns' ws : forall p, (forall n, n ∈ ws.*1 -> ns' !! n = ns !! n) -> stack ns p ws -> stack ns' p ws.
Proof.
  induction ws as [|[n t] ws IH]; intros p Hf; cbn [stack]; [done|]. intros (-> & Hn & q & Eq & Hs). split_and!; [done..|].
  exists q. rewrite Hf by left. split; [done|]. apply IH; [|done]. intros k Hk. apply Hf. by right.
Qed.

Lemma minv_init x : inv x -> exists xs ls zs, minv (mkSys x hev_task_mutex_init ∅ ∅) xs ls zs [].
Proof.
  intros (xs & ls & zs & S & R). exists xs, ls, zs. constructor; try done.
  - split; [constructor|]. by intros n [? [=]].
  - intros t n. split; [done|]. by intros ?%elem_of_nil.
  - split; [done|]. by intros [t Ht].
Qed.

(** The scheduler's part may change as long as tasks with a phase stay started and a
    waiter that is due stays running. *)
Lemma minv_sys s xs ls zs ws x' xs' ls' zs' :
  minv s xs ls zs ws -> sched_ok x' xs' ls' zs' -> running x' xs' ->
  (forall t p, phases s !! t = Some p -> t ∈ ls -> t ∈ ls') ->
  (locker (mutex s) = 0 -> forall n t ws', ws = (n, t) :: ws' -> t ∈ xs -> t ∈ xs') ->
  minv (mkSys x' (mutex s) (mnodes s) (phases s)) xs' ls' zs' ws.
Proof.
  intros [M1 M2 M3 M4 M5 M6 M7 M8 M9] S' R' Hl Hw. constructor; try done.
  - intros t p Hp. eapply Hl; [done|]. by eapply M8.
  - intros H0. specialize (M9 H0). destruct ws as [|[n t] ws]; [done|]. by eapply Hw.
Qed.

Lemma current_live s xs ls zs ws : minv s xs ls zs ws -> current_task (sys s) <> NULL -> current_task (sys s) ∈ xs /\ current_task (sys s) ∈ ls.
Proof.
  intros [M1 [|M2] _ _ _ _ _ _ _] Hn; [done|]. split; [done|]. by eapply running_live.
Qed.

(** Taking the free mutex. *)
Lemma mutex_take_ok s xs ls zs ws m ns ws' c :
  minv s xs ls zs ws -> locker (mutex s) = 0 -> c ∈ ls -> locker m <> 0 -> stack ns (waiters m) ws' ->
  NoDup ws'.*1 -> (forall n, is_Some (ns !! n) -> n ∈ ws'.*1) ->
  (forall t n, (n, t) ∈ ws' <-> (n, t) ∈ ws /\ t <> c) -> (forall n, (n, c) ∈ ws -> phases s !! c = Some (Waiting n)) ->
  minv (mkSys (sys s) m ns (<[c := Holding]> (phases s))) xs ls zs ws'.
Proof.
  intros [M1 M2 M3 M4 M5 M6 M7 M8 M9] H0 Hc Hm Hs Hnd Hns Hws Hph.
  assert (forall t, phases s !! t <> Some Holding) as Hno.
  { intros t Ht. destruct M7 as [_ M7]. apply M7; [by exists t|done]. }
  constructor; cbn [sys mutex mnodes phases]; try done.
  - intros t n. rewrite Hws, <- M5. destruct (decide (t = c)) as [->|Ht].
    + rewrite lookup_insert_eq. split; [done|tauto].
    + rewrite lookup_insert_ne by done. tauto.
  - intros t u. rewrite !lookup_insert_Some. intros [[<- _]|[_ Ht]] [[<- _]|[_ Hu]]; try done; [by destruct (Hno u)|by destruct (Hno t)..].
  - split; [|done]. intros _. exists c. by rewrite lookup_insert_eq.
  - intros t p. rewrite lookup_insert_Some. intros [[<- _]|[_ Ht]]; [done|by eapply M8].
Qed.

Lemma lock_ok s xs ls zs ws node ps :
  minv s xs ls zs ws -> mallowed s (MLock node ps) ->
  exists r, mstep s (MLock node ps) = Val r /\ match r with None => True | Some s' => exists xs' ls' zs' ws', minv s' xs' ls' zs' ws' end.
Proof.
  intros M (Hc & Hph & Hn & Hfr & Hp). destruct (current_live _ _ _ _ _ M Hc) as [Hcx Hcl]. pose proof M as [M1 M2 M3 [M4 M4'] M5 M6 M7 M8 M9].
  set (c := current_task (sys s)) in *. cbn [mstep]. fold c. unfold lock_enter. destruct (Z.eqb_spec (locker (mutex s)) 0) as [H0|H0]; cbn [negb].
  - eexists. split; [done|]. exists xs, ls, zs, ws. eapply mutex_take_ok; try done.
    + intros t n. split; [|tauto]. intros Hin. split; [done|]. intros ->. apply M5 in Hin. congruence.
    + intros n Hin. by apply M5.
  - unfold yield_wait. destruct (round_ok (sys s) xs ls zs (EYield true ps)) as (r & -> & Hr); [done..|]. cbn [obind].
    destruct r as [x'|]; [|by exists None]. eexists. split; [done|]. destruct Hr as (xs' & ls' & zs' & S' & R' & _ & H1 & H2).
    assert (node ∉ ws.*1) as Hni.
    { intros ([n t] & -> & Hin)%list_elem_of_fmap. cbn in *. clear -Hin M3 Hfr. revert M3. generalize (waiters (mutex s)).
      induction ws as [|[k u] ws IH]; intros p; [by apply elem_of_nil in Hin|]. intros (-> & _ & q & Eq & Hs).
      apply elem_of_cons in Hin as [[= -> ->]|Hin]; [congruence|by eapply IH]. }
    exists xs', ls', zs', ((node, c) :: ws). constructor; cbn [sys mutex mnodes phases waiters locker stack]; try done.
    + split_and!; [done..|]. exists (waiters (mutex s)). rewrite lookup_insert_eq. split; [done|]. eapply stack_frame; [|exact M3].
      intros n Hin. rewrite lookup_insert_ne; [done|]. by intros ->.
    + split; [by apply NoDup_cons|]. intros n. rewrite lookup_insert_is_Some. intros [<-|[_ Hin]]; [left|right; by apply M4'].
    + intros t n. rewrite elem_of_cons, <- M5. destruct (decide (t = c)) as [->|Ht].
      * rewrite lookup_insert_eq. split; [intros [= ->]; by left|]. intros [[= ->]|]; congruence.
      * rewrite lookup_insert_ne by done. split; [by right|]. intros [[= -> ->]|]; done.
    + intros t u. rewrite !lookup_insert_Some. intros [[_ [=]]|[_ Ht]] [[_ [=]]|[_ Hu]]. by apply M6.
    + rewrite M7. split; intros [t Ht]; exists t.
      * rewrite lookup_insert_ne; [done|]. intros <-. congruence.
      * apply lookup_insert_Some in Ht as [[_ [=]]|[_ Ht]]. done.
    + intros t p. rewrite lookup_insert_Some. intros [[<- _]|[_ Ht]]; (apply H2; [|by left]); [done|by eapply M8].
Qed.

Lemma retry_ok s xs ls zs ws ps :
  minv s xs ls zs ws -> mallowed s (MRetry ps) ->
  exists r, mstep s (MRetry ps) = Val r /\ match r with None => True | Some s' => exists xs' ls' zs' ws', minv s' xs' ls' zs' ws' end.
Proof.
  intros M (Hc & [node Hph] & Hp). destruct (current_live _ _ _ _ _ M Hc) as [Hcx Hcl]. pose proof M as [M1 M2 M3 [M4 M4'] M5 M6 M7 M8 M9].
  set (c := current_task (sys s)) in *. cbn [mstep]. fold c. rewrite Hph. unfold lock_retry.
  destruct (negb (locker (mutex s) =? 0) || negb (waiters (mutex s) =? node)) eqn:Eb; cbn [obind].
  - unfold yield_wait. destruct (round_ok (sys s) xs ls zs (EYield true ps)) as (r & -> & Hr); [done..|]. cbn [obind].
    destruct r as [x'|]; [|by exists None]. eexists. split; [done|]. destruct Hr as (xs' & ls' & zs' & S' & R' & _ & H1 & H2).
    exists xs', ls', zs', ws. eapply minv_sys; try done.
    + intros t p _ Ht. apply H2; [done|by left].
    + intros H0 n t ws' -> Ht. apply H1; [done|]. intros ->. rewrite H0 in Eb. cbn [Z.eqb negb orb] in Eb.
      apply negb_true_iff, Z.eqb_neq in Eb. destruct M3 as (E3 & _). assert (phases s !! c = Some (Waiting n)) by (apply M5; left). congruence.
  - apply orb_false_iff in Eb as [E0 E1]. apply negb_false_iff, Z.eqb_eq in E0, E1. apply M5 in Hph as Hin.
    destruct ws as [|[n t] ws]; [by apply elem_of_nil in Hin|]. destruct M3 as (E3 & Hn & q & Eq & Hs). assert (n = node) as -> by congruence.
    cbn [fmap list_fmap fst] in M4. apply NoDup_cons in M4 as [Hni Hnd].
    assert (t = c) as ->.
    { apply elem_of_cons in Hin as [[= ->]|Hin]; [done|]. destruct Hni. apply list_elem_of_fmap. by exists (node, c). }
    rewrite Eq. cbn [of_option obind mnext]. eexists. split; [done|]. exists xs, ls, zs, ws. eapply mutex_take_ok; try done.
    + eapply stack_frame; [|exact Hs]. intros k Hk. rewrite lookup_delete_ne; [done|]. by intros ->.
    + intros k. rewrite lookup_delete_is_Some. intros [Hk Hin']. apply M4' in Hin'. by apply elem_of_cons in Hin' as [|].
    + intros t n. rewrite elem_of_cons. split; [|intros [[[= -> ->]|] ?]; done]. intros Hw. split; [by right|]. intros ->.
      assert (phases s !! c = Some (Waiting n)) as Hpn by (apply M5; by right). assert (n = node) as -> by congruence.
      apply Hni, list_elem_of_fmap. by exists (node, c).
    + intros n Hin'. by apply M5.
Qed.

Lemma unlock_ok s xs ls zs ws :
  minv s xs ls zs ws -> mallowed s MUnlock -> exists s' xs', mstep s MUnlock = Val (Some s') /\ minv s' xs' ls zs ws.
Proof.
  intros M Hph. cbn [mallowed] in Hph. pose proof M as [M1 M2 M3 M4 M5 M6 M7 M8 M9]. set (c := current_task (sys s)) in *.
  assert (forall x' xs', sched_ok x' xs' ls zs -> running x' xs' -> xs ⊆ xs' ->
    (forall n t ws', ws = (n, t) :: ws' -> t ∈ xs') ->
    minv (mkSys x' (mkMutex 0 (waiters (mutex s))) (mnodes s) (delete c (phases s))) xs' ls zs ws) as Hend.
  { intros x' xs' S' R' I Hw. constructor; cbn [sys mutex mnodes phases waiters locker]; try done.
    - intros t n. rewrite <- M5, lookup_delete_Some. split; [tauto|]. intros Ht. split; [|done]. intros <-. congruence.
    - intros t u. rewrite !lookup_delete_Some. intros [_ Ht] [_ Hu]. by apply M6.
    - split; [done|]. intros [t [Hne Ht]%lookup_delete_Some]. destruct Hne. by apply M6.
    - intros t p [_ Ht]%lookup_delete_Some. by eapply M8.
    - intros _. destruct ws as [|[n t] ws]; [done|]. by eapply Hw. }
  cbn [mstep]. unfold hev_task_mutex_unlock. cbn [waiters]. destruct ws as [|[n t] ws].
  - rewrite M3, Z.eqb_refl. cbn [negb obind]. eexists _, xs. split; [done|]. cbn [stack] in M3. rewrite M3 in Hend. by apply Hend.
  - pose proof M3 as (E3 & Hn & q & Eq & _). rewrite E3, (proj2 (Z.eqb_neq _ _) Hn), Eq. cbn [negb of_option obind mtask].
    assert (waking (sys s) t) as Hw. { apply (s_live _ _ _ _ M1), (M8 t (Waiting n)), M5. left. }
    destruct (wake_ok _ _ _ _ _ M1 Hw) as (x' & xs' & -> & S' & W & I & Ht). cbn [obind]. eexists _, xs'. split; [done|].
    rewrite E3 in Hend. apply Hend; [done| |done|by intros k u ws' [= -> -> ->]].
    unfold running. rewrite (w_current _ _ W). destruct M2 as [|M2]; [by left|right; by apply I].
Qed.

Lemma mcall_ok s xs ls zs ws ev :
  minv s xs ls zs ws -> mallowed s (MCall ev) ->
  exists r, mstep s (MCall ev) = Val r /\ match r with None => True | Some s' => exists xs' ls' zs', minv s' xs' ls' zs' ws end.
Proof.
  intros M [Ha Hph]. pose proof M as [M1 M2 M3 M4 M5 M6 M7 M8 M9]. set (c := current_task (sys s)) in *. cbn [mstep].
  assert (forall n t ws', ws = (n, t) :: ws' -> t <> c) as Htop.
  { intros n t ws' -> ->. assert (phases s !! c = Some (Waiting n)) as E by (apply M5; left). by rewrite E in Hph. }
  destruct (is_schedule ev) eqn:Hs.
  - destruct (round_ok (sys s) xs ls zs ev M1 M2 Ha Hs) as (r & -> & Hr). cbn [obind]. destruct r as [x'|]; [|by exists None].
    eexists. split; [done|]. destruct Hr as (xs' & ls' & zs' & S' & R' & _ & H1 & H2). exists xs', ls', zs'. eapply minv_sys; try done.
    + intros t p Hp Ht. apply H2; [done|]. destruct (decide (t = c)) as [->|]; [|by right]. left. rewrite Hp in Hph.
      destruct p; [done|]. by destruct ev.
    + intros _ n t ws' E Ht. apply H1; [done|]. by eapply Htop.
  - destruct (call_ok (sys s) xs ls zs ev M1 M2 Ha Hs) as (x' & -> & xs' & ls' & zs' & S' & I & J & Ec). cbn [obind].
    eexists. split; [done|]. exists xs', ls', zs'. eapply minv_sys; try done.
    + unfold running. rewrite Ec. destruct M2 as [|M2]; [by left|right; by apply I].
    + intros t p _ Ht. by apply J.
    + intros _ n t ws' _ Ht. by apply I.
Qed.

Lemma mstep_ok s e : (exists xs ls zs ws, minv s xs ls zs ws) -> mallowed s e ->
  exists r, mstep s e = Val r /\ match r with None => True | Some s' => exists xs ls zs ws, minv s' xs ls zs ws end.
Proof.
  intros (xs & ls & zs & ws & M) Ha. destruct e as [node ps|ps| | |ev].
  - by eapply lock_ok.
  - by eapply retry_ok.
  - destruct Ha as [Hc Hph]. destruct (current_live _ _ _ _ _ M Hc) as [_ Hcl]. cbn [mstep]. unfold hev_task_mutex_trylock.
    destruct (Z.eqb_spec (locker (mutex s)) 0) as [H0|H0]; cbn [negb Z.eqb]; eexists; (split; [done|]); exists xs, ls, zs, ws.
    + pose proof M as [_ _ M3 [M4 M4'] M5 _ _ _ _]. eapply mutex_take_ok; try done.
      * intros t n. split; [|tauto]. intros Hin. split; [done|]. intros ->. apply M5 in Hin. congruence.
      * intros n Hin. by apply M5.
    + by destruct M.
  - destruct (unlock_ok _ _ _ _ _ M Ha) as (s' & xs' & -> & M'). exists (Some s'). split; [done|]. by exists xs', ls, zs, ws.
  - destruct (mcall_ok _ _ _ _ _ _ M Ha) as (r & -> & Hr). exists r. split; [done|]. destruct r as [s'|]; [|done].
    destruct Hr as (xs' & ls' & zs' & M'). by exists xs', ls', zs', ws.
Qed.

Lemma mreachable_inv s : mreachable s -> exists xs ls zs ws, minv s xs ls zs ws.
Proof.
  induction 1 as [x Hx|s e s' _ IH Ha E].
  - destruct (minv_init x (reachable_inv x Hx)) as (xs & ls & zs & M). by exists xs, ls, zs, [].
  - destruct (mstep_ok s e IH Ha) as (r & E' & M). rewrite E in E'. by injection E' as <-.
Qed.

(** C5: the mutex is safe and loses no wake-up: in every state that any number of tasks
    can reach, at most one task holds it, it is marked locked exactly while one does, and
    whenever it is free while tasks wait, the first waiter is already running, hence
    scheduled within the bound of the scheduler.  No use of it that keeps the rules
    faults. *)
Theorem mutex_no_lost_wakeup s : mreachable s ->
  (forall t u, phases s !! t = Some Holding -> phases s !! u = Some Holding -> t = u) /\
  (locker (mutex s) <> 0 <-> exists t, phases s !! t = Some Holding) /\
  (locker (mutex s) = 0 -> waiters (mutex s) <> NULL ->
     exists n, mnodes s !! waiters (mutex s) = Some n /\ phases s !! mtask n = Some (Waiting (waiters (mutex s))) /\
       has (sys s) (eq HEV_TASK_RUNNING) (mtask n)) /\
  forall e, mallowed s e -> exists r, mstep s e = Val r.
Proof.
  intros M%mreachable_inv. pose proof M as (xs & ls & zs & ws & [M1 M2 M3 M4 M5 M6 M7 M8 M9]). split_and!; [done..| |].
  - intros H0 Hw. specialize (M9 H0). destruct ws as [|[n t] ws]; [done|]. destruct M3 as (-> & _ & q & Eq & _).
    eexists. split; [exact Eq|]. split; [apply M5; left|by apply (s_running _ _ _ _ M1)].
  - intros e Ha. destruct (mstep_ok s e M Ha) as (r & E & _). by exists r.
Qed.

(** ** Locking twice

    The mutex is not recursive.  The network stack calls the handlers of the tunnel with
    the mutex held; one that fails to get a task for a session drops the session, whose
    destructor locks the mutex again. *)

Inductive continues (s : msys) : msys -> Prop :=
| cont_refl : continues s s
| cont_step s1 e s2 : continues s s1 -> mallowed s1 e -> mstep s1 e = Val (Some s2) -> continues s s2.

(** Locked, with nobody to unlock it. *)
Definition stuck (s : msys) : Prop := locker (mutex s) <> 0 /\ forall t, phases s !! t <> Some Holding.

Lemma yield_wait_val x ps f r : yield_wait x ps f = Val r -> r = None \/ exists y, r = Some (f y).
Proof. unfold yield_wait. destruct (step x _) as [[y|]|]; cbn [obind]; intros [= <-]; [right; by exists y|by left]. Qed.

Lemma stuck_waits s node x m ns : stuck s -> locker m <> 0 -> stuck (mkSys x m ns (<[current_task (sys s) := Waiting node]> (phases s))).
Proof.
  intros [_ Hh] Hl. split; [done|]. intros t. cbn [phases]. destruct (decide (t = current_task (sys s))) as [->|Ht].
  - by rewrite lookup_insert_eq.
  - rewrite lookup_insert_ne by done. apply Hh.
Qed.

Lemma stuck_step s e s' : stuck s -> mallowed s e -> mstep s e = Val (Some s') -> stuck s'.
Proof.
  intros K. pose proof K as [Hl Hh]. pose proof (proj2 (Z.eqb_neq _ _) Hl) as Hb. destruct e as [node ps|ps| | |ev]; cbn [mstep mallowed].
  - intros _. unfold lock_enter. rewrite Hb. cbn [negb]. intros [|(y & [= ->])]%yield_wait_val; [done|]. by apply stuck_waits.
  - intros (_ & (n & ->) & _). unfold lock_retry. rewrite Hb. cbn [negb orb obind]. intros [|(y & [= ->])]%yield_wait_val; done.
  - intros _. unfold hev_task_mutex_trylock. rewrite Hb. cbn [negb]. by intros [= <-].
  - intros H. by apply Hh in H.
  - intros _. destruct (step (sys s) ev) as [[y|]|]; cbn [obind]; intros [= <-]. done.
Qed.

(** A task that locks the mutex it holds never gets it, and neither does any other
    task: the call returns control to the scheduler without a fault, and in every later
    state the mutex is locked while no task holds it. *)
Theorem mutex_relock_deadlock s node ps :
  mreachable s -> current_task (sys s) <> NULL -> phases s !! current_task (sys s) = Some Holding -> Forall (poll_ok (sys s)) ps ->
  exists r, mstep s (MLock node ps) = Val r /\
    forall s1 s2, r = Some s1 -> continues s1 s2 ->
      locker (mutex s2) <> 0 /\ forall t, phases s2 !! t <> Some Holding.
Proof.
  intros (xs & ls & zs & ws & M)%mreachable_inv Hc Hh Hp. set (c := current_task (sys s)) in *.
  assert (locker (mutex s) <> 0) as Hl by (apply (m_locker _ _ _ _ _ M); by exists c).
  cbn [mstep]. unfold lock_enter. rewrite (proj2 (Z.eqb_neq _ _) Hl). cbn [negb].
  destruct (step_ok (sys s) (EYield true ps)) as (r & E & _); [by exists xs, ls, zs; split; [apply M|apply M]|done|].
  unfold yield_wait. rewrite E. cbn [obind]. destruct r as [y|]; eexists; (split; [done|]); [|done].
  intros s1 s2 [= <-] Hk. change (stuck s2). induction Hk as [|s2 e s3 _ IH Ha E2]; [|by eapply stuck_step].
  split; [done|]. intros t. cbn [phases]. fold c. destruct (decide (t = c)) as [->|Ht]; [by rewrite lookup_insert_eq|].
  rewrite lookup_insert_ne by done. intros Ht'. by apply Ht, (m_holder _ _ _ _ _ M).
Qed.

(** ** Witnesses *)

#[export] Instance phase_eq_dec : EqDecision phase.
Proof. solve_decision. Defined.
#[export] Instance HevTaskMutexNode_eq_dec : EqDecision HevTaskMutexNode.
Proof. solve_decision. Defined.

#[export] Instance mallowed_dec s e : Decision (mallowed s e).
Proof.
  destruct e; cbn [mallowed]; unfold poll_ok; try apply _.
  - apply and_dec; [apply _|]. apply and_dec; [|apply _].
    destruct (phases s !! current_task (sys s)) as [[n|]|]; [left; by exists n|right; by intros [? [=]]..].
  - destruct (phases s !! current_task (sys s)) as [[n|]|]; [apply _|destruct ev; apply _|apply _].
Defined.

Fixpoint mexec (s : msys) (l : list mevent) : option msys :=
  match l with
  | [] => Some s
  | e :: l =>
      if bool_decide (mallowed s e) then
        match mstep s e with Val (Some s) => mexec s l | _ => None end
      else None
  end.

Lemma mexec_reachable l : forall s s', mreachable s -> mexec s l = Some s' -> mreachable s'.
Proof.
  induction l as [|e l IH]; intros s s' Hr; cbn [mexec]; [by intros [= <-]|]. case_bool_decide as Ha; [|done].
  destruct (mstep s e) as [[z|]|] eqn:E; [|done..]. apply IH. by eapply mreach_step.
Qed.

(** The task 64 locks and waits, the task 128 queues up, and 64 unlocks. *)
Definition example_mutex : msys :=
  let t := mkTime 0 0 in
  default (mkSys initial hev_task_mutex_init ∅ ∅)
    (mexec (mkSys initial hev_task_mutex_init ∅ ∅)
      ((MCall <$> example_events) ++
       [MLock 1000 []; MCall (EYield true [mkPoll [] t]); MLock 2000 [mkPoll [64] t]; MUnlock])).

Lemma mutex_no_lost_wakeup_witness :
  waiters (mutex example_mutex) <> NULL /\
  (forall t u, phases example_mutex !! t = Some Holding -> phases example_mutex !! u = Some Holding -> t = u) /\
  (locker (mutex example_mutex) <> 0 <-> exists t, phases example_mutex !! t = Some Holding) /\
  (locker (mutex example_mutex) = 0 -> waiters (mutex example_mutex) <> NULL ->
     exists n, mnodes example_mutex !! waiters (mutex example_mutex) = Some n /\
       phases example_mutex !! mtask n = Some (Waiting (waiters (mutex example_mutex))) /\
       has (sys example_mutex) (eq HEV_TASK_RUNNING) (mtask n)) /\
  forall e, mallowed example_mutex e -> exists r, mstep example_mutex e = Val r.
Proof.
  split; [vm_compute; discriminate|]. apply (mutex_no_lost_wakeup example_mutex).
  assert (mreachable (mkSys initial hev_task_mutex_init ∅ ∅)) as H0 by (apply mreach_init, reach_init).
  unfold example_mutex. destruct (mexec _ _) as [s|] eqn:E; [|exact H0]. exact (mexec_reachable _ _ _ H0 E).
Defined.

(** The task 64 locks twice; 128 can go on. *)
Definition example_holder : msys :=
  default (mkSys initial hev_task_mutex_init ∅ ∅)
    (mexec (mkSys initial hev_task_mutex_init ∅ ∅) ((MCall <$> example_events) ++ [MLock 1000 []])).

Lemma mutex_relock_deadlock_witness :
  match mstep example_holder (MLock 1000 [mkPoll [] (mkTime 0 0)]) with Val (Some _) => true | _ => false end = true /\
  exists r, mstep example_holder (MLock 1000 [mkPoll [] (mkTime 0 0)]) = Val r /\
    forall s1 s2, r = Some s1 -> continues s1 s2 ->
      locker (mutex s2) <> 0 /\ forall t, phases s2 !! t <> Some Holding.
Proof.
  split; [vm_compute; reflexivity|]. apply (mutex_relock_deadlock example_holder 1000 [mkPoll [] (mkTime 0 0)]).
  - assert (mreachable (mkSys initial hev_task_mutex_init ∅ ∅)) as H0 by (apply mreach_init, reach_init).
    unfold example_holder. destruct (mexec _ _) as [s|] eqn:E; [|exact H0]. exact (mexec_reachable _ _ _ H0 E).
  - vm_compute. discriminate.
  - vm_compute. reflexivity.
  - repeat constructor.
Defined.

End TaskMutex.
