(* ===== verification/Tunnel.v ===== *)
(** * The sessions of the tunnel

    Model of the part of src/hev-socks5-tunnel.c that owns the sessions: the handlers of
    the network stack that open them, the list in the order of their last activity, its
    limit, and their end.  A session is at the address of its [HevSocks5SessionData],
    whose first field is the list node; its task is one of the verified task system. *)

From Stdlib Require Import ZArith Lia Sorted.
From stdpp Require Import base list gmap numbers.
From S2P Require Import Prelude HevList RBTree RBTreeRep RBTreeCached TaskSystem TaskSystemInv TaskSystemRun.
Import list_basics.list list_relations.list list_monad.list list_misc.list.
Import RBTreeCached TaskSystem TaskSystemInv TaskSystemRun.

Module Tunnel.

(** ** Data *)

Record HevSocks5SessionData := mkData { sd_task : Z; sd_timeout : Z }.

Record tunnel := mkTun {
  run : bool; session_set : HevList.HevList; session_nodes : gmap Z HevList.HevListNode;
  sessions : gmap Z HevSocks5SessionData; session_count : Z; task_lwip_timer : Z; sys : HevTaskSystemContext }.

Definition set_sys (x : HevTaskSystemContext) (t : tunnel) : tunnel :=
  mkTun (run t) (session_set t) (session_nodes t) (sessions t) (session_count t) (task_lwip_timer t) x.
Definition set_sessions (m : gmap Z HevSocks5SessionData) (t : tunnel) : tunnel :=
  mkTun (run t) (session_set t) (session_nodes t) m (session_count t) (task_lwip_timer t) (sys t).
Definition set_list (l : HevList.HevList) (n : gmap Z HevList.HevListNode) (k : Z) (t : tunnel) : tunnel :=
  mkTun (run t) l n (sessions t) k (task_lwip_timer t) (sys t).
Definition set_run (b : bool) (t : tunnel) : tunnel :=
  mkTun b (session_set t) (session_nodes t) (sessions t) (session_count t) (task_lwip_timer t) (sys t).

Definition ERR_OK : Z := 0.
Definition ERR_MEM : Z := -1.
Definition ERR_RST : Z := -14.

(** ** Operations *)

Definition hev_task_wakeup (t : tunnel) (task : Z) : outcome tunnel :=
  let! x := hev_task_system_wakeup_task_with_context (sys t) task in Val (set_sys x t).

(** [hev_socks5_session_terminate] (src/hev-socks5-session.c) *)
Definition hev_socks5_session_terminate (t : tunnel) (node : Z) : outcome tunnel :=
  let! sd := of_option (sessions t !! node) in
  hev_task_wakeup (set_sessions (<[node := mkData (sd_task sd) 0]> (sessions t)) t) (sd_task sd).

Section limits.
(** [hev_config_get_misc_max_session_count ()] *)
Context (max_session_count : Z).

Definition hev_socks5_tunnel_insert_session (t : tunnel) (node : Z) : outcome tunnel :=
  let! (l, n) := HevList.hev_list_add_tail (session_set t) (session_nodes t) node in
  let t := set_list l n (i32 (session_count t + 1)) t in
  if (max_session_count =? 0) || (session_count t <? max_session_count) then Val t
  else hev_socks5_session_terminate t (HevList.hev_list_first (session_set t)).

Definition hev_socks5_tunnel_delete_session (t : tunnel) (node : Z) : outcome tunnel :=
  let! (l, n) := HevList.hev_list_del (session_set t) (session_nodes t) node in
  Val (set_list l n (i32 (session_count t - 1)) t).

Definition hev_socks5_tunnel_update_session (t : tunnel) (node : Z) : outcome tunnel :=
  if max_session_count =? 0 then Val t
  else
    let! (l, n) := HevList.hev_list_del (session_set t) (session_nodes t) node in
    let! (l, n) := HevList.hev_list_add_tail l n node in
    Val (set_list l n (session_count t) t).

(** Memory of a new session, and its release by [hev_object_unref]; the list node is
    part of it. *)
Definition new_session (t : tunnel) (node : Z) (timeout : Z) : tunnel :=
  mkTun (run t) (session_set t) (<[node := HevList.mkLNode 0 0]> (session_nodes t))
    (<[node := mkData NULL timeout]> (sessions t)) (session_count t) (task_lwip_timer t) (sys t).
Definition free_session (t : tunnel) (node : Z) : tunnel :=
  mkTun (run t) (session_set t) (delete node (session_nodes t)) (delete node (sessions t)) (session_count t)
    (task_lwip_timer t) (sys t).

(** How a handler ends: it returns, or goes on with [hev_object_unref] of the session,
    whose destructor locks the mutex. *)
Inductive handler_end := Return (err : Z) | Unref (node : Z).

(** What both handlers do with a new session; [mem] and [stack] are the answers of the
    allocators for its task. *)
Definition start_session (t : tunnel) (node timeout mem : Z) (stack : bool) : outcome (handler_end * tunnel) :=
  let! (task, x) := hev_task_new (sys t) mem stack in
  let t := set_sys x t in
  if task =? NULL then Val (Unref node, t)
  else
    let t := set_sessions (<[node := mkData task timeout]> (sessions t)) t in
    let! t := hev_socks5_tunnel_insert_session t node in
    let! x := hev_task_run (sys t) task in
    let! t := hev_task_wakeup (set_sys x t) (task_lwip_timer t) in
    Val (Return ERR_OK, t).

(** [node] is the result of [hev_socks5_session_tcp_new]. *)
Definition tcp_accept_handler (t : tunnel) (err node timeout mem : Z) (stack : bool) : outcome (handler_end * tunnel) :=
  if negb (err =? ERR_OK) then Val (Return err, t)
  else if negb (run t) then Val (Return ERR_RST, t)
  else if node =? NULL then Val (Return ERR_MEM, t)
  else start_session (new_session t node timeout) node timeout mem stack.

(** [dns] tells that the datagram is for the mapped DNS server, whose handler takes the
    control block over; [node] is the result of [hev_socks5_session_udp_new]. *)
Definition udp_recv_handler (t : tunnel) (dns : bool) (node timeout mem : Z) (stack : bool) : outcome (handler_end * tunnel) :=
  if negb (run t) then Val (Return ERR_OK, t)
  else if dns then Val (Return ERR_OK, t)
  else if node =? NULL then Val (Return ERR_OK, t)
  else start_session (new_session t node timeout) node timeout mem stack.

(** The loop of [event_task_entry] that ends all sessions. *)
Fixpoint terminate_all (fuel : nat) (t : tunnel) (node : Z) : outcome tunnel :=
  if node =? NULL then Val t
  else
    match fuel with
    | O => Fault
    | S fuel =>
        let! t := hev_socks5_session_terminate t node in
        let! node := HevList.hev_list_node_next (session_nodes t) node in
        terminate_all fuel t node
    end.

Definition stop_all (t : tunnel) : outcome tunnel :=
  let t := set_run false t in
  terminate_all (S (size (sessions t))) t (HevList.hev_list_first (session_set t)).

(** ** Runs

    What happens to the sessions, in the task that is current: a handler runs in the input
    task, a session reports activity, leaves the list and is freed in its own task, and
    the event task stops them all. *)

Inductive tevent :=
| TAccept (err node timeout mem : Z) (stack : bool)
| TDatagram (dns : bool) (node timeout mem : Z) (stack : bool)
| TActive (node : Z)
| TLeave (node : Z)
| TFree (node : Z)
| TStop
| TCall (ev : event).

Definition tstep (t : tunnel) (e : tevent) : outcome (option tunnel) :=
  match e with
  | TAccept err node timeout mem stack =>
      let! (_, t) := tcp_accept_handler t err node timeout mem stack in Val (Some t)
  | TDatagram dns node timeout mem stack =>
      let! (_, t) := udp_recv_handler t dns node timeout mem stack in Val (Some t)
  | TActive node => just (hev_socks5_tunnel_update_session t node)
  | TLeave node => just (hev_socks5_tunnel_delete_session t node)
  | TFree node => Val (Some (free_session t node))
  | TStop => just (stop_all t)
  | TCall ev =>
      let! r := step (sys t) ev in
      match r with None => Val None | Some x => Val (Some (set_sys x t)) end
  end.

(** The specification: the open sessions, the one that was active last at the end. *)
Definition opens (t : tunnel) (e : tevent) : option Z :=
  match e with
  | TAccept err node _ mem stack =>
      if (err =? ERR_OK) && run t && negb (node =? NULL) && negb (mem =? NULL) && stack then Some node else None
  | TDatagram dns node _ mem stack =>
      if run t && negb dns && negb (node =? NULL) && negb (mem =? NULL) && stack then Some node else None
  | _ => None
  end.

Definition spec (t : tunnel) (L : list Z) (e : tevent) : list Z :=
  match e with
  | TAccept _ _ _ _ _ | TDatagram _ _ _ _ _ => match opens t e with Some node => L ++ [node] | None => L end
  | TActive node => if max_session_count =? 0 then L else filter (fun n => n <> node) L ++ [node]
  | TLeave node => filter (fun n => n <> node) L
  | TFree _ | TStop | TCall _ => L
  end.

(** Allocators answer with fresh memory; a session is active and leaves while it is open;
    its task exits after it left, and that of the timer once the tunnel stops. *)
Definition fresh (t : tunnel) (node mem : Z) : Prop :=
  (node = NULL \/ sessions t !! node = None) /\ (mem = NULL \/ tasks (sys t) !! mem = None /\ RBTreeRep.aligned mem) /\
  session_count t + 1 < 2 ^ 31 /\ total_task_count (sys t) + 1 < 2 ^ 31.

Definition tallowed (t : tunnel) (L : list Z) (e : tevent) : Prop :=
  match e with
  | TAccept _ node _ mem _ | TDatagram _ node _ mem _ => fresh t node mem
  | TActive node | TLeave node => node ∈ L
  | TFree node => node ∉ L
  | TStop => True
  | TCall ev =>
      allowed (sys t) ev /\
      match ev with
      | EExit _ => Forall (fun node => forall sd, sessions t !! node = Some sd -> sd_task sd <> current_task (sys t)) L /\
          (run t = true -> task_lwip_timer t <> current_task (sys t))
      | _ => True
      end
  end.

Inductive treachable : tunnel -> list Z -> Prop :=
| treach_init x tm : reachable x -> waking x tm ->
    treachable (mkTun true (HevList.mkList NULL NULL) ∅ ∅ 0 tm x) []
| treach_step t L e t' : treachable t L -> tallowed t L e -> tstep t e = Val (Some t') -> treachable t' (spec t L e).

(** ** The invariant *)

(** [L] is the list; the tasks of the sessions [K] were started. *)
Record tinv (t : tunnel) (L K xs ls zs : list Z) : Prop := {
  v_sched : sched_ok (sys t) xs ls zs;
  v_running : running (sys t) xs;
  v_list : HevList.dlist (session_nodes t) (session_set t) L;
  v_count : session_count t = zlen L;
  v_small : zlen L < 2 ^ 31;
  v_task : forall node, node ∈ K -> exists sd, sessions t !! node = Some sd /\ sd_task sd ∈ ls;
  v_timer : run t = true -> task_lwip_timer t ∈ ls;
}.

(** The list in memory is [L] and the counter its length. *)
Definition listed (t : tunnel) (L : list Z) : Prop :=
  HevList.dlist (session_nodes t) (session_set t) L /\ session_count t = zlen L.

(** The session was told to end: its timeout is zero and its task runs. *)
Definition ended (t : tunnel) (node : Z) : Prop :=
  exists sd, sessions t !! node = Some sd /\ sd_timeout sd = 0 /\ has (sys t) (eq HEV_TASK_RUNNING) (sd_task sd).

(** Whom an event ends: over the limit the session that was active least recently, and at
    the stop every session. *)
Definition ends (t : tunnel) (L : list Z) (e : tevent) (t' : tunnel) : Prop :=
  match e with
  | TAccept _ _ _ _ _ | TDatagram _ _ _ _ _ =>
      is_Some (opens t e) -> max_session_count <> 0 -> max_session_count <= zlen L + 1 ->
      match L with [] => True | node :: _ => ended t' node end
  | TStop => run t' = false /\ Forall (ended t') L
  | _ => True
  end.

(** ** Ending sessions *)

Lemma live_waking x xs ls zs a : sched_ok x xs ls zs -> a ∈ ls -> waking x a.
Proof. intros S. apply (s_live _ _ _ _ S). Qed.

Lemma terminate_ok t L K xs ls zs node :
  tinv t L K xs ls zs -> node ∈ K ->
  exists t' xs', hev_socks5_session_terminate t node = Val t' /\ tinv t' L K xs' ls zs /\ ended t' node /\
    woken (sys t) (sys t') /\ session_nodes t' = session_nodes t /\ session_set t' = session_set t /\
    task_lwip_timer t' = task_lwip_timer t /\ run t' = run t /\ dom (sessions t') = dom (sessions t) /\
    (forall m, m <> node -> sessions t' !! m = sessions t !! m) /\ (forall m, ended t m -> ended t' m).
Proof.
  intros [S R D C B T M] Hn. destruct (T _ Hn) as (sd & Es & Hl). unfold hev_socks5_session_terminate. rewrite Es. cbn [of_option obind].
  unfold hev_task_wakeup. cbn [sys set_sessions].
  destruct (wake_ok _ _ _ _ _ S (live_waking _ _ _ _ _ S Hl)) as (x' & xs' & -> & S' & W & I & Hx). cbn [obind].
  assert (forall a, has (sys t) (eq HEV_TASK_RUNNING) a -> has x' (eq HEV_TASK_RUNNING) a) as Hrun.
  { intros a Ha%(s_running _ _ _ _ S). by apply (s_running _ _ _ _ S'), I. }
  eexists _, xs'. split; [done|]. split_and!; try done.
  - constructor; cbn [set_sys sys set_sessions session_nodes session_set session_count sessions run task_lwip_timer]; try done.
    + unfold running. rewrite (w_current _ _ W). destruct R as [R|R]; [by left|right; by apply I].
    + intros m Hm. destruct (decide (m = node)) as [->|Hne]; [rewrite lookup_insert_eq; by eexists|]. rewrite lookup_insert_ne by done. by apply T.
  - eexists. cbn [set_sys set_sessions sessions sys]. rewrite lookup_insert_eq. split_and!; [done..|]. by apply (s_running _ _ _ _ S').
  - cbn [set_sys set_sessions sessions]. by rewrite dom_insert_lookup_L.
  - intros m Hm. cbn [set_sys set_sessions sessions]. by rewrite lookup_insert_ne.
  - intros m (u & Eu & E0 & Hu). unfold ended. cbn [set_sys set_sessions sessions sys]. destruct (decide (m = node)) as [->|Hne].
    + rewrite lookup_insert_eq. eexists. split_and!; [done..|]. apply Hrun. cbn [sd_task]. congruence.
    + rewrite lookup_insert_ne by done. exists u. split_and!; [done..|]. by apply Hrun.
Qed.

Lemma terminate_all_ok L2 : forall L1 t xs ls zs fuel p,
  tinv t (L1 ++ L2) (L1 ++ L2) xs ls zs -> (exists pp, HevList.dseg (session_nodes t) pp p L2 (HevList.tail (session_set t)) NULL) ->
  (length L2 <= fuel)%nat -> Forall (ended t) L1 ->
  exists t' xs', terminate_all fuel t p = Val t' /\ tinv t' (L1 ++ L2) (L1 ++ L2) xs' ls zs /\ Forall (ended t') (L1 ++ L2) /\ run t' = run t.
Proof.
  induction L2 as [|n L2 IH]; intros L1 t xs ls zs fuel p V [pp Hd] Hf He.
  - destruct Hd as [-> _]. exists t, xs. rewrite app_nil_r in *. split_and!; try done. by destruct fuel.
  - destruct fuel as [|fuel]; [cbn in Hf; lia|]. destruct Hd as (-> & Hn & r & En & Hd). cbn [terminate_all].
    rewrite (proj2 (Z.eqb_neq n NULL) Hn).
    destruct (terminate_ok t _ _ xs ls zs n V) as (t1 & xs1 & -> & V1 & Hn1 & _ & N1 & L1' & _ & R1 & _ & _ & E1); [set_solver|]. cbn [obind].
    rewrite N1. unfold HevList.hev_list_node_next, HevList.load. rewrite En. cbn [of_option obind HevList.next].
    destruct (IH (L1 ++ [n]) t1 xs1 ls zs fuel r) as (t2 & xs2 & -> & V2 & He2 & R2).
    + by rewrite <- app_assoc.
    + exists n. by rewrite N1, L1'.
    + cbn in Hf. lia.
    + apply Forall_app. split; [|by constructor]. eapply Forall_impl; [exact He|]. exact E1.
    + rewrite <- app_assoc in *. exists t2, xs2. split_and!; try done. congruence.
Qed.

Lemma stop_all_ok t L xs ls zs : tinv t L L xs ls zs ->
  exists t' xs', stop_all t = Val t' /\ tinv t' L L xs' ls zs /\ Forall (ended t') L /\ run t' = false.
Proof.
  intros V. unfold stop_all. pose proof (v_list _ _ _ _ _ _ V) as [ND Hd].
  assert (length L <= size (sessions t))%nat as Hs.
  { rewrite <- size_dom, <- (size_list_to_set (C := gset Z) L ND). apply subseteq_size. intros n Hn%elem_of_list_to_set.
    destruct (v_task _ _ _ _ _ _ V _ Hn) as (sd & Es & _). by apply elem_of_dom_2 in Es. }
  eapply (terminate_all_ok L []); [|by exists NULL|cbn [sessions set_run]; lia|constructor].
  destruct V as [S R D C B T M]. by constructor.
Qed.

(** ** Opening a session *)

Lemma dlist_frame h h' l L : (forall n, n ∈ L -> h' !! n = h !! n) -> HevList.dlist h l L -> HevList.dlist h' l L.
Proof. intros Hf [ND Hd]. split; [done|]. by eapply HevList.dseg_frame. Qed.

(** A session whose task does not run yet joins the list; over the limit the first one is
    ended. *)
Lemma insert_session_ok t L xs ls zs node o :
  max_session_count = 0 \/ 2 <= max_session_count ->
  tinv t L L xs ls zs -> node ∉ L -> node <> NULL -> session_nodes t !! node = Some o -> session_count t + 1 < 2 ^ 31 ->
  exists t' xs', hev_socks5_tunnel_insert_session t node = Val t' /\ tinv t' (L ++ [node]) L xs' ls zs /\
    woken (sys t) (sys t') /\ task_lwip_timer t' = task_lwip_timer t /\ run t' = run t /\
    sessions t' !! node = sessions t !! node /\
    (max_session_count <> 0 -> max_session_count <= zlen L + 1 -> match L with [] => True | n :: _ => ended t' n end).
Proof.
  intros Hm [S R D C B T M] Hn H0 Eo Hc. unfold hev_socks5_tunnel_insert_session.
  destruct (HevList.add_tail_ok _ _ _ _ _ D Hn H0 Eo) as (l & h & -> & D' & _). cbn [obind session_count set_list].
  assert (i32 (session_count t + 1) = zlen (L ++ [node])) as Ec.
  { unfold zlen in *. rewrite length_app. cbn [length]. rewrite i32_id; [lia|]. unfold is_i32, INT_MIN, INT_MAX. lia. }
  rewrite Ec. assert (zlen (L ++ [node]) = zlen L + 1) as El by (unfold zlen; rewrite length_app; cbn [length]; lia).
  assert (tinv (set_list l h (zlen (L ++ [node])) t) (L ++ [node]) L xs ls zs) as V by (constructor; try done; lia).
  destruct ((max_session_count =? 0) || _) eqn:Em.
  { exists (set_list l h (zlen (L ++ [node])) t), xs. split_and!; try done; [apply woken_refl|]. intros H1 H2.
    apply orb_true_iff in Em as [Em%Z.eqb_eq|Em%Z.ltb_lt]; lia. }
  apply orb_false_iff in Em as [Em%Z.eqb_neq Em'%Z.ltb_ge]. destruct L as [|n L].
  { unfold zlen in *. cbn [length app] in *. lia. }
  destruct D' as [ND Hd]. cbn [HevList.seq_add_tail app] in Hd. destruct Hd as (Hh & _).
  cbn [session_set set_list]. unfold HevList.hev_list_first. rewrite Hh.
  destruct (terminate_ok _ _ _ _ _ _ n V) as (t' & xs' & E & V' & He & W & _ & _ & Et & Er & _ & Es & _); [left|].
  exists t', xs'. split_and!; try done. rewrite Es; [done|]. clear -Hn. set_solver.
Qed.

Lemma stopped_stays x x' a u : woken x x' -> tasks x !! a = Some u -> state u = HEV_TASK_STOPPED -> tasks x' !! a = Some u.
Proof. intros W Eu Es. destruct (w_tasks _ _ W _ _ Eu) as (u' & E' & [->|(Hw & _)]); [done|congruence]. Qed.

(** The task of the last session is started, then that of the timer is woken up. *)
Lemma launch_ok t L xs ls zs node sd u :
  tinv t (L ++ [node]) L xs ls zs -> run t = true -> sessions t !! node = Some sd -> tasks (sys t) !! sd_task sd = Some u ->
  state u = HEV_TASK_STOPPED -> zlen ls + 1 < 2 ^ 31 ->
  exists x y xs', hev_task_run (sys t) (sd_task sd) = Val x /\ hev_task_wakeup (set_sys x t) (task_lwip_timer t) = Val (set_sys y t) /\
    tinv (set_sys y t) (L ++ [node]) (L ++ [node]) xs' (sd_task sd :: ls) zs /\ (forall m, ended t m -> ended (set_sys y t) m).
Proof.
  intros [S R D C B T M] Hr Es Eu Hst Hl.
  destruct (task_run_ok _ _ _ _ _ _ S Eu Hst Hl) as (x & us & vs & u' & -> & S3 & Ex & _ & C3 & _).
  assert (task_lwip_timer t ∈ sd_task sd :: ls) as Htm by (right; by apply M).
  destruct (wake_ok _ _ _ _ _ S3 (live_waking _ _ _ _ _ S3 Htm)) as (y & xs' & E4 & S4 & W4 & I4 & _).
  assert (forall a, a ∈ xs -> a ∈ xs') as I.
  { intros a Ha. apply I4. rewrite <- Permutation_middle. right. by rewrite <- Ex. }
  exists x, y, xs'. split_and!; [done|unfold hev_task_wakeup; cbn [sys set_sys]; by rewrite E4| |].
  - constructor; try done; cbn [set_sys sys sessions].
    + unfold running. rewrite (w_current _ _ W4), C3. destruct R as [R|R]; [by left|right; by apply I].
    + intros n [Hn|Hn]%elem_of_app; [|apply list_elem_of_singleton in Hn as ->; exists sd; split; [done|left]].
      destruct (T _ Hn) as (v & Ev & Hv). exists v. split; [done|by right].
  - intros m (v & Ev & H0 & Hv%(s_running _ _ _ _ S)). exists v. split_and!; [done..|]. by apply (s_running _ _ _ _ S4), I.
Qed.

Lemma start_session_ok t L xs ls zs node timeout mem stack :
  (mem <> NULL -> stack = true -> max_session_count = 0 \/ 2 <= max_session_count) ->
  tinv t L L xs ls zs -> run t = true -> node <> NULL -> fresh t node mem ->
  exists r t' xs' ls', start_session (new_session t node timeout) node timeout mem stack = Val (r, t') /\
    let started := negb (mem =? NULL) && stack in
    let L' := if started then L ++ [node] else L in
    tinv t' L' L' xs' ls' zs /\ r = (if started then Return ERR_OK else Unref node) /\
    (started = true -> max_session_count <> 0 -> max_session_count <= zlen L + 1 -> match L with [] => True | n :: _ => ended t' n end).
Proof.
  intros Hm [S R D C B T M] Hr H0 ([|Hf] & Hmem & Hc & Ht); [done|].
  assert (node ∉ L) as HnL by (intros Hn; destruct (T _ Hn) as (sd & Es & _); congruence).
  assert (tinv (new_session t node timeout) L L xs ls zs) as V.
  { constructor; try done; cbn [new_session session_nodes session_set sessions].
    - eapply dlist_frame; [|exact D]. intros n Hn. rewrite lookup_insert_ne; [done|]. by intros ->.
    - intros n Hn. rewrite lookup_insert_ne by (by intros ->). by apply T. }
  unfold start_session. destruct (Z.eqb_spec mem NULL) as [->|Hmn].
  { exists (Unref node), (new_session t node timeout), xs, ls. split; [done|]. cbn [negb andb]. by split_and!. }
  unfold hev_task_new at 1. rewrite (proj2 (Z.eqb_neq mem NULL) Hmn). destruct stack; cbn [negb andb].
  2: { eexists _, _, xs, ls. split; [done|]. cbn. by split_and!. }
  destruct Hmem as [|[Hmf Hal]]; [done|].
  destruct (new_ok (sys t) xs ls zs mem S Hmf Hmn Hal) as (x1 & E1 & S1 & T1 & C1 & _).
  unfold hev_task_new in E1. rewrite (proj2 (Z.eqb_neq mem NULL) Hmn) in E1. cbn [negb] in E1. cbn [sys new_session]. rewrite E1. cbn [obind].
  rewrite (proj2 (Z.eqb_neq mem NULL) Hmn).
  set (t1 := set_sessions _ _).
  assert (tinv t1 L L xs ls zs) as V1.
  { destruct V as [_ _ V3 V4 V5 V6 V7]. constructor; try done; cbn [t1 set_sessions set_sys sys sessions].
    - unfold running. by rewrite C1.
    - intros n Hn. rewrite lookup_insert_ne by (by intros ->). by apply V6. }
  destruct (insert_session_ok t1 L xs ls zs node (HevList.mkLNode 0 0) (Hm Hmn eq_refl) V1 HnL H0) as (t2 & xs2 & -> & V2 & W2 & Et2 & Er2 & Es2 & He2);
    [apply lookup_insert_eq|done|]. cbn [obind].
  assert (sessions t2 !! node = Some (mkData mem timeout)) as Esd by (rewrite Es2; apply lookup_insert_eq).
  destruct (launch_ok t2 L xs2 ls zs node (mkData mem timeout) (mkTask 0 NULL 1 0 HEV_TASK_PRIORITY_DEFAULT HEV_TASK_STOPPED) V2)
    as (x3 & x4 & xs4 & E3 & E4 & V4 & He4); [by rewrite Er2|done| |done| |].
  { eapply stopped_stays; [exact W2| |done]. cbn [t1 sys set_sessions set_sys sd_task]. rewrite T1. apply lookup_insert_eq. }
  { rewrite <- (s_total _ _ _ _ S). lia. }
  cbn [sd_task] in *. rewrite E3. cbn [obind]. rewrite E4. cbn [obind].
  eexists _, _, xs4, (mem :: ls). split; [done|]. split_and!; try done.
  intros _ H1 H2. specialize (He2 H1 H2). destruct L as [|n L]; [done|]. by apply He4.
Qed.

(** ** Every event *)

Lemma update_ok t L xs ls zs node : tinv t L L xs ls zs -> node ∈ L ->
  exists t', hev_socks5_tunnel_update_session t node = Val t' /\
    let L' := if max_session_count =? 0 then L else filter (fun n => n <> node) L ++ [node] in tinv t' L' L' xs ls zs.
Proof.
  intros V Hn. unfold hev_socks5_tunnel_update_session. destruct (_ =? 0); [by exists t|]. destruct V as [S R D C B T M].
  destruct (HevList.del_ok _ _ _ _ D Hn) as (l1 & h1 & -> & D1 & E1 & _). cbn [obind].
  assert (exists o, session_nodes t !! node = Some o) as [o Eo].
  { destruct D as [_ D]. apply list_elem_of_split in Hn as (L1 & L2 & ->). apply HevList.dseg_app in D as (j & jn & _ & D).
    destruct D as (-> & _ & r & Er & _). by eexists. }
  destruct (HevList.add_tail_ok h1 l1 (HevList.seq_del L node) node o D1) as (l2 & h2 & -> & D2 & _).
  - intros [H _]%list_elem_of_filter. done.
  - destruct D as [_ D]. by eapply HevList.dseg_nonnull.
  - by rewrite E1.
  - cbn [obind]. eexists. split; [done|].
    assert (filter (fun n => n <> node) L ++ [node] ≡ₚ L) as Hp.
    { destruct D as [ND _]. apply list_elem_of_split in Hn as (L1 & L2 & ->). 
      pose proof (HevList.seq_del_middle L1 node L2 ND) as E. unfold HevList.seq_del in E. rewrite E.
      rewrite <- app_assoc, (Permutation_app_comm L2 [node]). done. }
    constructor; try done; cbn [set_list session_count session_nodes session_set]; unfold zlen in *; rewrite ?Hp; try done.
    intros n Hn'. rewrite Hp in Hn'. by apply T.
Qed.

Lemma delete_ok t L xs ls zs node : tinv t L L xs ls zs -> node ∈ L ->
  exists t', hev_socks5_tunnel_delete_session t node = Val t' /\
    let L' := filter (fun n => n <> node) L in tinv t' L' L' xs ls zs.
Proof.
  intros [S R D C B T M] Hn. unfold hev_socks5_tunnel_delete_session.
  destruct (HevList.del_ok _ _ _ _ D Hn) as (l1 & h1 & -> & D1 & E1 & _). cbn [obind]. eexists. split; [done|].
  assert (zlen (filter (fun n => n <> node) L) = zlen L - 1) as El.
  { destruct D as [ND _]. apply list_elem_of_split in Hn as (L1 & L2 & ->).
    pose proof (HevList.seq_del_middle L1 node L2 ND) as E. unfold HevList.seq_del in E. rewrite E. unfold zlen. rewrite !length_app. cbn [length]. lia. }
  constructor; try done; cbn [set_list session_count]; rewrite ?El; try lia.
  - rewrite C. apply i32_id. unfold is_i32, INT_MIN, INT_MAX, zlen in *. lia.
  - intros n [_ Hn']%list_elem_of_filter. by apply T.
Qed.

(** A handler refuses, or starts a session. *)
Definition refuses (t : tunnel) (e : tevent) : Prop := tstep t e = Val (Some t) /\ opens t e = None.
Definition starts (t : tunnel) (e : tevent) (node timeout mem : Z) (stack : bool) : Prop :=
  run t = true /\ node <> NULL /\ opens t e = (if negb (mem =? NULL) && stack then Some node else None) /\
  tstep t e = (let! (_, t) := start_session (new_session t node timeout) node timeout mem stack in Val (Some t)).

Lemma accept_cases t err node timeout mem stack : let e := TAccept err node timeout mem stack in refuses t e \/ starts t e node timeout mem stack.
Proof.
  unfold refuses, starts. cbn [tstep opens]. unfold tcp_accept_handler. destruct (err =? ERR_OK); cbn [negb andb]; [|by left].
  destruct (run t); cbn [negb andb]; [|by left]. destruct (Z.eqb_spec node NULL); cbn [negb andb]; [by left|by right].
Qed.

Lemma datagram_cases t dns node timeout mem stack : let e := TDatagram dns node timeout mem stack in refuses t e \/ starts t e node timeout mem stack.
Proof.
  unfold refuses, starts. cbn [tstep opens]. unfold udp_recv_handler. destruct (run t); cbn [negb andb]; [|by left].
  destruct dns; cbn [negb andb]; [by left|]. destruct (Z.eqb_spec node NULL); cbn [negb andb]; [by left|by right].
Qed.

Definition opens_event (e : tevent) : Prop := match e with TAccept _ _ _ _ _ | TDatagram _ _ _ _ _ => True | _ => False end.

Lemma handler_ok t L xs ls zs e node timeout mem stack :
  (is_Some (opens t e) -> max_session_count = 0 \/ 2 <= max_session_count) -> tinv t L L xs ls zs -> fresh t node mem -> opens_event e ->
  refuses t e \/ starts t e node timeout mem stack ->
  exists t' xs' ls', tstep t e = Val (Some t') /\ tinv t' (spec t L e) (spec t L e) xs' ls' zs /\ ends t L e t'.
Proof.
  intros Hm V Hf He Hc. assert (spec t L e = match opens t e with Some node => L ++ [node] | None => L end) as Es by (by destruct e).
  assert (forall t', (is_Some (opens t e) -> max_session_count <> 0 -> max_session_count <= zlen L + 1 ->
    match L with [] => True | n :: _ => ended t' n end) -> ends t L e t') as Hends by (by destruct e).
  rewrite Es. destruct Hc as [[E Ho]|(Hr & H0 & Ho & E)].
  - exists t, xs, ls. rewrite E. rewrite Ho in *. split_and!; try done. apply Hends. by intros [].
  - destruct (start_session_ok t L xs ls zs node timeout mem stack) as (r & t' & xs' & ls' & E' & V' & _ & En); try done.
    { intros Hmn ->. apply Hm. rewrite Ho, (proj2 (Z.eqb_neq mem NULL) Hmn). by eexists. }
    rewrite E, E'. cbn [obind]. exists t', xs', ls'. rewrite Ho in *.
    destruct (negb (mem =? NULL) && stack); split_and!; try done; apply Hends; [intros _; by apply En|by intros []].
Qed.

Lemma running_call x xs x' xs' : running x xs -> xs ⊆ xs' -> current_task x' = current_task x -> running x' xs'.
Proof. intros R I Ec. unfold running. rewrite Ec. destruct R as [R|R]; [by left|right; by apply I]. Qed.

Lemma set_sys_ok t L xs ls zs x xs' ls' zs' :
  tinv t L L xs ls zs -> sched_ok x xs' ls' zs' -> running x xs' ->
  (forall node sd, node ∈ L -> sessions t !! node = Some sd -> sd_task sd ∈ ls -> sd_task sd ∈ ls') ->
  (run t = true -> task_lwip_timer t ∈ ls -> task_lwip_timer t ∈ ls') -> tinv (set_sys x t) L L xs' ls' zs'.
Proof.
  intros [S R D C B T M] S' R' Ht Hm. constructor; try done; cbn [set_sys sessions run task_lwip_timer].
  - intros n Hn. destruct (T _ Hn) as (sd & Es & Hs). exists sd. split; [done|]. by eapply Ht.
  - intros Hr. by apply Hm, M.
Qed.

Lemma call_event_ok t L xs ls zs ev : tinv t L L xs ls zs -> tallowed t L (TCall ev) ->
  exists r, tstep t (TCall ev) = Val r /\ match r with None => is_schedule ev = true | Some t' => exists xs' ls' zs', tinv t' L L xs' ls' zs' end.
Proof.
  intros V [Ha He]. pose proof (v_sched _ _ _ _ _ _ V) as S. pose proof (v_running _ _ _ _ _ _ V) as R. cbn [tstep].
  destruct (is_schedule ev) eqn:Hs.
  - destruct (round_ok _ _ _ _ _ S R Ha Hs) as (r & -> & Hr). cbn [obind]. destruct r as [x|]; [|by exists None].
    eexists. split; [done|]. destruct Hr as (xs' & ls' & zs' & S' & R' & _ & _ & Hl). exists xs', ls', zs'.
    eapply set_sys_ok; [exact V|done|done|intros n sd Hn Es Hi; apply Hl|intros Hr Hi; apply Hl]; try done.
    + destruct ev; try (by left). right. destruct He as [He _]. rewrite Forall_forall in He. by eapply He.
    + destruct ev; try (by left). right. by apply He.
  - destruct (call_ok _ _ _ _ _ S R Ha Hs) as (x & -> & xs' & ls' & zs' & S' & I & J & Ec). cbn [obind].
    eexists. split; [done|]. exists xs', ls', zs'. eapply set_sys_ok; [exact V|done|by eapply running_call| |].
    + intros. by apply J.
    + intros. by apply J.
Qed.

Lemma tstep_ok t L xs ls zs e :
  (is_Some (opens t e) -> max_session_count = 0 \/ 2 <= max_session_count) -> tinv t L L xs ls zs -> tallowed t L e ->
  exists r, tstep t e = Val r /\
    match r with
    | None => exists ev, e = TCall ev /\ is_schedule ev = true
    | Some t' => (exists xs' ls' zs', tinv t' (spec t L e) (spec t L e) xs' ls' zs') /\ ends t L e t'
    end.
Proof.
  intros Hm V Ha. destruct e as [err n o m k|dns n o m k|n|n|n| |ev]; cbn [tallowed] in Ha.
  - destruct (handler_ok t L xs ls zs (TAccept err n o m k) n o m k Hm V Ha I (accept_cases t err n o m k)) as (t' & xs' & ls' & E & V' & He).
    exists (Some t'). split; [done|]. split; [by exists xs', ls', zs|done].
  - destruct (handler_ok t L xs ls zs (TDatagram dns n o m k) n o m k Hm V Ha I (datagram_cases t dns n o m k)) as (t' & xs' & ls' & E & V' & He).
    exists (Some t'). split; [done|]. split; [by exists xs', ls', zs|done].
  - destruct (update_ok t L xs ls zs n V Ha) as (t' & E & V'). exists (Some t'). cbn [tstep]. rewrite E. split; [done|]. split; [eauto|done].
  - destruct (delete_ok t L xs ls zs n V Ha) as (t' & E & V'). exists (Some t'). cbn [tstep]. rewrite E. split; [done|]. split; [eauto|done].
  - exists (Some (free_session t n)). split; [done|]. split; [|done]. exists xs, ls, zs. destruct V as [S R D C B T M].
    constructor; try done; cbn [free_session session_nodes sessions].
    + eapply dlist_frame; [|exact D]. intros y Hy. rewrite lookup_delete_ne; [done|]. by intros ->.
    + intros y Hy. rewrite lookup_delete_ne; [by apply T|]. by intros ->.
  - destruct (stop_all_ok t L xs ls zs V) as (t' & xs' & E & V' & He & Hr). exists (Some t'). cbn [tstep]. rewrite E. split; [done|].
    split; [by exists xs', ls, zs|done].
  - destruct (call_event_ok t L xs ls zs ev V Ha) as (r & E & Hr). exists r. split; [done|]. destruct r; [done|]. by exists ev.
Qed.

Lemma tinv_init x tm : reachable x -> waking x tm ->
  exists xs ls zs, tinv (mkTun true (HevList.mkList NULL NULL) ∅ ∅ 0 tm x) [] [] xs ls zs.
Proof.
  intros (xs & ls & zs & S & R)%reachable_inv Hw. exists xs, ls, zs. constructor; try done.
  - split; [constructor|done].
  - by intros n Hn%elem_of_nil.
  - intros _. by apply (s_live _ _ _ _ S).
Qed.

Lemma treachable_inv t L : max_session_count = 0 \/ 2 <= max_session_count -> treachable t L -> exists xs ls zs, tinv t L L xs ls zs.
Proof.
  intros Hm. induction 1 as [x tm Hr Hw|t L e t' Hr (xs & ls & zs & V) Ha E].
  - by apply tinv_init.
  - destruct (tstep_ok t L xs ls zs e (fun _ => Hm) V Ha) as (r & E' & Hs). rewrite E in E'. injection E' as <-. by destruct Hs.
Qed.


(** ** A limit of one *)

(** The first session is at its own limit: it is woken up before it is started. *)
Lemma first_session_aborts t xs ls zs e node timeout mem stack :
  max_session_count <> 0 -> max_session_count <= 1 -> tinv t [] [] xs ls zs -> fresh t node mem -> is_Some (opens t e) ->
  starts t e node timeout mem stack -> tstep t e = Fault.
Proof.
  intros Hm0 Hm1 [S R D C B T M] (_ & Hmem & _) Ho (_ & H0 & Eo & ->). rewrite Eo in Ho.
  destruct (Z.eqb_spec mem NULL) as [|Hmn]; [by destruct Ho|]. destruct stack; [|by destruct Ho]. destruct Hmem as [|[Hmf Hal]]; [done|].
  unfold start_session. destruct (new_ok (sys t) xs ls zs mem S Hmf Hmn Hal) as (x1 & E1 & _ & T1 & _).
  cbn [sys new_session]. rewrite E1. cbn [obind]. rewrite (proj2 (Z.eqb_neq mem NULL) Hmn).
  unfold hev_socks5_tunnel_insert_session. cbn [new_session set_sys set_sessions session_set session_nodes].
  assert (HevList.dlist (<[node := HevList.mkLNode 0 0]> (session_nodes t)) (session_set t) []) as D1 by done.
  destruct (HevList.add_tail_ok _ _ _ node (HevList.mkLNode 0 0) D1) as (l & h & -> & [_ Hd] & _); [by apply not_elem_of_nil|done|apply lookup_insert_eq|].
  cbn [obind session_count set_list set_sys set_sessions new_session]. rewrite C.
  replace ((max_session_count =? 0) || _) with false.
  2: { symmetry. apply orb_false_iff. split; [by apply Z.eqb_neq|]. apply Z.ltb_ge. by rewrite i32_id. }
  cbn [session_set set_list]. destruct Hd as (Hh & _). unfold HevList.hev_list_first. rewrite Hh. unfold hev_socks5_session_terminate.
  cbn [sessions set_list set_sessions]. rewrite lookup_insert_eq. cbn [of_option obind sd_task]. unfold hev_task_wakeup.
  cbn [sys set_list set_sessions set_sys]. unfold hev_task_system_wakeup_task_with_context, get_task. rewrite T1, lookup_insert_eq. done.
Qed.

Lemma opens_fault t xs ls zs e :
  max_session_count <> 0 -> max_session_count <= 1 -> tinv t [] [] xs ls zs -> tallowed t [] e -> is_Some (opens t e) -> tstep t e = Fault.
Proof.
  intros Hm0 Hm1 V Ha Ho.
  destruct e as [err n o m k|dns n o m k|n|n|n| |ev]; try (by destruct Ho).
  - destruct (accept_cases t err n o m k) as [[_ E]|Hs]; [rewrite E in Ho; by destruct Ho|]. by eapply first_session_aborts.
  - destruct (datagram_cases t dns n o m k) as [[_ E]|Hs]; [rewrite E in Ho; by destruct Ho|]. by eapply first_session_aborts.
Qed.

Lemma no_session t L : max_session_count <> 0 -> max_session_count <= 1 -> treachable t L -> L = [] /\ exists xs ls zs, tinv t L L xs ls zs.
Proof.
  intros Hm0 Hm1. induction 1 as [x tm Hr Hw|t L e t' Hr (-> & xs & ls & zs & V) Ha E].
  - split; [done|]. by apply tinv_init.
  - assert (opens t e = None) as Ho.
    { destruct (opens t e) eqn:Ho; [|done]. rewrite (opens_fault t xs ls zs e Hm0 Hm1 V Ha) in E; [done|]. rewrite Ho. by eexists. }
    destruct (tstep_ok t [] xs ls zs e) as (r & E' & Hs); [rewrite Ho; by intros []|done|done|].
    rewrite E in E'. injection E' as <-. destruct Hs as [V' _]. split; [|done].
    destruct e as [| |n|n| | |]; cbn [spec tallowed] in *; rewrite ?Ho; try done; by apply elem_of_nil in Ha.
Qed.

(** with a limit of one session (or a negative one) the tunnel cannot open any: in
    every state that events can lead to, a connection or a datagram that would open a
    session aborts the process, because the session is chosen as the one to end before
    its task is started. *)
Theorem single_session_aborts t L e :
  max_session_count <> 0 -> max_session_count <= 1 -> treachable t L -> tallowed t L e -> is_Some (opens t e) ->
  L = [] /\ tstep t e = Fault.
Proof.
  intros Hm0 Hm1 Hr Ha Ho. destruct (no_session t L Hm0 Hm1 Hr) as (-> & xs & ls & zs & V). split; [done|]. by eapply opens_fault.
Qed.

End limits.

(** ** Deciding the rules *)

#[export] Instance session_all_dec t node (Q : HevSocks5SessionData -> Prop) : (forall sd, Decision (Q sd)) ->
  Decision (forall sd, sessions t !! node = Some sd -> Q sd).
Proof.
  intros HQ. destruct (sessions t !! node) as [sd|]; [|by left].
  destruct (HQ sd) as [H|H]; [left; by intros u [= <-]|right]. intros Hu. by apply H, Hu.
Defined.

#[export] Instance HevSocks5SessionData_eq_dec : EqDecision HevSocks5SessionData.
Proof. solve_decision. Defined.

#[export] Instance tallowed_dec t L e : Decision (tallowed t L e).
Proof. destruct e as [| | | | | |[]]; cbn [tallowed]; unfold fresh; apply _. Defined.

(** Running a list of events while they are allowed. *)
Fixpoint texec (max : Z) (t : tunnel) (L : list Z) (l : list tevent) : option (tunnel * list Z) :=
  match l with
  | [] => Some (t, L)
  | e :: l =>
      if bool_decide (tallowed t L e) then
        match tstep max t e with Val (Some t') => texec max t' (spec max t L e) l | _ => None end
      else None
  end.

Lemma texec_reachable max l : forall t L t' L', treachable max t L -> texec max t L l = Some (t', L') -> treachable max t' L'.
Proof.
  induction l as [|e l IH]; intros t L t' L' Hr; cbn [texec]; [by intros [= <- <-]|].
  destruct (bool_decide (tallowed t L e)) eqn:Ha; [|done]. apply bool_decide_eq_true in Ha.
  destruct (tstep max t e) as [[t1|]|] eqn:E; try done. apply IH. by econstructor.
Qed.

(** ** Witnesses: the timer and the input task, then two connections *)

Definition example_tasks : list event := [ENew 64 true; ENew 128 true; ERun 64; ERun 128; EStart [mkPoll [] (mkTime 0 0)]].
Definition example_sys : HevTaskSystemContext := from_option id initial (exec initial example_tasks).
Definition example_tunnel : tunnel := mkTun true (HevList.mkList NULL NULL) ∅ ∅ 0 64 example_sys.

Lemma example_reachable max : treachable max example_tunnel [].
Proof.
  assert (match exec initial example_tasks with Some _ => true | None => false end = true) as K by (vm_compute; reflexivity).
  apply treach_init; [|apply (bool_decide_unpack _); vm_compute; reflexivity].
  unfold example_sys. destruct (exec initial example_tasks) as [y|] eqn:E; [|discriminate K].
  exact (exec_reachable _ _ _ reach_init E).
Qed.

Definition example_second : tunnel * list Z :=
  from_option id (example_tunnel, []) (texec 2 example_tunnel [] [TAccept 0 1024 60000 192 true]).

Lemma example_second_reachable : treachable 2 (fst example_second) (snd example_second).
Proof.
  assert (match texec 2 example_tunnel [] [TAccept 0 1024 60000 192 true] with Some _ => true | None => false end = true) as K by (vm_compute; reflexivity).
  unfold example_second. destruct (texec 2 example_tunnel [] _) as [[t L]|] eqn:E; [|discriminate K].
  exact (texec_reachable 2 _ _ _ _ _ (example_reachable 2) E).
Qed.


Lemma single_session_aborts_witness :
  ([] : list Z) = [] /\ tstep 1 example_tunnel (TAccept 0 1024 60000 192 true) = Fault.
Proof.
  apply (single_session_aborts 1 example_tunnel [] (TAccept 0 1024 60000 192 true)).
  - lia.
  - lia.
  - apply example_reachable.
  - apply (bool_decide_unpack _). vm_compute. reflexivity.
  - vm_compute. by eexists.
Defined.

End Tunnel.
