(* ===== verification/InetChksum.v ===== *)
(** * The Internet checksum (third-part/lwip/src/core/inet_chksum.c)

    Every packet that the stack sends to the device carries checksums computed here.  The
    three routines that add up 16-bit words run on an arbitrarily aligned buffer of a
    little-endian machine; the checksums of chains of packet buffers call one of them on
    every buffer and correct the byte order behind a buffer of odd length.  They are shown
    equal to the one's complement sum of RFC 1071, and a packet that carries its checksum
    sums up to zero. *)

From Stdlib Require Import ZArith Lia.
From stdpp Require Import base list gmap numbers.
From S2P Require Import Prelude CBytes Pbuf PbufRep.
Import list_basics.list list_relations.list list_monad.list list_misc.list.
Import Pbuf PbufRep.

Module InetChksum.

(** ** Adding up words *)

(** [(((w) & 0xff) << 8) | (((w) & 0xff00) >> 8)] *)
Definition SWAP_BYTES_IN_WORD (w : Z) : Z := Z.lor (Z.shiftl (Z.land w 0xff) 8) (Z.shiftr (Z.land w 0xff00) 8).
Definition FOLD_U32T (u : Z) : Z := u32 (Z.shiftr u 16 + Z.land u 0xffff).

(** Version 1: big-endian words; [if] for the second carry. *)
Fixpoint chksum1_loop (acc : Z) (l : bytes) : Z :=
  match l with
  | x :: y :: l => chksum1_loop (u32 (acc + Z.lor (Z.shiftl x 8) y)) l
  | [x] => u32 (acc + Z.shiftl x 8)
  | [] => acc
  end.

Definition lwip_standard_chksum1 (l : bytes) : Z :=
  let acc := chksum1_loop 0 l in
  let acc := u32 (Z.shiftr acc 16 + Z.land acc 0xffff) in
  let acc := if negb (Z.land acc 0xffff0000 =? 0) then u32 (Z.shiftr acc 16 + Z.land acc 0xffff) else acc in
  swap16 (u16 acc).

(** [while (len > 1) { sum += *ps++; len -= 2; }]: the sum and what is left. *)
Fixpoint add_words (sum : Z) (l : bytes) : Z * bytes :=
  match l with
  | x :: y :: l => add_words (u32 (sum + (x + 256 * y))) l
  | _ => (sum, l)
  end.

(** The byte before the first word: [t], and what is left. *)
Definition odd_head (odd : bool) (l : bytes) : Z * bytes :=
  match l with
  | x :: l' => if odd then (256 * x, l') else (0, l)
  | [] => (0, [])
  end.

(** The dangling byte goes into the low byte of [t]. *)
Definition tail_byte (t : Z) (l : bytes) : Z :=
  match l with
  | x :: _ => Z.lor (Z.land t 0xff00) x
  | [] => t
  end.

(** The fold and the swap at the end of versions 2 and 3. *)
Definition finish (odd : bool) (sum : Z) : Z :=
  let sum := FOLD_U32T sum in
  let sum := FOLD_U32T sum in
  let sum := if odd then SWAP_BYTES_IN_WORD sum else sum in
  u16 sum.

(** Version 2, the one that is compiled: [pb] is the address of the buffer. *)
Definition lwip_standard_chksum (pb : Z) (l : bytes) : Z :=
  let odd := negb (Z.land pb 1 =? 0) in
  let '(t, l) := odd_head odd l in
  let '(sum, l) := add_words 0 l in
  let t := tail_byte t l in
  finish odd (u32 (sum + t)).

(** Version 3: two 32-bit words at a time, with the carry added back. *)
Definition add_carry (sum w : Z) : Z :=
  let tmp := u32 (sum + w) in if tmp <? sum then u32 (tmp + 1) else tmp.

Fixpoint add_longs (sum : Z) (l : bytes) : Z * bytes :=
  match l with
  | a :: b :: c :: d :: e :: f :: g :: h :: l =>
      add_longs (add_carry (add_carry sum (a + 256 * b + 2 ^ 16 * c + 2 ^ 24 * d)) (e + 256 * f + 2 ^ 16 * g + 2 ^ 24 * h)) l
  | _ => (sum, l)
  end.

Definition lwip_standard_chksum3 (pb : Z) (l : bytes) : Z :=
  let odd := negb (Z.land pb 1 =? 0) in
  let ps := if odd && negb (zlen l =? 0) then pb + 1 else pb in
  let '(t, l) := odd_head odd l in
  let '(sum, l) :=
    match l with
    | x :: y :: l' => if negb (Z.land ps 3 =? 0) then (x + 256 * y, l') else (0, l)
    | _ => (0, l)
    end in
  let '(sum, l) := add_longs sum l in
  let sum := FOLD_U32T sum in
  let '(sum, l) := add_words sum l in
  let t := tail_byte t l in
  finish odd (u32 (sum + t)).

(** ** Checksums of buffers and chains *)

Definition inet_chksum (dataptr : Z) (l : bytes) : Z := u16 (Z.lnot (lwip_standard_chksum dataptr l)).

Section chains.
(** Where the memory of a packet buffer lies. *)
Context (base : Z -> Z).

(** The loop over the buffers; the sum and [swapped]. *)
Fixpoint chain_loop (fuel : nat) (q acc : Z) (swapped : bool) : PM (Z * bool) :=
  if q =? NULL then sret (acc, swapped)
  else
    match fuel with
    | O => sfault
    | S fuel =>
        do! n := load q in
        do! d := slift (read_payload n 0 (len n)) in
        let acc := u32 (acc + lwip_standard_chksum (base q + payload n) d) in
        let acc := FOLD_U32T acc in
        if negb (len n mod 2 =? 0) then chain_loop fuel (next n) (SWAP_BYTES_IN_WORD acc) (negb swapped)
        else chain_loop fuel (next n) acc swapped
    end.

(** What follows the loop in the pseudo checksums. *)
Definition pseudo_end (acc : Z) (swapped : bool) (proto proto_len : Z) : Z :=
  let acc := if swapped then SWAP_BYTES_IN_WORD acc else acc in
  let acc := u32 (acc + swap16 proto) in
  let acc := u32 (acc + swap16 proto_len) in
  let acc := FOLD_U32T acc in
  let acc := FOLD_U32T acc in
  u16 (Z.lnot (Z.land acc 0xffff)).

Definition inet_cksum_pseudo_base (fuel : nat) (p proto proto_len acc : Z) : PM Z :=
  do! (acc, swapped) := chain_loop fuel p acc false in
  sret (pseudo_end acc swapped proto proto_len).

(** [acc + (addr & 0xffff) + ((addr >> 16) & 0xffff)] *)
Definition add_addr (acc addr : Z) : Z :=
  let acc := u32 (acc + Z.land addr 0xffff) in
  u32 (acc + Z.land (Z.shiftr addr 16) 0xffff).

Definition inet_chksum_pseudo (fuel : nat) (p proto proto_len src dest : Z) : PM Z :=
  let acc := add_addr (add_addr 0 src) dest in
  let acc := FOLD_U32T acc in
  let acc := FOLD_U32T acc in
  inet_cksum_pseudo_base fuel p proto proto_len acc.

(** Addresses of four words. *)
Fixpoint add_addrs (acc : Z) (src dest : list Z) : Z :=
  match src, dest with
  | s :: src, d :: dest => add_addrs (add_addr (add_addr acc s) d) src dest
  | _, _ => acc
  end.

Definition ip6_chksum_pseudo (fuel : nat) (p proto proto_len : Z) (src dest : list Z) : PM Z :=
  let acc := add_addrs 0 src dest in
  let acc := FOLD_U32T acc in
  let acc := FOLD_U32T acc in
  inet_cksum_pseudo_base fuel p proto proto_len acc.

(** The same over the first [chksum_len] bytes. *)
Fixpoint partial_loop (fuel : nat) (q acc chksum_len : Z) (swapped : bool) : PM (Z * bool) :=
  if (q =? NULL) || negb (chksum_len >? 0) then sret (acc, swapped)
  else
    match fuel with
    | O => sfault
    | S fuel =>
        do! n := load q in
        let chklen := if len n >? chksum_len then chksum_len else len n in
        do! d := slift (read_payload n 0 chklen) in
        let acc := u32 (acc + lwip_standard_chksum (base q + payload n) d) in
        let chksum_len := u16 (chksum_len - chklen) in
        LWIP_ASSERT (chksum_len <? 0x7fff) ;;;
        let acc := FOLD_U32T acc in
        if negb (len n mod 2 =? 0) then partial_loop fuel (next n) (SWAP_BYTES_IN_WORD acc) chksum_len (negb swapped)
        else partial_loop fuel (next n) acc chksum_len swapped
    end.

Definition inet_cksum_pseudo_partial_base (fuel : nat) (p proto proto_len chksum_len acc : Z) : PM Z :=
  do! (acc, swapped) := partial_loop fuel p acc chksum_len false in
  sret (pseudo_end acc swapped proto proto_len).

Definition inet_chksum_pseudo_partial (fuel : nat) (p proto proto_len chksum_len src dest : Z) : PM Z :=
  let acc := add_addr (add_addr 0 src) dest in
  let acc := FOLD_U32T acc in
  let acc := FOLD_U32T acc in
  inet_cksum_pseudo_partial_base fuel p proto proto_len chksum_len acc.

Definition ip6_chksum_pseudo_partial (fuel : nat) (p proto proto_len chksum_len : Z) (src dest : list Z) : PM Z :=
  let acc := add_addrs 0 src dest in
  let acc := FOLD_U32T acc in
  let acc := FOLD_U32T acc in
  inet_cksum_pseudo_partial_base fuel p proto proto_len chksum_len acc.

Definition inet_chksum_pbuf (fuel : nat) (p : Z) : PM Z :=
  do! (acc, swapped) := chain_loop fuel p 0 false in
  let acc := if swapped then SWAP_BYTES_IN_WORD acc else acc in
  sret (u16 (Z.lnot (Z.land acc 0xffff))).

End chains.

(** [lwip_chksum_copy]: copy, then sum the copy at [dst]. *)
Definition lwip_chksum_copy (mem : bytes) (dst_base dst : Z) (src : bytes) : outcome (Z * bytes) :=
  let! mem := put_n mem dst src in
  let! d := get_n mem dst (zlen src) in
  Val (lwip_standard_chksum (dst_base + dst) d, mem).

(** ** RFC 1071 *)

(** The sum of the 16-bit words, a dangling byte padded with zero. *)
Fixpoint word_sum (l : bytes) : Z :=
  match l with
  | x :: y :: l => x + 256 * y + word_sum l
  | [x] => x
  | [] => 0
  end.

(** End-around carry: zero only for zero. *)
Definition ones_complement (n : Z) : Z := if n =? 0 then 0 else (n - 1) mod 65535 + 1.

Definition rfc1071 (l : bytes) : Z := 65535 - ones_complement (word_sum l).

Definition le32 (v : Z) : bytes := [u8 v; u8 (Z.shiftr v 8); u8 (Z.shiftr v 16); u8 (Z.shiftr v 24)].

(** What precedes the data of an IPv4 or IPv6 packet in its checksum; addresses and
    lengths are in network order. *)
Definition pseudo_header (addrs : list Z) (proto proto_len : Z) : bytes :=
  (addrs ≫= le32) ++ [0; proto; u8 (Z.shiftr proto_len 8); u8 proto_len].
(** ** Equality of one's complement sums

    [ceq]: the same sum of words, up to carries. *)

Definition ceq (a b : Z) : Prop := 0 <= a /\ 0 <= b /\ (65535 | a - b) /\ (a = 0 <-> b = 0).

Lemma ceq_refl a : 0 <= a -> ceq a a.
Proof. intros. split_and!; try done. exists 0. lia. Qed.

Lemma ceq_sym a b : ceq a b -> ceq b a.
Proof. intros (? & ? & [k E] & ?). split; [done|split; [done|split; [|tauto]]]. exists (- k). lia. Qed.

Lemma ceq_trans a b c : ceq a b -> ceq b c -> ceq a c.
Proof. intros (? & ? & [k E] & ?) (? & ? & [j F] & ?). split; [done|split; [done|split; [|tauto]]]. exists (k + j). lia. Qed.

Lemma ceq_add a b c d : ceq a b -> ceq c d -> ceq (a + c) (b + d).
Proof. intros (? & ? & [k E] & ?) (? & ? & [j F] & ?). split_and!; try lia. exists (k + j). lia. Qed.

Lemma ceq_mul k a b : 0 < k -> ceq a b -> ceq (k * a) (k * b).
Proof. intros ? (? & ? & [j E] & ?). split_and!; try nia. exists (k * j). nia. Qed.

Lemma ceq_carry a : 0 <= a -> ceq (65536 * a) a.
Proof. intros. split_and!; try lia. exists a. lia. Qed.

Lemma ceq_carry_out a b : 0 <= a -> 0 <= b -> ceq (a + b) (65536 * a + b).
Proof. intros. apply ceq_add; [by apply ceq_sym, ceq_carry|by apply ceq_refl]. Qed.

Lemma ceq_canon a b : ceq a b -> a <= 65535 -> b <= 65535 -> a = b.
Proof. intros (? & ? & [k E] & ?) ? ?. assert (k = 0 \/ k = 1 \/ k = -1) as [->|[->| ->]] by lia; lia. Qed.

Lemma ones_complement_ok n : 0 <= n -> ceq (ones_complement n) n /\ 0 <= ones_complement n <= 65535.
Proof.
  intros Hn. unfold ones_complement. destruct (Z.eqb_spec n 0) as [->|H0]; [split; [by apply ceq_refl|lia]|].
  pose proof (Z.mod_pos_bound (n - 1) 65535 ltac:(lia)). pose proof (Z.div_mod (n - 1) 65535 ltac:(lia)). split; [|lia].
  split_and!; try lia. exists (- ((n - 1) / 65535)). lia.
Qed.

Lemma ones_complement_unique a n : ceq a n -> a <= 65535 -> a = ones_complement n.
Proof.
  intros H Ha. destruct (ones_complement_ok n) as [Hc Hr]; [apply H|].
  apply ceq_canon; [|lia|lia]. by eapply ceq_trans, ceq_sym.
Qed.

(** ** Folding and swapping *)

Lemma land_mask16 u : Z.land u 0xffff = u mod 65536.
Proof. change 0xffff with (Z.ones 16). by rewrite Z.land_ones by lia. Qed.

Lemma fold_eq u : 0 <= u < 2 ^ 32 -> FOLD_U32T u = u / 65536 + u mod 65536.
Proof.
  intros Hu. unfold FOLD_U32T. rewrite land_mask16, Z.shiftr_div_pow2 by lia. change (2 ^ 16) with 65536.
  apply u32_id. unfold is_u32. pose proof (Z.mod_pos_bound u 65536 ltac:(lia)).
  pose proof (Z.div_lt_upper_bound u 65536 65536 ltac:(lia) ltac:(lia)). pose proof (Z.div_pos u 65536 ltac:(lia) ltac:(lia)). lia.
Qed.

Lemma fold_ok u : 0 <= u < 2 ^ 32 -> ceq (FOLD_U32T u) u /\ 0 <= FOLD_U32T u <= 131070 /\ (u <= 131070 -> FOLD_U32T u <= 65535).
Proof.
  intros Hu. rewrite fold_eq by done. pose proof (Z.div_mod u 65536 ltac:(lia)). pose proof (Z.mod_pos_bound u 65536 ltac:(lia)).
  pose proof (Z.div_lt_upper_bound u 65536 65536 ltac:(lia) ltac:(lia)). pose proof (Z.div_pos u 65536 ltac:(lia) ltac:(lia)).
  split; [|lia]. rewrite H at 3. apply ceq_carry_out; lia.
Qed.

(** Two folds give the canonical sum. *)
Lemma fold_twice u : 0 <= u < 2 ^ 32 -> FOLD_U32T (FOLD_U32T u) = ones_complement u.
Proof.
  intros Hu. destruct (fold_ok u Hu) as (C1 & R1 & _). destruct (fold_ok (FOLD_U32T u)) as (C2 & R2 & B2); [lia|].
  apply ones_complement_unique; [by eapply ceq_trans|apply B2; lia].
Qed.

Lemma swap_eq w : is_u16 w -> SWAP_BYTES_IN_WORD w = 256 * (w mod 256) + w / 256.
Proof.
  unfold is_u16. intros Hw. unfold SWAP_BYTES_IN_WORD. change 0xff with (Z.ones 8). rewrite Z.land_ones by lia. change (2 ^ 8) with 256.
  assert (Z.shiftr (Z.land w 0xff00) 8 = w / 256) as ->.
  { rewrite Z.shiftr_land, Z.shiftr_div_pow2 by lia. change (Z.shiftr 0xff00 8) with (Z.ones 8). change (2 ^ 8) with 256.
    rewrite Z.land_ones by lia. apply Z.mod_small. split; [apply Z.div_pos; lia|apply Z.div_lt_upper_bound; lia]. }
  rewrite Z.lor_comm. rewrite byte_pair; [lia|]. unfold is_u8. split; [apply Z.div_pos; lia|apply Z.div_lt_upper_bound; lia].
Qed.

Lemma swap_ok w : is_u16 w -> ceq (SWAP_BYTES_IN_WORD w) (256 * w) /\ is_u16 (SWAP_BYTES_IN_WORD w).
Proof.
  intros Hw. rewrite swap_eq by done. unfold is_u16 in *. pose proof (Z.div_mod w 256 ltac:(lia)). pose proof (Z.mod_pos_bound w 256 ltac:(lia)).
  pose proof (Z.div_lt_upper_bound w 256 256 ltac:(lia) ltac:(lia)). pose proof (Z.div_pos w 256 ltac:(lia) ltac:(lia)).
  split; [|lia]. rewrite H at 3. replace (256 * (256 * (w / 256) + w mod 256)) with (256 * (w mod 256) + 65536 * (w / 256)) by lia.
  apply ceq_add; [apply ceq_refl; lia|]. by apply ceq_sym, ceq_carry.
Qed.

Lemma swap16_swap w : is_u16 w -> swap16 w = SWAP_BYTES_IN_WORD w.
Proof.
  intros Hw. unfold swap16, SWAP_BYTES_IN_WORD. f_equal. rewrite Z.shiftr_land. by change (Z.shiftr 0xff00 8) with 255.
Qed.

(** ** The bytes as a number

    Modulo carries, a sum of words is the little-endian number of the bytes: a byte counts
    256 times as much one place further on, and 256 * 256 is a carry. *)

Fixpoint value (l : bytes) : Z := match l with x :: l => x + 256 * value l | [] => 0 end.

Lemma value_nonneg l : is_bytes l -> 0 <= value l.
Proof. induction 1 as [|x l Hx Hl IH]; cbn [value]; [lia|]. unfold is_u8 in Hx. lia. Qed.

Lemma value_app l k : value (l ++ k) = value l + 256 ^ zlen l * value k.
Proof.
  induction l as [|x l IH]; cbn [value app]; [change (zlen (@nil Z)) with 0; lia|]. rewrite IH, zlen_cons.
  rewrite Z.pow_add_r by (unfold zlen; lia). lia.
Qed.

Lemma word_sum_nonneg l : is_bytes l -> 0 <= word_sum l.
Proof.
  remember (length l) as n eqn:En. revert l En. induction (lt_wf n) as [n _ IH]. intros l -> Hl.
  destruct l as [|x [|y l]]; cbn [word_sum]; [lia|by apply Forall_cons in Hl as [[] _]|].
  apply Forall_cons in Hl as [Hx [Hy Hl]%Forall_cons]. pose proof (IH (length l) ltac:(cbn; lia) l eq_refl Hl). unfold is_u8 in *. lia.
Qed.

Lemma word_sum_value l : is_bytes l -> ceq (word_sum l) (value l).
Proof.
  remember (length l) as n eqn:En. revert l En. induction (lt_wf n) as [n _ IH]. intros l -> Hl.
  destruct l as [|x [|y l]]; cbn [word_sum value].
  - by apply ceq_refl.
  - apply Forall_cons in Hl as [[] _]. rewrite Z.add_0_r. by apply ceq_refl.
  - apply Forall_cons in Hl as [Hx [Hy Hl]%Forall_cons]. pose proof (IH (length l) ltac:(cbn; lia) l eq_refl Hl) as C.
    pose proof (value_nonneg l Hl). unfold is_u8 in *.
    replace (x + 256 * (y + 256 * value l)) with (x + 256 * y + 65536 * value l) by lia.
    apply ceq_add; [apply ceq_refl; lia|]. eapply ceq_trans; [exact C|]. by apply ceq_sym, ceq_carry.
Qed.

(** ** The three routines *)

(** [l] without the first [n] bytes is the rest; what was added is the value of those. *)
Definition summed (sum : Z) (l : bytes) (r : Z * bytes) : Prop :=
  0 <= fst r /\ is_bytes (snd r) /\ ceq (fst r + value (snd r)) (sum + value l).

Lemma value_pair x y l : value (x :: y :: l) = x + 256 * y + 65536 * value l.
Proof. cbn [value]. lia. Qed.

Lemma summed_step sum sum' w l k :
  0 <= sum -> is_bytes l -> value k = w + 65536 * value l -> 0 <= w -> ceq sum' (sum + w) -> ceq (sum' + value l) (sum + value k).
Proof.
  intros Hs Hl -> Hw C. pose proof (value_nonneg l Hl). rewrite Z.add_assoc.
  apply ceq_add; [done|]. by apply ceq_sym, ceq_carry.
Qed.

Lemma add_words_ok l : forall sum, is_bytes l -> 0 <= sum -> 2 * sum + 65535 * zlen l < 2 ^ 33 ->
  let r := add_words sum l in summed sum l r /\ zlen (snd r) <= 1 /\ 2 * fst r <= 2 * sum + 65535 * zlen l.
Proof.
  remember (length l) as n eqn:En. revert l En. induction (lt_wf n) as [n _ IH]. intros l -> sum Hl Hs Hb.
  destruct l as [|x [|y l]]; cbn [add_words].
  - split; [|unfold zlen; cbn; lia]. split; [done|]. split; [done|]. apply ceq_refl. cbn. lia.
  - split; [|unfold zlen; cbn; lia]. split; [done|]. split; [done|]. apply ceq_refl. apply value_nonneg in Hl. cbn [fst snd]. lia.
  - pose proof Hl as [Hx [Hy Hl']%Forall_cons]%Forall_cons. rewrite !zlen_cons in *. unfold is_u8 in Hx, Hy. pose proof (zlen_nonneg l).
    rewrite u32_id by (unfold is_u32; lia).
    destruct (IH (length l) ltac:(cbn; lia) l eq_refl (sum + (x + 256 * y)) Hl' ltac:(lia) ltac:(lia)) as ((H1 & H2 & H3) & H4 & H5).
    split; [|lia]. split; [done|]. split; [done|]. eapply ceq_trans; [exact H3|].
    eapply summed_step; [done|done|apply value_pair|lia|]. apply ceq_refl. lia.
Qed.

Lemma add_carry_ok sum w : is_u32 sum -> is_u32 w -> is_u32 (add_carry sum w) /\ ceq (add_carry sum w) (sum + w).
Proof.
  unfold is_u32. intros Hs Hw. unfold add_carry, u32. destruct (mod_once (sum + w) (2 ^ 32)) as [[Hr ->]|[Hr ->]]; [lia| |].
  - destruct (Z.ltb_spec (sum + w) sum); [lia|]. split; [lia|]. apply ceq_refl. lia.
  - destruct (Z.ltb_spec (sum + w - 2 ^ 32) sum); [|lia]. rewrite Z.mod_small by lia. split; [lia|].
    split; [lia|]. split; [lia|]. split; [|lia]. exists (- 65537). lia.
Qed.

Lemma value_long a b c d l : value (a :: b :: c :: d :: l) = (a + 256 * b + 2 ^ 16 * c + 2 ^ 24 * d) + 2 ^ 32 * value l.
Proof. cbn [value]. lia. Qed.

Lemma ceq_long a : 0 <= a -> ceq (2 ^ 32 * a) a.
Proof. intros. split; [lia|]. split; [lia|]. split; [|lia]. exists (65537 * a). lia. Qed.

Lemma add_longs_ok l : forall sum, is_bytes l -> is_u32 sum ->
  let r := add_longs sum l in summed sum l r /\ zlen (snd r) <= 7 /\ is_u32 (fst r).
Proof.
  remember (length l) as n eqn:En. revert l En. induction (lt_wf n) as [n _ IH]. intros l -> sum Hl Hs.
  assert (zlen l <= 7 \/ exists a b c d e f g h k, l = a :: b :: c :: d :: e :: f :: g :: h :: k) as [Hz|(a & b & c & d & e & f & g & h & k & ->)].
  { unfold zlen. do 8 (destruct l as [|? l]; [left; cbn; lia|]). right. by repeat eexists. }
  - assert (add_longs sum l = (sum, l)) as ->.
    { unfold zlen in Hz. do 8 (destruct l as [|? l]; [done|]). cbn in Hz. lia. }
    cbv zeta. cbn [fst snd]. split; [|done]. unfold is_u32 in Hs. split; [cbn; lia|]. split; [done|]. apply ceq_refl. pose proof (value_nonneg l Hl). cbn [fst snd]. lia.
  - cbn [add_longs]. rewrite !Forall_cons in Hl. destruct Hl as (Ha & Hb & Hc & Hd & He & Hf & Hg & Hh & Hk). unfold is_u8 in *.
    set (w1 := a + 256 * b + 2 ^ 16 * c + 2 ^ 24 * d). set (w2 := e + 256 * f + 2 ^ 16 * g + 2 ^ 24 * h).
    assert (is_u32 w1 /\ is_u32 w2) as [W1 W2] by (unfold is_u32, w1, w2; lia).
    destruct (add_carry_ok sum w1 Hs W1) as [U1 C1]. destruct (add_carry_ok _ w2 U1 W2) as [U2 C2].
    destruct (IH (length k) ltac:(cbn; lia) k eq_refl _ Hk U2) as ((H1 & H2 & H3) & H4 & H5). split; [|done].
    split; [done|]. split; [done|]. eapply ceq_trans; [exact H3|]. pose proof (value_nonneg k Hk) as Vk.
    rewrite value_long, value_long. fold w1 w2. eapply ceq_trans; [apply ceq_add; [exact C2|by apply ceq_refl]|].
    replace (sum + (w1 + 2 ^ 32 * (w2 + 2 ^ 32 * value k))) with ((sum + w1) + 2 ^ 32 * (w2 + 2 ^ 32 * value k)) by lia.
    rewrite <- Z.add_assoc. apply ceq_add; [done|]. unfold is_u32 in *. apply ceq_sym.
    eapply ceq_trans; [apply ceq_long; lia|]. apply ceq_add; [apply ceq_refl; lia|by apply ceq_long].
Qed.

Lemma finish_ok odd sum : 0 <= sum < 2 ^ 32 -> finish odd sum = ones_complement (if odd then 256 * sum else sum).
Proof.
  intros Hs. unfold finish. rewrite fold_twice by done. destruct (ones_complement_ok sum) as [C R]; [lia|]. destruct odd.
  - destruct (swap_ok (ones_complement sum)) as [Cs Rs]; [unfold is_u16; lia|]. rewrite u16_id by done. unfold is_u16 in Rs.
    apply ones_complement_unique; [|lia]. eapply ceq_trans; [exact Cs|]. by apply ceq_mul.
  - rewrite u16_id; [done|unfold is_u16; lia].
Qed.

Lemma tail_byte_ok t l : (exists x : Z, is_u8 x /\ t = 256 * x) -> is_bytes l -> zlen l <= 1 -> tail_byte t l = t + value l.
Proof.
  intros (x & Hx & ->) Hl Hz. destruct l as [|y [|? ?]]; cbn [tail_byte value]; [lia| |unfold zlen in Hz; cbn in Hz; lia].
  apply Forall_cons in Hl as [Hy _]. assert (Z.land (256 * x) 0xff00 = Z.shiftl x 8) as ->.
  { change 0xff00 with (Z.shiftl (Z.ones 8) 8). replace (256 * x) with (Z.shiftl x 8) by (rewrite Z.shiftl_mul_pow2; lia).
    rewrite <- Z.shiftl_land, Z.land_ones by lia. f_equal. apply Z.mod_small. unfold is_u8 in Hx. lia. }
  rewrite Z.lor_comm, byte_pair by done. lia.
Qed.

(** What remains to be added after an odd first byte. *)
Lemma odd_head_ok (odd : bool) l : is_bytes l ->
  let '(t, k) := odd_head odd l in
  (exists x : Z, is_u8 x /\ t = 256 * x) /\ is_bytes k /\ zlen k <= zlen l /\ (0 < t -> zlen k + 1 <= zlen l) /\
  ceq (if odd then 256 * (t + value k) else t + value k) (value l).
Proof.
  intros Hl. assert (exists x, is_u8 x /\ 0 = 256 * x) as H0 by (exists 0; done). pose proof (value_nonneg l Hl) as Hv.
  destruct l as [|x l]; cbn [odd_head].
  { split_and!; try done. destruct odd; by apply ceq_refl. }
  destruct odd; (split; [first [exact H0|by apply Forall_cons in Hl as [Hx _]; exists x]|]).
  - pose proof Hl as [Hx Hk]%Forall_cons. rewrite zlen_cons. split; [done|]. split; [lia|]. split; [lia|].
    pose proof (value_nonneg l Hk). unfold is_u8 in Hx. cbn [value].
    replace (256 * (256 * x + value l)) with (65536 * x + 256 * value l) by lia. apply ceq_add; [apply ceq_carry; lia|apply ceq_refl; lia].
  - split; [done|]. split; [lia|]. split; [lia|]. by apply ceq_refl.
Qed.

(** The end that versions 2 and 3 share: words, dangling byte, fold and swap. *)
Lemma end_ok (odd : bool) t sum0 l v :
  (exists x : Z, is_u8 x /\ t = 256 * x) -> is_bytes l -> 0 <= sum0 -> 2 * sum0 + 65535 * zlen l + 2 * t < 2 ^ 33 - 512 ->
  ceq (if odd then 256 * (t + (sum0 + value l)) else t + (sum0 + value l)) v ->
  finish odd (let '(sum, l) := add_words sum0 l in u32 (sum + tail_byte t l)) = ones_complement v.
Proof.
  intros Ht Hl Hs Hb C. destruct (add_words_ok l sum0 Hl Hs) as ((H1 & H2 & H3) & H4 & H5); [destruct Ht as (x & Hx & ->); unfold is_u8 in Hx; lia|].
  destruct (add_words sum0 l) as [sum k]. cbn [fst snd] in *. rewrite (tail_byte_ok t k Ht H2 H4).
  assert (0 <= value k < 256) as Hk.
  { destruct k as [|y [|? ?]]; [cbn; lia| |unfold zlen in H4; cbn in H4; lia]. apply Forall_cons in H2 as [[] _]. cbn. lia. }
  assert (0 <= t) as Ht0 by (destruct Ht as (x & Hx & ->); unfold is_u8 in Hx; lia).
  rewrite u32_id by (unfold is_u32; lia). rewrite finish_ok by lia. symmetry.
  assert (ceq (sum + (t + value k)) (t + (sum0 + value l))) as C'.
  { replace (sum + (t + value k)) with (t + (sum + value k)) by lia. apply ceq_add; [by apply ceq_refl|done]. }
  pose proof (fun n H => proj1 (ones_complement_ok n H)) as Hoc. apply ceq_canon.
  - apply ceq_sym. eapply ceq_trans; [apply Hoc; destruct odd; lia|]. destruct C' as (? & ? & ?).
    eapply ceq_trans; [|apply ceq_sym, Hoc; apply C]. eapply ceq_trans; [|exact C]. destruct odd; [apply ceq_mul; [lia|]|]; done.
  - apply ones_complement_ok. apply C.
  - apply ones_complement_ok. destruct odd; lia.
Qed.

Lemma chksum_ok pb l : is_bytes l -> zlen l <= 0x20000 -> lwip_standard_chksum pb l = ones_complement (value l).
Proof.
  intros Hl Hz. unfold lwip_standard_chksum. set (odd := negb _). pose proof (odd_head_ok odd l Hl) as H. destruct (odd_head odd l) as [t k].
  destruct H as (Ht & Hk & H1 & H2 & C).
  assert (2 * 0 + 65535 * zlen k + 2 * t < 2 ^ 33 - 512) as Hb.
  { destruct Ht as (x & Hx & ->). unfold is_u8 in Hx. destruct (decide (x = 0)) as [->|]; [lia|]. specialize (H2 ltac:(lia)). lia. }
  pose proof (end_ok odd t 0 k _ Ht Hk (Z.le_refl 0) Hb C) as E. by destruct (add_words 0 k).
Qed.

Lemma chksum3_ok pb l : is_bytes l -> zlen l <= 0x20000 -> lwip_standard_chksum3 pb l = ones_complement (value l).
Proof.
  intros Hl Hz. unfold lwip_standard_chksum3. set (odd := negb (Z.land pb 1 =? 0)). set (ps := if odd && _ then _ else _).
  pose proof (odd_head_ok odd l Hl) as H. destruct (odd_head odd l) as [t k]. destruct H as (Ht & Hk & H1 & _ & C).
  set (first := match k with x :: y :: k' => if negb (Z.land ps 3 =? 0) then (x + 256 * y, k') else (0, k) | _ => (0, k) end).
  assert (is_u32 (fst first) /\ is_bytes (snd first) /\ ceq (fst first + value (snd first)) (value k)) as (F1 & F2 & F3).
  { pose proof (value_nonneg k Hk) as Hv. unfold first. destruct k as [|x [|y k']]; cbn [fst snd]; try (split; [unfold is_u32; lia|split; [done|by apply ceq_refl]]).
    destruct (Z.land ps 3 =? 0); cbn [negb fst snd]; [split; [unfold is_u32; lia|split; [done|by apply ceq_refl]]|]. apply Forall_cons in Hk as [Hx [Hy Hk]%Forall_cons].
    unfold is_u8, is_u32 in *. split; [lia|]. split; [done|]. rewrite value_pair. apply ceq_add; [apply ceq_refl; lia|].
    apply ceq_sym, ceq_carry. by apply value_nonneg. }
  destruct first as [sum1 k1]. cbn [fst snd] in *. destruct (add_longs_ok k1 sum1 F2 F1) as ((A1 & A2 & A3) & A4 & A5).
  destruct (add_longs sum1 k1) as [sum2 k2]. cbn [fst snd] in *. destruct (fold_ok sum2) as (B1 & B2 & _); [by unfold is_u32 in A5|].
  assert (2 * FOLD_U32T sum2 + 65535 * zlen k2 + 2 * t < 2 ^ 33 - 512) as Hb by (destruct Ht as (x & Hx & ->); unfold is_u8 in Hx; lia).
  pose proof (value_nonneg k2 A2) as V2.
  assert (ceq (FOLD_U32T sum2 + value k2) (value k)) as D.
  { eapply ceq_trans; [apply ceq_add; [exact B1|by apply ceq_refl]|]. by eapply ceq_trans. }
  assert (0 <= t) as Ht0 by (destruct Ht as (x & Hx & ->); unfold is_u8 in Hx; lia).
  assert (ceq (if odd then 256 * (t + (FOLD_U32T sum2 + value k2)) else t + (FOLD_U32T sum2 + value k2)) (value l)) as C'.
  { eapply ceq_trans; [|exact C]. destruct odd; [apply ceq_mul; [lia|]|]; (apply ceq_add; [by apply ceq_refl|done]). }
  pose proof (end_ok odd t _ k2 _ Ht A2 (proj1 B2) Hb C') as E. by destruct (add_words (FOLD_U32T sum2) k2).
Qed.

Lemma chksum1_loop_ok l : forall acc, is_bytes l -> 0 <= acc -> 2 * acc + 65535 * (zlen l + 1) < 2 ^ 33 ->
  is_u32 (chksum1_loop acc l) /\ ceq (chksum1_loop acc l) (acc + 256 * value l).
Proof.
  remember (length l) as n eqn:En. revert l En. induction (lt_wf n) as [n _ IH]. intros l -> acc Hl Hs Hb.
  assert (forall x y, is_u8 y -> Z.lor (Z.shiftl x 8) y = 256 * x + y) as Hw by (intros; rewrite Z.lor_comm, byte_pair by done; lia).
  destruct l as [|x [|y l]]; cbn [chksum1_loop]; rewrite ?zlen_cons in Hb.
  - cbn [value]. change (zlen (@nil Z)) with 0 in Hb. split; [unfold is_u32; lia|]. rewrite Z.mul_0_r, Z.add_0_r. by apply ceq_refl.
  - apply Forall_cons in Hl as [Hx _]. change (zlen (@nil Z)) with 0 in Hb. unfold is_u8 in Hx. rewrite Z.shiftl_mul_pow2 by lia.
    rewrite u32_id by (unfold is_u32; lia). cbn [value]. split; [unfold is_u32; lia|]. apply ceq_add; [by apply ceq_refl|].
    replace (x * 2 ^ 8) with (256 * (x + 256 * 0)) by lia. apply ceq_refl. lia.
  - apply Forall_cons in Hl as [Hx [Hy Hl]%Forall_cons]. rewrite (Hw x y Hy). unfold is_u8 in *. pose proof (zlen_nonneg l).
    rewrite u32_id by (unfold is_u32; lia).
    destruct (IH (length l) ltac:(cbn; lia) l eq_refl (acc + (256 * x + y)) Hl ltac:(lia) ltac:(lia)) as [U C]. split; [done|].
    eapply ceq_trans; [exact C|]. rewrite value_pair. pose proof (value_nonneg l Hl).
    replace (256 * (x + 256 * y + 65536 * value l)) with (256 * x + 65536 * (y + 256 * value l)) by lia.
    rewrite <- Z.add_assoc. apply ceq_add; [by apply ceq_refl|]. rewrite <- Z.add_assoc. apply ceq_add; [apply ceq_refl; lia|].
    apply ceq_sym, ceq_carry. lia.
Qed.

Lemma chksum1_ok l : is_bytes l -> zlen l <= 0x1ffff -> lwip_standard_chksum1 l = ones_complement (value l).
Proof.
  intros Hl Hz. unfold lwip_standard_chksum1. destruct (chksum1_loop_ok l 0 Hl) as [U C]; [lia|lia|]. set (acc := chksum1_loop 0 l) in *.
  pose proof (value_nonneg l Hl) as Hv. change (u32 (Z.shiftr acc 16 + Z.land acc 0xffff)) with (FOLD_U32T acc).
  change (u32 (Z.shiftr (FOLD_U32T acc) 16 + Z.land (FOLD_U32T acc) 0xffff)) with (FOLD_U32T (FOLD_U32T acc)).
  set (w := if negb _ then _ else _). unfold is_u32 in U. destruct (fold_ok acc U) as (C1 & R1 & _).
  assert (w = ones_complement acc) as Ew.
  { unfold w. destruct (Z.eqb_spec (Z.land (FOLD_U32T acc) 0xffff0000) 0) as [E|E]; cbn [negb]; [|by apply fold_twice].
    apply ones_complement_unique; [done|]. change 0xffff0000 with (Z.shiftl (Z.ones 16) 16) in E.
    assert (Z.shiftr (Z.land (FOLD_U32T acc) (Z.shiftl (Z.ones 16) 16)) 16 = FOLD_U32T acc / 65536) as E2.
    { rewrite Z.shiftr_land, Z.shiftr_shiftl_l, Z.sub_diag, Z.shiftl_0_r by lia. rewrite Z.shiftr_div_pow2, Z.land_ones by lia.
      apply Z.mod_small. split; [apply Z.div_pos; lia|apply Z.div_lt_upper_bound; lia]. }
    rewrite E in E2. change (Z.shiftr 0 16) with 0 in E2. pose proof (Z.div_mod (FOLD_U32T acc) 65536 ltac:(lia)).
    pose proof (Z.mod_pos_bound (FOLD_U32T acc) 65536 ltac:(lia)). lia. }
  rewrite Ew. destruct (ones_complement_ok acc) as [C2 R2]; [lia|]. rewrite u16_id by (unfold is_u16; lia).
  rewrite swap16_swap by (unfold is_u16; lia). destruct (swap_ok (ones_complement acc)) as [C3 R3]; [unfold is_u16; lia|].
  unfold is_u16 in R3. apply ones_complement_unique; [|lia]. eapply ceq_trans; [exact C3|].
  eapply ceq_trans; [apply ceq_mul; [lia|]; eapply ceq_trans; [exact C2|exact C]|].
  replace (256 * (0 + 256 * value l)) with (65536 * value l) by lia. by apply ceq_carry.
Qed.

Lemma ones_complement_ceq a b : ceq a b -> ones_complement a = ones_complement b.
Proof.
  intros C. destruct (ones_complement_ok a) as [Ca Ra]; [apply C|]. apply ones_complement_unique; [|lia]. by eapply ceq_trans.
Qed.

(** ** Chains of buffers *)

(** The sum is kept multiplied by 256 behind an odd number of bytes. *)
Definition scale (b : bool) (v : Z) : Z := if b then 256 * v else v.

Lemma scale_nonneg b v : 0 <= v -> 0 <= scale b v.
Proof. destruct b; cbn [scale]; lia. Qed.

Lemma scale_ceq b v w : ceq v w -> ceq (scale b v) (scale b w).
Proof. intros C. destruct b; [by apply ceq_mul|done]. Qed.

Lemma scale_add b v w : scale b (v + w) = scale b v + scale b w.
Proof. destruct b; cbn [scale]; lia. Qed.

Lemma scale_scale b c v : 0 <= v -> ceq (scale b (scale c v)) (scale (xorb b c) v).
Proof.
  intros Hv. destruct b, c; cbn [scale xorb]; try (apply ceq_refl; lia). replace (256 * (256 * v)) with (65536 * v) by lia. by apply ceq_carry.
Qed.

(** Behind [l] the bytes [k] count according to the parity of [l]. *)
Lemma value_behind l k : is_bytes l -> is_bytes k -> ceq (value (l ++ k)) (value l + scale (Z.odd (zlen l)) (value k)).
Proof.
  intros Hl Hk. induction Hl as [|x l Hx Hl IH]; cbn [app value].
  - change (zlen (@nil Z)) with 0. apply ceq_refl. by apply value_nonneg.
  - rewrite zlen_cons. replace (Z.odd (zlen l + 1)) with (xorb true (Z.odd (zlen l))) by (rewrite Z.odd_add; by destruct (Z.odd _)).
    pose proof (value_nonneg k Hk) as Hv. unfold is_u8 in Hx. rewrite <- Z.add_assoc. apply ceq_add; [apply ceq_refl; lia|].
    eapply ceq_trans; [apply ceq_mul; [lia|exact IH]|]. rewrite Z.mul_add_distr_l. pose proof (value_nonneg l Hl).
    apply ceq_add; [apply ceq_refl; lia|]. by apply (scale_scale true).
Qed.

(** One buffer is added to a sum kept behind [sw]. *)
Lemma add_buffer pb c acc sw v : is_bytes c -> zlen c <= 0xffff -> is_u16 acc -> ceq acc (scale sw v) -> 0 <= v ->
  let acc' := FOLD_U32T (u32 (acc + lwip_standard_chksum pb c)) in
  is_u16 acc' /\ ceq acc' (scale sw (v + scale sw (value c))).
Proof.
  intros Hc Hz Ha Ca Hv. rewrite chksum_ok by first [done|lia]. pose proof (value_nonneg c Hc) as Hvc.
  destruct (ones_complement_ok (value c) Hvc) as [Cc Rc]. unfold is_u16 in Ha. rewrite u32_id by (unfold is_u32; lia).
  destruct (fold_ok (acc + ones_complement (value c))) as (C & R & B); [lia|]. cbv zeta. split; [unfold is_u16; lia|].
  eapply ceq_trans; [exact C|]. rewrite scale_add. apply ceq_add; [done|]. eapply ceq_trans; [exact Cc|].
  apply ceq_sym. eapply ceq_trans; [by apply scale_scale|]. rewrite xorb_nilpotent. by apply ceq_refl.
Qed.

(** Behind a buffer of odd length the sum is swapped. *)
Lemma swap_buffer acc sw v : is_u16 acc -> ceq acc (scale sw v) -> 0 <= v ->
  is_u16 (SWAP_BYTES_IN_WORD acc) /\ ceq (SWAP_BYTES_IN_WORD acc) (scale (negb sw) v).
Proof.
  intros Ha Ca Hv. destruct (swap_ok acc Ha) as [C R]. split; [done|]. eapply ceq_trans; [exact C|].
  eapply ceq_trans; [apply ceq_mul; [lia|exact Ca]|]. replace (negb sw) with (xorb true sw) by (by destruct sw). by apply (scale_scale true).
Qed.

Lemma mod2_odd n : negb (n mod 2 =? 0) = Z.odd n.
Proof. rewrite Zmod_odd. by destruct (Z.odd n). Qed.

Lemma xorb_swapped sw n : (if Z.odd n then negb sw else sw) = xorb sw (Z.odd n).
Proof. by destruct sw, (Z.odd n). Qed.

(** The sum behind the first part of the data, [c], goes on with the rest. *)
Lemma scale_rest sw v c d w :
  is_bytes c -> is_bytes d -> 0 <= v -> ceq w (v + scale sw (value c) + scale (xorb sw (Z.odd (zlen c))) (value d)) ->
  ceq w (v + scale sw (value (c ++ d))).
Proof.
  intros Hc Hd Hv C. eapply ceq_trans; [exact C|]. pose proof (value_nonneg c Hc). pose proof (value_nonneg d Hd). rewrite <- Z.add_assoc.
  apply ceq_add; [by apply ceq_refl|]. eapply ceq_trans; [|apply scale_ceq, ceq_sym, value_behind; done]. rewrite scale_add.
  apply ceq_add; [by apply ceq_refl, scale_nonneg|]. by apply ceq_sym, scale_scale.
Qed.

Section chains_ok.
Context (base : Z -> Z).

(** Adding the first part [c] of buffer [n] and swapping behind it. *)
Lemma buffer_ok pb c acc sw v k : is_bytes c -> zlen c <= 0xffff -> is_u16 acc -> ceq acc (scale sw v) -> 0 <= v ->
  let acc1 := FOLD_U32T (u32 (acc + lwip_standard_chksum pb c)) in
  let acc2 := if Z.odd k then SWAP_BYTES_IN_WORD acc1 else acc1 in
  is_u16 acc2 /\ ceq acc2 (scale (xorb sw (Z.odd k)) (v + scale sw (value c))).
Proof.
  intros Hc Hz Ha Ca Hv. destruct (add_buffer pb c acc sw v Hc Hz Ha Ca Hv) as [A1 C1]. cbv zeta in *. rewrite <- xorb_swapped.
  destruct (Z.odd k); [|done]. apply swap_buffer; [done|done|]. pose proof (scale_nonneg sw _ (value_nonneg c Hc)). lia.
Qed.

Lemma chain_loop_ok xs : forall fuel h p acc sw v,
  pseg h p xs NULL -> Forall (fun x => buf_ok (snd x)) xs -> is_bytes (data xs) -> (length xs <= fuel)%nat ->
  is_u16 acc -> ceq acc (scale sw v) -> 0 <= v ->
  exists acc' sw' w, chain_loop base fuel p acc sw h = Val ((acc', sw'), h) /\ is_u16 acc' /\ ceq acc' (scale sw' w) /\
    ceq w (v + scale sw (value (data xs))).
Proof.
  induction xs as [|[a n] xs IH]; intros fuel h p acc sw v Hs Hok Hb Hf Ha Ca Hv.
  - cbn [pseg] in Hs. subst p. exists acc, sw, v. split; [by destruct fuel|]. split; [done|]. split; [done|]. cbn. destruct sw; cbn; rewrite Z.add_0_r; by apply ceq_refl.
  - destruct fuel as [|fuel]; [cbn in Hf; lia|]. destruct Hs as (-> & Hn & En & Hs). apply Forall_cons in Hok as [Hn' Hok]. cbn [snd] in Hn'.
    rewrite data_cons in *. cbn [snd] in *. apply Forall_app in Hb as [Hb1 Hb2]. cbn [chain_loop]. rewrite (neqb a Hn).
    unfold sbind at 1. rewrite (load_ok _ _ _ En). unfold sbind, slift. pose proof Hn' as (Hp & Hl & Hm).
    rewrite read_payload_ok by first [done|lia]. cbn [obind].
    assert (slice (Z.to_nat 0) (Z.to_nat (len n)) (content n) = content n) as ->.
    { unfold slice. cbn [drop Z.to_nat]. apply take_ge. pose proof (zlen_content n Hn'). unfold zlen in *. lia. }
    pose proof (zlen_content n Hn') as Ez.
    destruct (buffer_ok (base a + payload n) (content n) acc sw v (len n) Hb1 ltac:(lia) Ha Ca Hv) as [A1 C1]. cbv zeta in *.
    rewrite mod2_odd. pose proof (scale_nonneg sw _ (value_nonneg _ Hb1)) as Hsc.
    destruct (IH fuel h (next n) _ _ _ Hs Hok Hb2 ltac:(cbn in Hf; lia) A1 C1 ltac:(lia)) as (acc' & sw' & w & E & A' & C' & W).
    exists acc', sw', w. split; [rewrite <- E, <- xorb_swapped; by destruct (Z.odd (len n))|]. split; [done|]. split; [done|].
    apply scale_rest; [done..|]. by rewrite Ez.
Qed.

Lemma partial_loop_ok xs : forall fuel h p acc sw v k,
  pseg h p xs NULL -> Forall (fun x => buf_ok (snd x)) xs -> is_bytes (data xs) -> (length xs <= fuel)%nat ->
  is_u16 acc -> ceq acc (scale sw v) -> 0 <= v -> 0 <= k < 0x7fff ->
  exists acc' sw' w, partial_loop base fuel p acc k sw h = Val ((acc', sw'), h) /\ is_u16 acc' /\ ceq acc' (scale sw' w) /\
    ceq w (v + scale sw (value (take (Z.to_nat k) (data xs)))).
Proof.
  induction xs as [|[a n] xs IH]; intros fuel h p acc sw v k Hs Hok Hb Hf Ha Ca Hv Hk.
  - cbn [pseg] in Hs. subst p. exists acc, sw, v. split; [by destruct fuel|]. split; [done|]. split; [done|].
    replace (take (Z.to_nat k) (data [])) with (@nil Z) by (by destruct (Z.to_nat k)).
    cbn. destruct sw; cbn; rewrite Z.add_0_r; by apply ceq_refl.
  - destruct Hs as (-> & Hn & En & Hs). destruct (decide (k = 0)) as [->|Hk0].
    { exists acc, sw, v. split; [destruct fuel; cbn [partial_loop]; by rewrite orb_comm|]. split; [done|]. split; [done|].
      cbn. destruct sw; cbn; rewrite Z.add_0_r; by apply ceq_refl. }
    destruct fuel as [|fuel]; [cbn in Hf; lia|]. apply Forall_cons in Hok as [Hn' Hok]. cbn [snd] in Hn'.
    rewrite data_cons in *. cbn [snd] in *. apply Forall_app in Hb as [Hb1 Hb2]. cbn [partial_loop]. rewrite (neqb a Hn).
    destruct (Z.gtb_spec k 0) as [_|]; [|lia]. cbn [orb negb].
    unfold sbind at 1. rewrite (load_ok _ _ _ En). unfold sbind at 1. unfold slift. pose proof Hn' as (Hp & Hl & Hm).
    pose proof (zlen_content n Hn') as Ez. set (c := if len n >? k then k else len n).
    assert (c = Z.min (len n) k) as Ec by (unfold c; destruct (Z.gtb_spec (len n) k); lia). clearbody c. subst c.
    rewrite read_payload_ok by first [done|lia]. cbn [obind].
    replace (slice (Z.to_nat 0) (Z.to_nat (Z.min (len n) k)) (content n)) with (take (Z.to_nat k) (content n)).
    2: { unfold slice. change (Z.to_nat 0) with 0%nat. rewrite drop_0. destruct (decide (k <= len n)); [by rewrite Z.min_r by lia|]. rewrite Z.min_l by lia.
      rewrite (take_ge _ (Z.to_nat k)), (take_ge _ (Z.to_nat (len n))) by (unfold zlen in *; lia). done. }
    assert (is_bytes (take (Z.to_nat k) (content n))) as Hbt by (by apply Forall_take).
    assert (zlen (take (Z.to_nat k) (content n)) = Z.min k (len n)) as Elt by (unfold zlen in *; rewrite length_take; lia).
    rewrite u16_id by (unfold is_u16; lia). unfold sbind, LWIP_ASSERT. destruct (Z.ltb_spec (k - Z.min (len n) k) 0x7fff) as [_|]; [|lia]. cbn [sret].
    destruct (buffer_ok (base a + payload n) _ acc sw v (len n) Hbt ltac:(lia) Ha Ca Hv) as [A1 C1]. cbv zeta in *.
    rewrite mod2_odd. pose proof (scale_nonneg sw _ (value_nonneg _ Hbt)) as Hsc.
    destruct (IH fuel h (next n) _ _ _ (k - Z.min (len n) k) Hs Hok Hb2 ltac:(cbn in Hf; lia) A1 C1 ltac:(lia) ltac:(lia)) as (acc' & sw' & w & E & A' & C' & W).
    exists acc', sw', w. split; [rewrite <- E, <- xorb_swapped; by destruct (Z.odd (len n))|]. split; [done|]. split; [done|].
    rewrite take_app. replace (Z.to_nat k - length (content n))%nat with (Z.to_nat (k - Z.min (len n) k)) by (unfold zlen in *; lia).
    destruct (decide (k < len n)).
    + rewrite Z.min_r, Z.sub_diag in W by lia. cbn [Z.to_nat take value] in W. rewrite Z.min_r, Z.sub_diag by lia. cbn [Z.to_nat take]. rewrite app_nil_r.
      destruct (xorb _ _) in W; cbn in W; by rewrite Z.add_0_r in W.
    + apply scale_rest; [done|by apply Forall_take|done|]. rewrite Elt, Z.min_r by lia. done.
Qed.

End chains_ok.

(** ** Pseudo headers *)

Lemma complement_ok x : 0 <= x <= 65535 -> u16 (Z.lnot (Z.land x 0xffff)) = 65535 - x.
Proof.
  intros Hx. rewrite land_mask16, Z.mod_small by lia. unfold u16, Z.lnot. symmetry. apply (Z.mod_unique _ _ (-1)); lia.
Qed.

Lemma unswap acc (sw : bool) w : is_u16 acc -> ceq acc (scale sw w) -> 0 <= w ->
  let a := if sw then SWAP_BYTES_IN_WORD acc else acc in is_u16 a /\ ceq a w.
Proof. intros Ha Ca Hw. destruct sw; [|done]. by apply (swap_buffer acc true w). Qed.

Lemma pseudo_end_ok acc sw w proto proto_len : is_u16 acc -> ceq acc (scale sw w) -> 0 <= w -> is_u8 proto -> is_u16 proto_len ->
  pseudo_end acc sw proto proto_len = 65535 - ones_complement (w + (swap16 proto + swap16 proto_len)).
Proof.
  intros Ha Ca Hw Hp Hl. unfold pseudo_end. destruct (unswap acc sw w Ha Ca Hw) as [A1 C1]. set (a := if sw then _ else _) in *. cbv zeta.
  pose proof (swap16_range proto) as R1. pose proof (swap16_range proto_len) as R2. unfold is_u16 in *.
  rewrite (u32_id (a + swap16 proto)) by (unfold is_u32; lia). rewrite u32_id by (unfold is_u32; lia).
  rewrite fold_twice by lia. rewrite <- Z.add_assoc, complement_ok by (apply ones_complement_ok; lia). f_equal. apply ones_complement_ceq, ceq_add; [done|].
  apply ceq_refl. lia.
Qed.

Lemma add_addr_ok acc addr v : 0 <= acc -> acc + 131070 < 2 ^ 32 -> is_u32 addr -> ceq acc v ->
  ceq (add_addr acc addr) (v + addr) /\ 0 <= add_addr acc addr <= acc + 131070.
Proof.
  intros Ha Hb Hd C. unfold add_addr. unfold is_u32 in Hd. rewrite !land_mask16, Z.shiftr_div_pow2 by lia. change (2 ^ 16) with 65536.
  pose proof (Z.mod_pos_bound addr 65536 ltac:(lia)). pose proof (Z.div_mod addr 65536 ltac:(lia)).
  pose proof (Z.div_lt_upper_bound addr 65536 65536 ltac:(lia) ltac:(lia)). pose proof (Z.div_pos addr 65536 ltac:(lia) ltac:(lia)).
  rewrite (Z.mod_small (addr / 65536)) by lia. rewrite (u32_id (acc + addr mod 65536)) by (unfold is_u32; lia). rewrite u32_id by (unfold is_u32; lia).
  split; [|lia]. rewrite <- Z.add_assoc. apply ceq_add; [done|]. rewrite H0 at 3. rewrite Z.add_comm. apply ceq_carry_out; lia.
Qed.

Definition total (l : list Z) : Z := foldr Z.add 0 l.

Lemma add_addrs_ok src : forall dest acc v, 0 <= acc -> acc + 262140 * zlen src < 2 ^ 32 -> Forall is_u32 src -> Forall is_u32 dest ->
  length src = length dest -> ceq acc v ->
  ceq (add_addrs acc src dest) (v + (total src + total dest)) /\ 0 <= add_addrs acc src dest < 2 ^ 32.
Proof.
  induction src as [|s src IH]; intros [|d dest] acc v Ha Hb Hs Hd Hl C; try done; cbn [add_addrs total foldr].
  - rewrite Z.add_0_r. split; [done|]. change (zlen (@nil Z)) with 0 in Hb. lia.
  - apply Forall_cons in Hs as [Hs1 Hs]. apply Forall_cons in Hd as [Hd1 Hd]. rewrite zlen_cons in Hb. pose proof (zlen_nonneg src).
    destruct (add_addr_ok acc s v) as [C1 R1]; [done|lia|done..|]. destruct (add_addr_ok (add_addr acc s) d (v + s)) as [C2 R2]; [lia|lia|done..|].
    destruct (IH dest (add_addr (add_addr acc s) d) (v + s + d)) as [C3 R3]; [lia|lia|done|done|by injection Hl|done|]. split; [|done].
    fold (total src) (total dest). replace (v + (s + total src + (d + total dest))) with (v + s + d + (total src + total dest)) by lia. done.
Qed.

Lemma le32_ok v : is_u32 v -> value (le32 v) = v /\ is_bytes (le32 v).
Proof.
  intros Hv. unfold is_u32 in Hv. split; [|repeat constructor; apply u8_range]. unfold le32, u8. cbn [value]. rewrite !Z.shiftr_div_pow2 by lia.
  change (2 ^ 8) with 256. change (2 ^ 16) with (256 * 256). change (2 ^ 24) with (256 * (256 * 256)).
  rewrite <- !Z.div_div by lia. set (a := v / 256). set (b := a / 256). set (c := b / 256).
  pose proof (Z.div_mod v 256 ltac:(lia)). pose proof (Z.div_mod a 256 ltac:(lia)). pose proof (Z.div_mod b 256 ltac:(lia)).
  fold a in H. fold b in H0. fold c in H1. rewrite (Z.mod_small c 256); [lia|]. unfold c, b, a. rewrite !Z.div_div by lia.
  split; [apply Z.div_pos; lia|apply Z.div_lt_upper_bound; lia].
Qed.

Lemma addrs_value l : Forall is_u32 l -> is_bytes (l ≫= le32) /\ Z.odd (zlen (l ≫= le32)) = false /\ ceq (value (l ≫= le32)) (total l).
Proof.
  induction 1 as [|v l Hv Hl (B & O & C)]; [split; [constructor|]; split; [done|by apply ceq_refl]|].
  destruct (le32_ok v Hv) as [Ev Bv]. change ((v :: l) ≫= le32) with (le32 v ++ (l ≫= le32)). split; [by apply Forall_app|]. split.
  - rewrite zlen_app, Z.odd_add, O. done.
  - eapply ceq_trans; [by apply value_behind|]. rewrite Ev. cbn [total foldr]. unfold is_u32 in Hv. apply ceq_add; [apply ceq_refl; lia|done].
Qed.

Lemma header_value addrs proto proto_len d : Forall is_u32 addrs -> is_u8 proto -> is_u16 proto_len -> is_bytes d ->
  is_bytes (pseudo_header addrs proto proto_len ++ d) /\
  ceq (value (pseudo_header addrs proto proto_len ++ d)) (total addrs + (swap16 proto + swap16 proto_len) + value d).
Proof.
  intros Ha Hp Hl Hd. destruct (addrs_value addrs Ha) as (B & O & C). pose proof (value_nonneg d Hd) as Vd.
  assert (is_bytes [0; proto; u8 (Z.shiftr proto_len 8); u8 proto_len]) as B2 by (repeat constructor; try apply u8_range; [lia|apply Hp|apply Hp]).
  assert (value [0; proto; u8 (Z.shiftr proto_len 8); u8 proto_len] = 256 * proto + 65536 * swap16 proto_len) as E2.
  { cbn [value]. rewrite swap16_swap, swap_eq by done. unfold u8, is_u16 in *. rewrite Z.shiftr_div_pow2 by lia. change (2 ^ 8) with 256.
    rewrite (Z.mod_small (proto_len / 256)); [lia|]. split; [apply Z.div_pos; lia|apply Z.div_lt_upper_bound; lia]. }
  assert (swap16 proto = 256 * proto) as E1.
  { unfold is_u8 in Hp. rewrite swap16_swap, swap_eq by (unfold is_u16; lia). rewrite Z.mod_small, Z.div_small by lia. lia. }
  pose proof (swap16_range proto_len) as Rl. unfold is_u16, is_u8 in *.
  unfold pseudo_header. split; [by apply Forall_app; split; [apply Forall_app|]|]. rewrite <- app_assoc.
  eapply ceq_trans; [apply value_behind; [done|by apply Forall_app]|]. rewrite O. cbn [scale].
  rewrite <- Z.add_assoc. apply ceq_add; [done|]. eapply ceq_trans; [by apply value_behind|]. change (Z.odd (zlen _)) with false. cbn [scale].
  apply ceq_add; [|by apply ceq_refl]. rewrite E2, E1. apply ceq_add; [apply ceq_refl; lia|]. apply ceq_carry. lia.
Qed.

Lemma rfc1071_value l : is_bytes l -> rfc1071 l = 65535 - ones_complement (value l).
Proof. intros Hl. unfold rfc1071. f_equal. by apply ones_complement_ceq, word_sum_value. Qed.

(** The sum over the addresses [v] and the data [d] ends as the checksum of the packet. *)
Lemma pseudo_rfc1071 addrs proto proto_len d acc sw w v :
  Forall is_u32 addrs -> is_u8 proto -> is_u16 proto_len -> is_bytes d ->
  is_u16 acc -> ceq acc (scale sw w) -> ceq w (v + value d) -> ceq v (total addrs) ->
  pseudo_end acc sw proto proto_len = rfc1071 (pseudo_header addrs proto proto_len ++ d).
Proof.
  intros Ha Hp Hl Hd A C W V. destruct (header_value addrs proto proto_len d Ha Hp Hl Hd) as [B C2]. rewrite rfc1071_value by done.
  rewrite (pseudo_end_ok acc sw w) by (done || apply W). f_equal. apply ones_complement_ceq. apply ceq_sym.
  eapply ceq_trans; [exact C2|]. apply ceq_sym. pose proof (swap16_range proto). pose proof (swap16_range proto_len). unfold is_u16 in *.
  replace (total addrs + (swap16 proto + swap16 proto_len) + value d) with (total addrs + value d + (swap16 proto + swap16 proto_len)) by lia.
  apply ceq_add; [|apply ceq_refl; lia]. eapply ceq_trans; [exact W|]. apply ceq_add; [done|]. by apply ceq_refl, value_nonneg.
Qed.

(** Copying with a checksum: the copy is exact and the checksum that of the source. *)
Lemma chksum_copy_ok mem a dst src : is_bytes src -> zlen src <= 0xffff -> 0 <= dst -> dst + zlen src <= zlen mem ->
  lwip_chksum_copy mem a dst src = Val (ones_complement (word_sum src), splice (Z.to_nat dst) src mem).
Proof.
  intros Hs Hz Hd Hm. unfold lwip_chksum_copy. destruct (split_at mem dst (zlen src)) as (l & m & r & -> & El & Em); [done|apply zlen_nonneg|done|].
  rewrite (put_n_app l m r dst src) by done. cbn [obind]. rewrite (get_n_app l src r) by done. cbn [obind].
  rewrite chksum_ok by first [done|lia]. rewrite (ones_complement_ceq (word_sum src) (value src)) by (by apply word_sum_value).
  do 2 f_equal. unfold splice. unfold zlen in *. rewrite take_app_length' by lia. f_equal. f_equal.
  rewrite app_assoc, drop_app_length'; [done|]. rewrite length_app. lia.
Qed.

(** ** Properties *)

(** The three checksum routines agree with RFC 1071: for every buffer of bytes up to
    the length that their comments give, at every alignment, each returns the one's
    complement sum of its 16-bit words. *)
Lemma chksum_routines_agree pb l : is_bytes l -> zlen l <= 0x20000 ->
  lwip_standard_chksum pb l = ones_complement (word_sum l) /\
  lwip_standard_chksum3 pb l = ones_complement (word_sum l) /\
  (zlen l <= 0xffff -> lwip_standard_chksum1 l = ones_complement (word_sum l)).
Proof.
  intros Hl Hz. rewrite (ones_complement_ceq (word_sum l) (value l)) by (by apply word_sum_value).
  split; [by apply chksum_ok|]. split; [by apply chksum3_ok|]. intros. apply chksum1_ok; [done|lia].
Qed.

Lemma fold_addrs acc v : 0 <= acc < 2 ^ 32 -> ceq acc v -> is_u16 (FOLD_U32T (FOLD_U32T acc)) /\ ceq (FOLD_U32T (FOLD_U32T acc)) v.
Proof.
  intros Ha C. rewrite fold_twice by done. destruct (ones_complement_ok acc) as [Ca Ra]; [lia|]. split; [unfold is_u16; lia|]. by eapply ceq_trans.
Qed.

Section packets.
Context (base : Z -> Z) (h : pheap) (p : Z) (xs : chain) (proto proto_len : Z).
Context (Hp : packet h p xs) (Hb : is_bytes (data xs)) (Hproto : is_u8 proto) (Hlen : is_u16 proto_len).

Lemma cksum_pseudo_base_ok addrs acc : Forall is_u32 addrs -> is_u16 acc -> ceq acc (total addrs) ->
  inet_cksum_pseudo_base base (fuel_of h) p proto proto_len acc h = Val (rfc1071 (pseudo_header addrs proto proto_len ++ data xs), h).
Proof.
  intros Ha A C. pose proof (chain_fuel h p xs Hp) as Hf.
  destruct (chain_loop_ok base xs (fuel_of h) h p acc false acc (pk_seg _ _ _ Hp) (pk_ok _ _ _ Hp) Hb ltac:(lia) A) as (acc' & sw & w & E & A' & C' & W);
    [by apply ceq_refl, A|apply A|]. unfold inet_cksum_pseudo_base, sbind. rewrite E. unfold sret. do 2 f_equal. by eapply pseudo_rfc1071.
Qed.

Lemma cksum_pseudo_partial_base_ok addrs acc k : Forall is_u32 addrs -> is_u16 acc -> ceq acc (total addrs) -> 0 <= k < 0x7fff ->
  inet_cksum_pseudo_partial_base base (fuel_of h) p proto proto_len k acc h =
    Val (rfc1071 (pseudo_header addrs proto proto_len ++ take (Z.to_nat k) (data xs)), h).
Proof.
  intros Ha A C Hk. pose proof (chain_fuel h p xs Hp) as Hf.
  destruct (partial_loop_ok base xs (fuel_of h) h p acc false acc k (pk_seg _ _ _ Hp) (pk_ok _ _ _ Hp) Hb ltac:(lia) A) as (acc' & sw & w & E & A' & C' & W);
    [by apply ceq_refl, A|apply A|done|]. unfold inet_cksum_pseudo_partial_base, sbind. rewrite E. unfold sret. do 2 f_equal.
  eapply pseudo_rfc1071; try done. by apply Forall_take.
Qed.

Lemma addrs4_ok src dest : is_u32 src -> is_u32 dest ->
  let acc := FOLD_U32T (FOLD_U32T (add_addr (add_addr 0 src) dest)) in is_u16 acc /\ ceq acc (total [src; dest]).
Proof.
  intros Hs Hd. destruct (add_addrs_ok [src] [dest] 0 0) as [C R]; [lia|unfold zlen; cbn; lia|by constructor..|done|by apply ceq_refl|].
  apply fold_addrs; [done|]. cbn [total foldr] in *. replace (src + (dest + 0)) with (0 + (src + 0 + (dest + 0))) by lia. done.
Qed.

Lemma addrs6_ok src dest : Forall is_u32 src -> Forall is_u32 dest -> length src = 4%nat -> length dest = 4%nat ->
  let acc := FOLD_U32T (FOLD_U32T (add_addrs 0 src dest)) in is_u16 acc /\ ceq acc (total (src ++ dest)).
Proof.
  intros Hs Hd Ls Ld. destruct (add_addrs_ok src dest 0 0) as [C R]; [lia|unfold zlen; lia|done|done|congruence|by apply ceq_refl|].
  apply fold_addrs; [done|]. assert (total (src ++ dest) = total src + total dest) as ->; [|done].
  unfold total. rewrite foldr_app. clear. induction src as [|s src IH]; cbn [foldr]; [lia|]. rewrite IH. lia.
Qed.

End packets.

(** C35: the checksums over a packet are right: for every chain of packet buffers, wherever
    its pieces begin and however odd their lengths and addresses, the IPv4 and IPv6
    checksums that go into a UDP or TCP header are the RFC 1071 checksum of the pseudo
    header followed by the data (of its first [k] bytes in the partial variants), and
    [inet_chksum_pbuf] is that of the data alone; no access leaves a buffer. *)
Theorem chksum_packet_correct base h p xs proto proto_len src dest src6 dest6 k :
  packet h p xs -> is_bytes (data xs) -> is_u8 proto -> is_u16 proto_len -> is_u32 src -> is_u32 dest ->
  Forall is_u32 src6 -> Forall is_u32 dest6 -> length src6 = 4%nat -> length dest6 = 4%nat -> 0 <= k < 0x7fff ->
  inet_chksum_pseudo base (fuel_of h) p proto proto_len src dest h =
    Val (rfc1071 (pseudo_header [src; dest] proto proto_len ++ data xs), h) /\
  ip6_chksum_pseudo base (fuel_of h) p proto proto_len src6 dest6 h =
    Val (rfc1071 (pseudo_header (src6 ++ dest6) proto proto_len ++ data xs), h) /\
  inet_chksum_pseudo_partial base (fuel_of h) p proto proto_len k src dest h =
    Val (rfc1071 (pseudo_header [src; dest] proto proto_len ++ take (Z.to_nat k) (data xs)), h) /\
  ip6_chksum_pseudo_partial base (fuel_of h) p proto proto_len k src6 dest6 h =
    Val (rfc1071 (pseudo_header (src6 ++ dest6) proto proto_len ++ take (Z.to_nat k) (data xs)), h) /\
  inet_chksum_pbuf base (fuel_of h) p h = Val (rfc1071 (data xs), h).
Proof.
  intros Hp Hb Hpr Hl Hs Hd Hs6 Hd6 L1 L2 Hk. destruct (addrs4_ok src dest Hs Hd) as [A4 C4].
  destruct (addrs6_ok src6 dest6 Hs6 Hd6 L1 L2) as [A6 C6]. assert (Forall is_u32 [src; dest]) as F4 by (constructor; [done|]; by constructor).
  assert (Forall is_u32 (src6 ++ dest6)) as F6 by (by apply Forall_app).
  split; [by apply (cksum_pseudo_base_ok base h p xs)|]. split; [by apply (cksum_pseudo_base_ok base h p xs)|].
  split; [by apply (cksum_pseudo_partial_base_ok base h p xs)|]. split; [by apply (cksum_pseudo_partial_base_ok base h p xs)|].
  pose proof (chain_fuel h p xs Hp) as Hf.
  destruct (chain_loop_ok base xs (fuel_of h) h p 0 false 0 (pk_seg _ _ _ Hp) (pk_ok _ _ _ Hp) Hb ltac:(lia)) as (acc & sw & w & E & A & C & W);
    [done|by apply ceq_refl|done|]. unfold inet_chksum_pbuf, sbind. rewrite E. unfold sret. do 2 f_equal.
  destruct (unswap acc sw w A C) as [A' C']; [apply W|]. rewrite rfc1071_value by done. unfold is_u16 in A'. rewrite complement_ok by lia. f_equal.
  apply ones_complement_unique; [|lia]. by eapply ceq_trans.
Qed.

Lemma inet_chksum_ok pb l : is_bytes l -> zlen l <= 0xffff -> inet_chksum pb l = rfc1071 l.
Proof.
  intros Hl Hz. unfold inet_chksum. rewrite chksum_ok by first [done|lia]. rewrite rfc1071_value by done.
  destruct (ones_complement_ok (value l)) as [_ R]; [by apply value_nonneg|]. rewrite <- complement_ok by done. do 2 f_equal.
  rewrite land_mask16. symmetry. apply Z.mod_small. lia.
Qed.

(** A header that carries its checksum sums up to zero: whatever the other bytes and
    wherever copy and original lie, storing the checksum of a buffer with a zero field into
    that field, at an even offset, makes the checksum of the buffer zero. *)
Lemma chksum_verifies pb pb' l1 l2 :
  is_bytes l1 -> is_bytes l2 -> Z.odd (zlen l1) = false -> zlen l1 + 2 + zlen l2 <= 0xffff ->
  inet_chksum pb' (l1 ++ le16 (inet_chksum pb (l1 ++ [0; 0] ++ l2)) ++ l2) = 0.
Proof.
  intros H1 H2 Ho Hz. assert (forall x y : Z, is_u8 x -> is_u8 y -> is_bytes (l1 ++ [x; y] ++ l2) /\ zlen (l1 ++ [x; y] ++ l2) <= 0xffff /\
    ceq (value (l1 ++ [x; y] ++ l2)) (value l1 + (x + 256 * y + value l2))) as Hv.
  { intros x y Hx Hy. assert (is_bytes [x; y]) as Bxy by (constructor; [done|]; by constructor). assert (is_bytes ([x; y] ++ l2)) as B by (by apply Forall_app).
    split; [by apply Forall_app|]. split; [rewrite !zlen_app; change (zlen [x; y]) with 2; lia|].
    eapply ceq_trans; [by apply value_behind|]. rewrite Ho. cbn [scale]. apply ceq_add; [by apply ceq_refl, value_nonneg|].
    eapply ceq_trans; [by apply value_behind|]. change (Z.odd (zlen [x; y])) with false. cbn [scale value]. unfold is_u8 in *.
    apply ceq_add; [|by apply ceq_refl, value_nonneg]. replace (x + 256 * (y + 256 * 0)) with (x + 256 * y) by lia. apply ceq_refl. lia. }
  destruct (Hv 0 0) as (B0 & Z0 & C0); [done|done|]. rewrite (inet_chksum_ok pb) by done. set (c := rfc1071 _).
  assert (c = 65535 - ones_complement (value (l1 ++ [0; 0] ++ l2))) as Ec by (by apply rfc1071_value).
  destruct (ones_complement_ok (value (l1 ++ [0; 0] ++ l2))) as [Co Ro]; [by apply value_nonneg|]. set (v0 := value (l1 ++ [0; 0] ++ l2)) in *.
  destruct (Hv (u8 c) (u8 (Z.shiftr c 8))) as (B1 & Z1 & C1); [apply u8_range..|]. fold (le16 c) in *. rewrite inet_chksum_ok, rfc1071_value by done.
  assert (u8 c + 256 * u8 (Z.shiftr c 8) = c) as Es.
  { unfold u8. rewrite Z.shiftr_div_pow2 by lia. change (2 ^ 8) with 256. rewrite (Z.mod_small (c / 256)).
    - pose proof (Z.div_mod c 256 ltac:(lia)). lia.
    - split; [apply Z.div_pos; lia|apply Z.div_lt_upper_bound; lia]. }
  rewrite Es in C1. enough (ones_complement (value (l1 ++ le16 c ++ l2)) = 65535) by lia. symmetry. apply ones_complement_unique; [|lia].
  apply ceq_sym. eapply ceq_trans; [exact C1|]. replace (value l1 + (c + value l2)) with (c + (value l1 + (0 + 256 * 0 + value l2))) by lia.
  eapply ceq_trans; [apply ceq_add; [apply ceq_refl; lia|apply ceq_sym; exact C0]|].
  eapply ceq_trans; [apply ceq_add; [apply ceq_refl; lia|apply ceq_sym; exact Co]|]. rewrite Ec. fold v0.
  replace (65535 - ones_complement v0 + ones_complement v0) with 65535 by lia. apply ceq_refl. lia.
Qed.

(** ** Witnesses *)

Lemma chksum_routines_agree_witness :
  lwip_standard_chksum 7 [1; 2; 3; 4; 5; 6; 7; 8; 9; 10; 255] = ones_complement (word_sum [1; 2; 3; 4; 5; 6; 7; 8; 9; 10; 255]) /\
  lwip_standard_chksum3 7 [1; 2; 3; 4; 5; 6; 7; 8; 9; 10; 255] = ones_complement (word_sum [1; 2; 3; 4; 5; 6; 7; 8; 9; 10; 255]) /\
  (zlen [1; 2; 3; 4; 5; 6; 7; 8; 9; 10; 255] <= 0xffff ->
   lwip_standard_chksum1 [1; 2; 3; 4; 5; 6; 7; 8; 9; 10; 255] = ones_complement (word_sum [1; 2; 3; 4; 5; 6; 7; 8; 9; 10; 255])).
Proof.
  apply (chksum_routines_agree 7 [1; 2; 3; 4; 5; 6; 7; 8; 9; 10; 255]).
  - bytes_concrete.
  - vm_compute. discriminate.
Defined.

Lemma chksum_packet_correct_witness :
  let h := example_heap in let f := fuel_of h in let b := fun a => a + 1 in
  let s6 := [0x120; 0; 0; 1] in let d6 := [0x120; 0; 0; 2] in
  inet_chksum_pseudo b f 64 17 3 0x0100007f 0x0200007f h = Val (rfc1071 (pseudo_header [0x0100007f; 0x0200007f] 17 3 ++ [1; 2; 3]), h) /\
  ip6_chksum_pseudo b f 64 17 3 s6 d6 h = Val (rfc1071 (pseudo_header (s6 ++ d6) 17 3 ++ [1; 2; 3]), h) /\
  inet_chksum_pseudo_partial b f 64 17 3 2 0x0100007f 0x0200007f h = Val (rfc1071 (pseudo_header [0x0100007f; 0x0200007f] 17 3 ++ [1; 2]), h) /\
  ip6_chksum_pseudo_partial b f 64 17 3 2 s6 d6 h = Val (rfc1071 (pseudo_header (s6 ++ d6) 17 3 ++ [1; 2]), h) /\
  inet_chksum_pbuf b f 64 h = Val (rfc1071 [1; 2; 3], h).
Proof.
  apply (chksum_packet_correct (fun a => a + 1) example_heap 64 example_first 17 3 0x0100007f 0x0200007f [0x120; 0; 0; 1] [0x120; 0; 0; 2] 2).
  - exact example_first_packet.
  - bytes_concrete.
  - split; [discriminate|reflexivity].
  - split; [discriminate|reflexivity].
  - split; [discriminate|reflexivity].
  - split; [discriminate|reflexivity].
  - repeat constructor; discriminate.
  - repeat constructor; discriminate.
  - reflexivity.
  - reflexivity.
  - split; [discriminate|reflexivity].
Defined.

End InetChksum.
