(* ===== verification/SliceAllocator.v ===== *)
(** * The memory allocator (third-part/hev-task-system/src/mem/slice)

    [hev_malloc] and [hev_free] of tunnel, sessions and network stack end here: blocks of
    up to 4096 bytes are kept after they are freed, in a stack per size class, and the
    class that was used least recently gives a block back when 1000 are kept.  The blocks
    live at the address of their header in [mem]; the block that a caller gets is behind
    it.  Answers of the system's [malloc] are arguments.  The sizes are those of
    configs.mk. *)

From Stdlib Require Import ZArith Lia.
From stdpp Require Import base list gmap numbers.
From S2P Require Import Prelude HevList.
Import list_basics.list list_relations.list list_monad.list list_misc.list.

Module SliceAllocator.

Definition NULL : Z := 0.
Definition CACHED_SLICE_ALIGN : Z := 64.
Definition MAX_CACHED_SLICE_SIZE : Z := 4096.
Definition MAX_CACHED_SLICE_COUNT : Z := 1000.
Definition MAX_CACHED_SLICE_INDEX : Z := MAX_CACHED_SLICE_SIZE / CACHED_SLICE_ALIGN.

(** [sizeof (HevMemorySlice)]: a pointer and an int, padded. *)
Definition SIZEOF_SLICE : Z := 16.

(** ** Data *)

(** [room]: how many bytes lie behind the header. *)
Record HevMemorySlice := mkSlice { s_next : Z; s_index : Z; room : Z }.

(** [lru_nodes[i]] is the node [i + 1] of a list whose nodes have the fields [prev] and
    [next]; [cached_mslices] is an array of addresses. *)
Record HevMemoryAllocatorSlice := mkAllocator {
  lru : HevList.HevList; lru_nodes : gmap Z HevList.HevListNode;
  cached_count : Z; cached_mslices : list Z; mem : gmap Z HevMemorySlice }.

Definition set_lru (l : HevList.HevList) (n : gmap Z HevList.HevListNode) (a : HevMemoryAllocatorSlice) : HevMemoryAllocatorSlice :=
  mkAllocator l n (cached_count a) (cached_mslices a) (mem a).
Definition set_mem (m : gmap Z HevMemorySlice) (a : HevMemoryAllocatorSlice) : HevMemoryAllocatorSlice :=
  mkAllocator (lru a) (lru_nodes a) (cached_count a) (cached_mslices a) m.
Definition set_cached (k : Z) (c : list Z) (a : HevMemoryAllocatorSlice) : HevMemoryAllocatorSlice :=
  mkAllocator (lru a) (lru_nodes a) k c (mem a).

Definition node_of (i : Z) : Z := i + 1.

(** The head of stack [i]. *)
Definition owner (a : HevMemoryAllocatorSlice) (i : Z) : outcome Z := rd (cached_mslices a) i.

(** ** Operations *)

Definition _hev_memory_allocator_lru_insert (a : HevMemoryAllocatorSlice) (node : Z) : outcome HevMemoryAllocatorSlice :=
  let l := lru a in
  let! h := HevList.set_prev (lru_nodes a) node NULL in
  let! h :=
    (if negb (HevList.head l =? NULL) then
       let! h := HevList.set_next h node (HevList.head l) in
       HevList.set_prev h (HevList.head l) node
     else HevList.set_next h node NULL) in
  Val (set_lru (HevList.mkList node (if HevList.tail l =? NULL then node else HevList.tail l)) h a).

Definition _hev_memory_allocator_lru_remove (a : HevMemoryAllocatorSlice) (node : Z) : outcome HevMemoryAllocatorSlice :=
  let h := lru_nodes a in
  let! n := HevList.load h node in
  let! h := (if negb (HevList.prev n =? NULL) then HevList.set_next h (HevList.prev n) (HevList.next n) else Val h) in
  let! h := (if negb (HevList.next n =? NULL) then HevList.set_prev h (HevList.next n) (HevList.prev n) else Val h) in
  let l := lru a in
  let l := if HevList.head l =? node then HevList.mkList (HevList.next n) (HevList.tail l) else l in
  let l := if HevList.tail l =? node then HevList.mkList (HevList.head l) (HevList.prev n) else l in
  Val (set_lru l h a).

(** [junk] is what the memory of the nodes holds before. *)
Definition hev_memory_allocator_slice_new (junk : gmap Z HevList.HevListNode) : HevMemoryAllocatorSlice :=
  mkAllocator (HevList.mkList NULL NULL) junk 0 (replicate (Z.to_nat MAX_CACHED_SLICE_INDEX) NULL) ∅.

(** [ALIGN_UP (size, CACHED_SLICE_ALIGN)] on a [size_t] *)
Definition align_up (size : Z) : Z := Z.land (u64 (size + CACHED_SLICE_ALIGN - 1)) (Z.lnot (CACHED_SLICE_ALIGN - 1)).

(** The system's [malloc] of a header and [size] bytes: address or [NULL].  The field [next]
    stays as it is until the block is freed, and is not read before. *)
Definition sys_malloc (a : HevMemoryAllocatorSlice) (m index size : Z) : Z * HevMemoryAllocatorSlice :=
  if m =? NULL then (NULL, a)
  else (m + SIZEOF_SLICE, set_mem (<[m := mkSlice NULL index (u64 (SIZEOF_SLICE + size) - SIZEOF_SLICE)]> (mem a)) a).

Definition _hev_memory_allocator_alloc (a : HevMemoryAllocatorSlice) (size m : Z) : outcome (Z * HevMemoryAllocatorSlice) :=
  let size := align_up size in
  let index := i32 (size / CACHED_SLICE_ALIGN) in
  if index =? 0 then Val (NULL, a)
  else if (1 <=? index) && (index <=? MAX_CACHED_SLICE_INDEX) then
    let! slice := owner a (index - 1) in
    if negb (slice =? NULL) then
      let! s := of_option (mem a !! slice) in
      let! c := aset (cached_mslices a) (index - 1) (s_next s) in
      let a := set_cached (u32 (cached_count a - 1)) c a in
      let node := node_of (index - 1) in
      let! a := _hev_memory_allocator_lru_remove a node in
      let! a := (if negb (s_next s =? NULL) then _hev_memory_allocator_lru_insert a node else Val a) in
      Val (slice + SIZEOF_SLICE, a)
    else Val (sys_malloc a m (index - 1) size)
  else Val (sys_malloc a m (-1) size).

(** [free]: giving back what is not allocated is a fault. *)
Definition sys_free (a : HevMemoryAllocatorSlice) (p : Z) : outcome HevMemoryAllocatorSlice :=
  let! _ := of_option (mem a !! p) in Val (set_mem (delete p (mem a)) a).

(** Give back the block on top of the class used least recently. *)
Definition evict (a : HevMemoryAllocatorSlice) : outcome HevMemoryAllocatorSlice :=
  let node := HevList.tail (lru a) in
  let! free_slice := owner a (node - 1) in
  let! s := of_option (mem a !! free_slice) in
  let! c := aset (cached_mslices a) (node - 1) (s_next s) in
  let a := set_cached (u32 (cached_count a - 1)) c a in
  let! a := (if s_next s =? NULL then _hev_memory_allocator_lru_remove a node else Val a) in
  sys_free a free_slice.

Definition _hev_memory_allocator_free (a : HevMemoryAllocatorSlice) (ptr : Z) : outcome HevMemoryAllocatorSlice :=
  let slice := ptr - SIZEOF_SLICE in
  let! s := of_option (mem a !! slice) in
  if s_index s <? 0 then sys_free a slice
  else
    let! a := (if cached_count a >=? MAX_CACHED_SLICE_COUNT then evict a else Val a) in
    let! nx := owner a (s_index s) in
    let a := set_mem (<[slice := mkSlice nx (s_index s) (room s)]> (mem a)) a in
    let! c := aset (cached_mslices a) (s_index s) slice in
    let a := set_cached (u32 (cached_count a + 1)) c a in
    if nx =? NULL then _hev_memory_allocator_lru_insert a (node_of (s_index s)) else Val a.

(** [m] is the answer of the system's [realloc]: [NULL], or where the block is now. *)
Definition _hev_memory_allocator_realloc (a : HevMemoryAllocatorSlice) (ptr size m : Z) : outcome (Z * HevMemoryAllocatorSlice) :=
  if size =? 0 then
    let! a := _hev_memory_allocator_free a ptr in Val (NULL, a)
  else
    let slice := ptr - SIZEOF_SLICE in
    let! s := of_option (mem a !! slice) in
    let size := align_up size in
    let index := i32 (size / CACHED_SLICE_ALIGN) in
    if m =? NULL then Val (NULL, a)
    else
      let index := if (1 <=? index) && (index <=? MAX_CACHED_SLICE_INDEX) then index - 1 else -1 in
      Val (m + SIZEOF_SLICE,
           set_mem (<[m := mkSlice (s_next s) index (u64 (SIZEOF_SLICE + size) - SIZEOF_SLICE)]> (delete slice (mem a))) a).

(** Free a stack; then all of them in the order of the list. *)
Fixpoint free_stack (fuel : nat) (a : HevMemoryAllocatorSlice) (iter : Z) : outcome HevMemoryAllocatorSlice :=
  if iter =? NULL then Val a
  else
    match fuel with
    | O => Fault
    | S fuel =>
        let! s := of_option (mem a !! iter) in
        let! a := sys_free a iter in
        free_stack fuel a (s_next s)
    end.

Fixpoint destroy_loop (fuel : nat) (a : HevMemoryAllocatorSlice) (node : Z) : outcome HevMemoryAllocatorSlice :=
  if node =? NULL then Val a
  else
    match fuel with
    | O => Fault
    | S fuel =>
        let! iter := owner a (node - 1) in
        let! a := free_stack (S (size (mem a))) a iter in
        let! node := HevList.hev_list_node_next (lru_nodes a) node in
        destroy_loop fuel a node
    end.

Definition _hev_memory_allocator_destroy (a : HevMemoryAllocatorSlice) : outcome HevMemoryAllocatorSlice :=
  destroy_loop (S (Z.to_nat MAX_CACHED_SLICE_INDEX)) a (HevList.head (lru a)).

(** [hev_calloc], without the memset *)
Definition hev_calloc (a : HevMemoryAllocatorSlice) (nmemb size m : Z) : outcome (Z * HevMemoryAllocatorSlice) :=
  if (nmemb =? 0) || (size =? 0) then Val (NULL, a)
  else _hev_memory_allocator_alloc a (u64 (size * nmemb)) m.
(** ** The list of classes *)

Lemma dseg_node h pp p xs q qn y : HevList.dseg h pp p xs q qn -> y ∈ xs -> exists r b, h !! y = Some (HevList.mkLNode r b).
Proof.
  intros D (l1 & l2 & ->)%list_elem_of_split. apply HevList.dseg_app in D as (j & jn & _ & D).
  destruct D as (-> & _ & r & E & _). by exists r, j.
Qed.

(** The last node of a segment is the node before it or one of its own. *)
Lemma dseg_end h xs : forall pp p q qn, HevList.dseg h pp p xs q qn -> xs = [] /\ q = pp \/ xs <> [] /\ q ∈ xs.
Proof.
  induction xs as [|x xs IH]; intros pp p q qn; cbn [HevList.dseg]; [intros [_ ->]; by left|].
  intros (-> & _ & r & _ & D). right. split; [done|]. apply IH in D as [[-> ->]|[_ H]]; [left|by right].
Qed.

Lemma lru_insert_ok a xs n o :
  HevList.dlist (lru_nodes a) (lru a) xs -> n ∉ xs -> n <> NULL -> lru_nodes a !! n = Some o ->
  exists l h, _hev_memory_allocator_lru_insert a n = Val (set_lru l h a) /\ HevList.dlist h l (n :: xs) /\
    (forall y, is_Some (lru_nodes a !! y) -> is_Some (h !! y)).
Proof.
  intros [ND D] Hn H0 Eo. unfold _hev_memory_allocator_lru_insert. erewrite HevList.set_prev_ok by done. cbn [obind].
  assert (forall (m : gmap Z HevList.HevListNode) y k v, is_Some (m !! y) -> is_Some (<[k := v]> m !! y)) as Hdom.
  { intros m y k v Hy. destruct (decide (y = k)) as [->|Hne]; [rewrite lookup_insert_eq; by eexists|by rewrite lookup_insert_ne]. }
  destruct xs as [|x xs].
  - destruct D as [Eh Et]. rewrite Eh, <- Et. change (HevList.NULL =? NULL) with true. cbn [negb].
    erewrite HevList.set_next_ok by apply lookup_insert_eq. cbn [obind HevList.prev].
    do 2 eexists. split; [done|]. split; [|auto]. split; [by apply NoDup_singleton|]. cbn. do 2 (split; [done|]). exists NULL. by rewrite lookup_insert_eq.
  - pose proof (dseg_end _ _ _ _ _ _ D) as [[? _]|[_ Hl]]; [done|].
    assert (HevList.tail (lru a) <> NULL) as Ht by (by eapply HevList.dseg_nonnull).
    rewrite (proj2 (Z.eqb_neq _ NULL) Ht).
    destruct D as (Eh & Hx & r & Ex & D). rewrite Eh, (proj2 (Z.eqb_neq x NULL) Hx). cbn [negb].
    assert (n <> x) by (intros ->; apply Hn; left). erewrite HevList.set_next_ok by apply lookup_insert_eq. cbn [obind HevList.prev].
    erewrite HevList.set_prev_ok by (rewrite !lookup_insert_ne by done; exact Ex). cbn [obind HevList.next].
    do 2 eexists. split; [done|]. split; [|auto]. split; [by apply NoDup_cons|]. cbn [HevList.dseg HevList.head HevList.tail].
    do 2 (split; [done|]). exists x. rewrite lookup_insert_ne, lookup_insert_eq by done. split; [done|]. do 2 (split; [done|]).
    exists r. rewrite lookup_insert_eq. split; [done|]. eapply HevList.dseg_frame; [|exact D]. intros y Hy.
    apply NoDup_cons in ND as [Hxn _]. rewrite !lookup_insert_ne; [done|..]; intros ->; [apply Hn; by right|apply Hn; by right|done].
Qed.

(** Unlinking a class is the deletion of [HevList]. *)
Lemma lru_remove_ok a xs n :
  HevList.dlist (lru_nodes a) (lru a) xs -> n ∈ xs ->
  exists l h, _hev_memory_allocator_lru_remove a n = Val (set_lru l h a) /\ HevList.dlist h l (HevList.seq_del xs n) /\
    (forall y, is_Some (lru_nodes a !! y) -> is_Some (h !! y)).
Proof.
  intros D Hn. destruct (HevList.del_ok _ _ _ _ D Hn) as (l & h & E & D' & En & Hf).
  assert (_hev_memory_allocator_lru_remove a n = (let! (l, h) := HevList.hev_list_del (lru a) (lru_nodes a) n in Val (set_lru l h a))) as E2.
  { pose proof Hn as (l1 & l2 & ->)%list_elem_of_split. destruct D as [ND D]. apply HevList.dseg_app in D as (j & jn & D1 & -> & Hn0 & r & Er & D2).
    unfold _hev_memory_allocator_lru_remove, HevList.hev_list_del, HevList.load. rewrite Er. cbn [of_option obind HevList.prev HevList.next].
    assert (n ∉ l1 /\ n ∉ l2) as [N1 N2].
    { apply NoDup_app in ND as (_ & Hd & [N2 _]%NoDup_cons). split; [intros C; apply (Hd n C); left|done]. }
    assert (j = NULL /\ HevList.head (lru a) = n \/ j <> NULL /\ j <> n /\ HevList.head (lru a) <> n /\ exists m, lru_nodes a !! j = Some m) as Hj.
    { destruct (dseg_end _ _ _ _ _ _ D1) as [[-> ->]|[Hne Hj]]; [left; by destruct D1|right].
      split; [exact (HevList.dseg_nonnull _ _ _ _ _ _ _ D1 Hj)|]. split; [by intros ->|]. split.
      - destruct l1 as [|y l1]; [done|]. destruct D1 as (-> & _). intros ->. apply N1. left.
      - destruct (dseg_node _ _ _ _ _ _ _ D1 Hj) as (? & ? & ?). by eexists. }
    assert (r = NULL /\ HevList.tail (lru a) = n \/ r <> NULL /\ r <> n /\ HevList.tail (lru a) <> n /\ exists m, lru_nodes a !! r = Some m) as Hr.
    { destruct l2 as [|y l2]; [destruct D2 as [-> Et]; left; by split|right]. pose proof (dseg_end _ _ _ _ _ _ D2) as [[? _]|[_ Ht]]; [done|].
      destruct D2 as (-> & Hy & r' & Ey & _). split; [done|]. split; [intros ->; apply N2; left|]. split; [intros C; apply N2; by rewrite <- C|by eexists]. }
    destruct Hj as [[-> Eh]|(Hj0 & Hjn & Eh & m & Ej)].
    - rewrite (bool_decide_false (NULL <> HevList.NULL)) by (intros C; by apply C). change (NULL =? NULL) with true. cbn [negb obind]. rewrite Er. cbn [of_option obind HevList.prev HevList.next].
      rewrite Eh, Z.eqb_refl. cbn [HevList.tail HevList.head].
      destruct Hr as [[-> Et]|(Hr0 & Hrn & Et & m & Em)].
      + rewrite bool_decide_false by (intros C; by apply C). change (NULL =? NULL) with true. cbn [negb obind]. by rewrite Et, Z.eqb_refl.
      + rewrite bool_decide_true by done. rewrite (proj2 (Z.eqb_neq r NULL) Hr0), (proj2 (Z.eqb_neq (HevList.tail (lru a)) n) Et). cbn [negb].
        erewrite HevList.set_prev_ok by done. done.
    - rewrite (bool_decide_true (j <> HevList.NULL)) by done. rewrite (proj2 (Z.eqb_neq j NULL) Hj0). cbn [negb].
      erewrite HevList.set_next_ok by done. cbn [obind]. rewrite lookup_insert_ne, Er by done. cbn [of_option obind HevList.prev HevList.next].
      rewrite (proj2 (Z.eqb_neq _ n) Eh).
      destruct Hr as [[-> Et]|(Hr0 & Hrn & Et & k & Ek)].
      + rewrite bool_decide_false by (intros C; by apply C). change (NULL =? NULL) with true. cbn [negb obind]. by rewrite Et, Z.eqb_refl.
      + rewrite bool_decide_true by done. rewrite (proj2 (Z.eqb_neq r NULL) Hr0), (proj2 (Z.eqb_neq (HevList.tail (lru a)) n) Et). cbn [negb].
        by destruct (HevList.set_prev _ _ _). }
  rewrite E2, E. cbn [obind]. exists l, h. split; [done|]. split; [done|]. intros y Hy.
  destruct (decide (y = n)) as [->|Hne]; [by rewrite En|]. destruct (decide (y ∈ xs)) as [Hin|Hin]; [|by rewrite Hf].
  destruct D' as [_ D']. destruct (dseg_node _ _ _ _ _ _ y D') as (? & ? & ->); [by apply list_elem_of_filter|by eexists].
Qed.

(** ** The invariant *)

(** The stack of class [i] from its top. *)
Fixpoint stack (m : gmap Z HevMemorySlice) (i : nat) (st : list Z) : Prop :=
  match st with
  | [] => True
  | p :: st => p <> NULL /\ m !! p = Some (mkSlice (hd NULL st) (Z.of_nat i) (CACHED_SLICE_ALIGN * (Z.of_nat i + 1))) /\ stack m i st
  end.

(** Blocks with their headers do not overlap. *)
Definition apart (m : gmap Z HevMemorySlice) : Prop := forall p q s t,
  m !! p = Some s -> m !! q = Some t -> p <> q -> p + SIZEOF_SLICE + room s <= q \/ q + SIZEOF_SLICE + room t <= p.

(** [cs] are the stacks, [L] the classes whose stack is not empty in the order of their
    last use, [live] the blocks that callers hold, with their sizes. *)
Record alloc_ok (a : HevMemoryAllocatorSlice) (cs : list (list Z)) (L : list Z) (live : gmap Z Z) : Prop := {
  k_len : Z.of_nat (length cs) = MAX_CACHED_SLICE_INDEX;
  k_tops : cached_mslices a = hd NULL <$> cs;
  k_stacks : forall i st, cs !! i = Some st -> stack (mem a) i st;
  k_lru : HevList.dlist (lru_nodes a) (lru a) (node_of <$> L);
  k_classes : forall i, i ∈ L <-> 0 <= i /\ exists p st, cs !! Z.to_nat i = Some (p :: st);
  k_nodes : forall i, 0 <= i < MAX_CACHED_SLICE_INDEX -> is_Some (lru_nodes a !! node_of i);
  k_count : cached_count a = zlen (concat cs);
  k_bound : zlen (concat cs) <= MAX_CACHED_SLICE_COUNT;
  k_nodup : NoDup (concat cs);
  k_live : forall p n, live !! p = Some n <-> exists s, mem a !! (p - SIZEOF_SLICE) = Some s /\ room s = n /\ p - SIZEOF_SLICE ∉ concat cs;
  k_rooms : forall p s, mem a !! p = Some s -> 0 < p /\ (s_index s = -1 /\ MAX_CACHED_SLICE_SIZE < room s \/ 0 <= s_index s < MAX_CACHED_SLICE_INDEX /\ room s = CACHED_SLICE_ALIGN * (s_index s + 1));
  k_apart : apart (mem a);
}.

Lemma apart_sub m m' : apart m -> (forall p s, m' !! p = Some s -> exists t, m !! p = Some t /\ room t = room s) -> apart m'.
Proof. intros A Hs p q s t (s' & Es & <-)%Hs (t' & Et & <-)%Hs Hne. by apply A. Qed.

Lemma slices_frame m m' i st : (forall p, p ∈ st -> m' !! p = m !! p) -> stack m i st -> stack m' i st.
Proof.
  induction st as [|p st IH]; intros Hf; cbn [stack]; [done|]. intros (Hp & Ep & Hs). split; [done|]. split; [by rewrite Hf by left|].
  apply IH; [|done]. intros q Hq. apply Hf. by right.
Qed.

Lemma slices_member m i st p : stack m i st -> p ∈ st -> is_Some (m !! p).
Proof.
  induction st as [|q st IH]; cbn [stack]; [by intros _ ?%elem_of_nil|]. intros (_ & E & Hs) [->|Hp]%elem_of_cons; [by eexists|by apply IH].
Qed.

(** Changing one stack. *)
Lemma concat_split (cs : list (list Z)) i st : cs !! i = Some st -> exists l r, concat cs = l ++ st ++ r /\ forall st', concat (<[i := st']> cs) = l ++ st' ++ r.
Proof.
  revert i. induction cs as [|c cs IH]; intros [|i]; cbn [lookup]; try done.
  - intros [= ->]. exists [], (concat cs). by split.
  - intros (l & r & E & F)%IH. exists (c ++ l), r. cbn [concat list_insert]. split; [by rewrite E, app_assoc|].
    intros st'. change (<[S i := st']> (c :: cs)) with (c :: <[i := st']> cs). cbn [concat]. by rewrite F, app_assoc.
Qed.

Lemma concat_member (cs : list (list Z)) i st p : cs !! i = Some st -> p ∈ st -> p ∈ concat cs.
Proof. intros (l & r & -> & _)%concat_split Hp. set_solver by done. Qed.

(** Two stacks share no block. *)
Lemma stacks_disjoint (cs : list (list Z)) i j st st' p :
  NoDup (concat cs) -> cs !! i = Some st -> cs !! j = Some st' -> p ∈ st -> p ∈ st' -> i = j.
Proof.
  revert i j. induction cs as [|c cs IH]; intros [|i] [|j]; cbn [lookup concat]; try done; intros (_ & Hd & N)%NoDup_app.
  - intros [= ->] Ej Hp Hq. destruct (Hd p Hp). by eapply concat_member.
  - intros Ei [= ->] Hp Hq. destruct (Hd p Hq). by eapply concat_member.
  - intros. f_equal. by eapply IH.
Qed.

(** The cache without the top [p] of stack [i]; [m'] and [live'] tell what became of [p]. *)
Lemma uncache_ok a cs L live i p st l h L' m' live' :
  alloc_ok a cs L live -> cs !! i = Some (p :: st) ->
  HevList.dlist h l (node_of <$> L') -> (forall y, is_Some (lru_nodes a !! y) -> is_Some (h !! y)) ->
  (forall j, j ∈ L' <-> j ∈ L /\ (j <> Z.of_nat i \/ st <> [])) ->
  (forall q, q <> p -> m' !! q = mem a !! q) -> (forall s, m' !! p = Some s -> mem a !! p = Some s) ->
  (forall q n, live' !! q = Some n <-> live !! q = Some n \/ q - SIZEOF_SLICE = p /\ exists s, m' !! p = Some s /\ room s = n) ->
  alloc_ok (mkAllocator l h (u32 (cached_count a - 1)) (<[i := hd NULL st]> (cached_mslices a)) m') (<[i := st]> cs) L' live'.
Proof.
  intros [K1 K2 K3 K4 K5 K6 K7 K8 K9 K10 K11 K12] Ei Hd Hn HL Hm Hp Hlive.
  destruct (concat_split cs i (p :: st) Ei) as (c1 & c2 & Ec & Ec'). specialize (Ec' st).
  assert (concat cs ≡ₚ p :: concat (<[i := st]> cs)) as Hpm by (rewrite Ec, Ec', <- app_comm_cons, <- Permutation_middle; done).
  assert (NoDup (concat (<[i := st]> cs)) /\ p ∉ concat (<[i := st]> cs)) as [N' Np] by (rewrite Hpm in K9; by apply NoDup_cons in K9 as []).
  assert (forall q, q ∈ concat cs <-> q = p \/ q ∈ concat (<[i := st]> cs)) as Hin by (intros q; by rewrite Hpm, elem_of_cons).
  assert (zlen (concat cs) = zlen (concat (<[i := st]> cs)) + 1) as El by (unfold zlen; rewrite Hpm; cbn [length]; lia).
  constructor; cbn [mem lru lru_nodes cached_count cached_mslices]; try done.
  - by rewrite length_insert.
  - by rewrite K2, list_fmap_insert.
  - intros j st' Ej. assert (stack (mem a) j st') as Hs.
    { destruct (decide (j = i)) as [->|Hne]; [|rewrite list_lookup_insert_ne in Ej by done; by apply K3].
      rewrite list_lookup_insert_eq in Ej by (by apply lookup_lt_Some in Ei). injection Ej as <-. by apply K3 in Ei as (_ & _ & ?). }
    eapply slices_frame; [|exact Hs]. intros q Hq. apply Hm. intros ->. apply Np. by eapply concat_member.
  - intros j. rewrite HL, K5. split.
    + intros [(H0 & q & s & E) Hj]. split; [done|]. destruct (decide (Z.to_nat j = i)) as [<-|Hne].
      * rewrite list_lookup_insert_eq by (by apply lookup_lt_Some in Ei). destruct st as [|q' st]; [destruct Hj; [lia|done]|]. by exists q', st.
      * exists q, s. by rewrite list_lookup_insert_ne.
    + intros (H0 & q & s & E). destruct (decide (Z.to_nat j = i)) as [<-|Hne].
      * rewrite list_lookup_insert_eq in E by (by apply lookup_lt_Some in Ei). injection E as ->. split; [|by right]. split; [done|]. by exists p, (q :: s).
      * rewrite list_lookup_insert_ne in E by done. split; [|left; lia]. split; [done|]. by exists q, s.
  - intros j Hj. by apply Hn, K6.
  - rewrite K7, El, u32_id; [lia|]. unfold is_u32, MAX_CACHED_SLICE_COUNT in *. pose proof (zlen_nonneg (concat (<[i := st]> cs))). lia.
  - lia.
  - intros q n. rewrite Hlive, K10. split.
    + intros [(s & Es & Er & Hni)|(<- & s & Es & Er)]; exists s; [|done]. rewrite Hin in Hni. split; [rewrite Hm; [done|tauto]|tauto].
    + intros (s & Es & Er & Hni). destruct (decide (q - SIZEOF_SLICE = p)) as [Eq|Hne]; [right; split; [done|]; exists s; by rewrite <- Eq|].
      left. exists s. rewrite Hm in Es by done. split; [done|]. split; [done|]. rewrite Hin. tauto.
  - intros q s Es. apply K11. destruct (decide (q = p)) as [->|Hne]; [by apply Hp|by rewrite <- Hm].
  - eapply apart_sub; [exact K12|]. intros q s Es. exists s. split; [|done]. destruct (decide (q = p)) as [->|Hne]; [by apply Hp|by rewrite <- Hm].
Qed.

(** A live block [p] of class [i] goes onto its stack. *)
Lemma tocache_ok a cs L live i p st l h L' s :
  alloc_ok a cs L live -> cs !! i = Some st -> mem a !! p = Some s -> p ∉ concat cs -> s_index s = Z.of_nat i ->
  HevList.dlist h l (node_of <$> L') -> (forall y, is_Some (lru_nodes a !! y) -> is_Some (h !! y)) ->
  (forall j, j ∈ L' <-> j ∈ L \/ j = Z.of_nat i) -> zlen (concat cs) < MAX_CACHED_SLICE_COUNT ->
  alloc_ok (mkAllocator l h (u32 (cached_count a + 1)) (<[i := p]> (cached_mslices a)) (<[p := mkSlice (hd NULL st) (s_index s) (room s)]> (mem a)))
    (<[i := p :: st]> cs) L' (delete (p + SIZEOF_SLICE) live).
Proof.
  intros [K1 K2 K3 K4 K5 K6 K7 K8 K9 K10 K11 K12] Ei Es Hp Hi Hd Hn HL Hb.
  destruct (concat_split cs i st Ei) as (c1 & c2 & Ec & Ec'). specialize (Ec' (p :: st)).
  assert (concat (<[i := p :: st]> cs) ≡ₚ p :: concat cs) as Hpm by (rewrite Ec, Ec', <- app_comm_cons, <- Permutation_middle; done).
  assert (forall q, q ∈ concat (<[i := p :: st]> cs) <-> q = p \/ q ∈ concat cs) as Hin by (intros q; by rewrite Hpm, elem_of_cons).
  assert (zlen (concat (<[i := p :: st]> cs)) = zlen (concat cs) + 1) as El by (unfold zlen; rewrite Hpm; cbn [length]; lia).
  destruct (K11 p s Es) as [Hp0 [Hr|[Hr Er]]]; [lia|]. pose proof (lookup_lt_Some _ _ _ Ei) as Hlt.
  constructor; cbn [mem lru lru_nodes cached_count cached_mslices]; try done.
  - by rewrite length_insert.
  - by rewrite K2, list_fmap_insert.
  - assert (forall j st', cs !! j = Some st' -> stack (<[p := mkSlice (hd NULL st) (s_index s) (room s)]> (mem a)) j st') as Hold.
    { intros j st' Ej. eapply slices_frame; [|by apply K3]. intros q Hq. rewrite lookup_insert_ne; [done|]. intros ->. apply Hp. by eapply concat_member. }
    intros j st' Ej. destruct (decide (j = i)) as [->|Hne]; [|rewrite list_lookup_insert_ne in Ej by done; by apply Hold].
    rewrite list_lookup_insert_eq in Ej by done. injection Ej as <-. split; [unfold NULL; lia|]. rewrite lookup_insert_eq. split; [|by apply Hold]. by rewrite Er, Hi.
  - intros j. rewrite HL, K5. split.
    + intros [(H0 & q & s' & E)| ->].
      * split; [done|]. destruct (decide (Z.to_nat j = i)) as [<-|Hne]; [|exists q, s'; by rewrite list_lookup_insert_ne].
        rewrite list_lookup_insert_eq by done. by exists p, st.
      * split; [lia|]. rewrite Nat2Z.id, list_lookup_insert_eq by done. by exists p, st.
    + intros (H0 & q & s' & E). destruct (decide (Z.to_nat j = i)) as [<-|Hne]; [right; lia|].
      rewrite list_lookup_insert_ne in E by done. left. split; [done|]. by exists q, s'.
  - intros j Hj. by apply Hn, K6.
  - rewrite K7, El, u32_id; [done|]. unfold is_u32, MAX_CACHED_SLICE_COUNT in *. pose proof (zlen_nonneg (concat cs)). lia.
  - lia.
  - rewrite Hpm. by apply NoDup_cons.
  - intros q n. rewrite lookup_delete_Some, K10. destruct (decide (q - SIZEOF_SLICE = p)) as [Eq|Hne].
    + split; [intros [Hq _]; destruct Hq; lia|]. intros (t & _ & _ & Hni). rewrite Hin in Hni. tauto.
    + rewrite lookup_insert_ne by done. setoid_rewrite Hin. split.
      * intros [_ (t & Et & Er' & Hni)]. exists t. tauto.
      * intros (t & Et & Er' & Hni). split; [lia|]. exists t. tauto.
  - intros q t Et. destruct (decide (q = p)) as [->|Hne].
    + rewrite lookup_insert_eq in Et. injection Et as <-. split; [done|]. by right.
    + rewrite lookup_insert_ne in Et by done. by apply K11.
  - eapply apart_sub; [exact K12|]. intros q t Et. destruct (decide (q = p)) as [->|Hne].
    + rewrite lookup_insert_eq in Et. injection Et as <-. by exists s.
    + rewrite lookup_insert_ne in Et by done. by exists t.
Qed.

(** ** Operations keep it *)

Lemma align_up_ok size : 0 <= size -> size + 63 < 2 ^ 64 -> align_up size = 64 * ((size + 63) / 64).
Proof.
  intros H0 Hs. unfold align_up, CACHED_SLICE_ALIGN. replace (size + 64 - 1) with (size + 63) by lia. rewrite u64_id by lia.
  change (64 - 1) with (Z.ones 6). rewrite <- Z.ldiff_land, Z.ldiff_ones_r by lia.
  rewrite Z.shiftl_mul_pow2, Z.shiftr_div_pow2 by lia. change (2 ^ 6) with 64. lia.
Qed.

(** Requests whose number of units fits an [int]. *)
Definition sane (size : Z) : Prop := 0 <= size <= 64 * INT_MAX.

Lemma owner_ok a cs L live i st : alloc_ok a cs L live -> cs !! i = Some st -> owner a (Z.of_nat i) = Val (hd NULL st).
Proof. intros K Ei. unfold owner. apply rd_lookup; [lia|]. rewrite Nat2Z.id, (k_tops _ _ _ _ K), list_lookup_fmap, Ei. done. Qed.

Lemma tops_set a cs L live i v : alloc_ok a cs L live -> (i < length cs)%nat -> aset (cached_mslices a) (Z.of_nat i) v = Val (<[i := v]> (cached_mslices a)).
Proof. intros K Hi. rewrite aset_ok; [by rewrite Nat2Z.id|]. unfold zlen. rewrite (k_tops _ _ _ _ K), length_fmap. lia. Qed.

Lemma class_in a cs L live i p st : alloc_ok a cs L live -> cs !! i = Some (p :: st) -> Z.of_nat i ∈ L.
Proof. intros K Ei. apply (k_classes _ _ _ _ K). split; [lia|]. rewrite Nat2Z.id. by exists p, st. Qed.

Lemma class_range a cs L live i : alloc_ok a cs L live -> i ∈ L -> 0 <= i < MAX_CACHED_SLICE_INDEX.
Proof. intros K (H0 & p & st & E)%(k_classes _ _ _ _ K). apply lookup_lt_Some in E. rewrite <- (k_len _ _ _ _ K). lia. Qed.

Lemma node_in (L : list Z) i : node_of i ∈ node_of <$> L <-> i ∈ L.
Proof.
  rewrite list_elem_of_fmap. unfold node_of. split; [intros (j & E & Hj); by replace i with j by lia|]. intros Hi. by exists i.
Qed.

Lemma seq_del_nodes L i : HevList.seq_del (node_of <$> L) (node_of i) = node_of <$> filter (fun j => j <> i) L.
Proof.
  unfold HevList.seq_del. induction L as [|j L IH]; [done|]. cbn [fmap list_fmap]. rewrite !filter_cons. unfold node_of at 1.
  destruct (decide (j + 1 <> node_of i)) as [H|H], (decide (j <> i)) as [H'|H']; unfold node_of in H; try lia; [|by rewrite IH].
  cbn [fmap list_fmap]. by rewrite <- IH.
Qed.

(** Unlinking the class [i] whose stack is not empty. *)
Lemma unlink_class a cs L live a' i : alloc_ok a cs L live -> i ∈ L -> lru a' = lru a -> lru_nodes a' = lru_nodes a ->
  exists l h, _hev_memory_allocator_lru_remove a' (node_of i) = Val (set_lru l h a') /\
    HevList.dlist h l (node_of <$> filter (fun j => j <> i) L) /\ (forall y, is_Some (lru_nodes a !! y) -> is_Some (h !! y)).
Proof.
  intros K Hi E1 E2. destruct (lru_remove_ok a' (node_of <$> L) (node_of i)) as (l & h & E & D & N).
  - rewrite E1, E2. apply (k_lru _ _ _ _ K).
  - by apply node_in.
  - exists l, h. rewrite <- seq_del_nodes, <- E2. done.
Qed.

Lemma concat_pos (cs : list (list Z)) : 0 < zlen (concat cs) -> exists i p st, cs !! i = Some (p :: st).
Proof.
  induction cs as [|[|p st] cs IH]; cbn [concat app]; [done| |intros _; by exists 0%nat, p, st].
  intros (i & q & s & E)%IH. by exists (S i), q, s.
Qed.

Lemma tail_class a cs L live : alloc_ok a cs L live -> 0 < zlen (concat cs) ->
  exists i p st, HevList.tail (lru a) = node_of (Z.of_nat i) /\ cs !! i = Some (p :: st).
Proof.
  intros K (j & q & s & Ej)%concat_pos. pose proof (k_lru _ _ _ _ K) as [_ D]. destruct (dseg_end _ _ _ _ _ _ D) as [[EL _]|[_ Hin]].
  - apply fmap_nil_inv in EL. pose proof (class_in _ _ _ _ _ _ _ K Ej) as Hj. rewrite EL in Hj. by apply elem_of_nil in Hj.
  - apply list_elem_of_fmap in Hin as (i & Et & Hi). apply (k_classes _ _ _ _ K) in Hi as (H0 & p & st & Ei).
    exists (Z.to_nat i), p, st. by rewrite Z2Nat.id.
Qed.

Lemma evict_ok a cs L live : alloc_ok a cs L live -> 0 < zlen (concat cs) ->
  exists a' cs' L', evict a = Val a' /\ alloc_ok a' cs' L' live /\ zlen (concat cs') = zlen (concat cs) - 1 /\
    (forall q, q ∉ concat cs -> q ∉ concat cs' /\ mem a' !! q = mem a !! q).
Proof.
  intros K Hpos. unfold evict. destruct (tail_class a cs L live K Hpos) as (i & p & st & Et & Ei). rewrite Et. unfold node_of at 1 2.
  replace (Z.of_nat i + 1 - 1) with (Z.of_nat i) by lia. rewrite (owner_ok _ _ _ _ _ _ K Ei). cbn [obind hd].
  destruct (k_stacks _ _ _ _ K i (p :: st) Ei) as (Hp0 & Ep & Hs). rewrite Ep. cbn [of_option obind s_next].
  pose proof (lookup_lt_Some _ _ _ Ei) as Hlt. rewrite (tops_set _ _ _ _ _ _ K Hlt). cbn [obind].
  set (a1 := set_cached _ _ _). pose proof (class_in _ _ _ _ _ _ _ K Ei) as Hi.
  assert (exists l h L', (if hd NULL st =? NULL then _hev_memory_allocator_lru_remove a1 (node_of (Z.of_nat i)) else Val a1) = Val (set_lru l h a1) /\
    HevList.dlist h l (node_of <$> L') /\ (forall y, is_Some (lru_nodes a !! y) -> is_Some (h !! y)) /\
    (forall j, j ∈ L' <-> j ∈ L /\ (j <> Z.of_nat i \/ st <> []))) as (l & h & L' & -> & D & N & HL).
  { destruct st as [|q st].
    - destruct (unlink_class a cs L live a1 (Z.of_nat i) K Hi eq_refl eq_refl) as (l & h & E & D & N). exists l, h, (filter (fun j => j <> Z.of_nat i) L).
      split; [done|]. split; [done|]. split; [done|]. intros j. rewrite list_elem_of_filter. tauto.
    - cbn [hd]. destruct Hs as (Hq & _). rewrite (proj2 (Z.eqb_neq q NULL) Hq). exists (lru a1), (lru_nodes a1), L. split; [by destruct a1|].
      split; [apply (k_lru _ _ _ _ K)|]. split; [done|]. intros j. split; [intros; split; [done|by right]|tauto]. }
  cbn [obind]. unfold sys_free. cbn [mem set_lru a1 set_cached]. rewrite Ep. cbn [of_option obind].
  eexists _, (<[i := st]> cs), L'. split; [done|]. destruct (concat_split cs i (p :: st) Ei) as (c1 & c2 & Ec & Ec'). split.
  - apply (uncache_ok a cs L live i p st l h L' (delete p (mem a)) live K Ei D N HL).
    + intros q Hq. by rewrite lookup_delete_ne.
    + by rewrite lookup_delete_eq.
    + intros q n. rewrite lookup_delete_eq. split; [by left|]. by intros [|(_ & s & [=] & _)].
  - rewrite Ec, Ec'. split; [unfold zlen; rewrite !length_app; cbn [length]; lia|]. intros q Hq. split; [set_solver by done|].
    cbn [mem set_mem set_lru]. rewrite lookup_delete_ne; [done|]. intros ->. apply Hq. set_solver by done.
Qed.

Lemma concat_inv (cs : list (list Z)) p : p ∈ concat cs -> exists i st, cs !! i = Some st /\ p ∈ st.
Proof.
  induction cs as [|c cs IH]; cbn [concat]; [by intros ?%elem_of_nil|]. intros [Hp|Hp]%elem_of_app; [by exists 0%nat, c|].
  destruct (IH Hp) as (i & st & E & H). by exists (S i), st.
Qed.

(** An answer of the system for [n] bytes: no memory, or a place away from all blocks. *)
Definition fresh (b : gmap Z HevMemorySlice) (m n : Z) : Prop :=
  m = NULL \/ 0 < m /\ b !! m = None /\ forall q t, b !! q = Some t -> m + n <= q \/ q + SIZEOF_SLICE + room t <= m.

Definition units (size : Z) : Z := (size + CACHED_SLICE_ALIGN - 1) / CACHED_SLICE_ALIGN.
Definition round (size : Z) : Z := CACHED_SLICE_ALIGN * units size.

(** A block that was not there becomes live. *)
Lemma add_block a cs L live m nx ix n :
  alloc_ok a cs L live -> m <> NULL -> fresh (mem a) m (SIZEOF_SLICE + n) ->
  ix = -1 /\ MAX_CACHED_SLICE_SIZE < n \/ 0 <= ix < MAX_CACHED_SLICE_INDEX /\ n = CACHED_SLICE_ALIGN * (ix + 1) ->
  alloc_ok (set_mem (<[m := mkSlice nx ix n]> (mem a)) a) cs L (<[m + SIZEOF_SLICE := n]> live) /\ 0 < m /\ live !! (m + SIZEOF_SLICE) = None.
Proof.
  intros [K1 K2 K3 K4 K5 K6 K7 K8 K9 K10 K11 K12] Hm0 [|(Hm & Em & Hf)] Hix; [done|].
  assert (m ∉ concat cs) as Hnc.
  { intros (i & st & Ei & Hin)%concat_inv. apply K3 in Ei. destruct (slices_member _ _ _ _ Ei Hin). congruence. }
  assert (live !! (m + SIZEOF_SLICE) = None) as Hl.
  { destruct (live !! (m + SIZEOF_SLICE)) as [k|] eqn:E; [|done]. apply K10 in E as (s & Es & _). replace (m + SIZEOF_SLICE - SIZEOF_SLICE) with m in Es by lia. congruence. }
  split; [|done]. constructor; cbn [mem lru lru_nodes cached_count cached_mslices set_mem]; try done.
  - intros i st Ei. eapply slices_frame; [|by apply K3]. intros p Hp. rewrite lookup_insert_ne; [done|]. intros ->. apply Hnc. by eapply concat_member.
  - intros p k. destruct (decide (p = m + SIZEOF_SLICE)) as [->|Hne].
    + replace (m + SIZEOF_SLICE - SIZEOF_SLICE) with m by lia. rewrite !lookup_insert_eq. split; [intros [= <-]; by eexists|]. by intros (s & [= <-] & <- & _).
    + rewrite (lookup_insert_ne live) by done. rewrite K10. rewrite lookup_insert_ne by lia. done.
  - intros p s. destruct (decide (p = m)) as [->|Hne]; [rewrite lookup_insert_eq; by intros [= <-]|]. rewrite lookup_insert_ne by done. apply K11.
  - intros p q s t. destruct (decide (p = m)) as [->|Hp], (decide (q = m)) as [->|Hq]; rewrite ?lookup_insert_eq, ?lookup_insert_ne by done; [done|..|by apply K12].
    + intros [= <-] Et _. cbn [room]. destruct (Hf q t Et); lia.
    + intros Es [= <-] _. cbn [room]. destruct (Hf p s Es); lia.
Qed.

(** A live block disappears. *)
Lemma drop_block a cs L live p s : alloc_ok a cs L live -> mem a !! p = Some s -> p ∉ concat cs ->
  alloc_ok (set_mem (delete p (mem a)) a) cs L (delete (p + SIZEOF_SLICE) live).
Proof.
  intros [K1 K2 K3 K4 K5 K6 K7 K8 K9 K10 K11 K12] Ep Hp. constructor; cbn [mem lru lru_nodes cached_count cached_mslices set_mem]; try done.
  - intros i st Ei. eapply slices_frame; [|by apply K3]. intros q Hq. rewrite lookup_delete_ne; [done|]. intros ->. apply Hp. by eapply concat_member.
  - intros q n. rewrite lookup_delete_Some, K10. setoid_rewrite lookup_delete_Some. split.
    + intros [Hq (t & Et & Hr)]. exists t. split; [|done]. split; [lia|done].
    + intros (t & [Hq Et] & Hr). split; [lia|]. by exists t.
  - intros q t [_ Et]%lookup_delete_Some. by apply K11.
  - eapply apart_sub; [exact K12|]. intros q t [_ Et]%lookup_delete_Some. by exists t.
Qed.

(** What an allocation returns. *)
Definition allocated (live : gmap Z Z) (size m p : Z) (live' : gmap Z Z) : Prop :=
  p = NULL /\ live' = live /\ (size = 0 \/ m = NULL) \/
  p <> NULL /\ live !! p = None /\ 0 < size /\ live' = <[p := round size]> live.

Lemma sane_units size : sane size -> align_up size = round size /\ i32 (round size / CACHED_SLICE_ALIGN) = units size /\
  0 <= units size <= INT_MAX /\ size <= round size /\ (units size = 0 <-> size = 0).
Proof.
  unfold sane, INT_MAX. intros Hs. assert (units size = (size + 63) / 64) as Eu by (unfold units, CACHED_SLICE_ALIGN; f_equal; lia).
  assert (round size = 64 * units size) as Er by done. rewrite Er, align_up_ok by lia. rewrite <- Eu.
  unfold CACHED_SLICE_ALIGN. rewrite (Z.mul_comm 64), Z.div_mul by lia.
  pose proof (Z.div_mod (size + 63) 64 ltac:(lia)). pose proof (Z.mod_pos_bound (size + 63) 64 ltac:(lia)). rewrite <- Eu in H.
  split; [done|]. split; [apply i32_id; unfold is_i32, INT_MIN, INT_MAX; lia|]. lia.
Qed.

(** The class of a block of [k] units, [-1] for a block that is not cached. *)
Definition class_of (k : Z) : Z := if k <=? MAX_CACHED_SLICE_INDEX then k - 1 else -1.

Lemma sys_malloc_ok a cs L live m size : alloc_ok a cs L live -> sane size -> size <> 0 -> fresh (mem a) m (SIZEOF_SLICE + round size) ->
  exists p a' live', sys_malloc a m (class_of (units size)) (round size) = (p, a') /\ alloc_ok a' cs L live' /\ allocated live size m p live'.
Proof.
  intros K Hs H0 Hf. unfold sys_malloc. destruct (Z.eqb_spec m NULL) as [->|Hm].
  { exists NULL, a, live. split; [done|]. split; [done|]. left. split; [done|]. split; [done|by right]. }
  destruct (sane_units size Hs) as (_ & _ & Hk & Hsz & Hu). assert (round size = 64 * units size) as Er by done.
  rewrite u64_id by (unfold SIZEOF_SLICE, INT_MAX in *; lia).
  replace (SIZEOF_SLICE + round size - SIZEOF_SLICE) with (round size) by lia.
  destruct (add_block a cs L live m NULL (class_of (units size)) (round size) K Hm Hf) as (K' & Hm' & Hl).
  { unfold class_of. destruct (Z.leb_spec (units size) MAX_CACHED_SLICE_INDEX) as [Hc|Hc]; rewrite Er; unfold CACHED_SLICE_ALIGN; [right; lia|left].
    change MAX_CACHED_SLICE_INDEX with 64 in Hc. unfold MAX_CACHED_SLICE_SIZE. lia. }
  eexists _, _, _. split; [done|]. split; [exact K'|]. right. split; [unfold NULL, SIZEOF_SLICE; lia|]. split; [done|]. unfold sane in Hs. split; [lia|done].
Qed.

(** The cached block on top of stack [i] becomes live. *)
Lemma reuse_ok a cs L live i p st : alloc_ok a cs L live -> cs !! i = Some (p :: st) ->
  exists a' L', (let! s := of_option (mem a !! p) in
     let! c := aset (cached_mslices a) (Z.of_nat i) (s_next s) in
     let a := set_cached (u32 (cached_count a - 1)) c a in
     let node := node_of (Z.of_nat i) in
     let! a := _hev_memory_allocator_lru_remove a node in
     let! a := (if negb (s_next s =? NULL) then _hev_memory_allocator_lru_insert a node else Val a) in
     Val (p + SIZEOF_SLICE, a)) = Val (p + SIZEOF_SLICE, a') /\
    alloc_ok a' (<[i := st]> cs) L' (<[p + SIZEOF_SLICE := CACHED_SLICE_ALIGN * (Z.of_nat i + 1)]> live) /\
    live !! (p + SIZEOF_SLICE) = None /\ 0 < p.
Proof.
  intros K Ei. destruct (k_stacks _ _ _ _ K i (p :: st) Ei) as (Hp0 & Ep & Hs). rewrite Ep. cbn [of_option obind s_next].
  pose proof (lookup_lt_Some _ _ _ Ei) as Hlt. rewrite (tops_set _ _ _ _ _ _ K Hlt). cbn [obind].
  set (a1 := set_cached _ _ _). pose proof (class_in _ _ _ _ _ _ _ K Ei) as Hi.
  destruct (unlink_class a cs L live a1 (Z.of_nat i) K Hi eq_refl eq_refl) as (l & h & -> & D & N). cbn [obind].
  assert (exists l' h' L', (if negb (hd NULL st =? NULL) then _hev_memory_allocator_lru_insert (set_lru l h a1) (node_of (Z.of_nat i)) else Val (set_lru l h a1)) =
      Val (set_lru l' h' a1) /\
    HevList.dlist h' l' (node_of <$> L') /\ (forall y, is_Some (lru_nodes a !! y) -> is_Some (h' !! y)) /\
    (forall j, j ∈ L' <-> j ∈ L /\ (j <> Z.of_nat i \/ st <> []))) as (l' & h' & L' & -> & D' & N' & HL).
  { destruct st as [|q st].
    - exists l, h, (filter (fun j => j <> Z.of_nat i) L). split; [done|]. split; [done|]. split; [done|]. intros j. rewrite list_elem_of_filter. tauto.
    - cbn [hd]. destruct Hs as (Hq & _). rewrite (proj2 (Z.eqb_neq q NULL) Hq). cbn [negb].
      destruct (N (node_of (Z.of_nat i))) as [o Eo]; [apply (k_nodes _ _ _ _ K); by eapply class_range|].
      destruct (lru_insert_ok (set_lru l h a1) (node_of <$> filter (fun j => j <> Z.of_nat i) L) (node_of (Z.of_nat i)) o D) as (l' & h' & E & D' & N').
      + rewrite node_in, list_elem_of_filter. tauto.
      + unfold node_of, NULL. lia.
      + exact Eo.
      + exists l', h', (Z.of_nat i :: filter (fun j => j <> Z.of_nat i) L). split; [done|]. split; [done|]. split; [auto|].
        intros j. rewrite elem_of_cons, list_elem_of_filter. split.
        * intros [->|[Hne Hj]]; [split; [done|by right]|split; [done|by left]].
        * intros [Hj _]. destruct (decide (j = Z.of_nat i)); [by left|by right]. }
  cbn [obind]. eexists _, L'. split; [done|]. destruct (k_rooms _ _ _ _ K p _ Ep) as [Hp _].
  assert (live !! (p + SIZEOF_SLICE) = None) as Hl.
  { destruct (live !! (p + SIZEOF_SLICE)) as [k|] eqn:E; [|done]. apply (k_live _ _ _ _ K) in E as (s & _ & _ & Hni).
    replace (p + SIZEOF_SLICE - SIZEOF_SLICE) with p in Hni by lia. destruct Hni. eapply concat_member; [exact Ei|left]. }
  split; [|done]. apply (uncache_ok a cs L live i p st l' h' L' (mem a) _ K Ei D' N' HL); [done|done|].
  intros q n. destruct (decide (q = p + SIZEOF_SLICE)) as [->|Hne].
  - rewrite lookup_insert_eq, Hl, Ep. split; [intros [= <-]; right; split; [lia|]; by eexists|]. intros [|(_ & s & [= <-] & <-)]; done.
  - rewrite lookup_insert_ne by done. split; [by left|]. intros [|(E & _)]; [done|lia].
Qed.

Lemma alloc_op_ok a cs L live size m : alloc_ok a cs L live -> sane size -> fresh (mem a) m (SIZEOF_SLICE + round size) ->
  exists p a' cs' L' live', _hev_memory_allocator_alloc a size m = Val (p, a') /\ alloc_ok a' cs' L' live' /\ allocated live size m p live'.
Proof.
  intros K Hs Hf. unfold _hev_memory_allocator_alloc. destruct (sane_units size Hs) as (Ea & Ek & Hk & Hsz & H0). cbv zeta. rewrite Ea, Ek.
  destruct (Z.eqb_spec (units size) 0) as [E0|Hk0].
  { exists NULL, a, cs, L, live. split; [done|]. split; [done|]. left. split; [done|]. split; [done|]. left. by apply H0. }
  destruct (sys_malloc_ok a cs L live m size K Hs ltac:(tauto) Hf) as (p & a' & live' & Em & K' & A). unfold class_of in Em.
  destruct (Z.leb_spec 1 (units size)); [|lia]. cbn [andb]. destruct (Z.leb_spec (units size) MAX_CACHED_SLICE_INDEX) as [Hc|Hc]; [|rewrite Em; by exists p, a', cs, L, live'].
  assert (exists i st, units size - 1 = Z.of_nat i /\ cs !! i = Some st) as (i & st & Ei & Es).
  { destruct (lookup_lt_is_Some_2 cs (Z.to_nat (units size - 1))) as [st Est]; [rewrite <- (k_len _ _ _ _ K) in Hc; lia|]. exists (Z.to_nat (units size - 1)), st. split; [lia|done]. }
  rewrite Ei in *. rewrite (owner_ok _ _ _ _ _ _ K Es). cbn [obind]. destruct st as [|q st]; cbn [hd].
  - change (NULL =? NULL) with true. cbn [negb]. rewrite Em. by exists p, a', cs, L, live'.
  - destruct (k_stacks _ _ _ _ K i _ Es) as (Hq & _). rewrite (proj2 (Z.eqb_neq q NULL) Hq). cbn [negb].
    destruct (reuse_ok a cs L live i q st K Es) as (a2 & L2 & E & K2 & Hl & Hq'). cbv zeta in E. rewrite E. eexists _, a2, _, L2, _. split; [done|]. split; [exact K2|].
    right. split; [unfold NULL, SIZEOF_SLICE; lia|]. split; [done|]. unfold sane in Hs. split; [lia|]. unfold round. do 3 f_equal. lia.
Qed.

(** Below the bound of the cache, whether or not a block had to go. *)
Lemma make_room a cs L live : alloc_ok a cs L live ->
  exists a' cs' L', (if cached_count a >=? MAX_CACHED_SLICE_COUNT then evict a else Val a) = Val a' /\ alloc_ok a' cs' L' live /\
    zlen (concat cs') < MAX_CACHED_SLICE_COUNT /\ (forall q, q ∉ concat cs -> q ∉ concat cs' /\ mem a' !! q = mem a !! q).
Proof.
  intros K. pose proof (k_bound _ _ _ _ K). rewrite (k_count _ _ _ _ K), Z.geb_leb. destruct (Z.leb_spec MAX_CACHED_SLICE_COUNT (zlen (concat cs))).
  - destruct (evict_ok a cs L live K) as (a' & cs' & L' & E & K' & El & Hf); [unfold MAX_CACHED_SLICE_COUNT in *; lia|].
    exists a', cs', L'. split; [done|]. split; [done|]. split; [lia|done].
  - by exists a, cs, L.
Qed.

(** The freed block [slice] of class [i] becomes the top of its stack. *)
Lemma cache_ok a cs L live slice s i : alloc_ok a cs L live -> mem a !! slice = Some s -> slice ∉ concat cs -> s_index s = Z.of_nat i ->
  zlen (concat cs) < MAX_CACHED_SLICE_COUNT ->
  exists a' st L', (let! nx := owner a (s_index s) in
     let a := set_mem (<[slice := mkSlice nx (s_index s) (room s)]> (mem a)) a in
     let! c := aset (cached_mslices a) (s_index s) slice in
     let a := set_cached (u32 (cached_count a + 1)) c a in
     if nx =? NULL then _hev_memory_allocator_lru_insert a (node_of (s_index s)) else Val a) = Val a' /\
    alloc_ok a' (<[i := slice :: st]> cs) L' (delete (slice + SIZEOF_SLICE) live) /\ (i < length cs)%nat.
Proof.
  intros K Es Hni Ei Hb. destruct (k_rooms _ _ _ _ K _ _ Es) as [_ [Hx|[Hx _]]]; [lia|].
  assert (i < length cs)%nat as Hlt by (pose proof (k_len _ _ _ _ K); lia). destruct (lookup_lt_is_Some_2 cs i Hlt) as [st Est].
  rewrite Ei, (owner_ok _ _ _ _ _ _ K Est). cbn [obind]. cbv zeta. cbn [set_mem cached_mslices cached_count]. rewrite (tops_set _ _ _ _ _ _ K Hlt). cbn [obind].
  set (a1 := set_cached _ _ _). rewrite <- Ei in *.
  assert (exists l h L', (if hd NULL st =? NULL then _hev_memory_allocator_lru_insert a1 (node_of (s_index s)) else Val a1) = Val (set_lru l h a1) /\
    HevList.dlist h l (node_of <$> L') /\ (forall y, is_Some (lru_nodes a !! y) -> is_Some (h !! y)) /\
    (forall j, j ∈ L' <-> j ∈ L \/ j = Z.of_nat i)) as (l & h & L' & -> & D & N & HL).
  { destruct st as [|q st]; cbn [hd].
    - change (NULL =? NULL) with true. destruct (k_nodes _ _ _ _ K (s_index s) Hx) as [o Eo].
      destruct (lru_insert_ok a1 (node_of <$> L) (node_of (s_index s)) o (k_lru _ _ _ _ K)) as (l & h & E & D & N).
      + rewrite node_in. intros (_ & q & t & Eq)%(k_classes _ _ _ _ K). rewrite Ei, Nat2Z.id in Eq. congruence.
      + unfold node_of, NULL. lia.
      + done.
      + exists l, h, (s_index s :: L). split; [done|]. split; [done|]. split; [done|]. intros j. rewrite elem_of_cons, Ei. tauto.
    - destruct (k_stacks _ _ _ _ K i _ Est) as (Hq & _). rewrite (proj2 (Z.eqb_neq q NULL) Hq). exists (lru a1), (lru_nodes a1), L.
      split; [by destruct a1|]. split; [apply (k_lru _ _ _ _ K)|]. split; [done|]. intros j. split; [by left|]. intros [Hj| ->]; [done|]. by eapply class_in. }
  eexists _, st, L'. split; [done|]. split; [|done]. pose proof (tocache_ok a cs L live i slice st l h L' s K Est Es Hni Ei D N HL Hb) as P. rewrite Ei in P. exact P.
Qed.

Lemma free_op_ok a cs L live ptr n : alloc_ok a cs L live -> live !! ptr = Some n ->
  exists a' cs' L', _hev_memory_allocator_free a ptr = Val a' /\ alloc_ok a' cs' L' (delete ptr live) /\
    (forall s i, mem a !! (ptr - SIZEOF_SLICE) = Some s -> s_index s = Z.of_nat i -> exists st, cs' !! i = Some (ptr - SIZEOF_SLICE :: st)).
Proof.
  intros K (s & Es & Er & Hni)%(k_live _ _ _ _ K). unfold _hev_memory_allocator_free. rewrite Es. cbn [of_option obind].
  set (slice := ptr - SIZEOF_SLICE) in *.
  replace (delete ptr live) with (delete (slice + SIZEOF_SLICE) live) by (f_equal; lia).
  destruct (Z.ltb_spec (s_index s) 0) as [Hx|Hx].
  { unfold sys_free. rewrite Es. cbn [of_option obind]. eexists _, cs, L. split; [done|]. split; [by eapply drop_block|]. intros s' i [= <-] Hi. lia. }
  destruct (make_room a cs L live K) as (a1 & cs1 & L1 & -> & K1 & Hb & Hf). cbn [obind]. destruct (Hf slice Hni) as [Hni1 Em].
  destruct (cache_ok a1 cs1 L1 live slice s (Z.to_nat (s_index s)) K1) as (a2 & st & L2 & E & K2 & Hlt); [by rewrite Em|done|lia|done|].
  cbv zeta in E. rewrite E. exists a2, (<[Z.to_nat (s_index s) := slice :: st]> cs1), L2. split; [done|]. split; [done|].
  intros s' i [= <-] Hi. exists st. rewrite Hi, Nat2Z.id in *. by apply list_lookup_insert_eq.
Qed.

Lemma realloc_op_ok a cs L live ptr n size m : alloc_ok a cs L live -> live !! ptr = Some n -> sane size ->
  fresh (delete (ptr - SIZEOF_SLICE) (mem a)) m (SIZEOF_SLICE + round size) ->
  exists p a' cs' L' live', _hev_memory_allocator_realloc a ptr size m = Val (p, a') /\ alloc_ok a' cs' L' live' /\
    (size = 0 /\ p = NULL /\ live' = delete ptr live \/ size <> 0 /\ p = NULL /\ m = NULL /\ live' = live \/
     size <> 0 /\ p <> NULL /\ delete ptr live !! p = None /\ live' = <[p := round size]> (delete ptr live)).
Proof.
  intros K El Hs Hf. unfold _hev_memory_allocator_realloc. destruct (Z.eqb_spec size 0) as [->|H0].
  { destruct (free_op_ok a cs L live ptr n K El) as (a' & cs' & L' & -> & K' & _). cbn [obind]. exists NULL, a', cs', L', (delete ptr live). split; [done|]. split; [done|by left]. }
  pose proof El as (s & Es & Er & Hni)%(k_live _ _ _ _ K). rewrite Es. cbn [of_option obind]. destruct (sane_units size Hs) as (Ea & Ek & Hk & Hsz & Hu). rewrite Ea. cbv zeta. rewrite Ek.
  destruct (Z.eqb_spec m NULL) as [Em|Hm]; [exists NULL, a, cs, L, live; split; [done|]; split; [done|]; right; by left|].
  assert (round size = 64 * units size) as Eround by done.
  rewrite u64_id by (unfold SIZEOF_SLICE, INT_MAX in *; lia). replace (SIZEOF_SLICE + round size - SIZEOF_SLICE) with (round size) by lia.
  pose proof (drop_block a cs L live _ s K Es Hni) as K1. replace (ptr - SIZEOF_SLICE + SIZEOF_SLICE) with ptr in K1 by lia.
  set (ix := if _ && _ then _ else _).
  destruct (add_block _ cs L _ m (s_next s) ix (round size) K1 Hm Hf) as (K2 & Hm' & Hl).
  { subst ix. destruct (Z.leb_spec 1 (units size)); [|lia]. destruct (Z.leb_spec (units size) MAX_CACHED_SLICE_INDEX) as [Hc|Hc]; cbn [andb]; rewrite Eround; unfold CACHED_SLICE_ALIGN; [right; lia|left].
    change MAX_CACHED_SLICE_INDEX with 64 in Hc. unfold MAX_CACHED_SLICE_SIZE. lia. }
  eexists _, _, cs, L, _. split; [done|]. split; [exact K2|]. right. right. split; [done|]. split; [unfold NULL, SIZEOF_SLICE; lia|done].
Qed.

(** [b'] is [b] without the blocks of [st]. *)
Definition without (b b' : gmap Z HevMemorySlice) (st : list Z) : Prop := forall q, b' !! q = if decide (q ∈ st) then None else b !! q.

Lemma free_stack_ok i st : forall fuel a, stack (mem a) i st -> NoDup st -> (length st <= fuel)%nat ->
  exists b, free_stack fuel a (hd NULL st) = Val (set_mem b a) /\ without (mem a) b st.
Proof.
  induction st as [|p st IH]; intros fuel a Hs N Hl.
  { exists (mem a). split; [destruct a; by destruct fuel|]. intros q. rewrite decide_False; [done|]. by intros ?%elem_of_nil. }
  destruct fuel as [|fuel]; [cbn [length] in Hl; lia|]. destruct Hs as (Hp & Ep & Hs). apply NoDup_cons in N as [Np N].
  cbn [free_stack hd]. rewrite (proj2 (Z.eqb_neq p NULL) Hp). unfold sys_free. rewrite Ep. cbn [of_option obind s_next].
  destruct (IH fuel (set_mem (delete p (mem a)) a)) as (b & E & Hb).
  - eapply slices_frame; [|exact Hs]. intros q Hq. cbn [mem set_mem]. rewrite lookup_delete_ne; [done|]. by intros ->.
  - done.
  - cbn [length] in Hl. lia.
  - exists b. split; [exact E|]. intros q. rewrite Hb. cbn [mem set_mem]. destruct (decide (q = p)) as [->|Hne].
    + rewrite lookup_delete_eq, (decide_True _ _ (list_elem_of_here _ _)). by destruct (decide _).
    + rewrite lookup_delete_ne by done. destruct (decide (q ∈ st)) as [H|H], (decide (q ∈ p :: st)) as [H'|H']; rewrite elem_of_cons in H'; tauto.
Qed.

Lemma slices_size m i st : stack m i st -> NoDup st -> (length st <= size m)%nat.
Proof.
  intros Hs N. rewrite <- (size_dom (D := gset Z) m), <- (size_list_to_set (C := gset Z) st N). apply subseteq_size.
  intros p Hp%elem_of_list_to_set. apply elem_of_dom. by eapply slices_member.
Qed.

(** The blocks cached in the classes [L]. *)
Definition blocks (cs : list (list Z)) (L : list Z) : list Z := concat ((fun i => default [] (cs !! Z.to_nat i)) <$> L).

Lemma blocks_in cs L p : p ∈ blocks cs L <-> exists i st, i ∈ L /\ cs !! Z.to_nat i = Some st /\ p ∈ st.
Proof.
  unfold blocks. induction L as [|j L IH]; cbn [fmap list_fmap concat].
  - split; [by intros ?%elem_of_nil|]. by intros (i & _ & ?%elem_of_nil & _).
  - rewrite elem_of_app, IH. split.
    + intros [Hp|(i & st & Hi & Hp)]; [|exists i, st; split; [by right|done]]. destruct (cs !! Z.to_nat j) as [st|] eqn:E; [|by apply elem_of_nil in Hp].
      exists j, st. split; [left|done].
    + intros (i & st & [->|Hi]%elem_of_cons & E & Hp); [left; by rewrite E|right; by exists i, st].
Qed.

Lemma destroy_loop_ok cs L : forall fuel a pp q node, HevList.dseg (lru_nodes a) pp node (node_of <$> L) q NULL -> cached_mslices a = hd NULL <$> cs ->
  (forall i, i ∈ L -> 0 <= i /\ exists st, cs !! Z.to_nat i = Some st /\ stack (mem a) (Z.to_nat i) st) ->
  NoDup L -> NoDup (concat cs) -> (length L <= fuel)%nat ->
  exists b, destroy_loop fuel a node = Val (set_mem b a) /\ without (mem a) b (blocks cs L).
Proof.
  induction L as [|i L IH]; intros fuel a pp q node D Ec Hs N Nc Hl.
  { destruct D as [-> _]. exists (mem a). split; [destruct a; by destruct fuel|]. intros p. rewrite decide_False; [done|]. by intros ?%elem_of_nil. }
  destruct fuel as [|fuel]; [cbn [length] in Hl; lia|]. destruct D as (-> & Hn & r & Er & D). apply NoDup_cons in N as [Ni N].
  destruct (Hs i (list_elem_of_here _ _)) as (H0 & st & Est & Hst). cbn [destroy_loop]. rewrite (proj2 (Z.eqb_neq (node_of i) NULL) Hn).
  replace (node_of i - 1) with (Z.of_nat (Z.to_nat i)) by (unfold node_of; lia). unfold owner. rewrite (rd_lookup _ _ (hd NULL st)); [|lia|by rewrite Nat2Z.id, Ec, list_lookup_fmap, Est].
  cbn [obind]. destruct (concat_split cs _ st Est) as (c1 & c2 & Ecat & _). pose proof Nc as Nst. rewrite Ecat in Nst. apply NoDup_app in Nst as (_ & _ & (Nst & _)%NoDup_app).
  destruct (free_stack_ok _ st (S (size (mem a))) a Hst Nst) as (b & -> & Hb); [pose proof (slices_size _ _ _ Hst Nst); lia|].
  cbn [obind lru_nodes set_mem]. unfold HevList.hev_list_node_next, HevList.load. rewrite Er. cbn [of_option obind HevList.next].
  destruct (IH fuel (set_mem b a) (node_of i) q r D Ec) as (b' & E & Hb').
  - intros j Hj. destruct (Hs j) as (Hj0 & st' & Est' & Hst'); [by right|]. split; [done|]. exists st'. split; [done|]. eapply slices_frame; [|exact Hst'].
    intros p Hp. cbn [mem set_mem]. rewrite Hb, decide_False; [done|]. intros Hp'. pose proof (stacks_disjoint cs _ _ st st' p Nc Est Est' Hp' Hp). apply Ni. by replace i with j by lia.
  - done.
  - done.
  - cbn [length] in Hl. lia.
  - exists b'. split; [exact E|]. intros p. rewrite Hb'. cbn [mem set_mem]. rewrite Hb. replace (blocks cs (i :: L)) with (st ++ blocks cs L) by (unfold blocks; cbn [fmap list_fmap concat]; by rewrite Est).
    destruct (decide (p ∈ blocks cs L)) as [H|H], (decide (p ∈ st)) as [H1|H1], (decide (p ∈ st ++ blocks cs L)) as [H2|H2]; rewrite elem_of_app in H2; first [done|tauto].
Qed.

Lemma destroy_ok a cs L live : alloc_ok a cs L live ->
  exists a', _hev_memory_allocator_destroy a = Val a' /\ forall q, is_Some (mem a' !! q) <-> is_Some (live !! (q + SIZEOF_SLICE)).
Proof.
  intros K. destruct (k_lru _ _ _ _ K) as [N D]. apply NoDup_fmap_1 in N.
  destruct (destroy_loop_ok cs L (S (Z.to_nat MAX_CACHED_SLICE_INDEX)) a _ _ _ D (k_tops _ _ _ _ K)) as (b & E & Hb).
  - intros i (H0 & p & st & Ei)%(k_classes _ _ _ _ K). split; [done|]. eexists. split; [exact Ei|]. by apply (k_stacks _ _ _ _ K).
  - done.
  - apply (k_nodup _ _ _ _ K).
  - assert (length L <= length (seqZ 0 MAX_CACHED_SLICE_INDEX))%nat as Hlen by (apply submseteq_length, NoDup_submseteq; [done|]; intros i Hi; apply elem_of_seqZ; pose proof (class_range _ _ _ _ _ K Hi); lia).
    rewrite length_seqZ in Hlen. lia.
  - eexists. split; [exact E|]. intros q. cbn [mem set_mem]. rewrite Hb.
    assert (q ∈ blocks cs L <-> q ∈ concat cs) as Hin.
    { rewrite blocks_in. split; [intros (i & st & _ & Ei & Hq); by eapply concat_member|]. intros (i & st & Ei & Hq)%concat_inv. exists (Z.of_nat i), st.
      rewrite Nat2Z.id. split; [|done]. destruct st as [|p st]; [by apply elem_of_nil in Hq|]. by eapply class_in. }
    split.
    + destruct (decide _) as [|Hn]; [by intros [? ?]|]. intros [s Es]. exists (room s). apply (k_live _ _ _ _ K). exists s.
      replace (q + SIZEOF_SLICE - SIZEOF_SLICE) with q by lia. split; [done|]. split; [done|]. by rewrite <- Hin.
    + intros [n (s & Es & _ & Hni)%(k_live _ _ _ _ K)]. replace (q + SIZEOF_SLICE - SIZEOF_SLICE) with q in * by lia. rewrite decide_False by (by rewrite Hin). by eexists.
Qed.

(** ** Callers *)

Inductive request := Alloc (size m : Z) | Calloc (nmemb size m : Z) | Realloc (ptr size m : Z) | Free (ptr : Z).

Definition perform (a : HevMemoryAllocatorSlice) (e : request) : outcome (Z * HevMemoryAllocatorSlice) :=
  match e with
  | Alloc size m => _hev_memory_allocator_alloc a size m
  | Calloc nmemb size m => hev_calloc a nmemb size m
  | Realloc ptr size m => _hev_memory_allocator_realloc a ptr size m
  | Free ptr => let! a := _hev_memory_allocator_free a ptr in Val (NULL, a)
  end.

(** [held]: what callers hold, with the sizes they asked for. *)
Definition grant (held : gmap Z Z) (p size : Z) : gmap Z Z := if p =? NULL then held else <[p := size]> held.

Definition held_after (held : gmap Z Z) (e : request) (p : Z) : gmap Z Z :=
  match e with
  | Alloc size _ => grant held p size
  | Calloc nmemb size _ => grant held p (nmemb * size)
  | Realloc ptr size _ => if size =? 0 then delete ptr held else if p =? NULL then held else <[p := size]> (delete ptr held)
  | Free ptr => delete ptr held
  end.

(** Callers give back what they hold; the system answers with memory that is free. *)
Definition proper (a : HevMemoryAllocatorSlice) (held : gmap Z Z) (e : request) : Prop :=
  match e with
  | Alloc size m => sane size /\ fresh (mem a) m (SIZEOF_SLICE + round size)
  | Calloc nmemb size m => 0 <= nmemb /\ 0 <= size /\ sane (nmemb * size) /\ fresh (mem a) m (SIZEOF_SLICE + round (nmemb * size))
  | Realloc ptr size m => is_Some (held !! ptr) /\ sane size /\ fresh (delete (ptr - SIZEOF_SLICE) (mem a)) m (SIZEOF_SLICE + round size)
  | Free ptr => is_Some (held !! ptr)
  end.

(** No memory only for an empty request or when the system has none; never memory that is
    held. *)
Definition answer (held : gmap Z Z) (e : request) (p : Z) : Prop :=
  let new size m h := (p = NULL -> size = 0 \/ m = NULL) /\ (p <> NULL -> 0 < size /\ h !! p = None) in
  match e with
  | Alloc size m => new size m held
  | Calloc nmemb size m => new (nmemb * size) m held
  | Realloc ptr size m => new size m (delete ptr held)
  | Free _ => p = NULL
  end.

Inductive reachable (junk : gmap Z HevList.HevListNode) : HevMemoryAllocatorSlice -> gmap Z Z -> Prop :=
  | reach_new : reachable junk (hev_memory_allocator_slice_new junk) ∅
  | reach_perform a held e p a' : reachable junk a held -> proper a held e -> perform a e = Val (p, a') -> reachable junk a' (held_after held e p).

Definition inv (a : HevMemoryAllocatorSlice) (held : gmap Z Z) : Prop :=
  (exists cs L, alloc_ok a cs L (round <$> held)) /\ forall p n, held !! p = Some n -> 0 < n /\ sane n.

Lemma inv_new junk : (forall i, 0 <= i < MAX_CACHED_SLICE_INDEX -> is_Some (junk !! node_of i)) -> inv (hev_memory_allocator_slice_new junk) ∅.
Proof.
  intros Hj. split; [|by intros]. set (cs := replicate (Z.to_nat MAX_CACHED_SLICE_INDEX) (@nil Z)). exists cs, [].
  assert (concat cs = []) as Ec by done.
  constructor; rewrite ?Ec; cbn [hev_memory_allocator_slice_new mem lru lru_nodes cached_count cached_mslices]; try done.
  - intros i st [-> _]%lookup_replicate. done.
  - split; [constructor|done].
  - intros i. split; [by intros ?%elem_of_nil|]. intros (_ & p & st & [[=] _]%lookup_replicate).
  - constructor.
  - intros p n. rewrite fmap_empty, lookup_empty. split; [done|]. intros (s & E & _). by rewrite lookup_empty in E.
Qed.

Lemma grant_sizes (held : gmap Z Z) p size : (forall q n, held !! q = Some n -> 0 < n /\ sane n) -> sane size -> (p <> NULL -> 0 < size) ->
  forall q n, grant held p size !! q = Some n -> 0 < n /\ sane n.
Proof.
  intros Hh Hs Hp q n. unfold grant. destruct (Z.eqb_spec p NULL) as [|Hn]; [apply Hh|]. destruct (decide (q = p)) as [->|Hne].
  - rewrite lookup_insert_eq. intros [= <-]. auto.
  - rewrite lookup_insert_ne by done. apply Hh.
Qed.

Lemma alloc_perform a held size m : inv a held -> sane size -> fresh (mem a) m (SIZEOF_SLICE + round size) ->
  exists p a', _hev_memory_allocator_alloc a size m = Val (p, a') /\ inv a' (grant held p size) /\
    (p = NULL -> size = 0 \/ m = NULL) /\ (p <> NULL -> 0 < size /\ held !! p = None).
Proof.
  intros [(cs & L & K) Hh] Hs Hf. destruct (alloc_op_ok a cs L _ size m K Hs Hf) as (p & a' & cs' & L' & live' & E & K' & A).
  exists p, a'. split; [done|]. unfold grant. destruct A as [(-> & -> & Hz)|(Hp & Hn & Hpos & ->)].
  - rewrite Z.eqb_refl. split; [split; [by exists cs', L'|done]|]. by split.
  - split; [|split; [done|]; intros _; split; [done|]; by rewrite lookup_fmap, fmap_None in Hn].
    split; [|apply grant_sizes; auto]. exists cs', L'. rewrite (proj2 (Z.eqb_neq p NULL) Hp), fmap_insert. done.
Qed.

Lemma held_live (held : gmap Z Z) p n : held !! p = Some n -> (round <$> held) !! p = Some (round n).
Proof. intros E. by rewrite lookup_fmap, E. Qed.

Lemma delete_sizes (held : gmap Z Z) ptr : (forall q n, held !! q = Some n -> 0 < n /\ sane n) -> forall q n, delete ptr held !! q = Some n -> 0 < n /\ sane n.
Proof. intros Hh q n [_ E]%lookup_delete_Some. by apply Hh in E. Qed.

Lemma perform_ok a held e : inv a held -> proper a held e -> exists p a', perform a e = Val (p, a') /\ inv a' (held_after held e p) /\ answer held e p.
Proof.
  intros I. pose proof I as [(cs & L & K) Hh]. destruct e as [size m|nmemb size m|ptr size m|ptr]; cbn [proper perform held_after answer].
  - intros [Hs Hf]. by apply alloc_perform.
  - intros (H1 & H2 & Hs & Hf). unfold hev_calloc. destruct (Z.eqb_spec nmemb 0) as [->|N1]; [|destruct (Z.eqb_spec size 0) as [->|N2]]; cbn [orb].
    + exists NULL, a. do 2 (split; [done|]). split; [by left|done].
    + exists NULL, a. rewrite Z.mul_0_r. do 2 (split; [done|]). split; [by left|done].
    + rewrite (Z.mul_comm size), u64_id by (unfold sane, INT_MAX in Hs; lia). by apply alloc_perform.
  - intros ([n El] & Hs & Hf). destruct (realloc_op_ok a cs L _ ptr _ size m K (held_live _ _ _ El) Hs Hf) as (p & a' & cs' & L' & live' & -> & K' & A).
    exists p, a'. split; [done|]. destruct A as [(-> & -> & ->)|[(H0 & -> & -> & ->)|(H0 & Hp & Hn & ->)]].
    + rewrite Z.eqb_refl. split; [|by split; [left|]]. split; [|by apply delete_sizes]. exists cs', L'. by rewrite fmap_delete.
    + rewrite (proj2 (Z.eqb_neq size 0) H0), Z.eqb_refl. split; [|by split; [right|]]. split; [by exists cs', L'|done].
    + rewrite (proj2 (Z.eqb_neq size 0) H0), (proj2 (Z.eqb_neq p NULL) Hp). assert (0 < size) by (unfold sane in Hs; lia). split.
      * split; [exists cs', L'; by rewrite fmap_insert, fmap_delete|]. pose proof (grant_sizes (delete ptr held) p size (delete_sizes _ _ Hh) Hs ltac:(done)) as G.
        unfold grant in G. by rewrite (proj2 (Z.eqb_neq p NULL) Hp) in G.
      * split; [done|]. intros _. split; [done|]. by rewrite <- fmap_delete, lookup_fmap, fmap_None in Hn.
  - intros [n El]. destruct (free_op_ok a cs L _ ptr _ K (held_live _ _ _ El)) as (a' & cs' & L' & -> & K' & _). cbn [obind]. exists NULL, a'. split; [done|].
    split; [|done]. split; [|by apply delete_sizes]. exists cs', L'. by rewrite fmap_delete.
Qed.

Lemma alloc_reachable_inv junk a held : (forall i, 0 <= i < MAX_CACHED_SLICE_INDEX -> is_Some (junk !! node_of i)) -> reachable junk a held -> inv a held.
Proof.
  intros Hj. induction 1 as [|a held e p a' _ IH Hp E]; [by apply inv_new|]. destruct (perform_ok a held e IH Hp) as (p' & a2 & E' & I & _). congruence.
Qed.

(** What was freed last is given out first, without the system. *)
Lemma reuse_last a held ptr n size m : inv a held -> held !! ptr = Some n -> n <= MAX_CACHED_SLICE_SIZE -> sane size -> units size = units n ->
  exists a1 a2, _hev_memory_allocator_free a ptr = Val a1 /\ _hev_memory_allocator_alloc a1 size m = Val (ptr, a2).
Proof.
  intros [(cs & L & K) Hh] El Hn Hs Eu. destruct (free_op_ok a cs L _ ptr _ K (held_live _ _ _ El)) as (a1 & cs1 & L1 & E1 & K1 & Ht).
  destruct (Hh _ _ El) as [Hpos Hsn]. destruct (sane_units n Hsn) as (_ & _ & Hk & Hr & H0).
  pose proof (held_live _ _ _ El) as (s & Es & Er & _)%(k_live _ _ _ _ K).
  assert (round n = 64 * units n) as Ern by done. assert (units n = (n + 64 - 1) / 64) as Eun by done.
  pose proof (Z.div_mod (n + 64 - 1) 64 ltac:(lia)) as Hd. pose proof (Z.mod_pos_bound (n + 64 - 1) 64 ltac:(lia)) as Hm. rewrite <- Eun in Hd. unfold MAX_CACHED_SLICE_SIZE in Hn.
  destruct (k_rooms _ _ _ _ K _ _ Es) as [_ [[_ Hx]|[Hx Ex]]]; [unfold MAX_CACHED_SLICE_SIZE in Hx; lia|]. unfold CACHED_SLICE_ALIGN in Ex.
  destruct (Ht s (Z.to_nat (s_index s)) Es) as (st & Est); [lia|].
  exists a1. unfold _hev_memory_allocator_alloc. destruct (sane_units size Hs) as (-> & -> & _ & _ & _). cbv zeta. rewrite Eu.
  destruct (Z.eqb_spec (units n) 0); [lia|]. destruct (Z.leb_spec 1 (units n)); [|lia]. destruct (Z.leb_spec (units n) MAX_CACHED_SLICE_INDEX); [|lia]. cbn [andb].
  replace (units n - 1) with (Z.of_nat (Z.to_nat (s_index s))) by lia. rewrite (owner_ok _ _ _ _ _ _ K1 Est). cbn [obind hd].
  destruct (k_stacks _ _ _ _ K1 _ _ Est) as (Hq & _). rewrite (proj2 (Z.eqb_neq _ NULL) Hq). cbn [negb].
  destruct (reuse_ok a1 cs1 L1 _ _ _ st K1 Est) as (a2 & L2 & E & _). cbv zeta in E. rewrite E. exists a2. split; [done|]. do 2 f_equal. lia.
Qed.

(** Two blocks that are held do not overlap. *)
Lemma held_apart a held p q n k : inv a held -> held !! p = Some n -> held !! q = Some k -> p <> q -> p + n <= q \/ q + k <= p.
Proof.
  intros [(cs & L & K) Hh] Ep Eq Hne. destruct (Hh _ _ Ep) as [_ (_ & _ & _ & Hn & _)%sane_units], (Hh _ _ Eq) as [_ (_ & _ & _ & Hk & _)%sane_units].
  apply held_live, (k_live _ _ _ _ K) in Ep as (s & Es & Er & _). apply held_live, (k_live _ _ _ _ K) in Eq as (t & Et & Er' & _).
  destruct (k_apart _ _ _ _ K _ _ _ _ Es Et); unfold SIZEOF_SLICE in *; lia.
Qed.


Definition junk_nodes : gmap Z HevList.HevListNode := list_to_map ((fun i => (node_of i, HevList.mkLNode 7 7)) <$> seqZ 0 MAX_CACHED_SLICE_INDEX).


End SliceAllocator.
