(* ===== verification/CNumeral.v ===== *)
(** * Numerals and comparisons of the C library

    [strtoul] and [strtol] as the C standard describes them, on strings without their
    terminator, and the comparisons of [<string.h>] and [<strings.h>]; what the
    configuration uses of them. *)

From Stdlib Require Import ZArith Lia String Ascii.
From stdpp Require Import base list numbers.
From S2P Require Import Prelude CBytes.
Import list_basics.list list_relations.list list_monad.list list_misc.list.

Module CNumeral.

(** ** Definitions *)

(** A string literal. *)
Definition lit (s : string) : bytes := (fun c => Z.of_N (N_of_ascii c)) <$> list_ascii_of_string s.

(** The characters before the terminator. *)
Fixpoint c_string (n : bytes) : bytes :=
  match n with
  | [] => []
  | x :: n => if x =? 0 then [] else x :: c_string n
  end.

Definition ULONG_MAX : Z := 2 ^ 64 - 1.
Definition LONG_MAX : Z := 2 ^ 63 - 1.
Definition LONG_MIN : Z := - 2 ^ 63.

Definition isspace (c : Z) : bool := (c =? 32) || (9 <=? c) && (c <=? 13).

Fixpoint skip_space (s : bytes) : bytes :=
  match s with
  | c :: s' => if isspace c then skip_space s' else s
  | [] => []
  end.

(** The value of a character as a digit. *)
Definition digit_value (c : Z) : option Z :=
  if (48 <=? c) && (c <=? 57) then Some (c - 48)
  else if (65 <=? c) && (c <=? 90) then Some (c - 55)
  else if (97 <=? c) && (c <=? 122) then Some (c - 87)
  else None.

(** The longest prefix of digits, as a number. *)
Fixpoint digits (base acc : Z) (s : bytes) : Z :=
  match s with
  | [] => acc
  | c :: s =>
      match digit_value c with
      | Some d => if d <? base then digits base (acc * base + d) s else acc
      | None => acc
      end
  end.

Definition is_hex (s : bytes) : bool :=
  match s with
  | 48 :: x :: c :: _ => ((x =? 120) || (x =? 88)) && match digit_value c with Some d => d <? 16 | None => false end
  | _ => false
  end.

(** The digits of a numeral without sign: base 0 reads a prefix. *)
Definition magnitude (base : Z) (s : bytes) : Z :=
  if (base =? 0) || (base =? 16) then
    if is_hex s then digits 16 0 (drop 2 s)
    else if base =? 16 then digits 16 0 s
    else match s with
         | 48 :: _ => digits 8 0 s
         | _ => digits 10 0 s
         end
  else digits base 0 s.

(** Sign and rest. *)
Definition sign (s : bytes) : bool * bytes :=
  match s with
  | 45 :: s => (true, s)
  | 43 :: s => (false, s)
  | _ => (false, s)
  end.

Definition strtoul (s : bytes) (base : Z) : Z :=
  let '(neg, s) := sign (skip_space s) in
  let v := magnitude base s in
  if v >? ULONG_MAX then ULONG_MAX else if neg then u64 (- v) else v.

Definition strtol (s : bytes) (base : Z) : Z :=
  let '(neg, s) := sign (skip_space s) in
  let v := magnitude base s in
  if neg then Z.max LONG_MIN (- v) else Z.min LONG_MAX v.

Definition tolower (c : Z) : Z := if (65 <=? c) && (c <=? 90) then c + 32 else c.

(** The difference at the first place where the strings differ. *)
Fixpoint compare_with (f : Z -> Z) (a b : bytes) : Z :=
  match a, b with
  | [], [] => 0
  | [], y :: _ => - f y
  | x :: _, [] => f x
  | x :: a, y :: b => if f x =? f y then compare_with f a b else f x - f y
  end.

Definition strcmp (a b : bytes) : Z := compare_with id a b.
Definition strcasecmp (a b : bytes) : Z := compare_with tolower a b.

(** [strncpy (dst, src, n)] *)
Definition strncpy (dst src : bytes) (n : Z) : outcome bytes := put_n dst 0 (strncpy_image src (Z.to_nat n)).

(** Decimal numerals, least significant digit first and as they are written. *)
Fixpoint rev_decimal (fuel : nat) (v : Z) : bytes :=
  match fuel with
  | O => []
  | S fuel => (48 + v mod 10) :: if v / 10 =? 0 then [] else rev_decimal fuel (v / 10)
  end.

Definition decimal (v : Z) : bytes := rev (rev_decimal (S (Z.to_nat (Z.log2 v))) v).

(** ** Lemmas *)

Lemma c_string_text s : Forall (fun x => x <> 0) (c_string s).
Proof. induction s as [|x s IH]; cbn [c_string]; [constructor|]. destruct (Z.eqb_spec x 0); by constructor. Qed.

Lemma c_string_id s : Forall (fun x => x <> 0) s -> c_string s = s.
Proof. induction 1 as [|x s Hx _ IH]; cbn [c_string]; [done|]. by rewrite (proj2 (Z.eqb_neq x 0) Hx), IH. Qed.

Lemma c_string_app s n : Forall (fun x => x <> 0) s -> c_string (s ++ replicate (S n) 0) = s.
Proof. induction 1 as [|x s Hx _ IH]; cbn [app]; [done|]. cbn [c_string]. by rewrite (proj2 (Z.eqb_neq x 0) Hx), IH. Qed.

Lemma compare_with_eq f a b : (forall x, x <> 0 -> f x <> 0) -> Forall (fun x => x <> 0) a -> Forall (fun x => x <> 0) b ->
  compare_with f a b = 0 <-> f <$> a = f <$> b.
Proof.
  intros Hf Ha. revert b. induction Ha as [|x a Hx Ha IH]; intros [|y b] Hb; cbn [compare_with fmap list_fmap]; try done.
  - apply Forall_cons in Hb as [Hy _]. split; [|done]. pose proof (Hf y Hy). lia.
  - split; [|done]. pose proof (Hf x Hx). lia.
  - apply Forall_cons in Hb as [Hy Hb]. destruct (Z.eqb_spec (f x) (f y)) as [E|E].
    + rewrite (IH b Hb), E. split; [by intros ->|]. by intros [= ->].
    + split; [lia|]. intros [= ? _]. done.
Qed.

Lemma strcmp_eq a b : Forall (fun x => x <> 0) a -> Forall (fun x => x <> 0) b -> strcmp a b = 0 <-> a = b.
Proof. intros Ha Hb. unfold strcmp. rewrite compare_with_eq by done. by rewrite !list_fmap_id. Qed.

(** Equality up to case. *)
Lemma strcasecmp_eq a b : Forall (fun x => x <> 0) a -> Forall (fun x => x <> 0) b -> strcasecmp a b = 0 <-> tolower <$> a = tolower <$> b.
Proof.
  intros Ha Hb. unfold strcasecmp. apply compare_with_eq; [|done..]. intros x Hx. unfold tolower.
  destruct (Z.leb_spec 65 x), (Z.leb_spec x 90); cbn [andb]; lia.
Qed.

Lemma strncpy_ok dst src n : 0 <= n <= zlen dst -> strncpy dst src n = Val (strncpy_image src (Z.to_nat n) ++ drop (Z.to_nat n) dst).
Proof.
  intros Hn. unfold strncpy, put_n. rewrite bool_decide_true by (unfold zlen in *; rewrite length_strncpy; lia).
  f_equal. unfold splice. cbn [take app Nat.add Z.to_nat]. by rewrite length_strncpy.
Qed.

(** A numeral is read back. *)
Lemma digits_app base l : forall acc s, Forall (fun c => exists d, digit_value c = Some d /\ d < base) l ->
  digits base acc (l ++ s) = digits base (foldl (fun a c => a * base + default 0 (digit_value c)) acc l) s.
Proof.
  induction l as [|c l IH]; intros acc s H; [done|]. apply Forall_cons in H as [(d & E & Hd) H]. cbn [app digits foldl]. rewrite E.
  destruct (Z.ltb_spec d base); [|lia]. by rewrite IH.
Qed.

Lemma decimal_digit v : 0 <= v -> digit_value (48 + v mod 10) = Some (v mod 10).
Proof.
  intros Hv. pose proof (Z.mod_pos_bound v 10 ltac:(lia)). unfold digit_value. destruct (Z.leb_spec 48 (48 + v mod 10)); [|lia].
  destruct (Z.leb_spec (48 + v mod 10) 57); [|lia]. cbn [andb]. f_equal. lia.
Qed.

Lemma rev_decimal_ok fuel : forall v, 0 <= v < 2 ^ Z.of_nat fuel -> (0 < fuel)%nat ->
  Forall (fun c => exists d, digit_value c = Some d /\ d < 10) (rev_decimal fuel v) /\
  foldr (fun c a => a * 10 + default 0 (digit_value c)) 0 (rev_decimal fuel v) = v /\ rev_decimal fuel v <> [].
Proof.
  induction fuel as [|fuel IH]; intros v Hv Hf; [lia|]. cbn [rev_decimal]. pose proof (decimal_digit v ltac:(lia)) as Ed.
  pose proof (Z.mod_pos_bound v 10 ltac:(lia)) as Hm. pose proof (Z.div_mod v 10 ltac:(lia)) as Hd.
  destruct (Z.eqb_spec (v / 10) 0) as [E|E].
  - split; [constructor; [exists (v mod 10); split; [done|lia]|constructor]|]. split; [|done]. cbn [foldr]. rewrite Ed. simpl. lia.
  - assert (2 ^ Z.of_nat (S fuel) = 2 * 2 ^ Z.of_nat fuel) as Ep by (rewrite Nat2Z.inj_succ, Z.pow_succ_r by lia; done).
    assert (0 < fuel)%nat by (destruct fuel; [cbn in Ep; rewrite Ep in Hv; lia|lia]).
    destruct (IH (v / 10)) as (F & S & _); [lia|lia|]. split; [constructor; [exists (v mod 10); split; [done|lia]|done]|]. split; [|done].
    cbn [foldr]. rewrite S, Ed. simpl. lia.
Qed.

Lemma foldl_reversed {A B} (f : B -> A -> B) b l : foldl f b (reverse l) = foldr (fun x a => f a x) b l.
Proof. induction l as [|x l IH]; [done|]. rewrite reverse_cons, foldl_app, IH. done. Qed.

(** What a decimal numeral is read as, whatever follows it. *)
Lemma strtoul_decimal v rest : 0 <= v <= ULONG_MAX -> (forall c, head rest = Some c -> match digit_value c with Some d => 10 <= d | None => True end) ->
  strtoul (decimal v ++ rest) 10 = v.
Proof.
  intros Hv Hr. unfold decimal. destruct (rev_decimal_ok (S (Z.to_nat (Z.log2 v))) v) as (F & S & N); [|lia|].
  { rewrite Nat2Z.inj_succ, Z2Nat.id by apply Z.log2_nonneg. split; [lia|]. destruct (decide (v = 0)) as [->|]; [done|]. apply Z.log2_spec; lia. }
  rewrite rev_alt. fold (reverse (rev_decimal (Datatypes.S (Z.to_nat (Z.log2 v))) v)).
  set (r := rev_decimal _ v) in *. assert (Forall (fun c => exists d, digit_value c = Some d /\ d < 10) (reverse r)) as F' by (by apply Forall_reverse).
  unfold strtoul. assert (skip_space (reverse r ++ rest) = reverse r ++ rest /\ sign (reverse r ++ rest) = (false, reverse r ++ rest)) as [-> ->].
  { destruct (reverse r) as [|c l] eqn:E; [by apply (f_equal reverse) in E; rewrite reverse_involutive in E|]. apply Forall_cons in F' as [(d & Ed & _) _].
    assert (48 <= c) as Hc by (unfold digit_value in Ed; repeat case_match; try done; lia).
    cbn [app skip_space]. unfold isspace. destruct (Z.eqb_spec c 32), (Z.leb_spec c 13); try lia. rewrite andb_false_r. cbn [orb]. split; [done|].
    unfold sign. destruct c as [|c|c]; [done| |done]. repeat (destruct c as [c|c|]; try done; try lia). }
  cbn [magnitude Z.eqb orb Pos.eqb]. rewrite digits_app by done. rewrite foldl_reversed, S.
  assert (digits 10 v rest = v) as ->.
  { destruct rest as [|c rest]; [done|]. cbn [digits]. specialize (Hr c eq_refl). destruct (digit_value c); [|done]. destruct (Z.ltb_spec z 10); [lia|done]. }
  rewrite Z.gtb_ltb. destruct (Z.ltb_spec ULONG_MAX v); [lia|done].
Qed.

End CNumeral.
