(* ===== verification/Config.v ===== *)
(** * The configuration (src/hev-config.c)

    The settings are static variables that the parser of the configuration overwrites: a
    variable per number and a buffer per string, [srv.port] written [srv_port].  A
    document is what libyaml hands over, an array of nodes that refer to each other by
    index; [yaml_document_get_node] is translated from third-part/yaml/src/api.c, reading
    the text is not modelled.  [inet_pton] is an argument. *)

From Stdlib Require Import ZArith Lia String.
From stdpp Require Import base list gmap numbers.
From S2P Require Import Prelude CBytes CNumeral.
Import list_basics.list list_relations.list list_monad.list list_misc.list.
Import CNumeral.

Module Config.

(** ** Documents *)

Inductive yaml_node_t :=
  | YAML_SCALAR_NODE (value : bytes)
  | YAML_SEQUENCE_NODE (items : list Z)
  | YAML_MAPPING_NODE (pairs : list (Z * Z)).

Abbreviation yaml_document_t := (list yaml_node_t).

Definition yaml_document_get_node (doc : yaml_document_t) (index : Z) : option yaml_node_t :=
  if (index >? 0) && (index <=? zlen doc) then doc !! Z.to_nat (index - 1) else None.

Definition yaml_document_get_root_node (doc : yaml_document_t) : option yaml_node_t := head doc.

(** ** Settings *)

Inductive var :=
  | tun_mtu | multi_queue | srv_mark | srv_udp_in_udp | srv_port | srv_pipeline | srv_fastopen
  | mapdns_address | mapdns_port | mapdns_network | mapdns_netmask | mapdns_cache_size
  | max_session_count | task_stack_size | tcp_buffer_size | udp_recv_buffer_size | udp_copy_buffer_nums
  | connect_timeout | tcp_read_write_timeout | udp_read_write_timeout | limit_nofile | log_level.

Inductive buf :=
  | tun_name | tun_ipv4_address | tun_ipv6_address | tun_post_up_script | tun_pre_down_script
  | srv_addr | srv_udp_addr | _user | _pass | log_file | pid_file.

#[export] Instance var_eq_dec : EqDecision var.
Proof. solve_decision. Defined.
#[export] Instance buf_eq_dec : EqDecision buf.
Proof. solve_decision. Defined.

(** [user] and [pass]: whether the pointers of [srv] are set, to [_user] and [_pass]. *)
Record config := mkConfig { vars : var -> Z; bufs : buf -> bytes; user : bool; pass : bool }.

Definition sizeof (b : buf) : Z :=
  match b with
  | tun_name | tun_ipv6_address => 64
  | tun_ipv4_address => 16
  | tun_post_up_script | tun_pre_down_script | log_file | pid_file => 1024
  | srv_addr | srv_udp_addr | _user | _pass => 256
  end.

(** Conversion to the type of a variable. *)
Definition convert (v : var) (x : Z) : Z :=
  match v with
  | tun_mtu | srv_mark => u32 x
  | srv_port => u16 x
  | srv_pipeline | srv_fastopen => u8 x
  | srv_udp_in_udp => (x + 2 ^ 15) mod 2 ^ 16 - 2 ^ 15
  | _ => i32 x
  end.

Definition set (v : var) (x : Z) (c : config) : config :=
  mkConfig (fun w => if decide (w = v) then convert v x else vars c w) (bufs c) (user c) (pass c).
Definition set_buf (b : buf) (x : bytes) (c : config) : config :=
  mkConfig (vars c) (fun d => if decide (d = b) then x else bufs c d) (user c) (pass c).
Definition set_credentials (c : config) : config := mkConfig (vars c) (bufs c) true true.

(** [strncpy] of a scalar into a buffer. *)
Definition copy_to (b : buf) (value : bytes) (n : Z) (c : config) : outcome config :=
  let! x := strncpy (bufs c b) (c_string value) n in Val (set_buf b x c).

Definition HEV_LOGGER_DEBUG : Z := 0.
Definition HEV_LOGGER_INFO : Z := 1.
Definition HEV_LOGGER_WARN : Z := 2.
Definition HEV_LOGGER_ERROR : Z := 3.
Definition TCP_SND_BUF : Z := 8 * 8191.
Definition UDP_BUF_SIZE : Z := 1500.
Definition TASK_STACK_SIZE : Z := 20480.

(** The initial values. *)
Definition defaults : config :=
  mkConfig
    (fun v =>
       match v with
       | tun_mtu => 8500
       | task_stack_size => 86016
       | tcp_buffer_size => 65536
       | udp_recv_buffer_size => 524288
       | udp_copy_buffer_nums => 10
       | connect_timeout => 10000
       | tcp_read_write_timeout => 300000
       | udp_read_write_timeout => 60000
       | limit_nofile => 65535
       | log_level => HEV_LOGGER_WARN
       | _ => 0
       end)
    (fun b => replicate (Z.to_nat (sizeof b)) 0) false false.

(** ** Sections *)

Definition key_is (key : bytes) (s : string) : bool := strcmp (c_string key) (lit s) =? 0.

Section parse.
Context (inet_pton4 : bytes -> option Z) (doc : yaml_document_t).

(** The loop over the pairs of a section: it ends at the first pair that is not a pair of
    scalars. *)
Fixpoint for_scalars {A} (pairs : list (Z * Z)) (body : bytes -> bytes -> A -> outcome A) (a : A) : outcome A :=
  match pairs with
  | [] => Val a
  | (k, v) :: pairs =>
      if (k =? 0) || (v =? 0) then Val a
      else
        match yaml_document_get_node doc k, yaml_document_get_node doc v with
        | Some (YAML_SCALAR_NODE key), Some (YAML_SCALAR_NODE value) =>
            let! a := body key value a in for_scalars pairs body a
        | _, _ => Val a
        end
  end.

Definition hev_config_parse_tunnel_ipv4 (base : option yaml_node_t) (c : config) : outcome (Z * config) :=
  match base with
  | Some (YAML_MAPPING_NODE pairs) =>
      let! c := for_scalars pairs (fun key value c => if key_is key "address" then copy_to tun_ipv4_address value 15 c else Val c) c in
      Val (0, c)
  | _ => Val (-1, c)
  end.

Definition hev_config_parse_tunnel_ipv6 (base : option yaml_node_t) (c : config) : outcome (Z * config) :=
  match base with
  | Some (YAML_MAPPING_NODE pairs) =>
      let! c := for_scalars pairs (fun key value c => if key_is key "address" then copy_to tun_ipv6_address value 63 c else Val c) c in
      Val (0, c)
  | _ => Val (-1, c)
  end.

Definition tunnel_pair (key : bytes) (node : yaml_node_t) (c : config) : outcome config :=
  match node with
  | YAML_SCALAR_NODE v =>
      let value := c_string v in
      if key_is key "name" then copy_to tun_name v 63 c
      else if key_is key "mtu" then Val (set tun_mtu (strtoul value 10) c)
      else if key_is key "multi-queue" then Val (set multi_queue (strcasecmp value (lit "false")) c)
      else if key_is key "ipv4" then copy_to tun_ipv4_address v 15 c
      else if key_is key "ipv6" then copy_to tun_ipv6_address v 63 c
      else if key_is key "post-up-script" then copy_to tun_post_up_script v 63 c
      else if key_is key "pre-down-script" then copy_to tun_pre_down_script v 63 c
      else Val c
  | _ =>
      if key_is key "ipv4" then let! (_, c) := hev_config_parse_tunnel_ipv4 (Some node) c in Val c
      else if key_is key "ipv6" then let! (_, c) := hev_config_parse_tunnel_ipv6 (Some node) c in Val c
      else Val c
  end.

Fixpoint tunnel_loop (pairs : list (Z * Z)) (c : config) : outcome config :=
  match pairs with
  | [] => Val c
  | (k, v) :: pairs =>
      if (k =? 0) || (v =? 0) then Val c
      else
        match yaml_document_get_node doc k, yaml_document_get_node doc v with
        | Some (YAML_SCALAR_NODE key), Some node => let! c := tunnel_pair key node c in tunnel_loop pairs c
        | _, _ => Val c
        end
  end.

Definition hev_config_parse_tunnel (base : option yaml_node_t) (c : config) : outcome (Z * config) :=
  match base with
  | Some (YAML_MAPPING_NODE pairs) => let! c := tunnel_loop pairs c in Val (0, c)
  | _ => Val (-1, c)
  end.

(** The locals of the parser of section [socks5]: pointers to scalars or [NULL]. *)
Record socks5_locals := mkSocks5 {
  l_addr : option bytes; l_port : option bytes; l_udpm : option bytes; l_udpa : option bytes; l_user : option bytes;
  l_pass : option bytes; l_mark : option bytes; l_pipe : option bytes; l_tfso : option bytes }.

Definition socks5_pair (key value : bytes) (l : socks5_locals) : outcome socks5_locals :=
  let '(mkSocks5 addr port udpm udpa user pass mark pipe tfso) := l in
  Val (if key_is key "port" then mkSocks5 addr (Some value) udpm udpa user pass mark pipe tfso
       else if key_is key "address" then mkSocks5 (Some value) port udpm udpa user pass mark pipe tfso
       else if key_is key "udp" then mkSocks5 addr port (Some value) udpa user pass mark pipe tfso
       else if key_is key "udp-address" then mkSocks5 addr port udpm (Some value) user pass mark pipe tfso
       else if key_is key "pipeline" then mkSocks5 addr port udpm udpa user pass mark (Some value) tfso
       else if key_is key "username" then mkSocks5 addr port udpm udpa (Some value) pass mark pipe tfso
       else if key_is key "password" then mkSocks5 addr port udpm udpa user (Some value) mark pipe tfso
       else if key_is key "mark" then mkSocks5 addr port udpm udpa user pass (Some value) pipe tfso
       else if key_is key "tcp-fastopen" then mkSocks5 addr port udpm udpa user pass mark pipe (Some value)
       else l).

Definition is_true (value : option bytes) (s : string) : bool :=
  match value with
  | Some v => strcasecmp (c_string v) (lit s) =? 0
  | None => false
  end.

Definition socks5_store (addr port : bytes) (l : socks5_locals) (c : config) : outcome config :=
  let! c := copy_to srv_addr addr 255 c in
  let c := set srv_port (strtoul (c_string port) 10) c in
  let c := if is_true (l_pipe l) "true" then set srv_pipeline 1 c else c in
  let c := if is_true (l_udpm l) "udp" then set srv_udp_in_udp 1 c else c in
  let! c := (match l_udpa l with Some v => copy_to srv_udp_addr v 255 c | None => Val c end) in
  let! c := (match l_user l, l_pass l with
             | Some u, Some p =>
                 let! c := copy_to _user u 255 c in
                 let! c := copy_to _pass p 255 c in
                 Val (set_credentials c)
             | _, _ => Val c
             end) in
  let c := match l_mark l with Some v => set srv_mark (strtoul (c_string v) 0) c | None => c end in
  Val (match l_tfso l with
       | Some _ => set srv_fastopen (if is_true (l_tfso l) "true" then 1 else 0) c
       | None => c
       end).

Definition hev_config_parse_socks5 (base : option yaml_node_t) (c : config) : outcome (Z * config) :=
  match base with
  | Some (YAML_MAPPING_NODE pairs) =>
      let! l := for_scalars pairs socks5_pair (mkSocks5 None None None None None None None None None) in
      match l_port l with
      | None => Val (-1, c)
      | Some port =>
          match l_addr l with
          | None => Val (-1, c)
          | Some addr =>
              match l_user l, l_pass l with
              | Some _, None | None, Some _ => Val (-1, c)
              | _, _ => let! c := socks5_store addr port l c in Val (0, c)
              end
          end
      end
  | _ => Val (-1, c)
  end.

(** [inet_pton (AF_INET, value, &v)]: the variable keeps its value if that fails. *)
Definition store_address (v : var) (value : bytes) (c : config) : config :=
  match inet_pton4 (c_string value) with
  | Some x => set v x c
  | None => c
  end.

Definition mapdns_pair (key value : bytes) (c : config) : outcome config :=
  Val (if key_is key "address" then store_address mapdns_address value c
       else if key_is key "port" then set mapdns_port (strtoul (c_string value) 10) c
       else if key_is key "network" then store_address mapdns_network value c
       else if key_is key "netmask" then store_address mapdns_netmask value c
       else if key_is key "cache-size" then set mapdns_cache_size (strtoul (c_string value) 10) c
       else c).

Definition ntohl (x : Z) : Z :=
  let x := u32 x in
  Z.lor (Z.shiftl (Z.land x 0xff) 24) (Z.lor (Z.shiftl (Z.land x 0xff00) 8) (Z.lor (Z.land (Z.shiftr x 8) 0xff00) (Z.shiftr x 24))).

Definition hev_config_parse_mapdns (base : option yaml_node_t) (c : config) : outcome (Z * config) :=
  match base with
  | Some (YAML_MAPPING_NODE pairs) =>
      let! c := for_scalars pairs mapdns_pair c in
      let c := set mapdns_network (ntohl (vars c mapdns_network)) c in
      Val (0, set mapdns_netmask (ntohl (vars c mapdns_netmask)) c)
  | _ => Val (-1, c)
  end.

Definition hev_config_parse_log_level (value : bytes) : Z :=
  if strcmp value (lit "debug") =? 0 then HEV_LOGGER_DEBUG
  else if strcmp value (lit "info") =? 0 then HEV_LOGGER_INFO
  else if strcmp value (lit "error") =? 0 then HEV_LOGGER_ERROR
  else HEV_LOGGER_WARN.

Record misc_state := mkMisc { m_config : config; tcp_rw_timeout : Z; udp_rw_timeout : Z; rw_timeout : Z }.

Definition misc_pair (key value : bytes) (m : misc_state) : outcome misc_state :=
  let '(mkMisc c tcp_rw udp_rw rw) := m in
  let num := strtoul (c_string value) 10 in
  let keep c := Val (mkMisc c tcp_rw udp_rw rw) in
  if key_is key "task-stack-size" then keep (set task_stack_size num c)
  else if key_is key "tcp-buffer-size" then keep (set tcp_buffer_size num c)
  else if key_is key "udp-recv-buffer-size" then keep (set udp_recv_buffer_size num c)
  else if key_is key "udp-copy-buffer-nums" then keep (set udp_copy_buffer_nums num c)
  else if key_is key "max-session-count" then keep (set max_session_count num c)
  else if key_is key "connect-timeout" then keep (set connect_timeout num c)
  else if key_is key "read-write-timeout" then Val (mkMisc c tcp_rw udp_rw (i32 num))
  else if key_is key "tcp-read-write-timeout" then Val (mkMisc c (i32 num) udp_rw rw)
  else if key_is key "udp-read-write-timeout" then Val (mkMisc c tcp_rw (i32 num) rw)
  else if key_is key "pid-file" then let! c := copy_to pid_file value 1023 c in keep c
  else if key_is key "log-file" then let! c := copy_to log_file value 1023 c in keep c
  else if key_is key "log-level" then keep (set log_level (hev_config_parse_log_level (c_string value)) c)
  else if key_is key "limit-nofile" then keep (set limit_nofile (strtol (c_string value) 10) c)
  else Val m.

Definition hev_config_parse_misc (base : option yaml_node_t) (c : config) : outcome (Z * config) :=
  match base with
  | Some (YAML_MAPPING_NODE pairs) =>
      let! m := for_scalars pairs misc_pair (mkMisc c (-1) (-1) (-1)) in
      let tcp_rw := if tcp_rw_timeout m <=? 0 then rw_timeout m else tcp_rw_timeout m in
      let udp_rw := if udp_rw_timeout m <=? 0 then rw_timeout m else udp_rw_timeout m in
      let c := m_config m in
      let c := if tcp_rw >? 0 then set tcp_read_write_timeout tcp_rw c else c in
      Val (0, if udp_rw >? 0 then set udp_read_write_timeout udp_rw c else c)
  | _ => Val (-1, c)
  end.

(** ** Documents *)

Definition parse_section (key : bytes) (node : option yaml_node_t) (c : config) : outcome (Z * config) :=
  if key_is key "tunnel" then hev_config_parse_tunnel node c
  else if key_is key "socks5" then hev_config_parse_socks5 node c
  else if key_is key "mapdns" then hev_config_parse_mapdns node c
  else if key_is key "misc" then hev_config_parse_misc node c
  else Val (0, c).

Fixpoint doc_loop (pairs : list (Z * Z)) (c : config) : outcome (Z * config) :=
  match pairs with
  | [] => Val (0, c)
  | (k, v) :: pairs =>
      if (k =? 0) || (v =? 0) then Val (0, c)
      else
        match yaml_document_get_node doc k with
        | Some (YAML_SCALAR_NODE key) =>
            let! (res, c) := parse_section key (yaml_document_get_node doc v) c in
            if res <? 0 then Val (-1, c) else doc_loop pairs c
        | _ => Val (0, c)
        end
  end.

(** Signed arithmetic: an overflow is undefined. *)
Definition int (x : Z) : outcome Z := if bool_decide (is_i32 x) then Val x else Fault.

(** The sizes that depend on each other. *)
Definition adjust (c : config) : outcome config :=
  let c := if vars c tcp_buffer_size >? TCP_SND_BUF then set tcp_buffer_size TCP_SND_BUF c else c in
  let! udp_buffer_size := int (UDP_BUF_SIZE * vars c udp_copy_buffer_nums) in
  let! min_task_stack_size :=
    int (TASK_STACK_SIZE + if vars c tcp_buffer_size >? udp_buffer_size then vars c tcp_buffer_size else udp_buffer_size) in
  Val (if vars c task_stack_size <? min_task_stack_size then set task_stack_size min_task_stack_size c else c).

Definition hev_config_parse_doc (c : config) : outcome (Z * config) :=
  match yaml_document_get_root_node doc with
  | Some (YAML_MAPPING_NODE pairs) =>
      let! (res, c) := doc_loop pairs c in
      if res <? 0 then Val (-1, c) else let! c := adjust c in Val (0, c)
  | _ => Val (-1, c)
  end.

End parse.

(** ** Entry points *)

(** What the entry points must give back. *)
Inductive resource := RParser | RFile | RDocument.

#[export] Instance resource_eq_dec : EqDecision resource.
Proof. solve_decision. Defined.

Definition release (r : resource) (held : list resource) : outcome (list resource) :=
  if bool_decide (r ∈ held) then Val (filter (fun q => q <> r) held) else Fault.

Section init.
Context (inet_pton4 : bytes -> option Z).

Definition exit_free_parser (res : Z) (c : config) (held : list resource) : outcome (Z * config * list resource) :=
  let! held := release RParser held in Val (res, c, held).

Definition exit_close_fp (res : Z) (c : config) (held : list resource) : outcome (Z * config * list resource) :=
  let! held := release RFile held in exit_free_parser res c held.

(** The document is parsed and deleted. *)
Definition use_document (doc : yaml_document_t) (c : config) (held : list resource) : outcome (Z * config * list resource) :=
  let held := RDocument :: held in
  let! (res, c) := hev_config_parse_doc inet_pton4 doc c in
  let! held := release RDocument held in
  Val (res, c, held).

(** [loaded] is the document that the text describes, if it is well formed. *)
Definition hev_config_init_from_file (parser_ok file_ok : bool) (loaded : option yaml_document_t) (c : config) : outcome (Z * config * list resource) :=
  if negb parser_ok then Val (-1, c, [])
  else
    let held := [RParser] in
    if negb file_ok then exit_free_parser (-1) c held
    else
      let held := RFile :: held in
      match loaded with
      | None => exit_close_fp (-1) c held
      | Some doc => let! (res, c, held) := use_document doc c held in exit_close_fp res c held
      end.

Definition hev_config_init_from_str (parser_ok : bool) (loaded : option yaml_document_t) (c : config) : outcome (Z * config * list resource) :=
  if negb parser_ok then Val (-1, c, [])
  else
    let held := [RParser] in
    match loaded with
    | None => exit_free_parser (-1) c held
    | Some doc => let! (res, c, held) := use_document doc c held in exit_free_parser res c held
    end.

End init.

(** ** Access *)

(** The string in a buffer; [NULL] for an empty one. *)
Definition get_string (b : buf) (c : config) : outcome (option bytes) :=
  let! x := rd (bufs c b) 0 in
  if x =? 0 then Val None else let! s := cstr (bufs c b) 0 in Val (Some s).

Definition hev_config_get_misc_log_file (c : config) : outcome bytes :=
  let! s := get_string log_file c in Val (default (lit "stderr") s).

(** ** The scalars of a section *)

(** The pairs that a section's loop sees. *)
Fixpoint scalars (doc : yaml_document_t) (pairs : list (Z * Z)) : list (bytes * bytes) :=
  match pairs with
  | [] => []
  | (k, v) :: pairs =>
      if (k =? 0) || (v =? 0) then []
      else
        match yaml_document_get_node doc k, yaml_document_get_node doc v with
        | Some (YAML_SCALAR_NODE key), Some (YAML_SCALAR_NODE value) => (c_string key, c_string value) :: scalars doc pairs
        | _, _ => []
        end
  end.

(** The last value of a key, in a list that is read from its front. *)
Fixpoint last_value (k : bytes) (kvs : list (bytes * bytes)) : option bytes :=
  match kvs with
  | [] => None
  | (k', v) :: kvs =>
      match last_value k kvs with
      | Some w => Some w
      | None => if bool_decide (k' = k) then Some v else None
      end
  end.

(** ** Lemmas *)

Lemma key_is_spec key s : Forall (fun x => x <> 0) (lit s) -> key_is key s = bool_decide (c_string key = lit s).
Proof.
  intros Hs. unfold key_is. pose proof (strcmp_eq (c_string key) (lit s) (c_string_text key) Hs) as E.
  destruct (Z.eqb_spec (strcmp (c_string key) (lit s)) 0); symmetry; [apply bool_decide_eq_true|apply bool_decide_eq_false]; tauto.
Qed.

(** How many bytes of a buffer are ever written. *)
Definition capacity (b : buf) : Z :=
  match b with
  | tun_name | tun_ipv6_address | tun_post_up_script | tun_pre_down_script => 63
  | tun_ipv4_address => 15
  | srv_addr | srv_udp_addr | _user | _pass => 255
  | log_file | pid_file => 1023
  end.

(** The range of a variable's type. *)
Definition in_range (v : var) (x : Z) : Prop :=
  match v with
  | tun_mtu | srv_mark => is_u32 x
  | srv_port => is_u16 x
  | srv_pipeline | srv_fastopen => is_u8 x
  | srv_udp_in_udp => - 2 ^ 15 <= x < 2 ^ 15
  | _ => is_i32 x
  end.

(** Numbers fit their types, strings are terminated inside their buffers, and either both
    or none of user name and password are set. *)
Record config_ok (c : config) : Prop := {
  c_types : forall v, in_range v (vars c v);
  c_bufs : forall b, exists t, zlen t = capacity b /\ bufs c b = t ++ replicate (Z.to_nat (sizeof b - capacity b)) 0;
  c_pair : user c = pass c;
}.

Lemma convert_range v x : in_range v (convert v x).
Proof.
  destruct v; cbn [in_range convert]; first [apply u32_range|apply u16_range|apply u8_range|idtac];
    try (unfold is_i32, i32, INT_MIN, INT_MAX; pose proof (Z.mod_pos_bound (x + 2 ^ 31) (2 ^ 32) ltac:(lia)); lia).
  pose proof (Z.mod_pos_bound (x + 2 ^ 15) (2 ^ 16) ltac:(lia)). lia.
Qed.

Lemma capacity_size b : 0 < capacity b < sizeof b.
Proof. by destruct b. Qed.

Lemma set_ok v x c : config_ok c -> config_ok (set v x c).
Proof.
  intros [T B P]. constructor; [|done..]. intros w. cbn [set vars]. destruct (decide (w = v)) as [->|]; [apply convert_range|done].
Qed.

Lemma set_same v x c : vars (set v x c) v = convert v x.
Proof. cbn [set vars]. by rewrite decide_True. Qed.

Lemma set_other v w x c : w <> v -> vars (set v x c) w = vars c w.
Proof. intros H. cbn [set vars]. by rewrite decide_False. Qed.

(** The string in a buffer. *)
Definition text (b : buf) (c : config) : bytes := c_string (bufs c b).

Lemma length_buf c b : config_ok c -> zlen (bufs c b) = sizeof b.
Proof.
  intros K. destruct (c_bufs c K b) as (t & Et & ->). pose proof (capacity_size b). rewrite zlen_app, zlen_replicate, Et. lia.
Qed.

Lemma drop_buf c b : config_ok c -> drop (Z.to_nat (capacity b)) (bufs c b) = replicate (Z.to_nat (sizeof b - capacity b)) 0.
Proof.
  intros K. destruct (c_bufs c K b) as (t & Et & ->). unfold zlen in Et. by rewrite drop_app_length' by lia.
Qed.

Lemma copy_to_ok b value c : config_ok c -> exists c', copy_to b value (capacity b) c = Val c' /\ config_ok c' /\
  vars c' = vars c /\ user c' = user c /\ pass c' = pass c /\
  text b c' = take (Z.to_nat (capacity b)) (c_string value) /\ (forall d, d <> b -> bufs c' d = bufs c d).
Proof.
  intros K. unfold copy_to. pose proof (capacity_size b) as Hc. rewrite strncpy_ok by (rewrite length_buf by done; lia). rewrite drop_buf by done. cbn [obind].
  set (n := Z.to_nat (capacity b)). set (s := c_string value). eexists. split; [done|].
  split.
  { destruct K as [T B P]. constructor; [done| |done]. intros d. cbn [set_buf bufs]. destruct (decide (d = b)) as [->|]; [|apply B].
    eexists. split; [|done]. unfold zlen. rewrite length_strncpy. subst n. lia. }
  do 3 (split; [done|]). split; [|intros d Hd; cbn [set_buf bufs]; by rewrite decide_False].
  unfold text. cbn [set_buf bufs]. rewrite decide_True by done. unfold strncpy_image.
  assert (take n (s ++ replicate n 0) = take n s ++ replicate (n - length s) 0) as -> by (rewrite take_app, take_replicate; do 2 f_equal; lia).
  rewrite <- app_assoc, <- replicate_add. destruct (n - length s + Z.to_nat (sizeof b - capacity b))%nat as [|k] eqn:E; [lia|].
  apply c_string_app, Forall_take, c_string_text.
Qed.

Lemma get_string_ok b c : config_ok c -> get_string b c = Val (match text b c with [] => None | s => Some s end).
Proof.
  intros K. pose proof (length_buf c b K) as Hl. pose proof (capacity_size b) as Hc. pose proof (drop_buf c b K) as Hd. unfold get_string, text, cstr.
  destruct (bufs c b) as [|x l]; [unfold zlen in Hl; cbn [length] in Hl; lia|]. change (rd (x :: l) 0) with (Val x). cbn [obind c_string].
  destruct (Z.eqb_spec x 0) as [->|Hx]; [done|]. rewrite bool_decide_true by done.
  assert (forall m, (exists n, drop n m = replicate (S (Z.to_nat (sizeof b - capacity b) - 1)) 0) -> cstr_list m = Val (c_string m)) as Hm.
  { clear. intros m. induction m as [|y m IH]; intros [n Hn]; [destruct n; done|]. cbn [cstr_list c_string]. destruct (Z.eqb_spec y 0); [done|].
    destruct n as [|n]; [by injection Hn as -> _|]. rewrite IH by (by exists n). done. }
  change (Z.to_nat 0) with 0%nat. rewrite drop_0. rewrite Hm; [cbn [obind c_string]; by rewrite (proj2 (Z.eqb_neq x 0) Hx)|].
  eexists. rewrite Hd. f_equal. lia.
Qed.

(** The setting that a key selects: from its last value, else as it was. *)
Definition latest {A} (k : string) (kvs : list (bytes * bytes)) (f : bytes -> A) (old : A) : A := from_option f old (last_value (lit k) kvs).

Lemma latest_snoc {A} k kvs k' v (f : bytes -> A) old :
  latest k (kvs ++ [(k', v)]) f old = if bool_decide (k' = lit k) then f v else latest k kvs f old.
Proof.
  unfold latest. assert (last_value (lit k) (kvs ++ [(k', v)]) = if bool_decide (k' = lit k) then Some v else last_value (lit k) kvs) as ->.
  { induction kvs as [|[k1 v1] kvs IH]; cbn [app last_value]; [by destruct (bool_decide _)|]. rewrite IH. by destruct (bool_decide (k' = lit k)). }
  by destruct (bool_decide _).
Qed.

(** The loops, by the pairs seen so far. *)
Lemma for_scalars_ind {A} doc (body : bytes -> bytes -> A -> outcome A) (P : list (bytes * bytes) -> A -> Prop) pairs a :
  P [] a ->
  (forall kvs key value a, P kvs a -> exists a', body key value a = Val a' /\ P (kvs ++ [(c_string key, c_string value)]) a') ->
  exists a', for_scalars doc pairs body a = Val a' /\ P (scalars doc pairs) a'.
Proof.
  intros H0 Hs. assert (forall kvs a, P kvs a -> exists a', for_scalars doc pairs body a = Val a' /\ P (kvs ++ scalars doc pairs) a') as H; [|by apply (H [])].
  clear a H0. induction pairs as [|[k v] pairs IH]; intros kvs a Ha; cbn [for_scalars scalars]; [exists a; by rewrite app_nil_r|].
  destruct (_ || _); [exists a; by rewrite app_nil_r|].
  destruct (yaml_document_get_node doc k) as [[key| |]|]; try (exists a; by rewrite app_nil_r).
  destruct (yaml_document_get_node doc v) as [[value| |]|]; try (exists a; by rewrite app_nil_r).
  destruct (Hs kvs key value a Ha) as (a1 & -> & H1). cbn [obind]. destruct (IH _ _ H1) as (a2 & E & H2). exists a2. split; [done|].
  by rewrite <- app_assoc in H2.
Qed.

(** Tests of keys against literals. *)
Ltac literal := vm_compute; repeat constructor; discriminate.
Ltac keys := rewrite ?key_is_spec by literal.
Ltac lit_dec :=
  repeat match goal with
  | H : c_string ?key = lit _ |- context [bool_decide (c_string ?key = _)] => rewrite H
  | H : c_string ?key <> lit ?a |- context [bool_decide (c_string ?key = lit ?a)] => rewrite (bool_decide_false (c_string key = lit a)) by exact H
  | |- context [bool_decide (lit ?a = lit ?b)] =>
      let r := eval vm_compute in (bool_decide (lit a = lit b)) in
      replace (bool_decide (lit a = lit b)) with r by (vm_compute; reflexivity)
  end.
Ltac key_cases :=
  repeat match goal with
  | |- context [if bool_decide ?P then _ else _] => destruct (bool_decide_reflect P); [|]
  end.

(** ** Section misc *)

Definition misc_numbers : list (string * var) :=
  [("task-stack-size", task_stack_size); ("tcp-buffer-size", tcp_buffer_size); ("udp-recv-buffer-size", udp_recv_buffer_size);
   ("udp-copy-buffer-nums", udp_copy_buffer_nums); ("max-session-count", max_session_count); ("connect-timeout", connect_timeout)]%string.

Definition number (s : bytes) : Z := strtoul s 10.

(** What the loop has stored after the pairs [kvs]. *)
Record misc_seen (c : config) (kvs : list (bytes * bytes)) (m : misc_state) : Prop := {
  ms_ok : config_ok (m_config m);
  ms_numbers : forall k v, (k, v) ∈ misc_numbers -> vars (m_config m) v = latest k kvs (fun s => convert v (number s)) (vars c v);
  ms_log_level : vars (m_config m) log_level = latest "log-level" kvs hev_config_parse_log_level (vars c log_level);
  ms_nofile : vars (m_config m) limit_nofile = latest "limit-nofile" kvs (fun s => i32 (strtol s 10)) (vars c limit_nofile);
  ms_pid : text pid_file (m_config m) = latest "pid-file" kvs (take 1023) (text pid_file c);
  ms_log : text log_file (m_config m) = latest "log-file" kvs (take 1023) (text log_file c);
  ms_tcp : tcp_rw_timeout m = latest "tcp-read-write-timeout" kvs (fun s => i32 (number s)) (-1);
  ms_udp : udp_rw_timeout m = latest "udp-read-write-timeout" kvs (fun s => i32 (number s)) (-1);
  ms_rw : rw_timeout m = latest "read-write-timeout" kvs (fun s => i32 (number s)) (-1);
  ms_vars : forall v, v ∉ misc_numbers.*2 -> v <> log_level -> v <> limit_nofile -> vars (m_config m) v = vars c v;
  ms_bufs : forall b, b <> pid_file -> b <> log_file -> bufs (m_config m) b = bufs c b;
  ms_user : user (m_config m) = user c /\ pass (m_config m) = pass c;
}.

Lemma log_level_range s : convert log_level (hev_config_parse_log_level s) = hev_config_parse_log_level s.
Proof. unfold hev_config_parse_log_level. repeat case_match; reflexivity. Qed.

(** A statement for every row of a table, the row unknown or partly known. *)
Ltac rows H := repeat (apply elem_of_cons in H as [[= -> ->]|H]); [..|by apply elem_of_nil in H].
Ltac entries H := repeat (apply elem_of_cons in H as [H|H]; [simplify_eq|]); [..|by apply elem_of_nil in H].

Lemma misc_pair_ok c kvs key value m : misc_seen c kvs m ->
  exists m', misc_pair key value m = Val m' /\ misc_seen c (kvs ++ [(c_string key, c_string value)]) m'.
Proof.
  intros [K1 K2 K3 K4 K5 K6 K7 K8 K9 K10 K11 K12]. destruct m as [d tcp udp rw]. cbn [m_config tcp_rw_timeout udp_rw_timeout rw_timeout] in *.
  unfold misc_pair. keys. destruct (copy_to_ok pid_file value d K1) as (d1 & E1 & O1 & V1 & U1 & P1 & T1 & B1).
  destruct (copy_to_ok log_file value d K1) as (d2 & E2 & O2 & V2 & U2 & P2 & T2 & B2). cbn [capacity] in *.
  key_cases; rewrite ?E1, ?E2; cbn [obind]; eexists; (split; [done|]);
    constructor; cbn [m_config tcp_rw_timeout udp_rw_timeout rw_timeout]; rewrite ?V1, ?V2, ?latest_snoc; lit_dec;
    try done; try (by apply set_ok);
    try (intros k v Hk; pose proof (K2 k v Hk) as E; rewrite latest_snoc; rows Hk; lit_dec; rewrite <- ?E; done);
    try (intros v Hv H1 H2; rewrite ?set_other by (intros ->; first [done|apply Hv; unfold misc_numbers; cbn; repeat constructor]); by apply K10);
    try (unfold text; rewrite ?B1, ?B2 by done; done);
    try (intros b H1 H2; rewrite ?B1, ?B2 by done; by apply K11);
    try (rewrite ?U1, ?P1, ?U2, ?P2; done).
  rewrite set_same. apply log_level_range.
Qed.

(** A timeout: its own key if that is positive, else the common one if that is. *)
Definition timeout (k : string) (kvs : list (bytes * bytes)) (old : Z) : Z :=
  let int k := latest k kvs (fun s => i32 (number s)) (-1) in
  let t := if int k <=? 0 then int "read-write-timeout"%string else int k in
  if t >? 0 then t else old.

(** What section misc means. *)
Record misc_result (c : config) (kvs : list (bytes * bytes)) (c' : config) : Prop := {
  mr_numbers : forall k v, (k, v) ∈ misc_numbers -> vars c' v = latest k kvs (fun s => convert v (number s)) (vars c v);
  mr_log_level : vars c' log_level = latest "log-level" kvs hev_config_parse_log_level (vars c log_level);
  mr_nofile : vars c' limit_nofile = latest "limit-nofile" kvs (fun s => i32 (strtol s 10)) (vars c limit_nofile);
  mr_pid : text pid_file c' = latest "pid-file" kvs (take 1023) (text pid_file c);
  mr_log : text log_file c' = latest "log-file" kvs (take 1023) (text log_file c);
  mr_tcp : vars c' tcp_read_write_timeout = timeout "tcp-read-write-timeout" kvs (vars c tcp_read_write_timeout);
  mr_udp : vars c' udp_read_write_timeout = timeout "udp-read-write-timeout" kvs (vars c udp_read_write_timeout);
  mr_vars : forall v, v ∉ misc_numbers.*2 -> v ∉ [log_level; limit_nofile; tcp_read_write_timeout; udp_read_write_timeout] -> vars c' v = vars c v;
  mr_bufs : forall b, b ∉ [pid_file; log_file] -> bufs c' b = bufs c b;
  mr_user : user c' = user c /\ pass c' = pass c;
}.

Lemma latest_i32 k kvs : i32 (latest k kvs (fun s => i32 (number s)) (-1)) = latest k kvs (fun s => i32 (number s)) (-1).
Proof. apply i32_id. unfold latest. destruct (last_value _ _); cbn; [apply (convert_range log_level)|by split]. Qed.

Lemma set_if_var (b : bool) v x c w : vars (if b then set v x c else c) w = if decide (w = v) then (if b then convert v x else vars c v) else vars c w.
Proof. destruct b; cbn [set vars]; [done|]. by destruct (decide (w = v)) as [->|]. Qed.

Lemma parse_misc_ok doc pairs c : config_ok c ->
  exists c', hev_config_parse_misc doc (Some (YAML_MAPPING_NODE pairs)) c = Val (0, c') /\ config_ok c' /\ misc_result c (scalars doc pairs) c'.
Proof.
  intros K. cbn [hev_config_parse_misc].
  destruct (for_scalars_ind doc misc_pair (misc_seen c) pairs (mkMisc c (-1) (-1) (-1))) as (m & -> & M).
  { by constructor. }
  { intros. by apply misc_pair_ok. }
  cbn [obind]. destruct M as [K1 K2 K3 K4 K5 K6 K7 K8 K9 K10 K11 K12]. set (kvs := scalars doc pairs) in *. rewrite K7, K8, K9. clear K7 K8 K9.
  set (t := if _ <=? 0 then _ else latest "tcp-read-write-timeout" _ _ _). set (u := if _ <=? 0 then _ else latest "udp-read-write-timeout" _ _ _).
  assert (i32 t = t /\ i32 u = u) as [Et Eu] by (subst t u; split; destruct (_ <=? 0); apply latest_i32).
  eexists. split; [done|]. split; [repeat case_match; repeat apply set_ok; done|].
  assert (forall b1 b2 x y, bufs (if b1 : bool then set udp_read_write_timeout x (if b2 : bool then set tcp_read_write_timeout y (m_config m) else m_config m)
    else if b2 then set tcp_read_write_timeout y (m_config m) else m_config m) = bufs (m_config m)) as Eb by (intros [] [] ??; done).
  constructor; rewrite ?set_if_var; try done.
  - intros k v Hk. rewrite !set_if_var, <- (K2 k v Hk). rows Hk; done.
  - unfold text. rewrite Eb. exact K5.
  - unfold text. rewrite Eb. exact K6.
  - rewrite decide_False, decide_True by done. cbn [convert]. rewrite Et. unfold timeout. subst t. rewrite K10 by first [done|vm_compute; set_solver]. done.
  - rewrite decide_True by done. cbn [convert]. rewrite Eu. unfold timeout. subst u. rewrite ?decide_False by done.
    rewrite K10; [done|..]; first [done|vm_compute; set_solver].
  - intros v H1 H2. rewrite !set_if_var, !decide_False by set_solver. apply K10; set_solver.
  - intros b Hb. rewrite Eb. apply K11; set_solver.
  - destruct (u >? 0), (t >? 0); done.
Qed.

(** ** Section mapdns *)

Section mapdns.
Context (inet_pton4 : bytes -> option Z).

(** The last address of key [k] that [inet_pton] understood. *)
Definition last_address (k : string) (kvs : list (bytes * bytes)) (old : Z) : Z :=
  foldl (fun a '(k', s) => if bool_decide (k' = lit k) then from_option i32 a (inet_pton4 s) else a) old kvs.

Lemma last_address_snoc k kvs k' s old :
  last_address k (kvs ++ [(k', s)]) old = if bool_decide (k' = lit k) then from_option i32 (last_address k kvs old) (inet_pton4 s) else last_address k kvs old.
Proof. unfold last_address. by rewrite foldl_app. Qed.

Definition mapdns_addresses : list (string * var) := [("address", mapdns_address); ("network", mapdns_network); ("netmask", mapdns_netmask)]%string.
Definition mapdns_numbers : list (string * var) := [("port", mapdns_port); ("cache-size", mapdns_cache_size)]%string.

Record mapdns_seen (c : config) (kvs : list (bytes * bytes)) (d : config) : Prop := {
  ds_ok : config_ok d;
  ds_addresses : forall k v, (k, v) ∈ mapdns_addresses -> vars d v = last_address k kvs (vars c v);
  ds_numbers : forall k v, (k, v) ∈ mapdns_numbers -> vars d v = latest k kvs (fun s => convert v (number s)) (vars c v);
  ds_vars : forall v, v ∉ mapdns_addresses.*2 -> v ∉ mapdns_numbers.*2 -> vars d v = vars c v;
  ds_rest : bufs d = bufs c /\ user d = user c /\ pass d = pass c;
}.

Lemma store_address_ok v value d : v ∈ mapdns_addresses.*2 -> config_ok d ->
  config_ok (store_address inet_pton4 v value d) /\
  vars (store_address inet_pton4 v value d) v = from_option i32 (vars d v) (inet_pton4 (c_string value)) /\
  (forall w, w <> v -> vars (store_address inet_pton4 v value d) w = vars d w) /\
  bufs (store_address inet_pton4 v value d) = bufs d /\ user (store_address inet_pton4 v value d) = user d /\ pass (store_address inet_pton4 v value d) = pass d.
Proof.
  intros Hv K. unfold store_address. destruct (inet_pton4 (c_string value)) as [x|]; [|done]. split; [by apply set_ok|]. split; [|split; [|done]].
  - rewrite set_same. cbn in Hv. assert (v = mapdns_address \/ v = mapdns_network \/ v = mapdns_netmask) as [-> | [-> | ->]] by set_solver; done.
  - intros w Hw. by apply set_other.
Qed.

Lemma mapdns_pair_ok c kvs key value d : mapdns_seen c kvs d ->
  exists d', mapdns_pair inet_pton4 key value d = Val d' /\ mapdns_seen c (kvs ++ [(c_string key, c_string value)]) d'.
Proof.
  intros [K1 K2 K3 K4 K5]. unfold mapdns_pair. keys. eexists. split; [done|].
  destruct (store_address_ok mapdns_address value d ltac:(set_solver) K1) as (A1 & A2 & A3 & A4).
  destruct (store_address_ok mapdns_network value d ltac:(set_solver) K1) as (N1 & N2 & N3 & N4).
  destruct (store_address_ok mapdns_netmask value d ltac:(set_solver) K1) as (M1 & M2 & M3 & M4).
  key_cases; constructor; try done; try (by apply set_ok);
    try (intros k v Hk; pose proof (K2 k v Hk) as E; rewrite last_address_snoc; rows Hk; lit_dec; rewrite <- ?E; first [done|by apply A3|by apply N3|by apply M3]);
    try (intros k v Hk; pose proof (K3 k v Hk) as E; rewrite latest_snoc; rows Hk; lit_dec; rewrite <- ?E; first [done|by apply A3|by apply N3|by apply M3]);
    try (intros v Hv Hw; rewrite ?A3, ?N3, ?M3, ?set_other by (intros ->; set_solver); by apply K4);
    destruct K5 as (? & ? & ?), A4 as (? & ? & ?), N4 as (? & ? & ?), M4 as (? & ? & ?); cbn [set bufs user pass]; repeat split; congruence.
Qed.

(** What section mapdns means: the network and its mask end up in host order. *)
Record mapdns_result (c : config) (kvs : list (bytes * bytes)) (c' : config) : Prop := {
  dr_address : vars c' mapdns_address = last_address "address" kvs (vars c mapdns_address);
  dr_network : vars c' mapdns_network = i32 (ntohl (last_address "network" kvs (vars c mapdns_network)));
  dr_netmask : vars c' mapdns_netmask = i32 (ntohl (last_address "netmask" kvs (vars c mapdns_netmask)));
  dr_numbers : forall k v, (k, v) ∈ mapdns_numbers -> vars c' v = latest k kvs (fun s => convert v (number s)) (vars c v);
  dr_vars : forall v, v ∉ mapdns_addresses.*2 -> v ∉ mapdns_numbers.*2 -> vars c' v = vars c v;
  dr_rest : bufs c' = bufs c /\ user c' = user c /\ pass c' = pass c;
}.

Lemma parse_mapdns_ok doc pairs c : config_ok c ->
  exists c', hev_config_parse_mapdns inet_pton4 doc (Some (YAML_MAPPING_NODE pairs)) c = Val (0, c') /\ config_ok c' /\ mapdns_result c (scalars doc pairs) c'.
Proof.
  intros K. cbn [hev_config_parse_mapdns].
  destruct (for_scalars_ind doc (mapdns_pair inet_pton4) (mapdns_seen c) pairs c) as (d & -> & M).
  { by constructor. }
  { intros. by apply mapdns_pair_ok. }
  cbn [obind]. destruct M as [K1 K2 K3 K4 K5]. eexists. split; [done|]. split; [by repeat apply set_ok|].
  assert (forall k v, (k, v) ∈ mapdns_addresses -> vars d v = last_address k (scalars doc pairs) (vars c v)) as K2' by done.
  constructor; rewrite ?set_same, ?set_other by done; cbn [convert].
  - apply K2. repeat constructor.
  - rewrite ?set_same. cbn [convert]. rewrite (K2 "network"%string mapdns_network); [done|]. repeat constructor.
  - rewrite (K2 "netmask"%string mapdns_netmask); [done|]. repeat constructor.
  - intros k v Hk. rewrite <- (K3 k v Hk). rows Hk; rewrite ?set_other by done; done.
  - intros v Hv Hw. rewrite !set_other by (intros ->; apply Hv; repeat constructor). by apply K4.
  - done.
Qed.

End mapdns.

(** ** Section socks5 *)

(** The pointers after the pairs [kvs]. *)
Record socks5_seen (kvs : list (bytes * bytes)) (l : socks5_locals) : Prop := {
  ss_addr : c_string <$> l_addr l = last_value (lit "address") kvs;
  ss_port : c_string <$> l_port l = last_value (lit "port") kvs;
  ss_udpm : c_string <$> l_udpm l = last_value (lit "udp") kvs;
  ss_udpa : c_string <$> l_udpa l = last_value (lit "udp-address") kvs;
  ss_user : c_string <$> l_user l = last_value (lit "username") kvs;
  ss_pass : c_string <$> l_pass l = last_value (lit "password") kvs;
  ss_mark : c_string <$> l_mark l = last_value (lit "mark") kvs;
  ss_pipe : c_string <$> l_pipe l = last_value (lit "pipeline") kvs;
  ss_tfso : c_string <$> l_tfso l = last_value (lit "tcp-fastopen") kvs;
}.

Lemma last_value_snoc k kvs k' v : last_value k (kvs ++ [(k', v)]) = if bool_decide (k' = k) then Some v else last_value k kvs.
Proof. induction kvs as [|[k1 v1] kvs IH]; cbn [app last_value]; [by destruct (bool_decide _)|]. rewrite IH. by destruct (bool_decide (k' = k)). Qed.

Lemma socks5_pair_ok kvs key value l : socks5_seen kvs l ->
  exists l', socks5_pair key value l = Val l' /\ socks5_seen (kvs ++ [(c_string key, c_string value)]) l'.
Proof.
  intros [K1 K2 K3 K4 K5 K6 K7 K8 K9]. destruct l as [addr port udpm udpa user pass mark pipe tfso].
  cbn [l_addr l_port l_udpm l_udpa l_user l_pass l_mark l_pipe l_tfso] in *. unfold socks5_pair. keys. eexists. split; [done|].
  key_cases; constructor; cbn [l_addr l_port l_udpm l_udpa l_user l_pass l_mark l_pipe l_tfso]; rewrite last_value_snoc; lit_dec; done.
Qed.

(** Port and address are given, and name and password both or none of them. *)
Definition socks5_complete (kvs : list (bytes * bytes)) : bool :=
  match last_value (lit "port") kvs, last_value (lit "address") kvs with
  | Some _, Some _ =>
      match last_value (lit "username") kvs, last_value (lit "password") kvs with
      | Some _, None | None, Some _ => false
      | _, _ => true
      end
  | _, _ => false
  end.

Definition same_text (s : bytes) (t : string) : bool := strcasecmp s (lit t) =? 0.

Definition socks5_vars : list var := [srv_port; srv_pipeline; srv_udp_in_udp; srv_mark; srv_fastopen].
Definition socks5_bufs : list buf := [srv_addr; srv_udp_addr; _user; _pass].

(** What a complete section means. *)
Record socks5_result (c : config) (kvs : list (bytes * bytes)) (c' : config) : Prop := {
  sr_addr : text srv_addr c' = latest "address" kvs (take 255) (text srv_addr c);
  sr_port : vars c' srv_port = latest "port" kvs (fun s => u16 (number s)) (vars c srv_port);
  sr_pipe : vars c' srv_pipeline = latest "pipeline" kvs (fun s => if same_text s "true" then 1 else vars c srv_pipeline) (vars c srv_pipeline);
  sr_udp : vars c' srv_udp_in_udp = latest "udp" kvs (fun s => if same_text s "udp" then 1 else vars c srv_udp_in_udp) (vars c srv_udp_in_udp);
  sr_udpa : text srv_udp_addr c' = latest "udp-address" kvs (take 255) (text srv_udp_addr c);
  sr_user : text _user c' = latest "username" kvs (take 255) (text _user c);
  sr_pass : text _pass c' = latest "password" kvs (take 255) (text _pass c);
  sr_given : user c' = latest "username" kvs (fun _ => true) (user c);
  sr_mark : vars c' srv_mark = latest "mark" kvs (fun s => u32 (strtoul s 0)) (vars c srv_mark);
  sr_tfso : vars c' srv_fastopen = latest "tcp-fastopen" kvs (fun s => if same_text s "true" then 1 else 0) (vars c srv_fastopen);
  sr_vars : forall v, v ∉ socks5_vars -> vars c' v = vars c v;
  sr_bufs : forall b, b ∉ socks5_bufs -> bufs c' b = bufs c b;
}.

(** Optional copies. *)
Lemma copy_opt_ok b (v : option bytes) c : config_ok c ->
  exists c', (match v with Some v => copy_to b v (capacity b) c | None => Val c end) = Val c' /\ config_ok c' /\
    vars c' = vars c /\ user c' = user c /\ pass c' = pass c /\
    text b c' = from_option (take (Z.to_nat (capacity b))) (text b c) (c_string <$> v) /\ (forall d, d <> b -> bufs c' d = bufs c d).
Proof. intros K. destruct v as [v|]; [by apply copy_to_ok|by exists c]. Qed.

Lemma credentials_ok (u p : option bytes) c : config_ok c -> is_Some u <-> is_Some p ->
  exists c', (match u, p with
    | Some u, Some p => let! c := copy_to _user u 255 c in let! c := copy_to _pass p 255 c in Val (set_credentials c)
    | _, _ => Val c end) = Val c' /\ config_ok c' /\ vars c' = vars c /\
    text _user c' = from_option (take 255) (text _user c) (c_string <$> u) /\ text _pass c' = from_option (take 255) (text _pass c) (c_string <$> p) /\
    user c' = from_option (fun _ => true) (user c) (c_string <$> u) /\ (forall d, d <> _user -> d <> _pass -> bufs c' d = bufs c d).
Proof.
  intros K [H1 H2]. destruct u as [u|], p as [p|]; [|by destruct (H1 ltac:(done))|by destruct (H2 ltac:(done))|by exists c].
  destruct (copy_to_ok _user u c K) as (c1 & E1 & O1 & V1 & _ & _ & T1 & B1). cbn [capacity] in E1, T1. rewrite E1. cbn [obind].
  destruct (copy_to_ok _pass p c1 O1) as (c2 & E2 & O2 & V2 & _ & _ & T2 & B2). cbn [capacity] in E2, T2. rewrite E2. cbn [obind].
  eexists. split; [done|]. split; [by destruct O2|]. split; [cbn [set_credentials vars]; congruence|].
  split; [|split; [exact T2|split; [done|]]].
  - unfold text in *. cbn [set_credentials bufs]. rewrite B2 by done. exact T1.
  - intros d Hu Hp. cbn [set_credentials bufs]. rewrite B2, B1; done.
Qed.

Lemma is_true_spec v s : is_true v s = from_option (fun t => same_text t s) false (c_string <$> v).
Proof. by destruct v. Qed.

Lemma set_opt_var {A} (o : option A) v f c w :
  vars (match o with Some t => set v (f t) c | None => c end) w = if decide (w = v) then from_option (fun t => convert v (f t)) (vars c v) o else vars c w.
Proof. destruct o; cbn [set vars from_option]; [done|]. by destruct (decide (w = v)) as [->|]. Qed.

Lemma socks5_store_ok kvs l addr port c : config_ok c -> socks5_seen kvs l -> l_addr l = Some addr -> l_port l = Some port ->
  (is_Some (l_user l) <-> is_Some (l_pass l)) -> exists c', socks5_store addr port l c = Val c' /\ config_ok c' /\ socks5_result c kvs c'.
Proof.
  intros K [K1 K2 K3 K4 K5 K6 K7 K8 K9] Ea Ep Hup. unfold socks5_store. rewrite Ea in K1. rewrite Ep in K2.
  destruct (copy_to_ok srv_addr addr c K) as (c1 & E1 & O1 & V1 & U1 & _ & T1 & B1). cbn [capacity] in E1, T1. rewrite E1. cbn [obind].
  rewrite !is_true_spec, K8, K3, K9. set (p := from_option _ false (last_value (lit "pipeline") kvs)). set (u := from_option _ false (last_value (lit "udp") kvs)).
  set (x := from_option _ false (last_value (lit "tcp-fastopen") kvs)).
  set (c2 := set srv_port _ c1). set (c3 := if p then _ else c2). set (c4 := if u then _ else c3).
  assert (config_ok c4) as O4 by (subst c4 c3 c2; destruct p, u; repeat apply set_ok; done).
  destruct (copy_opt_ok srv_udp_addr (l_udpa l) c4 O4) as (c5 & E5 & O5 & V5 & U5 & _ & T5 & B5). cbn [capacity] in E5, T5. rewrite E5. cbn [obind].
  destruct (credentials_ok (l_user l) (l_pass l) c5 O5 Hup) as (c6 & -> & O6 & V6 & T6 & T6' & U6 & B6). cbn [obind].
  set (c7 := match l_mark l with Some v => _ | None => c6 end). eexists. split; [done|].
  assert (config_ok c7) as O7 by (subst c7; destruct (l_mark l); [by apply set_ok|done]). split; [destruct (l_tfso l); [by apply set_ok|done]|].
  set (c8 := match l_tfso l with Some _ => _ | None => c7 end).
  assert (bufs c8 = bufs c6 /\ user c8 = user c6) as [Eb8 Eu8] by (subst c8 c7; by destruct (l_tfso l), (l_mark l)).
  assert (bufs c4 = bufs c1 /\ user c4 = user c) as [Eb4 Eu4] by (rewrite <- U1; subst c4 c3 c2; by destruct p, u).
  assert (forall w, vars c8 w = if decide (w = srv_fastopen) then from_option (fun _ => convert srv_fastopen (if x then 1 else 0)) (vars c7 srv_fastopen) (l_tfso l) else vars c7 w) as E8 by (intros w; apply set_opt_var).
  assert (forall w, vars c7 w = if decide (w = srv_mark) then from_option (fun v => u32 (strtoul (c_string v) 0)) (vars c4 srv_mark) (l_mark l) else vars c4 w) as E7
    by (intros w; subst c7; rewrite set_opt_var; by replace (vars c6) with (vars c4) by congruence).
  assert (forall b, b <> srv_udp_addr -> b <> _user -> b <> _pass -> bufs c8 b = bufs c1 b) as Eb by (intros b H1 H2 H3; rewrite Eb8, B6, B5, Eb4; done).
  assert (forall w, vars c4 w = if decide (w = srv_udp_in_udp) then (if u then 1 else vars c w) else if decide (w = srv_pipeline) then (if p then 1 else vars c w)
    else if decide (w = srv_port) then u16 (number (c_string port)) else vars c w) as E4.
  { intros w. subst c4. rewrite set_if_var. subst c3. rewrite !set_if_var. subst c2. cbn [set vars]. rewrite V1. by destruct w, u, p. }
  constructor; unfold latest, text in *; rewrite ?E8, ?E7, ?Eb8, ?Eu8, ?E4; repeat first [rewrite decide_True by done|rewrite decide_False by done].
  - rewrite <- Eb8, Eb by done. rewrite T1, <- K1. done.
  - by rewrite <- K2.
  - subst p. by destruct (last_value (lit "pipeline") kvs).
  - subst u. by destruct (last_value (lit "udp") kvs).
  - rewrite B6, T5, K4 by done. rewrite Eb4, B1 by done. done.
  - rewrite T6, K5, B5, Eb4, B1 by done. done.
  - rewrite T6', K6, B5, Eb4, B1 by done. done.
  - by rewrite U6, K5, U5, Eu4.
  - rewrite <- K7. by destruct (l_mark l).
  - subst x. rewrite <- K9. destruct (l_tfso l) as [v|]; [|done]. cbn [fmap option_fmap option_map from_option]. by destruct (same_text _ _).
  - intros v Hv. rewrite E8, decide_False by set_solver. rewrite E7, decide_False by set_solver. rewrite E4, !decide_False by set_solver. done.
  - intros b Hb. rewrite <- Eb8, Eb, B1 by set_solver. done.
Qed.

Lemma parse_socks5_ok doc pairs c : config_ok c ->
  exists r c', hev_config_parse_socks5 doc (Some (YAML_MAPPING_NODE pairs)) c = Val (r, c') /\ config_ok c' /\
    (socks5_complete (scalars doc pairs) = true /\ r = 0 /\ socks5_result c (scalars doc pairs) c' \/
     socks5_complete (scalars doc pairs) = false /\ r = -1 /\ c' = c).
Proof.
  intros K. cbn [hev_config_parse_socks5].
  destruct (for_scalars_ind doc socks5_pair socks5_seen pairs (mkSocks5 None None None None None None None None None)) as (l & -> & M).
  { by constructor. }
  { intros. by apply socks5_pair_ok. }
  cbn [obind]. unfold socks5_complete. rewrite <- (ss_port _ _ M), <- (ss_addr _ _ M), <- (ss_user _ _ M), <- (ss_pass _ _ M).
  destruct (l_port l) as [port|] eqn:Ep; [|exists (-1), c; split; [done|]; split; [done|by right]].
  destruct (l_addr l) as [addr|] eqn:Ea; [|exists (-1), c; split; [done|]; split; [done|by right]]. cbn [fmap option_fmap option_map].
  assert ((is_Some (l_user l) <-> is_Some (l_pass l)) -> exists c', socks5_store addr port l c = Val c' /\ config_ok c' /\ socks5_result c (scalars doc pairs) c') as Hst
    by (intros H; by apply socks5_store_ok).
  destruct (l_user l) as [u|], (l_pass l) as [p|]; cbn [fmap option_fmap option_map].
  - destruct Hst as (c' & -> & K' & R); [by split|]. exists 0, c'. split; [done|]. split; [done|by left].
  - exists (-1), c. split; [done|]. split; [done|by right].
  - exists (-1), c. split; [done|]. split; [done|by right].
  - destruct Hst as (c' & -> & K' & R); [done|]. exists 0, c'. split; [done|]. split; [done|by left].
Qed.

(** ** Section tunnel *)

(** The pairs of the section that name a scalar. *)
Fixpoint tunnel_scalars (doc : yaml_document_t) (pairs : list (Z * Z)) : list (bytes * bytes) :=
  match pairs with
  | [] => []
  | (k, v) :: pairs =>
      if (k =? 0) || (v =? 0) then []
      else
        match yaml_document_get_node doc k, yaml_document_get_node doc v with
        | Some (YAML_SCALAR_NODE key), Some (YAML_SCALAR_NODE value) => (c_string key, c_string value) :: tunnel_scalars doc pairs
        | Some (YAML_SCALAR_NODE _), Some _ => tunnel_scalars doc pairs
        | _, _ => []
        end
  end.

Definition tunnel_bufs : list (string * buf) :=
  [("name", tun_name); ("post-up-script", tun_post_up_script); ("pre-down-script", tun_pre_down_script)]%string.

(** What section tunnel means, up to the addresses, which nested mappings can also set. *)
Record tunnel_result (c : config) (kvs : list (bytes * bytes)) (c' : config) : Prop := {
  tr_mtu : vars c' tun_mtu = latest "mtu" kvs (fun s => u32 (number s)) (vars c tun_mtu);
  tr_multi : vars c' multi_queue = latest "multi-queue" kvs (fun s => i32 (strcasecmp s (lit "false"))) (vars c multi_queue);
  tr_texts : forall k b, (k, b) ∈ tunnel_bufs -> text b c' = latest k kvs (take 63) (text b c);
  tr_vars : forall v, v ∉ [tun_mtu; multi_queue] -> vars c' v = vars c v;
  tr_bufs : forall b, b ∉ [tun_name; tun_post_up_script; tun_pre_down_script; tun_ipv4_address; tun_ipv6_address] -> bufs c' b = bufs c b;
  tr_user : user c' = user c /\ pass c' = pass c;
}.

(** [c'] differs from [c] in the buffer [b] only. *)
Definition only_buf (b : buf) (c c' : config) : Prop :=
  config_ok c' /\ vars c' = vars c /\ user c' = user c /\ pass c' = pass c /\ forall d, d <> b -> bufs c' d = bufs c d.

Lemma only_buf_refl b c : config_ok c -> only_buf b c c.
Proof. intros K. split; [done|]. do 3 (split; [done|]). done. Qed.

Lemma copy_only b value c : config_ok c -> exists c', copy_to b value (capacity b) c = Val c' /\ only_buf b c c' /\ text b c' = take (Z.to_nat (capacity b)) (c_string value).
Proof. intros K. destruct (copy_to_ok b value c K) as (c' & E & O & V & U & P & T & B). exists c'. split; [done|]. split; [|done]. by split. Qed.

(** The loops of the nested sections. *)
Lemma address_loop_ok doc b pairs c : config_ok c ->
  exists c', for_scalars doc pairs (fun key value c => if key_is key "address" then copy_to b value (capacity b) c else Val c) c = Val c' /\ only_buf b c c'.
Proof.
  intros K. destruct (for_scalars_ind doc (fun key value c => if key_is key "address" then copy_to b value (capacity b) c else Val c)
    (fun _ d => only_buf b c d) pairs c) as (c' & E & H); [by apply only_buf_refl| |by exists c'].
  intros _ key value d (O & V & U & P & B). destruct (key_is key "address"); [|by exists d].
  destruct (copy_only b value d O) as (d' & E & (O' & V' & U' & P' & B') & _). exists d'. split; [done|].
  split; [done|]. do 3 (split; [congruence|]). intros e He. rewrite B', B; done.
Qed.

Lemma nested_ok doc (parse : option yaml_node_t -> config -> outcome (Z * config)) b node c :
  (forall pairs c, parse (Some (YAML_MAPPING_NODE pairs)) c =
     let! c := for_scalars doc pairs (fun key value c => if key_is key "address" then copy_to b value (capacity b) c else Val c) c in Val (0, c)) ->
  (forall node c, (forall pairs, node <> YAML_MAPPING_NODE pairs) -> parse (Some node) c = Val (-1, c)) ->
  config_ok c -> exists c', (let! (_, c) := parse (Some node) c in Val c) = Val c' /\ only_buf b c c'.
Proof.
  intros Hm Hn K. destruct node as [v|l|pairs]; [rewrite Hn by done|rewrite Hn by done|].
  - exists c. split; [done|by apply only_buf_refl].
  - exists c. split; [done|by apply only_buf_refl].
  - rewrite Hm. destruct (address_loop_ok doc b pairs c K) as (c' & -> & H). by exists c'.
Qed.

Lemma only_buf_result c kvs d d' b : tunnel_result c kvs d -> only_buf b d d' -> b = tun_ipv4_address \/ b = tun_ipv6_address -> tunnel_result c kvs d'.
Proof.
  intros [R1 R2 R3 R4 R5 R6] (_ & V & U & P & B) Hb. constructor; rewrite ?V, ?U, ?P; try done.
  - intros k e He. rewrite <- (R3 k e He). unfold text. rewrite B; [done|]. entries He; destruct Hb as [-> | ->]; done.
  - intros e He. rewrite B; [by apply R5|]. destruct Hb as [-> | ->]; set_solver.
Qed.

(** A pair that is not one of those of [tunnel_result] changes nothing there. *)
Lemma tunnel_result_skip c kvs k v d : tunnel_result c kvs d ->
  (forall s, s ∈ ["name"; "mtu"; "multi-queue"; "post-up-script"; "pre-down-script"]%string -> k <> lit s) -> tunnel_result c (kvs ++ [(k, v)]) d.
Proof.
  intros [R1 R2 R3 R4 R5 R6] Hk. constructor; try done; rewrite ?latest_snoc, ?bool_decide_false; try done; try (apply Hk; repeat constructor).
  intros s b Hs. rewrite latest_snoc, bool_decide_false; [by apply R3|]. apply Hk. entries Hs; repeat constructor.
Qed.

(** A string of the section. *)
Lemma tunnel_result_copy c kvs k b v d d' : tunnel_result c kvs d -> (k, b) ∈ tunnel_bufs -> only_buf b d d' -> text b d' = take 63 v ->
  tunnel_result c (kvs ++ [(lit k, v)]) d'.
Proof.
  intros [R1 R2 R3 R4 R5 R6] Hk (_ & V & U & P & B) T. constructor; rewrite ?V, ?U, ?P, ?latest_snoc; try done.
  - entries Hk; lit_dec; done.
  - entries Hk; lit_dec; done.
  - intros s e He. rewrite latest_snoc. destruct (decide (e = b)) as [->|Hne].
    + assert (s = k) as -> by (entries He; entries Hk; done). by rewrite bool_decide_true, T.
    + rewrite <- (R3 s e He). unfold text at 1. rewrite B by done. fold (text e d). entries He; entries Hk; lit_dec; done.
  - intros e He. rewrite B; [by apply R5|]. entries Hk; set_solver.
Qed.

Lemma tunnel_scalar_ok doc c kvs key v d : config_ok d -> tunnel_result c kvs d ->
  exists d', tunnel_pair doc key (YAML_SCALAR_NODE v) d = Val d' /\ config_ok d' /\ tunnel_result c (kvs ++ [(c_string key, c_string v)]) d'.
Proof.
  intros K R. unfold tunnel_pair. keys.
  assert (forall k b, (k, b) ∈ tunnel_bufs -> c_string key = lit k -> exists d', copy_to b v 63 d = Val d' /\ config_ok d' /\ tunnel_result c (kvs ++ [(c_string key, c_string v)]) d') as Hcopy.
  { intros k b Hk Ek. assert (capacity b = 63) as Ec by (entries Hk; done). destruct (copy_only b v d K) as (d' & E & O & T). rewrite Ec in E, T.
    exists d'. split; [done|]. split; [by destruct O|]. rewrite Ek. by eapply tunnel_result_copy. }
  assert (forall k b, (k, b) ∈ [("ipv4", tun_ipv4_address); ("ipv6", tun_ipv6_address)]%string -> c_string key = lit k ->
    exists d', copy_to b v (capacity b) d = Val d' /\ config_ok d' /\ tunnel_result c (kvs ++ [(c_string key, c_string v)]) d') as Haddr.
  { intros k b Hk Ek. destruct (copy_only b v d K) as (d' & E & O & T). exists d'. split; [done|]. split; [by destruct O|].
    apply (tunnel_result_skip _ _ _ _ _) ; [|intros s Hs; rewrite Ek; entries Hk; set_unfold in Hs; destruct_or! Hs; subst; discriminate].
    eapply only_buf_result; [done|exact O|]. entries Hk; auto. }
  key_cases.
  - apply (Hcopy "name"%string); [repeat constructor|done].
  - eexists. split; [done|]. split; [by apply set_ok|]. destruct R as [R1 R2 R3 R4 R5 R6].
    constructor; rewrite ?set_same, ?set_other, ?latest_snoc by done; lit_dec; try done.
    + intros s b Hs. rewrite latest_snoc. pose proof (R3 s b Hs) as E. entries Hs; lit_dec; done.
    + intros w Hw. rewrite set_other by set_solver. by apply R4.
  - eexists. split; [done|]. split; [by apply set_ok|]. destruct R as [R1 R2 R3 R4 R5 R6].
    constructor; rewrite ?set_same, ?set_other, ?latest_snoc by done; lit_dec; try done.
    + intros s b Hs. rewrite latest_snoc. pose proof (R3 s b Hs) as E. entries Hs; lit_dec; done.
    + intros w Hw. rewrite set_other by set_solver. by apply R4.
  - apply (Haddr "ipv4"%string); [repeat constructor|done].
  - apply (Haddr "ipv6"%string); [repeat constructor|done].
  - apply (Hcopy "post-up-script"%string); [repeat constructor|done].
  - apply (Hcopy "pre-down-script"%string); [repeat constructor|done].
  - exists d. split; [done|]. split; [done|]. apply tunnel_result_skip; [done|]. intros s Hs. set_unfold in Hs. destruct_or! Hs; subst; done.
Qed.

Lemma tunnel_nested_ok doc c kvs key node d : config_ok d -> tunnel_result c kvs d -> (forall v, node <> YAML_SCALAR_NODE v) ->
  exists d', tunnel_pair doc key node d = Val d' /\ config_ok d' /\ tunnel_result c kvs d'.
Proof.
  intros K R Hn. assert (forall b d', only_buf b d d' -> b = tun_ipv4_address \/ b = tun_ipv6_address -> config_ok d' /\ tunnel_result c kvs d') as Hd
    by (intros b d' O Hb; split; [by destruct O|by eapply only_buf_result]).
  assert (forall n c, (forall pairs, n <> YAML_MAPPING_NODE pairs) -> hev_config_parse_tunnel_ipv4 doc (Some n) c = Val (-1, c)) as N4 by (intros [] ? H; try done; by destruct (H pairs)).
  assert (forall n c, (forall pairs, n <> YAML_MAPPING_NODE pairs) -> hev_config_parse_tunnel_ipv6 doc (Some n) c = Val (-1, c)) as N6 by (intros [] ? H; try done; by destruct (H pairs)).
  destruct (nested_ok doc (hev_config_parse_tunnel_ipv4 doc) tun_ipv4_address node d) as (d1 & E1 & O1); [done|done|done|].
  destruct (nested_ok doc (hev_config_parse_tunnel_ipv6 doc) tun_ipv6_address node d) as (d2 & E2 & O2); [done|done|done|].
  unfold tunnel_pair. destruct node as [v| |]; [by destruct (Hn v)| |].
  - destruct (key_is key "ipv4"); [exists d1; split; [done|]; apply (Hd _ _ O1); auto|]. destruct (key_is key "ipv6"); [exists d2; split; [done|]; apply (Hd _ _ O2); auto|by exists d].
  - destruct (key_is key "ipv4"); [exists d1; split; [done|]; apply (Hd _ _ O1); auto|]. destruct (key_is key "ipv6"); [exists d2; split; [done|]; apply (Hd _ _ O2); auto|by exists d].
Qed.

Lemma parse_tunnel_ok doc pairs c : config_ok c ->
  exists c', hev_config_parse_tunnel doc (Some (YAML_MAPPING_NODE pairs)) c = Val (0, c') /\ config_ok c' /\ tunnel_result c (tunnel_scalars doc pairs) c'.
Proof.
  intros K. cbn [hev_config_parse_tunnel].
  assert (forall kvs d, config_ok d -> tunnel_result c kvs d -> exists d', tunnel_loop doc pairs d = Val d' /\ config_ok d' /\ tunnel_result c (kvs ++ tunnel_scalars doc pairs) d') as H.
  { induction pairs as [|[k v] pairs IH]; intros kvs d Kd R; cbn [tunnel_loop tunnel_scalars]; [exists d; by rewrite app_nil_r|].
    destruct (_ || _); [exists d; by rewrite app_nil_r|].
    destruct (yaml_document_get_node doc k) as [[key| |]|]; try (exists d; by rewrite app_nil_r).
    destruct (yaml_document_get_node doc v) as [node|]; [|exists d; by rewrite app_nil_r]. destruct node as [value|items|ps].
    - destruct (tunnel_scalar_ok doc c kvs key value d Kd R) as (d1 & -> & K1 & R1). cbn [obind]. destruct (IH _ _ K1 R1) as (d2 & E & K2 & R2).
      exists d2. rewrite <- app_assoc in R2. done.
    - destruct (tunnel_nested_ok doc c kvs key (YAML_SEQUENCE_NODE items) d Kd R) as (d1 & -> & K1 & R1); [done|]. cbn [obind]. by apply IH.
    - destruct (tunnel_nested_ok doc c kvs key (YAML_MAPPING_NODE ps) d Kd R) as (d1 & -> & K1 & R1); [done|]. cbn [obind]. by apply IH. }
  destruct (H [] c K) as (c' & -> & K' & R); [by constructor|]. cbn [obind]. by exists c'.
Qed.

(** ** Documents *)

(** The sections that the outer loop sees. *)
Fixpoint sections (doc : yaml_document_t) (pairs : list (Z * Z)) : list (bytes * option yaml_node_t) :=
  match pairs with
  | [] => []
  | (k, v) :: pairs =>
      if (k =? 0) || (v =? 0) then []
      else
        match yaml_document_get_node doc k with
        | Some (YAML_SCALAR_NODE key) => (c_string key, yaml_document_get_node doc v) :: sections doc pairs
        | _ => []
        end
  end.

Definition is_mapping (node : option yaml_node_t) : bool := match node with Some (YAML_MAPPING_NODE _) => true | _ => false end.

(** When a section is accepted. *)
Definition section_accepted (doc : yaml_document_t) (s : bytes * option yaml_node_t) : bool :=
  if bool_decide (s.1 = lit "socks5") then
    match s.2 with Some (YAML_MAPPING_NODE pairs) => socks5_complete (scalars doc pairs) | _ => false end
  else if bool_decide (s.1 ∈ lit <$> ["tunnel"; "mapdns"; "misc"]%string) then is_mapping s.2
  else true.

(** When a document is: its root is a mapping whose sections are. *)
Definition accepted (doc : yaml_document_t) : bool :=
  match yaml_document_get_root_node doc with
  | Some (YAML_MAPPING_NODE pairs) => forallb (section_accepted doc) (sections doc pairs)
  | _ => false
  end.

(** The sizes fit together: the stack of a task has room for the buffers on it. *)
Definition sizes_ok (c : config) : Prop :=
  vars c tcp_buffer_size <= TCP_SND_BUF /\
  TASK_STACK_SIZE + vars c tcp_buffer_size <= vars c task_stack_size /\
  TASK_STACK_SIZE + UDP_BUF_SIZE * vars c udp_copy_buffer_nums <= vars c task_stack_size.

Section document.
Context (inet_pton4 : bytes -> option Z) (doc : yaml_document_t).

Lemma parse_section_ok key node c : config_ok c ->
  exists r c', parse_section inet_pton4 doc key node c = Val (r, c') /\ config_ok c' /\
    (section_accepted doc (c_string key, node) = true /\ r = 0 \/ section_accepted doc (c_string key, node) = false /\ r = -1 /\ c' = c).
Proof.
  intros K. unfold parse_section, section_accepted. cbn [fst snd]. keys.
  assert (forall k, c_string key = lit k -> k ∈ ["tunnel"; "mapdns"; "misc"]%string -> c_string key <> lit "socks5" /\ c_string key ∈ lit <$> ["tunnel"; "mapdns"; "misc"]%string) as Hin.
  { intros k Ek Hk. split; [|rewrite Ek; by apply list_elem_of_fmap_2]. rewrite Ek. set_unfold in Hk. destruct_or! Hk; subst; discriminate. }
  destruct (bool_decide_reflect (c_string key = lit "tunnel")) as [E|N1].
  { destruct (Hin _ E) as [H1 H2]; [repeat constructor|]. rewrite bool_decide_false, bool_decide_true by done. unfold is_mapping.
    destruct node as [[v|l|pairs]|]; try (exists (-1), c; split; [done|]; split; [done|by right]).
    destruct (parse_tunnel_ok doc pairs c K) as (c' & E' & K' & _). exists 0, c'. split; [done|]. split; [done|by left]. }
  destruct (bool_decide_reflect (c_string key = lit "socks5")) as [E|N2].
  { destruct node as [[v|l|pairs]|]; try (exists (-1), c; split; [done|]; split; [done|by right]).
    destruct (parse_socks5_ok doc pairs c K) as (r & c' & E' & K' & [(S & R & _)|(S & R & R')]); exists r, c'; (split; [done|]); (split; [done|]); [by left|by right]. }
  destruct (bool_decide_reflect (c_string key = lit "mapdns")) as [E|N3].
  { destruct (Hin _ E) as [H1 H2]; [repeat constructor|]. rewrite (bool_decide_true (_ ∈ _)) by done. unfold is_mapping.
    destruct node as [[v|l|pairs]|]; try (exists (-1), c; split; [done|]; split; [done|by right]).
    destruct (parse_mapdns_ok inet_pton4 doc pairs c K) as (c' & E' & K' & _). exists 0, c'. split; [done|]. split; [done|by left]. }
  destruct (bool_decide_reflect (c_string key = lit "misc")) as [E|N4].
  { destruct (Hin _ E) as [H1 H2]; [repeat constructor|]. rewrite (bool_decide_true (_ ∈ _)) by done. unfold is_mapping.
    destruct node as [[v|l|pairs]|]; try (exists (-1), c; split; [done|]; split; [done|by right]).
    destruct (parse_misc_ok doc pairs c K) as (c' & E' & K' & _). exists 0, c'. split; [done|]. split; [done|by left]. }
  exists 0, c. split; [done|]. split; [done|]. left. split; [|done]. rewrite bool_decide_false; [done|]. cbn [fmap list_fmap]. set_solver.
Qed.

Lemma doc_loop_ok pairs : forall c, config_ok c ->
  exists r c', doc_loop inet_pton4 doc pairs c = Val (r, c') /\ config_ok c' /\
    (forallb (section_accepted doc) (sections doc pairs) = true /\ r = 0 \/ forallb (section_accepted doc) (sections doc pairs) = false /\ r = -1).
Proof.
  induction pairs as [|[k v] pairs IH]; intros c K; cbn [doc_loop sections]; [exists 0, c; split; [done|]; split; [done|by left]|].
  destruct (_ || _); [exists 0, c; split; [done|]; split; [done|by left]|].
  destruct (yaml_document_get_node doc k) as [[key| |]|]; try (exists 0, c; split; [done|]; split; [done|by left]). cbn [forallb].
  destruct (parse_section_ok key (yaml_document_get_node doc v) c K) as (r & c1 & -> & K1 & [(-> & ->)|(-> & -> & ->)]); cbn [obind andb].
  - change (0 <? 0) with false. cbn iota. by apply IH.
  - change (-1 <? 0) with true. cbn iota. exists (-1), c. split; [done|]. split; [done|by right].
Qed.

Lemma adjust_ok c : config_ok c ->
  (exists c', adjust c = Val c' /\ config_ok c' /\ sizes_ok c') \/
  adjust c = Fault /\ ~ (INT_MIN <= UDP_BUF_SIZE * vars c udp_copy_buffer_nums /\ TASK_STACK_SIZE + UDP_BUF_SIZE * vars c udp_copy_buffer_nums <= INT_MAX).
Proof.
  intros K. unfold adjust, sizes_ok. set (c1 := if _ >? _ then _ else c).
  assert (config_ok c1) as K1 by (subst c1; destruct (_ >? _); [by apply set_ok|done]).
  assert (vars c1 udp_copy_buffer_nums = vars c udp_copy_buffer_nums) as En by (subst c1; rewrite set_if_var; by rewrite decide_False).
  assert (vars c1 tcp_buffer_size <= TCP_SND_BUF) as Ht.
  { subst c1. rewrite set_if_var, decide_True by done. rewrite Z.gtb_ltb. destruct (Z.ltb_spec TCP_SND_BUF (vars c tcp_buffer_size)); [done|lia]. }
  rewrite En. set (u := UDP_BUF_SIZE * _) in *. pose proof (c_types c1 K1 tcp_buffer_size) as Hr. cbn [in_range] in Hr. unfold is_i32, INT_MIN, INT_MAX in Hr.
  unfold int, is_i32. case_bool; cbn [obind]; [|right; split; [done|unfold TASK_STACK_SIZE; lia]].
  rewrite Z.gtb_ltb. set (mx := if u <? _ then _ else u).
  assert (vars c1 tcp_buffer_size <= mx /\ u <= mx /\ (mx = u \/ mx = vars c1 tcp_buffer_size)) as (H1 & H2 & H3) by (subst mx; destruct (Z.ltb_spec u (vars c1 tcp_buffer_size)); lia).
  unfold TASK_STACK_SIZE, TCP_SND_BUF in *. case_bool; cbn [obind]; [left|right; split; [done|unfold INT_MIN, INT_MAX in *; lia]].
  eexists. split; [done|]. destruct (Z.ltb_spec (vars c1 task_stack_size) (20480 + mx)).
  - split; [by apply set_ok|]. rewrite set_same, !set_other by done. cbn [convert]. rewrite i32_id by (unfold is_i32; lia). rewrite En. subst u. lia.
  - split; [done|]. rewrite En. subst u. lia.
Qed.

Lemma parse_doc_ok c : config_ok c ->
  match hev_config_parse_doc inet_pton4 doc c with
  | Val (r, c') => config_ok c' /\ (r = 0 /\ accepted doc = true /\ sizes_ok c' \/ r = -1 /\ accepted doc = false)
  | Fault =>
      accepted doc = true /\ exists pairs c', yaml_document_get_root_node doc = Some (YAML_MAPPING_NODE pairs) /\ doc_loop inet_pton4 doc pairs c = Val (0, c') /\
      ~ (INT_MIN <= UDP_BUF_SIZE * vars c' udp_copy_buffer_nums /\ TASK_STACK_SIZE + UDP_BUF_SIZE * vars c' udp_copy_buffer_nums <= INT_MAX)
  end.
Proof.
  intros K. unfold hev_config_parse_doc, accepted. destruct (yaml_document_get_root_node doc) as [[v|l|pairs]|]; try (split; [done|by right]).
  destruct (doc_loop_ok pairs c K) as (r & c1 & E & K1 & [(-> & ->)|(-> & ->)]); rewrite E; cbn [obind].
  - change (0 <? 0) with false. cbn iota. destruct (adjust_ok c1 K1) as [(c2 & -> & K2 & S)|(-> & H)]; cbn [obind]; [split; [done|by left]|]. split; [done|]. by exists pairs, c1.
  - change (-1 <? 0) with true. cbn iota. split; [done|by right].
Qed.

End document.

Lemma defaults_ok : config_ok defaults.
Proof.
  constructor; [by intros []| |done]. intros b. exists (replicate (Z.to_nat (capacity b)) 0). pose proof (capacity_size b). rewrite zlen_replicate. split; [lia|].
  cbn [defaults bufs]. rewrite <- replicate_add. f_equal. lia.
Qed.

(** ** Properties *)

(** The document of an input, if there is one. *)
Definition loads (parser_ok file_ok : bool) (loaded : option yaml_document_t) : option yaml_document_t :=
  if parser_ok && file_ok then loaded else None.

Lemma text_short b c : config_ok c -> zlen (text b c) <= capacity b.
Proof.
  intros K. destruct (c_bufs c K b) as (t & Et & E). unfold text. rewrite E. pose proof (capacity_size b). destruct (Z.to_nat (sizeof b - capacity b)) as [|n] eqn:En; [lia|].
  rewrite <- Et. clear. induction t as [|x t IH]; cbn [app replicate c_string]; [done|]. destruct (x =? 0); rewrite ?zlen_cons, ?zlen_nil; pose proof (zlen_nonneg t); cbn [replicate] in IH; lia.
Qed.

Lemma init_ok inet_pton4 parser_ok file_ok loaded c : config_ok c ->
  match hev_config_init_from_file inet_pton4 parser_ok file_ok loaded c with
  | Val (r, c', held) => held = [] /\ config_ok c' /\
      match loads parser_ok file_ok loaded with
      | Some doc => r = 0 /\ accepted doc = true /\ sizes_ok c' \/ r = -1 /\ accepted doc = false
      | None => r = -1 /\ c' = c
      end
  | Fault => exists doc, loads parser_ok file_ok loaded = Some doc /\ accepted doc = true /\ hev_config_parse_doc inet_pton4 doc c = Fault
  end.
Proof.
  intros K. unfold hev_config_init_from_file, exit_free_parser, exit_close_fp, use_document, loads.
  destruct parser_ok; cbn [negb andb]; [|done]. change (release RParser [RParser]) with (Val (@nil resource)). cbn [obind]. destruct file_ok; cbn [negb]; [|done].
  change (release RFile [RFile; RParser]) with (Val [RParser]). destruct loaded as [doc|]; [|done].
  pose proof (parse_doc_ok inet_pton4 doc c K) as H. destruct (hev_config_parse_doc inet_pton4 doc c) as [[r c']|] eqn:E; cbn [obind]; [|by exists doc; destruct H].
  change (release RDocument [RDocument; RFile; RParser]) with (Val [RFile; RParser]). cbn [obind]. by destruct H as [K' H].
Qed.

(** C33: Loading a configuration file is safe and total: whatever the document and the
    settings before, the outcome is an error or an accepted document, as [accepted] says
    (all visited sections mappings; socks5 with port and address, user name and password
    both or none); no access leaves a buffer, parser, file and document are
    given back, every setting fits its type and every string is terminated; after
    success the stack of a task has room for its buffers; the only undefined behaviour is
    the overflow of a huge number of UDP buffers in an accepted document. *)
Theorem config_load_total inet_pton4 parser_ok file_ok loaded c : config_ok c ->
  match hev_config_init_from_file inet_pton4 parser_ok file_ok loaded c with
  | Val (r, c', held) =>
      held = [] /\ config_ok c' /\
      (forall b, exists s, get_string b c' = Val s /\ zlen (default [] s) <= capacity b) /\
      match loads parser_ok file_ok loaded with
      | Some doc => r = 0 /\ accepted doc = true /\ sizes_ok c' \/ r = -1 /\ accepted doc = false
      | None => r = -1 /\ c' = c
      end
  | Fault =>
      exists doc pairs c', loads parser_ok file_ok loaded = Some doc /\ accepted doc = true /\
        yaml_document_get_root_node doc = Some (YAML_MAPPING_NODE pairs) /\ doc_loop inet_pton4 doc pairs c = Val (0, c') /\
        ~ (INT_MIN <= UDP_BUF_SIZE * vars c' udp_copy_buffer_nums /\ TASK_STACK_SIZE + UDP_BUF_SIZE * vars c' udp_copy_buffer_nums <= INT_MAX)
  end.
Proof.
  intros K. pose proof (init_ok inet_pton4 parser_ok file_ok loaded c K) as H. destruct (hev_config_init_from_file _ _ _ _ _) as [[[r c'] held]|].
  - destruct H as (-> & K' & H). split; [done|]. split; [done|]. split; [|done]. intros b. rewrite get_string_ok by done. eexists. split; [done|].
    pose proof (text_short b c' K'). pose proof (capacity_size b). by destruct (text b c').
  - destruct H as (doc & E & Ha & Hp). pose proof (parse_doc_ok inet_pton4 doc c K) as H. rewrite Hp in H. destruct H as (_ & pairs & c' & H). by exists doc, pairs, c'.
Qed.

(** The sections mean what they say: after a section is parsed, every setting of it is
    that of the last pair with its key (numbers read in decimal and converted to the type,
    texts cut to the buffer; scripts already to 63 bytes; addresses the last that could be
    read; either timeout falls back to the common one), a setting without a pair keeps the
    value it had, and the settings of other sections are untouched; an incomplete section
    socks5 changes nothing. *)
Theorem config_section_values inet_pton4 doc pairs c : config_ok c ->
  (exists c', hev_config_parse_tunnel doc (Some (YAML_MAPPING_NODE pairs)) c = Val (0, c') /\ tunnel_result c (tunnel_scalars doc pairs) c') /\
  (exists c', hev_config_parse_mapdns inet_pton4 doc (Some (YAML_MAPPING_NODE pairs)) c = Val (0, c') /\ mapdns_result inet_pton4 c (scalars doc pairs) c') /\
  (exists c', hev_config_parse_misc doc (Some (YAML_MAPPING_NODE pairs)) c = Val (0, c') /\ misc_result c (scalars doc pairs) c') /\
  (exists c', if socks5_complete (scalars doc pairs)
     then hev_config_parse_socks5 doc (Some (YAML_MAPPING_NODE pairs)) c = Val (0, c') /\ socks5_result c (scalars doc pairs) c'
     else hev_config_parse_socks5 doc (Some (YAML_MAPPING_NODE pairs)) c = Val (-1, c)).
Proof.
  intros K. destruct (parse_tunnel_ok doc pairs c K) as (c1 & E1 & _ & R1), (parse_mapdns_ok inet_pton4 doc pairs c K) as (c2 & E2 & _ & R2).
  destruct (parse_misc_ok doc pairs c K) as (c3 & E3 & _ & R3), (parse_socks5_ok doc pairs c K) as (r & c4 & E4 & _ & R4).
  split; [by exists c1|]. split; [by exists c2|]. split; [by exists c3|]. exists c4. destruct R4 as [(-> & -> & R4)|(-> & -> & ->)]; done.
Qed.

(** ** Witnesses *)

Definition scalar (s : string) : yaml_node_t := YAML_SCALAR_NODE (lit s).

(** socks5: { port: 1080, address: host, username: u, password: p } *)
Definition example_doc : yaml_document_t :=
  [YAML_MAPPING_NODE [(2, 3)]; scalar "socks5"; YAML_MAPPING_NODE [(4, 5); (6, 7); (8, 9); (10, 11)];
   scalar "port"; scalar "1080"; scalar "address"; scalar "host"; scalar "username"; scalar "u"; scalar "password"; scalar "p"].

(** What the example leaves behind, and that a second section without credentials keeps
    those of the first. *)
Example example_doc_values : match hev_config_init_from_file (fun _ => None) true true (Some example_doc) defaults with
  | Val (r, c, held) => r = 0 /\ held = [] /\ vars c srv_port = 1080 /\ get_string srv_addr c = Val (Some (lit "host")) /\ user c = true /\
      match hev_config_parse_socks5 example_doc (Some (YAML_MAPPING_NODE [(4, 5); (6, 7)])) c with
      | Val (r, c) => r = 0 /\ user c = true /\ get_string _pass c = Val (Some (lit "p"))
      | Fault => False
      end
  | Fault => False
  end.
Proof. vm_compute. repeat split. Qed.

Lemma config_load_total_witness : match hev_config_init_from_file (fun _ => None) true true (Some example_doc) defaults with
  | Val (r, c', held) => held = [] /\ config_ok c' /\ (r = 0 /\ accepted example_doc = true /\ sizes_ok c' \/ r = -1 /\ accepted example_doc = false)
  | Fault => accepted example_doc = true
  end.
Proof.
  pose proof (config_load_total (fun _ => None) true true (Some example_doc) defaults defaults_ok) as H.
  destruct (hev_config_init_from_file _ _ _ _ _) as [[[r c'] held]|].
  - destruct H as (H1 & H2 & _ & H3). split; [exact H1|]. split; [exact H2|]. exact H3.
  - destruct H as (doc & pairs & c' & E & Ha & _). injection E as ->. exact Ha.
Defined.

Lemma config_section_values_witness :
  exists c', hev_config_parse_socks5 example_doc (Some (YAML_MAPPING_NODE [(4, 5); (6, 7)])) defaults = Val (0, c') /\
    socks5_result defaults (scalars example_doc [(4, 5); (6, 7)]) c'.
Proof.
  destruct (config_section_values (fun _ => None) example_doc [(4, 5); (6, 7)] defaults defaults_ok) as (_ & _ & _ & c' & H).
  exists c'. exact H.
Defined.

End Config.
