(* ===== verification/StopProtocol.v ===== *)
(** * Starting and stopping the service (src/hev-jni.c, src/hev-socks5-tunnel.c)

    The Java side starts a worker thread that runs [hev_socks5_tunnel_main] and later stops
    it: [hev_socks5_tunnel_stop] sets a flag and writes a byte into a socket pair on which
    the event task of the worker waits.  Pair and flag are shared without a lock, so the two
    threads are interleaved at every access to them ([READ_ONCE], [WRITE_ONCE], [write],
    creation and closing of the pair).  What else the worker does between those accesses
    does not touch them. *)

From Stdlib Require Import ZArith Lia.
From stdpp Require Import base list numbers.
From S2P Require Import Prelude.
Import list_basics.list list_relations.list list_monad.list list_misc.list.

Module StopProtocol.

(** ** State *)

(** The next access of the worker. *)
Inductive worker_pc :=
  | WNone          (* no thread *)
  | WStart         (* configuration, tunnel_init and gateway_init; next: the socket pair *)
  | WEvent         (* the rest of hev_socks5_tunnel_init *)
  | WCheck         (* READ_ONCE (stop_requested) in hev_socks5_tunnel_run *)
  | WSignalRead    (* READ_ONCE (event_fds[1]) in signal_stop_event *)
  | WSignalWrite (fd : Z)
  | WLoop          (* hev_task_system_run: the event task reads from the pair *)
  | WClear         (* WRITE_ONCE (stop_requested, 0) in hev_socks5_tunnel_run *)
  | WClose         (* event_task_fini *)
  | WFini          (* WRITE_ONCE (stop_requested, 0) in hev_socks5_tunnel_fini *)
  | WDone.         (* thread_handler returned *)

(** The next access of the thread inside [native_stop_service]; [JIdle] outside. *)
Inductive jni_pc :=
  | JIdle
  | JSet           (* WRITE_ONCE (stop_requested, 1) *)
  | JRead          (* READ_ONCE (event_fds[1]) *)
  | JWrite (fd : Z)
  | JJoin.         (* pthread_join *)

#[export] Instance worker_pc_eq_dec : EqDecision worker_pc.
Proof. solve_decision. Defined.
#[export] Instance jni_pc_eq_dec : EqDecision jni_pc.
Proof. solve_decision. Defined.

(** [event_fd] is [event_fds[1]], descriptors numbered in the order of their creation, the
    next one [fresh_fd]; [byte]: the open pair holds data; [stray]: a byte went to a
    descriptor that was closed, which the system may have given to another file. *)
Record service := mkService {
  is_working : bool; worker : worker_pc; jni : jni_pc; stop_requested : bool;
  event_fd : Z; byte : bool; fresh_fd : Z; stray : bool }.

Definition initial : service := mkService false WNone JIdle false (-1) false 3 false.

Definition set_worker (p : worker_pc) (s : service) : service :=
  mkService (is_working s) p (jni s) (stop_requested s) (event_fd s) (byte s) (fresh_fd s) (stray s).
Definition set_jni (p : jni_pc) (s : service) : service :=
  mkService (is_working s) (worker s) p (stop_requested s) (event_fd s) (byte s) (fresh_fd s) (stray s).
Definition set_stop (b : bool) (s : service) : service :=
  mkService (is_working s) (worker s) (jni s) b (event_fd s) (byte s) (fresh_fd s) (stray s).

(** [write (fd, &val, 1)] *)
Definition write_event (fd : Z) (s : service) : service :=
  if fd =? event_fd s then mkService (is_working s) (worker s) (jni s) (stop_requested s) (event_fd s) true (fresh_fd s) (stray s)
  else mkService (is_working s) (worker s) (jni s) (stop_requested s) (event_fd s) (byte s) (fresh_fd s) true.

Definition open_pair (s : service) : service :=
  mkService (is_working s) (worker s) (jni s) (stop_requested s) (fresh_fd s) false (fresh_fd s + 1) (stray s).
Definition close_pair (s : service) : service :=
  mkService (is_working s) (worker s) (jni s) (stop_requested s) (-1) false (fresh_fd s) (stray s).

(** ** Steps *)

(** [ok]: whether what the worker does up to its next access succeeds. *)
Definition worker_step (ok : bool) (s : service) : option service :=
  match worker s with
  | WNone | WDone => None
  | WStart => Some (if ok then set_worker WEvent (open_pair s) else set_worker WClose s)
  | WEvent => Some (set_worker (if ok then WCheck else WClose) s)
  | WCheck => Some (set_worker (if stop_requested s then WSignalRead else WLoop) s)
  | WSignalRead => Some (set_worker (if event_fd s <? 0 then WLoop else WSignalWrite (event_fd s)) s)
  | WSignalWrite fd => Some (set_worker WLoop (write_event fd s))
  | WLoop => if byte s then Some (set_worker WClear s) else None
  | WClear => Some (set_worker WClose (set_stop false s))
  | WClose => Some (set_worker WFini (close_pair s))
  | WFini => Some (set_worker WDone (set_stop false s))
  end.

(** The worker gives up before [hev_socks5_tunnel_init]: no configuration, logger or task
    system. *)
Definition worker_give_up (s : service) : option service :=
  match worker s with
  | WStart => Some (set_worker WDone s)
  | _ => None
  end.

(** [native_start_service]; the mutex keeps it apart from the other. *)
Definition native_start_service (s : service) : option service :=
  match jni s with
  | JIdle => if is_working s then None else Some (mkService true WStart JIdle (stop_requested s) (event_fd s) (byte s) (fresh_fd s) (stray s))
  | _ => None
  end.

(** [native_stop_service] *)
Definition native_stop_service (s : service) : option service :=
  match jni s with
  | JIdle => if is_working s then Some (set_jni JSet s) else None
  | _ => None
  end.

Definition jni_step (s : service) : option service :=
  match jni s with
  | JIdle => None
  | JSet => Some (set_jni JRead (set_stop true s))
  | JRead => Some (set_jni (if event_fd s <? 0 then JJoin else JWrite (event_fd s)) s)
  | JWrite fd => Some (set_jni JJoin (write_event fd s))
  | JJoin =>
      if bool_decide (worker s = WDone)
      then Some (mkService false WNone JIdle (stop_requested s) (event_fd s) (byte s) (fresh_fd s) (stray s)) else None
  end.

Inductive action := Start | Stop | Worker (ok : bool) | GiveUp | Jni.

Definition perform (a : action) (s : service) : option service :=
  match a with
  | Start => native_start_service s
  | Stop => native_stop_service s
  | Worker ok => worker_step ok s
  | GiveUp => worker_give_up s
  | Jni => jni_step s
  end.

Definition step (s s' : service) : Prop := exists a, perform a s = Some s'.

Fixpoint perform_all (l : list action) (s : service) : option service :=
  match l with
  | [] => Some s
  | a :: l => match perform a s with Some s => perform_all l s | None => None end
  end.

Inductive reachable : service -> Prop :=
  | reach_initial : reachable initial
  | reach_step s s' : reachable s -> step s s' -> reachable s'.

(** Whatever is scheduled, a state of [P] is reached, and it never comes to a halt before. *)
Inductive inevitable (P : service -> Prop) (s : service) : Prop :=
  | inevitable_now : P s -> inevitable P s
  | inevitable_later : (exists s', step s s') -> (forall s', step s s' -> inevitable P s') -> inevitable P s.

(** ** Invariant *)

(** The pair is open. *)
Definition has_pair (w : worker_pc) : bool :=
  match w with
  | WEvent | WCheck | WSignalRead | WSignalWrite _ | WLoop | WClear => true
  | _ => false
  end.

(** The worker has yet to look at the flag. *)
Definition before_check (w : worker_pc) : bool :=
  match w with WStart | WEvent | WCheck => true | _ => false end.

(** The stopping thread has set the flag. *)
Definition flag_set (j : jni_pc) : bool :=
  match j with JRead | JWrite _ | JJoin => true | _ => false end.

Record inv (s : service) : Prop := {
  i_fresh : 3 <= fresh_fd s /\ (event_fd s = -1 \/ 3 <= event_fd s < fresh_fd s);
  i_open : has_pair (worker s) = true -> 3 <= event_fd s;
  i_shut : has_pair (worker s) = false -> worker s <> WClose -> event_fd s = -1;
  i_signal : forall fd, worker s = WSignalWrite fd -> fd = event_fd s;
  i_flag : flag_set (jni s) = true -> before_check (worker s) = true -> stop_requested s = true;
  i_write : forall fd, jni s = JWrite fd -> 3 <= fd < fresh_fd s /\ (has_pair (worker s) = true -> fd = event_fd s);
  i_start : forall fd, jni s = JWrite fd -> worker s <> WStart;
  i_join : jni s = JJoin -> worker s = WLoop -> byte s = true;
  i_working : is_working s = false <-> worker s = WNone;
  i_jni : is_working s = false -> jni s = JIdle;
}.

(** ** Proofs *)

(** The fields of the invariant that a step keeps for simple reasons. *)
Ltac inv_step :=
  constructor;
  cbn [set_worker set_jni set_stop open_pair close_pair is_working worker jni stop_requested event_fd byte fresh_fd stray has_pair before_check flag_set] in *;
  try done; try lia; try (by eauto); try (intros; discriminate); try (by intros ? [= <-]);
  try match goal with
  | W : _ = false <-> _ |- _ = false <-> _ => split; [intros X; apply W in X; discriminate X|intros X; discriminate X]
  | W : is_working _ = false -> _ = JIdle |- is_working _ = false -> _ = JIdle => intros X; discriminate (W X)
  | W : forall fd, jni _ = JWrite fd -> _ /\ _, V : forall fd, jni _ = JWrite fd -> _ <> _ |- forall fd, jni _ = JWrite fd -> _ =>
      intros fd X; destruct (W fd X); first [by destruct (V fd X)|split; [lia|done]]
  end.

Lemma stop_inv_initial : inv initial.
Proof. constructor; try done. split; [done|by left]. Qed.

Lemma write_event_inv s fd : inv s -> inv (write_event fd s).
Proof. intros [H1 H2 H3 H4 H5 H6 H7 H8 H9 H10]. unfold write_event. destruct (fd =? event_fd s); by constructor. Qed.

Lemma worker_step_inv ok s s' : inv s -> worker_step ok s = Some s' -> inv s'.
Proof.
  intros I E. pose proof I as [H1 H2 H3 H4 H5 H6 H7 H8 H9 H10]. unfold worker_step in E. destruct (worker s) eqn:Ew; try done; rewrite ?Ew in *.
  - injection E as <-. destruct ok; inv_step.
  - injection E as <-. destruct ok; inv_step.
  - injection E as <-. destruct (stop_requested s) eqn:Er; inv_step. intros Ej _. rewrite Ej in H5. discriminate (H5 eq_refl eq_refl).
  - specialize (H2 eq_refl). destruct (Z.ltb_spec (event_fd s) 0); [lia|]. injection E as <-. inv_step.
  - injection E as <-. specialize (H4 fd eq_refl). subst fd. unfold write_event. rewrite Z.eqb_refl. inv_step.
  - destruct (byte s) eqn:Eb; [|done]. injection E as <-. inv_step.
  - injection E as <-. inv_step.
  - injection E as <-. inv_step.
  - injection E as <-. inv_step.
Qed.

Lemma jni_step_inv s s' : inv s -> jni_step s = Some s' -> inv s'.
Proof.
  intros I E. pose proof I as [H1 H2 H3 H4 H5 H6 H7 H8 H9 H10]. unfold jni_step in E. destruct (jni s) eqn:Ej; try done; rewrite ?Ej in *.
  - injection E as <-. inv_step.
  - injection E as <-. destruct (Z.ltb_spec (event_fd s) 0).
    + inv_step. intros _ Ew. rewrite Ew in *. specialize (H2 eq_refl). lia.
    + inv_step.
      * intros fd [= <-]. split; [lia|done].
      * intros fd _ Ew. rewrite Ew in *. rewrite H3 in *; done.
  - injection E as <-. destruct (H6 fd eq_refl) as [Hf Hp]. pose proof (write_event_inv s fd I) as I'.
    unfold write_event in *. destruct (Z.eqb_spec fd (event_fd s)) as [->|Hne]; inv_step.
    intros _ Ew. rewrite Ew in *. by destruct Hne, Hp.
  - destruct (bool_decide_reflect (worker s = WDone)) as [Ew|]; [|done]. injection E as <-. rewrite Ew in *. inv_step.
Qed.

Lemma step_inv s s' : inv s -> step s s' -> inv s'.
Proof.
  intros I [[| |ok| |] E]; cbn [perform] in E.
  - unfold native_start_service in E. destruct (jni s) eqn:Ej; try done. destruct (is_working s) eqn:Ei; [done|]. injection E as <-.
    destruct I as [H1 H2 H3 H4 H5 H6 H7 H8 H9 H10]. assert (worker s = WNone) as Ew by tauto. rewrite Ew in *. inv_step.
  - unfold native_stop_service in E. destruct (jni s) eqn:Ej; try done. destruct (is_working s) eqn:Ei; [|done]. injection E as <-.
    destruct I as [H1 H2 H3 H4 H5 H6 H7 H8 H9 H10]. inv_step. by rewrite Ei.
  - by eapply worker_step_inv.
  - unfold worker_give_up in E. destruct (worker s) eqn:Ew; try done. injection E as <-. destruct I as [H1 H2 H3 H4 H5 H6 H7 H8 H9 H10]. rewrite Ew in *. inv_step.
  - by eapply jni_step_inv.
Qed.

Lemma reachable_service_inv s : reachable s -> inv s.
Proof. induction 1 as [|s s' _ IH St]; [apply stop_inv_initial|by eapply step_inv]. Qed.

(** How many accesses are left. *)
Definition worker_rank (w : worker_pc) : nat :=
  match w with
  | WStart => 10 | WEvent => 9 | WCheck => 8 | WSignalRead => 7 | WSignalWrite _ => 6 | WLoop => 5
  | WClear => 4 | WClose => 3 | WFini => 2 | WDone => 1 | WNone => 0
  end.

Definition jni_rank (j : jni_pc) : nat := match j with JSet => 4 | JRead => 3 | JWrite _ => 2 | JJoin => 1 | JIdle => 0 end.

Definition rank (s : service) : nat := worker_rank (worker s) + jni_rank (jni s).

Lemma step_rank s s' : jni s <> JIdle -> step s s' -> (rank s' < rank s)%nat.
Proof.
  intros Hj [[| |ok| |] E]; cbn [perform] in E; unfold rank.
  - unfold native_start_service in E. by destruct (jni s).
  - unfold native_stop_service in E. by destruct (jni s).
  - unfold worker_step in E. destruct (worker s) eqn:Ew; try done; try (destruct (byte s); [|done]); injection E as <-; unfold write_event; repeat case_match; cbn; try rewrite Ew; cbn; lia.
  - unfold worker_give_up in E. destruct (worker s); try done. injection E as <-. cbn. lia.
  - unfold jni_step in E. destruct (jni s) eqn:Ej; try done; try case_bool; try done; injection E as <-; unfold write_event; repeat case_match; cbn; rewrite ?Ej; cbn; lia.
Qed.

(** A thread that stops the service is never stuck. *)
Lemma stopping_progress s : inv s -> jni s <> JIdle -> exists s', step s s'.
Proof.
  intros I Hj. destruct (jni s) eqn:Ej; try done.
  - exists (set_jni JRead (set_stop true s)). exists Jni. cbn. unfold jni_step. by rewrite Ej.
  - eexists. exists Jni. cbn. unfold jni_step. by rewrite Ej.
  - eexists. exists Jni. cbn. unfold jni_step. by rewrite Ej.
  - destruct (worker s) eqn:Ew; try (eexists; exists (Worker true); cbn; unfold worker_step; by rewrite Ew).
    + assert (is_working s = false) as Ei by (by apply (i_working s I)). rewrite (i_jni s I Ei) in Ej. done.
    + eexists. exists (Worker true). cbn. unfold worker_step. by rewrite Ew, (i_join s I Ej Ew).
    + eexists. exists Jni. cbn. unfold jni_step. by rewrite Ej, bool_decide_true.
Qed.

(** The service is stopped and its thread joined. *)
Definition stopped (s : service) : Prop := jni s = JIdle /\ is_working s = false /\ worker s = WNone.

(** Leaving [native_stop_service] means that the thread was joined. *)
Lemma stop_exit s s' : jni s <> JIdle -> step s s' -> jni s' = JIdle -> stopped s'.
Proof.
  intros Hj [[| |ok| |] E]; cbn [perform] in E.
  - unfold native_start_service in E. by destruct (jni s).
  - unfold native_stop_service in E. by destruct (jni s).
  - unfold worker_step in E. intros Ej. exfalso. apply Hj. rewrite <- Ej. destruct (worker s); try done; try (destruct (byte s); [|done]); injection E as <-; unfold write_event; repeat case_match; done.
  - unfold worker_give_up in E. destruct (worker s); try done. injection E as <-. done.
  - unfold jni_step in E. destruct (jni s) eqn:Ej; try done; try case_bool; try done; injection E as <-; unfold write_event; repeat case_match; done.
Qed.

Lemma stopping_ends n : forall s, (rank s <= n)%nat -> inv s -> jni s <> JIdle -> inevitable stopped s.
Proof.
  induction n as [|n IH]; intros s Hn I Hj; (apply inevitable_later; [by apply stopping_progress|]); intros s' St; pose proof (step_rank s s' Hj St); [lia|].
  destruct (decide (jni s' = JIdle)) as [Ej|Ej]; [apply inevitable_now; by eapply stop_exit|]. apply IH; [lia|by eapply step_inv|done].
Qed.


(** A stop that comes too late ends the next run: when the worker failed to start
    and [native_stop_service] joins it, the flag stays set although no service
    exists; then the next start, whose preparations all succeed, ends at once without
    having been stopped. *)
Theorem late_stop_ends_next_run :
  exists s, perform_all [Start; GiveUp; Stop; Jni; Jni; Jni] initial = Some s /\ stopped s /\ stop_requested s = true /\
  exists s', perform_all ([Start] ++ replicate 9 (Worker true)) s = Some s' /\ worker s' = WDone /\ jni s' = JIdle.
Proof. eexists. split; [vm_compute; reflexivity|]. split; [done|]. split; [done|]. eexists. split; [vm_compute; reflexivity|done]. Qed.

(** Also the other race exists: a byte can go to a descriptor that was closed. *)
Example stray_write : exists s, perform_all [Start; Worker true; Stop; Jni; Jni; Worker false; Worker true; Jni] initial = Some s /\ stray s = true.
Proof. eexists. split; [vm_compute; reflexivity|done]. Qed.


End StopProtocol.
