(* ===== verification/Lifecycle.v ===== *)
(** * The life of a tunnel (src/hev-main.c, src/hev-socks5-tunnel.c)

    [hev_socks5_tunnel_main_inner] brings up loggers, task system and tunnel, runs, and
    takes everything down again; [hev_socks5_tunnel_init] undoes what it did when a step
    fails.  The static variables outlive a run, because the Java side calls the function
    again in the same process.  The model keeps a ledger of what is allocated: giving back
    what is not allocated is a [Fault].  What the system, the stack and the allocators
    answer is an argument; the settings are those of [Config]. *)

From Stdlib Require Import ZArith Lia.
From stdpp Require Import base list gmap numbers countable.
From S2P Require Import Prelude CBytes CNumeral Config.
Import list_basics.list list_relations.list list_monad.list list_misc.list.

Module Lifecycle.

Definition NULL : Z := 0.

(** ** State *)

(** The static variables of hev-socks5-tunnel.c; [dns] is the object of
    [hev_mapped_dns_put], the last four are those of core/src/hev-socks5-misc.c. *)
Inductive var :=
  | run | stop_requested | tun_fd | tun_fd_local | event_fd0 | event_fd1
  | tcp | udp | task_event | task_lwip_io | task_lwip_timer | dns
  | stat_tx_packets | stat_rx_packets | stat_tx_bytes | stat_rx_bytes
  | connect_timeout | tcp_timeout | udp_timeout | udp_recv_buffer_size.

#[export] Instance lifecycle_var_eq_dec : EqDecision var.
Proof. solve_decision. Defined.

(** What can be allocated. *)
Inductive res := RFd (fd : Z) | RTcp (pcb : Z) | RUdp (pcb : Z) | RNetif | RDns (obj : Z) | RLogger | RSocksLogger | RTaskSystem.

#[export] Instance res_eq_dec : EqDecision res.
Proof. solve_decision. Defined.

#[export] Instance res_countable : Countable res.
Proof.
  refine (inj_countable'
    (fun r => match r with
      | RFd x => inl (inl (inl x)) | RTcp x => inl (inl (inr x)) | RUdp x => inl (inr (inl x)) | RDns x => inl (inr (inr x))
      | RNetif => inr (inl (inl ())) | RLogger => inr (inl (inr ())) | RSocksLogger => inr (inr (inl ())) | RTaskSystem => inr (inr (inr ()))
      end)
    (fun s => match s with
      | inl (inl (inl x)) => RFd x | inl (inl (inr x)) => RTcp x | inl (inr (inl x)) => RUdp x | inl (inr (inr x)) => RDns x
      | inr (inl (inl _)) => RNetif | inr (inl (inr _)) => RLogger | inr (inr (inl _)) => RSocksLogger | inr (inr (inr _)) => RTaskSystem
      end) _).
  by intros [].
Defined.

(** [refs]: the reference counts of tasks. *)
Record world := mkWorld { vars : var -> Z; live : gset res; refs : gmap Z Z }.

Definition initial_vars (v : var) : Z :=
  match v with
  | tun_fd | event_fd0 | event_fd1 => -1
  | connect_timeout => 10000
  | tcp_timeout => 300000
  | udp_timeout => 60000
  | udp_recv_buffer_size => 524288
  | _ => 0
  end.

Definition set (v : var) (x : Z) (w : world) : world := mkWorld (fun u => if decide (u = v) then x else vars w u) (live w) (refs w).
Definition take (r : res) (w : world) : world := mkWorld (vars w) ({[r]} ∪ live w) (refs w).
Definition drop (r : res) (w : world) : outcome world :=
  if bool_decide (r ∈ live w) then Val (mkWorld (vars w) (live w ∖ {[r]}) (refs w)) else Fault.

(** [hev_task_new], [hev_task_ref] and [hev_task_unref] *)
Definition hev_task_new (t : Z) (w : world) : world := if t =? NULL then w else mkWorld (vars w) (live w) (<[t := 1]> (refs w)).
Definition hev_task_ref (t : Z) (w : world) : outcome world :=
  let! n := of_option (refs w !! t) in Val (mkWorld (vars w) (live w) (<[t := n + 1]> (refs w))).
Definition hev_task_unref (t : Z) (w : world) : outcome world :=
  let! n := of_option (refs w !! t) in
  Val (mkWorld (vars w) (live w) (if n - 1 =? 0 then delete t (refs w) else <[t := n - 1]> (refs w))).

(** What the system, the stack and the allocators answer during one start. *)
Record environment := mkEnvironment {
  a_logger : bool; a_socks_logger : bool; a_task_system : bool;
  a_nonblock : bool; a_tun : Z; a_mtu : bool; a_ipv4 : bool; a_ipv6 : bool; a_state : bool;
  a_tcp : Z; a_listen : Z; a_udp : Z;
  a_pair : option (Z * Z); a_event_nonblock : bool; a_task1 : Z; a_task2 : Z; a_task3 : Z; a_dns : Z }.

(** ** Operations *)

Section start.
Context (c : Config.config) (a : environment).

Definition tunnel_init (extern_tun_fd : Z) (w : world) : outcome (Z * world) :=
  if extern_tun_fd >=? 0 then
    if negb (a_nonblock a) then Val (-1, w) else Val (0, set tun_fd extern_tun_fd w)
  else
    let! _ := Config.get_string Config.tun_name c in
    let w := set tun_fd (a_tun a) (if a_tun a <? 0 then w else take (RFd (a_tun a)) w) in
    if vars w tun_fd <? 0 then Val (-1, w)
    else if negb (a_mtu a) then Val (-1, w)
    else
      let! ipv4 := Config.get_string Config.tun_ipv4_address c in
      if bool_decide (is_Some ipv4) && negb (a_ipv4 a) then Val (-1, w)
      else
        let! ipv6 := Config.get_string Config.tun_ipv6_address c in
        if bool_decide (is_Some ipv6) && negb (a_ipv6 a) then Val (-1, w)
        else if negb (a_state a) then Val (-1, w)
        else
          let! _ := Config.get_string Config.tun_post_up_script c in
          Val (0, set tun_fd_local 1 w).

Definition tunnel_fini (w : world) : outcome world :=
  if vars w tun_fd_local =? 0 then Val w
  else
    let! _ := Config.get_string Config.tun_pre_down_script c in
    let! w := drop (RFd (vars w tun_fd)) w in
    Val (set tun_fd (-1) (set tun_fd_local 0 w)).

(** [tcp_bind_netif] and [udp_bind_netif] write to the control block. *)
Definition touch (pcb : Z) (w : world) : outcome world := if pcb =? NULL then Fault else Val w.

Definition gateway_init (w : world) : outcome (Z * world) :=
  let w := take RNetif w in
  let w := set tcp (a_tcp a) (if a_tcp a =? NULL then w else take (RTcp (a_tcp a)) w) in
  let! w := touch (vars w tcp) w in
  let! w :=
    (if a_listen a =? NULL then Val w
     else let! w := drop (RTcp (vars w tcp)) w in Val (take (RTcp (a_listen a)) w)) in
  let w := set tcp (a_listen a) w in
  let w := set udp (a_udp a) (if a_udp a =? NULL then w else take (RUdp (a_udp a)) w) in
  let! w := touch (vars w udp) w in
  Val (0, w).

(** [udp_remove] and [tcp_close] ignore [NULL], [netif_remove] an interface that is not on
    the list. *)
Definition gateway_fini (w : world) : outcome world :=
  let! w := (if vars w udp =? NULL then Val w else drop (RUdp (vars w udp)) w) in
  let! w := (if vars w tcp =? NULL then Val w else drop (RTcp (vars w tcp)) w) in
  Val (mkWorld (vars w) (live w ∖ {[RNetif]}) (refs w)).

Definition event_task_init (w : world) : outcome (Z * world) :=
  match a_pair a with
  | None => Val (-1, w)
  | Some (fd0, fd1) =>
      let w := take (RFd fd0) (take (RFd fd1) (set event_fd0 fd0 (set event_fd1 fd1 w))) in
      if negb (a_event_nonblock a) then Val (-1, w)
      else
        let w := set task_event (a_task1 a) (hev_task_new (a_task1 a) w) in
        if vars w task_event =? NULL then Val (-1, w) else Val (0, w)
  end.

(** Dropping the reference to a task and closing a descriptor, where the variable says
    that there is one. *)
Definition task_fini (v : var) (w : world) : outcome world :=
  if vars w v =? NULL then Val w else let! w := hev_task_unref (vars w v) w in Val (set v NULL w).
Definition close_event_fd (v : var) (w : world) : outcome world :=
  if vars w v >=? 0 then let! w := drop (RFd (vars w v)) w in Val (set v (-1) w) else Val w.

Definition event_task_fini (w : world) : outcome world :=
  let! w := task_fini task_event w in
  let! w := close_event_fd event_fd0 w in
  close_event_fd event_fd1 w.

Definition lwip_io_task_init (w : world) : outcome (Z * world) :=
  let w := set task_lwip_io (a_task2 a) (hev_task_new (a_task2 a) w) in
  Val (if vars w task_lwip_io =? NULL then -1 else 0, w).

Definition lwip_io_task_fini (w : world) : outcome world := task_fini task_lwip_io w.

Definition lwip_timer_task_init (w : world) : outcome (Z * world) :=
  let w := set task_lwip_timer (a_task3 a) (hev_task_new (a_task3 a) w) in
  Val (if vars w task_lwip_timer =? NULL then -1 else 0, w).

Definition lwip_timer_task_fini (w : world) : outcome world := task_fini task_lwip_timer w.

Definition mapped_dns_init (w : world) : outcome (Z * world) :=
  if Config.vars c Config.mapdns_cache_size =? 0 then Val (0, w)
  else if a_dns a =? NULL then Val (-1, w)
  else Val (0, set dns (a_dns a) (take (RDns (a_dns a)) w)).

Definition mapped_dns_fini (w : world) : outcome world :=
  if vars w dns =? NULL then Val w
  else let! w := drop (RDns (vars w dns)) w in Val (set dns NULL w).

Definition hev_socks5_tunnel_fini (w : world) : outcome world :=
  let! w := mapped_dns_fini w in
  let! w := lwip_timer_task_fini w in
  let! w := lwip_io_task_fini w in
  let! w := event_task_fini w in
  let! w := gateway_fini w in
  let! w := tunnel_fini w in
  let w := set stat_rx_bytes 0 (set stat_tx_bytes 0 (set stat_rx_packets 0 (set stat_tx_packets 0 w))) in
  Val (set stop_requested 0 (set run 0 w)).

(** A step of the initialisation; the first that fails leads to [exit]. *)
Definition init_step (f : world -> outcome (Z * world)) (next : world -> outcome (Z * world)) (w : world) : outcome (Z * world) :=
  let! (res, w) := f w in
  if res <? 0 then let! w := hev_socks5_tunnel_fini w in Val (-1, w) else next w.

Definition hev_socks5_tunnel_init (extern_tun_fd : Z) : world -> outcome (Z * world) :=
  init_step (tunnel_init extern_tun_fd)
    (init_step gateway_init
      (init_step event_task_init
        (init_step lwip_io_task_init
          (init_step lwip_timer_task_init
            (init_step mapped_dns_init (fun w => Val (0, w))))))).

(** [hev_task_system_run] returns when all tasks ended; a task that ends gives up the
    reference that [hev_task_run] took over. *)
Definition hev_socks5_tunnel_run (w : world) : outcome world :=
  let! w := hev_task_ref (vars w task_event) w in
  let! w := hev_task_ref (vars w task_lwip_io) w in
  let! w := hev_task_ref (vars w task_lwip_timer) w in
  let w := set run 1 w in
  let! w := hev_task_unref (vars w task_event) w in
  let! w := hev_task_unref (vars w task_lwip_io) w in
  let! w := hev_task_unref (vars w task_lwip_timer) w in
  Val (set stop_requested 0 w).

(** [hev_socks5_set_connect_timeout] and the like, with the values of the settings. *)
Definition set_timeouts (w : world) : world :=
  let w := set connect_timeout (Config.vars c Config.connect_timeout) w in
  let w := set tcp_timeout (Config.vars c Config.tcp_read_write_timeout) w in
  let w := set udp_timeout (Config.vars c Config.udp_read_write_timeout) w in
  set udp_recv_buffer_size (Config.vars c Config.udp_recv_buffer_size) w.

(** The limit of open files, the pid file and the state of the stack are outside of the
    model; [hev_config_fini] is empty. *)
Definition hev_socks5_tunnel_main_inner (extern_tun_fd : Z) (w : world) : outcome (Z * world) :=
  let! _ := Config.hev_config_get_misc_log_file c in
  let w := set_timeouts w in
  if negb (a_logger a) then Val (-2, w)
  else
    let w := take RLogger w in
    if negb (a_socks_logger a) then Val (-3, w)
    else
      let w := take RSocksLogger w in
      let! _ := Config.get_string Config.pid_file c in
      if negb (a_task_system a) then Val (-4, w)
      else
        let w := take RTaskSystem w in
        let! (res, w) := hev_socks5_tunnel_init extern_tun_fd w in
        if res <? 0 then Val (-5, w)
        else
          let! w := hev_socks5_tunnel_run w in
          let! w := hev_socks5_tunnel_fini w in
          let! w := drop RSocksLogger w in
          let! w := drop RLogger w in
          let! w := drop RTaskSystem w in
          Val (0, w).

End start.

(** ** What the variables own *)

Lemma assign_same v x w : vars (set v x w) v = x.
Proof. cbn [set vars]. by rewrite decide_True. Qed.

Lemma assign_other v u x w : u <> v -> vars (set v x w) u = vars w u.
Proof. intros H. cbn [set vars]. by rewrite decide_False. Qed.

Definition owns (w : world) (r : res) : Prop :=
  match r with
  | RFd fd => 0 <= fd /\ (fd = vars w event_fd0 \/ fd = vars w event_fd1) \/ vars w tun_fd_local <> 0 /\ fd = vars w tun_fd
  | RTcp p => p <> NULL /\ p = vars w tcp
  | RUdp p => p <> NULL /\ p = vars w udp
  | RDns p => p <> NULL /\ p = vars w dns
  | _ => False
  end.

Definition task_vars : list var := [task_event; task_lwip_io; task_lwip_timer].

(** The variables account for everything that is allocated beyond [B] and the tasks [R]. *)
Record accounted (B : gset res) (R : gmap Z Z) (w : world) : Prop := {
  j_live : forall r, r <> RNetif -> r ∈ live w <-> r ∈ B \/ owns w r;
  j_apart : forall r, r ∈ B -> r <> RNetif /\ ~ owns w r;
  j_fds : 0 <= vars w event_fd0 -> vars w event_fd0 <> vars w event_fd1;
  j_tun : vars w tun_fd_local <> 0 -> 0 <= vars w tun_fd /\ vars w tun_fd <> vars w event_fd0 /\ vars w tun_fd <> vars w event_fd1;
  j_refs : forall t, refs w !! t = if bool_decide (t <> NULL /\ Exists (fun v => t = vars w v) task_vars) then Some 1 else R !! t;
  j_fresh : forall v, v ∈ task_vars -> vars w v <> NULL -> R !! vars w v = None;
  j_distinct : forall u v, u ∈ task_vars -> v ∈ task_vars -> vars w u = vars w v -> u = v \/ vars w u = NULL;
}.

(** Giving up things that the variables own. *)
Lemma accounted_less B R w w' :
  accounted B R w -> refs w' = refs w -> (forall v, v ∈ task_vars -> vars w' v = vars w v) ->
  (forall r, owns w' r -> owns w r) -> (forall r, r <> RNetif -> r ∈ live w' <-> r ∈ live w /\ (owns w r -> owns w' r)) ->
  (0 <= vars w' event_fd0 -> vars w' event_fd0 <> vars w' event_fd1) ->
  (vars w' tun_fd_local <> 0 -> 0 <= vars w' tun_fd /\ vars w' tun_fd <> vars w' event_fd0 /\ vars w' tun_fd <> vars w' event_fd1) -> accounted B R w'.
Proof.
  intros [J1 J2 J3 J4 J5 J6 J7] Hr Ht Ho Hl Hf Htun. constructor; try done.
  - intros r Hn. rewrite Hl, J1 by done. split; [intros [[H|H] H']; auto|]. intros [H|H]; [split; [by left|]; intros C; by destruct (J2 r H)|auto].
  - intros r Hr'. destruct (J2 r Hr') as [H1 H2]. split; [done|]. intros C. by apply H2, Ho.
  - intros t. rewrite Hr, J5. assert ((t <> NULL /\ Exists (fun v => t = vars w v) task_vars) <-> (t <> NULL /\ Exists (fun v => t = vars w' v) task_vars)) as E.
    { unfold task_vars. rewrite !Exists_cons, !Exists_nil, !Ht by (repeat constructor). done. }
    by rewrite (bool_decide_ext _ _ E).
  - intros v Hv. rewrite Ht by done. by apply J6.
  - intros u v Hu Hv. rewrite !Ht by done. by apply J7.
Qed.

Lemma drop_owned r w : r ∈ live w -> drop r w = Val (mkWorld (vars w) (live w ∖ {[r]}) (refs w)).
Proof. intros H. unfold drop. by rewrite bool_decide_true. Qed.

(** The variable [v] gives up the thing [r], and nothing else. *)
Lemma accounted_drop B R w v x r : accounted B R w -> v ∉ task_vars -> owns w r -> r <> RNetif ->
  (forall q, owns (set v x w) q <-> owns w q /\ q <> r) ->
  (0 <= vars (set v x w) event_fd0 -> vars (set v x w) event_fd0 <> vars (set v x w) event_fd1) ->
  (vars (set v x w) tun_fd_local <> 0 -> 0 <= vars (set v x w) tun_fd /\ vars (set v x w) tun_fd <> vars (set v x w) event_fd0 /\ vars (set v x w) tun_fd <> vars (set v x w) event_fd1) ->
  accounted B R (set v x (mkWorld (vars w) (live w ∖ {[r]}) (refs w))).
Proof.
  intros J Hv Hr Hn Ho Hf Ht. apply (accounted_less B R w); [done|done| | | |done|done].
  - intros u Hu. cbn [set vars]. rewrite decide_False; [done|by intros ->].
  - intros q Hq. change (owns (set v x w) q) in Hq. by apply Ho in Hq as [].
  - intros q Hq. cbn [live set]. change (owns (set v x (mkWorld (vars w) (live w ∖ {[r]}) (refs w))) q) with (owns (set v x w) q).
    rewrite elem_of_difference, elem_of_singleton, Ho. split; [tauto|]. intros [H1 H2]. split; [done|]. intros ->. by destruct (H2 Hr).
Qed.

(** [w'] has [x] in [v] and the other variables of [w]. *)
Definition assigned (v : var) (x : Z) (w w' : world) : Prop := forall u, vars w' u = if decide (u = v) then x else vars w u.

Lemma mapped_dns_fini_ok B R w : accounted B R w -> exists w', mapped_dns_fini w = Val w' /\ accounted B R w' /\ assigned dns NULL w w'.
Proof.
  intros J. unfold mapped_dns_fini. destruct (Z.eqb_spec (vars w dns) NULL) as [E|E].
  - exists w. split; [done|]. split; [done|]. intros u. by destruct (decide (u = dns)) as [->|].
  - assert (owns w (RDns (vars w dns))) as Ho by done. rewrite drop_owned by (apply (j_live _ _ _ J); [done|by right]). cbn [obind].
    eexists. split; [done|]. split; [|done]. apply (accounted_drop B R w); try done.
    + cbn. set_solver.
    + intros [fd|p|p| |p| | |]; cbn [owns]; rewrite ?assign_other, ?assign_same by done; try naive_solver.
    + rewrite !assign_other by done. apply (j_fds _ _ _ J).
    + rewrite !assign_other by done. apply (j_tun _ _ _ J).
Qed.

(** [w'] has the variables of [w], except for [v]. *)
Definition same_but (v : var) (w w' : world) : Prop := forall u, u <> v -> vars w' u = vars w u.

Lemma close_event_fd_ok B R w v : accounted B R w -> v = event_fd0 \/ v = event_fd1 ->
  exists w', close_event_fd v w = Val w' /\ accounted B R w' /\ vars w' v < 0 /\ same_but v w w'.
Proof.
  intros J Hv. unfold close_event_fd. rewrite Z.geb_leb. destruct (Z.leb_spec 0 (vars w v)) as [E|E]; [|by exists w].
  assert (owns w (RFd (vars w v))) as Ho by (left; destruct Hv as [-> | ->]; auto). rewrite drop_owned by (apply (j_live _ _ _ J); [done|by right]). cbn [obind].
  eexists. split; [done|]. pose proof (j_fds _ _ _ J) as Hf. pose proof (j_tun _ _ _ J) as Ht.
  split; [|split; [by rewrite assign_same|intros u Hu; by rewrite assign_other]]. apply (accounted_drop B R w); try done.
  - destruct Hv as [-> | ->]; cbn; set_solver.
  - destruct Hv as [-> | ->]; intros [fd|p|p| |p| | |]; cbn [owns]; rewrite ?assign_same, ?assign_other by done; try naive_solver lia.
  - destruct Hv as [-> | ->]; rewrite ?assign_same, ?assign_other by done; lia.
  - destruct Hv as [-> | ->]; rewrite ?assign_same, ?assign_other by done; lia.
Qed.

Lemma task_fini_ok B R w v : accounted B R w -> v ∈ task_vars ->
  exists w', task_fini v w = Val w' /\ accounted B R w' /\ vars w' v = NULL /\ same_but v w w'.
Proof.
  intros J Hv. unfold task_fini. destruct (Z.eqb_spec (vars w v) NULL) as [E|E]; [by exists w|]. pose proof J as [J1 J2 J3 J4 J5 J6 J7].
  assert (refs w !! vars w v = Some 1) as Er.
  { rewrite J5, bool_decide_true; [done|]. split; [done|]. apply Exists_exists. by exists v. }
  unfold hev_task_unref. rewrite Er. cbn [of_option obind]. change (1 - 1 =? 0) with true. cbn iota.
  eexists. split; [done|]. split; [|split; [by rewrite assign_same|intros u Hu; by rewrite assign_other]].
  assert (v <> event_fd0 /\ v <> event_fd1 /\ v <> tun_fd /\ v <> tun_fd_local /\ v <> udp /\ v <> tcp /\ v <> dns) as (N1 & N2 & N3 & N4 & N5 & N6 & N7)
    by (unfold task_vars in Hv; set_unfold in Hv; destruct_or! Hv; subst; done).
  set (w1 := mkWorld (vars w) (live w) (delete (vars w v) (refs w))).
  assert (forall r, owns (set v NULL w1) r <-> owns w r) as Ho by (intros [fd|p|p| |p| | |]; cbn [owns]; rewrite ?assign_other by done; done).
  constructor; rewrite ?assign_other by done; try done.
  - intros r Hr. rewrite Ho. by apply J1.
  - intros r Hr. rewrite Ho. by apply J2.
  - intros t. cbn [refs set w1]. destruct (decide (t = vars w v)) as [->|Ht].
    + rewrite lookup_delete_eq, bool_decide_false; [by rewrite J6|]. intros [_ (u & Hu & Eu)%Exists_exists].
      destruct (decide (u = v)) as [->|Huv]; [rewrite assign_same in Eu; done|]. rewrite assign_other in Eu by done. by destruct (J7 v u Hv Hu Eu).
    + rewrite lookup_delete_ne by done. rewrite J5. apply (f_equal (fun b : bool => if b then Some 1 else R !! t)). apply bool_decide_ext. rewrite !Exists_exists.
      split; intros [H0 (u & Hu & Eu)]; (split; [done|]); exists u; (split; [done|]); destruct (decide (u = v)) as [->|Huv]; rewrite ?assign_other in * by done; try done.
      rewrite assign_same in Eu. done.
  - intros u Hu. destruct (decide (u = v)) as [->|Huv]; [by rewrite assign_same|]. rewrite assign_other by done. by apply J6.
  - intros u1 u2 H1 H2. destruct (decide (u1 = v)) as [->|D1]; [rewrite assign_same; by right|]. rewrite assign_other by done.
    destruct (decide (u2 = v)) as [->|D2]; [rewrite assign_same; by right|]. rewrite assign_other by done. by apply J7.
Qed.

Lemma gateway_fini_ok B R w : accounted B R w ->
  exists w', gateway_fini w = Val w' /\ vars w' = vars w /\ refs w' = refs w /\
    forall r, r ∈ live w' <-> r ∈ live w /\ (vars w udp <> NULL -> r <> RUdp (vars w udp)) /\ (vars w tcp <> NULL -> r <> RTcp (vars w tcp)) /\ r <> RNetif.
Proof.
  intros J. unfold gateway_fini.
  assert (exists w1, (if vars w udp =? NULL then Val w else drop (RUdp (vars w udp)) w) = Val w1 /\ vars w1 = vars w /\ refs w1 = refs w /\
    forall r, r ∈ live w1 <-> r ∈ live w /\ (vars w udp <> NULL -> r <> RUdp (vars w udp))) as (w1 & -> & V1 & R1 & L1).
  { destruct (Z.eqb_spec (vars w udp) NULL) as [E|E]; [exists w; naive_solver|]. rewrite drop_owned by (apply (j_live _ _ _ J); [done|by right]).
    eexists. split; [done|]. split; [done|]. split; [done|]. intros r. cbn [live]. rewrite elem_of_difference, elem_of_singleton. naive_solver. }
  cbn [obind]. rewrite V1.
  assert (exists w2, (if vars w tcp =? NULL then Val w1 else drop (RTcp (vars w tcp)) w1) = Val w2 /\ vars w2 = vars w /\ refs w2 = refs w /\
    forall r, r ∈ live w2 <-> r ∈ live w1 /\ (vars w tcp <> NULL -> r <> RTcp (vars w tcp))) as (w2 & -> & V2 & R2 & L2).
  { destruct (Z.eqb_spec (vars w tcp) NULL) as [E|E]; [exists w1; naive_solver|]. rewrite drop_owned; [|apply L1; split; [|done]; apply (j_live _ _ _ J); [done|by right]].
    eexists. split; [done|]. split; [done|]. split; [done|]. intros r. cbn [live]. rewrite elem_of_difference, elem_of_singleton. naive_solver. }
  cbn [obind]. eexists. split; [done|]. split; [done|]. split; [done|]. cbn [live]. intros r. rewrite elem_of_difference, elem_of_singleton, L2, L1. tauto.
Qed.

(** No run is going on. *)
Record quiet (w : world) : Prop := {
  q_local : vars w tun_fd_local = 0;
  q_fd0 : vars w event_fd0 < 0;
  q_fd1 : vars w event_fd1 < 0;
  q_tasks : forall v, v ∈ task_vars -> vars w v = NULL;
  q_dns : vars w dns = NULL;
}.

Lemma event_task_fini_ok B R w : accounted B R w -> exists w', event_task_fini w = Val w' /\ accounted B R w' /\
  vars w' task_event = NULL /\ vars w' event_fd0 < 0 /\ vars w' event_fd1 < 0 /\ forall u, u ∉ [task_event; event_fd0; event_fd1] -> vars w' u = vars w u.
Proof.
  intros J. unfold event_task_fini. destruct (task_fini_ok B R w task_event J) as (w1 & -> & J1 & N1 & S1); [repeat constructor|]. cbn [obind].
  destruct (close_event_fd_ok B R w1 event_fd0 J1) as (w2 & -> & J2 & N2 & S2); [by left|]. cbn [obind].
  destruct (close_event_fd_ok B R w2 event_fd1 J2) as (w3 & -> & J3 & N3 & S3); [by right|]. exists w3. split; [done|]. split; [done|].
  split; [rewrite S3, S2 by done; done|]. split; [rewrite S3 by done; done|]. split; [done|]. intros u Hu. rewrite S3, S2, S1 by set_solver. done.
Qed.

(** What is left is what the variables did not own. *)
Lemma tunnel_fini_ok c R B w : Config.config_ok c -> accounted B R w -> quiet (set tun_fd_local 0 w) -> 
  exists w', (let! w := gateway_fini w in tunnel_fini c w) = Val w' /\ live w' = B /\ refs w' = R /\ quiet w' /\ vars w' udp = vars w udp /\ vars w' tcp = vars w tcp.
Proof.
  intros Hc J [Q1 Q2 Q3 Q4 Q5]. rewrite !assign_other in Q2, Q3, Q5 by done.
  destruct (gateway_fini_ok B R w J) as (w1 & -> & V1 & R1 & L1). cbn [obind].
  assert (forall v, v ∈ task_vars -> vars w v = NULL) as Qt by (intros v Hv; rewrite <- (Q4 v Hv), assign_other; [done|intros ->; unfold task_vars in Hv; set_solver]).
  assert (refs w = R) as Er.
  { apply map_eq. intros t. rewrite (j_refs _ _ _ J), bool_decide_false; [done|]. intros [Hn (v & Hv & E)%Exists_exists]. rewrite Qt in E by done. done. }
  assert (forall fd, ~ (0 <= fd /\ (fd = vars w event_fd0 \/ fd = vars w event_fd1))) as Hfd by lia.
  unfold tunnel_fini. rewrite V1. destruct (Z.eqb_spec (vars w tun_fd_local) 0) as [E|E].
  - exists w1. split; [done|]. split; [|rewrite R1; split; [done|]; split; [|by rewrite V1]; constructor; rewrite ?V1; done].
    apply set_eq. intros r. rewrite L1. destruct (decide (r = RNetif)) as [->|Hn]; [split; [tauto|]; intros H; by destruct (j_apart _ _ _ J _ H)|].
    rewrite (j_live _ _ _ J) by done. split; [|intros H; pose proof (j_apart _ _ _ J _ H) as [_ Hno]; split; [by left|]; naive_solver].
    intros ([H|H] & H1 & H2 & _); [done|]. destruct r; cbn [owns] in H; naive_solver.
  - rewrite Config.get_string_ok by done. cbn [obind]. assert (RFd (vars w tun_fd) ∈ live w1) as Hin.
    { apply L1. split; [|done]. apply (j_live _ _ _ J); [done|]. right. by right. }
    rewrite drop_owned by done. cbn [obind vars]. rewrite V1. eexists. split; [done|].
    split; [|split; [by rewrite <- Er|]; split; [|by rewrite !assign_other by done]].
    2:{ assert (forall u, u <> tun_fd -> u <> tun_fd_local -> vars (set tun_fd (-1) (set tun_fd_local 0 (mkWorld (vars w) (live w1 ∖ {[RFd (vars w tun_fd)]}) (refs w1)))) u = vars w u) as Hu
          by (intros u H1 H2; by rewrite !assign_other by done).
        constructor; rewrite ?Hu by done; try done. intros v Hv. rewrite Hu by (intros ->; unfold task_vars in Hv; set_solver). by apply Qt. }
    apply set_eq. intros r. cbn [live set]. rewrite elem_of_difference, elem_of_singleton, L1. destruct (decide (r = RNetif)) as [->|Hn]; [split; [tauto|]; intros H; by destruct (j_apart _ _ _ J _ H)|].
    rewrite (j_live _ _ _ J) by done. split.
    + intros [([H|H] & H1 & H2 & _) H3]; [done|]. destruct r; cbn [owns] in H; naive_solver.
    + intros H. pose proof (j_apart _ _ _ J _ H) as [_ Hno]. split; [split; [by left|]; naive_solver|]. intros ->. apply Hno. by right.
Qed.

Lemma fini_ok c B R w : Config.config_ok c -> accounted B R w ->
  exists w', hev_socks5_tunnel_fini c w = Val w' /\ live w' = B /\ refs w' = R /\ quiet w' /\ vars w' udp = vars w udp /\ vars w' tcp = vars w tcp.
Proof.
  intros Hc J. unfold hev_socks5_tunnel_fini, lwip_timer_task_fini, lwip_io_task_fini.
  destruct (mapped_dns_fini_ok B R w J) as (w1 & -> & J1 & A1). cbn [obind].
  destruct (task_fini_ok B R w1 task_lwip_timer J1) as (w2 & -> & J2 & N2 & S2); [repeat constructor|]. cbn [obind].
  destruct (task_fini_ok B R w2 task_lwip_io J2) as (w3 & -> & J3 & N3 & S3); [repeat constructor|]. cbn [obind].
  destruct (event_task_fini_ok B R w3 J3) as (w4 & -> & J4 & N4 & F0 & F1 & S4). cbn [obind].
  assert (forall u, u ∉ [task_event; event_fd0; event_fd1; task_lwip_io; task_lwip_timer; dns] -> vars w4 u = vars w u) as S.
  { intros u Hu. rewrite S4, S3, S2, A1, decide_False by set_solver. done. }
  destruct (tunnel_fini_ok c R B w4 Hc J4) as (w5 & E & L & Rr & Q & U & T).
  { constructor; rewrite ?assign_same, ?assign_other by done; try done.
    - intros v Hv. rewrite assign_other by (intros ->; unfold task_vars in Hv; set_solver). unfold task_vars in Hv. set_unfold in Hv. destruct_or! Hv; subst; [done| |].
      + rewrite S4 by set_solver. done.
      + rewrite S4, S3 by set_solver. done.
    - rewrite S4, S3, S2, A1 by set_solver. done. }
  destruct (gateway_fini w4) as [w4'|]; [|done]. cbn [obind] in *. rewrite E. cbn [obind]. eexists. split; [done|]. split; [done|]. split; [done|].
  rewrite <- (S udp), <- (S tcp) by set_solver. split; [|by rewrite !assign_other by done].
  destruct Q as [Q1 Q2 Q3 Q4 Q5]. constructor; rewrite ?assign_other by done; try done. intros v Hv. rewrite !assign_other by (intros ->; unfold task_vars in Hv; set_solver). by apply Q4.
Qed.

(** ** Initialisation *)

(** Answers that do not name anything twice; the stack has memory for its control blocks. *)
Record plausible (B : gset res) (R : gmap Z Z) (a : environment) : Prop := {
  p_tcp : a_tcp a <> NULL /\ RTcp (a_tcp a) ∉ B;
  p_listen : a_listen a <> NULL /\ RTcp (a_listen a) ∉ B /\ a_listen a <> a_tcp a;
  p_udp : a_udp a <> NULL /\ RUdp (a_udp a) ∉ B;
  p_tun : 0 <= a_tun a -> RFd (a_tun a) ∉ B;
  p_pair : forall f0 f1, a_pair a = Some (f0, f1) -> 0 <= f0 /\ 0 <= f1 /\ f0 <> f1 /\ RFd f0 ∉ B /\ RFd f1 ∉ B /\ f0 <> a_tun a /\ f1 <> a_tun a;
  p_tasks : forall t, t ∈ [a_task1 a; a_task2 a; a_task3 a] -> t <> NULL -> R !! t = None;
  p_distinct : (a_task1 a <> NULL -> a_task1 a <> a_task2 a /\ a_task1 a <> a_task3 a) /\ (a_task2 a <> NULL -> a_task2 a <> a_task3 a);
  p_dns : a_dns a <> NULL -> RDns (a_dns a) ∉ B;
}.

(** Stale pointers to control blocks do not count. *)
Definition clear (w : world) : world := set udp NULL (set tcp NULL w).

(** A new thing for a variable. *)
Lemma accounted_take B R w w' r : accounted B R w -> refs w' = refs w -> (forall v, v ∈ task_vars -> vars w' v = vars w v) ->
  r <> RNetif -> r ∉ B -> (forall q, owns w' q <-> owns w q \/ q = r) -> (forall q, q <> RNetif -> q ∈ live w' <-> q ∈ live w \/ q = r) ->
  (0 <= vars w' event_fd0 -> vars w' event_fd0 <> vars w' event_fd1) ->
  (vars w' tun_fd_local <> 0 -> 0 <= vars w' tun_fd /\ vars w' tun_fd <> vars w' event_fd0 /\ vars w' tun_fd <> vars w' event_fd1) -> accounted B R w'.
Proof.
  intros [J1 J2 J3 J4 J5 J6 J7] Hr Ht Hn Hb Ho Hl Hf Htun. constructor; try done.
  - intros q Hq. rewrite Hl, Ho, J1 by done. tauto.
  - intros q Hq. destruct (J2 q Hq) as [H1 H2]. split; [done|]. rewrite Ho. intros [H| ->]; done.
  - intros t. rewrite Hr, J5. assert ((t <> NULL /\ Exists (fun v => t = vars w v) task_vars) <-> (t <> NULL /\ Exists (fun v => t = vars w' v) task_vars)) as E.
    { unfold task_vars. rewrite !Exists_cons, !Exists_nil, !Ht by (repeat constructor). done. }
    by rewrite (bool_decide_ext _ _ E).
  - intros v Hv. rewrite Ht by done. by apply J6.
  - intros u v Hu Hv. rewrite !Ht by done. by apply J7.
Qed.

Lemma task_init_ok B R w v t : accounted B R w -> v ∈ task_vars -> vars w v = NULL -> (t <> NULL -> refs w !! t = None /\ R !! t = None) ->
  accounted B R (set v t (hev_task_new t w)).
Proof.
  intros J Hv E Ht. pose proof J as [J1 J2 J3 J4 J5 J6 J7].
  assert (v <> event_fd0 /\ v <> event_fd1 /\ v <> tun_fd /\ v <> tun_fd_local /\ v <> udp /\ v <> tcp /\ v <> dns) as (N1 & N2 & N3 & N4 & N5 & N6 & N7)
    by (unfold task_vars in Hv; set_unfold in Hv; destruct_or! Hv; subst; done).
  assert (vars (hev_task_new t w) = vars w /\ live (hev_task_new t w) = live w) as [Ev El] by (unfold hev_task_new; by destruct (t =? NULL)).
  assert (forall u, vars (set v t (hev_task_new t w)) u = if decide (u = v) then t else vars w u) as Es by (intros u; cbn [set vars]; by rewrite Ev).
  assert (forall r, owns (set v t (hev_task_new t w)) r <-> owns w r) as Ho by (intros [fd|p|p| |p| | |]; cbn [owns]; rewrite ?assign_other, ?Ev by done; done).
  assert (t <> NULL -> forall u, u ∈ task_vars -> vars w u <> t) as Hne.
  { intros Hn u Hu C. destruct (Ht Hn) as [Hr _]. rewrite J5, bool_decide_true in Hr; [done|]. split; [done|]. apply Exists_exists. by exists u. }
  constructor; rewrite ?assign_other, ?Ev by done; try done.
  - intros r Hr. rewrite Ho. cbn [live set]. rewrite El. by apply J1.
  - intros r Hr. rewrite Ho. by apply J2.
  - intros s. cbn [refs set]. unfold hev_task_new. destruct (Z.eqb_spec t NULL) as [->|Hn]; cbn [refs].
    + rewrite J5. apply (f_equal (fun b : bool => if b then Some 1 else R !! s)). apply bool_decide_ext. rewrite !Exists_exists.
      split; intros [H0 (u & Hu & Eu)]; (split; [done|]); exists u; (split; [done|]); destruct (decide (u = v)) as [->|Huv]; rewrite ?assign_other, ?assign_same in * by done; try done. congruence.
    + destruct (decide (s = t)) as [->|Hs].
      * rewrite lookup_insert_eq, bool_decide_true; [done|]. split; [done|]. apply Exists_exists. exists v. by rewrite assign_same.
      * rewrite lookup_insert_ne by done. rewrite J5. apply (f_equal (fun b : bool => if b then Some 1 else R !! s)). apply bool_decide_ext. rewrite !Exists_exists.
        split; intros [H0 (u & Hu & Eu)]; (split; [done|]); exists u; (split; [done|]); destruct (decide (u = v)) as [->|Huv]; rewrite ?assign_other, ?assign_same in * by done; try done. congruence.
  - intros u Hu. rewrite Es. destruct (decide (u = v)); [intros Hn; by apply Ht|by apply J6].
  - intros u1 u2 H1 H2. rewrite !Es. destruct (decide (u1 = v)) as [->|D1], (decide (u2 = v)) as [->|D2]; [by left| | |by apply J7].
    + intros C. destruct (decide (t = NULL)); [by right|]. by destruct (Hne ltac:(done) u2 H2).
    + intros C. right. destruct (decide (t = NULL)) as [->|Hn]; [done|]. by destruct (Hne Hn u1 H1).
Qed.

(** Only what the variables and the ledger say counts. *)
Lemma accounted_ext B R w w' : accounted B R w -> (forall u, vars w' u = vars w u) -> refs w' = refs w -> (forall r, r <> RNetif -> r ∈ live w' <-> r ∈ live w) -> accounted B R w'.
Proof.
  intros J Hv Hr Hl. apply (accounted_less B R w); [done|done|done| | |rewrite !Hv; apply (j_fds _ _ _ J)|rewrite !Hv; apply (j_tun _ _ _ J)].
  - intros [fd|p|p| |p| | |]; cbn [owns]; rewrite ?Hv; done.
  - intros r Hn. rewrite Hl by done. split; [|by intros []]. intros H. split; [done|]. destruct r; cbn [owns]; rewrite ?Hv; done.
Qed.

(** Something that no variable knows of. *)
Lemma accounted_leak B R w w' r : accounted B R w -> (forall q, owns w' q <-> owns w q) -> refs w' = refs w -> (forall v, v ∈ task_vars -> vars w' v = vars w v) ->
  r <> RNetif -> ~ owns w r -> (forall q, q <> RNetif -> q ∈ live w' <-> q ∈ live w \/ q = r) ->
  (0 <= vars w' event_fd0 -> vars w' event_fd0 <> vars w' event_fd1) ->
  (vars w' tun_fd_local <> 0 -> 0 <= vars w' tun_fd /\ vars w' tun_fd <> vars w' event_fd0 /\ vars w' tun_fd <> vars w' event_fd1) -> accounted (B ∪ {[r]}) R w'.
Proof.
  intros [J1 J2 J3 J4 J5 J6 J7] Ho Hr Ht Hn Hno Hl Hf Htun. constructor; try done.
  - intros q Hq. rewrite Hl, Ho, J1, elem_of_union, elem_of_singleton by done. tauto.
  - intros q. rewrite elem_of_union, elem_of_singleton, Ho. intros [Hq| ->]; [by apply J2|done].
  - intros t. rewrite Hr, J5. assert ((t <> NULL /\ Exists (fun v => t = vars w v) task_vars) <-> (t <> NULL /\ Exists (fun v => t = vars w' v) task_vars)) as E.
    { unfold task_vars. rewrite !Exists_cons, !Exists_nil, !Ht by (repeat constructor). done. }
    by rewrite (bool_decide_ext _ _ E).
  - intros v Hv. rewrite Ht by done. by apply J6.
  - intros u v Hu Hv. rewrite !Ht by done. by apply J7.
Qed.

(** Lookups of a variable in a world that was built by assignments. *)
Ltac assigned_vars := unfold clear; cbn [set take vars]; repeat first [rewrite decide_True by done|rewrite decide_False by done].
Ltac not_task H := unfold task_vars in H; set_unfold in H; destruct_or! H; subst.

Section init.
Context (c : Config.config) (a : environment) (B : gset res) (R : gmap Z Z).
Context (Hc : Config.config_ok c) (Hp : plausible B R a).

(** Whether the device can be brought up. *)
Definition device_up (ext : Z) : bool :=
  if ext >=? 0 then a_nonblock a
  else (0 <=? a_tun a) && a_mtu a && (bool_decide (Config.text Config.tun_ipv4_address c = []) || a_ipv4 a) &&
    (bool_decide (Config.text Config.tun_ipv6_address c = []) || a_ipv6 a) && a_state a.

(** A device that was opened but not brought up is not closed. *)
Definition device_leak (ext : Z) : gset res :=
  if (ext <? 0) && (0 <=? a_tun a) && negb (device_up ext) then {[RFd (a_tun a)]} else ∅.

Lemma tunnel_init_ok ext w : quiet w -> accounted B R (clear w) ->
  exists w', tunnel_init c a ext w = Val (if device_up ext then 0 else -1, w') /\ accounted (B ∪ device_leak ext) R (clear w') /\
    (forall u, u <> tun_fd -> u <> tun_fd_local -> vars w' u = vars w u) /\
    (vars w' tun_fd_local <> 0 -> device_up ext = true /\ vars w' tun_fd = a_tun a).
Proof.
  intros Q J. pose proof Q as [Q1 Q2 Q3 Q4 Q5]. unfold tunnel_init, device_leak, device_up. rewrite Z.geb_leb. destruct (Z.leb_spec 0 ext) as [He|He].
  { destruct (Z.ltb_spec ext 0); [lia|]. cbn [andb]. rewrite union_empty_r_L. destruct (a_nonblock a); cbn [negb]; [|exists w; split; [done|]; split; [done|]; split; [done|]; by rewrite Q1].
    eexists. split; [done|]. split; [|split; [intros u H1 H2; by rewrite assign_other|rewrite assign_other by done; by rewrite Q1]].
    apply (accounted_less B R (clear w)); [done|done| | | | |].
    - intros v Hv. not_task Hv; done.
    - intros [fd|p|p| |p| | |]; cbn [owns]; assigned_vars; rewrite ?Q1; naive_solver.
    - intros r Hr. split; [|by intros []]. intros H'. split; [done|]. destruct r; cbn [owns]; assigned_vars; rewrite ?Q1; naive_solver.
    - assigned_vars. lia.
    - assigned_vars. by rewrite Q1. }
  destruct (Z.ltb_spec ext 0); [|lia]. cbn [andb]. rewrite !Config.get_string_ok by done. cbn [obind]. rewrite assign_same.
  destruct (Z.ltb_spec (a_tun a) 0) as [Ht|Ht].
  { destruct (Z.leb_spec 0 (a_tun a)); [lia|]. cbn [andb]. rewrite union_empty_r_L. eexists. split; [done|]. split; [|split; [intros u H1 H2; by rewrite assign_other|rewrite assign_other by done; by rewrite Q1]].
    apply (accounted_less B R (clear w)); [done|done| | | | |].
    - intros v Hv. not_task Hv; done.
    - intros [fd|p|p| |p| | |]; cbn [owns]; assigned_vars; rewrite ?Q1; naive_solver.
    - intros r Hr. split; [|by intros []]. intros H'. split; [done|]. destruct r; cbn [owns]; assigned_vars; rewrite ?Q1; naive_solver.
    - assigned_vars. lia.
    - assigned_vars. by rewrite Q1. }
  destruct (Z.leb_spec 0 (a_tun a)); [|lia]. cbn [andb]. set (w1 := set tun_fd (a_tun a) (take (RFd (a_tun a)) w)).
  assert (accounted (B ∪ {[RFd (a_tun a)]}) R (clear w1)) as Jl.
  { subst w1. apply (accounted_leak B R (clear w)); [done| |done| |done| | | |].
    - intros [fd|p|p| |p| | |]; cbn [owns]; assigned_vars; rewrite ?Q1; naive_solver.
    - intros v Hv. not_task Hv; done.
    - cbn [owns]. assigned_vars. rewrite Q1. lia.
    - intros q _. unfold clear; cbn [set take live]. rewrite elem_of_union, elem_of_singleton. tauto.
    - assigned_vars. lia.
    - assigned_vars. by rewrite Q1. }
  assert (accounted B R (clear (set tun_fd_local 1 w1))) as Ju.
  { subst w1. apply (accounted_take B R (clear w) _ (RFd (a_tun a))); [done|done| |done|by apply (p_tun _ _ _ Hp)| | | |].
    - intros v Hv. not_task Hv; done.
    - intros [fd|p|p| |p| | |]; cbn [owns]; assigned_vars; rewrite ?Q1; naive_solver.
    - intros q _. unfold clear; cbn [set take live]. rewrite elem_of_union, elem_of_singleton. tauto.
    - assigned_vars. lia.
    - assigned_vars. lia. }
  assert (forall o : bytes, bool_decide (is_Some (match o with [] => None | z :: l => Some (z :: l) end)) = negb (bool_decide (o = []))) as Hsome by (by intros []).
  rewrite !Hsome. assert (forall u, u <> tun_fd -> u <> tun_fd_local -> vars w1 u = vars w u) as Sw by (intros u H1 H2; subst w1; by rewrite assign_other).
  assert (vars w1 tun_fd_local = 0) as L1 by (subst w1; by rewrite assign_other).
  destruct (a_mtu a), (bool_decide (Config.text Config.tun_ipv4_address c = [])), (a_ipv4 a), (bool_decide (Config.text Config.tun_ipv6_address c = [])), (a_ipv6 a), (a_state a);
    cbn [negb andb orb obind]; rewrite ?union_empty_r_L; eexists; (split; [done|]); (split; [done|]); (split; [|first [by rewrite L1|intros _; by rewrite assign_other by done]]);
    intros u H1 H2; rewrite ?assign_other by done; by apply Sw.
Qed.

Lemma gateway_init_ok w : accounted B R (clear w) -> exists w', gateway_init a w = Val (0, w') /\ accounted B R w' /\ (forall u, u <> udp -> u <> tcp -> vars w' u = vars w u) /\ vars w' udp = a_udp a.
Proof.
  intros J. unfold gateway_init, touch. destruct Hp as [(T1 & T2) (L1 & L2 & L3) (U1 & U2) _ _ _ _ _].
  rewrite (proj2 (Z.eqb_neq (a_tcp a) NULL) T1), (proj2 (Z.eqb_neq (a_listen a) NULL) L1), (proj2 (Z.eqb_neq (a_udp a) NULL) U1).
  rewrite assign_same, (proj2 (Z.eqb_neq (a_tcp a) NULL) T1). cbn [obind]. rewrite assign_same, drop_owned by (cbn; set_solver). cbn [obind].
  rewrite assign_same, (proj2 (Z.eqb_neq (a_udp a) NULL) U1). cbn [obind].
  eexists. split; [done|]. split; [|split; [intros u H1 H2; cbn [set take vars]; by rewrite !decide_False by done|done]].
  pose proof (j_fds _ _ _ J) as Hf. pose proof (j_tun _ _ _ J) as Ht. unfold clear in Hf, Ht. rewrite !assign_other in Hf, Ht by done.
  assert (accounted B R (set tcp (a_listen a) (take (RTcp (a_listen a)) (clear w)))) as J1.
  { apply (accounted_take B R (clear w) _ (RTcp (a_listen a))); [done|done| |done|done| | | |].
    - intros v Hv. not_task Hv; done.
    - intros [fd|p|p| |p| | |]; cbn [owns]; assigned_vars; naive_solver.
    - intros q _. cbn [set take live]. rewrite elem_of_union, elem_of_singleton. tauto.
    - assigned_vars. done.
    - assigned_vars. done. }
  assert (accounted B R (set udp (a_udp a) (take (RUdp (a_udp a)) (set tcp (a_listen a) (take (RTcp (a_listen a)) (clear w)))))) as J2.
  { apply (accounted_take B R _ _ (RUdp (a_udp a)) J1); [done| |done|done| | | |].
    - intros v Hv. not_task Hv; done.
    - intros [fd|p|p| |p| | |]; cbn [owns]; assigned_vars; naive_solver.
    - intros q _. cbn [set take live]. rewrite elem_of_union, elem_of_singleton. tauto.
    - assigned_vars. done.
    - assigned_vars. done. }
  assert (RTcp (a_tcp a) ∉ live w) as Hn by (intros H; apply (j_live _ _ _ J) in H as [H|H]; [done| |done]; cbn [owns] in H; revert H; assigned_vars; by intros []).
  apply (accounted_ext B R _ _ J2); [|done|].
  - intros u. destruct u; reflexivity.
  - intros r Hr. unfold clear; cbn [set take live]. set_solver.
Qed.

(** A task that no variable has yet. *)
Lemma fresh_task w t : accounted B R w -> t <> NULL -> R !! t = None -> (forall v, v ∈ task_vars -> vars w v <> t) -> refs w !! t = None.
Proof.
  intros J Hn Hr Hv. rewrite (j_refs _ _ _ J), bool_decide_false; [done|]. intros [_ (v & Hin & E)%Exists_exists]. by apply (Hv v Hin).
Qed.

Lemma hev_task_new_vars t w : vars (hev_task_new t w) = vars w.
Proof. unfold hev_task_new. by destruct (t =? NULL). Qed.

Lemma take_pair w f0 f1 : accounted B R w -> vars w event_fd0 < 0 -> vars w event_fd1 < 0 -> (vars w tun_fd_local <> 0 -> vars w tun_fd = a_tun a) ->
  a_pair a = Some (f0, f1) -> accounted B R (take (RFd f0) (take (RFd f1) (set event_fd0 f0 (set event_fd1 f1 w)))).
Proof.
  intros J F0 F1 Ht Ep. destruct (p_pair _ _ _ Hp f0 f1 Ep) as (P0 & P1 & P2 & P3 & P4 & P5 & P6). pose proof (j_tun _ _ _ J) as Htun.
  assert (accounted B R (take (RFd f1) (set event_fd1 f1 w))) as J1.
  { apply (accounted_take B R w _ (RFd f1)); [done|done| |done|done| | | |].
    - intros v Hv. not_task Hv; done.
    - intros [fd|p|p| |p| | |]; cbn [owns]; assigned_vars; try naive_solver lia.
    - intros q _. cbn [set take live]. rewrite elem_of_union, elem_of_singleton. tauto.
    - assigned_vars. lia.
    - assigned_vars. lia. }
  apply (accounted_take B R _ _ (RFd f0) J1); [done| |done|done| | | |].
  - intros v Hv. not_task Hv; done.
  - intros [fd|p|p| |p| | |]; cbn [owns]; assigned_vars; try naive_solver lia.
  - intros q _. cbn [set take live]. rewrite !elem_of_union, !elem_of_singleton. tauto.
  - assigned_vars. lia.
  - assigned_vars. lia.
Qed.

Lemma event_task_init_ok w : accounted B R w -> vars w event_fd0 < 0 -> vars w event_fd1 < 0 -> (forall v, v ∈ task_vars -> vars w v = NULL) ->
  (vars w tun_fd_local <> 0 -> vars w tun_fd = a_tun a) ->
  exists r w', event_task_init a w = Val (r, w') /\ accounted B R w' /\ (forall u, u ∉ [task_event; event_fd0; event_fd1] -> vars w' u = vars w u) /\
    (r = -1 \/ r = 0 /\ vars w' task_event = a_task1 a /\ a_task1 a <> NULL).
Proof.
  intros J F0 F1 Et Ht. unfold event_task_init. destruct (a_pair a) as [[f0 f1]|] eqn:Ep; [|exists (-1), w; split; [done|]; split; [done|]; split; [done|by left]].
  pose proof (take_pair w f0 f1 J F0 F1 Ht Ep) as J1. set (w1 := take (RFd f0) _) in *.
  assert (forall u, u ∉ [event_fd0; event_fd1] -> vars w1 u = vars w u) as S1 by (intros u Hu; subst w1; cbn [take vars]; rewrite !assign_other by set_solver; done).
  destruct (a_event_nonblock a); cbn [negb]; [|exists (-1), w1; split; [done|]; split; [done|]; split; [intros u Hu; apply S1; set_solver|by left]].
  rewrite assign_same. assert (accounted B R (set task_event (a_task1 a) (hev_task_new (a_task1 a) w1))) as J2.
  { apply task_init_ok; [done|repeat constructor|by rewrite S1, Et by (first [set_solver|repeat constructor])|]. intros Hn.
    assert (R !! a_task1 a = None) as Hr by (apply (p_tasks _ _ _ Hp); [repeat constructor|done]). split; [|done]. apply fresh_task; try done.
    intros v Hv. rewrite S1, Et by (first [done|not_task Hv; set_solver]). done. }
  assert (forall u, u ∉ [task_event; event_fd0; event_fd1] -> vars (set task_event (a_task1 a) (hev_task_new (a_task1 a) w1)) u = vars w u) as S2.
  { intros u Hu. rewrite assign_other, hev_task_new_vars by set_solver. apply S1. set_solver. }
  destruct (Z.eqb_spec (a_task1 a) NULL) as [E|E]; eexists _, _; (split; [done|]); (split; [done|]); (split; [done|]); [by left|right; by rewrite assign_same].
Qed.

Lemma new_task_ok w v t : accounted B R w -> v ∈ task_vars -> vars w v = NULL -> t ∈ [a_task1 a; a_task2 a; a_task3 a] ->
  (t <> NULL -> forall u, u ∈ task_vars -> vars w u <> t) -> accounted B R (set v t (hev_task_new t w)).
Proof.
  intros J Hv E Ht Hu. apply task_init_ok; [done|done|done|]. intros Hn. pose proof (p_tasks _ _ _ Hp t Ht Hn) as Hr. split; [|done]. by apply fresh_task; auto.
Qed.

Lemma mapped_dns_init_ok w : accounted B R w -> vars w dns = NULL ->
  exists r w', mapped_dns_init c a w = Val (r, w') /\ accounted B R w' /\ same_but dns w w' /\ (r = -1 \/ r = 0).
Proof.
  intros J E. unfold mapped_dns_init. destruct (_ =? 0); [exists 0, w; split; [done|]; split; [done|]; split; [done|by right]|].
  destruct (Z.eqb_spec (a_dns a) NULL) as [Ed|Ed]; [exists (-1), w; split; [done|]; split; [done|]; split; [done|by left]|].
  eexists 0, _. split; [done|]. split; [|split; [intros u Hu; by rewrite assign_other|by right]].
  apply (accounted_take B R w _ (RDns (a_dns a))); [done|done| |done|by apply (p_dns _ _ _ Hp)| | | |].
  - intros v Hv. not_task Hv; done.
  - intros [fd|p|p| |p| | |]; cbn [owns]; assigned_vars; naive_solver.
  - intros q _. cbn [set take live]. rewrite elem_of_union, elem_of_singleton. tauto.
  - assigned_vars. apply (j_fds _ _ _ J).
  - assigned_vars. apply (j_tun _ _ _ J).
Qed.

(** The function undoes what was done when a step fails. *)
Lemma init_step_fails f next w w' B' : f w = Val (-1, w') -> accounted B' R w' ->
  exists w'', init_step c f next w = Val (-1, w'') /\ live w'' = B' /\ refs w'' = R /\ quiet w''.
Proof.
  intros E J. unfold init_step. rewrite E. cbn [obind]. change (-1 <? 0) with true. cbn iota.
  destruct (fini_ok c B' R w' Hc J) as (w'' & -> & L & Er & Q & _). by exists w''.
Qed.

Lemma init_step_goes f next w w' : f w = Val (0, w') -> init_step c f next w = next w'.
Proof. intros E. unfold init_step. by rewrite E. Qed.

End init.
Section start_ok.
Context (c : Config.config) (a : environment) (B : gset res) (R : gmap Z Z).
Context (Hc : Config.config_ok c) (Hp : plausible B R a).

(** A start either undid itself or left what the variables account for. *)
Definition started (ext : Z) (o : outcome (Z * world)) : Prop :=
  exists r w', o = Val (r, w') /\
    (r = -1 /\ live w' = B ∪ device_leak c a ext /\ refs w' = R /\ quiet w' \/
     r = 0 /\ device_up c a ext = true /\ accounted B R w' /\ vars w' udp = a_udp a /\ forall v, v ∈ task_vars -> vars w' v <> NULL).

Lemma init_step_rule ext f next w r w' : device_up c a ext = true -> f w = Val (r, w') -> accounted B R w' -> r = -1 \/ r = 0 /\ started ext (next w') ->
  started ext (init_step c f next w).
Proof.
  intros Eu E J [-> | [-> H]].
  - destruct (init_step_fails c R Hc f next w w' B E J) as (w'' & -> & L & Er & Q). exists (-1), w''. split; [done|]. left.
    split; [done|]. split; [|done]. rewrite L. unfold device_leak. by rewrite Eu, andb_false_r, union_empty_r_L.
  - by rewrite (init_step_goes c f next w w' E).
Qed.

Lemma tunnel_start_ok ext w : quiet w -> accounted B R (clear w) -> device_up c a ext = true \/ vars w udp = NULL /\ vars w tcp = NULL ->
  started ext (hev_socks5_tunnel_init c a ext w).
Proof.
  intros Q J Hs. unfold hev_socks5_tunnel_init. pose proof Q as [Q1 Q2 Q3 Q4 Q5].
  destruct (tunnel_init_ok c a B R Hc Hp ext w Q J) as (w1 & E1 & J1 & S1 & T1). destruct (device_up c a ext) eqn:Eu.
  2:{ destruct Hs as [Hs|[U T]]; [done|]. eapply init_step_fails in E1 as (w'' & -> & L & Er & Qw); [exists (-1), w''; split; [done|by left]|done|].
      apply (accounted_ext _ _ _ _ J1); [|done|done]. intros u. unfold clear. cbn [set vars]. repeat case_decide; subst; rewrite ?S1 by done; done. }
  rewrite (init_step_goes c _ _ _ _ E1). assert (accounted B R (clear w1)) as J1' by (revert J1; unfold device_leak; by rewrite Eu, andb_false_r, union_empty_r_L).
  destruct (gateway_init_ok c a B R Hc Hp w1 J1') as (w2 & E2 & J2 & S2 & U2). rewrite (init_step_goes c _ _ _ _ E2).
  assert (forall u, u ∉ [tun_fd; tun_fd_local; udp; tcp] -> vars w2 u = vars w u) as Sb by (intros u Hu; rewrite S2, S1 by set_solver; done).
  assert (forall v, v ∈ task_vars -> vars w2 v = NULL) as N2 by (intros v Hv; rewrite Sb by (not_task Hv; set_solver); by apply Q4).
  destruct (event_task_init_ok c a B R Hc Hp w2 J2) as (r3 & w3 & E3 & J3 & S3 & D3); [by rewrite Sb by set_solver|by rewrite Sb by set_solver|done|rewrite !S2 by done; apply T1|].
  apply (init_step_rule ext _ _ _ r3 w3 Eu E3 J3). destruct D3 as [D3|(-> & T3 & N3)]; [by left|right; split; [done|]].
  set (w4 := set task_lwip_io (a_task2 a) (hev_task_new (a_task2 a) w3)).
  assert (forall u, u <> task_lwip_io -> vars w4 u = vars w3 u) as S4 by (intros u Hu; subst w4; by rewrite assign_other, hev_task_new_vars).
  assert (vars w4 task_lwip_io = a_task2 a) as T4 by (subst w4; by rewrite assign_same).
  destruct (p_distinct _ _ _ Hp) as [D1 D2]. destruct (D1 N3) as [D12 D13].
  assert (accounted B R w4) as J4.
  { apply (new_task_ok a B R Hp); [done|repeat constructor|rewrite S3, N2 by (first [set_solver|repeat constructor]); done|repeat constructor|].
    intros Hn u Hu. not_task Hu; [congruence| |]; rewrite S3, N2 by (first [set_solver|repeat constructor]); done. }
  apply (init_step_rule ext _ _ _ (if a_task2 a =? NULL then -1 else 0) w4 Eu); [unfold lwip_io_task_init; by rewrite assign_same|done|].
  destruct (Z.eqb_spec (a_task2 a) NULL) as [N4|N4]; [by left|right; split; [done|]].
  set (w5 := set task_lwip_timer (a_task3 a) (hev_task_new (a_task3 a) w4)).
  assert (forall u, u <> task_lwip_timer -> vars w5 u = vars w4 u) as S5 by (intros u Hu; subst w5; by rewrite assign_other, hev_task_new_vars).
  assert (vars w5 task_lwip_timer = a_task3 a) as T5 by (subst w5; by rewrite assign_same).
  assert (vars w4 task_lwip_timer = NULL) as N5 by (rewrite S4, S3, N2 by (first [done|set_solver|repeat constructor]); done).
  assert (accounted B R w5) as J5.
  { apply (new_task_ok a B R Hp); [done|repeat constructor|done|repeat constructor|]. intros Hn u Hu. not_task Hu; [rewrite S4 by done; congruence|rewrite T4; auto|congruence]. }
  apply (init_step_rule ext _ _ _ (if a_task3 a =? NULL then -1 else 0) w5 Eu); [unfold lwip_timer_task_init; by rewrite assign_same|done|].
  destruct (Z.eqb_spec (a_task3 a) NULL) as [N6|N6]; [by left|right; split; [done|]].
  destruct (mapped_dns_init_ok c a B R Hp w5 J5) as (r6 & w6 & E6 & J6 & S6 & D6); [rewrite S5, S4, S3, Sb by (first [done|set_solver]); done|].
  apply (init_step_rule ext _ _ _ r6 w6 Eu E6 J6). destruct D6 as [D6|D6]; [by left|right; split; [done|]].
  exists 0, w6. split; [done|]. right. split; [done|]. split; [done|]. split; [done|]. split; [rewrite S6, S5, S4, S3, U2 by (first [done|set_solver]); done|].
  intros v Hv. rewrite S6 by (not_task Hv; done). not_task Hv; [rewrite S5, S4 by done; congruence|rewrite S5 by done; congruence|congruence].
Qed.

End start_ok.
(** ** A run *)

Lemma task_ref_ok t n w : refs w !! t = Some n -> hev_task_ref t w = Val (mkWorld (vars w) (live w) (<[t := n + 1]> (refs w))).
Proof. intros E. unfold hev_task_ref. by rewrite E. Qed.

Lemma task_drop_ok t n w : refs w !! t = Some n -> n <> 1 -> hev_task_unref t w = Val (mkWorld (vars w) (live w) (<[t := n - 1]> (refs w))).
Proof. intros E Hn. unfold hev_task_unref. rewrite E. cbn [of_option obind]. by rewrite (proj2 (Z.eqb_neq (n - 1) 0)) by lia. Qed.

(** The run gives back the references it takes. *)
Lemma tunnel_run_ok B R w : accounted B R w -> (forall v, v ∈ task_vars -> vars w v <> NULL) ->
  exists w', hev_socks5_tunnel_run w = Val w' /\ accounted B R w' /\ forall u, u <> run -> u <> stop_requested -> vars w' u = vars w u.
Proof.
  intros J Hn. assert (forall v, v ∈ task_vars -> refs w !! vars w v = Some 1) as Hr.
  { intros v Hv. rewrite (j_refs _ _ _ J), bool_decide_true; [done|]. split; [by apply Hn|]. apply Exists_exists. by exists v. }
  assert (forall u v, u ∈ task_vars -> v ∈ task_vars -> u <> v -> vars w u <> vars w v) as Hd.
  { intros u v Hu Hv Huv E. destruct (j_distinct _ _ _ J u v Hu Hv E); [done|]. by apply (Hn u Hu). }
  assert (vars w task_event <> vars w task_lwip_io) as D1 by (apply Hd; first [done|repeat constructor]).
  assert (vars w task_event <> vars w task_lwip_timer) as D2 by (apply Hd; first [done|repeat constructor]).
  assert (vars w task_lwip_io <> vars w task_lwip_timer) as D3 by (apply Hd; first [done|repeat constructor]).
  assert (refs w !! vars w task_event = Some 1) as R1 by (apply Hr; repeat constructor).
  assert (refs w !! vars w task_lwip_io = Some 1) as R2 by (apply Hr; repeat constructor).
  assert (refs w !! vars w task_lwip_timer = Some 1) as R3 by (apply Hr; repeat constructor).
  unfold hev_socks5_tunnel_run. rewrite (task_ref_ok _ 1) by done. cbn [obind vars].
  rewrite (task_ref_ok _ 1) by (cbn [refs]; rewrite !lookup_insert_ne by congruence; done). cbn [obind vars refs live].
  rewrite (task_ref_ok _ 1) by (cbn [refs]; rewrite !lookup_insert_ne by congruence; done). cbn [obind refs live]. cbn [set vars live refs].
  rewrite !decide_False by done.
  rewrite (task_drop_ok _ 2) by (first [lia|cbn [set refs]; rewrite !lookup_insert_ne, lookup_insert_eq by congruence; done]). cbn [obind set vars refs live]. rewrite ?decide_False by done.
  rewrite (task_drop_ok _ 2) by (first [lia|cbn [set refs]; rewrite !lookup_insert_ne, lookup_insert_eq by congruence; done]). cbn [obind set vars refs live]. rewrite ?decide_False by done.
  rewrite (task_drop_ok _ 2) by (first [lia|cbn [set refs]; rewrite !lookup_insert_ne, lookup_insert_eq by congruence; done]). cbn [obind vars refs live].
  eexists. split; [done|]. split; [|intros u H1 H2; cbn [set vars]; by rewrite !decide_False].
  apply (accounted_less B R w); [done| | | | | |].
  - cbn [set refs]. apply map_eq. intros t.
    destruct (decide (t = vars w task_lwip_timer)) as [->|]; [by rewrite lookup_insert_eq|]. rewrite lookup_insert_ne by done.
    destruct (decide (t = vars w task_lwip_io)) as [->|]; [by rewrite lookup_insert_eq|]. rewrite lookup_insert_ne by done.
    destruct (decide (t = vars w task_event)) as [->|]; [by rewrite lookup_insert_eq|]. by rewrite !lookup_insert_ne by congruence.
  - intros v Hv. not_task Hv; done.
  - intros [fd|p|p| |p| | |]; cbn [owns]; assigned_vars; done.
  - intros r _. cbn [set live]. split; [|by intros []]. intros H. split; [done|]. destruct r; cbn [owns]; assigned_vars; done.
  - assigned_vars. apply (j_fds _ _ _ J).
  - assigned_vars. apply (j_tun _ _ _ J).
Qed.

(** ** A start of the process *)

(** A world in which no run is going on and the services are down. *)
Record idle (w : world) : Prop := {
  i_quiet : quiet w;
  i_netif : RNetif ∉ live w;
  i_services : RLogger ∉ live w /\ RSocksLogger ∉ live w /\ RTaskSystem ∉ live w;
}.

Lemma quiet_accounted w : quiet w -> RNetif ∉ live w -> accounted (live w) (refs w) (clear w).
Proof.
  intros [Q1 Q2 Q3 Q4 Q5] Hn. assert (forall r, ~ owns (clear w) r) as Ho.
  { intros [fd|p|p| |p| | |]; cbn [owns]; assigned_vars; rewrite ?Q1, ?Q5; naive_solver lia. }
  constructor; assigned_vars; try (done || lia).
  - intros r _. cbn [set live]. split; [by left|]. intros [H|H]; [done|]. by apply Ho in H.
  - intros r Hr. split; [by intros ->|apply Ho].
  - intros t. cbn [set refs]. rewrite bool_decide_false; [done|]. intros [Ht (v & Hv & E)%Exists_exists]. apply Ht. rewrite E. not_task Hv; assigned_vars; apply Q4; repeat constructor.
  - intros v Hv C. exfalso. apply C. not_task Hv; assigned_vars; apply Q4; repeat constructor.
  - intros u v Hu Hv _. right. not_task Hu; assigned_vars; apply Q4; repeat constructor.
Qed.

(** A service that no variable knows of. *)
Lemma accounted_service B R w r : accounted B R w -> r ∈ [RLogger; RSocksLogger; RTaskSystem] -> accounted (B ∪ {[r]}) R (take r w).
Proof.
  intros J Hr. apply (accounted_leak B R w); try done.
  - set_unfold in Hr. by destruct_or! Hr; subst.
  - set_unfold in Hr. destruct_or! Hr; subst; by intros [].
  - intros q _. cbn [take live]. rewrite elem_of_union, elem_of_singleton. tauto.
  - apply (j_fds _ _ _ J).
  - apply (j_tun _ _ _ J).
Qed.

Lemma plausible_services B R a X : X ⊆ {[RLogger; RSocksLogger; RTaskSystem]} -> plausible B R a -> plausible (B ∪ X) R a.
Proof.
  intros HX [(T1 & T2) (L1 & L2 & L3) (U1 & U2) Htun Hpair Ht Hd Hdns].
  assert (forall r, r ∉ B -> r ∉ ({[RLogger; RSocksLogger; RTaskSystem]} : gset res) -> r ∉ B ∪ X) as H
    by (intros r H1 H2 [H3|H3]%elem_of_union; [done|by apply H2, HX]).
  constructor; try done; try (split_and!; try done; apply H; [done|set_solver]).
  - intros H0. apply H; [auto|set_solver].
  - intros f0 f1 E. destruct (Hpair f0 f1 E) as (P0 & P1 & P2 & P3 & P4 & P5 & P6). split_and!; try done; apply H; first [done|set_solver].
  - intros H0. apply H; [auto|set_solver].
Qed.
(** What a start with the result [r] leaves behind. *)
Definition leaked (c : Config.config) (a : environment) (ext r : Z) : gset res :=
  if r =? -3 then {[RLogger]}
  else if r =? -4 then {[RLogger; RSocksLogger]}
  else if r =? -5 then {[RLogger; RSocksLogger; RTaskSystem]} ∪ device_leak c a ext
  else ∅.

(** The variables of hev-socks5-misc.c. *)
Definition misc_vars : list var := [connect_timeout; tcp_timeout; udp_timeout; udp_recv_buffer_size].

Lemma set_timeouts_vars c w u : u ∉ misc_vars -> vars (set_timeouts c w) u = vars w u.
Proof. intros H. unfold set_timeouts, misc_vars in *. rewrite !assign_other by set_solver. done. Qed.

Lemma quiet_vars w w' : (forall u, u ∉ misc_vars -> vars w' u = vars w u) -> quiet w -> quiet w'.
Proof.
  intros H [Q1 Q2 Q3 Q4 Q5]. unfold misc_vars in H. constructor; rewrite ?H by set_solver; try done. intros v Hv. rewrite H by (not_task Hv; set_solver). by apply Q4.
Qed.

(** [hev_socks5_tunnel_run], [hev_socks5_tunnel_fini] and the ends of the services *)
Lemma start_finish_ok c B R w : Config.config_ok c -> RLogger ∉ B -> RSocksLogger ∉ B -> RTaskSystem ∉ B ->
  accounted (B ∪ {[RLogger]} ∪ {[RSocksLogger]} ∪ {[RTaskSystem]}) R w -> (forall v, v ∈ task_vars -> vars w v <> NULL) ->
  exists w', (let! w := hev_socks5_tunnel_run w in
              let! w := hev_socks5_tunnel_fini c w in
              let! w := drop RSocksLogger w in
              let! w := drop RLogger w in
              let! w := drop RTaskSystem w in Val (0, w)) = Val (0, w') /\ live w' = B /\ refs w' = R /\ quiet w' /\ vars w' udp = vars w udp.
Proof.
  intros Hc N1 N2 N3 J Hn. destruct (tunnel_run_ok _ _ _ J Hn) as (w1 & -> & J1 & S1). cbn [obind].
  destruct (fini_ok c _ _ _ Hc J1) as (w2 & -> & L & Er & Q & U & _). cbn [obind].
  rewrite drop_owned by (rewrite L; set_solver). cbn [obind]. rewrite drop_owned by (cbn [live]; rewrite L; set_solver). cbn [obind].
  rewrite drop_owned by (cbn [live]; rewrite L; set_solver). cbn [obind]. eexists. split; [done|]. cbn [live refs vars]. rewrite L.
  split; [set_solver|]. split; [done|]. split; [by apply (quiet_vars w2)|]. rewrite U. by apply S1.
Qed.

Lemma main_ok c a ext w : Config.config_ok c -> idle w -> plausible (live w) (refs w) a ->
  device_up c a ext = true \/ vars w udp = NULL /\ vars w tcp = NULL ->
  exists r w', hev_socks5_tunnel_main_inner c a ext w = Val (r, w') /\ live w' = live w ∪ leaked c a ext r /\ refs w' = refs w /\ quiet w' /\
    r ∈ [0; -2; -3; -4; -5] /\ (r = 0 -> device_up c a ext = true /\ vars w' udp = a_udp a).
Proof.
  intros Hc [Q Hn (N1 & N2 & N3)] Hp Hs. unfold hev_socks5_tunnel_main_inner, Config.hev_config_get_misc_log_file. rewrite !Config.get_string_ok by done. cbn [obind].
  assert (exists w0, w0 = set_timeouts c w) as [w0 E0] by eauto. rewrite <- E0.
  assert (quiet w0 /\ live w0 = live w /\ refs w0 = refs w /\ vars w0 udp = vars w udp /\ vars w0 tcp = vars w tcp) as (Q0 & L0 & R0 & U0 & T0).
  { subst w0. split; [apply (quiet_vars w); [intros u Hu; by apply set_timeouts_vars|done]|]. split; [done|]. split; [done|]. split; apply set_timeouts_vars; unfold misc_vars; set_solver. }
  clear E0 Q. rewrite <- L0, <- R0 in *. rewrite <- U0, <- T0 in Hs. clear L0 R0 U0 T0 w. rename w0 into w, Q0 into Q.
  destruct (a_logger a); cbn [negb]; [|exists (-2), w; unfold leaked; cbn [Z.eqb Pos.eqb]; split; [done|]; split; [set_solver|]; split; [done|]; split; [done|]; split; [set_solver|done]].
  destruct (a_socks_logger a); cbn [negb obind]; [|eexists (-3), _; split; [done|]; unfold leaked; cbn [Z.eqb take live refs Pos.eqb]; split; [set_solver|]; split; [done|]; split; [by apply (quiet_vars w)|]; split; [set_solver|done]].
  destruct (a_task_system a); cbn [negb]; [|eexists (-4), _; split; [done|]; unfold leaked; cbn [Z.eqb take live refs Pos.eqb]; split; [set_solver|]; split; [done|]; split; [by apply (quiet_vars w)|]; split; [set_solver|done]].
  set (w1 := take RTaskSystem _). set (B1 := live w ∪ {[RLogger]} ∪ {[RSocksLogger]} ∪ {[RTaskSystem]}).
  assert (accounted B1 (refs w) (clear w1)) as J.
  { apply (accounted_service (live w ∪ {[RLogger]} ∪ {[RSocksLogger]}) (refs w) (take RSocksLogger (take RLogger (clear w)))); [|set_solver].
    apply accounted_service; [|set_solver]. apply accounted_service; [|set_solver]. by apply quiet_accounted. }
  assert (plausible B1 (refs w) a) as Hp1 by (subst B1; rewrite <- !(assoc_L (∪)); apply plausible_services; [set_solver|done]).
  destruct (tunnel_start_ok c a B1 (refs w) Hc Hp1 ext w1) as (r & w2 & -> & D); [by apply (quiet_vars w)|done|done|]. cbn [obind].
  destruct D as [(-> & L & Er & Qw)|(-> & Eu & J2 & U & Ht)].
  - cbn [Z.ltb Z.compare]. exists (-5), w2. split; [done|]. unfold leaked. cbn [Z.eqb Pos.eqb]. rewrite L. subst B1. split; [set_solver|]. split; [done|]. split; [done|]. split; [set_solver|done].
  - cbn [Z.ltb Z.compare]. destruct (start_finish_ok c (live w) (refs w) w2 Hc N1 N2 N3 J2 Ht) as (w' & -> & L & Er & Qw & Uw).
    exists 0, w'. split; [done|]. unfold leaked. cbn [Z.eqb]. rewrite L, Uw. split; [set_solver|]. split; [done|]. split; [done|]. split; [set_solver|done].
Qed.

(** Without a device, the first thing that is done is to free what an earlier run freed. *)
Lemma stale_gateway c a ext w : Config.config_ok c -> quiet w -> RNetif ∉ live w -> plausible (live w) (refs w) a -> device_up c a ext = false ->
  vars w udp <> NULL -> RUdp (vars w udp) ∉ live w -> hev_socks5_tunnel_init c a ext w = Fault.
Proof.
  intros Hc Q Hn Hp Eu Hu Hl. unfold hev_socks5_tunnel_init, init_step at 1. pose proof Q as [Q1 Q2 Q3 Q4 Q5].
  destruct (tunnel_init_ok c a _ _ Hc Hp ext w Q (quiet_accounted w Q Hn)) as (w1 & E1 & J1 & S1 & T1). rewrite Eu in E1. rewrite E1.
  cbn [obind Z.ltb Z.compare]. unfold hev_socks5_tunnel_fini, mapped_dns_fini. rewrite S1, Q5 by done. change (NULL =? NULL) with true. cbn [obind].
  assert (forall v, v ∈ task_vars -> task_fini v w1 = Val w1) as Ht by (intros v Hv; unfold task_fini; rewrite S1, Q4 by (first [done|not_task Hv; done]); done).
  assert (forall v, v = event_fd0 \/ v = event_fd1 -> close_event_fd v w1 = Val w1) as Hf.
  { intros v Hv. unfold close_event_fd. rewrite Z.geb_leb. destruct Hv as [-> | ->]; rewrite S1, (proj2 (Z.leb_gt 0 _)) by done; done. }
  assert (event_task_fini w1 = Val w1) as He by (unfold event_task_fini; rewrite Ht by (repeat constructor); cbn [obind]; rewrite Hf by (by left); cbn [obind]; apply Hf; by right).
  unfold lwip_timer_task_fini. rewrite Ht by (repeat constructor). cbn [obind]. unfold lwip_io_task_fini. rewrite Ht by (repeat constructor). cbn [obind]. rewrite He. cbn [obind].
  unfold gateway_fini. rewrite S1, (proj2 (Z.eqb_neq _ _) Hu) by done. unfold drop. rewrite bool_decide_false; [done|].
  assert (RUdp (vars w udp) ∈ live w1 <-> RUdp (vars w udp) ∈ live w) as ->; [|done].
  pose proof (j_live _ _ _ J1 (RUdp (vars w udp)) ltac:(done)) as H. unfold device_leak in H. revert H. unfold clear. cbn [set live]. intros ->. cbn [owns]. assigned_vars.
  rewrite elem_of_union. split; [|by left; left]. intros [[H|H]|[_ H]]; [done|destruct (_ && _); set_solver|done].
Qed.
(** ** Theorems *)


(** C39: a second start in the same process whose device does not come up frees the UDP
    control block of the first run again: [gateway_fini] leaves its pointers in place, and
    [hev_socks5_tunnel_init] calls [hev_socks5_tunnel_fini] also when [gateway_init] was
    not reached. *)
Theorem restart_frees_twice c a ext w w1 c' a' ext' : Config.config_ok c -> Config.config_ok c' -> idle w -> plausible (live w) (refs w) a ->
  vars w udp = NULL /\ vars w tcp = NULL -> hev_socks5_tunnel_main_inner c a ext w = Val (0, w1) ->
  plausible (live w1) (refs w1) a' -> a_logger a' && a_socks_logger a' && a_task_system a' = true -> device_up c' a' ext' = false ->
  hev_socks5_tunnel_main_inner c' a' ext' w1 = Fault.
Proof.
  intros Hc Hc' Hi Hp Hs E Hp' Hup Eu. destruct (main_ok c a ext w Hc Hi Hp (or_intror Hs)) as (r & w' & E' & L & Er & Q & _ & U).
  rewrite E in E'. injection E' as <- <-. destruct (U eq_refl) as [_ U']. unfold leaked in L. cbn [Z.eqb] in L. rewrite union_empty_r_L in L.
  apply andb_prop in Hup as [[H1 H2]%andb_prop H3]. destruct Hi as [_ Hn _]. destruct (p_udp _ _ _ Hp) as [Hz Hu].
  unfold hev_socks5_tunnel_main_inner, Config.hev_config_get_misc_log_file. rewrite !Config.get_string_ok by done. cbn [obind]. rewrite H1, H2, H3. cbn [negb obind].
  assert (vars (set_timeouts c' w1) udp = a_udp a) as U2 by (rewrite set_timeouts_vars; [done|unfold misc_vars; set_solver]). 
  rewrite stale_gateway; [done|done| |cbn [take live set_timeouts set]; set_solver| |done|cbn [take vars]; by rewrite U2|cbn [take vars live]; rewrite U2; cbn [set_timeouts set live]; set_solver].
  { apply (quiet_vars w1); [|done]. intros u Hm. cbn [take vars]. by apply set_timeouts_vars. }
  cbn [take live refs set_timeouts set]. rewrite (union_comm_L {[RLogger]}), (union_comm_L {[RSocksLogger]}), (union_comm_L {[RTaskSystem]}), <- !(assoc_L (∪)).
  apply plausible_services; [set_solver|done].
Qed.
(** ** Witnesses *)

Definition first_world : world := mkWorld initial_vars ∅ ∅.
Definition good_answers : environment :=
  mkEnvironment true true true true 5 true true true true 1 2 1 (Some (6, 7)) true 11 12 13 0.
(** The same, but the MTU of the device is refused. *)
Definition bad_answers : environment :=
  mkEnvironment true true true true 5 false true true true 1 2 1 (Some (6, 7)) true 11 12 13 0.

Lemma first_idle : idle first_world.
Proof. constructor; [constructor; try done; intros v Hv; not_task Hv; done|done|done]. Qed.

Lemma example_plausible a : a = good_answers \/ a = bad_answers -> plausible ∅ ∅ a.
Proof.
  intros [-> | ->]; constructor; cbn; try (split_and!; done); try set_solver; try (intros f0 f1 [= <- <-]; split_and!; first [done|lia|set_solver]).
Qed.

(** The result of a start. *)
Definition code (o : outcome (Z * world)) : option Z := match o with Val (r, _) => Some r | Fault => None end.


Lemma restart_frees_twice_witness :
  exists w1, hev_socks5_tunnel_main_inner Config.defaults good_answers (-1) first_world = Val (0, w1) /\
    hev_socks5_tunnel_main_inner Config.defaults bad_answers (-1) w1 = Fault.
Proof.
  destruct (main_ok Config.defaults good_answers (-1) first_world Config.defaults_ok first_idle (example_plausible _ (or_introl eq_refl)) (or_intror (conj eq_refl eq_refl)))
    as (r & w1 & E & L & Er & _).
  assert (code (hev_socks5_tunnel_main_inner Config.defaults good_answers (-1) first_world) = Some 0) as H by (vm_compute; reflexivity).
  rewrite E in H. injection H as ->. exists w1. split; [done|].
  unfold leaked in L. change (0 =? -3) with false in L. change (0 =? -4) with false in L. change (0 =? -5) with false in L. rewrite union_empty_r_L in L.
  apply (restart_frees_twice Config.defaults good_answers (-1) first_world w1 Config.defaults bad_answers (-1)).
  - apply Config.defaults_ok.
  - apply Config.defaults_ok.
  - apply first_idle.
  - apply example_plausible. by left.
  - split; reflexivity.
  - exact E.
  - rewrite L, Er. apply example_plausible. by right.
  - reflexivity.
  - reflexivity.
Defined.

End Lifecycle.
