(* ===== verification/IP4Frag.v ===== *)
(** * Reassembly of IPv4 datagrams (third-part/lwip/src/core/ipv4/ip4_frag.c)

    Fragments wait in a list of datagrams.  The buffers of a datagram are linked through
    [struct ip_reass_helper], which overwrites the IP header in their payload: the model
    reads and writes those bytes.  Addresses have eight bytes, the host is little endian.
    The heap of buffers is that of [Pbuf]. *)

From Stdlib Require Import ZArith Lia.
From stdpp Require Import base list gmap numbers.
From S2P Require Import Prelude CBytes Pbuf PbufRep InetChksum.
Import list_basics.list list_relations.list list_monad.list list_misc.list.
Import Pbuf.

Module IP4Frag.

(** ** Constants *)

Definition IP_HLEN : Z := 20.
Definition IP_MF : Z := 0x2000.
Definition IP_OFFMASK : Z := 0x1fff.
Definition IP_REASS_MAXAGE : Z := 3.
Definition IP_REASS_MAX_PBUFS : Z := 4.
Definition IP_REASS_FLAG_LASTFRAG : Z := 0x01.
Definition IP_REASS_VALIDATE_TELEGRAM_FINISHED : Z := 1.
Definition IP_REASS_VALIDATE_PBUF_QUEUED : Z := 0.
Definition IP_REASS_VALIDATE_PBUF_DROPPED : Z := -1.

(** ** Headers: the 20 bytes of a [struct ip_hdr] *)

Definition field8 (h : bytes) (i : nat) : Z := nth i h 0.
Definition field16 (h : bytes) (i : nat) : Z := nth i h 0 + 256 * nth (S i) h 0.

Definition IPH_HL_BYTES (h : bytes) : Z := u8 (Z.land (field8 h 0) 0x0f * 4).
Definition IPH_LEN (h : bytes) : Z := field16 h 2.
Definition IPH_ID (h : bytes) : Z := field16 h 4.
Definition IPH_OFFSET (h : bytes) : Z := field16 h 6.
Definition IPH_OFFSET_BYTES (h : bytes) : Z := u16 (Z.land (swap16 (IPH_OFFSET h)) IP_OFFMASK * 8).
Definition IPH_LEN_SET (v : Z) (h : bytes) : bytes := splice 2 (le16 v) h.
Definition IPH_OFFSET_SET (v : Z) (h : bytes) : bytes := splice 6 (le16 v) h.
Definition IPH_CHKSUM_SET (v : Z) (h : bytes) : bytes := splice 10 (le16 v) h.
Definition src_dest (h : bytes) : bytes := slice 12 8 h.

Definition IP_ADDRESSES_AND_ID_MATCH (a b : bytes) : bool :=
  bool_decide (src_dest a = src_dest b /\ IPH_ID a = IPH_ID b).

(** ** State *)

Record ip_reassdata := mkReass { r_next : Z; r_p : Z; iphdr : bytes; datagram_len : Z; r_flags : Z; timer : Z }.

(** [exceeded]: the packets for which [icmp_time_exceeded] was called. *)
Record frags := mkFrags {
  heap : pheap; datagrams : gmap Z ip_reassdata; reassdatagrams : Z; ip_reass_pbufcount : Z; exceeded : list bytes }.

Abbreviation RM := (ST frags).

Definition pm {A} (m : PM A) : RM A :=
  fun s => let! (a, h) := m (heap s) in Val (a, mkFrags h (datagrams s) (reassdatagrams s) (ip_reass_pbufcount s) (exceeded s)).

Definition get_r (r : Z) : RM ip_reassdata := fun s => let! d := of_option (datagrams s !! r) in Val (d, s).
Definition put_r (r : Z) (d : ip_reassdata) : RM unit :=
  fun s => Val (tt, mkFrags (heap s) (<[r := d]> (datagrams s)) (reassdatagrams s) (ip_reass_pbufcount s) (exceeded s)).
Definition memp_free (r : Z) : RM unit :=
  fun s => Val (tt, mkFrags (heap s) (delete r (datagrams s)) (reassdatagrams s) (ip_reass_pbufcount s) (exceeded s)).
Definition set_head (r : Z) : RM unit :=
  fun s => Val (tt, mkFrags (heap s) (datagrams s) r (ip_reass_pbufcount s) (exceeded s)).
Definition set_count (n : Z) : RM unit :=
  fun s => Val (tt, mkFrags (heap s) (datagrams s) (reassdatagrams s) n (exceeded s)).
Definition set_r_next (v : Z) (d : ip_reassdata) := mkReass v (r_p d) (iphdr d) (datagram_len d) (r_flags d) (timer d).
Definition set_r_p (v : Z) (d : ip_reassdata) := mkReass (r_next d) v (iphdr d) (datagram_len d) (r_flags d) (timer d).
Definition set_iphdr (v : bytes) (d : ip_reassdata) := mkReass (r_next d) (r_p d) v (datagram_len d) (r_flags d) (timer d).
Definition set_last (l : Z) (d : ip_reassdata) :=
  mkReass (r_next d) (r_p d) (iphdr d) l (Z.lor (r_flags d) IP_REASS_FLAG_LASTFRAG) (timer d).
Definition set_timer (v : Z) (d : ip_reassdata) := mkReass (r_next d) (r_p d) (iphdr d) (datagram_len d) (r_flags d) v.

Definition ask {A} (f : frags -> A) : RM A := fun s => Val (f s, s).
Definition ASSERT (b : bool) : RM unit := if b then sret tt else sfault.

(** What [payload] points to. *)
Definition get_bytes (p off n : Z) : RM bytes := pm (do! b := load p in slift (read_payload b off n)).
Definition put_bytes (p off : Z) (d : bytes) : RM unit := pm (write_payload p off d).

(** ** [struct ip_reass_helper] *)

Fixpoint le_value (l : bytes) : Z :=
  match l with
  | [] => 0
  | x :: l => x + 256 * le_value l
  end.

Fixpoint le_bytes (n : nat) (v : Z) : bytes :=
  match n with
  | O => []
  | S n => u8 v :: le_bytes n (Z.shiftr v 8)
  end.

Definition next_pbuf (p : Z) : RM Z := do! l := get_bytes p 0 8 in sret (le_value l).
Definition start (p : Z) : RM Z := do! l := get_bytes p 8 2 in sret (le_value l).
Definition end_ (p : Z) : RM Z := do! l := get_bytes p 10 2 in sret (le_value l).
Definition set_next_pbuf (p v : Z) : RM unit := put_bytes p 0 (le_bytes 8 v).
Definition set_start (p v : Z) : RM unit := put_bytes p 8 (le_bytes 2 v).
Definition set_end (p v : Z) : RM unit := put_bytes p 10 (le_bytes 2 v).

Section reass.
(** Freeing a custom buffer, the pool of [struct ip_reassdata], and where the memory of a
    buffer lies. *)
Context (custom_free : Z -> PM unit) (memp_malloc : frags -> Z) (base : Z -> Z).

Definition fuel (s : frags) : nat := PbufRep.fuel_of (heap s).

Definition clen (p : Z) : RM Z := do! f := ask fuel in pm (pbuf_clen f p).
Definition free (p : Z) : RM unit := do! f := ask fuel in do! _ := pm (pbuf_free custom_free f p) in sret tt.

(** ** Datagrams *)

Definition ip_reass_dequeue_datagram (ipr prev : Z) : RM unit :=
  do! d := get_r ipr in
  do! head := ask reassdatagrams in
  (if head =? ipr then set_head (r_next d)
   else
     ASSERT (negb (prev =? NULL)) ;;;
     do! e := get_r prev in
     put_r prev (set_r_next (r_next d) e)) ;;;
  memp_free ipr.

Definition icmp_time_exceeded (p : Z) : RM unit :=
  do! b := pm (load p) in
  do! d := get_bytes p 0 (len b) in
  fun s => Val (tt, mkFrags (heap s) (datagrams s) (reassdatagrams s) (ip_reass_pbufcount s) (exceeded s ++ [d])).

(** [while (p != NULL)] over the fragments that are not chained yet *)
Fixpoint free_fragments (n : nat) (p pbufs_freed : Z) : RM Z :=
  if p =? NULL then sret pbufs_freed
  else
    match n with
    | O => sfault
    | S n =>
        do! q := next_pbuf p in
        do! c := clen p in
        ASSERT (pbufs_freed + c <=? 0xffff) ;;;
        free p ;;;
        free_fragments n q (u16 (pbufs_freed + c))
    end.

Definition ip_reass_free_complete_datagram (ipr prev : Z) : RM Z :=
  ASSERT (negb (prev =? ipr)) ;;;
  (if prev =? NULL then sret tt else do! e := get_r prev in ASSERT (r_next e =? ipr)) ;;;
  do! d := get_r ipr in
  do! s := start (r_p d) in
  do! pbufs_freed :=
    (if s =? 0 then
       let p := r_p d in
       do! q := next_pbuf p in
       put_r ipr (set_r_p q d) ;;;
       put_bytes p 0 (iphdr d) ;;;
       icmp_time_exceeded p ;;;
       do! c := clen p in
       ASSERT (0 + c <=? 0xffff) ;;;
       free p ;;;
       sret (u16 (0 + c))
     else sret 0) in
  do! d := get_r ipr in
  do! f := ask fuel in
  do! pbufs_freed := free_fragments f (r_p d) pbufs_freed in
  ip_reass_dequeue_datagram ipr prev ;;;
  do! count := ask ip_reass_pbufcount in
  ASSERT (count >=? pbufs_freed) ;;;
  set_count (u16 (count - pbufs_freed)) ;;;
  sret pbufs_freed.

(** The inner loop of [ip_reass_remove_oldest_datagram]: the oldest datagram, its
    predecessor, and the number of others. *)
Fixpoint oldest_loop (n : nat) (fraghdr : bytes) (r prev oldest oldest_prev others : Z) : RM (Z * Z * Z) :=
  if r =? NULL then sret (oldest, oldest_prev, others)
  else
    match n with
    | O => sfault
    | S n =>
        do! d := get_r r in
        do! (oldest, oldest_prev, others) :=
          (if negb (IP_ADDRESSES_AND_ID_MATCH (iphdr d) fraghdr) then
             if oldest =? NULL then sret (r, prev, others + 1)
             else
               do! o := get_r oldest in
               sret (if timer d <=? timer o then (r, prev, others + 1) else (oldest, oldest_prev, others + 1))
           else sret (oldest, oldest_prev, others)) in
        let prev := if negb (r_next d =? NULL) then r else prev in
        oldest_loop n fraghdr (r_next d) prev oldest oldest_prev others
    end.

Definition rfuel (s : frags) : nat := S (size (datagrams s)).

Fixpoint remove_loop (n : nat) (fraghdr : bytes) (pbufs_needed pbufs_freed : Z) : RM Z :=
  match n with
  | O => sfault
  | S n =>
      do! f := ask rfuel in
      do! head := ask reassdatagrams in
      do! (oldest, oldest_prev, others) := oldest_loop f fraghdr head NULL NULL NULL 0 in
      do! pbufs_freed :=
        (if negb (oldest =? NULL) then
           do! c := ip_reass_free_complete_datagram oldest oldest_prev in sret (pbufs_freed + c)
         else sret pbufs_freed) in
      if (pbufs_freed <? pbufs_needed) && (others >? 1) then remove_loop n fraghdr pbufs_needed pbufs_freed
      else sret pbufs_freed
  end.

Definition ip_reass_remove_oldest_datagram (fraghdr : bytes) (pbufs_needed : Z) : RM Z :=
  do! f := ask rfuel in remove_loop f fraghdr pbufs_needed 0.

Definition ip_reass_enqueue_new_datagram (fraghdr : bytes) (clen : Z) : RM Z :=
  do! ipr := ask memp_malloc in
  do! ipr :=
    (if ipr =? NULL then
       do! n := ip_reass_remove_oldest_datagram fraghdr clen in
       if n >=? clen then ask memp_malloc else sret ipr
     else sret ipr) in
  if ipr =? NULL then sret NULL
  else
    do! head := ask reassdatagrams in
    put_r ipr (mkReass head NULL fraghdr 0 0 IP_REASS_MAXAGE) ;;;
    set_head ipr ;;;
    sret ipr.

(** ** Fragments *)

(** The loop that looks for the place of a new fragment.  [None]: it is dropped.
    Otherwise where the loop stopped, the helper before it, and [valid]. *)
Fixpoint place_loop (n : nat) (ipr new_p q iprh_prev : Z) (valid : bool) : RM (option (Z * Z * bool)) :=
  if q =? NULL then sret (Some (q, iprh_prev, valid))
  else
    match n with
    | O => sfault
    | S n =>
        do! st := start new_p in
        do! tmp_start := start q in
        if st <? tmp_start then
          set_next_pbuf new_p q ;;;
          if negb (iprh_prev =? NULL) then
            do! prev_end := end_ iprh_prev in
            do! e := end_ new_p in
            if (st <? prev_end) || (e >? tmp_start) then sret None
            else
              set_next_pbuf iprh_prev new_p ;;;
              sret (Some (q, iprh_prev, if negb (prev_end =? st) then false else valid))
          else
            do! e := end_ new_p in
            if e >? tmp_start then sret None
            else
              do! d := get_r ipr in
              put_r ipr (set_r_p new_p d) ;;;
              sret (Some (q, iprh_prev, valid))
        else if st =? tmp_start then sret None
        else
          do! tmp_end := end_ q in
          if st <? tmp_end then sret None
          else
            do! valid :=
              (if negb (iprh_prev =? NULL) then
                 do! prev_end := end_ iprh_prev in sret (if negb (prev_end =? tmp_start) then false else valid)
               else sret valid) in
            do! nx := next_pbuf q in
            place_loop n ipr new_p nx q valid
    end.

(** The end of the list was reached: chain the fragment to the last one. *)
Definition link_last (ipr new_p iprh_prev : Z) (valid : bool) : RM bool :=
  if negb (iprh_prev =? NULL) then
    do! prev_end := end_ iprh_prev in
    do! st := start new_p in
    ASSERT (prev_end <=? st) ;;;
    set_next_pbuf iprh_prev new_p ;;;
    sret (if negb (prev_end =? st) then false else valid)
  else
    do! d := get_r ipr in
    ASSERT (r_p d =? NULL) ;;;
    put_r ipr (set_r_p new_p d) ;;;
    sret valid.

(** [None]: dropped; otherwise whether there is no hole before the fragment. *)
Definition place (n : nat) (ipr new_p q iprh_prev : Z) (valid : bool) : RM (option bool) :=
  do! found := place_loop n ipr new_p q iprh_prev valid in
  match found with
  | None => sret None
  | Some (q, iprh_prev, valid) =>
      do! valid := (if q =? NULL then link_last ipr new_p iprh_prev valid else sret valid) in
      sret (Some valid)
  end.

(** The fragments behind the new one, without holes; the last one reached. *)
Fixpoint rest_loop (n : nat) (iprh_prev q iprh : Z) : RM (bool * Z) :=
  if q =? NULL then sret (true, iprh)
  else
    match n with
    | O => sfault
    | S n =>
        do! prev_end := end_ iprh_prev in
        do! st := start q in
        if negb (prev_end =? st) then sret (false, q)
        else do! nx := next_pbuf q in rest_loop n q nx q
    end.

Definition ip_reass_chain_frag_into_datagram_and_validate (ipr new_p : Z) (is_last : bool) : RM Z :=
  do! fraghdr := get_bytes new_p 0 IP_HLEN in
  let len := swap16 (IPH_LEN fraghdr) in
  let hlen := IPH_HL_BYTES fraghdr in
  if hlen >? len then sret IP_REASS_VALIDATE_PBUF_DROPPED
  else
    let len := u16 (len - hlen) in
    let offset := IPH_OFFSET_BYTES fraghdr in
    set_next_pbuf new_p NULL ;;;
    set_start new_p offset ;;;
    set_end new_p (u16 (offset + len)) ;;;
    if u16 (offset + len) <? offset then sret IP_REASS_VALIDATE_PBUF_DROPPED
    else
      do! d := get_r ipr in
      do! f := ask fuel in
      do! placed := place f ipr new_p (r_p d) NULL true in
      match placed with
      | None => sret IP_REASS_VALIDATE_PBUF_DROPPED
      | Some valid =>
          do! d := get_r ipr in
          if is_last || negb (Z.land (r_flags d) IP_REASS_FLAG_LASTFRAG =? 0) then
            do! valid :=
              (if valid then
                 do! none := (if r_p d =? NULL then sret true else do! st := start (r_p d) in sret (negb (st =? 0))) in
                 if none then sret false
                 else
                   do! q := next_pbuf new_p in
                   do! (valid, iprh) := rest_loop f new_p q new_p in
                   if valid then
                     ASSERT (negb (r_p d =? NULL)) ;;;
                     ASSERT (negb (r_p d =? iprh)) ;;;
                     do! nx := next_pbuf iprh in
                     ASSERT (nx =? NULL) ;;;
                     sret true
                   else sret false
               else sret false) in
            sret (if valid then IP_REASS_VALIDATE_TELEGRAM_FINISHED else IP_REASS_VALIDATE_PBUF_QUEUED)
          else sret IP_REASS_VALIDATE_PBUF_QUEUED
      end.

(** The datagram with the addresses and the identification of [fraghdr]. *)
Fixpoint find_datagram (n : nat) (fraghdr : bytes) (ipr : Z) : RM Z :=
  if ipr =? NULL then sret NULL
  else
    match n with
    | O => sfault
    | S n =>
        do! d := get_r ipr in
        if IP_ADDRESSES_AND_ID_MATCH (iphdr d) fraghdr then sret ipr else find_datagram n fraghdr (r_next d)
    end.

Fixpoint find_prev (n : nat) (ipr r : Z) : RM Z :=
  if r =? NULL then sret NULL
  else
    match n with
    | O => sfault
    | S n => do! d := get_r r in if r_next d =? ipr then sret r else find_prev n ipr (r_next d)
    end.

(** Chain the buffers of the fragments behind the first one to it; the helper is read at
    its old place after the header was hidden. *)
Fixpoint chain_loop (n : nat) (p r : Z) : RM unit :=
  if r =? NULL then sret tt
  else
    match n with
    | O => sfault
    | S n =>
        do! b := pm (load r) in
        let iprh := payload b in
        do! _ := pm (pbuf_remove_header r IP_HLEN) in
        do! f := ask fuel in
        pm (pbuf_cat f p r) ;;;
        do! b := pm (load r) in
        do! l := pm (slift (get_n (mem b) iprh 8)) in
        chain_loop n p (le_value l)
    end.

Definition nullreturn (p : Z) : RM Z := free p ;;; sret NULL.

Definition nullreturn_ipr (ipr p : Z) : RM Z :=
  do! d := get_r ipr in
  (if r_p d =? NULL then
     do! head := ask reassdatagrams in
     ASSERT (ipr =? head) ;;;
     ip_reass_dequeue_datagram ipr NULL
   else sret tt) ;;;
  nullreturn p.

(** The header of the datagram, back in the first buffer. *)
Definition whole_header (p : Z) (d : ip_reassdata) : bytes :=
  let h := IPH_LEN_SET (swap16 (u16 (datagram_len d + IP_HLEN))) (iphdr d) in
  let h := IPH_CHKSUM_SET 0 (IPH_OFFSET_SET 0 h) in
  IPH_CHKSUM_SET (InetChksum.inet_chksum (base p) h) h.

Definition finish_datagram (ipr : Z) : RM Z :=
  do! d := get_r ipr in
  let p := r_p d in
  do! r := next_pbuf p in
  put_bytes p 0 (whole_header p d) ;;;
  do! f := ask fuel in
  chain_loop f p r ;;;
  do! head := ask reassdatagrams in
  do! n := ask rfuel in
  do! prev := (if ipr =? head then sret NULL else find_prev n ipr head) in
  ip_reass_dequeue_datagram ipr prev ;;;
  do! c := clen p in
  do! count := ask ip_reass_pbufcount in
  ASSERT (count >=? c) ;;;
  set_count (u16 (count - c)) ;;;
  sret p.

(** From where the entry of the fragment's datagram is known. *)
Definition add_fragment (ipr p : Z) (fraghdr : bytes) (clen : Z) : RM Z :=
  let offset := IPH_OFFSET_BYTES fraghdr in
  let len := u16 (swap16 (IPH_LEN fraghdr) - IPH_HL_BYTES fraghdr) in
  let is_last := Z.land (IPH_OFFSET fraghdr) (swap16 IP_MF) =? 0 in
  let datagram_len := u16 (offset + len) in
  if is_last && ((datagram_len <? offset) || (datagram_len >? 0xFFFF - IP_HLEN)) then nullreturn_ipr ipr p
  else
    do! valid := ip_reass_chain_frag_into_datagram_and_validate ipr p is_last in
    if valid =? IP_REASS_VALIDATE_PBUF_DROPPED then nullreturn_ipr ipr p
    else
      do! count := ask ip_reass_pbufcount in
      set_count (u16 (count + clen)) ;;;
      (if is_last then do! d := get_r ipr in put_r ipr (set_last datagram_len d) else sret tt) ;;;
      if valid =? IP_REASS_VALIDATE_TELEGRAM_FINISHED then finish_datagram ipr else sret NULL.

Definition ip4_reass (p : Z) : RM Z :=
  do! fraghdr := get_bytes p 0 IP_HLEN in
  if negb (IPH_HL_BYTES fraghdr =? IP_HLEN) then nullreturn p
  else if IPH_HL_BYTES fraghdr >? swap16 (IPH_LEN fraghdr) then nullreturn p
  else
    do! c := clen p in
    do! count := ask ip_reass_pbufcount in
    do! full :=
      (if count + c >? IP_REASS_MAX_PBUFS then
         do! n := ip_reass_remove_oldest_datagram fraghdr c in
         do! count := ask ip_reass_pbufcount in
         sret ((n =? 0) || (count + c >? IP_REASS_MAX_PBUFS))
       else sret false) in
    if full then nullreturn p
    else
      do! n := ask rfuel in
      do! head := ask reassdatagrams in
      do! ipr := find_datagram n fraghdr head in
      if ipr =? NULL then
        do! ipr := ip_reass_enqueue_new_datagram fraghdr c in
        if ipr =? NULL then nullreturn p else add_fragment ipr p fraghdr c
      else
        do! d := get_r ipr in
        (if (Z.land (swap16 (IPH_OFFSET fraghdr)) IP_OFFMASK =? 0) && negb (Z.land (swap16 (IPH_OFFSET (iphdr d))) IP_OFFMASK =? 0)
         then put_r ipr (set_iphdr fraghdr d) else sret tt) ;;;
        add_fragment ipr p fraghdr c.

(** [while (r != NULL)] of the timer. *)
Fixpoint tmr_loop (n : nat) (r prev : Z) : RM unit :=
  if r =? NULL then sret tt
  else
    match n with
    | O => sfault
    | S n =>
        do! d := get_r r in
        if timer d >? 0 then put_r r (set_timer (timer d - 1) d) ;;; tmr_loop n (r_next d) r
        else
          do! _ := ip_reass_free_complete_datagram r prev in tmr_loop n (r_next d) prev
    end.

Definition ip_reass_tmr : RM unit :=
  do! n := ask rfuel in do! head := ask reassdatagrams in tmr_loop n head NULL.

End reass.

End IP4Frag.
