(* ===== verification/IP4ReassRep.v ===== *)
(** * Fragments in memory

    [opk] is a packet of owned buffers whose first one holds the IP header; [fr_rep] is such
    a packet with a helper in place of the header.  Reading and writing helpers, placing a
    fragment in the list of its datagram, looking for holes and chaining the fragments are
    shown to act on the list of fragments. *)

From Stdlib Require Import ZArith Lia Sorted.
From stdpp Require Import base list gmap numbers.
From S2P Require Import Prelude CBytes Pbuf PbufRep InetChksum IP4Frag.
Import list_basics.list list_relations.list list_monad.list list_misc.list.
Import Pbuf PbufRep IP4Frag.

Module IP4ReassRep.

(** ** Running programs *)

Lemma run_bind {S A B} (m : ST S A) (k : A -> ST S B) s a s' : m s = Val (a, s') -> sbind m k s = k a s'.
Proof. intros E. unfold sbind. by rewrite E. Qed.

Lemma run_assoc {S A B C} (m : ST S A) (f : A -> ST S B) (k : B -> ST S C) s :
  sbind (sbind m f) k s = sbind m (fun x => sbind (f x) k) s.
Proof. unfold sbind. by destruct (m s) as [[]|]. Qed.

Lemma run_ret {S A B} (a : A) (k : A -> ST S B) s : sbind (sret a) k s = k a s.
Proof. done. Qed.

(** The next statement, by an equation for its result. *)
Ltac run H := rewrite ?run_assoc; rewrite (run_bind _ _ _ _ _ H); cbn beta iota.
Ltac ret := rewrite ?run_assoc; rewrite run_ret; cbn beta iota.

(** ** Little-endian words *)

Lemma length_le_bytes n : forall v, length (le_bytes n v) = n.
Proof. induction n as [|n IH]; intros v; cbn; [done|]. by rewrite IH. Qed.

Lemma le_value_bytes n : forall v, 0 <= v < 256 ^ Z.of_nat n -> le_value (le_bytes n v) = v.
Proof.
  induction n as [|n IH]; intros v Hv; cbn [le_value le_bytes].
  - change (256 ^ Z.of_nat 0) with 1 in Hv. lia.
  - rewrite Nat2Z.inj_succ, Z.pow_succ_r in Hv by lia. rewrite Z.shiftr_div_pow2 by lia. change (2 ^ 8) with 256.
    rewrite IH; [|split; [apply Z.div_pos; lia|apply Z.div_lt_upper_bound; lia]]. unfold u8. change (2 ^ 8) with 256.
    pose proof (Z.div_mod v 256). lia.
Qed.

Lemma le_bytes_16 v : le_bytes 2 v = le16 v.
Proof. done. Qed.

(** ** Packets with a header *)

Definition with_heap (h : pheap) (s : frags) : frags := mkFrags h (datagrams s) (reassdatagrams s) (ip_reass_pbufcount s) (exceeded s).

Lemma with_heap_twice h1 h2 s : with_heap h1 (with_heap h2 s) = with_heap h1 s.
Proof. done. Qed.

Lemma with_heap_id s : with_heap (heap s) s = s.
Proof. by destruct s. Qed.

Lemma pm_ok {A} (m : PM A) a h' s : m (heap s) = Val (a, h') -> pm m s = Val (a, with_heap h' s).
Proof. intros E. unfold pm. by rewrite E. Qed.

(** [ad]: the addresses of the buffers; [d]: what they hold. *)
Definition opk (h : pheap) (ad : list Z) (d : bytes) : Prop :=
  exists p n xs, ad = p :: xs.*1 /\ packet h p ((p, n) :: xs) /\ all_owned ((p, n) :: xs) /\ IP_HLEN <= len n /\ data ((p, n) :: xs) = d.

Lemma opk_frame h h' ad d : opk h ad d -> (forall a, a ∈ ad -> bufs h' !! a = bufs h !! a) -> opk h' ad d.
Proof.
  intros (p & n & xs & -> & Hp & Ho & Hl & Hd) Hf. exists p, n, xs. split; [done|]. split; [|done]. eapply packet_frame; [|done]. done.
Qed.

Lemma opk_nonnull h p ad d : opk h (p :: ad) d -> p <> NULL.
Proof. intros (q & n & xs & [= -> ->] & Hp & _). by apply packet_cons in Hp as (_ & H & _). Qed.

Lemma opk_nodup h ad d : opk h ad d -> NoDup ad.
Proof. intros (q & n & xs & -> & Hp & _). apply (pk_nodup _ _ _ Hp). Qed.

Lemma opk_lookup h ad d a : opk h ad d -> a ∈ ad -> exists n, bufs h !! a = Some n.
Proof.
  intros (q & n & xs & -> & Hp & _) Ha. change (q :: xs.*1) with (((q, n) :: xs).*1) in Ha.
  apply list_elem_of_fmap in Ha as ([b m] & -> & Hin). exists m. by eapply pseg_lookup; [apply Hp|].
Qed.

Lemma opk_len h ad d : opk h ad d -> IP_HLEN <= zlen d <= 0xFFFF.
Proof.
  intros (q & n & xs & -> & Hp & _ & Hl & <-). split; [|apply Hp]. apply packet_cons in Hp as (_ & _ & _ & Hok & _).
  rewrite data_cons, zlen_app. cbn [snd]. rewrite zlen_content by done. pose proof (zlen_nonneg (data xs)). lia.
Qed.

Lemma opk_read s p ad d off k : opk (heap s) (p :: ad) d -> 0 <= off -> 0 <= k -> off + k <= IP_HLEN ->
  get_bytes p off k s = Val (slice (Z.to_nat off) (Z.to_nat k) d, s).
Proof.
  intros (q & n & xs & [= -> ->] & Hp & _ & Hl & <-) Ho Hk Hok. pose proof (packet_cons _ _ _ _ _ Hp) as (_ & _ & En & Hb & _).
  unfold get_bytes. rewrite (pm_ok _ (slice (Z.to_nat off) (Z.to_nat k) (data ((q, n) :: xs))) (heap s)); [by rewrite with_heap_id|].
  unfold sbind. rewrite (load_ok _ _ _ En). unfold slift. rewrite read_payload_ok by (done || lia). cbn [obind]. do 2 f_equal.
  rewrite data_cons. cbn [snd]. symmetry. apply slice_app_front. pose proof (zlen_content n Hb) as Hz. unfold zlen in Hz. lia.
Qed.

Lemma opk_write s p ad d off w : opk (heap s) (p :: ad) d -> 0 <= off -> off + zlen w <= IP_HLEN ->
  exists h', put_bytes p off w s = Val (tt, with_heap h' s) /\ opk h' (p :: ad) (splice (Z.to_nat off) w d) /\
    forall a, a <> p -> bufs h' !! a = bufs (heap s) !! a.
Proof.
  intros (q & n & xs & [= -> ->] & Hp & Hown & Hl & <-) Ho Hw. pose proof (packet_cons _ _ _ _ _ Hp) as (_ & Hq & En & Hb & Hni & Hp' & Ht & Hlim).
  destruct (write_at_ok (heap s) q [] q n xs off w) as (h1 & m & E & Hf & Ec & Eq & Hx & _ & Hfr); [done|done|lia|].
  exists h1. split; [by apply pm_ok|]. split; [|done]. exists q, (set_mem m n), xs. split; [done|].
  assert (Forall2 filled ((q, n) :: xs) ((q, set_mem m n) :: xs)) as HF by (constructor; [done|apply filled_all]).
  split; [|split; [|split; [done|]]].
  - eapply filled_packet; [exact Hp|exact HF|]. cbn [pseg]. split; [done|]. split; [done|]. split; [done|]. apply Hx.
  - by eapply filled_owned.
  - rewrite !data_cons. cbn [snd]. rewrite Ec, splice_app_front; [done|]. pose proof (zlen_content n Hb) as Hz. unfold zlen in *. lia.
Qed.

Lemma clen_loop_ok h xs : forall n p c, pseg h p xs NULL -> (length xs < n)%nat -> 0 <= c -> c + zlen xs <= 0xFFFF -> clen_loop n p c h = Val (c + zlen xs, h).
Proof.
  induction xs as [|[a b] xs IH]; intros n p c Hs Hn Hc Hz.
  - cbn in Hs. subst p. destruct n; cbn; by rewrite Z.add_0_r.
  - destruct n as [|n]; [cbn in Hn; lia|]. destruct Hs as (-> & Ha & E & Hs). cbn [clen_loop]. rewrite neqb by done. unfold sbind. rewrite (load_ok _ _ _ E).
    rewrite zlen_cons in *. pose proof (zlen_nonneg xs). rewrite u16_id by (unfold is_u16; lia).
    rewrite IH by (done || lia || (cbn in Hn; lia)). do 2 f_equal. lia.
Qed.

Lemma opk_clen s p ad d : opk (heap s) (p :: ad) d -> zlen (p :: ad) <= 0xFFFF -> clen p s = Val (zlen (p :: ad), s).
Proof.
  intros (q & n & xs & [= -> ->] & Hp & _) Hz. unfold clen, ask, sbind. rewrite (pm_ok _ (zlen (q :: xs.*1)) (heap s)); [by rewrite with_heap_id|].
  unfold pbuf_clen, fuel. assert (zlen (q :: xs.*1) = zlen ((q, n) :: xs)) as E by (unfold zlen; cbn; by rewrite length_fmap). rewrite E in *.
  rewrite (clen_loop_ok _ ((q, n) :: xs)); [done|apply Hp| |done|lia]. by eapply chain_fuel.
Qed.

Lemma opk_free cf s p ad d : opk (heap s) (p :: ad) d ->
  exists h', free cf p s = Val (tt, with_heap h' s) /\ (forall a, a ∈ p :: ad -> bufs h' !! a = None) /\ (forall a, a ∉ p :: ad -> bufs h' !! a = bufs (heap s) !! a).
Proof.
  intros (q & n & xs & [= -> ->] & Hp & Ho & _). destruct (pbuf_free_ok cf (fuel s) (heap s) q ((q, n) :: xs)) as (c & h' & E & H1 & H2); [done|done|done| |].
  { pose proof (chain_fuel _ _ _ Hp). unfold fuel. lia. }
  exists h'. split; [|done]. unfold free, ask, sbind. rewrite (pm_ok _ c h') by done. done.
Qed.
(** ** Fragments *)

(** A fragment: the addresses of its buffers, where it starts and what it carries. *)
Record fr := mkFr { f_addrs : list Z; f_start : Z; f_data : bytes }.

Definition f_p (f : fr) : Z := hd NULL (f_addrs f).
Definition f_end (f : fr) : Z := f_start f + zlen (f_data f).

Definition fr_ok (f : fr) : Prop := 0 < f_p f < 2 ^ 64 /\ 0 <= f_start f /\ f_end f <= 0xFFFF - IP_HLEN.

(** The fragment with a helper that has [nx] as its successor. *)
Definition fr_rep (h : pheap) (nx : Z) (f : fr) : Prop :=
  fr_ok f /\ exists junk, length junk = 8%nat /\ opk h (f_addrs f) (le_bytes 8 nx ++ le_bytes 2 (f_start f) ++ le_bytes 2 (f_end f) ++ junk ++ f_data f).

Lemma fr_addrs h nx f : fr_rep h nx f -> f_addrs f = f_p f :: tl (f_addrs f).
Proof. intros (_ & j & _ & p & n & xs & E & _). unfold f_p. by rewrite E. Qed.

Lemma fr_frame h h' nx f : fr_rep h nx f -> (forall a, a ∈ f_addrs f -> bufs h' !! a = bufs h !! a) -> fr_rep h' nx f.
Proof. intros (Hf & j & Hj & Ho) Hfr. split; [done|]. exists j. split; [done|]. by eapply opk_frame. Qed.

Lemma fr_start_range f : fr_ok f -> 0 <= f_start f < 65536 /\ 0 <= f_end f < 65536 /\ f_start f <= f_end f.
Proof. intros (_ & H1 & H2). unfold f_end, IP_HLEN in *. pose proof (zlen_nonneg (f_data f)). lia. Qed.

Lemma slice_at {A} (l k r : list A) off n : length l = off -> length k = n -> slice off n (l ++ k ++ r) = k.
Proof. intros <- <-. unfold slice. by rewrite drop_app_length, take_app_length. Qed.

Lemma slice_first {A} (k r : list A) n : length k = n -> slice 0 n (k ++ r) = k.
Proof. apply (slice_at []). done. Qed.

Lemma splice_at {A} (l k k' r : list A) off : length l = off -> length k = length k' -> splice off k' (l ++ k ++ r) = l ++ k' ++ r.
Proof. intros <- E. unfold splice. rewrite take_app_length, <- E, <- drop_drop, !drop_app_length. done. Qed.

Lemma splice_first {A} (k k' r : list A) : length k = length k' -> splice 0 k' (k ++ r) = k' ++ r.
Proof. apply (splice_at []). done. Qed.

Lemma next_pbuf_ok s nx f : fr_rep (heap s) nx f -> 0 <= nx < 2 ^ 64 -> next_pbuf (f_p f) s = Val (nx, s).
Proof.
  intros Hr Hn. pose proof (fr_addrs _ _ _ Hr) as Ea. destruct Hr as (Hf & j & Hj & Ho). rewrite Ea in Ho. unfold next_pbuf, sbind.
  rewrite (opk_read _ _ _ _ 0 8 Ho) by (unfold IP_HLEN; lia). unfold sret. do 2 f_equal.
  change (Z.to_nat 0) with 0%nat. change (Z.to_nat 8) with 8%nat.
  rewrite slice_first by apply length_le_bytes. apply le_value_bytes. change (256 ^ Z.of_nat 8) with (2 ^ 64). done.
Qed.

Lemma helper_start_ok s nx f : fr_rep (heap s) nx f -> start (f_p f) s = Val (f_start f, s).
Proof.
  intros Hr. pose proof (fr_addrs _ _ _ Hr) as Ea. destruct Hr as (Hf & j & Hj & Ho). rewrite Ea in Ho. unfold start, sbind.
  rewrite (opk_read _ _ _ _ 8 2 Ho) by (unfold IP_HLEN; lia). unfold sret. do 2 f_equal.
  change (Z.to_nat 8) with 8%nat. change (Z.to_nat 2) with 2%nat.
  rewrite slice_at by apply length_le_bytes. apply le_value_bytes. change (256 ^ Z.of_nat 2) with 65536. by apply fr_start_range.
Qed.

Lemma helper_end_ok s nx f : fr_rep (heap s) nx f -> end_ (f_p f) s = Val (f_end f, s).
Proof.
  intros Hr. pose proof (fr_addrs _ _ _ Hr) as Ea. destruct Hr as (Hf & j & Hj & Ho). rewrite Ea in Ho. unfold end_, sbind.
  rewrite (opk_read _ _ _ _ 10 2 Ho) by (unfold IP_HLEN; lia). unfold sret. do 2 f_equal.
  change (Z.to_nat 10) with 10%nat. change (Z.to_nat 2) with 2%nat. rewrite app_assoc.
  rewrite slice_at by (rewrite ?length_app, !length_le_bytes; done). apply le_value_bytes. change (256 ^ Z.of_nat 2) with 65536. by apply fr_start_range.
Qed.

Lemma helper_set_next_ok s nx f nx' : fr_rep (heap s) nx f ->
  exists h', set_next_pbuf (f_p f) nx' s = Val (tt, with_heap h' s) /\ fr_rep h' nx' f /\ forall a, a <> f_p f -> bufs h' !! a = bufs (heap s) !! a.
Proof.
  intros Hr. pose proof (fr_addrs _ _ _ Hr) as Ea. destruct Hr as (Hf & j & Hj & Ho). rewrite Ea in Ho.
  destruct (opk_write s _ _ _ 0 (le_bytes 8 nx') Ho) as (h' & E & Ho' & Hfr); [lia|unfold zlen, IP_HLEN; rewrite length_le_bytes; lia|].
  exists h'. split; [done|]. split; [|done]. split; [done|]. exists j. split; [done|]. rewrite Ea.
  change (Z.to_nat 0) with 0%nat in Ho'. rewrite splice_first in Ho' by (rewrite !length_le_bytes; done). done.
Qed.

(** ** Lists of fragments *)

Definition last_p (fs : list fr) : Z := match last fs with Some f => f_p f | None => NULL end.
Definition last_end (fs : list fr) : option Z := f_end <$> last fs.
Definition addrs (fs : list fr) : list Z := fs ≫= f_addrs.

(** [nx]: the successor of the last one. *)
Definition first_or (fs : list fr) (nx : Z) : Z := match fs with [] => nx | f :: _ => f_p f end.

Fixpoint frs_rep (h : pheap) (fs : list fr) (nx : Z) : Prop :=
  match fs with
  | [] => True
  | f :: fs => fr_rep h (first_or fs nx) f /\ frs_rep h fs nx
  end.

Lemma frs_frame h h' fs nx : frs_rep h fs nx -> (forall a, a ∈ addrs fs -> bufs h' !! a = bufs h !! a) -> frs_rep h' fs nx.
Proof.
  induction fs as [|f fs IH]; [done|]. intros [Hf Hfs] Hfr. split.
  - eapply fr_frame; [done|]. intros a Ha. apply Hfr. unfold addrs. cbn. apply elem_of_app. by left.
  - apply IH; [done|]. intros a Ha. apply Hfr. unfold addrs. cbn. apply elem_of_app. by right.
Qed.

Lemma addrs_app fs gs : addrs (fs ++ gs) = addrs fs ++ addrs gs.
Proof. apply bind_app. Qed.

Lemma addrs_cons f fs : addrs (f :: fs) = f_addrs f ++ addrs fs.
Proof. done. Qed.

Lemma first_or_app fs gs nx : first_or (fs ++ gs) nx = first_or fs (first_or gs nx).
Proof. by destruct fs. Qed.

Lemma frs_app h fs gs nx : frs_rep h (fs ++ gs) nx <-> frs_rep h fs (first_or gs nx) /\ frs_rep h gs nx.
Proof.
  induction fs as [|f fs IH]; cbn [app frs_rep]; [tauto|]. rewrite IH, first_or_app. tauto.
Qed.

Lemma frs_ok h fs nx : frs_rep h fs nx -> Forall fr_ok fs.
Proof. induction fs as [|f fs IH]; [done|]. intros [Hf Hfs]. constructor; [apply Hf|auto]. Qed.

Lemma first_or_range fs nx : Forall fr_ok fs -> 0 <= nx < 2 ^ 64 -> 0 <= first_or fs nx < 2 ^ 64.
Proof. intros H. destruct fs as [|f fs]; cbn; [done|]. apply Forall_cons in H as [[H _] _]. lia. Qed.

Lemma f_p_in h nx f : fr_rep h nx f -> f_p f ∈ f_addrs f.
Proof. intros H. rewrite (fr_addrs _ _ _ H). by left. Qed.

Lemma fr_nonnull f : fr_ok f -> (f_p f =? NULL) = false.
Proof. intros [H _]. apply Z.eqb_neq. unfold NULL. lia. Qed.
(** ** Placing a fragment *)

(** Where a fragment belongs, unless it overlaps another one. *)
Fixpoint insert (f : fr) (fs : list fr) : option (list fr) :=
  match fs with
  | [] => Some [f]
  | g :: fs =>
      if f_start f <? f_start g then if f_end f >? f_start g then None else Some (f :: g :: fs)
      else if f_start f =? f_start g then None
      else if f_start f <? f_end g then None
      else (g ::.) <$> insert f fs
  end.

Definition meets (e : option Z) (g : fr) : bool := match e with Some e => e =? f_start g | None => true end.

(** No holes; [e] is the end of what comes before. *)
Fixpoint linked (e : option Z) (fs : list fr) : bool :=
  match fs with
  | [] => true
  | g :: fs => meets e g && linked (Some (f_end g)) fs
  end.

Lemma linked_app fs : forall e gs, linked e (fs ++ gs) = linked e fs && linked (match last_end fs with Some x => Some x | None => e end) gs.
Proof.
  induction fs as [|f fs IH]; intros e gs; [done|]. cbn [app linked]. rewrite IH, andb_assoc. f_equal. destruct fs as [|g fs]; [done|].
  unfold last_end. cbn [last]. destruct (last (g :: fs)) eqn:E; [done|]. by apply last_None in E.
Qed.

Definition set_dg (r : Z) (d : ip_reassdata) (s : frags) : frags :=
  mkFrags (heap s) (<[r := d]> (datagrams s)) (reassdatagrams s) (ip_reass_pbufcount s) (exceeded s).

Lemma set_dg_id r d s : datagrams s !! r = Some d -> set_dg r (set_r_p (r_p d) d) s = s.
Proof. intros E. unfold set_dg. destruct s, d. cbn in *. by rewrite insert_id. Qed.

Lemma get_r_ok r d s : datagrams s !! r = Some d -> get_r r s = Val (d, s).
Proof. intros E. unfold get_r. by rewrite E. Qed.

Lemma last_p_snoc fs g : last_p (fs ++ [g]) = f_p g.
Proof. unfold last_p. by rewrite last_snoc. Qed.

Lemma last_end_snoc fs g : last_end (fs ++ [g]) = Some (f_end g).
Proof. unfold last_end. by rewrite last_snoc. Qed.

(** A new successor for the last fragment. *)
Lemma set_link_ok s fs g nx nx' : frs_rep (heap s) (fs ++ [g]) nx -> NoDup (addrs (fs ++ [g])) ->
  exists h', set_next_pbuf (f_p g) nx' s = Val (tt, with_heap h' s) /\ frs_rep h' (fs ++ [g]) nx' /\ forall a, a ∉ f_addrs g -> bufs h' !! a = bufs (heap s) !! a.
Proof.
  intros [Hfs [Hg _]]%frs_app Hnd. destruct (helper_set_next_ok s _ g nx' Hg) as (h' & E & Hg' & Hfr). exists h'. split; [done|]. split.
  - apply frs_app. split; [|done]. eapply frs_frame; [exact Hfs|]. intros a Ha. apply Hfr. intros ->. rewrite addrs_app in Hnd.
    apply NoDup_app in Hnd as (_ & Hn & _). apply (Hn _ Ha). rewrite addrs_cons. apply elem_of_app. left. by eapply f_p_in.
  - intros a Ha. apply Hfr. intros ->. apply Ha. by eapply f_p_in.
Qed.

(** The place before [rest]: link the fragment to what comes before. *)
Lemma link_before_ok s ipr pre rest f d : frs_rep (heap s) (pre ++ rest) NULL -> fr_rep (heap s) (first_or rest NULL) f ->
  NoDup (addrs (pre ++ rest) ++ f_addrs f) -> datagrams s !! ipr = Some d -> r_p d = first_or (pre ++ rest) NULL ->
  (forall g, last pre = Some g ->
    exists h', set_next_pbuf (f_p g) (f_p f) s = Val (tt, with_heap h' s) /\
      frs_rep h' (pre ++ f :: rest) NULL /\ set_dg ipr (set_r_p (first_or (pre ++ f :: rest) NULL) d) s = s /\
      forall a, a ∉ addrs (pre ++ f :: rest) -> bufs h' !! a = bufs (heap s) !! a) /\
  (pre = [] -> frs_rep (heap s) (pre ++ f :: rest) NULL).
Proof.
  intros Hfs Hf Hnd Ed Ep. apply frs_app in Hfs as [Hpre Hrest]. split.
  - intros g [pre' ->]%last_Some. rewrite (addrs_app (pre' ++ [g])) in Hnd.
    apply NoDup_app in Hnd as (Hnd & Hdf & Hndf). apply NoDup_app in Hnd as (Hnd & Hdr & Hndr).
    assert (forall a, a ∈ f_addrs g -> a ∈ addrs (pre' ++ [g])) as Hin by (intros a Ha; rewrite addrs_app, addrs_cons; apply elem_of_app; right; apply elem_of_app; by left).
    destruct (set_link_ok s pre' g _ (f_p f) Hpre Hnd) as (h' & E & Hpre' & Hfr).
    assert (forall a, a ∈ addrs rest ++ f_addrs f -> bufs h' !! a = bufs (heap s) !! a) as Hfr'.
    { intros a [Ha|Ha]%elem_of_app; apply Hfr; intros Hg.
      - by apply (Hdr a); [apply Hin|].
      - apply (Hdf a); [|done]. apply elem_of_app. left. by apply Hin. }
    exists h'. split; [done|]. split; [|split].
    + apply frs_app. split; [done|]. split.
      * eapply fr_frame; [exact Hf|]. intros a Ha. apply Hfr'. apply elem_of_app. by right.
      * eapply frs_frame; [exact Hrest|]. intros a Ha. apply Hfr'. apply elem_of_app. by left.
    + assert (first_or ((pre' ++ [g]) ++ f :: rest) NULL = r_p d) as -> by (rewrite Ep, !first_or_app; by destruct pre'). by apply set_dg_id.
    + intros a Ha. apply Hfr. intros Hg. apply Ha. rewrite addrs_app. apply elem_of_app. left. by apply Hin.
  - intros ->. cbn [app]. split; done.
Qed.
Lemma last_p_nonnull fs g : Forall fr_ok fs -> last fs = Some g -> (last_p fs =? NULL) = false.
Proof.
  intros Hok Hl. unfold last_p. rewrite Hl. apply fr_nonnull. rewrite Forall_forall in Hok. apply Hok. apply last_Some in Hl as [l ->].
  apply elem_of_app. right. by left.
Qed.

Lemma frs_last h fs nx g : frs_rep h fs nx -> last fs = Some g -> fr_rep h nx g.
Proof. intros H [l ->]%last_Some. by apply frs_app in H as [_ [H _]]. Qed.

Section place.
Context (ipr : Z) (f : fr).

(** What is known where the loop stands between [pre] and [rest]. *)
Record at_place (s : frags) (pre rest : list fr) (nx : Z) (d : ip_reassdata) : Prop := {
  ap_frs : frs_rep (heap s) (pre ++ rest) NULL;
  ap_f : fr_rep (heap s) nx f;
  ap_nodup : NoDup (addrs (pre ++ rest) ++ f_addrs f);
  ap_pre : Forall (fun g => f_end g <= f_start f) pre;
  ap_d : datagrams s !! ipr = Some d;
  ap_p : r_p d = first_or (pre ++ rest) NULL }.

(** The fragment is linked in. *)
Definition placed (s : frags) (pre rest l : list fr) (d : ip_reassdata) (valid : bool) (o : outcome (option bool * frags)) : Prop :=
  exists r1 r2 h', rest = r1 ++ r2 /\ l = r1 ++ f :: r2 /\
    o = Val (Some (valid && linked (last_end pre) (r1 ++ [f])), with_heap h' (set_dg ipr (set_r_p (first_or (pre ++ l) NULL) d) s)) /\
    frs_rep h' (pre ++ l) NULL /\ forall a, a ∉ addrs (pre ++ l) -> bufs h' !! a = bufs (heap s) !! a.

Lemma link_last_ok s pre d valid : at_place s pre [] NULL d ->
  exists h', link_last ipr (f_p f) (last_p pre) valid s =
      Val (valid && linked (last_end pre) [f], with_heap h' (set_dg ipr (set_r_p (first_or (pre ++ [f]) NULL) d) s)) /\
    frs_rep h' (pre ++ [f]) NULL /\ forall a, a ∉ addrs (pre ++ [f]) -> bufs h' !! a = bufs (heap s) !! a.
Proof.
  intros [Hfs Hf Hnd Hpre Ed Ep]. destruct (link_before_ok s ipr pre [] f d Hfs Hf Hnd Ed Ep) as [Hsome Hnone].
  rewrite app_nil_r in Hfs. unfold link_last. destruct (last pre) as [g|] eqn:El.
  - pose proof (frs_last _ _ _ _ Hfs El) as Hg. rewrite (last_p_nonnull pre g) by (first [done|by eapply frs_ok]). cbn [negb].
    assert (last_p pre = f_p g) as -> by (unfold last_p; by rewrite El). assert (last_end pre = Some (f_end g)) as -> by (unfold last_end; by rewrite El).
    run (helper_end_ok _ _ _ Hg). run (helper_start_ok _ _ _ Hf).
    rewrite Forall_forall in Hpre. assert (f_end g <= f_start f) as Hle by (apply Hpre; apply last_Some in El as [l ->]; apply elem_of_app; right; by left).
    rewrite (proj2 (Z.leb_le _ _) Hle). cbn [ASSERT]. ret.
    destruct (Hsome g eq_refl) as (h' & E & Hl & Es & Hfr). run E. exists h'. split; [|done]. unfold sret. rewrite Es. cbn [linked meets]. rewrite andb_true_r.
    do 2 f_equal. by destruct (f_end g =? f_start f), valid.
  - apply last_None in El. subst pre. exists (heap s). cbn [app] in *. unfold last_p, last_end. cbn [last]. change (negb (NULL =? NULL)) with false. cbn iota.
    run (get_r_ok _ _ _ Ed). cbn in Ep. rewrite Ep. change (NULL =? NULL) with true. cbn [ASSERT]. ret. unfold sbind. cbn [put_r sret].
    split; [|split; [by apply Hnone|done]]. cbn [linked meets first_or]. rewrite !andb_true_r. done.
Qed.

(** The fragment before [g]. *)
Lemma place_before_ok n s pre g rest d valid nx : at_place s pre (g :: rest) nx d -> f_start f < f_start g ->
  if f_end f >? f_start g then
    exists h', place (S n) ipr (f_p f) (f_p g) (last_p pre) valid s = Val (None, with_heap h' s) /\ fr_rep h' (f_p g) f /\
      forall a, a ∉ f_addrs f -> bufs h' !! a = bufs (heap s) !! a
  else placed s pre (g :: rest) (f :: g :: rest) d valid (place (S n) ipr (f_p f) (f_p g) (last_p pre) valid s).
Proof.
  intros [Hfs Hf Hnd Hpre Ed Ep] Hlt. pose proof Hfs as [Hfp Hfr0]%frs_app. destruct Hfr0 as [Hg Hrest].
  pose proof (fr_nonnull g (proj1 Hg)) as Ng.
  destruct (helper_set_next_ok s _ f (f_p g) Hf) as (h1 & E1 & Hf1 & Hfr1).
  assert (forall a, a ∈ addrs (pre ++ g :: rest) -> bufs h1 !! a = bufs (heap s) !! a) as Hsame.
  { intros a Ha. apply Hfr1. intros ->. apply NoDup_app in Hnd as (_ & Hd & _). apply (Hd _ Ha). by eapply f_p_in. }
  assert (frs_rep h1 (pre ++ g :: rest) NULL) as Hfs1 by (by eapply frs_frame).
  destruct (link_before_ok (with_heap h1 s) ipr pre (g :: rest) f d Hfs1 Hf1 Hnd Ed Ep) as [Hsome Hnone].
  assert (fr_rep h1 (first_or rest NULL) g) as Hg1 by (by apply frs_app in Hfs1 as [_ [? _]]).
  unfold place. cbn [place_loop]. rewrite Ng. run (helper_start_ok _ _ _ Hf). run (helper_start_ok _ _ _ Hg).
  rewrite (proj2 (Z.ltb_lt _ _) Hlt). run E1.
  assert (forall a, a ∉ f_addrs f -> bufs h1 !! a = bufs (heap s) !! a) as Hfr1' by (intros a Ha; apply Hfr1; intros ->; apply Ha; by eapply f_p_in).
  destruct (last pre) as [e|] eqn:El.
  - assert (frs_rep h1 pre (f_p g)) as Hpre1 by (by apply frs_app in Hfs1 as [? _]). pose proof (frs_last _ _ _ _ Hpre1 El) as He.
    rewrite (last_p_nonnull pre e) by (first [done|by eapply frs_ok]). cbn [negb].
    assert (last_p pre = f_p e) as -> by (unfold last_p; by rewrite El).
    rewrite Forall_forall in Hpre. assert (f_end e <= f_start f) as Hle by (apply Hpre; apply last_Some in El as [l ->]; apply elem_of_app; right; by left).
    run (helper_end_ok (with_heap h1 s) _ _ He). run (helper_end_ok (with_heap h1 s) _ _ Hf1). rewrite (proj2 (Z.ltb_ge (f_start f) (f_end e)) Hle). cbn [orb].
    destruct (f_end f >? f_start g); [by exists h1|].
    destruct (Hsome e eq_refl) as (h' & E2 & Hl & Es & Hfr). run E2. ret. rewrite Ng. unfold sbind, sret.
    exists [], (g :: rest), h'. split; [done|]. split; [done|]. rewrite with_heap_twice. split; [|split; [done|]].
    + change (set_dg ipr (set_r_p (first_or (pre ++ f :: g :: rest) NULL) d) (with_heap h1 s)) with (with_heap h1 (set_dg ipr (set_r_p (first_or (pre ++ f :: g :: rest) NULL) d) s)) in Es.
      assert (set_dg ipr (set_r_p (first_or (pre ++ f :: g :: rest) NULL) d) s = s) as Es'.
      { rewrite <- (with_heap_id s) at 2. apply (f_equal (with_heap (heap s))) in Es. exact Es. }
      rewrite Es'. cbn [app linked]. unfold last_end, meets. rewrite El. cbn [fmap option_fmap option_map]. rewrite andb_true_r. do 3 f_equal. by destruct (f_end e =? f_start f), valid.
    + intros a Ha. rewrite Hfr by done. apply Hfr1'. intros Hin. apply Ha. rewrite addrs_app, addrs_cons. apply elem_of_app. right. apply elem_of_app. by left.
  - apply last_None in El. subst pre. unfold last_p. cbn [last]. change (negb (NULL =? NULL)) with false. cbn iota.
    run (helper_end_ok (with_heap h1 s) _ _ Hf1). destruct (f_end f >? f_start g); [by exists h1|].
    run (get_r_ok ipr d (with_heap h1 s) Ed). unfold sbind. cbn [put_r sret]. rewrite Ng.
    exists [], (g :: rest), h1. split; [done|]. split; [done|]. split; [|split; [by apply Hnone|]].
    + unfold last_end. cbn [app linked meets last fmap option_fmap option_map]. by rewrite !andb_true_r.
    + intros a Ha. apply Hfr1'. intros Hin. apply Ha. cbn [app]. rewrite addrs_cons. apply elem_of_app. by left.
Qed.

Lemma place_ok rest : forall n pre s d valid, at_place s pre rest NULL d -> (length rest < n)%nat ->
  match insert f rest with
  | None =>
      exists h' nx, place n ipr (f_p f) (first_or rest NULL) (last_p pre) valid s = Val (None, with_heap h' s) /\ fr_rep h' nx f /\
        forall a, a ∉ f_addrs f -> bufs h' !! a = bufs (heap s) !! a
  | Some l => placed s pre rest l d valid (place n ipr (f_p f) (first_or rest NULL) (last_p pre) valid s)
  end.
Proof.
  induction rest as [|g rest IH]; intros n pre s d valid P Hn.
  - cbn [insert first_or]. destruct (link_last_ok s pre d valid P) as (h' & E & Hl & Hfr).
    exists [], [], h'. split; [done|]. split; [done|]. split; [|done]. unfold place. destruct n; cbn [place_loop]; change (NULL =? NULL) with true; cbn iota; ret.
    all: change (NULL =? NULL) with true; cbn iota; by run E.
  - destruct n as [|n]; [cbn in Hn; lia|]. cbn [insert first_or]. pose proof (place_before_ok n s pre g rest d valid NULL P) as Hb.
    destruct (Z.ltb_spec (f_start f) (f_start g)) as [Hlt|Hge].
    { specialize (Hb Hlt). destruct (f_end f >? f_start g); [|done]. destruct Hb as (h' & E & Hf & Hfr). by exists h', (f_p g). }
    pose proof P as [Hfs Hf Hnd Hpre Ed Ep]. pose proof Hfs as [Hfp Hr]%frs_app. destruct Hr as [Hg Hrest].
    pose proof (fr_nonnull g (proj1 Hg)) as Ng.
    unfold place. cbn [place_loop]. rewrite Ng. run (helper_start_ok _ _ _ Hf). run (helper_start_ok _ _ _ Hg). rewrite (proj2 (Z.ltb_ge _ _) Hge).
    destruct (Z.eqb_spec (f_start f) (f_start g)) as [He|He].
    { ret. exists (heap s), NULL. by rewrite with_heap_id. }
    run (helper_end_ok _ _ _ Hg). destruct (Z.ltb_spec (f_start f) (f_end g)) as [Hl|Hl].
    { ret. exists (heap s), NULL. by rewrite with_heap_id. }
    set (valid' := valid && meets (last_end pre) g).
    assert (at_place s (pre ++ [g]) rest NULL d) as P'.
    { constructor; rewrite <- ?app_assoc; try done. apply Forall_app. split; [done|]. by constructor. }
    specialize (IH n (pre ++ [g]) s d valid' P' ltac:(cbn in Hn; lia)).
    assert (forall (k : bool -> RM (option (Z * Z * bool))) (k2 : option (Z * Z * bool) -> RM (option bool)), 
      sbind (sbind (if negb (last_p pre =? NULL) then do! prev_end := end_ (last_p pre) in sret (if negb (prev_end =? f_start g) then false else valid) else sret valid) k) k2 s =
        sbind (k valid') k2 s) as Ek.
    { intros k k2. destruct (last pre) as [e|] eqn:El.
      - rewrite (last_p_nonnull pre e) by (first [done|by eapply frs_ok]). cbn [negb]. pose proof (frs_last _ _ _ _ Hfp El) as He'.
        assert (last_p pre = f_p e) as -> by (unfold last_p; by rewrite El). run (helper_end_ok _ _ _ He'). ret. f_equal. f_equal.
        subst valid'. unfold last_end, meets. rewrite El. cbn [fmap option_fmap option_map]. by destruct (f_end e =? f_start g), valid.
      - apply last_None in El. subst pre. unfold last_p. cbn [last]. change (negb (NULL =? NULL)) with false. cbn iota. ret. f_equal. f_equal. subst valid'. unfold last_end. cbn. by rewrite andb_true_r. }
    rewrite Ek. assert (0 <= first_or rest NULL < 2 ^ 64) as Rn by (apply first_or_range; [by eapply frs_ok|done]).
    run (next_pbuf_ok _ _ _ Hg Rn). rewrite last_p_snoc in IH. fold (place n ipr (f_p f) (first_or rest NULL) (f_p g) valid').
    destruct (insert f rest) as [l|]; cbn [fmap option_fmap option_map]; [|done].
    destruct IH as (r1 & r2 & h' & -> & -> & E & Hl' & Hfr). rewrite <- app_assoc in *. cbn [app] in *. exists (g :: r1), r2, h'.
    split; [done|]. split; [done|]. split; [|done]. rewrite E. do 3 f_equal. rewrite last_end_snoc. cbn [app linked]. subst valid'. by rewrite andb_assoc.
Qed.

End place.

(** ** Holes behind a fragment *)

Lemma rest_loop_ok rest : forall n s f, frs_rep (heap s) (f :: rest) NULL -> (length rest < n)%nat ->
  exists q, rest_loop n (f_p f) (first_or rest NULL) (f_p f) s = Val ((linked (Some (f_end f)) rest, q), s) /\
    (linked (Some (f_end f)) rest = true -> q = last_p (f :: rest)).
Proof.
  induction rest as [|g rest IH]; intros n s f [Hf Hfs] Hn.
  - exists (f_p f). destruct n; cbn [rest_loop first_or linked]; done.
  - destruct n as [|n]; [cbn in Hn; lia|]. destruct Hfs as [Hg Hrest]. cbn [first_or rest_loop]. rewrite (fr_nonnull g (proj1 Hg)).
    run (helper_end_ok _ _ _ Hf). run (helper_start_ok _ _ _ Hg). cbn [linked meets]. destruct (Z.eqb_spec (f_end f) (f_start g)) as [E|E]; cbn [negb andb].
    2:{ by exists (f_p g). }
    assert (0 <= first_or rest NULL < 2 ^ 64) as Rn by (apply first_or_range; [by eapply frs_ok|done]). run (next_pbuf_ok _ _ _ Hg Rn).
    destruct (IH n s g) as (q & -> & Hq); [done|cbn in Hn; lia|]. exists q. split; [done|]. intros Hl. by rewrite (Hq Hl).
Qed.
(** ** A new fragment *)

(** All fragments from the first one on, without holes. *)
Definition complete (fs : list fr) : bool := match fs with [] => false | f :: _ => (f_start f =? 0) && linked None fs end.

(** A packet that carries a fragment: [hdr] and [pl] are what it holds. *)
Record incoming (h : pheap) (ad : list Z) (hdr pl : bytes) : Prop := {
  in_opk : opk h ad (hdr ++ pl);
  in_hdr : length hdr = 20%nat;
  in_hl : IPH_HL_BYTES hdr = IP_HLEN;
  in_len : swap16 (IPH_LEN hdr) = IP_HLEN + zlen pl;
  in_addr : 0 < hd NULL ad < 2 ^ 64;
  in_fits : IPH_OFFSET_BYTES hdr + zlen pl <= 0xFFFF - IP_HLEN }.

Definition fragment (ad : list Z) (hdr pl : bytes) : fr := mkFr ad (IPH_OFFSET_BYTES hdr) pl.

Lemma fragment_ok h ad hdr pl : incoming h ad hdr pl -> fr_ok (fragment ad hdr pl).
Proof. intros [_ _ _ _ Ha Hf]. split; [done|]. split; [|done]. cbn. unfold IPH_OFFSET_BYTES. apply u16_range. Qed.

(** The helper takes the place of the header. *)
Lemma helper_ok s ad hdr pl : incoming (heap s) ad hdr pl ->
  let f := fragment ad hdr pl in
  exists h', (forall B (k : RM B), (set_next_pbuf (f_p f) NULL ;;; set_start (f_p f) (f_start f) ;;; set_end (f_p f) (f_end f) ;;; k) s = k (with_heap h' s)) /\
    fr_rep h' NULL f /\ forall a, a <> f_p f -> bufs h' !! a = bufs (heap s) !! a.
Proof.
  intros I f. pose proof (fragment_ok _ _ _ _ I) as Hok. destruct I as [Ho Lh _ _ Ha _].
  assert (ad = f_p f :: tl ad) as Ea by (destruct Ho as (p & n & xs & -> & _); done).
  destruct (split_at hdr 0 8) as (x0 & a0 & r0 & E0 & X0 & A0); [lia|lia|unfold zlen; lia|].
  assert (x0 = []) as -> by (destruct x0; [done|rewrite zlen_cons in X0; pose proof (zlen_nonneg x0); lia]). cbn [app] in E0.
  destruct (split_at r0 0 2) as (x1 & a1 & r1 & E1 & X1 & A1); [lia|lia|apply (f_equal length) in E0; rewrite length_app in E0; unfold zlen in *; lia|].
  assert (x1 = []) as -> by (destruct x1; [done|rewrite zlen_cons in X1; pose proof (zlen_nonneg x1); lia]). cbn [app] in E1.
  destruct (split_at r1 0 2) as (x2 & a2 & r2 & E2 & X2 & A2); [lia|lia|subst; rewrite !length_app in Lh; unfold zlen in *; lia|].
  assert (x2 = []) as -> by (destruct x2; [done|rewrite zlen_cons in X2; pose proof (zlen_nonneg x2); lia]). cbn [app] in E2. subst.
  rewrite !length_app in Lh. unfold zlen in A0, A1, A2. rewrite <- !app_assoc in Ho. rewrite Ea in Ho.
  destruct (opk_write s _ _ _ 0 (le_bytes 8 NULL) Ho) as (h1 & W1 & O1 & F1); [lia|unfold zlen, IP_HLEN; rewrite length_le_bytes; lia|].
  change (Z.to_nat 0) with 0%nat in O1. rewrite splice_first in O1 by (rewrite length_le_bytes; lia).
  destruct (opk_write (with_heap h1 s) _ _ _ 8 (le_bytes 2 (f_start f)) O1) as (h2 & W2 & O2 & F2); [lia|unfold zlen, IP_HLEN; rewrite length_le_bytes; lia|].
  change (Z.to_nat 8) with 8%nat in O2. rewrite splice_at in O2 by (rewrite length_le_bytes; lia).
  destruct (opk_write (with_heap h2 s) _ _ _ 10 (le_bytes 2 (f_end f)) O2) as (h3 & W3 & O3 & F3); [lia|unfold zlen, IP_HLEN; rewrite length_le_bytes; lia|].
  change (Z.to_nat 10) with 10%nat in O3. rewrite (app_assoc (le_bytes 8 NULL)), splice_at in O3 by (rewrite ?length_app, !length_le_bytes; lia).
  exists h3. split; [|split].
  - intros B k. unfold set_next_pbuf, set_start, set_end. run W1. run W2. run W3. done.
  - split; [done|]. exists r2. split; [lia|]. rewrite <- app_assoc in O3. change (f_addrs f) with ad. rewrite Ea. exact O3.
  - intros a Hne. rewrite F3, F2, F1 by done. done.
Qed.

Lemma frs_fuel h fs nx : frs_rep h fs nx -> NoDup (addrs fs) -> (length fs < fuel_of h)%nat.
Proof.
  intros Hfs Hnd. unfold fuel_of. enough (length fs <= length (addrs fs) /\ length (addrs fs) <= size (bufs h))%nat by lia. split.
  - clear Hnd. induction fs as [|f fs IH]; [done|]. destruct Hfs as [Hf Hfs]. rewrite addrs_cons, length_app, (fr_addrs _ _ _ Hf). cbn. specialize (IH Hfs). lia.
  - rewrite <- (size_dom (bufs h)), <- (size_list_to_set (C := gset Z)) by done. apply subseteq_size. intros a Ha%elem_of_list_to_set. apply elem_of_dom.
    clear Hnd. induction fs as [|f fs IH]; [by apply elem_of_nil in Ha|]. destruct Hfs as [(_ & j & _ & Hf) Hfs]. rewrite addrs_cons in Ha.
    apply elem_of_app in Ha as [Ha|Ha]; [|auto]. by destruct (opk_lookup _ _ _ a Hf Ha) as [n ->].
Qed.

Lemma insert_split f fs : forall l, insert f fs = Some l -> exists r1 r2, fs = r1 ++ r2 /\ l = r1 ++ f :: r2.
Proof.
  induction fs as [|g fs IH]; intros l; cbn [insert]; [intros [= <-]; by exists [], []|].
  destruct (_ <? _); [destruct (_ >? _); [done|]; intros [= <-]; by exists [], (g :: fs)|].
  destruct (_ =? _); [done|]. destruct (_ <? _); [done|]. destruct (insert f fs) as [l'|]; [|done]. intros [= <-].
  destruct (IH l' eq_refl) as (r1 & r2 & -> & ->). by exists (g :: r1), r2.
Qed.
Lemma ask_ok {A} (f : frags -> A) s : ask f s = Val (f s, s).
Proof. done. Qed.

Lemma complete_split r1 f r2 : complete (r1 ++ f :: r2) =
  linked None (r1 ++ [f]) && (f_start (hd f (r1 ++ [f])) =? 0) && linked (Some (f_end f)) r2.
Proof.
  assert (linked None (r1 ++ f :: r2) = linked None (r1 ++ [f]) && linked (Some (f_end f)) r2) as E.
  { replace (r1 ++ f :: r2) with ((r1 ++ [f]) ++ r2) by (by rewrite <- app_assoc). rewrite linked_app. by rewrite last_end_snoc. }
  unfold complete. destruct r1 as [|g r1]; cbn [app] in *; rewrite E, andb_assoc; cbn [hd]; f_equal; apply andb_comm.
Qed.

Lemma last_not_first fs : NoDup (addrs fs) -> Forall (fun f => f_p f ∈ f_addrs f) fs -> (1 < length fs)%nat -> first_or fs NULL <> last_p fs.
Proof.
  intros Hnd Hin Hl. destruct fs as [|f fs]; [cbn in Hl; lia|]. destruct (last fs) as [g|] eqn:El; [|apply last_None in El; subst; cbn in Hl; lia].
  assert (last_p (f :: fs) = f_p g) as ->. { unfold last_p. destruct fs; [done|]. cbn [last]. cbn [last] in El. by rewrite El. }
  cbn [first_or]. intros E. apply Forall_cons in Hin as [Hf Hfs]. rewrite addrs_cons in Hnd. apply NoDup_app in Hnd as (_ & Hd & _). apply (Hd (f_p f) Hf).
  apply last_Some in El as [l ->]. rewrite E, addrs_app, addrs_cons. apply elem_of_app. right. apply elem_of_app. left. apply Forall_app in Hfs as [_ Hg].
  by apply Forall_cons in Hg as [Hg _].
Qed.

Lemma frs_in h fs nx : frs_rep h fs nx -> Forall (fun f => f_p f ∈ f_addrs f) fs.
Proof. induction fs as [|f fs IH]; [done|]. intros [Hf Hfs]. constructor; [by eapply f_p_in|auto]. Qed.

(** The datagram of a fragment: its entry and the fragments that wait. *)
Record entry (s : frags) (ipr : Z) (fs : list fr) (d : ip_reassdata) : Prop := {
  en_d : datagrams s !! ipr = Some d;
  en_p : r_p d = first_or fs NULL;
  en_frs : frs_rep (heap s) fs NULL;
  en_last : Z.land (r_flags d) IP_REASS_FLAG_LASTFRAG <> 0 -> fs <> [] }.

Definition seen_last (is_last : bool) (d : ip_reassdata) : bool := is_last || negb (Z.land (r_flags d) IP_REASS_FLAG_LASTFRAG =? 0).

(** The tests after the fragment has been linked in. *)
Lemma check_ok s f r1 r2 d n : frs_rep (heap s) (r1 ++ f :: r2) NULL -> NoDup (addrs (r1 ++ f :: r2)) -> (length r2 < n)%nat ->
  r_p d = first_or (r1 ++ f :: r2) NULL -> (1 < length (r1 ++ f :: r2))%nat \/ f_start f <> 0 ->
  (if linked None (r1 ++ [f]) then
     do! none := (if r_p d =? NULL then sret true else do! st := start (r_p d) in sret (negb (st =? 0))) in
     if none then sret false
     else
       do! q := next_pbuf (f_p f) in
       do! (valid, iprh) := rest_loop n (f_p f) q (f_p f) in
       if valid then
         ASSERT (negb (r_p d =? NULL)) ;;;
         ASSERT (negb (r_p d =? iprh)) ;;;
         do! nx := next_pbuf iprh in
         ASSERT (nx =? NULL) ;;;
         sret true
       else sret false
   else sret false) s = Val (complete (r1 ++ f :: r2), s).
Proof.
  intros Hfs Hnd Hn Ep Hlen. rewrite complete_split. destruct (linked None (r1 ++ [f])) eqn:El; [|done]. cbn [andb].
  set (h := hd f (r1 ++ [f])). assert (first_or (r1 ++ f :: r2) NULL = f_p h) as Eh by (subst h; by destruct r1).
  assert (exists nx, fr_rep (heap s) nx h) as [nx Hh] by (subst h; destruct r1 as [|g r1]; destruct Hfs as [Hf _]; cbn; eauto).
  rewrite Ep, Eh, (fr_nonnull h (proj1 Hh)). run (helper_start_ok _ _ _ Hh). ret. destruct (Z.eqb_spec (f_start h) 0) as [E0|E0]; cbn [negb andb]; [|done].
  assert (1 < length (r1 ++ f :: r2))%nat as Hl.
  { destruct Hlen as [Hl|Hl]; [done|]. subst h. destruct r1 as [|g r1]; [cbn in E0; lia|]. rewrite length_app. cbn. lia. }
  pose proof Hfs as [_ Hfr]%frs_app. pose proof Hfr as [Hf Hr2].
  assert (0 <= first_or r2 NULL < 2 ^ 64) as Rn by (apply first_or_range; [by eapply frs_ok|done]). run (next_pbuf_ok _ _ _ Hf Rn).
  destruct (rest_loop_ok r2 n s f Hfr Hn) as (q & E & Hq). run E. destruct (linked (Some (f_end f)) r2); [|done].
  cbn [negb ASSERT]. ret. rewrite (Hq eq_refl).
  assert (last_p (f :: r2) = last_p (r1 ++ f :: r2)) as E1
    by (unfold last_p; rewrite last_app; destruct (last (f :: r2)) eqn:E1; [done|by apply last_None in E1]).
  rewrite (proj2 (Z.eqb_neq (f_p h) (last_p (f :: r2)))).
  2:{ rewrite <- Eh, E1. apply last_not_first; [done|by eapply frs_in|done]. }
  cbn [negb ASSERT]. ret. destruct (last (f :: r2)) as [g|] eqn:Elg; [|by apply last_None in Elg]. pose proof (frs_last _ _ _ _ Hfr Elg) as Hg.
  assert (last_p (f :: r2) = f_p g) as -> by (unfold last_p; by rewrite Elg). run (next_pbuf_ok _ _ _ Hg ltac:(done)). done.
Qed.

Lemma validate_ok s ipr ad hdr pl fs d is_last : incoming (heap s) ad hdr pl -> entry s ipr fs d -> NoDup (addrs fs ++ ad) ->
  (is_last = true -> IPH_OFFSET_BYTES hdr <> 0) ->
  let f := fragment ad hdr pl in
  match insert f fs with
  | None => exists h' nx, ip_reass_chain_frag_into_datagram_and_validate ipr (f_p f) is_last s = Val (IP_REASS_VALIDATE_PBUF_DROPPED, with_heap h' s) /\
      fr_rep h' nx f /\ forall a, a ∉ ad -> bufs h' !! a = bufs (heap s) !! a
  | Some l => exists h', ip_reass_chain_frag_into_datagram_and_validate ipr (f_p f) is_last s =
        Val (if seen_last is_last d && complete l then IP_REASS_VALIDATE_TELEGRAM_FINISHED else IP_REASS_VALIDATE_PBUF_QUEUED,
             with_heap h' (set_dg ipr (set_r_p (first_or l NULL) d) s)) /\
      frs_rep h' l NULL /\ forall a, a ∉ addrs l -> bufs h' !! a = bufs (heap s) !! a
  end.
Proof.
  intros I [Ed Ep Hfs Hflag] Hnd Hlast f. destruct (helper_ok s ad hdr pl I) as (h1 & Eh & Hf & Hfr1). fold f in Eh, Hf, Hfr1.
  pose proof I as [Ho Lh Ehl Elen Ha Hfit]. assert (ad = f_p f :: tl ad) as Ea by (destruct Ho as (p & n & xs & -> & _); done).
  pose proof (zlen_nonneg pl) as Hpl. assert (0 <= f_start f) as Hs0 by (apply (fr_start_range f); apply Hf). unfold IP_HLEN in *.
  unfold ip_reass_chain_frag_into_datagram_and_validate. pose proof Ho as Ho'. rewrite Ea in Ho'.
  run (opk_read s _ _ _ 0 IP_HLEN Ho' ltac:(done) ltac:(done) ltac:(done)).
  change (slice (Z.to_nat 0) (Z.to_nat IP_HLEN) (hdr ++ pl)) with (slice 0 20 (hdr ++ pl)). rewrite slice_first by done.
  rewrite Ehl, Elen. rewrite Z.gtb_ltb, (proj2 (Z.ltb_ge _ _)) by lia. replace (20 + zlen pl - 20) with (zlen pl) by lia.
  rewrite (u16_id (zlen pl)) by (unfold is_u16; cbn in *; lia). change (IPH_OFFSET_BYTES hdr) with (f_start f) in *.
  rewrite (u16_id (f_start f + zlen pl)) by (unfold is_u16; cbn in *; lia). change (f_start f + zlen pl) with (f_end f).
  rewrite Eh. rewrite (proj2 (Z.ltb_ge _ _)) by (unfold f_end; cbn; lia).
  assert (forall a, a ∈ addrs fs -> bufs h1 !! a = bufs (heap s) !! a) as Hsame.
  { intros a Hin. apply Hfr1. intros ->. apply NoDup_app in Hnd as (_ & Hd & _). apply (Hd _ Hin). rewrite Ea. by left. }
  assert (frs_rep h1 fs NULL) as Hfs1 by (by eapply frs_frame).
  run (get_r_ok ipr d (with_heap h1 s) Ed). run (ask_ok fuel (with_heap h1 s)).
  assert (at_place ipr f (with_heap h1 s) [] fs NULL d) as P by (constructor; done).
  pose proof (frs_fuel _ _ _ Hfs1 ltac:(by apply NoDup_app in Hnd as (? & _))) as Hfuel.
  pose proof (place_ok ipr f fs (fuel (with_heap h1 s)) [] (with_heap h1 s) d true P Hfuel) as Hpl'. change (last_p []) with NULL in Hpl'. rewrite Ep.
  assert (forall a, a ∉ ad -> bufs h1 !! a = bufs (heap s) !! a) as Hfr1' by (intros a Hin; apply Hfr1; intros ->; apply Hin; rewrite Ea; by left).
  destruct (insert f fs) as [l|] eqn:Ei.
  2:{ destruct Hpl' as (h2 & nx & E & Hf2 & Hfr2). exists h2, nx. run E. split; [done|]. split; [done|]. intros a Hin. rewrite Hfr2 by done. by apply Hfr1'. }
  destruct Hpl' as (r1 & r2 & h2 & E1 & E2 & E & Hl & Hfr2). cbn [app] in *. exists h2. run E. cbn [andb]. rewrite with_heap_id || idtac.
  set (s2 := with_heap h2 _). run (get_r_ok ipr (set_r_p (first_or l NULL) d) s2 ltac:(subst s2; cbn; by rewrite lookup_insert_eq)).
  assert (s2 = with_heap h2 (set_dg ipr (set_r_p (first_or l NULL) d) s)) as Es2 by done.
  assert (NoDup (addrs l)) as Hndl.
  { subst l fs. rewrite addrs_app in *. rewrite addrs_cons. change (f_addrs f) with ad. rewrite <- app_assoc in Hnd. apply (NoDup_Permutation_proper _ (addrs r1 ++ addrs r2 ++ ad)); [|done]. by rewrite (Permutation_app_comm ad). }
  split; [|split; [done|]].
  - change (Z.land (r_flags (set_r_p (first_or l NULL) d)) IP_REASS_FLAG_LASTFRAG) with (Z.land (r_flags d) IP_REASS_FLAG_LASTFRAG). fold (seen_last is_last d).
    destruct (seen_last is_last d) eqn:Es; cbn [andb]; [|by rewrite Es2]. subst l.
    assert (length r2 < fuel (with_heap h1 s))%nat as H1 by (unfold fuel; cbn [heap with_heap]; eapply Nat.le_lt_trans; [|exact Hfuel]; rewrite E1, length_app; lia).
    assert ((1 < length (r1 ++ f :: r2))%nat \/ f_start f <> 0) as H2.
    { destruct is_last; [right; by apply Hlast|]. left. unfold seen_last in Es. cbn [orb] in Es. apply negb_true_iff, Z.eqb_neq in Es. specialize (Hflag Es).
      rewrite length_app. cbn [length]. assert (length fs <> 0)%nat as Hz by (by destruct fs). rewrite E1, length_app in Hz. lia. }
    run (check_ok s2 f r1 r2 (set_r_p (first_or (r1 ++ f :: r2) NULL) d) _ Hl Hndl H1 eq_refl H2). by rewrite Es2.
  - intros a Hin. rewrite Hfr2 by done. apply Hfr1'. intros Hin'. apply Hin. subst l. rewrite addrs_app, addrs_cons. apply elem_of_app. right. apply elem_of_app. by left.
Qed.
(** ** Freeing and chaining *)

Lemma free_fragments_ok cf fs : forall n s c, frs_rep (heap s) fs NULL -> NoDup (addrs fs) -> (length fs < n)%nat -> 0 <= c -> c + zlen (addrs fs) <= 0xFFFF ->
  exists h', free_fragments cf n (first_or fs NULL) c s = Val (c + zlen (addrs fs), with_heap h' s) /\
    (forall a, a ∈ addrs fs -> bufs h' !! a = None) /\ forall a, a ∉ addrs fs -> bufs h' !! a = bufs (heap s) !! a.
Proof.
  induction fs as [|f fs IH]; intros n s c Hfs Hnd Hn Hc Hz.
  - exists (heap s). rewrite with_heap_id, Z.add_0_r. destruct n; (split; [done|]); split; [by intros a ?%elem_of_nil|done|by intros a ?%elem_of_nil|done].
  - destruct n as [|n]; [cbn in Hn; lia|]. destruct Hfs as [Hf Hfs]. cbn [first_or free_fragments]. rewrite (fr_nonnull f (proj1 Hf)).
    rewrite addrs_cons, zlen_app in Hz. pose proof (zlen_nonneg (addrs fs)) as Hz0. pose proof (zlen_nonneg (f_addrs f)) as Hz1.
    assert (0 <= first_or fs NULL < 2 ^ 64) as Rn by (apply first_or_range; [by eapply frs_ok|done]). run (next_pbuf_ok _ _ _ Hf Rn).
    pose proof (fr_addrs _ _ _ Hf) as Ea. destruct (proj2 Hf) as (j & _ & Ho). rewrite Ea in Ho.
    run (opk_clen _ _ _ _ Ho ltac:(rewrite <- Ea; lia)). rewrite <- Ea. rewrite (proj2 (Z.leb_le _ _)) by lia. cbn [ASSERT]. ret.
    destruct (opk_free cf s _ _ _ Ho) as (h1 & E1 & Hin & Hout). rewrite <- Ea in Hin, Hout. run E1. rewrite u16_id by (unfold is_u16; lia).
    rewrite addrs_cons in Hnd. apply NoDup_app in Hnd as (_ & Hd & Hnd).
    destruct (IH n (with_heap h1 s) (c + zlen (f_addrs f))) as (h' & -> & Hin' & Hout'); [|done|cbn in Hn; lia|lia|lia|].
    { eapply frs_frame; [exact Hfs|]. intros a Ha. apply Hout. intros Hf'. by apply (Hd a). }
    exists h'. rewrite with_heap_twice, addrs_cons, zlen_app. split; [do 2 f_equal; lia|]. split.
    + intros a [Ha|Ha]%elem_of_app; [|auto]. rewrite Hout'; [by apply Hin|]. by apply Hd.
    + intros a [Ha Ha']%not_elem_of_app. rewrite Hout' by done. by apply Hout.
Qed.

(** What a datagram carries. *)
Definition carried (fs : list fr) : bytes := fs ≫= f_data.

Lemma carried_cons f fs : carried (f :: fs) = f_data f ++ carried fs.
Proof. done. Qed.

Lemma remove_helper_ok s nx f : fr_rep (heap s) nx f ->
  exists h' b ys, load (f_p f) (heap s) = Val (b, heap s) /\ pm (pbuf_remove_header (f_p f) IP_HLEN) s = Val (0, with_heap h' s) /\
    packet h' (f_p f) ys /\ ys <> [] /\ all_owned ys /\ ys.*1 = f_addrs f /\ data ys = f_data f /\
    (exists b', bufs h' !! f_p f = Some b' /\ get_n (mem b') (payload b) 8 = Val (le_bytes 8 nx)) /\
    forall a, a <> f_p f -> bufs h' !! a = bufs (heap s) !! a.
Proof.
  intros Hf. pose proof (fr_addrs _ _ _ Hf) as Ea. destruct Hf as (Hok & j & Lj & p & n & xs & Ep & Hp & Hown & Hl & Hd). rewrite Ea in Ep. injection Ep as <- Et.
  pose proof (packet_cons _ _ _ _ _ Hp) as (_ & Hq & En & Hb & Hni & Hp' & Ht & Hlim). pose proof Hb as (Hb1 & Hb2 & Hb3).
  destruct (remove_front_ok (heap s) (f_p f) n xs IP_HLEN Hp ltac:(unfold IP_HLEN in *; lia)) as (h1 & n' & E & Hx & Ho & Ed & Hfr).
  exists h1, n, ((f_p f, n') :: xs). split; [by apply load_ok|]. split; [by apply pm_ok|]. split; [done|]. split; [done|].
  apply Forall_cons in Hown as [Hn Hxs]. split; [constructor; [by apply Ho|done]|]. split; [cbn; by rewrite Ea, Et|]. split; [|split; [|done]].
  - rewrite Ed, Hd, !app_assoc. rewrite drop_app_length'; [done|]. rewrite !length_app, !length_le_bytes, Lj. done.
  - pose proof (pk_seg _ _ _ Hx) as (_ & _ & En' & _). exists n'. split; [done|].
    assert (mem n' = mem n) as ->.
    { rewrite (remove_header_ok _ _ n) in E by (done || (unfold IP_HLEN in *; lia) || (pose proof (zlen_nonneg (data xs)); lia)). injection E as <-. cbn in En'. rewrite lookup_insert_eq in En'. by injection En' as <-. }
    pose proof (read_payload_ok n 0 8 Hb ltac:(lia) ltac:(lia) ltac:(unfold IP_HLEN in *; lia)) as Hr. unfold read_payload in Hr. rewrite Z.add_0_r in Hr. rewrite Hr. f_equal.
    change (Z.to_nat 0) with 0%nat. change (Z.to_nat 8) with 8%nat.
    assert (slice 0 8 (content n) = slice 0 8 (data ((f_p f, n) :: xs))) as ->.
    { rewrite data_cons. cbn [snd]. rewrite slice_app_front; [done|]. pose proof (zlen_content n Hb) as Hz. unfold zlen, IP_HLEN in *. lia. }
    rewrite Hd. by apply slice_first, length_le_bytes.
Qed.

Lemma opk_cat s p ad d q ys : opk (heap s) (p :: ad) d -> packet (heap s) q ys -> ys <> [] -> all_owned ys -> (p :: ad) ## ys.*1 -> zlen d + zlen (data ys) <= 0xFFFF ->
  exists h', pm (pbuf_cat (fuel s) p q) s = Val (tt, with_heap h' s) /\ opk h' (p :: ad ++ ys.*1) (d ++ data ys) /\ forall a, a ∉ p :: ad -> bufs h' !! a = bufs (heap s) !! a.
Proof.
  intros (r & n & xs & [= -> ->] & Hp & Ho & Hl & <-) Hq Hne Hoy Hd Hz.
  destruct (pbuf_cat_ok (fuel s) (heap s) r q ((r, n) :: xs) ys Hp Hq ltac:(done) Hne Hd) as (h' & zs & E & Hp' & HF & Hfr); [|done|].
  { pose proof (chain_fuel _ _ _ Hp). unfold fuel. lia. }
  exists h'. split; [by apply pm_ok|]. split; [|done]. pose proof (grown_fst _ _ _ HF) as Ef. pose proof (grown_data _ _ _ HF) as Ed.
  pose proof (grown_prop owned _ _ _ ltac:(by intros) HF Ho) as Hoz. inversion HF as [|x y xs' zs' [Ey [nx Exy]] HF' Ex Ezs]; subst.
  destruct y as [a m]. cbn in Ey, Exy. subst a m. exists r, (set_next nx (set_tot_len (tot_len n + zlen (data ys)) n)), (zs' ++ ys).
  split; [cbn; rewrite fmap_app, (grown_fst _ _ _ HF'); done|]. split; [done|]. split; [rewrite app_comm_cons; by apply Forall_app|].
  split; [done|]. rewrite app_comm_cons, data_app. by rewrite Ed.
Qed.

Lemma chain_fragments_ok fs : forall n s p ad d, opk (heap s) (p :: ad) d -> frs_rep (heap s) fs NULL -> NoDup ((p :: ad) ++ addrs fs) -> (length fs < n)%nat ->
  zlen d + zlen (carried fs) <= 0xFFFF ->
  exists h', chain_loop n p (first_or fs NULL) s = Val (tt, with_heap h' s) /\ opk h' (p :: ad ++ addrs fs) (d ++ carried fs) /\
    forall a, a ∉ (p :: ad) ++ addrs fs -> bufs h' !! a = bufs (heap s) !! a.
Proof.
  induction fs as [|f fs IH]; intros n s p ad d Ho Hfs Hnd Hn Hz.
  - exists (heap s). rewrite with_heap_id. split; [by destruct n|]. change (addrs []) with (@nil Z). change (carried []) with (@nil Z). by rewrite !app_nil_r.
  - destruct n as [|n]; [cbn in Hn; lia|]. destruct Hfs as [Hf Hfs]. cbn [first_or chain_loop]. rewrite (fr_nonnull f (proj1 Hf)).
    rewrite addrs_cons in *. rewrite carried_cons, zlen_app in *. pose proof (zlen_nonneg (carried fs)) as Hz0.
    apply NoDup_app in Hnd as (Hn1 & Hd1 & Hnd). apply NoDup_app in Hnd as (Hn2 & Hd2 & Hn3).
    destruct (remove_helper_ok s _ f Hf) as (h1 & b & ys & Eb & E1 & Hp & Hne & Hown & Eys & Edy & (b' & Eb' & Eg) & Hfr1).
    pose proof (f_p_in _ _ _ Hf) as Hin.
    assert (pm (load (f_p f)) s = Val (b, s)) as Eb0 by (rewrite (pm_ok _ _ _ _ Eb); by rewrite with_heap_id). run Eb0. run E1.
    run (ask_ok fuel (with_heap h1 s)).
    assert (opk h1 (p :: ad) d) as Ho1.
    { eapply opk_frame; [exact Ho|]. intros a Ha. apply Hfr1. intros ->. apply (Hd1 _ Ha). apply elem_of_app. by left. }
    destruct (opk_cat (with_heap h1 s) p ad d (f_p f) ys Ho1 Hp Hne Hown) as (h2 & E2 & Ho2 & Hfr2); [|rewrite Edy; lia|].
    { intros a Ha Hb. rewrite Eys in Hb. apply (Hd1 a Ha). apply elem_of_app. by left. }
    run E2. assert (bufs h2 !! f_p f = Some b') as Eb2 by (rewrite Hfr2; [done|]; intros Ha; apply (Hd1 _ Ha), elem_of_app; by left).
    assert (pm (load (f_p f)) (with_heap h2 s) = Val (b', with_heap h2 s)) as Eb3 by exact (pm_ok (load (f_p f)) b' h2 (with_heap h2 s) (load_ok h2 _ _ Eb2)).
    rewrite with_heap_twice. run Eb3.
    assert (pm (slift (get_n (mem b') (payload b) 8)) (with_heap h2 s) = Val (le_bytes 8 (first_or fs NULL), with_heap h2 s)) as Eg3.
    { rewrite (pm_ok _ (le_bytes 8 (first_or fs NULL)) h2); [done|]. unfold slift. rewrite Eg. done. }
    run Eg3. assert (0 <= first_or fs NULL < 2 ^ 64) as Rn by (apply first_or_range; [by eapply frs_ok|done]). rewrite le_value_bytes by done.
    rewrite Edy, Eys in Ho2.
    assert (forall a, a ∉ f_addrs f -> bufs h1 !! a = bufs (heap s) !! a) as Hfr1' by (intros a Ha; apply Hfr1; by intros ->).
    destruct (IH n (with_heap h2 s) p (ad ++ f_addrs f) (d ++ f_data f) Ho2) as (h3 & -> & Ho3 & Hfr3); [| |cbn in Hn; lia|rewrite zlen_app; lia|].
    + eapply frs_frame; [exact Hfs|]. intros a Ha. cbn [heap with_heap]. rewrite Hfr2, Hfr1'; [done|by intros Hb; apply (Hd2 a)|].
      intros Hb. apply (Hd1 a Hb), elem_of_app. by right.
    + rewrite app_comm_cons, <- app_assoc. apply NoDup_app. split; [done|]. split; [done|]. apply NoDup_app. done.
    + exists h3. rewrite with_heap_twice. split; [done|]. rewrite <- !app_assoc in Ho3. split; [done|].
      intros a Ha. rewrite Hfr3 by (rewrite app_comm_cons, <- app_assoc; done). cbn [heap with_heap]. apply not_elem_of_app in Ha as [Ha Ha']. apply not_elem_of_app in Ha' as [Ha' _].
      rewrite Hfr2, Hfr1' by done. done.
Qed.

End IP4ReassRep.
