(* ===== verification/IP4Reass.v ===== *)
(** * Reassembly: the queue of datagrams

    [inv] relates the lists of ip4_frag.c to a sequence of datagrams with their fragments and
    accounts for every buffer: the heap is a given rest and the buffers that wait.  Every
    operation keeps it, faults nowhere, and acts on the sequence as its name says. *)

From Stdlib Require Import ZArith Lia.
From stdpp Require Import base list gmap numbers.
From S2P Require Import Prelude CBytes Pbuf PbufRep InetChksum IP4Frag IP4ReassRep.
Import list_basics.list list_relations.list list_monad.list list_misc.list.
Import Pbuf PbufRep IP4Frag IP4ReassRep.

Module IP4Reass.

(** ** Datagrams *)

Record dg := mkDg { d_at : Z; d_hdr : bytes; d_len : Z; d_flags : Z; d_timer : Z; d_frs : list fr }.

Definition cell (nx : Z) (d : dg) : ip_reassdata := mkReass nx (first_or (d_frs d) NULL) (d_hdr d) (d_len d) (d_flags d) (d_timer d).

Definition dfirst (ds : list dg) (nx : Z) : Z := match ds with [] => nx | d :: _ => d_at d end.
Definition dlast (ds : list dg) : Z := match last ds with Some d => d_at d | None => NULL end.

Fixpoint cells (m : gmap Z ip_reassdata) (ds : list dg) (nx : Z) : Prop :=
  match ds with
  | [] => True
  | d :: ds => m !! d_at d = Some (cell (dfirst ds nx) d) /\ cells m ds nx
  end.

Abbreviation ats := (fmap d_at).

(** The list of datagrams. *)
Record listed (s : frags) (ds : list dg) : Prop := {
  l_cells : cells (datagrams s) ds NULL;
  l_head : reassdatagrams s = dfirst ds NULL;
  l_dom : forall a, a ∉ ats ds -> datagrams s !! a = None;
  l_nodup : NoDup (ats ds);
  l_nonnull : Forall (fun d => d_at d <> NULL) ds }.

Lemma dfirst_app ds es nx : dfirst (ds ++ es) nx = dfirst ds (dfirst es nx).
Proof. by destruct ds. Qed.

Lemma cells_app m ds es nx : cells m (ds ++ es) nx <-> cells m ds (dfirst es nx) /\ cells m es nx.
Proof. induction ds as [|d ds IH]; cbn [app cells]; [tauto|]. rewrite IH, dfirst_app. tauto. Qed.

Lemma cells_frame m m' ds nx : cells m ds nx -> (forall a, a ∈ ats ds -> m' !! a = m !! a) -> cells m' ds nx.
Proof.
  induction ds as [|d ds IH]; [done|]. intros [Hd Hds] Hf. split; [rewrite Hf; [done|by left]|]. apply IH; [done|]. intros a Ha. apply Hf. by right.
Qed.

Lemma listed_fuel s ds : listed s ds -> (length ds < rfuel s)%nat.
Proof.
  intros [Hc _ _ Hnd _]. unfold rfuel. enough (length ds <= size (datagrams s))%nat by lia. rewrite <- (length_fmap d_at).
  rewrite <- (size_dom (datagrams s)), <- (size_list_to_set (C := gset Z)) by done. apply subseteq_size. intros a Ha%elem_of_list_to_set. apply elem_of_dom.
  clear Hnd. induction ds as [|d ds IH]; [by apply elem_of_nil in Ha|]. destruct Hc as [Hd Hc]. apply elem_of_cons in Ha as [->|Ha]; [by rewrite Hd|auto].
Qed.

Lemma dlast_snoc ds d : dlast (ds ++ [d]) = d_at d.
Proof. unfold dlast. by rewrite last_snoc. Qed.

Lemma listed_get s pre d post : listed s (pre ++ d :: post) -> datagrams s !! d_at d = Some (cell (dfirst post NULL) d).
Proof. intros [Hc _ _ _ _]. by apply cells_app in Hc as [_ [Hd _]]. Qed.

(** A changed datagram in the same place. *)
Definition put_dg (d : dg) (nx : Z) (s : frags) : frags := set_dg (d_at d) (cell nx d) s.

Lemma listed_put s pre d d' post : listed s (pre ++ d :: post) -> d_at d' = d_at d -> listed (put_dg d' (dfirst post NULL) s) (pre ++ d' :: post).
Proof.
  intros [Hc Hh Hd Hn Hz] E. rewrite !fmap_app, !fmap_cons in *. apply NoDup_app in Hn as (N1 & N2 & N3). pose proof N3 as [N4 N5]%NoDup_cons.
  assert (forall a, a <> d_at d -> datagrams (put_dg d' (dfirst post NULL) s) !! a = datagrams s !! a) as Hf by (intros a Ha; cbn; rewrite E; by rewrite lookup_insert_ne).
  apply cells_app in Hc as [Hc1 [_ Hc2]]. constructor.
  - apply cells_app. split; [|split].
    + cbn [dfirst] in *. rewrite E. eapply cells_frame; [exact Hc1|]. intros a Ha. apply Hf. intros ->. apply (N2 _ Ha). by left.
    + cbn. by rewrite lookup_insert_eq.
    + eapply cells_frame; [exact Hc2|]. intros a Ha. apply Hf. by intros ->.
  - cbn. rewrite Hh, !dfirst_app. cbn [dfirst]. by rewrite E.
  - intros a Ha. rewrite fmap_app, fmap_cons, E in Ha. rewrite Hf; [by apply Hd|]. intros ->. apply Ha. apply elem_of_app. right. by left.
  - rewrite fmap_app, fmap_cons, E. by apply NoDup_app.
  - apply Forall_app in Hz as [Z1 Z2]. apply Forall_cons in Z2 as [Z2 Z3]. apply Forall_app. split; [done|]. constructor; [by rewrite E|done].
Qed.

(** ** Taking a datagram out of the list *)

Definition relist (m : gmap Z ip_reassdata) (head : Z) (s : frags) : frags := mkFrags (heap s) m head (ip_reass_pbufcount s) (exceeded s).

Lemma set_next_cell nx nx' d : set_r_next nx' (cell nx d) = cell nx' d.
Proof. done. Qed.

Lemma dequeue_ok s pre d post : listed s (pre ++ d :: post) ->
  exists m head, ip_reass_dequeue_datagram (d_at d) (dlast pre) s = Val (tt, relist m head s) /\ listed (relist m head s) (pre ++ post).
Proof.
  intros L. pose proof (listed_get _ _ _ _ L) as Ed. destruct L as [Hc Hh Hd Hn Hz]. rewrite !fmap_app, !fmap_cons in *.
  apply NoDup_app in Hn as (N1 & N2 & N3). pose proof N3 as [N4 N5]%NoDup_cons. apply cells_app in Hc as [Hc1 [_ Hc2]].
  apply Forall_app in Hz as [Z1 Z2]. apply Forall_cons in Z2 as [Z2 Z3].
  unfold ip_reass_dequeue_datagram. run (get_r_ok _ _ _ Ed). run (ask_ok reassdatagrams s). rewrite Hh.
  destruct (last pre) as [e|] eqn:El.
  - apply last_Some in El as [pre' ->]. rewrite dlast_snoc. rewrite fmap_app in *. cbn [fmap list_fmap] in *.
    assert (d_at e <> d_at d) as Hne by (intros E; apply (N2 (d_at e)); [apply elem_of_app; right; by left|rewrite E; by left]).
    assert ((dfirst ((pre' ++ [e]) ++ d :: post) NULL =? d_at d) = false) as ->.
    { apply Z.eqb_neq. rewrite !dfirst_app. destruct pre' as [|x pre']; cbn; [done|]. intros E. apply (N2 (d_at x)); [by left|]. rewrite E. by left. }
    apply Forall_app in Z1 as [Z1 Ze]. apply Forall_cons in Ze as [Ze _]. rewrite (proj2 (Z.eqb_neq _ _) Ze). cbn [negb ASSERT]. ret.
    apply cells_app in Hc1 as [Hc0 [He _]]. cbn [dfirst] in He, Hc0. run (get_r_ok _ _ _ He). unfold sbind. cbn [put_r memp_free]. rewrite set_next_cell.
    cbn [r_next cell]. eexists _, _. split; [reflexivity|].
    apply NoDup_app in N1 as (M1 & M2 & M3).
    assert (forall a, a <> d_at d -> a <> d_at e -> delete (d_at d) (<[d_at e := cell (dfirst post NULL) e]> (datagrams s)) !! a = datagrams s !! a) as Hf.
    { intros a H1 H2. rewrite lookup_delete_ne, lookup_insert_ne by done. done. }
    constructor; cbn [relist datagrams reassdatagrams].
    + rewrite <- app_assoc. apply cells_app. split; [|split].
      * cbn [app dfirst]. eapply cells_frame; [exact Hc0|]. intros a Ha. apply Hf.
        -- intros ->. apply (N2 (d_at d)); [apply elem_of_app; by left|by left].
        -- intros ->. apply (M2 _ Ha). by left.
      * rewrite lookup_delete_ne by done. by rewrite lookup_insert_eq.
      * eapply cells_frame; [exact Hc2|]. intros a Ha. apply Hf; [by intros ->|]. intros ->. apply (N2 (d_at e)); [apply elem_of_app; right; by left|by right].
    + rewrite !dfirst_app. by destruct pre'.
    + intros a Ha. rewrite !fmap_app in Ha. apply not_elem_of_app in Ha as [Ha1 Ha2]. apply not_elem_of_app in Ha1 as [Ha0 Ha1]. cbn in Ha1. apply not_elem_of_cons in Ha1 as [Ha1 _].
      destruct (decide (a = d_at d)) as [->|Hd']; [apply lookup_delete_eq|]. rewrite Hf by done. apply Hd. set_solver.
    + rewrite !fmap_app. cbn. apply NoDup_app. split; [by apply NoDup_app|]. split; [|done]. intros a Ha Hb. apply (N2 a Ha). by right.
    + apply Forall_app. split; [|done]. apply Forall_app. split; [done|by constructor].
  - apply last_None in El. subst pre. cbn [app dfirst]. rewrite Z.eqb_refl. unfold sbind. cbn [set_head memp_free]. eexists _, _. split; [reflexivity|].
    constructor; cbn [relist datagrams reassdatagrams]; try done.
    + eapply cells_frame; [exact Hc2|]. intros a Ha. cbn. rewrite lookup_delete_ne; [done|]. by intros <-.
    + intros a Ha. cbn. destruct (decide (a = d_at d)) as [->|Hd']; [apply lookup_delete_eq|]. rewrite lookup_delete_ne by done. apply Hd. cbn. by apply not_elem_of_cons.
Qed.
(** ** The buffers of the datagrams *)

Definition all_addrs (ds : list dg) : list Z := ds ≫= (fun d => addrs (d_frs d)).

Lemma all_addrs_app ds es : all_addrs (ds ++ es) = all_addrs ds ++ all_addrs es.
Proof. apply bind_app. Qed.

Lemma all_addrs_cons d ds : all_addrs (d :: ds) = addrs (d_frs d) ++ all_addrs ds.
Proof. done. Qed.

(** The heap is [F] and the buffers of [ds]. *)
Record stored (F : Z -> option pbuf) (h : pheap) (ds : list dg) : Prop := {
  st_frs : Forall (fun d => frs_rep h (d_frs d) NULL) ds;
  st_nodup : NoDup (all_addrs ds);
  st_frame : forall a, a ∉ all_addrs ds -> bufs h !! a = F a;
  st_apart : forall a, a ∈ all_addrs ds -> F a = None }.

Lemma all_addrs_in ds d a : d ∈ ds -> a ∈ addrs (d_frs d) -> a ∈ all_addrs ds.
Proof. intros Hd Ha. apply list_elem_of_bind. by exists d. Qed.

Lemma stored_split F h pre d post : stored F h (pre ++ d :: post) ->
  frs_rep h (d_frs d) NULL /\ NoDup (addrs (d_frs d)) /\ (forall a, a ∈ all_addrs (pre ++ post) -> a ∉ addrs (d_frs d)).
Proof.
  intros [Hf Hn _ _]. apply Forall_app in Hf as [_ Hf]. apply Forall_cons in Hf as [Hf _]. split; [done|].
  rewrite all_addrs_app, all_addrs_cons in Hn. apply NoDup_app in Hn as (_ & H1 & Hn). apply NoDup_app in Hn as (N1 & H2 & _). split; [done|].
  intros a Ha Hb. rewrite all_addrs_app in Ha. apply elem_of_app in Ha as [Ha|Ha]; [|by apply (H2 a)]. apply (H1 a Ha), elem_of_app. by left.
Qed.

(** The buffers of [d] were freed. *)
Lemma stored_remove F h h' pre d post : stored F h (pre ++ d :: post) ->
  (forall a, a ∈ addrs (d_frs d) -> bufs h' !! a = None) -> (forall a, a ∉ addrs (d_frs d) -> bufs h' !! a = bufs h !! a) -> stored F h' (pre ++ post).
Proof.
  intros S Hin Hout. destruct (stored_split _ _ _ _ _ S) as (_ & _ & Hd). destruct S as [Hf Hn Hfr Ha].
  apply Forall_app in Hf as [Hf1 Hf2]. apply Forall_cons in Hf2 as [_ Hf2]. constructor.
  - rewrite Forall_forall. intros e He. assert (frs_rep h (d_frs e) NULL) as Hr.
    { rewrite Forall_forall in Hf1, Hf2. apply elem_of_app in He as [He|He]; auto. }
    eapply frs_frame; [exact Hr|]. intros a Hae. apply Hout. apply Hd. by eapply all_addrs_in.
  - rewrite all_addrs_app, all_addrs_cons in *. apply NoDup_app in Hn as (N1 & H1 & N2). apply NoDup_app in N2 as (_ & _ & N2). apply NoDup_app. split; [done|]. split; [|done].
    intros a H H'. apply (H1 a H), elem_of_app. by right.
  - intros a Hna. destruct (decide (a ∈ addrs (d_frs d))) as [Hd'|Hd'].
    + rewrite Hin, Ha; [done| |done]. rewrite all_addrs_app, all_addrs_cons. apply elem_of_app. right. apply elem_of_app. by left.
    + rewrite Hout, Hfr; [done| |done]. rewrite all_addrs_app, all_addrs_cons, !not_elem_of_app in *. tauto.
  - intros a H. apply Ha. rewrite all_addrs_app, all_addrs_cons, !elem_of_app in *. tauto.
Qed.

Lemma icmp_ok s p ad d : opk (heap s) (p :: ad) d -> exists e, icmp_time_exceeded p s = Val (tt, mkFrags (heap s) (datagrams s) (reassdatagrams s) (ip_reass_pbufcount s) e).
Proof.
  intros (q & n & xs & [= -> ->] & Hp & _ & Hl & _). pose proof (packet_cons _ _ _ _ _ Hp) as (_ & _ & En & Hb & _).
  assert (pm (load q) s = Val (n, s)) as E1 by (rewrite (pm_ok _ _ _ _ (load_ok _ _ _ En)); by rewrite with_heap_id).
  assert (get_bytes q 0 (len n) s = Val (slice 0 (Z.to_nat (len n)) (content n), s)) as E2.
  { unfold get_bytes. rewrite (pm_ok _ (slice 0 (Z.to_nat (len n)) (content n)) (heap s)); [by rewrite with_heap_id|]. unfold sbind. rewrite (load_ok _ _ _ En).
    unfold slift. rewrite read_payload_ok by (done || (unfold IP_HLEN in *; lia)). done. }
  eexists. unfold icmp_time_exceeded. run E1. run E2. reflexivity.
Qed.

(** The first fragment goes into an ICMP message. *)
Definition first_out (cf : Z -> PM unit) (ipr : Z) (d : ip_reassdata) : RM Z :=
  let p := r_p d in
  do! q := next_pbuf p in
  put_r ipr (set_r_p q d) ;;;
  put_bytes p 0 (iphdr d) ;;;
  icmp_time_exceeded p ;;;
  do! c := clen p in
  ASSERT (0 + c <=? 0xffff) ;;;
  free cf p ;;;
  sret (u16 (0 + c)).

Lemma first_out_ok cf s ipr f fs nx hdr l fl t : frs_rep (heap s) (f :: fs) NULL -> zlen (f_addrs f) <= 0xFFFF -> length hdr = 20%nat ->
  exists h' e, first_out cf ipr (mkReass nx (f_p f) hdr l fl t) s =
      Val (zlen (f_addrs f), mkFrags h' (<[ipr := mkReass nx (first_or fs NULL) hdr l fl t]> (datagrams s)) (reassdatagrams s) (ip_reass_pbufcount s) e) /\
    (forall a, a ∈ f_addrs f -> bufs h' !! a = None) /\ forall a, a ∉ f_addrs f -> bufs h' !! a = bufs (heap s) !! a.
Proof.
  intros [Hf Hfs] Hz Hh. unfold first_out. cbn [r_p iphdr]. assert (0 <= first_or fs NULL < 2 ^ 64) as Rn by (apply first_or_range; [by eapply frs_ok|done]).
  run (next_pbuf_ok _ _ _ Hf Rn). unfold set_r_p. cbn [r_next iphdr datagram_len r_flags timer].
  set (s1 := set_dg ipr (mkReass nx (first_or fs NULL) hdr l fl t) s).
  assert (put_r ipr (mkReass nx (first_or fs NULL) hdr l fl t) s = Val (tt, s1)) as E1 by done. run E1.
  pose proof (fr_addrs _ _ _ Hf) as Ea. destruct (proj2 Hf) as (j & _ & Ho). rewrite Ea in Ho.
  destruct (opk_write s1 _ _ _ 0 hdr Ho) as (h2 & E2 & Ho2 & Hfr2); [lia|unfold zlen, IP_HLEN; lia|]. run E2.
  destruct (icmp_ok (with_heap h2 s1) _ _ _ Ho2) as (e & E3). run E3. set (s3 := mkFrags _ _ _ _ e).
  rewrite Ea in Hz. run (opk_clen s3 _ _ _ Ho2 Hz). rewrite Z.add_0_l. rewrite (proj2 (Z.leb_le _ _)) by done. cbn [ASSERT]. ret.
  destruct (opk_free cf s3 _ _ _ Ho2) as (h4 & E4 & Hin & Hout). run E4. rewrite u16_id by (unfold is_u16; pose proof (zlen_nonneg (f_p f :: tl (f_addrs f))); lia).
  exists h4, e. rewrite Ea. split; [done|]. split; [done|]. intros a Ha. rewrite Hout by done. cbn. apply Hfr2. intros ->. apply Ha. by left.
Qed.

Lemma free_complete_ok cf F s pre d post : listed s (pre ++ d :: post) -> stored F (heap s) (pre ++ d :: post) -> d_frs d <> [] -> length (d_hdr d) = 20%nat ->
  ip_reass_pbufcount s = zlen (all_addrs (pre ++ d :: post)) -> zlen (all_addrs (pre ++ d :: post)) <= 0xFFFF ->
  exists s', ip_reass_free_complete_datagram cf (d_at d) (dlast pre) s = Val (zlen (addrs (d_frs d)), s') /\ listed s' (pre ++ post) /\ stored F (heap s') (pre ++ post) /\
    ip_reass_pbufcount s' = zlen (all_addrs (pre ++ post)).
Proof.
  intros L S Hne Hh Hc Hmax. pose proof (listed_get _ _ _ _ L) as Ed. destruct (stored_split _ _ _ _ _ S) as (Hfs & Hnd & _).
  assert (zlen (all_addrs (pre ++ d :: post)) = zlen (addrs (d_frs d)) + zlen (all_addrs (pre ++ post))) as Hsum by (rewrite !all_addrs_app, all_addrs_cons, !zlen_app; lia).
  pose proof (zlen_nonneg (all_addrs (pre ++ post))) as Hz0.
  unfold ip_reass_free_complete_datagram. assert (dlast pre <> d_at d) as Hpd.
  { destruct L as [_ _ _ Hn Hz]. unfold dlast. apply Forall_app in Hz as [_ Hz]. apply Forall_cons in Hz as [Hz _]. destruct (last pre) as [e|] eqn:El; [|done].
    apply last_Some in El as [l ->]. rewrite !fmap_app, !fmap_cons in Hn. apply NoDup_app in Hn as (_ & Hn & _). intros E. apply (Hn (d_at e)); [apply elem_of_app; right; by left|rewrite E; by left]. }
  rewrite (proj2 (Z.eqb_neq _ _) Hpd). cbn [negb ASSERT]. ret.
  assert ((if dlast pre =? NULL then sret tt else do! e := get_r (dlast pre) in ASSERT (r_next e =? d_at d)) s = Val (tt, s)) as Ea.
  { destruct (last pre) as [e|] eqn:El; [|apply last_None in El; by subst]. apply last_Some in El as [l ->]. rewrite dlast_snoc.
    destruct L as [Hcl _ _ _ Hz]. rewrite <- app_assoc in Hcl. apply cells_app in Hcl as [_ [He _]]. apply Forall_app in Hz as [Hz _]. apply Forall_app in Hz as [_ Hz]. apply Forall_cons in Hz as [Hz _].
    rewrite (proj2 (Z.eqb_neq _ _) Hz). cbn [app dfirst] in He. run (get_r_ok _ _ _ He). cbn [r_next cell]. by rewrite Z.eqb_refl. }
  run Ea. run (get_r_ok _ _ _ Ed). destruct (d_frs d) as [|f fs] eqn:Ef; [done|]. cbn [cell r_p]. rewrite Ef. cbn [first_or]. pose proof Hfs as [Hf Hrest].
  run (helper_start_ok _ _ _ Hf). rewrite addrs_cons, zlen_app in Hsum. pose proof (zlen_nonneg (addrs fs)) as Hz1. pose proof (zlen_nonneg (f_addrs f)) as Hz2.
  rewrite addrs_cons in Hnd. apply NoDup_app in Hnd as (Hn1 & Hn2 & Hn3).
  assert (exists c gs s1, (if f_start f =? 0 then first_out cf (d_at d) (cell (dfirst post NULL) d) else sret 0) s = Val (c, s1) /\ f :: fs = (if f_start f =? 0 then [f] else []) ++ gs /\
    c = zlen (addrs (if f_start f =? 0 then [f] else [])) /\ frs_rep (heap s1) gs NULL /\ 
    (exists d1, d_at d1 = d_at d /\ d_frs d1 = gs /\ listed s1 (pre ++ d1 :: post)) /\ ip_reass_pbufcount s1 = ip_reass_pbufcount s /\
    (forall a, a ∈ addrs (if f_start f =? 0 then [f] else []) -> bufs (heap s1) !! a = None) /\
    (forall a, a ∉ addrs (if f_start f =? 0 then [f] else []) -> bufs (heap s1) !! a = bufs (heap s) !! a)) as (c & gs & s1 & E1 & Eg & Ec & Hgs & (d1 & Ed1 & Ef1 & L1) & Ect & Hin & Hout).
  { destruct (f_start f =? 0).
    - unfold cell. rewrite Ef. cbn [first_or]. destruct (first_out_ok cf s (d_at d) f fs (dfirst post NULL) (d_hdr d) (d_len d) (d_flags d) (d_timer d) Hfs) as (h' & e & E & H1 & H2); [lia|done|].
      eexists _, fs, _. split; [exact E|]. split; [done|]. assert (addrs [f] = f_addrs f) as -> by (unfold addrs; cbn; by rewrite app_nil_r). split; [done|].
      split; [|split; [|done]].
      + eapply frs_frame; [exact Hrest|]. intros a Ha. cbn. apply H2. intros Hb. by apply (Hn2 a).
      + exists (mkDg (d_at d) (d_hdr d) (d_len d) (d_flags d) (d_timer d) fs). split; [done|]. split; [done|].
        pose proof (listed_put s pre d (mkDg (d_at d) (d_hdr d) (d_len d) (d_flags d) (d_timer d) fs) post L eq_refl) as [? ? ? ? ?]. by constructor.
    - exists 0, (f :: fs), s. split; [done|]. split; [done|]. split; [done|]. split; [done|]. split; [exists d; by rewrite Ef|]. split; [done|]. split; [by intros a ?%elem_of_nil|done]. }
  unfold first_out in E1. cbn [cell r_p iphdr] in E1. rewrite Ef in E1. cbn [first_or] in E1. run E1.
  pose proof (listed_get _ _ _ _ L1) as Ed'. rewrite Ed1 in Ed'. run (get_r_ok _ _ _ Ed'). cbn [cell r_p]. rewrite Ef1. run (ask_ok fuel s1).
  set (done_ := if f_start f =? 0 then [f] else []) in *. assert (addrs (f :: fs) = addrs done_ ++ addrs gs) as Eaddr by (rewrite Eg; apply addrs_app).
  assert (NoDup (addrs done_ ++ addrs gs)) as Hnd2 by (rewrite <- Eaddr, addrs_cons; by apply NoDup_app).
  apply NoDup_app in Hnd2 as (_ & Hn4 & Hn5). assert (zlen (f_addrs f) + zlen (addrs fs) = zlen (addrs done_) + zlen (addrs gs)) as Hz3 by (rewrite <- !zlen_app, <- Eaddr; done).
  pose proof (zlen_nonneg (addrs done_)) as Hz4. pose proof (zlen_nonneg (addrs gs)) as Hz5.
  destruct (free_fragments_ok cf gs (fuel s1) s1 c Hgs Hn5) as (h2 & E2 & Hin2 & Hout2); [by eapply frs_fuel|lia|lia|]. run E2.
  destruct (dequeue_ok (with_heap h2 s1) pre d1 post) as (m & head & E3 & L3); [by destruct L1; constructor|]. rewrite Ed1 in E3. run E3.
  run (ask_ok ip_reass_pbufcount (relist m head (with_heap h2 s1))). cbn [relist ip_reass_pbufcount with_heap]. rewrite Ect, Hc.
  rewrite Z.geb_leb, (proj2 (Z.leb_le _ _)) by lia. cbn [ASSERT]. ret. unfold sbind. cbn [set_count sret].
  eexists. split; [unfold sret; do 2 f_equal; rewrite addrs_cons, zlen_app; lia|]. cbn [heap relist with_heap ip_reass_pbufcount].
  split; [by destruct L3; constructor|]. split; [|rewrite u16_id by (unfold is_u16; lia); lia].
  eapply (stored_remove F (heap s) h2 pre d post S); rewrite Ef, Eaddr.
  - intros a [Ha|Ha]%elem_of_app; [|by apply Hin2]. rewrite Hout2 by (by apply Hn4). by apply Hin.
  - intros a [Ha Hb]%not_elem_of_app. rewrite Hout2 by done. by apply Hout.
Qed.
(** ** The invariant *)

Definition key (hdr : bytes) : bytes * Z := (src_dest hdr, IPH_ID hdr).
Definition matches (hdr : bytes) (d : dg) : bool := IP_ADDRESSES_AND_ID_MATCH (d_hdr d) hdr.

Lemma matches_key hdr d : matches hdr d = bool_decide (key (d_hdr d) = key hdr).
Proof. unfold matches, IP_ADDRESSES_AND_ID_MATCH, key. apply bool_decide_ext. split; [by intros [-> ->]|by intros [= -> ->]]. Qed.

(** [ds] are the datagrams that wait and [F] is the heap without their buffers. *)
Record winv (F : Z -> option pbuf) (s : frags) (ds : list dg) : Prop := {
  w_listed : listed s ds;
  w_stored : stored F (heap s) ds;
  w_count : ip_reass_pbufcount s = zlen (all_addrs ds);
  w_max : zlen (all_addrs ds) <= IP_REASS_MAX_PBUFS;
  w_hdr : Forall (fun d => length (d_hdr d) = 20%nat) ds;
  w_keys : NoDup ((fun d => key (d_hdr d)) <$> ds) }.

(** A fragment waits, and the time of the datagram is not up. *)
Definition live (d : dg) : Prop := d_frs d <> [] /\ 0 <= d_timer d <= IP_REASS_MAXAGE.

Definition inv (F : Z -> option pbuf) (s : frags) (ds : list dg) : Prop := winv F s ds /\ Forall live ds.

Lemma all_addrs_drop pre d post : zlen (all_addrs (pre ++ d :: post)) = zlen (addrs (d_frs d)) + zlen (all_addrs (pre ++ post)).
Proof. rewrite !all_addrs_app, all_addrs_cons, !zlen_app. lia. Qed.

Lemma keys_drop pre d post : NoDup ((fun d => key (d_hdr d)) <$> pre ++ d :: post) -> NoDup ((fun d => key (d_hdr d)) <$> pre ++ post).
Proof.
  rewrite !fmap_app, fmap_cons. intros (N1 & N2 & N3)%NoDup_app. apply NoDup_cons in N3 as [_ N3]. apply NoDup_app. split; [done|]. split; [|done].
  intros x H1 H2. apply (N2 x H1). by right.
Qed.

Lemma Forall_drop {A} (P : A -> Prop) pre d post : Forall P (pre ++ d :: post) -> Forall P (pre ++ post) /\ P d.
Proof. intros [H1 [H2 H3]%Forall_cons]%Forall_app. split; [by apply Forall_app|done]. Qed.

Lemma free_datagram_ok cf F s pre d post : inv F s (pre ++ d :: post) ->
  exists s', ip_reass_free_complete_datagram cf (d_at d) (dlast pre) s = Val (zlen (addrs (d_frs d)), s') /\ inv F s' (pre ++ post).
Proof.
  intros [[L S C M H K] Hne]. apply Forall_drop in H as [H Hd]. apply Forall_drop in Hne as [Hne [Hned Htd]].
  destruct (free_complete_ok cf F s pre d post L S Hned Hd C) as (s' & E & L' & S' & C'); [unfold IP_REASS_MAX_PBUFS in *; lia|].
  exists s'. split; [done|]. split; [|done]. constructor; [done|done|done| |done|by eapply keys_drop].
  rewrite all_addrs_drop in M. pose proof (zlen_nonneg (addrs (d_frs d))). lia.
Qed.

(** ** The oldest datagram *)

Definition others (hdr : bytes) (ds : list dg) : list dg := base.filter (fun d => matches hdr d = false) ds.

(** What the search found in [ds]: a datagram with its predecessor, and how many there are. *)
Definition chosen (hdr : bytes) (ds : list dg) (r : Z * Z * Z) : Prop :=
  r.2 = zlen (others hdr ds) /\
  ((others hdr ds = [] /\ r.1 = (NULL, NULL)) \/
   exists p1 o p2, ds = p1 ++ o :: p2 /\ r.1 = (d_at o, dlast p1) /\ matches hdr o = false /\ Forall (fun e => d_timer o <= d_timer e) (others hdr ds)).

Lemma others_app hdr ds es : others hdr (ds ++ es) = others hdr ds ++ others hdr es.
Proof. apply filter_app. Qed.

Lemma others_one hdr d : others hdr [d] = if matches hdr d then [] else [d].
Proof. unfold others. rewrite filter_cons, filter_nil. destruct (matches hdr d); by case_decide. Qed.

Lemma chosen_step hdr pre d r : chosen hdr pre r ->
  matches hdr d = true -> chosen hdr (pre ++ [d]) r.
Proof.
  intros [E H] Hm. unfold chosen. rewrite others_app, others_one, Hm, app_nil_r. split; [done|]. destruct H as [H|(p1 & o & p2 & -> & H)]; [by left|].
  right. exists p1, o, (p2 ++ [d]). by rewrite <- app_assoc.
Qed.

Lemma oldest_loop_ok hdr s rest : forall n pre prev o op c, listed s (pre ++ rest) -> chosen hdr pre ((o, op), c) -> (rest <> [] -> prev = dlast pre) -> (length rest < n)%nat ->
  exists r, oldest_loop n hdr (dfirst rest NULL) prev o op c s = Val (r, s) /\ chosen hdr (pre ++ rest) r.
Proof.
  induction rest as [|d rest IH]; intros n pre prev o op c L Hch Hp Hn.
  - eexists. rewrite app_nil_r. split; [by destruct n|done].
  - destruct n as [|n]; [cbn in Hn; lia|]. cbn [dfirst oldest_loop]. pose proof (listed_get _ _ _ _ L) as Ed.
    pose proof (l_nonnull _ _ L) as Hz. pose proof Hz as [_ [Hzd _]%Forall_cons]%Forall_app. rewrite (proj2 (Z.eqb_neq _ _) Hzd). run (get_r_ok _ _ _ Ed).
    specialize (Hp ltac:(done)). subst prev.
    enough (exists o' op' c', (if negb (IP_ADDRESSES_AND_ID_MATCH (iphdr (cell (dfirst rest NULL) d)) hdr) then
       if o =? NULL then sret (d_at d, dlast pre, c + 1)
       else do! o_ := get_r o in sret (if timer (cell (dfirst rest NULL) d) <=? timer o_ then (d_at d, dlast pre, c + 1) else (o, op, c + 1))
      else sret (o, op, c)) s = Val ((o', op', c'), s) /\ chosen hdr (pre ++ [d]) ((o', op'), c')) as (o' & op' & c' & E & Hch').
    { run E. cbn [cell r_next]. rewrite (cons_middle d pre rest), app_assoc in L |- *. apply (IH n (pre ++ [d])); [done|done| |cbn in Hn; lia].
      intros Hr. rewrite dlast_snoc. destruct rest as [|e rest]; [done|]. cbn [dfirst]. apply Forall_app in Hz as [_ Hz]. apply Forall_cons in Hz as [_ Hz]. apply Forall_cons in Hz as [Hz _]. by rewrite (proj2 (Z.eqb_neq _ _) Hz). }
    change (IP_ADDRESSES_AND_ID_MATCH (iphdr (cell (dfirst rest NULL) d)) hdr) with (matches hdr d). destruct (matches hdr d) eqn:Em; cbn [negb].
    { exists o, op, c. split; [done|]. by apply chosen_step. }
    destruct Hch as [Ec Hch]. cbn [snd fst] in Ec, Hch. assert (c + 1 = zlen (others hdr (pre ++ [d]))) as Ec' by (rewrite others_app, others_one, Em, zlen_app, Ec; done).
    destruct Hch as [[Ho [= -> ->]]|(p1 & x & p2 & E & [= -> ->] & Hx & Hmin)].
    { exists (d_at d), (dlast pre), (c + 1). split; [done|]. split; [done|]. right. exists pre, d, []. split; [done|]. split; [done|]. split; [done|].
      rewrite others_app, others_one, Em, Ho. by constructor. }
    subst pre. assert (listed s (p1 ++ x :: (p2 ++ d :: rest))) as Lx by (by rewrite <- app_assoc in L). pose proof (listed_get _ _ _ _ Lx) as Ex.
    pose proof (l_nonnull _ _ Lx) as [_ [Hzx _]%Forall_cons]%Forall_app. rewrite (proj2 (Z.eqb_neq _ _) Hzx). run (get_r_ok _ _ _ Ex). cbn [cell timer].
    destruct (Z.leb_spec (d_timer d) (d_timer x)) as [Ht|Ht]; (eexists _, _, _; split; [reflexivity|]; split; [done|]; right).
    + exists (p1 ++ x :: p2), d, []. split; [done|]. split; [done|]. split; [done|]. rewrite others_app, others_one, Em. apply Forall_app. split; [|by constructor].
      eapply Forall_impl; [exact Hmin|]. cbn. intros; lia.
    + exists p1, x, (p2 ++ [d]). split; [by rewrite <- app_assoc|]. split; [done|]. split; [done|]. rewrite others_app, others_one, Em. apply Forall_app. split; [done|]. constructor; [lia|done].
Qed.
(** ** Making room *)

(** Datagrams were discarded, oldest first, but not that of [hdr]. *)
Record evicted (hdr : bytes) (ds ds' : list dg) : Prop := {
  ev_sub : sublist ds' ds;
  ev_same : forall d, d ∈ ds -> matches hdr d = true -> d ∈ ds';
  ev_oldest : forall d e, d ∈ ds -> d ∉ ds' -> e ∈ ds' -> matches hdr e = false -> d_timer d <= d_timer e }.

Lemma evicted_refl hdr ds : evicted hdr ds ds.
Proof. by constructor. Qed.

Lemma evicted_step hdr p1 o p2 ds' : matches hdr o = false -> Forall (fun e => d_timer o <= d_timer e) (others hdr (p1 ++ o :: p2)) ->
  evicted hdr (p1 ++ p2) ds' -> evicted hdr (p1 ++ o :: p2) ds'.
Proof.
  intros Ho Hmin [Hs Hk Hold]. assert (sublist (p1 ++ p2) (p1 ++ o :: p2)) as Hs1 by (apply sublist_app; [done|by constructor]). constructor.
  - by etrans.
  - intros d Hd Hm. apply Hk; [|done]. apply elem_of_app in Hd as [Hd|[->|Hd]%elem_of_cons]; [apply elem_of_app; by left|congruence|apply elem_of_app; by right].
  - intros d e Hd Hnd He Hm. apply elem_of_app in Hd as [Hd|[->|Hd]%elem_of_cons]; [by apply Hold; [apply elem_of_app; left|..]| |by apply Hold; [apply elem_of_app; right|..]].
    rewrite Forall_forall in Hmin. apply Hmin. apply list_elem_of_filter. split; [done|]. eapply elem_of_submseteq; [exact He|]. apply sublist_submseteq. by etrans.
Qed.

Lemma others_drop hdr p1 o p2 : matches hdr o = false -> zlen (others hdr (p1 ++ o :: p2)) = 1 + zlen (others hdr (p1 ++ p2)).
Proof.
  intros Ho. rewrite (cons_middle o p1 p2), !others_app, others_one, Ho, !zlen_app. unfold zlen. cbn [length]. lia.
Qed.

Lemma remove_loop_ok cf F hdr need : forall n ds s freed, inv F s ds -> (length ds < n)%nat ->
  exists ds' s', remove_loop cf n hdr need freed s = Val (freed + (zlen (all_addrs ds) - zlen (all_addrs ds')), s') /\ inv F s' ds' /\ evicted hdr ds ds' /\
    (need <= freed + (zlen (all_addrs ds) - zlen (all_addrs ds')) \/ others hdr ds' = []).
Proof.
  induction n as [|n IH]; intros ds s freed I Hn; [lia|]. cbn [remove_loop]. run (ask_ok rfuel s). run (ask_ok reassdatagrams s).
  pose proof I as [[L _ _ _ _ _] _]. rewrite (l_head _ _ L).
  destruct (oldest_loop_ok hdr s ds (rfuel s) [] NULL NULL NULL 0 L) as ([[o op] c] & E & Ec & Hch); [by split; [|left]|done|by apply listed_fuel|].
  run E. cbn [fst snd app] in Ec, Hch. destruct Hch as [[Hno [= -> ->]]|(p1 & d & p2 & Eds & [= -> ->] & Hm & Hmin)].
  - cbn [negb]. change (NULL =? NULL) with true. cbn [negb]. ret. subst c. rewrite Hno. change (zlen [] >? 1) with false. rewrite andb_false_r.
    exists ds, s. rewrite Z.sub_diag, Z.add_0_r. split; [done|]. split; [done|]. split; [apply evicted_refl|by right].
  - subst ds. pose proof (l_nonnull _ _ L) as [_ [Hz _]%Forall_cons]%Forall_app. rewrite (proj2 (Z.eqb_neq _ _) Hz). cbn [negb].
    destruct (free_datagram_ok cf F s p1 d p2 I) as (s1 & E1 & I1). run E1. ret. rewrite all_addrs_drop. rewrite others_drop in Ec by done.
    assert ((freed + zlen (addrs (d_frs d)) <? need) && (c >? 1) = false -> 
      need <= freed + (zlen (addrs (d_frs d)) + zlen (all_addrs (p1 ++ p2)) - zlen (all_addrs (p1 ++ p2))) \/ others hdr (p1 ++ p2) = []) as Hstop.
    { intros [H%Z.ltb_ge|H]%andb_false_iff; [left; lia|]. right. rewrite Z.gtb_ltb in H. apply Z.ltb_ge in H. destruct (others hdr (p1 ++ p2)); [done|].
      rewrite zlen_cons in Ec. pose proof (zlen_nonneg l). lia. }
    destruct ((freed + zlen (addrs (d_frs d)) <? need) && (c >? 1)).
    + destruct (IH (p1 ++ p2) s1 (freed + zlen (addrs (d_frs d))) I1) as (ds' & s' & E2 & I2 & Ev & Hneed); [rewrite length_app in *; cbn in Hn; lia|].
      exists ds', s'. replace (freed + (zlen (addrs (d_frs d)) + zlen (all_addrs (p1 ++ p2)) - zlen (all_addrs ds'))) with
        (freed + zlen (addrs (d_frs d)) + (zlen (all_addrs (p1 ++ p2)) - zlen (all_addrs ds'))) by lia. split; [done|]. split; [done|]. split; [by apply evicted_step|done].
    + exists (p1 ++ p2), s1. split; [unfold sret; do 2 f_equal; lia|]. split; [done|]. split; [apply evicted_step; [done|done|apply evicted_refl]|by apply Hstop].
Qed.

Lemma remove_oldest_ok cf F hdr need ds s : inv F s ds ->
  exists ds' s', ip_reass_remove_oldest_datagram cf hdr need s = Val (zlen (all_addrs ds) - zlen (all_addrs ds'), s') /\ inv F s' ds' /\ evicted hdr ds ds' /\
    (need <= zlen (all_addrs ds) - zlen (all_addrs ds') \/ others hdr ds' = []).
Proof.
  intros I. unfold ip_reass_remove_oldest_datagram. run (ask_ok rfuel s). apply (remove_loop_ok cf F hdr need (rfuel s) ds s 0 I). apply listed_fuel, I.
Qed.

(** ** Finding the datagram *)

Lemma find_datagram_ok hdr s rest : forall n pre, listed s (pre ++ rest) -> (length rest < n)%nat ->
  exists r, find_datagram n hdr (dfirst rest NULL) s = Val (r, s) /\
    ((r = NULL /\ Forall (fun d => matches hdr d = false) rest) \/ exists p1 d p2, rest = p1 ++ d :: p2 /\ r = d_at d /\ d_at d <> NULL /\ matches hdr d = true).
Proof.
  induction rest as [|d rest IH]; intros n pre L Hn.
  - exists NULL. split; [by destruct n|by left].
  - destruct n as [|n]; [cbn in Hn; lia|]. cbn [dfirst find_datagram]. pose proof (l_nonnull _ _ L) as [_ [Hz _]%Forall_cons]%Forall_app.
    rewrite (proj2 (Z.eqb_neq _ _) Hz). run (get_r_ok _ _ _ (listed_get _ _ _ _ L)). cbn [cell iphdr r_next]. fold (matches hdr d). destruct (matches hdr d) eqn:Em.
    + exists (d_at d). split; [done|]. right. by exists [], d, rest.
    + rewrite (cons_middle d pre rest), app_assoc in L. destruct (IH n _ L) as (r & E & H); [cbn in Hn; lia|]. exists r. split; [done|].
      destruct H as [[-> H]|(p1 & x & p2 & -> & H)]; [left; split; [done|by constructor]|]. right. by exists (d :: p1), x, p2.
Qed.

Lemma find_prev_ok s d post : forall pre e n p0, listed s (p0 ++ pre ++ e :: d :: post) -> (length pre < n)%nat -> find_prev n (d_at d) (dfirst (pre ++ [e]) NULL) s = Val (d_at e, s).
Proof.
  induction pre as [|x pre IH]; intros e n p0 L Hn; (destruct n as [|n]; [cbn in Hn; lia|]); cbn [app dfirst find_prev].
  - pose proof (l_nonnull _ _ L) as [_ [Hz _]%Forall_cons]%Forall_app. rewrite (proj2 (Z.eqb_neq _ _) Hz).
    run (get_r_ok _ _ _ (listed_get _ _ _ _ L)). cbn [cell r_next dfirst]. by rewrite Z.eqb_refl.
  - cbn [app] in L. pose proof (l_nonnull _ _ L) as [_ [Hz _]%Forall_cons]%Forall_app. rewrite (proj2 (Z.eqb_neq _ _) Hz).
    run (get_r_ok _ _ _ (listed_get _ _ _ _ L)). cbn [cell r_next]. assert (dfirst (pre ++ e :: d :: post) NULL <> d_at d) as Hne.
    { pose proof (l_nodup _ _ L) as Hn'. rewrite fmap_app in Hn'. apply NoDup_app in Hn' as (_ & _ & Hn'). cbn [app] in Hn'. rewrite fmap_cons in Hn'. apply NoDup_cons in Hn' as [_ Hn'].
      destruct pre as [|y pre]; cbn [app dfirst]; cbn [app] in Hn'; rewrite fmap_cons in Hn'; apply NoDup_cons in Hn' as [Hy _]; intros E; apply Hy; rewrite E; [by left|].
      rewrite fmap_app. apply elem_of_app. right. right. by left. }
    rewrite (proj2 (Z.eqb_neq _ _) Hne). replace (dfirst (pre ++ e :: d :: post) NULL) with (dfirst (pre ++ [e]) NULL) by (by destruct pre).
    apply (IH e n (p0 ++ [x])); [by rewrite <- app_assoc|cbn in Hn; lia].
Qed.

Lemma prev_ok s pre d post : listed s (pre ++ d :: post) ->
  (if d_at d =? reassdatagrams s then sret NULL else find_prev (rfuel s) (d_at d) (reassdatagrams s)) s = Val (dlast pre, s).
Proof.
  intros L. rewrite (l_head _ _ L). pose proof (listed_fuel _ _ L) as Hf. destruct (last pre) as [e|] eqn:El; [|apply last_None in El; subst; cbn [app dfirst]; by rewrite Z.eqb_refl].
  apply last_Some in El as [l ->]. rewrite <- app_assoc in L. cbn [app] in L. rewrite dlast_snoc.
  assert (d_at d <> dfirst ((l ++ [e]) ++ d :: post) NULL) as Hne.
  { pose proof (l_nodup _ _ L) as Hn. destruct l as [|y l]; cbn [app dfirst]; cbn [app] in Hn; rewrite fmap_cons in Hn; apply NoDup_cons in Hn as [Hy _]; intros E; apply Hy; rewrite <- E; [by left|].
    rewrite fmap_app. apply elem_of_app. right. right. by left. }
  rewrite (proj2 (Z.eqb_neq _ _) Hne). replace (dfirst ((l ++ [e]) ++ d :: post) NULL) with (dfirst (l ++ [e]) NULL) by (by destruct l).
  apply (find_prev_ok s d post l e (rfuel s) []); [done|]. rewrite !length_app in Hf. cbn in Hf. lia.
Qed.
(** ** Changes of the heap *)

Definition without (ad : list Z) (F : Z -> option pbuf) : Z -> option pbuf := fun a => if decide (a ∈ ad) then None else F a.
(** The buffers [ad] as [h] has them. *)
Definition taking (ad : list Z) (h : pheap) (F : Z -> option pbuf) : Z -> option pbuf := fun a => if decide (a ∈ ad) then bufs h !! a else F a.

Lemma stored_frs F h h' ds : stored F h ds -> (forall a, a ∈ all_addrs ds -> bufs h' !! a = bufs h !! a) -> Forall (fun d => frs_rep h' (d_frs d) NULL) ds.
Proof.
  intros [Hf _ _ _] Hfr. rewrite Forall_forall in *. intros d Hd. eapply frs_frame; [by apply Hf|]. intros a Ha. apply Hfr. by eapply all_addrs_in.
Qed.

(** A packet outside was freed. *)
Lemma stored_free F h h' ds ad : stored F h ds -> (forall a, a ∈ ad -> a ∉ all_addrs ds) -> (forall a, a ∈ ad -> bufs h' !! a = None) ->
  (forall a, a ∉ ad -> bufs h' !! a = bufs h !! a) -> stored (without ad F) h' ds.
Proof.
  intros S Hd Hin Hout. constructor.
  - eapply stored_frs; [exact S|]. intros a Ha. apply Hout. intros Hb. by apply (Hd a).
  - apply S.
  - intros a Ha. unfold without. case_decide; [by apply Hin|]. rewrite Hout by done. by apply S.
  - intros a Ha. unfold without. case_decide; [done|]. by apply S.
Qed.

(** The buffers of a datagram left the list. *)
Lemma stored_out F h h' pre d post : stored F h (pre ++ d :: post) -> (forall a, a ∉ addrs (d_frs d) -> bufs h' !! a = bufs h !! a) ->
  stored (taking (addrs (d_frs d)) h' F) h' (pre ++ post).
Proof.
  intros S Hout. destruct (stored_split _ _ _ _ _ S) as (_ & _ & Hd). destruct S as [Hf Hn Hfr Ha]. apply Forall_app in Hf as [Hf1 Hf2]. apply Forall_cons in Hf2 as [_ Hf2].
  rewrite all_addrs_app, all_addrs_cons in *. constructor.
  - rewrite Forall_forall in *. intros e He. eapply frs_frame with (h := h); [apply elem_of_app in He as [He|He]; auto|].
    intros a Hae. apply Hout. apply Hd. rewrite <- all_addrs_app. by eapply all_addrs_in.
  - apply NoDup_app in Hn as (N1 & H1 & N2). apply NoDup_app in N2 as (_ & _ & N2). rewrite all_addrs_app. apply NoDup_app. split; [done|]. split; [|done].
    intros a H H'. apply (H1 a H), elem_of_app. by right.
  - intros a Hna. unfold taking. case_decide; [done|]. rewrite Hout by done. apply Hfr. rewrite all_addrs_app, !not_elem_of_app in *. tauto.
  - intros a Hin. unfold taking. rewrite decide_False by (apply Hd; by rewrite <- all_addrs_app). apply Ha. rewrite all_addrs_app, !elem_of_app in *. tauto.
Qed.

(** The packet [ad] joined the datagram. *)
Lemma stored_change F h h' pre d d' post ad : stored F h (pre ++ d :: post) -> addrs (d_frs d') ≡ₚ addrs (d_frs d) ++ ad -> NoDup ad ->
  (forall a, a ∈ ad -> a ∉ all_addrs (pre ++ d :: post)) -> frs_rep h' (d_frs d') NULL -> (forall a, a ∉ addrs (d_frs d') -> bufs h' !! a = bufs h !! a) ->
  stored (without ad F) h' (pre ++ d' :: post).
Proof.
  intros S Hp Hnd Hd Hfs Hout. destruct (stored_split _ _ _ _ _ S) as (_ & _ & Hrest). destruct S as [Hf Hn Hfr Ha].
  assert (all_addrs (pre ++ d' :: post) ≡ₚ all_addrs (pre ++ d :: post) ++ ad) as Hall.
  { rewrite !all_addrs_app, !all_addrs_cons, Hp, <- !app_assoc. by rewrite (Permutation_app_comm ad). }
  assert (forall a, a ∈ all_addrs (pre ++ post) -> a ∉ addrs (d_frs d')) as Hr.
  { intros a Hin. rewrite Hp. apply not_elem_of_app. split; [by apply Hrest|]. intros Hb. apply (Hd a Hb). rewrite all_addrs_app, all_addrs_cons, !elem_of_app in *. tauto. }
  constructor.
  - apply Forall_app in Hf as [Hf1 Hf2]. apply Forall_cons in Hf2 as [_ Hf2]. assert (Forall (fun e => frs_rep h' (d_frs e) NULL) (pre ++ post)) as Hall'.
    { rewrite Forall_forall in *. intros e He. eapply frs_frame with (h := h); [apply elem_of_app in He as [He|He]; auto|]. intros a Hae. apply Hout, Hr. by eapply all_addrs_in. }
    apply Forall_app in Hall' as [H1 H2]. apply Forall_app. split; [done|by constructor].
  - rewrite Hall. apply NoDup_app. split; [done|]. split; [|done]. intros a H1 H2. by apply (Hd a).
  - intros a Hin. rewrite Hall, not_elem_of_app in Hin. destruct Hin as [H1 H2]. unfold without. rewrite decide_False by done. rewrite Hout; [by apply Hfr|].
    rewrite Hp. apply not_elem_of_app. split; [|done]. intros Hb. apply H1. rewrite all_addrs_app, all_addrs_cons, !elem_of_app. tauto.
  - intros a Hin. unfold without. case_decide; [done|]. apply Ha. rewrite Hall, elem_of_app in Hin. tauto.
Qed.

Lemma insert_addrs f fs l : insert f fs = Some l -> addrs l ≡ₚ addrs fs ++ f_addrs f.
Proof.
  intros (r1 & r2 & -> & ->)%insert_split. rewrite !addrs_app, addrs_cons, <- app_assoc. by rewrite (Permutation_app_comm (addrs r2)).
Qed.

(** ** A new datagram *)

Section pool.
Context (cf : Z -> PM unit) (mm : frags -> Z).
Hypothesis pool : forall s, mm s = NULL \/ datagrams s !! mm s = None.

Definition new_dg (r : Z) (hdr : bytes) : dg := mkDg r hdr 0 0 IP_REASS_MAXAGE [].

Lemma new_listed s r hdr ds : listed s ds -> r <> NULL -> datagrams s !! r = None ->
  listed (relist (<[r := cell (reassdatagrams s) (new_dg r hdr)]> (datagrams s)) r s) (new_dg r hdr :: ds).
Proof.
  intros [Hc Hh Hd Hn Hz] Hr Hm. assert (r ∉ ats ds) as Hni.
  { clear -Hc Hm. induction ds as [|d ds IH]; [apply not_elem_of_nil|]. destruct Hc as [Hc Hcs]. rewrite fmap_cons. apply not_elem_of_cons. split; [congruence|auto]. }
  constructor; cbn [relist datagrams reassdatagrams].
  - split; [rewrite Hh; apply lookup_insert_eq|]. eapply cells_frame; [exact Hc|]. intros a Ha. apply lookup_insert_ne. by intros <-.
  - done.
  - intros a [Ha Ha']%not_elem_of_cons. rewrite lookup_insert_ne by done. by apply Hd.
  - by apply NoDup_cons.
  - by constructor.
Qed.

Lemma enqueue_ok F s ds hdr c : inv F s ds -> length hdr = 20%nat -> Forall (fun d => matches hdr d = false) ds ->
  exists r s' ds', ip_reass_enqueue_new_datagram cf mm hdr c s = Val (r, s') /\ evicted hdr ds ds' /\ Forall live ds' /\
    (mm s <> NULL -> r <> NULL /\ ds' = ds) /\ (r = NULL /\ winv F s' ds' \/ r <> NULL /\ winv F s' (new_dg r hdr :: ds')).
Proof.
  intros I Hh Hno. unfold ip_reass_enqueue_new_datagram. run (ask_ok mm s).
  assert (exists r s1 ds', (if mm s =? NULL then do! n := ip_reass_remove_oldest_datagram cf hdr c in (if n >=? c then ask mm else sret (mm s)) else sret (mm s)) s = Val (r, s1) /\
    evicted hdr ds ds' /\ inv F s1 ds' /\ (mm s <> NULL -> r <> NULL /\ ds' = ds) /\ (r = NULL \/ datagrams s1 !! r = None)) as (r & s1 & ds' & E & Ev & [W Hne] & Hkeep & Hr).
  { destruct (Z.eqb_spec (mm s) NULL) as [Em|Em].
    - destruct (remove_oldest_ok cf F hdr c ds s I) as (ds' & s1 & E & I' & Ev & _). rewrite (run_bind _ _ _ _ _ E).
      destruct (_ >=? c); [exists (mm s1), s1, ds'|exists (mm s), s1, ds']; (split; [done|]; split; [done|]; split; [done|]; split; [done|]); [apply pool|by left].
    - exists (mm s), s, ds. split; [done|]. split; [apply evicted_refl|]. split; [done|]. split; [done|apply pool]. }
  run E. destruct (Z.eqb_spec r NULL) as [Er|Er]; [exists NULL, s1, ds'; split; [done|]; split; [done|]; split; [done|]; split; [by intros [? ?]%Hkeep|by left]|].
  destruct Hr as [Hr|Hr]; [done|]. run (ask_ok reassdatagrams s1). unfold sbind. cbn [put_r set_head sret]. eexists r, _, ds'. split; [reflexivity|]. split; [done|]. split; [done|]. split; [done|]. right. split; [done|].
  destruct W as [L S C M H K]. pose proof (new_listed s1 r hdr ds' L Er Hr) as L'. constructor; [by destruct L'; constructor| |done|done|by constructor|].
  - destruct S as [S1 S2 S3 S4]. constructor; try done. by constructor.
  - rewrite fmap_cons. apply NoDup_cons. split; [|done]. intros (d & E' & Hd)%list_elem_of_fmap. rewrite Forall_forall in Hno.
    assert (d ∈ ds) as Hin by (eapply elem_of_submseteq; [exact Hd|]; apply sublist_submseteq, Ev). specialize (Hno d Hin). cbn in Hno. rewrite matches_key in Hno.
    apply bool_decide_eq_false in Hno. by apply Hno.
Qed.

End pool.
(** ** A complete datagram *)

Lemma last_end_cons f fs : last_end (f :: fs) = Some (default (f_end f) (last_end fs)).
Proof. unfold last_end. rewrite last_cons. by destruct (last fs). Qed.

Lemma linked_len fs : forall e, linked (Some e) fs = true -> e + zlen (carried fs) = default e (last_end fs).
Proof.
  induction fs as [|f fs IH]; intros e; cbn [linked meets]; [intros _; apply Z.add_0_r|].
  intros [He%Z.eqb_eq H]%andb_true_iff. rewrite carried_cons, zlen_app, last_end_cons, <- (IH _ H). unfold f_end. cbn [from_option]. unfold id. lia.
Qed.

(** What a complete sequence carries ends where its last fragment ends. *)
Lemma complete_len fs : complete fs = true -> last_end fs = Some (zlen (carried fs)).
Proof.
  destruct fs as [|f fs]; [done|]. cbn [complete linked meets andb]. intros [H0%Z.eqb_eq H]%andb_true_iff.
  rewrite carried_cons, zlen_app, last_end_cons, <- (linked_len _ _ H). unfold f_end. f_equal. lia.
Qed.

Lemma complete_fits fs : Forall fr_ok fs -> complete fs = true -> zlen (carried fs) <= 0xFFFF - IP_HLEN.
Proof.
  intros Hok H%complete_len. unfold last_end in H. destruct (last fs) as [g|] eqn:El; [|done]. cbn in H. injection H as <-. rewrite Forall_forall in Hok.
  apply Hok. apply last_Some in El as [l ->]. apply elem_of_app. right. by left.
Qed.

Lemma splice_length {A} off (w l : list A) : (off + length w <= length l)%nat -> length (splice off w l) = length l.
Proof. intros H. unfold splice. rewrite !length_app, length_take, length_drop. lia. Qed.

Lemma field_set_length off v (l : bytes) : (off <= 18)%nat -> length l = 20%nat -> length (splice off (le16 v) l) = 20%nat.
Proof. intros Ho Hl. rewrite splice_length; [done|]. unfold le16. cbn [length]. lia. Qed.

Lemma whole_header_length base p d : length (iphdr d) = 20%nat -> length (whole_header base p d) = 20%nat.
Proof. intros H. unfold whole_header, IPH_CHKSUM_SET, IPH_OFFSET_SET, IPH_LEN_SET. repeat (apply field_set_length; [lia|]). done. Qed.

(** The header in front of the first fragment again, the others behind it. *)
Lemma finish_chain_ok base s f fs d : frs_rep (heap s) (f :: fs) NULL -> NoDup (addrs (f :: fs)) -> complete (f :: fs) = true -> length (iphdr d) = 20%nat ->
  exists h1 h2, put_bytes (f_p f) 0 (whole_header base (f_p f) d) s = Val (tt, with_heap h1 s) /\
    chain_loop (fuel (with_heap h1 s)) (f_p f) (first_or fs NULL) (with_heap h1 s) = Val (tt, with_heap h2 s) /\
    opk h2 (addrs (f :: fs)) (whole_header base (f_p f) d ++ carried (f :: fs)) /\ forall a, a ∉ addrs (f :: fs) -> bufs h2 !! a = bufs (heap s) !! a.
Proof.
  intros Hfs Hnd Hc Hh. pose proof (complete_fits _ (frs_ok _ _ _ Hfs) Hc) as Hz. destruct Hfs as [Hf Hfs]. pose proof (fr_addrs _ _ _ Hf) as Ea.
  pose proof (whole_header_length base (f_p f) d Hh) as Hw. set (w := whole_header base (f_p f) d) in *.
  destruct (proj2 Hf) as (j & Lj & Ho). rewrite Ea in Ho. destruct (opk_write s _ _ _ 0 w Ho) as (h1 & E1 & Ho1 & Hfr1); [lia|unfold zlen, IP_HLEN; lia|].
  rewrite !app_assoc in Ho1. change (Z.to_nat 0) with 0%nat in Ho1. rewrite splice_first in Ho1 by (rewrite !length_app, !length_le_bytes, Lj; done).
  rewrite addrs_cons, Ea in Hnd. assert (forall a, a ∈ addrs fs -> bufs h1 !! a = bufs (heap s) !! a) as Hsame.
  { intros a Ha. apply Hfr1. intros ->. apply NoDup_app in Hnd as (_ & Hd & _). apply (Hd (f_p f)); [by left|done]. }
  assert (frs_rep h1 fs NULL) as Hfs1 by (by eapply frs_frame).
  rewrite carried_cons, zlen_app in Hz. destruct (chain_fragments_ok fs (fuel (with_heap h1 s)) (with_heap h1 s) (f_p f) (tl (f_addrs f)) (w ++ f_data f)) as (h2 & E2 & Ho2 & Hfr2); [done|done|done| | |].
  { apply (frs_fuel _ _ _ Hfs1). by apply NoDup_app in Hnd as (_ & _ & ?). }
  { rewrite zlen_app. unfold zlen at 1. unfold IP_HLEN in Hz. lia. }
  exists h1, h2. split; [done|]. split; [done|]. rewrite addrs_cons, carried_cons, Ea. rewrite <- app_assoc in Ho2. split; [done|].
  intros a Ha. rewrite Hfr2 by done. cbn. apply Hfr1. intros ->. apply Ha, elem_of_app. left. by left.
Qed.

Lemma finish_datagram_ok base F s pre d post : winv F s (pre ++ d :: post) -> complete (d_frs d) = true ->
  exists s', finish_datagram base (d_at d) s = Val (first_or (d_frs d) NULL, s') /\ winv (taking (addrs (d_frs d)) (heap s') F) s' (pre ++ post) /\
    opk (heap s') (addrs (d_frs d)) (whole_header base (first_or (d_frs d) NULL) (cell NULL d) ++ carried (d_frs d)).
Proof.
  intros [L S C M H K] Hc. destruct (stored_split _ _ _ _ _ S) as (Hfs & Hnd & _). apply Forall_drop in H as [H Hd]. unfold finish_datagram.
  run (get_r_ok _ _ _ (listed_get _ _ _ _ L)). cbn [cell r_p]. destruct (d_frs d) as [|f fs] eqn:Ef; [done|]. cbn [first_or]. pose proof Hfs as [Hf Hrest].
  assert (0 <= first_or fs NULL < 2 ^ 64) as Rn by (apply first_or_range; [by eapply frs_ok|done]). run (next_pbuf_ok _ _ _ Hf Rn).
  destruct (finish_chain_ok base s f fs (mkReass (dfirst post NULL) (f_p f) (d_hdr d) (d_len d) (d_flags d) (d_timer d)) Hfs Hnd Hc Hd) as (h1 & h2 & E1 & E2 & Ho & Hfr).
  run E1. run (ask_ok fuel (with_heap h1 s)). run E2. set (s2 := with_heap h2 s). assert (listed s2 (pre ++ d :: post)) as L2 by (by destruct L; constructor).
  run (ask_ok reassdatagrams s2). run (ask_ok rfuel s2). run (prev_ok s2 pre d post L2). destruct (dequeue_ok s2 pre d post L2) as (m & head & E3 & L3). run E3.
  assert (opk (heap (relist m head s2)) (f_p f :: tl (addrs (f :: fs))) (whole_header base (f_p f) (mkReass (dfirst post NULL) (f_p f) (d_hdr d) (d_len d) (d_flags d) (d_timer d)) ++ carried (f :: fs))) as Ho'.
  { cbn [relist heap s2 with_heap]. rewrite addrs_cons, (fr_addrs _ _ _ Hf) in Ho |- *. done. }
  assert (addrs (f :: fs) = f_p f :: tl (addrs (f :: fs))) as Eall by (rewrite addrs_cons, (fr_addrs _ _ _ Hf); done).
  pose proof (all_addrs_drop pre d post) as Hsum. rewrite Ef in Hsum. pose proof (zlen_nonneg (all_addrs (pre ++ post))) as Hz0. pose proof (zlen_nonneg (addrs (f :: fs))) as Hz1. unfold IP_REASS_MAX_PBUFS in M.
  run (opk_clen _ _ _ _ Ho' ltac:(rewrite <- Eall; lia)). rewrite <- Eall. run (ask_ok ip_reass_pbufcount (relist m head s2)). cbn [relist ip_reass_pbufcount s2 with_heap]. rewrite C.
  rewrite Z.geb_leb, (proj2 (Z.leb_le _ _)) by lia. cbn [ASSERT]. ret. unfold sbind. cbn [set_count sret]. eexists. split; [reflexivity|]. cbn [heap].
  rewrite u16_id by (unfold is_u16; lia). split; [|done]. constructor; cbn [ip_reass_pbufcount heap].
  - by destruct L3; constructor.
  - rewrite <- Ef. apply (stored_out F (heap s) h2 pre d post S). by rewrite Ef.
  - lia.
  - unfold IP_REASS_MAX_PBUFS. lia.
  - done.
  - by eapply keys_drop.
Qed.
(** ** A fragment arrives *)

(** [hdr] and [pl]: what the packet holds.  The header has no options and its length is that
    of the packet. *)
Record arrived (h : pheap) (ad : list Z) (hdr pl : bytes) : Prop := {
  ar_opk : opk h ad (hdr ++ pl);
  ar_hdr : length hdr = 20%nat;
  ar_hl : IPH_HL_BYTES hdr = IP_HLEN;
  ar_len : swap16 (IPH_LEN hdr) = IP_HLEN + zlen pl;
  ar_addr : 0 < hd NULL ad < 2 ^ 64 }.

Definition last_frag (hdr : bytes) : bool := Z.land (IPH_OFFSET hdr) (swap16 IP_MF) =? 0.
Definition fits (hdr pl : bytes) : bool := IPH_OFFSET_BYTES hdr + zlen pl <=? 0xFFFF - IP_HLEN.

Lemma arrived_cons h ad hdr pl : arrived h ad hdr pl -> ad = hd NULL ad :: tl ad.
Proof. by intros [(p & n & xs & -> & _) _ _ _ _]. Qed.

(** The datagram with the fragments [l] after this fragment. *)
Definition grown (d : dg) (hdr pl : bytes) (l : list fr) : dg :=
  mkDg (d_at d) (d_hdr d) (if last_frag hdr then IPH_OFFSET_BYTES hdr + zlen pl else d_len d)
    (if last_frag hdr then Z.lor (d_flags d) IP_REASS_FLAG_LASTFRAG else d_flags d) (d_timer d) l.

Lemma refuse_ok cf F h s ds ad x : winv F s ds -> opk h ad x -> (forall a, a ∉ ad -> bufs h !! a = bufs (heap s) !! a) -> (forall a, a ∈ ad -> a ∉ all_addrs ds) ->
  exists s', nullreturn cf (hd NULL ad) (with_heap h s) = Val (NULL, s') /\ winv (without ad F) s' ds.
Proof.
  intros [L S C M H K] Ho Hfr Hd. assert (ad = hd NULL ad :: tl ad) as Ea by (by destruct Ho as (p & n & xs & -> & _)). rewrite Ea in Ho.
  destruct (opk_free cf (with_heap h s) _ _ _ Ho) as (h' & E & Hin & Hout). rewrite <- Ea in Hin, Hout. unfold nullreturn. run E. eexists. split; [done|].
  constructor; try done; [by destruct L; constructor|]. cbn [heap with_heap]. apply (stored_free F (heap s)); [done|done|done|]. intros a Ha. rewrite Hout by done. by apply Hfr.
Qed.

(** What happens to a fragment for the datagram [d]. *)
Inductive verdict := Refused | Queued (l : list fr) | Whole (l : list fr).

Definition judge (ad : list Z) (hdr pl : bytes) (d : dg) : verdict :=
  if fits hdr pl then
    match insert (fragment ad hdr pl) (d_frs d) with
    | None => Refused
    | Some l => if seen_last (last_frag hdr) (cell NULL d) && complete l then Whole l else Queued l
    end
  else Refused.

(** The list afterwards; an entry without fragments goes. *)
Definition remains (v : verdict) (hdr pl : bytes) (pre : list dg) (d : dg) (post : list dg) : list dg :=
  match v with
  | Refused => match d_frs d with [] => pre ++ post | _ => pre ++ d :: post end
  | Queued l => pre ++ grown d hdr pl l :: post
  | Whole _ => pre ++ post
  end.

(** The buffers that no longer belong to the rest, or newly do. *)
Definition rest_of (v : verdict) (ad : list Z) (h : pheap) (F : Z -> option pbuf) : Z -> option pbuf :=
  match v with
  | Whole l => taking (addrs l) h (without ad F)
  | _ => without ad F
  end.

(** The result: [NULL], or the whole datagram with its header. *)
Definition returned (base : Z -> Z) (v : verdict) (hdr pl : bytes) (d : dg) (r : Z) (s' : frags) : Prop :=
  match v with
  | Whole l => r = first_or l NULL /\ opk (heap s') (addrs l) (whole_header base r (cell NULL (grown d hdr pl l)) ++ carried l)
  | _ => r = NULL
  end.

Section add.
Context (cf : Z -> PM unit) (base : Z -> Z) (F : Z -> option pbuf) (ad : list Z) (hdr pl : bytes).

Definition added (pre : list dg) (d : dg) (post : list dg) (r : Z) (s' : frags) : Prop :=
  winv (rest_of (judge ad hdr pl d) ad (heap s') F) s' (remains (judge ad hdr pl d) hdr pl pre d post) /\ returned base (judge ad hdr pl d) hdr pl d r s'.

Lemma too_long_ok s pre d post : winv F s (pre ++ d :: post) -> arrived (heap s) ad hdr pl -> (forall a, a ∈ ad -> a ∉ all_addrs (pre ++ d :: post)) ->
  (d_frs d = [] -> pre = []) ->
  exists s', nullreturn_ipr cf (d_at d) (hd NULL ad) s = Val (NULL, s') /\ winv (without ad F) s' (match d_frs d with [] => pre ++ post | _ => pre ++ d :: post end).
Proof.
  intros W A Hd He. pose proof W as [L S C M H K]. unfold nullreturn_ipr. run (get_r_ok _ _ _ (listed_get _ _ _ _ L)). cbn [cell r_p].
  destruct (stored_split _ _ _ _ _ S) as (Hfs & _ & _). destruct (d_frs d) as [|f fs] eqn:Ef; cbn [first_or].
  - rewrite (He eq_refl) in *. cbn [app] in *. change (NULL =? NULL) with true. cbn match. run (ask_ok reassdatagrams s). rewrite (l_head _ _ L). cbn [dfirst]. rewrite Z.eqb_refl. cbn [ASSERT]. ret.
    destruct (dequeue_ok s [] d post L) as (m & head & E & L'). run E. cbn [app] in L'. rewrite <- (with_heap_id (relist m head s)).
    apply (refuse_ok cf F (heap s) (relist m head s) post ad (hdr ++ pl)); [|apply A|done|].
    + assert (all_addrs (d :: post) = all_addrs post) as Eall by (rewrite all_addrs_cons, Ef; done). rewrite Eall in *. constructor; try done.
      * destruct S as [S1 S2 S3 S4]. rewrite Eall in *. constructor; try done. by apply Forall_cons in S1 as [_ S1].
      * by apply Forall_cons in H as [_ H].
      * rewrite fmap_cons in K. by apply NoDup_cons in K as [_ K].
    + intros a Ha Hb. apply (Hd a Ha). rewrite all_addrs_cons, Ef. done.
  - destruct Hfs as [Hf _]. rewrite (fr_nonnull f (proj1 Hf)). ret. rewrite <- (with_heap_id s). apply (refuse_ok cf F (heap s) s _ ad (hdr ++ pl)); [done|apply A|done|done].
Qed.

(** The entry and the counter after the fragment has been linked in. *)
Lemma linked_winv s pre d post l h' c : winv F s (pre ++ d :: post) -> arrived (heap s) ad hdr pl -> (forall a, a ∈ ad -> a ∉ all_addrs (pre ++ d :: post)) ->
  insert (fragment ad hdr pl) (d_frs d) = Some l -> frs_rep h' l NULL -> (forall a, a ∉ addrs l -> bufs h' !! a = bufs (heap s) !! a) ->
  c = zlen (all_addrs (pre ++ d :: post)) + zlen ad -> c <= IP_REASS_MAX_PBUFS -> forall m,
  m = <[d_at d := cell (dfirst post NULL) (grown d hdr pl l)]> (datagrams s) ->
  winv (without ad F) (mkFrags h' m (reassdatagrams s) c (exceeded s)) (pre ++ grown d hdr pl l :: post).
Proof.
  intros [L S C M H K] A Hd Hi Hl Hfr Ec Hmax m ->. pose proof (insert_addrs _ _ _ Hi) as Hp. cbn [fragment f_addrs] in Hp.
  assert (zlen (all_addrs (pre ++ grown d hdr pl l :: post)) = c) as Ez.
  { rewrite Ec, !all_addrs_drop. cbn [grown d_frs]. unfold zlen. rewrite (Permutation_length Hp), length_app. lia. }
  constructor; cbn [heap ip_reass_pbufcount]; [| |done|lia| |].
  - pose proof (listed_put s pre d (grown d hdr pl l) post L eq_refl) as L'. by destruct L'; constructor.
  - apply (stored_change F (heap s) h' pre d (grown d hdr pl l) post ad S); [done|eapply opk_nodup; apply A|done|done|done].
  - apply Forall_app in H as [H1 [H2 H3]%Forall_cons]. apply Forall_app. split; [done|]. by constructor.
  - rewrite fmap_app, fmap_cons in *. done.
Qed.

Lemma add_fragment_ok s pre d post : winv F s (pre ++ d :: post) -> arrived (heap s) ad hdr pl -> (last_frag hdr = true -> IPH_OFFSET_BYTES hdr <> 0) ->
  (fits hdr pl = true \/ last_frag hdr = true) -> (forall a, a ∈ ad -> a ∉ all_addrs (pre ++ d :: post)) ->
  zlen (all_addrs (pre ++ d :: post)) + zlen ad <= IP_REASS_MAX_PBUFS -> (d_frs d = [] -> pre = [] /\ Z.land (d_flags d) IP_REASS_FLAG_LASTFRAG = 0) ->
  exists r s', add_fragment cf base (d_at d) (hd NULL ad) hdr (zlen ad) s = Val (r, s') /\ added pre d post r s'.
Proof.
  intros W A Hlast Hfits Hd Hmax Hnew. pose proof W as [L S C M H K]. pose proof (zlen_nonneg pl) as Hpl. pose proof A as [Ho Lh Ehl Elen Ha].
  assert (0 <= IPH_OFFSET_BYTES hdr < 65536) as Hoff by (unfold IPH_OFFSET_BYTES; apply u16_range).
  assert (zlen pl <= 65515) as Hpl'. { pose proof (opk_len _ _ _ Ho) as Hz. rewrite zlen_app in Hz. assert (zlen hdr = 20) by (unfold zlen; lia). lia. }
  unfold add_fragment. fold (last_frag hdr). rewrite Ehl, Elen. replace (IP_HLEN + zlen pl - IP_HLEN) with (zlen pl) by lia. rewrite (u16_id (zlen pl)) by (unfold is_u16; lia).
  unfold added, judge. destruct (fits hdr pl) eqn:Ef.
  2:{ destruct Hfits as [?|El]; [done|]. rewrite El. cbn [andb]. unfold fits in Ef. apply Z.leb_gt in Ef. unfold IP_HLEN in Ef.
      assert ((u16 (IPH_OFFSET_BYTES hdr + zlen pl) <? IPH_OFFSET_BYTES hdr) || (u16 (IPH_OFFSET_BYTES hdr + zlen pl) >? 0xFFFF - IP_HLEN) = true) as ->.
      { apply orb_true_iff. rewrite Z.gtb_ltb, !Z.ltb_lt. destruct (Z_lt_le_dec (IPH_OFFSET_BYTES hdr + zlen pl) 65536).
        - right. rewrite u16_id by (unfold is_u16; lia). unfold IP_HLEN. lia.
        - left. unfold u16. pose proof (Z.mod_unique_pos (IPH_OFFSET_BYTES hdr + zlen pl) (2 ^ 16) 1 (IPH_OFFSET_BYTES hdr + zlen pl - 65536)). lia. }
      destruct (too_long_ok s pre d post W A Hd ltac:(intros E; by apply Hnew)) as (s' & E & W'). by exists NULL, s'. }
  apply Z.leb_le in Ef. rewrite (u16_id (IPH_OFFSET_BYTES hdr + zlen pl)) by (unfold is_u16, IP_HLEN in *; lia).
  rewrite (proj2 (Z.ltb_ge (IPH_OFFSET_BYTES hdr + zlen pl) _)) by lia. rewrite Z.gtb_ltb, (proj2 (Z.ltb_ge (0xFFFF - IP_HLEN) _)) by lia. rewrite andb_false_r.
  assert (incoming (heap s) ad hdr pl) as I by (by constructor). destruct (stored_split _ _ _ _ _ S) as (Hfs & Hndf & _).
  assert (entry s (d_at d) (d_frs d) (cell (dfirst post NULL) d)) as En.
  { constructor; [by eapply listed_get|done|done|]. intros Hfl E. by destruct (Hnew E) as [_ ?]. }
  assert (NoDup (addrs (d_frs d) ++ ad)) as Hnd.
  { apply NoDup_app. split; [done|]. split; [|by eapply opk_nodup]. intros a H1 H2. apply (Hd a H2). eapply all_addrs_in; [|exact H1]. apply elem_of_app. right. by left. }
  pose proof (validate_ok s (d_at d) ad hdr pl (d_frs d) _ (last_frag hdr) I En Hnd Hlast) as Hv. cbn zeta in Hv. change (f_p (fragment ad hdr pl)) with (hd NULL ad) in Hv.
  destruct (insert (fragment ad hdr pl) (d_frs d)) as [l|] eqn:Ei.
  2:{ destruct Hv as (h' & nx & E & Hf & Hfr). run E. change (IP_REASS_VALIDATE_PBUF_DROPPED =? IP_REASS_VALIDATE_PBUF_DROPPED) with true. cbn match.
      unfold nullreturn_ipr. run (get_r_ok (d_at d) _ (with_heap h' s) (listed_get _ _ _ _ L)). cbn [cell r_p]. destruct (d_frs d) as [|f fs] eqn:Efr; [done|]. cbn [first_or].
      destruct Hfs as [Hff _]. rewrite (fr_nonnull f (proj1 Hff)). ret. destruct (proj2 Hf) as (j & _ & Hof).
      destruct (refuse_ok cf F h' s _ ad _ W Hof Hfr Hd) as (s' & E' & W'). exists NULL, s'. unfold remains. by rewrite Efr. }
  destruct Hv as (h' & E & Hl & Hfr). run E.
  assert (forall b : bool, ((if b then IP_REASS_VALIDATE_TELEGRAM_FINISHED else IP_REASS_VALIDATE_PBUF_QUEUED) =? IP_REASS_VALIDATE_PBUF_DROPPED) = false) as Hv1 by (by intros []).
  assert (forall b : bool, ((if b then IP_REASS_VALIDATE_TELEGRAM_FINISHED else IP_REASS_VALIDATE_PBUF_QUEUED) =? IP_REASS_VALIDATE_TELEGRAM_FINISHED) = b) as Hv2 by (by intros []).
  rewrite Hv1, Hv2. set (s1 := with_heap h' _). run (ask_ok ip_reass_pbufcount s1). cbn [ip_reass_pbufcount s1 with_heap set_dg]. rewrite C.
  pose proof (zlen_nonneg (all_addrs (pre ++ d :: post))) as Hz0. pose proof (zlen_nonneg ad) as Hz1. unfold IP_REASS_MAX_PBUFS in Hmax. rewrite u16_id by (unfold is_u16; lia).
  pose proof (linked_winv s pre d post l h' _ W A Hd Ei Hl Hfr eq_refl Hmax) as Hw.
  set (s2 := mkFrags h' (datagrams s1) (reassdatagrams s) (zlen (all_addrs (pre ++ d :: post)) + zlen ad) (exceeded s)).
  assert (set_count (zlen (all_addrs (pre ++ d :: post)) + zlen ad) s1 = Val (tt, s2)) as E2 by done. run E2.
  assert (exists m, (if last_frag hdr then do! e := get_r (d_at d) in put_r (d_at d) (set_last (IPH_OFFSET_BYTES hdr + zlen pl) e) else sret tt) s2 =
     Val (tt, mkFrags h' m (reassdatagrams s) (zlen (all_addrs (pre ++ d :: post)) + zlen ad) (exceeded s)) /\ m = <[d_at d := cell (dfirst post NULL) (grown d hdr pl l)]> (datagrams s)) as (m & E3 & Em).
  { unfold grown. destruct (last_frag hdr).
    - erewrite run_bind; [|apply get_r_ok; cbn; apply lookup_insert_eq]. eexists. split; [reflexivity|]. cbn. by rewrite insert_insert_eq.
    - eexists. split; [reflexivity|]. done. }
  run E3. specialize (Hw m Em). unfold seen_last in *. cbn [cell r_flags] in *. destruct (_ && complete l) eqn:Efin; [|by eexists NULL, _].
  apply andb_true_iff in Efin as [_ Hc]. destruct (finish_datagram_ok base _ _ pre (grown d hdr pl l) post Hw Hc) as (s' & E4 & W' & Ho'). cbn [d_at grown d_frs] in E4. by eexists _, s'.
Qed.

End add.
(** ** [ip4_reass] *)

(** The first fragment brings the header that the datagram will have. *)
Definition first_frag (hdr : bytes) : bool := Z.land (swap16 (IPH_OFFSET hdr)) IP_OFFMASK =? 0.
Definition rehead (hdr : bytes) (d : dg) : dg :=
  if first_frag hdr && negb (first_frag (d_hdr d)) then mkDg (d_at d) hdr (d_len d) (d_flags d) (d_timer d) (d_frs d) else d.

(** The entry [d] for a fragment with the header [hdr]: found between [pre] and [post], or new. *)
Definition entry_of (hdr : bytes) (ds pre : list dg) (d : dg) (post : list dg) : Prop :=
  (exists d0, ds = pre ++ d0 :: post /\ matches hdr d0 = true /\ d = rehead hdr d0) \/
  (exists r, pre = [] /\ post = ds /\ d = new_dg r hdr /\ Forall (fun e => matches hdr e = false) ds).

(** Enough room for a packet with buffers [ad]. *)
Definition room (mm : frags -> Z) (s : frags) (ad : list Z) (hdr : bytes) (ds : list dg) : Prop :=
  zlen (all_addrs ds) + zlen ad <= IP_REASS_MAX_PBUFS /\ (mm s <> NULL \/ Exists (fun d => matches hdr d = true) ds).

Lemma rehead_frs hdr d : d_frs (rehead hdr d) = d_frs d.
Proof. unfold rehead. by destruct (_ && _). Qed.

Lemma rehead_timer hdr d : d_timer (rehead hdr d) = d_timer d.
Proof. unfold rehead. by destruct (_ && _). Qed.

Lemma rehead_at hdr d : d_at (rehead hdr d) = d_at d.
Proof. unfold rehead. by destruct (_ && _). Qed.

Lemma rehead_all hdr pre d post : all_addrs (pre ++ rehead hdr d :: post) = all_addrs (pre ++ d :: post).
Proof. by rewrite !all_addrs_app, !all_addrs_cons, rehead_frs. Qed.

Lemma rehead_winv F s hdr pre d post : winv F s (pre ++ d :: post) -> length hdr = 20%nat -> matches hdr d = true ->
  exists s', (if first_frag hdr && negb (first_frag (d_hdr d)) then put_r (d_at d) (set_iphdr hdr (cell (dfirst post NULL) d)) else sret tt) s = Val (tt, s') /\
    winv F s' (pre ++ rehead hdr d :: post) /\ heap s' = heap s.
Proof.
  intros W Hh Hm. unfold rehead. destruct (_ && _); [|by exists s]. eexists. split; [reflexivity|]. split; [|done]. destruct W as [L S C M H K].
  set (d' := mkDg _ hdr _ _ _ _). assert (all_addrs (pre ++ d' :: post) = all_addrs (pre ++ d :: post)) as Eall by (by rewrite !all_addrs_app, !all_addrs_cons).
  constructor; rewrite ?Eall; try done.
  - pose proof (listed_put s pre d d' post L eq_refl) as L'. by destruct L'; constructor.
  - destruct S as [S1 S2 S3 S4]. constructor; rewrite ?Eall; try done. apply Forall_app in S1 as [S1 [S0 S1']%Forall_cons]. apply Forall_app. split; [done|]. by constructor.
  - apply Forall_app in H as [H1 [H0 H1']%Forall_cons]. apply Forall_app. split; [done|]. by constructor.
  - rewrite fmap_app, fmap_cons in *. cbn [d' d_hdr]. rewrite matches_key in Hm. apply bool_decide_eq_true in Hm. by rewrite <- Hm.
Qed.

Lemma arrived_frame h h' ad hdr pl : arrived h ad hdr pl -> (forall a, a ∈ ad -> bufs h' !! a = bufs h !! a) -> arrived h' ad hdr pl.
Proof. intros [Ho H1 H2 H3 H4] Hf. constructor; try done. by eapply opk_frame. Qed.

(** The heap keeps the packet through everything that leaves [F] as it is. *)
Lemma arrived_kept F s s' ds ds' ad hdr pl : winv F s ds -> winv F s' ds' -> sublist (all_addrs ds') (all_addrs ds) \/ all_addrs ds' = all_addrs ds ->
  (forall a, a ∈ ad -> a ∉ all_addrs ds) -> arrived (heap s) ad hdr pl -> arrived (heap s') ad hdr pl /\ forall a, a ∈ ad -> a ∉ all_addrs ds'.
Proof.
  intros W W' Hsub Hd A. assert (forall a, a ∈ ad -> a ∉ all_addrs ds') as Hd'.
  { intros a Ha Hb. apply (Hd a Ha). destruct Hsub as [Hs|<-]; [|done]. eapply elem_of_submseteq; [exact Hb|]. by apply sublist_submseteq. }
  split; [|done]. eapply arrived_frame; [exact A|]. intros a Ha. destruct W as [_ [_ _ F1 _] _ _ _ _], W' as [_ [_ _ F2 _] _ _ _ _]. by rewrite F1, F2 by auto.
Qed.

Lemma sublist_all ds ds' : sublist ds' ds -> sublist (all_addrs ds') (all_addrs ds).
Proof.
  induction 1 as [|d l1 l2 _ IH|d l1 l2 _ IH]; [done| |]; rewrite ?all_addrs_cons.
  - by apply sublist_app.
  - by apply sublist_inserts_l.
Qed.

Lemma remains_full v hdr pl pre d post : Forall live (pre ++ post) -> 0 <= d_timer d <= IP_REASS_MAXAGE -> match v with Queued l => l <> [] | _ => True end ->
  Forall live (remains v hdr pl pre d post).
Proof.
  intros H Ht Hv. pose proof H as [H1 H2]%Forall_app. destruct v as [|l|l]; cbn [remains]; [|apply Forall_app; split; [done|by constructor]|done].
  destruct (d_frs d) as [|f fs] eqn:E; [done|]. apply Forall_app. split; [done|]. constructor; [by split; [rewrite E|]|done].
Qed.

Lemma judge_full ad hdr pl d : match judge ad hdr pl d with Queued l => l <> [] | _ => True end.
Proof.
  unfold judge. destruct (fits hdr pl); [|done]. destruct (insert _ _) as [l|] eqn:E; [|done]. destruct (_ && _); [done|].
  apply insert_split in E as (r1 & r2 & _ & ->). by destruct r1.
Qed.
#[export] Instance fr_eq_dec : EqDecision fr.
Proof. solve_decision. Defined.
#[export] Instance dg_eq_dec : EqDecision dg.
Proof. solve_decision. Defined.

Lemma evicted_trans hdr ds1 ds2 ds3 : evicted hdr ds1 ds2 -> evicted hdr ds2 ds3 -> evicted hdr ds1 ds3.
Proof.
  intros [S1 K1 O1] [S2 K2 O2]. constructor.
  - by etrans.
  - intros d Hd Hm. by apply K2; [apply K1|].
  - intros d e Hd Hnd He Hm. assert (e ∈ ds2) as He2 by (eapply elem_of_submseteq; [exact He|by apply sublist_submseteq]).
    destruct (decide (d ∈ ds2)); [by apply O2|by apply O1].
Qed.

Section reass.
Context (cf : Z -> PM unit) (mm : frags -> Z) (base : Z -> Z) (F : Z -> option pbuf) (ad : list Z) (hdr pl : bytes).
Hypothesis pool : forall s, mm s = NULL \/ datagrams s !! mm s = None.

(** The buffers that wait are at most four with the packet, or the packet is refused. *)
Definition make_room (c : Z) : RM bool :=
  do! count := ask ip_reass_pbufcount in
  if count + c >? IP_REASS_MAX_PBUFS then
    do! n := ip_reass_remove_oldest_datagram cf hdr c in
    do! count := ask ip_reass_pbufcount in
    sret ((n =? 0) || (count + c >? IP_REASS_MAX_PBUFS))
  else sret false.

Lemma make_room_ok s ds c : inv F s ds -> exists full s1 ds1, make_room c s = Val (full, s1) /\ inv F s1 ds1 /\ evicted hdr ds ds1 /\
  (full = false -> zlen (all_addrs ds1) + c <= IP_REASS_MAX_PBUFS) /\ (zlen (all_addrs ds) + c <= IP_REASS_MAX_PBUFS -> full = false /\ ds1 = ds /\ s1 = s).
Proof.
  intros I. unfold make_room. run (ask_ok ip_reass_pbufcount s). pose proof I as [[_ _ C _ _ _] _]. rewrite C, Z.gtb_ltb.
  destruct (Z.ltb_spec IP_REASS_MAX_PBUFS (zlen (all_addrs ds) + c)) as [Hlt|Hge].
  - destruct (remove_oldest_ok cf F hdr c ds s I) as (ds1 & s1 & E & I1 & Ev & _). run E. run (ask_ok ip_reass_pbufcount s1). pose proof I1 as [[_ _ C1 _ _ _] _]. rewrite C1.
    eexists _, s1, ds1. split; [reflexivity|]. split; [done|]. split; [done|]. split; [|lia]. intros [_ H]%orb_false_iff. rewrite Z.gtb_ltb in H. by apply Z.ltb_ge in H.
  - exists false, s, ds. split; [done|]. split; [done|]. split; [apply evicted_refl|done].
Qed.

(** From an entry that was found or made to the end. *)
Lemma join_ok s pre d post : winv F s (pre ++ d :: post) -> Forall live (pre ++ post) -> 0 <= d_timer d <= IP_REASS_MAXAGE -> arrived (heap s) ad hdr pl ->
  (last_frag hdr = true -> IPH_OFFSET_BYTES hdr <> 0) -> (fits hdr pl = true \/ last_frag hdr = true) -> (forall a, a ∈ ad -> a ∉ all_addrs (pre ++ d :: post)) ->
  zlen (all_addrs (pre ++ d :: post)) + zlen ad <= IP_REASS_MAX_PBUFS -> (d_frs d = [] -> pre = [] /\ Z.land (d_flags d) IP_REASS_FLAG_LASTFRAG = 0) ->
  exists r s', add_fragment cf base (d_at d) (hd NULL ad) hdr (zlen ad) s = Val (r, s') /\
    inv (rest_of (judge ad hdr pl d) ad (heap s') F) s' (remains (judge ad hdr pl d) hdr pl pre d post) /\ returned base (judge ad hdr pl d) hdr pl d r s'.
Proof.
  intros W Hne Ht A Hlast Hfits Hd Hmax Hnew. destruct (add_fragment_ok cf base F ad hdr pl s pre d post W A Hlast Hfits Hd Hmax Hnew) as (r & s' & E & W' & R).
  exists r, s'. split; [done|]. split; [|done]. split; [done|]. apply remains_full; [done|done|apply judge_full].
Qed.

Lemma ip4_reass_ok s ds : inv F s ds -> arrived (heap s) ad hdr pl -> (forall a, a ∈ ad -> a ∉ all_addrs ds) -> zlen ad <= 0xFFFF ->
  (last_frag hdr = true -> IPH_OFFSET_BYTES hdr <> 0) -> (fits hdr pl = true \/ last_frag hdr = true) ->
  exists r s' ds1, ip4_reass cf mm base (hd NULL ad) s = Val (r, s') /\ evicted hdr ds ds1 /\ (room mm s ad hdr ds -> ds1 = ds) /\
    ((r = NULL /\ inv (without ad F) s' ds1 /\ ~ room mm s ad hdr ds) \/
     exists pre d post, entry_of hdr ds1 pre d post /\ zlen (all_addrs ds1) + zlen ad <= IP_REASS_MAX_PBUFS /\
       inv (rest_of (judge ad hdr pl d) ad (heap s') F) s' (remains (judge ad hdr pl d) hdr pl pre d post) /\ returned base (judge ad hdr pl d) hdr pl d r s').
Proof.
  intros I A Hd Hz Hlast Hfits. pose proof A as [Ho Lh Ehl Elen Ha]. pose proof (arrived_cons _ _ _ _ A) as Ea. rewrite Ea in Ho. unfold ip4_reass.
  run (opk_read s _ _ _ 0 IP_HLEN Ho ltac:(done) ltac:(done) ltac:(done)). change (slice (Z.to_nat 0) (Z.to_nat IP_HLEN) (hdr ++ pl)) with (slice 0 20 (hdr ++ pl)). rewrite slice_first by done.
  rewrite Ehl, Elen, Z.eqb_refl. cbn [negb]. pose proof (zlen_nonneg pl) as Hpl. rewrite Z.gtb_ltb, (proj2 (Z.ltb_ge _ _)) by lia.
  run (opk_clen _ _ _ _ Ho ltac:(rewrite <- Ea; lia)). rewrite <- Ea.
  destruct (make_room_ok s ds (zlen ad) I) as (full & s1 & ds1 & E1 & I1 & Ev1 & Hroom & Hsame). unfold make_room in E1. rewrite <- run_assoc. rewrite (run_bind _ _ _ _ _ E1). cbn beta iota.
  destruct (arrived_kept F s s1 ds ds1 ad hdr pl (proj1 I) (proj1 I1) (or_introl (sublist_all _ _ (ev_sub _ _ _ Ev1))) Hd A) as [A1 Hd1].
  destruct full.
  { destruct (refuse_ok cf F (heap s1) s1 ds1 ad (hdr ++ pl) (proj1 I1) (ar_opk _ _ _ _ A1) ltac:(done) Hd1) as (s' & E' & W'). rewrite with_heap_id in E'.
    exists NULL, s', ds1. split; [done|]. split; [done|]. split; [intros [Hr _]; by apply Hsame in Hr as [? _]|]. left. split; [done|]. split; [by split; [|apply I1]|]. intros [Hr _]. by apply Hsame in Hr as [? _]. }
  specialize (Hroom eq_refl). run (ask_ok rfuel s1). run (ask_ok reassdatagrams s1). pose proof I1 as [[L1 _ _ _ _ _] Hne1]. rewrite (l_head _ _ L1).
  destruct (find_datagram_ok hdr s1 ds1 (rfuel s1) [] L1 (listed_fuel _ _ L1)) as (ipr & E2 & Hfound). run E2.
  destruct Hfound as [[-> Hno]|(pre & d & post & -> & -> & Hn & Hm)].
  - change (NULL =? NULL) with true. cbn match. destruct (enqueue_ok cf mm pool F s1 ds1 hdr (zlen ad) I1 Lh Hno) as (r & s2 & ds2 & E3 & Ev2 & Hne2 & Hkeep & Hr). run E3.
    assert (Forall (fun e => matches hdr e = false) ds2) as Hno2.
    { rewrite Forall_forall in *. intros e He. apply Hno. eapply elem_of_submseteq; [exact He|apply sublist_submseteq, Ev2]. }
    assert (room mm s ad hdr ds -> mm s1 <> NULL /\ ds2 = ds) as Hmm.
    { intros [Hr1 Hr2]. apply Hsame in Hr1 as (_ & -> & ->). destruct Hr2 as [Hr2|Hr2]; [by apply Hkeep in Hr2 as Hk; destruct Hk as [_ ->]|]. exfalso.
      apply Exists_exists in Hr2 as (e & He & Hme). rewrite Forall_forall in Hno. specialize (Hno e He). cbn in Hno. congruence. }
    destruct Hr as [[-> W2]|[Hr W2]].
    + change (NULL =? NULL) with true. cbn match. destruct (arrived_kept F s1 s2 ds1 ds2 ad hdr pl (proj1 I1) W2 (or_introl (sublist_all _ _ (ev_sub _ _ _ Ev2))) Hd1 A1) as [A2 Hd2].
      destruct (refuse_ok cf F (heap s2) s2 ds2 ad (hdr ++ pl) W2 (ar_opk _ _ _ _ A2) ltac:(done) Hd2) as (s' & E' & W'). rewrite with_heap_id in E'.
      exists NULL, s', ds2. split; [done|]. split; [by eapply evicted_trans|]. split; [intros H; by apply Hmm in H as [_ ?]|]. left. split; [done|]. split; [done|].
      intros H. apply Hmm in H as [H _]. by apply Hkeep in H as [? _].
    + rewrite (proj2 (Z.eqb_neq _ _) Hr). destruct (arrived_kept F s1 s2 ds1 (new_dg r hdr :: ds2) ad hdr pl (proj1 I1) W2 (or_introl (sublist_all _ _ (ev_sub _ _ _ Ev2))) Hd1 A1) as [A2 Hd2].
      assert (zlen (all_addrs ds2) <= zlen (all_addrs ds1)) as Hle by (unfold zlen; pose proof (sublist_length _ _ (sublist_all _ _ (ev_sub _ _ _ Ev2))); lia).
      destruct (join_ok s2 [] (new_dg r hdr) ds2 W2 Hne2 ltac:(done) A2 Hlast Hfits Hd2) as (r' & s' & E' & W' & R'); [change (all_addrs ([] ++ new_dg r hdr :: ds2)) with (all_addrs ds2); lia|done|].
      exists r', s', ds2. split; [done|]. split; [by eapply evicted_trans|]. split; [intros H; by apply Hmm in H as [_ ?]|]. right. exists [], (new_dg r hdr), ds2.
      split; [right; by exists r|]. split; [lia|]. done.
  - rewrite (proj2 (Z.eqb_neq _ _) Hn). run (get_r_ok _ _ _ (listed_get _ _ _ _ L1)). destruct (rehead_winv F s1 hdr pre d post (proj1 I1) Lh Hm) as (s2 & E3 & W2 & Eh).
    unfold first_frag in E3. cbn [cell iphdr]. run E3. pose proof (rehead_all hdr pre d post) as Eall.
    destruct (arrived_kept F s1 s2 _ _ ad hdr pl (proj1 I1) W2 (or_intror Eall) Hd1 A1) as [A2 Hd2]. apply Forall_drop in Hne1 as [Hne1 [Hned Htd]]. rewrite <- (rehead_timer hdr d) in Htd.
    destruct (join_ok s2 pre (rehead hdr d) post W2 Hne1 Htd A2 Hlast Hfits Hd2) as (r' & s' & E' & W' & R'); [by rewrite Eall|by rewrite rehead_frs|].
    rewrite rehead_at in E'. exists r', s', (pre ++ d :: post). split; [done|]. split; [done|]. split; [intros [Hr _]; by apply Hsame in Hr as (_ & ? & _)|].
    right. exists pre, (rehead hdr d), post. split; [left; by exists d|]. done.
Qed.

End reass.
(** ** The timer *)

Definition aged (d : dg) : option dg :=
  if d_timer d >? 0 then Some (mkDg (d_at d) (d_hdr d) (d_len d) (d_flags d) (d_timer d - 1) (d_frs d)) else None.

Lemma age_inv F s pre d post : inv F s (pre ++ d :: post) -> forall d', aged d = Some d' ->
  exists s', put_r (d_at d) (set_timer (d_timer d - 1) (cell (dfirst post NULL) d)) s = Val (tt, s') /\ inv F s' (pre ++ d' :: post) /\ d_at d' = d_at d.
Proof.
  intros [[L S C M H K] Hne] d' Hd. unfold aged in Hd. destruct (d_timer d >? 0) eqn:Et; [|done]. rewrite Z.gtb_lt in Et. injection Hd as <-. set (d' := mkDg _ _ _ _ _ _). eexists. split; [reflexivity|]. split; [|done].
  assert (all_addrs (pre ++ d' :: post) = all_addrs (pre ++ d :: post)) as Eall by (by rewrite !all_addrs_app, !all_addrs_cons).
  apply Forall_app in Hne as [N1 [[N0 Nt] N2]%Forall_cons]. split; [|apply Forall_app; split; [done|]; constructor; [split; [done|cbn; lia]|done]]. constructor; rewrite ?Eall; try done.
  - pose proof (listed_put s pre d d' post L eq_refl) as L'. by destruct L'; constructor.
  - destruct S as [S1 S2 S3 S4]. constructor; rewrite ?Eall; try done. apply Forall_app in S1 as [S1 [S0 S1']%Forall_cons]. apply Forall_app. split; [done|]. by constructor.
  - apply Forall_app in H as [H1 [H0 H1']%Forall_cons]. apply Forall_app. split; [done|]. by constructor.
  - rewrite fmap_app, fmap_cons in *. done.
Qed.

Lemma tmr_loop_ok cf F rest : forall n pre s, inv F s (pre ++ rest) -> (length rest < n)%nat ->
  exists s', tmr_loop cf n (dfirst rest NULL) (dlast pre) s = Val (tt, s') /\ inv F s' (pre ++ omap aged rest).
Proof.
  induction rest as [|d rest IH]; intros n pre s I Hn; [exists s; split; [by destruct n|done]|].
  destruct n as [|n]; [cbn in Hn; lia|]. cbn [dfirst tmr_loop]. pose proof I as [[L _ _ _ _ _] _]. pose proof (l_nonnull _ _ L) as [_ [Hz _]%Forall_cons]%Forall_app.
  rewrite (proj2 (Z.eqb_neq _ _) Hz). run (get_r_ok _ _ _ (listed_get _ _ _ _ L)). cbn [cell timer r_next]. destruct (d_timer d >? 0) eqn:Et.
  - assert (aged d = Some (mkDg (d_at d) (d_hdr d) (d_len d) (d_flags d) (d_timer d - 1) (d_frs d))) as Ea by (unfold aged; by rewrite Et).
    destruct (age_inv F s pre d rest I _ Ea) as (s1 & E1 & I1 & _). run E1. rewrite (cons_middle _ pre rest), app_assoc in I1.
    destruct (IH n _ s1 I1 ltac:(cbn in Hn; lia)) as (s' & E' & I'). rewrite dlast_snoc in E'. cbn [d_at] in E'. exists s'. split; [done|].
    rewrite <- app_assoc in I'. cbn [omap list_omap]. by rewrite Ea.
  - assert (aged d = None) as Ea by (unfold aged; by rewrite Et). destruct (free_datagram_ok cf F s pre d rest I) as (s1 & E1 & I1). run E1.
    destruct (IH n pre s1 I1 ltac:(cbn in Hn; lia)) as (s' & E' & I'). exists s'. split; [done|]. cbn [omap list_omap]. by rewrite Ea.
Qed.

Lemma tmr_ok cf F s ds : inv F s ds -> exists s', ip_reass_tmr cf s = Val (tt, s') /\ inv F s' (omap aged ds).
Proof.
  intros I. pose proof I as [[L _ _ _ _ _] _]. unfold ip_reass_tmr. run (ask_ok rfuel s). run (ask_ok reassdatagrams s). rewrite (l_head _ _ L).
  apply (tmr_loop_ok cf F ds (rfuel s) [] s I). by apply listed_fuel.
Qed.

Lemma inv_empty F s : inv F s [] -> forall a, bufs (heap s) !! a = F a.
Proof. intros [[_ [_ _ Hf _] _ _ _ _] _] a. apply Hf. apply not_elem_of_nil. Qed.

Fixpoint ticks (cf : Z -> PM unit) (n : nat) : RM unit :=
  match n with
  | O => sret tt
  | S n => ip_reass_tmr cf ;;; ticks cf n
  end.

Lemma aged_timer d d' : aged d = Some d' -> d_timer d' = d_timer d - 1.
Proof. unfold aged. destruct (_ >? _); [|done]. by intros [= <-]. Qed.

Lemma ticks_ok cf F n : forall s ds, inv F s ds -> Forall (fun d => d_timer d < Z.of_nat n) ds -> exists s', ticks cf n s = Val (tt, s') /\ inv F s' [].
Proof.
  induction n as [|n IH]; intros s ds I Ht.
  - exists s. split; [done|]. destruct ds as [|d ds]; [done|]. apply Forall_cons in Ht as [Ht _]. pose proof I as [_ [[_ Hl] _]%Forall_cons]. lia.
  - cbn [ticks]. destruct (tmr_ok cf F s ds I) as (s1 & E & I1). run E. apply (IH s1 _ I1). rewrite Forall_forall in *. intros d' (d & Hd & Ed)%list_elem_of_omap.
    rewrite (aged_timer _ _ Ed). specialize (Ht d Hd). lia.
Qed.

End IP4Reass.
