(* ===== verification/IP4RoundTrip.v ===== *)
(** * Reassembly: theorems

    What [ip4_reass] and [ip_reass_tmr] guarantee, and the round trip: the pieces of a datagram
    give the datagram again, whatever order they arrive in. *)

From Stdlib Require Import ZArith Lia Sorted.
From stdpp Require Import base list gmap numbers.
From S2P Require Import Prelude CBytes Pbuf PbufRep InetChksum IP4Frag IP4ReassRep IP4Reass.
Import list_basics.list list_relations.list list_monad.list list_misc.list.
Import Pbuf PbufRep IP4Frag IP4ReassRep IP4Reass.

Module IP4RoundTrip.

(** ** Pieces of a datagram *)

Record piece := mkPiece { k_addrs : list Z; k_hdr : bytes; k_data : bytes }.

#[export] Instance piece_eq_dec : EqDecision piece.
Proof. solve_decision. Defined.

Definition frag (k : piece) : fr := fragment (k_addrs k) (k_hdr k) (k_data k).

Definition buffers (ks : list piece) : list Z := ks ≫= k_addrs.
Definition payload_of (ks : list piece) : bytes := ks ≫= k_data.

(** [ps] are, in order, all the pieces of one datagram. *)
Record cut (ps : list piece) : Prop := {
  c_complete : complete (frag <$> ps) = true;
  c_data : Forall (fun k => k_data k <> []) ps;
  c_last : forall p1 k p2, ps = p1 ++ k :: p2 -> (last_frag (k_hdr k) = true <-> p2 = []);
  c_key : forall k k', k ∈ ps -> k' ∈ ps -> key (k_hdr k) = key (k_hdr k');
  c_fits : Forall (fun k => fits (k_hdr k) (k_data k) = true) ps;
  c_two : (1 < length ps)%nat;
  c_nodup : NoDup (buffers ps);
  c_max : zlen (buffers ps) <= IP_REASS_MAX_PBUFS }.

Lemma carried_pieces ks : carried (frag <$> ks) = payload_of ks.
Proof. induction ks as [|k ks IH]; [done|]. rewrite fmap_cons, carried_cons, IH. done. Qed.

Lemma addrs_pieces ks : addrs (frag <$> ks) = buffers ks.
Proof. induction ks as [|k ks IH]; [done|]. rewrite fmap_cons, addrs_cons, IH. done. Qed.

Lemma buffers_app ks js : buffers (ks ++ js) = buffers ks ++ buffers js.
Proof. apply bind_app. Qed.

Lemma buffers_cons k ks : buffers (k :: ks) = k_addrs k ++ buffers ks.
Proof. done. Qed.

Lemma payload_app ks js : payload_of (ks ++ js) = payload_of ks ++ payload_of js.
Proof. apply bind_app. Qed.

(** Before one another. *)
Definition before (f g : fr) : Prop := f_end f <= f_start g /\ f_start f < f_start g.

Lemma insert_between f l2 : Forall (before f) l2 -> forall l1, Forall (fun g => before g f) l1 -> insert f (l1 ++ l2) = Some (l1 ++ f :: l2).
Proof.
  intros H2. induction l1 as [|g l1 IH]; intros H1; cbn [app].
  - destruct l2 as [|g l2]; [done|]. apply Forall_cons in H2 as [[H2 H3] _]. cbn [insert]. rewrite (proj2 (Z.ltb_lt _ _)) by lia. by rewrite Z.gtb_ltb, (proj2 (Z.ltb_ge _ _)) by lia.
  - apply Forall_cons in H1 as [[H3 H4] H1]. cbn [insert]. rewrite (proj2 (Z.ltb_ge _ _)), (proj2 (Z.eqb_neq _ _)), (proj2 (Z.ltb_ge _ _)) by lia. by rewrite IH.
Qed.

Lemma linked_sorted fs : Forall (fun f => f_start f < f_end f) fs -> forall e, linked e fs = true ->
  StronglySorted before fs /\ forall x, e = Some x -> Forall (fun g => x <= f_start g) fs.
Proof.
  induction fs as [|f fs IH]; intros Hne e; cbn [linked]; [split; [constructor|done]|]. apply Forall_cons in Hne as [Hf Hne].
  intros [Hm Hl]%andb_true_iff. destruct (IH Hne _ Hl) as [Hs Hg]. specialize (Hg _ eq_refl). split.
  - constructor; [done|]. eapply Forall_impl; [exact Hg|]. cbn. intros g H. unfold before. lia.
  - intros x ->. cbn [meets] in Hm. apply Z.eqb_eq in Hm. constructor; [lia|]. eapply Forall_impl; [exact Hg|]. cbn. intros; lia.
Qed.

Lemma sorted_split fs : forall l1 f l2, StronglySorted before fs -> fs = l1 ++ f :: l2 -> Forall (fun g => before g f) l1 /\ Forall (before f) l2.
Proof.
  induction fs as [|g fs IH]; intros l1 f l2 Hs E; [by destruct l1|]. apply StronglySorted_inv in Hs as [Hs Hg]. destruct l1 as [|x l1]; injection E as -> E; [subst; split; [constructor|done]|].
  destruct (IH l1 f l2 Hs E) as [H1 H2]. split; [|done]. constructor; [|done]. subst fs. apply Forall_app in Hg as [_ Hg]. by apply Forall_cons in Hg as [Hg _].
Qed.

Lemma first_frag_offset hdr : first_frag hdr = (IPH_OFFSET_BYTES hdr =? 0).
Proof.
  unfold first_frag, IPH_OFFSET_BYTES. set (x := swap16 (IPH_OFFSET hdr)). assert (0 <= Z.land x IP_OFFMASK <= IP_OFFMASK) as H.
  { change IP_OFFMASK with (Z.ones 13). rewrite Z.land_ones by lia. pose proof (Z.mod_pos_bound x (2 ^ 13)). change (Z.ones 13) with (2 ^ 13 - 1). lia. }
  unfold IP_OFFMASK in *. rewrite u16_id by (unfold is_u16; lia). destruct (Z.eqb_spec (Z.land x 0x1fff) 0), (Z.eqb_spec (Z.land x 0x1fff * 8) 0); try done; lia.
Qed.
(** ** Some of the pieces *)

Section some.
Context (ps : list piece) (Hcut : cut ps).

(** Those of [q], in order. *)
Definition got (q : list piece) : list piece := base.filter (fun k => k ∈ q) ps.

Lemma pieces_sorted : StronglySorted before (frag <$> ps).
Proof.
  pose proof (c_complete _ Hcut) as Hc. assert (Forall (fun f => f_start f < f_end f) (frag <$> ps)) as Hne.
  { apply Forall_fmap. eapply Forall_impl; [apply (c_data _ Hcut)|]. cbn. intros k Hk. unfold f_end. cbn. destruct (k_data k); [done|]. rewrite zlen_cons. pose proof (zlen_nonneg l). lia. }
  unfold complete in Hc. destruct (frag <$> ps) as [|f fs]; [done|]. apply andb_true_iff in Hc as [_ Hc]. by apply (linked_sorted _ Hne None).
Qed.

Lemma pieces_split k : k ∈ ps -> exists p1 p2, ps = p1 ++ k :: p2 /\ Forall (fun g => before (frag g) (frag k)) p1 /\ Forall (fun g => before (frag k) (frag g)) p2 /\ k ∉ p1 /\ k ∉ p2.
Proof.
  intros (p1 & p2 & E)%list_elem_of_split. exists p1, p2. pose proof pieces_sorted as Hs. rewrite E, fmap_app, fmap_cons in Hs.
  destruct (sorted_split _ _ _ _ Hs eq_refl) as [H1 H2]. rewrite Forall_fmap in H1, H2. split; [done|]. split; [done|]. split; [done|].
  rewrite Forall_forall in H1, H2. unfold before in *. split; intros Hin; [specialize (H1 _ Hin)|specialize (H2 _ Hin)]; cbn in *; lia.
Qed.

Lemma filter_same (p q : list piece) k : k ∉ p -> base.filter (fun x => x ∈ k :: q) p = base.filter (fun x => x ∈ q) p.
Proof.
  induction p as [|x p IH]; intros Hk; [done|]. apply not_elem_of_cons in Hk as [Hx Hk]. rewrite !filter_cons, (IH Hk). destruct (decide (x ∈ q)) as [H|H].
  - rewrite decide_True; [done|]. by right.
  - rewrite decide_False; [done|]. by apply not_elem_of_cons.
Qed.

(** Another piece finds its place. *)
Lemma got_more q k : k ∈ ps -> k ∉ q -> insert (frag k) (frag <$> got q) = Some (frag <$> got (k :: q)).
Proof.
  intros Hk Hq. destruct (pieces_split k Hk) as (p1 & p2 & E & H1 & H2 & N1 & N2). unfold got. rewrite E, !filter_app, !filter_cons.
  rewrite decide_False by done. rewrite decide_True by (by left). rewrite !filter_same by done. rewrite !fmap_app, fmap_cons.
  apply insert_between; apply Forall_fmap; rewrite Forall_forall in *; intros g [_ Hg]%list_elem_of_filter; [by apply H2|by apply H1].
Qed.

Lemma got_all q : (forall k, k ∈ ps -> k ∈ q) -> got q = ps.
Proof.
  unfold got. clear Hcut. induction ps as [|k l IH]; intros H; [done|]. rewrite filter_cons, decide_True by (apply H; by left). f_equal. apply IH. intros x Hx. apply H. by right.
Qed.

Lemma got_nil : got [] = [].
Proof. unfold got. clear Hcut. induction ps as [|k l IH]; [done|]. rewrite filter_cons, decide_False by apply not_elem_of_nil. done. Qed.

(** The last piece. *)
Lemma last_piece : exists p z, ps = p ++ [z] /\ last_frag (k_hdr z) = true /\ forall k, k ∈ ps -> last_frag (k_hdr k) = true -> k = z.
Proof.
  destruct (last ps) as [x|] eqn:El; [|apply last_None in El; pose proof (c_complete _ Hcut) as Hc; by rewrite El in Hc].
  apply last_Some in El as [l E]. exists l, x. split; [done|].
  pose proof (c_last _ Hcut) as Hl. split; [by apply (Hl l x [])|]. intros k Hk Hf. destruct (list_elem_of_split _ _ Hk) as (p1 & p2 & E2).
  apply (Hl p1 k p2 E2) in Hf. subst p2. rewrite E in E2. by apply app_inj_tail in E2 as [_ ->].
Qed.

Lemma payload_lt q x : x ∈ ps -> x ∉ q -> zlen (payload_of (got q)) < zlen (payload_of ps).
Proof.
  intros Hx Hq. destruct (list_elem_of_split _ _ Hx) as (p1 & p2 & E). assert (forall p, zlen (payload_of (base.filter (fun k => k ∈ q) p)) <= zlen (payload_of p)) as Hle.
  { intros p. induction p as [|k p IH]; [done|]. rewrite filter_cons. pose proof (payload_app [k] p) as E1. cbn [app] in E1. rewrite E1, zlen_app.
    destruct (decide (k ∈ q)); [|pose proof (zlen_nonneg (payload_of [k])); lia].
    pose proof (payload_app [k] (base.filter (fun k => k ∈ q) p)) as E2. cbn [app] in E2. rewrite E2, zlen_app. lia. }
  assert (0 < zlen (k_data x)) as Hd. { pose proof (c_data _ Hcut) as Hd. rewrite Forall_forall in Hd. specialize (Hd x Hx). cbn in Hd. destruct (k_data x); [done|]. rewrite zlen_cons. pose proof (zlen_nonneg l). lia. }
  unfold got. rewrite E, filter_app, filter_cons, decide_False by done. pose proof (payload_app [x] p2) as E1. cbn [app] in E1. rewrite !payload_app, E1, !zlen_app.
  pose proof (Hle p1). pose proof (Hle p2). assert (payload_of [x] = k_data x) as -> by (unfold payload_of; cbn; by rewrite app_nil_r). lia.
Qed.

(** With the last piece there, the pieces are complete only if none is missing. *)
Lemma got_complete q z p : ps = p ++ [z] -> z ∈ q -> complete (frag <$> got q) = true -> forall x, x ∈ ps -> x ∈ q.
Proof.
  intros E Hz Hc x Hx. destruct (decide (x ∈ q)) as [|Hn]; [done|]. exfalso. pose proof (payload_lt q x Hx Hn) as Hlt.
  pose proof (complete_len _ Hc) as E1. pose proof (complete_len _ (c_complete _ Hcut)) as E2. rewrite !carried_pieces in *.
  assert (forall l, last_end (frag <$> l ++ [z]) = Some (f_end (frag z))) as Hlast by (intros l; rewrite fmap_app; apply last_end_snoc).
  assert (got q = base.filter (fun k => k ∈ q) p ++ [z]) as Eg by (unfold got; rewrite E, filter_app, filter_cons, decide_True by done; done).
  rewrite Eg, Hlast in E1. rewrite E, Hlast in E2. rewrite Eg, E in Hlt. injection E1 as E1. injection E2 as E2. lia.
Qed.

(** The first piece. *)
Lemma first_piece : exists a p, ps = a :: p /\ first_frag (k_hdr a) = true /\ forall k, k ∈ ps -> first_frag (k_hdr k) = true -> k = a.
Proof.
  pose proof (c_complete _ Hcut) as Hc. pose proof pieces_sorted as Hs. destruct ps as [|a p] eqn:E; [done|]. exists a, p. split; [done|]. rewrite fmap_cons in Hc, Hs. cbn [complete] in Hc.
  apply andb_true_iff in Hc as [H0 _]. split; [by rewrite first_frag_offset|]. intros k [->|Hk]%elem_of_cons Hf; [done|]. exfalso.
  apply StronglySorted_inv in Hs as [_ Hs]. rewrite Forall_fmap, Forall_forall in Hs. specialize (Hs k Hk). rewrite first_frag_offset in Hf. apply Z.eqb_eq in H0, Hf. unfold before in Hs. cbn in *. lia.
Qed.

End some.
(** ** The entry while pieces arrive *)

Section run.
Context (ps : list piece) (Hcut : cut ps) (a z : piece) (p1 p2 : list piece).
Hypothesis Ea : ps = a :: p1.
Hypothesis Ez : ps = p2 ++ [z].
Hypothesis Fa : first_frag (k_hdr a) = true.
Hypothesis Lz : last_frag (k_hdr z) = true.
Hypothesis Ua : forall k, k ∈ ps -> first_frag (k_hdr k) = true -> k = a.
Hypothesis Uz : forall k, k ∈ ps -> last_frag (k_hdr k) = true -> k = z.

(** The pieces [q] have arrived; the header will do for [q']. *)
Record waiting (q q' : list piece) (d : dg) : Prop := {
  wt_frs : d_frs d = frag <$> got ps q;
  wt_key : key (d_hdr d) = key (k_hdr a);
  wt_flag : (Z.land (d_flags d) IP_REASS_FLAG_LASTFRAG =? 0) = negb (bool_decide (z ∈ q));
  wt_len : z ∈ q -> d_len d = zlen (payload_of ps);
  wt_hdr : a ∈ q' -> d_hdr d = k_hdr a;
  wt_other : a ∉ q' -> first_frag (d_hdr d) = false }.

Lemma last_flag f : (Z.land (Z.lor f IP_REASS_FLAG_LASTFRAG) IP_REASS_FLAG_LASTFRAG =? 0) = false.
Proof.
  unfold IP_REASS_FLAG_LASTFRAG. rewrite Z.land_lor_distr_l. change 1 with (Z.ones 1) at 1. rewrite Z.land_ones by lia. change (2 ^ 1) with 2. pose proof (Z.mod_pos_bound f 2 ltac:(lia)).
  destruct (Z.eq_dec (f mod 2) 0) as [->|]; [done|]. by replace (f mod 2) with 1 by lia.
Qed.

Lemma a_in : a ∈ ps.
Proof. rewrite Ea. by left. Qed.

Lemma z_in : z ∈ ps.
Proof. rewrite Ez. apply elem_of_app. right. by left. Qed.

Lemma found_waiting q k d : waiting q q d -> k ∈ ps -> k ∉ q -> waiting q (k :: q) (rehead (k_hdr k) d).
Proof.
  intros [H1 H2 H3 H4 H5 H6] Hk Hq. unfold rehead. destruct (first_frag (k_hdr k)) eqn:Ef; cbn [andb].
  - pose proof (Ua k Hk Ef) as ->. rewrite (H6 Hq). cbn [negb]. constructor; try done. intros Hn. exfalso. apply Hn. by left.
  - constructor; try done.
    + intros [->|H]%elem_of_cons; [congruence|auto].
    + intros [_ H]%not_elem_of_cons. auto.
Qed.

Lemma new_waiting k r : k ∈ ps -> waiting [] [k] (new_dg r (k_hdr k)).
Proof.
  intros Hk. constructor; cbn [new_dg d_frs d_hdr d_flags d_len].
  - by rewrite got_nil.
  - apply (c_key _ Hcut); [done|apply a_in].
  - rewrite bool_decide_eq_false_2; [done|]. apply not_elem_of_nil.
  - by intros ?%elem_of_nil.
  - by intros ->%list_elem_of_singleton.
  - intros Hn. destruct (first_frag (k_hdr k)) eqn:Ef; [|done]. exfalso. apply Hn. rewrite (Ua k Hk Ef). by left.
Qed.

Lemma total_len : f_end (frag z) = zlen (payload_of ps).
Proof.
  pose proof (complete_len _ (c_complete _ Hcut)) as E. rewrite carried_pieces in E. rewrite Ez in E at 1. rewrite fmap_app in E.
  change (frag <$> [z]) with [frag z] in E. rewrite last_end_snoc in E. by injection E as ->.
Qed.

Lemma grown_waiting q k d : waiting q (k :: q) d -> k ∈ ps -> waiting (k :: q) (k :: q) (grown d (k_hdr k) (k_data k) (frag <$> got ps (k :: q))).
Proof.
  intros [H1 H2 H3 H4 H5 H6] Hk. unfold grown. destruct (last_frag (k_hdr k)) eqn:El.
  - pose proof (Uz k Hk El) as ->. constructor; cbn; try done.
    + rewrite last_flag. rewrite bool_decide_eq_true_2; [done|by left].
    + intros _. apply total_len.
  - assert (k <> z) as Hne by (intros ->; congruence). constructor; cbn; try done.
    + rewrite H3. f_equal. apply bool_decide_ext. rewrite elem_of_cons. split; [by right|]. by intros [->|?].
    + intros [->|H]%elem_of_cons; [done|auto].
Qed.

Lemma seen_last_got q k d : waiting q (k :: q) d -> k ∈ ps -> seen_last (last_frag (k_hdr k)) (cell NULL d) = bool_decide (z ∈ k :: q).
Proof.
  intros [_ _ H3 _ _ _] Hk. unfold seen_last. cbn [cell r_flags]. rewrite H3, negb_involutive. destruct (last_frag (k_hdr k)) eqn:El; cbn [orb].
  - pose proof (Uz k Hk El) as ->. rewrite bool_decide_eq_true_2; [done|by left].
  - apply bool_decide_ext. rewrite elem_of_cons. split; [by right|]. intros [->|?]; [congruence|done].
Qed.

Lemma judge_got q k d : waiting q (k :: q) d -> k ∈ ps -> k ∉ q ->
  judge (k_addrs k) (k_hdr k) (k_data k) d = if bool_decide (z ∈ k :: q) && complete (frag <$> got ps (k :: q)) then Whole (frag <$> got ps (k :: q)) else Queued (frag <$> got ps (k :: q)).
Proof.
  intros W Hk Hq. unfold judge. pose proof (c_fits _ Hcut) as Hf. rewrite Forall_forall in Hf. rewrite (Hf k Hk), (wt_frs _ _ _ W). fold (frag k).
  rewrite (got_more ps Hcut q k Hk Hq). by rewrite (seen_last_got q k d W Hk).
Qed.

Lemma judge_whole q k d : waiting q (k :: q) d -> k ∈ ps -> k ∉ q -> (forall x, x ∈ ps -> x ∈ k :: q) -> judge (k_addrs k) (k_hdr k) (k_data k) d = Whole (frag <$> ps).
Proof.
  intros W Hk Hq Hall. rewrite (judge_got q k d W Hk Hq), (got_all ps (k :: q) Hall), (c_complete _ Hcut).
  rewrite bool_decide_eq_true_2; [done|]. apply Hall, z_in.
Qed.

Lemma judge_queued q k d : waiting q (k :: q) d -> k ∈ ps -> k ∉ q -> forall x, x ∈ ps -> x ∉ k :: q ->
  judge (k_addrs k) (k_hdr k) (k_data k) d = Queued (frag <$> got ps (k :: q)).
Proof.
  intros W Hk Hq x Hx Hn. rewrite (judge_got q k d W Hk Hq). case_bool_decide as Hz; [|done]. cbn [andb]. destruct (complete _) eqn:Hc; [|done].
  exfalso. apply Hn. by apply (got_complete ps Hcut (k :: q) z p2 Ez Hz Hc).
Qed.

Lemma piece_unique k k' x : k ∈ ps -> k' ∈ ps -> x ∈ k_addrs k -> x ∈ k_addrs k' -> k = k'.
Proof.
  pose proof (c_nodup _ Hcut) as Hn. clear -Hn. induction ps as [|y l IH]; [by intros ?%elem_of_nil|]. rewrite buffers_cons in Hn. apply NoDup_app in Hn as (_ & Hd & Hn).
  assert (forall j, j ∈ l -> x ∈ k_addrs j -> x ∈ buffers l) as Hb by (intros j Hj Hx; apply list_elem_of_bind; by exists j).
  intros [->|Hk]%elem_of_cons [->|Hk']%elem_of_cons Hx Hx'; [done|exfalso; by eapply Hd, Hb|exfalso; by eapply Hd, Hb|auto].
Qed.

Lemma piece_apart q k x : (forall j, j ∈ q -> j ∈ ps) -> k ∈ ps -> k ∉ q -> x ∈ k_addrs k -> x ∉ buffers q.
Proof. intros Hq Hk Hn Hx (j & Hj & Hjq)%list_elem_of_bind. apply Hn. by rewrite (piece_unique k j x Hk (Hq j Hjq) Hx Hj). Qed.

Lemma got_buffers q x : x ∈ buffers (got ps q) -> x ∈ buffers q.
Proof. intros (j & Hx & [Hj _]%list_elem_of_filter)%list_elem_of_bind. apply list_elem_of_bind. by exists j. Qed.

Lemma got_room q k : k ∈ ps -> k ∉ q -> zlen (buffers (got ps q)) + zlen (k_addrs k) <= IP_REASS_MAX_PBUFS.
Proof.
  intros Hk Hq. pose proof (insert_addrs _ _ _ (got_more ps Hcut q k Hk Hq)) as Hp. rewrite !addrs_pieces in Hp. pose proof (Permutation_length Hp) as Hl. rewrite length_app in Hl.
  change (f_addrs (frag k)) with (k_addrs k) in Hl. pose proof (c_max _ Hcut) as Hmax. enough (length (buffers (got ps (k :: q))) <= length (buffers ps))%nat by (unfold zlen in *; lia).
  clear. unfold got. induction ps as [|y l IH]; [done|]. rewrite filter_cons, buffers_cons, length_app. destruct (decide _); [rewrite buffers_cons, length_app; lia|lia].
Qed.


(** ** All arrivals *)

Context (cf : Z -> PM unit) (mm : frags -> Z) (base : Z -> Z) (F : Z -> option pbuf) (s0 : frags).
Hypothesis pool : forall s, mm s = NULL \/ datagrams s !! mm s = None.
Hypothesis pool0 : mm s0 <> NULL.
Hypothesis I0 : inv F s0 [].
Hypothesis Harr : Forall (fun k => arrived (heap s0) (k_addrs k) (k_hdr k) (k_data k)) ps.

(** After the pieces [q]. *)
Definition midway (q : list piece) (s : frags) : Prop :=
  exists F' ds, inv F' s ds /\ (forall x, x ∉ buffers q -> F' x = F x) /\ ((q = [] /\ ds = [] /\ s = s0) \/ exists d, ds = [d] /\ waiting q q d).

Lemma midway_addrs q F' s ds : inv F' s ds -> ((q = [] /\ ds = [] /\ s = s0) \/ exists d, ds = [d] /\ waiting q q d) -> all_addrs ds = buffers (got ps q).
Proof.
  intros _ [(-> & -> & _)|(d & -> & W)]; [by rewrite got_nil|]. unfold all_addrs. cbn. by rewrite app_nil_r, (wt_frs _ _ _ W), addrs_pieces.
Qed.

Lemma arrival_ok q k s : midway q s -> (forall j, j ∈ q -> j ∈ ps) -> k ∈ ps -> k ∉ q ->
  exists F' d r s', ip4_reass cf mm base (hd NULL (k_addrs k)) s = Val (r, s') /\ waiting q (k :: q) d /\ (forall x, x ∉ buffers q -> F' x = F x) /\
    inv (rest_of (judge (k_addrs k) (k_hdr k) (k_data k) d) (k_addrs k) (heap s') F') s' (remains (judge (k_addrs k) (k_hdr k) (k_data k) d) (k_hdr k) (k_data k) [] d []) /\
    returned base (judge (k_addrs k) (k_hdr k) (k_data k) d) (k_hdr k) (k_data k) d r s'.
Proof.
  intros (F' & ds & I & HF & Hst) Hq Hk Hn. pose proof (midway_addrs q F' s ds I Hst) as Eall.
  assert (forall x, x ∈ k_addrs k -> x ∉ all_addrs ds) as Hd by (intros x Hx; rewrite Eall; intros Hb%got_buffers; by eapply (piece_apart q k x)).
  assert (arrived (heap s) (k_addrs k) (k_hdr k) (k_data k)) as A.
  { rewrite Forall_forall in Harr. eapply arrived_frame; [by apply Harr|]. intros x Hx. rewrite (inv_empty F s0 I0 x). destruct I as [[_ [_ _ Hfr _] _ _ _ _] _]. rewrite Hfr by auto. apply HF. by eapply (piece_apart q k x). }
  pose proof (got_room q k Hk Hn) as Hroom. assert (zlen (k_addrs k) <= 0xFFFF) as Hz by (pose proof (zlen_nonneg (buffers (got ps q))); unfold IP_REASS_MAX_PBUFS in Hroom; lia).
  assert (last_frag (k_hdr k) = true -> IPH_OFFSET_BYTES (k_hdr k) <> 0) as Hlast.
  { intros Hl E. assert (first_frag (k_hdr k) = true) as Hf by (rewrite first_frag_offset; by apply Z.eqb_eq). pose proof (Ua k Hk Hf) as ->. pose proof (proj1 (c_last _ Hcut [] a p1 Ea) Hl) as ->.
    pose proof (c_two _ Hcut) as H2. rewrite Ea in H2. cbn in H2. lia. }
  pose proof (c_fits _ Hcut) as Hf. rewrite Forall_forall in Hf. destruct (ip4_reass_ok cf mm base F' (k_addrs k) (k_hdr k) (k_data k) pool s ds I A Hd Hz Hlast (or_introl (Hf k Hk))) as (r & s' & ds1 & E & _ & Hsame & Hres).
  assert (forall d, waiting q q d -> matches (k_hdr k) d = true) as Hmatch.
  { intros d W. rewrite matches_key. apply bool_decide_eq_true. rewrite (wt_key _ _ _ W). apply (c_key _ Hcut); [apply a_in|done]. }
  assert (room mm s (k_addrs k) (k_hdr k) ds) as R.
  { split; [by rewrite Eall|]. destruct Hst as [(_ & _ & ->)|(d & -> & W)]; [by left|]. right. apply Exists_cons. left. by apply Hmatch. }
  rewrite (Hsame R) in Hres. destruct Hres as [(_ & _ & Hno)|(pre & d & post & He & _ & I' & R')]; [done|].
  enough (pre = [] /\ post = [] /\ waiting q (k :: q) d) as (-> & -> & W') by (by exists F', d, r, s').
  destruct He as [(d0 & Ed & Hm & ->)|(r0 & -> & -> & -> & Hno)].
  - destruct Hst as [(_ & -> & _)|(d1 & -> & W)]; [by destruct pre|]. destruct pre as [|y pre]; [|destruct pre; done]. injection Ed as <- <-. split; [done|]. split; [done|]. by apply found_waiting.
  - destruct Hst as [(-> & -> & _)|(d1 & -> & W)]; [split; [done|]; split; [done|]; by apply new_waiting|]. exfalso. apply Forall_cons in Hno as [Hno _]. cbn in Hno. rewrite (Hmatch d1 W) in Hno. done.
Qed.

(** The pieces arrive one after the other. *)
Fixpoint receive (ks : list piece) : RM (list Z) :=
  match ks with
  | [] => sret []
  | k :: ks => do! r := ip4_reass cf mm base (hd NULL (k_addrs k)) in do! rs := receive ks in sret (r :: rs)
  end.

Lemma queued_step q k s x : midway q s -> (forall j, j ∈ q -> j ∈ ps) -> k ∈ ps -> k ∉ q -> x ∈ ps -> x ∉ k :: q ->
  exists s', ip4_reass cf mm base (hd NULL (k_addrs k)) s = Val (NULL, s') /\ midway (k :: q) s'.
Proof.
  intros M Hq Hk Hn Hx Hxn. destruct (arrival_ok q k s M Hq Hk Hn) as (F' & d & r & s' & E & W & HF & I' & R). rewrite (judge_queued q k d W Hk Hn x Hx Hxn) in I', R.
  cbn [rest_of remains returned app] in I', R. subst r. exists s'. split; [done|]. eexists _, _. split; [exact I'|]. split.
  - intros y Hy. rewrite buffers_cons in Hy. apply not_elem_of_app in Hy as [Hy1 Hy2]. unfold without. rewrite decide_False by done. by apply HF.
  - right. eexists. split; [reflexivity|]. by apply grown_waiting.
Qed.

(** What the last piece brings about. *)
Definition delivered (s' : frags) (p : Z) : Prop :=
  (exists d, iphdr d = k_hdr a /\ datagram_len d = zlen (payload_of ps) /\ opk (heap s') (buffers ps) (whole_header base p d ++ payload_of ps)) /\
  p = hd NULL (k_addrs a) /\ (exists F', inv F' s' []) /\ forall x, x ∉ buffers ps -> bufs (heap s') !! x = bufs (heap s0) !! x.

Lemma whole_step q k s : midway q s -> (forall j, j ∈ q -> j ∈ ps) -> k ∈ ps -> k ∉ q -> (forall x, x ∈ ps -> x ∈ k :: q) ->
  exists p s', ip4_reass cf mm base (hd NULL (k_addrs k)) s = Val (p, s') /\ delivered s' p.
Proof.
  intros M Hq Hk Hn Hall. destruct (arrival_ok q k s M Hq Hk Hn) as (F' & d & r & s' & E & W & HF & I' & R). rewrite (judge_whole q k d W Hk Hn Hall) in I', R.
  cbn [rest_of remains returned app] in I', R. destruct R as [-> Ho]. rewrite addrs_pieces, carried_pieces in Ho. rewrite addrs_pieces in I'. eexists _, s'. split; [done|].
  pose proof (grown_waiting q k d W Hk) as [_ _ _ Wl Wh _]. rewrite (got_all ps (k :: q) Hall) in Wl, Wh. split; [|split; [by rewrite Ea|split; [by eexists|]]].
  - eexists. split; [|split; [|exact Ho]]; cbn [cell iphdr datagram_len]; [apply Wh, Hall, a_in|apply Wl, Hall, z_in].
  - intros x Hx. rewrite (inv_empty _ _ I' x), (inv_empty F s0 I0 x). unfold taking, without. rewrite decide_False by done.
    assert (x ∉ buffers (k :: q)) as Hx'. { intros (j & Hj & Hjk)%list_elem_of_bind. apply Hx, list_elem_of_bind. exists j. split; [done|]. apply elem_of_cons in Hjk as [->|Hjk]; auto. }
    rewrite buffers_cons in Hx'. apply not_elem_of_app in Hx' as [H1 H2]. rewrite decide_False by done. by apply HF.
Qed.

Lemma receive_ok q2 : forall q1 s, midway q1 s -> q2 <> [] -> q1 ++ q2 ≡ₚ ps ->
  exists p s', receive q2 s = Val (replicate (length q2 - 1) NULL ++ [p], s') /\ delivered s' p.
Proof.
  assert (NoDup ps) as Hnd.
  { pose proof (pieces_sorted ps Hcut) as Hs. clear -Hs. induction ps as [|x l IH]; [constructor|]. rewrite fmap_cons in Hs. apply StronglySorted_inv in Hs as [Hs Hx]. apply NoDup_cons. split; [|auto].
    intros Hin. rewrite Forall_fmap, Forall_forall in Hx. specialize (Hx x Hin). unfold before in Hx. cbn in Hx. lia. }
  induction q2 as [|k q2 IH]; intros q1 s M Hne Hp; [done|]. rewrite <- Hp in Hnd. apply NoDup_app in Hnd as (_ & Hd & Hnd2). apply NoDup_cons in Hnd2 as [Hk2 _].
  assert (forall j, j ∈ q1 -> j ∈ ps) as Hq by (intros j Hj; rewrite <- Hp; apply elem_of_app; by left).
  assert (k ∈ ps) as Hk by (rewrite <- Hp; apply elem_of_app; right; by left). assert (k ∉ q1) as Hn by (intros H; apply (Hd k H); by left). cbn [receive].
  destruct q2 as [|k2 q2].
  - destruct (whole_step q1 k s M Hq Hk Hn) as (p & s' & E & D); [intros x Hx; rewrite <- Hp in Hx; apply elem_of_app in Hx as [?|[->|?%elem_of_nil]%elem_of_cons]; [by right|by left|done]|].
    run E. cbn [receive]. ret. by exists p, s'.
  - destruct (queued_step q1 k s k2 M Hq Hk Hn) as (s1 & E & M1).
    { rewrite <- Hp. apply elem_of_app. right. right. by left. }
    { apply not_elem_of_cons. split; [intros ->; apply Hk2; by left|]. intros H. apply (Hd k2 H). right. by left. }
    run E. destruct (IH (k :: q1) s1 M1) as (p & s' & E' & D); [done|rewrite <- Hp; cbn; by rewrite Permutation_middle|]. run E'. exists p, s'. split; [|done]. cbn [length Nat.sub replicate].
    unfold sret. by rewrite Nat.sub_0_r.
Qed.

End run.
(** ** The header of the whole datagram *)

Lemma twenty (l : bytes) : length l = 20%nat -> exists x0 x1 x2 x3 x4 x5 x6 x7 x8 x9 x10 x11 x12 x13 x14 x15 x16 x17 x18 x19,
  l = [x0; x1; x2; x3; x4; x5; x6; x7; x8; x9; x10; x11; x12; x13; x14; x15; x16; x17; x18; x19].
Proof. intros H. do 20 (destruct l as [|? l]; [discriminate|]). destruct l; [|discriminate]. repeat eexists. Qed.

Lemma pair16 v : is_u16 v -> u8 v + 256 * u8 (Z.shiftr v 8) = v.
Proof.
  intros Hv. unfold is_u16, u8 in *. rewrite Z.shiftr_div_pow2 by lia. change (2 ^ 8) with 256. rewrite (Z.mod_small (v / 256)).
  - pose proof (Z.div_mod v 256 ltac:(lia)). lia.
  - split; [apply Z.div_pos; lia|apply Z.div_lt_upper_bound; lia].
Qed.

(** Length, offset and flags are those of a whole datagram, the checksum is right, and the
    rest is as the first piece had it. *)
Lemma whole_header_ok base p d : length (iphdr d) = 20%nat -> is_bytes (iphdr d) -> 0 <= datagram_len d <= 0xFFFF - IP_HLEN ->
  let h := whole_header base p d in
  swap16 (IPH_LEN h) = IP_HLEN + datagram_len d /\ IPH_OFFSET h = 0 /\ key h = key (iphdr d) /\ IPH_HL_BYTES h = IPH_HL_BYTES (iphdr d) /\
  (forall i, i ∈ [0; 1; 8; 9]%nat -> nth i h 0 = nth i (iphdr d) 0) /\ forall pb, InetChksum.inet_chksum pb h = 0.
Proof.
  intros Hl Hb Hd h. destruct (twenty _ Hl) as (x0 & x1 & x2 & x3 & x4 & x5 & x6 & x7 & x8 & x9 & x10 & x11 & x12 & x13 & x14 & x15 & x16 & x17 & x18 & x19 & E).
  set (v := swap16 (u16 (datagram_len d + IP_HLEN))). assert (is_u16 v) as Hv by apply swap16_range.
  set (l1 := [x0; x1; u8 v; u8 (Z.shiftr v 8); x4; x5; 0; 0; x8; x9]). set (l2 := [x12; x13; x14; x15; x16; x17; x18; x19]).
  assert (h = l1 ++ le16 (InetChksum.inet_chksum (base p) (l1 ++ [0; 0] ++ l2)) ++ l2) as Eh by (subst h; unfold whole_header; fold v; rewrite E; reflexivity).
  rewrite E in Hb |- *. split_and!.
  - rewrite Eh. unfold IPH_LEN, field16. cbn [nth app l1]. rewrite pair16 by done. subst v. rewrite swap16_invol by apply u16_range. rewrite u16_id by (unfold is_u16, IP_HLEN in *; lia). lia.
  - by rewrite Eh.
  - by rewrite Eh.
  - by rewrite Eh.
  - rewrite Eh. intros i Hi. repeat (apply elem_of_cons in Hi as [->|Hi]; [reflexivity|]). by apply elem_of_nil in Hi.
  - intros pb. rewrite Eh. assert (forall i x, [x0; x1; x2; x3; x4; x5; x6; x7; x8; x9; x10; x11; x12; x13; x14; x15; x16; x17; x18; x19] !! i = Some x -> is_u8 x) as Hx by (intros i x Hx; by eapply Forall_lookup_1 in Hx).
    apply InetChksum.chksum_verifies; [| |reflexivity|vm_compute; discriminate].
    + repeat (apply Forall_cons; split); try apply Forall_nil_2; try apply u8_range; try (by split); [by apply (Hx 0%nat)|by apply (Hx 1%nat)|by apply (Hx 4%nat)|by apply (Hx 5%nat)|by apply (Hx 8%nat)|by apply (Hx 9%nat)].
    + repeat (apply Forall_cons; split); try apply Forall_nil_2; [by apply (Hx 12%nat)|by apply (Hx 13%nat)|by apply (Hx 14%nat)|by apply (Hx 15%nat)|by apply (Hx 16%nat)|by apply (Hx 17%nat)|by apply (Hx 18%nat)|by apply (Hx 19%nat)].
Qed.
(** ** Theorems *)

(** C20: a fragment is handled as the datagrams that wait demand.  From every state of the queue
    and for every packet with a fragment that does not run past the largest datagram (the last
    fragment may), [ip4_reass] faults nowhere, fails no assertion and keeps the invariant: the
    list is well formed, at most four buffers wait and are counted, and every other buffer is as
    before.  Older datagrams are discarded for the packet only when it finds no room, oldest
    first and never its own; it is refused only when there is no room.  Otherwise it joins
    its datagram, or a new one: it is freed when it overlaps a fragment, queued while pieces are
    missing, and when nothing is missing the chain of all pieces in order is returned behind the
    header of the first one. *)
Theorem ip4_reass_correct cf mm base F ad hdr pl s ds :
  (forall s, mm s = NULL \/ datagrams s !! mm s = None) ->
  inv F s ds -> arrived (heap s) ad hdr pl -> (forall a, a ∈ ad -> a ∉ all_addrs ds) -> zlen ad <= 0xFFFF ->
  (last_frag hdr = true -> IPH_OFFSET_BYTES hdr <> 0) -> (fits hdr pl = true \/ last_frag hdr = true) ->
  exists r s' ds1, ip4_reass cf mm base (hd NULL ad) s = Val (r, s') /\ evicted hdr ds ds1 /\ (room mm s ad hdr ds -> ds1 = ds) /\
    ((r = NULL /\ inv (without ad F) s' ds1 /\ ~ room mm s ad hdr ds) \/
     exists pre d post, entry_of hdr ds1 pre d post /\ zlen (all_addrs ds1) + zlen ad <= IP_REASS_MAX_PBUFS /\
       inv (rest_of (judge ad hdr pl d) ad (heap s') F) s' (remains (judge ad hdr pl d) hdr pl pre d post) /\ returned base (judge ad hdr pl d) hdr pl d r s').
Proof. intros Hpool. by apply ip4_reass_ok. Qed.

(** C19: the pieces of a datagram give the datagram again.  However a datagram was cut, as long as
    its pieces take at most four buffers, and in whatever order they arrive at an empty queue:
    every call but the last returns [NULL], and the last returns the packet whose payload is the
    payloads of the pieces in order.  Its header has the length of the whole, no offset and no
    flags, a checksum that verifies, and otherwise the fields of the first piece's header.
    Nothing is left in the queue and no other buffer has changed. *)
Theorem reassembly_roundtrip cf mm base F s ps qs :
  cut ps -> qs ≡ₚ ps -> Forall (fun k => is_bytes (k_hdr k)) ps ->
  (forall s, mm s = NULL \/ datagrams s !! mm s = None) -> mm s <> NULL -> inv F s [] ->
  Forall (fun k => arrived (heap s) (k_addrs k) (k_hdr k) (k_data k)) ps ->
  exists a rest s' h, ps = a :: rest /\
    receive cf mm base qs s = Val (replicate (length qs - 1) NULL ++ [hd NULL (k_addrs a)], s') /\
    opk (heap s') (buffers ps) (h ++ payload_of ps) /\ length h = 20%nat /\
    swap16 (IPH_LEN h) = IP_HLEN + zlen (payload_of ps) /\ IPH_OFFSET h = 0 /\ key h = key (k_hdr a) /\
    (forall i, i ∈ [0; 1; 8; 9]%nat -> nth i h 0 = nth i (k_hdr a) 0) /\ (forall pb, InetChksum.inet_chksum pb h = 0) /\
    reassdatagrams s' = NULL /\ ip_reass_pbufcount s' = 0 /\ forall x, x ∉ buffers ps -> bufs (heap s') !! x = bufs (heap s) !! x.
Proof.
  intros Hc Hp Hb Hpool Hp0 I0 Harr. destruct (first_piece ps Hc) as (a & p1 & Ea & Fa & Ua). destruct (last_piece ps Hc) as (p2 & z & Ez & Lz & Uz).
  assert (midway ps a z F s [] s) as M by (exists F, []; split; [done|]; split; [done|by left]).
  assert (qs <> []) as Hne by (intros ->; apply Permutation_nil_l in Hp; subst ps; discriminate).
  destruct (receive_ok ps Hc a z p1 p2 Ea Ez Fa Lz Ua Uz cf mm base F s Hpool Hp0 I0 Harr qs [] s M Hne Hp) as (p & s' & E & (d & Ed & El & Ho) & -> & (F' & I') & Hfr).
  assert (a ∈ ps) as Hin by (rewrite Ea; by left). rewrite Forall_forall in Hb, Harr.
  assert (length (iphdr d) = 20%nat) as L20 by (rewrite Ed; apply (Harr a Hin)).
  assert (0 <= datagram_len d <= 0xFFFF - IP_HLEN) as Hd.
  { pose proof (opk_len _ _ _ Ho) as Hz. rewrite zlen_app in Hz. assert (zlen (whole_header base (hd NULL (k_addrs a)) d) = 20) as Hw by (unfold zlen; by rewrite whole_header_length). unfold IP_HLEN in *. pose proof (zlen_nonneg (payload_of ps)). lia. }
  assert (is_bytes (iphdr d)) as Hbd by (rewrite Ed; by apply Hb). destruct (whole_header_ok base (hd NULL (k_addrs a)) d L20 Hbd Hd) as (H1 & H2 & H3 & _ & H4 & H5).
  exists a, p1, s', (whole_header base (hd NULL (k_addrs a)) d). split; [done|]. split; [done|]. split; [done|]. split; [by apply whole_header_length|].
  rewrite <- El, <- Ed. do 5 (split; [done|]). destruct I' as [[L _ C _ _ _] _]. split; [by apply L|]. by split.
Qed.

(** nothing waits for ever.  A tick of the timer makes every datagram that waits one tick
    older and discards, with all its buffers, each one whose time is up; after four ticks
    without a new fragment the queue is empty and the heap is what it is without the queue. *)
Theorem reassembly_expires cf F s ds : inv F s ds ->
  (exists s', ip_reass_tmr cf s = Val (tt, s') /\ inv F s' (omap aged ds)) /\
  exists s', ticks cf 4 s = Val (tt, s') /\ inv F s' [] /\ forall a, bufs (heap s') !! a = F a.
Proof.
  intros I. split; [by apply tmr_ok|]. destruct (ticks_ok cf F 4 s ds I) as (s' & E & I').
  - pose proof I as [_ Hl]. eapply Forall_impl; [exact Hl|]. intros d [_ Ht]. unfold IP_REASS_MAXAGE in Ht. lia.
  - exists s'. split; [done|]. split; [done|]. by apply inv_empty.
Qed.

(** ** Witnesses *)

(** Two pieces of a datagram, the second one first. *)
Definition example_hdr (more off : Z) : bytes := [0x45; 0; 0; 28; 0; 7; more; off; 64; 17; 0; 0; 10; 0; 0; 1; 10; 0; 0; 2].
Definition example_buf (l : bytes) : pbuf := mkPbuf 0 0 28 28 0 0 1 0 l.
Definition piece_a : piece := mkPiece [128] (example_hdr 32 0) [0; 1; 2; 3; 4; 5; 6; 7].
Definition piece_b : piece := mkPiece [64] (example_hdr 0 1) [8; 9; 10; 11; 12; 13; 14; 15].
Definition buf_of (k : piece) : pbuf := example_buf (k_hdr k ++ k_data k).
Definition example_bufs : gmap Z pbuf := <[64 := buf_of piece_b]> {[128 := buf_of piece_a]}.
Definition example_state : frags := mkFrags (mkPHeap example_bufs false) ∅ NULL 0 [].
Definition example_pool (s : frags) : Z := match datagrams s !! 1000 with None => 1000 | Some _ => NULL end.

Lemma example_pool_ok s : example_pool s = NULL \/ datagrams s !! example_pool s = None.
Proof. unfold example_pool. destruct (datagrams s !! 1000) eqn:E; [by left|by right]. Qed.

Lemma example_inv : inv (fun a => example_bufs !! a) example_state [].
Proof.
  split; [|constructor]. constructor; [| |reflexivity|discriminate|constructor|apply NoDup_nil_2].
  - constructor; [done|done|done|apply NoDup_nil_2|constructor].
  - constructor; [constructor|apply NoDup_nil_2|done|by intros a ?%elem_of_nil].
Qed.

Lemma single_opk h p n : p <> NULL -> bufs h !! p = Some n -> next n = NULL -> buf_ok n -> owned n -> tot_len n = len n -> IP_HLEN <= len n -> opk h [p] (content n).
Proof.
  intros Hp En Hx Hb Ho Ht Hl. exists p, n, []. assert (data [(p, n)] = content n) as Ed by (unfold data; cbn; apply app_nil_r). split; [done|]. split; [|split; [by constructor|by split]].
  constructor; [by split|apply NoDup_singleton|by constructor| |rewrite Ed, zlen_content by done; apply Hb].
  split; [|done]. rewrite Ed, zlen_content by done. done.
Qed.

Lemma example_arrived k : k = piece_a \/ k = piece_b -> arrived (heap example_state) (k_addrs k) (k_hdr k) (k_data k).
Proof.
  intros [-> | ->]; (constructor; [|done|done|done|done]);
    [apply (single_opk _ 128 (buf_of piece_a))|apply (single_opk _ 64 (buf_of piece_b))]; try done; unfold buf_ok; cbn; lia.
Qed.

Lemma example_cut : cut [piece_a; piece_b].
Proof.
  constructor; try reflexivity; try done.
  - repeat constructor; done.
  - intros p1 k p2 E. destruct p1 as [|x p1]; [injection E as <- <-; split; discriminate|]. injection E as <- E.
    destruct p1 as [|y p1]; [injection E as <- <-; done|]. injection E as <- E. by destruct p1.
  - intros k k' Hk Hk'. repeat (apply elem_of_cons in Hk as [->|Hk]; [repeat (apply elem_of_cons in Hk' as [->|Hk']; [done|]); by apply elem_of_nil in Hk'|]). by apply elem_of_nil in Hk.
  - repeat constructor; done.
  - cbn. lia.
  - apply NoDup_cons. split; [by intros ?%list_elem_of_singleton|apply NoDup_singleton].
Qed.

Lemma ip4_reass_correct_witness :
  exists r s' ds1, ip4_reass (fun _ => sret tt) example_pool (fun x => x) 128 example_state = Val (r, s') /\ evicted (k_hdr piece_a) [] ds1 /\
    (room example_pool example_state [128] (k_hdr piece_a) [] -> ds1 = []) /\
    ((r = NULL /\ inv (without [128] (fun a => example_bufs !! a)) s' ds1 /\ ~ room example_pool example_state [128] (k_hdr piece_a) []) \/
     exists pre d post, entry_of (k_hdr piece_a) ds1 pre d post /\ zlen (all_addrs ds1) + 1 <= IP_REASS_MAX_PBUFS /\
       inv (rest_of (judge [128] (k_hdr piece_a) (k_data piece_a) d) [128] (heap s') (fun a => example_bufs !! a)) s'
         (remains (judge [128] (k_hdr piece_a) (k_data piece_a) d) (k_hdr piece_a) (k_data piece_a) pre d post) /\
       returned (fun x => x) (judge [128] (k_hdr piece_a) (k_data piece_a) d) (k_hdr piece_a) (k_data piece_a) d r s').
Proof.
  apply (ip4_reass_correct (fun _ => sret tt) example_pool (fun x => x) (fun a => example_bufs !! a) [128] (k_hdr piece_a) (k_data piece_a) example_state []).
  - apply example_pool_ok.
  - apply example_inv.
  - apply (example_arrived piece_a). by left.
  - intros a _. apply not_elem_of_nil.
  - done.
  - discriminate.
  - by left.
Defined.

Lemma reassembly_roundtrip_witness :
  exists a rest s' h, [piece_a; piece_b] = a :: rest /\
    receive (fun _ => sret tt) example_pool (fun x => x) [piece_b; piece_a] example_state = Val ([NULL; hd NULL (k_addrs a)], s') /\
    opk (heap s') [128; 64] (h ++ [0; 1; 2; 3; 4; 5; 6; 7; 8; 9; 10; 11; 12; 13; 14; 15]) /\ length h = 20%nat /\
    swap16 (IPH_LEN h) = 36 /\ IPH_OFFSET h = 0 /\ key h = key (k_hdr a) /\
    (forall i, i ∈ [0; 1; 8; 9]%nat -> nth i h 0 = nth i (k_hdr a) 0) /\ (forall pb, InetChksum.inet_chksum pb h = 0) /\
    reassdatagrams s' = NULL /\ ip_reass_pbufcount s' = 0 /\ forall x, x ∉ [128; 64] -> bufs (heap s') !! x = bufs (heap example_state) !! x.
Proof.
  apply (reassembly_roundtrip (fun _ => sret tt) example_pool (fun x => x) (fun a => example_bufs !! a) example_state [piece_a; piece_b] [piece_b; piece_a]).
  - apply example_cut.
  - apply Permutation_swap.
  - repeat constructor; done.
  - apply example_pool_ok.
  - done.
  - apply example_inv.
  - constructor; [apply example_arrived; by left|]. constructor; [apply example_arrived; by right|constructor].
Defined.

(** A state in which a piece waits. *)
Lemma example_waits : exists F s d, inv F s [d].
Proof.
  destruct (ip4_reass_ok (fun _ => sret tt) example_pool (fun x => x) (fun a => example_bufs !! a) [128] (k_hdr piece_a) (k_data piece_a) example_pool_ok example_state []) as (r & s' & ds1 & _ & _ & Hr & H).
  - apply example_inv.
  - apply (example_arrived piece_a). by left.
  - intros a _. apply not_elem_of_nil.
  - done.
  - discriminate.
  - by left.
  - assert (room example_pool example_state [128] (k_hdr piece_a) []) as R by (split; [done|by left]). rewrite (Hr R) in H. destruct H as [(_ & _ & Hn)|(pre & d & post & He & _ & I & _)]; [done|].
    destruct He as [(d0 & E & _)|(r0 & -> & -> & -> & _)]; [by destruct pre|]. eexists _, _, _. exact I.
Qed.

Lemma reassembly_expires_witness : exists F s d, inv F s [d] /\
  (exists s', ip_reass_tmr (fun _ => sret tt) s = Val (tt, s') /\ inv F s' (omap aged [d])) /\
  exists s', ticks (fun _ => sret tt) 4 s = Val (tt, s') /\ inv F s' [] /\ forall a, bufs (heap s') !! a = F a.
Proof.
  destruct example_waits as (F & s & d & I). exists F, s, d. split; [exact I|]. apply (reassembly_expires (fun _ => sret tt) F s [d] I).
Defined.

(** A fragment behind the last one is taken in: the packet holds 44 bytes and its header
    says 36. *)
Definition piece_c : piece := mkPiece [192] (example_hdr 32 2) [16; 17; 18; 19; 20; 21; 22; 23].
Definition overrun_state : frags := mkFrags (mkPHeap (<[192 := buf_of piece_c]> example_bufs) false) ∅ NULL 0 [].
Definition overrun_view (o : outcome (list Z * frags)) : option (list Z * Z * bytes) :=
  match o with
  | Val (rs, s) => b ← bufs (heap s) !! 128; Some (rs, tot_len b, slice 2 2 (mem b))
  | Fault => None
  end.

Example beyond_last_length :
  overrun_view (receive (fun _ => sret tt) example_pool (fun x => x) [piece_b; piece_c; piece_a] overrun_state) = Some ([NULL; NULL; 128], 44, [0; 36]).
Proof. vm_compute. reflexivity. Qed.

End IP4RoundTrip.
