(* ===== verification/RustStd.v ===== *)
(** * Strings and addresses of the Rust standard library

    What the crates use of [String], [str], [FromStr] and [std::net].  A string is the list of
    its scalar values ([char]); [as_bytes] is its UTF-8 form and [from_utf8] the checked way
    back.  The address parsers follow core::net::parser character by character. *)

From Stdlib Require Import ZArith Lia.
From stdpp Require Import base list numbers.
From S2P Require Import Prelude CBytes.
Import list_basics.list list_relations.list list_monad.list list_misc.list.

Module RustStd.

(** ** Results *)

Inductive result (A E : Type) : Type :=
| Ok (a : A)
| Err (e : E).

Arguments Ok {A E} _.
Arguments Err {A E} _.

Definition rbind {A B E} (m : result A E) (k : A -> result B E) : result B E :=
  match m with
  | Ok a => k a
  | Err e => Err e
  end.

Notation "'let?' x := m 'in' k" := (rbind m (fun x => k))
  (at level 10, x pattern, m at level 200, k at level 200,
   format "'[v' 'let?'  x  :=  m  'in'  '/' k ']'") : hev_scope.

Definition ok_or {A E} (o : option A) (e : E) : result A E :=
  match o with
  | Some a => Ok a
  | None => Err e
  end.

(** ** Characters and UTF-8 *)

Abbreviation str := (list Z).

Definition is_char (c : Z) : Prop := 0 <= c < 0xD800 \/ 0xE000 <= c <= 0x10FFFF.

Definition encode_utf8 (c : Z) : bytes :=
  if c <? 0x80 then [c]
  else if c <? 0x800 then [0xC0 + c / 64; 0x80 + c mod 64]
  else if c <? 0x10000 then [0xE0 + c / 4096; 0x80 + c / 64 mod 64; 0x80 + c mod 64]
  else [0xF0 + c / 262144; 0x80 + c / 4096 mod 64; 0x80 + c / 64 mod 64; 0x80 + c mod 64].

Definition as_bytes (s : str) : bytes := s ≫= encode_utf8.

Definition between (a b x : Z) : bool := (a <=? x) && (x <=? b).
Definition continuation (x : Z) : bool := between 0x80 0xBF x.

(** The second byte of a sequence of three or four bytes: no overlong form, no surrogate,
    nothing above 0x10FFFF. *)
Definition second_of_3 (x y : Z) : bool :=
  between (if x =? 0xE0 then 0xA0 else 0x80) (if x =? 0xED then 0x9F else 0xBF) y.
Definition second_of_4 (x y : Z) : bool :=
  between (if x =? 0xF0 then 0x90 else 0x80) (if x =? 0xF4 then 0x8F else 0xBF) y.

Fixpoint from_utf8 (b : bytes) : option str :=
  match b with
  | [] => Some []
  | x :: b =>
      if x <? 0x80 then (x ::.) <$> from_utf8 b
      else
        match b with
        | [] => None
        | y :: b =>
            if between 0xC2 0xDF x then
              if continuation y then (((x - 0xC0) * 64 + (y - 0x80)) ::.) <$> from_utf8 b else None
            else
              match b with
              | [] => None
              | z :: b =>
                  if between 0xE0 0xEF x then
                    if second_of_3 x y && continuation z then (((x - 0xE0) * 4096 + (y - 0x80) * 64 + (z - 0x80)) ::.) <$> from_utf8 b else None
                  else
                    match b with
                    | [] => None
                    | w :: b =>
                        if between 0xF0 0xF4 x && second_of_4 x y && continuation z && continuation w
                        then (((x - 0xF0) * 262144 + (y - 0x80) * 4096 + (z - 0x80) * 64 + (w - 0x80)) ::.) <$> from_utf8 b
                        else None
                    end
              end
        end
  end.

(** ** [str] *)

(** White_Space of the Unicode character database *)
Definition is_whitespace (c : Z) : bool :=
  between 9 13 c || (c =? 32) || (c =? 0x85) || (c =? 0xA0) || (c =? 0x1680) || between 0x2000 0x200A c || (c =? 0x2028) || (c =? 0x2029) ||
  (c =? 0x202F) || (c =? 0x205F) || (c =? 0x3000).

Fixpoint trim_start_matches (p : Z -> bool) (s : str) : str :=
  match s with
  | [] => []
  | c :: r => if p c then trim_start_matches p r else s
  end.
Definition trim_end_matches (p : Z -> bool) (s : str) : str := reverse (trim_start_matches p (reverse s)).
Definition trim (s : str) : str := trim_end_matches is_whitespace (trim_start_matches is_whitespace s).

Definition to_ascii_lowercase (s : str) : str := (fun c => if between 65 90 c then c + 32 else c) <$> s.

Fixpoint split_once (d : Z) (s : str) : option (str * str) :=
  match s with
  | [] => None
  | c :: r => if c =? d then Some ([], r) else (fun '(a, b) => (c :: a, b)) <$> split_once d r
  end.

Definition rsplit_once (d : Z) (s : str) : option (str * str) :=
  (fun '(a, b) => (reverse b, reverse a)) <$> split_once d (reverse s).

Fixpoint strip_prefix (p s : str) : option str :=
  match p, s with
  | [], _ => Some s
  | x :: p, c :: s => if x =? c then strip_prefix p s else None
  | _ :: _, [] => None
  end.

Definition ends_with (s p : str) : bool := match strip_prefix (reverse p) (reverse s) with Some _ => true | None => false end.

(** ** Numbers *)

Definition to_digit (radix c : Z) : option Z :=
  let d := if between 48 57 c then c - 48 else if between 97 122 c then c - 87 else if between 65 90 c then c - 55 else radix in
  if d <? radix then Some d else None.

(** Digits as far as they go. *)
Fixpoint read_digits (radix : Z) (s : str) : list Z * str :=
  match s with
  | [] => ([], [])
  | c :: r =>
      match to_digit radix c with
      | None => ([], s)
      | Some d => let '(ds, rest) := read_digits radix r in (d :: ds, rest)
      end
  end.

Definition number (radix : Z) (ds : list Z) : Z := foldl (fun a d => a * radix + d) 0 ds.

(** [parse::<u8>] and [parse::<u16>]: an optional plus sign and digits *)
Definition parse_unsigned (max : Z) (s : str) : option Z :=
  let s := match s with c :: ((_ :: _) as r) => if c =? 43 then r else s | _ => s end in
  match read_digits 10 s with
  | ((_ :: _) as ds, []) => if number 10 ds <=? max then Some (number 10 ds) else None
  | _ => None
  end.

Definition show_digit (d : Z) : Z := if d <? 10 then 48 + d else 87 + d.

(** [n] in the given radix, with at most [k] digits *)
Fixpoint show (k : nat) (radix n : Z) : str :=
  match k with
  | O => []
  | S k => if n <? radix then [show_digit n] else show k radix (n / radix) ++ [show_digit (n mod radix)]
  end.

(** ** Addresses *)

Definition reader (A : Type) : Type := str -> option (A * str).

Definition read_given_char (c : Z) : reader unit :=
  fun s => match s with x :: r => if x =? c then Some (tt, r) else None | [] => None end.

Definition read_separator {A} (sep : Z) (index : nat) (inner : reader A) : reader A :=
  fun s => match index with
           | O => inner s
           | S _ => match read_given_char sep s with Some (_, r) => inner r | None => None end
           end.

Definition read_number (radix : Z) (max_digits : nat) (allow_zero_prefix : bool) (max : Z) : reader Z :=
  fun s =>
    let '(ds, rest) := read_digits radix s in
    if (max_digits <? length ds)%nat then None
    else
      match ds with
      | [] => None
      | d :: ds' =>
          if negb allow_zero_prefix && (d =? 0) && negb (length ds' =? 0)%nat then None
          else if number radix ds <=? max then Some (number radix ds, rest) else None
      end.

(** [n] groups from index [i] on, in order *)
Fixpoint read_octets (n i : nat) : reader (list Z) :=
  fun s =>
    match n with
    | O => Some ([], s)
    | S n =>
        match read_separator 46 i (read_number 10 3 false 255) s with
        | None => None
        | Some (o, s) => match read_octets n (S i) s with Some (os, s) => Some (o :: os, s) | None => None end
        end
    end.

Definition read_ipv4_addr : reader (list Z) := read_octets 4 0.

(** [read_groups]: at most [n] more groups, [i] were read; whether they end in an IPv4 address *)
Fixpoint read_groups (n i : nat) (s : str) : list Z * bool * str :=
  match n with
  | O => ([], false, s)
  | S n' =>
      let v4 := match n' with O => None | S _ => read_separator 58 i read_ipv4_addr s end in
      match v4 with
      | Some (os, r) => ([nth 0 os 0 * 256 + nth 1 os 0; nth 2 os 0 * 256 + nth 3 os 0], true, r)
      | None =>
          match read_separator 58 i (read_number 16 4 true 0xFFFF) s with
          | None => ([], false, s)
          | Some (g, r) => let '(gs, b, r) := read_groups n' (S i) r in (g :: gs, b, r)
          end
      end
  end.

Definition read_ipv6_addr : reader (list Z) :=
  fun s =>
    let '(head, head_ipv4, s) := read_groups 8 0 s in
    if (length head =? 8)%nat then Some (head, s)
    else if head_ipv4 then None
    else
      match s with
      | 58 :: 58 :: s =>
          let '(tail, _, s) := read_groups (8 - (length head + 1)) 0 s in
          Some (head ++ replicate (8 - length head - length tail) 0 ++ tail, s)
      | _ => None
      end.

Definition parse_with {A} (inner : reader A) (s : str) : option A :=
  match inner s with
  | Some (a, []) => Some a
  | _ => None
  end.

(** An address is the number that its bytes spell in network order. *)
Definition be_number (radix : Z) (l : list Z) : Z := foldl (fun a x => a * radix + x) 0 l.

Definition parse_ipv4 (s : str) : option Z := if (15 <? length s)%nat then None else be_number 256 <$> parse_with read_ipv4_addr s.
Definition parse_ipv6 (s : str) : option Z := be_number 65536 <$> parse_with read_ipv6_addr s.

Fixpoint to_be (n : nat) (radix v : Z) : list Z :=
  match n with
  | O => []
  | S n => (v / radix ^ Z.of_nat n) mod radix :: to_be n radix v
  end.

Definition octets4 (v : Z) : bytes := to_be 4 256 v.
Definition octets6 (v : Z) : bytes := to_be 16 256 v.
Definition segments (v : Z) : list Z := to_be 8 65536 v.

Inductive IpAddr := V4 (v : Z) | V6 (v : Z).

#[export] Instance IpAddr_eq_dec : EqDecision IpAddr.
Proof. solve_decision. Defined.

Definition is_ip (a : IpAddr) : Prop := match a with V4 v => 0 <= v < 2 ^ 32 | V6 v => 0 <= v < 2 ^ 128 end.

Record SocketAddr := mkSocket { ip : IpAddr; port : Z }.

Definition show_ipv4 (v : Z) : str :=
  match show 3 10 <$> octets4 v with
  | [a; b; c; d] => a ++ [46] ++ b ++ [46] ++ c ++ [46] ++ d
  | _ => []
  end.

(** [Display] of an IPv6 address: the first longest run of zero groups is left out. *)
Fixpoint zero_run (l : list Z) : nat := match l with 0 :: r => S (zero_run r) | _ => O end.

(** start and length of the run *)
Fixpoint longest_run (i : nat) (l : list Z) : nat * nat :=
  match l with
  | [] => (O, O)
  | _ :: r => let '(start, len) := longest_run (S i) r in if (len <=? zero_run l)%nat then (i, zero_run l) else (start, len)
  end.

Fixpoint show_groups (l : list Z) : str :=
  match l with
  | [] => []
  | [g] => show 4 16 g
  | g :: r => show 4 16 g ++ [58] ++ show_groups r
  end.

Definition show_ipv6 (v : Z) : str :=
  let l := segments v in
  if v / 2 ^ 32 =? 0xFFFF then [58; 58] ++ show_groups [0xFFFF] ++ [58] ++ show_ipv4 (v mod 2 ^ 32)
  else
    let '(start, len) := longest_run 0 l in
    if (1 <? len)%nat then show_groups (take start l) ++ [58; 58] ++ show_groups (drop (start + len) l) else show_groups l.

Definition show_ip (a : IpAddr) : str := match a with V4 v => show_ipv4 v | V6 v => show_ipv6 v end.

Definition show_socket (a : SocketAddr) : str :=
  match ip a with
  | V4 v => show_ipv4 v ++ [58] ++ show 5 10 (port a)
  | V6 v => [91] ++ show_ipv6 v ++ [93; 58] ++ show 5 10 (port a)
  end.

Definition read_port : reader Z :=
  fun s => match read_given_char 58 s with Some (_, r) => read_number 10 (length r) true 65535 r | None => None end.

(** [%] and a number, if they are there; the scope is not kept *)
Definition skip_scope_id (s : str) : str :=
  match read_given_char 37 s with
  | Some (_, r) => match read_number 10 (length r) true (2 ^ 32 - 1) r with Some (_, r') => r' | None => s end
  | None => s
  end.

Definition read_socket_addr_v4 : reader SocketAddr :=
  fun s =>
    match read_ipv4_addr s with
    | Some (os, s) => match read_port s with Some (p, s) => Some (mkSocket (V4 (be_number 256 os)) p, s) | None => None end
    | None => None
    end.

Definition read_socket_addr_v6 : reader SocketAddr :=
  fun s =>
    match read_given_char 91 s with
    | None => None
    | Some (_, s) =>
        match read_ipv6_addr s with
        | None => None
        | Some (gs, s) =>
            match read_given_char 93 (skip_scope_id s) with
            | None => None
            | Some (_, s) => match read_port s with Some (p, s) => Some (mkSocket (V6 (be_number 65536 gs)) p, s) | None => None end
            end
        end
    end.

Definition read_socket_addr : reader SocketAddr :=
  fun s => match read_socket_addr_v4 s with Some r => Some r | None => read_socket_addr_v6 s end.

Definition parse_socket (s : str) : option SocketAddr := parse_with read_socket_addr s.

#[export] Instance SocketAddr_eq_dec : EqDecision SocketAddr.
Proof. solve_decision. Defined.

(** [Ord] *)
Definition sock_le (a b : SocketAddr) : Prop :=
  match ip a, ip b with
  | V4 _, V6 _ => True
  | V6 _, V4 _ => False
  | V4 x, V4 y | V6 x, V6 y => x < y \/ (x = y /\ port a <= port b)
  end.

#[export] Instance sock_le_dec a b : Decision (sock_le a b).
Proof. unfold sock_le. destruct (ip a), (ip b); apply _. Defined.

(** ** Prefixes of [w]-bit addresses *)

(** [if bits == 0 { 0 } else { MAX << (w - bits) }] *)
Definition mask (w bits : Z) : Z := if bits =? 0 then 0 else Z.shiftl (2 ^ w - 1) (w - bits) mod 2 ^ w.

Lemma mask_ok w bits : 0 <= bits <= w -> mask w bits = 2 ^ w - 2 ^ (w - bits).
Proof.
  intros H. unfold mask. destruct (Z.eqb_spec bits 0) as [->|Hb]; [rewrite Z.sub_0_r; lia|].
  rewrite Z.shiftl_mul_pow2 by lia. symmetry. apply (Z.mod_unique _ _ (2 ^ (w - bits) - 1)); [|nia].
  left. pose proof (Z.pow_pos_nonneg 2 (w - bits) ltac:(lia) ltac:(lia)). pose proof (Z.pow_le_mono_r 2 (w - bits) w ltac:(lia) ltac:(lia)). lia.
Qed.

(** The bits of the prefix stay, the others go. *)
Lemma land_mask w bits x : 0 <= bits <= w -> 0 <= x < 2 ^ w -> Z.land x (mask w bits) = x / 2 ^ (w - bits) * 2 ^ (w - bits).
Proof.
  intros H Hx. rewrite mask_ok by done. assert (2 ^ w - 2 ^ (w - bits) = Z.shiftl (Z.ones bits) (w - bits)) as ->.
  { rewrite Z.shiftl_mul_pow2, Z.ones_equiv by lia. replace w with (bits + (w - bits)) at 1 by lia. rewrite Z.pow_add_r by lia. lia. }
  rewrite <- Z.shiftl_mul_pow2, <- Z.shiftr_div_pow2 by lia. apply Z.bits_inj'. intros i Hi. rewrite Z.land_spec, !Z.shiftl_spec by lia.
  destruct (Z_lt_le_dec i (w - bits)) as [Hlt|Hge]; [rewrite !(Z.testbit_neg_r _ (i - (w - bits))) by lia; apply andb_false_r|].
  rewrite Z.shiftr_spec by lia. replace (i - (w - bits) + (w - bits)) with i by lia.
  destruct (Z_lt_le_dec i w) as [Hw|Hw].
  - rewrite Z.ones_spec_low by lia. apply andb_true_r.
  - destruct (Z.eq_dec x 0) as [->|]; [by rewrite Z.bits_0|]. rewrite (Z.bits_above_log2 x i); [done|lia|]. apply Z.log2_lt_pow2; [lia|]. apply Z.lt_le_trans with (2 ^ w); [lia|]. apply Z.pow_le_mono_r; lia.
Qed.

(** An address lies in a prefix when it agrees with it above the host bits. *)
Lemma prefix_iff w bits base x : 0 <= bits <= w -> 0 <= x < 2 ^ w -> 0 <= base < 2 ^ w ->
  Z.land x (mask w bits) = Z.land base (mask w bits) <-> x / 2 ^ (w - bits) = base / 2 ^ (w - bits).
Proof.
  intros H Hx Hb. rewrite !land_mask by done. pose proof (Z.pow_pos_nonneg 2 (w - bits) ltac:(lia) ltac:(lia)). split; [nia|congruence].
Qed.

(** ** UTF-8 goes both ways *)

Lemma char_range c : is_char c -> 0 <= c <= 0x10FFFF.
Proof. unfold is_char. lia. Qed.

Lemma encode_ranges c : is_char c ->
  (c < 0x80 /\ encode_utf8 c = [c]) \/
  (exists q r, c = q * 64 + r /\ 0 <= r < 64 /\ 2 <= q < 32 /\ encode_utf8 c = [0xC0 + q; 0x80 + r]) \/
  (exists p q r, c = p * 4096 + q * 64 + r /\ 0 <= r < 64 /\ 0 <= q < 64 /\ 0 <= p < 16 /\ (p = 0 -> 32 <= q) /\ (p = 13 -> q < 32) /\
     encode_utf8 c = [0xE0 + p; 0x80 + q; 0x80 + r]) \/
  (exists o p q r, c = o * 262144 + p * 4096 + q * 64 + r /\ 0 <= r < 64 /\ 0 <= q < 64 /\ 0 <= p < 64 /\ 0 <= o <= 4 /\ (o = 0 -> 16 <= p) /\ (o = 4 -> p < 16) /\
     encode_utf8 c = [0xF0 + o; 0x80 + p; 0x80 + q; 0x80 + r]).
Proof.
  intros Hc. pose proof (char_range c Hc) as Hr. unfold is_char in Hc. unfold encode_utf8. destruct (Z.ltb_spec c 0x80); [by left|right].
  destruct (Z.ltb_spec c 0x800).
  { left. exists (c / 64), (c mod 64). pose proof (Z.div_mod c 64 ltac:(lia)). pose proof (Z.mod_pos_bound c 64 ltac:(lia)). split_and!; lia || done. }
  right. destruct (Z.ltb_spec c 0x10000).
  { left. exists (c / 4096), (c / 64 mod 64), (c mod 64). replace (c / 4096) with (c / 64 / 64) by (rewrite Z.div_div by lia; done).
    pose proof (Z.div_mod c 64 ltac:(lia)). pose proof (Z.mod_pos_bound c 64 ltac:(lia)). pose proof (Z.div_mod (c / 64) 64 ltac:(lia)). pose proof (Z.mod_pos_bound (c / 64) 64 ltac:(lia)).
    split_and!; lia || done. }
  right. exists (c / 262144), (c / 4096 mod 64), (c / 64 mod 64), (c mod 64). replace (c / 262144) with (c / 64 / 64 / 64) by (rewrite !Z.div_div by lia; done). replace (c / 4096) with (c / 64 / 64) by (rewrite Z.div_div by lia; done).
  pose proof (Z.div_mod c 64 ltac:(lia)). pose proof (Z.mod_pos_bound c 64 ltac:(lia)). pose proof (Z.div_mod (c / 64) 64 ltac:(lia)). pose proof (Z.mod_pos_bound (c / 64) 64 ltac:(lia)).
  pose proof (Z.div_mod (c / 64 / 64) 64 ltac:(lia)). pose proof (Z.mod_pos_bound (c / 64 / 64) 64 ltac:(lia)). split_and!; lia || done.
Qed.

Lemma between_true a b x : a <= x <= b -> between a b x = true.
Proof. intros. unfold between. apply andb_true_iff. rewrite !Z.leb_le. done. Qed.

Lemma between_false a b x : x < a \/ b < x -> between a b x = false.
Proof. intros. unfold between. apply andb_false_iff. rewrite !Z.leb_gt. done. Qed.

Lemma second_of_3_ok p q : 0 <= q < 64 -> (p = 0 -> 32 <= q) -> (p = 13 -> q < 32) -> second_of_3 (0xE0 + p) (0x80 + q) = true.
Proof. intros Hq H1 H2. unfold second_of_3. apply between_true. destruct (Z.eqb_spec (0xE0 + p) 0xE0), (Z.eqb_spec (0xE0 + p) 0xED); lia. Qed.

Lemma second_of_4_ok p q : 0 <= q < 64 -> (p = 0 -> 16 <= q) -> (p = 4 -> q < 16) -> second_of_4 (0xF0 + p) (0x80 + q) = true.
Proof. intros Hq H1 H2. unfold second_of_4. apply between_true. destruct (Z.eqb_spec (0xF0 + p) 0xF0), (Z.eqb_spec (0xF0 + p) 0xF4); lia. Qed.

Lemma from_utf8_char c b : is_char c -> from_utf8 (encode_utf8 c ++ b) = (c ::.) <$> from_utf8 b.
Proof.
  intros Hc. destruct (encode_ranges c Hc) as [[Hlt ->]|[(q & r & -> & Hr & Hq & ->)|[(p & q & r & -> & Hr & Hq & Hp & H0 & H13 & ->)|(o & p & q & r & -> & Hr & Hq & Hp & Ho & H0 & H4 & ->)]]]; cbn [app from_utf8].
  - by rewrite (proj2 (Z.ltb_lt _ _)).
  - rewrite (proj2 (Z.ltb_ge _ _)) by lia. rewrite (between_true 0xC2) by lia. unfold continuation. rewrite between_true by lia. do 2 f_equal. lia.
  - rewrite (proj2 (Z.ltb_ge _ _)) by lia. rewrite (between_false 0xC2), (between_true 0xE0), second_of_3_ok by lia. unfold continuation. rewrite between_true by lia. cbn [andb]. do 2 f_equal. lia.
  - rewrite (proj2 (Z.ltb_ge _ _)) by lia. rewrite (between_false 0xC2), (between_false 0xE0), (between_true 0xF0), second_of_4_ok by lia. unfold continuation. rewrite !between_true by lia. cbn [andb]. do 2 f_equal. lia.
Qed.

(** What a string is made of comes back from its bytes. *)
Lemma from_utf8_as_bytes s : Forall is_char s -> from_utf8 (as_bytes s) = Some s.
Proof.
  induction 1 as [|c s Hc _ IH]; [done|]. change (as_bytes (c :: s)) with (encode_utf8 c ++ as_bytes s). rewrite from_utf8_char by done. by rewrite IH.
Qed.

Lemma as_bytes_app s t : as_bytes (s ++ t) = as_bytes s ++ as_bytes t.
Proof. apply bind_app. Qed.

Lemma as_bytes_cons c s : as_bytes (c :: s) = encode_utf8 c ++ as_bytes s.
Proof. done. Qed.

(** ** Numbers and addresses are read as they are shown *)

Fixpoint digits (k : nat) (radix n : Z) : list Z :=
  match k with
  | O => []
  | S k => if n <? radix then [n] else digits k radix (n / radix) ++ [n mod radix]
  end.

Lemma show_digits k radix n : show k radix n = show_digit <$> digits k radix n.
Proof. revert n. induction k as [|k IH]; intros n; [done|]. cbn [show digits]. destruct (n <? radix); [done|]. by rewrite fmap_app, IH. Qed.

Lemma number_snoc radix l d : number radix (l ++ [d]) = number radix l * radix + d.
Proof. unfold number. by rewrite foldl_app. Qed.

Lemma digits_ok k radix n : 2 <= radix -> 0 <= n < radix ^ Z.of_nat k ->
  number radix (digits k radix n) = n /\ Forall (fun d => 0 <= d < radix) (digits k radix n) /\ (length (digits k radix n) <= k)%nat.
Proof.
  intros Hr. revert n. induction k as [|k IH]; intros n Hn; [change (radix ^ Z.of_nat 0) with 1 in Hn; split; [cbn; lia|split; [constructor|done]]|]. cbn [digits].
  rewrite Nat2Z.inj_succ, Z.pow_succ_r in Hn by lia. destruct (Z.ltb_spec n radix) as [H|H].
  - split_and!; [unfold number; cbn [foldl]; lia|apply Forall_singleton; lia|cbn; lia].
  - destruct (IH (n / radix)) as (E & F & L); [split; [apply Z.div_pos; lia|apply Z.div_lt_upper_bound; lia]|].
    rewrite number_snoc, E, length_app. cbn [length]. split_and!; [pose proof (Z.div_mod n radix); lia| |lia].
    apply Forall_app. split; [done|]. apply Forall_singleton. apply Z.mod_pos_bound. lia.
Qed.

(** No leading zero *)
Lemma digits_head k radix n : (1 <= k)%nat -> 2 <= radix -> 0 <= n < radix ^ Z.of_nat k ->
  exists d ds, digits k radix n = d :: ds /\ (ds = [] \/ d <> 0).
Proof.
  intros Hk Hr. revert n. induction k as [|k IH]; intros n Hn; [lia|]. cbn [digits].
  rewrite Nat2Z.inj_succ, Z.pow_succ_r in Hn by lia. destruct (Z.ltb_spec n radix) as [H|H]; [eexists _, _; split; [done|by left]|].
  assert (1 <= n / radix) by (apply Z.div_le_lower_bound; lia).
  destruct k as [|k]; [cbn in Hn; lia|]. destruct (IH ltac:(lia) (n / radix)) as (d & ds & E & Hd); [split; [lia|apply Z.div_lt_upper_bound; lia]|].
  rewrite E. exists d, (ds ++ [n mod radix]). split; [done|]. right. destruct Hd as [->|]; [|done].
  destruct (digits_ok (S k) radix (n / radix) Hr) as (E' & _ & _); [split; [lia|apply Z.div_lt_upper_bound; lia]|]. rewrite E in E'. cbn in E'. lia.
Qed.

Lemma to_digit_show radix d : radix <= 36 -> 0 <= d < radix -> to_digit radix (show_digit d) = Some d.
Proof.
  intros Hr Hd. unfold to_digit, show_digit, between. destruct (Z.ltb_spec d 10).
  - rewrite !(proj2 (Z.leb_le _ _)) by lia. cbn [andb]. replace (48 + d - 48) with d by lia. by rewrite (proj2 (Z.ltb_lt _ _)) by lia.
  - destruct (Z.leb_spec (87 + d) 57); [lia|]. rewrite andb_false_r. rewrite !(proj2 (Z.leb_le _ _)) by lia. cbn [andb].
    replace (87 + d - 87) with d by lia. by rewrite (proj2 (Z.ltb_lt _ _)) by lia.
Qed.

Definition no_digit (radix : Z) (s : str) : Prop := match s with [] => True | c :: _ => to_digit radix c = None end.

Lemma read_digits_show radix ds rest : radix <= 36 -> Forall (fun d => 0 <= d < radix) ds -> no_digit radix rest ->
  read_digits radix ((show_digit <$> ds) ++ rest) = (ds, rest).
Proof.
  intros Hr Hd Hn. induction Hd as [|d ds H _ IH].
  - cbn. destruct rest as [|c rest]; [done|]. cbn in *. by rewrite Hn.
  - rewrite fmap_cons. cbn [app read_digits]. by rewrite to_digit_show, IH.
Qed.

Lemma read_number_show radix k max_digits zero max n rest :
  2 <= radix <= 36 -> (1 <= k)%nat -> (length (show k radix n) <= max_digits)%nat -> 0 <= n <= max -> n < radix ^ Z.of_nat k -> no_digit radix rest ->
  read_number radix max_digits zero max (show k radix n ++ rest) = Some (n, rest).
Proof.
  intros Hr Hk Hm Hn Hb Hd. unfold read_number. rewrite show_digits, length_fmap in *. destruct (digits_ok k radix n) as (E & F & L); [lia..|].
  rewrite read_digits_show by (done || lia). rewrite (proj2 (Nat.ltb_ge _ _)) by lia.
  destruct (digits_head k radix n) as (d & ds & Eq & Hh); [lia..|]. rewrite Eq in *.
  assert (negb zero && (d =? 0) && negb (length ds =? 0)%nat = false) as ->.
  { destruct Hh as [->|Hz]; [by rewrite andb_false_r|]. by rewrite (proj2 (Z.eqb_neq _ _) Hz), andb_false_r. }
  rewrite E. by rewrite (proj2 (Z.leb_le _ _)) by lia.
Qed.

Lemma show_octet_length v : (length (show 3 10 (v mod 256)) <= 3)%nat.
Proof. rewrite show_digits, length_fmap. apply digits_ok; [lia|]. pose proof (Z.mod_pos_bound v 256). lia. Qed.

Lemma read_octets_show v rest : no_digit 10 rest -> read_ipv4_addr (show_ipv4 v ++ rest) = Some (octets4 v, rest).
Proof.
  intros Hn. unfold show_ipv4. change (octets4 v) with [v / 16777216 mod 256; v / 65536 mod 256; v / 256 mod 256; v / 1 mod 256].
  cbn [fmap list_fmap]. rewrite <- !app_assoc. unfold read_ipv4_addr. cbn [read_octets read_separator].
  rewrite read_number_show; [|lia|lia|apply show_octet_length|pose proof (Z.mod_pos_bound (v / 16777216) 256); lia|pose proof (Z.mod_pos_bound (v / 16777216) 256); lia|done].
  cbn [app read_given_char]. change (46 =? 46) with true. cbn iota.
  rewrite read_number_show; [|lia|lia|apply show_octet_length|pose proof (Z.mod_pos_bound (v / 65536) 256); lia|pose proof (Z.mod_pos_bound (v / 65536) 256); lia|done].
  cbn [app read_given_char]. change (46 =? 46) with true. cbn iota.
  rewrite read_number_show; [|lia|lia|apply show_octet_length|pose proof (Z.mod_pos_bound (v / 256) 256); lia|pose proof (Z.mod_pos_bound (v / 256) 256); lia|done].
  cbn [app read_given_char]. change (46 =? 46) with true. cbn iota.
  rewrite read_number_show; [done|lia|lia|apply show_octet_length|pose proof (Z.mod_pos_bound (v / 1) 256); lia|pose proof (Z.mod_pos_bound (v / 1) 256); lia|done].
Qed.

Lemma be_octets4 v : 0 <= v < 2 ^ 32 -> be_number 256 (octets4 v) = v.
Proof.
  change (octets4 v) with [v / 16777216 mod 256; v / 65536 mod 256; v / 256 mod 256; v / 1 mod 256].
  unfold be_number. cbn [foldl]. intros H. Z.to_euclidean_division_equations. lia.
Qed.

Lemma be_number_cons radix x l : be_number radix (x :: l) = x * radix ^ zlen l + be_number radix l.
Proof.
  unfold be_number. cbn [foldl]. enough (forall a, foldl (fun a x => a * radix + x) a l = a * radix ^ zlen l + foldl (fun a x => a * radix + x) 0 l) as H by (rewrite H; lia).
  induction l as [|y l IH]; intros a; cbn [foldl]; [change (zlen []) with 0; rewrite Z.pow_0_r; lia|]. rewrite IH, (IH (0 * radix + y)), zlen_cons. change (zlen l + 1) with (Z.succ (zlen l)).
  rewrite Z.pow_succ_r by apply zlen_nonneg. lia.
Qed.

Lemma to_be_length n radix v : length (to_be n radix v) = n.
Proof. induction n as [|n IH]; [done|]. cbn. by rewrite IH. Qed.

Lemma be_to_be n radix v : 1 <= radix -> be_number radix (to_be n radix v) = v mod radix ^ Z.of_nat n.
Proof.
  intros Hr. induction n as [|n IH]; [cbn; by rewrite Z.mod_1_r|]. cbn [to_be]. rewrite be_number_cons, IH. unfold zlen. rewrite to_be_length.
  pose proof (Z.pow_pos_nonneg radix (Z.of_nat n)). rewrite Nat2Z.inj_succ, Z.pow_succ_r, (Z.mul_comm radix) by lia. rewrite Z.rem_mul_r by lia. lia.
Qed.

Lemma to_be_range n radix v : 1 <= radix -> Forall (fun x => 0 <= x < radix) (to_be n radix v).
Proof. intros Hr. induction n as [|n IH]; [constructor|]. constructor; [apply Z.mod_pos_bound; lia|done]. Qed.

Lemma parse_show_socket v p : 0 <= v < 2 ^ 32 -> 0 <= p < 65536 -> parse_socket (show_socket (mkSocket (V4 v) p)) = Some (mkSocket (V4 v) p).
Proof.
  intros Hv Hp. unfold parse_socket, parse_with, read_socket_addr, read_socket_addr_v4, show_socket. cbn [ip port].
  rewrite read_octets_show by done. unfold read_port. cbn [app read_given_char]. change (58 =? 58) with true. cbn iota.
  pose proof (read_number_show 10 5 (length (show 5 10 p)) true 65535 p []) as H. rewrite app_nil_r in H. rewrite H; clear H; [by rewrite be_octets4|lia|lia|lia|lia|lia|done].
Qed.

(** ** What is read is in range *)

Lemma to_digit_nonneg radix c d : to_digit radix c = Some d -> 0 <= radix -> 0 <= d.
Proof.
  unfold to_digit, between. intros H Hr.
  destruct (Z.leb_spec 48 c), (Z.leb_spec c 57), (Z.leb_spec 97 c), (Z.leb_spec c 122), (Z.leb_spec 65 c), (Z.leb_spec c 90); cbn [andb] in H; case_match; simplify_eq; lia.
Qed.

Lemma read_digits_nonneg radix s ds rest : 0 <= radix -> read_digits radix s = (ds, rest) -> Forall (fun d => 0 <= d) ds.
Proof.
  intros Hr. revert ds rest. induction s as [|c s IH]; intros ds rest; cbn [read_digits]; [intros [= <- _]; constructor|].
  destruct (to_digit radix c) as [d|] eqn:E; [|intros [= <- _]; constructor]. destruct (read_digits radix s) as [ds' rest'] eqn:Es.
  intros [= <- _]. constructor; [by eapply to_digit_nonneg|by eapply IH].
Qed.

Lemma number_nonneg radix ds : 0 <= radix -> Forall (fun d => 0 <= d) ds -> 0 <= number radix ds.
Proof.
  intros Hr. intros H. unfold number. enough (forall a, 0 <= a -> 0 <= foldl (fun a d => a * radix + d) a ds) as E by (apply E; lia).
  induction H as [|d ds Hd _ IH]; intros a Ha; cbn [foldl]; [done|]. apply IH. nia.
Qed.

Lemma read_number_range radix k z max s n r : 0 <= radix -> read_number radix k z max s = Some (n, r) -> 0 <= n <= max.
Proof.
  unfold read_number. intros Hr. destruct (read_digits radix s) as [ds rest] eqn:E. case_match; [done|]. destruct ds as [|d ds]; [done|]. case_match; [done|].
  destruct (Z.leb_spec (number radix (d :: ds)) max); [|done]. intros [= <- _]. split; [|done]. eapply number_nonneg, read_digits_nonneg; done.
Qed.

Lemma read_port_range s p r : read_port s = Some (p, r) -> 0 <= p < 65536.
Proof. unfold read_port. repeat case_match; try done. intros Hn. apply read_number_range in Hn; lia. Qed.

Lemma parse_socket_port s a : parse_socket s = Some a -> 0 <= port a < 65536.
Proof.
  unfold parse_socket, parse_with, read_socket_addr, read_socket_addr_v4, read_socket_addr_v6. intros H.
  repeat (case_match; try discriminate H); simplify_eq; cbn [port]; by eapply read_port_range.
Qed.

Lemma parse_unsigned_range max s n : parse_unsigned max s = Some n -> 0 <= n <= max.
Proof.
  unfold parse_unsigned. set (s' := match s with [] => _ | _ => _ end). destruct (read_digits 10 s') as [ds rest] eqn:E.
  destruct ds as [|d ds]; [done|]. destruct rest; [|done]. destruct (Z.leb_spec (number 10 (d :: ds)) max); [|done]. intros [= <-]. split; [|done].
  apply number_nonneg; [lia|]. by eapply read_digits_nonneg; [|exact E].
Qed.

Lemma read_octets_range n : forall i s os r, read_octets n i s = Some (os, r) -> length os = n /\ Forall (fun o => 0 <= o <= 255) os.
Proof.
  induction n as [|n IH]; intros i s os r; cbn [read_octets]; [intros [= <- _]; split; [done|constructor]|].
  destruct (read_separator 46 i _ s) as [[o s']|] eqn:E; [|done]. destruct (read_octets n (S i) s') as [[os' s'']|] eqn:E'; [|done].
  intros [= <- _]. apply IH in E' as [L F]. split; [cbn; lia|]. constructor; [|done].
  unfold read_separator in E. repeat case_match; try done; by eapply read_number_range in E.
Qed.

Lemma parse_socket_v4 s v p : parse_socket s = Some (mkSocket (V4 v) p) -> 0 <= v < 2 ^ 32.
Proof.
  unfold parse_socket, parse_with, read_socket_addr, read_socket_addr_v4, read_socket_addr_v6, read_ipv4_addr. intros H.
  repeat (case_match; try discriminate H); simplify_eq;
    match goal with E : read_octets 4 0 _ = Some (?l, _) |- _ => apply read_octets_range in E as [L F]; destruct l as [|a [|b [|c [|d [|]]]]]; try done end.
  repeat (apply Forall_cons in F as [? F]). unfold be_number. cbn [foldl]. lia.
Qed.

Lemma parse_ipv4_range s v : parse_ipv4 s = Some v -> 0 <= v < 2 ^ 32.
Proof.
  unfold parse_ipv4. case_match; [done|]. unfold parse_with, read_ipv4_addr. destruct (read_octets 4 0 s) as [[os rest]|] eqn:E; [|done]. destruct rest; [|done]. intros [= <-].
  apply read_octets_range in E as [L F]. destruct os as [|a [|b [|c [|d [|]]]]]; try done. repeat (apply Forall_cons in F as [? F]). unfold be_number. cbn [foldl]. lia.
Qed.

Lemma read_groups_range n : forall i s gs b r, read_groups n i s = (gs, b, r) -> (length gs <= n)%nat /\ Forall (fun g => 0 <= g < 65536) gs.
Proof.
  induction n as [|n IH]; intros i s gs b r; cbn [read_groups]; [intros [= <- _ _]; split; [done|constructor]|].
  destruct (match n with O => None | S _ => read_separator 58 i read_ipv4_addr s end) as [[os r']|] eqn:E4.
  - intros [= <- _ _]. destruct n as [|n]; [done|]. assert (exists i' s', read_octets 4 0 s' = Some (os, r') /\ i' = i) as (_ & s' & Eo & _).
    { unfold read_separator, read_ipv4_addr in E4. destruct i; [eauto|]. destruct (read_given_char 58 s) as [[u x]|]; [eauto|done]. }
    apply read_octets_range in Eo as [L F]. destruct os as [|x0 [|x1 [|x2 [|x3 [|]]]]]; try done. repeat (apply Forall_cons in F as [? F]). cbn [length nth]. split; [lia|]. repeat (constructor; [lia|]). constructor.
  - destruct (read_separator 58 i (read_number 16 4 true 0xFFFF) s) as [[g r']|] eqn:Eg; [|intros [= <- _ _]; split; [cbn; lia|constructor]].
    destruct (read_groups n (S i) r') as [[gs' b'] r''] eqn:Er. intros [= <- _ _]. apply IH in Er as [L F]. split; [cbn; lia|]. constructor; [|done].
    assert (0 <= g <= 0xFFFF) as Hg by (unfold read_separator in Eg; repeat case_match; try done; by eapply read_number_range in Eg). lia.
Qed.

Lemma be_number_range radix l : 1 <= radix -> Forall (fun x => 0 <= x < radix) l -> 0 <= be_number radix l < radix ^ zlen l.
Proof.
  intros Hr. induction 1 as [|x l Hx _ IH]; [done|]. rewrite be_number_cons, zlen_cons. change (zlen l + 1) with (Z.succ (zlen l)). rewrite Z.pow_succ_r by apply zlen_nonneg. nia.
Qed.

Lemma parse_ipv6_range s v : parse_ipv6 s = Some v -> 0 <= v < 2 ^ 128.
Proof.
  unfold parse_ipv6, parse_with. destruct (read_ipv6_addr s) as [[gs rest]|] eqn:E; [|done]. destruct rest; [|done]. intros [= <-].
  assert (length gs = 8%nat /\ Forall (fun g => 0 <= g < 65536) gs) as [L F].
  { unfold read_ipv6_addr in E. destruct (read_groups 8 0 s) as [[hd b] s'] eqn:Eh. apply read_groups_range in Eh as [Lh Fh]. destruct (Nat.eqb_spec (length hd) 8) as [E8|E8]; [by injection E as <- _|].
    destruct b; [done|]. destruct s' as [|x s']; [done|]. destruct (decide (x = 58)) as [->|]; [|by repeat case_match]. destruct s' as [|y s']; [done|]. destruct (decide (y = 58)) as [->|]; [|by repeat case_match].
    destruct (read_groups _ 0 s') as [[tl b'] s''] eqn:Et. apply read_groups_range in Et as [Lt Ft]. injection E as <- _. rewrite !length_app, length_replicate. split; [lia|].
    apply Forall_app. split; [done|]. apply Forall_app. split; [apply Forall_replicate; lia|done]. }
  pose proof (be_number_range 65536 gs ltac:(lia) F) as H. unfold zlen in H. rewrite L in H. done.
Qed.

(** ** Splitting *)

Lemma split_once_spec d s a b : split_once d s = Some (a, b) <-> s = a ++ [d] ++ b /\ d ∉ a.
Proof.
  revert a. induction s as [|c s IH]; intros a; cbn [split_once].
  - split; [done|]. intros [H _]. by destruct a.
  - destruct (Z.eqb_spec c d) as [->|Hc].
    + split; [intros [= <- <-]; split; [done|apply not_elem_of_nil]|]. intros [E Hn]. destruct a as [|x a]; [cbn in E; by injection E as ->|].
      injection E as -> _. destruct Hn. left.
    + split.
      * destruct (split_once d s) as [[a' b']|] eqn:E; [|done]. cbn. intros [= <- ->]. destruct (proj1 (IH a') eq_refl) as [-> Hn]. split; [done|]. apply not_elem_of_cons. done.
      * intros [E Hn]. destruct a as [|x a]; [cbn in E; by injection E as -> _|]. injection E as <- ->. apply not_elem_of_cons in Hn as [_ Hn]. by rewrite (proj2 (IH a) (conj eq_refl Hn)).
Qed.

Lemma rsplit_once_spec d s a b : rsplit_once d s = Some (a, b) <-> s = a ++ [d] ++ b /\ d ∉ b.
Proof.
  unfold rsplit_once. pose proof (split_once_spec d (reverse s)) as H. split.
  - destruct (split_once d (reverse s)) as [[x y]|]; [|done]. intros [= <- <-]. destruct (proj1 (H x y) eq_refl) as [E Hn].
    split; [|by rewrite elem_of_reverse]. rewrite <- (reverse_involutive s), E, !reverse_app. cbn. by rewrite <- app_assoc.
  - intros [-> Hn]. rewrite (proj2 (H (reverse b) (reverse a))).
    + cbn. by rewrite !reverse_involutive.
    + split; [rewrite !reverse_app; cbn; by rewrite <- app_assoc|by rewrite elem_of_reverse].
Qed.

(** ** Evaluations *)

Example parse_unsigned_values :
  parse_unsigned 255 [52; 50] = Some 42 /\ parse_unsigned 255 [43; 52; 50] = Some 42 /\ parse_unsigned 255 [50; 53; 54] = None /\
  parse_unsigned 255 [43] = None /\ parse_unsigned 255 [] = None.
Proof. repeat split. Qed.

(** 127.0.0.1, ::1, 01.0.0.1 *)
Example parse_address_values :
  parse_ipv4 [49; 50; 55; 46; 48; 46; 48; 46; 49] = Some 0x7f000001 /\ parse_ipv6 [58; 58; 49] = Some 1 /\
  parse_ipv4 [48; 49; 46; 48; 46; 48; 46; 49] = None.
Proof. repeat split. Qed.
Lemma between_spec a b x : between a b x = true -> a <= x <= b.
Proof. unfold between. rewrite andb_true_iff, !Z.leb_le. done. Qed.

Lemma encode_2 x y : 0xC2 <= x <= 0xDF -> 0x80 <= y <= 0xBF -> encode_utf8 ((x - 0xC0) * 64 + (y - 0x80)) = [x; y].
Proof.
  intros. unfold encode_utf8. rewrite (proj2 (Z.ltb_ge _ 0x80)), (proj2 (Z.ltb_lt _ 0x800)) by lia. repeat f_equal; Z.to_euclidean_division_equations; lia.
Qed.

Lemma encode_3 x y z : 0xE0 <= x <= 0xEF -> 0x80 <= y <= 0xBF -> (x = 0xE0 -> 0xA0 <= y) -> 0x80 <= z <= 0xBF ->
  encode_utf8 ((x - 0xE0) * 4096 + (y - 0x80) * 64 + (z - 0x80)) = [x; y; z].
Proof.
  intros. unfold encode_utf8. rewrite (proj2 (Z.ltb_ge _ 0x80)), (proj2 (Z.ltb_ge _ 0x800)), (proj2 (Z.ltb_lt _ 0x10000)) by lia. repeat f_equal; Z.to_euclidean_division_equations; lia.
Qed.

Lemma encode_4 x y z w : 0xF0 <= x <= 0xF4 -> 0x80 <= y <= 0xBF -> (x = 0xF0 -> 0x90 <= y) -> 0x80 <= z <= 0xBF -> 0x80 <= w <= 0xBF ->
  encode_utf8 ((x - 0xF0) * 262144 + (y - 0x80) * 4096 + (z - 0x80) * 64 + (w - 0x80)) = [x; y; z; w].
Proof.
  intros. unfold encode_utf8. rewrite (proj2 (Z.ltb_ge _ 0x80)), (proj2 (Z.ltb_ge _ 0x800)), (proj2 (Z.ltb_ge _ 0x10000)) by lia. repeat f_equal; Z.to_euclidean_division_equations; lia.
Qed.

(** What is accepted is the UTF-8 form of the characters that are read. *)
Lemma from_utf8_step b s : is_bytes b -> from_utf8 b = Some s ->
  (b = [] /\ s = []) \/ exists c b' s', b = encode_utf8 c ++ b' /\ s = c :: s' /\ is_char c /\ from_utf8 b' = Some s'.
Proof.
  intros Hb H. destruct b as [|x b]; [left; cbn in H; by simplify_eq|right]. apply Forall_cons in Hb as [Hx Hb]. unfold is_u8 in Hx. cbn [from_utf8] in H.
  destruct (Z.ltb_spec x 0x80). { apply fmap_Some in H as (s' & Hs & ->). exists x, b, s'. unfold encode_utf8, is_char. rewrite (proj2 (Z.ltb_lt x 0x80)) by done. split_and!; [done|done|lia|done]. }
  destruct b as [|y b]; [done|]. destruct (between 0xC2 0xDF x) eqn:E2.
  { destruct (continuation y) eqn:Ey; [|done]. apply fmap_Some in H as (s' & Hs & ->). apply between_spec in E2, Ey. eexists _, b, s'. split_and!; [|done|unfold is_char; lia|done].
    by rewrite encode_2 by lia. }
  destruct b as [|z b]; [done|]. destruct (between 0xE0 0xEF x) eqn:E3.
  { destruct (second_of_3 x y) eqn:Ey, (continuation z) eqn:Ez; try done. apply fmap_Some in H as (s' & Hs & ->). apply between_spec in E3, Ey, Ez. eexists _, b, s'.
    destruct (Z.eqb_spec x 0xE0), (Z.eqb_spec x 0xED); (split_and!; [|done|unfold is_char; lia|done]); by rewrite encode_3 by lia. }
  destruct b as [|w b]; [done|]. destruct (between 0xF0 0xF4 x) eqn:E4, (second_of_4 x y) eqn:Ey, (continuation z) eqn:Ez, (continuation w) eqn:Ew; try done.
  apply fmap_Some in H as (s' & Hs & ->). apply between_spec in E4, Ey, Ez, Ew. eexists _, b, s'.
  destruct (Z.eqb_spec x 0xF0), (Z.eqb_spec x 0xF4); (split_and!; [|done|unfold is_char; lia|done]); by rewrite encode_4 by lia.
Qed.

Lemma from_utf8_sound b s : is_bytes b -> from_utf8 b = Some s -> as_bytes s = b /\ Forall is_char s.
Proof.
  remember (length b) as n eqn:E. revert b s E. induction (lt_wf n) as [n _ IH]. intros b s -> Hb H.
  destruct (from_utf8_step b s Hb H) as [[-> ->]|(c & b' & s' & -> & -> & Hc & H')]; [done|].
  apply Forall_app in Hb as [_ Hb]. destruct (IH (length b')) with b' s' as [<- Hs]; [|done..|].
  - rewrite length_app. destruct (encode_ranges c Hc) as [[_ ->]|[(? & ? & _ & _ & _ & ->)|[(? & ? & ? & _ & _ & _ & _ & _ & _ & ->)|(? & ? & ? & ? & _ & _ & _ & _ & _ & _ & _ & ->)]]]; cbn [length]; lia.
  - split; [done|by constructor].
Qed.

Lemma zero_char c : is_char c -> 0 ∈ encode_utf8 c -> c = 0.
Proof.
  intros Hc. destruct (encode_ranges c Hc) as [[_ ->]|[(? & ? & _ & ? & ? & ->)|[(? & ? & ? & _ & ? & ? & ? & _ & _ & ->)|(? & ? & ? & ? & _ & ? & ? & ? & ? & _ & _ & ->)]]];
    rewrite ?elem_of_cons, elem_of_nil; lia.
Qed.

Lemma zero_as_bytes s : Forall is_char s -> 0 ∈ as_bytes s <-> 0 ∈ s.
Proof.
  rewrite Forall_forall. intros Hs. unfold as_bytes. rewrite list_elem_of_bind. split.
  - intros (c & H0 & Hc). by rewrite <- (zero_char c (Hs c Hc) H0).
  - intros H. exists 0. split; [by left|done].
Qed.
Lemma as_bytes_ascii s : Forall (fun c => c < 0x80) s -> as_bytes s = s.
Proof. induction 1 as [|c s Hc _ IH]; [done|]. rewrite as_bytes_cons, IH. unfold encode_utf8. by rewrite (proj2 (Z.ltb_lt _ _)). Qed.

(** A decimal number as it is shown: digits, no leading zero, and [parse] gives it back. *)
Lemma show_decimal k max n : (1 <= k)%nat -> 0 <= n <= max -> max < 10 ^ Z.of_nat k ->
  parse_unsigned max (show k 10 n) = Some n /\ Forall (fun c => 48 <= c <= 57) (show k 10 n) /\ exists c r, show k 10 n = c :: r /\ (r = [] \/ c <> 48).
Proof.
  intros Hk Hn Hm. rewrite show_digits. destruct (digits_ok k 10 n) as (E & F & _); [lia..|]. destruct (digits_head k 10 n) as (d & ds & Eq & Hh); [lia..|].
  assert (Forall (fun c => 48 <= c <= 57) (show_digit <$> digits k 10 n)) as Hd.
  { apply Forall_fmap. eapply Forall_impl; [done|]. intros x Hx. cbn beta in Hx. unfold compose, show_digit. rewrite (proj2 (Z.ltb_lt _ _)) by lia. lia. }
  assert (read_digits 10 (show_digit <$> digits k 10 n) = (digits k 10 n, [])) as Hr.
  { rewrite <- (app_nil_r (show_digit <$> _)). apply read_digits_show; [lia|done|done]. }
  rewrite Eq in *. rewrite fmap_cons in *. pose proof (Forall_inv Hd) as Hc. pose proof (Forall_inv F) as Hd0. cbn beta in Hc, Hd0. split_and!; [|done|].
  - unfold parse_unsigned. destruct (show_digit <$> ds) as [|c r]; [by rewrite Hr, E, (proj2 (Z.leb_le _ _)) by lia|]. rewrite (proj2 (Z.eqb_neq _ 43)) by lia. by rewrite Hr, E, (proj2 (Z.leb_le _ _)) by lia.
  - eexists _, _. split; [done|]. destruct Hh as [-> | H0]; [by left|right]. unfold show_digit. rewrite (proj2 (Z.ltb_lt _ _)) by lia. lia.
Qed.
(** ** Results of chains of steps *)

Lemma rbind_ok {A B E} (m : result A E) (k : A -> result B E) x : rbind m k = Ok x <-> exists a, m = Ok a /\ k a = Ok x.
Proof. destruct m; cbn; split; [intros; by eexists|intros (? & [= <-] & ?); done|done|intros (? & ? & ?); done]. Qed.

Lemma ok_or_ok {A E} (o : option A) (e : E) x : ok_or o e = Ok x <-> o = Some x.
Proof. destruct o; cbn; split; by intros [= ->]. Qed.

Lemma ok_inj {A E} (a b : A) : Ok (E := E) a = Ok b -> a = b.
Proof. by intros [= ->]. Qed.

(** Take a chain of fallible steps that succeeded apart. *)
Ltac steps H :=
  repeat match type of H with
  | rbind _ _ = Ok _ => let a := fresh "a" in let E := fresh "E" in apply rbind_ok in H as (a & E & H); try (apply ok_or_ok in E)
  | (if ?b then Err _ else _) = Ok _ => let E := fresh "E" in destruct b eqn:E; [discriminate H|]
  end.

Lemma as_bytes_inj s t : Forall is_char s -> Forall is_char t -> as_bytes s = as_bytes t -> s = t.
Proof. intros Hs Ht E. apply from_utf8_as_bytes in Hs, Ht. rewrite E in Hs. congruence. Qed.

End RustStd.
