(* ===== verification/PeerRuntime.v ===== *)
(** * LAN Exports and their directory (crates/tp-client/src/peer_runtime.rs)

    A Peer publishes the private networks that it exports; the directory keeps the record of
    every origin and, for each prefix, the origins that export it in the order in which they
    appeared.  An IPv4 address is its number.  Where the code runs over a hash map or a hash
    set the model takes the order of the entries as an argument or treats keys that do not
    influence each other. *)

From Stdlib Require Import ZArith Lia Sorted.
From stdpp Require Import base list gmap numbers sorting.
From S2P Require Import Prelude CBytes RustStd.
Import list_basics.list list_relations.list list_monad.list list_misc.list.
Import RustStd.

Module PeerRuntime.

(** ** Prefixes *)

Definition OVERLAY_BASE_V2 : Z := be_number 256 [198; 18; 0; 0].
Definition OVERLAY_MASK_V2 : Z := 0xffff0000.
Definition MAX_LAN_EXPORTS_PER_PEER_V2 : nat := 64.

Record LanExportPrefixV2 := mkPrefix { network : Z; prefix_len : Z }.

#[export] Instance prefix_eq_dec : EqDecision LanExportPrefixV2.
Proof. solve_decision. Defined.
#[export] Instance prefix_countable : Countable LanExportPrefixV2.
Proof. refine (inj_countable' (fun p => (network p, prefix_len p)) (fun '(n, l) => mkPrefix n l) _). by intros []. Defined.

Inductive PeerRuntimeErrorV2 := InvalidPrefix | TooManyExports | DuplicatePrefix | InvalidEncoding | InvalidOrigin.

Definition ipv4_mask (bits : Z) : Z := mask 32 bits.

Definition in_prefix (value base bits : Z) : bool := Z.land value (ipv4_mask bits) =? Z.land base (ipv4_mask bits).

Definition is_rfc1918 (value : Z) : bool :=
  in_prefix value (be_number 256 [10; 0; 0; 0]) 8 || in_prefix value (be_number 256 [172; 16; 0; 0]) 12 || in_prefix value (be_number 256 [192; 168; 0; 0]) 16.

Definition ranges_overlap (first_a last_a first_b last_b : Z) : bool := (first_a <=? last_b) && (first_b <=? last_a).

(** [!mask] on 32 bits *)
Definition not32 (x : Z) : Z := 2 ^ 32 - 1 - x.

(** std::net::Ipv4Addr *)
Definition is_loopback (v : Z) : bool := v / 2 ^ 24 =? 127.
Definition is_link_local (v : Z) : bool := v / 2 ^ 16 =? 169 * 256 + 254.
Definition is_multicast (v : Z) : bool := between 224 239 (v / 2 ^ 24).
Definition is_unspecified (v : Z) : bool := v =? 0.

Definition prefix_new (net len : Z) : result LanExportPrefixV2 PeerRuntimeErrorV2 :=
  if negb (between 8 32 len) then Err InvalidPrefix
  else
    let m := ipv4_mask len in
    let canonical := Z.land net m in
    if negb (canonical =? net) then Err InvalidPrefix
    else
      let last := Z.lor canonical (not32 m) in
      if negb (is_rfc1918 canonical) || negb (is_rfc1918 last) ||
         ranges_overlap canonical last OVERLAY_BASE_V2 (Z.lor OVERLAY_BASE_V2 (not32 OVERLAY_MASK_V2)) ||
         is_loopback canonical || is_link_local canonical || is_multicast canonical || is_unspecified canonical
      then Err InvalidPrefix
      else Ok (mkPrefix canonical len).

Definition contains (p : LanExportPrefixV2) (address : Z) : bool := Z.land address (ipv4_mask (prefix_len p)) =? network p.

(** ** Records *)

Record LanExportV2 := mkExport { prefix : LanExportPrefixV2; ready : bool }.

#[export] Instance export_eq_dec : EqDecision LanExportV2.
Proof. solve_decision. Defined.

Abbreviation PeerRuntimeRecordV2 := (list LanExportV2).

(** The order of [sort_by_key] *)
Definition key_le (a b : LanExportPrefixV2) : Prop := network a < network b \/ (network a = network b /\ prefix_len a <= prefix_len b).

#[export] Instance key_le_dec a b : Decision (key_le a b).
Proof. unfold key_le. apply _. Defined.

Section sorting.
Context {A : Type} (key : A -> LanExportPrefixV2).

Fixpoint insert_by_key (e : A) (l : list A) : list A :=
  match l with
  | [] => [e]
  | f :: r => if decide (key_le (key e) (key f)) then e :: l else f :: insert_by_key e r
  end.

Definition sort_by_key (l : list A) : list A := foldr insert_by_key [] l.

End sorting.

(** [windows(2).any(..)] *)
Fixpoint has_neighbours (l : list LanExportV2) : bool :=
  match l with
  | e :: ((f :: _) as r) => bool_decide (prefix e = prefix f) || has_neighbours r
  | _ => false
  end.

Definition record_new (lan_exports : list LanExportV2) : result PeerRuntimeRecordV2 PeerRuntimeErrorV2 :=
  if (MAX_LAN_EXPORTS_PER_PEER_V2 <? length lan_exports)%nat then Err TooManyExports
  else
    let sorted := sort_by_key prefix lan_exports in
    if has_neighbours sorted then Err DuplicatePrefix else Ok sorted.

Definition encode_export (e : LanExportV2) : bytes := octets4 (network (prefix e)) ++ [prefix_len (prefix e); if ready e then 1 else 0].
Definition encode (r : PeerRuntimeRecordV2) : bytes := u8 (zlen r) :: (r ≫= encode_export).

Fixpoint decode_chunks (b : bytes) : result (list LanExportV2) PeerRuntimeErrorV2 :=
  match b with
  | x0 :: x1 :: x2 :: x3 :: x4 :: x5 :: b =>
      let? p := prefix_new (be_number 256 [x0; x1; x2; x3]) x4 in
      let? r := (if x5 =? 0 then Ok false else if x5 =? 1 then Ok true else Err InvalidEncoding) in
      let? l := decode_chunks b in
      Ok (mkExport p r :: l)
  | _ => Ok []
  end.

Definition decode (encoded : bytes) : result PeerRuntimeRecordV2 PeerRuntimeErrorV2 :=
  match encoded with
  | [] => Err InvalidEncoding
  | count :: rest =>
      if (Z.of_nat MAX_LAN_EXPORTS_PER_PEER_V2 <? count) || negb (zlen encoded =? 1 + count * 6) then Err InvalidEncoding
      else let? exports := decode_chunks rest in record_new exports
  end.

(** ** The record to publish *)

Record LocalLanExportConfigV2 := mkConfig { configured : list LanExportPrefixV2; auto_current_lan : bool }.

(** One of the two loops: prefixes that were not seen yet, up to the limit. *)
Fixpoint collect (ready_of : LanExportPrefixV2 -> bool) (ps : list LanExportPrefixV2) (seen : gset LanExportPrefixV2) (exports : list LanExportV2) :
  gset LanExportPrefixV2 * list LanExportV2 :=
  match ps with
  | [] => (seen, exports)
  | p :: ps =>
      if (length exports =? MAX_LAN_EXPORTS_PER_PEER_V2)%nat then (seen, exports)
      else if decide (p ∈ seen) then collect ready_of ps seen exports
      else collect ready_of ps ({[p]} ∪ seen) (exports ++ [mkExport p (ready_of p)])
  end.

Definition resolved (c : LocalLanExportConfigV2) (connected_lans : option (list LanExportPrefixV2)) : list LanExportV2 :=
  let '(seen, exports) := collect (fun p => bool_decide (p ∈ default [] connected_lans)) (configured c) ∅ [] in
  if auto_current_lan c then snd (collect (fun _ => true) (default [] connected_lans) seen exports) else exports.

(** [None] is the panic of [expect]. *)
Definition resolve (c : LocalLanExportConfigV2) (connected_lans : option (list LanExportPrefixV2)) : option PeerRuntimeRecordV2 :=
  match record_new (resolved c connected_lans) with
  | Ok r => Some r
  | Err _ => None
  end.

(** ** The directory *)

Record PeerGossipDirectoryV2 := mkDirectory { records : gmap str PeerRuntimeRecordV2; order : gmap LanExportPrefixV2 (list str) }.

Definition validate_origin (origin : str) : bool := negb (bool_decide (trim origin = [])) && bool_decide (trim origin = origin).

Definition ready_prefixes (r : PeerRuntimeRecordV2) : gset LanExportPrefixV2 := list_to_set (prefix <$> base.filter (fun e => ready e = true) r).

Definition remove_from_order (o : gmap LanExportPrefixV2 (list str)) (p : LanExportPrefixV2) (origin : str) : gmap LanExportPrefixV2 (list str) :=
  match o !! p with
  | None => o
  | Some peers =>
      let peers := base.filter (fun x => x <> origin) peers in
      match peers with [] => delete p o | _ => <[p := peers]> o end
  end.

Definition add_to_order (o : gmap LanExportPrefixV2 (list str)) (p : LanExportPrefixV2) (origin : str) : gmap LanExportPrefixV2 (list str) :=
  let peers := default [] (o !! p) in
  if bool_decide (origin ∈ peers) then <[p := peers]> o else <[p := peers ++ [origin]]> o.

Definition replace_origin (d : PeerGossipDirectoryV2) (origin : str) (r : PeerRuntimeRecordV2) : result PeerGossipDirectoryV2 PeerRuntimeErrorV2 :=
  if validate_origin origin then
    let previous := from_option ready_prefixes ∅ (records d !! origin) in
    let next := ready_prefixes r in
    let o := foldl (fun o p => remove_from_order o p origin) (order d) (elements (previous ∖ next)) in
    let o := foldl (fun o p => add_to_order o p origin) o (elements (next ∖ previous)) in
    Ok (mkDirectory (<[origin := r]> (records d)) o)
  else Err InvalidOrigin.

Definition remove_origin (d : PeerGossipDirectoryV2) (origin : str) : bool * PeerGossipDirectoryV2 :=
  match records d !! origin with
  | None => (false, d)
  | Some r =>
      (true, mkDirectory (delete origin (records d)) (foldl (fun o p => remove_from_order o p origin) (order d) (elements (ready_prefixes r))))
  end.

Definition record (d : PeerGossipDirectoryV2) (origin : str) : option PeerRuntimeRecordV2 := records d !! origin.

Definition active_exporter (d : PeerGossipDirectoryV2) (p : LanExportPrefixV2) : option str := peers ← order d !! p; head peers.

Definition exporters (d : PeerGossipDirectoryV2) (p : LanExportPrefixV2) : list str := default [] (order d !! p).

(** [entries]: the entries of [order], in any order *)
Definition active_export_snapshot (entries : list (LanExportPrefixV2 * list str)) : list (LanExportPrefixV2 * str) :=
  sort_by_key fst (omap (fun '(p, peers) => pair p <$> head peers) entries).

(** [max_by_key]: the last of the greatest *)
Fixpoint max_by_key {A} (key : A -> Z) (l : list A) : option A :=
  match l with
  | [] => None
  | x :: l => match max_by_key key l with None => Some x | Some y => Some (if key y <? key x then x else y) end
  end.

Definition longest_prefix_exporter (entries : list (LanExportPrefixV2 * list str)) (destination : Z) : option (LanExportPrefixV2 * str) :=
  '(p, peers) ← max_by_key (fun e => prefix_len (fst e)) (base.filter (fun e => contains (fst e) destination && negb (bool_decide (snd e = [])) = true) entries);
  origin ← head peers; Some (p, origin).

(** The digest of a record: SHA-256 is a parameter. *)
Section digest.
Variable Sha256_digest : bytes -> bytes.

Definition hash (r : PeerRuntimeRecordV2) : bytes := Sha256_digest (encode r).

Inductive RuntimeRecordRepairV2 := InSync | NeedFullRecord.

Definition compare_digest (d : PeerGossipDirectoryV2) (origin : str) (remote_hash : bytes) : RuntimeRecordRepairV2 :=
  match records d !! origin with
  | Some r => if bool_decide (hash r = remote_hash) then InSync else NeedFullRecord
  | None => NeedFullRecord
  end.

End digest.

(** ** Prefixes: what [prefix_new] accepts *)

Definition is_ipv4 (a : Z) : Prop := 0 <= a < 2 ^ 32.

Definition private (a : Z) : Prop :=
  10 * 2 ^ 24 <= a < 11 * 2 ^ 24 \/ 172 * 2 ^ 24 + 16 * 2 ^ 16 <= a < 172 * 2 ^ 24 + 32 * 2 ^ 16 \/ 192 * 2 ^ 24 + 168 * 2 ^ 16 <= a < 192 * 2 ^ 24 + 169 * 2 ^ 16.

Definition block_size (p : LanExportPrefixV2) : Z := 2 ^ (32 - prefix_len p).

Definition valid_prefix (p : LanExportPrefixV2) : Prop :=
  is_ipv4 (network p) /\ 8 <= prefix_len p <= 32 /\ network p mod block_size p = 0 /\ forall a, network p <= a < network p + block_size p -> private a.

Lemma in_prefix_range value n bits :
  is_ipv4 value -> 0 <= bits <= 32 -> is_ipv4 (n * 2 ^ (32 - bits)) ->
  in_prefix value (n * 2 ^ (32 - bits)) bits = true <-> n * 2 ^ (32 - bits) <= value < (n + 1) * 2 ^ (32 - bits).
Proof.
  intros Hv Hb Hn. pose proof (Z.pow_pos_nonneg 2 (32 - bits) ltac:(lia) ltac:(lia)).
  unfold in_prefix, ipv4_mask. rewrite Z.eqb_eq, prefix_iff by done. rewrite Z.div_mul by lia.
  pose proof (Z.div_mod value (2 ^ (32 - bits)) ltac:(lia)). pose proof (Z.mod_pos_bound value (2 ^ (32 - bits)) ltac:(lia)).
  split; [intros; nia|]. intros. symmetry. apply (Z.div_unique _ _ _ (value - n * 2 ^ (32 - bits))); lia.
Qed.

Lemma is_rfc1918_iff a : is_ipv4 a -> is_rfc1918 a = true <-> private a.
Proof.
  intros Ha. unfold is_rfc1918. rewrite !orb_true_iff.
  change (be_number 256 [10; 0; 0; 0]) with (10 * 2 ^ (32 - 8)).
  change (be_number 256 [172; 16; 0; 0]) with ((172 * 16 + 1) * 2 ^ (32 - 12)).
  change (be_number 256 [192; 168; 0; 0]) with ((192 * 256 + 168) * 2 ^ (32 - 16)).
  rewrite !in_prefix_range by (done || lia). unfold private. lia.
Qed.

Lemma size_bound l : 8 <= l <= 32 -> 1 <= 2 ^ (32 - l) <= 2 ^ 24.
Proof. intros. pose proof (Z.pow_pos_nonneg 2 (32 - l)). pose proof (Z.pow_le_mono_r 2 (32 - l) 24). lia. Qed.

Lemma canonical_iff n l : is_ipv4 n -> 8 <= l <= 32 -> Z.land n (ipv4_mask l) = n <-> n mod 2 ^ (32 - l) = 0.
Proof.
  intros Hn Hl. pose proof (size_bound l Hl). unfold ipv4_mask. rewrite land_mask by (done || lia).
  pose proof (Z.div_mod n (2 ^ (32 - l)) ltac:(lia)). lia.
Qed.
Lemma last_address n l : is_ipv4 n -> 8 <= l <= 32 -> n mod 2 ^ (32 - l) = 0 -> Z.lor n (not32 (ipv4_mask l)) = n + 2 ^ (32 - l) - 1.
Proof.
  intros Hn Hl Hm. unfold not32, ipv4_mask. rewrite mask_ok by lia.
  replace (2 ^ 32 - 1 - (2 ^ 32 - 2 ^ (32 - l))) with (Z.ones (32 - l)) by (rewrite Z.ones_equiv; lia).
  assert (Z.land n (Z.ones (32 - l)) = 0) as H0 by (rewrite Z.land_ones; lia).
  pose proof (Z.add_lor_land n (Z.ones (32 - l))). rewrite H0 in H. rewrite Z.ones_equiv in *. lia.
Qed.

(** Inside one /8, the two ends decide for the whole block. *)
Lemma private_block n l : 8 <= l <= 32 -> private n -> private (n + 2 ^ (32 - l) - 1) -> forall a, n <= a < n + 2 ^ (32 - l) -> private a.
Proof. intros Hl. pose proof (size_bound l Hl). unfold private. lia. Qed.

Lemma private_special a :
  private a -> is_ipv4 a /\ is_loopback a = false /\ is_link_local a = false /\ is_multicast a = false /\ is_unspecified a = false /\ (a < OVERLAY_BASE_V2).
Proof.
  unfold private, is_ipv4, is_loopback, is_link_local, is_multicast, is_unspecified, between. intros H. change OVERLAY_BASE_V2 with 3323068416.
  split; [lia|]. rewrite andb_false_iff, !Z.eqb_neq, !Z.leb_gt.
  pose proof (Z.div_mod a (2 ^ 24) ltac:(lia)). pose proof (Z.mod_pos_bound a (2 ^ 24) ltac:(lia)).
  pose proof (Z.div_mod a (2 ^ 16) ltac:(lia)). pose proof (Z.mod_pos_bound a (2 ^ 16) ltac:(lia)). lia.
Qed.

Lemma prefix_new_iff net len p : is_ipv4 net -> prefix_new net len = Ok p <-> p = mkPrefix net len /\ valid_prefix (mkPrefix net len).
Proof.
  intros Hn. unfold prefix_new, valid_prefix, block_size, between. cbn [network prefix_len].
  destruct (Z.leb_spec 8 len), (Z.leb_spec len 32); cbn [andb negb]; try (split; [done|intros (?&?&?&?); lia]).
  destruct (Z.eqb_spec (Z.land net (ipv4_mask len)) net) as [E|E]; rewrite canonical_iff in E by (done || lia); cbn [negb];
    [|split; [done|intros (?&?&?&?&?); done]].
  rewrite (proj2 (canonical_iff net len Hn ltac:(lia)) E), last_address by (done || lia).
  pose proof (size_bound len ltac:(lia)). set (last := net + 2 ^ (32 - len) - 1).
  assert (is_ipv4 last) as Hl.
  { subst last. unfold is_ipv4 in *. pose proof (Z.div_mod net (2 ^ (32 - len)) ltac:(lia)).
    pose proof (Z.pow_add_r 2 len (32 - len) ltac:(lia) ltac:(lia)) as Hp. replace (len + (32 - len)) with 32 in Hp by lia.
    assert (net / 2 ^ (32 - len) < 2 ^ len) by (apply Z.div_lt_upper_bound; lia). nia. }
  split.
  - destruct (is_rfc1918 net) eqn:E1; [|done]. destruct (is_rfc1918 last) eqn:E2; [|done]. cbn [negb orb].
    apply is_rfc1918_iff in E1, E2; try done. repeat (case_match; try done). intros [= <-]. split; [done|]. split; [done|]. split; [lia|].
    split; [done|]. by apply private_block.
  - intros (-> & _ & _ & _ & Hp). assert (private net) as P1 by (apply Hp; lia). assert (private last) as P2 by (apply Hp; lia).
    rewrite (proj2 (is_rfc1918_iff net Hn) P1), (proj2 (is_rfc1918_iff last Hl) P2).
    destruct (private_special net P1) as (_ & -> & -> & -> & -> & _). destruct (private_special last P2) as (_ & _ & _ & _ & _ & Ho).
    unfold ranges_overlap. rewrite (proj2 (Z.leb_gt OVERLAY_BASE_V2 last) Ho), andb_false_r. done.
Qed.

Lemma prefix_new_valid net len p : is_ipv4 net -> prefix_new net len = Ok p -> valid_prefix p.
Proof. intros Hn H. apply prefix_new_iff in H as [-> ?]; done. Qed.

Lemma contains_iff p a : valid_prefix p -> is_ipv4 a -> contains p a = true <-> network p <= a < network p + block_size p.
Proof.
  intros (Hn & Hl & Hm & _) Ha. unfold contains, block_size in *. pose proof (size_bound _ Hl). unfold ipv4_mask. rewrite Z.eqb_eq, land_mask by (done || lia).
  pose proof (Z.div_mod a (2 ^ (32 - prefix_len p)) ltac:(lia)). pose proof (Z.mod_pos_bound a (2 ^ (32 - prefix_len p)) ltac:(lia)).
  pose proof (Z.div_mod (network p) (2 ^ (32 - prefix_len p)) ltac:(lia)). split; [lia|]. intros.
  rewrite <- (Z.div_unique a _ (network p / 2 ^ (32 - prefix_len p)) (a - network p)); lia.
Qed.

(** Two prefixes of the same length that share an address are the same. *)
Lemma contains_unique p q a :
  contains p a = true -> contains q a = true -> prefix_len p = prefix_len q -> p = q.
Proof.
  unfold contains. rewrite !Z.eqb_eq. destruct p as [n l], q as [n' l']. cbn. intros <- <- ->. done.
Qed.

(** ** Records: sorted, without duplicates, bounded *)

#[export] Instance key_le_trans : Transitive key_le.
Proof. intros [] [] []. unfold key_le. cbn. lia. Qed.
#[export] Instance key_le_antisymm : AntiSymm (=) key_le.
Proof. intros [n l] [n' l']. unfold key_le. cbn. intros ??. f_equal; lia. Qed.

Lemma key_le_total a b : ~ key_le a b -> key_le b a.
Proof. unfold key_le. lia. Qed.

Definition by_key {A} (key : A -> LanExportPrefixV2) (a b : A) : Prop := key_le (key a) (key b).

Lemma insert_by_key_perm {A} (key : A -> LanExportPrefixV2) e l : insert_by_key key e l ≡ₚ e :: l.
Proof. induction l as [|f l IH]; cbn; [done|]. case_decide; [done|]. rewrite IH. constructor. Qed.

Lemma sort_by_key_perm {A} (key : A -> LanExportPrefixV2) l : sort_by_key key l ≡ₚ l.
Proof. induction l as [|e l IH]; [done|]. cbn. by rewrite insert_by_key_perm, IH. Qed.

Lemma insert_by_key_sorted {A} (key : A -> LanExportPrefixV2) e l : StronglySorted (by_key key) l -> StronglySorted (by_key key) (insert_by_key key e l).
Proof.
  induction 1 as [|f l Hs IH Hf]; cbn; [repeat constructor|]. case_decide as Hd.
  - constructor; [by constructor|]. constructor; [done|]. eapply Forall_impl; [exact Hf|]. unfold by_key. intros x Hx. by etrans.
  - constructor; [done|]. rewrite insert_by_key_perm. constructor; [by apply key_le_total|done].
Qed.

Lemma sort_by_key_sorted {A} (key : A -> LanExportPrefixV2) l : StronglySorted (by_key key) (sort_by_key key l).
Proof. induction l; [constructor|]. by apply insert_by_key_sorted. Qed.

Lemma sort_by_key_id {A} (key : A -> LanExportPrefixV2) l : StronglySorted (by_key key) l -> sort_by_key key l = l.
Proof.
  induction 1 as [|f l Hs IH Hf]; [done|]. cbn. fold (sort_by_key key l). rewrite IH. destruct l as [|g l]; [done|]. cbn. apply Forall_inv in Hf. by rewrite decide_True.
Qed.

Lemma has_neighbours_sorted l : StronglySorted (by_key prefix) l -> has_neighbours l = false <-> NoDup (prefix <$> l).
Proof.
  induction 1 as [|e l Hs IH He]; [split; [intros; apply NoDup_nil_2|done]|].
  rewrite fmap_cons, NoDup_cons, <- IH. destruct l as [|f l]; [cbn; split; [split; [apply not_elem_of_nil|]|]; done|].
  change (has_neighbours (e :: f :: l)) with (bool_decide (prefix e = prefix f) || has_neighbours (f :: l)). rewrite orb_false_iff, bool_decide_eq_false. apply and_iff_compat_r. rewrite fmap_cons, not_elem_of_cons. split; [|tauto].
  intros Hn. split; [done|]. intros (g & Eg & Hg)%list_elem_of_fmap. apply Hn. inversion Hs as [|?? _ Hf]. subst.
  pose proof (Forall_inv He) as H1. rewrite Forall_forall in Hf. specialize (Hf _ Hg). unfold by_key in *. rewrite <- Eg in Hf. by apply (anti_symm key_le).
Qed.

Lemma record_new_iff l r :
  record_new l = Ok r <-> (length l <= MAX_LAN_EXPORTS_PER_PEER_V2)%nat /\ NoDup (prefix <$> l) /\ r = sort_by_key prefix l.
Proof.
  unfold record_new. destruct (Nat.ltb_spec MAX_LAN_EXPORTS_PER_PEER_V2 (length l)); [split; [done|lia]|].
  pose proof (has_neighbours_sorted _ (sort_by_key_sorted prefix l)) as H'.
  assert (NoDup (prefix <$> sort_by_key prefix l) <-> NoDup (prefix <$> l)) as E by (by rewrite sort_by_key_perm). rewrite E in H'.
  destruct (has_neighbours _).
  - split; [done|]. intros (_ & Hd & _). apply H' in Hd. done.
  - split; [intros [= <-]|intros (_ & _ & ->); done]. split_and!; [lia|by apply H'|done].
Qed.

Record valid_record (r : PeerRuntimeRecordV2) : Prop := {
  vr_bounded : (length r <= MAX_LAN_EXPORTS_PER_PEER_V2)%nat;
  vr_prefixes : Forall (fun e => valid_prefix (prefix e)) r;
  vr_nodup : NoDup (prefix <$> r);
  vr_sorted : StronglySorted (by_key prefix) r }.

Lemma record_new_valid l r : record_new l = Ok r -> Forall (fun e => valid_prefix (prefix e)) l -> valid_record r.
Proof.
  intros (Hl & Hd & ->)%record_new_iff Hv. split; rewrite ?sort_by_key_perm; try done. apply sort_by_key_sorted.
Qed.

Lemma decode_chunks_encode l : Forall (fun e => valid_prefix (prefix e)) l -> decode_chunks (l ≫= encode_export) = Ok l.
Proof.
  induction 1 as [|[[n len] r] l Hv _ IH]; [done|]. rewrite bind_cons. unfold encode_export at 1, octets4. cbn [to_be app decode_chunks].
  pose proof (proj1 Hv) as Hn. cbn [prefix network prefix_len ready] in *. change [_; _; _; _] with (octets4 n). rewrite be_octets4 by done.
  rewrite (proj2 (prefix_new_iff n len _ Hn)) by done. cbn [rbind]. rewrite IH. by destruct r.
Qed.

Lemma encode_export_length r : zlen (encode r) = 1 + zlen r * 6.
Proof.
  unfold encode. rewrite zlen_cons. enough (zlen (r ≫= encode_export) = zlen r * 6) by lia.
  induction r as [|e r IH]; [done|]. rewrite bind_cons, zlen_app, IH, zlen_cons. unfold encode_export. change (zlen (octets4 _ ++ _)) with 6. lia.
Qed.

Lemma decode_encode r : valid_record r -> decode (encode r) = Ok r.
Proof.
  intros [Hb Hv Hd Hs]. unfold decode. rewrite encode_export_length. unfold encode. unfold MAX_LAN_EXPORTS_PER_PEER_V2 in *.
  assert (zlen r <= 64) by (unfold zlen; lia). pose proof (zlen_nonneg r). assert (u8 (zlen r) = zlen r) as -> by (apply Z.mod_small; lia).
  rewrite (proj2 (Z.ltb_ge _ _)) by lia. rewrite Z.eqb_refl. cbn [negb orb]. rewrite decode_chunks_encode by done. cbn [rbind].
  apply record_new_iff. split_and!; [done..|]. by rewrite sort_by_key_id.
Qed.

Lemma decode_chunks_valid b l : is_bytes b -> decode_chunks b = Ok l -> Forall (fun e => valid_prefix (prefix e)) l.
Proof.
  remember (length b) as n eqn:En. revert b l En. induction (Nat.lt_wf_0 n) as [n _ IH]. intros b l -> Hb.
  destruct b as [|x0 [|x1 [|x2 [|x3 [|x4 [|x5 b]]]]]]; try (intros [= <-]; constructor). cbn [decode_chunks].
  repeat (apply Forall_cons in Hb as [? Hb]). destruct (prefix_new _ _) as [p|] eqn:Ep; [|done]. cbn [rbind].
  apply prefix_new_valid in Ep; [|unfold is_ipv4, be_number, is_u8 in *; cbn [foldl]; lia].
  destruct (_ : result bool _) as [r|] eqn:Er; [|done]. cbn [rbind]. destruct (decode_chunks b) as [l'|] eqn:El; [|done].
  intros [= <-]. constructor; [done|]. eapply IH; [|done|done|done]. cbn. lia.
Qed.

(** Whatever is received, an accepted record is valid. *)
Lemma decode_valid b r : is_bytes b -> decode b = Ok r -> valid_record r.
Proof.
  intros Hb. destruct b as [|c b]; [done|]. cbn [decode]. case_match; [done|]. apply Forall_cons in Hb as [_ Hb].
  destruct (decode_chunks b) as [l|] eqn:El; [|done]. cbn [rbind]. intros Hr. eapply record_new_valid; [done|]. by eapply decode_chunks_valid.
Qed.

(** ** What a Peer publishes *)

Record collected (ready_of : LanExportPrefixV2 -> bool) (ps : list LanExportPrefixV2) (exports : list LanExportV2) (seen' : gset LanExportPrefixV2) (new : list LanExportV2) : Prop := {
  co_nodup : NoDup (prefix <$> exports ++ new);
  co_seen : seen' = list_to_set (prefix <$> exports ++ new);
  co_bound : (length (exports ++ new) <= MAX_LAN_EXPORTS_PER_PEER_V2)%nat;
  co_new : Forall (fun e => prefix e ∈ ps /\ ready e = ready_of (prefix e)) new;
  co_all : forall p, p ∈ ps -> p ∈ seen' \/ length (exports ++ new) = MAX_LAN_EXPORTS_PER_PEER_V2 }.

Lemma collect_ok ready_of ps : forall exports,
  NoDup (prefix <$> exports) -> (length exports <= MAX_LAN_EXPORTS_PER_PEER_V2)%nat ->
  exists seen' new, collect ready_of ps (list_to_set (prefix <$> exports)) exports = (seen', exports ++ new) /\ collected ready_of ps exports seen' new.
Proof.
  induction ps as [|p ps IH]; intros exports Hd Hl; cbn [collect].
  - eexists _, []. rewrite app_nil_r. split; [done|]. split; rewrite ?app_nil_r; try done. intros p Hp%elem_of_nil. done.
  - destruct (Nat.eqb_spec (length exports) MAX_LAN_EXPORTS_PER_PEER_V2) as [E|E].
    { eexists _, []. rewrite app_nil_r. split; [done|]. split; rewrite ?app_nil_r; try done. intros; by right. }
    case_decide as Hp.
    + destruct (IH exports Hd Hl) as (seen' & new & Hr & [C1 C2 C3 C4 C5]). eexists _, _. split; [exact Hr|]. split; try done.
      * eapply Forall_impl; [exact C4|]. cbn. set_solver.
      * intros q [->|Hq]%elem_of_cons; [|by apply C5]. left. rewrite C2, fmap_app. set_solver.
    + set (e := mkExport p (ready_of p)). assert (p ∉ prefix <$> exports) as Hn by (by intros ?; apply Hp, elem_of_list_to_set).
      destruct (IH (exports ++ [e])) as (seen' & new & Hr & [C1 C2 C3 C4 C5]).
      { rewrite fmap_app, NoDup_app. split_and!; [done|set_solver|apply NoDup_singleton]. }
      { rewrite length_app. cbn. lia. }
      exists seen', (e :: new). rewrite <- app_assoc in *. cbn [app] in *. split; [|split; try done].
      * rewrite <- Hr. f_equal. rewrite fmap_app, list_to_set_app_L. cbn. set_solver.
      * constructor; [cbn; set_solver|]. eapply Forall_impl; [exact C4|]. cbn. set_solver.
      * intros q [->|Hq]%elem_of_cons; [|by apply C5]. left. rewrite C2, fmap_app, fmap_cons. set_solver.
Qed.

(** What [resolve] promises about the record. *)
Record published (c : LocalLanExportConfigV2) (connected : list LanExportPrefixV2) (r : PeerRuntimeRecordV2) : Prop := {
  pu_bounded : (length r <= MAX_LAN_EXPORTS_PER_PEER_V2)%nat;
  pu_nodup : NoDup (prefix <$> r);
  pu_sorted : StronglySorted (by_key prefix) r;
  pu_origin : forall e, e ∈ r -> prefix e ∈ configured c \/ (auto_current_lan c = true /\ prefix e ∈ connected);
  pu_ready : forall e, e ∈ r -> ready e = true <-> prefix e ∈ connected;
  pu_typed : forall p, p ∈ configured c ->
    p ∈ prefix <$> r \/ (length r = MAX_LAN_EXPORTS_PER_PEER_V2 /\ forall e, e ∈ r -> prefix e ∈ configured c);
  pu_auto : auto_current_lan c = true -> forall p, p ∈ connected -> p ∈ prefix <$> r \/ length r = MAX_LAN_EXPORTS_PER_PEER_V2 }.

Lemma published_sort c connected l :
  (length l <= MAX_LAN_EXPORTS_PER_PEER_V2)%nat -> NoDup (prefix <$> l) ->
  (forall e, e ∈ l -> (prefix e ∈ configured c \/ (auto_current_lan c = true /\ prefix e ∈ connected)) /\ (ready e = true <-> prefix e ∈ connected)) ->
  (forall p, p ∈ configured c -> p ∈ prefix <$> l \/ (length l = MAX_LAN_EXPORTS_PER_PEER_V2 /\ forall e, e ∈ l -> prefix e ∈ configured c)) ->
  (auto_current_lan c = true -> forall p, p ∈ connected -> p ∈ prefix <$> l \/ length l = MAX_LAN_EXPORTS_PER_PEER_V2) ->
  published c connected (sort_by_key prefix l).
Proof.
  intros H1 H2 H3 H4 H5. split; rewrite ?sort_by_key_perm; try done.
  - apply sort_by_key_sorted.
  - intros e. rewrite sort_by_key_perm. intros. by apply H3.
  - intros e. rewrite sort_by_key_perm. intros. by apply H3.
  - intros p Hp. rewrite !sort_by_key_perm. destruct (H4 p Hp) as [|[? He]]; [by left|right]. split; [done|].
    intros e. rewrite sort_by_key_perm. apply He.
  - intros Ha p Hp. rewrite !sort_by_key_perm. by apply H5.
Qed.

Lemma resolve_total c connected : exists r, resolve c connected = Some r /\ published c (default [] connected) r.
Proof.
  unfold resolve, resolved. set (conn := default [] connected).
  destruct (collect_ok (fun p => bool_decide (p ∈ conn)) (configured c) [] ltac:(apply NoDup_nil_2) ltac:(cbn; lia)) as (seen & l & Hc & [C1 C2 C3 C4 C5]).
  change (list_to_set (prefix <$> [])) with (∅ : gset LanExportPrefixV2) in Hc. rewrite Hc. cbn [app] in *. rewrite Forall_forall in C4.
  assert (forall p, p ∈ seen <-> p ∈ prefix <$> l) as Hs by (intros; by rewrite C2, elem_of_list_to_set).
  destruct (auto_current_lan c) eqn:Ea.
  - rewrite C2. destruct (collect_ok (fun _ => true) conn l C1 C3) as (seen' & new & Hc' & [D1 D2 D3 D4 D5]). rewrite Hc'. cbn [snd].
    rewrite Forall_forall in D4. rewrite (proj2 (record_new_iff _ _) (conj D3 (conj D1 eq_refl))). eexists. split; [done|]. apply published_sort; try done.
    + intros e [He|He]%elem_of_app; [destruct (C4 e He) as [? ->]; rewrite bool_decide_eq_true; tauto|]. destruct (D4 e He) as [? ->]. tauto.
    + intros p Hp. destruct (C5 p Hp) as [Hq|Hq]; [left; apply Hs in Hq; rewrite fmap_app; set_solver|]. right.
      rewrite length_app in *. split; [lia|]. assert (new = []) as -> by (apply length_zero_iff_nil; lia). rewrite app_nil_r. intros e He. by apply C4.
    + intros _ p Hp. destruct (D5 p Hp) as [Hq|Hq]; [|by right]. left. by rewrite D2, elem_of_list_to_set in Hq.
  - rewrite (proj2 (record_new_iff _ _) (conj C3 (conj C1 eq_refl))). eexists. split; [done|]. apply published_sort; try done.
    + intros e He. destruct (C4 e He) as [? ->]. rewrite bool_decide_eq_true. tauto.
    + intros p Hp. destruct (C5 p Hp) as [Hq|Hq]; [left; by apply Hs|]. right. split; [done|]. intros e He. by apply C4.
    + by rewrite Ea.
Qed.

(** ** The directory *)

Definition peers_at (o : gmap LanExportPrefixV2 (list str)) (p : LanExportPrefixV2) : list str := default [] (o !! p).
Definition no_empty (o : gmap LanExportPrefixV2 (list str)) : Prop := forall p, o !! p <> Some [].
Definition without (x : str) (l : list str) : list str := base.filter (fun y => y <> x) l.
Definition with_last (x : str) (l : list str) : list str := if bool_decide (x ∈ l) then l else l ++ [x].

Lemma remove_peers_at o p x q : no_empty o -> peers_at (remove_from_order o p x) q = (if decide (q = p) then without x (peers_at o q) else peers_at o q) /\ no_empty (remove_from_order o p x).
Proof.
  intros Ho. unfold remove_from_order, peers_at, without. destruct (o !! p) as [l|] eqn:E.
  - destruct (base.filter _ l) as [|y l'] eqn:El; split.
    + case_decide as Hd; [subst; by rewrite lookup_delete_eq, E, <- El|by rewrite lookup_delete_ne].
    + intros q'. destruct (decide (q' = p)) as [->|]; [by rewrite lookup_delete_eq|rewrite lookup_delete_ne by done; apply Ho].
    + case_decide as Hd; [subst; by rewrite lookup_insert_eq, E, <- El|by rewrite lookup_insert_ne].
    + intros q'. destruct (decide (q' = p)) as [->|]; [by rewrite lookup_insert_eq|rewrite lookup_insert_ne by done; apply Ho].
  - split; [|done]. case_decide as Hd; [subst; by rewrite E|done].
Qed.

Lemma add_peers_at o p x q : no_empty o -> peers_at (add_to_order o p x) q = (if decide (q = p) then with_last x (peers_at o q) else peers_at o q) /\ no_empty (add_to_order o p x).
Proof.
  intros Ho. unfold add_to_order, peers_at, with_last. case_bool_decide as Hx; split.
  - case_decide as Hd; [subst; by rewrite lookup_insert_eq, bool_decide_true|by rewrite lookup_insert_ne].
  - intros q'. destruct (decide (q' = p)) as [->|]; [rewrite lookup_insert_eq; intros [= E]; rewrite E in Hx; set_solver|rewrite lookup_insert_ne by done; apply Ho].
  - case_decide as Hd; [subst; by rewrite lookup_insert_eq, bool_decide_false|by rewrite lookup_insert_ne].
  - intros q'. destruct (decide (q' = p)) as [->|]; [rewrite lookup_insert_eq; intros [= E]; by apply app_nil in E as [_ ?]|rewrite lookup_insert_ne by done; apply Ho].
Qed.

Lemma without_without x l : without x (without x l) = without x l.
Proof. unfold without. apply list_filter_filter_l. done. Qed.

Lemma with_last_elem x l : x ∈ with_last x l.
Proof. unfold with_last. case_bool_decide; set_solver. Qed.

Lemma with_last_twice x l : with_last x (with_last x l) = with_last x l.
Proof. unfold with_last at 1. rewrite bool_decide_true; [done|]. apply with_last_elem. Qed.

Lemma fold_peers_at (f : gmap LanExportPrefixV2 (list str) -> LanExportPrefixV2 -> gmap LanExportPrefixV2 (list str)) (g : list str -> list str) :
  (forall o p q, no_empty o -> peers_at (f o p) q = (if decide (q = p) then g (peers_at o q) else peers_at o q) /\ no_empty (f o p)) -> (forall l, g (g l) = g l) ->
  forall ps o q, no_empty o -> peers_at (foldl f o ps) q = (if decide (q ∈ ps) then g (peers_at o q) else peers_at o q) /\ no_empty (foldl f o ps).
Proof.
  intros Hf Hg. induction ps as [|p ps IH]; intros o q Ho; cbn [foldl].
  - rewrite decide_False by set_solver. done.
  - destruct (Hf o p q Ho) as [E Ho']. destruct (IH (f o p) q Ho') as [-> Hn]. split; [|done]. rewrite E.
    clear Hn Hf IH E Ho Ho'. destruct (decide (q = p)), (decide (q ∈ ps)), (decide (q ∈ p :: ps)) as [H|H]; rewrite ?Hg; try done; rewrite elem_of_cons in H; tauto.
Qed.

Definition is_ready (d : PeerGossipDirectoryV2) (origin : str) (p : LanExportPrefixV2) : Prop :=
  exists r, records d !! origin = Some r /\ p ∈ ready_prefixes r.

Record dir_ok (d : PeerGossipDirectoryV2) : Prop := {
  do_no_empty : no_empty (order d);
  do_ready : forall p o, o ∈ exporters d p <-> is_ready d o p;
  do_nodup : forall p, NoDup (exporters d p) }.

Lemma without_elem x y l : y ∈ without x l <-> y <> x /\ y ∈ l.
Proof. unfold without. by rewrite list_elem_of_filter. Qed.

Lemma without_id x l : x ∉ l -> without x l = l.
Proof.
  unfold without. induction l as [|y l IH]; [done|]. rewrite not_elem_of_cons. intros [? ?]. rewrite filter_cons_True by congruence. by rewrite IH.
Qed.

Lemma with_last_id x l : x ∈ l -> with_last x l = l.
Proof. intros. unfold with_last. by rewrite bool_decide_true. Qed.

Lemma with_last_iff x y l : y ∈ with_last x l <-> y = x \/ y ∈ l.
Proof. unfold with_last. case_bool_decide; set_solver. Qed.

Lemma with_last_nodup x l : NoDup l -> NoDup (with_last x l).
Proof.
  unfold with_last. case_bool_decide; [done|]. intros. rewrite NoDup_app. split_and!; [done|set_solver|apply NoDup_singleton].
Qed.

(** A new record of [origin]: it keeps its place where it exported before, takes the last place
    where it begins to and leaves where it stops. *)
Lemma replace_exporters d origin r d' p :
  dir_ok d -> replace_origin d origin r = Ok d' ->
  exporters d' p = (if decide (p ∈ ready_prefixes r) then with_last origin (exporters d p) else without origin (exporters d p)) /\ no_empty (order d').
Proof.
  intros [Hn Hr _]. unfold replace_origin. destruct (validate_origin origin); [|done]. intros [= <-]. unfold exporters. cbn [order].
  set (previous := from_option ready_prefixes ∅ (records d !! origin)).
  assert (origin ∈ exporters d p <-> p ∈ previous) as Ho.
  { rewrite Hr. unfold is_ready, previous. destruct (records d !! origin); cbn; [naive_solver|set_solver]. }
  destruct (fold_peers_at _ _ (fun o q q' => remove_peers_at o q origin q') (without_without origin) (elements (previous ∖ ready_prefixes r)) (order d) p Hn) as [E1 N1].
  destruct (fold_peers_at _ _ (fun o q q' => add_peers_at o q origin q') (with_last_twice origin) (elements (ready_prefixes r ∖ previous)) _ p N1) as [E2 N2].
  split; [|done]. unfold peers_at in *. rewrite E2, E1. fold (exporters d p). clear E1 E2 N1 N2 Hr Hn.
  destruct (decide (p ∈ elements _)) as [G1|G1], (decide (p ∈ elements _)) as [G2|G2], (decide (p ∈ ready_prefixes r)) as [H1|H1];
    rewrite elem_of_elements, elem_of_difference in G1, G2; try tauto; symmetry; destruct (decide (p ∈ previous)); first [apply with_last_id; tauto|apply without_id; tauto].
Qed.

Lemma remove_exporters d origin b d' p :
  dir_ok d -> remove_origin d origin = (b, d') -> exporters d' p = without origin (exporters d p) /\ no_empty (order d').
Proof.
  intros [Hn Hr _]. unfold remove_origin. destruct (records d !! origin) as [r|] eqn:E; intros [= <- <-].
  - destruct (fold_peers_at _ _ (fun o q q' => remove_peers_at o q origin q') (without_without origin) (elements (ready_prefixes r)) (order d) p Hn) as [E1 N1].
    split; [|done]. unfold exporters. cbn [order]. unfold peers_at in E1. rewrite E1. fold (exporters d p). case_decide as Hd; [done|]. symmetry. apply without_id.
    rewrite Hr. unfold is_ready. set_solver.
  - split; [|done]. symmetry. apply without_id. rewrite Hr. unfold is_ready. set_solver.
Qed.

Lemma replace_ok d origin r d' : dir_ok d -> replace_origin d origin r = Ok d' -> dir_ok d'.
Proof.
  intros Hd Hr. pose proof (fun p => replace_exporters d origin r d' p Hd Hr) as He.
  assert (records d' = <[origin := r]> (records d)) as Hrec by (unfold replace_origin in Hr; destruct (validate_origin origin); [by injection Hr as <-|done]).
  destruct Hd as [Hn Hi Hu]. split; [apply (He (mkPrefix 0 0))| |].
  - intros p o. rewrite (proj1 (He p)). unfold is_ready. rewrite Hrec. destruct (decide (o = origin)) as [->|Ho].
    + rewrite lookup_insert_eq. case_decide as Hp; [rewrite with_last_iff|rewrite without_elem]; naive_solver.
    + rewrite lookup_insert_ne by done. fold (is_ready d o p). rewrite <- Hi. case_decide as Hp; [rewrite with_last_iff|rewrite without_elem]; tauto.
  - intros p. rewrite (proj1 (He p)). case_decide; [by apply with_last_nodup|by apply NoDup_filter].
Qed.

Lemma remove_ok d origin b d' : dir_ok d -> remove_origin d origin = (b, d') -> dir_ok d'.
Proof.
  intros Hd Hr. pose proof (fun p => remove_exporters d origin b d' p Hd Hr) as He.
  assert (records d' = delete origin (records d)) as Hrec.
  { unfold remove_origin in Hr. destruct (records d !! origin) eqn:E; injection Hr as <- <-; [done|]. by rewrite delete_id. }
  destruct Hd as [Hn Hi Hu]. split; [apply (He (mkPrefix 0 0))| |].
  - intros p o. rewrite (proj1 (He p)), without_elem, Hi. unfold is_ready. rewrite Hrec. destruct (decide (o = origin)) as [->|Ho].
    + rewrite lookup_delete_eq. naive_solver.
    + rewrite lookup_delete_ne by done. tauto.
  - intros p. rewrite (proj1 (He p)). by apply NoDup_filter.
Qed.

(** What the links deliver: a record of an origin, or its end. *)
Inductive event := Replaced (origin : str) (r : PeerRuntimeRecordV2) | Removed (origin : str).

Definition deliver (d : PeerGossipDirectoryV2) (e : event) : PeerGossipDirectoryV2 :=
  match e with
  | Replaced o r => match replace_origin d o r with Ok d => d | Err _ => d end
  | Removed o => snd (remove_origin d o)
  end.

Definition empty_directory : PeerGossipDirectoryV2 := mkDirectory ∅ ∅.

(** The contract: for every prefix the line of its exporters, without the directory. *)
Definition line_step (p : LanExportPrefixV2) (line : list str) (e : event) : list str :=
  match e with
  | Replaced o r => if validate_origin o then if decide (p ∈ ready_prefixes r) then with_last o line else without o line else line
  | Removed o => without o line
  end.

Lemma deliver_ok d e p : dir_ok d -> dir_ok (deliver d e) /\ exporters (deliver d e) p = line_step p (exporters d p) e.
Proof.
  intros Hd. destruct e as [o r|o]; cbn [deliver line_step].
  - destruct (replace_origin d o r) as [d'|err] eqn:E.
    + split; [by eapply replace_ok|]. destruct (replace_exporters d o r d' p Hd E) as [-> _].
      unfold replace_origin in E. by destruct (validate_origin o).
    + split; [done|]. unfold replace_origin in E. by destruct (validate_origin o).
  - destruct (remove_origin d o) as [b d'] eqn:E. split; [by eapply remove_ok|]. by destruct (remove_exporters d o b d' p Hd E).
Qed.

Lemma empty_directory_ok : dir_ok empty_directory.
Proof. split; [done| |intros; apply NoDup_nil_2]. intros p o. split; [intros ?%elem_of_nil; done|intros (r & ? & _); done]. Qed.

Lemma deliver_all_ok es p : forall d, dir_ok d ->
  dir_ok (foldl deliver d es) /\ exporters (foldl deliver d es) p = foldl (line_step p) (exporters d p) es.
Proof.
  induction es as [|e es IH]; intros d Hd; [done|]. cbn [foldl]. destruct (deliver_ok d e p Hd) as [Hd' <-]. by apply IH.
Qed.

(** ** Selection *)

Lemma max_by_key_spec {A} (key : A -> Z) l : match max_by_key key l with None => l = [] | Some x => x ∈ l /\ forall y, y ∈ l -> key y <= key x end.
Proof.
  induction l as [|x l IH]; [done|]. cbn [max_by_key]. destruct (max_by_key key l) as [y|].
  - destruct IH as [Hy Hm]. destruct (Z.ltb_spec (key y) (key x)); (split; [set_solver|]);
      intros z [->|Hz]%elem_of_cons; try (specialize (Hm z Hz)); lia.
  - subst. split; [set_solver|]. intros y. rewrite list_elem_of_singleton. intros ->. lia.
Qed.

(** The answer for one destination *)
Definition selected (d : PeerGossipDirectoryV2) (a : Z) (answer : option (LanExportPrefixV2 * str)) : Prop :=
  match answer with
  | Some (p, o) =>
      contains p a = true /\ active_exporter d p = Some o /\ is_ready d o p /\
      forall q o', is_ready d o' q -> contains q a = true -> prefix_len q <= prefix_len p
  | None => forall q o', is_ready d o' q -> contains q a = false
  end.

Lemma order_entry d entries q peers : entries ≡ₚ map_to_list (order d) -> (q, peers) ∈ entries <-> order d !! q = Some peers.
Proof. intros ->. apply elem_of_map_to_list. Qed.

Lemma longest_prefix_selected d entries a : dir_ok d -> entries ≡ₚ map_to_list (order d) -> selected d a (longest_prefix_exporter entries a).
Proof.
  intros [Hn Hi _] He. unfold longest_prefix_exporter. set (l := base.filter _ entries).
  assert (forall q o', is_ready d o' q -> contains q a = true -> exists peers, (q, peers) ∈ l) as Hl.
  { intros q o' Hq Hc. apply Hi in Hq. unfold exporters in Hq. destruct (order d !! q) as [peers|] eqn:E; [|by apply elem_of_nil in Hq].
    exists peers. apply list_elem_of_filter. rewrite (order_entry d) by done. split; [|done]. cbn. rewrite Hc, bool_decide_false; [done|]. intros ->. by apply Hn in E. }
  pose proof (max_by_key_spec (fun e => prefix_len (fst e)) l) as Hm. destruct (max_by_key _ l) as [[p peers]|]; cbn.
  - destruct Hm as [Hp Hm]. apply list_elem_of_filter in Hp as [Hc Hp]. cbn in Hc. apply andb_true_iff in Hc as [Hc _].
    rewrite (order_entry d) in Hp by done. destruct peers as [|o peers]; [by apply Hn in Hp|]. cbn. split; [done|].
    split; [unfold active_exporter; by rewrite Hp|]. split; [apply Hi; unfold exporters; rewrite Hp; cbn; set_solver|].
    intros q o' Hq Hcq. destruct (Hl q o' Hq Hcq) as [ps Hps]. apply (Hm _ Hps).
  - intros q o' Hq. destruct (contains q a) eqn:Hc; [|done]. destruct (Hl q o' Hq Hc) as [ps Hps]. rewrite Hm in Hps. by apply elem_of_nil in Hps.
Qed.

(** There is only one answer, so the order of the hash map does not show. *)
Lemma selected_unique d a r1 r2 : selected d a r1 -> selected d a r2 -> r1 = r2.
Proof.
  destruct r1 as [[p o]|], r2 as [[q o']|]; cbn; try done.
  - intros (C1 & A1 & R1 & M1) (C2 & A2 & R2 & M2). assert (p = q) as <-; [|congruence].
    apply (contains_unique p q a C1 C2). specialize (M1 q o' R2 C2). specialize (M2 p o R1 C1). lia.
  - intros (C1 & _ & R1 & _) M2. specialize (M2 p o R1). congruence.
  - intros M2 (C1 & _ & R1 & _). specialize (M2 q o' R1). congruence.
Qed.

Lemma snapshot_spec d entries p o :
  dir_ok d -> entries ≡ₚ map_to_list (order d) -> (p, o) ∈ active_export_snapshot entries <-> active_exporter d p = Some o.
Proof.
  intros [Hn _ _] He. unfold active_export_snapshot. rewrite sort_by_key_perm, list_elem_of_omap. unfold active_exporter. split.
  - intros ([q peers] & Hq & E). rewrite (order_entry d) in Hq by done. destruct peers; [done|]. cbn in E. injection E as <- <-. by rewrite Hq.
  - intros E. destruct (order d !! p) as [peers|] eqn:Ep; [|done]. cbn in E. exists (p, peers). rewrite (order_entry d) by done. by rewrite E.
Qed.

(** ** The theorems *)

(** C27: A LAN Export that the code accepts, typed or received, is a block of private (RFC 1918)
    addresses with a canonical network and a length from 8 to 32, and it contains exactly the
    addresses of that block.  Every valid record is decoded from its encoding; a record decoded
    from any bytes has at most 64 exports, sorted, without a duplicate, and only such blocks. *)
Theorem runtime_record_roundtrip :
  (forall net len p, is_ipv4 net -> prefix_new net len = Ok p <-> p = mkPrefix net len /\ valid_prefix p) /\
  (forall p a, valid_prefix p -> is_ipv4 a -> contains p a = true <-> network p <= a < network p + block_size p) /\
  (forall r, valid_record r -> decode (encode r) = Ok r) /\
  (forall b r, is_bytes b -> decode b = Ok r -> valid_record r).
Proof.
  split_and!; [|apply contains_iff|apply decode_encode|apply decode_valid].
  intros net len p Hn. rewrite prefix_new_iff by done. split; intros [-> ?]; done.
Qed.

(** C28: The record that a Peer publishes is made without a panic for every list of typed
    prefixes and every answer of the interface discovery.  It is bounded, sorted and without a
    duplicate; an export is ready exactly when the machine is attached to its network; nothing
    is exported that was not typed, except, when this was asked for, the networks of the
    machine; and a typed prefix is missing only when 64 typed prefixes fill the record. *)
Theorem resolve_never_panics c connected : exists r, resolve c connected = Some r /\ published c (default [] connected) r.
Proof. apply resolve_total. Qed.

(** C17: The directory implements, for every sequence of records and departures, the line of
    exporters of each prefix: who begins to export takes the last place, keeps it while
    exporting and leaves with its record or its withdrawal, and nobody else is affected.  The
    exporter of an address is the first in the line of the longest ready prefix that contains
    it, in whatever order the hash map is visited; there is none exactly when no ready export
    of any origin contains the address. *)
Theorem directory_refines es entries a :
  let d := foldl deliver empty_directory es in
  entries ≡ₚ map_to_list (order d) ->
  (forall p, exporters d p = foldl (line_step p) [] es) /\
  (forall p o, o ∈ exporters d p <-> is_ready d o p) /\
  (forall answer, selected d a answer <-> answer = longest_prefix_exporter entries a).
Proof.
  intros d He. assert (dir_ok d) as Hd by (apply (deliver_all_ok es (mkPrefix 0 0)), empty_directory_ok).
  split_and!; [intros p; apply deliver_all_ok, empty_directory_ok|apply Hd|].
  intros answer. split; [|intros ->; by apply longest_prefix_selected].
  intros Hs. eapply selected_unique; [done|]. by apply longest_prefix_selected.
Qed.

(** Two exporters of 192.168.1.0/24; the first leaves. *)
Definition sample_prefix : LanExportPrefixV2 := mkPrefix (be_number 256 [192; 168; 1; 0]) 24.
Definition sample_events : list event := [Replaced [97] [mkExport sample_prefix true]; Replaced [98] [mkExport sample_prefix true]; Removed [97]].

Lemma directory_refines_witness :
  longest_prefix_exporter (map_to_list (order (foldl deliver empty_directory sample_events))) (be_number 256 [192; 168; 1; 7]) = Some (sample_prefix, [98]) /\
  exporters (foldl deliver empty_directory sample_events) sample_prefix = foldl (line_step sample_prefix) [] sample_events.
Proof.
  split; [vm_compute; reflexivity|].
  apply (directory_refines sample_events (map_to_list (order (foldl deliver empty_directory sample_events))) 0 ltac:(reflexivity)).
Defined.

Lemma sample_prefix_valid : valid_prefix sample_prefix.
Proof. apply (prefix_new_valid (be_number 256 [192; 168; 1; 0]) 24); [done|vm_compute; reflexivity]. Qed.

Lemma runtime_record_roundtrip_witness : decode (encode [mkExport sample_prefix true]) = Ok [mkExport sample_prefix true].
Proof.
  apply (proj1 (proj2 (proj2 runtime_record_roundtrip))).
  split; [vm_compute; lia|constructor; [apply sample_prefix_valid|constructor]|apply NoDup_singleton|repeat constructor].
Defined.

End PeerRuntime.
