(* ===== verification/LanRoutes.v ===== *)
(** * Capture routes for LAN Exports (crates/tp-client/src/engine.rs)

    The client turns the active LAN Exports of its Peers into routes of the TUN device: minus
    its own ready exports, minus the addresses of the local infrastructure, and, when the tunnel
    has precedence, cut so that every route is more specific than the connected LAN it overlaps.
    The recursions halve a block until length 32; they carry fuel, and 33 is enough. *)

From Stdlib Require Import ZArith Lia Sorted.
From stdpp Require Import base list gmap numbers.
From S2P Require Import Prelude CBytes RustStd PeerRuntime.
Import list_basics.list list_relations.list list_monad.list list_misc.list.
Import RustStd PeerRuntime.

Module LanRoutes.

(** ** Blocks *)

Definition bounds (p : LanExportPrefixV2) : Z * Z :=
  let m := Z.shiftl (2 ^ 32 - 1) (32 - prefix_len p) mod 2 ^ 32 in (network p, Z.lor (network p) (not32 m)).

Definition v2_lan_prefixes_overlap (left right : LanExportPrefixV2) : bool :=
  let '(left_first, left_last) := bounds left in
  let '(right_first, right_last) := bounds right in
  (left_first <=? right_last) && (right_first <=? left_last).

Definition v2_lan_prefix_children (p : LanExportPrefixV2) : option (LanExportPrefixV2 * LanExportPrefixV2) :=
  if prefix_len p =? 32 then None
  else
    let child_prefix_len := prefix_len p + 1 in
    let child_size := Z.shiftl 1 (32 - child_prefix_len) in
    Some (mkPrefix (network p) child_prefix_len, mkPrefix (network p + child_size) child_prefix_len).

(** The three recursions: what the source pushes to [output]; [None] is fuel that ran out. *)
Fixpoint subtract_host (fuel : nat) (p : LanExportPrefixV2) (address : Z) : option (list LanExportPrefixV2) :=
  match fuel with
  | O => None
  | S fuel =>
      if negb (contains p address) then Some [p]
      else
        match v2_lan_prefix_children p with
        | None => Some []
        | Some (c1, c2) => l1 ← subtract_host fuel c1 address; l2 ← subtract_host fuel c2 address; Some (l1 ++ l2)
        end
  end.

Fixpoint subtract_prefix (fuel : nat) (p excluded : LanExportPrefixV2) : option (list LanExportPrefixV2) :=
  match fuel with
  | O => None
  | S fuel =>
      if negb (v2_lan_prefixes_overlap p excluded) then Some [p]
      else if prefix_len excluded <=? prefix_len p then Some []
      else
        match v2_lan_prefix_children p with
        | None => Some []
        | Some (c1, c2) => l1 ← subtract_prefix fuel c1 excluded; l2 ← subtract_prefix fuel c2 excluded; Some (l1 ++ l2)
        end
  end.

Fixpoint fragment_one (fuel : nat) (p connected : LanExportPrefixV2) : option (list LanExportPrefixV2) :=
  match fuel with
  | O => None
  | S fuel =>
      if negb (v2_lan_prefixes_overlap p connected) || (prefix_len connected <? prefix_len p) then Some [p]
      else
        match v2_lan_prefix_children p with
        | None => Some []
        | Some (c1, c2) =>
            if prefix_len p =? prefix_len connected then Some [c1; c2]
            else l1 ← fragment_one fuel c1 connected; l2 ← fragment_one fuel c2 connected; Some (l1 ++ l2)
        end
  end.

Definition FUEL : nat := 33.

(** [flat_map] with a function that may run out of fuel *)
Fixpoint flat_map_opt {A B} (f : A -> option (list B)) (l : list A) : option (list B) :=
  match l with
  | [] => Some []
  | x :: l => y ← f x; ys ← flat_map_opt f l; Some (y ++ ys)
  end.

(** The outer loops: every candidate is cut by one exclusion after the other. *)
Definition cut_by {B} (f : LanExportPrefixV2 -> B -> option (list LanExportPrefixV2)) (p : LanExportPrefixV2) (excluded : list B) : option (list LanExportPrefixV2) :=
  foldl (fun remaining x => l ← remaining; flat_map_opt (fun candidate => f candidate x) l) (Some [p]) excluded.

Definition v2_lan_prefix_without_hosts (p : LanExportPrefixV2) (excluded : list Z) : option (list LanExportPrefixV2) := cut_by (subtract_host FUEL) p excluded.
Definition v2_lan_prefix_without_prefixes (p : LanExportPrefixV2) (excluded : list LanExportPrefixV2) : option (list LanExportPrefixV2) :=
  cut_by (subtract_prefix FUEL) p excluded.
Definition v2_lan_prefixes_prefer_over_connected (p : LanExportPrefixV2) (connected_lans : list LanExportPrefixV2) : option (list LanExportPrefixV2) :=
  cut_by (fragment_one FUEL) p connected_lans.

(** ** The underlay generation *)

Record NativeLanRouteGeneration := mkGeneration {
  epoch : Z;
  bypass_ready : bool;
  inventory_ready : bool;
  exclusions : list Z;
  connected_lans : list LanExportPrefixV2 }.

Definition generation_default (e : Z) : NativeLanRouteGeneration := mkGeneration e false false [] [].

Definition begin_p2p_underlay_generation (g : NativeLanRouteGeneration) : Z * NativeLanRouteGeneration :=
  let e := Z.max ((epoch g + 1) mod 2 ^ 64) 1 in (e, generation_default e).

Definition p2p_underlay_generation_is_ready (g : NativeLanRouteGeneration) (token : Z) : bool := (epoch g =? token) && bypass_ready g.

Definition invalidate_p2p_underlay_generation (g : NativeLanRouteGeneration) : NativeLanRouteGeneration := snd (begin_p2p_underlay_generation g).

Definition set_p2p_underlay_generation_ready (g : NativeLanRouteGeneration) (token : Z) (ready : bool) : bool * NativeLanRouteGeneration :=
  if negb (epoch g =? token) then (false, g)
  else if ready then (true, mkGeneration (epoch g) true (inventory_ready g) (exclusions g) (connected_lans g))
  else (true, generation_default (epoch g)).

Definition commit_native_lan_route_generation (g : NativeLanRouteGeneration) (token : Z) (excl : list Z) (lans : list LanExportPrefixV2) : bool * NativeLanRouteGeneration :=
  if negb (epoch g =? token) then (false, g) else (true, mkGeneration (epoch g) (bypass_ready g) true excl lans).

(** ** The routes *)

(** [Vec::dedup] *)
Fixpoint dedup (l : list LanExportPrefixV2) : list LanExportPrefixV2 :=
  match l with
  | p :: ((q :: _) as r) => if bool_decide (p = q) then dedup r else p :: dedup r
  | _ => l
  end.

Definition show_prefix (p : LanExportPrefixV2) : str := show_ipv4 (network p) ++ [47] ++ show 3 10 (prefix_len p).

(** [active]: the snapshot of the directory; [local]: the record of this Peer *)
Definition v2_native_lan_routes (g : NativeLanRouteGeneration) (local : PeerRuntimeRecordV2) (active : list (LanExportPrefixV2 * str)) (tunnel_first : bool) :
  option (list LanExportPrefixV2) :=
  if negb (inventory_ready g) || negb (bypass_ready g) then Some []
  else
    let local_exports := prefix <$> base.filter (fun e => ready e = true) local in
    let candidates := base.filter (fun p => tunnel_first || negb (existsb (v2_lan_prefixes_overlap p) (connected_lans g)) = true) (fst <$> active) in
    l ← flat_map_opt (fun p => v2_lan_prefix_without_prefixes p local_exports) candidates;
    l ← flat_map_opt (fun p => v2_lan_prefix_without_hosts p (exclusions g)) l;
    l ← flat_map_opt (fun p => if tunnel_first then v2_lan_prefixes_prefer_over_connected p (connected_lans g) else Some [p]) l;
    Some (dedup (sort_by_key id l)).

Definition v2_native_lan_route_cidrs (g : NativeLanRouteGeneration) (local : PeerRuntimeRecordV2) (active : list (LanExportPrefixV2 * str)) (tunnel_first : bool) :
  option (list str) := l ← v2_native_lan_routes g local active tunnel_first; Some (map show_prefix l).

(** ** Blocks as ranges *)

Definition inside (p : LanExportPrefixV2) (a : Z) : Prop := network p <= a < network p + block_size p.
Definition covers (l : list LanExportPrefixV2) (a : Z) : Prop := exists p, p ∈ l /\ inside p a.

Lemma covers_app l1 l2 a : covers (l1 ++ l2) a <-> covers l1 a \/ covers l2 a.
Proof. unfold covers. set_solver. Qed.

Lemma covers_one p a : covers [p] a <-> inside p a.
Proof. unfold covers. set_solver. Qed.

Lemma covers_nil a : ~ covers [] a.
Proof. unfold covers. set_solver. Qed.

Lemma valid_size p : valid_prefix p -> 1 <= block_size p <= 2 ^ 24 /\ exists k, 0 <= k /\ network p = k * block_size p.
Proof.
  intros (Hn & Hl & Hm & _). unfold block_size in *. pose proof (size_bound _ Hl). split; [lia|]. unfold is_ipv4 in Hn.
  exists (network p / 2 ^ (32 - prefix_len p)). split; [apply Z.div_pos; lia|]. pose proof (Z.div_mod (network p) (2 ^ (32 - prefix_len p)) ltac:(lia)). lia.
Qed.

Lemma bounds_ok p : valid_prefix p -> bounds p = (network p, network p + block_size p - 1).
Proof.
  intros (Hn & Hl & Hm & _). unfold bounds, block_size in *. rewrite <- (last_address _ (prefix_len p)) by done. unfold ipv4_mask, mask. rewrite (proj2 (Z.eqb_neq _ _)) by lia. done.
Qed.

Lemma overlap_iff p q : valid_prefix p -> valid_prefix q -> v2_lan_prefixes_overlap p q = true <-> network p < network q + block_size q /\ network q < network p + block_size p.
Proof. intros Hp Hq. unfold v2_lan_prefixes_overlap. rewrite !bounds_ok by done. rewrite andb_true_iff, !Z.leb_le. lia. Qed.

(** Blocks that do not overlap share no address. *)
Lemma overlap_false p q : valid_prefix p -> valid_prefix q -> v2_lan_prefixes_overlap p q = false <-> forall a, inside p a -> ~ inside q a.
Proof.
  intros Hp Hq. pose proof (overlap_iff p q Hp Hq) as H. destruct (valid_size p Hp) as [? _], (valid_size q Hq) as [? _]. unfold inside.
  destruct (v2_lan_prefixes_overlap p q).
  - split; [done|]. intros Hn. exfalso. apply (Hn (Z.max (network p) (network q))); destruct (proj1 H eq_refl); lia.
  - split; [|done]. intros _ a Ha Hb. enough (false = true) by done. apply H. lia.
Qed.

(** Blocks that overlap are nested. *)
Lemma overlap_nested p q : valid_prefix p -> valid_prefix q -> v2_lan_prefixes_overlap p q = true -> prefix_len q <= prefix_len p -> forall a, inside p a -> inside q a.
Proof.
  intros Hp Hq Ho Hle a. apply overlap_iff in Ho as [H1 H2]; [|done..].
  destruct (valid_size p Hp) as [[Sp _] (k & Hk & Ek)], (valid_size q Hq) as [[Sq _] (j & Hj & Ej)].
  assert (exists m, 1 <= m /\ block_size q = m * block_size p) as (m & Hm & Em).
  { exists (2 ^ (prefix_len p - prefix_len q)). pose proof (Z.pow_pos_nonneg 2 (prefix_len p - prefix_len q)).
    destruct Hp as (_ & Lp & _), Hq as (_ & Lq & _). split; [lia|]. unfold block_size. rewrite <- Z.pow_add_r by lia. f_equal. lia. }
  unfold inside. rewrite Ek, Ej, Em in *. assert (k < (j + 1) * m) by nia. assert (j * m < k + 1) by nia. nia.
Qed.

Lemma children_ok p : valid_prefix p -> prefix_len p < 32 ->
  exists c1 c2, v2_lan_prefix_children p = Some (c1, c2) /\ valid_prefix c1 /\ valid_prefix c2 /\
    prefix_len c1 = prefix_len p + 1 /\ prefix_len c2 = prefix_len p + 1 /\ forall a, inside p a <-> inside c1 a \/ inside c2 a.
Proof.
  intros Hp Hl. destruct (valid_size p Hp) as [Sp (k & Hk & Ek)]. destruct Hp as (Hn & Hl8 & Hm & Hpr).
  unfold v2_lan_prefix_children. rewrite (proj2 (Z.eqb_neq _ _)) by lia. set (s := Z.shiftl 1 (32 - (prefix_len p + 1))).
  assert (block_size p = 2 * s) as Es.
  { unfold s, block_size. rewrite Z.shiftl_1_l. rewrite <- Z.pow_succ_r by lia. f_equal. lia. }
  assert (forall n, block_size (mkPrefix n (prefix_len p + 1)) = s) as Ec by (intros; unfold s, block_size; by rewrite Z.shiftl_1_l).
  eexists _, _. split; [done|]. unfold valid_prefix, inside. rewrite !Ec. cbn [network prefix_len]. rewrite Es in *.
  split; [|split; [|split; [done|split; [done|lia]]]].
  - split; [done|]. split; [lia|]. split; [rewrite Ek; replace (k * (2 * s)) with (k * 2 * s) by lia; apply Z.mod_mul; lia|]. intros a Ha. apply Hpr. lia.
  - split; [apply (private_special (network p + s)), Hpr; lia|]. split; [lia|]. split; [rewrite Ek; replace (k * (2 * s) + s) with ((k * 2 + 1) * s) by lia; apply Z.mod_mul; lia|].
    intros a Ha. apply Hpr. lia.
Qed.

Lemma contains_inside p a : valid_prefix p -> is_ipv4 a -> contains p a = true <-> inside p a.
Proof. apply contains_iff. Qed.

Lemma inside_ipv4 p a : valid_prefix p -> inside p a -> is_ipv4 a.
Proof. intros (_ & _ & _ & H) Ha. by apply private_special, H. Qed.

(** ** What the recursions leave of a block *)

Record pieces (p : LanExportPrefixV2) (keep : Z -> Prop) (l : list LanExportPrefixV2) : Prop := {
  pc_valid : Forall valid_prefix l;
  pc_sub : Forall (fun r => prefix_len p <= prefix_len r /\ forall a, inside r a -> inside p a) l;
  pc_covers : forall a, covers l a <-> inside p a /\ keep a }.

Lemma pieces_self p (keep : Z -> Prop) : valid_prefix p -> (forall a, inside p a -> keep a) -> pieces p keep [p].
Proof. intros Hp Hk. split; [by constructor|by apply Forall_singleton|]. intros a. rewrite covers_one. naive_solver. Qed.

Lemma pieces_none p (keep : Z -> Prop) : (forall a, inside p a -> ~ keep a) -> pieces p keep [].
Proof. intros Hk. split; [constructor|constructor|]. intros a. split; [by intros ?%covers_nil|]. intros [? ?]. by destruct (Hk a). Qed.

Lemma pieces_children p c1 c2 keep l1 l2 :
  (forall a, inside p a <-> inside c1 a \/ inside c2 a) -> prefix_len c1 = prefix_len p + 1 -> prefix_len c2 = prefix_len p + 1 ->
  pieces c1 keep l1 -> pieces c2 keep l2 -> pieces p keep (l1 ++ l2).
Proof.
  intros Hi L1 L2 [V1 S1 C1] [V2 S2 C2]. split; [by apply Forall_app| |].
  - apply Forall_app. split; [eapply Forall_impl; [exact S1|]|eapply Forall_impl; [exact S2|]]; intros r [? Hr]; (split; [lia|]); intros a Ha; apply Hi; auto.
  - intros a. rewrite covers_app, C1, C2, Hi. tauto.
Qed.

Lemma subtract_host_ok address fuel : forall p, is_ipv4 address -> valid_prefix p -> 32 - prefix_len p < Z.of_nat fuel ->
  exists l, subtract_host fuel p address = Some l /\ pieces p (fun a => a <> address) l.
Proof.
  induction fuel as [|fuel IH]; intros p Ha Hp Hf; [destruct Hp as (_ & ? & _); lia|]. cbn [subtract_host].
  pose proof (contains_inside p address Hp Ha) as Hc. destruct (contains p address); cbn [negb].
  - destruct (Z.eqb_spec (prefix_len p) 32) as [E|E].
    + unfold v2_lan_prefix_children. rewrite E. cbn. eexists. split; [done|]. apply pieces_none. unfold inside, block_size in *. rewrite E in *. cbn in *. intros a H1 H2. destruct (proj1 Hc eq_refl). lia.
    + destruct (children_ok p Hp) as (c1 & c2 & -> & V1 & V2 & L1 & L2 & Hi); [destruct Hp as (_ & ? & _); lia|].
      destruct (IH c1 Ha V1) as (l1 & -> & P1); [lia|]. destruct (IH c2 Ha V2) as (l2 & -> & P2); [lia|]. cbn.
      eexists. split; [done|]. by apply (pieces_children p c1 c2).
  - eexists. split; [done|]. apply pieces_self; [done|]. intros a Hin ->. by apply Hc in Hin.
Qed.

Lemma subtract_prefix_ok q fuel : forall p, valid_prefix q -> valid_prefix p -> 32 - prefix_len p < Z.of_nat fuel ->
  exists l, subtract_prefix fuel p q = Some l /\ pieces p (fun a => ~ inside q a) l.
Proof.
  induction fuel as [|fuel IH]; intros p Hq Hp Hf; [destruct Hp as (_ & ? & _); lia|]. cbn [subtract_prefix].
  destruct (v2_lan_prefixes_overlap p q) eqn:Ho; cbn [negb].
  - destruct (Z.leb_spec (prefix_len q) (prefix_len p)) as [Hle|Hlt].
    + eexists. split; [done|]. apply pieces_none. intros a Hin Hn. by apply Hn, (overlap_nested p q).
    + destruct (children_ok p Hp) as (c1 & c2 & -> & V1 & V2 & L1 & L2 & Hi); [destruct Hq as (_ & ? & _); lia|].
      destruct (IH c1 Hq V1) as (l1 & -> & P1); [lia|]. destruct (IH c2 Hq V2) as (l2 & -> & P2); [lia|]. cbn.
      eexists. split; [done|]. by apply (pieces_children p c1 c2).
  - eexists. split; [done|]. apply pieces_self; [done|]. by apply overlap_false.
Qed.

(** A route wins over a connected LAN that it overlaps when it is more specific. *)
Definition wins (r connected : LanExportPrefixV2) : Prop := prefix_len connected < prefix_len r \/ forall a, inside r a -> ~ inside connected a.

Lemma wins_sub r r' c : prefix_len r <= prefix_len r' /\ (forall a, inside r' a -> inside r a) -> wins r c -> wins r' c.
Proof. intros [Hl Hi] [H|H]; [left; lia|right]. auto. Qed.

(** The addresses that fragments cannot win: the single address of a connected /32 *)
Definition winnable (c : LanExportPrefixV2) (a : Z) : Prop := ~ (prefix_len c = 32 /\ inside c a).

Lemma fragment_one_ok c fuel : forall p, valid_prefix c -> valid_prefix p -> 32 - prefix_len p < Z.of_nat fuel ->
  exists l, fragment_one fuel p c = Some l /\ pieces p (winnable c) l /\ Forall (fun r => wins r c) l.
Proof.
  induction fuel as [|fuel IH]; intros p Hc Hp Hf; [destruct Hp as (_ & ? & _); lia|]. cbn [fragment_one].
  pose proof (proj1 (proj2 Hc)) as Lc. pose proof (proj1 (proj2 Hp)) as Lp.
  destruct (v2_lan_prefixes_overlap p c) eqn:Ho; cbn [negb orb]; [destruct (Z.ltb_spec (prefix_len c) (prefix_len p)) as [Hlt|Hge]|].
  - eexists. split; [done|]. split; [apply pieces_self; [done|]|apply Forall_singleton; left; lia]. intros a _ [? _]. lia.
  - destruct (Z.eqb_spec (prefix_len p) 32) as [E|E].
    + unfold v2_lan_prefix_children. rewrite E. cbn. eexists. split; [done|]. split; [|constructor]. apply pieces_none.
      intros a Hin Hw. apply Hw. split; [lia|]. apply (overlap_nested p c); done || lia.
    + destruct (children_ok p Hp) as (c1 & c2 & -> & V1 & V2 & L1 & L2 & Hi); [lia|].
      destruct (Z.eqb_spec (prefix_len p) (prefix_len c)) as [E'|E'].
      * eexists. split; [done|]. split; [|apply Forall_cons; split; [left; lia|apply Forall_singleton; left; lia]]. apply (pieces_children p c1 c2 _ [c1] [c2]); try done; (apply pieces_self; [done|]; intros a _ [? _]; lia).
      * destruct (IH c1 Hc V1) as (l1 & -> & P1 & W1); [lia|]. destruct (IH c2 Hc V2) as (l2 & -> & P2 & W2); [lia|]. cbn.
        eexists. split; [done|]. split; [by apply (pieces_children p c1 c2)|by apply Forall_app].
  - eexists. split; [done|]. pose proof (proj1 (overlap_false p c Hp Hc) Ho) as Hd.
    split; [apply pieces_self; [done|]; intros a Hin [_ Hin']; by apply (Hd a)|]. apply Forall_singleton. by right.
Qed.

(** ** Lists of blocks *)

Definition sub_block (r p : LanExportPrefixV2) : Prop := prefix_len p <= prefix_len r /\ forall a, inside r a -> inside p a.

#[export] Instance sub_block_preorder : PreOrder sub_block.
Proof. split; [by intros p|]. intros p q r [? ?] [? ?]. split; [lia|auto]. Qed.

Record cut_list (l : list LanExportPrefixV2) (keep : Z -> Prop) (L : list LanExportPrefixV2) : Prop := {
  cl_valid : Forall valid_prefix L;
  cl_sub : Forall (fun r => exists p, p ∈ l /\ sub_block r p) L;
  cl_covers : forall a, covers L a <-> covers l a /\ keep a }.

Lemma pieces_cut p keep l : pieces p keep l -> cut_list [p] keep l.
Proof.
  intros [V S C]. split; [done| |].
  - eapply Forall_impl; [exact S|]. intros r Hr. exists p. split; [set_solver|done].
  - intros a. by rewrite covers_one.
Qed.

Lemma cut_list_refl l : Forall valid_prefix l -> cut_list l (fun _ => True) l.
Proof. intros H. split; [done| |by intros; tauto]. apply Forall_forall. intros r Hr. by exists r. Qed.

Lemma cut_list_trans l k1 L k2 M : cut_list l k1 L -> cut_list L k2 M -> cut_list l (fun a => k1 a /\ k2 a) M.
Proof.
  intros [V1 S1 C1] [V2 S2 C2]. split; [done| |intros a; rewrite C2, C1; tauto].
  rewrite Forall_forall in *. intros r Hr. destruct (S2 r Hr) as (p & Hp & Hs). destruct (S1 p Hp) as (q & Hq & Hs'). exists q. split; [done|]. by etrans.
Qed.

Lemma cut_list_ext l k k' L : (forall a, k a <-> k' a) -> cut_list l k L -> cut_list l k' L.
Proof. intros Hk [V S C]. split; [done|done|]. intros a. by rewrite C, Hk. Qed.

Lemma cut_list_app l1 l2 k L1 L2 : cut_list l1 k L1 -> cut_list l2 k L2 -> cut_list (l1 ++ l2) k (L1 ++ L2).
Proof.
  intros [V1 S1 C1] [V2 S2 C2]. split; [by apply Forall_app| |intros a; rewrite !covers_app, C1, C2; tauto].
  apply Forall_app. split; [eapply Forall_impl; [exact S1|]|eapply Forall_impl; [exact S2|]]; intros r (p & ? & ?); exists p; set_solver.
Qed.

Lemma flat_map_opt_ok (f : LanExportPrefixV2 -> option (list LanExportPrefixV2)) (keep : Z -> Prop) (Q : LanExportPrefixV2 -> Prop) l :
  Forall (fun p => exists l', f p = Some l' /\ cut_list [p] keep l' /\ Forall Q l') l -> exists L, flat_map_opt f l = Some L /\ cut_list l keep L /\ Forall Q L.
Proof.
  induction 1 as [|p l (l1 & H1 & C1 & Q1) _ (L & H2 & C2 & Q2)]; cbn [flat_map_opt].
  - exists []. split; [done|]. split; [|constructor]. split; [constructor|constructor|]. intros a. split; [by intros ?%covers_nil|by intros [?%covers_nil _]].
  - rewrite H1, H2. cbn. eexists. split; [done|]. split; [apply (cut_list_app [p]); done|by apply Forall_app].
Qed.

Section cutting.
Context {B : Type} (f : LanExportPrefixV2 -> B -> option (list LanExportPrefixV2)) (good : B -> Prop) (keep : B -> Z -> Prop) (Q : B -> LanExportPrefixV2 -> Prop).
Hypothesis f_ok : forall p x, valid_prefix p -> good x -> exists l, f p x = Some l /\ pieces p (keep x) l /\ Forall (Q x) l.
Hypothesis Q_sub : forall x r p, sub_block r p -> Q x p -> Q x r.

Lemma cut_fold_ok xs : forall l, Forall valid_prefix l -> Forall good xs ->
  exists L, foldl (fun remaining x => l ← remaining; flat_map_opt (fun candidate => f candidate x) l) (Some l) xs = Some L /\
    cut_list l (fun a => forall x, x ∈ xs -> keep x a) L /\ forall x, x ∈ xs -> Forall (Q x) L.
Proof.
  induction xs as [|x xs IH]; intros l Hl Hg; cbn [foldl].
  - exists l. split; [done|]. split; [|set_solver]. eapply cut_list_ext; [|by apply cut_list_refl]. set_solver.
  - apply Forall_cons in Hg as [Gx Gxs].
    destruct (flat_map_opt_ok (fun c => f c x) (keep x) (Q x) l) as (L1 & E1 & C1 & Q1).
    { eapply Forall_impl; [exact Hl|]. intros p Hp. destruct (f_ok p x Hp Gx) as (l' & ? & ? & ?). exists l'. split; [done|]. split; [by apply pieces_cut|done]. }
    change (mbind _ (Some l)) with (flat_map_opt (fun c => f c x) l). rewrite E1. destruct (IH L1 (cl_valid _ _ _ C1) Gxs) as (L & -> & C & HQ). eexists. split; [done|]. split.
    + eapply cut_list_ext; [|exact (cut_list_trans _ _ _ _ _ C1 C)]. intros a. cbn. set_solver.
    + intros y [->|Hy]%elem_of_cons; [|by apply HQ]. rewrite Forall_forall in Q1 |- *. intros r Hr.
      destruct (proj1 (Forall_forall _ _) (cl_sub _ _ _ C) r Hr) as (p & Hp & Hs). by apply (Q_sub _ r p), Q1.
Qed.

Lemma cut_by_ok p xs : valid_prefix p -> Forall good xs ->
  exists L, cut_by f p xs = Some L /\ cut_list [p] (fun a => forall x, x ∈ xs -> keep x a) L /\ forall x, x ∈ xs -> Forall (Q x) L.
Proof. intros Hp Hg. apply cut_fold_ok; [by apply Forall_singleton|done]. Qed.

End cutting.

Lemma fuel_enough p : valid_prefix p -> 32 - prefix_len p < Z.of_nat FUEL.
Proof. intros (_ & ? & _). unfold FUEL. lia. Qed.

Lemma without_hosts_ok p xs : valid_prefix p -> Forall is_ipv4 xs -> exists L, v2_lan_prefix_without_hosts p xs = Some L /\ cut_list [p] (fun a => a ∉ xs) L.
Proof.
  intros Hp Hx. destruct (cut_by_ok (subtract_host FUEL) is_ipv4 (fun x a => a <> x) (fun _ _ => True)) with (p := p) (xs := xs) as (L & E & C & _); [|done..|].
  - intros q x Hq Hi. destruct (subtract_host_ok x FUEL q Hi Hq (fuel_enough q Hq)) as (l & ? & ?). exists l. split; [done|]. split; [done|]. by apply Forall_true.
  - exists L. split; [exact E|]. eapply cut_list_ext; [|exact C]. cbn. intros a. split; [intros H Ha; by apply (H a)|intros H x Hxs ->; done].
Qed.

Lemma without_prefixes_ok p qs : valid_prefix p -> Forall valid_prefix qs ->
  exists L, v2_lan_prefix_without_prefixes p qs = Some L /\ cut_list [p] (fun a => ~ covers qs a) L.
Proof.
  intros Hp Hx. destruct (cut_by_ok (subtract_prefix FUEL) valid_prefix (fun q a => ~ inside q a) (fun _ _ => True)) with (p := p) (xs := qs) as (L & E & C & _); [|done..|].
  - intros r x Hr Hi. destruct (subtract_prefix_ok x FUEL r Hi Hr (fuel_enough r Hr)) as (l & ? & ?). exists l. split; [done|]. split; [done|]. by apply Forall_true.
  - exists L. split; [exact E|]. eapply cut_list_ext; [|exact C]. unfold covers. cbn. intros a. split.
    + intros H (q & Hq & Ha). by apply (H q).
    + intros H q Hq Ha. apply H. by exists q.
Qed.

Lemma prefer_over_connected_ok p cs : valid_prefix p -> Forall valid_prefix cs ->
  exists L, v2_lan_prefixes_prefer_over_connected p cs = Some L /\ cut_list [p] (fun a => forall c, c ∈ cs -> winnable c a) L /\ forall c, c ∈ cs -> Forall (fun r => wins r c) L.
Proof.
  intros Hp Hx. apply (cut_by_ok (fragment_one FUEL) valid_prefix winnable (fun c r => wins r c)); [|by intros c r q; apply wins_sub|done..].
  intros r c Hr Hc. by apply fragment_one_ok, fuel_enough.
Qed.

(** ** The routes *)

Lemma dedup_elem l x : x ∈ dedup l <-> x ∈ l.
Proof.
  induction l as [|p l IH]; [done|]. destruct l as [|q l]; [done|].
  change (dedup (p :: q :: l)) with (if bool_decide (p = q) then dedup (q :: l) else p :: dedup (q :: l)).
  case_bool_decide as E; [subst; rewrite IH; set_solver|]. rewrite !elem_of_cons in *. rewrite IH. tauto.
Qed.

Lemma dedup_nodup l : StronglySorted (by_key id) l -> NoDup (dedup l).
Proof.
  induction 1 as [|p l Hs IH Hp]; [apply NoDup_nil_2|]. destruct l as [|q l]; [apply NoDup_singleton|].
  change (dedup (p :: q :: l)) with (if bool_decide (p = q) then dedup (q :: l) else p :: dedup (q :: l)).
  case_bool_decide as E; [done|]. apply NoDup_cons. split; [|done]. rewrite dedup_elem. intros Hin. apply E.
  pose proof (Forall_inv Hp) as H1. inversion Hs as [|?? _ Hq]; subst. rewrite Forall_forall in Hq. apply elem_of_cons in Hin as [?|Hin]; [done|].
  specialize (Hq _ Hin). unfold by_key, id in *. by apply (anti_symm key_le).
Qed.

Lemma covers_ext l l' a : (forall x, x ∈ l <-> x ∈ l') -> covers l a <-> covers l' a.
Proof. unfold covers. intros H. split; intros (p & ? & ?); exists p; (split; [by apply H|done]). Qed.

(** The addresses that the TUN device is to capture *)
Definition captured (g : NativeLanRouteGeneration) (local : PeerRuntimeRecordV2) (exported : LanExportPrefixV2 -> Prop) (tunnel_first : bool) (a : Z) : Prop :=
  inventory_ready g = true /\ bypass_ready g = true /\
  (exists p, exported p /\ inside p a /\ (tunnel_first = true \/ forall c x, c ∈ connected_lans g -> inside p x -> ~ inside c x)) /\
  (forall e, e ∈ local -> ready e = true -> ~ inside (prefix e) a) /\
  a ∉ exclusions g /\
  (tunnel_first = true -> forall c, c ∈ connected_lans g -> winnable c a).

Record generation_ok (g : NativeLanRouteGeneration) : Prop := {
  go_exclusions : Forall is_ipv4 (exclusions g);
  go_connected : Forall valid_prefix (connected_lans g) }.

Section routes.
Context (g : NativeLanRouteGeneration) (local : PeerRuntimeRecordV2) (active : list (LanExportPrefixV2 * str)) (tunnel_first : bool).
Hypothesis g_ok : generation_ok g.
Hypothesis local_ok : Forall (fun e => valid_prefix (prefix e)) local.
Hypothesis active_ok : Forall (fun x => valid_prefix (fst x)) active.

Definition candidates : list LanExportPrefixV2 :=
  base.filter (fun p => tunnel_first || negb (existsb (v2_lan_prefixes_overlap p) (connected_lans g)) = true) (fst <$> active).
Definition local_exports : list LanExportPrefixV2 := prefix <$> base.filter (fun e => ready e = true) local.

Lemma candidates_iff p : p ∈ candidates <-> (exists o, (p, o) ∈ active) /\ (tunnel_first = true \/ forall c x, c ∈ connected_lans g -> inside p x -> ~ inside c x).
Proof.
  unfold candidates. rewrite list_elem_of_filter, list_elem_of_fmap. rewrite orb_true_iff, negb_true_iff.
  assert ((exists o, (p, o) ∈ active) <-> exists y, p = y.1 /\ y ∈ active) as Ha.
  { split; [intros (o & ?); by exists (p, o)|]. intros ([q o] & -> & ?). by exists o. }
  rewrite Ha. clear Ha. enough (forall y, y ∈ active -> existsb (v2_lan_prefixes_overlap y.1) (connected_lans g) = false <-> forall c x, c ∈ connected_lans g -> inside y.1 x -> ~ inside c x) as He.
  { split; [intros (H & y & -> & Hy)|intros ((y & -> & Hy) & H)]; (split; [|eauto]); rewrite (He y Hy) in *; done || eauto. }
  intros y Hy.
  rewrite Forall_forall in active_ok. specialize (active_ok y Hy). destruct g_ok as [_ Hc]. rewrite Forall_forall in Hc. split.
  - intros He c x Hin. apply (proj1 (overlap_false y.1 c active_ok (Hc c Hin))). destruct (v2_lan_prefixes_overlap y.1 c) eqn:Eo; [|done].
    assert (existsb (v2_lan_prefixes_overlap y.1) (connected_lans g) = true) by (apply existsb_exists; exists c; split; [by apply list_elem_of_In|done]). congruence.
  - intros H. apply not_true_iff_false. intros (c & Hin & Ho)%existsb_exists. apply list_elem_of_In in Hin.
    rewrite (proj2 (overlap_false y.1 c active_ok (Hc c Hin))) in Ho; [done|]. intros a. by apply H.
Qed.

Lemma local_exports_covers a : covers local_exports a <-> exists e, e ∈ local /\ ready e = true /\ inside (prefix e) a.
Proof.
  unfold covers, local_exports. split.
  - intros (p & (e & -> & (Hr & He)%list_elem_of_filter)%list_elem_of_fmap & Ha). by exists e.
  - intros (e & He & Hr & Ha). exists (prefix e). split; [|done]. apply list_elem_of_fmap. exists e. split; [done|]. by apply list_elem_of_filter.
Qed.

Lemma candidates_valid : Forall valid_prefix candidates.
Proof.
  apply Forall_forall. intros p (_ & Hp)%list_elem_of_filter. apply list_elem_of_fmap in Hp as (y & -> & Hy). by apply (proj1 (Forall_forall _ _) active_ok).
Qed.

Lemma local_exports_valid : Forall valid_prefix local_exports.
Proof.
  apply Forall_forall. intros p (e & -> & (_ & He)%list_elem_of_filter)%list_elem_of_fmap. by apply (proj1 (Forall_forall _ _) local_ok).
Qed.

Lemma candidates_covers a :
  covers candidates a <-> exists p, (exists o, (p, o) ∈ active) /\ inside p a /\ (tunnel_first = true \/ forall c x, c ∈ connected_lans g -> inside p x -> ~ inside c x).
Proof.
  unfold covers. split.
  - intros (p & [(o & Ho) H]%candidates_iff & Ha). exists p. split; [by exists o|done].
  - intros (p & Ho & Ha & H). exists p. split; [|done]. by apply candidates_iff.
Qed.

(** The last stage *)
Lemma last_stage_ok p : valid_prefix p ->
  exists l, (if tunnel_first then v2_lan_prefixes_prefer_over_connected p (connected_lans g) else Some [p]) = Some l /\
    cut_list [p] (fun a => tunnel_first = true -> forall c, c ∈ connected_lans g -> winnable c a) l /\
    Forall (fun r => tunnel_first = true -> forall c, c ∈ connected_lans g -> wins r c) l.
Proof.
  intros Hp. destruct tunnel_first.
  - destruct (prefer_over_connected_ok p (connected_lans g) Hp (go_connected g g_ok)) as (l & E & C & W). exists l. split; [done|].
    split; [eapply cut_list_ext; [|exact C]; tauto|]. apply Forall_forall. intros r Hr _ c Hc. by apply (proj1 (Forall_forall _ _) (W c Hc)).
  - exists [p]. split; [done|]. split; [|by apply Forall_singleton]. eapply cut_list_ext; [|apply cut_list_refl; by apply Forall_singleton]. done.
Qed.

Lemma routes_ok : inventory_ready g = true -> bypass_ready g = true ->
  exists L, v2_native_lan_routes g local active tunnel_first = Some (dedup (sort_by_key id L)) /\
    cut_list candidates (fun a => ~ covers local_exports a /\ a ∉ exclusions g /\ (tunnel_first = true -> forall c, c ∈ connected_lans g -> winnable c a)) L /\
    Forall (fun r => tunnel_first = true -> forall c, c ∈ connected_lans g -> wins r c) L.
Proof.
  intros Hi Hb. unfold v2_native_lan_routes. rewrite Hi, Hb. cbn [negb orb]. fold local_exports candidates.
  destruct (flat_map_opt_ok (fun p => v2_lan_prefix_without_prefixes p local_exports) (fun a => ~ covers local_exports a) (fun _ => True) candidates) as (L1 & -> & C1 & _).
  { eapply Forall_impl; [exact candidates_valid|]. intros p Hp. destruct (without_prefixes_ok p _ Hp local_exports_valid) as (l & ? & ?). exists l. split; [done|]. split; [done|]. by apply Forall_true. }
  cbn [mbind option_bind].
  destruct (flat_map_opt_ok (fun p => v2_lan_prefix_without_hosts p (exclusions g)) (fun a => a ∉ exclusions g) (fun _ => True) L1) as (L2 & -> & C2 & _).
  { eapply Forall_impl; [exact (cl_valid _ _ _ C1)|]. intros p Hp. destruct (without_hosts_ok p _ Hp (go_exclusions g g_ok)) as (l & ? & ?). exists l. split; [done|]. split; [done|]. by apply Forall_true. }
  cbn [mbind option_bind].
  edestruct flat_map_opt_ok as (L3 & -> & C3 & W3); [eapply Forall_impl; [exact (cl_valid _ _ _ C2)|]; intros p Hp; exact (last_stage_ok p Hp)|].
  cbn [mbind option_bind]. exists L3. split; [done|]. split; [|exact W3].
  eapply cut_list_ext; [|exact (cut_list_trans _ _ _ _ _ C1 (cut_list_trans _ _ _ _ _ C2 C3))]. intros a. cbn. tauto.
Qed.

Lemma native_lan_routes_spec :
  exists routes, v2_native_lan_routes g local active tunnel_first = Some routes /\ NoDup routes /\ Forall valid_prefix routes /\
    (forall a, covers routes a <-> captured g local (fun p => exists o, (p, o) ∈ active) tunnel_first a) /\
    (forall r c, r ∈ routes -> c ∈ connected_lans g -> wins r c).
Proof.
  destruct (inventory_ready g && bypass_ready g) eqn:E.
  - apply andb_true_iff in E as [Hi Hb]. destruct (routes_ok Hi Hb) as (L & -> & [V S C] & W). eexists. split; [done|].
    assert (forall x, x ∈ dedup (sort_by_key id L) <-> x ∈ L) as Hx by (intros; by rewrite dedup_elem, sort_by_key_perm).
    split; [apply dedup_nodup, sort_by_key_sorted|]. split; [|split].
    + apply Forall_forall. intros r Hr%Hx. by apply (proj1 (Forall_forall _ _) V).
    + intros a. rewrite (covers_ext _ L a Hx), C, candidates_covers, local_exports_covers. unfold captured. split.
      * intros (Hc & Hl & He & Hw). split_and!; [done..| |done|done]. intros e He' Hr Ha. apply Hl. by exists e.
      * intros (_ & _ & Hc & Hl & He & Hw). split_and!; [done| |done|done]. intros (e & He' & Hr & Ha). by apply (Hl e).
    + intros r c Hr%Hx Hc. destruct tunnel_first eqn:Et; [by apply (proj1 (Forall_forall _ _) W)|]. right. intros a Ha.
      rewrite Forall_forall in S. destruct (S r Hr) as (p & [_ [?|H]]%candidates_iff & [_ Hs]); [congruence|]. by apply H, Hs.
  - exists []. unfold v2_native_lan_routes, captured. split; [by rewrite <- negb_andb, E|].
    split; [apply NoDup_nil_2|]. split; [constructor|]. split; [|set_solver]. intros a. split; [by intros ?%covers_nil|]. intros (Hi & Hb & _). by rewrite Hi, Hb in E.
Qed.

End routes.

(** ** Generations *)

Inductive underlay_op :=
| Begin
| Commit (token : Z) (excl : list Z) (lans : list LanExportPrefixV2)
| SetReady (token : Z) (ready : bool).

Definition underlay_step (g : NativeLanRouteGeneration) (op : underlay_op) : NativeLanRouteGeneration :=
  match op with
  | Begin => snd (begin_p2p_underlay_generation g)
  | Commit t excl lans => snd (commit_native_lan_route_generation g t excl lans)
  | SetReady t r => snd (set_p2p_underlay_generation_ready g t r)
  end.

Definition underlay_run (ops : list underlay_op) : NativeLanRouteGeneration := foldl underlay_step (generation_default 0) ops.

(** Tokens come from [begin]; the inventory is of addresses and of LAN prefixes. *)
Definition op_ok (op : underlay_op) : Prop :=
  match op with
  | Begin => True
  | Commit t excl lans => 1 <= t /\ Forall is_ipv4 excl /\ Forall valid_prefix lans
  | SetReady t _ => 1 <= t
  end.

Lemma underlay_run_snoc ops op : underlay_run (ops ++ [op]) = underlay_step (underlay_run ops) op.
Proof. unfold underlay_run. by rewrite foldl_app. Qed.

Lemma underlay_run_ok ops : Forall op_ok ops -> generation_ok (underlay_run ops).
Proof.
  induction ops as [|op ops IH] using rev_ind; intros H; [by split|]. apply Forall_app in H as [H Hop]. apply Forall_inv in Hop.
  rewrite underlay_run_snoc. specialize (IH H) as [H1 H2]. destruct op as [|t excl lans|t r]; cbn [underlay_step op_ok] in *.
  - by split.
  - unfold commit_native_lan_route_generation. destruct Hop as (_ & ? & ?). destruct (epoch _ =? t); by split.
  - unfold set_p2p_underlay_generation_ready. destruct (epoch _ =? t); [destruct r|]; by split.
Qed.

(** Since the last [begin], with its token *)
Definition since_begin (ops : list underlay_op) (t : Z) (post : list underlay_op) : Prop :=
  exists pre, ops = pre ++ Begin :: post /\ Begin ∉ post /\ t = fst (begin_p2p_underlay_generation (underlay_run pre)).

Record current (ops : list underlay_op) (g : NativeLanRouteGeneration) : Prop := {
  cu_epoch : epoch g = 0 \/ exists post, since_begin ops (epoch g) post;
  cu_inventory : inventory_ready g = true -> exists post, since_begin ops (epoch g) post /\ Commit (epoch g) (exclusions g) (connected_lans g) ∈ post;
  cu_bypass : bypass_ready g = true -> exists post, since_begin ops (epoch g) post /\ SetReady (epoch g) true ∈ post }.

Lemma since_begin_snoc ops t post op : op <> Begin -> since_begin ops t post -> since_begin (ops ++ [op]) t (post ++ [op]).
Proof. intros Hop (pre & -> & Hb & Ht). exists pre. rewrite <- app_assoc. split; [done|]. split; [set_solver|done]. Qed.

(** An operation that leaves the generation as it is *)
Lemma current_snoc ops g op : op <> Begin -> current ops g -> current (ops ++ [op]) g.
Proof.
  intros Hop [He Hi Hb]. split.
  - destruct He as [|(post & ?)]; [by left|right]. eexists. by apply since_begin_snoc.
  - intros H. destruct (Hi H) as (post & ? & ?). eexists. split; [by apply since_begin_snoc|set_solver].
  - intros H. destruct (Hb H) as (post & ? & ?). eexists. split; [by apply since_begin_snoc|set_solver].
Qed.

Lemma underlay_current ops : Forall op_ok ops -> current ops (underlay_run ops).
Proof.
  induction ops as [|op ops IH] using rev_ind; intros H; [split; [by left|done|done]|]. apply Forall_app in H as [H Hop]. apply Forall_inv in Hop.
  rewrite underlay_run_snoc. specialize (IH H). destruct op as [|t excl lans|t r]; cbn [underlay_step op_ok] in *.
  - split; [|done|done]. right. exists [], ops. split; [done|]. split; [set_solver|done].
  - unfold commit_native_lan_route_generation. destruct (Z.eqb_spec (epoch (underlay_run ops)) t) as [<-|]; cbn [negb snd]; [|by apply current_snoc].
    destruct IH as [He _ Hb]. destruct He as [|(post & Hs)]; [lia|]. apply (since_begin_snoc _ _ _ (Commit (epoch (underlay_run ops)) excl lans)) in Hs; [|done].
    split; cbn; [right; eauto|intros _; eexists; split; [exact Hs|set_solver]|]. intros Hbr. destruct (Hb Hbr) as (post' & ? & ?). eexists. split; [by apply since_begin_snoc|set_solver].
  - unfold set_p2p_underlay_generation_ready. destruct (Z.eqb_spec (epoch (underlay_run ops)) t) as [<-|]; cbn [negb]; [|by apply current_snoc].
    destruct IH as [He Hi _]. destruct He as [|(post & Hs)]; [lia|]. apply (since_begin_snoc _ _ _ (SetReady (epoch (underlay_run ops)) r)) in Hs; [|done].
    destruct r; split; cbn; try done; [right; eauto| |intros _; eexists; split; [exact Hs|set_solver]|right; eauto].
    intros Hir. destruct (Hi Hir) as (post' & ? & ?). eexists. split; [by apply since_begin_snoc|set_solver].
Qed.

(** ** The theorem *)

Definition event_ok (e : event) : Prop := match e with Replaced _ r => valid_record r | Removed _ => True end.

Lemma directory_records es : Forall event_ok es -> forall o r, records (foldl deliver empty_directory es) !! o = Some r -> valid_record r.
Proof.
  induction es as [|e es IH] using rev_ind; intros H o r; [done|]. apply Forall_app in H as [H He]. apply Forall_inv in He. rewrite foldl_app. cbn [foldl].
  specialize (IH H). set (d := foldl deliver empty_directory es) in *. destruct e as [o' r'|o']; cbn [deliver event_ok] in *.
  - unfold replace_origin. destruct (validate_origin o'); [|apply IH]. cbn [records]. destruct (decide (o = o')) as [->|];
      [rewrite lookup_insert_eq; by intros [= <-]|rewrite lookup_insert_ne by done; apply IH].
  - unfold remove_origin. destruct (records d !! o') eqn:E; cbn [snd]; [|apply IH]. cbn [records]. intros Hr. apply lookup_delete_Some in Hr as [_ Hr]. by eapply IH.
Qed.

Lemma directory_prefixes es o p : Forall event_ok es -> is_ready (foldl deliver empty_directory es) o p -> valid_prefix p.
Proof.
  intros H (r & Hr & Hp). apply (directory_records es H) in Hr as [_ Hv _ _]. unfold ready_prefixes in Hp.
  rewrite elem_of_list_to_set in Hp. apply list_elem_of_fmap in Hp as (e & -> & (_ & He)%list_elem_of_filter). by apply (proj1 (Forall_forall _ _) Hv).
Qed.

(** A prefix is in the snapshot exactly when some origin exports it. *)
Lemma snapshot_ready d entries p : dir_ok d -> entries ≡ₚ map_to_list (order d) -> (exists o, (p, o) ∈ active_export_snapshot entries) <-> exists o, is_ready d o p.
Proof.
  intros Hd He. split.
  - intros (o & Ho). rewrite (snapshot_spec d) in Ho by done. exists o. apply (do_ready d Hd). unfold active_exporter, exporters in *.
    destruct (order d !! p) as [[|x l]|]; try done. cbn in *. injection Ho as <-. set_solver.
  - intros (o & Ho). apply (do_ready d Hd) in Ho. unfold exporters in Ho. pose proof (do_no_empty d Hd p) as Hn.
    destruct (order d !! p) as [[|x l]|] eqn:E; cbn in Ho; [done| |by apply elem_of_nil in Ho]. exists x. rewrite (snapshot_spec d) by done. unfold active_exporter. by rewrite E.
Qed.

(** C13: Whatever the Peers published and whatever happened to the underlay, the capture routes
    are computed within the fuel, without duplicates, as blocks of private addresses.  An
    address is captured exactly when the inventory of the current generation and its bypass are
    ready, some origin exports it, this Peer does not export it, it is no protected address and
    no connected single-address network under Tunnel First; without Tunnel First an export that
    overlaps a connected LAN is left out.  Every route is more specific than, or apart from,
    every connected LAN, so it wins without replacing the connected route.  An inventory and a
    bypass of an earlier generation never count: both were reported with the token of the last
    [begin], after it. *)
Theorem native_lan_routes_exact ops es entries local tunnel_first :
  let g := underlay_run ops in
  let d := foldl deliver empty_directory es in
  Forall op_ok ops -> Forall event_ok es -> valid_record local -> entries ≡ₚ map_to_list (order d) ->
  exists routes, v2_native_lan_routes g local (active_export_snapshot entries) tunnel_first = Some routes /\ NoDup routes /\ Forall valid_prefix routes /\
    (forall a, covers routes a <-> captured g local (fun p => exists o, is_ready d o p) tunnel_first a) /\
    (forall r c, r ∈ routes -> c ∈ connected_lans g -> wins r c) /\ current ops g.
Proof.
  intros g d Hops Hes [_ Hl _ _] He. assert (dir_ok d) as Hd by (apply (deliver_all_ok es (mkPrefix 0 0)), empty_directory_ok).
  destruct (native_lan_routes_spec g local (active_export_snapshot entries) tunnel_first) as (routes & E & Hn & Hv & Hc & Hw); [by apply underlay_run_ok|done| |].
  { apply Forall_forall. intros [p o] Hp. destruct (proj1 (snapshot_ready d entries p Hd He)) as (o' & Hr); [by exists o|]. by apply (directory_prefixes es o'). }
  exists routes. split_and!; [done..| |done|by apply underlay_current]. intros a. rewrite Hc. unfold captured.
  split; intros (? & ? & (p & Hp & ?) & ?); (split_and!; try tauto); exists p; (split; [by apply (snapshot_ready d entries)|tauto]).
Qed.

(** 192.168.1.0/24 of a Peer, with the gateway 192.168.1.1 protected *)
Definition sample_ops : list underlay_op := [Begin; Commit 1 [be_number 256 [192; 168; 1; 1]] [sample_prefix]; SetReady 1 true].

Lemma native_lan_routes_exact_witness :
  (length <$> v2_native_lan_routes (underlay_run sample_ops) [] (active_export_snapshot (map_to_list (order (foldl deliver empty_directory [Replaced [97] [mkExport sample_prefix true]])))) true) = Some 8%nat /\
  exists routes, v2_native_lan_routes (underlay_run sample_ops) [] (active_export_snapshot (map_to_list (order (foldl deliver empty_directory [Replaced [97] [mkExport sample_prefix true]])))) true = Some routes /\
    forall a, covers routes a <-> captured (underlay_run sample_ops) [] (fun p => exists o, is_ready (foldl deliver empty_directory [Replaced [97] [mkExport sample_prefix true]]) o p) true a.
Proof.
  split; [vm_compute; reflexivity|].
  destruct (native_lan_routes_exact sample_ops [Replaced [97] [mkExport sample_prefix true]]
    (map_to_list (order (foldl deliver empty_directory [Replaced [97] [mkExport sample_prefix true]]))) [] true) as (routes & E & _ & _ & C & _).
  - repeat (apply Forall_cons; split); try apply Forall_nil; try exact I; cbn [op_ok]; try lia.
    split; [lia|]. split; apply Forall_singleton; [done|apply sample_prefix_valid].
  - apply Forall_singleton. split; [vm_compute; lia|apply Forall_singleton, sample_prefix_valid|apply NoDup_singleton|repeat constructor].
  - split; [vm_compute; lia|constructor|apply NoDup_nil_2|constructor].
  - reflexivity.
  - exists routes. split; [exact E|exact C].
Defined.

End LanRoutes.
