(* ===== verification/AccessPolicy.v ===== *)
(** * Who may reach what through this Peer (crates/tp-client/src/access_policy.rs)

    The access policy of a Client, its compilation, its decision, and the inbound V2 path of
    crates/tp-client/src/engine.rs and engine/util.rs that uses it: the target of a request
    is resolved once, must be this Peer or inside a ready LAN Export, and is decided.  The DNS
    lookup of tokio is a parameter. *)

From Stdlib Require Import ZArith Lia.
From stdpp Require Import base list numbers sorting.
From S2P Require Import Prelude CBytes RustStd PeerRuntime.
Import list_basics.list list_relations.list list_monad.list list_misc.list.
Import RustStd PeerRuntime.

Module AccessPolicy.

(** ** Data *)

Inductive ClientAccessTargetV2 := ThisPeer | Ip (a : IpAddr) | Cidr (s : str) | Host (s : str).
Inductive ClientAccessPortV2 := Any | Exact (p : Z).
Inductive ClientAccessProtocolV2 := Tcp | Udp.

#[export] Instance protocol_eq_dec : EqDecision ClientAccessProtocolV2.
Proof. solve_decision. Defined.

Record ClientAccessRuleV2 := mkRule { target : ClientAccessTargetV2; protocol : ClientAccessProtocolV2; port_of : ClientAccessPortV2 }.
Record ClientAccessPolicyV2 := mkPolicy { allow : list ClientAccessRuleV2; deny : list ClientAccessRuleV2 }.

(** "0.0.0.0/0" and "::/0" *)
Definition any_v4 : str := [48; 46; 48; 46; 48; 46; 48; 47; 48].
Definition any_v6 : str := [58; 58; 47; 48].

Definition everything (cidr : str) (p : ClientAccessProtocolV2) : ClientAccessRuleV2 := mkRule (Cidr cidr) p Any.

Definition closed : ClientAccessPolicyV2 :=
  mkPolicy [] [everything any_v4 Tcp; everything any_v4 Udp; everything any_v6 Tcp; everything any_v6 Udp].

Definition covers (policy : ClientAccessPolicyV2) (p : ClientAccessProtocolV2) (family : str) : bool :=
  existsb (fun rule => bool_decide (protocol rule = p) && match port_of rule with Any => true | Exact _ => false end &&
                       match target rule with Cidr cidr => bool_decide (cidr = family) | _ => false end) (deny policy).

Definition is_closed (policy : ClientAccessPolicyV2) : bool := forallb (fun p => covers policy p any_v4 && covers policy p any_v6) [Tcp; Udp].

Inductive IpCidrV2 := CidrV4 (base bits : Z) | CidrV6 (base bits : Z).
Inductive HostPatternV2 := HostExact (s : str) | HostSuffix (s : str).
Inductive CompiledTargetV2 := CThisPeer | CIp (a : IpAddr) | CCidr (c : IpCidrV2) | CHost (p : HostPatternV2).
Record CompiledRuleV2 := mkCompiled { c_target : CompiledTargetV2; c_protocol : ClientAccessProtocolV2; c_port : ClientAccessPortV2 }.
Record CompiledClientAccessPolicyV2 := mkCompiledPolicy { allow_is_gate : bool; c_allow : list CompiledRuleV2; c_deny : list CompiledRuleV2 }.

Inductive invalid_reason := ZeroPort | InvalidCidr | InvalidHostPattern | InvalidHostSuffix | OnlySuffixWildcard.
Inductive which_list := AllowList | DenyList.

(** [InvalidRule] *)
Record ClientAccessPolicyErrorV2 := InvalidRule { in_list : which_list; index : nat; reason : invalid_reason }.

Inductive ClientAccessTargetClassV2 := ThisPeerClass (own_overlay : Z) | Other (requested_host : str).
Inductive ClientAccessDecisionV2 := AllowDirect | AllowThisPeer (final_target : str) | Deny.

(** ** Matching *)

Definition mask_u32 (bits : Z) : Z := mask 32 bits.
Definition mask_u128 (bits : Z) : Z := mask 128 bits.

Definition cidr_parse (value : str) : option IpCidrV2 :=
  '(address, bits) ← split_once 47 value;
  bits ← parse_unsigned 255 bits;
  match parse_ipv4 address with
  | Some ip => if 32 <? bits then None else Some (CidrV4 (Z.land ip (mask_u32 bits)) bits)
  | None => ip ← parse_ipv6 address; if 128 <? bits then None else Some (CidrV6 (Z.land ip (mask_u128 bits)) bits)
  end.

Definition cidr_contains (c : IpCidrV2) (ip : IpAddr) : bool :=
  match c, ip with
  | CidrV4 base bits, V4 ip => Z.land ip (mask_u32 bits) =? base
  | CidrV6 base bits, V6 ip => Z.land ip (mask_u128 bits) =? base
  | _, _ => false
  end.

Definition host_matches (p : HostPatternV2) (host : str) : bool :=
  let host := to_ascii_lowercase (trim_end_matches (fun c => c =? 46) (trim host)) in
  match p with
  | HostExact expected => bool_decide (host = expected)
  | HostSuffix suffix => bool_decide (host = suffix) || ends_with host (46 :: suffix)
  end.

Definition rule_matches (rule : CompiledRuleV2) (class : ClientAccessTargetClassV2) (p : ClientAccessProtocolV2) (requested : SocketAddr) : bool :=
  if negb (bool_decide (c_protocol rule = p)) || match c_port rule with Any => false | Exact port' => negb (port' =? port requested) end then false
  else
    match c_target rule, class with
    | CThisPeer, ThisPeerClass own_overlay => bool_decide (ip requested = V4 own_overlay)
    | CIp expected, _ => bool_decide (ip requested = expected)
    | CCidr cidr, _ => cidr_contains cidr (ip requested)
    | CHost pattern, Other requested_host => host_matches pattern requested_host
    | _, _ => false
    end.

(** ** Compilation *)

Definition contains_any (cs : list Z) (s : str) : bool := existsb (fun c => existsb (Z.eqb c) cs) s.

Definition compile_target (l : which_list) (i : nat) (t : ClientAccessTargetV2) : result CompiledTargetV2 ClientAccessPolicyErrorV2 :=
  match t with
  | ThisPeer => Ok CThisPeer
  | Ip a => Ok (CIp a)
  | Cidr cidr => let? c := ok_or (cidr_parse cidr) (InvalidRule l i InvalidCidr) in Ok (CCidr c)
  | Host host =>
      let host := to_ascii_lowercase (trim host) in
      if bool_decide (host = []) || contains_any [47; 58; 92] host || existsb is_whitespace host then Err (InvalidRule l i InvalidHostPattern)
      else
        match strip_prefix [42; 46] host with
        | Some suffix => if bool_decide (suffix = []) || contains_any [42] suffix then Err (InvalidRule l i InvalidHostSuffix) else Ok (CHost (HostSuffix suffix))
        | None => if contains_any [42] host then Err (InvalidRule l i OnlySuffixWildcard) else Ok (CHost (HostExact host))
        end
  end.

(** [collect] stops at the first error. *)
Fixpoint compile_rules (l : which_list) (i : nat) (rules : list ClientAccessRuleV2) : result (list CompiledRuleV2) ClientAccessPolicyErrorV2 :=
  match rules with
  | [] => Ok []
  | rule :: rules =>
      let? r := match port_of rule with
                | Exact 0 => Err (InvalidRule l i ZeroPort)
                | _ => let? t := compile_target l i (target rule) in Ok (mkCompiled t (protocol rule) (port_of rule))
                end in
      let? rs := compile_rules l (S i) rules in
      Ok (r :: rs)
  end.

Definition is_this_peer (rule : CompiledRuleV2) : bool := match c_target rule with CThisPeer => true | _ => false end.

Definition compile (policy : ClientAccessPolicyV2) : result CompiledClientAccessPolicyV2 ClientAccessPolicyErrorV2 :=
  let? a := compile_rules AllowList 0 (allow policy) in
  let? d := compile_rules DenyList 0 (deny policy) in
  Ok (mkCompiledPolicy (existsb (fun rule => negb (is_this_peer rule)) a) a d).

Definition deny_all : CompiledClientAccessPolicyV2 := mkCompiledPolicy true [] [].

(** ** Decision *)

(** "127.0.0.1:" *)
Definition loopback_text (p : Z) : str := [49; 50; 55; 46; 48; 46; 48; 46; 49; 58] ++ show 5 10 p.

Definition decide_access (c : CompiledClientAccessPolicyV2) (class : ClientAccessTargetClassV2) (p : ClientAccessProtocolV2) (requested : SocketAddr) : ClientAccessDecisionV2 :=
  if existsb (fun rule => rule_matches rule class p requested) (c_deny c) then Deny
  else
    let matching_allow := List.find (fun rule => rule_matches rule class p requested) (c_allow c) in
    if allow_is_gate c && match matching_allow with None => true | Some _ => false end then Deny
    else
      let direct := AllowDirect in
      match class with
      | ThisPeerClass own_overlay =>
          if bool_decide (ip requested = V4 own_overlay) then
            match matching_allow with
            | Some rule => if is_this_peer rule then AllowThisPeer (loopback_text (port requested)) else Deny
            | None => Deny
            end
          else direct
      | Other _ => direct
      end.

Definition mapped_final_allowed (c : CompiledClientAccessPolicyV2) (p : ClientAccessProtocolV2) (final_host : str) (final_target : SocketAddr) : bool :=
  negb (existsb (fun rule => rule_matches rule (Other final_host) p final_target) (c_deny c)).

(** ** The inbound path *)

Section inbound.
(** tokio::net::lookup_host, with the timeout: [None] is an error *)
Variable lookup_host : str -> Z -> option (list SocketAddr).

Definition is_v4 (a : SocketAddr) : bool := match ip a with V4 _ => true | V6 _ => false end.

Fixpoint dedup_sockets (l : list SocketAddr) : list SocketAddr :=
  match l with
  | a :: ((b :: _) as r) => if bool_decide (a = b) then dedup_sockets r else a :: dedup_sockets r
  | _ => l
  end.

Record ResolvedTargetAddr := mkResolved { original_host : str; socket : SocketAddr }.

Definition resolve_target_addr_once (address : str) (ipv4_only : bool) : option ResolvedTargetAddr :=
  match parse_socket address with
  | Some s => if ipv4_only && negb (is_v4 s) then None else Some (mkResolved (show_ip (ip s)) s)
  | None =>
      '(host, port) ← rsplit_once 58 address;
      if bool_decide (host = []) || contains_any [58; 91; 93; 47; 92] host || existsb is_whitespace host then None
      else
        port ← parse_unsigned 65535 port;
        resolved ← lookup_host host port;
        s ← head (dedup_sockets (merge_sort sock_le (base.filter (fun a => negb ipv4_only || is_v4 a = true) resolved)));
        Some (mkResolved host s)
  end.

Record InboundDialTarget := mkDial { address : str; relay_local_authorized : bool; v2_access_authorized : bool }.

(** The decision, and the second resolution of a mapped target *)
Definition dial_target (policy : CompiledClientAccessPolicyV2) (class : ClientAccessTargetClassV2) (p : ClientAccessProtocolV2) (requested : SocketAddr) : option SocketAddr :=
  match decide_access policy class p requested with
  | AllowDirect => Some requested
  | AllowThisPeer final_target =>
      final ← resolve_target_addr_once final_target false;
      if mapped_final_allowed policy p (original_host final) (socket final) then Some (socket final) else None
  | Deny => None
  end.

(** The branch of [resolve_inbound_dial_target] for an active V2 profile whose overlay address
    is [overlay]; [None] is NotAuthorized. *)
Definition resolve_inbound_v2 (overlay : Z) (policy : CompiledClientAccessPolicyV2) (local_runtime : PeerRuntimeRecordV2)
    (direct_session : bool) (source_peer_id : option str) (p : ClientAccessProtocolV2) (addr : str) : option InboundDialTarget :=
  _ ← source_peer_id;
  requested_target ← resolve_target_addr_once addr true;
  let requested := socket requested_target in
  class ← (if bool_decide (ip requested = V4 overlay) then Some (ThisPeerClass overlay)
           else match ip requested with
                | V6 _ => None
                | V4 a => if existsb (fun e => ready e && contains (prefix e) a) local_runtime then Some (Other (original_host requested_target)) else None
                end);
  target ← dial_target policy class p requested;
  Some (mkDial (show_socket target) (negb direct_session) true).

End inbound.

(** ** What matches *)

Definition denied (c : CompiledClientAccessPolicyV2) (class : ClientAccessTargetClassV2) (p : ClientAccessProtocolV2) (s : SocketAddr) : Prop :=
  exists rule, rule ∈ c_deny c /\ rule_matches rule class p s = true.

(** The allow rule that decides is the first that matches. *)
Definition first_allow (c : CompiledClientAccessPolicyV2) (class : ClientAccessTargetClassV2) (p : ClientAccessProtocolV2) (s : SocketAddr) : option CompiledRuleV2 :=
  List.find (fun rule => rule_matches rule class p s) (c_allow c).

Lemma existsb_elem {A} (f : A -> bool) l : existsb f l = true <-> exists x, x ∈ l /\ f x = true.
Proof. rewrite existsb_exists. setoid_rewrite list_elem_of_In. done. Qed.

Lemma denied_iff c class p s : existsb (fun rule => rule_matches rule class p s) (c_deny c) = true <-> denied c class p s.
Proof. apply existsb_elem. Qed.

Lemma decide_direct c host p s :
  decide_access c (Other host) p s = AllowDirect <-> ~ denied c (Other host) p s /\ (allow_is_gate c = true -> first_allow c (Other host) p s <> None).
Proof.
  unfold decide_access, first_allow. rewrite <- denied_iff. destruct (existsb _ (c_deny c)); [split; [done|by intros [[] _]]|].
  destruct (allow_is_gate c), (List.find _ _); cbn; split; try done; intros; try (split; done). by destruct H as [_ []].
Qed.

Lemma decide_other c host p s : decide_access c (Other host) p s = AllowDirect \/ decide_access c (Other host) p s = Deny.
Proof. unfold decide_access. repeat case_match; auto. Qed.

Lemma decide_mapping c overlay p s d :
  ip s = V4 overlay ->
  decide_access c (ThisPeerClass overlay) p s = d <->
  (~ denied c (ThisPeerClass overlay) p s /\ (exists rule, first_allow c (ThisPeerClass overlay) p s = Some rule /\ is_this_peer rule = true) /\ d = AllowThisPeer (loopback_text (port s))) \/
  ((denied c (ThisPeerClass overlay) p s \/ ~ exists rule, first_allow c (ThisPeerClass overlay) p s = Some rule /\ is_this_peer rule = true) /\ d = Deny).
Proof.
  intros Hi. unfold decide_access, first_allow. rewrite <- denied_iff, Hi, bool_decide_true by done.
  destruct (existsb _ (c_deny c)); [naive_solver|]. destruct (List.find _ _) as [rule|].
  - rewrite andb_false_r. destruct (is_this_peer rule) eqn:Et; naive_solver congruence.
  - rewrite andb_true_r. destruct (allow_is_gate c); naive_solver.
Qed.

(** ** Resolution *)

Section resolution.
Variable lookup_host : str -> Z -> option (list SocketAddr).

(** What tokio documents of [lookup_host]: addresses with the port that was given *)
Definition lookup_ok : Prop := forall host p l, lookup_host host p = Some l -> Forall (fun a => port a = p /\ is_ip (ip a)) l.
Hypothesis lookup_spec : lookup_ok.

Lemma dedup_sockets_elem l x : x ∈ dedup_sockets l -> x ∈ l.
Proof.
  induction l as [|p l IH]; [done|]. destruct l as [|q l]; [done|].
  change (dedup_sockets (p :: q :: l)) with (if bool_decide (p = q) then dedup_sockets (q :: l) else p :: dedup_sockets (q :: l)).
  case_bool_decide as E; [intros ?; right; by apply IH|]. rewrite elem_of_cons. intros [->|Hx]; [left|right; by apply IH].
Qed.

Lemma resolve_v4 addr r : resolve_target_addr_once lookup_host addr true = Some r ->
  exists v p, socket r = mkSocket (V4 v) p /\ 0 <= v < 2 ^ 32 /\ 0 <= p < 65536.
Proof.
  unfold resolve_target_addr_once. destruct (parse_socket addr) as [s|] eqn:E.
  - unfold is_v4. destruct s as [[v|v] p]; cbn [ip andb negb]; [|done]. intros [= <-]. exists v, p. split; [done|].
    split; [by eapply parse_socket_v4|by apply parse_socket_port in E].
  - destruct (rsplit_once 58 addr) as [[host pt]|]; [|done]. cbn [mbind option_bind]. case_match; [done|].
    destruct (parse_unsigned 65535 pt) as [p|] eqn:Ep; [|done]. cbn [mbind option_bind]. destruct (lookup_host host p) as [l|] eqn:El; [|done]. cbn [mbind option_bind].
    destruct (head _) as [s|] eqn:Eh; [|done]. intros [= <-]. cbn [socket]. apply parse_unsigned_range in Ep.
    assert (s ∈ base.filter (fun a => negb true || is_v4 a = true) l) as Hs.
    { rewrite <- (merge_sort_Permutation sock_le). apply dedup_sockets_elem. destruct (dedup_sockets _); [done|]. injection Eh as ->. left. }
    apply list_elem_of_filter in Hs as [Hv Hs]. specialize (lookup_spec _ _ _ El). rewrite Forall_forall in lookup_spec. destruct (lookup_spec s Hs) as [Hp Hi].
    destruct s as [[v|v] p']; [|done]. exists v, p'. cbn in *. subst. split; [done|]. split; [done|lia].
Qed.

Lemma loopback_is_shown p : loopback_text p = show_socket (mkSocket (V4 (be_number 256 [127; 0; 0; 1])) p).
Proof. reflexivity. Qed.

Definition loopback (p : Z) : SocketAddr := mkSocket (V4 (be_number 256 [127; 0; 0; 1])) p.

Lemma resolve_loopback p : 0 <= p < 65536 ->
  resolve_target_addr_once lookup_host (loopback_text p) false = Some (mkResolved (show_ip (ip (loopback p))) (loopback p)).
Proof. intros Hp. unfold resolve_target_addr_once. rewrite loopback_is_shown, parse_show_socket by done. done. Qed.

End resolution.

(** ** Who is let in *)

Section authorised.
Context (lookup_host : str -> Z -> option (list SocketAddr)) (overlay : Z) (c : CompiledClientAccessPolicyV2) (local : PeerRuntimeRecordV2) (p : ClientAccessProtocolV2).

(** A request for this Peer: mapped to the loopback address by a ThisPeer rule *)
Definition authorised_mapping (requested final : SocketAddr) : Prop :=
  ip requested = V4 overlay /\ ~ denied c (ThisPeerClass overlay) p requested /\
  (exists rule, first_allow c (ThisPeerClass overlay) p requested = Some rule /\ is_this_peer rule = true) /\
  final = loopback (port requested) /\ ~ denied c (Other (show_ip (ip final))) p final.

(** A request for an address of a ready LAN Export *)
Definition authorised_export (host : str) (requested final : SocketAddr) : Prop :=
  exists a, ip requested = V4 a /\ a <> overlay /\ (exists e, e ∈ local /\ ready e = true /\ contains (prefix e) a = true) /\
    ~ denied c (Other host) p requested /\ (allow_is_gate c = true -> exists rule, first_allow c (Other host) p requested = Some rule) /\ final = requested.

Lemma class_export a (host : str) :
  (if existsb (fun e => ready e && contains (prefix e) a) local then Some (Other host) else None) = Some (Other host) <->
  exists e, e ∈ local /\ ready e = true /\ contains (prefix e) a = true.
Proof.
  pose proof (existsb_elem (fun e => ready e && contains (prefix e) a) local) as H. setoid_rewrite andb_true_iff in H.
  rewrite <- H. by destruct (existsb _ local).
Qed.

Lemma dial_mapping_iff requested final :
  ip requested = V4 overlay -> 0 <= port requested < 65536 ->
  dial_target lookup_host c (ThisPeerClass overlay) p requested = Some final <-> authorised_mapping requested final.
Proof.
  intros Hi Hp. unfold dial_target, authorised_mapping. pose proof (fun d => decide_mapping c overlay p requested d Hi) as H.
  destruct (proj1 (H _) eq_refl) as [(Hd & Ha & ->)|(Hd & ->)].
  - rewrite resolve_loopback by done. cbn [mbind option_bind original_host socket]. unfold mapped_final_allowed.
    pose proof (denied_iff c (Other (show_ip (ip (loopback (port requested))))) p (loopback (port requested))) as Hf.
    destruct (existsb _ (c_deny c)); cbn [negb].
    + split; [done|]. intros (_ & _ & _ & -> & Hn). destruct Hn. by apply Hf.
    + split; [intros [= <-]|by intros (_ & _ & _ & -> & _)]. split_and!; try done. by intros ?%Hf.
  - split; [done|]. intros (_ & Hd' & Ha & _). tauto.
Qed.

Lemma dial_export_iff host requested final a :
  ip requested = V4 a -> a <> overlay -> (exists e, e ∈ local /\ ready e = true /\ contains (prefix e) a = true) ->
  dial_target lookup_host c (Other host) p requested = Some final <-> authorised_export host requested final.
Proof.
  intros Hi Ho He. unfold dial_target, authorised_export. pose proof (decide_direct c host p requested) as H.
  assert ((first_allow c (Other host) p requested <> None) <-> exists rule, first_allow c (Other host) p requested = Some rule) as Hf.
  { destruct (first_allow c (Other host) p requested); split; try done; [by eexists|by intros [? ?]]. }
  rewrite Hf in H. destruct (decide_other c host p requested) as [E|E]; rewrite E in *.
  - destruct (proj1 H eq_refl) as [Hd Ha]. split; [intros [= <-]; by exists a|by intros (? & _ & _ & _ & _ & _ & ->)].
  - split; [done|]. intros (? & _ & _ & _ & Hd & Ha & _). by discriminate (proj2 H (conj Hd Ha)).
Qed.

Lemma resolve_inbound_iff direct source addr t :
  lookup_ok lookup_host ->
  resolve_inbound_v2 lookup_host overlay c local direct source p addr = Some t <->
  source <> None /\ exists r final, resolve_target_addr_once lookup_host addr true = Some r /\
    (authorised_mapping (socket r) final \/ authorised_export (original_host r) (socket r) final) /\ t = mkDial (show_socket final) (negb direct) true.
Proof.
  intros Hl. unfold resolve_inbound_v2. destruct source as [peer|]; cbn [mbind option_bind]; [|naive_solver].
  destruct (resolve_target_addr_once lookup_host addr true) as [r|] eqn:Er; cbn [mbind option_bind]; [|naive_solver].
  destruct (resolve_v4 lookup_host Hl addr r Er) as (v & pt & Es & Hv & Hp). destruct r as [host s]. cbn [socket original_host] in *. subst s.
  set (req := mkSocket (V4 v) pt). change (ip req) with (V4 v). case_bool_decide as Eo; cbn iota.
  - injection Eo as ->. cbn [mbind option_bind]. pose proof (fun final => dial_mapping_iff req final eq_refl Hp) as H.
    assert (forall h f, ~ authorised_export h req f) as Hn by (intros h f (a & [= <-] & ? & _); done).
    destruct (dial_target _ _ _ _ req) as [final|]; cbn [mbind option_bind]; [|split; [done|]; intros (_ & r & f & [= <-] & [Ha|Ha] & _); [by apply H in Ha|by apply Hn in Ha]].
    split; [intros [= <-]; split; [done|]; eexists _, final; split; [done|]; split; [left; by apply H|done]|]. intros (_ & r & f & [= <-] & [Ha|Ha] & ->); [|by apply Hn in Ha]. cbn in Ha. apply H in Ha. by injection Ha as <-.
  - assert (forall f, ~ authorised_mapping req f) as Hn by (intros f (? & _); done).
    pose proof (class_export v host) as Hc. destruct (existsb _ local) eqn:Ex; cbn [mbind option_bind].
    + destruct (proj1 Hc eq_refl) as (e & He). pose proof (fun final => dial_export_iff host req final v eq_refl ltac:(congruence) (ex_intro _ e He)) as H.
      destruct (dial_target _ _ _ _ req) as [final|]; cbn [mbind option_bind]; [|split; [done|]; intros (_ & r & f & [= <-] & [Ha|Ha] & _); [by apply Hn in Ha|by apply H in Ha]].
      split; [intros [= <-]; split; [done|]; eexists _, final; split; [done|]; split; [right; by apply H|done]|]. intros (_ & r & f & [= <-] & [Ha|Ha] & ->); [by apply Hn in Ha|]. cbn in Ha. apply H in Ha. by injection Ha as <-.
    + split; [done|]. intros (_ & r & f & [= <-] & [Ha|Ha] & ->); [by apply Hn in Ha|]. destruct Ha as (a & [= <-] & _ & He & _). by apply Hc in He.
Qed.

End authorised.

(** ** Closed policies *)

Lemma compile_rules_elem l rules : forall i cs, compile_rules l i rules = Ok cs ->
  forall rule, rule ∈ rules -> exists j t, compile_target l j (target rule) = Ok t /\ mkCompiled t (protocol rule) (port_of rule) ∈ cs.
Proof.
  induction rules as [|r rules IH]; intros i cs; cbn [compile_rules]; [intros _ rule ?%elem_of_nil; done|].
  intros H. set (first := match port_of r with Exact 0 => _ | _ => _ end) in H.
  assert (first = (let? t := compile_target l i (target r) in Ok (mkCompiled t (protocol r) (port_of r))) \/ exists e, first = Err e) as Hf.
  { unfold first. destruct (port_of r) as [|[| |]]; eauto. }
  destruct (compile_target l i (target r)) as [t|e] eqn:Et; [|destruct Hf as [->|(e' & ->)]; done].
  destruct Hf as [->|(e & ->)]; [|done]. cbn [rbind] in H. destruct (compile_rules l (S i) rules) as [rs|] eqn:Er; [|done]. injection H as <-.
  intros rule [->|Hr]%elem_of_cons; [exists i, t; split; [done|left]|]. destruct (IH _ _ Er rule Hr) as (j & t' & ? & ?). exists j, t'. split; [done|by right].
Qed.

Lemma covers_rule policy p family : covers policy p family = true -> mkRule (Cidr family) p Any ∈ deny policy.
Proof.
  unfold covers. intros ([tg pr po] & Hin & H)%existsb_elem. cbn in H. rewrite !andb_true_iff, bool_decide_eq_true in H. destruct H as [[-> Hp] Ht].
  destruct po; [|done]. destruct tg; try done. apply bool_decide_eq_true in Ht as ->. done.
Qed.

Lemma closed_cidr policy c p family cidr :
  compile policy = Ok c -> covers policy p family = true -> cidr_parse family = Some cidr -> mkCompiled (CCidr cidr) p Any ∈ c_deny c.
Proof.
  intros Hc Hv%covers_rule Hp. unfold compile in Hc. destruct (compile_rules AllowList 0 _); [|done]. cbn [rbind] in Hc.
  destruct (compile_rules DenyList 0 (deny policy)) as [d|] eqn:Ed; [|done]. injection Hc as <-. cbn [c_deny].
  destruct (compile_rules_elem _ _ _ _ Ed _ Hv) as (j & t & Ht & Hin). cbn [compile_target target] in Ht. rewrite Hp in Ht. by injection Ht as <-.
Qed.

Lemma closed_decide policy c class p s : compile policy = Ok c -> is_closed policy = true -> decide_access c class p s = Deny.
Proof.
  intros Hc Hcl. unfold is_closed in Hcl. cbn [forallb] in Hcl. rewrite !andb_true_iff in Hcl.
  assert (covers policy p any_v4 = true /\ covers policy p any_v6 = true) as [H4 H6] by (destruct p; tauto).
  unfold decide_access. rewrite (proj2 (denied_iff c class p s)); [done|].
  destruct s as [[v|v] pt]; [exists (mkCompiled (CCidr (CidrV4 0 0)) p Any)|exists (mkCompiled (CCidr (CidrV6 0 0)) p Any)];
    (split; [first [apply (closed_cidr policy c p any_v4 _ Hc H4); vm_compute; reflexivity|apply (closed_cidr policy c p any_v6 _ Hc H6); vm_compute; reflexivity]|]);
     unfold rule_matches; cbn [c_protocol c_port c_target ip port]; rewrite bool_decide_true by done; cbn [negb orb cidr_contains];
    (assert (Z.land v (mask_u32 0) = 0 /\ Z.land v (mask_u128 0) = 0) as [E1 E2] by (split; apply Z.land_0_r)); rewrite ?E1, ?E2; by destruct class.
Qed.

Lemma deny_all_decide class p s : decide_access deny_all class p s = Deny.
Proof. reflexivity. Qed.

Lemma all_denied lookup_host overlay c local direct source p addr :
  (forall class s, decide_access c class p s = Deny) -> resolve_inbound_v2 lookup_host overlay c local direct source p addr = None.
Proof.
  intros H. unfold resolve_inbound_v2, dial_target. destruct source; [|done]. cbn [mbind option_bind]. destruct (resolve_target_addr_once _ _ _) as [r|]; [|done]. cbn [mbind option_bind].
  destruct (if bool_decide _ then _ else _) as [class|]; [|done]. cbn [mbind option_bind]. by rewrite H.
Qed.

(** ** The theorem *)

Lemma authorised_final overlay c local p r final :
  valid_record local -> 0 <= port (socket r) < 65536 -> (exists v pt, socket r = mkSocket (V4 v) pt /\ is_ipv4 v /\ 0 <= pt < 65536) ->
  authorised_mapping overlay c p (socket r) final \/ authorised_export overlay c local p (original_host r) (socket r) final ->
  parse_socket (show_socket final) = Some final /\ ((exists pt, final = loopback pt) \/ exists a, ip final = V4 a /\ private a).
Proof.
  intros Hl Hp (v & pt & Es & Hv & Hpt) [Ha|Ha].
  - destruct Ha as (_ & _ & _ & -> & _). split; [by apply parse_show_socket|]. left. eauto.
  - destruct Ha as (a & Hi & _ & (e & He & _ & Hc) & _ & _ & ->). rewrite Es in *. injection Hi as ->. split; [by apply parse_show_socket|]. right. exists a. split; [done|].
    pose proof (proj1 (Forall_forall _ _) (vr_prefixes _ Hl) e He) as Hvp. apply (proj2 (proj2 (proj2 Hvp))). by apply contains_iff.
Qed.


(** This Peer is 198.18.0.5; TCP port 80 of it is mapped. *)
Definition sample_overlay : Z := be_number 256 [198; 18; 0; 5].
Definition sample_request : str := show_socket (mkSocket (V4 sample_overlay) 80).
Definition no_lookup : str -> Z -> option (list SocketAddr) := fun _ _ => None.
Definition sample_policy : CompiledClientAccessPolicyV2 := mkCompiledPolicy false [mkCompiled CThisPeer Tcp (Exact 80)] [].


(** ** Two corners of the policy *)

(** The first allow rule that matches decides: with the rule for 198.18.0.0/16 listed before it,
    the mapping of this Peer is refused; listed after it, it is granted. *)
Definition overlay_range : CompiledRuleV2 := mkCompiled (CCidr (CidrV4 (be_number 256 [198; 18; 0; 0]) 16)) Tcp Any.
Definition mapping_rule : CompiledRuleV2 := mkCompiled CThisPeer Tcp (Exact 80).

Example mapping_order_matters :
  decide_access (mkCompiledPolicy true [overlay_range; mapping_rule] []) (ThisPeerClass sample_overlay) Tcp (mkSocket (V4 sample_overlay) 80) = Deny /\
  decide_access (mkCompiledPolicy true [mapping_rule; overlay_range] []) (ThisPeerClass sample_overlay) Tcp (mkSocket (V4 sample_overlay) 80) = AllowThisPeer (loopback_text 80).
Proof. split; vm_compute; reflexivity. Qed.

Lemma trim_start_first (f : Z -> bool) s x r : trim_start_matches f s = x :: r -> f x = false.
Proof. induction s as [|y s IH]; cbn; [done|]. destruct (f y) eqn:E; [apply IH|]. by intros [= <- _]. Qed.

(** A host pattern with a final dot compiles, but no host matches it: the dots at the end of the
    requested name are cut off, those of the pattern are not. *)
Lemma dotted_pattern_never_matches s host : host_matches (HostExact (s ++ [46])) host = false.
Proof.
  unfold host_matches. apply bool_decide_eq_false. set (t := trim_end_matches _ _). intros H.
  assert (exists r, reverse t = 46 :: r) as (r & Hr).
  { unfold to_ascii_lowercase in H. apply (f_equal reverse) in H. rewrite reverse_app, <- fmap_reverse in H. cbn in H. destruct (reverse t) as [|x r]; [done|]. cbn in H. injection H as Hx _.
    exists r. f_equal. unfold between in Hx. destruct (Z.leb_spec 65 x), (Z.leb_spec x 90); cbn [andb] in Hx; lia. }
  unfold t, trim_end_matches in Hr. rewrite reverse_involutive in Hr. by apply trim_start_first in Hr.
Qed.

(** "example.com." *)
Example dotted_pattern_compiles :
  compile_target DenyList 0 (Host [101; 120; 97; 109; 112; 108; 101; 46; 99; 111; 109; 46]) = Ok (CHost (HostExact ([101; 120; 97; 109; 112; 108; 101; 46; 99; 111; 109] ++ [46]))).
Proof. vm_compute. reflexivity. Qed.

End AccessPolicy.
