(* ===== verification/RouteMatcher.v ===== *)
(** * Which Peer owns an address (crates/tp-client/src/route_matcher.rs)

    The table of overlay addresses, of private LAN host aliases and of LAN Exports, with the
    identities of replicas (p2p/replica.rs) and the derived overlay addresses (overlay.rs);
    SHA-256 is a parameter.  An address with two owners is ambiguous and never goes to one of
    them. *)

From Stdlib Require Import ZArith Lia.
From stdpp Require Import base list gmap numbers sorting.
From S2P Require Import Prelude CBytes RustStd PeerRuntime.
Import list_basics.list list_relations.list list_monad.list list_misc.list.
Import RustStd PeerRuntime.

Module RouteMatcher.

(** ** Replica identities *)

Definition is_ascii_digit (c : Z) : bool := between 48 57 c.
Definition is_ascii_alphanumeric (c : Z) : bool := between 48 57 c || between 65 90 c || between 97 122 c.

(** family, random part, index *)
Record ReplicaIdParts := mkParts { family : str; random : str; replica_number : Z }.

Definition is_replica_index (index : str) : bool :=
  bool_decide (index = [48]) || (negb (bool_decide (index = [])) && negb (bool_decide (head index = Some 48)) && forallb is_ascii_digit (as_bytes index)).

Definition parse_replica_id (client_id : str) : option ReplicaIdParts :=
  '(family, index) ← rsplit_once 45 client_id;
  '(_, random) ← rsplit_once 45 family;
  if bool_decide (family = []) || bool_decide (random = []) || negb (length (as_bytes random) =? 8)%nat ||
     negb (forallb is_ascii_alphanumeric (as_bytes random)) || negb (is_replica_index index)
  then None
  else n ← parse_unsigned (2 ^ 64 - 1) index; Some (mkParts family random n).

Definition replica_seed_for_tunnel (tunnel_id client_id : str) : option str :=
  parts ← parse_replica_id client_id;
  if bool_decide (family parts = tunnel_id ++ [45] ++ random parts) then Some (random parts) else None.

Definition replica_family_id (client_id : str) : str :=
  match parse_replica_id client_id with
  | Some parts => family parts ++ [45; 48]
  | None => client_id
  end.

Definition same_replica_family (a b : str) : bool :=
  match parse_replica_id a, parse_replica_id b with
  | Some a, Some b => bool_decide (family a = family b)
  | _, _ => false
  end.

Definition replica_index (client_id : str) : option Z := replica_number <$> parse_replica_id client_id.

Definition replica_id_for_index (client_id : str) (index : Z) : option str :=
  parts ← parse_replica_id client_id; Some (family parts ++ [45] ++ show 20 10 index).

Definition same_or_child_replica (base_client_id client_id : str) : bool :=
  if bool_decide (client_id = base_client_id) then true
  else
    match parse_replica_id base_client_id, parse_replica_id client_id with
    | Some base, Some child => bool_decide (family base = family child)
    | _, _ => false
    end.

(** ** Overlay addresses *)

Section overlay.
Variable Sha256 : bytes -> bytes.

(** "lantunnel-overlay-v1" and a zero byte *)
Definition OVERLAY_DERIVATION_DOMAIN : bytes := [108; 97; 110; 116; 117; 110; 110; 101; 108; 45; 111; 118; 101; 114; 108; 97; 121; 45; 118; 49; 0].
Definition OVERLAY_HOST_COUNT : Z := 65534.

Definition derive_peer_overlay_ipv4 (tunnel_id replica_seed : str) : Z :=
  let digest := Sha256 (OVERLAY_DERIVATION_DOMAIN ++ as_bytes tunnel_id ++ [0] ++ as_bytes replica_seed) in
  let hash_prefix := be_number 256 [nth 0 digest 0; nth 1 digest 0] in
  let host := hash_prefix mod OVERLAY_HOST_COUNT + 1 in
  be_number 256 [198; 18; Z.shiftr host 8 mod 256; host mod 256].

Definition overlay_ipv4_for_replica_id (tunnel_id replica_id : str) : option Z :=
  seed ← replica_seed_for_tunnel tunnel_id replica_id; Some (derive_peer_overlay_ipv4 tunnel_id seed).

End overlay.

(** ** The table *)

Definition MAX_LAN_ALIASES_PER_PEER : nat := 255.
Definition MAX_UNIQUE_LAN_ALIAS_DESTINATIONS : nat := 4096.

Inductive OverlayRouteMatch := Peer (peer_id : str) | Unmatched | Ambiguous.

Record OverlayRouteMatcher := mkMatcher {
  peer_overlays : gmap str Z;
  overlay_owners : gmap Z (gset str);
  peer_lan_aliases : gmap str (gset Z);
  lan_alias_owners : gmap Z (gset str);
  v2_lan_exports : PeerGossipDirectoryV2 }.

Definition empty_matcher : OverlayRouteMatcher := mkMatcher ∅ ∅ ∅ ∅ empty_directory.

Definition add_owner (m : gmap Z (gset str)) (peer : str) (a : Z) : gmap Z (gset str) := <[a := {[peer]} ∪ default ∅ (m !! a)]> m.

Definition remove_owner (m : gmap Z (gset str)) (peer : str) (a : Z) : gmap Z (gset str) :=
  match m !! a with
  | None => m
  | Some owners => let owners := owners ∖ {[peer]} in if decide (owners = ∅) then delete a m else <[a := owners]> m
  end.

Definition upsert_peer_overlay (m : OverlayRouteMatcher) (peer : str) (overlay : Z) : OverlayRouteMatcher :=
  let owners := match peer_overlays m !! peer with
                | Some previous => if negb (previous =? overlay) then remove_owner (overlay_owners m) peer previous else overlay_owners m
                | None => overlay_owners m
                end in
  mkMatcher (<[peer := overlay]> (peer_overlays m)) (add_owner owners peer overlay) (peer_lan_aliases m) (lan_alias_owners m) (v2_lan_exports m).

Definition upsert_replica (Sha256 : bytes -> bytes) (m : OverlayRouteMatcher) (tunnel_id replica_id : str) : option (Z * OverlayRouteMatcher) :=
  overlay ← overlay_ipv4_for_replica_id Sha256 tunnel_id replica_id;
  Some (overlay, upsert_peer_overlay m (replica_family_id replica_id) overlay).

Inductive LanAliasInstallError :=
| NotPrivateHost (a : Z)
| PeerAliasLimitExceeded (count max : nat)
| UniqueDestinationLimitExceeded (count max : nat).

(** [Ipv4Addr::is_private] *)
Definition is_private (v : Z) : bool := (v / 2 ^ 24 =? 10) || (v / 2 ^ 20 =? 172 * 16 + 1) || (v / 2 ^ 16 =? 192 * 256 + 168).

(** The addresses of a set in order, as a [BTreeSet] gives them *)
Definition in_order (s : gset Z) : list Z := merge_sort Z.le (elements s).

Definition check_aliases (aliases : gset Z) : option LanAliasInstallError :=
  if (MAX_LAN_ALIASES_PER_PEER <? size aliases)%nat then Some (PeerAliasLimitExceeded (size aliases) MAX_LAN_ALIASES_PER_PEER)
  else NotPrivateHost <$> List.find (fun a => negb (is_private a)) (in_order aliases).

(** The destinations after the replacement *)
Definition projected_destinations (m : OverlayRouteMatcher) (peer : str) (aliases : gset Z) : gset Z :=
  let gone := match peer_lan_aliases m !! peer with
              | Some previous => base.filter (fun a => lan_alias_owners m !! a = Some {[peer]}) previous
              | None => ∅
              end in
  (dom (lan_alias_owners m) ∖ gone) ∪ aliases.

Definition replace_peer_lan_aliases (m : OverlayRouteMatcher) (peer_id : str) (addresses : list Z) : result OverlayRouteMatcher LanAliasInstallError :=
  let aliases : gset Z := list_to_set addresses in
  match check_aliases aliases with
  | Some e => Err e
  | None =>
      let peer := replica_family_id peer_id in
      let projected := projected_destinations m peer aliases in
      if (MAX_UNIQUE_LAN_ALIAS_DESTINATIONS <? size projected)%nat then Err (UniqueDestinationLimitExceeded (size projected) MAX_UNIQUE_LAN_ALIAS_DESTINATIONS)
      else
        let owners := match peer_lan_aliases m !! peer with
                      | Some previous => foldl (fun o a => remove_owner o peer a) (lan_alias_owners m) (elements previous)
                      | None => lan_alias_owners m
                      end in
        let owners := foldl (fun o a => add_owner o peer a) owners (elements aliases) in
        Ok (mkMatcher (peer_overlays m) (overlay_owners m) (<[peer := aliases]> (peer_lan_aliases m)) owners (v2_lan_exports m))
  end.

(** The candidate table of a snapshot *)
Definition snapshot_aliases (snapshot : list (str * list Z)) : gmap str (gset Z) :=
  foldl (fun m '(peer_id, aliases) => let peer := replica_family_id peer_id in <[peer := default ∅ (m !! peer) ∪ list_to_set aliases]> m) ∅ snapshot.

Definition snapshot_owners (entries : list (str * gset Z)) : gmap Z (gset str) :=
  foldl (fun o '(peer, aliases) => foldl (fun o a => add_owner o peer a) o (elements aliases)) ∅ entries.

(** [entries]: the entries of the candidate table in the order of the [BTreeMap] *)
Definition replace_lan_alias_snapshot (m : OverlayRouteMatcher) (snapshot : list (str * list Z)) (entries : list (str * gset Z)) : result OverlayRouteMatcher LanAliasInstallError :=
  match omap (fun '(_, aliases) => check_aliases aliases) entries with
  | e :: _ => Err e
  | [] =>
      let owners := snapshot_owners entries in
      if (MAX_UNIQUE_LAN_ALIAS_DESTINATIONS <? size owners)%nat then Err (UniqueDestinationLimitExceeded (size owners) MAX_UNIQUE_LAN_ALIAS_DESTINATIONS)
      else Ok (mkMatcher (peer_overlays m) (overlay_owners m) (snapshot_aliases snapshot) owners (v2_lan_exports m))
  end.

Definition remove_peer (m : OverlayRouteMatcher) (peer : str) : bool * OverlayRouteMatcher :=
  let overlay := peer_overlays m !! peer in
  let aliases := peer_lan_aliases m !! peer in
  (bool_decide (is_Some overlay) || bool_decide (is_Some aliases),
   mkMatcher (delete peer (peer_overlays m))
     (match overlay with Some a => remove_owner (overlay_owners m) peer a | None => overlay_owners m end)
     (delete peer (peer_lan_aliases m))
     (match aliases with Some s => foldl (fun o a => remove_owner o peer a) (lan_alias_owners m) (elements s) | None => lan_alias_owners m end)
     (v2_lan_exports m)).

Definition match_owners (owners : gset str) : OverlayRouteMatch :=
  match elements owners with
  | [] => Unmatched
  | [peer] => Peer peer
  | _ => Ambiguous
  end.

Definition match_destination (m : OverlayRouteMatcher) (destination : IpAddr) : OverlayRouteMatch :=
  match destination with
  | V6 _ => Unmatched
  | V4 a => match_owners (default ∅ (overlay_owners m !! a) ∪ default ∅ (lan_alias_owners m !! a))
  end.

(** [entries]: the entries of the directory's order, in any order *)
Definition match_v2_destination (m : OverlayRouteMatcher) (entries : list (LanExportPrefixV2 * list str)) (destination : IpAddr) : OverlayRouteMatch :=
  match destination with
  | V6 _ => Unmatched
  | V4 a =>
      match overlay_owners m !! a with
      | Some owners => match elements owners with [peer] => Peer peer | _ => Ambiguous end
      | None => match longest_prefix_exporter entries a with Some (_, peer) => Peer peer | None => Unmatched end
      end
  end.

Definition replace_v2_lan_export_origin (m : OverlayRouteMatcher) (origin : str) (r : PeerRuntimeRecordV2) : result OverlayRouteMatcher PeerRuntimeErrorV2 :=
  let? d := replace_origin (v2_lan_exports m) origin r in
  Ok (mkMatcher (peer_overlays m) (overlay_owners m) (peer_lan_aliases m) (lan_alias_owners m) d).

Definition remove_v2_lan_export_origin (m : OverlayRouteMatcher) (origin : str) : bool * OverlayRouteMatcher :=
  let '(b, d) := remove_origin (v2_lan_exports m) origin in
  (b, mkMatcher (peer_overlays m) (overlay_owners m) (peer_lan_aliases m) (lan_alias_owners m) d).

Definition v2_active_lan_export_snapshot (entries : list (LanExportPrefixV2 * list str)) : list (LanExportPrefixV2 * str) := active_export_snapshot entries.

(** [position] of the origin among the exporters *)
Definition v2_lan_export_position (m : OverlayRouteMatcher) (p : LanExportPrefixV2) (origin : str) : option nat :=
  fst <$> list_find (fun o => o = origin) (exporters (v2_lan_exports m) p).

Definition peer_count (m : OverlayRouteMatcher) : nat := size (peer_overlays m).
Definition has_peer_overlay (m : OverlayRouteMatcher) (peer : str) : bool := bool_decide (is_Some (peer_overlays m !! peer)).

Definition route_snapshot (m : OverlayRouteMatcher) : list (Z * str) :=
  omap (fun a => owners ← overlay_owners m !! a; match elements owners with [peer] => Some (a, peer) | _ => None end) (in_order (dom (overlay_owners m))).

Definition lan_alias_destinations (m : OverlayRouteMatcher) : list Z := in_order (dom (lan_alias_owners m)).

(** ** Owners *)

Definition owners_at (m : gmap Z (gset str)) (a : Z) : gset str := default ∅ (m !! a).

(** The table of owners represents a relation and has no empty entry. *)
Record owners_ok (owns : str -> Z -> Prop) (m : gmap Z (gset str)) : Prop := {
  ow_iff : forall a p, p ∈ owners_at m a <-> owns p a;
  ow_some : forall a, m !! a <> Some ∅ }.

Lemma owners_ok_ext owns owns' m : (forall p a, owns p a <-> owns' p a) -> owners_ok owns m -> owners_ok owns' m.
Proof. intros H [H1 H2]. split; [|done]. intros. by rewrite H1, H. Qed.

Lemma remove_owner_ok owns m p a : owners_ok owns m -> owners_ok (fun q b => owns q b /\ ~ (q = p /\ b = a)) (remove_owner m p a).
Proof.
  intros [H1 H2]. assert (forall b, owners_at (remove_owner m p a) b = if decide (b = a) then owners_at m b ∖ {[p]} else owners_at m b) as E.
  { intros b. unfold remove_owner, owners_at. destruct (m !! a) as [s|] eqn:Ea; [case_decide as Hs|]; destruct (decide (b = a)) as [->|Hb];
      rewrite ?lookup_delete_eq, ?lookup_insert_eq, ?lookup_delete_ne, ?lookup_insert_ne, ?Ea by done; cbn; set_solver. }
  split.
  - intros b q. rewrite E. case_decide as Hb; [rewrite elem_of_difference, elem_of_singleton|]; rewrite H1; naive_solver.
  - intros b. unfold remove_owner. destruct (m !! a) as [s|]; [case_decide as Hs|by apply H2]; destruct (decide (b = a)) as [->|Hb];
      rewrite ?lookup_delete_eq, ?lookup_insert_eq, ?lookup_delete_ne, ?lookup_insert_ne by done; try apply H2; congruence.
Qed.

Lemma add_owner_ok owns m p a : owners_ok owns m -> owners_ok (fun q b => owns q b \/ (q = p /\ b = a)) (add_owner m p a).
Proof.
  intros [H1 H2]. assert (forall b, owners_at (add_owner m p a) b = if decide (b = a) then {[p]} ∪ owners_at m b else owners_at m b) as E.
  { intros b. unfold add_owner, owners_at. destruct (decide (b = a)) as [->|Hb]; rewrite ?lookup_insert_eq, ?lookup_insert_ne by done; done. }
  split.
  - intros b q. rewrite E. case_decide as Hb; [rewrite elem_of_union, elem_of_singleton|]; rewrite H1; naive_solver.
  - intros b. unfold add_owner. destruct (decide (b = a)) as [->|Hb]; rewrite ?lookup_insert_eq, ?lookup_insert_ne by done; [|apply H2].
    intros [= Hs]. assert (p ∈ (∅ : gset str)) as Hp by (rewrite <- Hs; set_solver). by apply elem_of_empty in Hp.
Qed.

Lemma remove_owners_ok owns p l : forall m, owners_ok owns m -> owners_ok (fun q b => owns q b /\ ~ (q = p /\ b ∈ l)) (foldl (fun o a => remove_owner o p a) m l).
Proof.
  revert owns. induction l as [|a l IH]; intros owns m Hm; cbn [foldl].
  - eapply owners_ok_ext; [|exact Hm]. intros q b. split; [|tauto]. intros; split; [done|]. by intros [_ ?%elem_of_nil].
  - eapply owners_ok_ext; [|apply IH, remove_owner_ok, Hm]. intros q b. cbn. rewrite elem_of_cons. tauto.
Qed.

Lemma add_owners_ok owns p l : forall m, owners_ok owns m -> owners_ok (fun q b => owns q b \/ (q = p /\ b ∈ l)) (foldl (fun o a => add_owner o p a) m l).
Proof.
  revert owns. induction l as [|a l IH]; intros owns m Hm; cbn [foldl].
  - eapply owners_ok_ext; [|exact Hm]. intros q b. split; [tauto|]. by intros [|[_ ?%elem_of_nil]].
  - eapply owners_ok_ext; [|apply IH, add_owner_ok, Hm]. intros q b. cbn. rewrite elem_of_cons. tauto.
Qed.

Lemma owners_dom owns m a : owners_ok owns m -> a ∈ dom m <-> exists p, owns p a.
Proof.
  intros [H1 H2]. rewrite elem_of_dom. setoid_rewrite <- H1. unfold owners_at. specialize (H2 a). destruct (m !! a) as [s|]; cbn.
  - split; [intros _|by eexists]. apply set_choose_L. congruence.
  - split; [by intros [? ?]|]. intros (p & Hp). by apply elem_of_empty in Hp.
Qed.

(** ** The invariant of the table *)

Definition alias_of (m : gmap str (gset Z)) (p : str) (a : Z) : Prop := exists s, m !! p = Some s /\ a ∈ s.

Definition aliases_ok (s : gset Z) : Prop := (size s <= MAX_LAN_ALIASES_PER_PEER)%nat /\ forall a, a ∈ s -> is_private a = true.

Record matcher_ok (m : OverlayRouteMatcher) : Prop := {
  mo_overlays : owners_ok (fun p a => peer_overlays m !! p = Some a) (overlay_owners m);
  mo_aliases : owners_ok (alias_of (peer_lan_aliases m)) (lan_alias_owners m);
  mo_peers : forall p s, peer_lan_aliases m !! p = Some s -> aliases_ok s;
  mo_destinations : (size (lan_alias_owners m) <= MAX_UNIQUE_LAN_ALIAS_DESTINATIONS)%nat;
  mo_exports : dir_ok (v2_lan_exports m) }.

Lemma check_aliases_iff s : check_aliases s = None <-> aliases_ok s.
Proof.
  unfold check_aliases, aliases_ok. destruct (Nat.ltb_spec MAX_LAN_ALIASES_PER_PEER (size s)); [split; [done|lia]|].
  assert (forall a, a ∈ in_order s <-> a ∈ s) as He by (intros; unfold in_order; by rewrite merge_sort_Permutation, elem_of_elements).
  destruct (List.find _ _) as [a|] eqn:E; cbn.
  - apply find_some in E as [Hin Hp]. apply list_elem_of_In, He in Hin. split; [done|]. intros [_ Ha]. specialize (Ha a Hin). by rewrite Ha in Hp.
  - split; [|done]. intros _. split; [lia|]. intros a Ha. apply He, list_elem_of_In in Ha. pose proof (find_none _ _ E a Ha) as Hn. by apply negb_false_iff.
Qed.

Lemma empty_matcher_ok : matcher_ok empty_matcher.
Proof.
  split; cbn; [..|unfold MAX_UNIQUE_LAN_ALIAS_DESTINATIONS; rewrite map_size_empty; lia|apply empty_directory_ok].
  - split; [|done]. intros a p. unfold owners_at. rewrite lookup_empty. split; [by intros ?%elem_of_empty|done].
  - split; [|done]. intros a p. unfold owners_at. rewrite lookup_empty. split; [by intros ?%elem_of_empty|by intros (? & ? & _)].
  - done.
Qed.

Lemma upsert_owners owns m p a previous :
  owners_ok owns m -> (forall b, owns p b <-> previous = Some b) ->
  owners_ok (fun q b => (q = p /\ b = a) \/ (q <> p /\ owns q b))
    (add_owner (match previous with Some x => if negb (x =? a) then remove_owner m p x else m | None => m end) p a).
Proof.
  intros Hm Hp. destruct previous as [x|]; [destruct (Z.eqb_spec x a) as [->|Hx]; cbn [negb]|].
  - eapply owners_ok_ext; [|apply add_owner_ok, Hm]. intros q b. cbn. destruct (decide (q = p)) as [->|]; [rewrite Hp|]; naive_solver.
  - eapply owners_ok_ext; [|apply add_owner_ok, remove_owner_ok, Hm]. intros q b. cbn. destruct (decide (q = p)) as [->|]; [rewrite Hp|]; naive_solver.
  - eapply owners_ok_ext; [|apply add_owner_ok, Hm]. intros q b. cbn. destruct (decide (q = p)) as [->|]; [rewrite Hp|]; naive_solver.
Qed.

Lemma upsert_peer_overlay_ok m p a : matcher_ok m -> matcher_ok (upsert_peer_overlay m p a).
Proof.
  intros [H1 H2 H3 H4 H5]. split; try done. unfold upsert_peer_overlay. cbn [peer_overlays overlay_owners].
  eapply owners_ok_ext; [|apply (upsert_owners _ _ _ _ (peer_overlays m !! p) H1); done]. intros q b. cbn.
  destruct (decide (q = p)) as [->|]; [rewrite lookup_insert_eq|rewrite lookup_insert_ne by done]; naive_solver.
Qed.

(** The owners after one Peer's aliases were replaced *)
Definition replaced_owners (m : OverlayRouteMatcher) (p : str) (aliases : gset Z) : gmap Z (gset str) :=
  foldl (fun o a => add_owner o p a)
    (match peer_lan_aliases m !! p with
     | Some previous => foldl (fun o a => remove_owner o p a) (lan_alias_owners m) (elements previous)
     | None => lan_alias_owners m
     end) (elements aliases).

Lemma replaced_owners_ok m p aliases : owners_ok (alias_of (peer_lan_aliases m)) (lan_alias_owners m) ->
  owners_ok (alias_of (<[p := aliases]> (peer_lan_aliases m))) (replaced_owners m p aliases).
Proof.
  intros Hm. unfold replaced_owners.
  assert (forall q b, alias_of (<[p := aliases]> (peer_lan_aliases m)) q b <-> (q <> p /\ alias_of (peer_lan_aliases m) q b) \/ (q = p /\ b ∈ elements aliases)) as E.
  { intros q b. unfold alias_of. rewrite elem_of_elements. destruct (decide (q = p)) as [->|]; [rewrite lookup_insert_eq|rewrite lookup_insert_ne by done]; naive_solver. }
  eapply owners_ok_ext; [intros q b; symmetry; apply E|]. clear E. destruct (peer_lan_aliases m !! p) as [s|] eqn:Ep.
  - eapply owners_ok_ext; [|apply add_owners_ok, remove_owners_ok, Hm]. intros q b. cbn. rewrite !elem_of_elements. unfold alias_of.
    destruct (decide (q = p)) as [->|]; [rewrite Ep|]; naive_solver.
  - eapply owners_ok_ext; [|apply add_owners_ok, Hm]. intros q b. cbn. unfold alias_of. destruct (decide (q = p)) as [->|]; [rewrite Ep|]; naive_solver.
Qed.

(** The destinations that only [p] owned *)
Definition gone (m : OverlayRouteMatcher) (p : str) : gset Z :=
  match peer_lan_aliases m !! p with Some previous => base.filter (fun a => lan_alias_owners m !! a = Some {[p]}) previous | None => ∅ end.

Lemma gone_iff m p a : owners_ok (alias_of (peer_lan_aliases m)) (lan_alias_owners m) -> a ∈ gone m p <-> owners_at (lan_alias_owners m) a = {[p]}.
Proof.
  intros [H1 _]. specialize (H1 a p). unfold gone. unfold owners_at in *. split.
  - destruct (peer_lan_aliases m !! p); [|by intros ?%elem_of_empty]. intros [-> _]%elem_of_filter. done.
  - intros E. rewrite E in H1. destruct (proj1 H1) as (s & -> & Ha); [by apply elem_of_singleton|]. apply elem_of_filter. split; [|done].
    destruct (lan_alias_owners m !! a) as [o|]; cbn in E; [by subst|]. exfalso. apply (not_elem_of_empty (C := gset str) p). rewrite E. by apply elem_of_singleton.
Qed.

(** The projection that is compared with the limit is the table that is installed. *)
Lemma projected_is_dom m p aliases : owners_ok (alias_of (peer_lan_aliases m)) (lan_alias_owners m) ->
  projected_destinations m p aliases = dom (replaced_owners m p aliases).
Proof.
  intros Hm. apply set_eq. intros a. rewrite (owners_dom _ _ a (replaced_owners_ok m p aliases Hm)). unfold projected_destinations. fold (gone m p).
  rewrite elem_of_union, elem_of_difference, (owners_dom _ _ a Hm), (gone_iff m p a Hm). destruct Hm as [H1 _]. specialize (H1 a). set (O := owners_at (lan_alias_owners m) a) in *.
  assert ((exists q, alias_of (<[p := aliases]> (peer_lan_aliases m)) q a) <-> a ∈ aliases \/ exists q, q <> p /\ q ∈ O) as ->.
  { setoid_rewrite H1. unfold alias_of. split.
    - intros (q & s & Hs & Ha). destruct (decide (q = p)) as [->|]; [rewrite lookup_insert_eq in Hs; injection Hs as <-; by left|rewrite lookup_insert_ne in Hs by done; right; eauto].
    - intros [Ha|(q & Hq & s & Hs & Ha)]; [exists p, aliases; by rewrite lookup_insert_eq|exists q, s; by rewrite lookup_insert_ne]. }
  setoid_rewrite <- H1. rewrite Logic.or_comm. apply or_iff_compat_l. split.
  - intros ((q & Hq) & Hn). destruct (decide (O ∖ {[p]} = ∅)) as [E|E].
    + exfalso. apply Hn. apply set_eq. intros x. rewrite elem_of_singleton. assert (forall y, y ∈ O -> y = p) as Hy.
      { intros y Hy. destruct (decide (y = p)); [done|]. exfalso. apply (not_elem_of_empty (C := gset str) y). rewrite <- E. by apply elem_of_difference; rewrite elem_of_singleton. }
      split; [apply Hy|]. intros ->. by rewrite <- (Hy q Hq).
    + apply set_choose_L in E as (x & Hx). exists x. apply elem_of_difference in Hx. rewrite elem_of_singleton in Hx. tauto.
  - intros (q & Hqp & Hq). split; [eauto|]. intros E. rewrite E, elem_of_singleton in Hq. done.
Qed.

Lemma replace_peer_lan_aliases_ok m peer_id addresses :
  matcher_ok m ->
  match replace_peer_lan_aliases m peer_id addresses with
  | Ok m' => matcher_ok m' /\ aliases_ok (list_to_set addresses) /\ peer_lan_aliases m' = <[replica_family_id peer_id := list_to_set addresses]> (peer_lan_aliases m)
  | Err _ => ~ aliases_ok (list_to_set addresses) \/ (MAX_UNIQUE_LAN_ALIAS_DESTINATIONS < size (replaced_owners m (replica_family_id peer_id) (list_to_set addresses)))%nat
  end.
Proof.
  intros [H1 H2 H3 H4 H5]. unfold replace_peer_lan_aliases. set (aliases := list_to_set addresses : gset Z). set (p := replica_family_id peer_id).
  pose proof (check_aliases_iff aliases) as Hc. destruct (check_aliases aliases) as [e|]; [left; intros Ha; by apply Hc in Ha|].
  pose proof (proj1 Hc eq_refl) as Ha. rewrite (projected_is_dom m p aliases H2), size_dom.
  destruct (Nat.ltb_spec MAX_UNIQUE_LAN_ALIAS_DESTINATIONS (size (replaced_owners m p aliases))) as [Hl|Hl]; [by right|]. split; [|done].
  split; try done; cbn [peer_lan_aliases lan_alias_owners].
  - by apply replaced_owners_ok.
  - intros q s. destruct (decide (q = p)) as [->|]; [rewrite lookup_insert_eq; by intros [= <-]|rewrite lookup_insert_ne by done; apply H3].
Qed.

Lemma snapshot_owners_fold (entries : list (str * gset Z)) : forall owns m, owners_ok owns m ->
  owners_ok (fun p a => owns p a \/ exists s : gset Z, (p, s) ∈ entries /\ a ∈ s) (foldl (fun o '(peer, aliases) => foldl (fun o a => add_owner o peer a) o (elements aliases)) m entries).
Proof.
  induction entries as [|[p s] entries IH]; intros owns m Hm; cbn [foldl].
  - eapply owners_ok_ext; [|exact Hm]. intros q b. split; [tauto|]. by intros [|(? & ?%elem_of_nil & _)].
  - eapply owners_ok_ext; [|apply IH, add_owners_ok, Hm]. intros q b. cbn. rewrite elem_of_elements. setoid_rewrite elem_of_cons. naive_solver.
Qed.

Lemma snapshot_owners_ok snapshot entries : entries ≡ₚ map_to_list (snapshot_aliases snapshot) -> owners_ok (alias_of (snapshot_aliases snapshot)) (snapshot_owners entries).
Proof.
  intros He. eapply owners_ok_ext; [|apply (snapshot_owners_fold entries (fun _ _ => False) ∅)].
  - intros p a. unfold alias_of. split.
    + intros [[]|(s & Hs & Ha)]. rewrite He, elem_of_map_to_list in Hs. eauto.
    + intros (s & Hs & Ha). right. exists s. by rewrite He, elem_of_map_to_list.
  - split; [|done]. intros a p. unfold owners_at. rewrite lookup_empty. split; [by intros ?%elem_of_empty|done].
Qed.

Lemma replace_snapshot_ok m snapshot entries :
  matcher_ok m -> entries ≡ₚ map_to_list (snapshot_aliases snapshot) ->
  match replace_lan_alias_snapshot m snapshot entries with
  | Ok m' => matcher_ok m' /\ peer_lan_aliases m' = snapshot_aliases snapshot
  | Err _ => (exists p s, snapshot_aliases snapshot !! p = Some s /\ ~ aliases_ok s) \/ (MAX_UNIQUE_LAN_ALIAS_DESTINATIONS < size (snapshot_owners entries))%nat
  end.
Proof.
  intros [H1 H2 H3 H4 H5] He. unfold replace_lan_alias_snapshot. destruct (omap _ entries) as [|e l] eqn:Eo.
  - destruct (Nat.ltb_spec MAX_UNIQUE_LAN_ALIAS_DESTINATIONS (size (snapshot_owners entries))) as [Hl|Hl]; [by right|]. split; [|done].
    split; try done; cbn [peer_lan_aliases lan_alias_owners]; [by apply snapshot_owners_ok|].
    intros p s Hs. apply check_aliases_iff. destruct (check_aliases s) as [e|] eqn:Ec; [|done].
    assert (e ∈ omap (fun '(_, aliases) => check_aliases aliases) entries) as Hin; [|rewrite Eo in Hin; by apply elem_of_nil in Hin].
    apply list_elem_of_omap. exists (p, s). by rewrite He, elem_of_map_to_list.
  - left. assert (e ∈ omap (fun '(_, aliases) => check_aliases aliases) entries) as Hin by (rewrite Eo; left).
    apply list_elem_of_omap in Hin as ([p s] & Hs & Hc). rewrite He, elem_of_map_to_list in Hs. exists p, s. split; [done|]. intros Ha%check_aliases_iff. congruence.
Qed.

Lemma remove_peer_ok m p b m' : matcher_ok m -> remove_peer m p = (b, m') -> matcher_ok m'.
Proof.
  intros [H1 H2 H3 H4 H5] [= _ <-].
  assert (owners_ok (alias_of (delete p (peer_lan_aliases m))) (match peer_lan_aliases m !! p with Some s => foldl (fun o a => remove_owner o p a) (lan_alias_owners m) (elements s) | None => lan_alias_owners m end)) as Ha.
  { destruct (peer_lan_aliases m !! p) as [s|] eqn:Es.
    - eapply owners_ok_ext; [|apply remove_owners_ok, H2]. intros q c. cbn. rewrite elem_of_elements. unfold alias_of.
      destruct (decide (q = p)) as [->|]; [rewrite Es, lookup_delete_eq|rewrite lookup_delete_ne by done]; naive_solver.
    - by rewrite delete_id. }
  split; cbn [peer_overlays overlay_owners peer_lan_aliases lan_alias_owners v2_lan_exports]; try done.
  - destruct (peer_overlays m !! p) as [a|] eqn:Ea.
    + eapply owners_ok_ext; [|apply remove_owner_ok, H1]. intros q c. cbn. destruct (decide (q = p)) as [->|]; [rewrite Ea, lookup_delete_eq|rewrite lookup_delete_ne by done]; naive_solver.
    + by rewrite delete_id.
  - intros q s Hs. apply lookup_delete_Some in Hs as [_ Hs]. by eapply H3.
  - etrans; [|exact H4]. rewrite <- !(size_dom (D := gset Z)). apply subseteq_size. intros a Hd.
    apply (owners_dom _ _ a Ha) in Hd as (q & s & Hs & Hin). apply lookup_delete_Some in Hs as [_ Hs]. apply (owners_dom _ _ a H2). by exists q, s.
Qed.

(** ** Matching *)

Lemma match_owners_spec s :
  (forall p, match_owners s = Peer p <-> s = {[p]}) /\ (match_owners s = Unmatched <-> s = ∅) /\ (match_owners s = Ambiguous <-> exists p q, p <> q /\ p ∈ s /\ q ∈ s).
Proof.
  unfold match_owners. pose proof (NoDup_elements s) as Hn. pose proof (elem_of_elements s) as He. destruct (elements s) as [|x [|y l]].
  - assert (s = ∅) as -> by (apply elem_of_equiv_empty_L; intros p Hp; apply He in Hp; by apply elem_of_nil in Hp).
    split; [intros p|split]; (split; try done). intros (p & q & _ & Hp & _). by apply elem_of_empty in Hp.
  - assert (s = {[x]}) as -> by (apply set_eq; intros p; rewrite <- He, list_elem_of_singleton, elem_of_singleton; done).
    split; [intros p|split]; (split; try done).
    + by intros [= <-].
    + intros E. f_equal. apply (elem_of_singleton (C := gset str)). rewrite <- E. by apply elem_of_singleton.
    + intros (p & q & Hpq & Hp & Hq). rewrite elem_of_singleton in *. congruence.
  - apply NoDup_cons in Hn as [Hx _]. assert (x ∈ s) as Hxs by (apply He; left). assert (y ∈ s) as Hys by (apply He; right; left).
    assert (x <> y) as Hxy by (intros ->; apply Hx; left). split; [intros p|split]; (split; try done).
    + intros ->. rewrite elem_of_singleton in *. congruence.
    + intros ->. by apply elem_of_empty in Hxs.
    + intros _. by exists x, y.
Qed.

Lemma singleton_iff (s : gset str) p : s = {[p]} <-> p ∈ s /\ forall q, q ∈ s -> q = p.
Proof.
  split; [intros ->; split; [by apply elem_of_singleton|intros q; by rewrite elem_of_singleton]|].
  intros [Hp Hq]. apply set_eq. intros q. rewrite elem_of_singleton. split; [apply Hq|by intros ->].
Qed.

(** ** Replicas of one family share the identity and the address *)

Lemma parse_family_zero client_id parts : parse_replica_id client_id = Some parts -> parse_replica_id (family parts ++ [45; 48]) = Some (mkParts (family parts) (random parts) 0).
Proof.
  unfold parse_replica_id. destruct (rsplit_once 45 client_id) as [[f i]|]; [|done]. cbn [mbind option_bind].
  destruct (rsplit_once 45 f) as [[g r]|] eqn:Ef; [|done]. cbn [mbind option_bind]. intros H. case_match eqn:Ec; [done|]. destruct (parse_unsigned _ i); [|done]. injection H as <-. cbn [family random].
  rewrite (proj2 (rsplit_once_spec 45 (f ++ [45; 48]) f [48])) by (split; [done|intros ?%list_elem_of_singleton; done]). cbn [mbind option_bind]. rewrite Ef. cbn [mbind option_bind].
  apply orb_false_iff in Ec as [-> _]. done.
Qed.

Lemma replica_family_id_idem client_id : replica_family_id (replica_family_id client_id) = replica_family_id client_id.
Proof.
  unfold replica_family_id at 2 3. destruct (parse_replica_id client_id) as [parts|] eqn:E; unfold replica_family_id; [|by rewrite E]. by rewrite (parse_family_zero _ _ E).
Qed.

Lemma show_replica_index n : 0 <= n < 2 ^ 64 ->
  is_replica_index (show 20 10 n) = true /\ parse_unsigned (2 ^ 64 - 1) (show 20 10 n) = Some n /\ 45 ∉ show 20 10 n.
Proof.
  intros Hn. destruct (show_decimal 20 (2 ^ 64 - 1) n) as (Hp & Hd & c & r & E & Hh); [lia..|]. split_and!; [|done|].
  - unfold is_replica_index. rewrite as_bytes_ascii by (eapply Forall_impl; [done|cbn; lia]). rewrite E in *.
    destruct (decide (c = 48 /\ r = [])) as [[-> ->]|Hne]; [done|]. rewrite (bool_decide_false (c :: r = [])) by done. rewrite (bool_decide_false (head (c :: r) = Some 48)) by (cbn; intros [= ->]; destruct Hh as [-> | Hc]; [by apply Hne|done]).
    rewrite orb_true_iff. right. cbn [negb andb]. apply forallb_forall. intros x Hx. apply list_elem_of_In in Hx. rewrite Forall_forall in Hd. apply between_true, Hd, Hx.
  - rewrite Forall_forall in Hd. intros H. specialize (Hd _ H). lia.
Qed.

(** The other replicas of a family: the number asked for, and the same stable identity *)
Lemma replica_id_for_index_ok client_id n id' : 0 <= n < 2 ^ 64 -> replica_id_for_index client_id n = Some id' ->
  replica_index id' = Some n /\ same_or_child_replica client_id id' = true /\ replica_family_id id' = replica_family_id client_id.
Proof.
  intros Hn. destruct (show_replica_index n Hn) as (Hi & Hp & Hd). unfold replica_id_for_index. destruct (parse_replica_id client_id) as [parts|] eqn:E; [|done]. cbn [mbind option_bind]. intros H. apply (inj Some) in H as <-.
  assert (parse_replica_id (family parts ++ [45] ++ show 20 10 n) = Some (mkParts (family parts) (random parts) n)) as E'.
  { unfold parse_replica_id in *. destruct (rsplit_once 45 client_id) as [[f i]|]; [|done]. cbn [mbind option_bind] in E.
    destruct (rsplit_once 45 f) as [[g r]|] eqn:Ef; [|done]. cbn [mbind option_bind] in E. case_match eqn:Ec; [done|]. destruct (parse_unsigned _ i); [|done]. injection E as <-. cbn [family random].
    rewrite (proj2 (rsplit_once_spec 45 (f ++ [45] ++ show 20 10 n) f (show 20 10 n))) by done. cbn [mbind option_bind]. rewrite Ef. cbn [mbind option_bind].
    apply orb_false_iff in Ec as [-> _]. by rewrite Hi, Hp. }
  unfold replica_index, same_or_child_replica, replica_family_id. rewrite E', E. split_and!; [done| |done]. case_bool_decide; [done|]. by apply bool_decide_true.
Qed.

Lemma same_family_same_id a b : same_replica_family a b = true -> replica_family_id a = replica_family_id b.
Proof.
  unfold same_replica_family, replica_family_id. destruct (parse_replica_id a), (parse_replica_id b); try done. rewrite bool_decide_eq_true. by intros ->.
Qed.

Section overlay_facts.
Variable Sha256 : bytes -> bytes.

Lemma family_overlay tunnel_id replica_id :
  is_Some (parse_replica_id replica_id) -> overlay_ipv4_for_replica_id Sha256 tunnel_id replica_id = overlay_ipv4_for_replica_id Sha256 tunnel_id (replica_family_id replica_id).
Proof.
  intros [parts E]. unfold overlay_ipv4_for_replica_id, replica_seed_for_tunnel, replica_family_id. rewrite E, (parse_family_zero _ _ E). done.
Qed.

(** 198.18.0.1 to 198.18.255.254 *)
Lemma overlay_address_range tunnel_id replica_id a :
  overlay_ipv4_for_replica_id Sha256 tunnel_id replica_id = Some a -> OVERLAY_BASE_V2 < a < OVERLAY_BASE_V2 + 65535.
Proof.
  unfold overlay_ipv4_for_replica_id. destruct (replica_seed_for_tunnel _ _) as [seed|]; [|done]. intros [= <-]. unfold derive_peer_overlay_ipv4.
  set (host := _ mod OVERLAY_HOST_COUNT + 1). change OVERLAY_BASE_V2 with ((198 * 256 + 18) * 65536). unfold be_number. cbn [foldl]. rewrite Z.shiftr_div_pow2 by lia.
  assert (1 <= host <= 65534) as Hh. { unfold host, OVERLAY_HOST_COUNT. pose proof (Z.mod_pos_bound (be_number 256 [nth 0 (Sha256 (OVERLAY_DERIVATION_DOMAIN ++ as_bytes tunnel_id ++ [0] ++ as_bytes seed)) 0; nth 1 (Sha256 (OVERLAY_DERIVATION_DOMAIN ++ as_bytes tunnel_id ++ [0] ++ as_bytes seed)) 0]) 65534). lia. }
  change (2 ^ 8) with 256. pose proof (Z.div_mod host 256). assert (host / 256 < 256) by (apply Z.div_lt_upper_bound; lia). assert (0 <= host / 256) by (apply Z.div_pos; lia).
  rewrite (Z.mod_small (host / 256)) by lia. lia.
Qed.

End overlay_facts.

Lemma is_private_iff a : is_private a = true <-> private a.
Proof.
  unfold is_private, private. rewrite !orb_true_iff, !Z.eqb_eq.
  pose proof (Z.div_mod a (2 ^ 24)). pose proof (Z.mod_pos_bound a (2 ^ 24)). pose proof (Z.div_mod a (2 ^ 20)). pose proof (Z.mod_pos_bound a (2 ^ 20)).
  pose proof (Z.div_mod a (2 ^ 16)). pose proof (Z.mod_pos_bound a (2 ^ 16)). lia.
Qed.

(** ** The theorem *)

Inductive route_op :=
| UpsertOverlay (peer : str) (overlay : Z)
| ReplaceAliases (peer_id : str) (addresses : list Z)
| AliasSnapshot (snapshot : list (str * list Z))
| RemovePeer (peer : str)
| ExportOrigin (e : event).

Definition on_ok {E} (m : OverlayRouteMatcher) (r : result OverlayRouteMatcher E) : OverlayRouteMatcher := match r with Ok m' => m' | Err _ => m end.

Definition route_step (m : OverlayRouteMatcher) (op : route_op) : OverlayRouteMatcher :=
  match op with
  | UpsertOverlay p a => upsert_peer_overlay m p a
  | ReplaceAliases p l => on_ok m (replace_peer_lan_aliases m p l)
  | AliasSnapshot s => on_ok m (replace_lan_alias_snapshot m s (map_to_list (snapshot_aliases s)))
  | RemovePeer p => snd (remove_peer m p)
  | ExportOrigin (Replaced o r) => on_ok m (replace_v2_lan_export_origin m o r)
  | ExportOrigin (Removed o) => snd (remove_v2_lan_export_origin m o)
  end.

Definition route_run (ops : list route_op) : OverlayRouteMatcher := foldl route_step empty_matcher ops.

Lemma route_step_ok m op : matcher_ok m -> matcher_ok (route_step m op).
Proof.
  intros Hm. destruct op as [p a|p l|s|p|[o r|o]]; cbn [route_step].
  - by apply upsert_peer_overlay_ok.
  - pose proof (replace_peer_lan_aliases_ok m p l Hm) as H. destruct (replace_peer_lan_aliases m p l); [apply H|done].
  - pose proof (replace_snapshot_ok m s _ Hm ltac:(reflexivity)) as H. destruct (replace_lan_alias_snapshot _ _ _); [apply H|done].
  - destruct (remove_peer m p) eqn:E. by eapply remove_peer_ok.
  - unfold replace_v2_lan_export_origin. destruct (replace_origin (v2_lan_exports m) o r) as [d|] eqn:E; [|done]. destruct Hm. split; try done. by eapply replace_ok.
  - unfold remove_v2_lan_export_origin. destruct (remove_origin (v2_lan_exports m) o) as [b d] eqn:E. destruct Hm. split; try done. by eapply remove_ok.
Qed.

Lemma route_run_ok ops : matcher_ok (route_run ops).
Proof.
  unfold route_run. generalize empty_matcher_ok. generalize empty_matcher. induction ops as [|op ops IH]; intros m Hm; [done|]. by apply IH, route_step_ok.
Qed.

Definition overlay_owner (m : OverlayRouteMatcher) (p : str) (a : Z) : Prop := peer_overlays m !! p = Some a.
Definition owner (m : OverlayRouteMatcher) (p : str) (a : Z) : Prop := overlay_owner m p a \/ alias_of (peer_lan_aliases m) p a.

(** What a match with the owners [owns] must answer *)
Definition answers (owns : str -> Prop) (r : OverlayRouteMatch) : Prop :=
  match r with
  | Peer p => owns p /\ forall q, owns q -> q = p
  | Unmatched => forall q, ~ owns q
  | Ambiguous => exists p q, p <> q /\ owns p /\ owns q
  end.

Lemma match_owners_answers (s : gset str) (owns : str -> Prop) : (forall p, p ∈ s <-> owns p) -> answers owns (match_owners s).
Proof.
  intros H. destruct (match_owners_spec s) as (H1 & H2 & H3). destruct (match_owners s) as [p| |]; cbn; setoid_rewrite <- H.
  - by apply singleton_iff, H1.
  - rewrite (proj1 H2 eq_refl). intros q. apply not_elem_of_empty.
  - by apply H3.
Qed.

Lemma match_destination_answers m a : matcher_ok m -> answers (fun p => owner m p a) (match_destination m (V4 a)).
Proof.
  intros [[H1 _] [H2 _] _ _ _]. cbn [match_destination]. apply match_owners_answers. intros p. rewrite elem_of_union. fold (owners_at (overlay_owners m) a) (owners_at (lan_alias_owners m) a).
  by rewrite H1, H2.
Qed.

(** In V2 an overlay owner excludes the exports. *)
Definition v2_answers (m : OverlayRouteMatcher) (a : Z) (r : OverlayRouteMatch) : Prop :=
  ((exists p, overlay_owner m p a) /\ answers (fun p => overlay_owner m p a) r) \/
  ((forall p, ~ overlay_owner m p a) /\ exists s, selected (v2_lan_exports m) a s /\ r = match s with Some (_, p) => Peer p | None => Unmatched end).

Lemma match_v2_answers m entries a :
  matcher_ok m -> entries ≡ₚ map_to_list (order (v2_lan_exports m)) -> v2_answers m a (match_v2_destination m entries (V4 a)).
Proof.
  intros Hm He. pose proof (mo_overlays m Hm) as Ho. pose proof (owners_dom _ _ a Ho) as Hd. destruct Ho as [H1 H2]. cbn [match_v2_destination].
  rewrite elem_of_dom in Hd. specialize (H1 a). unfold owners_at in H1. destruct (overlay_owners m !! a) as [s|] eqn:Es.
  - left. split; [by apply Hd|]. cbn in H1. pose proof (match_owners_answers s _ H1) as Ha. unfold match_owners in Ha.
    destruct (elements s) as [|x [|y l]] eqn:El; [|done|done]. destruct (H2 a). rewrite Es. f_equal. apply elem_of_equiv_empty_L. intros p Hp%elem_of_elements. rewrite El in Hp. by apply elem_of_nil in Hp.
  - right. split; [intros p Hp; apply H1 in Hp; by apply elem_of_empty in Hp|].
    exists (longest_prefix_exporter entries a). split; [by apply longest_prefix_selected, He; apply Hm|done].
Qed.

(** C18: The route table after any sequence of operations.  A destination goes to a Peer only
    when that Peer is its single owner; with two owners the answer is Ambiguous, with none
    Unmatched, and the answer is Ambiguous or Unmatched in no other case.  In V2 the owners of
    an overlay address decide alone; another address goes to the first exporter of the longest
    ready prefix that contains it.  No Peer holds more than 255 aliases, the table no more than
    4096 destinations, and all of them are private. *)
Theorem route_matcher_fail_closed ops entries a :
  let m := route_run ops in
  entries ≡ₚ map_to_list (order (v2_lan_exports m)) ->
  answers (fun p => owner m p a) (match_destination m (V4 a)) /\
  v2_answers m a (match_v2_destination m entries (V4 a)) /\
  (forall p s, peer_lan_aliases m !! p = Some s -> (size s <= MAX_LAN_ALIASES_PER_PEER)%nat /\ forall b, b ∈ s -> private b) /\
  (size (lan_alias_owners m) <= MAX_UNIQUE_LAN_ALIAS_DESTINATIONS)%nat.
Proof.
  intros m He. pose proof (route_run_ok ops) as Hm. fold m in Hm. split_and!.
  - by apply match_destination_answers.
  - by apply match_v2_answers.
  - intros p s Hs. destruct (mo_peers m Hm p s Hs) as [Hc Hp]. split; [done|]. intros b Hb. by apply is_private_iff, Hp.
  - apply Hm.
Qed.

(** Two Peers claim the address 7. *)
Lemma route_matcher_fail_closed_witness :
  match_destination (route_run [UpsertOverlay [97] 7; UpsertOverlay [98] 7]) (V4 7) = Ambiguous /\
  answers (fun p => owner (route_run [UpsertOverlay [97] 7; UpsertOverlay [98] 7]) p 7) (match_destination (route_run [UpsertOverlay [97] 7; UpsertOverlay [98] 7]) (V4 7)).
Proof.
  split; [vm_compute; reflexivity|].
  apply (route_matcher_fail_closed [UpsertOverlay [97] 7; UpsertOverlay [98] 7] (map_to_list (order (v2_lan_exports (route_run [UpsertOverlay [97] 7; UpsertOverlay [98] 7])))) 7 ltac:(reflexivity)).
Defined.

Lemma route_snapshot_iff m a p : matcher_ok m -> (a, p) ∈ route_snapshot m <-> overlay_owner m p a /\ forall q, overlay_owner m q a -> q = p.
Proof.
  intros Hm. destruct (mo_overlays m Hm) as [H1 H2]. specialize (H1 a). unfold owners_at in H1. unfold route_snapshot, in_order. rewrite list_elem_of_omap. setoid_rewrite merge_sort_Permutation.
  setoid_rewrite elem_of_elements. setoid_rewrite elem_of_dom. unfold overlay_owner. split.
  - intros (b & _ & Hb). destruct (overlay_owners m !! b) as [s|] eqn:Es; [|done]. cbn in Hb.
    pose proof (match_owners_spec s) as (Hp & _ & _). unfold match_owners in Hp. destruct (elements s) as [|x [|]]; try done. injection Hb as -> ->. rewrite Es in H1. cbn in H1.
    setoid_rewrite <- H1. by apply singleton_iff, Hp.
  - setoid_rewrite <- H1. intros H. exists a. destruct (overlay_owners m !! a) as [s|]; cbn in *; [|by destruct H as [?%elem_of_empty _]].
    apply singleton_iff in H as ->. split; [by eexists|]. by rewrite elements_singleton.
Qed.

End RouteMatcher.
