(* ===== verification/DatagramScheduler.v ===== *)
(** * The queue of UDP datagrams (crates/tp-transport/src/datagram_scheduler.rs)

    One queue per association with a packet and a byte budget, a global budget that evicts from
    the noisiest association, and deficit round robin over the associations that have data.
    Sizes are [usize]; the order in which the hash map of queues is visited is a parameter. *)

From Stdlib Require Import ZArith Lia.
From stdpp Require Import base list gmap numbers.
From S2P Require Import Prelude CBytes RustStd.
Import list_basics.list list_relations.list list_monad.list list_misc.list.
Import RustStd.

Module DatagramScheduler.

Definition USIZE_MAX : Z := 2 ^ 64 - 1.
Definition saturating_sub (a b : Z) : Z := Z.max 0 (a - b).
Definition saturating_add (a b : Z) : Z := Z.min (a + b) USIZE_MAX.
Definition saturating_mul (a b : Z) : Z := Z.min (a * b) USIZE_MAX.
Definition sum (l : list Z) : Z := foldr Z.add 0 l.

(** ** Data *)

Record DatagramFrame := mkFrame { conn_id : str; packed : bytes; frame_bytes : Z; fragment_group : option Z }.

Record DatagramSchedulerConfig := mkConfig {
  per_association_packet_limit : Z;
  per_association_byte_limit : Z;
  global_packet_limit : Z;
  global_byte_limit : Z }.

Record DatagramEnqueueOutcome := mkOutcome { accepted : bool; accepted_packets : Z; per_association_evicted : Z; global_budget_evicted : Z }.

Record QueueEviction := mkEviction { e_packets : Z; e_bytes : Z }.

Inductive QueueItem := Single (f : DatagramFrame) | FragmentGroup (frames : list DatagramFrame) (b : Z).

Definition item_packets (i : QueueItem) : Z := match i with Single _ => 1 | FragmentGroup frames _ => zlen frames end.
Definition item_bytes (i : QueueItem) : Z := match i with Single f => frame_bytes f | FragmentGroup _ b => b end.
Definition into_frames (i : QueueItem) : list DatagramFrame := match i with Single f => [f] | FragmentGroup frames _ => frames end.

Record AssociationQueue := mkQueue { items : list QueueItem; packets : Z; q_bytes : Z; deficit : Z; active : bool }.

Definition queue_new : AssociationQueue := mkQueue [] 0 0 0 false.

Definition push_item (q : AssociationQueue) (i : QueueItem) : AssociationQueue :=
  mkQueue (items q ++ [i]) (packets q + item_packets i) (q_bytes q + item_bytes i) (deficit q) (active q).

Definition pop_oldest_item (q : AssociationQueue) : QueueEviction * AssociationQueue :=
  match items q with
  | [] => (mkEviction 0 0, q)
  | i :: rest =>
      (mkEviction (item_packets i) (item_bytes i),
       mkQueue rest (saturating_sub (packets q) (item_packets i)) (saturating_sub (q_bytes q) (item_bytes i)) (match rest with [] => 0 | _ => deficit q end) (active q))
  end.

Definition is_empty (q : AssociationQueue) : bool := packets q =? 0.

Record State := mkState { queues : gmap str AssociationQueue; ready : list str; total_packets : Z; total_bytes : Z }.

Definition state_new : State := mkState ∅ [] 0 0.

Definition set_queue (st : State) (k : str) (q : AssociationQueue) : State := mkState (<[k := q]> (queues st)) (ready st) (total_packets st) (total_bytes st).

Definition subtract_totals (st : State) (e : QueueEviction) : State :=
  mkState (queues st) (ready st) (saturating_sub (total_packets st) (e_packets e)) (saturating_sub (total_bytes st) (e_bytes e)).

Definition mark_ready (st : State) (k : str) : State :=
  match queues st !! k with
  | None => st
  | Some q =>
      if active q || is_empty q then st
      else mkState (<[k := mkQueue (items q) (packets q) (q_bytes q) (deficit q) true]> (queues st)) (ready st ++ [k]) (total_packets st) (total_bytes st)
  end.

(** ** Eviction *)

Section scheduler.
(** The entries of the hash map, in the order of its iterator *)
Variable entries : gmap str AssociationQueue -> list (str * AssociationQueue).
Variable config : DatagramSchedulerConfig.

Definition key_of (by_bytes : bool) (q : AssociationQueue) : Z * Z := if by_bytes then (q_bytes q, packets q) else (packets q, q_bytes q).
Definition key_lt (a b : Z * Z) : bool := (fst a <? fst b) || ((fst a =? fst b) && (snd a <? snd b)).

(** [max_by_key] *)
Fixpoint noisiest (by_bytes : bool) (l : list (str * AssociationQueue)) : option (str * AssociationQueue) :=
  match l with
  | [] => None
  | x :: l =>
      match noisiest by_bytes l with
      | None => Some x
      | Some y => Some (if key_lt (key_of by_bytes (snd y)) (key_of by_bytes (snd x)) then x else y)
      end
  end.

Definition evict_noisiest (st : State) (by_bytes : bool) : option (QueueEviction * State) :=
  '(k, q) ← noisiest by_bytes (entries (queues st));
  let '(evicted, q) := pop_oldest_item q in
  let st := subtract_totals (set_queue st k q) evicted in
  Some (evicted, if is_empty q then mkState (delete k (queues st)) (base.filter (fun r => r <> k) (ready st)) (total_packets st) (total_bytes st) else st).

(** The first loop: the association's own budget.  [None] is fuel that ran out. *)
Fixpoint own_budget_loop (fuel : nat) (k : str) (n b : Z) (st : State) (evictions : Z) : option (State * Z) :=
  match fuel with
  | O => None
  | S fuel =>
      let q := default queue_new (queues st !! k) in
      let st := set_queue st k q in
      if (packets q + n <=? per_association_packet_limit config) && (q_bytes q + b <=? per_association_byte_limit config) then Some (st, evictions)
      else
        let '(evicted, q) := pop_oldest_item q in
        let st := set_queue st k q in
        if e_packets evicted =? 0 then Some (st, evictions)
        else own_budget_loop fuel k n b (subtract_totals st evicted) (evictions + e_packets evicted)
  end.

(** The second loop: the global budget *)
Fixpoint global_budget_loop (fuel : nat) (n b : Z) (st : State) (evictions : Z) : option (State * Z) :=
  match fuel with
  | O => None
  | S fuel =>
      if (global_packet_limit config <? total_packets st + n) || (global_byte_limit config <? total_bytes st + b) then
        match evict_noisiest st (global_byte_limit config <? total_bytes st + b) with
        | None => Some (st, evictions)
        | Some (evicted, st) => global_budget_loop fuel n b st (evictions + e_packets evicted)
        end
      else Some (st, evictions)
  end.

Definition rejected : DatagramEnqueueOutcome := mkOutcome false 0 0 0.

(** What a group must satisfy to be queued at all *)
Definition group_fits (frames : list DatagramFrame) : bool :=
  match frames with
  | [] => false
  | f :: _ =>
      let n := zlen frames in
      let b := sum (frame_bytes <$> frames) in
      negb (existsb (fun g => negb (bool_decide (conn_id g = conn_id f))) frames) &&
      negb (existsb (fun g => negb (bool_decide (fragment_group g = fragment_group f))) frames) &&
      (n <=? per_association_packet_limit config) && (b <=? per_association_byte_limit config) && (n <=? global_packet_limit config) && (b <=? global_byte_limit config)
  end.

Definition make_item (frames : list DatagramFrame) : QueueItem :=
  match frames with
  | [f] => match fragment_group f with None => Single f | Some _ => FragmentGroup frames (sum (frame_bytes <$> frames)) end
  | _ => FragmentGroup frames (sum (frame_bytes <$> frames))
  end.

Definition loop_fuel (st : State) : nat := S (Z.to_nat (total_packets st)).

Definition enqueue_group (receiver_closed : bool) (st : State) (frames : list DatagramFrame) : option (State * DatagramEnqueueOutcome) :=
  match frames with
  | [] => Some (st, rejected)
  | f :: _ =>
      if receiver_closed || negb (group_fits frames) then Some (st, rejected)
      else
        let k := conn_id f in
        let n := zlen frames in
        let b := sum (frame_bytes <$> frames) in
        '(st, own) ← own_budget_loop (loop_fuel st) k n b st 0;
        '(st, global) ← global_budget_loop (loop_fuel st) n b st 0;
        let q := push_item (default queue_new (queues st !! k)) (make_item frames) in
        let st := mkState (<[k := q]> (queues st)) (ready st) (total_packets st + n) (total_bytes st + b) in
        Some (mark_ready st k, mkOutcome true n own global)
  end.

Definition enqueue (receiver_closed : bool) (st : State) (frame : DatagramFrame) : option (State * DatagramEnqueueOutcome) := enqueue_group receiver_closed st [frame].

Definition remove_association (st : State) (k : str) : Z * State :=
  match queues st !! k with
  | None => (0, st)
  | Some q =>
      (packets q, mkState (delete k (queues st)) (base.filter (fun r => r <> k) (ready st)) (saturating_sub (total_packets st) (packets q)) (saturating_sub (total_bytes st) (q_bytes q)))
  end.

(** ** Delivery *)

(** The visit of one association: [inl] to continue with the next one *)
Definition visit (quantum : Z) (st : State) (k : str) (q : AssociationQueue) : State + (list DatagramFrame * State) :=
  if is_empty q then inl (mkState (delete k (queues st)) (ready st) (total_packets st) (total_bytes st))
  else
    let d := saturating_add (deficit q) quantum in
    match items q with
    | [] => inl (mkState (delete k (queues st)) (ready st) (total_packets st) (total_bytes st))
    | i :: rest =>
        if d <? item_bytes i then inl (mark_ready (set_queue st k (mkQueue (items q) (packets q) (q_bytes q) d false)) k)
        else
          let q := mkQueue rest (saturating_sub (packets q) (item_packets i)) (saturating_sub (q_bytes q) (item_bytes i)) (d - item_bytes i) false in
          let st := subtract_totals (set_queue st k q) (mkEviction (item_packets i) (item_bytes i)) in
          inr (into_frames i, if negb (is_empty q) then mark_ready st k else mkState (delete k (queues st)) (ready st) (total_packets st) (total_bytes st))
    end.

Fixpoint pop_loop (attempts : nat) (quantum : Z) (st : State) : option (list DatagramFrame) * State :=
  match attempts with
  | O => (None, st)
  | S attempts =>
      match ready st with
      | [] => (None, st)
      | k :: rest =>
          let st := mkState (queues st) rest (total_packets st) (total_bytes st) in
          match queues st !! k with
          | None => pop_loop attempts quantum st
          | Some q =>
              match visit quantum st k q with
              | inl st => pop_loop attempts quantum st
              | inr (frames, st) => (Some frames, st)
              end
          end
      end
  end.

Definition head_bytes (q : AssociationQueue) : option Z := item_bytes <$> head (items q).

Definition attempts (quantum : Z) (st : State) : Z :=
  let ready_len := zlen (ready st) in
  let max_head_bytes := foldr Z.max 0 (omap (fun '(_, q) => head_bytes q) (entries (queues st))) in
  let visits_per_queue := Z.max 1 (saturating_add max_head_bytes (saturating_sub quantum 1) / quantum) in
  Z.max 1 (saturating_add (saturating_mul ready_len visits_per_queue) ready_len).

Definition try_pop_with_quantum (quantum : Z) (st : State) : option (list DatagramFrame) * State := pop_loop (Z.to_nat (attempts quantum st)) quantum st.

(** The receiver keeps the rest of a batch; [None]: nothing to take now. *)
Definition recv_batch_with_quantum (quantum : Z) (pending : list DatagramFrame) (st : State) : option (list DatagramFrame) * list DatagramFrame * State :=
  match pending with
  | _ :: _ => (Some pending, [], st)
  | [] => let '(r, st) := try_pop_with_quantum (Z.max 1 quantum) st in (r, [], st)
  end.

Definition recv_with_quantum (quantum : Z) (pending : list DatagramFrame) (st : State) : option DatagramFrame * list DatagramFrame * State :=
  match pending with
  | f :: pending => (Some f, pending, st)
  | [] =>
      match recv_batch_with_quantum quantum [] st with
      | (Some (f :: batch), _, st) => (Some f, batch, st)
      | (_, _, st) => (None, [], st)
      end
  end.

End scheduler.

(** ** Sums over the queues *)

Lemma sum_app l1 l2 : sum (l1 ++ l2) = sum l1 + sum l2.
Proof. unfold sum. induction l1 as [|x l1 IH]; cbn; [done|]. rewrite IH. lia. Qed.

Lemma sum_cons x l : sum (x :: l) = x + sum l.
Proof. done. Qed.

Lemma sum_perm l1 l2 : l1 ≡ₚ l2 -> sum l1 = sum l2.
Proof. unfold sum. induction 1; cbn; lia. Qed.

Lemma sum_nonneg l : Forall (fun x => 0 <= x) l -> 0 <= sum l.
Proof. unfold sum. induction 1; cbn; lia. Qed.

Definition msum (f : AssociationQueue -> Z) (m : gmap str AssociationQueue) : Z := sum ((fun x => f (snd x)) <$> map_to_list m).

Lemma msum_empty f : msum f ∅ = 0.
Proof. unfold msum. by rewrite map_to_list_empty. Qed.

Lemma msum_insert f m k q : m !! k = None -> msum f (<[k := q]> m) = f q + msum f m.
Proof. intros H. unfold msum. rewrite (sum_perm _ ((fun x => f (snd x)) <$> (k, q) :: map_to_list m)); [done|]. by rewrite map_to_list_insert. Qed.

Lemma msum_delete f m k q : m !! k = Some q -> msum f m = f q + msum f (delete k m).
Proof. intros H. rewrite <- (insert_delete_id m k q H) at 1. apply msum_insert, lookup_delete_eq. Qed.

Lemma msum_update f m k q q' : m !! k = Some q -> msum f (<[k := q']> m) = msum f m - f q + f q'.
Proof. intros H. rewrite <- insert_delete_eq, msum_insert by apply lookup_delete_eq. rewrite (msum_delete f m k q H). lia. Qed.

(** ** Invariants *)

Definition item_ok (k : str) (i : QueueItem) : Prop :=
  1 <= item_packets i /\ 0 <= item_bytes i /\ Forall (fun f => conn_id f = k) (into_frames i).

Record queue_ok (k : str) (q : AssociationQueue) : Prop := {
  qo_items : Forall (item_ok k) (items q);
  qo_packets : packets q = sum (item_packets <$> items q);
  qo_bytes : q_bytes q = sum (item_bytes <$> items q);
  qo_deficit : 0 <= deficit q }.

Lemma queue_counts k q : queue_ok k q -> 0 <= packets q /\ 0 <= q_bytes q /\ (packets q = 0 <-> items q = []).
Proof.
  intros [Hi Hp Hb _]. rewrite Hp, Hb. split; [|split; [|split; [|by intros ->]]].
  - apply sum_nonneg, Forall_fmap. eapply Forall_impl; [exact Hi|]. intros i (? & _). cbn. lia.
  - apply sum_nonneg, Forall_fmap. eapply Forall_impl; [exact Hi|]. intros i (_ & ? & _). cbn. lia.
  - destruct (items q) as [|i l]; [done|]. apply Forall_cons in Hi as [(H & _) Hl]. rewrite fmap_cons, sum_cons. intros E. exfalso.
    assert (0 <= sum (item_packets <$> l)) by (apply sum_nonneg, Forall_fmap; eapply Forall_impl; [exact Hl|]; intros j (? & _); cbn; lia). lia.
Qed.

Lemma is_empty_iff k q : queue_ok k q -> is_empty q = true <-> items q = [].
Proof. intros H. unfold is_empty. rewrite Z.eqb_eq. by apply queue_counts with k. Qed.

Lemma queue_new_ok k : queue_ok k queue_new.
Proof. by split. Qed.

Lemma push_item_ok k q i : queue_ok k q -> item_ok k i -> queue_ok k (push_item q i).
Proof.
  intros [H1 H2 H3 H4] Hi. split; cbn; [apply Forall_app; split; [done|by apply Forall_singleton]|..|done]; rewrite fmap_app, sum_app; cbn; lia.
Qed.

(** The queue without its oldest item *)
Definition popped (q : AssociationQueue) (i : QueueItem) (rest : list QueueItem) (d : Z) (a : bool) : AssociationQueue :=
  mkQueue rest (saturating_sub (packets q) (item_packets i)) (saturating_sub (q_bytes q) (item_bytes i)) d a.

Lemma popped_ok k q i rest d a : queue_ok k q -> items q = i :: rest -> 0 <= d ->
  queue_ok k (popped q i rest d a) /\ packets (popped q i rest d a) = packets q - item_packets i /\ q_bytes (popped q i rest d a) = q_bytes q - item_bytes i /\ item_ok k i.
Proof.
  intros [H1 H2 H3 H4] E Hd. rewrite E in *. apply Forall_cons in H1 as [Hi Hr]. rewrite fmap_cons, sum_cons in H2, H3.
  assert (0 <= sum (item_packets <$> rest)) by (apply sum_nonneg, Forall_fmap; eapply Forall_impl; [exact Hr|]; intros j (? & _); cbn; lia).
  assert (0 <= sum (item_bytes <$> rest)) by (apply sum_nonneg, Forall_fmap; eapply Forall_impl; [exact Hr|]; intros j (_ & ? & _); cbn; lia).
  unfold popped, saturating_sub. cbn [packets q_bytes]. split; [|split; [lia|split; [lia|done]]]. split; cbn [items packets q_bytes deficit]; [done|lia|lia|done].
Qed.

(** What [datagram_scheduler_channel] asserts, for [usize] *)
Record config_valid (c : DatagramSchedulerConfig) : Prop := {
  cv_own_packets : 1 <= per_association_packet_limit c <= USIZE_MAX;
  cv_own_bytes : 1 <= per_association_byte_limit c <= USIZE_MAX;
  cv_packets : 1 <= global_packet_limit c <= USIZE_MAX;
  cv_bytes : 1 <= global_byte_limit c <= USIZE_MAX }.

Section invariant.
Variable entries : gmap str AssociationQueue -> list (str * AssociationQueue).
Variable config : DatagramSchedulerConfig.
Hypothesis entries_ok : forall m, entries m ≡ₚ map_to_list m.
Hypothesis config_ok : config_valid config.

Definition within (q : AssociationQueue) : Prop := packets q <= per_association_packet_limit config /\ q_bytes q <= per_association_byte_limit config.

(** The state; [hole] is the association that an operation is working on: it may have an empty
    queue. *)
Record st_ok (hole : option str) (st : State) : Prop := {
  so_queue : forall k q, queues st !! k = Some q -> queue_ok k q /\ within q;
  so_nonempty : forall k q, queues st !! k = Some q -> hole <> Some k -> items q <> [];
  so_active : forall k q, queues st !! k = Some q -> items q <> [] -> active q = true;
  so_ready : forall k, k ∈ ready st <-> exists q, queues st !! k = Some q /\ active q = true;
  so_nodup : NoDup (ready st);
  so_packets : total_packets st = msum packets (queues st);
  so_bytes : total_bytes st = msum q_bytes (queues st) }.

Definition contents (st : State) (k : str) : list QueueItem := default [] (items <$> queues st !! k).

Lemma st_ok_weaken hole st : st_ok None st -> st_ok hole st.
Proof. intros [H1 H2 H3 H4 H5 H6 H7]. split; try done. intros k q Hk _. by eapply H2. Qed.

Lemma state_new_ok : st_ok None state_new.
Proof.
  split; cbn; try done; try (intros k q; by rewrite lookup_empty).
  - intros k. split; [by intros ?%elem_of_nil|]. intros (q & Hq & _). by rewrite lookup_empty in Hq.
  - apply NoDup_nil_2.
Qed.

Lemma msum_nonneg f m : (forall k q, m !! k = Some q -> 0 <= f q) -> 0 <= msum f m.
Proof.
  intros H. unfold msum. apply sum_nonneg, Forall_fmap, Forall_forall. intros [k q] Hk. apply elem_of_map_to_list in Hk. cbn. by eapply H.
Qed.

Lemma st_totals_nonneg hole st : st_ok hole st -> 0 <= total_packets st /\ 0 <= total_bytes st.
Proof.
  intros [H1 _ _ _ _ H6 H7]. rewrite H6, H7. split; apply msum_nonneg; intros k q Hq; destruct (H1 k q Hq) as [Hk _]; apply queue_counts in Hk; lia.
Qed.

(** A queue is part of the totals. *)
Lemma st_totals_ge hole st k q : st_ok hole st -> queues st !! k = Some q -> packets q <= total_packets st /\ q_bytes q <= total_bytes st.
Proof.
  intros [H1 _ _ _ _ H6 H7] Hk. rewrite H6, H7, !(msum_delete _ _ k q Hk).
  assert (0 <= msum packets (delete k (queues st)) /\ 0 <= msum q_bytes (delete k (queues st))); [|lia].
  split; apply msum_nonneg; intros k' q' Hq; apply lookup_delete_Some in Hq as [_ Hq]; destruct (H1 k' q' Hq) as [Hk' _]; apply queue_counts in Hk'; lia.
Qed.

(** ** Steps on one queue *)

Lemma contents_eq st k q : queues st !! k = Some q -> contents st k = items q.
Proof. intros H. unfold contents. by rewrite H. Qed.

(** A queue that keeps an item is replaced by a smaller one. *)
Lemma shrink_ok hole st k q q' :
  st_ok hole st -> queues st !! k = Some q -> queue_ok k q' -> packets q' <= packets q -> q_bytes q' <= q_bytes q -> active q' = active q ->
  (items q' <> [] -> items q <> []) -> (items q' <> [] \/ hole = Some k) ->
  st_ok hole (mkState (<[k := q']> (queues st)) (ready st) (total_packets st - packets q + packets q') (total_bytes st - q_bytes q + q_bytes q')).
Proof.
  intros [H1 H2 H3 H4 H5 H6 H7] Hk Hq' Hp Hb Ha Hi Hn. split; cbn [queues ready total_packets total_bytes]; [..|done| |].
  - intros j x. destruct (decide (j = k)) as [->|]; [rewrite lookup_insert_eq|rewrite lookup_insert_ne by done; apply H1].
    intros [= <-]. split; [done|]. destruct (H1 k q Hk) as [_ [? ?]]. split; lia.
  - intros j x. destruct (decide (j = k)) as [->|]; [rewrite lookup_insert_eq|rewrite lookup_insert_ne by done; apply H2].
    intros [= <-] Hh. tauto.
  - intros j x. destruct (decide (j = k)) as [->|]; [rewrite lookup_insert_eq|rewrite lookup_insert_ne by done; apply H3].
    intros [= <-] Hx. rewrite Ha. eapply H3; eauto.
  - intros j. rewrite H4. destruct (decide (j = k)) as [->|]; [rewrite lookup_insert_eq|by rewrite lookup_insert_ne]. rewrite Hk.
    split; intros (x & [= <-] & Hx); eexists; (split; [done|congruence]).
  - rewrite H6. symmetry. by apply msum_update.
  - rewrite H7. symmetry. by apply msum_update.
Qed.

(** A queue is removed. *)
Lemma drop_items_ok hole st k q :
  st_ok hole st -> queues st !! k = Some q ->
  st_ok hole (mkState (delete k (queues st)) (base.filter (fun r => r <> k) (ready st)) (total_packets st - packets q) (total_bytes st - q_bytes q)).
Proof.
  intros [H1 H2 H3 H4 H5 H6 H7] Hk. split; cbn [queues ready total_packets total_bytes].
  - intros j x Hj. apply lookup_delete_Some in Hj as [_ Hj]. by apply H1.
  - intros j x Hj. apply lookup_delete_Some in Hj as [_ Hj]. by apply H2.
  - intros j x Hj. apply lookup_delete_Some in Hj as [_ Hj]. by apply (H3 j).
  - intros j. rewrite list_elem_of_filter, H4. split.
    + intros (Hjk & x & Hx & Ha). exists x. by rewrite lookup_delete_ne.
    + intros (x & Hx & Ha). apply lookup_delete_Some in Hx as [Hjk Hx]. split; [done|by exists x].
  - by apply NoDup_filter.
  - rewrite H6, (msum_delete packets _ k q Hk). lia.
  - rewrite H7, (msum_delete q_bytes _ k q Hk). lia.
Qed.

(** The entry for an association is made. *)
Lemma open_ok st k : st_ok (Some k) st -> st_ok (Some k) (set_queue st k (default queue_new (queues st !! k))).
Proof.
  intros Hs. destruct (queues st !! k) as [q|] eqn:Hk; cbn [default].
  - unfold set_queue. rewrite insert_id by done. by destruct st.
  - destruct Hs as [H1 H2 H3 H4 H5 H6 H7]. split; cbn [set_queue queues ready total_packets total_bytes]; [..|done| |].
    + intros j x. destruct (decide (j = k)) as [->|]; [rewrite lookup_insert_eq|rewrite lookup_insert_ne by done; apply H1].
      intros [= <-]. split; [apply queue_new_ok|]. destruct config_ok. split; cbn; lia.
    + intros j x. destruct (decide (j = k)) as [->|]; [by rewrite lookup_insert_eq|rewrite lookup_insert_ne by done; apply H2].
    + intros j x. destruct (decide (j = k)) as [->|]; [rewrite lookup_insert_eq; by intros [= <-]|rewrite lookup_insert_ne by done; apply H3].
    + intros j. rewrite H4. destruct (decide (j = k)) as [->|]; [rewrite lookup_insert_eq, Hk|by rewrite lookup_insert_ne]. split; [by intros (? & ? & _)|by intros (? & [= <-] & ?)].
    + rewrite msum_insert by done. cbn. lia.
    + rewrite msum_insert by done. cbn. lia.
Qed.

(** ** Eviction *)

Lemma pop_oldest_ok k q i rest : queue_ok k q -> items q = i :: rest ->
  exists q', pop_oldest_item q = (mkEviction (item_packets i) (item_bytes i), q') /\ queue_ok k q' /\ items q' = rest /\ active q' = active q /\
    packets q' = packets q - item_packets i /\ q_bytes q' = q_bytes q - item_bytes i /\ item_ok k i.
Proof.
  intros Hq E. unfold pop_oldest_item. rewrite E. eexists. split; [done|].
  destruct (popped_ok k q i rest (match rest with [] => 0 | _ => deficit q end) (active q) Hq E) as (H1 & H2 & H3 & H4); [destruct rest; [lia|apply Hq]|].
  unfold popped in *. done.
Qed.

(** One eviction from a queue that has an item: it is made smaller, or removed when that was
    the last item and the queue is not to be kept. *)
Record evicted (keep : bool) (hole : option str) (st : State) (k : str) (i : QueueItem) (st' : State) : Prop := {
  ev_ok : st_ok hole st';
  ev_others : forall j, j <> k -> queues st' !! j = queues st !! j;
  ev_items : contents st k = i :: contents st' k;
  ev_kept : keep = true -> is_Some (queues st' !! k);
  ev_packets : total_packets st' = total_packets st - item_packets i;
  ev_bytes : total_bytes st' = total_bytes st - item_bytes i;
  ev_item : item_ok k i }.

Lemma evict_keep st k q i rest : st_ok (Some k) st -> queues st !! k = Some q -> items q = i :: rest ->
  exists q', pop_oldest_item q = (mkEviction (item_packets i) (item_bytes i), q') /\
    evicted true (Some k) st k i (subtract_totals (set_queue st k q') (mkEviction (item_packets i) (item_bytes i))).
Proof.
  intros Hs Hk E. destruct (so_queue _ _ Hs k q Hk) as [Hq _]. destruct (pop_oldest_ok k q i rest Hq E) as (q' & -> & Hq' & Ei & Ea & Ep & Eb & Hi). exists q'. split; [done|].
  destruct (queue_counts k q' Hq') as (? & ? & _). destruct (st_totals_ge _ _ k q Hs Hk). destruct (queue_counts k q Hq) as (? & ? & _).
  assert (subtract_totals (set_queue st k q') (mkEviction (item_packets i) (item_bytes i)) =
    mkState (<[k := q']> (queues st)) (ready st) (total_packets st - packets q + packets q') (total_bytes st - q_bytes q + q_bytes q')) as ->.
  { unfold subtract_totals, set_queue, saturating_sub. cbn. destruct Hi as (? & ? & _). f_equal; lia. }
  split; cbn [queues total_packets total_bytes]; [|intros; by rewrite lookup_insert_ne| |intros _; rewrite lookup_insert_eq; by eexists|lia|lia|done].
  - apply shrink_ok; try done; [destruct Hi as (? & ? & _); lia..| |by right]. by rewrite E.
  - rewrite (contents_eq _ _ _ Hk), E. f_equal. unfold contents. cbn. by rewrite lookup_insert_eq.
Qed.

Lemma noisiest_spec by_bytes l :
  match noisiest by_bytes l with
  | None => l = []
  | Some x => x ∈ l /\ forall y, y ∈ l -> fst (key_of by_bytes (snd y)) <= fst (key_of by_bytes (snd x))
  end.
Proof.
  induction l as [|x l IH]; [done|]. cbn [noisiest]. destruct (noisiest by_bytes l) as [y|].
  - destruct IH as [Hy Hm]. unfold key_lt. destruct (Z.ltb_spec (fst (key_of by_bytes (snd y))) (fst (key_of by_bytes (snd x)))); cbn [orb].
    + split; [left|]. intros z [->|Hz]%elem_of_cons; [lia|]. specialize (Hm z Hz). lia.
    + destruct (Z.eqb_spec (fst (key_of by_bytes (snd y))) (fst (key_of by_bytes (snd x)))); cbn [andb].
      * destruct (_ <? _); (split; [set_solver|]); intros z [->|Hz]%elem_of_cons; try specialize (Hm z Hz); lia.
      * split; [by right|]. intros z [->|Hz]%elem_of_cons; [lia|by apply Hm].
  - subst. split; [left|]. intros y. rewrite list_elem_of_singleton. by intros ->.
Qed.

Lemma msum_positive f m : 0 < msum f m -> exists k q, m !! k = Some q /\ 0 < f q.
Proof.
  unfold msum. intros H. assert (exists x, x ∈ map_to_list m /\ 0 < f (snd x)) as ([k q] & Hk & Hf).
  { induction (map_to_list m) as [|x l IH]; [cbn in H; lia|]. rewrite fmap_cons, sum_cons in H. destruct (Z.ltb_spec 0 (f (snd x))); [exists x; split; [left|done]|].
    destruct IH as (y & ? & ?); [lia|]. exists y. split; [by right|done]. }
  apply elem_of_map_to_list in Hk. eauto.
Qed.

Lemma evict_noisiest_ok hole st (by_bytes : bool) :
  st_ok hole st -> (if by_bytes then 0 < total_bytes st else 0 < total_packets st) ->
  exists k i st', evict_noisiest entries st by_bytes = Some (mkEviction (item_packets i) (item_bytes i), st') /\ evicted false hole st k i st'.
Proof.
  intros Hs Ht. unfold evict_noisiest. pose proof (noisiest_spec by_bytes (entries (queues st))) as Hn.
  assert (exists k q, queues st !! k = Some q /\ 0 < fst (key_of by_bytes q)) as (k0 & q0 & Hk0 & Hp0).
  { destruct Hs as [_ _ _ _ _ H6 H7]. rewrite H6, H7 in Ht. destruct by_bytes; by apply msum_positive in Ht. }
  assert (forall k q, (k, q) ∈ entries (queues st) <-> queues st !! k = Some q) as He by (intros; by rewrite entries_ok, elem_of_map_to_list).
  destruct (noisiest by_bytes _) as [[k q]|]; [|by apply He in Hk0; rewrite Hn in Hk0; apply elem_of_nil in Hk0]. cbn [mbind option_bind].
  destruct Hn as [Hk Hmax]. apply He in Hk. specialize (Hmax (k0, q0) (proj2 (He _ _) Hk0)). cbn [snd] in Hmax.
  destruct (so_queue _ _ Hs k q Hk) as [Hq _]. destruct (queue_counts k q Hq) as (? & ? & _).
  destruct (items q) as [|i rest] eqn:Ei. { destruct Hq as [_ E1 E2 _]. rewrite Ei in E1, E2. cbn in E1, E2. destruct by_bytes; cbn in *; lia. }
  destruct (pop_oldest_ok k q i rest Hq Ei) as (q' & -> & Hq' & Ei' & Ea & Ep & Eb & Hi). exists k, i. eexists. split; [done|].
  destruct (queue_counts k q' Hq') as (? & ? & _). destruct (st_totals_ge _ _ k q Hs Hk).
  assert (saturating_sub (total_packets st) (item_packets i) = total_packets st - item_packets i) as Et1 by (unfold saturating_sub; lia).
  assert (saturating_sub (total_bytes st) (item_bytes i) = total_bytes st - item_bytes i) as Et2 by (unfold saturating_sub; lia).
  pose proof (is_empty_iff k q' Hq') as He'. unfold subtract_totals, set_queue. cbn [queues ready total_packets total_bytes e_packets e_bytes]. rewrite Et1, Et2. destruct (is_empty q').
  - rewrite delete_insert_eq. pose proof (proj1 He' eq_refl) as En. assert (packets q' = 0 /\ q_bytes q' = 0) as [Z1 Z2] by (destruct Hq' as [_ E1 E2 _]; rewrite E1, E2, En; done).
    split; cbn [queues total_packets total_bytes]; [|intros; by rewrite lookup_delete_ne| |done|lia|lia|done].
    + replace (total_packets st - item_packets i) with (total_packets st - packets q) by lia. replace (total_bytes st - item_bytes i) with (total_bytes st - q_bytes q) by lia. by apply drop_items_ok.
    + rewrite (contents_eq _ _ _ Hk), Ei. f_equal. unfold contents. cbn. rewrite lookup_delete_eq. cbn. congruence.
  - split; cbn [queues total_packets total_bytes]; [|intros; by rewrite lookup_insert_ne| |done|lia|lia|done].
    + replace (total_packets st - item_packets i) with (total_packets st - packets q + packets q') by lia. replace (total_bytes st - item_bytes i) with (total_bytes st - q_bytes q + q_bytes q') by lia.
      destruct Hi as (? & ? & _). apply shrink_ok; try done; [lia|lia|by rewrite Ei|]. left. intros En. by apply He' in En.
    + rewrite (contents_eq _ _ _ Hk), Ei. f_equal. unfold contents. cbn. by rewrite lookup_insert_eq.
Qed.

(** ** The two loops *)

(** What evictions leave: of every association the youngest items *)
Definition younger (st st' : State) : Prop := forall k, contents st' k `suffix_of` contents st k.

#[local] Instance younger_preorder : PreOrder younger.
Proof. split; [intros st k; done|]. intros a b c H1 H2 k. etrans; [apply H2|apply H1]. Qed.

Lemma evicted_younger keep hole st k i st' : evicted keep hole st k i st' -> younger st st'.
Proof.
  intros [_ H2 H3 _ _ _ _] j. destruct (decide (j = k)) as [->|Hj]; [rewrite H3; by exists [i]|]. unfold contents. by rewrite H2.
Qed.

Definition room (st : State) (k : str) (n b : Z) : Prop :=
  packets (default queue_new (queues st !! k)) + n <= per_association_packet_limit config /\ q_bytes (default queue_new (queues st !! k)) + b <= per_association_byte_limit config.

Lemma younger_room hole st st' k n b : st_ok hole st -> st_ok hole st' -> younger st st' -> room st k n b -> room st' k n b.
Proof.
  intros Hs Hs' Hy [R1 R2]. assert (forall s, st_ok hole s -> packets (default queue_new (queues s !! k)) = sum (item_packets <$> contents s k) /\ q_bytes (default queue_new (queues s !! k)) = sum (item_bytes <$> contents s k) /\ Forall (item_ok k) (contents s k)) as H.
  { intros s Ho. unfold contents. destruct (queues s !! k) as [q|] eqn:E; cbn; [|done]. destruct (so_queue _ _ Ho k q E) as [[] _]. done. }
  destruct (H st Hs) as (E1 & E2 & F), (H st' Hs') as (E1' & E2' & F'). destruct (Hy k) as [l El]. rewrite El in E1, E2, F. rewrite fmap_app, sum_app in E1, E2. apply Forall_app in F as [F _].
  assert (0 <= sum (item_packets <$> l)) by (apply sum_nonneg, Forall_fmap; eapply Forall_impl; [exact F|]; intros i (? & _); cbn; lia).
  assert (0 <= sum (item_bytes <$> l)) by (apply sum_nonneg, Forall_fmap; eapply Forall_impl; [exact F|]; intros i (_ & ? & _); cbn; lia).
  unfold room. lia.
Qed.

Lemma open_contents st k j : contents (set_queue st k (default queue_new (queues st !! k))) j = contents st j.
Proof.
  unfold contents, set_queue. cbn. destruct (decide (j = k)) as [->|]; [rewrite lookup_insert_eq|by rewrite lookup_insert_ne]. by destruct (queues st !! k).
Qed.

Record loop_result (st : State) (evictions : Z) (st' : State) (evictions' : Z) : Prop := {
  lr_younger : younger st st';
  lr_packets : total_packets st' = total_packets st - (evictions' - evictions);
  lr_more : evictions <= evictions' }.

Lemma own_budget_loop_ok k n b fuel : n <= per_association_packet_limit config -> b <= per_association_byte_limit config ->
  forall st evictions, st_ok (Some k) st -> total_packets st < Z.of_nat fuel ->
  exists st' evictions', own_budget_loop config fuel k n b st evictions = Some (st', evictions') /\ st_ok (Some k) st' /\ room st' k n b /\
    loop_result st evictions st' evictions' /\ (forall j, j <> k -> queues st' !! j = queues st !! j) /\ (room st k n b -> evictions' = evictions /\ total_bytes st' = total_bytes st /\ forall j, contents st' j = contents st j).
Proof.
  intros Hn Hb. induction fuel as [|fuel IH]; intros st evictions Hs Hf; [destruct (st_totals_nonneg _ _ Hs); lia|]. cbn [own_budget_loop].
  set (q := default queue_new (queues st !! k)). pose proof (open_ok st k Hs) as Ho. fold q in Ho. set (st1 := set_queue st k q) in *.
  assert (queues st1 !! k = Some q) as Hk by apply lookup_insert_eq. assert (forall j, contents st1 j = contents st j) as Hc by apply open_contents.
  assert (forall j, j <> k -> queues st1 !! j = queues st !! j) as Hj by (intros; by apply lookup_insert_ne).
  destruct (Z.leb_spec (packets q + n) (per_association_packet_limit config)), (Z.leb_spec (q_bytes q + b) (per_association_byte_limit config)); cbn [andb].
  1: { exists st1, evictions. split; [done|]. split; [done|]. split; [unfold room; by rewrite Hk|]. split; [|done]. split; [intros j; by rewrite Hc|cbn; lia|lia]. }
  all: destruct (so_queue _ _ Ho k q Hk) as [Hq _]; destruct (items q) as [|i rest] eqn:Ei;
    [exfalso; destruct Hq as [_ E1 E2 _]; rewrite Ei in E1, E2; cbn in E1, E2; lia|];
    destruct (evict_keep st1 k q i rest Ho Hk Ei) as (q' & -> & Hev); pose proof Hev as [V1 V2 V3 V4 V5 V6 V7]; cbn [e_packets];
    (destruct (Z.eqb_spec (item_packets i) 0) as [E0|E0]; [destruct V7; lia|]);
    (destruct (IH _ (evictions + item_packets i) V1) as (st' & ev' & Hl & Hs' & Hr & [L1 L2 L3] & Hoth & _); [rewrite V5; change (total_packets st1) with (total_packets st); destruct V7; lia|]);
    exists st', ev'; (split; [exact Hl|]); (split; [done|]); (split; [done|]); (split; [split|split; [|intros [R1 R2]; fold q in R1, R2; lia]]);
    [etrans; [|exact L1]; etrans; [|exact (evicted_younger _ _ _ _ _ _ Hev)]; intros j; by rewrite Hc|rewrite L2, V5; cbn; lia|destruct V7; lia|intros j Hjk; by rewrite Hoth, V2, Hj].
Qed.

Lemma global_budget_loop_ok hole n b fuel : n <= global_packet_limit config -> b <= global_byte_limit config ->
  forall st evictions, st_ok hole st -> total_packets st < Z.of_nat fuel ->
  exists st' evictions', global_budget_loop entries config fuel n b st evictions = Some (st', evictions') /\ st_ok hole st' /\
    total_packets st' + n <= global_packet_limit config /\ total_bytes st' + b <= global_byte_limit config /\ loop_result st evictions st' evictions' /\
    (total_packets st + n <= global_packet_limit config /\ total_bytes st + b <= global_byte_limit config -> evictions' = evictions /\ st' = st).
Proof.
  intros Hn Hb. induction fuel as [|fuel IH]; intros st evictions Hs Hf; destruct (st_totals_nonneg _ _ Hs); [lia|]. cbn [global_budget_loop].
  set (by_bytes := global_byte_limit config <? total_bytes st + b).
  destruct ((global_packet_limit config <? total_packets st + n) || by_bytes) eqn:E.
  - destruct (evict_noisiest_ok hole st by_bytes Hs) as (k & i & st1 & -> & Hev).
    { subst by_bytes. destruct (Z.ltb_spec (global_byte_limit config) (total_bytes st + b)); [lia|]. rewrite orb_false_r in E. apply Z.ltb_lt in E. lia. }
    pose proof Hev as [V1 V2 V3 V4 V5 V6 V7]. cbn [e_packets]. destruct (IH st1 (evictions + item_packets i) V1) as (st' & ev' & Hl & Hs' & T1 & T2 & [L1 L2 L3] & _); [destruct V7; lia|].
    exists st', ev'. split; [exact Hl|]. split; [done|]. split; [done|]. split; [done|]. split.
    + split; [etrans; [exact (evicted_younger _ _ _ _ _ _ Hev)|done]|lia|destruct V7; lia].
    + intros [? ?]. subst by_bytes. rewrite orb_true_iff, !Z.ltb_lt in E. lia.
  - subst by_bytes. rewrite orb_false_iff, !Z.ltb_ge in E. exists st, evictions. split; [done|]. split; [done|]. split; [lia|]. split; [lia|]. split; [|done]. split; [done|lia|lia].
Qed.

(** ** Enqueueing *)

Definition group_ok (frames : list DatagramFrame) : Prop := Forall (fun f => 0 <= frame_bytes f) frames.

Lemma make_item_ok f frames :
  group_ok (f :: frames) -> Forall (fun g => conn_id g = conn_id f) (f :: frames) ->
  item_ok (conn_id f) (make_item (f :: frames)) /\ item_packets (make_item (f :: frames)) = zlen (f :: frames) /\
  item_bytes (make_item (f :: frames)) = sum (frame_bytes <$> f :: frames) /\ into_frames (make_item (f :: frames)) = f :: frames.
Proof.
  intros Hg Hc. assert (item_packets (make_item (f :: frames)) = zlen (f :: frames) /\ item_bytes (make_item (f :: frames)) = sum (frame_bytes <$> f :: frames) /\ into_frames (make_item (f :: frames)) = f :: frames) as (E1 & E2 & E3).
  { unfold make_item. destruct frames as [|g frames]; [|done]. destruct (fragment_group f); [done|]. cbn. split; [done|]. split; [unfold sum; cbn; lia|done]. }
  split; [|done]. split; [rewrite E1, zlen_cons; pose proof (zlen_nonneg frames); lia|]. rewrite E2, E3. split; [|done]. by apply sum_nonneg, Forall_fmap.
Qed.

Lemma group_fits_iff f frames : group_fits config (f :: frames) = true <->
  Forall (fun g => conn_id g = conn_id f) (f :: frames) /\ Forall (fun g => fragment_group g = fragment_group f) (f :: frames) /\
  zlen (f :: frames) <= per_association_packet_limit config /\ sum (frame_bytes <$> f :: frames) <= per_association_byte_limit config /\
  zlen (f :: frames) <= global_packet_limit config /\ sum (frame_bytes <$> f :: frames) <= global_byte_limit config.
Proof.
  unfold group_fits. rewrite !andb_true_iff, !negb_true_iff, !Z.leb_le.
  assert (forall (P : DatagramFrame -> Prop) `{!forall g, Decision (P g)} l, existsb (fun g => negb (bool_decide (P g))) l = false <-> Forall P l) as H.
  { intros P dec l. induction l as [|g l IH]; [split; [constructor|done]|]. cbn [existsb]. rewrite orb_false_iff, negb_false_iff, bool_decide_eq_true, IH, Forall_cons. done. }
  rewrite !H. tauto.
Qed.

Lemma push_ok k i st :
  st_ok (Some k) st -> item_ok k i -> room st k (item_packets i) (item_bytes i) ->
  let st' := mark_ready (mkState (<[k := push_item (default queue_new (queues st !! k)) i]> (queues st)) (ready st) (total_packets st + item_packets i) (total_bytes st + item_bytes i)) k in
  st_ok None st' /\ contents st' k = contents st k ++ [i] /\ (forall j, j <> k -> contents st' j = contents st j) /\
  total_packets st' = total_packets st + item_packets i /\ total_bytes st' = total_bytes st + item_bytes i.
Proof.
  intros Hs Hi [R1 R2]. set (q := default queue_new (queues st !! k)) in *.
  assert (queue_ok k q) as Hq by (unfold q; destruct (queues st !! k) as [x|] eqn:E; [by apply (so_queue _ _ Hs)|apply queue_new_ok]).
  assert (items q = contents st k) as Ec by (unfold q, contents; by destruct (queues st !! k)).
  set (q1 := mkQueue (items (push_item q i)) (packets (push_item q i)) (q_bytes (push_item q i)) (deficit q) true).
  assert (queue_ok k q1) as Hq1 by (destruct (push_item_ok k q i Hq Hi) as [A1 A2 A3 A4]; by split).
  assert (forall f, (forall x, f (mkQueue (items x) (packets x) (q_bytes x) (deficit x) true) = f x) -> msum f (<[k := q1]> (queues st)) = msum f (queues st) - (match queues st !! k with Some _ => f q | None => 0 end) + f (push_item q i)) as Hm.
  { intros f Hf. assert (f q1 = f (push_item q i)) as <- by apply (Hf (push_item q i)). unfold q. destruct (queues st !! k) as [x|] eqn:E; cbn [default]; [by apply msum_update|rewrite msum_insert by done; lia]. }
  assert (exists r, mark_ready (mkState (<[k := push_item q i]> (queues st)) (ready st) (total_packets st + item_packets i) (total_bytes st + item_bytes i)) k =
    mkState (<[k := q1]> (queues st)) r (total_packets st + item_packets i) (total_bytes st + item_bytes i) /\ r = (if active q then ready st else ready st ++ [k])) as (r & -> & Er).
  { unfold mark_ready. cbn [queues]. rewrite lookup_insert_eq. cbn [active push_item]. destruct (active q) eqn:Ea; cbn [orb].
    - eexists. split; [|done]. f_equal. f_equal. unfold q1, push_item. cbn. by rewrite Ea.
    - destruct (is_empty (push_item q i)) eqn:Ee; [|eexists; split; [|done]; cbn [ready]; f_equal; by rewrite insert_insert_eq].
      exfalso. apply (is_empty_iff k) in Ee; [|by apply push_item_ok]. cbn in Ee. by apply app_nil in Ee as [_ ?]. }
  cbn zeta. split; [|split; [|split; [|done]]].
  - pose proof Hs as [H1 H2 H3 H4 H5 H6 H7]. split; cbn [queues ready total_packets total_bytes].
    + intros j x. destruct (decide (j = k)) as [->|]; [rewrite lookup_insert_eq|rewrite lookup_insert_ne by done; apply H1]. intros [= <-]. split; [done|]. split; cbn; lia.
    + intros j x. destruct (decide (j = k)) as [->|Hj]; [rewrite lookup_insert_eq|rewrite lookup_insert_ne by done; intros Hx _; apply (H2 j x Hx); congruence]. intros [= <-] _. cbn. intros E. by apply app_nil in E as [_ ?].
    + intros j x. destruct (decide (j = k)) as [->|]; [rewrite lookup_insert_eq; by intros [= <-]|rewrite lookup_insert_ne by done; apply H3].
    + intros j. assert (active q = true <-> k ∈ ready st) as Hk. { rewrite H4. unfold q. destruct (queues st !! k) as [x|]; cbn; [split; [by eexists|by intros (y & [= <-] & ?)]|split; [done|by intros (? & ? & _)]]. }
      assert (j ∈ r <-> j = k \/ j ∈ ready st) as -> by (subst r; destruct (active q); set_solver).
      destruct (decide (j = k)) as [->|]; [rewrite lookup_insert_eq; split; [by eexists|by left]|rewrite lookup_insert_ne, H4 by done; tauto].
    + subst r. assert (active q = false -> k ∉ ready st) as Hk. { intros Ea Hin. apply H4 in Hin as (x & Hx & Hax). unfold q in Ea. rewrite Hx in Ea. cbn in Ea. congruence. }
      destruct (active q); [done|]. rewrite NoDup_app. split; [done|]. split; [set_solver|apply NoDup_singleton].
    + rewrite Hm, H6 by done. unfold q. destruct (queues st !! k); cbn; lia.
    + rewrite Hm, H7 by done. unfold q. destruct (queues st !! k); cbn; lia.
  - unfold contents at 1. cbn. rewrite lookup_insert_eq. cbn. by rewrite Ec.
  - intros j Hj. unfold contents. cbn. by rewrite lookup_insert_ne.
Qed.

Record st_inv (st : State) : Prop := {
  si_ok : st_ok None st;
  si_packets : total_packets st <= global_packet_limit config;
  si_bytes : total_bytes st <= global_byte_limit config }.

Lemma state_new_inv : st_inv state_new.
Proof. destruct config_ok. split; [apply state_new_ok|cbn; lia..]. Qed.

(** What an accepted group does *)
Record queued (st : State) (k : str) (i : QueueItem) (o : DatagramEnqueueOutcome) (st' : State) : Prop := {
  qd_inv : st_inv st';
  qd_last : exists left, left `suffix_of` contents st k /\ contents st' k = left ++ [i];
  qd_others : forall j, j <> k -> contents st' j `suffix_of` contents st j;
  qd_count : total_packets st' = total_packets st + item_packets i - per_association_evicted o - global_budget_evicted o;
  qd_evicted : 0 <= per_association_evicted o /\ 0 <= global_budget_evicted o;
  qd_room : room st k (item_packets i) (item_bytes i) -> total_packets st + item_packets i <= global_packet_limit config -> total_bytes st + item_bytes i <= global_byte_limit config ->
    contents st' k = contents st k ++ [i] /\ (forall j, j <> k -> contents st' j = contents st j) /\ per_association_evicted o = 0 /\ global_budget_evicted o = 0 }.

Lemma fuel_ok st : 0 <= total_packets st -> total_packets st < Z.of_nat (loop_fuel st).
Proof. unfold loop_fuel. lia. Qed.

Lemma enqueue_group_ok f frames st : st_inv st -> group_ok (f :: frames) -> group_fits config (f :: frames) = true ->
  exists st' o, enqueue_group entries config false st (f :: frames) = Some (st', o) /\ accepted o = true /\ accepted_packets o = zlen (f :: frames) /\
    queued st (conn_id f) (make_item (f :: frames)) o st'.
Proof.
  intros [Hs T1 T2] Hg Hfit. unfold enqueue_group. rewrite Hfit. cbn [negb orb].
  apply group_fits_iff in Hfit as (Hc & _ & L1 & L2 & L3 & L4). destruct (make_item_ok f frames Hg Hc) as (Hi & Ep & Eb & _). set (i := make_item (f :: frames)) in *. set (k := conn_id f) in *.
  rewrite <- Ep, <- Eb in *. clear Ep Eb. set (n := item_packets i) in *. set (b := item_bytes i) in *.
  destruct (own_budget_loop_ok k n b (loop_fuel st) L1 L2 st 0 (st_ok_weaken _ _ Hs) (fuel_ok st (proj1 (st_totals_nonneg _ _ Hs)))) as (st1 & own & -> & Hs1 & R1 & [Y1 P1 M1] & O1 & N1).
  cbn [mbind option_bind].
  destruct (global_budget_loop_ok (Some k) n b (loop_fuel st1) L3 L4 st1 0 Hs1 (fuel_ok st1 (proj1 (st_totals_nonneg _ _ Hs1)))) as (st2 & gl & -> & Hs2 & G1 & G2 & [Y2 P2 M2] & N2).
  cbn [mbind option_bind]. pose proof (younger_room _ _ _ k n b Hs1 Hs2 Y2 R1) as R2. destruct (push_ok k i st2 Hs2 Hi R2) as (Hs3 & C1 & C2 & P3 & B3).
  eexists _, _. split; [done|]. split; [done|]. split; [done|]. fold k i n b in Hs3, C1, C2, P3, B3 |- *.
  assert (younger st st2) as Y by (by etrans). split; cbn [per_association_evicted global_budget_evicted].
  - split; [done|lia|lia].
  - exists (contents st2 k). split; [apply Y|done].
  - intros j Hj. rewrite C2 by done. apply Y.
  - lia.
  - lia.
  - intros Rm Hp Hb. destruct (N1 Rm) as (-> & Eb & Hc1). destruct N2 as [-> ->]; [lia|]. rewrite C1, Hc1. split; [done|]. split; [|done]. intros j Hj. by rewrite C2, Hc1.
Qed.

Lemma remove_association_ok st k n st' : st_inv st -> remove_association st k = (n, st') ->
  st_inv st' /\ contents st' k = [] /\ (forall j, j <> k -> contents st' j = contents st j) /\ n = sum (item_packets <$> contents st k) /\ total_packets st' = total_packets st - n.
Proof.
  intros [Hs T1 T2]. unfold remove_association. destruct (queues st !! k) as [q|] eqn:Hk; intros [= <- <-].
  - destruct (st_totals_ge _ _ k q Hs Hk). destruct (so_queue _ _ Hs k q Hk) as [Hq _]. destruct (queue_counts k q Hq) as (? & ? & _).
    assert (forall x y, y <= x -> saturating_sub x y = x - y) as E by (unfold saturating_sub; lia). rewrite !E by done.
    split; [split; [by apply drop_items_ok|cbn; lia|cbn; lia]|]. split; [unfold contents; cbn; by rewrite lookup_delete_eq|].
    split; [intros j Hj; unfold contents; cbn; by rewrite lookup_delete_ne|]. split; [|done]. rewrite (contents_eq _ _ _ Hk). apply Hq.
  - assert (contents st k = []) as Ec by (unfold contents; by rewrite Hk). rewrite Ec. split; [done|]. split; [done|]. split; [done|]. split; [done|]. lia.
Qed.

(** ** Delivery *)

(** The visits to a queue that still fail, with this quantum *)
Definition need (quantum : Z) (q : AssociationQueue) : Z := Z.max 0 ((default 0 (head_bytes q) - 1 - deficit q) / quantum).

Definition needs (quantum : Z) (st : State) (l : list str) : Z := sum ((fun k => default 0 (need quantum <$> queues st !! k)) <$> l).

(** One association gives its oldest item. *)
Record delivered (st : State) (k : str) (i : QueueItem) (st' : State) : Prop := {
  de_inv : st_inv st';
  de_item : contents st k = i :: contents st' k;
  de_others : forall j, j <> k -> contents st' j = contents st j;
  de_frames : Forall (fun f => conn_id f = k) (into_frames i) /\ into_frames i <> [];
  de_packets : total_packets st' = total_packets st - item_packets i }.

Definition with_queue (st : State) (q : AssociationQueue) (k : str) (rest : list str) : State := mkState (<[k := q]> (queues st)) (rest ++ [k]) (total_packets st) (total_bytes st).

(** A failed visit moves the association to the end, with a larger deficit. *)
Lemma rotate_ok st k rest q d : st_ok None st -> ready st = k :: rest -> queues st !! k = Some q -> 0 <= d ->
  st_ok None (with_queue st (mkQueue (items q) (packets q) (q_bytes q) d true) k rest).
Proof.
  intros [H1 H2 H3 H4 H5 H6 H7] Hr Hk Hd. split; cbn [with_queue queues ready total_packets total_bytes].
  - intros j x. destruct (decide (j = k)) as [->|]; [rewrite lookup_insert_eq|rewrite lookup_insert_ne by done; apply H1]. intros [= <-]. destruct (H1 k q Hk) as [[] ?]. done.
  - intros j x. destruct (decide (j = k)) as [->|]; [rewrite lookup_insert_eq|rewrite lookup_insert_ne by done; apply H2]. intros [= <-] Hh. cbn. by apply (H2 k q).
  - intros j x. destruct (decide (j = k)) as [->|]; [rewrite lookup_insert_eq; by intros [= <-]|rewrite lookup_insert_ne by done; apply H3].
  - intros j. assert (j ∈ rest ++ [k] <-> j ∈ ready st) as -> by (rewrite Hr; set_solver). rewrite H4.
    destruct (decide (j = k)) as [->|]; [rewrite lookup_insert_eq|by rewrite lookup_insert_ne]. split; intros _; [by eexists|]. exists q. split; [done|]. apply (H3 k q Hk), (H2 k q Hk). done.
  - rewrite Hr in H5. by rewrite <- Permutation_cons_append.
  - rewrite H6. rewrite (msum_update packets _ k q _ Hk). cbn. lia.
  - rewrite H7. rewrite (msum_update q_bytes _ k q _ Hk). cbn. lia.
Qed.

Lemma contents_with_queue st k q q' rest j : queues st !! k = Some q -> items q' = items q -> contents (with_queue st q' k rest) j = contents st j.
Proof.
  intros Hk E. unfold contents. cbn. destruct (decide (j = k)) as [->|]; [rewrite lookup_insert_eq, Hk; cbn; congruence|by rewrite lookup_insert_ne].
Qed.

(** The state after the oldest item of [k] was taken *)
Definition taken (st : State) (k : str) (q' : AssociationQueue) (i : QueueItem) (rest : list str) : State :=
  mkState (match items q' with [] => delete k (queues st) | _ => <[k := q']> (queues st) end) (match items q' with [] => rest | _ => rest ++ [k] end)
    (total_packets st - item_packets i) (total_bytes st - item_bytes i).

Lemma taken_ok st k rest q i tl d : st_inv st -> ready st = k :: rest -> queues st !! k = Some q -> items q = i :: tl -> 0 <= d ->
  delivered st k i (taken st k (popped q i tl d true) i rest).
Proof.
  intros [Hs T1 T2] Hr Hk Ei Hd. destruct (so_queue _ _ Hs k q Hk) as [Hq _]. destruct (popped_ok k q i tl d true Hq Ei Hd) as (Hq' & Ep & Eb & Hi).
  set (q' := popped q i tl d true) in *. pose proof Hi as (? & ? & Hf). destruct (queue_counts k q' Hq') as (? & ? & _).
  assert (st_ok None (taken st k q' i rest) /\ contents (taken st k q' i rest) k = tl /\ forall j, j <> k -> contents (taken st k q' i rest) j = contents st j) as (Hok & Hc & Ho).
  { unfold taken. change (items q') with tl. destruct tl as [|i' tl].
    - assert (packets q' = 0 /\ q_bytes q' = 0) as [Z1 Z2] by (destruct Hq' as [_ E1 E2 _]; rewrite E1, E2; done).
      split; [|split; [unfold contents; cbn; by rewrite lookup_delete_eq|intros; unfold contents; cbn; by rewrite lookup_delete_ne]].
      pose proof (drop_items_ok None st k q Hs Hk) as H'. pose proof (so_nodup _ _ Hs) as Hn. rewrite Hr in Hn. apply NoDup_cons in Hn as [Hn _].
      rewrite Hr, filter_cons_False in H' by (intros H''; by apply H''). assert (base.filter (fun r => r <> k) rest = rest) as E.
      { clear -Hn. induction rest as [|x rest IH]; [done|]. apply not_elem_of_cons in Hn as [? ?]. rewrite filter_cons_True by congruence. by rewrite IH. }
      rewrite E in H'. replace (total_packets st - item_packets i) with (total_packets st - packets q) by lia. by replace (total_bytes st - item_bytes i) with (total_bytes st - q_bytes q) by lia.
    - split; [|split; [unfold contents; cbn; by rewrite lookup_insert_eq|intros; unfold contents; cbn; by rewrite lookup_insert_ne]].
      pose proof (rotate_ok st k rest q 0 Hs Hr Hk ltac:(lia)) as H'. set (q0 := mkQueue (items q) (packets q) (q_bytes q) 0 true) in *.
      pose proof (shrink_ok None _ k q0 q' H' (lookup_insert_eq _ _ _) Hq') as H''. cbn [with_queue queues ready total_packets total_bytes] in H''. rewrite insert_insert_eq in H''.
      replace (total_packets st - item_packets i) with (total_packets st - packets q0 + packets q') by (cbn [packets q0]; lia).
      replace (total_bytes st - item_bytes i) with (total_bytes st - q_bytes q0 + q_bytes q') by (cbn [q_bytes q0]; lia).
      apply H''; [cbn [packets q0]; lia|cbn [q_bytes q0]; lia|done|cbn; by rewrite Ei|by left]. }
  split; [split; [done|cbn; lia|cbn; lia]| |done|split; [done|by destruct i as [|[|]]]|done]. rewrite Hc, (contents_eq _ _ _ Hk). done.
Qed.

Lemma visit_ok quantum st k rest q :
  1 <= quantum -> st_inv st -> ready st = k :: rest -> queues st !! k = Some q ->
  let st0 := mkState (queues st) rest (total_packets st) (total_bytes st) in
  (exists d, visit quantum st0 k q = inl (with_queue st (mkQueue (items q) (packets q) (q_bytes q) d true) k rest) /\ d = deficit q + quantum /\ d < default 0 (head_bytes q)) \/
  (exists i st', visit quantum st0 k q = inr (into_frames i, st') /\ delivered st k i st').
Proof.
  intros Hqu Hinv Hr Hk st0. pose proof Hinv as [Hs T1 T2]. destruct (so_queue _ _ Hs k q Hk) as [Hq [W1 W2]]. pose proof (so_nonempty _ _ Hs k q Hk ltac:(done)) as Hne.
  pose proof (is_empty_iff k q Hq) as He. unfold visit. destruct (is_empty q) eqn:Ee; [destruct Hne; by apply He|]. unfold head_bytes. destruct (items q) as [|i tl] eqn:Ei; [done|]. cbn [head fmap option_fmap option_map default].
  assert (0 <= item_bytes i <= USIZE_MAX) as Hib.
  { destruct config_ok as [_ [_ ?] _ _]. destruct Hq as [Hit _ Eb _]. rewrite Ei in Hit, Eb. apply Forall_cons in Hit as [(_ & ? & _) Ht]. rewrite fmap_cons, sum_cons in Eb.
    assert (0 <= sum (item_bytes <$> tl)) by (apply sum_nonneg, Forall_fmap; eapply Forall_impl; [exact Ht|]; intros j (_ & ? & _); cbn; lia). lia. }
  pose proof (qo_deficit _ _ Hq). destruct (Z.ltb_spec (saturating_add (deficit q) quantum) (item_bytes i)) as [Hlt|Hge].
  - left. assert (saturating_add (deficit q) quantum = deficit q + quantum) as Ed by (unfold saturating_add in *; lia). rewrite Ed in *. exists (deficit q + quantum). split; [|done].
    unfold mark_ready, set_queue. cbn [queues st0]. rewrite lookup_insert_eq. cbn [active orb]. unfold is_empty in *. cbn [packets]. rewrite Ee. cbn [ready total_packets total_bytes]. by rewrite insert_insert_eq.
  - right. exists i. set (d := saturating_add (deficit q) quantum - item_bytes i).
    destruct (popped_ok k q i tl d false Hq Ei ltac:(lia)) as (Hq' & Ep & Eb & Hi). fold (popped q i tl d false). pose proof (is_empty_iff k _ Hq') as He'. cbn [items popped] in He'.
    destruct (st_totals_ge _ _ k q Hs Hk). destruct (queue_counts k _ Hq') as (? & ? & _). pose proof Hi as (? & ? & _).
    assert (subtract_totals (set_queue st0 k (popped q i tl d false)) (mkEviction (item_packets i) (item_bytes i)) =
      mkState (<[k := popped q i tl d false]> (queues st)) rest (total_packets st - item_packets i) (total_bytes st - item_bytes i)) as E1.
    { unfold subtract_totals, set_queue, saturating_sub. cbn. f_equal; lia. }
    rewrite E1. eexists. split; [done|]. pose proof (taken_ok st k rest q i tl d Hinv Hr Hk Ei ltac:(lia)) as Ht. unfold taken in Ht. cbn [items popped] in Ht.
    destruct (is_empty (popped q i tl d false)) eqn:Ee'; cbn [negb].
    + rewrite (proj1 He' eq_refl) in *. cbn [queues ready total_packets total_bytes]. by rewrite delete_insert_eq.
    + destruct tl as [|i' tl]; [by discriminate (proj2 He' eq_refl)|]. unfold mark_ready. cbn [queues]. rewrite lookup_insert_eq, Ee'. cbn [active popped orb ready total_packets total_bytes]. by rewrite insert_insert_eq.
Qed.

Lemma needs_nonneg quantum st l : 0 <= needs quantum st l.
Proof.
  unfold needs. apply sum_nonneg, Forall_fmap, Forall_forall. intros k _. cbn. destruct (queues st !! k); cbn; [|lia]. unfold need. lia.
Qed.

(** A failed visit uses up one of them. *)
Lemma needs_rotate quantum st k rest q d :
  1 <= quantum -> NoDup (k :: rest) -> queues st !! k = Some q -> 0 <= deficit q -> d = deficit q + quantum -> d < default 0 (head_bytes q) ->
  needs quantum (with_queue st (mkQueue (items q) (packets q) (q_bytes q) d true) k rest) (rest ++ [k]) = needs quantum st (k :: rest) - 1.
Proof.
  intros Hqu Hn Hk Hd -> Hlt. apply NoDup_cons in Hn as [Hn _]. unfold needs. rewrite fmap_app, sum_app, !fmap_cons, !sum_cons. cbn [with_queue queues]. rewrite lookup_insert_eq, Hk.
  assert (((fun j => default 0 (need quantum <$> <[k := mkQueue (items q) (packets q) (q_bytes q) (deficit q + quantum) true]> (queues st) !! j)) <$> rest) =
          ((fun j => default 0 (need quantum <$> queues st !! j)) <$> rest)) as ->.
  { apply list_fmap_ext. intros n j Hj. rewrite lookup_insert_ne; [done|]. intros ->. apply Hn. by eapply list_elem_of_lookup_2. }
  cbn [fmap list_fmap option_fmap option_map default]. unfold id, need. cbn [deficit]. change (head_bytes (mkQueue _ _ _ _ _)) with (head_bytes q). set (h := default 0 (head_bytes q)) in *. cbn [sum foldr].
  assert ((h - 1 - deficit q) / quantum = (h - 1 - (deficit q + quantum)) / quantum + 1) as ->.
  { replace (h - 1 - deficit q) with ((h - 1 - (deficit q + quantum)) + 1 * quantum) by lia. rewrite Z.div_add by lia. lia. }
  assert (0 <= (h - 1 - (deficit q + quantum)) / quantum) by (apply Z.div_pos; lia). lia.
Qed.

Lemma pop_loop_ok quantum fuel : 1 <= quantum -> forall st, st_inv st -> ready st <> [] -> needs quantum st (ready st) < Z.of_nat fuel ->
  exists k i st', pop_loop fuel quantum st = (Some (into_frames i), st') /\ delivered st k i st'.
Proof.
  intros Hqu. induction fuel as [|fuel IH]; intros st Hinv Hne Hf; [pose proof (needs_nonneg quantum st (ready st)); lia|]. cbn [pop_loop].
  destruct (ready st) as [|k rest] eqn:Hr; [done|]. cbn [queues]. pose proof Hinv as [Hs T1 T2].
  destruct (proj1 (so_ready _ _ Hs k)) as (q & Hk & _); [rewrite Hr; left|]. rewrite Hk.
  pose proof (so_nodup _ _ Hs) as Hn. rewrite Hr in Hn. destruct (so_queue _ _ Hs k q Hk) as [Hq _]. pose proof (qo_deficit _ _ Hq) as Hd0.
  destruct (visit_ok quantum st k rest q Hqu Hinv Hr Hk) as [(d & -> & Hd & Hlt)|(i & st' & -> & Hdel)]; [|eauto].
  set (st1 := with_queue st (mkQueue (items q) (packets q) (q_bytes q) d true) k rest).
  assert (st_inv st1) as Hinv1 by (split; [apply rotate_ok; [done..|lia]|done|done]).
  destruct (IH st1 Hinv1) as (k' & i & st' & Hl & [D1 D2 D3 D4 D5]); [cbn; by destruct rest|unfold st1; cbn [with_queue ready]; rewrite needs_rotate; [lia|done..]|].
  exists k', i, st'. split; [exact Hl|]. assert (forall j, contents st1 j = contents st j) as Hc by (intros; by eapply contents_with_queue). split; [done|by rewrite <- Hc|intros; by rewrite D3, Hc|done|done].
Qed.

Lemma ready_perm st : st_ok None st -> ready st ≡ₚ (map_to_list (queues st)).*1.
Proof.
  intros Hs. apply NoDup_Permutation; [apply Hs|apply NoDup_fst_map_to_list|]. intros k. rewrite (so_ready _ _ Hs k). split.
  - intros (q & Hq & _). apply list_elem_of_fmap. exists (k, q). by rewrite elem_of_map_to_list.
  - intros ([k' q] & -> & Hq)%list_elem_of_fmap. apply elem_of_map_to_list in Hq. exists q. split; [done|]. by apply (so_active _ _ Hs k' q Hq), (so_nonempty _ _ Hs k' q Hq).
Qed.

Lemma ready_bound st : st_ok None st -> zlen (ready st) <= total_packets st.
Proof.
  intros Hs. rewrite (so_packets _ _ Hs). unfold zlen. rewrite (ready_perm st Hs), length_fmap. unfold msum.
  assert (Forall (fun x => 1 <= packets (snd x)) (map_to_list (queues st))) as H.
  { apply Forall_forall. intros [k q] Hk%elem_of_map_to_list. cbn. destruct (so_queue _ _ Hs k q Hk) as [Hq _]. pose proof (so_nonempty _ _ Hs k q Hk ltac:(done)) as Hne.
    destruct (queue_counts k q Hq) as (? & _ & E). destruct (decide (packets q = 0)) as [E0|]; [by apply E in E0|lia]. }
  induction H as [|x l Hx _ IH]; [done|]. rewrite fmap_cons, sum_cons. cbn [length]. lia.
Qed.

(** The attempts are enough, as long as their number is a [usize]. *)
Hypothesis limits_small : global_packet_limit config * (global_byte_limit config + 2) <= USIZE_MAX.

Lemma max_head_ge (l : list (str * AssociationQueue)) k q h : (k, q) ∈ l -> head_bytes q = Some h -> h <= foldr Z.max 0 (omap (fun '(_, q) => head_bytes q) l).
Proof.
  intros Hin Hh. induction l as [|[k' q'] l IH]; [by apply elem_of_nil in Hin|]. apply elem_of_cons in Hin as [[= <- <-]|Hin].
  - cbn. rewrite Hh. cbn. lia.
  - specialize (IH Hin). cbn. destruct (head_bytes q'); cbn; lia.
Qed.

Lemma max_head_le (l : list (str * AssociationQueue)) m : 0 <= m -> (forall k q h, (k, q) ∈ l -> head_bytes q = Some h -> h <= m) -> foldr Z.max 0 (omap (fun '(_, q) => head_bytes q) l) <= m.
Proof.
  intros Hm H. induction l as [|[k q] l IH]; [done|]. assert (foldr Z.max 0 (omap (fun '(_, q) => head_bytes q) l) <= m) as Hi by (apply IH; intros k' q' h Hin; apply (H k'); by right).
  cbn. destruct (head_bytes q) as [h|] eqn:E; cbn; [|done]. specialize (H k q h ltac:(left) E). lia.
Qed.

Lemma head_bytes_bound st k q h : st_inv st -> queues st !! k = Some q -> head_bytes q = Some h -> 0 <= h <= total_bytes st.
Proof.
  intros [Hs _ _] Hk Hh. destruct (st_totals_ge _ _ k q Hs Hk) as [_ Hb]. destruct (so_queue _ _ Hs k q Hk) as [[Hi _ Eb _] _]. unfold head_bytes in Hh. destruct (items q) as [|i tl]; [done|].
  cbn in Hh. injection Hh as <-. apply Forall_cons in Hi as [(_ & ? & _) Ht]. rewrite fmap_cons, sum_cons in Eb.
  assert (0 <= sum (item_bytes <$> tl)) by (apply sum_nonneg, Forall_fmap; eapply Forall_impl; [exact Ht|]; intros j (_ & ? & _); cbn; lia). lia.
Qed.

Lemma attempts_enough quantum st : 1 <= quantum -> st_inv st -> ready st <> [] -> needs quantum st (ready st) < attempts entries quantum st.
Proof.
  intros Hqu Hinv Hne. pose proof Hinv as [Hs T1 T2]. unfold attempts. set (mh := foldr Z.max 0 _). set (v := Z.max 1 (saturating_add mh (saturating_sub quantum 1) / quantum)).
  assert (forall k q, (k, q) ∈ entries (queues st) <-> queues st !! k = Some q) as He by (intros; by rewrite entries_ok, elem_of_map_to_list).
  destruct (st_totals_nonneg _ _ Hs). assert (0 <= mh) as Hm0 by (unfold mh; clear; induction (omap _ _) as [|x l IH]; cbn; lia).
  assert (mh <= total_bytes st) as Hm1 by (apply max_head_le; [done|]; intros k q h Hk Hh; eapply (head_bytes_bound st k q h); [done|by apply He|done]).
  assert (forall k, default 0 (need quantum <$> queues st !! k) <= v) as Hv.
  { intros k. destruct (queues st !! k) as [q|] eqn:Hk; cbn; [|lia]. unfold need. destruct (head_bytes q) as [h|] eqn:Eh; cbn [default].
    - pose proof (max_head_ge _ k q h (proj2 (He k q) Hk) Eh) as Hh. fold mh in Hh. destruct (head_bytes_bound st k q h Hinv Hk Eh). destruct (so_queue _ _ Hs k q Hk) as [[_ _ _ Hd] _]. unfold id, v.
      assert ((h - 1 - deficit q) / quantum <= saturating_add mh (saturating_sub quantum 1) / quantum); [|lia].
      apply Z.div_le_mono; [lia|]. unfold saturating_add, saturating_sub. destruct config_ok as [_ _ _ [_ ?]]. lia.
    - unfold id, v. assert ((0 - 1 - deficit q) / quantum < 0); [|lia]. destruct (so_queue _ _ Hs k q Hk) as [[_ _ _ Hd] _]. apply Z.div_lt_upper_bound; lia. }
  assert (needs quantum st (ready st) <= zlen (ready st) * v) as Hn.
  { unfold needs. clear -Hv. induction (ready st) as [|k l IH]; [done|]. rewrite fmap_cons, sum_cons, zlen_cons. specialize (Hv k). lia. }
  assert (1 <= zlen (ready st)) as H1 by (clear -Hne; destruct (ready st) as [|k l]; [done|]; rewrite zlen_cons; pose proof (zlen_nonneg l); lia). pose proof (ready_bound st Hs) as H2.
  assert (v <= global_byte_limit config + 1) as Hvb.
  { unfold v. assert (saturating_add mh (saturating_sub quantum 1) / quantum < global_byte_limit config + 2); [|lia]. apply Z.div_lt_upper_bound; [lia|].
    unfold saturating_add, saturating_sub. assert (mh <= global_byte_limit config) by lia. nia. }
  assert (zlen (ready st) * v + zlen (ready st) <= USIZE_MAX) by nia. unfold saturating_add, saturating_mul. lia.
Qed.

(** Nothing is delivered only when nothing is queued. *)
Lemma try_pop_ok quantum st : 1 <= quantum -> st_inv st ->
  (exists k i st', try_pop_with_quantum entries quantum st = (Some (into_frames i), st') /\ delivered st k i st') \/
  (try_pop_with_quantum entries quantum st = (None, st) /\ total_packets st = 0 /\ forall k, contents st k = []).
Proof.
  intros Hqu Hinv. unfold try_pop_with_quantum. destruct (ready st) as [|k rest] eqn:Hr.
  - right. assert (queues st = ∅) as Eq.
    { apply map_empty. intros k. destruct (queues st !! k) as [q|] eqn:Hk; [|done]. destruct Hinv as [Hs _ _]. assert (k ∈ ready st) as Hin; [|rewrite Hr in Hin; by apply elem_of_nil in Hin].
      apply (so_ready _ _ Hs). exists q. split; [done|]. by apply (so_active _ _ Hs k q Hk), (so_nonempty _ _ Hs k q Hk). }
    split; [|split; [destruct Hinv as [Hs _ _]; rewrite (so_packets _ _ Hs), Eq; apply msum_empty|intros k; unfold contents; by rewrite Eq]].
    destruct (Z.to_nat _); [done|]. cbn [pop_loop]. by rewrite Hr.
  - left. apply pop_loop_ok; [done|done|by rewrite Hr|]. pose proof (attempts_enough quantum st Hqu Hinv ltac:(by rewrite Hr)). lia.
Qed.

(** ** Runs *)

(** The receiver with its pending frames; per association what was accepted, and what was
    handed out *)
Record world := mkWorld { state : State; pending : list DatagramFrame; log_accepted : list DatagramFrame; log_received : list DatagramFrame }.

Inductive scheduler_op :=
| Enqueue (receiver_closed : bool) (frames : list DatagramFrame)
| RemoveAssociation (k : str)
| Receive (quantum : Z).

Definition op_ok (op : scheduler_op) : Prop := match op with Enqueue _ frames => group_ok frames | _ => True end.

(** [None]: fuel ran out *)
Definition scheduler_step (w : world) (op : scheduler_op) : option world :=
  match op with
  | Enqueue closed frames =>
      '(st, o) ← enqueue_group entries config closed (state w) frames;
      Some (mkWorld st (pending w) (if accepted o then log_accepted w ++ frames else log_accepted w) (log_received w))
  | RemoveAssociation k => Some (mkWorld (snd (remove_association (state w) k)) (pending w) (log_accepted w) (log_received w))
  | Receive quantum =>
      let '(r, p, st) := recv_with_quantum entries quantum (pending w) (state w) in
      Some (mkWorld st p (log_accepted w) (match r with Some f => log_received w ++ [f] | None => log_received w end))
  end.

Definition run_scheduler (ops : list scheduler_op) : option world :=
  foldl (fun w op => w ← w; scheduler_step w op) (Some (mkWorld state_new [] [] [])) ops.

Definition of_association (k : str) (l : list DatagramFrame) : list DatagramFrame := base.filter (fun f => conn_id f = k) l.

(** The frames of an association come out in the order in which they were accepted, none twice *)
Definition in_sequence (w : world) : Prop :=
  forall k, of_association k (log_received w ++ pending w) ++ (contents (state w) k ≫= into_frames) `sublist_of` of_association k (log_accepted w).

Lemma of_association_all k l : Forall (fun f => conn_id f = k) l -> of_association k l = l.
Proof. induction 1 as [|f l Hf _ IH]; [done|]. unfold of_association in *. rewrite filter_cons_True by done. by rewrite IH. Qed.

Lemma of_association_none k j l : Forall (fun f => conn_id f = k) l -> j <> k -> of_association j l = [].
Proof. induction 1 as [|f l Hf _ IH]; [done|]. intros Hj. unfold of_association in *. rewrite filter_cons_False by congruence. by apply IH. Qed.

Lemma of_association_app k l1 l2 : of_association k (l1 ++ l2) = of_association k l1 ++ of_association k l2.
Proof. apply filter_app. Qed.

Lemma suffix_frames l l' : l' `suffix_of` l -> (l' ≫= into_frames) `sublist_of` (l ≫= into_frames).
Proof. intros [p ->]. rewrite bind_app. by apply sublist_inserts_l. Qed.

Record world_ok (w : world) : Prop := { wo_state : st_inv (state w); wo_sequence : in_sequence w }.

Lemma enqueue_step_ok closed frames w : world_ok w -> group_ok frames -> exists w', scheduler_step w (Enqueue closed frames) = Some w' /\ world_ok w'.
Proof.
  intros [Hs Hq] Hg. cbn [scheduler_step]. destruct frames as [|f frames]; [cbn; eexists; split; [done|]; by split|].
  destruct (closed || negb (group_fits config (f :: frames))) eqn:E.
  - unfold enqueue_group. rewrite E. cbn. eexists. split; [done|]. by split.
  - apply orb_false_iff in E as [-> Hfit%negb_false_iff]. destruct (enqueue_group_ok f frames (state w) Hs Hg Hfit) as (st' & o & -> & Ha & _ & [Q1 (left & Q2 & Q3) Q4 _ _ _]). cbn [mbind option_bind]. rewrite Ha.
    eexists. split; [done|]. split; [done|]. apply group_fits_iff in Hfit as (Hc & _). destruct (make_item_ok f frames Hg Hc) as (_ & _ & _ & Hi).
    intros k. cbn [state pending log_accepted log_received]. rewrite (of_association_app k (log_accepted w)). specialize (Hq k). destruct (decide (k = conn_id f)) as [->|Hk].
    + rewrite Q3, bind_app, (app_assoc _ (left ≫= into_frames)), (of_association_all _ (f :: frames)) by done. apply sublist_app; [|by rewrite bind_singleton, Hi].
      etrans; [|exact Hq]. by apply sublist_app, suffix_frames.
    + rewrite (of_association_none (conn_id f) k (f :: frames)), app_nil_r by done. etrans; [|exact Hq]. by apply sublist_app, suffix_frames, Q4.
Qed.

Lemma recv_with_quantum_ok quantum p st : st_inv st ->
  match recv_with_quantum entries quantum p st with
  | (Some f, p', st') => st_inv st' /\ forall k, of_association k (f :: p') ++ (contents st' k ≫= into_frames) = of_association k p ++ (contents st k ≫= into_frames)
  | (None, p', st') => p' = [] /\ p = [] /\ st' = st /\ total_packets st = 0
  end.
Proof.
  intros Hs. unfold recv_with_quantum. destruct p as [|f p]; [|done]. cbn [recv_batch_with_quantum].
  destruct (try_pop_ok (Z.max 1 quantum) st ltac:(lia) Hs) as [(k & i & st' & -> & [D1 D2 D3 [D4 D5] _])|(-> & ? & _)]; [|done].
  destruct (into_frames i) as [|f batch] eqn:Ei; [done|]. split; [done|]. intros j. change (of_association j []) with (@nil DatagramFrame). cbn [app]. destruct (decide (j = k)) as [->|Hj].
  - rewrite of_association_all, D2, bind_cons, Ei by done. done.
  - rewrite (of_association_none k j (f :: batch)), D3 by done. done.
Qed.

Lemma scheduler_step_ok w op : world_ok w -> op_ok op -> exists w', scheduler_step w op = Some w' /\ world_ok w'.
Proof.
  intros Hw Ho. destruct op as [closed frames|k|quantum]; [by apply enqueue_step_ok|..]; destruct Hw as [Hs Hq]; cbn [scheduler_step].
  - destruct (remove_association (state w) k) as [n st'] eqn:E. destruct (remove_association_ok _ _ _ _ Hs E) as (H1 & H2 & H3 & _). eexists. split; [done|]. split; [done|].
    intros j. cbn [snd state pending log_accepted log_received]. specialize (Hq j). etrans; [|exact Hq]. destruct (decide (j = k)) as [->|]; [rewrite H2; apply sublist_app; [done|apply sublist_nil_l]|by rewrite H3].
  - pose proof (recv_with_quantum_ok quantum (pending w) (state w) Hs) as H. destruct (recv_with_quantum entries quantum (pending w) (state w)) as [[[f|] p'] st'].
    + destruct H as [H1 H2]. eexists. split; [done|]. split; [done|]. intros k. cbn [state pending log_accepted log_received]. specialize (Hq k). specialize (H2 k).
      rewrite <- (app_assoc (log_received w)). change ([f] ++ p') with (f :: p'). rewrite of_association_app, <- app_assoc, H2, app_assoc, <- of_association_app. done.
    + destruct H as (-> & Hp & -> & _). eexists. split; [done|]. split; [done|]. intros k. cbn [state pending log_accepted log_received]. specialize (Hq k). by rewrite Hp in Hq.
Qed.

Lemma run_scheduler_ok ops : Forall op_ok ops -> exists w, run_scheduler ops = Some w /\ world_ok w.
Proof.
  intros H. unfold run_scheduler. assert (world_ok (mkWorld state_new [] [] [])) as H0.
  { split; [apply state_new_inv|]. intros k. cbn. unfold contents, state_new. cbn. by rewrite lookup_empty. }
  revert H0. generalize (mkWorld state_new [] [] []). induction H as [|op ops Hop _ IH]; intros w Hw; [by exists w|]. cbn [foldl mbind option_bind].
  destruct (scheduler_step_ok w op Hw Hop) as (w' & -> & Hw'). by apply IH.
Qed.

End invariant.

(** ** The theorem *)

(** C14: The datagram queue after any sequence of groups, removals and receptions, in whatever
    order the hash map is visited.  Both eviction loops end.  The counters are exact, every
    association and the whole queue stay within their budgets, and exactly the associations
    with data are in the ready list.  The frames of an association are received in the order
    in which they were accepted and none twice; a group is queued exactly when it is well formed
    and within the budgets, and what is evicted for it is the oldest of an association, and
    nothing when there is room.  The receiver finds a frame whenever one is queued: the number
    of visits that it computes is enough for every deficit. *)
Theorem datagram_scheduler_correct entries config ops :
  (forall m, entries m ≡ₚ map_to_list m) -> config_valid config -> global_packet_limit config * (global_byte_limit config + 2) <= USIZE_MAX -> Forall op_ok ops ->
  exists w, run_scheduler entries config ops = Some w /\ st_inv config (state w) /\ in_sequence w /\
    (forall f frames, group_ok (f :: frames) -> exists st' o, enqueue_group entries config false (state w) (f :: frames) = Some (st', o) /\
      accepted o = group_fits config (f :: frames) /\ (accepted o = true -> queued config (state w) (conn_id f) (make_item (f :: frames)) o st')) /\
    (forall quantum, fst (fst (recv_with_quantum entries quantum (pending w) (state w))) = None <-> pending w = [] /\ total_packets (state w) = 0).
Proof.
  intros He Hc Hl Ho. destruct (run_scheduler_ok entries config He Hc Hl ops Ho) as (w & Hr & [Hs Hq]). exists w. split; [done|]. split; [done|]. split; [done|]. split.
  - intros f frames Hg. destruct (group_fits config (f :: frames)) eqn:E.
    + destruct (enqueue_group_ok entries config He Hc f frames (state w) Hs Hg E) as (st' & o & ? & ? & _ & ?). exists st', o. done.
    + exists (state w), rejected. unfold enqueue_group. rewrite E. done.
  - intros quantum. pose proof (recv_with_quantum_ok entries config He Hc Hl quantum (pending w) (state w) Hs) as H. destruct (recv_with_quantum entries quantum (pending w) (state w)) as [[[f|] p'] st'] eqn:E; cbn.
    + split; [done|]. intros [Hp Ht]. exfalso. unfold recv_with_quantum in E. rewrite Hp in E. cbn in E.
      destruct (try_pop_ok entries config He Hc Hl (Z.max 1 quantum) (state w) ltac:(lia) Hs) as [(k & i & st1 & Et & D)|(Et & _)]; rewrite Et in E; [|done].
      destruct D as [[D1 _ _] D2 _ _ D5]. destruct (st_totals_nonneg _ _ _ D1). destruct Hs as [Hs _ _]. unfold contents in D2. destruct (queues (state w) !! k) as [q|] eqn:Ek; [|done].
      destruct (st_totals_ge _ _ _ k q Hs Ek) as [Hp' _]. destruct (so_queue _ _ _ Hs k q Ek) as [Hqk _]. pose proof (queue_counts k q Hqk) as (_ & _ & Hz). cbn in D2. destruct (so_queue _ _ _ Hs k q Ek) as [[Hi _ _ _] _]. rewrite D2 in Hi. apply Forall_cons in Hi as [(? & _) _]. lia.
    + destruct H as (_ & ? & _ & ?). done.
Qed.

Definition sample_config : DatagramSchedulerConfig := mkConfig 128 1048576 128 1048576.
Definition sample_frame (k x b : Z) : DatagramFrame := mkFrame [k] [x] b None.
Definition entries_of (m : gmap str AssociationQueue) : list (str * AssociationQueue) := map_to_list m.
Definition sample_run : list scheduler_op := [Enqueue false [sample_frame 97 1 2000]; Enqueue false [sample_frame 98 2 10]; Receive 1452].

Lemma datagram_scheduler_correct_witness :
  (log_received <$> run_scheduler entries_of sample_config sample_run) = Some [sample_frame 98 2 10] /\
  exists w, run_scheduler entries_of sample_config sample_run = Some w /\ in_sequence w.
Proof.
  split; [vm_compute; reflexivity|].
  destruct (datagram_scheduler_correct entries_of sample_config sample_run) as (w & H1 & _ & H2 & _).
  - intros m. reflexivity.
  - split; vm_compute; split; discriminate.
  - vm_compute. discriminate.
  - repeat (apply Forall_cons; split); try apply Forall_nil; try exact I; vm_compute; discriminate.
  - exists w. split; [exact H1|exact H2].
Defined.

(** Each visit adds the quantum and takes one item: what small items leave over accumulates
    while the association stays backlogged, and is spent on large ones later. *)
Example deficit_accumulates :
  (fun w => deficit <$> queues (state w) !! [97]) <$>
  run_scheduler entries_of sample_config (((fun x => Enqueue false [sample_frame 97 x 1]) <$> [1; 2; 3; 4; 5]) ++ [Receive 1452; Receive 1452; Receive 1452; Receive 1452]) = Some (Some (4 * 1451)).
Proof. vm_compute. reflexivity. Qed.

End DatagramScheduler.
