(* ===== verification/TuicFrag.v ===== *)
(** * TUIC packets (crates/tp-proxy-tuic/src/addr.rs, frag.rs, lib.rs)

    The address field, the split of a UDP payload into fragments that fit the datagrams of the
    connection, the reassembly with its time limit, and the handler that parses a packet and
    hands it to the reassembly. *)

From Stdlib Require Import ZArith Lia.
From stdpp Require Import base list gmap numbers.
From S2P Require Import Prelude CBytes RustStd.
Import list_basics.list list_relations.list list_monad.list list_misc.list.
Import RustStd.

Module TuicFrag.

Definition TUIC_VER : Z := 5.
Definition CMD_PACKET : Z := 2.
Definition CMD_HEARTBEAT : Z := 4.
Definition ADDR_NONE : Z := 0xFF.
Definition ADDR_DOMAIN : Z := 0.
Definition ADDR_V4 : Z := 1.
Definition ADDR_V6 : Z := 2.
Definition PACKET_FIXED_HDR : Z := 1 + 1 + 2 + 2 + 1 + 1 + 2.
Definition FRAG_TTL : Z := 30000000000.

(** [put_u16] and [get_u16] *)
Definition put_u16 (v : Z) : bytes := to_be 2 256 v.
Definition get_u16 (a b : Z) : Z := a * 256 + b.

(** ** Addresses *)

Inductive Addr := Domain (h : str) (p : Z) | AddrV4 (a p : Z) | AddrV6 (a p : Z) | NoAddr.

(** ["host:port"]: the host and the port that are encoded *)
Definition host_port (from : str) : str * Z :=
  match rsplit_once 58 from with
  | Some (h, p) => (h, default 0 (parse_unsigned 65535 p))
  | None => (from, 0)
  end.

Definition strip_brackets (host : str) : str := trim_end_matches (fun c => c =? 93) (trim_start_matches (fun c => c =? 91) host).

Definition encode_addr_bytes (from : str) : bytes :=
  let '(host, port) := host_port from in
  match parse_ipv4 host with
  | Some v4 => [ADDR_V4] ++ octets4 v4 ++ put_u16 port
  | None =>
      match parse_ipv6 (strip_brackets host) with
      | Some v6 => [ADDR_V6] ++ octets6 v6 ++ put_u16 port
      | None => [ADDR_DOMAIN; u8 (zlen (as_bytes host))] ++ as_bytes host ++ put_u16 port
      end
  end.

(** The address and the rest of the bytes *)
Definition read_addr_sync (b : bytes) : option (Addr * bytes) :=
  match b with
  | [] => None
  | ty :: b =>
      if ty =? ADDR_NONE then Some (NoAddr, b)
      else if ty =? ADDR_DOMAIN then
        match b with
        | [] => None
        | len :: b =>
            if zlen b <? len + 2 then None
            else
              name ← from_utf8 (take (Z.to_nat len) b);
              match drop (Z.to_nat len) b with
              | x :: y :: b => Some (Domain name (get_u16 x y), b)
              | _ => None
              end
        end
      else if ty =? ADDR_V4 then
        if zlen b <? 6 then None
        else match drop 4 b with x :: y :: r => Some (AddrV4 (be_number 256 (take 4 b)) (get_u16 x y), r) | _ => None end
      else if ty =? ADDR_V6 then
        if zlen b <? 18 then None
        else match drop 16 b with x :: y :: r => Some (AddrV6 (be_number 256 (take 16 b)) (get_u16 x y), r) | _ => None end
      else None
  end.

(** "0.0.0.0:0" *)
Definition no_target : str := [48; 46; 48; 46; 48; 46; 48; 58; 48].

Definition format_addr (a : Addr) : str :=
  match a with
  | Domain h p => h ++ [58] ++ show 5 10 p
  | AddrV4 v p => show_ipv4 v ++ [58] ++ show 5 10 p
  | AddrV6 v p => if v / 2 ^ 32 =? 0xFFFF then show_ipv4 (v mod 2 ^ 32) ++ [58] ++ show 5 10 p else [91] ++ show_ipv6 v ++ [93; 58] ++ show 5 10 p
  | NoAddr => no_target
  end.

(** ** Fragmentation *)

Definition build_single (assoc_id pkt_id frag_total frag_id : Z) (addr_full : option bytes) (payload : bytes) : bytes :=
  [TUIC_VER; CMD_PACKET] ++ put_u16 assoc_id ++ put_u16 pkt_id ++ [frag_total; frag_id] ++ put_u16 (u16 (zlen payload)) ++ default [ADDR_NONE] addr_full ++ payload.

(** The loop over the rest; [remaining] as in the source.  [None]: fuel ran out. *)
Fixpoint rest_loop (fuel : nat) (assoc_id pkt_id frag_total frag_id rest_chunk_max : Z) (payload : bytes) (cursor remaining : Z) : option (list bytes) :=
  match fuel with
  | O => None
  | S fuel =>
      if cursor <? zlen payload then
        let stop := Z.min (cursor + rest_chunk_max) (zlen payload) in
        let frag := build_single assoc_id pkt_id frag_total frag_id None (take (Z.to_nat (stop - cursor)) (drop (Z.to_nat cursor) payload)) in
        let remaining := Z.max 0 (remaining - rest_chunk_max) in
        if remaining =? 0 then Some [frag]
        else l ← rest_loop fuel assoc_id pkt_id frag_total (Z.min 255 (frag_id + 1)) rest_chunk_max payload stop remaining; Some (frag :: l)
      else Some []
  end.

Definition div_ceil (a b : Z) : Z := (a + b - 1) / b.

Definition build_packet_fragments (assoc_id pkt_id : Z) (from : str) (payload : bytes) (max_dg : Z) : option (list bytes) :=
  let addr_first := encode_addr_bytes from in
  let first_total := PACKET_FIXED_HDR + zlen addr_first + zlen payload in
  if first_total <=? max_dg then Some [build_single assoc_id pkt_id 1 0 (Some addr_first) payload]
  else if (max_dg <=? PACKET_FIXED_HDR + zlen addr_first) || (max_dg <=? PACKET_FIXED_HDR + 1) then Some []
  else
    let first_chunk_max := max_dg - PACKET_FIXED_HDR - zlen addr_first in
    let rest_chunk_max := max_dg - PACKET_FIXED_HDR - 1 in
    let remaining := Z.max 0 (zlen payload - first_chunk_max) in
    let frag_total := 1 + div_ceil remaining rest_chunk_max in
    if 255 <? frag_total then Some []
    else
      let first_end := Z.min first_chunk_max (zlen payload) in
      l ← rest_loop (S (length payload)) assoc_id pkt_id frag_total 1 rest_chunk_max payload first_end remaining;
      Some (build_single assoc_id pkt_id frag_total 0 (Some addr_first) (take (Z.to_nat first_end) payload) :: l).

(** One packet, never split *)
Definition build_packet_datagram (assoc_id pkt_id : Z) (from : str) (payload : bytes) : bytes :=
  let '(host, port) := host_port from in
  [TUIC_VER; CMD_PACKET] ++ put_u16 assoc_id ++ put_u16 pkt_id ++ [1; 0] ++ put_u16 (u16 (zlen payload)) ++
  match parse_ipv4 host with
  | Some v4 => [ADDR_V4] ++ octets4 v4 ++ put_u16 port
  | None =>
      match parse_ipv6 (strip_brackets host) with
      | Some v6 => [ADDR_V6] ++ octets6 v6 ++ put_u16 port
      | None => [ADDR_DOMAIN; u8 (zlen (as_bytes host))] ++ as_bytes host ++ put_u16 port
      end
  end ++ payload.

(** ** Reassembly *)

Record FragBuffer := mkBuffer { parts : list (option bytes); target : option str; received : Z; first_seen : Z }.

Abbreviation FragAssembler := (gmap (Z * Z) FragBuffer).

(** Time is in nanoseconds since the origin of the clock; before [FRAG_TTL] nothing is stale. *)
Definition gc_at (asm : FragAssembler) (now : Z) : FragAssembler :=
  if now <? FRAG_TTL then asm else base.filter (fun e => now - FRAG_TTL <= first_seen (snd e)) asm.

Definition buffer_new (frag_total now : Z) : FragBuffer := mkBuffer (replicate (Z.to_nat frag_total) None) None 0 now.

(** The concatenation of the parts that are there *)
Definition join_parts (l : list (option bytes)) : bytes := concat (default [] <$> l).

Definition accept (asm : FragAssembler) (now assoc_id pkt_id frag_id frag_total : Z) (addr : Addr) (payload : bytes) : option (str * bytes) * FragAssembler :=
  let asm := gc_at asm now in
  let key := (assoc_id, pkt_id) in
  let target_str := match addr with NoAddr => None | a => Some (format_addr a) end in
  let entry := default (buffer_new frag_total now) (asm !! key) in
  let asm := <[key := entry]> asm in
  if negb (zlen (parts entry) =? frag_total) then (None, asm)
  else
    match parts entry !! Z.to_nat frag_id with
    | Some (Some _) => (None, asm)
    | _ =>
        let entry := mkBuffer (<[Z.to_nat frag_id := Some payload]> (parts entry)) (match target entry with None => target_str | Some t => Some t end) (received entry + 1) (first_seen entry) in
        if negb (received entry =? frag_total) then (None, <[key := entry]> asm)
        else (Some (default no_target (target entry), join_parts (parts entry)), delete key asm)
    end.

(** ** The handler *)

Inductive outcome_of_packet := Heartbeat | Pending | Deliver (assoc_id : Z) (target : str) (payload : bytes).

(** [None] is the error that ends the handling of this packet. *)
Definition handle_packet_bytes (asm : FragAssembler) (now : Z) (data : bytes) : option outcome_of_packet * FragAssembler :=
  match data with
  | ver :: cmd :: b =>
      if negb (ver =? TUIC_VER) then (None, asm)
      else if cmd =? CMD_HEARTBEAT then (Some Heartbeat, asm)
      else if negb (cmd =? CMD_PACKET) then (None, asm)
      else
        match b with
        | a0 :: a1 :: p0 :: p1 :: frag_total :: frag_id :: s0 :: s1 :: b =>
            let assoc_id := get_u16 a0 a1 in
            let size := get_u16 s0 s1 in
            if (frag_total =? 0) || (frag_total <=? frag_id) then (None, asm)
            else
              match read_addr_sync b with
              | None => (None, asm)
              | Some (addr, b) =>
                  if zlen b <? size then (None, asm)
                  else
                    let frag_payload := take (Z.to_nat size) b in
                    if frag_total =? 1 then (Some (Deliver assoc_id (format_addr addr) frag_payload), asm)
                    else
                      match accept asm now assoc_id (get_u16 p0 p1) frag_id frag_total addr frag_payload with
                      | (Some (t, full), asm) => (Some (Deliver assoc_id t full), asm)
                      | (None, asm) => (Some Pending, asm)
                      end
              end
        | _ => (None, asm)
        end
  | _ => (None, asm)
  end.

(** ** The address that is encoded is the address that is read *)

Definition addr_of (from : str) : Addr :=
  let '(host, port) := host_port from in
  match parse_ipv4 host with
  | Some v4 => AddrV4 v4 port
  | None => match parse_ipv6 (strip_brackets host) with Some v6 => AddrV6 v6 port | None => Domain host port end
  end.

(** A name that the length byte can describe *)
Definition source_ok (from : str) : Prop := Forall is_char from /\ zlen (as_bytes (fst (host_port from))) <= 255.

Lemma get_put_u16 v rest : 0 <= v < 65536 -> exists x y, put_u16 v ++ rest = x :: y :: rest /\ get_u16 x y = v.
Proof.
  intros Hv. exists (v / 256 mod 256), (v / 1 mod 256). split; [done|]. unfold get_u16. Z.to_euclidean_division_equations. lia.
Qed.

Lemma host_port_ok from : Forall is_char from -> Forall is_char (fst (host_port from)) /\ 0 <= snd (host_port from) < 65536.
Proof.
  intros Hf. unfold host_port. destruct (rsplit_once 58 from) as [[h p]|] eqn:E; cbn; [|split; [done|lia]].
  apply rsplit_once_spec in E as [-> _]. apply Forall_app in Hf as [Hh _]. split; [done|]. destruct (parse_unsigned 65535 p) as [n|] eqn:Ep; cbn; [|lia]. apply parse_unsigned_range in Ep. lia.
Qed.

Lemma read_encode_addr from rest : source_ok from -> read_addr_sync (encode_addr_bytes from ++ rest) = Some (addr_of from, rest).
Proof.
  intros [Hc Hl]. pose proof (host_port_ok from Hc) as [Hh Hp]. unfold encode_addr_bytes, addr_of. destruct (host_port from) as [host port]. cbn [fst snd] in *.
  destruct (get_put_u16 port rest Hp) as (x & y & E & Hx). destruct (parse_ipv4 host) as [v|] eqn:E4; [|destruct (parse_ipv6 (strip_brackets host)) as [v|] eqn:E6].
  - apply parse_ipv4_range in E4. rewrite <- !app_assoc, E. cbn [app read_addr_sync]. change (ADDR_V4 =? ADDR_NONE) with false. change (ADDR_V4 =? ADDR_DOMAIN) with false. change (ADDR_V4 =? ADDR_V4) with true. cbn iota.
    rewrite zlen_app, !zlen_cons. change (zlen (octets4 v)) with 4. pose proof (zlen_nonneg rest). rewrite (proj2 (Z.ltb_ge _ _)) by lia.
    rewrite drop_app_length', take_app_length' by done. by rewrite be_octets4, Hx.
  - apply parse_ipv6_range in E6. rewrite <- !app_assoc, E. cbn [app read_addr_sync]. change (ADDR_V6 =? ADDR_NONE) with false. change (ADDR_V6 =? ADDR_DOMAIN) with false. change (ADDR_V6 =? ADDR_V4) with false. change (ADDR_V6 =? ADDR_V6) with true. cbn iota.
    rewrite zlen_app, !zlen_cons. change (zlen (octets6 v)) with 16. pose proof (zlen_nonneg rest). rewrite (proj2 (Z.ltb_ge _ _)) by lia.
    rewrite drop_app_length', take_app_length' by done. unfold octets6. rewrite be_to_be by lia. rewrite Z.mod_small by done. by rewrite Hx.
  - rewrite <- !app_assoc, E. cbn [app read_addr_sync]. change (ADDR_DOMAIN =? ADDR_NONE) with false. change (ADDR_DOMAIN =? ADDR_DOMAIN) with true. cbn iota. pose proof (zlen_nonneg (as_bytes host)).
    assert (u8 (zlen (as_bytes host)) = zlen (as_bytes host)) as -> by (apply Z.mod_small; lia). rewrite zlen_app, !zlen_cons. pose proof (zlen_nonneg rest). rewrite (proj2 (Z.ltb_ge _ _)) by lia.
    unfold zlen. rewrite Nat2Z.id. rewrite take_app_length, drop_app_length, from_utf8_as_bytes by done. cbn. by rewrite Hx.
Qed.

(** ** The fragments of a packet *)

Section fragments.
Context (assoc_id pkt_id : Z).

(** The fragments that carry the chunks of a payload *)
Definition fragments_of (addr : bytes) (total : Z) (chunks : list bytes) : list bytes :=
  imap (fun j c => build_single assoc_id pkt_id total (Z.of_nat j) (match j with O => Some addr | S _ => None end) c) chunks.

Lemma div_ceil_step a b : 1 <= b -> b < a -> div_ceil a b = 1 + div_ceil (a - b) b.
Proof. intros. unfold div_ceil. replace (a + b - 1) with (a - b + b - 1 + 1 * b) by lia. rewrite Z.div_add by lia. lia. Qed.

Lemma div_ceil_one a b : 1 <= a <= b -> div_ceil a b = 1.
Proof. intros. unfold div_ceil. symmetry. apply (Z.div_unique _ _ _ (a - 1)); lia. Qed.

Lemma fragments_loop_ok total rest_max payload fuel : 1 <= rest_max -> forall frag_id cursor,
  0 <= cursor < zlen payload -> zlen payload - cursor < Z.of_nat fuel -> 0 <= frag_id -> frag_id + div_ceil (zlen payload - cursor) rest_max <= 255 ->
  exists chunks, rest_loop fuel assoc_id pkt_id total frag_id rest_max payload cursor (zlen payload - cursor) = Some (imap (fun j c => build_single assoc_id pkt_id total (frag_id + Z.of_nat j) None c) chunks) /\
    concat chunks = drop (Z.to_nat cursor) payload /\ zlen chunks = div_ceil (zlen payload - cursor) rest_max /\ Forall (fun c => zlen c <= rest_max) chunks.
Proof.
  intros Hm. induction fuel as [|fuel IH]; intros frag_id cursor Hc Hf Hi Ht; [lia|]. cbn [rest_loop]. rewrite (proj2 (Z.ltb_lt _ _)) by lia.
  set (stop := Z.min (cursor + rest_max) (zlen payload)). set (chunk := take (Z.to_nat (stop - cursor)) (drop (Z.to_nat cursor) payload)).
  assert (zlen chunk = stop - cursor) as Hlc by (unfold chunk, zlen in *; rewrite length_take, length_drop; lia).
  assert (drop (Z.to_nat cursor) payload = chunk ++ drop (Z.to_nat stop) payload) as Hs.
  { unfold chunk. replace (Z.to_nat stop) with (Z.to_nat cursor + Z.to_nat (stop - cursor))%nat by lia. by rewrite <- drop_drop, take_drop. }
  destruct (Z.eqb_spec (Z.max 0 (zlen payload - cursor - rest_max)) 0) as [E|E].
  - exists [chunk]. split; [cbn; by rewrite Z.add_0_r|]. split; [|split].
    + rewrite Hs, drop_ge by (unfold zlen in *; lia). cbn. by rewrite !app_nil_r.
    + rewrite div_ceil_one by lia. done.
    + apply Forall_singleton. lia.
  - assert (stop = cursor + rest_max) as Es by lia. rewrite div_ceil_step in Ht |- * by lia. assert (1 <= div_ceil (zlen payload - cursor - rest_max) rest_max) by (unfold div_ceil; apply Z.div_le_lower_bound; lia).
    replace (Z.max 0 (zlen payload - cursor - rest_max)) with (zlen payload - stop) by lia. replace (zlen payload - cursor - rest_max) with (zlen payload - stop) in * by lia. replace (Z.min 255 (frag_id + 1)) with (frag_id + 1) by lia.
    destruct (IH (frag_id + 1) stop) as (chunks & -> & H1 & H2 & H3); [lia..|]. cbn [mbind option_bind]. exists (chunk :: chunks). split; [|split; [|split]].
    + f_equal. cbn [imap]. rewrite Z.add_0_r. f_equal. apply imap_ext. intros j c _. unfold compose. f_equal. lia.
    + cbn. by rewrite H1, Hs.
    + rewrite zlen_cons. lia.
    + constructor; [lia|done].
Qed.

Lemma build_single_length total frag_id addr chunk : zlen (build_single assoc_id pkt_id total frag_id addr chunk) = PACKET_FIXED_HDR + zlen (default [ADDR_NONE] addr) + zlen chunk.
Proof. unfold build_single. rewrite !zlen_app. unfold put_u16, PACKET_FIXED_HDR. change (zlen (to_be 2 256 _)) with 2. change (zlen [TUIC_VER; CMD_PACKET]) with 2. change (zlen [_; _]) with 2. lia. Qed.

(** Whether the payload can be sent at all *)
Definition sendable (addr_len len max_dg : Z) : Prop :=
  PACKET_FIXED_HDR + addr_len + len <= max_dg \/
  (PACKET_FIXED_HDR + addr_len < max_dg /\ PACKET_FIXED_HDR + 1 < max_dg /\ len <= (max_dg - PACKET_FIXED_HDR - addr_len) + 254 * (max_dg - PACKET_FIXED_HDR - 1)).

Record split_into (from : str) (payload : bytes) (max_dg : Z) (frags chunks : list bytes) : Prop := {
  sp_frags : frags = fragments_of (encode_addr_bytes from) (zlen chunks) chunks;
  sp_payload : concat chunks = payload;
  sp_count : 1 <= zlen chunks <= 255;
  sp_chunk : Forall (fun c => zlen c < 65536) chunks;
  sp_fits : Forall (fun f => zlen f <= max_dg) frags }.

Lemma div_ceil_le a b n : 1 <= b -> 0 <= n -> div_ceil a b <= n <-> a <= n * b.
Proof.
  intros Hb Hn. unfold div_ceil. split.
  - intros H. destruct (Z.le_gt_cases a (n * b)) as [|Hg]; [done|]. assert (n + 1 <= (a + b - 1) / b) by (apply Z.div_le_lower_bound; lia). lia.
  - intros H. assert ((a + b - 1) / b < n + 1) by (apply Z.div_lt_upper_bound; lia). lia.
Qed.

Lemma fragments_fit addr total c chunks max_dg :
  PACKET_FIXED_HDR + zlen addr + zlen c <= max_dg -> Forall (fun c => PACKET_FIXED_HDR + 1 + zlen c <= max_dg) chunks ->
  Forall (fun f => zlen f <= max_dg) (fragments_of addr total (c :: chunks)).
Proof.
  intros H1 H2. unfold fragments_of. cbn [imap]. constructor; [rewrite build_single_length; cbn [default]; unfold id; lia|].
  apply Forall_lookup. intros j f Hj. rewrite list_lookup_imap in Hj. destruct (chunks !! j) as [x|] eqn:E; [|done]. change (Some (build_single assoc_id pkt_id total (Z.of_nat (S j)) None x) = Some f) in Hj. injection Hj as <-.
  rewrite build_single_length. cbn [default]. change (zlen [ADDR_NONE]) with 1. apply (proj1 (Forall_lookup _ _) H2 j x E).
Qed.

Lemma build_packet_fragments_ok from payload max_dg : max_dg < 65536 ->
  exists frags, build_packet_fragments assoc_id pkt_id from payload max_dg = Some frags /\
    ((sendable (zlen (encode_addr_bytes from)) (zlen payload) max_dg /\ exists chunks, split_into from payload max_dg frags chunks) \/
     (~ sendable (zlen (encode_addr_bytes from)) (zlen payload) max_dg /\ frags = [])).
Proof.
  intros Hmax. unfold build_packet_fragments. set (addr := encode_addr_bytes from). unfold sendable. pose proof (zlen_nonneg payload). pose proof (zlen_nonneg addr). assert (PACKET_FIXED_HDR = 10) as EH by done.
  destruct (Z.leb_spec (PACKET_FIXED_HDR + zlen addr + zlen payload) max_dg) as [H1|H1].
  - eexists. split; [done|]. left. split; [by left|]. exists [payload]. split; [done|cbn; by rewrite app_nil_r|done|apply Forall_singleton; lia|].
    apply (fragments_fit addr 1 payload []); [done|constructor].
  - destruct (Z.leb_spec max_dg (PACKET_FIXED_HDR + zlen addr)); cbn [orb]; [eexists; split; [done|]; right; split; [lia|done]|].
    destruct (Z.leb_spec max_dg (PACKET_FIXED_HDR + 1)); [eexists; split; [done|]; right; split; [lia|done]|].
    set (fmax := max_dg - PACKET_FIXED_HDR - zlen addr). set (rmax := max_dg - PACKET_FIXED_HDR - 1). replace (Z.max 0 (zlen payload - fmax)) with (zlen payload - fmax) by lia.
    pose proof (div_ceil_le (zlen payload - fmax) rmax 254 ltac:(lia) ltac:(lia)) as Hd. destruct (Z.ltb_spec 255 (1 + div_ceil (zlen payload - fmax) rmax)) as [Hn|Hn].
    + eexists. split; [done|]. right. split; [lia|done].
    + replace (Z.min fmax (zlen payload)) with fmax by lia.
      destruct (fragments_loop_ok (1 + div_ceil (zlen payload - fmax) rmax) rmax payload (S (length payload)) ltac:(lia) 1 fmax ltac:(lia) ltac:(unfold zlen; lia) ltac:(lia) ltac:(lia)) as (chunks & -> & C1 & C2 & C3).
      cbn [mbind option_bind]. eexists. split; [done|]. left. split; [right; lia|]. exists (take (Z.to_nat fmax) payload :: chunks).
      assert (zlen (take (Z.to_nat fmax) payload) = fmax) as Ef by (unfold zlen in *; rewrite length_take; lia).
      assert (zlen (take (Z.to_nat fmax) payload :: chunks) = 1 + div_ceil (zlen payload - fmax) rmax) as En by (rewrite zlen_cons; lia).
      assert (build_single assoc_id pkt_id (1 + div_ceil (zlen payload - fmax) rmax) 0 (Some addr) (take (Z.to_nat fmax) payload) :: imap (fun j c => build_single assoc_id pkt_id (1 + div_ceil (zlen payload - fmax) rmax) (1 + Z.of_nat j) None c) chunks =
        fragments_of addr (1 + div_ceil (zlen payload - fmax) rmax) (take (Z.to_nat fmax) payload :: chunks)) as Efr.
      { unfold fragments_of. cbn [imap]. f_equal. apply imap_ext. intros j c _. unfold compose. f_equal. lia. }
      split; [fold addr; by rewrite En, <- Efr|cbn; by rewrite C1, take_drop|pose proof (zlen_nonneg chunks); rewrite zlen_cons in En |- *; lia| |].
      * constructor; [lia|]. eapply Forall_impl; [exact C3|]. cbn. lia.
      * rewrite Efr. apply fragments_fit; [lia|]. eapply Forall_impl; [exact C3|]. cbn. lia.
Qed.

(** ** A fragment arrives *)

Hypothesis assoc_ok : 0 <= assoc_id < 65536.
Hypothesis pkt_ok : 0 <= pkt_id < 65536.

Lemma handle_fragment asm now from total frag_id chunk (first : bool) :
  source_ok from -> 1 <= total <= 255 -> 0 <= frag_id < total -> zlen chunk < 65536 ->
  handle_packet_bytes asm now (build_single assoc_id pkt_id total frag_id (if first then Some (encode_addr_bytes from) else None) chunk) =
  (let addr := if first then addr_of from else NoAddr in
   if total =? 1 then (Some (Deliver assoc_id (format_addr addr) chunk), asm)
   else match accept asm now assoc_id pkt_id frag_id total addr chunk with
        | (Some (t, full), asm) => (Some (Deliver assoc_id t full), asm)
        | (None, asm) => (Some Pending, asm)
        end).
Proof.
  intros Hs Ht Hi Hc. unfold build_single. pose proof (zlen_nonneg chunk).
  assert (u16 (zlen chunk) = zlen chunk) as -> by (apply Z.mod_small; change (2 ^ 16) with 65536; lia).
  destruct (get_put_u16 assoc_id (put_u16 pkt_id ++ [total; frag_id] ++ put_u16 (zlen chunk) ++ default [ADDR_NONE] (if first then Some (encode_addr_bytes from) else None) ++ chunk) assoc_ok) as (a0 & a1 & -> & Ha).
  destruct (get_put_u16 pkt_id ([total; frag_id] ++ put_u16 (zlen chunk) ++ default [ADDR_NONE] (if first then Some (encode_addr_bytes from) else None) ++ chunk) pkt_ok) as (p0 & p1 & -> & Hp).
  destruct (get_put_u16 (zlen chunk) (default [ADDR_NONE] (if first then Some (encode_addr_bytes from) else None) ++ chunk) ltac:(lia)) as (s0 & s1 & -> & Hz).
  cbn [app handle_packet_bytes]. change (TUIC_VER =? TUIC_VER) with true. change (CMD_PACKET =? CMD_HEARTBEAT) with false. change (CMD_PACKET =? CMD_PACKET) with true. cbn [negb].
  rewrite (proj2 (Z.eqb_neq total 0)), (proj2 (Z.leb_gt total frag_id)) by lia. cbn [orb].
  assert (read_addr_sync (default [ADDR_NONE] (if first then Some (encode_addr_bytes from) else None) ++ chunk) = Some (if first then addr_of from else NoAddr, chunk)) as ->.
  { destruct first; [by apply read_encode_addr|done]. }
  rewrite Ha, Hp, Hz, Z.ltb_irrefl. unfold zlen. rewrite Nat2Z.id, firstn_all. done.
Qed.

End fragments.

(** ** Reassembly *)

Fixpoint handle_all (asm : FragAssembler) (arrivals : list (Z * bytes)) : list (option outcome_of_packet) * FragAssembler :=
  match arrivals with
  | [] => ([], asm)
  | (now, data) :: l => let '(o, asm) := handle_packet_bytes asm now data in let '(os, asm) := handle_all asm l in (o :: os, asm)
  end.

Section reassembly.
Context (assoc_id pkt_id : Z) (from : str) (chunks : list bytes).
Hypothesis assoc_ok : 0 <= assoc_id < 65536.
Hypothesis pkt_ok : 0 <= pkt_id < 65536.
Hypothesis from_ok : source_ok from.
Hypothesis many : 2 <= zlen chunks <= 255.
Hypothesis small : Forall (fun c => zlen c < 65536) chunks.

Abbreviation key := (assoc_id, pkt_id).

(** The buffer that has seen the fragments of [s] *)
Definition buffer_of (s : gset nat) (t : Z) : FragBuffer :=
  mkBuffer (imap (fun j c => if decide (j ∈ s) then Some c else None) chunks) (if decide (O ∈ s) then Some (format_addr (addr_of from)) else None) (Z.of_nat (size s)) t.

Definition frag_addr (j : nat) : Addr := match j with O => addr_of from | S _ => NoAddr end.

Lemma parts_lookup (s : gset nat) j c : chunks !! j = Some c -> imap (fun j c => if decide (j ∈ s) then Some c else None) chunks !! j = Some (if decide (j ∈ s) then Some c else None).
Proof. intros H. by rewrite list_lookup_imap, H. Qed.

Lemma parts_insert (s : gset nat) j c : chunks !! j = Some c ->
  <[j := Some c]> (imap (fun j c => if decide (j ∈ s) then Some c else None) chunks) = imap (fun j' c => if decide (j' ∈ {[j]} ∪ s) then Some c else None) chunks.
Proof.
  intros H. apply list_eq. intros i. destruct (decide (i = j)) as [->|Hi].
  - rewrite list_lookup_insert_eq by (rewrite length_imap; by eapply lookup_lt_Some). rewrite list_lookup_imap, H. cbn. by rewrite decide_True by set_solver.
  - rewrite list_lookup_insert_ne by done. rewrite !list_lookup_imap. destruct (chunks !! i); [|done]. cbn. f_equal. destruct (decide (i ∈ s)); [rewrite decide_True by set_solver|rewrite decide_False by set_solver]; done.
Qed.

Lemma parts_all (s : gset nat) : (forall j, (j < length chunks)%nat -> j ∈ s) -> join_parts (imap (fun j c => if decide (j ∈ s) then Some c else None) chunks) = concat chunks.
Proof.
  intros H. unfold join_parts. f_equal. apply list_eq. intros i. rewrite list_lookup_fmap, list_lookup_imap. destruct (chunks !! i) as [c|] eqn:E; [|done]. cbn.
  rewrite decide_True; [done|]. apply H. by eapply lookup_lt_Some.
Qed.

Lemma empty_buffer t : buffer_new (zlen chunks) t = buffer_of ∅ t.
Proof.
  unfold buffer_new, buffer_of. rewrite size_empty. f_equal. unfold zlen. rewrite Nat2Z.id. apply list_eq. intros i. rewrite list_lookup_imap.
  destruct (chunks !! i) as [c|] eqn:E; [apply lookup_replicate_2; by eapply lookup_lt_Some|]. apply lookup_ge_None in E. cbn. apply lookup_ge_None. by rewrite length_replicate.
Qed.

Lemma full_set (s : gset nat) : (forall j, j ∈ s -> (j < length chunks)%nat) -> size s = length chunks -> forall j, (j < length chunks)%nat -> j ∈ s.
Proof.
  intros H1 H2 j Hj. destruct (decide (j ∈ s)) as [|Hn]; [done|]. exfalso. assert ({[j]} ∪ s ⊆ set_seq 0 (length chunks)) as Hs.
  { intros i [->%elem_of_singleton|Hi]%elem_of_union; apply elem_of_set_seq; [lia|]. specialize (H1 i Hi). lia. }
  apply subseteq_size in Hs. rewrite size_union, size_singleton in Hs by set_solver. rewrite size_set_seq in Hs. lia.
Qed.

(** What one fragment does; the buffer is not stale *)
Definition present (asm : FragAssembler) (now : Z) (s : gset nat) (t : Z) : Prop :=
  (asm !! key = Some (buffer_of s t) /\ now <= t + FRAG_TTL) \/ (asm !! key = None /\ s = ∅ /\ t = now).

Lemma gc_present asm now s t : present asm now s t -> default (buffer_new (zlen chunks) now) (gc_at asm now !! key) = buffer_of s t.
Proof.
  unfold present, gc_at. intros [[H Ht]|(H & -> & ->)].
  - destruct (Z.ltb_spec now FRAG_TTL); [by rewrite H|]. assert (base.filter (fun e => now - FRAG_TTL <= first_seen e.2) asm !! key = Some (buffer_of s t)) as ->; [|done].
    apply map_lookup_filter_Some. split; [done|]. cbn. lia.
  - destruct (now <? FRAG_TTL); [rewrite H; cbn; by rewrite empty_buffer|]. assert (base.filter (fun e => now - FRAG_TTL <= first_seen e.2) asm !! key = None) as ->; [|cbn; by rewrite empty_buffer].
    apply map_lookup_filter_None. by left.
Qed.

Lemma accept_ok asm now s t j c : present asm now s t -> chunks !! j = Some c -> (forall i, i ∈ s -> (i < length chunks)%nat) ->
  let '(r, asm') := accept asm now assoc_id pkt_id (Z.of_nat j) (zlen chunks) (frag_addr j) c in
  if decide (j ∈ s) then r = None /\ asm' !! key = Some (buffer_of s t)
  else if decide (size ({[j]} ∪ s : gset nat) = length chunks) then r = Some (format_addr (addr_of from), concat chunks) /\ asm' !! key = None
  else r = None /\ asm' !! key = Some (buffer_of ({[j]} ∪ s) t).
Proof.
  intros Hp Hc Hs. unfold accept. cbn zeta. rewrite (gc_present _ _ _ _ Hp). cbn [parts buffer_of received target first_seen].
  assert (zlen (imap (fun j c => if decide (j ∈ s) then Some c else None) chunks) = zlen chunks) as -> by (unfold zlen; by rewrite length_imap). rewrite Z.eqb_refl. cbn [negb].
  rewrite Nat2Z.id, (parts_lookup s j c Hc). destruct (decide (j ∈ s)) as [Hj|Hj]; [split; [done|by rewrite lookup_insert_eq]|]. rewrite (parts_insert s j c Hc).
  assert (Z.of_nat (size s) + 1 = Z.of_nat (size ({[j]} ∪ s : gset nat))) as -> by (rewrite size_union, size_singleton by set_solver; lia).
  assert ((match (if decide (O ∈ s) then Some (format_addr (addr_of from)) else None) with None => match frag_addr j with NoAddr => None | _ => Some (format_addr (frag_addr j)) end | Some t => Some t end) =
          (if decide (O ∈ {[j]} ∪ s) then Some (format_addr (addr_of from)) else None)) as ->.
  { destruct (decide (O ∈ s)) as [H0|H0]; [by rewrite decide_True by set_solver|]. destruct j as [|j]; cbn [frag_addr].
    - rewrite decide_True by set_solver. unfold addr_of. destruct (host_port from). destruct (parse_ipv4 _); [done|]. by destruct (parse_ipv6 _).
    - by rewrite decide_False by set_solver. }
  destruct (Z.eqb_spec (Z.of_nat (size ({[j]} ∪ s : gset nat))) (zlen chunks)) as [E|E]; cbn [negb].
  - assert (size ({[j]} ∪ s : gset nat) = length chunks) as Es by (unfold zlen in E; lia). rewrite decide_True by done.
    assert (forall i, (i < length chunks)%nat -> i ∈ {[j]} ∪ s) as Ha.
    { apply full_set; [|done]. intros i [->%elem_of_singleton|Hi]%elem_of_union; [by eapply lookup_lt_Some|by apply Hs]. }
    split; [|by rewrite lookup_delete_eq]. rewrite (parts_all _ Ha). rewrite decide_True; [done|]. apply Ha. unfold zlen in many. lia.
  - rewrite decide_False by (unfold zlen in E; lia). split; [done|]. by rewrite lookup_insert_eq.
Qed.

(** Fragment [j] as it arrives *)
Definition fragment (j : nat) : bytes := default [] (fragments_of assoc_id pkt_id (encode_addr_bytes from) (zlen chunks) chunks !! j).

Lemma handle_arrival asm now s t j : present asm now s t -> (j < length chunks)%nat -> (forall i, i ∈ s -> (i < length chunks)%nat) ->
  let '(o, asm') := handle_packet_bytes asm now (fragment j) in
  if decide (j ∈ s) then o = Some Pending /\ asm' !! key = Some (buffer_of s t)
  else if decide (size ({[j]} ∪ s : gset nat) = length chunks) then o = Some (Deliver assoc_id (format_addr (addr_of from)) (concat chunks)) /\ asm' !! key = None
  else o = Some Pending /\ asm' !! key = Some (buffer_of ({[j]} ∪ s) t).
Proof.
  intros Hp Hj Hs. destruct (lookup_lt_is_Some_2 _ _ Hj) as [c Hc]. pose proof (accept_ok asm now s t j c Hp Hc Hs) as H.
  assert (fragment j = build_single assoc_id pkt_id (zlen chunks) (Z.of_nat j) (if (match j with O => true | S _ => false end) then Some (encode_addr_bytes from) else None) c) as ->.
  { unfold fragment, fragments_of. rewrite list_lookup_imap, Hc. cbn [fmap option_fmap option_map default]. by destruct j. }
  rewrite handle_fragment; [|done|done|done|lia|unfold zlen; lia|by apply (proj1 (Forall_lookup _ _) small j c)]. cbn zeta. rewrite (proj2 (Z.eqb_neq _ _)) by lia.
  assert ((if (match j with O => true | S _ => false end) then addr_of from else NoAddr) = frag_addr j) as -> by (by destruct j).
  destruct (accept _ _ _ _ _ _ _ _) as [r asm']. destruct (decide (j ∈ s)); [by destruct H as [-> ?]|]. destruct (decide (_ = length chunks)); by destruct H as [-> ?].
Qed.

(** Arrivals, none of which completes the packet: [last] is missing. *)
Lemma arrivals_pending last l : forall asm s t, asm !! key = Some (buffer_of s t) -> (forall i, i ∈ s -> (i < length chunks)%nat) -> last ∉ s -> (last < length chunks)%nat ->
  Forall (fun x => fst x <= t + FRAG_TTL /\ (snd x < length chunks)%nat /\ snd x <> last) l ->
  exists asm', handle_all asm ((fun x => (fst x, fragment (snd x))) <$> l) = (replicate (length l) (Some Pending), asm') /\ asm' !! key = Some (buffer_of (s ∪ list_to_set (snd <$> l)) t).
Proof.
  induction l as [|[now j] l IH]; intros asm s t Ha Hs Hl Hn Hf; [exists asm; split; [done|]; cbn; by rewrite union_empty_r_L|].
  apply Forall_cons in Hf as [(Ht & Hj & Hjl) Hf]. cbn in Ht, Hj, Hjl. rewrite fmap_cons. cbn [fst snd handle_all length replicate].
  pose proof (handle_arrival asm now s t j (or_introl (conj Ha Ht)) Hj Hs) as H. destruct (handle_packet_bytes asm now (fragment j)) as [o asm1].
  assert (o = Some Pending /\ exists s', asm1 !! key = Some (buffer_of s' t) /\ s' = {[j]} ∪ s) as (-> & s' & Ha1 & ->).
  { destruct (decide (j ∈ s)) as [Hin|Hin]; [destruct H as [-> ?]; split; [done|]; exists s; split; [done|set_solver]|].
    destruct (decide (size ({[j]} ∪ s : gset nat) = length chunks)) as [Es|Es]; [|destruct H; eauto]. exfalso.
    assert (last ∈ {[j]} ∪ s) as Hin'; [|set_solver]. apply full_set; [|done|done]. intros i [->%elem_of_singleton|Hi]%elem_of_union; [done|by apply Hs]. }
  destruct (IH asm1 ({[j]} ∪ s) t Ha1) as (asm' & E & Ha'); [intros i [->%elem_of_singleton|Hi]%elem_of_union; [done|by apply Hs]|set_solver|done|done|].
  exists asm'. rewrite E. split; [done|]. rewrite Ha'. do 2 f_equal. rewrite fmap_cons. cbn. set_solver.
Qed.

Lemma handle_all_app l1 : forall asm l2, handle_all asm (l1 ++ l2) = let '(o1, asm) := handle_all asm l1 in let '(o2, asm) := handle_all asm l2 in (o1 ++ o2, asm).
Proof.
  induction l1 as [|[now d] l1 IH]; intros asm l2; cbn [app handle_all]; [by destruct (handle_all asm l2)|].
  destruct (handle_packet_bytes asm now d) as [o asm1]. rewrite IH. destruct (handle_all asm1 l1) as [o1 asm2]. by destruct (handle_all asm2 l2).
Qed.

(** All fragments in any order, with repetitions *)
Lemma reassembled asm t0 j0 l now last : asm !! key = None ->
  Forall (fun x => fst x <= t0 + FRAG_TTL /\ (snd x < length chunks)%nat) ((t0, j0) :: l ++ [(now, last)]) -> last ∉ j0 :: (snd <$> l) ->
  (forall j, (j < length chunks)%nat -> j ∈ j0 :: (snd <$> l) ++ [last]) ->
  exists asm', handle_all asm ((fun x => (fst x, fragment (snd x))) <$> (t0, j0) :: l ++ [(now, last)]) =
    (replicate (S (length l)) (Some Pending) ++ [Some (Deliver assoc_id (format_addr (addr_of from)) (concat chunks))], asm') /\ asm' !! key = None.
Proof.
  intros Ha Hf Hl Hall. apply Forall_cons in Hf as [[_ H0] Hf]. apply Forall_app in Hf as [Hf Hn]. apply Forall_inv in Hn as [Hnow Hlast]. cbn in H0, Hnow, Hlast. apply not_elem_of_cons in Hl as [Hl0 Hl].
  rewrite fmap_cons, fmap_app. cbn [fst snd handle_all].
  pose proof (handle_arrival asm t0 ∅ t0 j0 (or_intror (conj Ha (conj eq_refl eq_refl))) H0 ltac:(set_solver)) as H. destruct (handle_packet_bytes asm t0 (fragment j0)) as [o asm1].
  rewrite decide_False in H by set_solver. rewrite union_empty_r_L, size_singleton in H. rewrite decide_False in H by (unfold zlen in many; lia). destruct H as [-> Ha1].
  rewrite handle_all_app. destruct (arrivals_pending last l asm1 {[j0]} t0 Ha1) as (asm2 & -> & Ha2); [intros i ->%elem_of_singleton; done|set_solver|done| |].
  { rewrite Forall_forall in Hf |- *. intros x Hx. destruct (Hf x Hx). split_and!; [done|done|]. intros <-. apply Hl. apply list_elem_of_fmap. eauto. }
  set (s := {[j0]} ∪ list_to_set (snd <$> l) : gset nat) in *. cbn [fmap list_fmap handle_all fst snd].
  assert (forall i, i ∈ s -> (i < length chunks)%nat) as Hs.
  { intros i [->%elem_of_singleton|Hi]%elem_of_union; [done|]. apply elem_of_list_to_set, list_elem_of_fmap in Hi as (x & -> & Hx). by apply (proj1 (Forall_forall _ _) Hf x Hx). }
  pose proof (handle_arrival asm2 now s t0 last (or_introl (conj Ha2 Hnow)) Hlast Hs) as H. destruct (handle_packet_bytes asm2 now (fragment last)) as [o asm3].
  assert (last ∉ s) as Hls by (unfold s; set_solver). rewrite decide_False in H by done.
  assert (size ({[last]} ∪ s : gset nat) = length chunks) as Es.
  { rewrite <- (size_set_seq (C := gset nat) 0 (length chunks)). f_equal. apply set_eq. intros i. rewrite elem_of_set_seq. split.
    - intros [->%elem_of_singleton|Hi]%elem_of_union; [lia|]. specialize (Hs i Hi). lia.
    - intros Hi. specialize (Hall i ltac:(lia)). unfold s. clear -Hall. set_solver. }
  rewrite decide_True in H by done. destruct H as [-> Ha3]. exists asm3. split; [|done]. done.
Qed.

End reassembly.

(** ** The theorem *)

(** Arrivals of the fragments of one packet: any order, with repetitions, within the time limit
    of the first; the last one is the only one that was missing. *)
Record arrivals_ok (n : nat) (init : list (Z * nat)) (now : Z) (last : nat) : Prop := {
  ao_index : Forall (fun x => (snd x < n)%nat) (init ++ [(now, last)]);
  ao_time : Forall (fun x => fst x <= fst (default (now, last) (head init)) + FRAG_TTL) (init ++ [(now, last)]);
  ao_last : last ∉ snd <$> init;
  ao_all : forall j, (j < n)%nat -> j ∈ (snd <$> init) ++ [last] }.

Lemma single_delivered assoc_id pkt_id from payload asm now :
  0 <= assoc_id < 65536 -> 0 <= pkt_id < 65536 -> source_ok from -> zlen payload < 65536 ->
  handle_packet_bytes asm now (build_single assoc_id pkt_id 1 0 (Some (encode_addr_bytes from)) payload) = (Some (Deliver assoc_id (format_addr (addr_of from)) payload), asm).
Proof. intros Ha Hp Hs Hz. by rewrite (handle_fragment assoc_id pkt_id Ha Hp asm now from 1 0 payload true) by (done || lia). Qed.

Lemma build_packet_datagram_single assoc_id pkt_id from payload : build_packet_datagram assoc_id pkt_id from payload = build_single assoc_id pkt_id 1 0 (Some (encode_addr_bytes from)) payload.
Proof. unfold build_packet_datagram, build_single, encode_addr_bytes. by destruct (host_port from). Qed.

(** The receiver of a packet that is not split delivers it at once. *)
Lemma packet_datagram_delivered assoc_id pkt_id from payload asm now :
  0 <= assoc_id < 65536 -> 0 <= pkt_id < 65536 -> source_ok from -> zlen payload < 65536 ->
  handle_packet_bytes asm now (build_packet_datagram assoc_id pkt_id from payload) = (Some (Deliver assoc_id (format_addr (addr_of from)) payload), asm).
Proof. intros. rewrite build_packet_datagram_single. by apply single_delivered. Qed.

(** C16: A UDP payload and its source are split into TUIC packets that fit the datagrams, and
    nothing is sent exactly when even 255 of them cannot hold it.  When all packets arrive, in
    any order and with repetitions, within 30 seconds, the receiver answers Pending to all but
    the last, then delivers the payload once with the source's address, and forgets it. *)
Theorem tuic_roundtrip assoc_id pkt_id from payload max_dg :
  0 <= assoc_id < 65536 -> 0 <= pkt_id < 65536 -> source_ok from -> max_dg < 65536 ->
  exists frags, build_packet_fragments assoc_id pkt_id from payload max_dg = Some frags /\ Forall (fun f => zlen f <= max_dg) frags /\
    (frags = [] <-> ~ sendable (zlen (encode_addr_bytes from)) (zlen payload) max_dg) /\
    forall (asm : FragAssembler) init now last, frags <> [] -> asm !! (assoc_id, pkt_id) = None -> arrivals_ok (length frags) init now last ->
      exists asm', handle_all asm ((fun x => (fst x, default [] (frags !! snd x))) <$> init ++ [(now, last)]) =
        (replicate (length init) (Some Pending) ++ [Some (Deliver assoc_id (format_addr (addr_of from)) payload)], asm') /\ asm' !! (assoc_id, pkt_id) = None.
Proof.
  intros Ha Hp Hs Hm. destruct (build_packet_fragments_ok assoc_id pkt_id from payload max_dg Hm) as (frags & -> & [[Hsend (chunks & [-> <- Hc Hsm Hfit])]|[Hno ->]]); eexists; (split; [done|]).
  2: { split; [constructor|]. split; [done|]. by intros. }
  split; [done|]. assert (fragments_of assoc_id pkt_id (encode_addr_bytes from) (zlen chunks) chunks <> []) as Hne by (destruct chunks; [unfold zlen in Hc; cbn [length] in Hc; lia|done]).
  split; [done|]. intros asm init now last _ Hk [A1 A2 A3 A4]. unfold fragments_of in A1, A4. rewrite length_imap in A1, A4. change (imap _ chunks) with (fragments_of assoc_id pkt_id (encode_addr_bytes from) (zlen chunks) chunks).
  destruct init as [|[t0 j0] l].
  - assert (exists c, chunks = [c]) as [c ->].
    { destruct chunks as [|c [|d chunks]]; [unfold zlen in Hc; cbn [length] in Hc; lia|eauto|]. exfalso. pose proof (A4 O ltac:(cbn; lia)) as B0. pose proof (A4 1%nat ltac:(cbn; lia)) as B1. cbn in B0, B1. rewrite list_elem_of_singleton in B0, B1. lia. }
    apply Forall_inv in A1. cbn in A1. assert (last = O) as -> by lia. apply Forall_inv in Hsm. exists asm. split; [|done]. cbn [app fmap list_fmap fst snd handle_all]. change (zlen [c]) with 1.
    change (default [] (fragments_of assoc_id pkt_id (encode_addr_bytes from) 1 [c] !! O)) with (build_single assoc_id pkt_id 1 0 (Some (encode_addr_bytes from)) c).
    rewrite single_delivered by done. cbn. by rewrite app_nil_r.
  - destruct (decide (2 <= zlen chunks)) as [H2|H2].
    + apply (reassembled assoc_id pkt_id from chunks Ha Hp Hs ltac:(lia) Hsm asm t0 j0 l now last Hk); [|done|done].
      rewrite Forall_forall in A1, A2 |- *. intros x Hx. split; [by apply A2|by apply A1].
    + exfalso. apply Forall_cons in A1 as [B0 B1]. apply Forall_app in B1 as [_ B1]. apply Forall_inv in B1. cbn in B0, B1. unfold zlen in H2. apply A3. assert (last = j0) as -> by lia. left.
Qed.

(** "1.2.3.4:53" *)
Definition sample_from : str := show_socket (mkSocket (V4 0x01020304) 53).
Definition sample_payload : bytes := replicate 40 7.

Lemma tuic_roundtrip_witness :
  (length <$> build_packet_fragments 1 2 sample_from sample_payload 30) = Some 3%nat /\
  exists frags, build_packet_fragments 1 2 sample_from sample_payload 30 = Some frags /\ (frags = [] <-> ~ sendable (zlen (encode_addr_bytes sample_from)) (zlen sample_payload) 30).
Proof.
  split; [vm_compute; reflexivity|].
  destruct (tuic_roundtrip 1 2 sample_from sample_payload 30) as (frags & H1 & _ & H2 & _); [lia|lia| |lia|exists frags; split; [exact H1|exact H2]].
  split; [unfold is_char; apply (bool_decide_unpack _); vm_compute; exact I|vm_compute; discriminate].
Defined.

(** ** Two packets with one identifier *)

(** The identifier of a packet is counted per target (lib.rs 665), the reassembly looks it up per
    association: the halves of two packets from different targets make one packet. *)
Definition target_a : str := show_socket (mkSocket (V4 0x01020304) 53).
Definition target_b : str := show_socket (mkSocket (V4 0x05060708) 53).
Definition halves (from : str) (x : Z) : list bytes := default [] (build_packet_fragments 1 1 from (replicate 20 x) 30).

Example packets_of_two_targets_mix :
  fst (handle_all ∅ [(0, default [] (halves target_a 170 !! O)); (1, default [] (halves target_b 187 !! 1%nat))]) =
  [Some Pending; Some (Deliver 1 target_a (replicate 13 170 ++ replicate 7 187))].
Proof. vm_compute. reflexivity. Qed.

End TuicFrag.
