(* ===== verification/Protocol.v ===== *)
(** * The wire protocol (crates/tp-core/src/protocol.rs, p2p_codec.rs, p2p_types.rs)

    Every message between client, peer and gateway: how it is written ([pack]), how a frame is
    read ([unpack_bytes]), and the two ways a TCP flow is opened on a stream of its own.  A
    reader takes what is left of the frame behind the position of the source and returns the
    value with what is left then. *)

From Stdlib Require Import ZArith Lia.
From stdpp Require Import base list numbers.
From S2P Require Import Prelude CBytes RustStd.
Import list_basics.list list_relations.list list_monad.list list_misc.list.
Import RustStd.

Module Protocol.

Definition PROTOCOL_VERSION : Z := 4.
Definition MAX_P2P_SIGNED_BODY_V2 : Z := 64 * 1024.
Definition MAX_ENCRYPTED_PEER_CONTROL_V2_SEALED : Z := 64 * 1024.
Definition TCP_FLOW_STREAM_PREFACE_VERSION : Z := 1.
Definition TCP_FLOW_OPEN_V2_VERSION : Z := 2.
Definition CONN_ID_SIZE : nat := 12.
Definition SESSION_ID_SIZE : nat := 16.
Definition CERT_FP_SIZE : nat := 32.

(** ** Data *)

(** [BadUtf8] without the position that only the message of the error shows *)
Inductive ProtoError := TooShort (n : Z) | BadVersion (v : Z) | BadType (v : Z) | BadLength | BadUtf8.

Inductive MsgType :=
| TConnect | TConnectResponse | TClose | TAuth | TAuthResponse | TError | THeartbeat | THeartbeatAck | TData | TUdpData | TUdpFragment
| TP2pAnnounce | TP2pAnnounceAck | TP2pOffer | TP2pAnswer | TP2pPunchSync | TP2pProbe | TP2pProbeAck | TP2pSessionReady | TP2pTeardown
| TP2pPeerHint | TRelayRouteBind | TRelayRouteBindAck | TAuthV2Challenge | TAuthV2Proof | TP2pOfferV2 | TP2pAnswerV2 | TEncryptedPeerControlV2.

(** [ty as u8] *)
Definition MsgType_as_u8 (ty : MsgType) : Z :=
  match ty with
  | TConnect => 0x01 | TConnectResponse => 0x02 | TClose => 0x03 | TAuth => 0x06 | TAuthResponse => 0x07 | TError => 0x08
  | THeartbeat => 0x09 | THeartbeatAck => 0x0A | TData => 0x10 | TUdpData => 0x11 | TUdpFragment => 0x12
  | TP2pAnnounce => 0x20 | TP2pAnnounceAck => 0x21 | TP2pOffer => 0x22 | TP2pAnswer => 0x23 | TP2pPunchSync => 0x24
  | TP2pProbe => 0x25 | TP2pProbeAck => 0x26 | TP2pSessionReady => 0x27 | TP2pTeardown => 0x28 | TP2pPeerHint => 0x29
  | TRelayRouteBind => 0x2A | TRelayRouteBindAck => 0x2B | TAuthV2Challenge => 0x2C | TAuthV2Proof => 0x2D
  | TP2pOfferV2 => 0x2E | TP2pAnswerV2 => 0x2F | TEncryptedPeerControlV2 => 0x30
  end.

Definition MsgType_from_u8 (v : Z) : option MsgType :=
  match v with
  | 0x01 => Some TConnect | 0x02 => Some TConnectResponse | 0x03 => Some TClose | 0x06 => Some TAuth | 0x07 => Some TAuthResponse
  | 0x08 => Some TError | 0x09 => Some THeartbeat | 0x0A => Some THeartbeatAck | 0x10 => Some TData | 0x11 => Some TUdpData
  | 0x12 => Some TUdpFragment | 0x20 => Some TP2pAnnounce | 0x21 => Some TP2pAnnounceAck | 0x22 => Some TP2pOffer
  | 0x23 => Some TP2pAnswer | 0x24 => Some TP2pPunchSync | 0x25 => Some TP2pProbe | 0x26 => Some TP2pProbeAck
  | 0x27 => Some TP2pSessionReady | 0x28 => Some TP2pTeardown | 0x29 => Some TP2pPeerHint | 0x2A => Some TRelayRouteBind
  | 0x2B => Some TRelayRouteBindAck | 0x2C => Some TAuthV2Challenge | 0x2D => Some TAuthV2Proof | 0x2E => Some TP2pOfferV2
  | 0x2F => Some TP2pAnswerV2 | 0x30 => Some TEncryptedPeerControlV2
  | _ => None
  end.

Record TransportCapabilities := mkCapabilities { route_bind_control_v1 : bool; tcp_flow_stream_v1 : bool; relay_source_attestation_v1 : bool; peer_mesh_v2 : bool }.

Definition capabilities_default : TransportCapabilities := mkCapabilities false false false false.

Definition flags (c : TransportCapabilities) : Z :=
  let f := 0 in
  let f := if route_bind_control_v1 c then Z.lor f 0x01 else f in
  let f := if tcp_flow_stream_v1 c then Z.lor f 0x02 else f in
  let f := if relay_source_attestation_v1 c then Z.lor f 0x04 else f in
  if peer_mesh_v2 c then Z.lor f 0x08 else f.

Definition from_flags (f : Z) : TransportCapabilities :=
  mkCapabilities (negb (Z.land f 0x01 =? 0)) (negb (Z.land f 0x02 =? 0)) (negb (Z.land f 0x04 =? 0)) (negb (Z.land f 0x08 =? 0)).

Inductive NatHint := Unknown | FullCone | Restricted | PortRestricted | Symmetric.

Definition NatHint_as_u8 (h : NatHint) : Z :=
  match h with Unknown => 0 | FullCone => 1 | Restricted => 2 | PortRestricted => 3 | Symmetric => 4 end.
Definition NatHint_from_u8 (v : Z) : option NatHint :=
  match v with 0 => Some Unknown | 1 => Some FullCone | 2 => Some Restricted | 3 => Some PortRestricted | 4 => Some Symmetric | _ => None end.

Inductive CandidateKind := Host | ServerReflexive.

Definition CandidateKind_as_u8 (k : CandidateKind) : Z := match k with Host => 1 | ServerReflexive => 2 end.
Definition CandidateKind_from_u8 (v : Z) : option CandidateKind := match v with 1 => Some Host | 2 => Some ServerReflexive | _ => None end.

Record Candidate := mkCandidate { c_ip : str; c_port : Z; c_kind : CandidateKind }.

Inductive P2pRole := Initiator | Acceptor.

Definition P2pRole_as_u8 (r : P2pRole) : Z := match r with Initiator => 1 | Acceptor => 2 end.
Definition P2pRole_from_u8 (v : Z) : option P2pRole := match v with 1 => Some Initiator | 2 => Some Acceptor | _ => None end.

Inductive TeardownReason := Idle | HealthFail | User | FatalError.

Definition TeardownReason_as_u8 (r : TeardownReason) : Z := match r with Idle => 1 | HealthFail => 2 | User => 3 | FatalError => 4 end.
Definition TeardownReason_from_u8 (v : Z) : option TeardownReason :=
  match v with 1 => Some Idle | 2 => Some HealthFail | 3 => Some User | 4 => Some FatalError | _ => None end.

Inductive ClientRoleConfig := Client | App.

Record PublicPeerMembershipV2 := mkMembership { m_tunnel_id : str; m_peer_id : str; m_overlay_ip : Z; m_peer_public_key : str; m_membership_signature : str }.

(** Session ids, fingerprints and challenges are arrays of bytes. *)
Inductive BinaryMessage :=
| Connect (conn_id network address : str)
| ConnectResponse (conn_id : str) (success : bool) (error : str)
| Close (conn_id : str)
| Auth (tunnel_id client_id group_id username password group_password : str) (role : ClientRoleConfig) (capabilities : TransportCapabilities)
| AuthResponse (status reason : str) (capabilities : TransportCapabilities)
| Error (msg : str)
| Heartbeat (client_id : str) (timestamp : Z)
| HeartbeatAck (timestamp : Z)
| Data (conn_id : str) (payload : bytes)
| UdpData (conn_id : str) (payload : bytes)
| UdpFragment (conn_id : str) (frag_id frag_index frag_total : Z) (payload : bytes)
| P2pAnnounce (client_id group_id : str) (locals : list (str * Z)) (nat_hint : NatHint) (cert_fp : bytes)
| P2pAnnounceAck (public_ip : str) (public_port server_time_ms : Z)
| P2pOffer (session_id : bytes) (src_client_id dst_client_id : str) (candidates : list Candidate) (src_cert_fp : bytes) (role : P2pRole)
| P2pAnswer (session_id : bytes) (accepted_client_id : str) (ok : bool) (reason : str) (candidates : list Candidate) (dst_cert_fp : bytes)
| P2pPunchSync (session_id : bytes) (t_start_ms burst_count : Z) (port_offsets : list Z)
| P2pProbe (session_id : bytes) (seq sent_ms : Z)
| P2pProbeAck (session_id : bytes) (seq recv_ms : Z)
| P2pSessionReady (session_id : bytes) (rtt_us : Z) (chosen_remote_ip : str) (chosen_remote_port : Z)
| P2pTeardown (session_id : bytes) (reason : TeardownReason)
| P2pPeerHint (peer_client_id : str)
| RelayRouteBind (conn_id peer_client_id : str)
| RelayRouteBindAck (conn_id : str) (success : bool) (error : str)
| AuthV2Challenge (challenge : bytes)
| AuthV2Proof (membership : PublicPeerMembershipV2) (signature : str)
| P2pOfferV2 (source_peer_id target_peer_id : str) (signed_offer : bytes)
| P2pAnswerV2 (source_peer_id target_peer_id : str) (signed_answer : bytes)
| EncryptedPeerControlV2 (target_peer_id : str) (peerlink_session_id conn_id : bytes) (route_abort : bool) (sealed : bytes).
(** ** Writing *)

(** [put_u8], [put_u16], [put_u32], [put_i64], [put_i8] *)
Definition put (n : nat) (v : Z) : bytes := to_be n 256 v.
Definition put_bool (b : bool) : bytes := put 1 (if b then 1 else 0).

Definition write_conn_id (id : str) : bytes :=
  let src := as_bytes id in
  let n := (length src `min` CONN_ID_SIZE)%nat in
  take n src ++ replicate (CONN_ID_SIZE - n) 0.

Definition write_u16_bytes (data : bytes) : bytes := put 2 (zlen data) ++ data.
Definition write_string (s : str) : bytes := write_u16_bytes (as_bytes s).

(** A count of one byte and the first 255 elements *)
Definition write_list {A} (w : A -> bytes) (l : list A) : bytes :=
  put 1 (Z.of_nat (length l `min` 255)) ++ (take 255 l ≫= w).

Definition write_local (x : str * Z) : bytes := write_string (fst x) ++ put 2 (snd x).
Definition write_candidate (c : Candidate) : bytes := write_string (c_ip c) ++ put 2 (c_port c) ++ put 1 (CandidateKind_as_u8 (c_kind c)).

Definition role_client : str := [99; 108; 105; 101; 110; 116].
Definition role_app : str := [97; 112; 112].
Definition encode_client_role (role : ClientRoleConfig) : str := match role with Client => role_client | App => role_app end.
Definition decode_client_role (raw : str) : ClientRoleConfig := if bool_decide (trim raw = role_app) then App else Client.

Record PackedMessage := mkPacked { header : bytes; payload_of : option bytes }.

Definition total_len (p : PackedMessage) : Z := zlen (header p) + match payload_of p with Some b => zlen b | None => 0 end.
Definition to_bytes (p : PackedMessage) : bytes := match payload_of p with None => header p | Some payload => header p ++ payload end.

(** The type, the fields behind it and the payload that is kept apart *)
Definition pack_fields (msg : BinaryMessage) : MsgType * bytes * option bytes :=
  match msg with
  | Connect conn_id network address => (TConnect, write_conn_id conn_id ++ write_string network ++ write_string address, None)
  | ConnectResponse conn_id success error => (TConnectResponse, write_conn_id conn_id ++ put_bool success ++ write_string error, None)
  | Close conn_id => (TClose, write_conn_id conn_id, None)
  | Auth tunnel_id client_id group_id username password group_password role capabilities =>
      (TAuth, write_string tunnel_id ++ write_string client_id ++ write_string group_id ++ write_string username ++ write_string password ++
              write_string group_password ++ write_string (encode_client_role role) ++ put 1 (flags capabilities), None)
  | AuthResponse status reason capabilities => (TAuthResponse, write_string status ++ write_string reason ++ put 1 (flags capabilities), None)
  | Error msg => (TError, write_string msg, None)
  | Heartbeat client_id timestamp => (THeartbeat, write_string client_id ++ put 8 timestamp, None)
  | HeartbeatAck timestamp => (THeartbeatAck, put 8 timestamp, None)
  | Data conn_id payload => (TData, write_conn_id conn_id, Some payload)
  | UdpData conn_id payload => (TUdpData, write_conn_id conn_id, Some payload)
  | UdpFragment conn_id frag_id frag_index frag_total payload =>
      (TUdpFragment, write_conn_id conn_id ++ put 4 frag_id ++ put 1 frag_index ++ put 1 frag_total, Some payload)
  | P2pAnnounce client_id group_id locals nat_hint cert_fp =>
      (TP2pAnnounce, write_string client_id ++ write_string group_id ++ write_list write_local locals ++ put 1 (NatHint_as_u8 nat_hint) ++ cert_fp, None)
  | P2pAnnounceAck public_ip public_port server_time_ms => (TP2pAnnounceAck, write_string public_ip ++ put 2 public_port ++ put 8 server_time_ms, None)
  | P2pOffer session_id src_client_id dst_client_id candidates src_cert_fp role =>
      (TP2pOffer, session_id ++ write_string src_client_id ++ write_string dst_client_id ++ write_list write_candidate candidates ++ src_cert_fp ++
                  put 1 (P2pRole_as_u8 role), None)
  | P2pAnswer session_id accepted_client_id ok reason candidates dst_cert_fp =>
      (TP2pAnswer, session_id ++ write_string accepted_client_id ++ put_bool ok ++ write_string reason ++ write_list write_candidate candidates ++ dst_cert_fp, None)
  | P2pPunchSync session_id t_start_ms burst_count port_offsets =>
      (TP2pPunchSync, session_id ++ put 8 t_start_ms ++ put 1 burst_count ++ write_list (put 1) port_offsets, None)
  | P2pProbe session_id seq sent_ms => (TP2pProbe, session_id ++ put 4 seq ++ put 8 sent_ms, None)
  | P2pProbeAck session_id seq recv_ms => (TP2pProbeAck, session_id ++ put 4 seq ++ put 8 recv_ms, None)
  | P2pSessionReady session_id rtt_us chosen_remote_ip chosen_remote_port =>
      (TP2pSessionReady, session_id ++ put 4 rtt_us ++ write_string chosen_remote_ip ++ put 2 chosen_remote_port, None)
  | P2pTeardown session_id reason => (TP2pTeardown, session_id ++ put 1 (TeardownReason_as_u8 reason), None)
  | P2pPeerHint peer_client_id => (TP2pPeerHint, write_string peer_client_id, None)
  | RelayRouteBind conn_id peer_client_id => (TRelayRouteBind, write_conn_id conn_id ++ write_string peer_client_id, None)
  | RelayRouteBindAck conn_id success error => (TRelayRouteBindAck, write_conn_id conn_id ++ put_bool success ++ write_string error, None)
  | AuthV2Challenge challenge => (TAuthV2Challenge, challenge, None)
  | AuthV2Proof m signature =>
      (TAuthV2Proof, write_string (m_tunnel_id m) ++ write_string (m_peer_id m) ++ octets4 (m_overlay_ip m) ++ write_string (m_peer_public_key m) ++
                     write_string (m_membership_signature m) ++ write_string signature, None)
  | P2pOfferV2 source_peer_id target_peer_id signed_offer => (TP2pOfferV2, write_string source_peer_id ++ write_string target_peer_id, Some signed_offer)
  | P2pAnswerV2 source_peer_id target_peer_id signed_answer => (TP2pAnswerV2, write_string source_peer_id ++ write_string target_peer_id, Some signed_answer)
  | EncryptedPeerControlV2 target_peer_id peerlink_session_id conn_id route_abort sealed =>
      (TEncryptedPeerControlV2, write_string target_peer_id ++ peerlink_session_id ++ conn_id ++ put_bool route_abort, Some sealed)
  end.

Definition pack (msg : BinaryMessage) : PackedMessage :=
  let '(ty, fields, payload) := pack_fields msg in
  mkPacked (PROTOCOL_VERSION :: MsgType_as_u8 ty :: fields) payload.
(** ** Reading *)

Definition parser (A : Type) : Type := bytes -> result (A * bytes) ProtoError.

Definition pret {A} (x : A) : parser A := fun b => Ok (x, b).
Definition pfail {A} (e : ProtoError) : parser A := fun _ => Err e.
Definition pbind {A B} (m : parser A) (k : A -> parser B) : parser B :=
  fun b => match m b with Ok (x, r) => k x r | Err e => Err e end.

Notation "'let%' x := m 'in' k" := (pbind m (fun x => k))
  (at level 10, x pattern, m at level 200, k at level 200, format "'[v' 'let%'  x  :=  m  'in'  '/' k ']'") : hev_scope.

Definition read_fixed_bytes_at (n : nat) : parser bytes :=
  fun b => if zlen b <? Z.of_nat n then Err (TooShort (zlen b)) else Ok (take n b, drop n b).

Definition read_u8_at : parser Z := fun b => match b with [] => Err (TooShort 0) | x :: r => Ok (x, r) end.

(** [as i8], [i64::from_be_bytes]: the number of [w] bits as a signed one *)
Definition signed (w v : Z) : Z := if v <? 2 ^ (w - 1) then v else v - 2 ^ w.

Definition read_i8_at : parser Z := let% v := read_u8_at in pret (signed 8 v).
Definition read_u16_at : parser Z := let% raw := read_fixed_bytes_at 2 in pret (be_number 256 raw).
Definition read_u32_at : parser Z := let% raw := read_fixed_bytes_at 4 in pret (be_number 256 raw).
Definition read_i64_at : parser Z := let% raw := read_fixed_bytes_at 8 in pret (signed 64 (be_number 256 raw)).

(** [String::from_utf8(raw)?] *)
Definition string_of (raw : bytes) : parser str := match from_utf8 raw with Some s => pret s | None => pfail BadUtf8 end.

Definition read_u16_string_at : parser str :=
  let% len := read_u16_at in
  fun b => if zlen b <? len then Err BadLength else string_of (take (Z.to_nat len) b) (drop (Z.to_nat len) b).

(** The bytes before the first zero *)
Fixpoint until_zero (raw : bytes) : bytes := match raw with [] => [] | x :: r => if x =? 0 then [] else x :: until_zero r end.

Definition read_conn_id_at : parser str := let% raw := read_fixed_bytes_at CONN_ID_SIZE in string_of (until_zero raw).

Definition read_session_id : parser bytes := read_fixed_bytes_at SESSION_ID_SIZE.

(** [from_u8(read_u8_at(..)?).ok_or(BadLength)?] *)
Definition read_code {A} (from_u8 : Z -> option A) : parser A :=
  let% v := read_u8_at in match from_u8 v with Some x => pret x | None => pfail BadLength end.

Fixpoint read_times {A} (n : nat) (p : parser A) : parser (list A) :=
  match n with
  | O => pret []
  | S n => let% x := p in let% l := read_times n p in pret (x :: l)
  end.

(** [for _ in 0..count], with a count of one byte *)
Definition read_list {A} (p : parser A) : parser (list A) := let% count := read_u8_at in read_times (Z.to_nat count) p.

Definition read_local : parser (str * Z) := let% ip := read_u16_string_at in let% port := read_u16_at in pret (ip, port).

Definition read_candidate : parser Candidate :=
  let% ip := read_u16_string_at in
  let% port := read_u16_at in
  let% kind := read_code CandidateKind_from_u8 in
  pret (mkCandidate ip port kind).

Definition read_candidates : parser (list Candidate) := read_list read_candidate.

(** [frame.slice(pos..)] *)
Definition rest_of_frame : parser bytes := fun b => Ok (b, []).

Definition bounded_rest (max : Z) : parser bytes := fun b => if (zlen b =? 0) || (max <? zlen b) then Err BadLength else Ok (b, []).
Definition read_signed_body_v2 : parser bytes := bounded_rest MAX_P2P_SIGNED_BODY_V2.
Definition read_encrypted_peer_control_v2_sealed : parser bytes := bounded_rest MAX_ENCRYPTED_PEER_CONTROL_V2_SEALED.

(** [if pos < frame.len() { read } else { default }] *)
Definition if_more {A} (d : A) (p : parser A) : parser A := fun b => match b with [] => Ok (d, []) | _ => p b end.

Definition unpack_fields (ty : MsgType) : parser BinaryMessage :=
  match ty with
  | TConnect =>
      let% conn_id := read_conn_id_at in let% network := read_u16_string_at in let% address := read_u16_string_at in
      pret (Connect conn_id network address)
  | TConnectResponse =>
      let% conn_id := read_conn_id_at in let% success := read_u8_at in let% error := read_u16_string_at in
      pret (ConnectResponse conn_id (success =? 1) error)
  | TClose => let% conn_id := read_conn_id_at in pret (Close conn_id)
  | TAuth =>
      let% tunnel_id := read_u16_string_at in let% client_id := read_u16_string_at in let% group_id := read_u16_string_at in
      let% username := read_u16_string_at in let% password := read_u16_string_at in let% group_password := read_u16_string_at in
      let% role := if_more Client (let% raw := read_u16_string_at in pret (decode_client_role raw)) in
      let% capabilities := if_more capabilities_default (let% f := read_u8_at in pret (from_flags f)) in
      pret (Auth tunnel_id client_id group_id username password group_password role capabilities)
  | TAuthResponse =>
      let% status := read_u16_string_at in let% reason := read_u16_string_at in
      let% capabilities := if_more capabilities_default (let% f := read_u8_at in pret (from_flags f)) in
      pret (AuthResponse status reason capabilities)
  | TError => let% msg := read_u16_string_at in pret (Error msg)
  | THeartbeat => let% client_id := read_u16_string_at in let% timestamp := read_i64_at in pret (Heartbeat client_id timestamp)
  | THeartbeatAck => let% timestamp := read_i64_at in pret (HeartbeatAck timestamp)
  | TData => let% conn_id := read_conn_id_at in let% payload := rest_of_frame in pret (Data conn_id payload)
  | TUdpData => let% conn_id := read_conn_id_at in let% payload := rest_of_frame in pret (UdpData conn_id payload)
  | TUdpFragment =>
      let% conn_id := read_conn_id_at in let% frag_id := read_u32_at in let% frag_index := read_u8_at in let% frag_total := read_u8_at in
      let% payload := rest_of_frame in pret (UdpFragment conn_id frag_id frag_index frag_total payload)
  | TP2pAnnounce =>
      let% client_id := read_u16_string_at in let% group_id := read_u16_string_at in let% locals := read_list read_local in
      let% nat_hint := read_code NatHint_from_u8 in let% cert_fp := read_fixed_bytes_at CERT_FP_SIZE in
      pret (P2pAnnounce client_id group_id locals nat_hint cert_fp)
  | TP2pAnnounceAck =>
      let% public_ip := read_u16_string_at in let% public_port := read_u16_at in let% server_time_ms := read_i64_at in
      pret (P2pAnnounceAck public_ip public_port server_time_ms)
  | TP2pOffer =>
      let% session_id := read_session_id in let% src_client_id := read_u16_string_at in let% dst_client_id := read_u16_string_at in
      let% candidates := read_candidates in let% src_cert_fp := read_fixed_bytes_at CERT_FP_SIZE in let% role := read_code P2pRole_from_u8 in
      pret (P2pOffer session_id src_client_id dst_client_id candidates src_cert_fp role)
  | TP2pAnswer =>
      let% session_id := read_session_id in let% accepted_client_id := read_u16_string_at in let% ok := read_u8_at in
      let% reason := read_u16_string_at in let% candidates := read_candidates in let% dst_cert_fp := read_fixed_bytes_at CERT_FP_SIZE in
      pret (P2pAnswer session_id accepted_client_id (negb (ok =? 0)) reason candidates dst_cert_fp)
  | TP2pPunchSync =>
      let% session_id := read_session_id in let% t_start_ms := read_i64_at in let% burst_count := read_u8_at in
      let% port_offsets := read_list read_i8_at in pret (P2pPunchSync session_id t_start_ms burst_count port_offsets)
  | TP2pProbe => let% session_id := read_session_id in let% seq := read_u32_at in let% sent_ms := read_i64_at in pret (P2pProbe session_id seq sent_ms)
  | TP2pProbeAck => let% session_id := read_session_id in let% seq := read_u32_at in let% recv_ms := read_i64_at in pret (P2pProbeAck session_id seq recv_ms)
  | TP2pSessionReady =>
      let% session_id := read_session_id in let% rtt_us := read_u32_at in let% chosen_remote_ip := read_u16_string_at in
      let% chosen_remote_port := read_u16_at in pret (P2pSessionReady session_id rtt_us chosen_remote_ip chosen_remote_port)
  | TP2pTeardown => let% session_id := read_session_id in let% reason := read_code TeardownReason_from_u8 in pret (P2pTeardown session_id reason)
  | TP2pPeerHint => let% peer_client_id := read_u16_string_at in pret (P2pPeerHint peer_client_id)
  | TRelayRouteBind => let% conn_id := read_conn_id_at in let% peer_client_id := read_u16_string_at in pret (RelayRouteBind conn_id peer_client_id)
  | TRelayRouteBindAck =>
      let% conn_id := read_conn_id_at in let% success := read_u8_at in let% error := read_u16_string_at in
      pret (RelayRouteBindAck conn_id (negb (success =? 0)) error)
  | TAuthV2Challenge => let% challenge := read_fixed_bytes_at 32 in pret (AuthV2Challenge challenge)
  | TAuthV2Proof =>
      let% tunnel_id := read_u16_string_at in let% peer_id := read_u16_string_at in let% overlay_ip := read_fixed_bytes_at 4 in
      let% peer_public_key := read_u16_string_at in let% membership_signature := read_u16_string_at in let% signature := read_u16_string_at in
      pret (AuthV2Proof (mkMembership tunnel_id peer_id (be_number 256 overlay_ip) peer_public_key membership_signature) signature)
  | TP2pOfferV2 =>
      let% source_peer_id := read_u16_string_at in let% target_peer_id := read_u16_string_at in let% signed_offer := read_signed_body_v2 in
      pret (P2pOfferV2 source_peer_id target_peer_id signed_offer)
  | TP2pAnswerV2 =>
      let% source_peer_id := read_u16_string_at in let% target_peer_id := read_u16_string_at in let% signed_answer := read_signed_body_v2 in
      pret (P2pAnswerV2 source_peer_id target_peer_id signed_answer)
  | TEncryptedPeerControlV2 =>
      let% target_peer_id := read_u16_string_at in
      if bool_decide (trim target_peer_id = []) then pfail BadLength
      else
        let% peerlink_session_id := read_fixed_bytes_at 16 in let% conn_id := read_fixed_bytes_at 12 in let% f := read_u8_at in
        if negb (Z.land f 0xFE =? 0) then pfail BadLength
        else
          let% sealed := read_encrypted_peer_control_v2_sealed in
          pret (EncryptedPeerControlV2 target_peer_id peerlink_session_id conn_id (negb (Z.land f 0x01 =? 0)) sealed)
  end.

Definition unpack_bytes (frame : bytes) : result BinaryMessage ProtoError :=
  match frame with
  | version :: raw_ty :: fields =>
      if negb (version =? PROTOCOL_VERSION) then Err (BadVersion version)
      else
        match MsgType_from_u8 raw_ty with
        | None => Err (BadType raw_ty)
        | Some ty => match unpack_fields ty fields with Ok (m, _) => Ok m | Err e => Err e end
        end
  | _ => Err (TooShort (zlen frame))
  end.

Definition unpack (frame : bytes) : result BinaryMessage ProtoError := unpack_bytes frame.
(** ** Opening a TCP flow *)

Record TcpFlowStreamPreface := mkPreface { p_conn_id : str; p_network : str; p_address : str }.
Record TcpFlowOpenV2 := mkOpen { o_conn_id : str; o_peerlink_session_id : bytes; o_sealed_open : bytes }.

Definition pack_tcp_flow_stream_preface (p : TcpFlowStreamPreface) : bytes :=
  [TCP_FLOW_STREAM_PREFACE_VERSION] ++ write_conn_id (p_conn_id p) ++ write_string (p_network p) ++ write_string (p_address p).

Definition unpack_tcp_flow_stream_preface (frame : bytes) : result TcpFlowStreamPreface ProtoError :=
  match frame with
  | [] => Err (TooShort 0)
  | version :: rest =>
      if negb (version =? TCP_FLOW_STREAM_PREFACE_VERSION) then Err (BadVersion version)
      else
        match (let% conn_id := read_conn_id_at in let% network := read_u16_string_at in let% address := read_u16_string_at in
               pret (mkPreface conn_id network address)) rest with
        | Ok (p, []) => Ok p
        | Ok (_, _) => Err BadLength
        | Err e => Err e
        end
  end.

Definition pack_tcp_flow_open_v2 (o : TcpFlowOpenV2) : bytes :=
  [TCP_FLOW_OPEN_V2_VERSION] ++ write_conn_id (o_conn_id o) ++ o_peerlink_session_id o ++ o_sealed_open o.

Definition tcp_flow_open_route (frame : bytes) : result (Z * str) ProtoError :=
  match frame with
  | [] => Err (TooShort 0)
  | version :: rest =>
      if negb (version =? TCP_FLOW_STREAM_PREFACE_VERSION) && negb (version =? TCP_FLOW_OPEN_V2_VERSION) then Err (BadVersion version)
      else if zlen rest <? Z.of_nat CONN_ID_SIZE then Err (TooShort (zlen rest))
      else
        match from_utf8 (until_zero (take CONN_ID_SIZE rest)) with
        | Some conn_id => Ok (version, conn_id)
        | None => Err BadUtf8
        end
  end.

Definition unpack_tcp_flow_open_v2 (frame : bytes) : result TcpFlowOpenV2 ProtoError :=
  let? route := tcp_flow_open_route frame in
  let '(version, conn_id) := route in
  if negb (version =? TCP_FLOW_OPEN_V2_VERSION) then Err (BadVersion version)
  else
    match read_fixed_bytes_at 16 (drop (1 + CONN_ID_SIZE) frame) with
    | Ok (peerlink_session_id, sealed_open) => Ok (mkOpen conn_id peerlink_session_id sealed_open)
    | Err e => Err e
    end.
(** ** What a message holds when its fields have their types *)

Definition text (s : str) : Prop := Forall is_char s /\ zlen (as_bytes s) < 2 ^ 16.
Definition conn_name (s : str) : Prop := Forall is_char s /\ (length (as_bytes s) <= CONN_ID_SIZE)%nat /\ 0 ∉ s.
Definition unsigned (w v : Z) : Prop := 0 <= v < 2 ^ w.
Definition integer (w v : Z) : Prop := - 2 ^ (w - 1) <= v < 2 ^ (w - 1).
Definition array (n : nat) (b : bytes) : Prop := length b = n /\ is_bytes b.
Definition short {A} (P : A -> Prop) (l : list A) : Prop := (length l <= 255)%nat /\ Forall P l.
Definition local_ok (x : str * Z) : Prop := text (fst x) /\ unsigned 16 (snd x).
Definition candidate_ok (c : Candidate) : Prop := text (c_ip c) /\ unsigned 16 (c_port c).
Definition body (max : Z) (b : bytes) : Prop := 0 < zlen b <= max /\ is_bytes b.

Definition msg_ok (m : BinaryMessage) : Prop :=
  match m with
  | Connect conn_id network address => conn_name conn_id /\ text network /\ text address
  | ConnectResponse conn_id _ error => conn_name conn_id /\ text error
  | Close conn_id => conn_name conn_id
  | Auth tunnel_id client_id group_id username password group_password _ _ =>
      text tunnel_id /\ text client_id /\ text group_id /\ text username /\ text password /\ text group_password
  | AuthResponse status reason _ => text status /\ text reason
  | Error msg => text msg
  | Heartbeat client_id timestamp => text client_id /\ integer 64 timestamp
  | HeartbeatAck timestamp => integer 64 timestamp
  | Data conn_id payload | UdpData conn_id payload => conn_name conn_id /\ is_bytes payload
  | UdpFragment conn_id frag_id frag_index frag_total payload =>
      conn_name conn_id /\ unsigned 32 frag_id /\ unsigned 8 frag_index /\ unsigned 8 frag_total /\ is_bytes payload
  | P2pAnnounce client_id group_id locals _ cert_fp => text client_id /\ text group_id /\ short local_ok locals /\ array CERT_FP_SIZE cert_fp
  | P2pAnnounceAck public_ip public_port server_time_ms => text public_ip /\ unsigned 16 public_port /\ integer 64 server_time_ms
  | P2pOffer session_id src_client_id dst_client_id candidates src_cert_fp _ =>
      array SESSION_ID_SIZE session_id /\ text src_client_id /\ text dst_client_id /\ short candidate_ok candidates /\ array CERT_FP_SIZE src_cert_fp
  | P2pAnswer session_id accepted_client_id _ reason candidates dst_cert_fp =>
      array SESSION_ID_SIZE session_id /\ text accepted_client_id /\ text reason /\ short candidate_ok candidates /\ array CERT_FP_SIZE dst_cert_fp
  | P2pPunchSync session_id t_start_ms burst_count port_offsets =>
      array SESSION_ID_SIZE session_id /\ integer 64 t_start_ms /\ unsigned 8 burst_count /\ short (integer 8) port_offsets
  | P2pProbe session_id seq ms | P2pProbeAck session_id seq ms => array SESSION_ID_SIZE session_id /\ unsigned 32 seq /\ integer 64 ms
  | P2pSessionReady session_id rtt_us chosen_remote_ip chosen_remote_port =>
      array SESSION_ID_SIZE session_id /\ unsigned 32 rtt_us /\ text chosen_remote_ip /\ unsigned 16 chosen_remote_port
  | P2pTeardown session_id _ => array SESSION_ID_SIZE session_id
  | P2pPeerHint peer_client_id => text peer_client_id
  | RelayRouteBind conn_id peer_client_id => conn_name conn_id /\ text peer_client_id
  | RelayRouteBindAck conn_id _ error => conn_name conn_id /\ text error
  | AuthV2Challenge challenge => array 32 challenge
  | AuthV2Proof m signature =>
      text (m_tunnel_id m) /\ text (m_peer_id m) /\ unsigned 32 (m_overlay_ip m) /\ text (m_peer_public_key m) /\ text (m_membership_signature m) /\ text signature
  | P2pOfferV2 source_peer_id target_peer_id signed | P2pAnswerV2 source_peer_id target_peer_id signed =>
      text source_peer_id /\ text target_peer_id /\ body MAX_P2P_SIGNED_BODY_V2 signed
  | EncryptedPeerControlV2 target_peer_id peerlink_session_id conn_id _ sealed =>
      text target_peer_id /\ trim target_peer_id <> [] /\ array 16 peerlink_session_id /\ array 12 conn_id /\ body MAX_ENCRYPTED_PEER_CONTROL_V2_SEALED sealed
  end.

(** ** Readers undo writers *)

Definition reads {A} (p : parser A) (w : bytes) (x : A) : Prop := forall rest, p (w ++ rest) = Ok (x, rest).

(** [p] reads the whole of [w] *)
Definition takes {A} (p : parser A) (w : bytes) (x : A) : Prop := p w = Ok (x, []).

Create HintDb wire.

Lemma reads_bind {A B} (p : parser A) (k : A -> parser B) w w' x y : reads p w x -> reads (k x) w' y -> reads (pbind p k) (w ++ w') y.
Proof. intros H1 H2 rest. unfold pbind. by rewrite <- app_assoc, H1, H2. Qed.

Lemma reads_last {A B} (p : parser A) (f : A -> B) w x y : reads p w x -> f x = y -> reads (pbind p (fun x => pret (f x))) w y.
Proof. intros H <- rest. unfold pbind. by rewrite H. Qed.

Lemma takes_bind {A B} (p : parser A) (k : A -> parser B) w w' x y : reads p w x -> takes (k x) w' y -> takes (pbind p k) (w ++ w') y.
Proof. intros H1 H2. unfold takes, pbind. by rewrite H1. Qed.

Lemma takes_last {A B} (p : parser A) (f : A -> B) w x y : takes p w x -> f x = y -> takes (pbind p (fun x => pret (f x))) w y.
Proof. intros H <-. unfold takes, pbind. by rewrite H. Qed.

Lemma reads_takes {A} (p : parser A) w x : reads p w x -> takes p w x.
Proof. intros H. unfold takes. rewrite <- (app_nil_r w) at 1. apply H. Qed.

Lemma reads_if_more {A} (d : A) (p : parser A) w x : w <> [] -> reads p w x -> reads (if_more d p) w x.
Proof. intros Hw H rest. destruct w; [done|]. apply H. Qed.

Lemma reads_fixed n b : array n b -> reads (read_fixed_bytes_at n) b b.
Proof.
  intros [Hl _] rest. unfold read_fixed_bytes_at. rewrite zlen_app. pose proof (zlen_nonneg rest). unfold zlen at 1. rewrite (proj2 (Z.ltb_ge _ _)) by lia.
  by rewrite take_app_length', drop_app_length'.
Qed.

Lemma put_array n v : array n (put n v).
Proof. split; [apply to_be_length|]. eapply Forall_impl; [apply to_be_range; lia|]. done. Qed.

Lemma reads_u8 v : unsigned 8 v -> reads read_u8_at (put 1 v) v.
Proof. intros Hv rest. cbn. rewrite Z.div_1_r, Z.mod_small by done. done. Qed.

Lemma reads_put {A} n (f : Z -> A) v y : f (v mod 256 ^ Z.of_nat n) = y -> reads (let% raw := read_fixed_bytes_at n in pret (f (be_number 256 raw))) (put n v) y.
Proof. intros <-. eapply reads_last; [apply reads_fixed, put_array|]. cbn beta. unfold put. by rewrite be_to_be. Qed.

Lemma signed_mod w v : 0 < w -> integer w v -> signed w (v mod 2 ^ w) = v.
Proof.
  intros Hw [H1 H2]. unfold signed. assert (2 ^ w = 2 * 2 ^ (w - 1)) as E by (rewrite <- Z.pow_succ_r by lia; f_equal; lia).
  destruct (Z.lt_ge_cases v 0).
  - rewrite <- (Z.mod_unique_pos v (2 ^ w) (-1) (v + 2 ^ w)) by lia. rewrite (proj2 (Z.ltb_ge _ _)) by lia. lia.
  - rewrite Z.mod_small by lia. by rewrite (proj2 (Z.ltb_lt _ _)).
Qed.

Lemma reads_i8 v : integer 8 v -> reads read_i8_at (put 1 v) v.
Proof.
  intros Hv. eapply reads_last; [|apply (signed_mod 8 v); [lia|done]]. assert (put 1 v = put 1 (v mod 2 ^ 8)) as ->.
  { unfold put. cbn [to_be]. f_equal. change (256 ^ Z.of_nat 0) with 1. rewrite !Z.div_1_r. change (2 ^ 8) with 256. by rewrite Z.mod_mod by lia. }
  apply reads_u8. apply Z.mod_pos_bound. lia.
Qed.

Lemma reads_u16 v : unsigned 16 v -> reads read_u16_at (put 2 v) v.
Proof. intros Hv. apply (reads_put 2 id). by apply Z.mod_small. Qed.

Lemma reads_u32 v : unsigned 32 v -> reads read_u32_at (put 4 v) v.
Proof. intros Hv. apply (reads_put 4 id). by apply Z.mod_small. Qed.

Lemma reads_i64 v : integer 64 v -> reads read_i64_at (put 8 v) v.
Proof. intros Hv. apply (reads_put 8 (signed 64)). apply (signed_mod 64 v); [lia|done]. Qed.

#[export] Hint Resolve reads_fixed reads_u8 reads_i8 reads_u16 reads_u32 reads_i64 : wire.
Lemma reads_string s : text s -> reads read_u16_string_at (write_string s) s.
Proof.
  intros [Hc Hl] rest. unfold write_string, write_u16_bytes. rewrite <- app_assoc. unfold read_u16_string_at, pbind. pose proof (zlen_nonneg (as_bytes s)). rewrite reads_u16 by done. cbn beta iota.
  rewrite zlen_app. pose proof (zlen_nonneg rest). rewrite (proj2 (Z.ltb_ge _ _)) by lia. unfold zlen. rewrite Nat2Z.id, take_app_length, drop_app_length.
  unfold string_of. by rewrite from_utf8_as_bytes.
Qed.

Lemma until_zero_pad b n : 0 ∉ b -> until_zero (b ++ replicate n 0) = b.
Proof.
  induction b as [|x b IH]; intros H; [by destruct n|]. rewrite not_elem_of_cons in H. destruct H as [Hx Hb]. cbn. destruct (Z.eqb_spec x 0); [done|]. by rewrite IH.
Qed.

Lemma write_conn_id_ok s : conn_name s -> length (write_conn_id s) = CONN_ID_SIZE /\ until_zero (write_conn_id s) = as_bytes s.
Proof.
  intros (Hc & Hl & H0). unfold write_conn_id. rewrite Nat.min_l by done. rewrite firstn_all. split; [rewrite length_app, length_replicate; lia|].
  apply until_zero_pad. by rewrite zero_as_bytes.
Qed.

Lemma reads_conn_id s : conn_name s -> reads read_conn_id_at (write_conn_id s) s.
Proof.
  intros Hs rest. pose proof (write_conn_id_ok s Hs) as [Hl Hu]. unfold read_conn_id_at, pbind, read_fixed_bytes_at. rewrite zlen_app. pose proof (zlen_nonneg rest). unfold zlen at 1.
  rewrite (proj2 (Z.ltb_ge _ _)) by lia. rewrite take_app_length', drop_app_length', Hu by done. unfold string_of. by rewrite from_utf8_as_bytes by apply Hs.
Qed.

Lemma reads_code {A} (as_u8 : A -> Z) (from_u8 : Z -> option A) x : unsigned 8 (as_u8 x) -> from_u8 (as_u8 x) = Some x -> reads (read_code from_u8) (put 1 (as_u8 x)) x.
Proof. intros Hr Hx rest. unfold read_code, pbind. rewrite reads_u8 by done. by rewrite Hx. Qed.

Lemma reads_nat_hint x : reads (read_code NatHint_from_u8) (put 1 (NatHint_as_u8 x)) x.
Proof. by apply reads_code; destruct x. Qed.

Lemma reads_kind x : reads (read_code CandidateKind_from_u8) (put 1 (CandidateKind_as_u8 x)) x.
Proof. by apply reads_code; destruct x. Qed.

Lemma reads_p2p_role x : reads (read_code P2pRole_from_u8) (put 1 (P2pRole_as_u8 x)) x.
Proof. by apply reads_code; destruct x. Qed.

Lemma reads_reason x : reads (read_code TeardownReason_from_u8) (put 1 (TeardownReason_as_u8 x)) x.
Proof. by apply reads_code; destruct x. Qed.

Lemma reads_client_role x : reads (if_more Client (let% raw := read_u16_string_at in pret (decode_client_role raw))) (write_string (encode_client_role x)) x.
Proof.
  apply reads_if_more; [done|]. eapply reads_last; [apply reads_string|by destruct x]. destruct x; (split; [|done]); repeat (constructor; [left; lia|]); constructor.
Qed.

Lemma reads_capabilities c : reads (if_more capabilities_default (let% f := read_u8_at in pret (from_flags f))) (put 1 (flags c)) c.
Proof. apply reads_if_more; [done|]. eapply reads_last; [apply reads_u8|]; by destruct c as [[] [] [] []]. Qed.

#[export] Hint Resolve reads_string reads_conn_id reads_nat_hint reads_kind reads_p2p_role reads_reason reads_client_role reads_capabilities : wire.

Lemma reads_local x : local_ok x -> reads read_local (write_local x) x.
Proof. intros [H1 H2]. eapply reads_bind; [eauto with wire|]. eapply reads_last; [eauto with wire|by destruct x]. Qed.

Lemma reads_candidate c : candidate_ok c -> reads read_candidate (write_candidate c) c.
Proof. intros [H1 H2]. do 2 (eapply reads_bind; [eauto with wire|]). eapply reads_last; [eauto with wire|by destruct c]. Qed.

Lemma reads_times {A} (p : parser A) (w : A -> bytes) (P : A -> Prop) l :
  (forall x, P x -> reads p (w x) x) -> Forall P l -> reads (read_times (length l) p) (l ≫= w) l.
Proof.
  intros Hp. induction 1 as [|x l Hx _ IH]; [done|]. cbn [length read_times mbind list_bind]. eapply reads_bind; [by apply Hp|]. by eapply reads_last; [apply IH|].
Qed.

Lemma reads_list {A} (p : parser A) (w : A -> bytes) (P : A -> Prop) l : (forall x, P x -> reads p (w x) x) -> short P l -> reads (read_list p) (write_list w l) l.
Proof.
  intros Hp [Hl HP]. unfold read_list, write_list. rewrite Nat.min_l by done. rewrite firstn_all2 by done. eapply reads_bind; [apply reads_u8; unfold unsigned; lia|]. cbn beta. rewrite Nat2Z.id. by eapply reads_times.
Qed.

Lemma reads_candidates l : short candidate_ok l -> reads read_candidates (write_list write_candidate l) l.
Proof. apply reads_list, reads_candidate. Qed.

Lemma reads_locals l : short local_ok l -> reads (read_list read_local) (write_list write_local l) l.
Proof. apply reads_list, reads_local. Qed.

Lemma reads_offsets l : short (integer 8) l -> reads (read_list read_i8_at) (write_list (put 1) l) l.
Proof. apply reads_list, reads_i8. Qed.

Lemma reads_session_id b : array SESSION_ID_SIZE b -> reads read_session_id b b.
Proof. apply reads_fixed. Qed.

Lemma reads_bool (b : bool) : reads read_u8_at (put_bool b) (if b then 1 else 0).
Proof. apply reads_u8. by destruct b. Qed.

Lemma array_octets v : array 4 (octets4 v).
Proof. apply (put_array 4). Qed.

Lemma takes_rest b : takes rest_of_frame b b.
Proof. done. Qed.

Lemma takes_bounded max b : body max b -> takes (bounded_rest max) b b.
Proof. intros [Hb _]. unfold takes, bounded_rest. destruct (Z.eqb_spec (zlen b) 0), (Z.ltb_spec max (zlen b)); lia || done. Qed.

#[export] Hint Resolve reads_candidates reads_locals reads_offsets reads_session_id reads_bool array_octets takes_rest takes_bounded : wire.
#[export] Hint Resolve reads_takes | 5 : wire.
#[export] Hint Extern 1 (takes read_signed_body_v2 _ _) => apply takes_bounded : wire.
#[export] Hint Extern 1 (takes read_encrypted_peer_control_v2_sealed _ _) => apply takes_bounded : wire.

(** One field after the other *)
Ltac field := solve [apply reads_bool | apply reads_u8; done | eauto with wire].
Ltac wire := repeat first [eapply takes_bind; [field|cbn beta] | eapply takes_last; [field|cbn beta]].

Lemma unpack_pack_fields m : msg_ok m ->
  takes (unpack_fields (pack_fields m).1.1) ((pack_fields m).1.2 ++ default [] (pack_fields m).2) m.
Proof.
  destruct m; cbn [msg_ok pack_fields fst snd unpack_fields]; unfold default, id; intros Hm; destruct_and?; rewrite ?app_nil_r, <- ?app_assoc; wire; try done.
  - by destruct success.
  - by destruct ok.
  - by destruct success.
  - rewrite be_octets4 by done. by destruct membership.
  - rewrite bool_decide_false by done. wire. replace (Z.land _ 254 =? 0) with true by (by destruct route_abort). cbn [negb]. wire. by destruct route_abort.
Qed.

(** The payload is only kept apart: the frame has the length that is announced. *)
Lemma total_len_ok p : total_len p = zlen (to_bytes p).
Proof. destruct p as [h [b|]]; unfold total_len, to_bytes; cbn [header payload_of]; rewrite ?zlen_app; lia. Qed.

Lemma from_as_u8 ty : MsgType_from_u8 (MsgType_as_u8 ty) = Some ty.
Proof. by destruct ty. Qed.

Lemma to_bytes_pack m : to_bytes (pack m) = PROTOCOL_VERSION :: MsgType_as_u8 (pack_fields m).1.1 :: (pack_fields m).1.2 ++ default [] (pack_fields m).2.
Proof. unfold pack, to_bytes. destruct (pack_fields m) as [[ty fields] [b|]]; cbn [payload_of header fst snd]; [done|]. unfold default, id. by rewrite app_nil_r. Qed.

Lemma unpack_pack m : msg_ok m -> unpack (to_bytes (pack m)) = Ok m.
Proof.
  intros Hm. rewrite to_bytes_pack. unfold unpack, unpack_bytes. cbn [negb]. change (negb (PROTOCOL_VERSION =? PROTOCOL_VERSION)) with false. cbn iota.
  rewrite from_as_u8. by rewrite (unpack_pack_fields m Hm).
Qed.
(** ** What is read has the types of the fields *)

Definition yields {A} (p : parser A) (P : A -> Prop) : Prop := forall b x r, is_bytes b -> p b = Ok (x, r) -> P x /\ is_bytes r.

Lemma yields_ret {A} (x : A) (P : A -> Prop) : P x -> yields (pret x) P.
Proof. intros Hx b y r Hb [= <- <-]. done. Qed.

Lemma yields_fail {A} e (P : A -> Prop) : yields (pfail e) P.
Proof. done. Qed.

Lemma yields_bind {A B} (p : parser A) (k : A -> parser B) P Q : yields p P -> (forall x, P x -> yields (k x) Q) -> yields (pbind p k) Q.
Proof. intros Hp Hk b y r Hb. unfold pbind. destruct (p b) as [[x b']|] eqn:E; [|done]. destruct (Hp b x b' Hb E) as [Hx Hb']. by apply Hk. Qed.

Lemma yields_if_more {A} (d : A) (p : parser A) (P : A -> Prop) : P d -> yields p P -> yields (if_more d p) P.
Proof. intros Hd Hp b x r Hb. destruct b; [intros [= <- <-]; done|]. by apply Hp. Qed.

Lemma yields_fixed n : yields (read_fixed_bytes_at n) (array n).
Proof.
  intros b x r Hb. unfold read_fixed_bytes_at. destruct (Z.ltb_spec (zlen b) (Z.of_nat n)) as [|Hl]; [done|]. intros [= <- <-]. unfold zlen in Hl.
  split; [split; [rewrite length_take; lia|by apply Forall_take]|by apply Forall_drop].
Qed.

Lemma yields_u8 : yields read_u8_at (unsigned 8).
Proof. intros [|y b] x r Hb; [done|]. intros [= <- <-]. by apply Forall_cons in Hb. Qed.

Lemma signed_range w v : 0 < w -> unsigned w v -> integer w (signed w v).
Proof.
  intros Hw [H1 H2]. unfold signed, integer. assert (2 ^ w = 2 * 2 ^ (w - 1)) as E by (rewrite <- Z.pow_succ_r by lia; f_equal; lia). destruct (Z.ltb_spec v (2 ^ (w - 1))); lia.
Qed.

Lemma array_number n b : array n b -> unsigned (8 * Z.of_nat n) (be_number 256 b).
Proof.
  intros [Hl Hb]. assert (0 <= be_number 256 b < 256 ^ zlen b) as H by (apply be_number_range; [lia|by eapply Forall_impl]). unfold unsigned. rewrite Z.pow_mul_r by lia. unfold zlen in H. by rewrite Hl in H.
Qed.

Lemma yields_i8 : yields read_i8_at (integer 8).
Proof. eapply yields_bind; [apply yields_u8|]. intros v Hv. apply yields_ret. by apply (signed_range 8). Qed.

Lemma yields_u16 : yields read_u16_at (unsigned 16).
Proof. eapply yields_bind; [apply yields_fixed|]. intros b Hb. apply yields_ret. apply (array_number 2 b Hb). Qed.

Lemma yields_u32 : yields read_u32_at (unsigned 32).
Proof. eapply yields_bind; [apply yields_fixed|]. intros b Hb. apply yields_ret. apply (array_number 4 b Hb). Qed.

Lemma yields_i64 : yields read_i64_at (integer 64).
Proof. eapply yields_bind; [apply yields_fixed|]. intros b Hb. apply yields_ret. apply (signed_range 64); [lia|]. apply (array_number 8 b Hb). Qed.

Lemma yields_string_of raw : is_bytes raw -> yields (string_of raw) (fun s => Forall is_char s /\ as_bytes s = raw).
Proof.
  intros Hr. unfold string_of. destruct (from_utf8 raw) as [s|] eqn:E; [|apply yields_fail]. apply yields_ret. by apply and_comm, from_utf8_sound.
Qed.

Lemma yields_string : yields read_u16_string_at text.
Proof.
  eapply yields_bind; [apply yields_u16|]. intros len Hlen b s r Hb. destruct (Z.ltb_spec (zlen b) len) as [|Hl]; [done|]. intros E.
  apply yields_string_of in E as [[Hs E] Hr]; [|by apply Forall_take|by apply Forall_drop]. split; [|done]. split; [done|]. rewrite E. unfold zlen. rewrite length_take. unfold unsigned in Hlen. lia.
Qed.

Lemma until_zero_spec b : exists r, b = until_zero b ++ r /\ 0 ∉ until_zero b.
Proof.
  induction b as [|x b (r & E & H0)]; [exists []; split; [done|apply not_elem_of_nil]|]. cbn [until_zero]. destruct (Z.eqb_spec x 0); [exists (x :: b); split; [done|apply not_elem_of_nil]|].
  exists r. split; [by rewrite E at 1|]. rewrite not_elem_of_cons. done.
Qed.

Lemma yields_conn_id : yields read_conn_id_at conn_name.
Proof.
  eapply yields_bind; [apply yields_fixed|]. intros raw [Hl Hraw] b s r Hb E. destruct (until_zero_spec raw) as (z & Ez & H0). rewrite Ez in Hraw. apply Forall_app in Hraw as [Hu _].
  apply yields_string_of in E as [[Hs Es] Hr]; [|done..]. split; [|done]. split; [done|]. rewrite Es. split; [apply (f_equal length) in Ez; rewrite length_app in Ez; lia|]. by rewrite <- zero_as_bytes, Es.
Qed.

Lemma yields_code {A} (f : Z -> option A) : yields (read_code f) (fun _ => True).
Proof. eapply yields_bind; [apply yields_u8|]. intros v _. destruct (f v); [by apply yields_ret|apply yields_fail]. Qed.

#[export] Hint Resolve yields_fixed yields_u8 yields_i8 yields_u16 yields_u32 yields_i64 yields_string yields_conn_id yields_code : wire.

Lemma yields_local : yields read_local local_ok.
Proof. do 2 (eapply yields_bind; [eauto with wire|intros ? ?]). by apply yields_ret. Qed.

Lemma yields_candidate : yields read_candidate candidate_ok.
Proof. do 3 (eapply yields_bind; [eauto with wire|intros ? ?]). by apply yields_ret. Qed.

Lemma yields_times {A} (p : parser A) P n : yields p P -> yields (read_times n p) (fun l => length l = n /\ Forall P l).
Proof.
  intros Hp. induction n as [|n IH]; [by apply yields_ret|]. cbn [read_times]. eapply yields_bind; [done|]. intros x Hx. eapply yields_bind; [done|]. intros l [Hl HF]. apply yields_ret.
  split; [cbn; by rewrite Hl|by constructor].
Qed.

Lemma yields_list {A} (p : parser A) P : yields p P -> yields (read_list p) (short P).
Proof.
  intros Hp. eapply yields_bind; [apply yields_u8|]. intros n Hn b l r Hb E. destruct (yields_times p P _ Hp b l r Hb E) as [[Hl HF] Hr]. split; [|done]. split; [|done]. unfold unsigned in Hn. lia.
Qed.

Lemma yields_rest : yields rest_of_frame is_bytes.
Proof. intros b x r Hb [= <- <-]. done. Qed.

Lemma yields_bounded max : yields (bounded_rest max) (body max).
Proof.
  intros b x r Hb. unfold bounded_rest. destruct (Z.eqb_spec (zlen b) 0), (Z.ltb_spec max (zlen b)); try done. intros [= <- <-]. pose proof (zlen_nonneg b). split; [|done]. split; [lia|done].
Qed.

Lemma yields_session_id : yields read_session_id (array SESSION_ID_SIZE).
Proof. apply yields_fixed. Qed.

Lemma yields_client_role : yields (if_more Client (let% raw := read_u16_string_at in pret (decode_client_role raw))) (fun _ => True).
Proof. apply yields_if_more; [done|]. eapply yields_bind; [apply yields_string|]. intros. by apply yields_ret. Qed.

Lemma yields_capabilities : yields (if_more capabilities_default (let% f := read_u8_at in pret (from_flags f))) (fun _ => True).
Proof. apply yields_if_more; [done|]. eapply yields_bind; [apply yields_u8|]. intros. by apply yields_ret. Qed.

#[export] Hint Resolve yields_list yields_local yields_candidate yields_rest yields_session_id yields_client_role yields_capabilities : wire.
#[export] Hint Extern 1 (yields read_signed_body_v2 _) => apply yields_bounded : wire.
#[export] Hint Extern 1 (yields read_encrypted_peer_control_v2_sealed _) => apply yields_bounded : wire.
#[export] Hint Extern 1 (yields read_candidates _) => apply yields_list, yields_candidate : wire.

Ltac fields := repeat (eapply yields_bind; [solve [eauto with wire]|intros ? ?]).

Lemma unpack_fields_ok ty : yields (unpack_fields ty) msg_ok.
Proof.
  destruct ty; cbn [unpack_fields]; fields; try (apply yields_ret; cbn; by auto 10).
  - apply yields_ret. cbn. match goal with H : array 4 _ |- _ => apply array_number in H end. by auto 10.
  - case_bool_decide; [apply yields_fail|]. fields. case_match; [apply yields_fail|]. fields. apply yields_ret. cbn. by auto 10.
Qed.

Lemma unpack_ok frame m : is_bytes frame -> unpack frame = Ok m -> msg_ok m.
Proof.
  intros Hf. unfold unpack, unpack_bytes. destruct frame as [|v [|ty fields]]; [done..|]. apply Forall_cons in Hf as [_ Hf]. apply Forall_cons in Hf as [_ Hf]. destruct (negb _); [done|].
  destruct (MsgType_from_u8 ty) as [t|]; [|done]. destruct (unpack_fields t fields) as [[m' r]|] eqn:E; [|done]. intros [= <-]. by apply (unpack_fields_ok t) in E as [? _].
Qed.
(** ** A frame that is cut short *)

Definition strict_prefix (v w : bytes) : Prop := exists x t, w = v ++ x :: t.

(** Nothing is read from less than the whole of [w]. *)
Definition refuses {A} (p : parser A) (w : bytes) : Prop := forall v, strict_prefix v w -> exists e, p v = Err e.

Lemma strict_prefix_length v w : strict_prefix v w -> (length v < length w)%nat.
Proof. intros (x & t & ->). rewrite length_app. cbn. lia. Qed.

Lemma strict_prefix_app v w w' : strict_prefix v (w ++ w') -> strict_prefix v w \/ exists v', v = w ++ v' /\ strict_prefix v' w'.
Proof.
  intros (x & t & E). destruct (Nat.lt_ge_cases (length v) (length w)) as [Hl|Hl].
  - left. apply app_eq_inv in E as [(k & -> & Ek)|(k & -> & _)]; [|rewrite length_app in Hl; lia]. destruct k as [|y k]; [rewrite length_app in Hl; cbn in Hl; lia|]. cbn in Ek. injection Ek as -> ->. by exists y, k.
  - right. apply app_eq_inv in E as [(k & -> & Ek)|(k & -> & ->)]; [|exists k; split; [done|by exists x, t]].
    rewrite length_app in Hl. destruct k; [|cbn in Hl; lia]. rewrite app_nil_r. exists []. split; [by rewrite app_nil_r|]. exists x, t. by cbn in *.
Qed.

Lemma refuses_bind {A B} (p : parser A) (k : A -> parser B) w w' x : reads p w x -> refuses p w -> refuses (k x) w' -> refuses (pbind p k) (w ++ w').
Proof.
  intros Hr Hp Hk v Hv. unfold pbind. destruct (strict_prefix_app v w w' Hv) as [H|(v' & -> & H)].
  - destruct (Hp v H) as [e ->]. by exists e.
  - rewrite Hr. by apply Hk.
Qed.

Lemma refuses_last {A B} (p : parser A) (k : A -> parser B) w : refuses p w -> refuses (pbind p k) w.
Proof. intros Hp v Hv. unfold pbind. destruct (Hp v Hv) as [e ->]. by exists e. Qed.

Lemma refuses_nil {A} (p : parser A) : refuses p [].
Proof. intros v (x & t & E). by destruct v. Qed.

Lemma refuses_fixed n b : array n b -> refuses (read_fixed_bytes_at n) b.
Proof.
  intros [Hl _] v Hv. apply strict_prefix_length in Hv. unfold read_fixed_bytes_at, zlen. rewrite (proj2 (Z.ltb_lt _ _)) by lia. by eexists.
Qed.

Lemma refuses_u8 v : refuses read_u8_at (put 1 v).
Proof. intros u Hu. apply strict_prefix_length in Hu. destruct u; [by eexists|cbn in Hu; lia]. Qed.

Lemma refuses_string s : text s -> refuses read_u16_string_at (write_string s).
Proof.
  intros [Hc Hl]. pose proof (zlen_nonneg (as_bytes s)). eapply refuses_bind; [by apply reads_u16|apply refuses_last, refuses_fixed, put_array|]. intros v Hv. apply strict_prefix_length in Hv.
  unfold zlen. rewrite (proj2 (Z.ltb_lt _ _)) by lia. by eexists.
Qed.

Lemma refuses_conn_id s : conn_name s -> refuses read_conn_id_at (write_conn_id s).
Proof.
  intros Hs. apply refuses_last. intros v Hv. apply strict_prefix_length in Hv. rewrite (proj1 (write_conn_id_ok s Hs)) in Hv. unfold read_fixed_bytes_at, zlen. rewrite (proj2 (Z.ltb_lt _ _)) by lia. by eexists.
Qed.

Lemma refuses_put {A} n (k : bytes -> parser A) v : refuses (pbind (read_fixed_bytes_at n) k) (put n v).
Proof. apply refuses_last, refuses_fixed, put_array. Qed.

Lemma refuses_code {A} (f : Z -> option A) v : refuses (read_code f) (put 1 v).
Proof. apply refuses_last, refuses_u8. Qed.

Lemma refuses_i8 v : refuses read_i8_at (put 1 v).
Proof. apply refuses_last, refuses_u8. Qed.

Lemma refuses_session_id b : array SESSION_ID_SIZE b -> refuses read_session_id b.
Proof. apply refuses_fixed. Qed.

Lemma refuses_bool b : refuses read_u8_at (put_bool b).
Proof. apply refuses_u8. Qed.

#[export] Hint Resolve refuses_fixed refuses_u8 refuses_string refuses_conn_id refuses_code refuses_i8 refuses_session_id refuses_bool : wire.
#[export] Hint Extern 1 (refuses read_u16_at _) => apply refuses_put : wire.
#[export] Hint Extern 1 (refuses read_u32_at _) => apply refuses_put : wire.
#[export] Hint Extern 1 (refuses read_i64_at _) => apply refuses_put : wire.

Lemma refuses_local x : local_ok x -> refuses read_local (write_local x).
Proof. intros [H1 H2]. eapply refuses_bind; [eauto with wire..|]. apply refuses_last. eauto with wire. Qed.

Lemma refuses_candidate c : candidate_ok c -> refuses read_candidate (write_candidate c).
Proof. intros [H1 H2]. do 2 (eapply refuses_bind; [eauto with wire..|]). apply refuses_last. eauto with wire. Qed.

Lemma refuses_times {A} (p : parser A) (w : A -> bytes) (P : A -> Prop) l :
  (forall x, P x -> reads p (w x) x) -> (forall x, P x -> refuses p (w x)) -> Forall P l -> refuses (read_times (length l) p) (l ≫= w).
Proof.
  intros Hr Hp. induction 1 as [|x l Hx _ IH]; [apply refuses_nil|]. cbn [length read_times mbind list_bind]. eapply refuses_bind; [by apply Hr|by apply Hp|]. by apply refuses_last.
Qed.

Lemma refuses_list {A} (p : parser A) (w : A -> bytes) (P : A -> Prop) l :
  (forall x, P x -> reads p (w x) x) -> (forall x, P x -> refuses p (w x)) -> short P l -> refuses (read_list p) (write_list w l).
Proof.
  intros Hr Hp [Hl HP]. unfold read_list, write_list. rewrite Nat.min_l by done. rewrite firstn_all2 by done. eapply refuses_bind; [apply reads_u8; unfold unsigned; lia|apply refuses_u8|]. cbn beta.
  rewrite Nat2Z.id. by eapply refuses_times.
Qed.

Lemma refuses_candidates l : short candidate_ok l -> refuses read_candidates (write_list write_candidate l).
Proof. apply refuses_list; [apply reads_candidate|apply refuses_candidate]. Qed.

Lemma refuses_locals l : short local_ok l -> refuses (read_list read_local) (write_list write_local l).
Proof. apply refuses_list; [apply reads_local|apply refuses_local]. Qed.

Lemma refuses_offsets l : short (integer 8) l -> refuses (read_list read_i8_at) (write_list (put 1) l).
Proof. apply refuses_list; [apply reads_i8|intros; apply refuses_i8]. Qed.

#[export] Hint Resolve refuses_candidates refuses_locals refuses_offsets : wire.

(** The messages that neither end in a payload nor in fields that an older sender leaves out *)
Definition exact (m : BinaryMessage) : bool :=
  match m with
  | Auth _ _ _ _ _ _ _ _ | AuthResponse _ _ _ => false
  | _ => match (pack_fields m).2 with None => true | Some _ => false end
  end.

Ltac cut := repeat first [eapply refuses_bind; [field|solve [eauto with wire]|cbn beta] | apply refuses_last; solve [eauto with wire]].

Lemma pack_fields_cut m : msg_ok m -> exact m = true -> refuses (unpack_fields (pack_fields m).1.1) (pack_fields m).1.2.
Proof.
  destruct m; cbn [msg_ok pack_fields fst snd exact unpack_fields]; intros Hm Hx; try discriminate Hx; destruct_and?; by cut.
Qed.
Lemma unpack_cut m v : msg_ok m -> exact m = true -> strict_prefix v (to_bytes (pack m)) -> exists e, unpack v = Err e.
Proof.
  intros Hm Hx. assert ((pack_fields m).2 = None) as E by (destruct m; done). rewrite to_bytes_pack, E. unfold default. rewrite app_nil_r. intros Hv.
  unfold unpack, unpack_bytes. destruct v as [|a [|b v]]; [by eexists..|]. destruct Hv as (x & t & Ev). cbn [app] in Ev. injection Ev as <- <- Ev. change (negb (PROTOCOL_VERSION =? PROTOCOL_VERSION)) with false. cbn iota.
  rewrite from_as_u8. destruct (pack_fields_cut m Hm Hx v) as [e ->]; [by exists x, t|]. by exists e.
Qed.

(** ** The opening of a flow *)

Definition preface_ok (p : TcpFlowStreamPreface) : Prop := conn_name (p_conn_id p) /\ text (p_network p) /\ text (p_address p).
Definition open_ok (o : TcpFlowOpenV2) : Prop := conn_name (o_conn_id o) /\ array 16 (o_peerlink_session_id o) /\ is_bytes (o_sealed_open o).

Definition preface_fields : parser TcpFlowStreamPreface :=
  let% conn_id := read_conn_id_at in let% network := read_u16_string_at in let% address := read_u16_string_at in pret (mkPreface conn_id network address).

Lemma reads_preface p : preface_ok p -> reads preface_fields (write_conn_id (p_conn_id p) ++ write_string (p_network p) ++ write_string (p_address p)) p.
Proof. intros (H1 & H2 & H3). do 2 (eapply reads_bind; [eauto with wire|]). eapply reads_last; [eauto with wire|by destruct p]. Qed.

Lemma refuses_preface p : preface_ok p -> refuses preface_fields (write_conn_id (p_conn_id p) ++ write_string (p_network p) ++ write_string (p_address p)).
Proof. intros (H1 & H2 & H3). do 2 (eapply refuses_bind; [eauto with wire..|]). apply refuses_last. eauto with wire. Qed.

Lemma yields_preface : yields preface_fields preface_ok.
Proof. unfold preface_fields. fields. by apply yields_ret. Qed.

(** The narrow parser reads what the readers of both versions read first. *)
Lemma route_reads version rest conn_id r : version = TCP_FLOW_STREAM_PREFACE_VERSION \/ version = TCP_FLOW_OPEN_V2_VERSION ->
  read_conn_id_at rest = Ok (conn_id, r) -> tcp_flow_open_route (version :: rest) = Ok (version, conn_id).
Proof.
  intros Hv. unfold read_conn_id_at, pbind, read_fixed_bytes_at, string_of, tcp_flow_open_route. replace (_ && _) with false by (by destruct Hv as [-> | ->]).
  destruct (zlen rest <? Z.of_nat CONN_ID_SIZE); [done|]. destruct (from_utf8 _); [|done]. by intros [= <- _].
Qed.

Lemma preface_roundtrip p t : preface_ok p ->
  unpack_tcp_flow_stream_preface (pack_tcp_flow_stream_preface p ++ t) = match t with [] => Ok p | _ => Err BadLength end /\
  tcp_flow_open_route (pack_tcp_flow_stream_preface p ++ t) = Ok (TCP_FLOW_STREAM_PREFACE_VERSION, p_conn_id p).
Proof.
  intros Hp. unfold pack_tcp_flow_stream_preface. rewrite <- app_assoc. cbn [app]. split.
  - cbn [unpack_tcp_flow_stream_preface]. change (negb _) with false. cbn iota. fold preface_fields. rewrite (reads_preface p Hp t). by destruct t.
  - eapply route_reads; [by left|]. rewrite <- app_assoc. apply reads_conn_id, Hp.
Qed.

Lemma preface_cut p v : preface_ok p -> strict_prefix v (pack_tcp_flow_stream_preface p) -> exists e, unpack_tcp_flow_stream_preface v = Err e.
Proof.
  intros Hp Hv. destruct v as [|a v]; [by eexists|]. destruct Hv as (x & t & Ev). unfold pack_tcp_flow_stream_preface in Ev. cbn [app] in Ev. injection Ev as <- Ev.
  cbn [unpack_tcp_flow_stream_preface]. change (negb _) with false. cbn iota. fold preface_fields. destruct (refuses_preface p Hp v) as [e ->]; [by exists x, t|]. by exists e.
Qed.

Lemma open_roundtrip o : open_ok o ->
  unpack_tcp_flow_open_v2 (pack_tcp_flow_open_v2 o) = Ok o /\ tcp_flow_open_route (pack_tcp_flow_open_v2 o) = Ok (TCP_FLOW_OPEN_V2_VERSION, o_conn_id o).
Proof.
  intros (Hc & Ha & Hs). assert (tcp_flow_open_route (pack_tcp_flow_open_v2 o) = Ok (TCP_FLOW_OPEN_V2_VERSION, o_conn_id o)) as Hr.
  { unfold pack_tcp_flow_open_v2. cbn [app]. eapply route_reads; [by right|]. apply reads_conn_id, Hc. }
  split; [|done]. unfold unpack_tcp_flow_open_v2. rewrite Hr. cbn [rbind]. change (negb _) with false. cbn iota. unfold pack_tcp_flow_open_v2. rewrite app_assoc.
  rewrite drop_app_length' by (rewrite length_app, (proj1 (write_conn_id_ok _ Hc)); done). rewrite reads_fixed by done. by destruct o.
Qed.

Lemma preface_accepted frame p : is_bytes frame -> unpack_tcp_flow_stream_preface frame = Ok p ->
  preface_ok p /\ tcp_flow_open_route frame = Ok (TCP_FLOW_STREAM_PREFACE_VERSION, p_conn_id p).
Proof.
  intros Hf. destruct frame as [|v rest]; [done|]. apply Forall_cons in Hf as [_ Hf]. cbn [unpack_tcp_flow_stream_preface]. fold preface_fields. destruct (Z.eqb_spec v TCP_FLOW_STREAM_PREFACE_VERSION) as [-> |]; [|done]. cbn [negb].
  destruct (preface_fields rest) as [[q [|]]|] eqn:E; [|done..]. intros [= <-]. split; [by apply yields_preface in E as [? _]|].
  unfold preface_fields, pbind in E. destruct (read_conn_id_at rest) as [[c r]|] eqn:Ec; [|done]. destruct (read_u16_string_at r) as [[n r']|]; [|done]. destruct (read_u16_string_at r') as [[a r'']|]; [|done].
  injection E as <- _. eapply route_reads; [by left|done].
Qed.

Lemma open_accepted frame o : is_bytes frame -> unpack_tcp_flow_open_v2 frame = Ok o ->
  open_ok o /\ tcp_flow_open_route frame = Ok (TCP_FLOW_OPEN_V2_VERSION, o_conn_id o).
Proof.
  intros Hf. unfold unpack_tcp_flow_open_v2. destruct (tcp_flow_open_route frame) as [[v c]|] eqn:Er; [|done]. cbn [rbind]. destruct (Z.eqb_spec v TCP_FLOW_OPEN_V2_VERSION) as [-> |]; [|done]. cbn [negb].
  destruct (read_fixed_bytes_at 16 _) as [[s r]|] eqn:Es; [|done]. intros [= <-]. split; [|done].
  apply yields_fixed in Es as [Hs Hr]; [|by apply Forall_drop]. split; [|done]. cbn [o_conn_id]. destruct frame as [|x rest]; [done|]. apply Forall_cons in Hf as [_ Hf].
  unfold tcp_flow_open_route in Er. destruct (_ && _); [done|]. destruct (zlen rest <? _) eqn:El; [done|]. destruct (from_utf8 _) eqn:Eu; [|done]. injection Er as -> ->.
  apply (yields_conn_id rest c (drop CONN_ID_SIZE rest) Hf). unfold read_conn_id_at, pbind, read_fixed_bytes_at, string_of. by rewrite El, Eu.
Qed.
(** ** The wire contract *)

(** C11: Every message whose fields have their types is read back from its frame exactly as it
    was packed, whatever way its payload is carried, and the announced total length is the
    length of the frame. A frame that was cut anywhere is refused, never taken for another
    message, unless the message ends in a free payload or in the optional fields of the
    authentication. *)
Theorem message_roundtrip m : msg_ok m ->
  unpack (to_bytes (pack m)) = Ok m /\ total_len (pack m) = zlen (to_bytes (pack m)) /\
  (exact m = true -> forall v, strict_prefix v (to_bytes (pack m)) -> exists e, unpack v = Err e).
Proof. intros Hm. split; [by apply unpack_pack|]. split; [apply total_len_ok|]. intros Hx v. by apply unpack_cut. Qed.

(** C15: Whatever bytes arrive, a message that is accepted has the types of its fields: text is
    valid UTF-8 of less than 2^16 bytes, connection names have at most 12 bytes and no zero,
    integers fit their widths, arrays have their lengths, lists at most 255 elements, sealed and
    signed bodies their bounds. So it can be packed again, and is then read as the same message. *)
Theorem unpack_typed frame m : is_bytes frame -> unpack frame = Ok m -> msg_ok m /\ unpack (to_bytes (pack m)) = Ok m.
Proof. intros Hf Hm. apply (unpack_ok frame m Hf) in Hm. split; [done|by apply unpack_pack]. Qed.

(** C29: The two ways of opening a TCP flow. Packed openings are read back, a preface that is cut
    or followed by anything is refused, and for every frame that one of the two readers accepts
    the narrow parser of the gateway finds the version and the connection name that this reader
    finds, while the reader of the other version refuses it. *)
Theorem tcp_flow_open_agrees (p : TcpFlowStreamPreface) (o : TcpFlowOpenV2) (frame : bytes) : preface_ok p -> open_ok o -> is_bytes frame ->
  (unpack_tcp_flow_stream_preface (pack_tcp_flow_stream_preface p) = Ok p /\ unpack_tcp_flow_open_v2 (pack_tcp_flow_open_v2 o) = Ok o) /\
  (forall v, strict_prefix v (pack_tcp_flow_stream_preface p) -> exists e, unpack_tcp_flow_stream_preface v = Err e) /\
  (forall x t, unpack_tcp_flow_stream_preface (pack_tcp_flow_stream_preface p ++ x :: t) = Err BadLength) /\
  (forall q, unpack_tcp_flow_stream_preface frame = Ok q ->
     preface_ok q /\ tcp_flow_open_route frame = Ok (TCP_FLOW_STREAM_PREFACE_VERSION, p_conn_id q) /\ unpack_tcp_flow_open_v2 frame = Err (BadVersion TCP_FLOW_STREAM_PREFACE_VERSION)) /\
  (forall q, unpack_tcp_flow_open_v2 frame = Ok q ->
     open_ok q /\ tcp_flow_open_route frame = Ok (TCP_FLOW_OPEN_V2_VERSION, o_conn_id q) /\ unpack_tcp_flow_stream_preface frame = Err (BadVersion TCP_FLOW_OPEN_V2_VERSION)).
Proof.
  intros Hp Ho Hf. split_and!.
  - rewrite <- (app_nil_r (pack_tcp_flow_stream_preface p)). apply (preface_roundtrip p [] Hp).
  - by apply open_roundtrip.
  - intros v. by apply preface_cut.
  - intros x t. apply (preface_roundtrip p (x :: t) Hp).
  - intros q Hq. apply preface_accepted in Hq as [Hok Hr]; [|done]. split_and!; [apply Hok..|done|]. unfold unpack_tcp_flow_open_v2. by rewrite Hr.
  - intros q Hq. apply open_accepted in Hq as [Hok Hr]; [|done]. split_and!; [apply Hok..|done|]. destruct frame as [|v rest]; [done|]. cbn in Hr.
    destruct (_ && _); [done|]. destruct (_ <? _); [done|]. destruct (from_utf8 _); [|done]. by injection Hr as -> _.
Qed.
Definition sample_message : BinaryMessage := P2pOffer (replicate 16 7) [97] [98] [mkCandidate [49; 46; 49] 443 Host] (replicate 32 9) Acceptor.

(** The types of the fields of a concrete message *)
Ltac concrete :=
  cbn [replicate]; repeat match goal with
  | |- _ /\ _ => split
  | |- text _ => split
  | |- conn_name _ => split
  | |- array _ _ => split
  | |- short _ _ => split
  | |- candidate_ok _ => split; cbn [c_ip c_port]
  | |- Forall _ [] => constructor
  | |- Forall _ (_ :: _) => constructor
  | |- is_char _ => left; lia
  | |- _ ∉ _ => refine (bool_decide_unpack _ _); vm_compute; exact I
  | |- _ => done || (vm_compute; lia)
  end.

Lemma message_roundtrip_witness : unpack (to_bytes (pack sample_message)) = Ok sample_message /\ exists e, unpack (take 40 (to_bytes (pack sample_message))) = Err e.
Proof.
  assert (msg_ok sample_message) as Hok by (unfold sample_message; cbn [msg_ok]; concrete).
  pose proof (message_roundtrip sample_message Hok) as (H1 & _ & H3). split; [done|]. apply H3; [done|].
  eexists _, _. vm_compute. reflexivity.
Defined.

Lemma unpack_typed_witness : msg_ok (UdpData [97] [1; 2; 3]).
Proof.
  assert (is_bytes (to_bytes (pack (UdpData [97] [1; 2; 3])))) as Hf by (repeat (constructor; [done|]); constructor).
  apply (unpack_typed _ _ Hf). by vm_compute.
Defined.

Definition sample_preface : TcpFlowStreamPreface := mkPreface [97] [116; 99; 112] [104; 58; 49].
Definition sample_open : TcpFlowOpenV2 := mkOpen [97] (replicate 16 1) [5; 6].

Lemma tcp_flow_open_agrees_witness :
  tcp_flow_open_route (pack_tcp_flow_open_v2 sample_open) = Ok (2, [97]) /\ unpack_tcp_flow_stream_preface (pack_tcp_flow_open_v2 sample_open) = Err (BadVersion 2).
Proof.
  assert (preface_ok sample_preface) as Hp by (unfold preface_ok, sample_preface; cbn [p_conn_id p_network p_address]; concrete).
  assert (open_ok sample_open) as Ho by (unfold open_ok, sample_open; cbn [o_conn_id o_peerlink_session_id o_sealed_open]; concrete).
  assert (is_bytes (pack_tcp_flow_open_v2 sample_open)) as Hf by (repeat (constructor; [done|]); constructor).
  destruct (tcp_flow_open_agrees sample_preface sample_open _ Hp Ho Hf) as ([_ H1] & _ & _ & _ & H2). destruct (H2 _ H1) as (_ & H3 & H4). done.
Defined.

(** Lengths beyond their field wrap: a text of 2^16 bytes is read back as the empty one. *)
Example long_text_wraps : unpack (to_bytes (pack (Error (replicate (Z.to_nat (2 ^ 16)) 97)))) = Ok (Error []).
Proof. by vm_compute. Qed.

(** Names that agree in their first 12 bytes are one name on the wire. *)
Example long_conn_ids_merge : to_bytes (pack (Close (replicate 12 97 ++ [98]))) = to_bytes (pack (Close (replicate 12 97 ++ [99]))).
Proof. done. Qed.

(** A name whose 12th byte ends inside a character cannot be read at all. *)
Example cut_character_refused : unpack (to_bytes (pack (Close (replicate 11 97 ++ [0xE9])))) = Err BadUtf8.
Proof. by vm_compute. Qed.

End Protocol.
