(* ===== verification/Provisioning.v ===== *)
(** * Provisioning (crates/tp-core/src/provisioning.rs)

    The files of a Tunnel's owner, of the gateway and of a Peer, the membership that the owner
    signs, and the proofs that a Peer signs.  The cryptographic libraries are an interface
    ([Crypto], with its documented laws in [CryptoLaws]); random bytes and identifiers are
    arguments. *)

From Stdlib Require Import ZArith Lia String Ascii.
From stdpp Require Import base list numbers.
From S2P Require Import Prelude CBytes RustStd Protocol.
Import list_basics.list list_relations.list list_monad.list list_misc.list.
Import RustStd Protocol.

Module Provisioning.

(** ** The libraries *)

(** What [rustls_pemfile::read_all] yields *)
Inductive pem_item := X509Certificate (der : bytes) | OtherItem | BadItem.

Class Crypto := {
  b64_encode : bytes -> str;
  b64_decode : str -> option bytes;
  sha256 : bytes -> bytes;
  key_pair : Type;
  from_pkcs8 : bytes -> option key_pair;
  public_key : key_pair -> bytes;
  ed25519_sign : key_pair -> bytes -> bytes;
  ed25519_verify : bytes -> bytes -> bytes -> bool;
  pem_items : str -> list pem_item;
  uuid_parses : str -> bool
}.

Class CryptoLaws `{Crypto} : Prop := {
  b64_roundtrip b : is_bytes b -> b64_decode (b64_encode b) = Some b;
  b64_bytes s b : b64_decode s = Some b -> is_bytes b;
  sha256_array b : array 32 (sha256 b);
  public_key_array k : array 32 (public_key k);
  signature_array k m : array 64 (ed25519_sign k m);
  verify_signed k m : ed25519_verify (public_key k) m (ed25519_sign k m) = true
}.

(** A literal of the source as its bytes *)
Definition ascii_bytes (s : string) : bytes := (fun a => Z.of_N (N_of_ascii a)) <$> list_ascii_of_string s.

(** ** Data *)

Definition PROVISIONING_VERSION_V2 : Z := 2.
Definition MAX_REPLICA_HINT_V2 : Z := 8.
Definition OVERLAY_NETWORK_V2 : Z := be_number 256 [198; 18; 0; 0].
Definition OVERLAY_BROADCAST_V2 : Z := be_number 256 [198; 18; 255; 255].
Definition MEMBERSHIP_DOMAIN_V2 : bytes := ascii_bytes "lantunnel.peer.v2".
Definition PUBLIC_MEMBERSHIP_DOMAIN_V2 : bytes := ascii_bytes "lantunnel.public-membership.v2".
Definition ATTACHMENT_PROOF_DOMAIN_V2 : bytes := ascii_bytes "lantunnel.attach.v2".
Definition MANAGED_RESOLVE_PROOF_DOMAIN_V2 : bytes := ascii_bytes "lantunnel.resolve.v2".
Definition PLATFORM_HEARTBEAT_PROOF_DOMAIN_V2 : bytes := ascii_bytes "lantunnel.platform-heartbeat.v2".
Definition ED25519_PUBLIC_KEY_LEN : Z := 32.
Definition JAVASCRIPT_MAX_SAFE_INTEGER : Z := 9007199254740991.
Definition DEFAULT_GATEWAY_MAPPING_PROBE_PORT : Z := 8444.

Inductive ProvisioningError :=
| UnsupportedTransport | InvalidGatewayAddress | InvalidCertificatePem | UnsupportedVersion | InvalidIdentifier | InvalidKey | InvalidAllocation
| InvalidReplicas | OverlayUnavailable | OverlayPoolExhausted | InvalidPeerProfile | PeerKeyMismatch | InvalidMembershipSignature
| InvalidAttachmentProof | InvalidManagedResolveProof | InvalidPlatformHeartbeatProof | InvalidPlatformUrl | RandomGeneration
| CanonicalFieldTooLarge | CertificateRead.

Record GatewayBootstrapV2 := mkGateway {
  transport : str; dial_address : str; gateway_port : Z; mapping_port : option Z; tls_server_name : option str; trusted_certificate_pem : option str }.

Record AllocatedPeerV2 := mkAllocated { a_peer_id : str; a_overlay_ip : Z; a_peer_public_key : str; a_label : option str }.

Record TunnelOwnerFileV2 := mkOwner {
  o_version : Z; o_tunnel_id : str; static_gateway : GatewayBootstrapV2; tunnel_signing_private_key : str; allocated_peers : list AllocatedPeerV2 }.

Record GatewayScopeFileV2 := mkScope { s_version : Z; s_tunnel_id : str; s_tunnel_signing_public_key : str }.

Record PeerIdentityV2 := mkIdentity { i_peer_id : str; i_overlay_ip : Z; i_peer_private_key : str; i_peer_public_key : str; i_membership_signature : str }.

Inductive PeerBootstrapV2 := StaticGateway (g : GatewayBootstrapV2) | ManagedPlatform (platform_url : str).

Record PeerProfileV2 := mkProfile {
  p_version : Z; p_tunnel_id : str; p_tunnel_signing_public_key : str; p_replicas : Z; p_peer : PeerIdentityV2; p_bootstrap : PeerBootstrapV2 }.

Inductive PlatformHeartbeatPathModeV2 := Direct | Relay | Connecting | Disconnected.

Definition path_mode_as_str (m : PlatformHeartbeatPathModeV2) : str :=
  ascii_bytes (match m with Direct => "direct" | Relay => "relay" | Connecting => "connecting" | Disconnected => "disconnected" end).

Record PlatformHeartbeatProofV2 := mkHeartbeat {
  h_tunnel_id : str; h_peer_id : str; h_request_id : str; h_timestamp_ms : Z; h_client_version : str; h_final_heartbeat : bool; h_transport_active : bool;
  h_path_mode : PlatformHeartbeatPathModeV2 }.

Definition blank (s : str) : bool := bool_decide (trim s = []).

Definition validate_version (version : Z) : result unit ProvisioningError := if version =? PROVISIONING_VERSION_V2 then Ok tt else Err UnsupportedVersion.

Definition is_usable_overlay (ip : Z) : bool := (OVERLAY_NETWORK_V2 <? ip) && (ip <? OVERLAY_BROADCAST_V2).

(** ** Canonical fields *)

Definition append_field (value : bytes) : result bytes ProvisioningError :=
  if zlen value <? 2 ^ 32 then Ok (put 4 (zlen value) ++ value) else Err CanonicalFieldTooLarge.

(** One [append_field] after the other *)
Fixpoint append_fields (fields : list bytes) : result bytes ProvisioningError :=
  match fields with
  | [] => Ok []
  | f :: fields => let? b := append_field f in let? rest := append_fields fields in Ok (b ++ rest)
  end.

Definition encode_peer_membership_v2 (tunnel_id peer_id : str) (overlay_ip : Z) (peer_public_key : bytes) : result bytes ProvisioningError :=
  append_fields [MEMBERSHIP_DOMAIN_V2; as_bytes tunnel_id; as_bytes peer_id; octets4 overlay_ip; peer_public_key].

Section crypto.
Context `{Crypto}.

Definition decode_key_pair (encoded : str) : result key_pair ProvisioningError :=
  let? b := ok_or (b64_decode encoded) InvalidKey in ok_or (from_pkcs8 b) InvalidKey.

Definition decode_public_key (encoded : str) : result bytes ProvisioningError :=
  let? b := ok_or (b64_decode encoded) InvalidKey in
  if negb (zlen b =? ED25519_PUBLIC_KEY_LEN) then Err InvalidKey else Ok b.

(** [pkcs8]: what the generator of the library yields *)
Definition generate_key_pair (pkcs8 : option bytes) : result (bytes * bytes) ProvisioningError :=
  let? b := ok_or pkcs8 RandomGeneration in
  let? k := ok_or (from_pkcs8 b) RandomGeneration in
  Ok (b, public_key k).

Definition encode_public_membership_v2 (m : PublicPeerMembershipV2) : result bytes ProvisioningError :=
  let? peer_public_key := decode_public_key (m_peer_public_key m) in
  let? membership_signature := ok_or (b64_decode (m_membership_signature m)) InvalidMembershipSignature in
  append_fields [PUBLIC_MEMBERSHIP_DOMAIN_V2; as_bytes (m_tunnel_id m); as_bytes (m_peer_id m); octets4 (m_overlay_ip m); peer_public_key; membership_signature].

Definition encode_attachment_proof_v2 (m : PublicPeerMembershipV2) (challenge : bytes) (replica_id : str) : result bytes ProvisioningError :=
  if blank replica_id then Err InvalidIdentifier
  else
    let? membership := encode_public_membership_v2 m in
    append_fields [ATTACHMENT_PROOF_DOMAIN_V2; challenge; as_bytes (m_tunnel_id m); as_bytes (m_peer_id m); as_bytes replica_id; sha256 membership].

Definition encode_managed_resolve_proof_v2 (m : PublicPeerMembershipV2) (timestamp : Z) (request_id : str) : result bytes ProvisioningError :=
  if blank request_id then Err InvalidIdentifier
  else
    let? membership := encode_public_membership_v2 m in
    append_fields [MANAGED_RESOLVE_PROOF_DOMAIN_V2; sha256 membership; put 8 timestamp; as_bytes request_id].

Definition heartbeat_valid (i : PlatformHeartbeatProofV2) : bool :=
  uuid_parses (h_tunnel_id i) && uuid_parses (h_peer_id i) && uuid_parses (h_request_id i) && (h_timestamp_ms i <=? JAVASCRIPT_MAX_SAFE_INTEGER) &&
  negb (bool_decide (h_client_version i = [])) && (zlen (as_bytes (h_client_version i)) <=? 64) && bool_decide (trim (h_client_version i) = h_client_version i) &&
  negb (h_final_heartbeat i && (h_transport_active i || match h_path_mode i with Disconnected => false | _ => true end)).

Definition byte_of (b : bool) : bytes := [if b then 1 else 0].

Definition encode_platform_heartbeat_proof_v2 (i : PlatformHeartbeatProofV2) : result bytes ProvisioningError :=
  if negb (heartbeat_valid i) then Err InvalidPlatformHeartbeatProof
  else
    append_fields [PLATFORM_HEARTBEAT_PROOF_DOMAIN_V2; as_bytes (h_tunnel_id i); as_bytes (h_peer_id i); as_bytes (h_request_id i); put 8 (h_timestamp_ms i);
                   as_bytes (h_client_version i); byte_of (h_final_heartbeat i); byte_of (h_transport_active i); as_bytes (path_mode_as_str (h_path_mode i))].

(** ** Gateway *)

Fixpoint certificates (items : list pem_item) : result (list bytes) ProvisioningError :=
  match items with
  | [] => Ok []
  | BadItem :: _ => Err CertificateRead
  | OtherItem :: _ => Err InvalidCertificatePem
  | X509Certificate der :: items => let? l := certificates items in Ok (der :: l)
  end.

(** [chunks(64)], each shown with a line feed *)
Fixpoint pem_lines (fuel : nat) (encoded : bytes) : result str ProvisioningError :=
  match fuel, encoded with
  | O, _ | _, [] => Ok []
  | S fuel, _ =>
      let? line := ok_or (from_utf8 (take 64 encoded)) InvalidCertificatePem in
      let? rest := pem_lines fuel (drop 64 encoded) in
      Ok (line ++ [10] ++ rest)
  end.

Fixpoint pem_blocks (l : list bytes) : result str ProvisioningError :=
  match l with
  | [] => Ok []
  | der :: l =>
      let encoded := as_bytes (b64_encode der) in
      let? lines := pem_lines (List.length encoded) encoded in
      let? rest := pem_blocks l in
      Ok (ascii_bytes "-----BEGIN CERTIFICATE-----" ++ [10] ++ lines ++ ascii_bytes "-----END CERTIFICATE-----" ++ [10] ++ rest)
  end.

Definition normalize_certificate_pem (pem : str) : result str ProvisioningError :=
  let? l := certificates (pem_items pem) in
  match l with [] => Err InvalidCertificatePem | _ => pem_blocks l end.

Definition quic : str := ascii_bytes "quic".
Definition transports : list str := [quic; ascii_bytes "websocket"; ascii_bytes "grpc"].

Definition gateway_validate (g : GatewayBootstrapV2) : result unit ProvisioningError :=
  if negb (bool_decide (transport g ∈ transports)) then Err UnsupportedTransport
  else if blank (dial_address g) || (gateway_port g =? 0) then Err InvalidGatewayAddress
  else
    let mapping := default DEFAULT_GATEWAY_MAPPING_PROBE_PORT (mapping_port g) in
    if (mapping =? 0) || (bool_decide (transport g = quic) && (mapping =? gateway_port g)) then Err InvalidGatewayAddress
    else if match tls_server_name g with Some name => blank name | None => false end then Err InvalidGatewayAddress
    else match trusted_certificate_pem g with Some pem => let? _ := normalize_certificate_pem pem in Ok tt | None => Ok tt end.

(** ** Membership *)

(** [UnparsedPublicKey::new(&ED25519, key).verify(message, signature).map_err(|_| e)] *)
Definition check_signature (key message signature : bytes) (e : ProvisioningError) : result unit ProvisioningError :=
  if ed25519_verify key message signature then Ok tt else Err e.

Definition membership_verify (m : PublicPeerMembershipV2) (tunnel_signing_public_key : str) : result unit ProvisioningError :=
  if blank (m_tunnel_id m) || blank (m_peer_id m) || negb (is_usable_overlay (m_overlay_ip m)) then Err InvalidPeerProfile
  else
    let? tunnel_public_key := decode_public_key tunnel_signing_public_key in
    let? peer_public_key := decode_public_key (m_peer_public_key m) in
    let? membership := encode_peer_membership_v2 (m_tunnel_id m) (m_peer_id m) (m_overlay_ip m) peer_public_key in
    let? signature := ok_or (b64_decode (m_membership_signature m)) InvalidMembershipSignature in
    check_signature tunnel_public_key membership signature InvalidMembershipSignature.

Definition verify_attachment_proof (m : PublicPeerMembershipV2) (challenge : bytes) (replica_id signature : str) : result unit ProvisioningError :=
  let? key := decode_public_key (m_peer_public_key m) in
  let? signature := ok_or (b64_decode signature) InvalidAttachmentProof in
  let? message := encode_attachment_proof_v2 m challenge replica_id in
  check_signature key message signature InvalidAttachmentProof.

Definition verify_managed_resolve_proof (m : PublicPeerMembershipV2) (timestamp : Z) (request_id signature : str) : result unit ProvisioningError :=
  let? key := decode_public_key (m_peer_public_key m) in
  let? signature := ok_or (b64_decode signature) InvalidManagedResolveProof in
  let? message := encode_managed_resolve_proof_v2 m timestamp request_id in
  check_signature key message signature InvalidManagedResolveProof.

Definition verify_platform_heartbeat_proof (m : PublicPeerMembershipV2) (i : PlatformHeartbeatProofV2) (signature : str) : result unit ProvisioningError :=
  if negb (bool_decide (h_tunnel_id i = m_tunnel_id m) && bool_decide (h_peer_id i = m_peer_id m)) then Err InvalidPlatformHeartbeatProof
  else
    let? key := decode_public_key (m_peer_public_key m) in
    let? signature := ok_or (b64_decode signature) InvalidPlatformHeartbeatProof in
    let? message := encode_platform_heartbeat_proof_v2 i in
    check_signature key message signature InvalidPlatformHeartbeatProof.

Definition verify_peer_message_v2 (m : PublicPeerMembershipV2) (message signature : bytes) : result unit ProvisioningError :=
  let? key := decode_public_key (m_peer_public_key m) in
  check_signature key message signature InvalidAttachmentProof.

(** ** Peer profile *)

Definition public_membership (p : PeerProfileV2) : PublicPeerMembershipV2 :=
  mkMembership (p_tunnel_id p) (i_peer_id (p_peer p)) (i_overlay_ip (p_peer p)) (i_peer_public_key (p_peer p)) (i_membership_signature (p_peer p)).

Definition https : str := ascii_bytes "https://".

Definition bootstrap_validate (b : PeerBootstrapV2) : result unit ProvisioningError :=
  match b with
  | StaticGateway g => gateway_validate g
  | ManagedPlatform url =>
      if match strip_prefix https url with Some _ => 8 <? zlen (as_bytes url) | None => false end then Ok tt else Err InvalidPlatformUrl
  end.

Definition profile_verify (p : PeerProfileV2) : result unit ProvisioningError :=
  let? _ := validate_version (p_version p) in
  if blank (p_tunnel_id p) || blank (i_peer_id (p_peer p)) || (p_replicas p =? 0) || (MAX_REPLICA_HINT_V2 <? p_replicas p) ||
     negb (is_usable_overlay (i_overlay_ip (p_peer p))) then Err InvalidPeerProfile
  else
    let? _ := bootstrap_validate (p_bootstrap p) in
    let? peer_public_key := decode_public_key (i_peer_public_key (p_peer p)) in
    let? k := decode_key_pair (i_peer_private_key (p_peer p)) in
    if negb (bool_decide (public_key k = peer_public_key)) then Err PeerKeyMismatch
    else membership_verify (public_membership p) (p_tunnel_signing_public_key p).

(** [self.verify()?] and the pair of keys *)
Definition signing_key (p : PeerProfileV2) : result key_pair ProvisioningError :=
  let? _ := profile_verify p in decode_key_pair (i_peer_private_key (p_peer p)).

Definition sign_attachment_proof (p : PeerProfileV2) (challenge : bytes) (replica_id : str) : result str ProvisioningError :=
  let? k := signing_key p in
  let? message := encode_attachment_proof_v2 (public_membership p) challenge replica_id in
  Ok (b64_encode (ed25519_sign k message)).

Definition sign_managed_resolve_proof (p : PeerProfileV2) (timestamp : Z) (request_id : str) : result str ProvisioningError :=
  let? k := signing_key p in
  let? message := encode_managed_resolve_proof_v2 (public_membership p) timestamp request_id in
  Ok (b64_encode (ed25519_sign k message)).

Definition sign_platform_heartbeat_proof (p : PeerProfileV2) (i : PlatformHeartbeatProofV2) : result str ProvisioningError :=
  let? _ := profile_verify p in
  if negb (bool_decide (h_tunnel_id i = p_tunnel_id p) && bool_decide (h_peer_id i = i_peer_id (p_peer p))) then Err InvalidPlatformHeartbeatProof
  else
    let? k := decode_key_pair (i_peer_private_key (p_peer p)) in
    let? message := encode_platform_heartbeat_proof_v2 i in
    Ok (b64_encode (ed25519_sign k message)).

(** [try_into] an array of 64 bytes *)
Definition sign_peer_message_v2 (p : PeerProfileV2) (message : bytes) : result bytes ProvisioningError :=
  let? k := signing_key p in
  let signature := ed25519_sign k message in
  if zlen signature =? 64 then Ok signature else Err InvalidKey.

(** ** Owner file *)

Definition owner_generate (g : GatewayBootstrapV2) (pkcs8 : option bytes) (uuid : str) : result TunnelOwnerFileV2 ProvisioningError :=
  let? _ := gateway_validate g in
  let? k := generate_key_pair pkcs8 in
  Ok (mkOwner PROVISIONING_VERSION_V2 uuid g (b64_encode (fst k)) []).

Fixpoint check_allocations (ids : list str) (ips : list Z) (l : list AllocatedPeerV2) : result unit ProvisioningError :=
  match l with
  | [] => Ok tt
  | p :: l =>
      if blank (a_peer_id p) || negb (is_usable_overlay (a_overlay_ip p)) || bool_decide (a_peer_id p ∈ ids) || bool_decide (a_overlay_ip p ∈ ips) ||
         match decode_public_key (a_peer_public_key p) with Ok _ => false | Err _ => true end
      then Err InvalidAllocation
      else check_allocations (a_peer_id p :: ids) (a_overlay_ip p :: ips) l
  end.

Definition owner_verify (o : TunnelOwnerFileV2) : result unit ProvisioningError :=
  let? _ := validate_version (o_version o) in
  if blank (o_tunnel_id o) then Err InvalidIdentifier
  else
    let? _ := gateway_validate (static_gateway o) in
    let? _ := decode_key_pair (tunnel_signing_private_key o) in
    check_allocations [] [] (allocated_peers o).

Definition scope (o : TunnelOwnerFileV2) : result GatewayScopeFileV2 ProvisioningError :=
  let? _ := owner_verify o in
  let? k := decode_key_pair (tunnel_signing_private_key o) in
  Ok (mkScope PROVISIONING_VERSION_V2 (o_tunnel_id o) (b64_encode (public_key k))).

Definition scope_verify (s : GatewayScopeFileV2) : result unit ProvisioningError :=
  let? _ := validate_version (s_version s) in
  if blank (s_tunnel_id s) then Err InvalidIdentifier
  else let? _ := decode_public_key (s_tunnel_signing_public_key s) in Ok tt.

(** The first address from [ip] on that is free, among [n] *)
Fixpoint first_free (n : nat) (ip : Z) (allocated : list Z) : option Z :=
  match n with
  | O => None
  | S n => if bool_decide (ip ∈ allocated) then first_free n (ip + 1) allocated else Some ip
  end.

Definition next_overlay_ip (o : TunnelOwnerFileV2) : result Z ProvisioningError :=
  let first := OVERLAY_NETWORK_V2 + 1 in
  ok_or (first_free (Z.to_nat (OVERLAY_BROADCAST_V2 - first)) first (a_overlay_ip <$> allocated_peers o)) OverlayPoolExhausted.

Definition choose_overlay_ip (o : TunnelOwnerFileV2) (requested : option Z) : result Z ProvisioningError :=
  match requested with
  | Some ip => if negb (is_usable_overlay ip) || bool_decide (ip ∈ a_overlay_ip <$> allocated_peers o) then Err OverlayUnavailable else Ok ip
  | None => next_overlay_ip o
  end.

Definition add_peer (o : TunnelOwnerFileV2) (requested : option Z) (replicas : Z) (label : option str) (pkcs8 : option bytes) (uuid : str) :
    result (PeerProfileV2 * TunnelOwnerFileV2) ProvisioningError :=
  let? _ := owner_verify o in
  if (replicas =? 0) || (MAX_REPLICA_HINT_V2 <? replicas) then Err InvalidReplicas
  else
    let? overlay_ip := choose_overlay_ip o requested in
    let? tunnel_key := decode_key_pair (tunnel_signing_private_key o) in
    let? peer_key := generate_key_pair pkcs8 in
    let peer_public_key := b64_encode (snd peer_key) in
    let? membership := encode_peer_membership_v2 (o_tunnel_id o) uuid overlay_ip (snd peer_key) in
    let profile := mkProfile PROVISIONING_VERSION_V2 (o_tunnel_id o) (b64_encode (public_key tunnel_key)) replicas
      (mkIdentity uuid overlay_ip (b64_encode (fst peer_key)) peer_public_key (b64_encode (ed25519_sign tunnel_key membership))) (StaticGateway (static_gateway o)) in
    let? _ := profile_verify profile in
    let allocation := mkAllocated uuid overlay_ip peer_public_key (l ← label; if blank l then None else Some l) in
    Ok (profile, mkOwner (o_version o) (o_tunnel_id o) (static_gateway o) (tunnel_signing_private_key o) (allocated_peers o ++ [allocation])).

End crypto.
(** ** Canonical bytes determine their fields *)

Lemma append_field_ok f : zlen f < 2 ^ 32 -> append_field f = Ok (put 4 (zlen f) ++ f).
Proof. intros. unfold append_field. by rewrite (proj2 (Z.ltb_lt _ _)). Qed.

Lemma append_fields_ok l : Forall (fun f => zlen f < 2 ^ 32) l -> exists b, append_fields l = Ok b.
Proof. induction 1 as [|f l Hf _ [b Hb]]; [by eexists|]. cbn [append_fields]. rewrite append_field_ok by done. cbn [rbind]. rewrite Hb. by eexists. Qed.

Lemma append_fields_inj l l' b : append_fields l = Ok b -> append_fields l' = Ok b -> l = l'.
Proof.
  revert l' b. induction l as [|f l IH]; intros [|f' l'] b; cbn [append_fields]; [done| | |].
  - intros [= <-] H. steps H. unfold append_field in E. case_match; [|done]. injection E as <-. cbn in H. discriminate H.
  - intros H [= <-]. steps H. unfold append_field in E. case_match; [|done]. injection E as <-. cbn in H. discriminate H.
  - intros H H'. steps H. steps H'. unfold append_field in *. destruct (Z.ltb_spec (zlen f) (2 ^ 32)) as [Hl|], (Z.ltb_spec (zlen f') (2 ^ 32)) as [Hl'|]; try done.
    apply ok_inj in E as <-, E1 as <-, H as <-, H'. rewrite <- !app_assoc in H'.
    apply app_inj_1 in H' as [Hp Hr]; [|by rewrite !(proj1 (put_array _ _))]. pose proof (zlen_nonneg f). pose proof (zlen_nonneg f').
    assert (zlen f = zlen f') as Hz. { apply (f_equal (be_number 256)) in Hp. unfold put in Hp. rewrite !be_to_be in Hp by lia. change (256 ^ Z.of_nat 4) with (2 ^ 32) in Hp. rewrite !Z.mod_small in Hp by lia. done. }
    apply app_inj_1 in Hr as [-> ->]; [|unfold zlen in Hz; lia]. f_equal. by eapply IH.
Qed.

Lemma octets4_inj a b : unsigned 32 a -> unsigned 32 b -> octets4 a = octets4 b -> a = b.
Proof. intros Ha Hb E. apply (f_equal (be_number 256)) in E. by rewrite !be_octets4 in E. Qed.

Lemma put_inj n a b : unsigned (8 * Z.of_nat n) a -> unsigned (8 * Z.of_nat n) b -> put n a = put n b -> a = b.
Proof.
  intros Ha Hb E. apply (f_equal (be_number 256)) in E. unfold put in E. rewrite !be_to_be in E by lia. unfold unsigned in *. rewrite Z.pow_mul_r in Ha, Hb by lia. change (2 ^ 8) with 256 in *. by rewrite !Z.mod_small in E.
Qed.

End Provisioning.
